(* ===== verification/_CoqProject ===== *)
-Q . S2P
Prelude.v
Des.v
Numeric.v
Queue.v
TaskQueue.v
Strings.v
Encodings.v
Format.v
Calendar.v
Hashtable.v
HlMempool.v
ConnPool.v
Rbtree.v
EventTimer.v
Shmem.v
ShmemInv.v
ShmemClient.v
Memory.v
Codec.v
Request.v
MemoryPool.v
Chain.v
Allocator.v
Slabs.v
Array.v
ConfBase.v
Conf.v
ServerConf.v
Lock.v
Critical.v
MemBlks.v
Event.v
