(* ===== verification/Prelude.v ===== *)
(** * Verification of the ngx_epoll_sample server: guide and shared prelude

    ** The program

    The server under [src/src] is a multi-threaded RPC server on epoll. A worker thread
    accepts connections, reads requests ([task_t] records) from them and puts each one on the
    queue of a task thread; the task thread handles it and puts the response on the queue of
    the thread the connection belongs to, which writes it back. Under [src/src/core] is the
    library all of this rests on, written after nginx's: intrusive queues, red-black trees and
    timers, hash tables, memory pools, a shared-memory allocator, byte strings with their
    parsers, encoders and formatter, calendar time, and DES.

    How the parts meet: the task queues, the free lists of the half-life pool and the free
    lists and block order of the shared-memory segment are intrusive queues; the timers of a
    thread are one red-black tree keyed by the time they are due; the hash table sizes itself
    with the prime search, the shared-memory classes with the logarithm; the HTTP dates are
    printed by the formatter; requests travel from the receive buffer through the task queues
    to the send buffer.

    ** The files

    - Prelude.v (this file): addresses, machine integers with their reductions, C characters,
      the option monad's notation, list and integer lemmas, the hint databases [cint] and the
      tactics every file shares.
    - Numeric.v ([core/dfs_math.cpp], first part): [dfs_math_dfslog2], the rounding macros, the
      primality test and the next prime.
    - Des.v ([core/dfs_math.cpp], second part): DES and Triple-DES.
    - Queue.v ([core/dfs_queue.h], [core/dfs_queue.cpp]): every queue macro on a heap of link
      fields, [queue_middle], [queue_sort]; [is_queue m h xs] is the representation predicate
      every other file with queues uses.
    - TaskQueue.v ([nn_task_queue.cpp], [nn_task_handler.cpp], [nn_net_response_handler.cpp]):
      the locked queue as trees of atomic steps, run alone or interleaved by a step relation,
      and the two consumers.
    - Strings.v, Encodings.v, Format.v ([core/dfs_string.cpp]): comparison, search and number
      parsing; Base64, UTF-8, URI and HTML escapes; the formatter [string_xxvsnprintf].
    - Calendar.v ([core/dfs_time.cpp]): civil time and HTTP dates.
    - Hashtable.v ([core/dfs_hashtable.cpp]): the chained table and its hash functions; its
      client interface is the class [HashOk].
    - HlMempool.v ([core/dfs_half_life_mempool.cpp]) and ConnPool.v ([core/dfs_conn_pool.cpp]):
      the pool of message nodes, and the per-thread and common pools of connections.
    - Rbtree.v ([core/dfs_rbtree.cpp]) and EventTimer.v ([core/dfs_event_timer.cpp]): the tree
      over a heap of nodes, with the interface [OrderedNodes] it implements, and the timers,
      which are proved against that interface only.
    - Shmem.v, ShmemInv.v, ShmemClient.v ([core/dfs_shmem.cpp]): the shared-memory allocator;
      its definitions, its invariant with a lemma per operation, and the abstract allocator
      it refines with a client that runs sequences of calls.
    - Memory.v, Codec.v ([core/dfs_buffer.cpp], [common/dfs_task.cpp],
      [common/dfs_task_codec.cpp]): byte memory, the buffers, the task record in bytes, and
      the codec between tasks in buffers and tasks in memory.
    - Request.v ([nn_request.cpp], parts of [core/dfs_sysio.cpp]): the connection, in a state
      monad over a world of byte memory, links, task nodes and the connection itself; its
      handlers, and the histories of a connection as a step relation.
    - MemoryPool.v ([core/dfs_memory_pool.cpp], [core/dfs_memory.cpp]): the pool of blocks and
      large blocks over [malloc], and its clients.
    - Chain.v ([core/dfs_chain.cpp], chain functions of [core/dfs_sysio.cpp]): chains of
      memory and file buffers, their output by [writev] and [sendfile], and input by [readv].
    - Allocator.v ([core/dfs_mem_allocator.cpp], [core/dfs_shmem_allocator.cpp],
      [core/dfs_mempool_allocator.cpp], [core/dfs_commpool.cpp] and its allocator): the table
      of functions as the class [Allocator], what its users rely on as [AllocatorOk], and the
      instances; Slabs.v ([core/dfs_slabs.cpp]): the slab allocator over any of them.
    - Array.v ([core/dfs_array.cpp], [core/dfs_list.cpp]): growing arrays and part lists, over
      the memory pool and [malloc].
    - ConfBase.v ([core/dfs_conf_base.cpp]), Conf.v ([core/dfs_conf.cpp]), ServerConf.v
      ([dn_conf.cpp]): the option handlers on objects of bytes and values at offsets, over the
      class [Storage], whose instance is the memory pool with its arrays; the character loop, the dispatch of statements and the defaults; the
      class [Server] of the program, and the repository's configuration file run through it.
    - Lock.v ([core/dfs_lock.cpp]): the atomic lock as programs of single accesses to its word,
      the process locks over pthread functions, which are classes, and the error records;
      Critical.v ([LOCK] and [UNLOCK] of [core/dfs_mblks.h]): threads that share data under an
      atomic lock, once access by access and once with critical sections as single steps;
      MemBlks.v ([core/dfs_mblks.cpp]): the shared free list of blocks, a client of Critical.
    - Event.v ([core/dfs_epoll.cpp], [core/dfs_event.cpp], [core/dfs_conn.cpp], parts of
      [core/dfs_conn_listen.cpp] and [dn_thread.cpp]): registration with the kernel, which is
      the class [Epoll] with its laws [EpollOk], the loop over reports, posted events, and a
      thread's turn.
    ** Conventions

    A definition has the name of the C function it models and returns [None] where the C
    function's behaviour is undefined: reading or writing an object that does not exist,
    signed overflow, division by zero. So a theorem that an operation returns [Some] is a
    memory-safety theorem. Integers are [Z], reduced to their width after every operation
    that can leave it ([u8] to [u64], [s16] to [s64]). The mutable objects of a component are
    a heap that the operations thread through; every update is written in the order of the
    source's assignments, and aliasing is that of the addresses. Errors are values: a boolean
    or the error number, as in the source. Log and debug output is left out. The results of
    [malloc], [mmap], [recv], [send] and of the handlers a table or a timer calls are
    parameters, with the documented behaviour that a theorem needs as a named hypothesis.

    ** What the theorems show

    Each theorem's comment states its conditions; what follows names the common ones.

    - Representation and refinement: the intrusive queue macros, the hash table, the tree, the
      timers, the two pools and the shared-memory segment each keep an abstract state (a list,
      a dictionary, a sorted sequence, the free and busy objects, a list of blocks) and every
      operation has the effect its specification gives on that state (Queue, Hashtable, Rbtree,
      EventTimer, ConnPool, HlMempool, ShmemClient).
    - Concurrency: any interleaving of the locked task-queue operations has the effect of some
      sequential order (TaskQueue).
    - Clients and liveness: sequences of allocations, splits and frees of ranges still held
      keep the shared-memory segment whole, and nothing is lost when everything is given back;
      a response written back is handed on once (a batch is taken from its newest node); every
      due timer runs, in order.
    - Functional correctness of the pure routines against independent definitions: comparison
      and search, number parsing, calendar, primes, logarithm, escapes, sorting.
    - Round trips: Base64, URI escapes, UTF-8, DES and Triple-DES, printing and parsing of
      integers, HTTP dates.
    - Bounds and errors: the formatter never writes behind its buffer when the buffer and the
      lengths of its string arguments are below 2^63 (the length of %*s is any number; one that
      makes the sum of pointers wrap around is undefined, [Format.star_length_wraps]); the
      parsers answer an error exactly when the number does not fit.
    - Composition: the connection over its buffers, codec and queues. For every history of
      read, write and timer events, partial reads and writes, and responses - for a peer that
      sends whole messages, the four bytes of a length arriving together, and responses that
      fit the send buffer - requests are dispatched in the peer's order with the contents it
      sent, each to the thread of its key; responses are sent in the order they are handed to
      the connection; the handlers are defined, but for one case of the timer handler, which
      is characterised; nodes are conserved, and the pool is destroyed with the last request in
      flight (Request, on top of Codec and Queue). Examples show what the other peers do.
    - Allocation: sequences of allocations and of writes into the ranges answered, without
      [pool_reset], leave a memory pool's own data intact if its first block has room for the
      node of a large block, and destroying the pool gives back all it took (MemoryPool). A
      header a write overlaps no longer exists in the model. Clients of the slab allocator are
      safe, for requests below 2^61, over every allocator that keeps the promise of [AllocatorOk] and has
      an operation to free, and the three allocators of the program keep the promise
      (Allocator, Slabs).
    - Chains: output and input lose no byte and keep the order across partial, interrupted
      and refused system calls, and a limit is kept; the one shape of chain for which output
      does lose bytes is excluded by a hypothesis and shown by an example (Chain).
    - Configuration: over any storage, the parser of a text does what a reader of its bare
      words does, whatever the layout, as long as no word is longer than the option buffer;
      sizes and addresses are parsed exactly; arrays keep their elements while they move (Conf,
      ConfBase, Array). The defaults of the options are written to the wrong place, which is a
      theorem about the bytes of the array of variables (ServerConf).
    - Locking: the machine of single accesses does what the machine of atomic sections does, if
      the latter has no data race; the shared blocks are used by one thread at a time (Critical,
      MemBlks). Memory is sequentially consistent in both machines.
    - Events: what the kernel watches is what the events of the open connections say, after
      every history of registrations, failures of [epoll_ctl] and closings; a turn calls the
      handlers of what was reported, accept events first, and leaves no event behind (Event).
    ** Fuel

    Loops that are not structural carry fuel, and a lemma shows that the fuel they are called
    with is enough. The searches along a queue use the number of its cells; [queue_sort] and
    [queue_middle] the length of the list; the tree loops the size of the heap, which bounds
    every path; the formatter and parsers the length of the input;
    the prime search takes the number of candidates as an argument, and its theorem says how
    many are enough; the searches of the shared-memory segment the number of classes or of
    blocks. Out of fuel is [None] as well, so the theorems that an operation returns [Some]
    are termination theorems too.

    ** Not modelled

    - Sockets, files and pipes: system calls and the functions that only wrap them, such as the
      creation and binding of sockets, [accept], log files, the pid file and core dumps. The
      models take the results of the calls as parameters or classes with laws ([recv], [send],
      [writev], [epoll_ctl], [epoll_wait], [malloc]); there is no program text for the rest.
    - Log and debug output, which changes no state the other parts read.
    - [fork], signals, the process table, the start and the end of threads, and the master's
      loop: their meaning is that of the kernel's processes and of pthread, which are not
      under [src].
    - Accepting connections ([dn_conn_event.cpp]): [accept] and the settings of the descriptor.
      What it calls is modelled: [nn_conn_init] (Request), the pool of connections (ConnPool)
      and the registration of the listening sockets (Event).
    - The memory order of the processor: the machines of TaskQueue, Lock and Critical are
      sequentially consistent.
    - The test client.
*)

From stdpp Require Export prelude fin_maps gmap.
From Stdlib Require Export ZArith Lia.

#[global] Open Scope Z_scope.

(** Addresses of objects in a modelled heap. *)
Abbreviation ptr := N.
Definition nullptr : ptr := 0%N.

(** ** Machine integers

    A C integer is a [Z]; the operations that can leave the type's range are
    wrapped explicitly with one of the reductions below. *)

(** Unsigned reductions: [uint8_t], [uint16_t], [uint32_t], [uint64_t]/[size_t]. *)
Definition u8 (z : Z) : Z := z mod 2 ^ 8.
Definition u16 (z : Z) : Z := z mod 2 ^ 16.
Definition u32 (z : Z) : Z := z mod 2 ^ 32.
Definition u64 (z : Z) : Z := z mod 2 ^ 64.

(** Two's complement reductions: [int16_t]/[short], [int32_t]/[int], [int64_t]/[ssize_t]. *)
Definition s16 (z : Z) : Z := (z + 2 ^ 15) mod 2 ^ 16 - 2 ^ 15.
Definition s32 (z : Z) : Z := (z + 2 ^ 31) mod 2 ^ 32 - 2 ^ 31.
Definition s64 (z : Z) : Z := (z + 2 ^ 63) mod 2 ^ 64 - 2 ^ 63.

Definition is_u8 (z : Z) : Prop := 0 <= z < 2 ^ 8.
Definition is_u32 (z : Z) : Prop := 0 <= z < 2 ^ 32.
Definition is_u64 (z : Z) : Prop := 0 <= z < 2 ^ 64.
Definition is_s32 (z : Z) : Prop := - 2 ^ 31 <= z < 2 ^ 31.
Definition is_s64 (z : Z) : Prop := - 2 ^ 63 <= z < 2 ^ 63.

#[global] Arguments u8 : simpl never.
#[global] Arguments u16 : simpl never.
#[global] Arguments u32 : simpl never.
#[global] Arguments u64 : simpl never.
#[global] Arguments s16 : simpl never.
#[global] Arguments s32 : simpl never.
#[global] Arguments s64 : simpl never.

#[export] Instance is_u8_dec z : Decision (is_u8 z).
Proof. unfold is_u8. apply _. Defined.
#[export] Instance is_u32_dec z : Decision (is_u32 z).
Proof. unfold is_u32. apply _. Defined.
#[export] Instance is_u64_dec z : Decision (is_u64 z).
Proof. unfold is_u64. apply _. Defined.
#[export] Instance is_s32_dec z : Decision (is_s32 z).
Proof. unfold is_s32. apply _. Defined.
#[export] Instance is_s64_dec z : Decision (is_s64 z).
Proof. unfold is_s64. apply _. Defined.

Create HintDb cint.
Create Rewrite HintDb cint.

Lemma u8_small z : is_u8 z -> u8 z = z.
Proof. apply Z.mod_small. Qed.
Lemma u32_small z : is_u32 z -> u32 z = z.
Proof. apply Z.mod_small. Qed.
Lemma u64_small z : is_u64 z -> u64 z = z.
Proof. apply Z.mod_small. Qed.
Lemma s32_small z : is_s32 z -> s32 z = z.
Proof. unfold is_s32, s32. intros. rewrite Z.mod_small; lia. Qed.
Lemma s64_small z : is_s64 z -> s64 z = z.
Proof. unfold is_s64, s64. intros. rewrite Z.mod_small; lia. Qed.

Lemma u8_range z : is_u8 (u8 z).
Proof. apply Z.mod_pos_bound. lia. Qed.
Lemma u32_range z : is_u32 (u32 z).
Proof. apply Z.mod_pos_bound. lia. Qed.
Lemma u64_range z : is_u64 (u64 z).
Proof. apply Z.mod_pos_bound. lia. Qed.
Lemma s32_range z : is_s32 (s32 z).
Proof. unfold is_s32, s32. pose proof (Z.mod_pos_bound (z + 2 ^ 31) (2 ^ 32)). lia. Qed.

#[export] Hint Resolve u8_range u32_range u64_range s32_range : cint.
#[export] Hint Rewrite u8_small u32_small u64_small s32_small s64_small
  using (unfold is_u8, is_u32, is_u64, is_s32, is_s64; lia) : cint.

(** ** Bit-level reasoning *)

Lemma u8_testbit z i : 0 <= i -> Z.testbit (u8 z) i = bool_decide (i < 8) && Z.testbit z i.
Proof.
  intros. unfold u8. case_bool_decide.
  - by rewrite Z.mod_pow2_bits_low.
  - by rewrite Z.mod_pow2_bits_high by lia.
Qed.

Lemma u32_testbit z i : 0 <= i -> Z.testbit (u32 z) i = bool_decide (i < 32) && Z.testbit z i.
Proof.
  intros. unfold u32. case_bool_decide.
  - by rewrite Z.mod_pow2_bits_low.
  - by rewrite Z.mod_pow2_bits_high by lia.
Qed.

Lemma land_0xff z : Z.land z 0xff = u8 z.
Proof. exact (Z.land_ones z 8 ltac:(lia)). Qed.

Lemma testbit_above n z i : 0 <= z < 2 ^ n -> 0 <= n <= i -> Z.testbit z i = false.
Proof.
  intros Hz Hi. rewrite <- (Z.mod_small z (2 ^ n)) by lia.
  apply Z.mod_pow2_bits_high. lia.
Qed.

Lemma is_u32_bits z : is_u32 z <-> u32 z = z.
Proof. split; [apply u32_small | intros <-; apply u32_range]. Qed.
Lemma is_u8_bits z : is_u8 z <-> u8 z = z.
Proof. split; [apply u8_small | intros <-; apply u8_range]. Qed.

(** Reduce an equation between bit expressions to one between single bits. *)
Ltac bit_specs :=
  repeat first
    [ rewrite Z.lxor_spec | rewrite Z.land_spec | rewrite Z.lor_spec
    | rewrite Z.shiftl_spec by lia | rewrite Z.shiftr_spec by lia
    | rewrite u32_testbit by lia | rewrite u8_testbit by lia
    | rewrite Z.testbit_neg_r by lia ].
Ltac bits_ext i Hi := apply Z.bits_inj'; intros i Hi; bit_specs.

(** Settle the bounds on bit positions that arithmetic decides. *)
Ltac bit_decide :=
  repeat match goal with
  | |- context [bool_decide ?P] =>
      first [rewrite (bool_decide_true P) by lia | rewrite (bool_decide_false P) by lia]
  end.

(** Bits of a bounded word above its width, or below position 0, are clear. *)
Ltac bit_clear n :=
  repeat match goal with
  | H : 0 <= ?x < 2 ^ n |- context [Z.testbit ?x ?i] => rewrite (testbit_above n x i) by lia
  | |- context [Z.testbit ?x ?i] => rewrite (Z.testbit_neg_r x i) by lia
  end.

Ltac bit_finish :=
  repeat (rewrite ?andb_true_l, ?andb_true_r, ?andb_false_l, ?andb_false_r,
                  ?orb_false_l, ?orb_false_r, ?xorb_false_l, ?xorb_false_r);
  try reflexivity; try (f_equal; lia).

Lemma is_u32_lxor a b : is_u32 a -> is_u32 b -> is_u32 (Z.lxor a b).
Proof.
  rewrite !is_u32_bits. intros <- <-. bits_ext i Hi. by case_bool_decide.
Qed.
Lemma is_u32_lor a b : is_u32 a -> is_u32 b -> is_u32 (Z.lor a b).
Proof.
  rewrite !is_u32_bits. intros <- <-. bits_ext i Hi. by case_bool_decide.
Qed.
Lemma is_u32_land a b : is_u32 a -> is_u32 (Z.land a b).
Proof.
  rewrite !is_u32_bits. intros <-. bits_ext i Hi. by case_bool_decide.
Qed.
Lemma is_u32_shiftr a k : 0 <= k -> is_u32 a -> is_u32 (Z.shiftr a k).
Proof.
  unfold is_u32. intros Hk Ha. rewrite Z.shiftr_div_pow2 by done.
  pose proof (Z.pow_pos_nonneg 2 k). split; [apply Z.div_pos; lia |].
  apply Z.div_lt_upper_bound; nia.
Qed.
#[export] Hint Resolve is_u32_lxor is_u32_lor is_u32_land is_u32_shiftr : cint.

(** Masks and shifts as division: what [lia] understands. *)
Lemma land_mask k m z : 0 <= k -> m = Z.ones k -> Z.land z m = z mod 2 ^ k.
Proof. intros Hk ->. by apply Z.land_ones. Qed.

Lemma lor_shiftl_add k x y : 0 <= k -> 0 <= y < 2 ^ k -> Z.lor (Z.shiftl x k) y = x * 2 ^ k + y.
Proof.
  intros Hk Hy. rewrite <- Z.shiftl_mul_pow2 by done.
  symmetry. apply Z.add_nocarry_lor.
  apply Z.bits_inj'. intros i Hi. rewrite Z.land_spec, Z.bits_0, Z.shiftl_spec by done.
  destruct (Z_lt_le_dec i k) as [H | H].
  - by rewrite Z.testbit_neg_r by lia.
  - rewrite (testbit_above k y i) by lia. apply andb_false_r.
Qed.

Ltac div_mod_lia := Z.to_euclidean_division_equations; lia.

(** ** Tables and lists *)

(** A C array read [t[i]] whose index the code keeps in range by a mask; [0] is
    only ever returned for an index outside the table. *)
Definition tbl (t : list Z) (i : Z) : Z := nth (Z.to_nat i) t 0.

Lemma Forall_tbl (P : Z -> Prop) t i : P 0 -> Forall P t -> P (tbl t i).
Proof.
  intros H0 Ht. unfold tbl. destruct (nth_in_or_default (Z.to_nat i) t 0) as [Hin | ->]; [|done].
  rewrite Forall_forall in Ht. apply Ht. by apply list_elem_of_In.
Qed.

Lemma tbl_elem t i : (Z.to_nat i < length t)%nat -> tbl t i ∈ t.
Proof. intros. apply list_elem_of_In. by apply nth_In. Qed.

(** Decide a property of all the naturals below a bound. *)
Lemma forall_below (n : nat) (P : nat -> bool) :
  forallb P (seq 0 n) = true -> forall i, (i < n)%nat -> P i = true.
Proof.
  intros H i Hi. rewrite forallb_forall in H. apply H. apply in_seq. lia.
Qed.

Lemma forall_below_Z (n : nat) (P : Z -> bool) :
  forallb P (Z.of_nat <$> seq 0 n) = true -> forall z, 0 <= z < Z.of_nat n -> P z = true.
Proof.
  intros H z Hz. rewrite forallb_forall in H. apply H.
  apply list_elem_of_In, list_elem_of_fmap. exists (Z.to_nat z). split; [lia |].
  apply elem_of_seq. lia.
Qed.

(** ** Linked lists in a heap

    [chain next m b xs]: following [next] from [b] in [m] visits exactly [xs], up to the null
    pointer. *)
Section Chain.
Context {A : Type} (next : A -> ptr).

Fixpoint chain (m : gmap ptr A) (b : ptr) (xs : list ptr) : Prop :=
  match xs with
  | [] => b = nullptr
  | x :: xs => b = x /\ exists l, m !! x = Some l /\ chain m (next l) xs
  end.

Lemma chain_frame m m' b xs : (forall x, x ∈ xs -> m' !! x = m !! x) -> chain m b xs -> chain m' b xs.
Proof.
  revert b. induction xs as [|y xs IH]; intros b Hx; [done |]. intros [-> (l & Hl & Hc)]. split; [done |].
  exists l. rewrite Hx by by left. split; [done |]. apply IH; [|done]. intros x Hin. apply Hx. by right.
Qed.

Lemma chain_insert m x l b xs : x ∉ xs -> chain m b xs -> chain (<[x := l]> m) b xs.
Proof. intros Hx. apply chain_frame. intros y Hy. apply lookup_insert_ne. by intros ->. Qed.

Lemma chain_delete m x b xs : x ∉ xs -> chain m b xs -> chain (delete x m) b xs.
Proof. intros Hx. apply chain_frame. intros y Hy. apply lookup_delete_ne. by intros ->. Qed.

Lemma lookup_foldr_delete (m : gmap ptr A) xs x : x ∉ xs -> (foldr delete m xs) !! x = m !! x.
Proof.
  intros Hx. induction xs as [|y xs IH]; [done |]. apply not_elem_of_cons in Hx as [? ?].
  simpl. rewrite lookup_delete_ne by done. auto.
Qed.

Lemma lookup_foldr_delete_in (m : gmap ptr A) xs x : x ∈ xs -> (foldr delete m xs) !! x = None.
Proof.
  induction xs as [|y xs IH]; [by intros ?%elem_of_nil |]. simpl. intros [-> | Hx]%elem_of_cons.
  - apply lookup_delete_eq.
  - destruct (decide (x = y)) as [-> |]; [apply lookup_delete_eq | rewrite lookup_delete_ne by done; auto].
Qed.

Lemma chain_foldr_delete m b xs ys : (forall x, x ∈ xs -> x ∉ ys) -> chain m b xs -> chain (foldr delete m ys) b xs.
Proof. intros Hd. apply chain_frame. intros x Hx. apply lookup_foldr_delete. auto. Qed.

(** The links visited are determined by the heap. *)
Lemma chain_det m b xs ys : nullptr ∉ xs -> nullptr ∉ ys -> chain m b xs -> chain m b ys -> xs = ys.
Proof.
  revert b ys. induction xs as [|x xs IH]; intros b [|y ys] Hx Hy; [done | | |].
  - intros -> [<- _]. exfalso. apply Hy. by left.
  - intros [-> _] ->. exfalso. apply Hx. by left.
  - intros [-> (l & Hl & Hc)] [-> (l' & Hl' & Hc')]. f_equal. assert (l' = l) as -> by congruence.
    apply not_elem_of_cons in Hx as [_ Hx], Hy as [_ Hy]. by eapply IH.
Qed.
End Chain.

(** ** Filters that keep everything, or nothing *)

Lemma list_filter_all {B} (P : B -> Prop) `{!forall x, Decision (P x)} (l : list B) : Forall P l -> filter P l = l.
Proof. induction 1 as [|x l Hx Hl IH]; [done |]. by rewrite filter_cons_True, IH. Qed.

Lemma list_filter_none {B} (P : B -> Prop) `{!forall x, Decision (P x)} (l : list B) :
  Forall (fun x => ~ P x) l -> filter P l = [].
Proof. induction 1 as [|x l Hx Hl IH]; [done |]. by rewrite filter_cons_False. Qed.
