(* ===== verification/Des.v ===== *)
(** * DES and Triple-DES ([src/core/dfs_math.h], [src/core/dfs_math.cpp])

    The cipher half of [dfs_math.cpp], word for word: the lookup tables, the
    permutation and round macros on [uint32_t] words, the key schedule, the
    weak-key search, and the ECB entry points. A byte buffer is a [list Z] of
    values in [0, 256); a function that would read outside a buffer or a
    subkey array is [None]. *)

From Stdlib Require Import Btauto.
From S2P Require Import Prelude.

(** ** Tables *)

(* src/src/core/dfs_math.cpp:8-21 (sbox1) *)
Definition sbox1 : list Z :=
  [
   0x01010400; 0x00000000; 0x00010000; 0x01010404; 0x01010004; 0x00010404; 0x00000004; 0x00010000;
   0x00000400; 0x01010400; 0x01010404; 0x00000400; 0x01000404; 0x01010004; 0x01000000; 0x00000004;
   0x00000404; 0x01000400; 0x01000400; 0x00010400; 0x00010400; 0x01010000; 0x01010000; 0x01000404;
   0x00010004; 0x01000004; 0x01000004; 0x00010004; 0x00000000; 0x00000404; 0x00010404; 0x01000000;
   0x00010000; 0x01010404; 0x00000004; 0x01010000; 0x01010400; 0x01000000; 0x01000000; 0x00000400;
   0x01010004; 0x00010000; 0x00010400; 0x01000004; 0x00000400; 0x00000004; 0x01000404; 0x00010404;
   0x01010404; 0x00010004; 0x01010000; 0x01000404; 0x01000004; 0x00000404; 0x00010404; 0x01010400;
   0x00000404; 0x01000400; 0x01000400; 0x00000000; 0x00010004; 0x00010400; 0x00000000; 0x01010004 ].

(* src/src/core/dfs_math.cpp:23-36 (sbox2) *)
Definition sbox2 : list Z :=
  [
   0x80108020; 0x80008000; 0x00008000; 0x00108020; 0x00100000; 0x00000020; 0x80100020; 0x80008020;
   0x80000020; 0x80108020; 0x80108000; 0x80000000; 0x80008000; 0x00100000; 0x00000020; 0x80100020;
   0x00108000; 0x00100020; 0x80008020; 0x00000000; 0x80000000; 0x00008000; 0x00108020; 0x80100000;
   0x00100020; 0x80000020; 0x00000000; 0x00108000; 0x00008020; 0x80108000; 0x80100000; 0x00008020;
   0x00000000; 0x00108020; 0x80100020; 0x00100000; 0x80008020; 0x80100000; 0x80108000; 0x00008000;
   0x80100000; 0x80008000; 0x00000020; 0x80108020; 0x00108020; 0x00000020; 0x00008000; 0x80000000;
   0x00008020; 0x80108000; 0x00100000; 0x80000020; 0x00100020; 0x80008020; 0x80000020; 0x00100020;
   0x00108000; 0x00000000; 0x80008000; 0x00008020; 0x80000000; 0x80100020; 0x80108020; 0x00108000 ].

(* src/src/core/dfs_math.cpp:38-51 (sbox3) *)
Definition sbox3 : list Z :=
  [
   0x00000208; 0x08020200; 0x00000000; 0x08020008; 0x08000200; 0x00000000; 0x00020208; 0x08000200;
   0x00020008; 0x08000008; 0x08000008; 0x00020000; 0x08020208; 0x00020008; 0x08020000; 0x00000208;
   0x08000000; 0x00000008; 0x08020200; 0x00000200; 0x00020200; 0x08020000; 0x08020008; 0x00020208;
   0x08000208; 0x00020200; 0x00020000; 0x08000208; 0x00000008; 0x08020208; 0x00000200; 0x08000000;
   0x08020200; 0x08000000; 0x00020008; 0x00000208; 0x00020000; 0x08020200; 0x08000200; 0x00000000;
   0x00000200; 0x00020008; 0x08020208; 0x08000200; 0x08000008; 0x00000200; 0x00000000; 0x08020008;
   0x08000208; 0x00020000; 0x08000000; 0x08020208; 0x00000008; 0x00020208; 0x00020200; 0x08000008;
   0x08020000; 0x08000208; 0x00000208; 0x08020000; 0x00020208; 0x00000008; 0x08020008; 0x00020200 ].

(* src/src/core/dfs_math.cpp:53-66 (sbox4) *)
Definition sbox4 : list Z :=
  [
   0x00802001; 0x00002081; 0x00002081; 0x00000080; 0x00802080; 0x00800081; 0x00800001; 0x00002001;
   0x00000000; 0x00802000; 0x00802000; 0x00802081; 0x00000081; 0x00000000; 0x00800080; 0x00800001;
   0x00000001; 0x00002000; 0x00800000; 0x00802001; 0x00000080; 0x00800000; 0x00002001; 0x00002080;
   0x00800081; 0x00000001; 0x00002080; 0x00800080; 0x00002000; 0x00802080; 0x00802081; 0x00000081;
   0x00800080; 0x00800001; 0x00802000; 0x00802081; 0x00000081; 0x00000000; 0x00000000; 0x00802000;
   0x00002080; 0x00800080; 0x00800081; 0x00000001; 0x00802001; 0x00002081; 0x00002081; 0x00000080;
   0x00802081; 0x00000081; 0x00000001; 0x00002000; 0x00800001; 0x00002001; 0x00802080; 0x00800081;
   0x00002001; 0x00002080; 0x00800000; 0x00802001; 0x00000080; 0x00800000; 0x00002000; 0x00802080 ].

(* src/src/core/dfs_math.cpp:68-81 (sbox5) *)
Definition sbox5 : list Z :=
  [
   0x00000100; 0x02080100; 0x02080000; 0x42000100; 0x00080000; 0x00000100; 0x40000000; 0x02080000;
   0x40080100; 0x00080000; 0x02000100; 0x40080100; 0x42000100; 0x42080000; 0x00080100; 0x40000000;
   0x02000000; 0x40080000; 0x40080000; 0x00000000; 0x40000100; 0x42080100; 0x42080100; 0x02000100;
   0x42080000; 0x40000100; 0x00000000; 0x42000000; 0x02080100; 0x02000000; 0x42000000; 0x00080100;
   0x00080000; 0x42000100; 0x00000100; 0x02000000; 0x40000000; 0x02080000; 0x42000100; 0x40080100;
   0x02000100; 0x40000000; 0x42080000; 0x02080100; 0x40080100; 0x00000100; 0x02000000; 0x42080000;
   0x42080100; 0x00080100; 0x42000000; 0x42080100; 0x02080000; 0x00000000; 0x40080000; 0x42000000;
   0x00080100; 0x02000100; 0x40000100; 0x00080000; 0x00000000; 0x40080000; 0x02080100; 0x40000100 ].

(* src/src/core/dfs_math.cpp:83-96 (sbox6) *)
Definition sbox6 : list Z :=
  [
   0x20000010; 0x20400000; 0x00004000; 0x20404010; 0x20400000; 0x00000010; 0x20404010; 0x00400000;
   0x20004000; 0x00404010; 0x00400000; 0x20000010; 0x00400010; 0x20004000; 0x20000000; 0x00004010;
   0x00000000; 0x00400010; 0x20004010; 0x00004000; 0x00404000; 0x20004010; 0x00000010; 0x20400010;
   0x20400010; 0x00000000; 0x00404010; 0x20404000; 0x00004010; 0x00404000; 0x20404000; 0x20000000;
   0x20004000; 0x00000010; 0x20400010; 0x00404000; 0x20404010; 0x00400000; 0x00004010; 0x20000010;
   0x00400000; 0x20004000; 0x20000000; 0x00004010; 0x20000010; 0x20404010; 0x00404000; 0x20400000;
   0x00404010; 0x20404000; 0x00000000; 0x20400010; 0x00000010; 0x00004000; 0x20400000; 0x00404010;
   0x00004000; 0x00400010; 0x20004010; 0x00000000; 0x20404000; 0x20000000; 0x00400010; 0x20004010 ].

(* src/src/core/dfs_math.cpp:98-111 (sbox7) *)
Definition sbox7 : list Z :=
  [
   0x00200000; 0x04200002; 0x04000802; 0x00000000; 0x00000800; 0x04000802; 0x00200802; 0x04200800;
   0x04200802; 0x00200000; 0x00000000; 0x04000002; 0x00000002; 0x04000000; 0x04200002; 0x00000802;
   0x04000800; 0x00200802; 0x00200002; 0x04000800; 0x04000002; 0x04200000; 0x04200800; 0x00200002;
   0x04200000; 0x00000800; 0x00000802; 0x04200802; 0x00200800; 0x00000002; 0x04000000; 0x00200800;
   0x04000000; 0x00200800; 0x00200000; 0x04000802; 0x04000802; 0x04200002; 0x04200002; 0x00000002;
   0x00200002; 0x04000000; 0x04000800; 0x00200000; 0x04200800; 0x00000802; 0x00200802; 0x04200800;
   0x00000802; 0x04000002; 0x04200802; 0x04200000; 0x00200800; 0x00000000; 0x00000002; 0x04200802;
   0x00000000; 0x00200802; 0x04200000; 0x00000800; 0x04000002; 0x04000800; 0x00000800; 0x00200002 ].

(* src/src/core/dfs_math.cpp:113-126 (sbox8) *)
Definition sbox8 : list Z :=
  [
   0x10001040; 0x00001000; 0x00040000; 0x10041040; 0x10000000; 0x10001040; 0x00000040; 0x10000000;
   0x00040040; 0x10040000; 0x10041040; 0x00041000; 0x10041000; 0x00041040; 0x00001000; 0x00000040;
   0x10040000; 0x10000040; 0x10001000; 0x00001040; 0x00041000; 0x00040040; 0x10040040; 0x10041000;
   0x00001040; 0x00000000; 0x00000000; 0x10040040; 0x10000040; 0x10001000; 0x00041040; 0x00040000;
   0x00041040; 0x00040000; 0x10041000; 0x00001000; 0x00000040; 0x10040040; 0x00001000; 0x00041040;
   0x10001000; 0x00000040; 0x10000040; 0x10040000; 0x10040040; 0x10000000; 0x00040000; 0x10001040;
   0x00000000; 0x10041040; 0x00040040; 0x10000040; 0x10040000; 0x10001000; 0x10001040; 0x00000000;
   0x10041040; 0x00041000; 0x00041000; 0x00001040; 0x00001040; 0x00040040; 0x10000000; 0x10041000 ].

(* src/src/core/dfs_math.cpp:132-138 (leftkey_swap) *)
Definition leftkey_swap : list Z :=
  [
   0x00000000; 0x00000001; 0x00000100; 0x00000101; 0x00010000; 0x00010001; 0x00010100; 0x00010101;
   0x01000000; 0x01000001; 0x01000100; 0x01000101; 0x01010000; 0x01010001; 0x01010100; 0x01010101 ].

(* src/src/core/dfs_math.cpp:140-146 (rightkey_swap) *)
Definition rightkey_swap : list Z :=
  [
   0x00000000; 0x01000000; 0x00010000; 0x01010000; 0x00000100; 0x01000100; 0x00010100; 0x01010100;
   0x00000001; 0x01000001; 0x00010001; 0x01010001; 0x00000101; 0x01000101; 0x00010101; 0x01010101 ].

(* src/src/core/dfs_math.cpp:149-152 (encrypt_rotate_tab) *)
Definition encrypt_rotate_tab : list Z :=
  [
   1; 1; 2; 2; 2; 2; 2; 2;
   1; 2; 2; 2; 2; 2; 2; 1 ].

(* src/src/core/dfs_math.cpp:155-221 (weak_keys) *)
Definition weak_keys : list (list Z) :=
  [
   [0x00; 0x00; 0x00; 0x00; 0x00; 0x00; 0x00; 0x00];
   [0x00; 0x00; 0x1e; 0x1e; 0x00; 0x00; 0x0e; 0x0e];
   [0x00; 0x00; 0xe0; 0xe0; 0x00; 0x00; 0xf0; 0xf0];
   [0x00; 0x00; 0xfe; 0xfe; 0x00; 0x00; 0xfe; 0xfe];
   [0x00; 0x1e; 0x00; 0x1e; 0x00; 0x0e; 0x00; 0x0e];
   [0x00; 0x1e; 0x1e; 0x00; 0x00; 0x0e; 0x0e; 0x00];
   [0x00; 0x1e; 0xe0; 0xfe; 0x00; 0x0e; 0xf0; 0xfe];
   [0x00; 0x1e; 0xfe; 0xe0; 0x00; 0x0e; 0xfe; 0xf0];
   [0x00; 0xe0; 0x00; 0xe0; 0x00; 0xf0; 0x00; 0xf0];
   [0x00; 0xe0; 0x1e; 0xfe; 0x00; 0xf0; 0x0e; 0xfe];
   [0x00; 0xe0; 0xe0; 0x00; 0x00; 0xf0; 0xf0; 0x00];
   [0x00; 0xe0; 0xfe; 0x1e; 0x00; 0xf0; 0xfe; 0x0e];
   [0x00; 0xfe; 0x00; 0xfe; 0x00; 0xfe; 0x00; 0xfe];
   [0x00; 0xfe; 0x1e; 0xe0; 0x00; 0xfe; 0x0e; 0xf0];
   [0x00; 0xfe; 0xe0; 0x1e; 0x00; 0xfe; 0xf0; 0x0e];
   [0x00; 0xfe; 0xfe; 0x00; 0x00; 0xfe; 0xfe; 0x00];
   [0x1e; 0x00; 0x00; 0x1e; 0x0e; 0x00; 0x00; 0x0e];
   [0x1e; 0x00; 0x1e; 0x00; 0x0e; 0x00; 0x0e; 0x00];
   [0x1e; 0x00; 0xe0; 0xfe; 0x0e; 0x00; 0xf0; 0xfe];
   [0x1e; 0x00; 0xfe; 0xe0; 0x0e; 0x00; 0xfe; 0xf0];
   [0x1e; 0x1e; 0x00; 0x00; 0x0e; 0x0e; 0x00; 0x00];
   [0x1e; 0x1e; 0x1e; 0x1e; 0x0e; 0x0e; 0x0e; 0x0e];
   [0x1e; 0x1e; 0xe0; 0xe0; 0x0e; 0x0e; 0xf0; 0xf0];
   [0x1e; 0x1e; 0xfe; 0xfe; 0x0e; 0x0e; 0xfe; 0xfe];
   [0x1e; 0xe0; 0x00; 0xfe; 0x0e; 0xf0; 0x00; 0xfe];
   [0x1e; 0xe0; 0x1e; 0xe0; 0x0e; 0xf0; 0x0e; 0xf0];
   [0x1e; 0xe0; 0xe0; 0x1e; 0x0e; 0xf0; 0xf0; 0x0e];
   [0x1e; 0xe0; 0xfe; 0x00; 0x0e; 0xf0; 0xfe; 0x00];
   [0x1e; 0xfe; 0x00; 0xe0; 0x0e; 0xfe; 0x00; 0xf0];
   [0x1e; 0xfe; 0x1e; 0xfe; 0x0e; 0xfe; 0x0e; 0xfe];
   [0x1e; 0xfe; 0xe0; 0x00; 0x0e; 0xfe; 0xf0; 0x00];
   [0x1e; 0xfe; 0xfe; 0x1e; 0x0e; 0xfe; 0xfe; 0x0e];
   [0xe0; 0x00; 0x00; 0xe0; 0xf0; 0x00; 0x00; 0xf0];
   [0xe0; 0x00; 0x1e; 0xfe; 0xf0; 0x00; 0x0e; 0xfe];
   [0xe0; 0x00; 0xe0; 0x00; 0xf0; 0x00; 0xf0; 0x00];
   [0xe0; 0x00; 0xfe; 0x1e; 0xf0; 0x00; 0xfe; 0x0e];
   [0xe0; 0x1e; 0x00; 0xfe; 0xf0; 0x0e; 0x00; 0xfe];
   [0xe0; 0x1e; 0x1e; 0xe0; 0xf0; 0x0e; 0x0e; 0xf0];
   [0xe0; 0x1e; 0xe0; 0x1e; 0xf0; 0x0e; 0xf0; 0x0e];
   [0xe0; 0x1e; 0xfe; 0x00; 0xf0; 0x0e; 0xfe; 0x00];
   [0xe0; 0xe0; 0x00; 0x00; 0xf0; 0xf0; 0x00; 0x00];
   [0xe0; 0xe0; 0x1e; 0x1e; 0xf0; 0xf0; 0x0e; 0x0e];
   [0xe0; 0xe0; 0xe0; 0xe0; 0xf0; 0xf0; 0xf0; 0xf0];
   [0xe0; 0xe0; 0xfe; 0xfe; 0xf0; 0xf0; 0xfe; 0xfe];
   [0xe0; 0xfe; 0x00; 0x1e; 0xf0; 0xfe; 0x00; 0x0e];
   [0xe0; 0xfe; 0x1e; 0x00; 0xf0; 0xfe; 0x0e; 0x00];
   [0xe0; 0xfe; 0xe0; 0xfe; 0xf0; 0xfe; 0xf0; 0xfe];
   [0xe0; 0xfe; 0xfe; 0xe0; 0xf0; 0xfe; 0xfe; 0xf0];
   [0xfe; 0x00; 0x00; 0xfe; 0xfe; 0x00; 0x00; 0xfe];
   [0xfe; 0x00; 0x1e; 0xe0; 0xfe; 0x00; 0x0e; 0xf0];
   [0xfe; 0x00; 0xe0; 0x1e; 0xfe; 0x00; 0xf0; 0x0e];
   [0xfe; 0x00; 0xfe; 0x00; 0xfe; 0x00; 0xfe; 0x00];
   [0xfe; 0x1e; 0x00; 0xe0; 0xfe; 0x0e; 0x00; 0xf0];
   [0xfe; 0x1e; 0x1e; 0xfe; 0xfe; 0x0e; 0x0e; 0xfe];
   [0xfe; 0x1e; 0xe0; 0x00; 0xfe; 0x0e; 0xf0; 0x00];
   [0xfe; 0x1e; 0xfe; 0x1e; 0xfe; 0x0e; 0xfe; 0x0e];
   [0xfe; 0xe0; 0x00; 0x1e; 0xfe; 0xf0; 0x00; 0x0e];
   [0xfe; 0xe0; 0x1e; 0x00; 0xfe; 0xf0; 0x0e; 0x00];
   [0xfe; 0xe0; 0xe0; 0xfe; 0xfe; 0xf0; 0xf0; 0xfe];
   [0xfe; 0xe0; 0xfe; 0xe0; 0xfe; 0xf0; 0xfe; 0xf0];
   [0xfe; 0xfe; 0x00; 0x00; 0xfe; 0xfe; 0x00; 0x00];
   [0xfe; 0xfe; 0x1e; 0x1e; 0xfe; 0xfe; 0x0e; 0x0e];
   [0xfe; 0xfe; 0xe0; 0xe0; 0xfe; 0xfe; 0xf0; 0xf0];
   [0xfe; 0xfe; 0xfe; 0xfe; 0xfe; 0xfe; 0xfe; 0xfe] ].

(** ** Word-level macros *)

(** [x << k] on [uint32_t]. *)
Definition shl32 (x k : Z) : Z := u32 (Z.shiftl x k).

(* src/src/core/dfs_math.cpp:263-266 (DO_PERMUTATION) *)
Definition DO_PERMUTATION (a b offset mask : Z) : Z * Z :=
  let temp := Z.land (Z.lxor (Z.shiftr a offset) b) mask in
  (Z.lxor a (shl32 temp offset), Z.lxor b temp).

(** The [(left, right)] pair after a [DO_PERMUTATION (right, temp, left, ...)]. *)
Definition DO_PERMUTATION_r (offset mask : Z) (lr : Z * Z) : Z * Z :=
  let '(r, l) := DO_PERMUTATION lr.2 lr.1 offset mask in (l, r).
Definition DO_PERMUTATION_l (offset mask : Z) (lr : Z * Z) : Z * Z :=
  DO_PERMUTATION lr.1 lr.2 offset mask.

(** [temp = (left ^ right) & 0xaaaaaaaa; right ^= temp; left ^= temp]. *)
Definition swap_odd_bits (lr : Z * Z) : Z * Z :=
  let temp := Z.land (Z.lxor lr.1 lr.2) 0xaaaaaaaa in
  (Z.lxor lr.1 temp, Z.lxor lr.2 temp).

Definition rotl32_1 (x : Z) : Z := Z.lor (shl32 x 1) (Z.shiftr x 31).
Definition rotl32_31 (x : Z) : Z := Z.lor (shl32 x 31) (Z.shiftr x 1).

(* src/src/core/dfs_math.cpp:273-282 (INITIAL_PERMUTATION) *)
Definition INITIAL_PERMUTATION (lr : Z * Z) : Z * Z :=
  let lr := DO_PERMUTATION_l 4 0x0f0f0f0f lr in
  let lr := DO_PERMUTATION_l 16 0x0000ffff lr in
  let lr := DO_PERMUTATION_r 2 0x33333333 lr in
  let lr := DO_PERMUTATION_r 8 0x00ff00ff lr in
  let lr := (lr.1, rotl32_1 lr.2) in
  let lr := swap_odd_bits lr in
  (rotl32_1 lr.1, lr.2).

(* src/src/core/dfs_math.cpp:287-296 (FINAL_PERMUTATION) *)
Definition FINAL_PERMUTATION (lr : Z * Z) : Z * Z :=
  let lr := (rotl32_31 lr.1, lr.2) in
  let lr := swap_odd_bits lr in
  let lr := (lr.1, rotl32_31 lr.2) in
  let lr := DO_PERMUTATION_r 8 0x00ff00ff lr in
  let lr := DO_PERMUTATION_r 2 0x33333333 lr in
  let lr := DO_PERMUTATION_l 16 0x0000ffff lr in
  DO_PERMUTATION_l 4 0x0f0f0f0f lr.

(** [DES_ROUND(from, to, work, subkey)]: the new value of [to]; [k0] and [k1]
    are the two subkey words the macro consumes. *)
(* src/src/core/dfs_math.cpp:304-314 (DES_ROUND) *)
Definition DES_ROUND (from to k0 k1 : Z) : Z :=
  let work := Z.lxor from k0 in
  let to := Z.lxor to (tbl sbox8 (Z.land work 0x3f)) in
  let to := Z.lxor to (tbl sbox6 (Z.land (Z.shiftr work 8) 0x3f)) in
  let to := Z.lxor to (tbl sbox4 (Z.land (Z.shiftr work 16) 0x3f)) in
  let to := Z.lxor to (tbl sbox2 (Z.land (Z.shiftr work 24) 0x3f)) in
  let work := Z.lxor (Z.lor (shl32 from 28) (Z.shiftr from 4)) k1 in
  let to := Z.lxor to (tbl sbox7 (Z.land work 0x3f)) in
  let to := Z.lxor to (tbl sbox5 (Z.land (Z.shiftr work 8) 0x3f)) in
  let to := Z.lxor to (tbl sbox3 (Z.land (Z.shiftr work 16) 0x3f)) in
  Z.lxor to (tbl sbox1 (Z.land (Z.shiftr work 24) 0x3f)).

(* src/src/core/dfs_math.cpp:319-321 (READ_64BIT_DATA) *)
Definition READ_64BIT_DATA (data : list Z) : option (Z * Z) :=
  match data with
  | [d0; d1; d2; d3; d4; d5; d6; d7] =>
      Some (Z.lor (Z.lor (Z.lor (shl32 d0 24) (shl32 d1 16)) (shl32 d2 8)) d3,
            Z.lor (Z.lor (Z.lor (shl32 d4 24) (shl32 d5 16)) (shl32 d6 8)) d7)
  | _ => None
  end.

Definition word_bytes (w : Z) : list Z :=
  [Z.land (Z.shiftr w 24) 0xff; Z.land (Z.shiftr w 16) 0xff;
   Z.land (Z.shiftr w 8) 0xff; Z.land w 0xff].

(* src/src/core/dfs_math.cpp:323-327 (WRITE_64BIT_DATA) *)
Definition WRITE_64BIT_DATA (lr : Z * Z) : list Z := word_bytes lr.1 ++ word_bytes lr.2.

(** ** Key schedule *)

(** One half of "permuted choice 1": the eight lookups of [leftkey_swap]
    ([rightkey_swap]) with their source and destination shifts. *)
Definition pc1 (table : list Z) (shifts : list (Z * Z)) (w : Z) : Z :=
  Z.land (foldl (fun acc '(sr, sl) =>
            Z.lor acc (shl32 (tbl table (Z.land (Z.shiftr w sr) 0xf)) sl)) 0 shifts)
         0x0fffffff.

Definition leftkey_shifts : list (Z * Z) :=
  [(0, 3); (8, 2); (16, 1); (24, 0); (5, 7); (13, 6); (21, 5); (29, 4)].
Definition rightkey_shifts : list (Z * Z) :=
  [(1, 3); (9, 2); (17, 1); (25, 0); (4, 7); (12, 6); (20, 5); (28, 4)].

(** A disjunction of masked shifts: a negative amount is a right shift. *)
Definition masked_shifts (w : Z) (l : list (Z * Z)) : Z :=
  foldl (fun acc '(k, m) =>
    Z.lor acc (Z.land (if bool_decide (k < 0) then Z.shiftr w (- k) else shl32 w k) m)) 0 l.

(** The two subkey words of a round ("permuted choice 2"). *)
Definition subkey_even (left right : Z) : Z :=
  Z.lor
    (masked_shifts left
      [(4, 0x24000000); (28, 0x10000000); (14, 0x08000000); (18, 0x02080000);
       (6, 0x01000000); (9, 0x00200000); (-1, 0x00100000); (10, 0x00040000);
       (2, 0x00020000); (-10, 0x00010000)])
    (masked_shifts right
      [(-13, 0x00002000); (-4, 0x00001000); (6, 0x00000800); (-1, 0x00000400);
       (-14, 0x00000200); (0, 0x00000100); (-5, 0x00000020); (-10, 0x00000010);
       (-3, 0x00000008); (-18, 0x00000004); (-26, 0x00000002); (-24, 0x00000001)]).

Definition subkey_odd (left right : Z) : Z :=
  Z.lor
    (masked_shifts left
      [(15, 0x20000000); (17, 0x10000000); (10, 0x08000000); (22, 0x04000000);
       (-2, 0x02000000); (1, 0x01000000); (16, 0x00200000); (11, 0x00100000);
       (3, 0x00080000); (-6, 0x00040000); (15, 0x00020000); (-4, 0x00010000)])
    (masked_shifts right
      [(-2, 0x00002000); (8, 0x00001000); (-14, 0x00000808); (-9, 0x00000400);
       (0, 0x00000200); (7, 0x00000100); (-7, 0x00000020); (-3, 0x00000011);
       (2, 0x00000004); (-21, 0x00000002)]).

Definition rotl28 (w n : Z) : Z :=
  Z.land (Z.lor (shl32 w n) (Z.shiftr w (28 - n))) 0x0fffffff.

Fixpoint schedule_rounds (rots : list Z) (left right : Z) : list Z :=
  match rots with
  | [] => []
  | n :: rots =>
      let left := rotl28 left n in
      let right := rotl28 right n in
      subkey_even left right :: subkey_odd left right :: schedule_rounds rots left right
  end.

(* src/src/core/dfs_math.cpp:340-424 (des_key_schedule) *)
Definition des_key_schedule (rawkey : list Z) : option (list Z) :=
  lr ← READ_64BIT_DATA rawkey;
  let lr := DO_PERMUTATION_r 4 0x0f0f0f0f lr in
  let lr := DO_PERMUTATION_r 0 0x10101010 lr in
  Some (schedule_rounds encrypt_rotate_tab
          (pc1 leftkey_swap leftkey_shifts lr.1) (pc1 rightkey_swap rightkey_shifts lr.2)).

(** ** Contexts and key set-up *)

(* src/src/core/dfs_math.h:9-25 (gl_des_ctx, gl_3des_ctx) *)
Record des_ctx := { encrypt_subkeys : list Z; decrypt_subkeys : list Z }.

(** [dst[d + i] = src[s - i]; dst[d + 1 + i] = src[s + 1 - i]], one turn of the
    loops that lay a schedule out backwards, pair by pair. *)
Definition copy_pair_rev (src : list Z) (s d : nat) (i : nat) (dst : list Z) : list Z :=
  <[(d + 1 + i)%nat := nth (s + 1 - i)%nat src 0]> (<[(d + i)%nat := nth (s - i)%nat src 0]> dst).
Definition copy_pair (src : list Z) (s d : nat) (i : nat) (dst : list Z) : list Z :=
  <[(d + 1 + i)%nat := nth (s + 1 + i)%nat src 0]> (<[(d + i)%nat := nth (s + i)%nat src 0]> dst).

(** The loop [for (i = 0; i < 32; i += 2)]. *)
Definition key_loop (body : nat -> des_ctx -> des_ctx) (ctx : des_ctx) : des_ctx :=
  foldl (fun c k => body (2 * k)%nat c) ctx (seq 0 16).

(* src/src/core/dfs_math.cpp:426-437 (gl_des_setkey) *)
Definition gl_des_setkey (ctx : des_ctx) (key : list Z) : option des_ctx :=
  k ← des_key_schedule key;
  Some (key_loop (fun i c =>
    {| encrypt_subkeys := encrypt_subkeys c;
       decrypt_subkeys := copy_pair_rev (encrypt_subkeys c) 30 0 i (decrypt_subkeys c) |})
    {| encrypt_subkeys := list_inserts 0 k (encrypt_subkeys ctx);
       decrypt_subkeys := decrypt_subkeys ctx |}).

(* src/src/core/dfs_math.cpp:482-504 (gl_3des_set2keys) *)
Definition gl_3des_set2keys (ctx : des_ctx) (key1 key2 : list Z) : option des_ctx :=
  k1 ← des_key_schedule key1;
  k2 ← des_key_schedule key2;
  Some (key_loop (fun i c =>
    let d := copy_pair_rev (encrypt_subkeys c) 30 0 i (decrypt_subkeys c) in
    let e := copy_pair_rev d 62 32 i (encrypt_subkeys c) in
    let e := copy_pair e 0 64 i e in
    let d := copy_pair d 0 64 i d in
    {| encrypt_subkeys := e; decrypt_subkeys := d |})
    {| encrypt_subkeys := list_inserts 0 k1 (encrypt_subkeys ctx);
       decrypt_subkeys := list_inserts 32 k2 (decrypt_subkeys ctx) |}).

(* src/src/core/dfs_math.cpp:506-526 (gl_3des_set3keys) *)
Definition gl_3des_set3keys (ctx : des_ctx) (key1 key2 key3 : list Z) : option des_ctx :=
  k1 ← des_key_schedule key1;
  k2 ← des_key_schedule key2;
  k3 ← des_key_schedule key3;
  Some (key_loop (fun i c =>
    let d := copy_pair_rev (encrypt_subkeys c) 94 0 i (decrypt_subkeys c) in
    let e := copy_pair_rev d 62 32 i (encrypt_subkeys c) in
    let d := copy_pair_rev e 30 64 i d in
    {| encrypt_subkeys := e; decrypt_subkeys := d |})
    {| encrypt_subkeys := list_inserts 64 k3 (list_inserts 0 k1 (encrypt_subkeys ctx));
       decrypt_subkeys := list_inserts 32 k2 (decrypt_subkeys ctx) |}).

(** ** Weak keys *)

(** [memcmp]: the sign of the first difference. *)
Fixpoint memcmp (s1 s2 : list Z) : Z :=
  match s1, s2 with
  | a :: s1, b :: s2 => if a =? b then memcmp s1 s2 else a - b
  | _, _ => 0
  end.

(** The table row at an index, as [weak_keys[middle]]. *)
Definition weak_row (i : Z) : list Z := nth (Z.to_nat i) weak_keys [].

Fixpoint weak_key_search (fuel : nat) (work : list Z) (left right : Z) : option bool :=
  match fuel with
  | O => None
  | S fuel =>
      if left <=? right then
        let middle := (left + right) ÷ 2 in
        let cmp_result := memcmp work (weak_row middle) in
        if cmp_result =? 0 then Some true
        else if 0 <? cmp_result then weak_key_search fuel work (middle + 1) right
        else weak_key_search fuel work left (middle - 1)
      else Some false
  end.

(** The [char] bytes of the key with the parity bit cleared. *)
Definition clear_parity (key : list Z) : list Z := (fun b => Z.land b 0xfe) <$> key.

(** Seven probes search the 64 rows; see [weak_key_search_total]. *)
(* src/src/core/dfs_math.cpp:223-256 (gl_des_is_weak_key) *)
Definition gl_des_is_weak_key (key : list Z) : option bool :=
  weak_key_search 8 (clear_parity (take 8 key)) 0 63.

(* src/src/core/dfs_math.cpp:439-449 (gl_des_makekey) *)
Definition gl_des_makekey (ctx : des_ctx) (key : list Z) (keylen : Z) : option (des_ctx * bool) :=
  if negb (keylen =? 8) then Some (ctx, false)
  else
    ctx ← gl_des_setkey ctx key;
    weak ← gl_des_is_weak_key key;
    Some (ctx, negb weak).

(* src/src/core/dfs_math.cpp:568-579 (gl_3des_makekey) *)
Definition gl_3des_makekey (ctx : des_ctx) (key : list Z) (keylen : Z) : option (des_ctx * bool) :=
  if negb (keylen =? 24) then Some (ctx, false)
  else
    let k1 := take 8 key in let k2 := take 8 (drop 8 key) in let k3 := take 8 (drop 16 key) in
    ctx ← gl_3des_set3keys ctx k1 k2 k3;
    w1 ← gl_des_is_weak_key k1;
    w2 ← gl_des_is_weak_key k2;
    w3 ← gl_des_is_weak_key k3;
    Some (ctx, negb (w1 || w2 || w3)).

(** ** Encryption *)

(** [n] times [DES_ROUND (a, b, work, keys) DES_ROUND (b, a, work, keys)]:
    the words and the advanced [keys] pointer. *)
Fixpoint des_double_rounds (n : nat) (a b : Z) (keys : list Z) : option (Z * Z * list Z) :=
  match n, keys with
  | O, _ => Some (a, b, keys)
  | S n, k0 :: k1 :: k2 :: k3 :: keys =>
      let b := DES_ROUND a b k0 k1 in
      let a := DES_ROUND b a k2 k3 in
      des_double_rounds n a b keys
  | S _, _ => None
  end.

(** [strlen] of a buffer of bytes; [None] when it has no terminator. *)
Fixpoint strlen (s : list Z) : option Z :=
  match s with
  | [] => None
  | c :: s => if c =? 0 then Some 0 else Z.succ <$> strlen s
  end.

(** The value written to [to] and the returned length. *)
(* src/src/core/dfs_math.cpp:451-480 (gl_des_ecb_crypt) *)
Definition gl_des_ecb_crypt (ctx : des_ctx) (from : list Z) (mode : Z) : option (list Z * Z) :=
  let keys := if mode =? 0 then encrypt_subkeys ctx else decrypt_subkeys ctx in
  '(l, r) ← READ_64BIT_DATA from;
  let '(l, r) := INITIAL_PERMUTATION (l, r) in
  '(r, l, _) ← des_double_rounds 8 r l keys;
  let to := WRITE_64BIT_DATA (FINAL_PERMUTATION (r, l)) in
  if tbl to 7 =? 0 then len ← strlen to; Some (to, len) else Some (to, 8).

(* src/src/core/dfs_math.cpp:528-566 (gl_3des_ecb_crypt) *)
Definition gl_3des_ecb_crypt (ctx : des_ctx) (from : list Z) (mode : Z) : option (list Z) :=
  let keys := if mode =? 0 then encrypt_subkeys ctx else decrypt_subkeys ctx in
  '(l, r) ← READ_64BIT_DATA from;
  let '(l, r) := INITIAL_PERMUTATION (l, r) in
  '(r, l, keys) ← des_double_rounds 8 r l keys;
  '(l, r, keys) ← des_double_rounds 8 l r keys;
  '(r, l, _) ← des_double_rounds 8 r l keys;
  Some (WRITE_64BIT_DATA (FINAL_PERMUTATION (r, l))).

(** The FIPS 46 worked example, forwards and back. *)
Example des_known_answer :
  (ctx ← gl_des_setkey {| encrypt_subkeys := replicate 32 0; decrypt_subkeys := replicate 32 0 |}
           [0x13; 0x34; 0x57; 0x79; 0x9b; 0xbc; 0xdf; 0xf1];
   gl_des_ecb_crypt ctx [0x01; 0x23; 0x45; 0x67; 0x89; 0xab; 0xcd; 0xef] 0)
  = Some ([0x85; 0xe8; 0x13; 0x54; 0x0f; 0x0a; 0xb4; 0x05], 8).
Proof. vm_compute. reflexivity. Qed.

(** ** The permutation macros are inverse to each other *)

#[local] Arguments DO_PERMUTATION : simpl never.

Definition is_u32_pair (lr : Z * Z) : Prop := is_u32 lr.1 /\ is_u32 lr.2.

Lemma shl32_testbit x k i : 0 <= i -> 0 <= k ->
  Z.testbit (shl32 x k) i = bool_decide (i < 32) && Z.testbit x (i - k).
Proof. intros. unfold shl32. by rewrite u32_testbit, Z.shiftl_spec by lia. Qed.

Lemma is_u32_shl32 x k : is_u32 (shl32 x k).
Proof. apply u32_range. Qed.
#[local] Hint Resolve is_u32_shl32 : cint.

Lemma DO_PERMUTATION_involutive a b o m :
  0 <= o <= 32 -> 0 <= m < 2 ^ (32 - o) ->
  uncurry DO_PERMUTATION (DO_PERMUTATION a b o m) o m = (a, b).
Proof.
  intros Ho Hm. unfold DO_PERMUTATION. simpl.
  set (t := Z.land (Z.lxor (Z.shiftr a o) b) m).
  assert (Ht : Z.land (Z.lxor (Z.shiftr (Z.lxor a (shl32 t o)) o) (Z.lxor b t)) m = t).
  { bits_ext i Hi. rewrite shl32_testbit, Z.add_simpl_r by lia.
    destruct (Z.testbit m i) eqn:Em; [|unfold t; rewrite Z.land_spec, Em; btauto].
    rewrite bool_decide_true.
    2: { destruct (decide (i + o < 32)); [done |].
         rewrite (testbit_above (32 - o)) in Em by lia. done. }
    unfold t. bit_specs. rewrite Em. btauto. }
  rewrite Ht. f_equal; by rewrite Z.lxor_assoc, Z.lxor_nilpotent, Z.lxor_0_r.
Qed.

Lemma DO_PERMUTATION_l_involutive o m lr :
  0 <= o <= 32 -> 0 <= m < 2 ^ (32 - o) ->
  DO_PERMUTATION_l o m (DO_PERMUTATION_l o m lr) = lr.
Proof. destruct lr. apply DO_PERMUTATION_involutive. Qed.

Lemma DO_PERMUTATION_r_involutive o m lr :
  0 <= o <= 32 -> 0 <= m < 2 ^ (32 - o) ->
  DO_PERMUTATION_r o m (DO_PERMUTATION_r o m lr) = lr.
Proof.
  destruct lr as [l r]. intros Ho Hm.
  pose proof (DO_PERMUTATION_involutive r l o m Ho Hm) as H.
  unfold DO_PERMUTATION_r, DO_PERMUTATION, uncurry in *. cbn [fst snd] in *. congruence.
Qed.

Lemma swap_odd_bits_involutive lr : swap_odd_bits (swap_odd_bits lr) = lr.
Proof.
  destruct lr as [l r]. unfold swap_odd_bits. simpl.
  set (t := Z.land (Z.lxor l r) _).
  replace (Z.lxor (Z.lxor l t) (Z.lxor r t)) with (Z.lxor l r) by (bits_ext i Hi; btauto).
  fold t. f_equal; by rewrite Z.lxor_assoc, Z.lxor_nilpotent, Z.lxor_0_r.
Qed.

Lemma rotl32_31_1 x : is_u32 x -> rotl32_31 (rotl32_1 x) = x.
Proof.
  unfold is_u32. intros Hx. unfold rotl32_31, rotl32_1. bits_ext i Hi.
  rewrite !shl32_testbit by lia. bit_specs.
  destruct (decide (i < 31)); [|destruct (decide (i = 31))].
  all: rewrite ?shl32_testbit by lia; bit_specs; bit_decide; bit_clear 32; bit_finish.
Qed.

Lemma rotl32_1_31 x : is_u32 x -> rotl32_1 (rotl32_31 x) = x.
Proof.
  unfold is_u32. intros Hx. unfold rotl32_31, rotl32_1. bits_ext i Hi.
  rewrite !shl32_testbit by lia. bit_specs.
  destruct (decide (i = 0)); [|destruct (decide (i < 32))].
  all: rewrite ?shl32_testbit by lia; bit_specs; bit_decide; bit_clear 32; bit_finish.
Qed.

Lemma is_u32_rotl32_1 x : is_u32 x -> is_u32 (rotl32_1 x).
Proof. intros. unfold rotl32_1. auto with cint lia. Qed.
Lemma is_u32_rotl32_31 x : is_u32 x -> is_u32 (rotl32_31 x).
Proof. intros. unfold rotl32_31. auto with cint lia. Qed.
#[local] Hint Resolve is_u32_rotl32_1 is_u32_rotl32_31 : cint.

Lemma DO_PERMUTATION_l_u32 o m lr :
  0 <= o -> is_u32_pair lr -> is_u32_pair (DO_PERMUTATION_l o m lr).
Proof. destruct lr. intros Ho []. split; simpl; auto 8 with cint. Qed.
Lemma DO_PERMUTATION_r_u32 o m lr :
  0 <= o -> is_u32_pair lr -> is_u32_pair (DO_PERMUTATION_r o m lr).
Proof. destruct lr. intros Ho []. split; simpl; auto 8 with cint. Qed.
Lemma swap_odd_bits_u32 lr : is_u32_pair lr -> is_u32_pair (swap_odd_bits lr).
Proof. destruct lr. intros []. split; simpl; auto 8 with cint. Qed.
Lemma rot_fst_u32 f lr :
  (forall x, is_u32 x -> is_u32 (f x)) -> is_u32_pair lr -> is_u32_pair (f lr.1, lr.2).
Proof. intros ? []. split; simpl; auto. Qed.
Lemma rot_snd_u32 f lr :
  (forall x, is_u32 x -> is_u32 (f x)) -> is_u32_pair lr -> is_u32_pair (lr.1, f lr.2).
Proof. intros ? []. split; simpl; auto. Qed.

(** The pairs met inside the permutation macros are words. *)
Ltac u32_pair :=
  repeat first
    [ assumption | lia | exact is_u32_rotl32_1 | exact is_u32_rotl32_31
    | apply DO_PERMUTATION_l_u32 | apply DO_PERMUTATION_r_u32 | apply swap_odd_bits_u32
    | apply rot_fst_u32 | apply rot_snd_u32 ].

Lemma INITIAL_PERMUTATION_u32 lr : is_u32_pair lr -> is_u32_pair (INITIAL_PERMUTATION lr).
Proof. intros. unfold INITIAL_PERMUTATION. u32_pair. Qed.
Lemma FINAL_PERMUTATION_u32 lr : is_u32_pair lr -> is_u32_pair (FINAL_PERMUTATION lr).
Proof. intros. unfold FINAL_PERMUTATION. u32_pair. Qed.

#[local] Opaque DO_PERMUTATION_l DO_PERMUTATION_r swap_odd_bits rotl32_1 rotl32_31.

Lemma pair_eta {A B} (p : A * B) : (p.1, p.2) = p.
Proof. by destruct p. Qed.

Lemma initial_final lr : is_u32_pair lr -> INITIAL_PERMUTATION (FINAL_PERMUTATION lr) = lr.
Proof.
  intros [Hl Hr]. unfold INITIAL_PERMUTATION, FINAL_PERMUTATION.
  assert (is_u32_pair (swap_odd_bits (rotl32_31 lr.1, lr.2))) as [_ Hs].
  { apply swap_odd_bits_u32. split; simpl; auto with cint. }
  rewrite !DO_PERMUTATION_l_involutive, !DO_PERMUTATION_r_involutive by lia. cbn [fst snd].
  rewrite rotl32_1_31 by done. rewrite pair_eta, swap_odd_bits_involutive. cbn [fst snd].
  rewrite rotl32_1_31 by done. apply pair_eta.
Qed.

Lemma final_initial lr : is_u32_pair lr -> FINAL_PERMUTATION (INITIAL_PERMUTATION lr) = lr.
Proof.
  intros H. unfold INITIAL_PERMUTATION. cbv zeta.
  set (p := DO_PERMUTATION_r 8 _ _). unfold FINAL_PERMUTATION. cbv zeta.
  assert (is_u32_pair p) as [Hl Hr] by (subst p; u32_pair).
  assert (is_u32_pair (swap_odd_bits (p.1, rotl32_1 p.2))) as [Hs _].
  { apply swap_odd_bits_u32. split; simpl; auto with cint. }
  cbn [fst snd]. rewrite rotl32_31_1 by done.
  rewrite pair_eta, swap_odd_bits_involutive. cbn [fst snd].
  rewrite rotl32_31_1 by done. rewrite pair_eta. subst p.
  by rewrite !DO_PERMUTATION_r_involutive, !DO_PERMUTATION_l_involutive by lia.
Qed.

(** ** Bytes and words *)

Definition is_block (b : list Z) : Prop := length b = 8%nat /\ Forall is_u8 b.

Lemma word_of_bytes_u32 a b c d :
  is_u8 d -> is_u32 (Z.lor (Z.lor (Z.lor (shl32 a 24) (shl32 b 16)) (shl32 c 8)) d).
Proof.
  intros. assert (is_u32 d) by (unfold is_u8, is_u32 in *; lia). auto 8 with cint.
Qed.

Lemma bytes_of_word a b c d :
  is_u8 a -> is_u8 b -> is_u8 c -> is_u8 d ->
  word_bytes (Z.lor (Z.lor (Z.lor (shl32 a 24) (shl32 b 16)) (shl32 c 8)) d) = [a; b; c; d].
Proof.
  unfold is_u8. intros Ha Hb Hc Hd. unfold word_bytes. rewrite !land_0xff.
  repeat f_equal; bits_ext i Hi; rewrite ?shl32_testbit by lia;
    (destruct (decide (i < 8)); [| bit_decide; bit_clear 8; bit_finish]);
    bit_decide; bit_clear 8; bit_finish.
Qed.

Lemma word_of_bytes_of_word w :
  is_u32 w ->
  Z.lor (Z.lor (Z.lor (shl32 (Z.land (Z.shiftr w 24) 0xff) 24)
                      (shl32 (Z.land (Z.shiftr w 16) 0xff) 16))
               (shl32 (Z.land (Z.shiftr w 8) 0xff) 8)) (Z.land w 0xff) = w.
Proof.
  unfold is_u32. intros Hw. rewrite !land_0xff.
  bits_ext i Hi. rewrite !shl32_testbit by lia.
  destruct (decide (i < 8)); [| destruct (decide (i < 16)); [|
    destruct (decide (i < 24)); [| destruct (decide (i < 32))]]].
  all: bit_decide; bit_specs; bit_decide; bit_clear 32; bit_finish.
Qed.

Lemma read_write lr : is_u32_pair lr -> READ_64BIT_DATA (WRITE_64BIT_DATA lr) = Some lr.
Proof.
  destruct lr as [l r]. intros [Hl Hr]. cbn [fst snd] in *.
  unfold WRITE_64BIT_DATA, word_bytes. cbn [fst snd app].
  unfold READ_64BIT_DATA. by rewrite !word_of_bytes_of_word.
Qed.

Lemma read_block b :
  is_block b -> exists lr, READ_64BIT_DATA b = Some lr /\ is_u32_pair lr /\ WRITE_64BIT_DATA lr = b.
Proof.
  intros [Hlen Hb]. destruct b as [|d0 [|d1 [|d2 [|d3 [|d4 [|d5 [|d6 [|d7 [|]]]]]]]]]; try done.
  rewrite !Forall_cons in Hb. destruct Hb as (? & ? & ? & ? & ? & ? & ? & ? & _).
  eexists. split; [reflexivity |]. split.
  - split; by apply word_of_bytes_u32.
  - unfold WRITE_64BIT_DATA. cbn [fst snd]. by rewrite !bytes_of_word.
Qed.

Lemma write_block lr : is_block (WRITE_64BIT_DATA lr).
Proof.
  split; [done |]. unfold WRITE_64BIT_DATA, word_bytes. rewrite !land_0xff. simpl.
  repeat constructor; apply u8_range.
Qed.

(** ** The Feistel network *)

(** What a round xors into its target word. *)
Definition des_f (from : Z) (k : Z * Z) : Z := DES_ROUND from 0 k.1 k.2.

Lemma DES_ROUND_f from to k0 k1 : DES_ROUND from to k0 k1 = Z.lxor to (des_f from (k0, k1)).
Proof. unfold des_f, DES_ROUND. cbn [fst snd]. by rewrite Z.lxor_0_l, !Z.lxor_assoc. Qed.

(** A round that also exchanges the two words, so that every round is alike. *)
Definition feistel_step (ab : Z * Z) (k : Z * Z) : Z * Z := (Z.lxor ab.2 (des_f ab.1 k), ab.1).
Definition feistel (ks : list (Z * Z)) (ab : Z * Z) : Z * Z := foldl feistel_step ab ks.

Fixpoint pairs (ks : list Z) : list (Z * Z) :=
  match ks with k0 :: k1 :: ks => (k0, k1) :: pairs ks | _ => [] end.

Lemma pairs_app ks1 ks2 n :
  length ks1 = (2 * n)%nat -> pairs (ks1 ++ ks2) = pairs ks1 ++ pairs ks2.
Proof.
  revert ks1. induction n as [|n IH]; intros ks1 Hlen.
  - by destruct ks1.
  - destruct ks1 as [|a [|b ks1]]; try (simpl in Hlen; lia).
    simpl. f_equal. apply IH. simpl in Hlen. lia.
Qed.

Lemma des_double_rounds_feistel n a b ks rest :
  length ks = (4 * n)%nat ->
  des_double_rounds n a b (ks ++ rest) =
    Some ((feistel (pairs ks) (a, b)).1, (feistel (pairs ks) (a, b)).2, rest).
Proof.
  revert a b ks. induction n as [|n IH]; intros a b ks Hlen.
  - by destruct ks.
  - destruct ks as [|k0 [|k1 [|k2 [|k3 ks]]]]; try (simpl in Hlen; lia).
    cbn [des_double_rounds app pairs]. rewrite IH by (simpl in Hlen; lia).
    by rewrite !DES_ROUND_f.
Qed.

Definition swap {A} (p : A * A) : A * A := (p.2, p.1).

Lemma feistel_step_undo k ab : feistel_step (swap (feistel_step ab k)) k = swap ab.
Proof.
  destruct ab as [a b]. unfold feistel_step, swap. cbn [fst snd].
  by rewrite Z.lxor_assoc, Z.lxor_nilpotent, Z.lxor_0_r.
Qed.

Lemma feistel_undo ks ab : feistel (reverse ks) (swap (feistel ks ab)) = swap ab.
Proof.
  revert ab. induction ks as [|k ks IH]; intros ab; [done |].
  rewrite reverse_cons. unfold feistel in *. cbn [foldl]. rewrite foldl_snoc, IH.
  apply feistel_step_undo.
Qed.

Lemma des_f_u32 from k : is_u32 (des_f from k).
Proof.
  unfold des_f, DES_ROUND.
  assert (forall t i, Forall is_u32 t -> is_u32 (tbl t i)) as Ht.
  { intros. apply Forall_tbl; [unfold is_u32; lia | done]. }
  repeat apply is_u32_lxor; try (unfold is_u32; lia); apply Ht;
    apply (bool_decide_unpack _); vm_compute; exact I.
Qed.

Lemma feistel_u32 ks ab : is_u32_pair ab -> is_u32_pair (feistel ks ab).
Proof.
  revert ab. induction ks as [|k ks IH]; intros ab [Ha Hb]; [done |]. apply IH.
  split; simpl; auto using des_f_u32 with cint.
Qed.

(** [swap] then a permutation macro on the exchanged words, as [gl_des_ecb_crypt]
    writes them. *)
Definition des_block (ks : list (Z * Z)) (lr : Z * Z) : Z * Z :=
  FINAL_PERMUTATION (feistel ks (swap (INITIAL_PERMUTATION lr))).

Lemma swap_swap {A} (p : A * A) : swap (swap p) = p.
Proof. by destruct p. Qed.

Lemma swap_u32 lr : is_u32_pair lr -> is_u32_pair (swap lr).
Proof. by intros []. Qed.

Lemma des_block_undo ks lr :
  is_u32_pair lr -> des_block (reverse ks) (des_block ks lr) = lr.
Proof.
  intros H. unfold des_block. rewrite initial_final.
  - rewrite feistel_undo, swap_swap. by apply final_initial.
  - apply feistel_u32, swap_u32. by apply INITIAL_PERMUTATION_u32.
Qed.

Lemma des_block_u32 ks lr : is_u32_pair lr -> is_u32_pair (des_block ks lr).
Proof.
  intros. unfold des_block. by apply FINAL_PERMUTATION_u32, feistel_u32, swap_u32, INITIAL_PERMUTATION_u32.
Qed.

(** The return value for an output block. *)
Definition crypt_ret (to : list Z) : option Z := if tbl to 7 =? 0 then strlen to else Some 8.

Lemma strlen_some s : 0 ∈ s -> exists n, strlen s = Some n /\ 0 <= n < Z.of_nat (length s).
Proof.
  induction s as [|c s IH]; [by rewrite elem_of_nil |]. intros Hin. simpl.
  destruct (Z.eqb_spec c 0) as [-> | Hc]; [exists 0; split; [done | lia] |].
  apply elem_of_cons in Hin as [? | Hin]; [done |].
  destruct (IH Hin) as (n & -> & ?). exists (Z.succ n). split; [done | lia].
Qed.

Lemma crypt_ret_some lr : exists n, crypt_ret (WRITE_64BIT_DATA lr) = Some n /\ 0 <= n <= 8.
Proof.
  unfold crypt_ret. destruct (write_block lr) as [Hlen _].
  generalize dependent (WRITE_64BIT_DATA lr). intros to Hlen.
  destruct (Z.eqb_spec (tbl to 7) 0) as [H0|].
  - destruct (strlen_some to) as (n & Hn & ?).
    + rewrite <- H0. apply tbl_elem. lia.
    + exists n. split; [done | lia].
  - by exists 8.
Qed.

Lemma crypt_block ctx mode b lr :
  length (if mode =? 0 then encrypt_subkeys ctx else decrypt_subkeys ctx) = 32%nat ->
  READ_64BIT_DATA b = Some lr ->
  let to := WRITE_64BIT_DATA
              (des_block (pairs (if mode =? 0 then encrypt_subkeys ctx else decrypt_subkeys ctx)) lr) in
  gl_des_ecb_crypt ctx b mode = (n ← crypt_ret to; Some (to, n)).
Proof.
  intros Hlen Hb. unfold gl_des_ecb_crypt. rewrite Hb. destruct lr as [l r]. cbn [mbind option_bind].
  unfold des_block. destruct (INITIAL_PERMUTATION (l, r)) as [l' r'].
  rewrite <- (app_nil_r (if mode =? 0 then _ else _)) at 1.
  rewrite (des_double_rounds_feistel 8) by done. unfold crypt_ret, swap. cbn [fst snd mbind option_bind].
  rewrite pair_eta. by destruct (tbl _ 7 =? 0).
Qed.

(** ** Key set-up lays the schedules out in both directions *)

Lemma length_schedule_rounds rots l r : length (schedule_rounds rots l r) = (2 * length rots)%nat.
Proof. revert l r. induction rots as [|n rots IH]; intros; simpl; [done | rewrite IH; lia]. Qed.

Lemma schedule_some key :
  is_block key -> exists k, des_key_schedule key = Some k /\ length k = 32%nat.
Proof.
  intros (lr & Hr & _)%read_block. unfold des_key_schedule. rewrite Hr. cbn [mbind option_bind].
  eexists. split; [reflexivity |]. by rewrite length_schedule_rounds.
Qed.

(** Name every element of a list of known length. *)
Ltac explode l n :=
  lazymatch n with
  | O => destruct l; [| discriminate]
  | S ?n => destruct l as [|? l]; [discriminate |]; explode l n
  end.

Lemma setkey_pairs ctx key :
  length (encrypt_subkeys ctx) = 32%nat -> length (decrypt_subkeys ctx) = 32%nat ->
  is_block key ->
  exists ctx', gl_des_setkey ctx key = Some ctx' /\
    length (encrypt_subkeys ctx') = 32%nat /\ length (decrypt_subkeys ctx') = 32%nat /\
    pairs (decrypt_subkeys ctx') = reverse (pairs (encrypt_subkeys ctx')).
Proof.
  intros He Hd (k & Hk & Hlk)%schedule_some. unfold gl_des_setkey. rewrite Hk. cbn [mbind option_bind].
  eexists. split; [reflexivity |].
  destruct ctx as [e d]. cbn [encrypt_subkeys decrypt_subkeys] in *. clear Hk.
  explode k 32%nat. explode e 32%nat. explode d 32%nat. repeat split; reflexivity.
Qed.

(** The subkeys of a Triple-DES context, in the thirds the three passes use. *)
Definition ede_keys (ctx : des_ctx) : Prop :=
  length (encrypt_subkeys ctx) = 96%nat /\ length (decrypt_subkeys ctx) = 96%nat /\
  pairs (decrypt_subkeys ctx) = reverse (pairs (encrypt_subkeys ctx)).

Lemma inserts_length k (l : list Z) i : length (list_inserts i k l) = length l.
Proof. apply length_inserts. Qed.

Lemma set3keys_pairs ctx k1 k2 k3 :
  length (encrypt_subkeys ctx) = 96%nat -> length (decrypt_subkeys ctx) = 96%nat ->
  is_block k1 -> is_block k2 -> is_block k3 ->
  exists ctx', gl_3des_set3keys ctx k1 k2 k3 = Some ctx' /\ ede_keys ctx'.
Proof.
  intros He Hd (s1 & H1 & Hl1)%schedule_some (s2 & H2 & Hl2)%schedule_some
    (s3 & H3 & Hl3)%schedule_some.
  unfold gl_3des_set3keys. rewrite H1, H2, H3. cbn [mbind option_bind].
  eexists. split; [reflexivity |].
  destruct ctx as [e d]. cbn [encrypt_subkeys decrypt_subkeys] in *. clear H1 H2 H3.
  explode s1 32%nat. explode s2 32%nat. explode s3 32%nat. explode e 96%nat. explode d 96%nat.
  repeat split; reflexivity.
Qed.

Lemma set2keys_pairs ctx k1 k2 :
  length (encrypt_subkeys ctx) = 96%nat -> length (decrypt_subkeys ctx) = 96%nat ->
  is_block k1 -> is_block k2 ->
  exists ctx', gl_3des_set2keys ctx k1 k2 = Some ctx' /\ ede_keys ctx'.
Proof.
  intros He Hd (s1 & H1 & Hl1)%schedule_some (s2 & H2 & Hl2)%schedule_some.
  unfold gl_3des_set2keys. rewrite H1, H2. cbn [mbind option_bind].
  eexists. split; [reflexivity |].
  destruct ctx as [e d]. cbn [encrypt_subkeys decrypt_subkeys] in *. clear H1 H2.
  explode s1 32%nat. explode s2 32%nat. explode e 96%nat. explode d 96%nat.
  repeat split; reflexivity.
Qed.

(** ** Triple-DES as three passes *)

Definition ede_block (k1 k2 k3 : list (Z * Z)) (lr : Z * Z) : Z * Z :=
  FINAL_PERMUTATION
    (feistel k3 (swap (feistel k2 (swap (feistel k1 (swap (INITIAL_PERMUTATION lr))))))).

Lemma ede_block_undo k1 k2 k3 lr :
  is_u32_pair lr ->
  ede_block (reverse k3) (reverse k2) (reverse k1) (ede_block k1 k2 k3 lr) = lr.
Proof.
  intros H. unfold ede_block. rewrite initial_final.
  - rewrite (feistel_undo k3), swap_swap, (feistel_undo k2), swap_swap, (feistel_undo k1), swap_swap.
    by apply final_initial.
  - repeat (apply feistel_u32 || apply swap_u32). by apply INITIAL_PERMUTATION_u32.
Qed.

Lemma ede_block_u32 k1 k2 k3 lr : is_u32_pair lr -> is_u32_pair (ede_block k1 k2 k3 lr).
Proof.
  intros. unfold ede_block.
  repeat (apply FINAL_PERMUTATION_u32 || apply feistel_u32 || apply swap_u32).
  by apply INITIAL_PERMUTATION_u32.
Qed.

Lemma crypt3_block ctx mode b lr k1 k2 k3 :
  (if mode =? 0 then encrypt_subkeys ctx else decrypt_subkeys ctx) = k1 ++ k2 ++ k3 ->
  length k1 = 32%nat -> length k2 = 32%nat -> length k3 = 32%nat ->
  READ_64BIT_DATA b = Some lr ->
  gl_3des_ecb_crypt ctx b mode =
    Some (WRITE_64BIT_DATA (ede_block (pairs k1) (pairs k2) (pairs k3) lr)).
Proof.
  intros Hk H1 H2 H3 Hb. unfold gl_3des_ecb_crypt. rewrite Hk, Hb. destruct lr as [l r].
  cbn [mbind option_bind]. unfold ede_block. destruct (INITIAL_PERMUTATION (l, r)) as [l' r'].
  rewrite (des_double_rounds_feistel 8) by done. cbn [mbind option_bind].
  rewrite (des_double_rounds_feistel 8) by done. cbn [mbind option_bind].
  rewrite <- (app_nil_r k3) at 1. rewrite (des_double_rounds_feistel 8) by done.
  cbn [mbind option_bind]. by rewrite !pair_eta.
Qed.

Lemma length_pairs n ks : length ks = (2 * n)%nat -> length (pairs ks) = n.
Proof.
  revert ks. induction n as [|n IH]; intros ks H.
  - by destruct ks.
  - destruct ks as [|a [|b ks]]; try (simpl in H; lia). simpl. f_equal. apply IH. simpl in H. lia.
Qed.

(** The thirds of a list of 96 subkeys. *)
Lemma split_thirds (ks : list Z) :
  length ks = 96%nat ->
  exists k1 k2 k3, ks = k1 ++ k2 ++ k3 /\
    length k1 = 32%nat /\ length k2 = 32%nat /\ length k3 = 32%nat.
Proof.
  intros H. exists (take 32 ks), (take 32 (drop 32 ks)), (drop 64 ks).
  rewrite !length_take, !length_drop, H. repeat split; try lia.
  change 64%nat with (32 + 32)%nat at 1. rewrite <- drop_drop, take_drop, take_drop. done.
Qed.

Lemma ede_roundtrip ctx b :
  ede_keys ctx -> is_block b ->
  exists c, gl_3des_ecb_crypt ctx b 0 = Some c /\ is_block c /\
    gl_3des_ecb_crypt ctx c 1 = Some b.
Proof.
  intros (He & Hd & Hrev) (lr & Hr & Hlr & Hw)%read_block.
  destruct (split_thirds _ He) as (e1 & e2 & e3 & Ee & L1 & L2 & L3).
  destruct (split_thirds _ Hd) as (d1 & d2 & d3 & Ed & M1 & M2 & M3).
  exists (WRITE_64BIT_DATA (ede_block (pairs e1) (pairs e2) (pairs e3) lr)).
  split; [by apply crypt3_block |]. split; [apply write_block |].
  rewrite (crypt3_block ctx 1 _ (ede_block (pairs e1) (pairs e2) (pairs e3) lr) d1 d2 d3);
    [| done.. | by apply read_write, ede_block_u32].
  rewrite Ee, Ed, !(pairs_app _ _ 16), !reverse_app in Hrev by lia.
  rewrite <- app_assoc in Hrev.
  apply app_inj_1 in Hrev as [-> Hrev]; [|by rewrite length_reverse, !(length_pairs 16)].
  apply app_inj_1 in Hrev as [-> ->]; [|by rewrite length_reverse, !(length_pairs 16)].
  rewrite ede_block_undo by done. by rewrite Hw.
Qed.

(** ** Binary search of the weak keys *)

Lemma memcmp_antisym s1 s2 : memcmp s1 s2 = - memcmp s2 s1.
Proof.
  revert s2. induction s1 as [|a s1 IH]; intros [|b s2]; simpl; try lia.
  rewrite (Z.eqb_sym b a). destruct (a =? b); [apply IH | lia].
Qed.

Lemma memcmp_eq s1 s2 : length s1 = length s2 -> memcmp s1 s2 = 0 <-> s1 = s2.
Proof.
  revert s2. induction s1 as [|a s1 IH]; intros [|b s2]; simpl; intros Hlen; try done.
  destruct (Z.eqb_spec a b) as [-> | Hab].
  - rewrite IH by lia. split; [by intros -> | by intros [=]].
  - split; [lia | intros [=]; done].
Qed.

Lemma memcmp_trans s1 s2 s3 :
  length s1 = length s2 -> length s2 = length s3 ->
  memcmp s1 s2 < 0 -> memcmp s2 s3 < 0 -> memcmp s1 s3 < 0.
Proof.
  revert s2 s3. induction s1 as [|a s1 IH]; intros [|b s2] [|c s3]; simpl; intros H1 H2; try lia.
  destruct (Z.eqb_spec a b), (Z.eqb_spec b c), (Z.eqb_spec a c); subst; try lia.
  - apply IH; lia.
Qed.

Definition weak_pair_ok (i j : Z) : bool := (i <=? j) || (memcmp (weak_row j) (weak_row i) <? 0).
Definition weak_row_ok (i : Z) : bool :=
  (length (weak_row i) =? 8)%nat && forallb (weak_pair_ok i) (Z.of_nat <$> seq 0 64).

Lemma weak_rows_checked : forallb weak_row_ok (Z.of_nat <$> seq 0 64) = true.
Proof. vm_compute. reflexivity. Qed.

#[local] Opaque weak_keys.

Lemma weak_row_length i : 0 <= i < 64 -> length (weak_row i) = 8%nat.
Proof.
  intros Hi. pose proof (forall_below_Z 64 weak_row_ok weak_rows_checked i Hi) as H.
  unfold weak_row_ok in H. apply andb_true_iff in H as [H _]. by apply Nat.eqb_eq.
Qed.

Lemma weak_row_lt i j : 0 <= i < j -> j < 64 -> memcmp (weak_row i) (weak_row j) < 0.
Proof.
  intros Hij Hj.
  pose proof (forall_below_Z 64 weak_row_ok weak_rows_checked j ltac:(lia)) as H.
  unfold weak_row_ok in H. apply andb_true_iff in H as [_ H].
  pose proof (forall_below_Z 64 (weak_pair_ok j) H i ltac:(lia)) as H'.
  unfold weak_pair_ok in H'. rewrite orb_true_iff, Z.leb_le, Z.ltb_lt in H'. lia.
Qed.

(** What the search knows: rows left of [left] are below the key, rows right of
    [right] are above it. *)
Lemma weak_key_search_spec fuel work left right :
  length work = 8%nat -> 0 <= left -> right < 64 -> left <= right + 1 ->
  right - left + 1 < 2 ^ Z.of_nat fuel ->
  (forall i, 0 <= i < left -> memcmp (weak_row i) work < 0) ->
  (forall i, right < i < 64 -> memcmp work (weak_row i) < 0) ->
  exists b, weak_key_search (S fuel) work left right = Some b /\
    (b = true <-> exists i, 0 <= i < 64 /\ weak_row i = work).
Proof.
  intros Hw. revert left right. induction fuel as [|fuel IH]; intros left right Hl Hr Hlr Hf Hlo Hhi;
    cbn [weak_key_search]; destruct (Z.leb_spec left right) as [Hle | Hgt]; try (simpl in Hf; lia).
  1, 3: exists false; split; [done |]; split; [done |]; intros (i & Hi & <-);
    assert (memcmp (weak_row i) (weak_row i) = 0) by (by apply memcmp_eq);
    destruct (decide (i < left)); [specialize (Hlo i) | specialize (Hhi i)]; lia.
  rewrite Nat2Z.inj_succ, Z.pow_succ_r in Hf by lia.
  assert (Hmid : left <= (left + right) ÷ 2 <= right /\
      (left + right) ÷ 2 = (left + right) / 2).
  { rewrite Z.quot_div_nonneg by lia. split; [|done]. split.
    - apply Z.div_le_lower_bound; lia.
    - apply Z.div_le_upper_bound; lia. }
  cbv zeta. destruct Hmid as [Hmid Hdiv].
  assert (2 * ((left + right) ÷ 2) <= left + right < 2 * ((left + right) ÷ 2) + 2) as Hq.
  { rewrite Hdiv. pose proof (Z.div_mod (left + right) 2). pose proof (Z.mod_pos_bound (left + right) 2). lia. }
  set (m := (left + right) ÷ 2) in *. clearbody m.
  pose proof (weak_row_length m ltac:(lia)) as Hlen.
  destruct (Z.eqb_spec (memcmp work (weak_row m)) 0) as [H0 | Hn0].
  { exists true. split; [done |]. split; [|done]. intros _. exists m. split; [lia |].
    symmetry. apply memcmp_eq; [lia | done]. }
  destruct (Z.ltb_spec 0 (memcmp work (weak_row m))) as [Hpos | Hneg].
  - apply IH; [lia.. | | done]. intros i Hi. rewrite memcmp_antisym in Hpos.
    destruct (decide (i = m)) as [-> |]; [lia |].
    apply (memcmp_trans _ (weak_row m)); rewrite ?weak_row_length; try lia. apply weak_row_lt; lia.
  - apply IH; [lia.. | done |]. intros i Hi. destruct (decide (i = m)) as [-> |]; [lia |].
    apply (memcmp_trans _ (weak_row m)); rewrite ?weak_row_length; try lia. apply weak_row_lt; lia.
Qed.

Lemma weak_row_elem work : (exists i, 0 <= i < 64 /\ weak_row i = work) <-> work ∈ weak_keys.
Proof.
  assert (length weak_keys = 64%nat) as Hlen by reflexivity.
  split.
  - intros (i & Hi & <-). unfold weak_row. apply list_elem_of_In, nth_In. lia.
  - intros (i & Hi & Hn)%list_elem_of_In%(In_nth _ _ []). exists (Z.of_nat i).
    split; [lia |]. rewrite <- Hn. unfold weak_row. by rewrite Nat2Z.id.
Qed.


(** ** Properties *)

(** C35. DES decryption undoes encryption: for every 8-byte key and block, whatever the
    context held before, [gl_des_setkey] yields a context under which
    [gl_des_ecb_encrypt] produces a block that [gl_des_ecb_decrypt] maps back to the
    original; both calls return what their output's last byte dictates ([crypt_ret]): 8 if it
    is not zero, the number of bytes before the first zero if it is. *)
Theorem des_ecb_roundtrip ctx key b :
  length (encrypt_subkeys ctx) = 32%nat -> length (decrypt_subkeys ctx) = 32%nat ->
  is_block key -> is_block b ->
  exists ctx' c n m, gl_des_setkey ctx key = Some ctx' /\
    gl_des_ecb_crypt ctx' b 0 = Some (c, n) /\ is_block c /\ crypt_ret c = Some n /\ 0 <= n <= 8 /\
    gl_des_ecb_crypt ctx' c 1 = Some (b, m) /\ crypt_ret b = Some m.
Proof.
  intros He Hd Hk (lr & Hr & Hlr & Hw)%read_block.
  destruct (setkey_pairs ctx key He Hd Hk) as (ctx' & Hset & He' & Hd' & Hrev).
  pose proof (crypt_block ctx' 0 b lr He' Hr) as Henc. simpl in Henc.
  set (lr' := des_block _ lr) in Henc.
  assert (is_u32_pair lr') as Hlr' by by apply des_block_u32.
  pose proof (crypt_block ctx' 1 _ lr' Hd' (read_write _ Hlr')) as Hdec. simpl in Hdec.
  subst lr'. rewrite Hrev, des_block_undo, Hw in Hdec by done.
  destruct (crypt_ret_some (des_block (pairs (encrypt_subkeys ctx')) lr)) as (n & Hn & Hn8).
  destruct (crypt_ret_some lr) as (m & Hm & _). rewrite Hw in Hm.
  rewrite Hn in Henc. rewrite Hm in Hdec.
  exists ctx', (WRITE_64BIT_DATA (des_block (pairs (encrypt_subkeys ctx')) lr)), n, m.
  pose proof (write_block (des_block (pairs (encrypt_subkeys ctx')) lr)). tauto.
Qed.

Lemma des_ecb_roundtrip_witness :
  let z := {| encrypt_subkeys := replicate 32 7; decrypt_subkeys := replicate 32 9 |} in
  let key := [0x13; 0x34; 0x57; 0x79; 0x9b; 0xbc; 0xdf; 0xf1] in
  let b := [1; 2; 3; 4; 5; 6; 7; 0] in
  exists ctx' c n m, gl_des_setkey z key = Some ctx' /\
    gl_des_ecb_crypt ctx' b 0 = Some (c, n) /\ is_block c /\ crypt_ret c = Some n /\ 0 <= n <= 8 /\
    gl_des_ecb_crypt ctx' c 1 = Some (b, m) /\ crypt_ret b = Some m.
Proof.
  intros z key b.
  apply (des_ecb_roundtrip z key b); try reflexivity;
    (split; [reflexivity | repeat constructor; unfold is_u8; lia]).
Defined.

(** Triple-DES decryption undoes encryption under every set of three keys, and under
    every pair of keys ([gl_3des_set2keys]). *)
Theorem des3_ecb_roundtrip ctx k1 k2 k3 b :
  length (encrypt_subkeys ctx) = 96%nat -> length (decrypt_subkeys ctx) = 96%nat ->
  is_block k1 -> is_block k2 -> is_block k3 -> is_block b ->
  (exists ctx' c, gl_3des_set3keys ctx k1 k2 k3 = Some ctx' /\
     gl_3des_ecb_crypt ctx' b 0 = Some c /\ is_block c /\
     gl_3des_ecb_crypt ctx' c 1 = Some b) /\
  (exists ctx' c, gl_3des_set2keys ctx k1 k2 = Some ctx' /\
     gl_3des_ecb_crypt ctx' b 0 = Some c /\ is_block c /\
     gl_3des_ecb_crypt ctx' c 1 = Some b).
Proof.
  intros He Hd H1 H2 H3 Hb.
  destruct (set3keys_pairs ctx k1 k2 k3 He Hd H1 H2 H3) as (c3 & ? & Hc3).
  destruct (set2keys_pairs ctx k1 k2 He Hd H1 H2) as (c2 & ? & Hc2).
  destruct (ede_roundtrip c3 b Hc3 Hb) as (o3 & ?), (ede_roundtrip c2 b Hc2 Hb) as (o2 & ?).
  eauto 10.
Qed.

Lemma des3_ecb_roundtrip_witness :
  let z := {| encrypt_subkeys := replicate 96 0; decrypt_subkeys := replicate 96 0 |} in
  let k := [1; 2; 3; 4; 5; 6; 7; 8] in let b := [9; 8; 7; 6; 5; 4; 3; 2] in
  (exists ctx' c, gl_3des_set3keys z k b k = Some ctx' /\
     gl_3des_ecb_crypt ctx' b 0 = Some c /\ is_block c /\
     gl_3des_ecb_crypt ctx' c 1 = Some b) /\
  (exists ctx' c, gl_3des_set2keys z k b = Some ctx' /\
     gl_3des_ecb_crypt ctx' b 0 = Some c /\ is_block c /\
     gl_3des_ecb_crypt ctx' c 1 = Some b).
Proof.
  intros z k b.
  apply (des3_ecb_roundtrip z k b k b); try reflexivity;
    (split; [reflexivity | repeat constructor; unfold is_u8; lia]).
Defined.

(** The weak-key test is exactly membership in the table: the binary search ends within
    its probes, on every 8-byte key, and finds the key with its parity bits cleared if and
    only if some row of [weak_keys] is that key. *)
Theorem weak_key_exact key :
  length key = 8%nat ->
  exists b, gl_des_is_weak_key key = Some b /\ (b = true <-> clear_parity key ∈ weak_keys).
Proof.
  intros Hlen. unfold gl_des_is_weak_key. rewrite take_ge by lia.
  destruct (weak_key_search_spec 7 (clear_parity key) 0 63) as (b & Hb & Hiff); try lia.
  { unfold clear_parity. by rewrite length_fmap. }
  exists b. split; [done |]. by rewrite <- weak_row_elem.
Qed.

Lemma weak_key_exact_witness :
  exists b, gl_des_is_weak_key [1; 31; 224; 255; 1; 15; 240; 255] = Some b /\
    (b = true <-> clear_parity [1; 31; 224; 255; 1; 15; 240; 255] ∈ weak_keys).
Proof. apply (weak_key_exact [1; 31; 224; 255; 1; 15; 240; 255]). reflexivity. Defined.
