(* ===== verification/Numeric.v ===== *)
(** * Integer helpers ([src/core/dfs_math.h], [src/core/dfs_math.cpp])

    [dfs_math_dfslog2], which sizes the slab and shared-memory classes, the
    alignment macros, and the primality search that sizes a hash table. All
    arithmetic is on 64-bit [size_t]; the loops carry fuel, and the theorems
    show how much is enough. *)

From Stdlib Require Import Znumtheory.
From S2P Require Import Prelude.

(** ** Definitions *)

(* src/src/core/dfs_math.h:114-116 (DFS_MATH_ROUND_UP, DFS_MATH_ALIGN_SIZE) *)
Definition DFS_MATH_ROUND_UP (x alignment : Z) : Z :=
  Z.land (u64 (u64 (x + alignment) - 1)) (Z.lxor (u64 (alignment - 1)) (2 ^ 64 - 1)).

Definition DFS_MATH_ALIGN_SIZE : Z := 8.

(* src/src/core/dfs_math.h:117-118 (DFS_MATH_ALIGNMENT) *)
Definition DFS_MATH_ALIGNMENT (x align : Z) : Z :=
  if x mod align =? 0 then x else u64 (x + (align - x mod align)).

(** [while (x > 1) { i++; x = x >> 1; }] *)
Fixpoint dfslog2_loop (fuel : nat) (x i : Z) : option Z :=
  match fuel with
  | O => None
  | S fuel => if 1 <? x then dfslog2_loop fuel (Z.shiftr x 1) (u32 (i + 1)) else Some i
  end.

(** Sixty-four halvings empty a [size_t]. *)
(* src/src/core/dfs_math.cpp:581-597 (dfs_math_dfslog2) *)
Definition dfs_math_dfslog2 (x round : Z) : option Z :=
  let i := if negb (round =? 0) && negb (Z.land x (u64 (x - 1)) =? 0) then 1 else 0 in
  dfslog2_loop 65 x i.

(** [for (i = 2; i * i <= x; ++i) if (x % i == 0) return NGX_FALSE;] *)
Fixpoint is_prime_loop (fuel : nat) (x i : Z) : option Z :=
  match fuel with
  | O => None
  | S fuel =>
      if u64 (i * i) <=? x then
        if x mod i =? 0 then Some 0 else is_prime_loop fuel x (u64 (i + 1))
      else Some 1
  end.

(** [sqrt x] turns exhaust the loop while [i * i] does not wrap. *)
(* src/src/core/dfs_math.cpp:600-618 (dfs_math_is_prime) *)
Definition dfs_math_is_prime (x : Z) : option Z :=
  if x <=? 1 then Some 0 else is_prime_loop (S (Z.to_nat (Z.sqrt x))) x 2.

(** [fuel] bounds the candidates tried. *)
(* src/src/core/dfs_math.cpp:620-631 (dfs_math_find_prime) *)
Fixpoint dfs_math_find_prime (fuel : nat) (x : Z) : option Z :=
  match fuel with
  | O => None
  | S fuel =>
      r ← dfs_math_is_prime x;
      if negb (r =? 0) then Some x else dfs_math_find_prime fuel (u64 (x + 1))
  end.

(** ** Logarithms *)

Lemma dfslog2_loop_spec fuel x i :
  (0 < fuel)%nat -> 0 <= x < 2 ^ (Z.of_nat fuel - 1) -> 0 <= i -> i + Z.log2 x < 2 ^ 32 ->
  dfslog2_loop fuel x i = Some (i + Z.log2 x).
Proof.
  revert x i. induction fuel as [|fuel IH]; intros x i Hf Hx Hi Hb; [lia |]; cbn [dfslog2_loop].
  replace (Z.of_nat (S fuel) - 1) with (Z.of_nat fuel) in Hx by lia.
  destruct (Z.ltb_spec 1 x).
  - assert (0 < fuel)%nat by (destruct fuel; simpl in Hx; lia).
    assert (Z.log2 x = Z.succ (Z.log2 (Z.shiftr x 1))) as Hlog.
    { pose proof (Z.log2_shiftr x 1 ltac:(lia)). pose proof (Z.log2_le_mono 2 x ltac:(lia)).
      change (Z.log2 2) with 1 in *. lia. }
    pose proof (Z.log2_nonneg (Z.shiftr x 1)).
    rewrite (u32_small (i + 1)) by (unfold is_u32; lia).
    rewrite IH; [f_equal; lia | lia | | lia | lia].
    replace (Z.of_nat fuel) with (Z.succ (Z.of_nat fuel - 1)) in Hx by lia.
    rewrite Z.pow_succ_r in Hx by lia.
    rewrite Z.shiftr_div_pow2 by lia. change (2 ^ 1) with 2. split; [apply Z.div_pos; lia |].
    apply Z.div_lt_upper_bound; lia.
  - f_equal. destruct (decide (x = 0)) as [-> |]; [simpl; lia |].
    replace x with 1 by lia. simpl. lia.
Qed.

Lemma log2_u64 x : is_u64 x -> 0 <= Z.log2 x < 64.
Proof.
  intros Hx. split; [apply Z.log2_nonneg |]. destruct (decide (x <= 0)).
  - rewrite Z.log2_nonpos; lia.
  - apply Z.log2_lt_pow2; unfold is_u64 in Hx; lia.
Qed.

(** [x & (x - 1)] is zero exactly on powers of two. *)
Lemma land_pred_zero x : 0 < x -> Z.land x (x - 1) = 0 <-> x = 2 ^ Z.log2 x.
Proof.
  intros Hx. pose proof (Z.log2_spec x Hx) as [Hlo Hhi]. pose proof (Z.log2_nonneg x).
  split; intros H0.
  - destruct (decide (x = 2 ^ Z.log2 x)) as [|Hne]; [done |]. exfalso.
    assert (Z.log2 (x - 1) = Z.log2 x) as Hp by (apply Z.log2_unique; lia).
    assert (Z.testbit (Z.land x (x - 1)) (Z.log2 x) = true) as Hbit.
    { rewrite Z.land_spec, Z.bit_log2 by lia. rewrite <- Hp. rewrite Z.bit_log2; [done |].
      pose proof (Z.pow_pos_nonneg 2 (Z.log2 x)). lia. }
    rewrite H0, Z.bits_0 in Hbit. done.
  - rewrite H0. replace (2 ^ Z.log2 x - 1) with (Z.ones (Z.log2 x)) by (rewrite Z.ones_equiv; lia).
    rewrite Z.land_ones by done. apply Z.mod_same. lia.
Qed.

Lemma dfslog2_round x :
  is_u64 x -> (if negb (Z.land x (u64 (x - 1)) =? 0) then 1 else 0) + Z.log2 x = Z.log2_up x.
Proof.
  unfold is_u64. intros Hx. destruct (decide (x = 0)) as [-> |]; [reflexivity |].
  rewrite u64_small by (unfold is_u64; lia).
  pose proof (Z.log2_spec x ltac:(lia)) as [Hlo Hhi]. pose proof (Z.log2_nonneg x).
  destruct (Z.eqb_spec (Z.land x (x - 1)) 0) as [H0 | H0]; simpl.
  - apply land_pred_zero in H0; [|lia]. rewrite H0 at 2. by rewrite Z.log2_up_pow2.
  - symmetry. apply Z.log2_up_unique; [lia |].
    assert (x <> 2 ^ Z.log2 x) by (intros E; apply H0, land_pred_zero; [lia | done]).
    replace (Z.pred (1 + Z.log2 x)) with (Z.log2 x) by lia. rewrite Z.add_1_l. lia.
Qed.

(** ** Primality *)

(** The largest number whose trial divisors all have an unwrapped square. *)
Definition prime_bound : Z := (2 ^ 32 - 1) * (2 ^ 32 - 1).

Lemma prime_sqrt x :
  1 < x -> (forall i, 2 <= i -> i * i <= x -> x mod i <> 0) -> prime x.
Proof.
  intros Hx Hno. apply prime_alt. split; [done |]. intros n Hn [q Hq].
  destruct (decide (n * n <= x)).
  - apply (Hno n); [lia | done |]. rewrite Hq. apply Z.mod_mul. lia.
  - apply (Hno q); [nia | nia |]. rewrite Hq, Z.mul_comm. apply Z.mod_mul. nia.
Qed.

Lemma is_prime_loop_spec fuel x i :
  1 < x < prime_bound -> 2 <= i -> (i - 1) * (i - 1) <= x -> Z.sqrt x + 1 < i + Z.of_nat fuel ->
  (forall j, 2 <= j < i -> x mod j <> 0) ->
  exists r, is_prime_loop fuel x i = Some r /\
    ((r = 1 /\ prime x) \/ (r = 0 /\ ~ prime x)).
Proof.
  unfold prime_bound. intros Hx. revert i. pose proof (Z.sqrt_spec x ltac:(lia)) as Hs.
  induction fuel as [|fuel IH]; intros i Hi Hsq Hfuel Hno.
  { assert (i - 1 <= Z.sqrt x) by (apply Z.sqrt_le_square; lia). lia. }
  cbn [is_prime_loop].
  rewrite (u64_small (i * i)) by (unfold is_u64; nia).
  destruct (Z.leb_spec (i * i) x) as [Hle | Hgt].
  - destruct (Z.eqb_spec (x mod i) 0) as [H0 | H0].
    + exists 0. split; [done |]. right. split; [done |]. intros [_ Hp]%prime_alt.
      apply Z.mod_divide in H0; [|lia]. apply (Hp i); [nia | done].
    + rewrite (u64_small (i + 1)) by (unfold is_u64; nia). apply IH; try lia.
      intros j Hj. destruct (decide (j = i)) as [-> |]; [done | apply Hno; lia].
  - exists 1. split; [done |]. left. split; [done |].
    apply prime_sqrt; [lia |]. intros j Hj Hjx. apply Hno. nia.
Qed.

Lemma is_prime_spec x :
  0 <= x < prime_bound ->
  exists r, dfs_math_is_prime x = Some r /\ ((r = 1 /\ prime x) \/ (r = 0 /\ ~ prime x)).
Proof.
  intros Hx. unfold dfs_math_is_prime. destruct (Z.leb_spec x 1).
  - exists 0. split; [done |]. right. split; [done |]. intros [? _]%prime_alt. lia.
  - apply is_prime_loop_spec; lia.
Qed.

Lemma find_prime_spec fuel x p :
  0 <= x <= p -> prime p -> p < prime_bound -> p < x + Z.of_nat fuel ->
  exists q, dfs_math_find_prime fuel x = Some q /\ prime q /\ x <= q <= p /\
    forall r, x <= r < q -> ~ prime r.
Proof.
  intros Hx Hp Hb. revert x Hx. induction fuel as [|fuel IH]; intros x Hx Hf; [lia |].
  cbn [dfs_math_find_prime].
  destruct (is_prime_spec x ltac:(lia)) as (r & -> & [[-> Hr] | [-> Hr]]); cbn.
  - exists x. split; [done |]. split; [done |]. split; [lia |]. intros; lia.
  - assert (x <> p) by by intros ->.
    rewrite (u64_small (x + 1)) by (unfold is_u64, prime_bound in *; lia).
    destruct (IH (x + 1)) as (q & Hq & ? & ? & Hlt); [lia | lia |].
    exists q. split; [done |]. split; [done |]. split; [lia |].
    intros r Hrq. destruct (decide (r = x)) as [-> |]; [done | apply Hlt; lia].
Qed.

(** ** Properties *)

Lemma dfslog2_spec x :
  is_u64 x -> dfs_math_dfslog2 x 0 = Some (Z.log2 x) /\ dfs_math_dfslog2 x 1 = Some (Z.log2_up x).
Proof.
  intros Hx. pose proof (log2_u64 x Hx). unfold dfs_math_dfslog2. cbn [Z.eqb negb andb].
  rewrite <- (dfslog2_round x Hx). unfold is_u64 in Hx.
  split; rewrite dfslog2_loop_spec; try done; try lia; by destruct (negb _); lia.
Qed.

(** On every [size_t], [dfs_math_dfslog2] terminates; rounding down it is the integer
    part of the base-2 logarithm and rounding up its ceiling, with [0] for the argument [0]. *)
Theorem dfslog2_exact x :
  is_u64 x ->
  dfs_math_dfslog2 x 0 = Some (Z.log2 x) /\ dfs_math_dfslog2 x 1 = Some (Z.log2_up x).
Proof. apply dfslog2_spec. Qed.

Lemma dfslog2_exact_witness :
  dfs_math_dfslog2 5000 0 = Some (Z.log2 5000) /\ dfs_math_dfslog2 5000 1 = Some (Z.log2_up 5000).
Proof. apply (dfslog2_exact 5000). unfold is_u64. lia. Defined.

(** [dfs_math_is_prime] decides primality for every number whose trial squares fit in
    64 bits, and from any [x] with a prime [p >= x] below that bound
    [dfs_math_find_prime] terminates within [p - x + 1] candidates and returns the least
    prime that is at least [x]. *)
Theorem find_prime_least x p :
  0 <= x <= p -> prime p -> p < prime_bound ->
  (exists r, dfs_math_is_prime x = Some r /\ (r = 1 <-> prime x) /\ (r = 0 <-> ~ prime x)) /\
  exists q, dfs_math_find_prime (S (Z.to_nat (p - x))) x = Some q /\
    prime q /\ x <= q <= p /\ forall r, x <= r < q -> ~ prime r.
Proof.
  intros Hx Hp Hb. split.
  - destruct (is_prime_spec x ltac:(lia)) as (r & -> & Hr). exists r. split; [done |].
    destruct Hr as [[-> Hr] | [-> Hr]]; split; split; (done || lia).
  - by apply find_prime_spec; try lia.
Qed.

Lemma prime_8009 : prime 8009.
Proof.
  destruct (is_prime_spec 8009) as (r & Hr & [[_ ?] | [-> _]]); [unfold prime_bound; lia | done |].
  vm_compute in Hr. discriminate.
Qed.

Lemma find_prime_least_witness :
  (exists r, dfs_math_is_prime 7994 = Some r /\ (r = 1 <-> prime 7994) /\ (r = 0 <-> ~ prime 7994)) /\
  exists q, dfs_math_find_prime (S (Z.to_nat (8009 - 7994))) 7994 = Some q /\
    prime q /\ 7994 <= q <= 8009 /\ forall r, 7994 <= r < q -> ~ prime r.
Proof.
  apply (find_prime_least 7994 8009); [lia | exact prime_8009 | unfold prime_bound; lia].
Defined.
