(* ===== verification/Queue.v ===== *)
(** * Intrusive doubly linked queues ([src/core/dfs_queue.h], [src/core/dfs_queue.cpp])

    A [queue_t] lives inside the object it links, so the model is a heap of link
    fields indexed by address, and every macro is the same sequence of reads
    and writes the source makes, aliasing included. A read or write at an
    address that holds no [queue_t] (the null pointer, a dangling one) is [None].

    [is_queue m h xs] says that in heap [m] the sentinel [h] heads the circular
    list of the distinct nodes [xs]; the lemmas show which list each macro leaves. *)

From stdpp Require Import sorting.
From S2P Require Import Prelude.

(** ** The heap of link fields *)

(* src/src/core/dfs_queue.h:8-12 (queue_s) *)
Record links := { l_next : gmap ptr ptr; l_prev : gmap ptr ptr }.

Definition upd_next (q v : ptr) (m : links) : links :=
  {| l_next := <[q := v]> (l_next m); l_prev := l_prev m |}.
Definition upd_prev (q v : ptr) (m : links) : links :=
  {| l_next := l_next m; l_prev := <[q := v]> (l_prev m) |}.

(** Assignments through a pointer: [q->next = v], [q->prev = v]. *)
Definition set_next (q v : ptr) (m : links) : option links :=
  _ ← l_next m !! q; Some (upd_next q v m).
Definition set_prev (q v : ptr) (m : links) : option links :=
  _ ← l_prev m !! q; Some (upd_prev q v m).

(** ** The macros *)

(* src/src/core/dfs_queue.h:14-17 (queue_init) *)
Definition queue_init (q : ptr) (m : links) : option links :=
  m ← set_prev q q m; set_next q q m.

(* src/src/core/dfs_queue.h:19-20 (queue_empty) *)
Definition queue_empty (h : ptr) (m : links) : option bool :=
  p ← l_prev m !! h; Some (bool_decide (h = p)).

(* src/src/core/dfs_queue.h:22-35 (queue_sentinel, queue_head, queue_tail, queue_next, queue_prev) *)
Definition queue_head (h : ptr) (m : links) : option ptr := l_next m !! h.
Definition queue_tail (h : ptr) (m : links) : option ptr := l_prev m !! h.
Definition queue_next (q : ptr) (m : links) : option ptr := l_next m !! q.
Definition queue_prev (q : ptr) (m : links) : option ptr := l_prev m !! q.

(* src/src/core/dfs_queue.h:40-46 (queue_insert_head) *)
Definition queue_insert_head (h x : ptr) (m : links) : option links :=
  hn ← queue_next h m; m ← set_next x hn m;
  xn ← queue_next x m; m ← set_prev xn x m;
  m ← set_prev x h m;
  set_next h x m.

(* src/src/core/dfs_queue.h:48-54 (queue_insert_tail) *)
Definition queue_insert_tail (h x : ptr) (m : links) : option links :=
  hp ← queue_prev h m; m ← set_prev x hp m;
  xp ← queue_prev x m; m ← set_next xp x m;
  m ← set_next x h m;
  set_prev h x m.

(* src/src/core/dfs_queue.h:56-62 (queue_insert_before) *)
Definition queue_insert_before (listelm elm : ptr) (m : links) : option links :=
  lp ← queue_prev listelm m; m ← set_prev elm lp m;
  m ← set_next elm listelm m;
  lp ← queue_prev listelm m; m ← set_next lp elm m;
  set_prev listelm elm m.

(* src/src/core/dfs_queue.h:64-70 (queue_insert_after) *)
Definition queue_insert_after (listelm elm : ptr) (m : links) : option links :=
  ln ← queue_next listelm m; m ← set_next elm ln m;
  m ← set_prev elm listelm m;
  ln ← queue_next listelm m; m ← set_prev ln elm m;
  set_next listelm elm m.

(* src/src/core/dfs_queue.h:72-78 (queue_add_queue) *)
Definition queue_add_queue (h n : ptr) (m : links) : option links :=
  hp ← queue_prev h m; nn ← queue_next n m; m ← set_next hp nn m;
  nn ← queue_next n m; hp ← queue_prev h m; m ← set_prev nn hp m;
  np ← queue_prev n m; m ← set_prev h np m;
  hp ← queue_prev h m; set_next hp h m.

(* src/src/core/dfs_queue.h:80-85 (queue_remove) *)
Definition queue_remove (x : ptr) (m : links) : option links :=
  xn ← queue_next x m; xp ← queue_prev x m; m ← set_prev xn xp m;
  xp ← queue_prev x m; xn ← queue_next x m; m ← set_next xp xn m;
  m ← set_next x nullptr m;
  set_prev x nullptr m.

(* src/src/core/dfs_queue.h:87-95 (queue_split) *)
Definition queue_split (h q n : ptr) (m : links) : option links :=
  hp ← queue_prev h m; m ← set_prev n hp m;
  np ← queue_prev n m; m ← set_next np n m;
  m ← set_next n q m;
  qp ← queue_prev q m; m ← set_prev h qp m;
  hp ← queue_prev h m; m ← set_next hp h m;
  set_prev q n m.

(** ** The functions *)

Fixpoint queue_middle_loop (fuel : nat) (queue middle next : ptr) (m : links) : option ptr :=
  match fuel with
  | O => None
  | S fuel =>
      middle ← queue_next middle m;
      next ← queue_next next m;
      tail ← queue_tail queue m;
      if bool_decide (next = tail) then Some middle
      else
        next ← queue_next next m;
        tail ← queue_tail queue m;
        if bool_decide (next = tail) then Some middle
        else queue_middle_loop fuel queue middle next m
  end.

(* src/src/core/dfs_queue.cpp:8-35 (queue_middle) *)
Definition queue_middle (fuel : nat) (queue : ptr) (m : links) : option ptr :=
  middle ← queue_head queue m;
  tail ← queue_tail queue m;
  if bool_decide (middle = tail) then Some middle
  else queue_middle_loop fuel queue middle middle m.

Section Sort.
(** The comparison function pointer: it reads the linked objects, never the links. *)
Context (cmp : ptr -> ptr -> Z).

(** [do { if (cmp(prev, q) <= 0) break; prev = queue_prev(prev); } while (prev != sentinel)] *)
Fixpoint queue_sort_scan (fuel : nat) (queue q prev : ptr) (m : links) : option ptr :=
  match fuel with
  | O => None
  | S fuel =>
      if cmp prev q <=? 0 then Some prev
      else
        prev ← queue_prev prev m;
        if bool_decide (prev = queue) then Some prev
        else queue_sort_scan fuel queue q prev m
  end.

Fixpoint queue_sort_loop (fuel : nat) (queue q : ptr) (m : links) : option links :=
  match fuel with
  | O => None
  | S fuel =>
      if bool_decide (q = queue) then Some m
      else
        prev ← queue_prev q m;
        next ← queue_next q m;
        m ← queue_remove q m;
        prev ← queue_sort_scan fuel queue q prev m;
        m ← queue_insert_head prev q m;
        queue_sort_loop fuel queue next m
  end.
End Sort.

(* src/src/core/dfs_queue.cpp:37-65 (queue_sort) *)
Definition queue_sort (cmp : ptr -> ptr -> Z) (fuel : nat) (queue : ptr) (m : links) : option links :=
  q ← queue_head queue m;
  tail ← queue_tail queue m;
  if bool_decide (q = tail) then Some m
  else
    q ← queue_next q m;
    queue_sort_loop cmp fuel queue q m.

(** ** Linked segments *)

(** [a->next == b] and [b->prev == a]. *)
Definition linked (m : links) (a b : ptr) : Prop :=
  l_next m !! a = Some b /\ l_prev m !! b = Some a.

Fixpoint seg (m : links) (l : list ptr) : Prop :=
  match l with
  | a :: (b :: _) as l => linked m a b /\ seg m l
  | _ => True
  end.

Definition is_queue (m : links) (h : ptr) (xs : list ptr) : Prop :=
  NoDup (h :: xs) /\ seg m (h :: xs ++ [h]).

Definition allocated (m : links) (x : ptr) : Prop :=
  is_Some (l_next m !! x) /\ is_Some (l_prev m !! x).

(** Two heaps that agree on the fields of every address outside [S]. *)
Definition same_off (S : list ptr) (m m' : links) : Prop :=
  forall a, a ∉ S -> l_next m' !! a = l_next m !! a /\ l_prev m' !! a = l_prev m !! a.

Create HintDb queue.

Lemma seg_cons m a b l : seg m (a :: b :: l) <-> linked m a b /\ seg m (b :: l).
Proof. done. Qed.

Lemma seg_app m l1 a b l2 :
  seg m (l1 ++ a :: b :: l2) <-> seg m (l1 ++ [a]) /\ linked m a b /\ seg m (b :: l2).
Proof.
  induction l1 as [|c l1 IH]; simpl app.
  - rewrite seg_cons. simpl. tauto.
  - destruct l1 as [|d l1]; simpl app in *.
    + rewrite !seg_cons in *. simpl. tauto.
    + rewrite !(seg_cons _ c). rewrite IH. tauto.
Qed.

(** Only the [next] of all but the last node and the [prev] of all but the first matter. *)
Lemma seg_frame m m' l :
  (forall a, a ∈ removelast l -> l_next m' !! a = l_next m !! a) ->
  (forall b, b ∈ tail l -> l_prev m' !! b = l_prev m !! b) ->
  seg m l -> seg m' l.
Proof.
  induction l as [|a [|b l] IH]; [done.. |]. intros Hn Hp [[Hab Hba] Hs]. split.
  - split; [rewrite Hn | rewrite Hp]; try done; simpl; by left.
  - apply IH; [| |done].
    + intros c Hc. apply Hn. by right.
    + intros c Hc. apply Hp. by right.
Qed.

Lemma seg_lookup m l i a b :
  seg m l -> l !! i = Some a -> l !! S i = Some b -> linked m a b.
Proof.
  revert i. induction l as [|c [|d l] IH]; intros i Hs Ha Hb.
  - done.
  - destruct i; done.
  - destruct Hs as [Hcd Hs]. destruct i as [|i]; [by simplify_eq/= |]. by eapply IH.
Qed.


(** The node before the rest of a list, and the node after its prefix, in the cycle
    through the sentinel [h]. *)
Definition pred_of (h : ptr) (l1 : list ptr) : ptr := List.last l1 h.
Definition succ_of (h : ptr) (l2 : list ptr) : ptr := List.hd h l2.

Lemma cycle_prefix h l1 : h :: l1 = removelast (h :: l1) ++ [pred_of h l1].
Proof.
  rewrite (app_removelast_last h (l := h :: l1)) at 1 by done. by destruct l1.
Qed.

Lemma cycle_suffix h l2 : l2 ++ [h] = succ_of h l2 :: tail (l2 ++ [h]).
Proof. by destruct l2. Qed.

Lemma pred_of_in h l1 : pred_of h l1 ∈ h :: l1.
Proof. rewrite (cycle_prefix h l1). apply elem_of_app. right. by apply list_elem_of_singleton. Qed.
Lemma succ_of_in h l2 : succ_of h l2 ∈ h :: l2.
Proof. destruct l2; simpl; [by left | by right; left]. Qed.

Lemma tail_suffix_in (h : ptr) l2 a : a ∈ tail (l2 ++ [h]) -> a ∈ h :: l2.
Proof.
  destruct l2 as [|b l2]; simpl; [by intros ?%elem_of_nil |].
  rewrite elem_of_app, list_elem_of_singleton, !elem_of_cons. tauto.
Qed.
Lemma init_prefix_in (h : ptr) l1 a : a ∈ removelast (h :: l1) -> a ∈ h :: l1.
Proof. intros Ha. rewrite (cycle_prefix h l1). apply elem_of_app. by left. Qed.

(** The cycle cut between two neighbours. *)
Lemma seg_cut m h l1 l2 :
  seg m (h :: (l1 ++ l2) ++ [h]) <->
  seg m (h :: l1) /\ linked m (pred_of h l1) (succ_of h l2) /\ seg m (l2 ++ [h]).
Proof.
  assert (h :: (l1 ++ l2) ++ [h] =
          removelast (h :: l1) ++ pred_of h l1 :: succ_of h l2 :: tail (l2 ++ [h])) as ->.
  { rewrite <- cycle_suffix. transitivity ((h :: l1) ++ l2 ++ [h]); [by simplify_list_eq |].
    rewrite (cycle_prefix h l1) at 1. by rewrite <- (assoc_L app). }
  by rewrite seg_app, <- cycle_prefix, <- cycle_suffix.
Qed.

Lemma seg_cut_mid m h l1 x l2 :
  seg m (h :: (l1 ++ x :: l2) ++ [h]) <->
  seg m (h :: l1) /\ linked m (pred_of h l1) x /\ linked m x (succ_of h l2) /\ seg m (l2 ++ [h]).
Proof.
  rewrite (seg_cut m h l1 (x :: l2)). simpl app. simpl succ_of.
  rewrite (cycle_suffix h l2), seg_cons. tauto.
Qed.

Lemma nodup_cut (h : ptr) l1 l2 :
  NoDup (h :: l1 ++ l2) -> NoDup (h :: l1) /\ NoDup (h :: l2) /\ forall a, a ∈ l1 -> a ∈ l2 -> False.
Proof.
  rewrite !NoDup_cons, NoDup_app, elem_of_app. intros (Hh & H1 & H12 & H2).
  repeat split; try tauto.
Qed.

(** A half of the cycle survives writes to the fields at its cut. *)
Lemma seg_prefix_frame m m' h l1 :
  NoDup (h :: l1) ->
  (forall a, a ∈ h :: l1 -> a <> pred_of h l1 -> l_next m' !! a = l_next m !! a) ->
  (forall a, a ∈ l1 -> l_prev m' !! a = l_prev m !! a) ->
  seg m (h :: l1) -> seg m' (h :: l1).
Proof.
  intros Hnd Hn Hp. apply seg_frame; [|done]. intros a Ha. apply Hn; [by apply init_prefix_in |].
  intros ->. rewrite (cycle_prefix h l1), NoDup_app in Hnd. destruct Hnd as (_ & Hnd & _).
  apply (Hnd _ Ha). by apply list_elem_of_singleton.
Qed.

Lemma seg_suffix_frame m m' h l2 :
  NoDup (h :: l2) ->
  (forall a, a ∈ l2 -> l_next m' !! a = l_next m !! a) ->
  (forall a, a ∈ h :: l2 -> a <> succ_of h l2 -> l_prev m' !! a = l_prev m !! a) ->
  seg m (l2 ++ [h]) -> seg m' (l2 ++ [h]).
Proof.
  intros Hnd Hn Hp. apply seg_frame; [rewrite removelast_last; done |].
  intros a Ha. apply Hp; [by apply tail_suffix_in |]. intros ->.
  assert (NoDup (l2 ++ [h])) as Hnd2.
  { apply NoDup_cons in Hnd as [? ?]. rewrite NoDup_app. split; [done |].
    split; [set_solver | apply NoDup_singleton]. }
  rewrite cycle_suffix, NoDup_cons in Hnd2. by destruct Hnd2.
Qed.

Lemma seg_cut_frame m m' h l1 l2 :
  NoDup (h :: l1 ++ l2) ->
  (forall a, a ∈ h :: l1 ++ l2 -> a <> pred_of h l1 -> l_next m' !! a = l_next m !! a) ->
  (forall a, a ∈ h :: l1 ++ l2 -> a <> succ_of h l2 -> l_prev m' !! a = l_prev m !! a) ->
  seg m (h :: l1) /\ seg m (l2 ++ [h]) -> seg m' (h :: l1) /\ seg m' (l2 ++ [h]).
Proof.
  intros Hnd Hn Hp [H1 H2]. destruct (nodup_cut h l1 l2 Hnd) as (Hn1 & Hn2 & Hdisj).
  pose proof (proj1 (NoDup_cons _ _) Hn1) as [Hh1 _].
  pose proof (proj1 (NoDup_cons _ _) Hn2) as [Hh2 _].
  split.
  - apply (seg_prefix_frame m); [done | | | done].
    + intros a Ha. apply Hn. set_solver.
    + intros a Ha. apply Hp; [set_solver |]. intros ->.
      pose proof (succ_of_in h l2) as [E | E]%elem_of_cons; [by rewrite E in Ha | by eapply Hdisj].
  - apply (seg_suffix_frame m); [done | | | done].
    + intros a Ha. apply Hn; [set_solver |]. intros ->.
      pose proof (pred_of_in h l1) as [E | E]%elem_of_cons; [by rewrite E in Ha | by eapply Hdisj].
    + intros a Ha. apply Hp. set_solver.
Qed.

(** ** What each macro does to a queue *)

(** Every node of a queue has both neighbours. *)
Lemma is_queue_cut m h l1 x l2 :
  is_queue m h (l1 ++ x :: l2) -> linked m (pred_of h l1) x /\ linked m x (succ_of h l2).
Proof. intros [_ Hs]. apply seg_cut_mid in Hs. tauto. Qed.

Lemma is_queue_neighbours m h l1 l2 :
  is_queue m h (l1 ++ l2) -> linked m (pred_of h l1) (succ_of h l2).
Proof. intros [_ Hs]. apply seg_cut in Hs. tauto. Qed.

Lemma is_queue_head m h xs : is_queue m h xs -> l_next m !! h = Some (succ_of h xs).
Proof. intros H. by destruct (is_queue_neighbours m h [] xs H). Qed.

Lemma is_queue_tail m h xs : is_queue m h xs -> l_prev m !! h = Some (pred_of h xs).
Proof. intros H. rewrite <- (app_nil_r xs) in H. by destruct (is_queue_neighbours m h xs [] H). Qed.

Lemma is_queue_allocated m h xs x : is_queue m h xs -> x ∈ h :: xs -> allocated m x.
Proof.
  intros H [-> | Hx]%elem_of_cons.
  - split; eexists; [by eapply is_queue_head | by eapply is_queue_tail].
  - apply list_elem_of_split in Hx as (l1 & l2 & ->).
    destruct (is_queue_cut _ _ _ _ _ H) as [[_ ?] [? _]]. by split; eexists.
Qed.

Lemma is_queue_frame m m' S h xs :
  same_off S m m' -> (forall a, a ∈ h :: xs -> a ∉ S) -> is_queue m h xs -> is_queue m' h xs.
Proof.
  intros Hoff Hd [Hnd Hs]. split; [done |].
  apply (seg_cut m h [] xs) in Hs as (H1 & [Ha Hb] & H2). apply (seg_cut m' h [] xs).
  destruct (seg_cut_frame m m' h [] xs) as [? ?]; try done.
  - intros a Hin _. by apply Hoff, Hd.
  - intros a Hin _. by apply Hoff, Hd.
  - split; [done |]. split; [|done]. split.
    + rewrite <- Ha. apply Hoff, Hd. by left.
    + rewrite <- Hb. apply Hoff, Hd. apply succ_of_in.
Qed.

(** Execute a macro: look every field up, write every field. *)
Ltac run_step :=
  first
    [ rewrite lookup_insert_eq
    | rewrite lookup_insert_ne by congruence
    | match goal with H : ?m !! ?i = Some _ |- context [?m !! ?i] => rewrite H end ].
Ltac run_links :=
  unfold queue_next, queue_prev, queue_head, queue_tail, set_next, set_prev, upd_next, upd_prev;
  repeat (cbn [mbind option_bind l_next l_prev]; run_step);
  cbn [mbind option_bind l_next l_prev].

(** [m'] is [m] with [x] linked between [p] and [n]. *)
Definition links_between (m m' : links) (p x n : ptr) : Prop :=
  linked m' p x /\ linked m' x n /\
  (forall a, a <> p -> a <> x -> l_next m' !! a = l_next m !! a) /\
  (forall a, a <> n -> a <> x -> l_prev m' !! a = l_prev m !! a).

Lemma insert_between m m' h l1 x l2 :
  is_queue m h (l1 ++ l2) -> x ∉ h :: l1 ++ l2 ->
  links_between m m' (pred_of h l1) x (succ_of h l2) ->
  is_queue m' h (l1 ++ x :: l2) /\ same_off (x :: h :: l1 ++ l2) m m'.
Proof.
  intros [Hnd Hs] Hx (Hpx & Hxn & Hn & Hp). apply seg_cut in Hs as (H1 & _ & H2).
  assert (pred_of h l1 ∈ h :: l1 ++ l2) as Hpin by (pose proof (pred_of_in h l1); set_solver).
  assert (succ_of h l2 ∈ h :: l1 ++ l2) as Hsin by (pose proof (succ_of_in h l2); set_solver).
  split; [split |].
  - rewrite NoDup_cons, NoDup_app in *. rewrite NoDup_cons. set_solver.
  - apply seg_cut_mid.
    destruct (seg_cut_frame m m' h l1 l2 Hnd) as [? ?]; [| |done|done].
    + intros a Ha Hne. apply Hn; set_solver.
    + intros a Ha Hne. apply Hp; set_solver.
  - intros a Ha. split; [apply Hn | apply Hp]; set_solver.
Qed.

Lemma remove_between m m' h l1 x l2 :
  is_queue m h (l1 ++ x :: l2) ->
  linked m' (pred_of h l1) (succ_of h l2) ->
  (forall a, a <> pred_of h l1 -> a <> x -> l_next m' !! a = l_next m !! a) ->
  (forall a, a <> succ_of h l2 -> a <> x -> l_prev m' !! a = l_prev m !! a) ->
  is_queue m' h (l1 ++ l2) /\ same_off (h :: l1 ++ x :: l2) m m'.
Proof.
  intros [Hnd Hs] Hpn Hn Hp. apply seg_cut_mid in Hs as (H1 & _ & _ & H2).
  pose proof (pred_of_in h l1) as Hpin. pose proof (succ_of_in h l2) as Hsin.
  assert ((x ∉ h :: l1 ++ l2) /\ NoDup (h :: l1 ++ l2)) as [Hx Hnd'].
  { rewrite NoDup_cons, NoDup_app in *. rewrite NoDup_cons in Hnd. set_solver. }
  split; [split; [done |] |].
  - apply seg_cut. destruct (seg_cut_frame m m' h l1 l2 Hnd') as [? ?]; [| |done|done].
    + intros a Ha Hne. apply Hn; set_solver.
    + intros a Ha Hne. apply Hp; set_solver.
  - intros a Ha. split; [apply Hn | apply Hp]; set_solver.
Qed.

(** A macro that links [x] next to a node of the queue. *)
Ltac solve_between :=
  split; [| split; [| split]];
  [ split; cbn [l_next l_prev]; repeat run_step; done
  | split; cbn [l_next l_prev]; repeat run_step; done
  | intros ???; cbn [l_next l_prev]; repeat run_step; done
  | intros ???; cbn [l_next l_prev]; repeat run_step; done ].

Lemma run_insert_after m p x n :
  linked m p n -> allocated m x -> x <> p -> x <> n ->
  exists m', queue_insert_head p x m = Some m' /\ queue_insert_after p x m = Some m' /\
    links_between m m' p x n.
Proof.
  intros [Hpn Hnp] [[vn Hvn] [vp Hvp]] Hxp Hxn.
  eexists. split; [unfold queue_insert_head; run_links; reflexivity |]. split.
  - unfold queue_insert_after. run_links. do 2 f_equal. by apply insert_insert_ne.
  - solve_between.
Qed.

Lemma run_insert_before m p x n :
  linked m p n -> allocated m x -> x <> p -> x <> n ->
  exists m', queue_insert_tail n x m = Some m' /\ queue_insert_before n x m = Some m' /\
    links_between m m' p x n.
Proof.
  intros [Hpn Hnp] [[vn Hvn] [vp Hvp]] Hxp Hxn.
  eexists. split; [unfold queue_insert_tail; run_links; reflexivity |]. split.
  - unfold queue_insert_before. run_links. do 2 f_equal. by apply insert_insert_ne.
  - solve_between.
Qed.

Lemma insert_after_spec m h l1 x l2 :
  is_queue m h (l1 ++ l2) -> x ∉ h :: l1 ++ l2 -> allocated m x ->
  exists m', queue_insert_head (pred_of h l1) x m = Some m' /\
    queue_insert_after (pred_of h l1) x m = Some m' /\
    is_queue m' h (l1 ++ x :: l2) /\ same_off (x :: h :: l1 ++ l2) m m'.
Proof.
  intros Hq Hx Ha. pose proof (pred_of_in h l1). pose proof (succ_of_in h l2).
  destruct (run_insert_after m (pred_of h l1) x (succ_of h l2)) as (m' & E1 & E2 & Hb).
  - by apply is_queue_neighbours.
  - done.
  - set_solver.
  - set_solver.
  - exists m'. split; [done |]. split; [done |]. by apply insert_between.
Qed.

Lemma insert_before_spec m h l1 x l2 :
  is_queue m h (l1 ++ l2) -> x ∉ h :: l1 ++ l2 -> allocated m x ->
  exists m', queue_insert_tail (succ_of h l2) x m = Some m' /\
    queue_insert_before (succ_of h l2) x m = Some m' /\
    is_queue m' h (l1 ++ x :: l2) /\ same_off (x :: h :: l1 ++ l2) m m'.
Proof.
  intros Hq Hx Ha. pose proof (pred_of_in h l1). pose proof (succ_of_in h l2).
  destruct (run_insert_before m (pred_of h l1) x (succ_of h l2)) as (m' & E1 & E2 & Hb).
  - by apply is_queue_neighbours.
  - done.
  - set_solver.
  - set_solver.
  - exists m'. split; [done |]. split; [done |]. by apply insert_between.
Qed.

Lemma insert_head_spec m h xs x :
  is_queue m h xs -> x ∉ h :: xs -> allocated m x ->
  exists m', queue_insert_head h x m = Some m' /\ is_queue m' h (x :: xs) /\
    same_off (x :: h :: xs) m m'.
Proof.
  intros Hq Hx Ha. destruct (insert_after_spec m h [] x xs Hq Hx Ha) as (m' & ? & _ & ? & ?). eauto.
Qed.

Lemma insert_tail_spec m h xs x :
  is_queue m h xs -> x ∉ h :: xs -> allocated m x ->
  exists m', queue_insert_tail h x m = Some m' /\ is_queue m' h (xs ++ [x]) /\
    same_off (x :: h :: xs) m m'.
Proof.
  intros Hq Hx Ha. destruct (insert_before_spec m h xs x []) as (m' & ? & _ & ? & ?);
    rewrite ?app_nil_r in *; eauto.
Qed.

Lemma remove_spec m h l1 x l2 :
  is_queue m h (l1 ++ x :: l2) ->
  exists m', queue_remove x m = Some m' /\ is_queue m' h (l1 ++ l2) /\
    same_off (h :: l1 ++ x :: l2) m m' /\
    l_next m' !! x = Some nullptr /\ l_prev m' !! x = Some nullptr.
Proof.
  intros Hq. destruct (is_queue_cut _ _ _ _ _ Hq) as [[Hpn Hnp] [Hxn Hnx]].
  pose proof Hq as [Hnd Hs].
  assert (x <> pred_of h l1 /\ x <> succ_of h l2) as [Hxp Hxs].
  { pose proof (pred_of_in h l1). pose proof (succ_of_in h l2).
    rewrite NoDup_cons, NoDup_app, NoDup_cons in Hnd. set_solver. }
  eexists. split; [unfold queue_remove; run_links; reflexivity |].
  apply and_assoc. split.
  - apply remove_between; [done | | |].
    + split; cbn [l_next l_prev]; repeat run_step; done.
    + intros a ??. cbn [l_next]. repeat run_step. done.
    + intros a ??. cbn [l_prev]. repeat run_step. done.
  - cbn [l_next l_prev]. by rewrite !lookup_insert_eq.
Qed.

Lemma init_spec m h :
  allocated m h -> exists m', queue_init h m = Some m' /\ is_queue m' h [] /\ same_off [h] m m'.
Proof.
  intros [[vn Hvn] [vp Hvp]]. eexists. split; [unfold queue_init; run_links; reflexivity |].
  split; [split; [apply NoDup_singleton |] |].
  - simpl. unfold linked. cbn [l_next l_prev]. by rewrite !lookup_insert_eq.
  - intros a Ha. cbn [l_next l_prev]. rewrite !lookup_insert_ne by set_solver. done.
Qed.

Lemma empty_spec m h xs : is_queue m h xs -> queue_empty h m = Some (bool_decide (xs = [])).
Proof.
  intros Hq. unfold queue_empty. rewrite (is_queue_tail _ _ _ Hq). cbn. f_equal.
  apply bool_decide_ext. destruct Hq as [Hnd _]. split; [|by intros ->].
  intros Hh. destruct xs as [|x xs]; [done |]. exfalso.
  assert (pred_of h (x :: xs) ∈ x :: xs) as Hin.
  { destruct (exists_last (l := x :: xs)) as (l & y & E); [done |]. rewrite E.
    unfold pred_of. rewrite List.last_last. set_solver. }
  rewrite <- Hh in Hin. apply NoDup_cons in Hnd. tauto.
Qed.

(** ** Positions in the cycle *)

Lemma is_queue_next m h xs i a :
  is_queue m h xs -> xs !! i = Some a -> l_next m !! a = (xs ++ [h]) !! S i.
Proof.
  intros [_ Hs] Ha. pose proof (lookup_lt_Some _ _ _ Ha) as Hi.
  destruct ((xs ++ [h]) !! S i) as [b|] eqn:Hb.
  - destruct (seg_lookup _ _ (S i) a b Hs) as [? _]; [|done..]. simpl. by rewrite lookup_app_l.
  - apply lookup_ge_None in Hb. rewrite length_app in Hb. simpl in Hb. lia.
Qed.

Lemma pred_of_lookup h xs : xs <> [] -> xs !! (length xs - 1)%nat = Some (pred_of h xs).
Proof.
  intros Hne. destruct (exists_last Hne) as (l & y & ->). unfold pred_of.
  rewrite List.last_last, length_app, lookup_app_r by (simpl; lia).
  simpl. by replace (length l + 1 - 1 - length l)%nat with 0%nat by lia.
Qed.

Lemma pred_of_snoc h l y : pred_of h (l ++ [y]) = y.
Proof. apply List.last_last. Qed.

Lemma pred_of_sentinel h xs : h ∉ xs -> pred_of h xs = h <-> xs = [].
Proof.
  intros Hh. split; [|by intros ->]. intros E. destruct xs as [|x xs]; [done |].
  exfalso. apply Hh. rewrite <- E at 1. apply list_elem_of_lookup.
  eexists. by apply pred_of_lookup.
Qed.

Lemma at_tail m h xs i a :
  is_queue m h xs -> xs !! i = Some a -> a = pred_of h xs <-> i = (length xs - 1)%nat.
Proof.
  intros [Hnd _] Ha. assert (xs <> []) as Hne by (by intros ->). apply NoDup_cons in Hnd as [_ Hnd].
  pose proof (pred_of_lookup h xs Hne) as Hl. split.
  - intros ->. by eapply NoDup_lookup.
  - intros ->. by rewrite Hl in Ha; simplify_eq.
Qed.

(** ** The middle *)

Lemma queue_middle_loop_spec m h xs fuel i mid nxt :
  is_queue m h xs ->
  xs !! i = Some mid -> xs !! (2 * i)%nat = Some nxt ->
  (2 * i < length xs - 1)%nat -> (length xs <= 2 * i + 2 * fuel + 1)%nat ->
  queue_middle_loop fuel h mid nxt m = xs !! (length xs / 2)%nat.
Proof.
  intros Hq. revert i mid nxt. induction fuel as [|fuel IH]; intros i mid nxt Hmid Hnxt Hi Hf; [lia |].
  cbn [queue_middle_loop]. unfold queue_next, queue_tail.
  rewrite (is_queue_next _ _ _ _ _ Hq Hmid), (is_queue_next _ _ _ _ _ Hq Hnxt), (is_queue_tail _ _ _ Hq).
  destruct (lookup_lt_is_Some_2 xs (S i)) as [mid' Hmid']; [lia |].
  destruct (lookup_lt_is_Some_2 xs (S (2 * i))) as [nxt' Hnxt']; [lia |].
  rewrite !lookup_app_l, Hmid', Hnxt' by lia. cbn [mbind option_bind].
  rewrite (bool_decide_ext _ _ (at_tail _ _ _ _ _ Hq Hnxt')). case_bool_decide as E1.
  - rewrite <- Hmid'. f_equal. apply (Nat.div_unique _ 2 (S i) 0); lia.
  - rewrite (is_queue_next _ _ _ _ _ Hq Hnxt').
    destruct (lookup_lt_is_Some_2 xs (2 * S i)) as [nxt'' Hnxt'']; [lia |].
    replace (S (S (2 * i))) with (2 * S i)%nat by lia.
    rewrite lookup_app_l, Hnxt'' by lia. cbn [mbind option_bind].
    rewrite (bool_decide_ext _ _ (at_tail _ _ _ _ _ Hq Hnxt'')). case_bool_decide as E2.
    + rewrite <- Hmid'. f_equal. apply (Nat.div_unique _ 2 (S i) 1); lia.
    + apply (IH (S i)); [done.. | lia | lia].
Qed.

(** ** Splicing two queues *)

Lemma seg_snoc m y l z : seg m (y :: l ++ [z]) <-> seg m (y :: l) /\ linked m (pred_of y l) z.
Proof.
  transitivity (seg m ((removelast (y :: l) ++ [pred_of y l]) ++ [z])); [by rewrite <- cycle_prefix |].
  rewrite <- (assoc_L app). simpl app at 2. rewrite seg_app, <- cycle_prefix. simpl. tauto.
Qed.

(** A queue taken apart at its sentinel. *)
Lemma is_queue_open m h x xs :
  is_queue m h (x :: xs) <->
  NoDup (h :: x :: xs) /\ linked m h x /\ seg m (x :: xs) /\ linked m (pred_of x xs) h.
Proof.
  unfold is_queue. simpl app. rewrite seg_cons, seg_snoc. done.
Qed.

Lemma add_queue_spec m h n xs ys :
  is_queue m h xs -> is_queue m n ys -> ys <> [] ->
  (forall a, a ∈ h :: xs -> a ∈ n :: ys -> False) ->
  exists m', queue_add_queue h n m = Some m' /\ is_queue m' h (xs ++ ys) /\
    same_off (h :: xs ++ ys) m m'.
Proof.
  intros Hh Hn Hne Hd. destruct ys as [|y ys]; [done |].
  pose proof (is_queue_head _ _ _ Hh) as Hh1. pose proof (is_queue_tail _ _ _ Hh) as Hh2.
  pose proof (is_queue_neighbours m h xs [] ltac:(by rewrite app_nil_r)) as [Hph _].
  simpl succ_of in Hph.
  apply is_queue_open in Hn as (Hndn & [Hny Hyn] & Hsy & [Hln Hnl]).
  assert (pred_of h xs ∈ h :: xs) as Hpin by apply pred_of_in.
  assert (pred_of y ys ∈ y :: ys) as Hlin by apply pred_of_in.
  assert (n <> pred_of h xs /\ h <> y /\ n <> y /\ h <> n) as (N1 & N2 & N3 & N4).
  { apply NoDup_cons in Hndn as [Hn' _]. repeat split; intros ->.
    - eapply Hd; [done | by left].
    - eapply Hd; [by left | by right; left].
    - apply Hn'. by left.
    - eapply Hd; by left. }
  eexists. split; [unfold queue_add_queue; run_links; reflexivity |]. split.
  - split.
    + destruct Hh as [Hndh _]. rewrite NoDup_cons in *. destruct Hndh, Hndn as [? Hndy].
      rewrite elem_of_app, NoDup_app. repeat split; try done.
      * intros [? | ?]; [done |]. eapply Hd; [by left | by right].
      * intros a Ha1 Ha2. eapply Hd; by right.
    + apply seg_cut. split; [| split].
      * destruct Hh as [Hndh Hsh]. rewrite <- (app_nil_r xs) in Hsh. apply seg_cut in Hsh as (Hsh & _).
        eapply seg_prefix_frame; [done | | |exact Hsh]; cbn [l_next l_prev].
        -- intros a Ha Hap. rewrite !lookup_insert_ne; [done | congruence |].
           intros <-. eapply Hd; [done | by right].
        -- intros a Ha. rewrite !lookup_insert_ne; [done | |].
           ++ intros <-. eapply (Hd y); [by right | by right; left].
           ++ intros <-. by apply NoDup_cons in Hndh as [? _].
      * simpl. split; cbn [l_next l_prev].
        -- rewrite lookup_insert_ne; [by run_step |]. intros E. rewrite E in Hlin.
           eapply Hd; [done | by right].
        -- rewrite lookup_insert_ne by done. by rewrite lookup_insert_eq.
      * simpl app. apply seg_snoc. split.
        -- apply NoDup_cons in Hndn as [_ Hndy].
           eapply (seg_prefix_frame m); [done | | |done]; cbn [l_next l_prev].
           ++ intros a Ha Hap. rewrite !lookup_insert_ne; [done | |congruence].
              intros <-. eapply Hd; [done | by right].
           ++ intros a Ha. rewrite !lookup_insert_ne; [done | |].
              ** intros <-. by apply NoDup_cons in Hndy as [? _].
              ** intros <-. eapply (Hd h); [by left | by right; right].
        -- split; cbn [l_next l_prev]; by rewrite lookup_insert_eq.
  - intros a Ha. cbn [l_next l_prev]. rewrite !lookup_insert_ne; [done | set_solver..].
Qed.

Lemma split_spec m h q n l1 l2 :
  is_queue m h (l1 ++ q :: l2) -> n ∉ h :: l1 ++ q :: l2 -> allocated m n ->
  exists m', queue_split h q n m = Some m' /\ is_queue m' h l1 /\ is_queue m' n (q :: l2) /\
    same_off (n :: h :: l1 ++ q :: l2) m m'.
Proof.
  intros Hh Hn [[vn Hvn] [vp Hvp]].
  pose proof (is_queue_tail _ _ _ Hh) as Hht.
  destruct (is_queue_cut _ _ _ _ _ Hh) as [[Hpq Hqp] _].
  destruct Hh as [Hnd Hs]. destruct (nodup_cut _ _ _ Hnd) as (Hnd1 & Hnd2 & Hd).
  apply seg_cut in Hs as (Hs1 & _ & Hs2). simpl app in Hs2. apply seg_snoc in Hs2 as (Hs2 & Hth & _).
  assert (pred_of h (l1 ++ q :: l2) = pred_of q l2) as E.
  { clear. destruct l2 as [|y l2] using rev_ind; [apply pred_of_snoc |].
    by rewrite app_comm_cons, (assoc_L app), !pred_of_snoc. }
  rewrite E in Hht. clear E.
  pose proof (pred_of_in h l1) as Hpin. pose proof (pred_of_in q l2) as Htin.
  set (p := pred_of h l1) in *. set (t := pred_of q l2) in *.
  assert ((n ∉ h :: l1) /\ (n ∉ q :: l2)) as [Hn1 Hn2] by (clear - Hn; set_solver).
  assert (forall a, a ∈ h :: l1 -> a ∈ q :: l2 -> False) as Hd'.
  { intros a [-> | Ha]%elem_of_cons; [by apply NoDup_cons in Hnd2 as [? _] | by apply Hd]. }
  assert (h <> q /\ p <> t /\ p <> n /\ t <> n /\ q <> n /\ h <> n) as (N1 & N2 & N3 & N4 & N5 & N6).
  { repeat split; intros Eq.
    - apply (Hd' q); [rewrite <- Eq |]; by left.
    - apply (Hd' p); [done | by rewrite Eq].
    - by rewrite Eq in Hpin.
    - by rewrite Eq in Htin.
    - apply Hn2. rewrite <- Eq. by left.
    - apply Hn1. rewrite <- Eq. by left. }
  eexists. split; [unfold queue_split; run_links; reflexivity |]. split; [| split].
  - split; [done |]. rewrite <- (app_nil_r l1) at 1. apply seg_cut. simpl. split; [| split; [| done]].
    + eapply seg_prefix_frame; [done | | |exact Hs1]; cbn [l_next l_prev].
      * intros a Ha Hap. rewrite !lookup_insert_ne; [done | ..]; intros <-; [| |done]; eauto.
      * intros a Ha. rewrite !lookup_insert_ne; [done | ..]; intros <-.
        -- apply Hn1. by right.
        -- by apply NoDup_cons in Hnd1 as [? _].
        -- apply (Hd' q); [by right | by left].
    + split; cbn [l_next l_prev]; repeat run_step; done.
  - apply is_queue_open. split; [| split; [| split]].
    + apply NoDup_cons. split; [done |]. by apply NoDup_cons in Hnd2 as [_ ?].
    + split; cbn [l_next l_prev]; repeat run_step; done.
    + apply NoDup_cons in Hnd2 as [_ Hnd2].
      eapply (seg_prefix_frame m); [done | | |done]; cbn [l_next l_prev].
      * intros a Ha Hat. rewrite !lookup_insert_ne; [done | ..]; intros <-; eauto.
      * intros a Ha. rewrite !lookup_insert_ne; [done | ..]; intros <-.
        -- apply Hn2. by right.
        -- apply (Hd' h); [by left | by right].
        -- by apply NoDup_cons in Hnd2 as [? _].
    + fold t. split; cbn [l_next l_prev]; repeat run_step; done.
  - intros a Ha. cbn [l_next l_prev]. assert (p ∈ n :: h :: l1 ++ q :: l2) by (clear - Hpin; clearbody p; set_solver).
    assert (t ∈ n :: h :: l1 ++ q :: l2) by (clear - Htin; clearbody t; set_solver).
    rewrite !lookup_insert_ne; [done | by intros <-; apply Ha; rewrite ?elem_of_cons, ?elem_of_app, ?elem_of_cons; auto..].
Qed.

(** ** Insertion sort *)

Section SortSpec.
Context (cmp : ptr -> ptr -> Z).

Definition cmp_le (a b : ptr) : Prop := cmp a b <= 0.

(** [a] occurs before [b]. *)
Definition before (a b : ptr) (l : list ptr) : Prop := [a; b] `sublist_of` l.

(** Where the backward scan stops: [done1] is what stays before [q]. *)
Definition stops (q : ptr) (done1 done2 : list ptr) : Prop :=
  Forall (fun d => ~ cmp_le d q) done2 /\
  (done1 = [] \/ exists d0 p, done1 = d0 ++ [p] /\ cmp_le p q).

Lemma queue_sort_scan_spec m h q done rest fuel :
  is_queue m h (done ++ rest) -> done <> [] -> (length done <= fuel)%nat ->
  exists done1 done2, done = done1 ++ done2 /\ stops q done1 done2 /\
    queue_sort_scan cmp fuel h q (pred_of h done) m = Some (pred_of h done1).
Proof.
  revert rest fuel. induction done as [|p d IH] using rev_ind; intros rest fuel Hq Hne Hf; [done |].
  rewrite length_app in Hf. simpl in Hf. destruct fuel as [|fuel]; [lia |].
  rewrite pred_of_snoc. cbn [queue_sort_scan]. destruct (cmp p q <=? 0) eqn:Hc.
  - exists (d ++ [p]), []. rewrite app_nil_r, pred_of_snoc. split; [done |]. split; [|done].
    split; [constructor |]. right. exists d, p. split; [done |]. unfold cmp_le. lia.
  - assert (~ cmp_le p q) as Hgt by (unfold cmp_le; lia).
    rewrite <- (assoc_L app) in Hq. simpl in Hq. destruct (is_queue_cut _ _ _ _ _ Hq) as [[_ Hp] _].
    unfold queue_prev. rewrite Hp. cbn [mbind option_bind].
    assert (h ∉ d) as Hh.
    { destruct Hq as [[Hh _]%NoDup_cons _]. rewrite elem_of_app in Hh. tauto. }
    rewrite (bool_decide_ext _ _ (pred_of_sentinel h d Hh)). case_bool_decide as E.
    + subst d. exists [], [p]. split; [done |]. split; [|done]. split; [by repeat constructor | by left].
    + destruct (IH (p :: rest) fuel Hq E ltac:(lia)) as (d1 & d2 & -> & [Hs1 Hs2] & ->).
      exists d1, (d2 ++ [p]). rewrite (assoc_L app). split; [done |]. split; [|done].
      split; [|done]. apply Forall_app. by split; [| constructor].
Qed.

(** What one pass of the loop does to the list of nodes. *)
Inductive sort_step : list ptr -> list ptr -> Prop :=
| sort_step_intro done1 done2 q :
    stops q done1 done2 -> sort_step (done1 ++ done2 ++ [q]) (done1 ++ q :: done2).

(** The nodes before [q] are rearranged, pass after pass. *)
Inductive sort_steps : list ptr -> list ptr -> list ptr -> Prop :=
| sort_steps_nil done : sort_steps done [] done
| sort_steps_cons done q rest done' ys :
    sort_step (done ++ [q]) done' -> sort_steps done' rest ys -> sort_steps done (q :: rest) ys.

Lemma same_off_weaken S S' m m' : same_off S m m' -> (forall a, a ∈ S -> a ∈ S') -> same_off S' m m'.
Proof. intros H Hs a Ha. apply H. by intros ?%Hs. Qed.

Lemma same_off_trans S m m' m'' : same_off S m m' -> same_off S m' m'' -> same_off S m m''.
Proof. intros H1 H2 a Ha. destruct (H1 a Ha) as [<- <-]. by apply H2. Qed.

Lemma sort_pass m h done q rest fuel :
  is_queue m h (done ++ q :: rest) -> done <> [] -> (length done <= fuel)%nat ->
  exists done' m1 m2 prev,
    sort_step (done ++ [q]) done' /\
    queue_prev q m = Some (pred_of h done) /\ queue_next q m = Some (succ_of h rest) /\
    queue_remove q m = Some m1 /\
    queue_sort_scan cmp fuel h q (pred_of h done) m1 = Some prev /\
    queue_insert_head prev q m1 = Some m2 /\
    is_queue m2 h (done' ++ rest) /\ same_off (h :: done ++ q :: rest) m m2.
Proof.
  intros Hq Hne Hf. destruct (is_queue_cut _ _ _ _ _ Hq) as [[_ Hp] [Hn _]].
  destruct (remove_spec _ _ _ _ _ Hq) as (m1 & Hm1 & Hq1 & Hoff1 & Hx1 & Hx2).
  destruct (queue_sort_scan_spec m1 h q done rest fuel Hq1 Hne Hf) as (d1 & d2 & -> & Hst & Hscan).
  rewrite <- (assoc_L app) in Hq1.
  destruct (insert_after_spec m1 h d1 q (d2 ++ rest)) as (m2 & Hm2 & _ & Hq2 & Hoff2).
  - done.
  - destruct Hq as [Hnd _]. rewrite !NoDup_cons, !NoDup_app, NoDup_cons in Hnd. set_solver.
  - split; eexists; eassumption.
  - exists (d1 ++ q :: d2), m1, m2, (pred_of h d1). rewrite <- !(assoc_L app). simpl app in *.
    repeat (split; [done || (by constructor) |]). eapply same_off_trans;
      (eapply same_off_weaken; [eassumption |]); set_solver.
Qed.

Lemma sort_step_perm l l' : sort_step l l' -> l' ≡ₚ l.
Proof. intros [d1 d2 q _]. by rewrite <- Permutation_cons_append. Qed.

Lemma sort_steps_perm done rest ys : sort_steps done rest ys -> ys ≡ₚ done ++ rest.
Proof.
  induction 1 as [d | d q rest d' ys Hs Hss IH]; [by rewrite app_nil_r |].
  rewrite IH, (sort_step_perm _ _ Hs). by rewrite <- (assoc_L app).
Qed.

(** [rest] are the nodes from the one the loop looks at on. The scan of a pass uses
    the fuel the loop has left. *)
Lemma queue_sort_loop_spec m h dn rest fuel :
  is_queue m h (dn ++ rest) -> dn <> [] -> (length dn + 2 * length rest < fuel)%nat ->
  exists m' ys, queue_sort_loop cmp fuel h (succ_of h rest) m = Some m' /\
    is_queue m' h ys /\ sort_steps dn rest ys /\ same_off (h :: dn ++ rest) m m'.
Proof.
  revert m dn rest. induction fuel as [|fuel IH]; intros m dn rest Hq Hne Hf; [lia |].
  cbn [queue_sort_loop]. destruct rest as [|q rest]; simpl succ_of.
  - rewrite bool_decide_true by done. exists m, dn. rewrite app_nil_r in *.
    split; [done |]. split; [done |]. split; [constructor | by intros a _].
  - assert (q <> h) as Hqh.
    { destruct Hq as [[Hh _]%NoDup_cons _]. intros ->. apply Hh. rewrite elem_of_app, elem_of_cons. auto. }
    rewrite bool_decide_false by done. simpl in Hf.
    destruct (sort_pass m h dn q rest fuel Hq Hne ltac:(lia))
      as (dn' & m1 & m2 & prev & Hs & -> & -> & Hm1 & Hscan & Hm2 & Hq2 & Hoff).
    cbn [mbind option_bind]. rewrite Hm1. cbn [mbind option_bind].
    rewrite Hscan. cbn [mbind option_bind]. rewrite Hm2. cbn [mbind option_bind].
    pose proof (sort_step_perm _ _ Hs) as Hp. pose proof (Permutation_length Hp) as Hlen.
    rewrite length_app in Hlen. simpl in Hlen.
    destruct (IH m2 dn' rest Hq2) as (m' & ys & -> & Hq' & Hss & Hoff').
    + intros ->. simpl in Hlen. lia.
    + lia.
    + exists m', ys. split; [done |]. split; [done |]. split; [by econstructor |].
      eapply same_off_trans; [done |]. eapply same_off_weaken; [done |].
      intros a. by rewrite Hp, <- (assoc_L app).
Qed.

Lemma queue_sort_run m h x xs fuel :
  is_queue m h (x :: xs) -> (2 * length (x :: xs) <= fuel)%nat ->
  exists m' ys, queue_sort cmp fuel h m = Some m' /\
    is_queue m' h ys /\ sort_steps [x] xs ys /\ same_off (h :: x :: xs) m m'.
Proof.
  intros Hq Hf. unfold queue_sort, queue_head, queue_tail, queue_next.
  rewrite (is_queue_head _ _ _ Hq), (is_queue_tail _ _ _ Hq). simpl succ_of. cbn [mbind option_bind].
  rewrite (bool_decide_ext _ _ (at_tail _ _ _ 0 x Hq eq_refl)). case_bool_decide as E.
  - destruct xs; [|done]. exists m, [x]. split; [done |]. split; [done |]. split; [constructor | by intros a _].
  - destruct (is_queue_cut m h [] x xs Hq) as [_ [-> _]]. cbn [mbind option_bind].
    simpl in Hf. apply (queue_sort_loop_spec m h [x] xs); simpl; [done.. | lia].
Qed.

(** Elements in the right order are never swapped. *)
Lemma sort_step_before a b l l' : sort_step l l' -> cmp_le a b -> before a b l -> before a b l'.
Proof.
  unfold before. intros [d1 d2 q [Hd _]] Hab Hl.
  rewrite (assoc_L app) in Hl. apply sublist_app_r in Hl as (k1 & k2 & E & Hk1 & Hk2).
  apply sublist_cons_r in Hk2 as [Hk2 | (k2' & -> & Hk2)].
  - apply sublist_nil_r in Hk2. subst k2. rewrite app_nil_r in E. subst k1.
    etransitivity; [exact Hk1 |]. apply sublist_app; [done |]. by apply sublist_cons.
  - apply sublist_nil_r in Hk2. subst k2'. destruct k1 as [|? [|? k1]]; simplify_eq/=.
    2: by destruct k1.
    apply sublist_app_r in Hk1 as (j1 & j2 & E & Hj1 & Hj2). destruct j1 as [|? [|? ?]]; simplify_eq/=.
    + apply singleton_sublist_l in Hj2. rewrite Forall_forall in Hd. by destruct (Hd _ Hj2).
    + rewrite cons_middle, (assoc_L app). apply sublist_inserts_r.
      apply (sublist_app [_] d1 [_] [_]); done.
Qed.

Lemma sort_steps_before a b dn rest ys :
  sort_steps dn rest ys -> cmp_le a b -> before a b (dn ++ rest) -> before a b ys.
Proof.
  intros Hs Hab. induction Hs as [d | d q rest d' ys Hs Hss IH]; [by rewrite app_nil_r |].
  intros Hb. apply IH. unfold before in *. rewrite cons_middle, (assoc_L app) in Hb.
  apply sublist_app_r in Hb as (k1 & k2 & E & Hk1 & Hk2). rewrite E.
  apply sublist_app; [|done]. destruct k1 as [|a' [|b' [|]]]; simplify_eq/=.
  - apply sublist_nil_l.
  - apply singleton_sublist_l. rewrite (sort_step_perm _ _ Hs). by apply singleton_sublist_l.
  - by apply (sort_step_before _ _ (d ++ [q])).
Qed.

Context (cmp_total : forall a b, cmp_le a b \/ cmp_le b a).
Context (cmp_trans : forall a b c, cmp_le a b -> cmp_le b c -> cmp_le a c).

Lemma sort_step_sorted dn q dn' :
  sort_step (dn ++ [q]) dn' -> StronglySorted cmp_le dn -> StronglySorted cmp_le dn'.
Proof.
  intros H. remember (dn ++ [q]) as l eqn:E. destruct H as [d1 d2 p [Hd2 Hd1]].
  rewrite (assoc_L app) in E. apply app_inj_tail in E as [<- <-].
  rewrite !StronglySorted_app, StronglySorted_cons, Forall_forall. rewrite Forall_forall in Hd2.
  intros (H12 & H1 & H2).
  assert (forall a, a ∈ d1 -> cmp_le a p) as Hp.
  { intros a Ha. destruct Hd1 as [-> | (d0 & b & -> & Hb)]; [by apply elem_of_nil in Ha |].
    apply StronglySorted_app in H1 as (H1 & _). apply elem_of_app in Ha as [Ha | ->%list_elem_of_singleton];
      [|done]. eapply cmp_trans; [|exact Hb]. apply H1; [done |]. by left. }
  assert (forall b, b ∈ d2 -> cmp_le p b) as Hq.
  { intros b Hb. destruct (cmp_total b p) as [Hc | Hc]; [|done]. by destruct (Hd2 b Hb). }
  split; [| done]. intros a b Ha [-> | Hb]%elem_of_cons; auto.
Qed.

Lemma sort_steps_sorted dn rest ys :
  sort_steps dn rest ys -> StronglySorted cmp_le dn -> StronglySorted cmp_le ys.
Proof. induction 1; eauto using sort_step_sorted. Qed.
End SortSpec.

(** ** The macros as operations on lists *)

Inductive queue_op :=
| OpInsertHead (x : ptr) | OpInsertTail (x : ptr)
| OpInsertBefore (y x : ptr) | OpInsertAfter (y x : ptr)
| OpRemove (x : ptr).

Definition run_op (h : ptr) (o : queue_op) : links -> option links :=
  match o with
  | OpInsertHead x => queue_insert_head h x
  | OpInsertTail x => queue_insert_tail h x
  | OpInsertBefore y x => queue_insert_before y x
  | OpInsertAfter y x => queue_insert_after y x
  | OpRemove x => queue_remove x
  end.

(** The abstract queue: the effect on the list, under the caller's obligations. *)
Inductive spec_op (h : ptr) (U : list ptr) : queue_op -> list ptr -> list ptr -> Prop :=
| SpecHead x xs : x ∈ U -> x ∉ h :: xs -> spec_op h U (OpInsertHead x) xs (x :: xs)
| SpecTail x xs : x ∈ U -> x ∉ h :: xs -> spec_op h U (OpInsertTail x) xs (xs ++ [x])
| SpecBefore y x l1 l2 : x ∈ U -> x ∉ h :: l1 ++ y :: l2 ->
    spec_op h U (OpInsertBefore y x) (l1 ++ y :: l2) (l1 ++ x :: y :: l2)
| SpecAfter y x l1 l2 : x ∈ U -> x ∉ h :: l1 ++ y :: l2 ->
    spec_op h U (OpInsertAfter y x) (l1 ++ y :: l2) (l1 ++ y :: x :: l2)
| SpecRemove x l1 l2 : spec_op h U (OpRemove x) (l1 ++ x :: l2) (l1 ++ l2).

Fixpoint run_ops (h : ptr) (os : list queue_op) (m : links) : option links :=
  match os with
  | [] => Some m
  | o :: os => m ← run_op h o m; run_ops h os m
  end.

Inductive spec_ops (h : ptr) (U : list ptr) : list queue_op -> list ptr -> list ptr -> Prop :=
| SpecNil xs : spec_ops h U [] xs xs
| SpecCons o os xs ys zs : spec_op h U o xs ys -> spec_ops h U os ys zs -> spec_ops h U (o :: os) xs zs.

Lemma set_next_allocated q v m m' x : set_next q v m = Some m' -> allocated m x -> allocated m' x.
Proof.
  unfold set_next. intros (w & _ & [= <-])%bind_Some [? ?]. split; [|done].
  apply lookup_insert_is_Some'. by right.
Qed.
Lemma set_prev_allocated q v m m' x : set_prev q v m = Some m' -> allocated m x -> allocated m' x.
Proof.
  unfold set_prev. intros (w & _ & [= <-])%bind_Some [? ?]. split; [done |].
  apply lookup_insert_is_Some'. by right.
Qed.

Lemma run_op_allocated h o m m' x : run_op h o m = Some m' -> allocated m x -> allocated m' x.
Proof.
  destruct o; simpl;
    unfold queue_insert_head, queue_insert_tail, queue_insert_before, queue_insert_after, queue_remove;
    intros H Ha;
    repeat match type of H with mbind _ _ = _ => apply bind_Some in H as (? & ? & H) end;
    repeat match goal with
    | Ha : allocated ?m x, H : _ ?m = Some _ |- _ =>
        first [apply (set_next_allocated _ _ _ _ _ H) in Ha | apply (set_prev_allocated _ _ _ _ _ H) in Ha];
        clear H
    end; exact Ha.
Qed.

Lemma run_op_refines h U o m xs ys :
  is_queue m h xs -> (forall x, x ∈ U -> allocated m x) -> spec_op h U o xs ys ->
  exists m', run_op h o m = Some m' /\ is_queue m' h ys /\ same_off (h :: U ++ xs) m m'.
Proof.
  intros Hq HU Ho. destruct Ho as [x xs Hx Hn | x xs Hx Hn | y x l1 l2 Hx Hn | y x l1 l2 Hx Hn | x l1 l2];
    simpl run_op.
  - destruct (insert_head_spec _ _ _ _ Hq Hn (HU x Hx)) as (m' & ? & ? & ?).
    exists m'. split; [done |]. split; [done |]. eapply same_off_weaken; [done |]. set_solver.
  - destruct (insert_tail_spec _ _ _ _ Hq Hn (HU x Hx)) as (m' & ? & ? & ?).
    exists m'. split; [done |]. split; [done |]. eapply same_off_weaken; [done |]. set_solver.
  - destruct (insert_before_spec _ _ _ _ _ Hq Hn (HU x Hx)) as (m' & _ & ? & ? & ?).
    exists m'. split; [done |]. split; [done |]. eapply same_off_weaken; [done |]. set_solver.
  - rewrite cons_middle, (assoc_L app) in Hq, Hn. 
    destruct (insert_after_spec _ _ _ _ _ Hq Hn (HU x Hx)) as (m' & _ & Hr & Hq' & ?).
    rewrite pred_of_snoc in Hr. rewrite <- (assoc_L app) in Hq'.
    exists m'. split; [done |]. split; [done |]. eapply same_off_weaken; [done |]. set_solver.
  - destruct (remove_spec _ _ _ _ _ Hq) as (m' & ? & ? & ? & _).
    exists m'. split; [done |]. split; [done |]. eapply same_off_weaken; [done |]. set_solver.
Qed.

Lemma spec_op_subset h U o xs ys : spec_op h U o xs ys -> forall a, a ∈ ys -> a ∈ U ++ xs.
Proof. intros []; set_solver. Qed.

Lemma run_ops_refines h U os m xs ys :
  is_queue m h xs -> (forall x, x ∈ U -> allocated m x) -> spec_ops h U os xs ys ->
  exists m', run_ops h os m = Some m' /\ is_queue m' h ys /\ same_off (h :: U ++ xs) m m'.
Proof.
  intros Hq HU Hs. revert m Hq HU. induction Hs as [xs | o os xs ys zs Ho Hs IH]; intros m Hq HU.
  - by exists m.
  - destruct (run_op_refines _ _ _ _ _ _ Hq HU Ho) as (m1 & Hm1 & Hq1 & Hoff1).
    destruct (IH m1 Hq1) as (m2 & Hm2 & Hq2 & Hoff2); [eauto using run_op_allocated |].
    exists m2. simpl. rewrite Hm1. split; [done |]. split; [done |].
    eapply same_off_trans; [exact Hoff1 |]. eapply same_off_weaken; [exact Hoff2 |].
    intros a. pose proof (spec_op_subset _ _ _ _ _ Ho a). set_solver.
Qed.

(** ** Claims *)

(** C28. Functional refinement of the queue macros: any sequence of insertions at the head,
    at the tail, before or after a linked node and of removals, run on the link fields from
    a heap where [h] heads the list [xs], succeeds and leaves [h] heading the list the
    abstract operations give; no field outside the queue and the inserted nodes changes,
    and [queue_empty], [queue_head] and [queue_tail] answer for the abstract list. *)
Theorem queue_ops_refine h U os m xs ys :
  is_queue m h xs -> (forall x, x ∈ U -> allocated m x) -> spec_ops h U os xs ys ->
  exists m', run_ops h os m = Some m' /\ is_queue m' h ys /\ same_off (h :: U ++ xs) m m' /\
    queue_empty h m' = Some (bool_decide (ys = [])) /\
    queue_head h m' = Some (List.hd h ys) /\ queue_tail h m' = Some (List.last ys h).
Proof.
  intros Hq HU Hs. destruct (run_ops_refines _ _ _ _ _ _ Hq HU Hs) as (m' & Hm & Hq' & Hoff).
  exists m'. split; [done |]. split; [done |]. split; [done |]. split; [by apply empty_spec |].
  split; [by apply is_queue_head | by apply is_queue_tail].
Qed.

(** [queue_split] and [queue_add_queue] cut and splice: splitting the queue of [h] at
    [q] leaves the nodes before [q] at [h] and the rest at the new sentinel [n], and adding
    the (non-empty) queue of [n] back to [h] restores the original list. *)
Theorem queue_split_add m h q n l1 l2 :
  is_queue m h (l1 ++ q :: l2) -> n ∉ h :: l1 ++ q :: l2 -> allocated m n ->
  exists m1 m2, queue_split h q n m = Some m1 /\ is_queue m1 h l1 /\ is_queue m1 n (q :: l2) /\
    queue_add_queue h n m1 = Some m2 /\ is_queue m2 h (l1 ++ q :: l2) /\
    same_off (n :: h :: l1 ++ q :: l2) m m2.
Proof.
  intros Hq Hn Ha. destruct (split_spec _ _ _ _ _ _ Hq Hn Ha) as (m1 & Hm1 & Hq1 & Hq2 & Hoff1).
  destruct (add_queue_spec m1 h n l1 (q :: l2) Hq1 Hq2) as (m2 & Hm2 & Hq3 & Hoff2); [done | |].
  - destruct Hq as [(Hh & (_ & Hnd & _)%NoDup_app)%NoDup_cons _]. rewrite elem_of_app in Hh.
    intros a Ha1 Ha2. apply elem_of_cons in Ha1 as [-> | Ha1], Ha2 as [-> | Ha2].
    + apply Hn. by left.
    + tauto.
    + apply Hn. right. apply elem_of_app. by left.
    + by apply (Hnd a).
  - exists m1, m2. repeat (split; [done |]). eapply same_off_trans; [exact Hoff1 |].
    eapply same_off_weaken; [exact Hoff2 |]. intros a Ha'. by right.
Qed.

(** [queue_middle] returns, within half the queue's length of iterations, the middle
    element of an odd queue and the first element of the second half of an even one (the
    sentinel for an empty queue). *)
Theorem queue_middle_spec m h xs fuel :
  is_queue m h xs -> (length xs / 2 <= fuel)%nat ->
  queue_middle fuel h m = Some (nth (length xs / 2) xs h).
Proof.
  intros Hq Hf. unfold queue_middle, queue_head, queue_tail.
  rewrite (is_queue_head _ _ _ Hq), (is_queue_tail _ _ _ Hq). cbn [mbind option_bind].
  destruct xs as [|x xs]; [by rewrite bool_decide_true |]. simpl succ_of.
  rewrite (bool_decide_ext _ _ (at_tail _ _ _ 0 x Hq eq_refl)). case_bool_decide as E.
  - by destruct xs.
  - assert (1 < length (x :: xs))%nat as Hl by (simpl in *; lia).
    remember (x :: xs) as zs eqn:Ez. assert (zs !! 0%nat = Some x) as Hx by by subst.
    pose proof (Nat.div_mod_eq (length zs) 2). pose proof (Nat.mod_upper_bound (length zs) 2).
    rewrite (queue_middle_loop_spec m h zs fuel 0 x x); [|done..|lia|lia].
    destruct (lookup_lt_is_Some_2 zs (length zs / 2)) as [y Hy]; [apply Nat.div_lt; lia |].
    rewrite Hy. f_equal. symmetry. by apply nth_lookup_Some.
Qed.

(** [queue_sort] terminates and is a stable sort: on a queue of [xs] it leaves, at the
    same sentinel, a permutation of [xs]; two nodes the comparison has in order keep their
    relative order, whatever the comparison function; and when the comparison is a total
    preorder the result is sorted. Only link fields of the queue change. *)
Theorem queue_sort_stable cmp m h xs fuel :
  is_queue m h xs -> (2 * length xs <= fuel)%nat ->
  exists m' ys, queue_sort cmp fuel h m = Some m' /\ is_queue m' h ys /\ ys ≡ₚ xs /\
    (forall a b, cmp_le cmp a b -> before a b xs -> before a b ys) /\
    ((forall a b, cmp_le cmp a b \/ cmp_le cmp b a) ->
     (forall a b c, cmp_le cmp a b -> cmp_le cmp b c -> cmp_le cmp a c) ->
     StronglySorted (cmp_le cmp) ys) /\
    same_off (h :: xs) m m'.
Proof.
  intros Hq Hf. destruct xs as [|x xs].
  { exists m, []. unfold queue_sort, queue_head, queue_tail.
    rewrite (is_queue_head _ _ _ Hq), (is_queue_tail _ _ _ Hq). cbn.
    rewrite bool_decide_true by done.
    split; [done |]. split; [done |]. split; [done |]. split; [done |]. split; [constructor |]. by intros a _. }
  destruct (queue_sort_run cmp m h x xs fuel Hq Hf) as (m' & ys & Hm & Hq' & Hs & Hoff).
  exists m', ys. split; [done |]. split; [done |]. split; [by apply (sort_steps_perm cmp [x]) |].
  split; [intros a b; by apply (sort_steps_before cmp a b [x] xs) |]. split; [|done].
  intros Htot Htr. eapply sort_steps_sorted; [done.. |]. repeat constructor.
Qed.

(** ** Concrete queues *)

(** The circular queue of sentinel [h] and nodes [xs], with [free] unlinked nodes. *)
Definition mk_queue (h : ptr) (xs free : list ptr) : links :=
  {| l_next := list_to_map (zip (h :: xs ++ free) (xs ++ h :: free));
     l_prev := list_to_map (zip (xs ++ h :: free) (h :: xs ++ free)) |}.

Ltac solve_is_queue :=
  split; [by apply (bool_decide_unpack _); vm_compute |];
  cbn [seg app]; repeat split; vm_compute; reflexivity.
Ltac solve_allocated := split; eexists; vm_compute; reflexivity.

Lemma queue_ops_refine_witness :
  exists m', run_ops 1 [OpInsertTail 5; OpInsertAfter 2 6; OpRemove 3] (mk_queue 1 [2; 3] [5; 6])%N = Some m' /\
    is_queue m' 1 [2; 6; 5]%N /\ queue_head 1 m' = Some 2%N.
Proof.
  destruct (queue_ops_refine 1 [5; 6]%N [OpInsertTail 5; OpInsertAfter 2 6; OpRemove 3]
    (mk_queue 1 [2; 3] [5; 6])%N [2; 3] [2; 6; 5])%N as (m' & H1 & H2 & _ & _ & H3 & _).
  - solve_is_queue.
  - intros x [-> | [-> | []%elem_of_nil]%elem_of_cons]%elem_of_cons; solve_allocated.
  - eapply SpecCons; [apply SpecTail; by apply (bool_decide_unpack _); vm_compute |].
    eapply SpecCons; [apply (SpecAfter 1 _ 2 6 [] [3; 5])%N; by apply (bool_decide_unpack _); vm_compute |].
    eapply SpecCons; [apply (SpecRemove 1 _ 3 [2; 6] [5])%N | constructor].
  - exists m'. split; [exact H1 |]. split; [exact H2 | exact H3].
Defined.

Lemma queue_split_add_witness :
  exists m1 m2, queue_split 1 3 9 (mk_queue 1 [2; 3; 4] [9])%N = Some m1 /\ is_queue m1 9 [3; 4]%N /\
    queue_add_queue 1 9 m1 = Some m2 /\ is_queue m2 1 [2; 3; 4]%N.
Proof.
  destruct (queue_split_add (mk_queue 1 [2; 3; 4] [9])%N 1 3 9 [2] [4])%N
    as (m1 & m2 & H1 & _ & H2 & H3 & H4 & _).
  - solve_is_queue.
  - by apply (bool_decide_unpack _); vm_compute.
  - solve_allocated.
  - exists m1, m2. repeat (split; [assumption |]). assumption.
Defined.

Lemma queue_middle_spec_witness : queue_middle 2 1 (mk_queue 1 [7; 5; 3; 8] [])%N = Some 3%N.
Proof. apply (queue_middle_spec (mk_queue 1 [7; 5; 3; 8] [])%N 1 [7; 5; 3; 8]%N); [solve_is_queue | simpl; lia]. Defined.

Lemma queue_sort_stable_witness :
  exists m' ys, queue_sort (fun a b => Z.of_N a / 2 - Z.of_N b / 2) 10 1 (mk_queue 1 [7; 5; 3; 4; 6] [])%N = Some m' /\
    is_queue m' 1 ys /\ ys ≡ₚ [7; 5; 3; 4; 6]%N.
Proof.
  destruct (queue_sort_stable (fun a b => Z.of_N a / 2 - Z.of_N b / 2) (mk_queue 1 [7; 5; 3; 4; 6] [])%N 1
    [7; 5; 3; 4; 6]%N 10) as (m' & ys & H1 & H2 & H3 & _).
  - solve_is_queue.
  - simpl. lia.
  - exists m', ys. split; [exact H1 |]. split; [exact H2 | exact H3].
Defined.
