(* ===== verification/TaskQueue.v ===== *)
(** * The task queue shared by the threads ([src/nn_task_queue.cpp]) and its consumers
      ([src/nn_task_handler.cpp], [src/nn_net_response_handler.cpp])

    A [task_queue_t] is a queue sentinel and a spinlock. Every operation is written as a
    [cmd]: a tree of the atomic steps the C function takes (acquire, one assignment or
    test on the links, release, return), so that the same definition runs alone or
    interleaved with other threads by the step relation [step].

    The consumers take a whole batch with [pop_all] and drain it outside the lock. *)

From stdpp Require Import functions.
From S2P Require Import Prelude Queue.

(** ** Operations as sequences of atomic steps *)

#[warnings="-register-all"]
Inductive cmd :=
| Ret (r : option ptr)
| Lock (k : cmd)
| Unlock (k : cmd)
| Act (f : links -> option (links * cmd)).

(** One assignment, then the rest. *)
Definition stmt (f : links -> option links) (k : cmd) : cmd :=
  Act (fun m => m' ← f m; Some (m', k)).

(* src/src/nn_task_queue.cpp:133-143 (push_task) *)
Definition push_task (h x : ptr) : cmd :=
  Lock
  (stmt (fun m => hn ← queue_next h m; set_next x hn m)
  (stmt (fun m => xn ← queue_next x m; set_prev xn x m)
  (stmt (set_prev x h)
  (stmt (set_next h x)
  (Unlock (Ret None)))))).

(* src/src/nn_task_queue.cpp:90-114 (pop_task) *)
Definition pop_task (h : ptr) : cmd :=
  Lock (Act (fun m =>
    e ← queue_empty h m;
    Some (m, if e : bool then Unlock (Ret None) else
      Act (fun m => q ← queue_tail h m; Some (m,
        stmt (fun m => xn ← queue_next q m; xp ← queue_prev q m; set_prev xn xp m)
        (stmt (fun m => xp ← queue_prev q m; xn ← queue_next q m; set_next xp xn m)
        (stmt (set_next q nullptr)
        (stmt (set_prev q nullptr)
        (Unlock (Ret (Some q))))))))))).

(* src/src/nn_task_queue.cpp:116-131 (pop_all) *)
Definition pop_all (h queue : ptr) : cmd :=
  Lock (Act (fun m =>
    e ← queue_empty h m;
    Some (m, if e : bool then Unlock (Ret None) else
      stmt (fun m => n ← queue_next h m; set_next queue n m)
      (stmt (fun m => p ← queue_prev h m; set_prev queue p m)
      (stmt (fun m => n ← queue_next queue m; set_prev n queue m)
      (stmt (fun m => p ← queue_prev queue m; set_next p queue m)
      (stmt (queue_init h)
      (Unlock (Ret None))))))))).

(** ** Threads *)

Inductive op := Push (x : ptr) | Pop | PopAll (dst : ptr).

Definition op_cmd (h : ptr) (o : op) : cmd :=
  match o with Push x => push_task h x | Pop => pop_task h | PopAll d => pop_all h d end.

(** The call in progress, if any, and the calls still to make. *)
Record thread := { cur : option (op * cmd); todo : list op }.

(** What an operation did, recorded when it releases the lock. *)
Inductive event := EPush (x : ptr) | EPop (r : option ptr) | EPopAll (dst : ptr).

Definition op_event (o : op) (r : option ptr) : event :=
  match o with Push x => EPush x | Pop => EPop r | PopAll d => EPopAll d end.

Record config := {
  heap : links;
  lock : option nat;
  threads : list thread;
  hist : list event
}.

Section Machine.
Context (h : ptr).

(** One atomic step of thread [i]. *)
Inductive step : nat -> config -> config -> Prop :=
| StepCall i m l ts es o os :
    ts !! i = Some {| cur := None; todo := o :: os |} ->
    step i {| heap := m; lock := l; threads := ts; hist := es |}
         {| heap := m; lock := l; hist := es;
            threads := <[i := {| cur := Some (o, op_cmd h o); todo := os |}]> ts |}
| StepLock i m ts es o k os :
    ts !! i = Some {| cur := Some (o, Lock k); todo := os |} ->
    step i {| heap := m; lock := None; threads := ts; hist := es |}
         {| heap := m; lock := Some i; hist := es;
            threads := <[i := {| cur := Some (o, k); todo := os |}]> ts |}
| StepAct i m l ts es o f os m' k :
    ts !! i = Some {| cur := Some (o, Act f); todo := os |} ->
    f m = Some (m', k) ->
    step i {| heap := m; lock := l; threads := ts; hist := es |}
         {| heap := m'; lock := l; hist := es;
            threads := <[i := {| cur := Some (o, k); todo := os |}]> ts |}
| StepUnlock i m l ts es o r os :
    ts !! i = Some {| cur := Some (o, Unlock (Ret r)); todo := os |} ->
    step i {| heap := m; lock := l; threads := ts; hist := es |}
         {| heap := m; lock := None; hist := es ++ [op_event o r];
            threads := <[i := {| cur := Some (o, Ret r); todo := os |}]> ts |}
| StepRet i m l ts es o r os :
    ts !! i = Some {| cur := Some (o, Ret r); todo := os |} ->
    step i {| heap := m; lock := l; threads := ts; hist := es |}
         {| heap := m; lock := l; hist := es;
            threads := <[i := {| cur := None; todo := os |}]> ts |}.

Definition start (m : links) (progs : list (list op)) : config :=
  {| heap := m; lock := None; hist := []; threads := (fun os => {| cur := None; todo := os |}) <$> progs |}.

Definition steps : config -> config -> Prop := rtc (fun c c' => exists i, step i c c').
End Machine.

(** ** The abstract queue *)

(** Oldest first; and the batches handed to the consumers, newest node first. *)
Definition fifo := (list ptr * list (ptr * list ptr))%type.

Definition fifo_step (s : fifo) (e : event) : option fifo :=
  let '(c, bs) := s in
  match e, c with
  | EPush x, c => Some (c ++ [x], bs)
  | EPop None, [] => Some ([], bs)
  | EPop (Some y), x :: c => if bool_decide (x = y) then Some (c, bs) else None
  | EPopAll d, c => Some ([], (d, reverse c) :: bs)
  | _, _ => None
  end.

Fixpoint fifo_run (s : fifo) (es : list event) : option fifo :=
  match es with
  | [] => Some s
  | e :: es => s ← fifo_step s e; fifo_run s es
  end.

Lemma fifo_run_snoc s es e : fifo_run s (es ++ [e]) = (s' ← fifo_run s es; fifo_step s' e).
Proof.
  revert s. induction es as [|e' es IH]; intros s; cbn [app fifo_run mbind option_bind].
  - by destruct (fifo_step s e).
  - destruct (fifo_step s e') as [s'|]; [apply IH | done].
Qed.

(** ** The same operations run alone *)

(** A thread that finds the lock held by nobody else: the lock is taken and released. A
    second [Lock] would spin for ever ([None]). *)
Fixpoint run_cmd (k : cmd) (held : bool) (m : links) : option (links * option ptr) :=
  match k with
  | Ret r => if held then None else Some (m, r)
  | Lock k => if held then None else run_cmd k true m
  | Unlock k => if held then run_cmd k false m else None
  | Act f => match f m with Some (m', k') => run_cmd k' held m' | None => None end
  end.

Definition run_void (k : cmd) (m : links) : option links := '(m', _) ← run_cmd k false m; Some m'.

(** ** The consumers

    [S] is the rest of the program's state; [handle] is the function a consumer calls on
    each task ([nn_rpc_service_run], [nn_conn_outtask]), which may relink the task's node
    into other queues. The list returned with the final state is the trace of the calls. *)

Section Consumers.
Context {S : Type}.
Context (handle : ptr -> links * S -> option (links * S)).

Section DoTask.
(** [thread->running], which a task or a signal handler may clear. *)
Context (running : S -> bool).

Fixpoint do_task_loop (fuel : nat) (qhead cur : ptr) (st : links * S) : option ((links * S) * list ptr) :=
  match fuel with
  | O => None
  | Datatypes.S fuel =>
      e ← queue_empty qhead st.1;
      if negb e && running st.2 then
        m ← queue_remove cur st.1;
        st ← handle cur (m, st.2);
        cur' ← queue_head qhead st.1;
        '(st, tr) ← do_task_loop fuel qhead cur' st;
        Some (st, cur :: tr)
      else Some (st, [])
  end.

(* src/src/nn_task_handler.cpp:10-51 (do_task, do_task_handler) *)
Definition do_task_handler (fuel : nat) (q qhead : ptr) (st : links * S) : option ((links * S) * list ptr) :=
  m ← queue_init qhead st.1;
  m ← run_void (pop_all q qhead) m;
  cur ← queue_head qhead m;
  do_task_loop fuel qhead cur (m, st.2).
End DoTask.

(* src/src/nn_net_response_handler.cpp:98-127 (write_back_pack_task, write_back_pack_queue) *)
Fixpoint write_back_pack_queue (fuel : nat) (q : ptr) (st : links * S) : option ((links * S) * list ptr) :=
  match fuel with
  | O => None
  | Datatypes.S fuel =>
      e ← queue_empty q st.1;
      if e : bool then Some (st, [])
      else
        qn ← queue_head q st.1;
        m ← queue_remove qn st.1;
        st ← handle qn (m, st.2);
        '(st, tr) ← write_back_pack_queue fuel q st;
        Some (st, qn :: tr)
  end.

(* src/src/nn_net_response_handler.cpp:82-92 (write_back_notice_call) *)
Definition write_back_notice_call (fuel : nat) (tq q : ptr) (st : links * S) : option ((links * S) * list ptr) :=
  m ← queue_init q st.1;
  m ← run_void (pop_all tq q) m;
  write_back_pack_queue fuel q (m, st.2).

(** [for (i = 0; i < th->queue_size; i++)] over the write-back queues. *)
Fixpoint net_response_loop (fuel : nat) (bque : list ptr) (q : ptr) (st : links * S) : option ((links * S) * list ptr) :=
  match bque with
  | [] => Some (st, [])
  | tq :: bque =>
      '(st, tr) ← write_back_notice_call fuel tq q st;
      '(st, trs) ← net_response_loop fuel bque q st;
      Some (st, tr ++ trs)
  end.
End Consumers.

(** The fields of [dfs_thread_t] the handlers use; [bque] has [queue_size] elements. *)
Record dfs_thread := { is_cli_test : bool; tq : ptr; bque : list ptr }.

(* src/src/nn_net_response_handler.cpp:49-80 (net_response_handler) *)
Definition net_response_handler {S} (handle : ptr -> links * S -> option (links * S)) (fuel : nat)
    (th : dfs_thread) (q : ptr) (st : links * S) : option ((links * S) * list ptr) :=
  if is_cli_test th then net_response_loop handle fuel (bque th) q st
  else write_back_notice_call handle fuel (tq th) q st.

(** The queue a thread with id [id] writes back to ([id %= queue_size]). *)
Definition wb_queue (th : dfs_thread) (id : N) : option ptr :=
  if is_cli_test th
  then (if bool_decide (bque th = []) then None
        else bque th !! N.to_nat (id mod N.of_nat (length (bque th))))
  else Some (tq th).

(* src/src/nn_net_response_handler.cpp:11-44 (write_back) *)
Definition write_back (th : dfs_thread) (id : N) (node : ptr) (m : links) : option links :=
  m ← queue_init node m;
  q ← wb_queue th id;
  run_void (push_task q node) m.

(* src/src/nn_net_response_handler.cpp:137-146 (trans_task) *)
Definition trans_task (th : dfs_thread) (node : ptr) (m : links) : option links :=
  run_void (push_task (tq th) node) m.

(** ** Running the critical section *)

(** [crit m k m' r]: from heap [m] the steps [k] reach the release with heap [m'] and result [r]. *)
Inductive crit : links -> cmd -> links -> option ptr -> Prop :=
| CritUnlock m r : crit m (Unlock (Ret r)) m r
| CritAct m f m1 k m' r : f m = Some (m1, k) -> crit m1 k m' r -> crit m (Act f) m' r.

Lemma crit_stmt m f k m1 m' r : f m = Some m1 -> crit m1 k m' r -> crit m (stmt f k) m' r.
Proof. intros Hf Hk. eapply CritAct; [|exact Hk]. by rewrite Hf. Qed.

Ltac open_binds H := repeat match type of H with mbind _ _ = Some _ => apply bind_Some in H as (? & ? & H) end.
Ltac run_stmts :=
  repeat (eapply crit_stmt; [by repeat (eapply bind_Some; eexists; split; [eassumption |]); eassumption |]).

Lemma push_crit h x m m' :
  queue_insert_head h x m = Some m' -> exists k, push_task h x = Lock k /\ crit m k m' None.
Proof.
  unfold queue_insert_head. intros H. open_binds H. eexists. split; [reflexivity |].
  run_stmts. constructor.
Qed.

Lemma pop_crit_some h q m m' :
  queue_empty h m = Some false -> queue_tail h m = Some q -> queue_remove q m = Some m' ->
  exists k, pop_task h = Lock k /\ crit m k m' (Some q).
Proof.
  unfold queue_remove. intros He Ht H. open_binds H. eexists. split; [reflexivity |].
  eapply CritAct; [by rewrite He |]. simpl. eapply CritAct; [by rewrite Ht |].
  run_stmts. constructor.
Qed.

Lemma pop_crit_none h m :
  queue_empty h m = Some true -> exists k, pop_task h = Lock k /\ crit m k m None.
Proof.
  intros He. eexists. split; [reflexivity |]. eapply CritAct; [by rewrite He |]. constructor.
Qed.

(** ** [pop_all] hands the whole list over *)

Lemma pop_all_crit m h d xs :
  is_queue m h xs -> is_queue m d [] -> d ∉ h :: xs ->
  exists k m', pop_all h d = Lock k /\ crit m k m' None /\
    is_queue m' h [] /\ is_queue m' d xs /\ same_off (d :: h :: xs) m m'.
Proof.
  intros Hq Hd Hn. pose proof (empty_spec _ _ _ Hq) as He.
  destruct xs as [|x xs].
  - do 2 eexists. split; [reflexivity |]. split; [|split; [exact Hq | split; [exact Hd | by intros a _]]].
    eapply CritAct; [by rewrite He |]. constructor.
  - pose proof (is_queue_head _ _ _ Hd) as Hd1. pose proof (is_queue_tail _ _ _ Hd) as Hd2.
    apply is_queue_open in Hq as (Hnd & [Hhx Hxh] & Hs & [Hlh Hhl]).
    pose proof (pred_of_in x xs) as Hlin. set (l := pred_of x xs) in *.
    apply NoDup_cons in Hnd as [Hh Hnd].
    assert (d <> h /\ h <> x /\ d <> x /\ h <> l /\ d <> l) as (N1 & N2 & N3 & N4 & N5).
    { split; [| split; [| split; [| split]]]; intros E.
      - apply Hn. rewrite E. by left.
      - apply Hh. rewrite E. by left.
      - apply Hn. rewrite E. by right; left.
      - apply Hh. by rewrite E.
      - apply Hn. rewrite E. by right. }
    do 2 eexists. split; [reflexivity |]. split; [|split; [| split]].
    + eapply CritAct; [by rewrite He |]. simpl.
      do 4 (eapply crit_stmt; [run_links; reflexivity |]).
      eapply crit_stmt; [unfold queue_init; run_links; reflexivity |]. constructor.
    + split; [apply NoDup_singleton |]. simpl. split; [|done].
      split; cbn [l_next l_prev]; by rewrite lookup_insert_eq.
    + apply is_queue_open. split; [by apply NoDup_cons; split; [intros ?; apply Hn; right |] |]. split; [| split].
      * split; cbn [l_next l_prev]; repeat run_step; done.
      * eapply (seg_prefix_frame m); [done | | |done]; cbn [l_next l_prev].
        -- intros a Ha Hal. rewrite !lookup_insert_ne; [done | ..]; intros <-;
             first [done | apply Hn; by right].
        -- intros a Ha. apply NoDup_cons in Hnd as [Hx _].
           rewrite !lookup_insert_ne; [done | ..]; intros <-;
             first [done | apply Hh; by right | apply Hn; right; by right].
      * fold l. split; cbn [l_next l_prev]; repeat run_step; done.
    + intros a Ha. rewrite !elem_of_cons in *. cbn [l_next l_prev].
      rewrite !lookup_insert_ne; [done | ..]; intros <-; tauto.
Qed.

(** ** Ownership *)

Definition op_nodes (o : op) : list ptr :=
  match o with Push x => [x] | Pop => [] | PopAll d => [d] end.

(** What the caller provides: an allocated node, an initialised empty queue. *)
Definition op_ready (m : links) (o : op) : Prop :=
  match o with Push x => allocated m x | Pop => True | PopAll d => is_queue m d [] end.

Definition batch_nodes (bs : list (ptr * list ptr)) : list ptr := bs ≫= fun b => b.1 :: b.2.

(** The heap represents the abstract state [s], and the calls [ops] still to be made own
    their nodes. *)
Record good (h : ptr) (m : links) (s : fifo) (ops : list op) : Prop := {
  good_nodup : NoDup (h :: s.1 ++ batch_nodes s.2 ++ (ops ≫= op_nodes));
  good_queue : is_queue m h (reverse s.1);
  good_batches : Forall (fun b => is_queue m b.1 b.2) s.2;
  good_ready : Forall (op_ready m) ops
}.

Lemma good_perm h m s ops ops' : ops ≡ₚ ops' -> good h m s ops -> good h m s ops'.
Proof. intros E []. constructor; by rewrite <- ?E. Qed.

Lemma batches_frame S m m' bs :
  same_off S m m' -> (forall a, a ∈ batch_nodes bs -> a ∉ S) ->
  Forall (fun b => is_queue m b.1 b.2) bs -> Forall (fun b => is_queue m' b.1 b.2) bs.
Proof.
  rewrite !Forall_forall. intros Hoff Hd H b Hb. eapply is_queue_frame; [done | | by apply H].
  intros a Ha. apply Hd. apply list_elem_of_bind. eauto.
Qed.

Lemma ready_frame S m m' ops :
  same_off S m m' -> (forall a, a ∈ ops ≫= op_nodes -> a ∉ S) ->
  Forall (op_ready m) ops -> Forall (op_ready m') ops.
Proof.
  rewrite !Forall_forall. intros Hoff Hd H o Ho. specialize (H o Ho).
  assert (forall a, a ∈ op_nodes o -> a ∉ S) as Hn.
  { intros a Ha. apply Hd. apply list_elem_of_bind. eauto. }
  destruct o as [x | | d]; simpl in *; [|done|].
  - destruct (Hoff x (Hn x ltac:(by left))) as [Hx1 Hx2]. unfold allocated. by rewrite Hx1, Hx2.
  - eapply is_queue_frame; [done | | done]. intros a Ha. by apply Hn.
Qed.

(** A change confined to the queue and the nodes of one call leaves the rest alone. *)
Lemma rest_frame h m m' c bs o ops :
  good h m (c, bs) (o :: ops) -> same_off (op_nodes o ++ h :: reverse c) m m' ->
  Forall (fun b => is_queue m' b.1 b.2) bs /\ Forall (op_ready m') ops.
Proof.
  intros [Hnd _ Hb Hr] Hoff. simpl in *. apply Forall_cons in Hr as [_ Hr].
  rewrite NoDup_cons, !NoDup_app in Hnd. rewrite !elem_of_app in Hnd.
  split; [eapply batches_frame | eapply ready_frame]; try done;
    intros a Ha; rewrite elem_of_app, elem_of_cons, elem_of_reverse; intros Hin;
    destruct Hnd as (Hh & _ & Hc & _ & Hd & _ & Hop & _).
  - specialize (Hd a Ha). rewrite elem_of_app in Hd. destruct Hin as [? | [-> | Hac]]; [tauto.. |].
    specialize (Hc a Hac). rewrite !elem_of_app in Hc. tauto.
  - specialize (Hop a). destruct Hin as [? | [-> | Hac]]; [tauto.. |].
    specialize (Hc a Hac). rewrite !elem_of_app in Hc. tauto.
Qed.

Lemma op_crit h m s o ops :
  good h m s (o :: ops) ->
  exists k m' r s', op_cmd h o = Lock k /\ crit m k m' r /\
    fifo_step s (op_event o r) = Some s' /\ good h m' s' ops.
Proof.
  destruct s as [c bs]. intros Hg. pose proof Hg as [Hnd Hq Hb Hr].
  apply Forall_cons in Hr as [Hr _]. simpl in Hnd, Hq.
  assert (forall a, a ∈ op_nodes o -> a ∉ h :: reverse c) as Hfresh.
  { intros a Ha. rewrite elem_of_cons, elem_of_reverse. rewrite NoDup_cons, NoDup_app in Hnd.
    destruct Hnd as (Hh & _ & Hc & _). rewrite !elem_of_app in Hh. intros [-> | Hac]; [tauto |].
    specialize (Hc a Hac). rewrite !elem_of_app in Hc. tauto. }
  destruct o as [x | | d]; simpl op_cmd; simpl op_nodes in *.
  - destruct (insert_head_spec m h (reverse c) x Hq) as (m' & Hm & Hq' & Hoff); [by apply Hfresh; left | exact Hr |].
    destruct (push_crit h x m m' Hm) as (k & Hk & Hcrit).
    destruct (rest_frame h m m' c bs (Push x) ops Hg) as [Hb' Hr']; [done |].
    exists k, m', None, (c ++ [x], bs). repeat (split; [done |]). constructor; try done; simpl.
    + rewrite <- (assoc_L app). simpl. by rewrite (Permutation_middle (batch_nodes bs) (ops ≫= op_nodes) x).
    + by rewrite reverse_app.
  - pose proof (empty_spec _ _ _ Hq) as He. destruct c as [|x c].
    + destruct (pop_crit_none h m) as (k & Hk & Hcrit); [done |].
      exists k, m, None, ([], bs). repeat (split; [done |]).
      destruct (rest_frame h m m [] bs Pop ops Hg) as [Hb' Hr']; [by intros a _ |]. by constructor.
    + rewrite reverse_cons in *. destruct (remove_spec m h (reverse c) x [] Hq) as (m' & Hm & Hq' & Hoff & _).
      rewrite app_nil_r in Hq'.
      destruct (pop_crit_some h x m m') as (k & Hk & Hcrit); [| |done|].
      * rewrite He. f_equal. apply bool_decide_false. by destruct (reverse c).
      * unfold queue_tail. rewrite (is_queue_tail _ _ _ Hq). f_equal. apply pred_of_snoc.
      * destruct (rest_frame h m m' (x :: c) bs Pop ops Hg) as [Hb' Hr']; [by rewrite reverse_cons |].
        exists k, m', (Some x), (c, bs). split; [done |]. split; [done |].
        split; [simpl; by rewrite bool_decide_true |]. constructor; try done. simpl in *.
        rewrite NoDup_cons in *. destruct Hnd as [Hh Hnd]. apply NoDup_cons in Hnd as [_ Hnd].
        split; [|done]. intros ?. apply Hh. by right.
  - destruct (pop_all_crit m h d (reverse c) Hq Hr) as (k & m' & Hk & Hcrit & Hq' & Hd' & Hoff);
      [apply Hfresh; by left |].
    destruct (rest_frame h m m' c bs (PopAll d) ops Hg) as [Hb' Hr']; [done |].
    exists k, m', None, ([], (d, reverse c) :: bs). repeat (split; [done |]). constructor; try done; simpl.
    + simpl in Hnd. rewrite <- (assoc_L app). rewrite reverse_Permutation.
      by rewrite <- Permutation_middle, <- Permutation_middle in Hnd.
    + by constructor.
Qed.

(** ** The invariant of the interleavings *)

(** The calls of a thread that have not taken effect yet. *)
Definition thread_pending (t : thread) : list op :=
  match cur t with None | Some (_, Ret _) => [] | Some (o, _) => [o] end ++ todo t.

Definition pending (ts : list thread) : list op := ts ≫= thread_pending.

(** A thread that does not hold the lock is not inside a call's critical section. *)
Definition outside (h : ptr) (t : thread) : Prop :=
  match cur t with None => True | Some (o, k) => k = op_cmd h o \/ exists r, k = Ret r end.

Definition section_ok (h : ptr) (s : fifo) (cfg : config) (i : nat) : Prop :=
  exists o k os m' r s',
    threads cfg !! i = Some {| cur := Some (o, k); todo := os |} /\
    crit (heap cfg) k m' r /\ fifo_step s (op_event o r) = Some s' /\
    good h m' s' (os ++ pending (delete i (threads cfg))).

Record inv (h : ptr) (s0 : fifo) (cfg : config) (s : fifo) : Prop := {
  inv_hist : fifo_run s0 (hist cfg) = Some s;
  inv_outside : forall j t, threads cfg !! j = Some t -> lock cfg <> Some j -> outside h t;
  inv_state : match lock cfg with
              | None => good h (heap cfg) s (pending (threads cfg))
              | Some i => section_ok h s cfg i
              end
}.

Lemma op_cmd_lock h o : exists k, op_cmd h o = Lock k.
Proof. destruct o; eexists; reflexivity. Qed.

Lemma delete_insert_eq {A} (l : list A) i x : delete i (<[i:=x]> l) = delete i l.
Proof. revert i. induction l as [|y l IH]; intros [|i]; simpl; [done.. |]. by rewrite IH. Qed.

Lemma pending_split ts i t :
  ts !! i = Some t -> pending ts ≡ₚ thread_pending t ++ pending (delete i ts).
Proof. intros Hi. unfold pending. by rewrite (delete_Permutation _ _ _ Hi) at 1. Qed.

Lemma pending_insert ts i t t' :
  ts !! i = Some t -> pending (<[i:=t']> ts) ≡ₚ thread_pending t' ++ pending (delete i ts).
Proof.
  intros Hi. rewrite (pending_split _ i t').
  - by rewrite delete_insert_eq.
  - apply list_lookup_insert_eq. by eapply lookup_lt_Some.
Qed.

Lemma fmap_insert_same (ts : list thread) (i : nat) t t' :
  ts !! i = Some t -> thread_pending t' = thread_pending t ->
  thread_pending <$> <[i:=t']> ts = thread_pending <$> ts.
Proof.
  intros Hi Ht. rewrite list_fmap_insert, Ht. apply list_insert_id. by rewrite list_lookup_fmap, Hi.
Qed.

Lemma pending_fmap ts : pending ts = concat (thread_pending <$> ts).
Proof.
  induction ts as [|t ts IH]; [done |].
  change (thread_pending t ++ pending ts = thread_pending t ++ concat (thread_pending <$> ts)).
  by rewrite IH.
Qed.

Lemma pending_same ts i t t' :
  ts !! i = Some t -> thread_pending t' = thread_pending t ->
  pending (<[i:=t']> ts) = pending ts /\
  forall j, pending (delete j (<[i:=t']> ts)) = pending (delete j ts).
Proof.
  intros Hi Ht. split; [|intros j]; rewrite !pending_fmap, ?list_fmap_delete;
    by rewrite (fmap_insert_same ts i t t').
Qed.

Lemma insert_outside h (ts : list thread) (i : nat) t' (P : nat -> Prop) :
  (forall j t, ts !! j = Some t -> P j -> outside h t) -> (P i -> outside h t') ->
  forall j t, <[i:=t']> ts !! j = Some t -> P j -> outside h t.
Proof.
  intros H Hi j t Hj HP. destruct (decide (i = j)) as [<- | Hne].
  - rewrite list_lookup_insert_eq in Hj; [simplify_eq; auto |].
    apply lookup_lt_Some in Hj. by rewrite length_insert in Hj.
  - rewrite list_lookup_insert_ne in Hj by done. eauto.
Qed.

(** Steps that neither touch the heap nor change what is pending. *)
Lemma inv_local h s0 s m l ts es i t t' :
  inv h s0 {| heap := m; lock := l; threads := ts; hist := es |} s ->
  ts !! i = Some t -> l <> Some i -> thread_pending t' = thread_pending t -> outside h t' ->
  inv h s0 {| heap := m; lock := l; threads := <[i:=t']> ts; hist := es |} s.
Proof.
  intros [Hh Ho Hs] Hi Hl Ht Hout. simpl in *. destruct (pending_same _ _ _ _ Hi Ht) as [E1 E2].
  constructor; [done | |].
  - by eapply (insert_outside h ts i t' (fun j => l <> Some j)).
  - simpl. destruct l as [j|]; [|by rewrite E1].
    destruct Hs as (o & k & os & m' & r & s' & Hj & Hc & Hf & Hg). simpl in *.
    exists o, k, os, m', r, s'. simpl. rewrite list_lookup_insert_ne by congruence.
    split; [done |]. split; [done |]. split; [done |]. by rewrite E2.
Qed.


Lemma holds_lock h s0 s m l ts es i o k os :
  inv h s0 {| heap := m; lock := l; threads := ts; hist := es |} s ->
  ts !! i = Some {| cur := Some (o, k); todo := os |} ->
  (forall k', k <> Lock k') -> (forall r, k <> Ret r) -> l = Some i.
Proof.
  intros [_ Ho _] Hi Hk1 Hk2. simpl in Ho. destruct (decide (l = Some i)) as [|Hne]; [done |].
  destruct (Ho i _ Hi Hne) as [-> | [r ->]]; [|by destruct (Hk2 r)].
  destruct (op_cmd_lock h o) as [k' E]. by destruct (Hk1 k').
Qed.

Lemma step_inv h s0 s cfg cfg' i : inv h s0 cfg s -> step h i cfg cfg' -> exists s', inv h s0 cfg' s'.
Proof.
  intros Hinv Hstep.
  destruct Hstep as [i m l ts es o os Hi | i m ts es o k os Hi | i m l ts es o f os m1 k Hi Hf
    | i m l ts es o r os Hi | i m l ts es o r os Hi].
  - exists s. assert (l <> Some i) as Hl.
    { intros ->. destruct (inv_state _ _ _ _ Hinv) as (? & ? & ? & ? & ? & ? & E & _). simpl in E. congruence. }
    eapply inv_local; [done.. | |].
    + destruct (op_cmd_lock h o) as [k' E]. unfold thread_pending. simpl. by rewrite E.
    + by left.
  - exists s. destruct Hinv as [Hh Ho Hs]. simpl in *.
    destruct (Ho i _ Hi ltac:(done)) as [E | [r E]]; [|done].
    apply (good_perm _ _ _ _ _ (pending_split _ _ _ Hi)) in Hs.
    destruct (op_crit _ _ _ _ _ Hs) as (k' & m' & r & s' & E' & Hc & Hf & Hg).
    rewrite <- E in E'. injection E' as ->. constructor; [done | |]; simpl.
    + apply (insert_outside h ts i _ (fun j => Some i <> Some j)); [|done].
      intros j t Hj _. by apply (Ho j).
    + exists o, k', os, m', r, s'. simpl. rewrite list_lookup_insert_eq by (by eapply lookup_lt_Some).
      rewrite delete_insert_eq. done.
  - exists s. assert (l = Some i) as -> by (eapply holds_lock; [done.. | |]; done).
    destruct Hinv as [Hh Ho (o' & k' & os' & m' & r & s' & Hi' & Hc & Hfs & Hg)]. simpl in *.
    rewrite Hi in Hi'. simplify_eq. inversion Hc; simplify_eq. constructor; [done | |]; simpl.
    + by apply (insert_outside h ts i _ (fun j => Some i <> Some j)).
    + eexists o', _, os', m', r, s'. simpl. rewrite list_lookup_insert_eq by (by eapply lookup_lt_Some).
      rewrite delete_insert_eq. done.
  - assert (l = Some i) as -> by (eapply holds_lock; [done.. | |]; done).
    destruct Hinv as [Hh Ho (o' & k' & os' & m' & r' & s' & Hi' & Hc & Hfs & Hg)]. simpl in *.
    rewrite Hi in Hi'. simplify_eq. inversion Hc; simplify_eq. exists s'. constructor; simpl.
    + rewrite fifo_run_snoc, Hh. done.
    + intros j t Hj _. revert Hj. destruct (decide (i = j)) as [<- | Hne].
      * rewrite list_lookup_insert_eq by (by eapply lookup_lt_Some). intros [= <-]. right. by eexists.
      * rewrite list_lookup_insert_ne by done. intros Hj. apply (Ho j); [done | congruence].
    + eapply good_perm; [|exact Hg]. by rewrite (pending_insert _ _ _ _ Hi).
  - exists s. assert (l <> Some i) as Hl.
    { intros ->. destruct Hinv as [_ _ (o' & k' & os' & m' & r' & s' & Hi' & Hc & _)]. simpl in *.
      rewrite Hi in Hi'. simplify_eq. inversion Hc. }
    by eapply inv_local.
Qed.

Lemma steps_inv h s0 s cfg cfg' : inv h s0 cfg s -> steps h cfg cfg' -> exists s', inv h s0 cfg' s'.
Proof.
  intros Hinv Hsteps. revert s Hinv. induction Hsteps as [c | c c1 c2 [i Hstep] _ IH]; intros s Hinv; [eauto |].
  destruct (step_inv _ _ _ _ _ _ Hinv Hstep) as [s' Hinv']. eauto.
Qed.

Lemma pending_start progs :
  pending ((fun os => {| cur := None; todo := os |}) <$> progs) = concat progs.
Proof. rewrite pending_fmap. induction progs as [|os progs IH]; [done |]. simpl. by rewrite <- IH. Qed.

Lemma start_inv h m c progs :
  good h m (c, []) (concat progs) -> inv h (c, []) (start m progs) (c, []).
Proof.
  intros Hg. constructor; [done | |]; simpl.
  - intros j t Hj _. apply list_lookup_fmap_Some in Hj as (os & -> & _). done.
  - by rewrite pending_start.
Qed.

Definition can_step (h : ptr) (i : nat) (cfg : config) : Prop := exists cfg', step h i cfg cfg'.
Definition finished (t : thread) : Prop := cur t = None /\ todo t = [].

Lemma holder_can_step h s0 cfg s i : inv h s0 cfg s -> lock cfg = Some i -> can_step h i cfg.
Proof.
  destruct cfg as [m l ts es]. intros [_ _ Hs] Hl. simpl in *. subst l.
  destruct Hs as (o & k & os & m' & r & s' & Hi & Hc & _). simpl in *.
  destruct Hc; eexists; [by eapply StepUnlock | by eapply StepAct].
Qed.

Lemma thread_progress h s0 cfg s i t :
  inv h s0 cfg s -> threads cfg !! i = Some t -> finished t \/ can_step h i cfg \/
    exists o k j, cur t = Some (o, Lock k) /\ lock cfg = Some j.
Proof.
  intros Hinv Hi. destruct (decide (lock cfg = Some i)) as [Hl | Hl].
  - right. left. by eapply holder_can_step.
  - pose proof (inv_outside _ _ _ _ Hinv i t Hi Hl) as Hout.
    destruct cfg as [m l ts es], t as [[[o k]|] os]; simpl in *.
    + destruct (op_cmd_lock h o) as [k' E]. destruct Hout as [-> | [r ->]].
      * rewrite E in *. destruct l as [j|]; [right; right; eauto 10 |].
        right. left. eexists. by eapply StepLock.
      * right. left. eexists. by eapply StepRet.
    + destruct os as [|o os]; [by left |]. right. left. eexists. by eapply StepCall.
Qed.

(** ** Running alone *)

Lemma crit_run m k m' r : crit m k m' r -> run_cmd k true m = Some (m', r).
Proof. induction 1 as [|m f m1 k m' r Hf Hc IH]; [done |]. simpl. by rewrite Hf. Qed.

Lemma run_void_lock k m m' r : crit m k m' r -> run_void (Lock k) m = Some m'.
Proof. intros H. unfold run_void. simpl. by rewrite (crit_run _ _ _ _ H). Qed.

Lemma push_run m h xs x :
  is_queue m h xs -> x ∉ h :: xs -> allocated m x ->
  exists m', run_void (push_task h x) m = Some m' /\ is_queue m' h (x :: xs) /\ same_off (x :: h :: xs) m m'.
Proof.
  intros Hq Hx Ha. destruct (insert_head_spec _ _ _ _ Hq Hx Ha) as (m' & Hm & Hq' & Hoff).
  destruct (push_crit _ _ _ _ Hm) as (k & -> & Hc). exists m'. by erewrite run_void_lock.
Qed.

Lemma pop_all_run m h d xs :
  is_queue m h xs -> is_queue m d [] -> d ∉ h :: xs ->
  exists m', run_void (pop_all h d) m = Some m' /\ is_queue m' h [] /\ is_queue m' d xs /\
    same_off (d :: h :: xs) m m'.
Proof.
  intros Hq Hd Hn. destruct (pop_all_crit _ _ _ _ Hq Hd Hn) as (k & m' & -> & Hc & ? & ? & ?).
  exists m'. by erewrite run_void_lock.
Qed.

(** Two queues with different sentinels share no node. *)
Lemma cycles_disjoint m h xs g ys :
  is_queue m h xs -> is_queue m g ys -> g ∉ h :: xs -> forall a, a ∈ h :: xs -> a ∈ g :: ys -> False.
Proof.
  intros Hq [_ Hs] Hg.
  assert (forall a b, a ∈ h :: xs -> linked m a b -> b ∈ h :: xs) as Hnext.
  { intros a b [-> | Ha]%elem_of_cons [Hab _].
    - rewrite (is_queue_head _ _ _ Hq) in Hab. simplify_eq. apply succ_of_in.
    - apply list_elem_of_split in Ha as (l1 & l2 & ->).
      destruct (is_queue_cut _ _ _ _ _ Hq) as [_ [Hn _]]. rewrite Hn in Hab. simplify_eq.
      pose proof (succ_of_in h l2) as Hin. set_solver. }
  assert (forall l a, seg m (a :: l ++ [g]) -> a ∈ h :: xs -> False) as Hwalk.
  { induction l as [|b l IH]; intros a; simpl app; rewrite seg_cons; intros [Hl Hr] Ha.
    - by apply Hg, (Hnext a).
    - apply (IH b); [done |]. by apply (Hnext a). }
  intros a Ha [-> | Hin]%elem_of_cons; [done |].
  apply list_elem_of_split in Hin as (l1 & l2 & ->).
  apply seg_cut_mid in Hs as (_ & _ & Hn & Hs). apply (Hwalk l2 a); [|done].
  rewrite (cycle_suffix g l2), seg_cons, <- cycle_suffix. done.
Qed.

(** ** What a consumer relies on *)

(** [P] are the sentinels the consumer works on, [N] the task nodes, [I] the handler's own
    invariant: it takes an unlinked node, and leaves the consumer's queues alone; its
    invariant does not depend on them. *)
Class Handler {S} (handle : ptr -> links * S -> option (links * S))
    (P N : ptr -> Prop) (I : links -> S -> Prop) := {
  handler_runs x m s : I m s -> N x -> l_next m !! x = Some nullptr -> l_prev m !! x = Some nullptr ->
    exists m' s', handle x (m, s) = Some (m', s') /\ I m' s' /\
      forall h xs, P h -> Forall N xs -> x ∉ xs -> is_queue m h xs -> is_queue m' h xs;
  handler_init m m' s q : I m s -> P q -> same_off [q] m m' -> I m' s;
  handler_stable m m' s q h xs : I m s -> P q -> P h -> Forall N xs -> is_queue m h xs ->
    same_off (q :: h :: xs) m m' -> I m' s
}.

Section ConsumerSpec.
Context {S : Type} (handle : ptr -> links * S -> option (links * S)).
Context (P N : ptr -> Prop) (I : links -> S -> Prop) `{!Handler handle P N I}.

(** Handling the first node of the local batch [q]. *)
Lemma take_head m s q x xs :
  is_queue m q (x :: xs) -> P q -> Forall N (x :: xs) -> I m s ->
  exists m1 m2 s2, queue_remove x m = Some m1 /\ handle x (m1, s) = Some (m2, s2) /\
    is_queue m2 q xs /\ I m2 s2 /\
    forall h ys, P h -> Forall N ys -> h ∉ q :: x :: xs -> is_queue m h ys -> is_queue m2 h ys.
Proof.
  intros Hq HP HN HI. destruct (remove_spec m q [] x xs Hq) as (m1 & Hm1 & Hq1 & Hoff & Hx1 & Hx2).
  pose proof HN as [HNx HNxs]%Forall_cons.
  assert (I m1 s) as HI1.
  { eapply (handler_stable m m1 s q q (x :: xs)); try done. intros a Ha. apply Hoff. set_solver. }
  destruct (handler_runs x m1 s HI1 HNx Hx1 Hx2) as (m2 & s2 & Hh & HI2 & Hframe).
  assert (x ∉ xs) as Hx.
  { destruct Hq as [[_ [Hx _]%NoDup_cons]%NoDup_cons _]. done. }
  exists m1, m2, s2. split; [done |]. split; [done |]. split; [by apply Hframe |]. split; [done |].
  intros h ys HPh HNys Hd Hqh.
  pose proof (cycles_disjoint _ _ _ _ _ Hq Hqh Hd) as Hdis.
  apply Hframe; [done.. | |].
  - intros Hin. apply (Hdis x); [by right; left | by right].
  - eapply is_queue_frame; [exact Hoff | |done]. intros a Ha Ha'. by apply (Hdis a).
Qed.

(** Draining the local batch: every node is handled once, head first. *)
Lemma write_back_pack_queue_spec fuel m s q xs :
  is_queue m q xs -> P q -> Forall N xs -> I m s -> (length xs < fuel)%nat ->
  exists m' s', write_back_pack_queue handle fuel q (m, s) = Some ((m', s'), xs) /\
    is_queue m' q [] /\ I m' s' /\
    forall h ys, P h -> Forall N ys -> h ∉ q :: xs -> is_queue m h ys -> is_queue m' h ys.
Proof.
  revert m s xs. induction fuel as [|fuel IH]; intros m s xs Hq HP HN HI Hf; [lia |].
  cbn [write_back_pack_queue]. simpl fst. simpl snd. rewrite (empty_spec _ _ _ Hq).
  cbn [mbind option_bind]. case_bool_decide as E.
  - subst xs. by exists m, s.
  - destruct xs as [|x xs]; [done |]. simpl in Hf.
    destruct (take_head m s q x xs Hq HP HN HI) as (m1 & m2 & s2 & Hm1 & Hh & Hq2 & HI2 & Hfr).
    unfold queue_head. rewrite (is_queue_head _ _ _ Hq). cbn [mbind option_bind succ_of List.hd].
    rewrite Hm1. cbn [mbind option_bind]. rewrite Hh. cbn [mbind option_bind].
    apply Forall_cons in HN as [HNx HN].
    destruct (IH m2 s2 xs) as (m' & s' & -> & Hq' & HI' & Hfr'); [done.. | lia |].
    exists m', s'. split; [done |]. split; [done |]. split; [done |].
    intros h ys HPh HNys Hd Hqh. apply Hfr'; [done | done | set_solver |]. by apply Hfr.
Qed.

(** A fresh local sentinel takes the whole of the shared queue. *)
Lemma take_batch m s tq q xs :
  is_queue m tq xs -> allocated m q -> q ∉ tq :: xs -> P tq -> P q -> Forall N xs -> I m s ->
  exists m1 m2, queue_init q m = Some m1 /\ run_void (pop_all tq q) m1 = Some m2 /\
    is_queue m2 tq [] /\ is_queue m2 q xs /\ I m2 s /\ same_off (q :: tq :: xs) m m2.
Proof.
  intros Hq Ha Hn HP HPq HN HI. destruct (init_spec _ _ Ha) as (m1 & Hm1 & Hq1 & Hoff1).
  assert (is_queue m1 tq xs) as Hqt.
  { eapply is_queue_frame; [exact Hoff1 | |done]. set_solver. }
  destruct (pop_all_run m1 tq q xs Hqt Hq1 Hn) as (m2 & Hm2 & Ht & Hq2 & Hoff2).
  exists m1, m2. repeat (split; [done |]). split.
  - eapply (handler_stable m1 m2 s q tq xs); [|done..]. by eapply handler_init.
  - eapply same_off_trans; [|exact Hoff2]. eapply same_off_weaken; [exact Hoff1 |]. set_solver.
Qed.

Lemma write_back_notice_call_spec fuel m s tq q xs :
  is_queue m tq xs -> allocated m q -> q ∉ tq :: xs -> P tq -> P q -> Forall N xs -> I m s ->
  (length xs < fuel)%nat ->
  exists m' s', write_back_notice_call handle fuel tq q (m, s) = Some ((m', s'), xs) /\
    is_queue m' tq [] /\ is_queue m' q [] /\ I m' s' /\
    forall h ys, P h -> Forall N ys -> h ∉ q :: tq :: xs -> q ∉ h :: ys -> is_queue m h ys -> is_queue m' h ys.
Proof.
  intros Hq Ha Hn HP HPq HN HI Hf.
  destruct (take_batch m s tq q xs) as (m1 & m2 & Hm1 & Hm2 & Ht & Hq2 & HI2 & Hoff); [done.. |].
  destruct (write_back_pack_queue_spec fuel m2 s q xs) as (m' & s' & Hw & Hq' & HI' & Hfr); [done.. |].
  exists m', s'. unfold write_back_notice_call. simpl fst. simpl snd. rewrite Hm1. cbn [mbind option_bind].
  rewrite Hm2. cbn [mbind option_bind]. split; [done |]. split.
  - apply Hfr; [done | done | | done]. destruct Hq as [[Ht' _]%NoDup_cons _]. set_solver.
  - split; [done |]. split; [done |]. intros h ys HPh HNys Hd Hqh Hqys.
    apply Hfr; [done | done | set_solver |]. eapply is_queue_frame; [exact Hoff | |done].
    intros a Ha' Hin. apply elem_of_cons in Hin as [-> | Hin]; [done |].
    eapply (cycles_disjoint m tq xs h ys); [done | done | set_solver | done | done].
Qed.

Lemma do_task_loop_spec running fuel m s q xs :
  is_queue m q xs -> P q -> Forall N xs -> I m s -> (length xs < fuel)%nat ->
  exists n m' s', do_task_loop handle running fuel q (succ_of q xs) (m, s) = Some ((m', s'), take n xs) /\
    is_queue m' q (drop n xs) /\ I m' s' /\ ((n < length xs)%nat -> running s' = false) /\
    forall h ys, P h -> Forall N ys -> h ∉ q :: xs -> is_queue m h ys -> is_queue m' h ys.
Proof.
  revert m s xs. induction fuel as [|fuel IH]; intros m s xs Hq HP HN HI Hf; [lia |].
  cbn [do_task_loop]. simpl fst. simpl snd. rewrite (empty_spec _ _ _ Hq). cbn [mbind option_bind].
  case_bool_decide as E; cbn [negb andb].
  - subst xs. exists 0%nat, m, s. simpl. repeat (split; [done || lia |]). done.
  - destruct (running s) eqn:Hrun.
    + destruct xs as [|x xs]; [done |]. simpl in Hf. simpl succ_of.
      destruct (take_head m s q x xs Hq HP HN HI) as (m1 & m2 & s2 & Hm1 & Hh & Hq2 & HI2 & Hfr).
      rewrite Hm1. cbn [mbind option_bind]. rewrite Hh. cbn [mbind option_bind fst].
      unfold queue_head. rewrite (is_queue_head _ _ _ Hq2). cbn [mbind option_bind].
      apply Forall_cons in HN as [HNx HN].
      destruct (IH m2 s2 xs) as (n & m' & s' & -> & Hq' & HI' & Hr & Hfr'); [done.. | lia |].
      exists (Datatypes.S n), m', s'. split; [done |]. split; [done |]. split; [done |]. split; [simpl; intros; apply Hr; lia |].
      intros h ys HPh HNys Hd Hqh. apply Hfr'; [done | done | set_solver |]. by apply Hfr.
    + exists 0%nat, m, s. repeat (split; [done |]). done.
Qed.

(** Distinct sentinels, none of which is a task node. *)
Context (HPN : forall a, P a -> N a -> False).

Lemma net_response_loop_spec fuel q f ts m s :
  NoDup (q :: ts) -> Forall P (q :: ts) -> allocated m q -> I m s ->
  (forall t, t ∈ ts -> is_queue m t (f t) /\ Forall N (f t) /\ (length (f t) < fuel)%nat) ->
  exists m' s', net_response_loop handle fuel ts q (m, s) = Some ((m', s'), ts ≫= f) /\ I m' s' /\
    (forall t, t ∈ ts -> is_queue m' t []) /\
    forall h ys, P h -> Forall N ys -> h ∉ q :: ts -> is_queue m h ys -> is_queue m' h ys.
Proof.
  assert (forall a xs, P a -> Forall N xs -> a ∉ xs) as Hsep.
  { intros a xs Ha Hxs Hin. rewrite Forall_forall in Hxs. by apply (HPN a); [| apply Hxs]. }
  revert m s. induction ts as [|t ts IH]; intros m s Hnd HP Ha HI Hts.
  - exists m, s. split; [done |]. split; [done |]. split; [by intros t ?%elem_of_nil | done].
  - destruct (Hts t ltac:(by left)) as (Hq & HN & Hf).
    apply Forall_cons in HP as [HPq [HPt HP]%Forall_cons]. rewrite !NoDup_cons, elem_of_cons in Hnd.
    destruct Hnd as (Hqt & Ht & Hnd).
    destruct (write_back_notice_call_spec fuel m s t q (f t)) as (m1 & s1 & Hw & Ht1 & Hq1 & HI1 & Hfr1);
      [done | done | | done..|].
    { intros [-> | Hin]%elem_of_cons; [tauto | by apply (Hsep q (f t))]. }
    assert (forall h ys, P h -> Forall N ys -> h <> q -> h <> t -> is_queue m h ys -> is_queue m1 h ys) as Hfr1'.
    { intros h ys HPh HNys Hhq Hht. apply Hfr1; [done | done | |].
      - intros [|[|Hin]%elem_of_cons]%elem_of_cons; [done.. |]. exact (Hsep h _ HPh HN Hin).
      - intros [|Hin]%elem_of_cons; [done |]. exact (Hsep q _ HPq HNys Hin). }
    destruct (IH m1 s1) as (m' & s' & Hl & HI' & Hts' & Hfr').
    + rewrite NoDup_cons. tauto.
    + by constructor.
    + by eapply is_queue_allocated; [|left].
    + done.
    + intros t' Hin. destruct (Hts t' ltac:(by right)) as (Hq' & HN' & Hf'). split; [|done].
      rewrite Forall_forall in HP.
      apply Hfr1'; [by apply HP | done | | | done]; intros ->; tauto.
    + exists m', s'. cbn [net_response_loop]. rewrite Hw. cbn [mbind option_bind]. rewrite Hl.
      split; [done |]. split; [done |]. split.
      * intros t' [-> | Hin]%elem_of_cons; [|by apply Hts'].
        apply Hfr'; [done | constructor | | done]. rewrite elem_of_cons. intros [E | E]; [|done]. apply Hqt. by left.
      * intros h ys HPh HNys Hd Hqh. rewrite !elem_of_cons in Hd.
        apply Hfr'; [done | done | rewrite elem_of_cons; tauto |]. apply Hfr1'; try done; tauto.
Qed.

(** The queues a thread answers. *)
Definition targets (th : dfs_thread) : list ptr := if is_cli_test th then bque th else [tq th].

Lemma net_response_handler_loop fuel th q st :
  net_response_handler handle fuel th q st = net_response_loop handle fuel (targets th) q st.
Proof.
  unfold net_response_handler, targets. destruct (is_cli_test th); [done |].
  cbn [net_response_loop]. destruct (write_back_notice_call handle fuel (tq th) q st) as [[st' tr]|]; [|done].
  cbn. by rewrite app_nil_r.
Qed.
End ConsumerSpec.

(** ** Writing tasks back *)

Lemma wb_queue_target th id : targets th <> [] -> exists t, wb_queue th id = Some t /\ t ∈ targets th.
Proof.
  unfold wb_queue, targets. destruct (is_cli_test th); intros Hne.
  - rewrite bool_decide_false by done.
    destruct (lookup_lt_is_Some_2 (bque th) (N.to_nat (id mod N.of_nat (length (bque th))))) as [t Ht].
    { destruct (bque th) as [|b l]; [done |].
      pose proof (N.mod_lt id (N.of_nat (length (b :: l)))). simpl length in *. lia. }
    exists t. split; [done |]. by eapply list_elem_of_lookup_2.
  - exists (tq th). split; [done |]. by left.
Qed.

Lemma write_back_run th id m t xs node :
  wb_queue th id = Some t -> is_queue m t xs -> node ∉ t :: xs -> allocated m node ->
  exists m', write_back th id node m = Some m' /\ is_queue m' t (node :: xs) /\ same_off (node :: t :: xs) m m'.
Proof.
  intros Ht Hq Hn Ha. destruct (init_spec _ _ Ha) as (m1 & Hm1 & Hq1 & Hoff1).
  destruct (push_run m1 t xs node) as (m2 & Hm2 & Hq2 & Hoff2).
  - eapply is_queue_frame; [exact Hoff1 | |done]. set_solver.
  - done.
  - by eapply is_queue_allocated; [|left].
  - exists m2. unfold write_back. rewrite Hm1, Ht. split; [done |]. split; [done |].
    eapply same_off_trans; [|exact Hoff2]. eapply same_off_weaken; [exact Hoff1 |]. set_solver.
Qed.

Fixpoint write_backs (th : dfs_thread) (msgs : list (N * ptr)) (m : links) : option links :=
  match msgs with
  | [] => Some m
  | (id, node) :: msgs => m ← write_back th id node m; write_backs th msgs m
  end.

Section WriteBacks.
Context (N : ptr -> Prop) (th : dfs_thread).
Context (Hne : targets th <> []) (Hnd : NoDup (targets th)) (HnN : forall t, t ∈ targets th -> N t -> False).

(** [f t] are the nodes waiting at the target [t]. *)
Definition waiting (m : links) (f : ptr -> list ptr) : Prop :=
  forall t, t ∈ targets th -> is_queue m t (f t) /\ Forall N (f t).

Lemma bind_update (f : ptr -> list ptr) t x ts :
  t ∈ ts -> NoDup ts -> ts ≫= <[t := x :: f t]> f ≡ₚ x :: (ts ≫= f).
Proof.
  induction ts as [|t' ts IH]; [by intros ?%elem_of_nil |].
  intros Hin [Ht' Hnd']%NoDup_cons. cbn [mbind list_bind].
  destruct (decide (t = t')) as [<- | Hd].
  - rewrite fn_lookup_insert. simpl. do 2 f_equiv.
    assert (forall l, t ∉ l -> l ≫= <[t:=x :: f t]> f = l ≫= f) as E; [|by rewrite E].
    induction l as [|a l IHl]; [done |]. rewrite not_elem_of_cons. intros [? ?]. cbn [mbind list_bind].
    rewrite fn_lookup_insert_ne by done. f_equal. by apply IHl.
  - rewrite fn_lookup_insert_ne by done. apply elem_of_cons in Hin as [|Hin]; [done |].
    change (f t' ++ (ts ≫= <[t:=x :: f t]> f) ≡ₚ x :: f t' ++ (ts ≫= f)).
    rewrite (IH Hin Hnd'). by rewrite <- Permutation_middle.
Qed.

Lemma write_back_waiting m f id node :
  waiting m f -> N node -> allocated m node -> (forall t, t ∈ targets th -> node ∉ f t) ->
  exists m' f', write_back th id node m = Some m' /\ waiting m' f' /\
    targets th ≫= f' ≡ₚ node :: (targets th ≫= f) /\ same_off (node :: targets th ++ (targets th ≫= f)) m m'.
Proof.
  intros Hw HN Ha Hfresh. destruct (wb_queue_target th id Hne) as (t & Ht & Hin).
  destruct (Hw t Hin) as [Hq HNt].
  assert (node ∉ t :: f t) as Hn.
  { intros [-> |]%elem_of_cons; [by eapply HnN | by eapply Hfresh]. }
  destruct (write_back_run th id m t (f t) node Ht Hq Hn Ha) as (m' & Hm & Hq' & Hoff).
  exists m', (<[t := node :: f t]> f). split; [done |]. split; [| split; [by apply bind_update |]].
  - intros t' Hin'. destruct (decide (t = t')) as [<- | Hd].
    + rewrite fn_lookup_insert. split; [done | by constructor].
    + rewrite fn_lookup_insert_ne by done. destruct (Hw t' Hin') as [Hq2 HN2]. split; [|done].
      eapply is_queue_frame; [exact Hoff | |done]. intros a Ha' [-> | Hat]%elem_of_cons.
      * apply elem_of_cons in Ha' as [-> | ?]; [by eapply HnN | by eapply Hfresh].
      * eapply (cycles_disjoint m t (f t) t'); [done | done | | done | done].
        rewrite elem_of_cons. rewrite Forall_forall in HNt. intros [|]; [done | eapply HnN; eauto].
  - eapply same_off_weaken; [exact Hoff |]. intros a. rewrite !elem_of_cons, elem_of_app.
    intros [-> | [-> | ?]]; [tauto.. |]. right. right. apply list_elem_of_bind. eauto.
Qed.

Lemma write_backs_run msgs m f :
  waiting m f -> NoDup (msgs.*2 ++ (targets th ≫= f)) -> Forall N msgs.*2 -> Forall (allocated m) msgs.*2 ->
  exists m' f', write_backs th msgs m = Some m' /\ waiting m' f' /\
    targets th ≫= f' ≡ₚ msgs.*2 ++ (targets th ≫= f) /\
    same_off (msgs.*2 ++ targets th ++ (targets th ≫= f)) m m'.
Proof.
  revert m f. induction msgs as [|[id node] msgs IH]; intros m f Hw Hd HN Ha.
  - exists m, f. split; [done |]. split; [done |]. split; [done | by intros a _].
  - simpl in Hd, HN, Ha. apply Forall_cons in HN as [HNn HN], Ha as [Han Ha].
    apply NoDup_cons in Hd as [Hn Hd].
    destruct (write_back_waiting m f id node Hw HNn Han) as (m1 & f1 & Hm1 & Hw1 & Hp1 & Hoff1).
    { intros t Ht Hin. apply Hn, elem_of_app. right. apply list_elem_of_bind. eauto. }
    destruct (IH m1 f1 Hw1) as (m2 & f2 & Hm2 & Hw2 & Hp2 & Hoff2).
    + rewrite Hp1, <- Permutation_middle, NoDup_cons. done.
    + done.
    + rewrite Forall_forall in *. intros x Hx. unfold allocated.
      assert (x ∉ node :: targets th ++ (targets th ≫= f)) as Hout.
      { rewrite NoDup_app in Hd. destruct Hd as (_ & Hd & _).
        intros [-> | [Hin | Hin]%elem_of_app]%elem_of_cons; [| by eapply HnN, HN | by eapply Hd].
        apply Hn, elem_of_app. by left. }
      destruct (Hoff1 x Hout) as [-> ->]. by apply Ha.
    + exists m2, f2. simpl. rewrite Hm1. split; [done |]. split; [done |]. split.
      * rewrite Hp2, Hp1. by rewrite <- Permutation_middle.
      * eapply same_off_trans; (eapply same_off_weaken; [eassumption |]).
        -- intros a. rewrite !elem_of_cons, !elem_of_app. tauto.
        -- intros a. rewrite Hp1, !elem_of_cons, !elem_of_app, elem_of_cons. tauto.
Qed.
End WriteBacks.

(** ** Claims *)

(** C26. The spinlock queue is a linearizable FIFO queue: in every interleaving of the
    atomic steps of any number of threads calling [push_task], [pop_task] and [pop_all],
    the operations, in the order in which they release the lock, form a legal history of
    an abstract first-in first-out queue; whenever the lock is free the links hold exactly
    the abstract contents (newest at the head) and every [pop_all] destination holds the
    batch it took; and no call is ever stuck: a thread that cannot move waits for the lock,
    whose holder can move. *)
Theorem task_queue_linearizable h m c progs cfg :
  good h m (c, []) (concat progs) -> steps h (start m progs) cfg ->
  exists c' bs, fifo_run (c, []) (hist cfg) = Some (c', bs) /\
    (lock cfg = None ->
       is_queue (heap cfg) h (reverse c') /\ Forall (fun b => is_queue (heap cfg) b.1 b.2) bs) /\
    (forall i t, threads cfg !! i = Some t -> finished t \/ can_step h i cfg \/
       exists o k j, cur t = Some (o, Lock k) /\ lock cfg = Some j) /\
    (forall j, lock cfg = Some j -> can_step h j cfg).
Proof.
  intros Hg Hs. destruct (steps_inv _ _ _ _ _ (start_inv _ _ _ _ Hg) Hs) as [[c' bs] Hinv].
  exists c', bs. split; [by apply inv_hist in Hinv |]. split; [| split].
  - intros Hl. pose proof (inv_state _ _ _ _ Hinv) as Hst. rewrite Hl in Hst. by destruct Hst.
  - intros i t. by apply (thread_progress h (c, []) cfg (c', bs)).
  - intros j. by apply (holder_can_step h (c, []) cfg (c', bs)).
Qed.

(** [do_task_handler] empties the shared queue into its local batch and runs the tasks
    of the batch newest first, each once, until the batch is exhausted or the thread's
    [running] flag is found cleared; the tasks not run stay linked in the local batch. *)
Theorem do_task_handler_spec {S} handle P N (I : links -> S -> Prop) `{!Handler handle P N I}
    running fuel m s tq q xs :
  is_queue m tq xs -> allocated m q -> q ∉ tq :: xs -> tq ∉ q :: xs -> P tq -> P q -> Forall N xs -> I m s ->
  (length xs < fuel)%nat ->
  exists n m' s', do_task_handler handle running fuel tq q (m, s) = Some ((m', s'), take n xs) /\
    is_queue m' tq [] /\ is_queue m' q (drop n xs) /\ I m' s' /\
    ((n < length xs)%nat -> running s' = false).
Proof.
  intros Hq Ha Hn Ht HP HPq HN HI Hf.
  destruct (take_batch handle P N I m s tq q xs) as (m1 & m2 & Hm1 & Hm2 & Htq & Hq2 & HI2 & _); [done.. |].
  destruct (do_task_loop_spec handle P N I running fuel m2 s q xs) as (n & m' & s' & Hl & Hq' & HI' & Hr & Hfr);
    [done.. |].
  exists n, m', s'. unfold do_task_handler. simpl fst. simpl snd. rewrite Hm1. cbn [mbind option_bind].
  rewrite Hm2. cbn [mbind option_bind]. unfold queue_head. rewrite (is_queue_head _ _ _ Hq2).
  cbn [mbind option_bind]. rewrite Hl. split; [done |]. split; [by apply Hfr | done].
Qed.

(** C34. Every task written back is answered exactly once: after any sequence of
    [write_back] calls from threads with any ids to a thread whose queues are empty, one
    [net_response_handler] of that thread hands every node written back, and no other, to
    the response function, and leaves all its queues empty. *)
Theorem write_back_delivered {S} handle P N (I : links -> S -> Prop) `{!Handler handle P N I}
    fuel th q msgs m s :
  (forall a, P a -> N a -> False) ->
  targets th <> [] -> NoDup (q :: targets th) -> Forall P (q :: targets th) ->
  (forall t, t ∈ targets th -> is_queue m t []) -> allocated m q ->
  NoDup msgs.*2 -> Forall N msgs.*2 -> Forall (allocated m) msgs.*2 ->
  (forall m', same_off (msgs.*2 ++ targets th) m m' -> I m' s) ->
  (length msgs < fuel)%nat ->
  exists m1 m2 s2 tr, write_backs th msgs m = Some m1 /\
    net_response_handler handle fuel th q (m1, s) = Some ((m2, s2), tr) /\
    tr ≡ₚ msgs.*2 /\ (forall t, t ∈ targets th -> is_queue m2 t []) /\ I m2 s2.
Proof.
  intros HPN Hne Hnd HP Hts Ha Hdis HN Hal HI Hf. pose proof Hnd as [Hqt Hnd']%NoDup_cons.
  pose proof HP as [HPq HPt]%Forall_cons. rewrite Forall_forall in HPt.
  assert (forall l : list ptr, l ≫= (fun _ => []) = @nil ptr) as Enil by (by induction l).
  destruct (write_backs_run N th Hne Hnd' ltac:(eauto) msgs m (fun _ => [])) as (m1 & f & Hm1 & Hw & Hp & Hoff);
    [| by rewrite Enil, app_nil_r | done.. |].
  { intros t Ht. split; [by apply Hts | constructor]. }
  rewrite Enil, app_nil_r in *.
  destruct (net_response_loop_spec handle P N I HPN fuel q f (targets th) m1 s) as (m2 & s2 & Hl & HI2 & Hts2 & _);
    [done | done | | by apply HI | |].
  - assert (q ∉ msgs.*2 ++ targets th) as Hqn.
    { rewrite elem_of_app. intros [Hin |]; [|done]. rewrite Forall_forall in HN. eauto. }
    unfold allocated. by destruct (Hoff q Hqn) as [-> ->].
  - intros t Ht. destruct (Hw t Ht) as [Hq HNt]. split; [done |]. split; [done |].
    apply Permutation_length in Hp. rewrite length_fmap in Hp.
    enough (length (f t) <= length (targets th ≫= f))%nat by lia.
    apply list_elem_of_split in Ht as (l1 & l2 & ->). rewrite bind_app, bind_cons, !length_app. lia.
  - exists m1, m2, s2, (targets th ≫= f). rewrite net_response_handler_loop. done.
Qed.

(** ** A concrete response function

    The links part of [nn_conn_outtask]: the node goes to the tail of the connection's
    [out_task] queue. *)
Section OutTask.
Context (out : ptr) (P N : ptr -> Prop).
Context (HPN : forall a, P a -> N a -> False) (HoutP : ~ P out) (HoutN : ~ N out).
Context (HnullN : ~ N nullptr) (Hout0 : out <> nullptr).

Definition out_task (x : ptr) (st : links * unit) : option (links * unit) :=
  m ← queue_insert_tail out x st.1; Some (m, st.2).

Definition out_inv (m : links) (_ : unit) : Prop := exists ys, is_queue m out ys /\ Forall N ys.

Lemma unlinked_fresh m ys x :
  is_queue m out ys -> Forall N ys -> N x -> l_next m !! x = Some nullptr -> x ∉ out :: ys.
Proof.
  intros Hq HN HNx Hx [-> | Hin]%elem_of_cons; [done |].
  apply list_elem_of_split in Hin as (l1 & l2 & ->).
  destruct (is_queue_cut _ _ _ _ _ Hq) as [_ [Hn _]]. rewrite Hn in Hx. injection Hx as Hx.
  destruct l2 as [|y l2]; simpl in Hx; [done |]. subst y.
  rewrite Forall_app, !Forall_cons in HN. tauto.
Qed.

Lemma out_frame m m' S ys :
  is_queue m out ys -> same_off S m m' -> (forall a, a ∈ S -> a ∈ out :: ys -> False) -> is_queue m' out ys.
Proof. intros Hq Hoff Hd. eapply is_queue_frame; [exact Hoff | |done]. intros a Ha Ha'. by eapply Hd. Qed.

Lemma out_task_runs x m s :
  out_inv m s -> N x -> l_next m !! x = Some nullptr -> l_prev m !! x = Some nullptr ->
  exists m' s', out_task x (m, s) = Some (m', s') /\ out_inv m' s' /\
    forall h xs, P h -> Forall N xs -> x ∉ xs -> is_queue m h xs -> is_queue m' h xs.
Proof.
  intros (ys & Hq & HN) HNx Hx1 Hx2.
  pose proof (unlinked_fresh m ys x Hq HN HNx Hx1) as Hx.
  destruct (insert_tail_spec m out ys x Hq Hx) as (m' & Hm & Hq' & Hoff); [by split; eexists |].
  exists m', s. unfold out_task. simpl. rewrite Hm. split; [done |]. split.
  - exists (ys ++ [x]). split; [done |]. apply Forall_app. by split; [| constructor].
  - intros h xs HP HNxs Hxs Hqh. eapply is_queue_frame; [exact Hoff | |done].
    intros a Ha [-> | Ha']%elem_of_cons.
    + apply elem_of_cons in Ha as [-> |]; [by eapply HPN | done].
    + eapply (cycles_disjoint m h xs out ys); [done | done | | done | done].
      rewrite elem_of_cons. intros [-> | Hin]; [done |]. rewrite Forall_forall in HNxs. by apply HoutN, HNxs.
Qed.

Lemma out_disjoint m h xs ys a :
  is_queue m out ys -> is_queue m h xs -> P h -> Forall N xs -> a ∈ h :: xs -> a ∈ out :: ys -> False.
Proof.
  intros Hq Hqh HP HN. apply (cycles_disjoint m h xs out ys Hqh Hq).
  rewrite elem_of_cons. intros [-> | Hin]; [done |]. rewrite Forall_forall in HN. by apply HoutN, HN.
Qed.

Lemma sentinel_out q ys : P q -> Forall N ys -> q ∈ out :: ys -> False.
Proof.
  intros HP HN [-> | Hin]%elem_of_cons; [done |]. rewrite Forall_forall in HN. by eapply HPN, HN.
Qed.

Lemma out_task_handler : Handler out_task P N out_inv.
Proof.
  split.
  - apply out_task_runs.
  - intros m m' s q (ys & Hq & HN) HP Hoff. exists ys. split; [|done].
    eapply out_frame; [done.. |]. intros a ->%list_elem_of_singleton. by apply sentinel_out.
  - intros m m' s q h xs (ys & Hq & HN) HPq HPh HNxs Hqh Hoff. exists ys. split; [|done].
    eapply out_frame; [done.. |]. intros a [-> | Ha]%elem_of_cons; [by apply sentinel_out |].
    by apply (out_disjoint m h xs ys).
Qed.
End OutTask.

(** ** Witnesses *)

Lemma task_queue_linearizable_witness :
  exists cfg c' bs, steps 1 (start (mk_queue 1 [3; 2] [5])%N [[Push 5]; [Pop]]) cfg /\
    hist cfg = [EPush 5] /\ fifo_run ([2; 3]%N, []) (hist cfg) = Some (c', bs).
Proof.
  assert (good 1 (mk_queue 1 [3; 2] [5])%N ([2; 3]%N, []) (concat [[Push 5]; [Pop]])) as Hg.
  { constructor.
    - by apply (bool_decide_unpack _); vm_compute.
    - solve_is_queue.
    - constructor.
    - constructor; [solve_allocated |]. constructor; [exact Logic.I | constructor]. }
  assert (exists cfg, steps 1 (start (mk_queue 1 [3; 2] [5])%N [[Push 5]; [Pop]]) cfg /\ hist cfg = [EPush 5])
    as (cfg & Hs & Hh).
  { eexists. split.
    - eapply rtc_l; [exists 1%nat; eapply StepCall; reflexivity |].
      eapply rtc_l; [exists 0%nat; eapply StepCall; reflexivity |].
      eapply rtc_l; [exists 0%nat; eapply StepLock; reflexivity |].
      eapply rtc_l; [exists 0%nat; eapply StepAct; [reflexivity | vm_compute; reflexivity] |].
      eapply rtc_l; [exists 0%nat; eapply StepAct; [reflexivity | vm_compute; reflexivity] |].
      eapply rtc_l; [exists 0%nat; eapply StepAct; [reflexivity | vm_compute; reflexivity] |].
      eapply rtc_l; [exists 0%nat; eapply StepAct; [reflexivity | vm_compute; reflexivity] |].
      eapply rtc_l; [exists 0%nat; eapply StepUnlock; reflexivity |]. apply rtc_refl.
    - reflexivity. }
  destruct (task_queue_linearizable 1 _ [2; 3]%N _ cfg Hg Hs) as (c' & bs & Hrun & _).
  exists cfg, c', bs. split; [exact Hs |]. split; [exact Hh | exact Hrun].
Defined.

(** Sentinels below 10, the connection's queue at 50, task nodes from 100 on. *)
Definition demo_handler : Handler (out_task 50) (fun a => 0 < Z.of_N a < 10) (fun a => 100 <= Z.of_N a)
    (out_inv 50 (fun a => 100 <= Z.of_N a)).
Proof. apply out_task_handler; cbv beta; unfold nullptr; lia. Qed.

(** Shared queues [1] and [3], batch sentinel [2], and [50] for the connection. *)
Definition demo_heap : links :=
  {| l_next := list_to_map [(1, 101); (101, 102); (102, 1); (2, 0); (50, 50); (3, 3); (103, 0); (104, 0)]%N;
     l_prev := list_to_map [(101, 1); (102, 101); (1, 102); (2, 0); (50, 50); (3, 3); (103, 0); (104, 0)]%N |}.

Lemma do_task_handler_spec_witness :
  exists n m' s', do_task_handler (out_task 50) (fun _ => true) 3 1 2 (demo_heap, tt)
    = Some ((m', s'), take n [101; 102]%N).
Proof.
  destruct (@do_task_handler_spec unit _ _ _ _ demo_handler (fun _ => true) 3 demo_heap tt 1%N 2%N [101; 102]%N)
    as (n & m' & s' & H & _).
  - solve_is_queue.
  - solve_allocated.
  - by apply (bool_decide_unpack _); vm_compute.
  - by apply (bool_decide_unpack _); vm_compute.
  - cbv beta. lia.
  - cbv beta. lia.
  - repeat constructor; cbv beta; lia.
  - exists []. split; [solve_is_queue | constructor].
  - simpl. lia.
  - exists n, m', s'. exact H.
Defined.

Lemma write_back_delivered_witness :
  exists m1 m2 s2 tr,
    write_backs {| is_cli_test := true; tq := 9; bque := [3]%N |} [(7, 103); (8, 104)]%N demo_heap = Some m1 /\
    net_response_handler (out_task 50) 3 {| is_cli_test := true; tq := 9; bque := [3]%N |} 2 (m1, tt)
      = Some ((m2, s2), tr) /\ tr ≡ₚ [103; 104]%N.
Proof.
  destruct (@write_back_delivered unit _ _ _ _ demo_handler 3 {| is_cli_test := true; tq := 9; bque := [3]%N |} 2%N
    [(7, 103); (8, 104)]%N demo_heap tt) as (m1 & m2 & s2 & tr & H1 & H2 & H3 & _).
  - cbv beta. lia.
  - discriminate.
  - by apply (bool_decide_unpack _); vm_compute.
  - repeat constructor; cbv beta; lia.
  - intros t ->%list_elem_of_singleton. solve_is_queue.
  - solve_allocated.
  - by apply (bool_decide_unpack _); vm_compute.
  - repeat constructor; cbv beta; simpl; lia.
  - repeat constructor; eexists; vm_compute; reflexivity.
  - intros m' Hoff. exists []. split; [| constructor].
    eapply is_queue_frame; [exact Hoff | | solve_is_queue]. intros a ->%list_elem_of_singleton.
    by apply (bool_decide_unpack _); vm_compute.
  - simpl. lia.
  - exists m1, m2, s2, tr. split; [exact H1 |]. split; [exact H2 | exact H3].
Defined.
