(* ===== verification/Strings.v ===== *)
(** * Byte strings: comparison, search and number parsing ([src/core/dfs_string.cpp])

    A pointer into a buffer is the list of the bytes from it to the end of the
    allocation; reading past that end, or overflowing a signed integer, is [None].
    [uchar_t] values are [Z]s in [0 .. 255]; a length that only counts down is a [nat].
    A [NULL] result is an inner [None]. *)

From S2P Require Import Prelude.

(** ** Character folding *)

(* src/src/core/dfs_string.h:40-40 (string_xxctolower) *)
Definition string_xxctolower (c : Z) : Z := if (65 <=? c) && (c <=? 90) then u8 (Z.lor c 0x20) else c.
(* src/src/core/dfs_string.h:41-41 (string_xxctoupper) *)
Definition string_xxctoupper (c : Z) : Z := if (97 <=? c) && (c <=? 122) then u8 (Z.land c (Z.lnot 0x20)) else c.

(* src/src/core/dfs_string.cpp:4-13 (string_xxstrtolower) *)
Fixpoint string_xxstrtolower (src : list Z) (n : nat) : option (list Z) :=
  match n with
  | O => Some []
  | S n => c ← head src; d ← string_xxstrtolower (tail src) n; Some (string_xxctolower c :: d)
  end.

(** The loop of [string_strskip_chars]: [chars] restarts after every skipped byte. *)
Fixpoint strskip_chars_loop (chars : list Z) (p : list Z) : option (list Z) :=
  match p with
  | [] => None
  | ch :: p' => if bool_decide (ch ∈ chars) then strskip_chars_loop chars p' else Some p
  end.

(* src/src/core/dfs_string.cpp:15-43 (string_strskip_chars) *)
Definition string_strskip_chars (p : option (list Z)) (chars : list Z) (len : nat) : option (option (list Z)) :=
  match p with
  | None => Some None
  | Some p => p' ← strskip_chars_loop (take len chars) p; Some (Some p')
  end.

(* src/src/core/dfs_string.cpp:45-58 (string_xxstrlchr) *)
Fixpoint string_xxstrlchr (p : list Z) (n : nat) (c : Z) (i : nat) : option (option nat) :=
  match n with
  | O => Some None
  | S n => b ← head p; if b =? c then Some (Some i) else string_xxstrlchr (tail p) n c (S i)
  end.

(** ** Comparison *)

(** [(c >= 'A' && c <= 'Z') ? (c | 0x20) : c] on a [uint32_t]. *)
Definition fold_case (c : Z) : Z := if (65 <=? c) && (c <=? 90) then Z.lor c 0x20 else c.

(* src/src/core/dfs_string.cpp:116-143 (string_xxstrncasecmp) *)
Fixpoint string_xxstrncasecmp (s1 s2 : list Z) (n : nat) : option Z :=
  match n with
  | O => Some 0
  | S n =>
      c1 ← head s1; c2 ← head s2;
      let c1 := fold_case c1 in
      let c2 := fold_case c2 in
      if c1 =? c2 then
        if negb (c1 =? 0) then string_xxstrncasecmp (tail s1) (tail s2) n else Some 0
      else Some (s32 (u32 (c1 - c2)))
  end.

(* src/src/core/dfs_string.cpp:541-564 (string_xxstrcasecmp) *)
Fixpoint string_xxstrcasecmp (s1 s2 : list Z) : option Z :=
  match s1, s2 with
  | c1 :: s1, c2 :: s2 =>
      let c1 := fold_case c1 in
      let c2 := fold_case c2 in
      if c1 =? c2 then
        if negb (c1 =? 0) then string_xxstrcasecmp s1 s2 else Some 0
      else Some (s32 (u32 (c1 - c2)))
  | _, _ => None
  end.

(** The body of [string_xxstrnrcmp] and [string_xxstrncasercmp]: from index [n] down. *)
Fixpoint strnrcmp_loop (f : Z -> Z) (s1 s2 : list Z) (n : nat) : option Z :=
  c1 ← s1 !! n; c2 ← s2 !! n;
  if negb (f c1 =? f c2) then Some (f c1 - f c2)
  else match n with O => Some 0 | S n => strnrcmp_loop f s1 s2 n end.

(* src/src/core/dfs_string.cpp:738-761 (string_xxstrnrcmp) *)
Definition string_xxstrnrcmp (s1 s2 : list Z) (n : nat) : option Z :=
  match n with O => Some 0 | S n => strnrcmp_loop (fun c => c) s1 s2 n end.

(** [c -= 'a' - 'A'] on a lower-case [uchar_t]. *)
Definition fold_upper (c : Z) : Z := if (97 <=? c) && (c <=? 122) then u8 (c - (97 - 65)) else c.

(* src/src/core/dfs_string.cpp:763-800 (string_xxstrncasercmp) *)
Definition string_xxstrncasercmp (s1 s2 : list Z) (n : nat) : option Z :=
  match n with O => Some 0 | S n => strnrcmp_loop fold_upper s1 s2 n end.

(** ** Search *)

(** [strlen] and [strncmp] of the C library. *)
Fixpoint strlen (s : list Z) : option nat :=
  match s with
  | [] => None
  | c :: s => if c =? 0 then Some O else n ← strlen s; Some (S n)
  end.

Fixpoint strncmp (s1 s2 : list Z) (n : nat) : option Z :=
  match n with
  | O => Some 0
  | S n =>
      c1 ← head s1; c2 ← head s2;
      if negb (c1 =? c2) then Some (c1 - c2)
      else if c1 =? 0 then Some 0 else strncmp (tail s1) (tail s2) n
  end.

(** The nested [do ... while] loops of the search functions. At offset [i]: [stop i] ends the
    search before a byte is read, a NUL ends it when [nul] is set, [fold] is applied to the
    byte before it is compared with [c2], [short i] ends it before the rest is compared. *)
Section Search.
Context (stop : nat -> bool) (nul : bool) (fold : Z -> Z) (c2 : Z) (short : nat -> bool)
  (cmp : list Z -> option Z).

Fixpoint search_loop (i : nat) (s1 : list Z) : option (option nat) :=
  if stop i then Some None else
  match s1 with
  | [] => None
  | c1 :: s1 =>
      if nul && (c1 =? 0) then Some None
      else if fold c1 =? c2 then
        if short i then Some None
        else r ← cmp s1; if r =? 0 then Some (Some i) else search_loop (S i) s1
      else search_loop (S i) s1
  end.
End Search.

(* src/src/core/dfs_string.cpp:566-598 (string_xxstrnstr) *)
Definition string_xxstrnstr (s1 s2 : list Z) (len : nat) : option (option nat) :=
  c2 ← head s2;
  n ← strlen (tail s2);
  search_loop (fun i => bool_decide (len <= i)%nat) true (fun c => c) c2
    (fun i => bool_decide (len - S i < n)%nat) (fun s => strncmp s (tail s2) n) 0 s1.

(* src/src/core/dfs_string.cpp:605-625 (string_xxstrstrn) *)
Definition string_xxstrstrn (s1 s2 : list Z) (n : nat) : option (option nat) :=
  c2 ← head s2;
  search_loop (fun _ => false) true (fun c => c) c2 (fun _ => false) (fun s => strncmp s (tail s2) n) 0 s1.

(* src/src/core/dfs_string.cpp:656-678 (string_xxstrcasestrn) *)
Definition string_xxstrcasestrn (s1 s2 : list Z) (n : nat) : option (option nat) :=
  c2 ← head s2;
  search_loop (fun _ => false) true fold_case (fold_case c2) (fun _ => false)
    (fun s => string_xxstrncasecmp s (tail s2) (Z.to_nat (u64 (Z.of_nat n - 1)))) 0 s1.

(** [last] is given as the offset of the end from [s1]; [last -= n] may lie before [s1]. *)
(* src/src/core/dfs_string.cpp:685-710 (string_xxstrlcasestrn) *)
Definition string_xxstrlcasestrn (s1 : list Z) (last : nat) (s2 : list Z) (n : nat) : option (option nat) :=
  c2 ← head s2;
  search_loop (fun i => Z.of_nat last - Z.of_nat n <=? Z.of_nat i) false fold_case (fold_case c2)
    (fun _ => false) (fun s => string_xxstrncasecmp s (tail s2) n) 0 s1.

(* src/src/core/dfs_string.cpp:712-736 (string_xxstrlstrn) *)
Definition string_xxstrlstrn (s1 : list Z) (last : nat) (s2 : list Z) (n : nat) : option (option nat) :=
  c2 ← head s2;
  search_loop (fun i => Z.of_nat last - Z.of_nat n <=? Z.of_nat i) false fold_case (fold_case c2)
    (fun _ => false) (fun s => strncmp s (tail s2) n) 0 s1.

(** [memcmp] of the C library: the sign of the first difference. *)
Fixpoint memcmp (s1 s2 : list Z) (n : nat) : option Z :=
  match n with
  | O => Some 0
  | S n =>
      c1 ← head s1; c2 ← head s2;
      if negb (c1 =? c2) then Some (c1 - c2) else memcmp (tail s1) (tail s2) n
  end.

(* src/src/core/dfs_memory.cpp:58-82 (memory_n2cmp) *)
Definition memory_n2cmp (s1 s2 : list Z) (n1 n2 : nat) : option Z :=
  let '(n, z) := if bool_decide (n1 <= n2)%nat then (n1, -1) else (n2, 1) in
  m ← memcmp s1 s2 n;
  if negb (m =? 0) || bool_decide (n1 = n2) then Some m else Some z.

(** ** Numbers *)

Definition NGX_ERROR : Z := -1.
Definition is_digit (c : Z) : bool := (48 <=? c) && (c <=? 57).

(** The result of a signed operation, which must not overflow. *)
Definition signed_int (z : Z) : option Z := if bool_decide (is_s32 z) then Some z else None.
Definition signed_ssize (z : Z) : option Z := if bool_decide (is_s64 z) then Some z else None.

(** [for (value = 0; n--; line++)]: stop at the first byte that is not a digit. *)
Section SignedDigits.
Context (signed : Z -> option Z).

Fixpoint strtoi_loop (line : list Z) (n : nat) (value : Z) : option Z :=
  match n with
  | O => Some value
  | S n =>
      c ← head line;
      if negb (is_digit c) then Some value
      else v ← signed (value * 10); v ← signed (v + (c - 48)); strtoi_loop (tail line) n v
  end.

Definition strtoi_signed (line : list Z) (n : nat) : option Z :=
  match n with
  | O => Some 0
  | _ =>
      c ← head line;
      let negflag := c =? 45 in
      let line := if negflag then tail line else line in
      value ← strtoi_loop line n 0;
      if negflag then signed (- value) else Some value
  end.
End SignedDigits.

(* src/src/core/dfs_string.cpp:802-829 (string_xxstrtoi) *)
Definition string_xxstrtoi : list Z -> nat -> option Z := strtoi_signed signed_int.

(* src/src/core/dfs_string.cpp:872-899 (string_xxstrtossize) *)
Definition string_xxstrtossize : list Z -> nat -> option Z := strtoi_signed signed_ssize.

Fixpoint strhextoi_loop (line : list Z) (n : nat) (value : Z) : option Z :=
  match n with
  | O => Some value
  | S n =>
      ch ← head line;
      if is_digit ch then
        v ← signed_int (value * 16); v ← signed_int (v + (ch - 48)); strhextoi_loop (tail line) n v
      else
        let c := u8 (Z.lor ch 0x20) in
        if (97 <=? c) && (c <=? 102) then
          v ← signed_int (value * 16); v ← signed_int (v + (c - 97 + 10)); strhextoi_loop (tail line) n v
        else Some value
  end.

(* src/src/core/dfs_string.cpp:831-870 (string_xxstrhextoi) *)
Definition string_xxstrhextoi (line : list Z) (n : nat) : option Z :=
  match n with
  | O => Some 0
  | _ =>
      c ← head line;
      let negflag := c =? 45 in
      let line := if negflag then tail line else line in
      value ← strhextoi_loop line n 0;
      if negflag then signed_int (- value) else Some value
  end.

(** The loop that fails on anything but a digit: an inner [None] is [return NGX_ERROR]. *)
Fixpoint strtoui_loop (wrap : Z -> option Z) (line : list Z) (n : nat) (value : Z) : option (option Z) :=
  match n with
  | O => Some (Some value)
  | S n =>
      c ← head line;
      if negb (is_digit c) then Some None
      else v ← wrap (value * 10); v ← wrap (v + (c - 48)); strtoui_loop wrap (tail line) n v
  end.

(* src/src/core/dfs_string.cpp:902-922 (string_xxstrtoui) *)
Definition string_xxstrtoui (line : list Z) (n : nat) : option Z :=
  match n with
  | O => Some (u32 NGX_ERROR)
  | _ => r ← strtoui_loop (fun z => Some (u32 z)) line n 0; Some (default (u32 NGX_ERROR) r)
  end.

(* src/src/core/dfs_string.cpp:924-944 (string_xxstrtosize) *)
Definition string_xxstrtosize (line : list Z) (n : nat) : option Z :=
  match n with
  | O => Some (u64 NGX_ERROR)
  | _ => r ← strtoui_loop (fun z => Some (u64 z)) line n 0; Some (default (u64 NGX_ERROR) r)
  end.

(* src/src/core/dfs_string.cpp:946-966 (string_xxstrtotime) *)
Definition string_xxstrtotime (line : list Z) (n : nat) : option Z :=
  match n with
  | O => Some NGX_ERROR
  | _ => r ← strtoui_loop signed_ssize line n 0; Some (default NGX_ERROR r)
  end.

(** [static uchar_t hex[] = "0123456789abcdef"]. *)
Definition hex : list Z := [48; 49; 50; 51; 52; 53; 54; 55; 56; 57; 97; 98; 99; 100; 101; 102].

(* src/src/core/dfs_string.cpp:968-979 (string_xxstrtohex) *)
Fixpoint string_xxstrtohex (src : list Z) (len : nat) : option (list Z) :=
  match len with
  | O => Some []
  | S len =>
      c ← head src;
      d ← string_xxstrtohex (tail src) len;
      Some (tbl hex (Z.shiftr c 4) :: tbl hex (Z.land c 0xf) :: d)
  end.

(** ** Comparison is lexicographic *)

(** The bytes of a C string, up to its NUL. *)
Fixpoint cstr (s : list Z) : list Z :=
  match s with
  | [] => []
  | c :: s => if c =? 0 then [] else c :: cstr s
  end.

Definition bytes (s : list Z) : Prop := Forall is_u8 s.

(** [n] bytes, or a NUL before them, can be read. *)
Definition readable (s : list Z) (n : nat) : Prop := (n <= length s)%nat \/ 0 ∈ s.

Definition byte_compare : list Z -> list Z -> comparison := List.list_compare Z.compare.

Lemma s32_u32 z : s32 (u32 z) = s32 z.
Proof. unfold s32, u32. f_equal. rewrite Zplus_mod_idemp_l. done. Qed.

Lemma fold_case_range c : is_u8 c -> is_u8 (fold_case c).
Proof.
  intros Hc. apply (bool_decide_eq_true_1 (is_u8 (fold_case c))).
  exact (forall_below_Z 256 (fun c => bool_decide (is_u8 (fold_case c))) eq_refl c Hc).
Qed.

Lemma fold_case_zero c : is_u8 c -> fold_case c = 0 <-> c = 0.
Proof.
  intros Hc. split; [|by intros ->]. intros E.
  assert (implb (fold_case c =? 0) (c =? 0) = true) as H; [|lia].
  exact (forall_below_Z 256 (fun c => implb (fold_case c =? 0) (c =? 0)) eq_refl c Hc).
Qed.

Lemma byte_diff_sign c1 c2 : is_u8 c1 -> is_u8 c2 -> (s32 (u32 (c1 - c2)) ?= 0) = (c1 ?= c2).
Proof.
  unfold is_u8. intros H1 H2. rewrite s32_u32, s32_small by (unfold is_s32; lia).
  destruct (Z.compare_spec (c1 - c2) 0), (Z.compare_spec c1 c2); lia || done.
Qed.

Lemma readable_cons s n : readable s (S n) -> exists c t, s = c :: t /\ (c = 0 \/ readable t n).
Proof.
  unfold readable. destruct s as [|c t]; simpl; [intros [? | ?%elem_of_nil]; [lia | done] |].
  intros H. exists c, t. split; [done |]. rewrite elem_of_cons in H.
  destruct H as [H | [<- | H]]; [right; left; lia | by left | by right; right].
Qed.

Lemma byte_compare_cons a s b t :
  byte_compare (a :: s) (b :: t) = match a ?= b with Eq => byte_compare s t | c => c end.
Proof. reflexivity. Qed.

Lemma byte_compare_head a s b t : a <> b -> byte_compare (a :: s) (b :: t) = (a ?= b).
Proof. intros. rewrite byte_compare_cons. destruct (Z.compare_spec a b); done. Qed.

Lemma strncasecmp_spec n s1 s2 :
  bytes s1 -> bytes s2 -> readable s1 n -> readable s2 n ->
  exists r, string_xxstrncasecmp s1 s2 n = Some r /\
    (r ?= 0) = byte_compare (fold_case <$> cstr (take n s1)) (fold_case <$> cstr (take n s2)).
Proof.
  revert s1 s2. induction n as [|n IH]; intros s1 s2 Hb1 Hb2 Hr1 Hr2; [by exists 0 |].
  apply readable_cons in Hr1 as (c1 & t1 & -> & Hr1), Hr2 as (c2 & t2 & -> & Hr2).
  apply Forall_cons in Hb1 as [Hc1 Hb1], Hb2 as [Hc2 Hb2].
  cbn [string_xxstrncasecmp head tail mbind option_bind take firstn cstr].
  pose proof (fold_case_zero c1 Hc1) as Z1. pose proof (fold_case_zero c2 Hc2) as Z2.
  pose proof (byte_diff_sign _ _ (fold_case_range _ Hc1) (fold_case_range _ Hc2)) as Hs.
  destruct (Z.eqb_spec (fold_case c1) (fold_case c2)) as [E | E].
  - destruct (Z.eqb_spec (fold_case c1) 0) as [E0 | E0]; cbn [negb].
    + exists 0. rewrite (proj2 (Z.eqb_eq c1 0)), (proj2 (Z.eqb_eq c2 0)) by (apply Z1 + apply Z2; congruence).
      done.
    + assert (c1 <> 0 /\ c2 <> 0) as [N1 N2] by (split; intros ->; [tauto | apply E0; rewrite E; by apply Z2]).
      destruct (IH t1 t2 Hb1 Hb2) as (r & Hr & Hc); [tauto.. |]. exists r. split; [done |].
      rewrite (proj2 (Z.eqb_neq c1 0)), (proj2 (Z.eqb_neq c2 0)) by done. rewrite !fmap_cons, byte_compare_cons, E.
      by rewrite Z.compare_refl.
  - exists (s32 (u32 (fold_case c1 - fold_case c2))). split; [done |]. rewrite Hs.
    destruct (Z.eqb_spec c1 0) as [-> | N1], (Z.eqb_spec c2 0) as [-> | N2]; rewrite ?fmap_cons.
    + done.
    + change (fold_case 0) with 0. apply fold_case_range in Hc2. apply Z.compare_lt_iff. unfold is_u8 in Hc2. lia.
    + change (fold_case 0) with 0. apply fold_case_range in Hc1. apply Z.compare_gt_iff. unfold is_u8 in Hc1. lia.
    + by rewrite byte_compare_head.
Qed.

(** An unbounded comparison is one bounded by more than the shorter string. *)
Lemma strcasecmp_bounded s1 s2 n :
  (length s1 <= n)%nat -> 0 ∈ s1 -> 0 ∈ s2 -> bytes s1 -> bytes s2 ->
  string_xxstrcasecmp s1 s2 = string_xxstrncasecmp s1 s2 n.
Proof.
  revert s2 n. induction s1 as [|c1 s1 IH]; intros s2 n Hn H1 H2 Hb1 Hb2; [by apply elem_of_nil in H1 |].
  destruct s2 as [|c2 s2]; [by apply elem_of_nil in H2 |]. destruct n as [|n]; simpl in Hn; [lia |].
  apply Forall_cons in Hb1 as [Hc1 Hb1], Hb2 as [Hc2 Hb2].
  cbn [string_xxstrcasecmp string_xxstrncasecmp head tail mbind option_bind].
  destruct (Z.eqb_spec (fold_case c1) (fold_case c2)) as [E | E]; [|done].
  destruct (Z.eqb_spec (fold_case c1) 0) as [E0 | E0]; [done |]. cbn [negb].
  apply IH; [lia | | | done..].
  - apply elem_of_cons in H1 as [<- | H1]; [|done]. by destruct E0.
  - apply elem_of_cons in H2 as [<- | H2]; [|done]. by destruct E0; rewrite E.
Qed.

Lemma memcmp_spec n s1 s2 :
  (n <= length s1)%nat -> (n <= length s2)%nat ->
  exists r, memcmp s1 s2 n = Some r /\ (r ?= 0) = byte_compare (take n s1) (take n s2).
Proof.
  revert s1 s2. induction n as [|n IH]; intros s1 s2 H1 H2; [by exists 0 |].
  destruct s1 as [|c1 s1], s2 as [|c2 s2]; simpl in H1, H2; try lia.
  cbn [memcmp head tail mbind option_bind take firstn]. destruct (Z.eqb_spec c1 c2) as [-> | E]; cbn [negb].
  - destruct (IH s1 s2) as (r & Hr & Hc); [lia.. |]. exists r. rewrite byte_compare_cons, Z.compare_refl. done.
  - exists (c1 - c2). split; [done |]. rewrite byte_compare_head by done.
    destruct (Z.compare_spec (c1 - c2) 0), (Z.compare_spec c1 c2); lia || done.
Qed.

(** Strings of different lengths that agree as far as the shorter goes. *)
Lemma byte_compare_prefix s t1 t2 :
  byte_compare (s ++ t1) (s ++ t2) = byte_compare t1 t2.
Proof. induction s as [|c s IH]; [done |]. simpl app. by rewrite byte_compare_cons, Z.compare_refl. Qed.

Lemma byte_compare_eq s t : byte_compare s t = Eq <-> s = t.
Proof.
  revert t. induction s as [|a s IH]; intros [|b t]; try done.
  rewrite byte_compare_cons. destruct (Z.compare_spec a b) as [-> | |].
  - rewrite IH. split; [by intros -> | by intros [=]].
  - split; [done | intros [= -> _]; lia].
  - split; [done | intros [= -> _]; lia].
Qed.

Lemma byte_compare_ne s1 s2 t1 t2 :
  length s1 = length s2 -> byte_compare s1 s2 <> Eq -> byte_compare (s1 ++ t1) (s2 ++ t2) = byte_compare s1 s2.
Proof.
  revert s2. induction s1 as [|a s1 IH]; intros [|b s2] Hl Hne; try done. simpl app.
  rewrite !byte_compare_cons in *. destruct (a ?= b); [|done..]. apply IH; [by injection Hl | done].
Qed.

Lemma n2cmp_spec s1 s2 n1 n2 :
  (n1 <= length s1)%nat -> (n2 <= length s2)%nat ->
  exists r, memory_n2cmp s1 s2 n1 n2 = Some r /\ (r ?= 0) = byte_compare (take n1 s1) (take n2 s2).
Proof.
  intros H1 H2. unfold memory_n2cmp.
  assert (exists n z, (if bool_decide (n1 <= n2)%nat then (n1, -1) else (n2, 1)) = (n, z) /\
    n = (n1 `min` n2)%nat /\ ((n1 < n2)%nat -> z = -1) /\ ((n2 < n1)%nat -> z = 1)) as (n & z & -> & Hn & Hz1 & Hz2).
  { case_bool_decide; do 2 eexists; (split; [done |]); lia. }
  destruct (memcmp_spec n s1 s2) as (m & -> & Hm); [lia.. |]. cbn [mbind option_bind].
  rewrite <- (take_drop n (take n1 s1)), <- (take_drop n (take n2 s2)), !take_take.
  replace (n `min` n1)%nat with n by lia. replace (n `min` n2)%nat with n by lia.
  assert (length (take n s1) = length (take n s2)) as Hl by (rewrite !length_take; lia).
  destruct (Z.eqb_spec m 0) as [-> | Hm0]; cbn [negb orb].
  - symmetry in Hm. change (0 ?= 0) with Eq in Hm. apply byte_compare_eq in Hm. rewrite Hm, byte_compare_prefix.
    case_bool_decide as E.
    + exists 0. split; [done |]. rewrite !skipn_firstn_comm. replace (n1 - n)%nat with 0%nat by lia.
      by replace (n2 - n)%nat with 0%nat by lia.
    + exists z. split; [done |]. destruct (lt_dec n1 n2).
      * rewrite Hz1 by done. rewrite (drop_ge (take n1 s1)) by (rewrite length_take; lia).
        destruct (drop n (take n2 s2)) eqn:Ed; [|done]. apply (f_equal length) in Ed.
        rewrite length_drop, length_take in Ed. simpl in Ed. lia.
      * rewrite Hz2 by lia. rewrite (drop_ge (take n2 s2)) by (rewrite length_take; lia).
        destruct (drop n (take n1 s1)) eqn:Ed; [|done]. apply (f_equal length) in Ed.
        rewrite length_drop, length_take in Ed. simpl in Ed. lia.
  - exists m. split; [done |]. rewrite byte_compare_ne; [done.. |]. rewrite <- Hm.
    by destruct (Z.compare_spec m 0).
Qed.

(** ** Search finds the first match *)

(** At offset [j] the first byte of the pattern matches after [f], the rest after [g]. *)
Definition matches (f g : Z -> Z) (c2 : Z) (t2 hay : list Z) (j : nat) : Prop :=
  exists c rest, drop j hay = c :: rest /\ f c = c2 /\ take (length t2) (g <$> rest) = t2.

(** [r] is the least offset, counted from [i], at which [P] holds. *)
Definition least (P : nat -> Prop) (i : nat) (r : option nat) : Prop :=
  match r with
  | Some k => exists j, k = (i + j)%nat /\ P j /\ forall j', (j' < j)%nat -> ~ P j'
  | None => forall j, ~ P j
  end.

Lemma least_shift P Q i r :
  ~ P 0%nat -> (forall j, P (S j) <-> Q j) -> least Q (S i) r -> least P i r.
Proof.
  intros H0 HPQ. destruct r as [k|]; simpl.
  - intros (j & -> & Hj & Hl). exists (S j). split; [lia |]. split; [by apply HPQ |].
    intros [|j'] Hj'; [done |]. rewrite HPQ. apply Hl. lia.
  - intros Hn [|j]; [done |]. by rewrite HPQ.
Qed.

Lemma matches_length f g c2 t2 hay j : matches f g c2 t2 hay j -> (length t2 < length hay)%nat.
Proof.
  intros (c & rest & Hd & _ & Ht). apply (f_equal length) in Hd, Ht.
  rewrite length_take, length_fmap in Ht. rewrite length_drop in Hd. simpl in Hd. lia.
Qed.

Lemma matches_cons f g c2 t2 c hay j : matches f g c2 t2 (c :: hay) (S j) <-> matches f g c2 t2 hay j.
Proof. done. Qed.

Section SearchSpec.
Context (stop : nat -> bool) (nul : bool) (f g : Z -> Z) (c2 : Z) (t2 : list Z) (short : nat -> bool)
  (cmp : list Z -> option Z).
(** [hay i s] is the text searched, from offset [i], when the bytes from there on are [s];
    [ok i s] says that enough of them can be read. *)
Context (hay : nat -> list Z -> list Z) (ok : nat -> list Z -> Prop).
Context (hay_stop : forall i s, ok i s -> stop i = true -> (length (hay i s) <= length t2)%nat).
Context (hay_step : forall i s, ok i s -> stop i = false -> exists c s', s = c :: s' /\
  if nul && (c =? 0) then hay i s = []
  else hay i s = c :: hay (S i) s' /\ ok (S i) s' /\
    if short i then (length (hay (S i) s') < length t2)%nat
    else exists r, cmp s' = Some r /\ (r = 0 <-> take (length t2) (g <$> hay (S i) s') = t2)).

Lemma search_loop_spec s i :
  ok i s -> exists r, search_loop stop nul f c2 short cmp i s = Some r /\ least (matches f g c2 t2 (hay i s)) i r.
Proof.
  revert i. induction s as [|c s IH]; intros i Hok.
  - cbn [search_loop]. destruct (stop i) eqn:Hst.
    + exists None. split; [done |]. intros j Hj%matches_length. specialize (hay_stop _ _ Hok Hst). lia.
    + by destruct (hay_step _ _ Hok Hst) as (c & s' & [=] & _).
  - cbn [search_loop]. destruct (stop i) eqn:Hst.
    { exists None. split; [done |]. intros j Hj%matches_length. specialize (hay_stop _ _ Hok Hst). lia. }
    destruct (hay_step _ _ Hok Hst) as (c' & s' & [= <- <-] & Hstep).
    destruct (nul && (c =? 0)) eqn:Hz.
    { rewrite Hstep. exists None. split; [done |]. intros j Hj%matches_length. simpl in Hj. lia. }
    destruct Hstep as (-> & Hok' & Hcmp).
    assert (forall r, ~ matches f g c2 t2 (c :: hay (S i) s) 0 -> least (matches f g c2 t2 (hay (S i) s)) (S i) r ->
      least (matches f g c2 t2 (c :: hay (S i) s)) i r) as Hshift.
    { intros r H0. apply least_shift; [done |]. intros j. apply matches_cons. }
    destruct (Z.eqb_spec (f c) c2) as [Hc | Hc].
    + destruct (short i).
      * exists None. split; [done |]. intros j Hj%matches_length. simpl in Hj. lia.
      * destruct Hcmp as (r & -> & Hr). cbn [mbind option_bind]. destruct (Z.eqb_spec r 0) as [E | E].
        -- exists (Some i). split; [done |]. exists 0%nat. split; [lia |]. split; [|lia].
           exists c, (hay (S i) s). split; [done |]. split; [done |]. by apply Hr.
        -- destruct (IH (S i) Hok') as (r' & -> & Hl). exists r'. split; [done |]. apply Hshift; [|done].
           intros (c' & rest & [= <- <-] & _ & Ht). by apply E, Hr.
    + destruct (IH (S i) Hok') as (r' & -> & Hl). exists r'. split; [done |]. apply Hshift; [|done].
      by intros (c' & rest & [= <- <-] & ? & _).
Qed.
End SearchSpec.

Lemma strlen_spec s : 0 ∈ s -> strlen s = Some (length (cstr s)).
Proof.
  induction s as [|c s IH]; [by intros ?%elem_of_nil |]. intros [<- | H]%elem_of_cons; [done |].
  simpl. destruct (c =? 0); [done |]. by rewrite (IH H).
Qed.

(** A bounded comparison against a pattern without NUL succeeds exactly on that prefix. *)
Lemma strncmp_prefix p t s n :
  Forall (fun c => c <> 0) p -> n = length p -> readable s n ->
  exists r, strncmp s (p ++ t) n = Some r /\ (r = 0 <-> take n (cstr s) = p).
Proof.
  intros Hp ->. revert s. induction p as [|b p IH]; intros s Hr; [by exists 0 |].
  apply Forall_cons in Hp as [Hb Hp]. apply readable_cons in Hr as (c & s' & -> & Hr).
  cbn [length strncmp head tail app mbind option_bind cstr]. destruct (Z.eqb_spec c b) as [-> | E]; cbn [negb].
  - rewrite (proj2 (Z.eqb_neq b 0) Hb). destruct (IH Hp s') as (r & Hr' & Hiff); [by destruct Hr |].
    exists r. split; [done |]. rewrite Hiff. cbn [take firstn]. split; [by intros -> | by intros [=]].
  - exists (c - b). split; [done |]. destruct (Z.eqb_spec c 0) as [-> | Hc].
    + split; [lia | done].
    + cbn [take firstn]. split; [lia | intros [= ? _]; lia].
Qed.

Lemma strncasecmp_prefix p t s n :
  Forall (fun c => is_u8 c /\ c <> 0) p -> bytes s -> n = length p -> readable s n ->
  exists r, string_xxstrncasecmp s (p ++ t) n = Some r /\ (r = 0 <-> take n (fold_case <$> s) = fold_case <$> p).
Proof.
  intros Hp Hs ->. revert s Hs. induction p as [|b p IH]; intros s Hs Hr; [by exists 0 |].
  apply Forall_cons in Hp as [[Hb Hb0] Hp]. apply readable_cons in Hr as (c & s' & -> & Hr).
  apply Forall_cons in Hs as [Hc Hs].
  cbn [length string_xxstrncasecmp head tail app mbind option_bind]. rewrite !fmap_cons. cbn [take firstn].
  destruct (Z.eqb_spec (fold_case c) (fold_case b)) as [E | E].
  - destruct (Z.eqb_spec (fold_case c) 0) as [E0 | E0]; cbn [negb].
    { rewrite E0 in E. symmetry in E. by apply (fold_case_zero b Hb) in E. }
    destruct (IH Hp s' Hs) as (r & Hr' & Hiff).
    { destruct Hr as [-> |]; [by destruct E0 | done]. }
    exists r. split; [done |]. rewrite Hiff, E. split; [by intros -> | by intros [=]].
  - exists (s32 (u32 (fold_case c - fold_case b))). split; [done |].
    pose proof (fold_case_range _ Hb) as R1. pose proof (fold_case_range _ Hc) as R2. unfold is_u8 in R1, R2.
    rewrite s32_u32, s32_small by (unfold is_s32; lia). split; [lia | intros [= ? _]; lia].
Qed.

Lemma strncasecmp_prefix_cstr p t s n :
  Forall (fun c => is_u8 c /\ c <> 0) p -> bytes s -> n = length p -> readable s n ->
  exists r, string_xxstrncasecmp s (p ++ t) n = Some r /\ (r = 0 <-> take n (fold_case <$> cstr s) = fold_case <$> p).
Proof.
  intros Hp Hs -> Hr. destruct (strncasecmp_prefix p t s (length p) Hp Hs eq_refl Hr) as (r & Hc & Hiff).
  exists r. split; [done |]. rewrite Hiff. clear - Hp Hs. revert s Hs.
  induction Hp as [|b p [Hb Hb0] Hp IH]; intros s Hs; [done |]. destruct Hs as [|c s Hc Hs]; [done |].
  cbn [length cstr]. rewrite !fmap_cons. cbn [take firstn]. destruct (Z.eqb_spec c 0) as [-> | Hc0].
  - split; [|done]. intros [= E _]. change (fold_case 0) with 0 in E. symmetry in E. by apply (fold_case_zero b Hb) in E.
  - rewrite fmap_cons. cbn [take firstn]. destruct (IH s Hs) as [I1 I2].
    split; intros [= E H]; rewrite E; f_equal; auto.
Qed.

Lemma cstr_take_length s n : (length (cstr (take n s)) <= n)%nat.
Proof.
  revert n. induction s as [|c s IH]; intros [|n]; simpl; [lia.. |].
  destruct (c =? 0); simpl; [lia |]. specialize (IH n). lia.
Qed.

Lemma take_cstr s n : take n (cstr s) = cstr (take n s).
Proof.
  revert n. induction s as [|c s IH]; intros [|n]; simpl; [done.. | by destruct (c =? 0) |].
  destruct (c =? 0); [done |]. simpl. by rewrite IH.
Qed.

Lemma readable_le s n k : readable s n -> (k <= n)%nat -> readable s k.
Proof. intros [H | H] Hk; [left; lia | by right]. Qed.

(** [string_xxstrnstr]: the pattern [c2 :: t2] is NUL-terminated and not empty. *)
Lemma strnstr_spec s1 c2 t2 rest len :
  Forall (fun c => c <> 0) (c2 :: t2) -> readable s1 len ->
  exists r, string_xxstrnstr s1 (c2 :: t2 ++ 0 :: rest) len = Some r /\
    least (matches id id c2 t2 (cstr (take len s1))) 0 r.
Proof.
  intros [_ Hp]%Forall_cons Hr. unfold string_xxstrnstr. cbn [head tail mbind option_bind].
  assert (cstr (t2 ++ 0 :: rest) = t2) as Ec.
  { clear - Hp. induction Hp as [|c p Hc Hp IH]; [done |]. simpl. rewrite (proj2 (Z.eqb_neq c 0) Hc). by f_equal. }
  rewrite strlen_spec by (apply elem_of_app; right; by left). rewrite Ec. cbn [mbind option_bind].
  set (hay := fun i s => cstr (take (len - i) s)).
  replace (cstr (take len s1)) with (hay 0%nat s1) by (unfold hay; by rewrite Nat.sub_0_r).
  apply (search_loop_spec _ _ _ id _ _ _ _ hay (fun i s => readable s (len - i))).
  - intros i s _ Hst%bool_decide_eq_true. unfold hay. replace (len - i)%nat with 0%nat by lia. simpl. lia.
  - intros i s Hok Hst%bool_decide_eq_false. unfold hay in *.
    replace (len - i)%nat with (S (len - S i)) in * by lia.
    apply readable_cons in Hok as (c & s' & -> & Hok). exists c, s'. split; [done |]. cbn [andb take firstn cstr].
    destruct (Z.eqb_spec c 0) as [-> | Hc]; [done |]. destruct Hok as [|Hok]; [done |].
    split; [done |]. split; [done |]. case_bool_decide as Hn.
    + pose proof (cstr_take_length s' (len - S i)). lia.
    + destruct (strncmp_prefix t2 (0 :: rest) s' (length t2) Hp eq_refl) as (r & Hcmp & Hiff).
      { eapply readable_le; [exact Hok | lia]. }
      exists r. split; [done |]. rewrite Hiff. rewrite list_fmap_id, <- take_cstr, take_take.
      by replace (length t2 `min` (len - S i))%nat with (length t2) by lia.
  - by rewrite Nat.sub_0_r.
Qed.

(** [string_xxstrstrn]: the text is NUL-terminated, the pattern is [c2 :: t2]. *)
Lemma strstrn_spec s1 c2 t2 rest :
  Forall (fun c => c <> 0) (c2 :: t2) -> 0 ∈ s1 ->
  exists r, string_xxstrstrn s1 (c2 :: t2 ++ rest) (length t2) = Some r /\
    least (matches id id c2 t2 (cstr s1)) 0 r.
Proof.
  intros [_ Hp]%Forall_cons Hr. unfold string_xxstrstrn. cbn [head tail mbind option_bind].
  apply (search_loop_spec _ _ _ id _ _ _ _ (fun _ => cstr) (fun _ s => 0 ∈ s)); [done | | done].
  intros i s Hok _. destruct s as [|c s]; [by apply elem_of_nil in Hok |]. exists c, s. split; [done |].
  cbn [andb cstr]. destruct (Z.eqb_spec c 0) as [-> | Hc]; [done |].
  apply elem_of_cons in Hok as [|Hok]; [congruence |]. split; [done |]. split; [done |].
  destruct (strncmp_prefix t2 rest s (length t2) Hp eq_refl) as (r & Hcmp & Hiff); [by right |].
  exists r. split; [done |]. by rewrite Hiff, list_fmap_id.
Qed.

(** Searching up to [last]: the text may hold NULs. *)
Lemma strlcasestrn_spec s1 last c2 t2 rest :
  Forall (fun c => is_u8 c /\ c <> 0) (c2 :: t2) -> bytes s1 -> (last <= length s1)%nat ->
  exists r, string_xxstrlcasestrn s1 last (c2 :: t2 ++ rest) (length t2) = Some r /\
    least (matches fold_case fold_case (fold_case c2) (fold_case <$> t2) (take last s1)) 0 r.
Proof.
  intros [_ Hp]%Forall_cons Hb Hr. unfold string_xxstrlcasestrn. cbn [head tail mbind option_bind].
  replace (take last s1) with (take (last - 0) s1) by (by rewrite Nat.sub_0_r).
  apply (search_loop_spec _ _ _ fold_case _ _ _ _ (fun i s => take (last - i) s)
    (fun i s => bytes s /\ (last - i <= length s)%nat)); rewrite ?length_fmap.
  - intros i s _ Hst. cbv beta in Hst. rewrite length_take. lia.
  - intros i s [Hbs Hok] Hst. cbv beta in Hst. apply Z.leb_gt in Hst. replace (last - i)%nat with (S (last - S i)) in * by lia.
    destruct s as [|c s]; simpl in Hok; [lia |]. apply Forall_cons in Hbs as [_ Hbs].
    exists c, s. split; [done |]. cbn [andb]. split; [done |]. split; [split; [done | lia] |].
    destruct (strncasecmp_prefix t2 rest s (length t2) Hp Hbs eq_refl) as (r & Hcmp & Hiff); [left; lia |].
    exists r. split; [done |]. rewrite Hiff, fmap_take, take_take.
    by replace (length t2 `min` (last - S i))%nat with (length t2) by lia.
  - split; [done | lia].
Qed.

(** [string_xxstrcasestrn] passes [n - 1] to the comparison: with the documented
    [n], the length of the pattern less one, the last byte [b] is never compared. *)
Lemma strcasestrn_spec s1 c2 t2 b rest :
  Forall (fun c => is_u8 c /\ c <> 0) (c2 :: t2) -> bytes s1 -> 0 ∈ s1 -> Z.of_nat (length t2) < 2 ^ 64 ->
  exists r, string_xxstrcasestrn s1 (c2 :: t2 ++ b :: rest) (length (t2 ++ [b])) = Some r /\
    least (matches fold_case fold_case (fold_case c2) (fold_case <$> t2) (cstr s1)) 0 r.
Proof.
  intros [_ Hp]%Forall_cons Hb Hr Hlen. unfold string_xxstrcasestrn. cbn [head tail mbind option_bind].
  replace (Z.to_nat (u64 (Z.of_nat (length (t2 ++ [b])) - 1))) with (length t2).
  2:{ rewrite length_app. simpl. rewrite u64_small by (unfold is_u64; lia). lia. }
  apply (search_loop_spec _ _ _ fold_case _ _ _ _ (fun _ => cstr) (fun _ s => bytes s /\ 0 ∈ s));
    rewrite ?length_fmap; [done | | done].
  intros i s [Hbs Hok] _. destruct s as [|c s]; [by apply elem_of_nil in Hok |]. exists c, s. split; [done |].
  cbn [andb cstr]. destruct (Z.eqb_spec c 0) as [-> | Hc]; [done |].
  apply elem_of_cons in Hok as [|Hok]; [congruence |]. apply Forall_cons in Hbs as [_ Hbs].
  split; [done |]. split; [done |].
  destruct (strncasecmp_prefix_cstr t2 (b :: rest) s (length t2) Hp Hbs eq_refl) as (r & Hcmp & Hiff); [by right |].
  by exists r.
Qed.

Lemma take_cstr_prefix p s :
  Forall (fun c => c <> 0) p -> take (length p) (cstr s) = p <-> take (length p) s = p.
Proof.
  revert s. induction p as [|b p IH]; intros s Hp; [done |]. apply Forall_cons in Hp as [Hb Hp].
  destruct s as [|c s]; [done |]. cbn [cstr length take firstn]. destruct (Z.eqb_spec c 0) as [-> | Hc].
  - split; [done | intros [= E _]; congruence].
  - cbn [take firstn]. destruct (IH s Hp) as [I1 I2].
    split; intros [= E H]; rewrite E; f_equal; auto.
Qed.

Lemma strlstrn_spec s1 last c2 t2 rest :
  Forall (fun c => c <> 0) (c2 :: t2) -> (last <= length s1)%nat ->
  exists r, string_xxstrlstrn s1 last (c2 :: t2 ++ rest) (length t2) = Some r /\
    least (matches fold_case id (fold_case c2) t2 (take last s1)) 0 r.
Proof.
  intros [_ Hp]%Forall_cons Hr. unfold string_xxstrlstrn. cbn [head tail mbind option_bind].
  replace (take last s1) with (take (last - 0) s1) by (by rewrite Nat.sub_0_r).
  apply (search_loop_spec _ _ _ id _ _ _ _ (fun i s => take (last - i) s)
    (fun i s => (last - i <= length s)%nat)).
  - intros i s _ Hst. cbv beta in Hst. rewrite length_take. lia.
  - intros i s Hok Hst. cbv beta in Hst. apply Z.leb_gt in Hst. replace (last - i)%nat with (S (last - S i)) in * by lia.
    destruct s as [|c s]; simpl in Hok; [lia |].
    exists c, s. split; [done |]. cbn [andb]. split; [done |]. split; [lia |].
    destruct (strncmp_prefix t2 rest s (length t2) Hp eq_refl) as (r & Hcmp & Hiff); [left; lia |].
    exists r. split; [done |]. rewrite Hiff, list_fmap_id, take_take.
    replace (length t2 `min` (last - S i))%nat with (length t2) by lia. by apply take_cstr_prefix.
  - lia.
Qed.

(** ** Comparison from the end *)

Lemma strnrcmp_loop_spec f n s1 s2 :
  (S n <= length s1)%nat -> (S n <= length s2)%nat ->
  exists r, strnrcmp_loop f s1 s2 n = Some r /\
    (r ?= 0) = byte_compare (f <$> reverse (take (S n) s1)) (f <$> reverse (take (S n) s2)).
Proof.
  revert s1 s2. induction n as [|n IH]; intros s1 s2 H1 H2; unfold strnrcmp_loop; fold strnrcmp_loop;
    (destruct (lookup_lt_is_Some_2 s1 _ H1) as [c1 E1]; destruct (lookup_lt_is_Some_2 s2 _ H2) as [c2 E2]);
    rewrite E1, E2; cbn [mbind option_bind]; rewrite (take_S_r _ _ _ E1), (take_S_r _ _ _ E2), !reverse_snoc, !fmap_cons;
    (destruct (Z.eqb_spec (f c1) (f c2)) as [E | E]; cbn [negb]).
  - exists 0. rewrite E, byte_compare_cons, !Z.compare_refl. split; reflexivity.
  - exists (f c1 - f c2). split; [done |]. rewrite byte_compare_head by done.
    destruct (Z.compare_spec (f c1 - f c2) 0), (Z.compare_spec (f c1) (f c2)); lia || done.
  - rewrite E, byte_compare_cons, Z.compare_refl. apply IH; lia.
  - exists (f c1 - f c2). split; [done |]. rewrite byte_compare_head by done.
    destruct (Z.compare_spec (f c1 - f c2) 0), (Z.compare_spec (f c1) (f c2)); lia || done.
Qed.

Lemma strnrcmp_spec n s1 s2 :
  (n <= length s1)%nat -> (n <= length s2)%nat ->
  exists r, string_xxstrnrcmp s1 s2 n = Some r /\
    (r ?= 0) = byte_compare (reverse (take n s1)) (reverse (take n s2)).
Proof.
  intros H1 H2. destruct n as [|n]; [by exists 0 |].
  destruct (strnrcmp_loop_spec id n s1 s2 H1 H2) as (r & Hr & Hc). exists r. by rewrite !list_fmap_id in Hc.
Qed.

Lemma strncasercmp_spec n s1 s2 :
  (n <= length s1)%nat -> (n <= length s2)%nat ->
  exists r, string_xxstrncasercmp s1 s2 n = Some r /\
    (r ?= 0) = byte_compare (fold_upper <$> reverse (take n s1)) (fold_upper <$> reverse (take n s2)).
Proof.
  intros H1 H2. destruct n as [|n]; [by exists 0 |]. by apply strnrcmp_loop_spec.
Qed.

(** ** Numbers *)

(** The digits [0 .. 9] of a number, most significant first, and their bytes. *)
Definition dec_from (v : Z) (ds : list Z) : Z := foldl (fun v d => v * 10 + d) v ds.
Definition dec_value : list Z -> Z := dec_from 0.
Definition digits (ds : list Z) : Prop := Forall (fun d => 0 <= d <= 9) ds.
Definition digit_bytes (ds : list Z) : list Z := (fun d => 48 + d) <$> ds.

(** What follows the digits when the length does not end them. *)
Definition ends_digits (rest : list Z) : Prop := exists c t, rest = c :: t /\ is_digit c = false.

Lemma is_digit_byte d : 0 <= d <= 9 -> is_digit (48 + d) = true.
Proof. unfold is_digit. lia. Qed.

Lemma dec_from_ge v ds : 0 <= v -> digits ds -> v <= dec_from v ds.
Proof.
  intros Hv Hd. revert v Hv. induction Hd as [|d ds Hd Hds IH]; intros v Hv; [done |].
  change (v <= dec_from (v * 10 + d) ds). specialize (IH (v * 10 + d)). lia.
Qed.

Section SignedSpec.
Context (lim : Z) (signed : Z -> option Z).
Context (signed_in : forall z, - lim <= z < lim -> signed z = Some z).
Context (signed_out : forall z, lim <= z -> signed z = None).
Context (Hlim : 0 < lim).

(** The loop computes the decimal value, or stops at the overflow. *)
Lemma strtoi_loop_spec n ds rest v :
  digits ds -> 0 <= v < lim -> n = length ds \/ (length ds < n)%nat /\ ends_digits rest ->
  strtoi_loop signed (digit_bytes ds ++ rest) n v = signed (dec_from v ds).
Proof.
  intros Hd. revert n v. induction Hd as [|d ds Hd Hds IH]; intros n v Hv Hn.
  - change (dec_from v []) with v. rewrite signed_in by lia. destruct Hn as [-> | [Hn (c & t & -> & Hc)]]; [done |].
    destruct n as [|n]; simpl in Hn; [lia |]. cbn. by rewrite Hc.
  - destruct n as [|n]; [destruct Hn as [|[? _]]; simpl in *; lia |].
    cbn [digit_bytes fmap list_fmap app strtoi_loop head tail mbind option_bind].
    rewrite is_digit_byte by done. cbn [negb]. change (dec_from v (d :: ds)) with (dec_from (v * 10 + d) ds).
    replace (48 + d - 48) with d by lia.
    pose proof (dec_from_ge (v * 10 + d) ds ltac:(lia) Hds) as Hge.
    destruct (Z_lt_le_dec (v * 10) lim) as [H1 | H1].
    + rewrite signed_in by lia. cbn [mbind option_bind]. destruct (Z_lt_le_dec (v * 10 + d) lim) as [H2 | H2].
      * rewrite signed_in by lia. cbn [mbind option_bind]. apply IH; [lia |]. simpl in Hn.
        destruct Hn as [[= ->] | [? ?]]; [by left | right; split; [lia | done]].
      * rewrite signed_out by lia. by rewrite signed_out by lia.
    + rewrite signed_out by lia. by rewrite signed_out by lia.
Qed.

Lemma strtoi_signed_spec n ds rest :
  digits ds -> ds <> [] -> n = length ds \/ (length ds < n)%nat /\ ends_digits rest ->
  strtoi_signed signed (digit_bytes ds ++ rest) n = signed (dec_value ds).
Proof.
  intros Hd Hne Hn. unfold dec_value. rewrite <- (strtoi_loop_spec n ds rest 0 Hd ltac:(lia) Hn).
  destruct ds as [|d ds]; [done |]. apply Forall_cons in Hd as [Hd _].
  destruct n as [|n]; [destruct Hn as [|[? _]]; simpl in *; lia |].
  unfold strtoi_signed. cbn [digit_bytes fmap list_fmap app head mbind option_bind].
  rewrite (proj2 (Z.eqb_neq (48 + d) 45)) by lia.
  by destruct (strtoi_loop signed _ _ _).
Qed.

(** A minus sign: the length still counts it when the loop starts behind it. *)
Lemma strtoi_signed_neg n ds rest :
  digits ds -> n = length ds \/ (length ds < n)%nat /\ ends_digits rest -> (0 < n)%nat ->
  strtoi_signed signed (45 :: digit_bytes ds ++ rest) n = (v ← signed (dec_value ds); Some (- v)).
Proof.
  intros Hd Hn Hpos. destruct n as [|n]; [lia |]. unfold strtoi_signed. cbn [head tail mbind option_bind].
  change (45 =? 45) with true. cbn iota. rewrite (strtoi_loop_spec (S n) ds rest 0 Hd ltac:(lia) Hn).
  unfold dec_value. pose proof (dec_from_ge 0 ds ltac:(lia) Hd) as Hge.
  destruct (Z_lt_le_dec (dec_from 0 ds) lim) as [H | H].
  - rewrite signed_in by lia. cbn [mbind option_bind]. by rewrite signed_in by lia.
  - by rewrite signed_out by lia.
Qed.
End SignedSpec.

Lemma signed_int_in z : - 2 ^ 31 <= z < 2 ^ 31 -> signed_int z = Some z.
Proof. intros. unfold signed_int. by rewrite bool_decide_true. Qed.
Lemma signed_int_out z : 2 ^ 31 <= z -> signed_int z = None.
Proof. intros. unfold signed_int. rewrite bool_decide_false; [done | unfold is_s32; lia]. Qed.
Lemma signed_ssize_in z : - 2 ^ 63 <= z < 2 ^ 63 -> signed_ssize z = Some z.
Proof. intros. unfold signed_ssize. by rewrite bool_decide_true. Qed.
Lemma signed_ssize_out z : 2 ^ 63 <= z -> signed_ssize z = None.
Proof. intros. unfold signed_ssize. rewrite bool_decide_false; [done | unfold is_s64; lia]. Qed.

(** The failing loop, for a modulus [w] the value is reduced by. *)
Lemma strtoui_loop_spec (w : Z) (wrap : Z -> Z) ds rest v :
  0 < w -> (forall z, wrap z = z mod w) -> digits ds ->
  strtoui_loop (fun z => Some (wrap z)) (digit_bytes ds ++ rest) (length ds) (wrap v) = Some (Some (wrap (dec_from v ds))).
Proof.
  intros Hw Hwrap Hd. revert v. induction Hd as [|d ds Hd Hds IH]; intros v; [done |].
  cbn [digit_bytes fmap list_fmap app length strtoui_loop head tail mbind option_bind].
  rewrite is_digit_byte by done. cbn [negb]. change (dec_from v (d :: ds)) with (dec_from (v * 10 + d) ds).
  rewrite <- IH. f_equal. replace (48 + d - 48) with d by lia. rewrite !Hwrap.
  by rewrite Zplus_mod_idemp_l, <- Zplus_mod_idemp_l, Zmult_mod_idemp_l, Zplus_mod_idemp_l.
Qed.

Lemma strtoui_loop_error wrap ds c rest n v :
  (forall z, is_Some (wrap z)) -> digits ds -> is_digit c = false -> (length ds < n)%nat ->
  strtoui_loop wrap (digit_bytes ds ++ c :: rest) n v = Some None.
Proof.
  intros Hw Hd Hc. revert n v. induction Hd as [|d ds Hd Hds IH]; intros n v Hn.
  - destruct n as [|n]; simpl in Hn; [lia |]. cbn. by rewrite Hc.
  - destruct n as [|n]; simpl in Hn; [lia |].
    cbn [digit_bytes fmap list_fmap app strtoui_loop head tail mbind option_bind].
    rewrite is_digit_byte by done. cbn [negb].
    destruct (Hw (v * 10)) as [v1 ->]. cbn [mbind option_bind].
    destruct (Hw (v1 + (48 + d - 48))) as [v2 ->]. cbn [mbind option_bind]. apply IH. lia.
Qed.

Lemma strtoui_loop_time ds rest v :
  digits ds -> 0 <= v < 2 ^ 63 ->
  strtoui_loop signed_ssize (digit_bytes ds ++ rest) (length ds) v = Some <$> signed_ssize (dec_from v ds).
Proof.
  intros Hd. revert v. induction Hd as [|d ds Hd Hds IH]; intros v Hv.
  - cbn [digit_bytes fmap list_fmap app length strtoui_loop]. change (dec_from v []) with v. by rewrite signed_ssize_in by lia.
  - cbn [digit_bytes fmap list_fmap app length strtoui_loop head tail mbind option_bind].
    rewrite is_digit_byte by done. cbn [negb]. change (dec_from v (d :: ds)) with (dec_from (v * 10 + d) ds).
    replace (48 + d - 48) with d by lia.
    pose proof (dec_from_ge (v * 10 + d) ds ltac:(lia) Hds) as Hge.
    destruct (Z_lt_le_dec (v * 10) (2 ^ 63)) as [H1 | H1].
    + rewrite (signed_ssize_in (v * 10)) by lia. cbn [mbind option_bind].
      destruct (Z_lt_le_dec (v * 10 + d) (2 ^ 63)) as [H2 | H2].
      * rewrite (signed_ssize_in (v * 10 + d)) by lia. cbn [mbind option_bind]. apply IH. lia.
      * rewrite (signed_ssize_out (v * 10 + d)) by lia. by rewrite signed_ssize_out by lia.
    + rewrite (signed_ssize_out (v * 10)) by lia. by rewrite signed_ssize_out by lia.
Qed.

(** ** Hexadecimal *)

Definition be_from (v : Z) (bs : list Z) : Z := foldl (fun v b => v * 256 + b) v bs.
Definition be_value : list Z -> Z := be_from 0.

Lemma be_from_ge v bs : 0 <= v -> bytes bs -> v <= be_from v bs.
Proof.
  intros Hv Hd. revert v Hv. induction Hd as [|b bs Hb Hbs IH]; intros v Hv; [done |].
  change (v <= be_from (v * 256 + b) bs). specialize (IH (v * 256 + b)). unfold is_u8 in Hb. lia.
Qed.

(** The value a hexadecimal digit has for [string_xxstrhextoi]. *)
Definition hex_value (ch : Z) : option Z :=
  if is_digit ch then Some (ch - 48)
  else let c := u8 (Z.lor ch 0x20) in if (97 <=? c) && (c <=? 102) then Some (c - 97 + 10) else None.

Lemma hex_digit_value x : 0 <= x < 16 -> hex_value (tbl hex x) = Some x.
Proof.
  intros Hx.
  assert (match hex_value (tbl hex x) with Some y => y =? x | None => false end = true) as H.
  { exact (forall_below_Z 16 (fun x => match hex_value (tbl hex x) with Some y => y =? x | None => false end) eq_refl x Hx). }
  destruct (hex_value (tbl hex x)) as [y|]; [|done]. apply Z.eqb_eq in H. by subst.
Qed.

Lemma strhextoi_loop_step c line n v d :
  hex_value c = Some d -> 0 <= v -> 0 <= d -> v * 16 + d < 2 ^ 31 ->
  strhextoi_loop (c :: line) (S n) v = strhextoi_loop line n (v * 16 + d).
Proof.
  unfold hex_value. intros Hc Hv Hd Hr. cbn [strhextoi_loop head tail mbind option_bind].
  destruct (is_digit c); [|destruct (_ && _)]; simplify_eq;
    (rewrite (signed_int_in (v * 16)) by lia; cbn [mbind option_bind]; by rewrite signed_int_in by lia).
Qed.

Lemma nibbles b : is_u8 b -> 0 <= Z.shiftr b 4 < 16 /\ 0 <= Z.land b 0xf < 16 /\ Z.shiftr b 4 * 16 + Z.land b 0xf = b.
Proof.
  unfold is_u8. intros Hb. rewrite Z.shiftr_div_pow2 by lia. change 0xf with (Z.ones 4).
  rewrite Z.land_ones by lia. change (2 ^ 4) with 16.
  pose proof (Z.div_mod b 16). pose proof (Z.mod_pos_bound b 16). split; [split; [apply Z.div_pos | apply Z.div_lt_upper_bound]; lia |].
  lia.
Qed.

Lemma strtohex_hextoi_loop bs rest v :
  bytes bs -> 0 <= v -> be_from v bs < 2 ^ 31 ->
  exists out, string_xxstrtohex (bs ++ rest) (length bs) = Some out /\ length out = (2 * length bs)%nat /\
    strhextoi_loop out (length out) v = Some (be_from v bs).
Proof.
  intros Hb. revert v. induction Hb as [|b bs Hb Hbs IH]; intros v Hv Hr; [by exists [] |].
  change (be_from v (b :: bs)) with (be_from (v * 256 + b) bs) in *.
  destruct (IH (v * 256 + b)) as (out & Hout & Hl & Hp); [unfold is_u8 in Hb; lia | done |].
  cbn [app length string_xxstrtohex head tail mbind option_bind]. rewrite Hout. cbn [mbind option_bind].
  eexists. split; [done |]. split; [simpl; lia |].
  destruct (nibbles b Hb) as (Hh & Hlo & E).
  pose proof (be_from_ge (v * 256 + b) bs ltac:(unfold is_u8 in Hb; lia) Hbs) as Hge.
  cbn [length].
  rewrite (strhextoi_loop_step _ _ _ _ _ (hex_digit_value _ Hh)) by lia.
  rewrite (strhextoi_loop_step _ _ _ _ _ (hex_digit_value _ Hlo)) by lia.
  rewrite <- Hp. f_equal. lia.
Qed.

(** ** Claims *)

(** The case-insensitive comparisons order C strings lexicographically by their
    lower-cased bytes, reading no byte behind the NUL or the bound: the sign of the result
    of [string_xxstrcasecmp] is the order of the whole strings, that of
    [string_xxstrncasecmp] the order of their first [n] bytes. *)
Theorem casecmp_lexicographic s1 s2 n :
  bytes s1 -> bytes s2 ->
  (0 ∈ s1 -> 0 ∈ s2 -> exists r, string_xxstrcasecmp s1 s2 = Some r /\
     (r ?= 0) = byte_compare (fold_case <$> cstr s1) (fold_case <$> cstr s2)) /\
  (readable s1 n -> readable s2 n -> exists r, string_xxstrncasecmp s1 s2 n = Some r /\
     (r ?= 0) = byte_compare (fold_case <$> cstr (take n s1)) (fold_case <$> cstr (take n s2))).
Proof.
  intros Hb1 Hb2. split; [|by apply strncasecmp_spec]. intros H1 H2.
  set (k := (length s1 + length s2)%nat).
  rewrite (strcasecmp_bounded s1 s2 k) by (done || lia).
  destruct (strncasecmp_spec k s1 s2) as (r & Hr & Hc); [done.. | by right | by right |].
  exists r. by rewrite !take_ge in Hc by lia.
Qed.

(** [memory_n2cmp] orders byte strings of any two lengths lexicographically, a proper
    prefix before the longer string; [string_xxstrnrcmp] and [string_xxstrncasercmp] order
    the first [n] bytes from the last to the first. *)
Theorem n2cmp_rcmp_lexicographic s1 s2 n1 n2 :
  (n1 <= length s1)%nat -> (n2 <= length s2)%nat ->
  (exists r, memory_n2cmp s1 s2 n1 n2 = Some r /\ (r ?= 0) = byte_compare (take n1 s1) (take n2 s2)) /\
  (n1 = n2 -> exists r, string_xxstrnrcmp s1 s2 n1 = Some r /\
     (r ?= 0) = byte_compare (reverse (take n1 s1)) (reverse (take n1 s2))) /\
  (n1 = n2 -> exists r, string_xxstrncasercmp s1 s2 n1 = Some r /\
     (r ?= 0) = byte_compare (fold_upper <$> reverse (take n1 s1)) (fold_upper <$> reverse (take n1 s2))).
Proof.
  intros H1 H2. split; [by apply n2cmp_spec |]. split; intros <-; [by apply strnrcmp_spec | by apply strncasercmp_spec].
Qed.

(** [string_xxstrnstr] and [string_xxstrstrn] find the first occurrence of the pattern
    [c2 :: t2] in the text up to its NUL (and, for the first, up to [len] bytes), and return
    [NULL] exactly when there is none; neither reads past the NUL or the length. *)
Theorem strnstr_first s1 c2 t2 rest len :
  Forall (fun c => c <> 0) (c2 :: t2) ->
  (readable s1 len -> exists r, string_xxstrnstr s1 (c2 :: t2 ++ 0 :: rest) len = Some r /\
     least (matches id id c2 t2 (cstr (take len s1))) 0 r) /\
  (0 ∈ s1 -> exists r, string_xxstrstrn s1 (c2 :: t2 ++ 0 :: rest) (length t2) = Some r /\
     least (matches id id c2 t2 (cstr s1)) 0 r).
Proof. intros Hp. split; intros H; [by apply strnstr_spec | by apply strstrn_spec]. Qed.

(** The searches that ignore case, called as their comment says with the pattern
    length less one: [string_xxstrlcasestrn] finds the first case-insensitive occurrence;
    [string_xxstrcasestrn] finds the first occurrence of the pattern without its last byte
    [b], which it never compares; [string_xxstrlstrn] ignores the case of the first byte
    only. *)
Theorem casestr_first s1 last c2 t2 b rest :
  Forall (fun c => is_u8 c /\ c <> 0) (c2 :: t2 ++ [b]) -> bytes s1 -> Z.of_nat (length t2) < 2 ^ 64 ->
  ((last <= length s1)%nat -> exists r,
     string_xxstrlcasestrn s1 last (c2 :: (t2 ++ [b]) ++ rest) (length (t2 ++ [b])) = Some r /\
     least (matches fold_case fold_case (fold_case c2) (fold_case <$> t2 ++ [b]) (take last s1)) 0 r) /\
  ((last <= length s1)%nat -> exists r,
     string_xxstrlstrn s1 last (c2 :: (t2 ++ [b]) ++ rest) (length (t2 ++ [b])) = Some r /\
     least (matches fold_case id (fold_case c2) (t2 ++ [b]) (take last s1)) 0 r) /\
  (0 ∈ s1 -> exists r, string_xxstrcasestrn s1 (c2 :: t2 ++ b :: rest) (length (t2 ++ [b])) = Some r /\
     least (matches fold_case fold_case (fold_case c2) (fold_case <$> t2) (cstr s1)) 0 r).
Proof.
  intros Hp Hb Hl. split; [| split]; intros H.
  - by apply strlcasestrn_spec.
  - apply strlstrn_spec; [|done]. eapply Forall_impl; [exact Hp |]. by intros c [_ ?].
  - apply strcasestrn_spec; [|done..]. apply Forall_cons in Hp as [? Hp]. apply Forall_app in Hp as [? _]. by constructor.
Qed.

(** Signed parsing: on a digit string followed by the end of the length or a byte that
    is no digit, [string_xxstrtoi] and [string_xxstrtossize] return the decimal value, and
    are undefined exactly when it exceeds the type. Behind a minus sign they negate, but the
    sign is not taken off the length, so [n] bytes are examined after it: called with the
    length of sign and digits together they read one byte past the number, and nothing is
    defined when the buffer ends there. *)
Theorem strtoi_exact ds rest n :
  digits ds -> ds <> [] -> n = length ds \/ (length ds < n)%nat /\ ends_digits rest ->
  string_xxstrtoi (digit_bytes ds ++ rest) n = signed_int (dec_value ds) /\
  string_xxstrtossize (digit_bytes ds ++ rest) n = signed_ssize (dec_value ds) /\
  string_xxstrtoi (45 :: digit_bytes ds ++ rest) n = (v ← signed_int (dec_value ds); Some (- v)) /\
  string_xxstrtossize (45 :: digit_bytes ds ++ rest) n = (v ← signed_ssize (dec_value ds); Some (- v)) /\
  string_xxstrtoi (45 :: digit_bytes ds) (S (length ds)) = None.
Proof.
  intros Hd Hne Hn.
  assert (0 < n)%nat as Hpos by (destruct ds; [done |]; destruct Hn as [-> | [? _]]; simpl in *; lia).
  split; [apply (strtoi_signed_spec _ _ signed_int_in signed_int_out); [lia | done..] |].
  split; [apply (strtoi_signed_spec _ _ signed_ssize_in signed_ssize_out); [lia | done..] |].
  split; [apply (strtoi_signed_neg _ _ signed_int_in signed_int_out); [lia | done..] |].
  split; [apply (strtoi_signed_neg _ _ signed_ssize_in signed_ssize_out); [lia | done..] |].
  unfold string_xxstrtoi, strtoi_signed. cbn [head tail mbind option_bind]. change (45 =? 45) with true. cbn iota.
  assert (forall v, strtoi_loop signed_int (digit_bytes ds) (S (length ds)) v = None) as ->; [|done].
  clear - Hd. induction Hd as [|d ds Hd Hds IH]; intros v; [done |].
  change (strtoi_loop signed_int (digit_bytes (d :: ds)) (S (length (d :: ds))) v) with
    (if negb (is_digit (48 + d)) then Some v
     else v ← signed_int (v * 10); v ← signed_int (v + (48 + d - 48));
          strtoi_loop signed_int (digit_bytes ds) (S (length ds)) v).
  rewrite is_digit_byte by done. cbn [negb]. destruct (signed_int (v * 10)) as [v1|]; [|done]. cbn [mbind option_bind].
  destruct (signed_int (v1 + _)) as [v2|]; [|done]. apply IH.
Qed.

(** Unsigned parsing: on [n] digits [string_xxstrtoui] and [string_xxstrtosize] return
    the decimal value modulo the width, [string_xxstrtotime] the value when it fits; a byte
    that is not a digit among the [n] makes the unsigned ones return the conversion of
    [NGX_ERROR], the largest value of the type. *)
Theorem strtoui_exact ds c rest n :
  digits ds -> ds <> [] -> is_digit c = false -> (length ds < n)%nat ->
  string_xxstrtoui (digit_bytes ds ++ rest) (length ds) = Some (u32 (dec_value ds)) /\
  string_xxstrtosize (digit_bytes ds ++ rest) (length ds) = Some (u64 (dec_value ds)) /\
  string_xxstrtotime (digit_bytes ds ++ rest) (length ds) = signed_ssize (dec_value ds) /\
  string_xxstrtoui (digit_bytes ds ++ c :: rest) n = Some (2 ^ 32 - 1) /\
  string_xxstrtosize (digit_bytes ds ++ c :: rest) n = Some (2 ^ 64 - 1).
Proof.
  intros Hd Hne Hc Hn. unfold string_xxstrtoui, string_xxstrtosize, string_xxstrtotime.
  pose proof (strtoui_loop_spec (2 ^ 32) u32 ds rest 0 ltac:(lia) ltac:(done) Hd) as E32.
  pose proof (strtoui_loop_spec (2 ^ 64) u64 ds rest 0 ltac:(lia) ltac:(done) Hd) as E64.
  pose proof (strtoui_loop_time ds rest 0 Hd ltac:(lia)) as Et.
  change (u32 0) with 0 in E32. change (u64 0) with 0 in E64.
  destruct (length ds) as [|k] eqn:El; [by destruct ds |]. destruct n as [|n]; [lia |].
  rewrite E32, E64, Et.
  rewrite !strtoui_loop_error by (done || lia || (intros; by eexists)).
  split; [done |]. split; [done |]. split; [by destruct (signed_ssize _) |]. done.
Qed.

(** [string_xxstrhextoi] reads back what [string_xxstrtohex] wrote: the two hex digits
    of each byte, most significant first, parse to the big-endian value of the bytes when it
    fits an [int]. *)
Theorem hex_roundtrip bs rest :
  bytes bs -> bs <> [] -> be_value bs < 2 ^ 31 ->
  exists out, string_xxstrtohex (bs ++ rest) (length bs) = Some out /\ length out = (2 * length bs)%nat /\
    string_xxstrhextoi out (length out) = Some (be_value bs).
Proof.
  intros Hb Hne Hr. destruct (strtohex_hextoi_loop bs rest 0 Hb ltac:(lia) Hr) as (out & Hout & Hl & Hp).
  exists out. split; [done |]. split; [done |]. destruct bs as [|b bs]; [done |].
  apply Forall_cons in Hb as [Hb _]. destruct (nibbles b Hb) as (Hh & _ & _).
  cbn [app length string_xxstrtohex head tail mbind option_bind] in Hout. apply bind_Some in Hout as (d & _ & [= <-]).
  unfold string_xxstrhextoi. cbn [length]. cbn [head mbind option_bind].
  assert ((tbl hex (Z.shiftr b 4) =? 45) = false) as ->.
  { apply negb_true_iff. exact (forall_below_Z 16 (fun x => negb (tbl hex x =? 45)) eq_refl _ Hh). }
  cbn [length] in Hp. by rewrite Hp.
Qed.

(** ** Witnesses *)

(** "Abc" against "aBD", both NUL-terminated. *)
Lemma casecmp_lexicographic_witness :
  exists r, string_xxstrcasecmp [65; 98; 99; 0] [97; 66; 68; 0] = Some r /\ (r ?= 0) = Lt.
Proof.
  destruct (casecmp_lexicographic [65; 98; 99; 0] [97; 66; 68; 0] 2) as [H _].
  - repeat constructor; unfold is_u8; lia.
  - repeat constructor; unfold is_u8; lia.
  - destruct H as (r & Hr & Hc); [by apply (bool_decide_unpack _); vm_compute.. |].
    exists r. split; [exact Hr | exact Hc].
Defined.

Lemma n2cmp_rcmp_lexicographic_witness :
  exists r, memory_n2cmp [1; 2] [1; 2; 3] 2 3 = Some r /\ (r ?= 0) = Lt.
Proof.
  destruct (n2cmp_rcmp_lexicographic [1; 2] [1; 2; 3] 2 3) as [(r & Hr & Hc) _]; [simpl; lia.. |].
  exists r. split; [exact Hr | exact Hc].
Defined.

(** "ab" in "aab". *)
Lemma strnstr_first_witness : exists r, string_xxstrnstr [97; 97; 98; 0] [97; 98; 0] 3 = Some r /\
  least (matches id id 97 [98] [97; 97; 98]) 0 r.
Proof.
  destruct (strnstr_first [97; 97; 98; 0] 97 [98] [] 3) as [H _].
  - repeat constructor; lia.
  - apply H. left. simpl. lia.
Defined.

(** The text "abx" contains "aby" for [string_xxstrcasestrn]. *)
Lemma casestr_first_witness : exists r, string_xxstrcasestrn [97; 98; 120; 0] [97; 98; 121] 2 = Some r /\
  least (matches fold_case fold_case 97 [98] [97; 98; 120]) 0 r.
Proof.
  destruct (casestr_first [97; 98; 120; 0] 3 97 [98] 121 []) as (_ & _ & H).
  - repeat constructor; unfold is_u8; lia.
  - repeat constructor; unfold is_u8; lia.
  - simpl. lia.
  - apply H. by apply (bool_decide_unpack _); vm_compute.
Defined.

Lemma strtoi_exact_witness : string_xxstrtoi [49; 50; 44] 3 = Some 12.
Proof.
  destruct (strtoi_exact [1; 2] [44] 3) as [H _].
  - repeat constructor; lia.
  - discriminate.
  - right. split; [simpl; lia |]. exists 44, []. split; reflexivity.
  - exact H.
Defined.

Lemma strtoui_exact_witness : string_xxstrtoui [49; 50; 44] 2 = Some 12 /\ string_xxstrtoui [49; 50; 44] 3 = Some (2 ^ 32 - 1).
Proof.
  destruct (strtoui_exact [1; 2] 44 [44] 3) as (H1 & _ & _ & _ & _).
  - repeat constructor; lia.
  - discriminate.
  - reflexivity.
  - simpl. lia.
  - destruct (strtoui_exact [1; 2] 44 [] 3) as (_ & _ & _ & H2 & _).
    + repeat constructor; lia.
    + discriminate.
    + reflexivity.
    + simpl. lia.
    + split; [exact H1 | exact H2].
Defined.

Lemma hex_roundtrip_witness :
  exists out, string_xxstrtohex [18; 255] 2 = Some out /\ string_xxstrhextoi out (length out) = Some 4863.
Proof.
  destruct (hex_roundtrip [18; 255] []) as (out & H1 & _ & H2).
  - repeat constructor; unfold is_u8; lia.
  - discriminate.
  - reflexivity.
  - exists out. split; [exact H1 | exact H2].
Defined.
