(* ===== verification/Encodings.v ===== *)
(** * Encodings: Base64, UTF-8, URI and HTML escapes ([src/core/dfs_string.cpp])

    A [string_t] is the list of its [len] bytes; the bytes a function writes through [dst]
    are returned, so a [NULL] destination, which asks for a count, is a separate function.
    Other conventions are those of [Strings]. *)

From S2P Require Import Prelude Strings.

(** ** Base64 *)

Definition basis64 : list Z := [
    65; 66; 67; 68; 69; 70; 71; 72; 73; 74; 75; 76; 77; 78; 79; 80; 81; 82; 83; 84; 85;
    86; 87; 88; 89; 90; 97; 98; 99; 100; 101; 102; 103; 104; 105; 106; 107; 108; 109; 110;
    111; 112; 113; 114; 115; 116; 117; 118; 119; 120; 121; 122; 48; 49; 50; 51; 52; 53;
    54; 55; 56; 57; 43; 47].

(* src/src/core/dfs_string.cpp:981-1021 (string_base64_encode) *)
Fixpoint string_base64_encode (s : list Z) : list Z :=
  match s with
  | s0 :: s1 :: s2 :: s =>
      tbl basis64 (Z.land (Z.shiftr s0 2) 0x3f) ::
      tbl basis64 (Z.lor (Z.shiftl (Z.land s0 3) 4) (Z.shiftr s1 4)) ::
      tbl basis64 (Z.lor (Z.shiftl (Z.land s1 0x0f) 2) (Z.shiftr s2 6)) ::
      tbl basis64 (Z.land s2 0x3f) :: string_base64_encode s
  | [s0; s1] =>
      [tbl basis64 (Z.land (Z.shiftr s0 2) 0x3f);
       tbl basis64 (Z.lor (Z.shiftl (Z.land s0 3) 4) (Z.shiftr s1 4));
       tbl basis64 (Z.shiftl (Z.land s1 0x0f) 2); 61]
  | [s0] =>
      [tbl basis64 (Z.land (Z.shiftr s0 2) 0x3f);
       tbl basis64 (Z.shiftl (Z.land s0 3) 4); 61; 61]
  | [] => []
  end.

Definition basis64_decode : list Z := [
     77; 77; 77; 77; 77; 77; 77; 77; 77; 77; 77; 77; 77; 77; 77; 77;
     77; 77; 77; 77; 77; 77; 77; 77; 77; 77; 77; 77; 77; 77; 77; 77;
     77; 77; 77; 77; 77; 77; 77; 77; 77; 77; 77; 62; 77; 77; 77; 63;
     52; 53; 54; 55; 56; 57; 58; 59; 60; 61; 77; 77; 77; 77; 77; 77;
     77; 0; 1; 2; 3; 4; 5; 6; 7; 8; 9; 10; 11; 12; 13; 14;
     15; 16; 17; 18; 19; 20; 21; 22; 23; 24; 25; 77; 77; 77; 77; 77;
     77; 26; 27; 28; 29; 30; 31; 32; 33; 34; 35; 36; 37; 38; 39; 40;
     41; 42; 43; 44; 45; 46; 47; 48; 49; 50; 51; 77; 77; 77; 77; 77;
     77; 77; 77; 77; 77; 77; 77; 77; 77; 77; 77; 77; 77; 77; 77; 77;
     77; 77; 77; 77; 77; 77; 77; 77; 77; 77; 77; 77; 77; 77; 77; 77;
     77; 77; 77; 77; 77; 77; 77; 77; 77; 77; 77; 77; 77; 77; 77; 77;
     77; 77; 77; 77; 77; 77; 77; 77; 77; 77; 77; 77; 77; 77; 77; 77;
     77; 77; 77; 77; 77; 77; 77; 77; 77; 77; 77; 77; 77; 77; 77; 77;
     77; 77; 77; 77; 77; 77; 77; 77; 77; 77; 77; 77; 77; 77; 77; 77;
     77; 77; 77; 77; 77; 77; 77; 77; 77; 77; 77; 77; 77; 77; 77; 77;
     77; 77; 77; 77; 77; 77; 77; 77; 77; 77; 77; 77; 77; 77; 77; 77].

(** The scan up to the first ['=']: the number of characters, or [None] on a character
    outside the alphabet. *)
Fixpoint base64_scan (s : list Z) : option nat :=
  match s with
  | [] => Some O
  | c :: s =>
      if c =? 61 then Some O
      else if tbl basis64_decode c =? 77 then None
      else n ← base64_scan s; Some (S n)
  end.

(** [while (len > 3)], then the one or two bytes of a last, short group. *)
Fixpoint base64_groups (s : list Z) : list Z :=
  match s with
  | s0 :: s1 :: s2 :: s3 :: s =>
      u8 (Z.lor (Z.shiftl (tbl basis64_decode s0) 2) (Z.shiftr (tbl basis64_decode s1) 4)) ::
      u8 (Z.lor (Z.shiftl (tbl basis64_decode s1) 4) (Z.shiftr (tbl basis64_decode s2) 2)) ::
      u8 (Z.lor (Z.shiftl (tbl basis64_decode s2) 6) (tbl basis64_decode s3)) :: base64_groups s
  | [s0; s1; s2] =>
      [u8 (Z.lor (Z.shiftl (tbl basis64_decode s0) 2) (Z.shiftr (tbl basis64_decode s1) 4));
       u8 (Z.lor (Z.shiftl (tbl basis64_decode s1) 4) (Z.shiftr (tbl basis64_decode s2) 2))]
  | [s0; s1] => [u8 (Z.lor (Z.shiftl (tbl basis64_decode s0) 2) (Z.shiftr (tbl basis64_decode s1) 4))]
  | _ => []
  end.

(** [NGX_ERROR] is [None]. *)
(* src/src/core/dfs_string.cpp:1023-1091 (string_base64_decode) *)
Definition string_base64_decode (src : list Z) : option (list Z) :=
  len ← base64_scan src;
  if bool_decide (len mod 4 = 1)%nat then None else Some (base64_groups (take len src)).

(** ** UTF-8 *)

(** The continuation bytes: [None] reads past the buffer, an inner [None] is the error. *)
Fixpoint utf8_cont (len : nat) (u : Z) (p : list Z) : option (option Z * list Z) :=
  match len with
  | O => Some (Some u, p)
  | S len =>
      i ← head p;
      if i <? 0x80 then Some (None, tail p)
      else utf8_cont len (u32 (Z.lor (Z.shiftl u 6) (Z.land i 0x3f))) (tail p)
  end.

(** The result and the pointer the caller is left with. *)
(* src/src/core/dfs_string.cpp:1101-1157 (string_utf8_decode) *)
Definition string_utf8_decode (p : list Z) (n : Z) : option (Z * list Z) :=
  u ← head p;
  let lead :=
    if 0xf0 <? u then Some (Z.land u 0x07, 0xffff, 3%nat)
    else if 0xe0 <? u then Some (Z.land u 0x0f, 0x7ff, 2%nat)
    else if 0xc0 <? u then Some (Z.land u 0x1f, 0x7f, 1%nat)
    else None in
  match lead with
  | None => Some (0xffffffff, tail p)
  | Some (u, valid, len) =>
      if u64 (n - 1) <? Z.of_nat len then Some (0xfffffffe, p)
      else
        '(r, p) ← utf8_cont len u (tail p);
        Some (match r with Some u => if valid <? u then u else 0xffffffff | None => 0xffffffff end, p)
  end.

(** [for (len = 0; p < last; len++)] with [left] the distance to [last], which a sequence
    that crosses the end makes negative; every pass consumes a byte, so [n] passes do. *)
Fixpoint utf8_length_loop (fuel : nat) (p : list Z) (left n len : Z) : option Z :=
  if left <=? 0 then Some len
  else match fuel with
  | O => None
  | S fuel =>
      c ← head p;
      if c <? 0x80 then utf8_length_loop fuel (tail p) (left - 1) n (len + 1)
      else
        '(r, p') ← string_utf8_decode p n;
        if 0x10ffff <? r then Some n
        else utf8_length_loop fuel p' (left - (Z.of_nat (length p) - Z.of_nat (length p'))) n (len + 1)
  end.

(* src/src/core/dfs_string.cpp:1159-1184 (string_utf8_length) *)
Definition string_utf8_length (p : list Z) (n : nat) : option Z :=
  utf8_length_loop n p (Z.of_nat n) (Z.of_nat n) 0.

(** ** URI escapes *)

Definition escape_uri : list Z := [
    0xffffffff; 0x80000029; 0x00000000; 0x80000000;
    0xffffffff; 0xffffffff; 0xffffffff; 0xffffffff].
Definition escape_args : list Z := [
    0xffffffff; 0x80000829; 0x00000000; 0x80000000;
    0xffffffff; 0xffffffff; 0xffffffff; 0xffffffff].
Definition escape_html : list Z := [
    0xffffffff; 0x000000ad; 0x00000000; 0x80000000;
    0xffffffff; 0xffffffff; 0xffffffff; 0xffffffff].
Definition escape_refresh : list Z := [
    0xffffffff; 0x00000085; 0x00000000; 0x80000000;
    0xffffffff; 0xffffffff; 0xffffffff; 0xffffffff].
Definition escape_memcached : list Z := [
    0xffffffff; 0x00000021; 0x00000000; 0x00000000;
    0x00000000; 0x00000000; 0x00000000; 0x00000000].

(** [map[type]]; an index past the table is undefined. *)
Definition escape_map : list (list Z) :=
  [escape_uri; escape_args; escape_html; escape_refresh; escape_memcached; escape_memcached].

(** [escape[c >> 5] & (1 << (c & 0x1f))] *)
Definition escaped (escape : list Z) (c : Z) : bool :=
  negb (Z.land (tbl escape (Z.shiftr c 5)) (Z.shiftl 1 (Z.land c 0x1f)) =? 0).

Fixpoint escape_uri_count (escape : list Z) (src : list Z) (n : Z) : Z :=
  match src with
  | [] => n
  | c :: src => escape_uri_count escape src (if escaped escape c then u32 (n + 1) else n)
  end.

Fixpoint escape_uri_bytes (escape : list Z) (src : list Z) : list Z :=
  match src with
  | [] => []
  | c :: src =>
      (if escaped escape c then [37; tbl hex (Z.shiftr c 4); tbl hex (Z.land c 0xf)] else [c])
      ++ escape_uri_bytes escape src
  end.

(* src/src/core/dfs_string.cpp:1234-1378 (string_escape_uri) *)
Definition string_escape_uri (src : list Z) (type : nat) : option (Z * list Z) :=
  escape ← escape_map !! type;
  Some (escape_uri_count escape src 0, escape_uri_bytes escape src).

Definition DFS_UNESCAPE_URI : Z := 1.
Definition DFS_UNESCAPE_REDIRECT : Z := 2.

Inductive unescape_state := sw_usual | sw_quoted | sw_quoted_second.

(** [type & bits]. *)
Definition flag (type bits : Z) : bool := negb (Z.land type bits =? 0).

(** Returns the bytes written and the source left when the loop ends; [prev] is [*(s - 2)].*)
(* src/src/core/dfs_string.cpp:1380-1518 (string_unescape_uri) *)
Fixpoint string_unescape_uri (state : unescape_state) (decoded prev : Z) (type : Z) (src : list Z) : list Z * list Z :=
  match src with
  | [] => ([], [])
  | b :: s =>
      let put out st dec := let '(d, s') := string_unescape_uri st dec b type s in (out ++ d, s') in
      match state with
      | sw_usual =>
          if (b =? 63) && flag type (Z.lor DFS_UNESCAPE_URI DFS_UNESCAPE_REDIRECT) then ([b], s)
          else if b =? 37 then put [] sw_quoted decoded
          else put [b] sw_usual decoded
      | sw_quoted =>
          if (48 <=? b) && (b <=? 57) then put [] sw_quoted_second (u8 (b - 48))
          else
            let c := u8 (Z.lor b 0x20) in
            if (97 <=? c) && (c <=? 102) then put [] sw_quoted_second (u8 (c - 97 + 10))
            else put [b] sw_usual decoded
      | sw_quoted_second =>
          if (48 <=? b) && (b <=? 57) then
            let ch := u8 (Z.shiftl decoded 4 + b - 48) in
            if flag type DFS_UNESCAPE_REDIRECT then
              if (37 <? ch) && (ch <? 0x7f) then put [ch] sw_usual decoded
              else put [37; prev; b] sw_usual decoded
            else put [ch] sw_usual decoded
          else
            let c := u8 (Z.lor b 0x20) in
            if (97 <=? c) && (c <=? 102) then
              let ch := u8 (Z.shiftl decoded 4 + c - 97 + 10) in
              if flag type DFS_UNESCAPE_URI then
                if ch =? 63 then ([ch], s) else put [ch] sw_usual decoded
              else if flag type DFS_UNESCAPE_REDIRECT then
                if ch =? 63 then ([ch], s)
                else if (37 <? ch) && (ch <? 0x7f) then put [ch] sw_usual decoded
                else put [37; prev; b] sw_usual decoded
              else put [ch] sw_usual decoded
            else put [] sw_usual decoded
      end
  end.

(** ** HTML escapes *)

Fixpoint escape_html_count (src : list Z) (len : Z) : Z :=
  match src with
  | [] => len
  | c :: src =>
      escape_html_count src
        (if c =? 60 then u32 (len + (5 - 2)) else if c =? 62 then u32 (len + (5 - 2))
         else if c =? 38 then u32 (len + (6 - 2)) else len)
  end.

(* src/src/core/dfs_string.cpp:1520-1579 (string_escape_html) *)
Fixpoint string_escape_html (src : list Z) : list Z :=
  match src with
  | [] => []
  | ch :: src =>
      (if ch =? 60 then [38; 108; 116; 59]
       else if ch =? 62 then [38; 103; 116; 59]
       else if ch =? 38 then [38; 97; 109; 112; 59]
       else [ch]) ++ string_escape_html src
  end.

(** ** Base64 round trip *)

Lemma basis64_inverse x :
  0 <= x < 64 ->
  tbl basis64_decode (tbl basis64 x) = x /\ tbl basis64 x <> 61 /\ is_u8 (tbl basis64 x).
Proof.
  intros Hx.
  pose proof (forall_below_Z 64 (fun x => (tbl basis64_decode (tbl basis64 x) =? x) && negb (tbl basis64 x =? 61)
    && (0 <=? tbl basis64 x) && (tbl basis64 x <? 256)) eq_refl x Hx) as H.
  cbv beta in H. unfold is_u8. lia.
Qed.

(** The four 6-bit groups of three bytes, as arithmetic. *)
Lemma sextets s0 s1 s2 :
  is_u8 s0 -> is_u8 s1 -> is_u8 s2 ->
  Z.land (Z.shiftr s0 2) 0x3f = s0 / 4 /\
  Z.lor (Z.shiftl (Z.land s0 3) 4) (Z.shiftr s1 4) = s0 mod 4 * 16 + s1 / 16 /\
  Z.lor (Z.shiftl (Z.land s1 0x0f) 2) (Z.shiftr s2 6) = s1 mod 16 * 4 + s2 / 64 /\
  Z.land s2 0x3f = s2 mod 64 /\
  Z.shiftl (Z.land s0 3) 4 = s0 mod 4 * 16 /\ Z.shiftl (Z.land s1 0x0f) 2 = s1 mod 16 * 4.
Proof.
  unfold is_u8. intros H0 H1 H2.
  rewrite (land_mask 6 0x3f), (land_mask 2 3), (land_mask 4 0x0f), (land_mask 6 0x3f) by done.
  rewrite !Z.shiftr_div_pow2, !Z.shiftl_mul_pow2 by lia.
  rewrite <- !Z.shiftl_mul_pow2 by lia. rewrite !lor_shiftl_add by div_mod_lia.
  rewrite !Z.shiftl_mul_pow2 by lia. repeat split; div_mod_lia.
Qed.

(** What the decoder makes of four sextets. *)
Lemma unsextets a b c d :
  0 <= a < 64 -> 0 <= b < 64 -> 0 <= c < 64 -> 0 <= d < 64 ->
  u8 (Z.lor (Z.shiftl a 2) (Z.shiftr b 4)) = a * 4 + b / 16 /\
  u8 (Z.lor (Z.shiftl b 4) (Z.shiftr c 2)) = b mod 16 * 16 + c / 4 /\
  u8 (Z.lor (Z.shiftl c 6) d) = c mod 4 * 64 + d.
Proof.
  intros Ha Hb Hc Hd. rewrite !Z.shiftr_div_pow2 by lia.
  rewrite !lor_shiftl_add by div_mod_lia. unfold u8. repeat split; div_mod_lia.
Qed.

Lemma bytes_ind3 (P : list Z -> Prop) :
  P [] -> (forall a, is_u8 a -> P [a]) -> (forall a b, is_u8 a -> is_u8 b -> P [a; b]) ->
  (forall a b c s, is_u8 a -> is_u8 b -> is_u8 c -> bytes s -> P s -> P (a :: b :: c :: s)) ->
  forall s, bytes s -> P s.
Proof.
  intros H0 H1 H2 H3 s. remember (length s) as n eqn:Hn. revert s Hn.
  induction (lt_wf n) as [n _ IH]. intros s -> Hs.
  unfold bytes in Hs. destruct s as [|a [|b [|c s]]]; rewrite ?Forall_cons in Hs; [done | | |].
  - destruct Hs as [Ha _]. by apply H1.
  - destruct Hs as (Ha & Hb & _). by apply H2.
  - destruct Hs as (Ha & Hb & Hc & Hs).
    apply H3; try done. eapply IH; [|reflexivity|done]. simpl. lia.
Qed.

(** The length the documentation of Base64 gives. *)
Lemma base64_encode_length s : bytes s -> length (string_base64_encode s) = (4 * ((length s + 2) / 3))%nat.
Proof.
  revert s. apply bytes_ind3; try (intros; reflexivity). intros a b c s _ _ _ _ IH.
  cbn [string_base64_encode length]. rewrite IH.
  replace (S (S (S (length s))) + 2)%nat with (length s + 2 + 1 * 3)%nat by lia.
  rewrite Nat.div_add by lia. lia.
Qed.

(** Every character of the encoding is in the alphabet or padding. *)
Lemma base64_scan_cons x s :
  0 <= x < 64 -> base64_scan (tbl basis64 x :: s) = (n ← base64_scan s; Some (S n)).
Proof.
  intros Hx. destruct (basis64_inverse x Hx) as (Hd & Hne & _). cbn [base64_scan].
  rewrite (proj2 (Z.eqb_neq _ _) Hne), Hd, (proj2 (Z.eqb_neq x 77)) by lia. done.
Qed.

Lemma base64_group_one s0 s1 rest :
  0 <= s0 < 64 -> 0 <= s1 < 64 ->
  base64_groups [tbl basis64 s0; tbl basis64 s1] = [s0 * 4 + s1 / 16] /\
  base64_scan (tbl basis64 s0 :: tbl basis64 s1 :: 61 :: rest) = Some 2%nat.
Proof.
  intros H0 H1. rewrite !base64_scan_cons by done. split; [|done]. cbn [base64_groups].
  destruct (basis64_inverse s0 H0) as (-> & _), (basis64_inverse s1 H1) as (-> & _).
  by destruct (unsextets s0 s1 0 0 H0 H1 ltac:(lia) ltac:(lia)) as (-> & _).
Qed.

Lemma base64_group_two s0 s1 s2 rest :
  0 <= s0 < 64 -> 0 <= s1 < 64 -> 0 <= s2 < 64 ->
  base64_groups [tbl basis64 s0; tbl basis64 s1; tbl basis64 s2] = [s0 * 4 + s1 / 16; s1 mod 16 * 16 + s2 / 4] /\
  base64_scan (tbl basis64 s0 :: tbl basis64 s1 :: tbl basis64 s2 :: 61 :: rest) = Some 3%nat.
Proof.
  intros H0 H1 H2. rewrite !base64_scan_cons by done. split; [|done]. cbn [base64_groups].
  destruct (basis64_inverse s0 H0) as (-> & _), (basis64_inverse s1 H1) as (-> & _), (basis64_inverse s2 H2) as (-> & _).
  by destruct (unsextets s0 s1 s2 0 H0 H1 H2 ltac:(lia)) as (-> & -> & _).
Qed.

Lemma base64_group_three s0 s1 s2 s3 s :
  0 <= s0 < 64 -> 0 <= s1 < 64 -> 0 <= s2 < 64 -> 0 <= s3 < 64 ->
  base64_groups (tbl basis64 s0 :: tbl basis64 s1 :: tbl basis64 s2 :: tbl basis64 s3 :: s) =
    s0 * 4 + s1 / 16 :: s1 mod 16 * 16 + s2 / 4 :: s2 mod 4 * 64 + s3 :: base64_groups s.
Proof.
  intros H0 H1 H2 H3. cbn [base64_groups].
  destruct (basis64_inverse s0 H0) as (-> & _), (basis64_inverse s1 H1) as (-> & _), (basis64_inverse s2 H2) as (-> & _),
    (basis64_inverse s3 H3) as (-> & _).
  by destruct (unsextets s0 s1 s2 s3 H0 H1 H2 H3) as (-> & -> & ->).
Qed.

Lemma base64_roundtrip_scan s rest :
  bytes s -> exists len, base64_scan (string_base64_encode s ++ 61 :: rest) = Some len /\
    (len mod 4 <> 1)%nat /\ base64_groups (take len (string_base64_encode s ++ 61 :: rest)) = s /\
    (len <= length (string_base64_encode s))%nat.
Proof.
  revert s. apply bytes_ind3.
  - by exists 0%nat.
  - intros a Ha. cbn [string_base64_encode app].
    destruct (sextets a 0 0 Ha ltac:(unfold is_u8; lia) ltac:(unfold is_u8; lia)) as (-> & _ & _ & _ & -> & _).
    unfold is_u8 in Ha.
    destruct (base64_group_one (a / 4) (a mod 4 * 16) (61 :: 61 :: rest) ltac:(div_mod_lia) ltac:(div_mod_lia)) as [Hg Hsc].
    exists 2%nat. split; [exact Hsc |]. split; [done |]. cbn [take firstn]. rewrite Hg. split; [f_equal; div_mod_lia | simpl; lia].
  - intros a b Ha Hb. cbn [string_base64_encode app].
    destruct (sextets a b 0 Ha Hb ltac:(unfold is_u8; lia)) as (-> & -> & _ & _ & _ & ->).
    unfold is_u8 in Ha, Hb.
    destruct (base64_group_two (a / 4) (a mod 4 * 16 + b / 16) (b mod 16 * 4) (61 :: rest)
      ltac:(div_mod_lia) ltac:(div_mod_lia) ltac:(div_mod_lia)) as [Hg Hsc].
    exists 3%nat. split; [exact Hsc |]. split; [done |]. cbn [take firstn]. rewrite Hg.
    split; [repeat f_equal; div_mod_lia | simpl; lia].
  - intros a b c s Ha Hb Hc Hs (len & Hsc & Hmod & Hg & Hl). cbn [string_base64_encode app].
    destruct (sextets a b c Ha Hb Hc) as (-> & -> & -> & -> & _ & _). unfold is_u8 in Ha, Hb, Hc.
    exists (4 + len)%nat. rewrite !base64_scan_cons by div_mod_lia. rewrite Hsc. split; [done |].
    split; [|split].
    + replace (4 + len)%nat with (len + 1 * 4)%nat by lia. by rewrite Nat.Div0.mod_add.
    + cbn [Nat.add take firstn]. rewrite base64_group_three by div_mod_lia.
      change (firstn len ?l) with (take len l). rewrite Hg. f_equal; [div_mod_lia |]. f_equal; [div_mod_lia |]. f_equal; div_mod_lia.
    + simpl. lia.
Qed.

(** ** What the Base64 decoder accepts *)

Fixpoint before_pad (s : list Z) : list Z :=
  match s with
  | [] => []
  | c :: s => if c =? 61 then [] else c :: before_pad s
  end.

Definition in_alphabet (c : Z) : Prop := tbl basis64_decode c <> 77.

Lemma base64_scan_spec s :
  match base64_scan s with
  | Some n => Forall in_alphabet (before_pad s) /\ n = length (before_pad s)
  | None => ~ Forall in_alphabet (before_pad s)
  end.
Proof.
  induction s as [|c s IH]; [done |]. cbn [base64_scan before_pad]. destruct (c =? 61); [done |].
  destruct (Z.eqb_spec (tbl basis64_decode c) 77) as [E | E].
  - by intros [? _]%Forall_cons.
  - destruct (base64_scan s) as [n|]; cbn [mbind option_bind].
    + destruct IH as [IH ->]. by split; [constructor |].
    + by intros [_ ?]%Forall_cons.
Qed.

Lemma before_pad_take s n : n = length (before_pad s) -> take n s = before_pad s.
Proof.
  intros ->. induction s as [|c s IH]; [done |]. cbn [before_pad]. destruct (c =? 61); [done |].
  cbn [length take firstn]. by f_equal.
Qed.

Lemma list_ind4 {A} (P : list A -> Prop) :
  P [] -> (forall a, P [a]) -> (forall a b, P [a; b]) -> (forall a b c, P [a; b; c]) ->
  (forall a b c d s, P s -> P (a :: b :: c :: d :: s)) -> forall s, P s.
Proof.
  intros H0 H1 H2 H3 H4 s. remember (length s) as n eqn:Hn. revert s Hn.
  induction (lt_wf n) as [n _ IH]. intros s ->.
  destruct s as [|a [|b [|c [|d s]]]]; auto. apply H4. eapply IH; [|reflexivity]. simpl. lia.
Qed.

Lemma base64_groups_length s : length (base64_groups s) = (3 * length s / 4)%nat /\ bytes (base64_groups s).
Proof.
  induction s as [| | | |a b c d s [IHl IHb]] using list_ind4; cbn [base64_groups];
    try (split; [reflexivity | repeat constructor; apply u8_range]).
  split; [|repeat constructor; try apply u8_range; done]. cbn [length]. rewrite IHl.
  replace (3 * S (S (S (S (length s)))))%nat with (3 * length s + 3 * 4)%nat by lia.
  rewrite Nat.div_add by lia. lia.
Qed.

(** ** URI escapes *)

Lemma hex_digit_first x d p type s :
  0 <= x < 16 ->
  string_unescape_uri sw_quoted d p type (tbl hex x :: s) = string_unescape_uri sw_quoted_second x (tbl hex x) type s.
Proof.
  intros Hx. cbn [string_unescape_uri].
  pose proof (forall_below_Z 16 (fun x => let b := tbl hex x in
    if (48 <=? b) && (b <=? 57) then u8 (b - 48) =? x
    else (97 <=? u8 (Z.lor b 0x20)) && (u8 (Z.lor b 0x20) <=? 102) && (u8 (u8 (Z.lor b 0x20) - 97 + 10) =? x))
    eq_refl x Hx) as H. cbv beta zeta in H.
  destruct ((48 <=? tbl hex x) && (tbl hex x <=? 57)).
  - apply Z.eqb_eq in H. rewrite H. by destruct (string_unescape_uri sw_quoted_second x (tbl hex x) type s).
  - apply andb_true_iff in H as [H1 H2]. rewrite H1. apply Z.eqb_eq in H2. rewrite H2.
    by destruct (string_unescape_uri sw_quoted_second x (tbl hex x) type s).
Qed.

Lemma hex_digit_second x y p s :
  0 <= x < 16 -> 0 <= y < 16 ->
  string_unescape_uri sw_quoted_second x p 0 (tbl hex y :: s) =
    let '(d, s') := string_unescape_uri sw_usual x (tbl hex y) 0 s in (x * 16 + y :: d, s').
Proof.
  intros Hx Hy. cbn [string_unescape_uri]. change (flag 0 DFS_UNESCAPE_REDIRECT) with false.
  change (flag 0 DFS_UNESCAPE_URI) with false. cbv beta iota zeta.
  pose proof (forall_below_Z 16 (fun y => let b := tbl hex y in
    if (48 <=? b) && (b <=? 57) then b - 48 =? y
    else (97 <=? u8 (Z.lor b 0x20)) && (u8 (Z.lor b 0x20) <=? 102) && (u8 (Z.lor b 0x20) - 97 + 10 =? y))
    eq_refl y Hy) as H. cbv beta zeta in H. rewrite !Z.shiftl_mul_pow2 by lia.
  destruct ((48 <=? tbl hex y) && (tbl hex y <=? 57)).
  - rewrite u8_small by (unfold is_u8; lia). replace (x * 2 ^ 4 + tbl hex y - 48) with (x * 16 + y) by lia. done.
  - apply andb_true_iff in H as [H1 H2]. rewrite H1. apply Z.eqb_eq in H2.
    replace (x * 2 ^ 4 + u8 (Z.lor (tbl hex y) 0x20) - 97 + 10) with (x * 16 + y) by lia.
    rewrite u8_small by (unfold is_u8; lia). done.
Qed.

Lemma unescape_usual c d p s :
  c <> 37 ->
  string_unescape_uri sw_usual d p 0 (c :: s) = let '(o, s') := string_unescape_uri sw_usual d c 0 s in (c :: o, s').
Proof.
  intros Hc. cbn [string_unescape_uri]. change (flag 0 _) with false. rewrite andb_false_r.
  by rewrite (proj2 (Z.eqb_neq c 37) Hc).
Qed.

Lemma unescape_escape escape src d p :
  escaped escape 37 = true -> bytes src ->
  string_unescape_uri sw_usual d p 0 (escape_uri_bytes escape src) = (src, []).
Proof.
  intros H37 Hs. revert d p. induction Hs as [|c src Hc Hs IH]; intros d p; [done |].
  cbn [escape_uri_bytes]. destruct (escaped escape c) eqn:He; cbn [app].
  - destruct (nibbles c Hc) as (Hh & Hl & E).
    transitivity (string_unescape_uri sw_quoted d 37 0
      (tbl hex (Z.shiftr c 4) :: tbl hex (Z.land c 0xf) :: escape_uri_bytes escape src)).
    { cbn [string_unescape_uri]. change (flag 0 _) with false. cbn [Z.eqb Pos.eqb andb app].
      by match goal with |- (let '(_, _) := ?x in _) = _ => destruct x end. }
    rewrite hex_digit_first, hex_digit_second by done. by rewrite IH, E.
  - rewrite unescape_usual by (intros ->; congruence). by rewrite IH.
Qed.

Lemma escape_uri_count_spec escape src n :
  0 <= n -> n + Z.of_nat (length src) < 2 ^ 32 ->
  n <= escape_uri_count escape src n <= n + Z.of_nat (length src) /\
  Z.of_nat (length (escape_uri_bytes escape src)) =
    Z.of_nat (length src) + 2 * (escape_uri_count escape src n - n).
Proof.
  revert n. induction src as [|c src IH]; intros n Hn Hl; [simpl; lia |].
  cbn [escape_uri_count escape_uri_bytes length] in *. rewrite length_app.
  destruct (escaped escape c); cbn [length].
  - rewrite u32_small by (unfold is_u32; lia). specialize (IH (n + 1)). lia.
  - specialize (IH n). lia.
Qed.

Lemma escape_safe escape t src b :
  escape_map !! t = Some escape -> b ∈ escape_uri_bytes escape src -> bytes src -> b = 37 \/ escaped escape b = false.
Proof.
  intros Ht Hb Hs.
  assert (forall x, 0 <= x < 16 -> escaped escape (tbl hex x) = false) as Hhex.
  { intros x Hx. apply negb_true_iff.
    apply list_elem_of_lookup_2 in Ht. revert x Hx. apply (forall_below_Z 16).
    repeat (apply elem_of_cons in Ht as [-> | Ht]; [reflexivity |]). by apply elem_of_nil in Ht. }
  induction Hs as [|c src Hc Hs IH]; [by apply elem_of_nil in Hb |].
  cbn [escape_uri_bytes] in Hb. apply elem_of_app in Hb as [Hb | Hb]; [|auto].
  destruct (nibbles c Hc) as (Hh & Hl & _).
  destruct (escaped escape c) eqn:He; rewrite !elem_of_cons in Hb.
  - destruct Hb as [-> | [-> | [-> | ?%elem_of_nil]]]; [by left | right; by apply Hhex.. | done].
  - destruct Hb as [-> | ?%elem_of_nil]; [by right | done].
Qed.

(** Bytes a state has consumed without writing. *)
Definition owed (st : unescape_state) : nat :=
  match st with sw_usual => 0 | sw_quoted => 1 | sw_quoted_second => 2 end.

Lemma unescape_length type src st d p out rest :
  string_unescape_uri st d p type src = (out, rest) -> (length out + length rest <= owed st + length src)%nat.
Proof.
  revert st d p out rest. induction src as [|b src IH]; intros st d p out rest H; [injection H as <- <-; simpl; lia |].
  assert (forall o st' dec, (let '(d', s') := string_unescape_uri st' dec b type src in (o ++ d', s')) = (out, rest) ->
    (length o + owed st' <= owed st + 1)%nat -> (length out + length rest <= owed st + length (b :: src))%nat) as Hput.
  { intros o st' dec Hp Ho. destruct (string_unescape_uri st' dec b type src) as [d' s'] eqn:E.
    injection Hp as <- <-. apply IH in E. rewrite length_app. simpl. lia. }
  assert (forall c, ([c], src) = (out, rest) -> (length out + length rest <= owed st + length (b :: src))%nat) as Hdone.
  { intros c [= <- <-]. simpl. lia. }
  cbn [string_unescape_uri] in H. destruct st;
    repeat match type of H with (if ?c then _ else _) = _ => destruct c end;
    first [by eapply Hdone | by eapply Hput; [exact H | simpl; lia]].
Qed.

(** ** HTML escapes *)

Lemma escape_html_count_spec src n :
  0 <= n -> n + 4 * Z.of_nat (length src) < 2 ^ 32 ->
  n <= escape_html_count src n <= n + 4 * Z.of_nat (length src) /\
  Z.of_nat (length (string_escape_html src)) = Z.of_nat (length src) + (escape_html_count src n - n).
Proof.
  revert n. induction src as [|c src IH]; intros n Hn Hl; [simpl; lia |].
  cbn [escape_html_count string_escape_html length] in *. rewrite length_app.
  destruct (c =? 60); [|destruct (c =? 62); [|destruct (c =? 38)]]; cbn [length].
  - rewrite u32_small by (unfold is_u32; lia). specialize (IH (n + (5 - 2))). lia.
  - rewrite u32_small by (unfold is_u32; lia). specialize (IH (n + (5 - 2))). lia.
  - rewrite u32_small by (unfold is_u32; lia). specialize (IH (n + (6 - 2))). lia.
  - specialize (IH n). lia.
Qed.

Lemma escape_html_safe src b : b ∈ string_escape_html src -> b <> 60 /\ b <> 62.
Proof.
  induction src as [|c src IH]; [by intros ?%elem_of_nil |]. cbn [string_escape_html].
  intros [H | H]%elem_of_app; [|auto]. revert H.
  destruct (Z.eqb_spec c 60); [|destruct (Z.eqb_spec c 62); [|destruct (Z.eqb_spec c 38)]];
    rewrite !elem_of_cons; intros H; repeat destruct H as [-> | H]; try lia; by apply elem_of_nil in H.
Qed.

Lemma escape_html_inj s t : string_escape_html s = string_escape_html t -> s = t.
Proof.
  revert t. induction s as [|a s IH]; intros [|b t] H; cbn [string_escape_html] in H; [done | | |].
  - by destruct (b =? 60), (b =? 62), (b =? 38).
  - by destruct (a =? 60), (a =? 62), (a =? 38).
  - destruct (Z.eqb_spec a 60) as [-> | Ha1]; [|destruct (Z.eqb_spec a 62) as [-> | Ha2];
      [|destruct (Z.eqb_spec a 38) as [-> | Ha3]]];
    (destruct (Z.eqb_spec b 60) as [-> | Hb1]; [|destruct (Z.eqb_spec b 62) as [-> | Hb2];
      [|destruct (Z.eqb_spec b 38) as [-> | Hb3]]]);
    cbn [app] in H; simplify_eq; f_equal; by apply IH.
Qed.

(** ** UTF-8 *)

(** The encoding of a code point (RFC 3629). *)
Definition utf8_encode (cp : Z) : list Z :=
  if cp <? 0x80 then [cp]
  else if cp <? 0x800 then [0xc0 + cp / 64; 0x80 + cp mod 64]
  else if cp <? 0x10000 then [0xe0 + cp / 4096; 0x80 + cp / 64 mod 64; 0x80 + cp mod 64]
  else [0xf0 + cp / 262144; 0x80 + cp / 4096 mod 64; 0x80 + cp / 64 mod 64; 0x80 + cp mod 64].

(** Code points whose lead byte is neither [0xe0] nor [0xf0]. *)
Definition utf8_ok (cp : Z) : Prop :=
  0x80 <= cp < 0x800 \/ 0x1000 <= cp < 0x10000 \/ 0x40000 <= cp < 0x110000.

Lemma utf8_cont_step len u x p :
  0 <= u < 2 ^ 20 -> 0 <= x < 64 -> utf8_cont (S len) u (0x80 + x :: p) = utf8_cont len (u * 64 + x) p.
Proof.
  intros Hu Hx. cbn [utf8_cont head tail mbind option_bind].
  rewrite (proj2 (Z.ltb_ge _ _)) by lia. f_equal.
  rewrite (land_mask 6 0x3f) by done. replace ((0x80 + x) mod 2 ^ 6) with x by div_mod_lia.
  rewrite lor_shiftl_add by lia. rewrite u32_small by (unfold is_u32; lia). lia.
Qed.

Lemma utf8_decode_lead1 u p n :
  0xc0 < u <= 0xe0 -> 2 <= n < 2 ^ 64 ->
  string_utf8_decode (u :: p) n =
    ('(r, p) ← utf8_cont 1 (u mod 32) p;
     Some (match r with Some u => if 0x7f <? u then u else 0xffffffff | None => 0xffffffff end, p)).
Proof.
  intros Hu Hn. unfold string_utf8_decode. cbn [head tail mbind option_bind].
  rewrite (proj2 (Z.ltb_ge 0xf0 u)), (proj2 (Z.ltb_ge 0xe0 u)), (proj2 (Z.ltb_lt 0xc0 u)) by lia.
  rewrite u64_small by (unfold is_u64; lia). rewrite (proj2 (Z.ltb_ge (n - 1) _)) by (simpl; lia).
  by rewrite (land_mask 5 0x1f).
Qed.

Lemma utf8_decode_lead2 u p n :
  0xe0 < u <= 0xf0 -> 3 <= n < 2 ^ 64 ->
  string_utf8_decode (u :: p) n =
    ('(r, p) ← utf8_cont 2 (u mod 16) p;
     Some (match r with Some u => if 0x7ff <? u then u else 0xffffffff | None => 0xffffffff end, p)).
Proof.
  intros Hu Hn. unfold string_utf8_decode. cbn [head tail mbind option_bind].
  rewrite (proj2 (Z.ltb_ge 0xf0 u)), (proj2 (Z.ltb_lt 0xe0 u)) by lia.
  rewrite u64_small by (unfold is_u64; lia). rewrite (proj2 (Z.ltb_ge (n - 1) _)) by (simpl; lia).
  by rewrite (land_mask 4 0x0f).
Qed.

Lemma utf8_decode_lead3 u p n :
  0xf0 < u < 0x100 -> 4 <= n < 2 ^ 64 ->
  string_utf8_decode (u :: p) n =
    ('(r, p) ← utf8_cont 3 (u mod 8) p;
     Some (match r with Some u => if 0xffff <? u then u else 0xffffffff | None => 0xffffffff end, p)).
Proof.
  intros Hu Hn. unfold string_utf8_decode. cbn [head tail mbind option_bind].
  rewrite (proj2 (Z.ltb_lt 0xf0 u)) by lia.
  rewrite u64_small by (unfold is_u64; lia). rewrite (proj2 (Z.ltb_ge (n - 1) _)) by (simpl; lia).
  by rewrite (land_mask 3 0x07).
Qed.

Lemma utf8_decode_ok cp rest n :
  utf8_ok cp -> Z.of_nat (length (utf8_encode cp)) <= n < 2 ^ 64 ->
  string_utf8_decode (utf8_encode cp ++ rest) n = Some (cp, rest).
Proof.
  unfold utf8_encode. intros [H | [H | H]] Hn.
  - rewrite (proj2 (Z.ltb_ge cp 0x80)), (proj2 (Z.ltb_lt cp 0x800)) in * by lia. cbn [length] in Hn. cbn [app].
    rewrite utf8_decode_lead1 by div_mod_lia. rewrite utf8_cont_step by div_mod_lia.
    cbn [utf8_cont mbind option_bind]. replace (_ * 64 + _) with cp by div_mod_lia.
    by rewrite (proj2 (Z.ltb_lt 0x7f cp)) by lia.
  - rewrite (proj2 (Z.ltb_ge cp 0x80)), (proj2 (Z.ltb_ge cp 0x800)), (proj2 (Z.ltb_lt cp 0x10000)) in * by lia.
    cbn [length] in Hn. cbn [app].
    rewrite utf8_decode_lead2 by div_mod_lia. rewrite !utf8_cont_step by div_mod_lia.
    cbn [utf8_cont mbind option_bind]. replace ((_ * 64 + _) * 64 + _) with cp by div_mod_lia.
    by rewrite (proj2 (Z.ltb_lt 0x7ff cp)) by lia.
  - rewrite (proj2 (Z.ltb_ge cp 0x80)), (proj2 (Z.ltb_ge cp 0x800)), (proj2 (Z.ltb_ge cp 0x10000)) in * by lia.
    cbn [length] in Hn. cbn [app].
    rewrite utf8_decode_lead3 by div_mod_lia. rewrite !utf8_cont_step by div_mod_lia.
    cbn [utf8_cont mbind option_bind]. replace (((_ * 64 + _) * 64 + _) * 64 + _) with cp by div_mod_lia.
    by rewrite (proj2 (Z.ltb_lt 0xffff cp)) by lia.
Qed.

(** Lead byte [0xe0] is taken for one of two bytes, [0xf0] for one of three. *)
Lemma utf8_decode_e0 cp rest n :
  0x800 <= cp < 0x1000 -> 3 <= n < 2 ^ 64 ->
  string_utf8_decode (utf8_encode cp ++ rest) n = Some (0xffffffff, 0x80 + cp mod 64 :: rest).
Proof.
  intros H Hn. unfold utf8_encode.
  rewrite (proj2 (Z.ltb_ge cp 0x80)), (proj2 (Z.ltb_ge cp 0x800)), (proj2 (Z.ltb_lt cp 0x10000)) by lia.
  cbn [app]. rewrite utf8_decode_lead1 by div_mod_lia. rewrite !utf8_cont_step by div_mod_lia.
  cbn [utf8_cont mbind option_bind]. by rewrite (proj2 (Z.ltb_ge _ _)) by div_mod_lia.
Qed.

Lemma utf8_decode_f0 cp rest n :
  0x10000 <= cp < 0x40000 -> 4 <= n < 2 ^ 64 ->
  string_utf8_decode (utf8_encode cp ++ rest) n =
    Some (if 0x7ff <? cp / 64 then cp / 64 else 0xffffffff, 0x80 + cp mod 64 :: rest).
Proof.
  intros H Hn. unfold utf8_encode.
  rewrite (proj2 (Z.ltb_ge cp 0x80)), (proj2 (Z.ltb_ge cp 0x800)), (proj2 (Z.ltb_ge cp 0x10000)) by lia.
  cbn [app]. rewrite utf8_decode_lead2 by div_mod_lia. rewrite !utf8_cont_step by div_mod_lia.
  cbn [utf8_cont mbind option_bind]. by replace ((_ * 64 + _) * 64 + _) with (cp / 64) by div_mod_lia.
Qed.

Lemma utf8_encode_length cp : (1 <= length (utf8_encode cp) <= 4)%nat.
Proof. unfold utf8_encode. destruct (cp <? 0x80), (cp <? 0x800), (cp <? 0x10000); simpl; lia. Qed.

Lemma utf8_encode_lead cp : utf8_ok cp -> exists u t, utf8_encode cp = u :: t /\ 0x80 <= u.
Proof.
  unfold utf8_encode, utf8_ok. intros H. rewrite (proj2 (Z.ltb_ge cp 0x80)) by lia.
  destruct (cp <? 0x800); [|destruct (cp <? 0x10000)]; do 2 eexists; (split; [done |]); div_mod_lia.
Qed.

Lemma utf8_length_spec cps rest fuel n len :
  Forall (fun c => 0 <= c < 0x80 \/ utf8_ok c) cps ->
  (length (cps ≫= utf8_encode) <= fuel)%nat ->
  Z.of_nat (length (cps ≫= utf8_encode)) <= n < 2 ^ 64 ->
  utf8_length_loop fuel ((cps ≫= utf8_encode) ++ rest) (Z.of_nat (length (cps ≫= utf8_encode))) n len =
    Some (len + Z.of_nat (length cps)).
Proof.
  intros Hc. revert fuel len. induction Hc as [|c cps Hc Hcps IH]; intros fuel len Hf Hn.
  - destruct fuel; simpl; f_equal; lia.
  - pose proof (utf8_encode_length c) as Hl. rewrite bind_cons, length_app in *.
    destruct fuel as [|fuel]; [lia |]. cbn [utf8_length_loop].
    rewrite (proj2 (Z.leb_gt _ 0)) by lia. rewrite <- (assoc_L app). destruct Hc as [Hc | Hc].
    + assert (utf8_encode c = [c]) as E by (unfold utf8_encode; by rewrite (proj2 (Z.ltb_lt c 0x80)) by lia).
      rewrite E in *. cbn [app head tail mbind option_bind length] in *.
      rewrite (proj2 (Z.ltb_lt c 0x80)) by lia.
      replace (Z.of_nat (1 + _) - 1) with (Z.of_nat (length (cps ≫= utf8_encode))) by lia.
      rewrite IH by lia. f_equal. lia.
    + destruct (utf8_encode_lead c Hc) as (u & t & E & Hu).
      assert (head (utf8_encode c ++ (cps ≫= utf8_encode) ++ rest) = Some u) as -> by (by rewrite E).
      cbn [mbind option_bind]. rewrite (proj2 (Z.ltb_ge u 0x80)) by lia.
      rewrite utf8_decode_ok by (done || lia). cbn [mbind option_bind].
      assert (c < 0x110000) as Hc' by (unfold utf8_ok in Hc; lia).
      rewrite (proj2 (Z.ltb_ge 0x10ffff c)) by lia.
      rewrite !length_app.
      replace (Z.of_nat (length (utf8_encode c) + length (cps ≫= utf8_encode)) - _)
        with (Z.of_nat (length (cps ≫= utf8_encode))) by lia.
      rewrite IH by lia. f_equal. cbn [length]. lia.
Qed.

(** ** Claims *)

(** Base64: decoding an encoding, whatever padding or text follows it, gives back the
    bytes; an encoding of [n] bytes has 4 * ceil(n / 3) characters. *)
Theorem base64_roundtrip s rest :
  bytes s ->
  string_base64_decode (string_base64_encode s ++ 61 :: rest) = Some s /\
  string_base64_decode (string_base64_encode s) = Some s /\
  length (string_base64_encode s) = (4 * ((length s + 2) / 3))%nat.
Proof.
  intros Hs. split; [| split; [|by apply base64_encode_length]].
  - destruct (base64_roundtrip_scan s rest Hs) as (len & Hsc & Hmod & Hg & _).
    unfold string_base64_decode. rewrite Hsc. cbn [mbind option_bind]. by rewrite bool_decide_false, Hg.
  - destruct (base64_roundtrip_scan s [] Hs) as (len & Hsc & Hmod & Hg & Hl).
    assert (base64_scan (string_base64_encode s) = Some len) as Hsc'.
    { clear - Hsc. revert len Hsc. generalize (string_base64_encode s) as l.
      induction l as [|c l IH]; intros len H; [done |]. cbn [base64_scan app] in *.
      destruct (c =? 61); [done |]. destruct (_ =? 77); [done |].
      apply bind_Some in H as (k & Hk & H). by rewrite (IH k Hk). }
    unfold string_base64_decode. rewrite Hsc'. cbn [mbind option_bind]. rewrite bool_decide_false by done.
    by rewrite take_app_le in Hg by done; rewrite Hg.
Qed.

(** The Base64 decoder returns an error exactly when a character before the first [=]
    is outside the alphabet or their number is 1 modulo 4; otherwise it writes three bytes
    for every four characters, rounded down. *)
Theorem base64_decode_total src :
  match string_base64_decode src with
  | Some out => Forall in_alphabet (before_pad src) /\ (length (before_pad src) mod 4 <> 1)%nat /\
      length out = (3 * length (before_pad src) / 4)%nat /\ bytes out
  | None => ~ Forall in_alphabet (before_pad src) \/ (length (before_pad src) mod 4 = 1)%nat
  end.
Proof.
  unfold string_base64_decode. pose proof (base64_scan_spec src) as H.
  destruct (base64_scan src) as [n|]; cbn [mbind option_bind]; [|by left].
  destruct H as [Ha Hn]. case_bool_decide as Hm; [right; by rewrite <- Hn |].
  rewrite (before_pad_take _ _ Hn). destruct (base64_groups_length (before_pad src)) as [Hl Hb].
  rewrite <- Hn. by rewrite <- Hn in Hl.
Qed.

(** URI escaping: the count mode returns the number of bytes escaped, each taking two
    more bytes; the result holds no byte the escape set names, except the percent signs it
    inserts; and for every set but [refresh], which lacks the percent sign, unescaping gives
    back the source. With [refresh] the space and the text "%20" have the same escape. *)
Theorem escape_uri_roundtrip t escape src :
  escape_map !! t = Some escape -> bytes src -> Z.of_nat (length src) < 2 ^ 32 ->
  exists n out, string_escape_uri src t = Some (n, out) /\
    Z.of_nat (length out) = Z.of_nat (length src) + 2 * n /\
    (forall b, b ∈ out -> b = 37 \/ escaped escape b = false) /\
    (t <> 3%nat -> string_unescape_uri sw_usual 0 0 0 out = (src, [])) /\
    snd <$> string_escape_uri [32] 3 = snd <$> string_escape_uri [37; 50; 48] 3.
Proof.
  intros Ht Hs Hl. unfold string_escape_uri at 1. rewrite Ht. do 2 eexists. split; [done |].
  destruct (escape_uri_count_spec escape src 0) as [_ Hlen]; [lia.. |]. split; [lia |].
  split; [intros b Hb; by eapply escape_safe |]. split; [|reflexivity].
  intros Hne. apply unescape_escape; [|done].
  do 6 (destruct t as [|t]; [injection Ht as <-; reflexivity || by destruct Hne |]). done.
Qed.

(** [string_unescape_uri] can work in place: at any point, for any type, it has written
    no more bytes than it has read. *)
Theorem unescape_uri_in_place type src out rest :
  string_unescape_uri sw_usual 0 0 type src = (out, rest) ->
  (length out + length rest <= length src)%nat.
Proof. intros H. by apply unescape_length in H. Qed.

(** HTML escaping: the count mode returns the extra length, the result holds no angle
    bracket, and the escape is injective. *)
Theorem escape_html_correct src :
  4 * Z.of_nat (length src) < 2 ^ 32 ->
  Z.of_nat (length (string_escape_html src)) = Z.of_nat (length src) + escape_html_count src 0 /\
  (forall b, b ∈ string_escape_html src -> b <> 60 /\ b <> 62) /\
  (forall src', string_escape_html src = string_escape_html src' -> src = src').
Proof.
  intros Hl. split; [|split; [by apply escape_html_safe | by apply escape_html_inj]].
  destruct (escape_html_count_spec src 0) as [_ H]; lia.
Qed.

(** UTF-8: the decoder returns the code point and the rest of the text for every
    well-formed sequence of two to four bytes whose lead byte is not [0xe0] or [0xf0]; the
    latter it takes for shorter sequences: code points from U+0800 are rejected, and those
    from U+20000 to U+3FFFF come out as another character. [string_utf8_length] counts the
    characters of any text of ASCII and the accepted code points. *)
Theorem utf8_decode_encode cp cps rest n :
  4 <= n < 2 ^ 64 ->
  (utf8_ok cp -> string_utf8_decode (utf8_encode cp ++ rest) n = Some (cp, rest)) /\
  (0x800 <= cp < 0x1000 ->
     string_utf8_decode (utf8_encode cp ++ rest) n = Some (0xffffffff, 0x80 + cp mod 64 :: rest)) /\
  (0x20000 <= cp < 0x40000 ->
     string_utf8_decode (utf8_encode cp ++ rest) n = Some (cp / 64, 0x80 + cp mod 64 :: rest)) /\
  (Forall (fun c => 0 <= c < 0x80 \/ utf8_ok c) cps -> Z.of_nat (length (cps ≫= utf8_encode)) < 2 ^ 64 ->
     string_utf8_length ((cps ≫= utf8_encode) ++ rest) (length (cps ≫= utf8_encode)) = Some (Z.of_nat (length cps))).
Proof.
  intros Hn. pose proof (utf8_encode_length cp). split; [intros Hok; apply utf8_decode_ok; [done | lia] |].
  split; [intros Hc; apply utf8_decode_e0; lia |]. split.
  - intros Hc. rewrite utf8_decode_f0 by lia. by rewrite (proj2 (Z.ltb_lt 0x7ff _)) by div_mod_lia.
  - intros Hc Hl. unfold string_utf8_length. rewrite utf8_length_spec by (done || lia). f_equal.
Qed.

(** ** Witnesses *)

Lemma base64_roundtrip_witness : string_base64_decode (string_base64_encode [77; 97; 110; 33] ++ [61; 10]) = Some [77; 97; 110; 33].
Proof.
  destruct (base64_roundtrip [77; 97; 110; 33] [10]) as [H _].
  - repeat constructor; unfold is_u8; lia.
  - exact H.
Defined.

Lemma escape_uri_roundtrip_witness :
  exists n out, string_escape_uri [97; 32; 37] 0 = Some (n, out) /\ string_unescape_uri sw_usual 0 0 0 out = ([97; 32; 37], []).
Proof.
  destruct (escape_uri_roundtrip 0 escape_uri [97; 32; 37]) as (n & out & H1 & _ & _ & H2 & _).
  - reflexivity.
  - repeat constructor; unfold is_u8; lia.
  - reflexivity.
  - exists n, out. split; [exact H1 | apply H2; discriminate].
Defined.

(** "%41?x" *)
Lemma unescape_uri_in_place_witness :
  exists out rest, string_unescape_uri sw_usual 0 0 1 [37; 52; 49; 63; 120] = (out, rest) /\ (length out + length rest <= 5)%nat.
Proof.
  eexists. eexists. split; [reflexivity |].
  exact (unescape_uri_in_place 1 [37; 52; 49; 63; 120] _ _ eq_refl).
Defined.

Lemma escape_html_correct_witness : Z.of_nat (length (string_escape_html [60; 97; 38])) = 3 + escape_html_count [60; 97; 38] 0.
Proof.
  destruct (escape_html_correct [60; 97; 38]) as [H _]; [reflexivity | exact H].
Defined.

(** The euro sign, followed by "a". *)
Lemma utf8_decode_encode_witness : string_utf8_decode (utf8_encode 0x20ac ++ [97]) 4 = Some (0x20ac, [97]).
Proof.
  destruct (utf8_decode_encode 0x20ac [] [97] 4) as [H _]; [lia |].
  apply H. right. left. lia.
Defined.
