(* ===== verification/Format.v ===== *)
(** * The formatter [string_xxvsnprintf] ([src/core/dfs_string.cpp])

    The output is the list of bytes written from [buf]; [pend] is an address and [room] is
    [pend - buf], a [Z] so that a write past [pend] would show. The sum of a pointer and a
    length wraps at 64 bits, as the machine's does. The variable arguments are a list of tagged values;
    an argument of the wrong kind, or one that is missing, is undefined ([None]), as is
    reading the format past the end of its buffer. *)

From S2P Require Import Prelude Strings.

Inductive va :=
| VInt (z : Z)
| VStr (p : list Z)       (* uchar_t * *)
| VString (data : list Z) (* string_t * *).

Definition NGX_INT64_LEN : Z := 20.
Definition DFS_INT_T_LEN : Z := NGX_INT64_LEN.
Definition NGX_PTR_SIZE : Z := 4.
Definition DFS_MAX_UINT32_VALUE : Z := 0xffffffff.

Definition HEX : list Z := [48; 49; 50; 51; 52; 53; 54; 55; 56; 57; 65; 66; 67; 68; 69; 70].

(** The locals of one conversion. *)
Record conv := {
  zero : Z; width : Z; sign : bool; hexadecimal : Z; max_width : bool; slen : Z
}.

Definition va_int (args : list va) : option (Z * list va) :=
  match args with VInt z :: args => Some (z, args) | _ => None end.

(* src/src/core/dfs_string.cpp:242-245 (string_xxvsnprintf: width) *)
Fixpoint fmt_width (fmt : list Z) (w : Z) : option (Z * list Z) :=
  match fmt with
  | [] => None
  | c :: fmt' => if is_digit c then fmt_width fmt' (u32 (u32 (w * 10) + c - 48)) else Some (w, fmt)
  end.

(* src/src/core/dfs_string.cpp:247-283 (string_xxvsnprintf: flags) *)
Fixpoint fmt_flags (fmt : list Z) (cv : conv) (args : list va) : option (conv * list Z * list va) :=
  match fmt with
  | [] => None
  | c :: fmt' =>
      if c =? 117 then
        fmt_flags fmt' {| zero := zero cv; width := width cv; sign := false; hexadecimal := hexadecimal cv;
                          max_width := max_width cv; slen := slen cv |} args
      else if c =? 109 then
        fmt_flags fmt' {| zero := zero cv; width := width cv; sign := sign cv; hexadecimal := hexadecimal cv;
                          max_width := true; slen := slen cv |} args
      else if c =? 88 then
        fmt_flags fmt' {| zero := zero cv; width := width cv; sign := false; hexadecimal := 2;
                          max_width := max_width cv; slen := slen cv |} args
      else if c =? 120 then
        fmt_flags fmt' {| zero := zero cv; width := width cv; sign := false; hexadecimal := 1;
                          max_width := max_width cv; slen := slen cv |} args
      else if c =? 42 then
        '(z, args) ← va_int args;
        fmt_flags fmt' {| zero := zero cv; width := width cv; sign := sign cv; hexadecimal := hexadecimal cv;
                          max_width := max_width cv; slen := u64 z |} args
      else Some (cv, fmt, args)
  end.

(** What a conversion character does: write bytes and go on, fetch a number, or neither. *)
Inductive action :=
| Put (out : list Z) (args : list va)
| Number (cv : conv) (i64 ui64 : Z) (args : list va).

Definition set_sign (s : bool) (cv : conv) : conv :=
  {| zero := zero cv; width := width cv; sign := s; hexadecimal := hexadecimal cv;
     max_width := max_width cv; slen := slen cv |}.
Definition set_width (w : Z) (cv : conv) : conv :=
  {| zero := zero cv; width := w; sign := sign cv; hexadecimal := hexadecimal cv;
     max_width := max_width cv; slen := slen cv |}.

(** [if (sign) i64 = (int64_t) va_arg(args, T) else ui64 = (uint64_t) va_arg(args, U)]. *)
Definition fetch (t u : Z -> Z) (cv : conv) (args : list va) : option action :=
  '(z, args) ← va_int args;
  Some (if sign cv then Number cv (t z) 0 args else Number cv 0 (u z) args).

(** [i64 = (int64_t) va_arg(args, T); sign = 1]. *)
Definition fetch_signed (t : Z -> Z) (cv : conv) (args : list va) : option action :=
  '(z, args) ← va_int args; Some (Number (set_sign true cv) (t z) 0 args).

(** [len = (buf + len < pend) ? len : pend - buf; buf = memory_cpymem(buf, data, len)]. *)
(* src/src/core/dfs_string.cpp:287-312 (string_xxvsnprintf: V and s) *)
Definition bounded (pend len room : Z) (data : list Z) : option (list Z) :=
  let len := if u64 (pend - room + len) <? pend then len else room in
  if len <=? Z.of_nat (length data) then Some (take (Z.to_nat len) data) else None.

(** [while ( *p && buf < pend)] *)
Fixpoint copy_cstr (p : list Z) (room : nat) : option (list Z) :=
  match room with
  | O => _ ← head p; Some []
  | S room => c ← head p; if c =? 0 then Some [] else d ← copy_cstr (tail p) room; Some (c :: d)
  end.

(* src/src/core/dfs_string.cpp:285-466 (string_xxvsnprintf: conversion) *)
Definition fmt_convert (pend c : Z) (cv : conv) (room : Z) (args : list va) : option action :=
  if c =? 86 (* V *) then
    match args with
    | VString data :: args => out ← bounded pend (Z.of_nat (length data)) room data; Some (Put out args)
    | _ => None
    end
  else if c =? 115 (* s *) then
    match args with
    | VStr p :: args =>
        out ← (if slen cv =? 2 ^ 64 - 1 then copy_cstr p (Z.to_nat room) else bounded pend (slen cv) room p);
        Some (Put out args)
    | _ => None
    end
  else if c =? 79 (* O *) then fetch_signed s64 cv args
  else if c =? 80 (* P *) then fetch_signed s32 cv args
  else if c =? 84 (* T *) then fetch_signed s64 cv args
  else if c =? 77 (* M *) then
    '(z, args) ← va_int args;
    let ms := s64 z in
    Some (if ms =? -1 then Number (set_sign true cv) (-1) 0 args
          else Number (set_sign false cv) 0 (u64 ms) args)
  else if c =? 122 (* z *) then fetch s64 u64 cv args
  else if c =? 105 (* i *) then
    fetch s32 u32 (if max_width cv then set_width DFS_INT_T_LEN cv else cv) args
  else if c =? 100 (* d *) then fetch s32 u32 cv args
  else if c =? 108 (* l *) then fetch s64 u64 cv args
  else if c =? 68 (* D *) then fetch s32 u32 cv args
  else if c =? 76 (* L *) then fetch s64 u64 cv args
  else if c =? 65 (* A *) then
    fetch s32 u32 (if max_width cv then set_width NGX_INT64_LEN cv else cv) args
  else if c =? 114 (* r *) then fetch_signed s64 cv args
  else if c =? 112 (* p *) then
    '(z, args) ← va_int args;
    Some (Number {| zero := 48; width := NGX_PTR_SIZE * 2; sign := false; hexadecimal := 2;
                    max_width := max_width cv; slen := slen cv |} 0 (u64 z) args)
  else if c =? 99 (* c *) then '(z, args) ← va_int args; Some (Put [Z.land (s32 z) 0xff] args)
  else if c =? 90 (* Z *) then Some (Put [0] args)
  else if c =? 78 (* N *) then Some (Put [10] args)
  else if c =? 37 (* % *) then Some (Put [37] args)
  else Some (Put [c] args).

(** [do { *--p = ...; } while (ui64 /= base)] into [temp], which has [cap] bytes before [p]. *)
Fixpoint fmt_digits (digit : Z -> Z) (base : Z) (cap : nat) (u : Z) (acc : list Z) : option (list Z) :=
  match cap with
  | O => None
  | S cap =>
      let acc := digit (u mod base) :: acc in
      if u / base =? 0 then Some acc else fmt_digits digit base cap (u / base) acc
  end.

(** [while (len++ < width && buf < pend) *buf++ = zero] *)
Fixpoint fmt_pad (z : Z) (len width : Z) (room : nat) : list Z :=
  match room with
  | O => []
  | S room => if len <? width then z :: fmt_pad z (len + 1) width room else []
  end.

(* src/src/core/dfs_string.cpp:468-525 (string_xxvsnprintf: numbers) *)
Definition fmt_number (cv : conv) (i64 ui64 : Z) (room : Z) : option (list Z) :=
  '(minus, ui64) ←
    (if sign cv then
       if i64 <? 0 then z ← signed_ssize (- i64); Some ([45], z) else Some ([], i64)
     else Some ([], ui64));
  let room := room - Z.of_nat (length minus) in
  p ← (if hexadecimal cv =? 1 then fmt_digits (tbl hex) 16 (Z.to_nat NGX_INT64_LEN) ui64 []
       else if hexadecimal cv =? 2 then fmt_digits (tbl HEX) 16 (Z.to_nat NGX_INT64_LEN) ui64 []
       else if ui64 <=? DFS_MAX_UINT32_VALUE
       then fmt_digits (fun d => d + 48) 10 (Z.to_nat NGX_INT64_LEN) (u32 ui64) []
       else fmt_digits (fun d => d + 48) 10 (Z.to_nat NGX_INT64_LEN) ui64 []);
  let len := Z.of_nat (length p) in
  let pad := fmt_pad (zero cv) len (width cv) (Z.to_nat room) in
  let room := room - Z.of_nat (length pad) in
  Some (minus ++ pad ++ take (Z.to_nat (if room <? len then room else len)) p).

(** One pass per character of the format, which every pass consumes. *)
Fixpoint vsnprintf_loop (fuel : nat) (pend : Z) (fmt : list Z) (args : list va) (room : Z) : option (list Z) :=
  match fuel with
  | O => None
  | S fuel =>
      c ← head fmt;
      if (c =? 0) || (room <=? 0) then Some []
      else if c =? 37 then
        z ← head (tail fmt);
        '(w, fmt) ← fmt_width (tail fmt) 0;
        '(cv, fmt, args) ← fmt_flags fmt
          {| zero := if z =? 48 then 48 else 32; width := w; sign := true; hexadecimal := 0;
             max_width := false; slen := 2 ^ 64 - 1 |} args;
        c ← head fmt;
        a ← fmt_convert pend c cv room args;
        '(out, args) ←
          match a with
          | Put out args => Some (out, args)
          | Number cv i64 ui64 args => out ← fmt_number cv i64 ui64 room; Some (out, args)
          end;
        rest ← vsnprintf_loop fuel pend (tail fmt) args (room - Z.of_nat (length out));
        Some (out ++ rest)
      else
        rest ← vsnprintf_loop fuel pend (tail fmt) args (room - 1); Some (c :: rest)
  end.

(* src/src/core/dfs_string.cpp:198-241 (string_xxvsnprintf) *)
Definition string_xxvsnprintf (buf max : Z) (fmt : list Z) (args : list va) : option (list Z) :=
  if (max =? 0) || (buf =? 0) then Some [] else vsnprintf_loop (S (length fmt)) (buf + max) fmt args max.

(** ** Nothing is written past the end *)

Lemma fmt_pad_length z len width room :
  (length (fmt_pad z len width room) <= room)%nat.
Proof.
  revert len. induction room as [|room IH]; intros len; cbn [fmt_pad]; [simpl; lia |].
  destruct (len <? width); [|simpl; lia]. specialize (IH (len + 1)). simpl. lia.
Qed.

Lemma fmt_pad_spec z len width room :
  0 <= len ->
  fmt_pad z len width room = take room (replicate (Z.to_nat (width - len)) z).
Proof.
  revert len. induction room as [|room IH]; intros len Hl; [done |]. cbn [fmt_pad].
  destruct (Z.ltb_spec len width).
  - replace (Z.to_nat (width - len)) with (S (Z.to_nat (width - (len + 1)))) by lia.
    cbn [replicate take firstn]. by rewrite IH by lia.
  - by replace (Z.to_nat (width - len)) with 0%nat by lia.
Qed.

Lemma fmt_number_length cv i64 ui64 room out :
  0 < room -> fmt_number cv i64 ui64 room = Some out -> Z.of_nat (length out) <= room.
Proof.
  intros Hroom H. unfold fmt_number in H. apply bind_Some in H as ([minus u] & Hm & H).
  assert (length minus <= 1)%nat as Hminus.
  { destruct (sign cv); [|by injection Hm as <- _; simpl; lia].
    destruct (i64 <? 0); [apply bind_Some in Hm as (v & _ & Hm) |]; injection Hm as <- _; simpl; lia. }
  apply bind_Some in H as (p & _ & [= <-]).
  set (r := room - Z.of_nat (length minus)). set (pad := fmt_pad _ _ _ _).
  assert (length pad <= Z.to_nat r)%nat as Hpad by apply fmt_pad_length.
  rewrite !length_app, length_take. destruct (Z.ltb_spec (r - Z.of_nat (length pad)) (Z.of_nat (length p))); lia.
Qed.

Lemma copy_cstr_length p room out : copy_cstr p room = Some out -> (length out <= room)%nat.
Proof.
  revert p out. induction room as [|room IH]; intros p out H; cbn [copy_cstr] in H.
  - apply bind_Some in H as (c & _ & [= <-]). simpl. lia.
  - apply bind_Some in H as (c & _ & H). destruct (c =? 0); [injection H as <-; simpl; lia |].
    apply bind_Some in H as (d & Hd & [= <-]). apply IH in Hd. simpl. lia.
Qed.

(** Where a process has its memory, and how long a string in it can be. *)
Definition user_space : Z := 2 ^ 63.

Definition va_small (a : va) : Prop :=
  match a with VInt _ => True | VStr l | VString l => Z.of_nat (length l) < user_space end.

(** A length whose sum with the pointer wraps is longer than any string. *)
Lemma bounded_length pend len room data out :
  0 <= room <= pend -> pend <= user_space -> is_u64 len -> Z.of_nat (length data) < user_space ->
  bounded pend len room data = Some out -> Z.of_nat (length out) <= room.
Proof.
  unfold bounded, user_space, is_u64. intros Hr Hp Hl Hd H. destruct (Z.ltb_spec (u64 (pend - room + len)) pend) as [Hlt | _].
  - destruct (Z.leb_spec len (Z.of_nat (length data))); [| done]. injection H as <-. rewrite length_take.
    rewrite u64_small in Hlt by (unfold is_u64; lia). lia.
  - destruct (Z.leb_spec room (Z.of_nat (length data))); [| done]. injection H as <-. rewrite length_take. lia.
Qed.

Lemma va_int_small args z args' : Forall va_small args -> va_int args = Some (z, args') -> Forall va_small args'.
Proof. intros Ha H. destruct args as [| [] args]; try done. injection H as _ <-. by apply Forall_cons in Ha as [_ ?]. Qed.

Lemma fmt_flags_small fmt cv args cv' fmt' args' :
  is_u64 (slen cv) -> Forall va_small args -> fmt_flags fmt cv args = Some (cv', fmt', args') -> is_u64 (slen cv') /\ Forall va_small args'.
Proof.
  revert cv args. induction fmt as [| c fmt IH]; intros cv args Hs Ha H; cbn [fmt_flags] in H; [done |].
  repeat match type of H with (if ?b then _ else _) = _ => destruct b end; try (by eapply IH in H).
  - apply bind_Some in H as ([z args1] & Hz & H). eapply IH in H; [done | apply u64_range | by eapply va_int_small].
  - by injection H as <- _ <-.
Qed.

Lemma fetch_number t u cv args a : fetch t u cv args = Some a -> exists cv' i ui args', a = Number cv' i ui args'.
Proof.
  unfold fetch. intros H. apply bind_Some in H as ([z args'] & _ & [= <-]).
  destruct (sign cv); do 4 eexists; reflexivity.
Qed.

Lemma fetch_signed_number t cv args a :
  fetch_signed t cv args = Some a -> exists cv' i ui args', a = Number cv' i ui args'.
Proof.
  unfold fetch_signed. intros H. apply bind_Some in H as ([z args'] & _ & [= <-]). do 4 eexists. reflexivity.
Qed.

Lemma fmt_convert_length pend c cv room args out args' :
  0 < room <= pend -> pend <= user_space -> is_u64 (slen cv) -> Forall va_small args ->
  fmt_convert pend c cv room args = Some (Put out args') -> Z.of_nat (length out) <= room.
Proof.
  intros Hr Hp Hs Ha H. unfold fmt_convert in H.
  repeat match type of H with (if ?b then _ else _) = _ => destruct b end;
    try (apply fetch_number in H as (? & ? & ? & ? & [=]));
    try (apply fetch_signed_number in H as (? & ? & ? & ? & [=]));
    try (injection H as <- _; simpl; lia).
  - destruct args as [|[| |data] args]; try done. apply Forall_cons in Ha as [Hd _]. cbn in Hd. apply bind_Some in H as (o & Ho & [= <- _]).
    apply bounded_length in Ho; unfold is_u64, user_space in *; lia.
  - destruct args as [|[|p|] args]; try done. apply Forall_cons in Ha as [Hd _]. cbn in Hd. apply bind_Some in H as (o & Ho & [= <- _]).
    destruct (slen cv =? _); [apply copy_cstr_length in Ho; lia | apply bounded_length in Ho; done || lia].
  - apply bind_Some in H as ([z args''] & _ & H). destruct (s64 z =? -1); done.
  - apply bind_Some in H as ([z args''] & _ & H). done.
  - apply bind_Some in H as ([z args''] & _ & [= <- _]). simpl. lia.
Qed.

Lemma fmt_convert_small pend c cv room args a :
  Forall va_small args -> fmt_convert pend c cv room args = Some a -> Forall va_small (match a with Put _ args' | Number _ _ _ args' => args' end).
Proof.
  intros Ha H. unfold fmt_convert, fetch, fetch_signed in H.
  repeat match type of H with (if ?b then _ else _) = _ => destruct b end.
  all: try (apply bind_Some in H as ([z args'] & Hz & H); apply va_int_small in Hz; [| done]; injection H as <-; repeat match goal with |- context [if ?b then _ else _] => destruct b end; done).
  all: try (by injection H as <-).
  all: destruct args as [| [] args]; try done; apply bind_Some in H as (o & _ & [= <-]); by apply Forall_cons in Ha as [_ ?].
Qed.

Lemma vsnprintf_loop_length fuel pend fmt args room out :
  0 <= room <= pend -> pend <= user_space -> Forall va_small args ->
  vsnprintf_loop fuel pend fmt args room = Some out -> Z.of_nat (length out) <= room.
Proof.
  intros Hroom Hp. revert fmt args room out Hroom. induction fuel as [|fuel IH]; intros fmt args room out Hroom Hargs H; [done |].
  cbn [vsnprintf_loop] in H. apply bind_Some in H as (c & _ & H).
  destruct (c =? 0); [injection H as <-; simpl; lia |]. destruct (Z.leb_spec room 0); [injection H as <-; simpl; lia |].
  cbn [orb] in H. destruct (c =? 37).
  - apply bind_Some in H as (z & _ & H). apply bind_Some in H as ([w fmt1] & _ & H).
    apply bind_Some in H as ([[cv fmt2] args1] & Hf & H). apply bind_Some in H as (c' & _ & H).
    apply bind_Some in H as (a & Ha & H). apply bind_Some in H as ([o args2] & Ho & H).
    apply bind_Some in H as (rest & Hrest & [= <-]).
    apply fmt_flags_small in Hf as [Hs Hargs1]; [| cbn; unfold is_u64; lia | done]. pose proof (fmt_convert_small _ _ _ _ _ _ Hargs1 Ha) as Hargs2.
    assert (Z.of_nat (length o) <= room /\ Forall va_small args2) as [Hlen Hargs3].
    { destruct a as [o' args' | cv' i64 ui64 args'].
      - injection Ho as -> ->. split; [| done]. eapply fmt_convert_length; [| exact Hp | exact Hs | exact Hargs1 | exact Ha]; lia.
      - apply bind_Some in Ho as (o' & Ho & [= -> ->]). split; [| done]. eapply fmt_number_length; [| exact Ho]; lia. }
    apply IH in Hrest; [| lia | done]. rewrite length_app. lia.
  - apply bind_Some in H as (rest & Hrest & [= <-]). apply IH in Hrest; [| lia | done]. cbn [length]. lia.
Qed.

(** ** Decimal digits *)

(** [ds] is the decimal representation of [u]. *)
Definition decimal (u : Z) (ds : list Z) : Prop :=
  digits ds /\ ds <> [] /\ dec_value ds = u.

Lemma dec_from_app v ds es : dec_from v (ds ++ es) = dec_from (dec_from v ds) es.
Proof. apply foldl_app. Qed.

Lemma fmt_digits_spec cap u acc :
  0 <= u < 10 ^ Z.of_nat cap -> (0 < cap)%nat ->
  exists ds, fmt_digits (fun d => d + 48) 10 cap u acc = Some (digit_bytes ds ++ acc) /\ decimal u ds /\
    (length ds <= cap)%nat.
Proof.
  revert u acc. induction cap as [|cap IH]; intros u acc Hu Hc; [lia |]. cbn [fmt_digits].
  pose proof (Z.mod_pos_bound u 10 ltac:(lia)) as Hm. pose proof (Z.div_mod u 10 ltac:(lia)) as Hdm.
  assert (10 ^ Z.of_nat (S cap) = 10 * 10 ^ Z.of_nat cap) as Hpow.
  { rewrite Nat2Z.inj_succ, Z.pow_succ_r; lia. }
  destruct (Z.eqb_spec (u / 10) 0) as [E | E].
  - exists [u mod 10]. split; [cbn; do 2 f_equal; lia |]. split; [|simpl; lia].
    split; [by repeat constructor; lia |]. split; [done |]. unfold dec_value, dec_from. simpl. lia.
  - assert (0 < u / 10) as Hpos by (pose proof (Z.div_pos u 10); lia).
    destruct cap as [|cap]; [change (10 ^ Z.of_nat 1) with 10 in Hu; lia |].
    destruct (IH (u / 10) (u mod 10 + 48 :: acc)) as (ds & Hds & (Hd & Hne & Hv) & Hl).
    + split; [lia |]. apply Z.div_lt_upper_bound; lia.
    + lia.
    + exists (ds ++ [u mod 10]). rewrite Hds. split.
      { unfold digit_bytes. rewrite fmap_app, <- (assoc_L app). cbn. do 3 f_equal. lia. }
      split; [|rewrite length_app; simpl; lia]. split.
      * apply Forall_app. split; [done |]. repeat constructor; lia.
      * split; [by destruct ds |]. unfold dec_value in *. rewrite dec_from_app, Hv. unfold dec_from. simpl. lia.
Qed.

(** The value decides the digits but for leading zeros; the first digit of a nonzero number
    is not one. *)
Fixpoint dec_digits (cap : nat) (u : Z) : list Z :=
  match cap with
  | O => []
  | S cap => (if u / 10 =? 0 then [] else dec_digits cap (u / 10)) ++ [u mod 10]
  end.

(** The bytes of the decimal representation of [0 <= u < 2 ^ 64]. *)
Definition dec_bytes (u : Z) : list Z := digit_bytes (dec_digits 20 u).

Lemma fmt_digits_bytes cap u acc :
  0 <= u < 10 ^ Z.of_nat cap -> (0 < cap)%nat ->
  fmt_digits (fun d => d + 48) 10 cap u acc = Some (digit_bytes (dec_digits cap u) ++ acc).
Proof.
  revert u acc. induction cap as [|cap IH]; intros u acc Hu Hc; [lia |]. cbn [fmt_digits dec_digits].
  assert (10 ^ Z.of_nat (S cap) = 10 * 10 ^ Z.of_nat cap) as Hpow.
  { rewrite Nat2Z.inj_succ, Z.pow_succ_r; lia. }
  destruct (Z.eqb_spec (u / 10) 0) as [E | E].
  - cbn. do 2 f_equal. lia.
  - assert (0 < u / 10) as Hpos by (pose proof (Z.div_pos u 10); lia).
    destruct cap as [|cap].
    { change (10 ^ Z.of_nat 1) with 10 in Hu. rewrite (Z.div_small u 10) in E by lia. done. }
    rewrite IH.
    + unfold digit_bytes. rewrite fmap_app, <- (assoc_L app). cbn. do 3 f_equal. lia.
    + split; [lia |]. apply Z.div_lt_upper_bound; lia.
    + lia.
Qed.

Lemma dec_digits_decimal cap u :
  0 <= u < 10 ^ Z.of_nat cap -> (0 < cap)%nat ->
  decimal u (dec_digits cap u) /\ (length (dec_digits cap u) <= cap)%nat.
Proof.
  intros Hu Hc. destruct (fmt_digits_spec cap u [] Hu Hc) as (ds & Hds & Hdec & Hl).
  rewrite fmt_digits_bytes in Hds by done. rewrite !app_nil_r in Hds. injection Hds as Hds.
  assert (dec_digits cap u = ds) as ->; [|done].
  apply (list_fmap_eq_inj (fun d => 48 + d)); [intros x y; lia | exact Hds].
Qed.

(** ** What the formatter writes *)

(** A format as a list of items, with its text, its arguments and its meaning. *)
Inductive item :=
| ILit (c : Z)                                   (* any byte but NUL and the percent sign *)
| IPercent                                       (* %% *)
| INewline                                       (* %N *)
| IChar (c : Z)                                  (* %c *)
| IInt (v : Z)                                   (* %d *)
| IUint (zero : bool) (ws : list Z) (v : Z)      (* %[0][width]ud *)
| IPad (zero : bool) (ws : list Z) (v : Z)       (* %[0][width]d, not negative *)
| ISize (v : Z)                                  (* %uz *)
| IStr (s : list Z)                              (* %s *)
| IString (s : list Z).                          (* %V *)

Definition item_fmt (i : item) : list Z :=
  match i with
  | ILit c => [c]
  | IPercent => [37; 37]
  | INewline => [37; 78]
  | IChar _ => [37; 99]
  | IInt _ => [37; 100]
  | IUint z ws _ => 37 :: (if z then [48] else []) ++ digit_bytes ws ++ [117; 100]
  | IPad z ws _ => 37 :: (if z then [48] else []) ++ digit_bytes ws ++ [100]
  | ISize _ => [37; 117; 122]
  | IStr _ => [37; 115]
  | IString _ => [37; 86]
  end.

Definition item_args (i : item) : list va :=
  match i with
  | ILit _ | IPercent | INewline => []
  | IChar v | IInt v | IUint _ _ v | IPad _ _ v | ISize v => [VInt v]
  | IStr s => [VStr (s ++ [0])]
  | IString s => [VString s]
  end.

Definition item_out (i : item) : list Z :=
  match i with
  | ILit c => [c]
  | IPercent => [37]
  | INewline => [10]
  | IChar c => [c]
  | IInt v => if v <? 0 then 45 :: dec_bytes (- v) else dec_bytes v
  | IUint z ws v | IPad z ws v =>
      replicate (Z.to_nat (dec_value ws - Z.of_nat (length (dec_bytes v)))) (if z then 48 else 32) ++ dec_bytes v
  | ISize v => dec_bytes v
  | IStr s | IString s => s
  end.

Definition item_ok (i : item) : Prop :=
  match i with
  | ILit c => c <> 0 /\ c <> 37
  | IPercent | INewline => True
  | IString s => Z.of_nat (length s) < user_space
  | IChar c => is_u8 c
  | IInt v => is_s32 v
  | IUint z ws v => is_u32 v /\ digits ws /\ dec_value ws < 2 ^ 32 /\ (z = false -> head ws <> Some 0)
  | IPad z ws v => 0 <= v < 2 ^ 31 /\ digits ws /\ dec_value ws < 2 ^ 32 /\ (z = false -> head ws <> Some 0)
  | ISize v => is_u64 v
  | IStr s => Forall (fun c => c <> 0) s
  end.

Lemma fmt_digits_dec u :
  is_u64 u ->
  (if u <=? DFS_MAX_UINT32_VALUE
   then fmt_digits (fun d => d + 48) 10 (Z.to_nat NGX_INT64_LEN) (u32 u) []
   else fmt_digits (fun d => d + 48) 10 (Z.to_nat NGX_INT64_LEN) u []) = Some (dec_bytes u).
Proof.
  unfold is_u64. intros Hu. change (Z.to_nat NGX_INT64_LEN) with 20%nat.
  assert (10 ^ Z.of_nat 20 = 100000000000000000000) as E by reflexivity.
  destruct (Z.leb_spec u DFS_MAX_UINT32_VALUE) as [H | H].
  - unfold DFS_MAX_UINT32_VALUE in H. rewrite u32_small by (unfold is_u32; lia).
    rewrite fmt_digits_bytes by lia. by rewrite app_nil_r.
  - rewrite fmt_digits_bytes by lia. by rewrite app_nil_r.
Qed.

Lemma fmt_number_spec cv i64 ui64 room minus u :
  (if sign cv then (if i64 <? 0 then z ← signed_ssize (- i64); Some ([45], z) else Some ([], i64))
   else Some ([], ui64)) = Some (minus, u) ->
  hexadecimal cv = 0 -> is_u64 u -> (length minus <= 1)%nat -> 0 < room ->
  fmt_number cv i64 ui64 room =
    Some (take (Z.to_nat room)
      (minus ++ replicate (Z.to_nat (width cv - Z.of_nat (length (dec_bytes u)))) (zero cv) ++ dec_bytes u)).
Proof.
  intros Hm Hh Hu Hl Hr. unfold fmt_number. rewrite Hm. cbn [mbind option_bind].
  rewrite Hh. cbn [Z.eqb]. rewrite fmt_digits_dec by done. cbn [mbind option_bind].
  rewrite fmt_pad_spec by lia. set (pads := replicate _ _). set (p := dec_bytes u).
  rewrite take_app, (take_ge minus) by lia. f_equal. f_equal. rewrite take_app.
  replace (Z.to_nat (room - Z.of_nat (length minus))) with (Z.to_nat room - length minus)%nat by lia.
  f_equal. rewrite length_take. set (k := (Z.to_nat room - length minus)%nat).
  destruct (Z.ltb_spec (room - Z.of_nat (length minus) - Z.of_nat (k `min` length pads)) (Z.of_nat (length p))).
  - f_equal. lia.
  - rewrite !take_ge; [done | lia | lia].
Qed.

Lemma fmt_width_spec ws c rest w :
  digits ws -> is_digit c = false -> 0 <= w -> dec_from w ws < 2 ^ 32 ->
  fmt_width (digit_bytes ws ++ c :: rest) w = Some (dec_from w ws, c :: rest).
Proof.
  intros Hd Hc. revert w. induction Hd as [|d ws Hd Hws IH]; intros w Hw Hl.
  - cbn. by rewrite Hc.
  - change (dec_from w (d :: ws)) with (dec_from (w * 10 + d) ws) in *.
    pose proof (dec_from_ge (w * 10 + d) ws ltac:(lia) Hws) as Hge.
    cbn [digit_bytes fmap list_fmap app fmt_width]. rewrite is_digit_byte by done.
    rewrite (u32_small (w * 10)) by (unfold is_u32; lia). rewrite u32_small by (unfold is_u32; lia).
    replace (w * 10 + (48 + d) - 48) with (w * 10 + d) by lia. by apply IH; lia.
Qed.

(** The padding flag and the width in front of a conversion character. *)
Lemma pad_flags (z : bool) ws c rest :
  digits ws -> dec_value ws < 2 ^ 32 -> (z = false -> head ws <> Some 0) -> is_digit c = false -> c <> 48 ->
  fmt_width ((if z then [48] else []) ++ digit_bytes ws ++ c :: rest) 0 = Some (dec_value ws, c :: rest) /\
  exists x, head ((if z then [48] else []) ++ digit_bytes ws ++ c :: rest) = Some x /\
    (if x =? 48 then 48 else 32) = (if z then 48 else 32).
Proof.
  intros Hws Hw Hz Hc Hc48. split.
  - destruct z; [|by apply fmt_width_spec]. cbn [app fmt_width].
    change (is_digit 48) with true. cbv iota. by apply fmt_width_spec.
  - destruct z; [by exists 48 |]. destruct ws as [|d ws].
    + exists c. split; [done |]. by rewrite (proj2 (Z.eqb_neq c 48)).
    + exists (48 + d). split; [done |]. rewrite (proj2 (Z.eqb_neq _ _)); [done |].
      intros E. apply (Hz eq_refl). simpl. f_equal. lia.
Qed.

Lemma copy_cstr_spec s rest room :
  Forall (fun c => c <> 0) s -> copy_cstr (s ++ 0 :: rest) room = Some (take room s).
Proof.
  intros Hs. revert room. induction Hs as [|c s Hc Hs IH]; intros [|room]; try done.
  cbn [app copy_cstr head tail mbind option_bind take firstn]. rewrite (proj2 (Z.eqb_neq c 0) Hc). by rewrite IH.
Qed.

Lemma bounded_spec pend s room :
  0 <= room <= pend -> pend <= user_space -> Z.of_nat (length s) < user_space ->
  bounded pend (Z.of_nat (length s)) room s = Some (take (Z.to_nat room) s).
Proof.
  unfold user_space. intros Hr Hp Hs. unfold bounded. rewrite u64_small by (unfold is_u64; lia).
  destruct (Z.ltb_spec (pend - room + Z.of_nat (length s)) pend).
  - rewrite (proj2 (Z.leb_le _ _)) by lia. by rewrite !take_ge by lia.
  - rewrite (proj2 (Z.leb_le _ _)) by lia. done.
Qed.

(** The conversion of a percent item. *)
Lemma percent_step fuel pend fmt args room c fmt2 w z cv c2 fmt3 args2 a out args3 :
  0 < room -> head fmt = Some z -> fmt_width fmt 0 = Some (w, fmt2) ->
  fmt_flags fmt2 {| zero := if z =? 48 then 48 else 32; width := w; sign := true; hexadecimal := 0;
                    max_width := false; slen := 2 ^ 64 - 1 |} args = Some (cv, c2 :: fmt3, args2) ->
  fmt_convert pend c2 cv room args2 = Some a ->
  match a with
  | Put out args => Some (out, args)
  | Number cv i64 ui64 args => out ← fmt_number cv i64 ui64 room; Some (out, args)
  end = Some (out, args3) -> c = 37 ->
  vsnprintf_loop (S fuel) pend (c :: fmt) args room =
    (rest ← vsnprintf_loop fuel pend fmt3 args3 (room - Z.of_nat (length out)); Some (out ++ rest)).
Proof.
  intros Hr Hz Hw Hf Hc Ho ->. cbn [vsnprintf_loop head tail mbind option_bind].
  rewrite (proj2 (Z.leb_gt room 0)) by lia. change (37 =? 0) with false. change (37 =? 37) with true. cbn [orb].
  rewrite Hz. cbn [mbind option_bind]. rewrite Hw. cbn [mbind option_bind]. rewrite Hf.
  cbn [head tail mbind option_bind]. rewrite Hc. cbn [mbind option_bind]. by rewrite Ho.
Qed.

#[local] Arguments fmt_number : simpl never.
#[local] Arguments bounded : simpl never.

Lemma item_step fuel pend i rest args room :
  item_ok i -> 0 < room <= pend -> pend <= user_space ->
  vsnprintf_loop (S fuel) pend (item_fmt i ++ rest) (item_args i ++ args) room =
    (let out := take (Z.to_nat room) (item_out i) in
     o ← vsnprintf_loop fuel pend rest args (room - Z.of_nat (length out)); Some (out ++ o)).
Proof.
  intros Hok [Hr Hrp] Hpu. cbv zeta.
  assert (forall (x : Z), take (Z.to_nat room) [x] = [x]) as E1 by (intros x; by rewrite take_ge by (simpl; lia)).
  destruct i as [c | | | c | v | z ws v | z ws v | v | s | s]; simpl item_fmt; simpl item_args; simpl item_out; simpl in Hok.
  - rewrite E1. cbn [app vsnprintf_loop head tail mbind option_bind length].
    destruct Hok as [H0 H37]. rewrite (proj2 (Z.eqb_neq c 0) H0), (proj2 (Z.eqb_neq c 37) H37).
    by rewrite (proj2 (Z.leb_gt room 0)) by lia.
  - rewrite E1. by eapply percent_step.
  - rewrite E1. by eapply percent_step.
  - rewrite E1. eapply percent_step; try done. cbn. unfold is_u8 in Hok.
    rewrite s32_small by (unfold is_s32; lia). by rewrite land_0xff, u8_small.
  - unfold is_s32 in Hok. eapply percent_step; try done. cbn.
    rewrite s32_small by (unfold is_s32; lia).
    destruct (Z.ltb_spec v 0) as [Hv | Hv].
    + rewrite (fmt_number_spec _ v 0 room [45] (- v)); try done; try (unfold is_u64; lia); cbn [sign].
      * cbn [width]. by replace (Z.to_nat (0 - _)) with 0%nat by lia.
      * rewrite (proj2 (Z.ltb_lt v 0)) by lia. by rewrite signed_ssize_in by lia.
    + rewrite (fmt_number_spec _ v 0 room [] v); try done; try (unfold is_u64; lia); cbn [sign].
      * cbn [width]. by replace (Z.to_nat (0 - _)) with 0%nat by lia.
      * by rewrite (proj2 (Z.ltb_ge v 0)) by lia.
      * simpl. lia.
  - destruct Hok as (Hv & Hws & Hw & Hz). unfold is_u32 in Hv.
    destruct (pad_flags z ws 117 (100 :: rest)) as (Hwidth & x & Hx & Ex); [done.. |].
    replace ((37 :: (if z then [48] else []) ++ digit_bytes ws ++ [117; 100]) ++ rest)
      with (37 :: (if z then [48] else []) ++ digit_bytes ws ++ 117 :: 100 :: rest)
      by (cbn [app]; f_equal; by rewrite <- !(assoc_L app)).
    eapply percent_step; [done | exact Hx | exact Hwidth | reflexivity | reflexivity | | done].
    rewrite Ex. cbn [sign mbind option_bind set_sign].
    rewrite (fmt_number_spec _ 0 (u32 v) room [] v); try done; try (unfold is_u64; lia); cbn [sign].
    + by rewrite u32_small.
    + simpl. lia.
  - destruct Hok as (Hv & Hws & Hw & Hz).
    destruct (pad_flags z ws 100 rest) as (Hwidth & x & Hx & Ex); [done.. |].
    replace ((37 :: (if z then [48] else []) ++ digit_bytes ws ++ [100]) ++ rest)
      with (37 :: (if z then [48] else []) ++ digit_bytes ws ++ 100 :: rest)
      by (cbn [app]; f_equal; by rewrite <- !(assoc_L app)).
    eapply percent_step; [done | exact Hx | exact Hwidth | reflexivity | reflexivity | | done].
    rewrite Ex. cbn [sign mbind option_bind].
    rewrite (fmt_number_spec _ (s32 v) 0 room [] v); try done; try (unfold is_u64; lia); cbn [sign].
    + rewrite s32_small by (unfold is_s32; lia). by rewrite (proj2 (Z.ltb_ge v 0)) by lia.
    + simpl. lia.
  - eapply percent_step; try done. cbn. unfold is_u64 in Hok.
    rewrite (fmt_number_spec _ 0 (u64 v) room [] v); try done; try (unfold is_u64; lia); cbn [sign].
    + cbn [width]. by replace (Z.to_nat (0 - _)) with 0%nat by lia.
    + by rewrite u64_small.
    + simpl. lia.
  - eapply percent_step; try done; [cbn; by rewrite copy_cstr_spec | done].
  - eapply percent_step; try done; [cbn; by rewrite bounded_spec by (done || lia) | done].
Qed.

Definition items_fmt (its : list item) : list Z := its ≫= item_fmt.
Definition items_args (its : list item) : list va := its ≫= item_args.
Definition items_out (its : list item) : list Z := its ≫= item_out.

Lemma vsnprintf_items fuel pend its rest room :
  Forall item_ok its -> (length its < fuel)%nat -> 0 <= room <= pend -> pend <= user_space ->
  vsnprintf_loop fuel pend (items_fmt its ++ 0 :: rest) (items_args its) room = Some (take (Z.to_nat room) (items_out its)).
Proof.
  intros Hok Hf Hr Hpu. revert fuel room Hf Hr. induction Hok as [|i its Hi His IH]; intros fuel room Hf Hr.
  - destruct fuel as [|fuel]; [lia |]. cbn. by rewrite take_nil.
  - destruct fuel as [|fuel]; simpl in Hf; [lia |].
    unfold items_fmt, items_args, items_out. rewrite !bind_cons, <- (assoc_L app).
    destruct (Z.eq_dec room 0) as [-> | Hr0].
    + assert (exists c, head (item_fmt i ++ (its ≫= item_fmt) ++ 0 :: rest) = Some c) as [c Hc]
        by (destruct i; eexists; reflexivity).
      cbn [vsnprintf_loop]. rewrite Hc. cbn [mbind option_bind]. by rewrite orb_true_r.
    + rewrite item_step by (done || lia). cbv zeta.
      set (out := take (Z.to_nat room) (item_out i)).
      assert (length out = (Z.to_nat room `min` length (item_out i))%nat) as Hlen by apply length_take.
      unfold items_fmt, items_args, items_out in IH.
      rewrite (IH fuel (room - Z.of_nat (length out))) by lia. cbn [mbind option_bind]. f_equal.
      rewrite take_app. fold out. f_equal. f_equal. lia.
Qed.

(** A larger [temp] would hold the same digits. *)
Lemma dec_digits_cap k c u :
  0 <= u < 10 ^ Z.of_nat (S k) -> (S k <= c)%nat -> dec_digits c u = dec_digits (S k) u.
Proof.
  revert c u. induction k as [|k IH]; intros c u Hu Hc.
  - destruct c as [|c]; [lia |]. change (10 ^ Z.of_nat 1) with 10 in Hu.
    cbn [dec_digits]. by rewrite (Z.div_small u 10) by lia.
  - destruct c as [|c]; [lia |]. change (dec_digits (S (S k)) u) with
      ((if u / 10 =? 0 then [] else dec_digits (S k) (u / 10)) ++ [u mod 10]).
    cbn [dec_digits]. destruct (u / 10 =? 0); [done |]. f_equal. apply IH; [|lia].
    rewrite (Nat2Z.inj_succ (S k)), Z.pow_succ_r in Hu by lia.
    split; [apply Z.div_pos | apply Z.div_lt_upper_bound]; lia.
Qed.

Lemma dec_bytes_decimal k u :
  0 <= u < 10 ^ Z.of_nat (S k) -> (S k <= 20)%nat ->
  exists ds, dec_bytes u = digit_bytes ds /\ decimal u ds /\ (length ds <= S k)%nat.
Proof.
  intros Hu Hk. unfold dec_bytes. rewrite (dec_digits_cap k) by done.
  destruct (dec_digits_decimal (S k) u Hu) as [Hd Hl]; [lia |]. eauto.
Qed.

(** ** Claims *)

(** C36. Whenever the formatter's run is defined, it writes at most [max] bytes, for every
    format and all arguments, if the buffer and the strings lie in the lower half of the
    address space. (A run is undefined when it reads behind the format, an argument or its
    digits; that includes a length of %*s so large that the end it is added to wraps: the test
    for room passes, and the copy runs past the end of both strings.) *)
Theorem vsnprintf_bounded buf max fmt args out :
  0 <= buf -> 0 <= max -> buf + max <= user_space -> Forall va_small args ->
  string_xxvsnprintf buf max fmt args = Some out -> Z.of_nat (length out) <= max.
Proof.
  unfold string_xxvsnprintf. intros Hb Hm Hs Ha. destruct ((max =? 0) || (buf =? 0)); [intros [= <-]; simpl; lia |].
  apply vsnprintf_loop_length; done || lia.
Qed.

(** The length is that of no string, but the test for room does not see it. *)
Example star_length_wraps :
  string_xxvsnprintf 4096 10 [37; 42; 115; 0] [VInt (2 ^ 64 - 2); VStr (repeat 97 20 ++ [0])] = None /\
  string_xxvsnprintf 4096 10 [37; 42; 115; 0] [VInt (2 ^ 63); VStr (repeat 97 20 ++ [0])] = Some (repeat 97 10).
Proof. split; vm_compute; reflexivity. Qed.

(** C37. The formatter writes what the format means. For every format made of literal text and
    the conversions %d, %[0][width]d (of numbers that are not negative), %[0][width]ud, %uz, %s,
    %V, %c, %N and %%, with arguments of the matching types, widths below 2^32 without a leading
    zero of their own, strings shorter than 2^63, and a buffer that is not null and lies below
    2^63, the formatter terminates and writes exactly the first [max] bytes of the text the
    format means: signed decimal numbers, numbers padded to their width with zeros or spaces,
    and the strings themselves. *)
Theorem vsnprintf_items_exact buf max its rest :
  Forall item_ok its -> 0 < buf -> 0 <= max -> buf + max <= user_space ->
  string_xxvsnprintf buf max (items_fmt its ++ 0 :: rest) (items_args its) = Some (take (Z.to_nat max) (items_out its)).
Proof.
  intros Hok Hb Hm Hs. unfold string_xxvsnprintf. destruct (Z.eqb_spec max 0) as [-> | Hne]; [done |]. rewrite (proj2 (Z.eqb_neq buf 0)) by lia. cbn [orb].
  apply vsnprintf_items; [done | | lia | done]. rewrite length_app. simpl.
  enough (length its <= length (items_fmt its))%nat by lia. clear. induction its as [|i its IH]; [done |].
  unfold items_fmt. rewrite bind_cons, length_app. change (its ≫= item_fmt) with (items_fmt its).
  assert (1 <= length (item_fmt i))%nat by (destruct i; simpl; lia). simpl. lia.
Qed.

(** Printing and parsing agree: [string_xxstrtoi] reads back every [int] but the least
    one from what the formatter wrote for %d; and a format that ends in a lone percent sign
    makes the formatter read behind the terminating NUL. *)
Theorem print_parse_int v buf max :
  is_s32 v -> v <> - 2 ^ 31 -> 11 <= max -> 0 < buf -> buf + max <= user_space ->
  exists out, string_xxvsnprintf buf max [37; 100; 0] [VInt v] = Some out /\
    string_xxstrtoi (out ++ [0]) (length out) = Some v /\
    string_xxvsnprintf buf max [37; 0] [] = None.
Proof.
  unfold is_s32. intros Hv Hne Hmax Hbuf Hspace.
  exists (take (Z.to_nat max) (items_out [IInt v])). split; [|split].
  - unfold string_xxvsnprintf. rewrite (proj2 (Z.eqb_neq max 0)), (proj2 (Z.eqb_neq buf 0)) by lia. cbn [orb].
    apply (vsnprintf_items _ _ [IInt v] []); [|simpl; lia | lia | done]. repeat constructor; unfold is_s32; lia.
  - unfold items_out. cbn [mbind list_bind item_out]. rewrite app_nil_r.
    destruct (Z.ltb_spec v 0) as [Hv0 | Hv0].
    + destruct (dec_bytes_decimal 9 (- v)) as (ds & -> & (Hd & Hds & Hval) & Hl); [lia.. |].
      rewrite take_ge by (simpl; unfold digit_bytes; rewrite length_fmap; lia).
      cbn [length app]. unfold digit_bytes at 2. rewrite length_fmap. unfold string_xxstrtoi.
      rewrite (strtoi_signed_neg (2 ^ 31) _ signed_int_in signed_int_out) with (rest := [0]);
        [| lia | done | right; split; [lia | by exists 0, []] | lia].
      rewrite Hval, signed_int_in by lia. cbn. f_equal. lia.
    + destruct (dec_bytes_decimal 9 v) as (ds & -> & (Hd & Hds & Hval) & Hl); [lia.. |].
      rewrite take_ge by (unfold digit_bytes; rewrite length_fmap; lia).
      unfold digit_bytes at 2. rewrite length_fmap. unfold string_xxstrtoi.
      rewrite (strtoi_signed_spec (2 ^ 31) _ signed_int_in signed_int_out) with (rest := [0]);
        [| lia | done | done | by left].
      rewrite Hval. by apply signed_int_in.
  - unfold string_xxvsnprintf. rewrite (proj2 (Z.eqb_neq max 0)), (proj2 (Z.eqb_neq buf 0)) by lia. cbn [orb].
    cbn. rewrite (proj2 (Z.leb_gt max 0)) by lia. done.
Qed.

(** ** Witnesses *)

Lemma vsnprintf_bounded_witness :
  exists out, string_xxvsnprintf 4096 3 [37; 42; 115; 0] [VInt 5; VStr (repeat 97 20)] = Some out /\ Z.of_nat (length out) <= 3.
Proof.
  eexists. split; [vm_compute; reflexivity |]. apply (vsnprintf_bounded 4096 3 [37; 42; 115; 0] [VInt 5; VStr (repeat 97 20)]);
    [lia | lia | vm_compute; discriminate | repeat constructor | vm_compute; reflexivity].
Defined.

(** "a=%d;%05ud" *)
Lemma vsnprintf_items_exact_witness :
  string_xxvsnprintf 4096 100 ([97; 61; 37; 100; 59; 37; 48; 53; 117; 100] ++ [0]) [VInt (-7); VInt 42] =
    Some [97; 61; 45; 55; 59; 48; 48; 48; 52; 50].
Proof.
  apply (vsnprintf_items_exact 4096 100 [ILit 97; ILit 61; IInt (-7); ILit 59; IUint true [5] 42] []); [|lia | lia | vm_compute; discriminate].
  repeat constructor; unfold is_s32, is_u32; simpl; try lia; done.
Defined.

Lemma print_parse_int_witness :
  exists out, string_xxvsnprintf 4096 11 [37; 100; 0] [VInt (-305)] = Some out /\ string_xxstrtoi (out ++ [0]) (length out) = Some (-305).
Proof.
  destruct (print_parse_int (-305) 4096 11) as (out & H1 & H2 & _); [unfold is_s32; lia | lia | lia | lia | vm_compute; discriminate |].
  exists out. split; [exact H1 | exact H2].
Defined.
