(* ===== verification/Calendar.v ===== *)
(** * Calendar time ([src/core/dfs_time.cpp])

    [time_gmtime] with its [uint32_t] and [int] arithmetic, the HTTP dates printed with the
    formatter of [Format], and the month parser. The local-time conversion is the C
    library's. *)

From Stdlib Require Import String.
From S2P Require Import Prelude Strings Format.

(** The bytes of a C string literal, without its NUL. *)
Definition str (s : string) : list Z := (fun a => Z.of_N (Ascii.N_of_ascii a)) <$> list_ascii_of_string s.

Record tm := {
  tm_sec : Z; tm_min : Z; tm_hour : Z; tm_mday : Z; tm_mon : Z; tm_year : Z; tm_wday : Z
}.

(** Computing with [int]s and [uint32_t]s: the operands of an unsigned operation are
    converted, its result wraps. *)
(* src/src/core/dfs_time.cpp:58-135 (time_gmtime) *)
Definition time_gmtime (t : Z) : tm :=
  let n := u32 t in
  let days := n / 86400 in
  let wday := u32 (4 + days) mod 7 in
  let n := n mod 86400 in
  let hour := n / 3600 in
  let n := n mod 3600 in
  let min := n / 60 in
  let sec := n mod 60 in
  let days := u32 (u32 (days - (31 + 28)) + 719527) in
  let year := u32 (u32 (days + 2) * 400) / (365 * 400 + 100 - 4 + 1) in
  let yday := s32 (u32 (days - u32 (u32 (u32 (u32 (365 * year) + year / 4) - year / 100) + year / 400))) in
  let '(yday, year) :=
    if yday <? 0 then
      let leap := if (year mod 4 =? 0) && (negb (year mod 100 =? 0) || (year mod 400 =? 0)) then 1 else 0 in
      (s32 (u32 (u32 (365 + leap) + yday)), u32 (year - 1))
    else (yday, year) in
  let mon := u32 (Z.quot ((yday + 31) * 10) 306) in
  let mday := u32 (u32 (yday - u32 (u32 (367 * mon) / 12 - 30)) + 1) in
  let '(year, mon) :=
    if 306 <=? yday then (u32 (year + 1), u32 (mon - 10)) else (year, u32 (mon + 2)) in
  {| tm_sec := s32 sec; tm_min := s32 min; tm_hour := s32 hour; tm_mday := s32 mday;
     tm_mon := s32 mon; tm_year := s32 year; tm_wday := s32 wday |}.

(* src/src/core/dfs_time.cpp:4-9 (week, months) *)
Definition week : list (list Z) := str <$> ["Sun"; "Mon"; "Tue"; "Wed"; "Thu"; "Fri"; "Sat"]%string.
Definition months : list (list Z) :=
  str <$> ["Jan"; "Feb"; "Mar"; "Apr"; "May"; "Jun"; "Jul"; "Aug"; "Sep"; "Oct"; "Nov"; "Dec"]%string.

(** A table entry; the index must be in range. *)
Definition entry (t : list (list Z)) (i : Z) : option (list Z) :=
  if i <? 0 then None else t !! Z.to_nat i.

(* src/src/core/dfs_string.cpp:173-183 (string_xxsprintf) *)
Definition string_xxsprintf (buf : Z) (fmt : list Z) (args : list va) : option (list Z) := string_xxvsnprintf buf 65536 fmt args.

(* src/src/core/dfs_time.cpp:18-32 (time_to_http_time) *)
Definition time_to_http_time (buf t : Z) : option (list Z) :=
  let tm := time_gmtime t in
  w ← entry week (tm_wday tm); m ← entry months (tm_mon tm - 1);
  string_xxsprintf buf (str "%s, %02d %s %4d %02d:%02d:%02d GMT" ++ [0])
    [VStr (w ++ [0]); VInt (tm_mday tm); VStr (m ++ [0]); VInt (tm_year tm);
     VInt (tm_hour tm); VInt (tm_min tm); VInt (tm_sec tm)].

(* src/src/core/dfs_time.cpp:34-56 (time_to_http_cookie_time) *)
Definition time_to_http_cookie_time (buf t : Z) : option (list Z) :=
  let tm := time_gmtime t in
  w ← entry week (tm_wday tm); m ← entry months (tm_mon tm - 1);
  string_xxsprintf buf
    ((if 2037 <? tm_year tm then str "%s, %02d-%s-%d %02d:%02d:%02d GMT"
      else str "%s, %02d-%s-%02d %02d:%02d:%02d GMT") ++ [0])
    [VStr (w ++ [0]); VInt (tm_mday tm); VStr (m ++ [0]);
     VInt (if 2037 <? tm_year tm then tm_year tm else Z.rem (tm_year tm) 100);
     VInt (tm_hour tm); VInt (tm_min tm); VInt (tm_sec tm)].

(** The characters of the month names, and [NGX_ERROR] as [-1]. *)
(* src/src/core/dfs_time.cpp:137-243 (time_monthtoi) *)
Definition time_monthtoi (s : list Z) : option Z :=
  c0 ← s !! 0%nat; ch1 ← s !! 1%nat; ch2 ← s !! 2%nat;
  Some (
    if c0 =? 74 (* J *) then
      if ch1 =? 97 (* a *) then (if ch2 =? 110 (* n *) then 0 else NGX_ERROR)
      else if negb (ch1 =? 117 (* u *)) then NGX_ERROR
      else if ch2 =? 110 then 5
      else if ch2 =? 108 (* l *) then 6
      else NGX_ERROR
    else if c0 =? 70 (* F *) then
      if (ch1 =? 101) && (ch2 =? 98) (* eb *) then 1 else NGX_ERROR
    else if c0 =? 77 (* M *) then
      if negb (ch1 =? 97) then NGX_ERROR
      else if ch2 =? 114 (* r *) then 2
      else if ch2 =? 121 (* y *) then 4
      else NGX_ERROR
    else if c0 =? 65 (* A *) then
      if (ch1 =? 112) && (ch2 =? 114) (* pr *) then 3
      else if (ch1 =? 117) && (ch2 =? 103) (* ug *) then 7
      else NGX_ERROR
    else if c0 =? 83 (* S *) then if (ch1 =? 101) && (ch2 =? 112) (* ep *) then 8 else NGX_ERROR
    else if c0 =? 79 (* O *) then if (ch1 =? 99) && (ch2 =? 116) (* ct *) then 9 else NGX_ERROR
    else if c0 =? 78 (* N *) then if (ch1 =? 111) && (ch2 =? 118) (* ov *) then 10 else NGX_ERROR
    else if c0 =? 68 (* D *) then if (ch1 =? 101) && (ch2 =? 99) (* ec *) then 11 else NGX_ERROR
    else NGX_ERROR).

(** ** The calendar *)

Definition is_leap (y : Z) : bool := (y mod 4 =? 0) && (negb (y mod 100 =? 0) || (y mod 400 =? 0)).

Definition month_days (y m : Z) : Z :=
  if m =? 2 then (if is_leap y then 29 else 28)
  else if (m =? 4) || (m =? 6) || (m =? 9) || (m =? 11) then 30 else 31.

(** Days from 1 January to the first of the month. *)
Fixpoint days_before_month (y : Z) (m : nat) : Z :=
  match m with
  | O | S O => 0
  | S m => days_before_month y m + month_days y (Z.of_nat m)
  end.

(** Leap days from year 1 to the end of year [y]. *)
Definition leap_days (y : Z) : Z := y / 4 - y / 100 + y / 400.

(** Days from 1 January 1970 to the date. *)
Definition days_of_date (y m d : Z) : Z :=
  365 * (y - 1970) + (leap_days (y - 1) - leap_days 1969) + days_before_month y (Z.to_nat m) + (d - 1).

Definition valid_date (y m d : Z) : Prop := 1 <= m <= 12 /\ 1 <= d <= month_days y m.

(** Days from 1 March of year 0 to 1 March of year [y]. *)
Definition march_start (y : Z) : Z := 365 * y + y / 4 - y / 100 + y / 400.

Lemma march_year days r :
  r = (days + 2) * 400 / 146097 -> march_start (r - 1) <= days < march_start (r + 1).
Proof. unfold march_start. intros ->. split; div_mod_lia. Qed.

Lemma is_leap_b2z y : Z.b2z (is_leap y) = (y / 4 - y / 100 + y / 400) - ((y - 1) / 4 - (y - 1) / 100 + (y - 1) / 400).
Proof.
  unfold is_leap. destruct (Z.eqb_spec (y mod 4) 0), (Z.eqb_spec (y mod 100) 0), (Z.eqb_spec (y mod 400) 0);
    cbn [andb orb negb Z.b2z]; div_mod_lia.
Qed.

Lemma march_start_next y : march_start (y + 1) = march_start y + 365 + Z.b2z (is_leap (y + 1)).
Proof. rewrite is_leap_b2z. unfold march_start. replace (y + 1 - 1) with y by lia. lia. Qed.

(** Months counted from March: the month, whether it falls in the next year, the day. *)
Definition month_of (yd : Z) : Z * Z * Z :=
  let mon := (yd + 31) * 10 / 306 in
  let mday := yd - (367 * mon / 12 - 30) + 1 in
  if 306 <=? yd then (mon - 10, 1, mday) else (mon + 2, 0, mday).

(** Days before the month in a year that starts in March, and its longest length. *)
Definition march_days (m : Z) : Z := tbl [0; 306; 337; 0; 31; 61; 92; 122; 153; 184; 214; 245; 275] m.
Definition longest (m : Z) : Z := tbl [0; 31; 29; 31; 30; 31; 30; 31; 31; 30; 31; 30; 31] m.

Lemma month_of_spec yd :
  0 <= yd < 366 ->
  let '(m, k, d) := month_of yd in
  1 <= m <= 12 /\ k = (if m <=? 2 then 1 else 0) /\ 1 <= d <= longest m /\ yd = march_days m + d - 1.
Proof.
  intros H.
  pose proof (forall_below_Z 366 (fun yd => let '(m, k, d) := month_of yd in
    (1 <=? m) && (m <=? 12) && (k =? (if m <=? 2 then 1 else 0)) && (1 <=? d) && (d <=? longest m) &&
    (yd =? march_days m + d - 1)) eq_refl yd H) as Hb.
  cbv beta in Hb. destruct (month_of yd) as [[m k] d]. destruct (m <=? 2); lia.
Qed.

Lemma below_13 m : 1 <= m <= 12 -> m = 1 \/ m = 2 \/ m = 3 \/ m = 4 \/ m = 5 \/ m = 6 \/ m = 7 \/ m = 8 \/ m = 9 \/ m = 10 \/ m = 11 \/ m = 12.
Proof. lia. Qed.

Ltac compute_index :=
  repeat match goal with
  | |- context [Z.of_nat ?c] => let n := eval vm_compute in (Z.of_nat c) in change (Z.of_nat c) with n
  | |- context [Z.to_nat ?c] => let n := eval vm_compute in (Z.to_nat c) in change (Z.to_nat c) with n
  | H : context [Z.to_nat ?c] |- _ => let n := eval vm_compute in (Z.to_nat c) in change (Z.to_nat c) with n in H
  end.

(** The day number of a date found by counting from March. *)
Lemma days_of_month y m k d :
  1 <= m <= 12 -> k = (if m <=? 2 then 1 else 0) ->
  days_of_date (y + k) m d = march_start y + march_days m + d - 1 - 719468.
Proof.
  intros Hm ->. pose proof (is_leap_b2z y) as Hl. pose proof (march_start_next y) as Hn.
  unfold days_of_date, march_start, leap_days in *.
  destruct (below_13 m Hm) as [->|[->|[->|[->|[->|[->|[->|[->|[->|[->|[->| ->]]]]]]]]]]];
    unfold march_days, tbl; compute_index; cbn -[Z.div Z.mul Z.add Z.sub is_leap];
    unfold month_days; compute_index; cbn -[Z.div Z.mul Z.add Z.sub is_leap]; rewrite ?Z.add_0_r;
    try (replace (y + 1 - 1) with y by lia); destruct (is_leap y); cbn [Z.b2z] in *; change (1969 / 4) with 492;
    change (1969 / 100) with 19; change (1969 / 400) with 4; lia.
Qed.

(** The day is not past the end of the month: the only long February is in a leap year. *)
Lemma longest_month y m k d yd :
  1 <= m <= 12 -> k = (if m <=? 2 then 1 else 0) -> d <= longest m -> yd = march_days m + d - 1 ->
  yd < 365 + Z.b2z (is_leap (y + 1)) -> d <= month_days (y + k) m.
Proof.
  intros Hm -> Hd Hyd Hlt. unfold month_days.
  destruct (below_13 m Hm) as [->|[->|[->|[->|[->|[->|[->|[->|[->|[->|[->| ->]]]]]]]]]]];
    unfold longest, march_days, tbl in *; compute_index; cbn -[is_leap] in Hd, Hyd |- *; try lia.
  destruct (is_leap (y + 1)); cbn [Z.b2z] in Hlt; lia.
Qed.

(** The code's year and day of the year, without the machine arithmetic. *)
Definition march_date (days : Z) : Z * Z :=
  let year := (days + 2) * 400 / 146097 in
  let yday := days - march_start year in
  if yday <? 0 then (year - 1, 365 + Z.b2z (is_leap year) + yday) else (year, yday).

Lemma march_date_spec days :
  let '(y, yd) := march_date days in days = march_start y + yd /\ 0 <= yd < 365 + Z.b2z (is_leap (y + 1)).
Proof.
  unfold march_date. set (r := (days + 2) * 400 / 146097).
  destruct (march_year days r eq_refl) as [H1 H2].
  pose proof (march_start_next r) as Hn. pose proof (march_start_next (r - 1)) as Hp.
  replace (r - 1 + 1) with r in * by lia.
  destruct (Z.ltb_spec (days - march_start r) 0); replace (r - 1 + 1) with r by lia; lia.
Qed.

Lemma gmtime_unwrap t :
  0 <= t < 2 ^ 32 ->
  time_gmtime t =
    let '(y, yd) := march_date (t / 86400 + 719468) in
    let '(m, k, d) := month_of yd in
    {| tm_sec := t mod 86400 mod 3600 mod 60; tm_min := t mod 86400 mod 3600 / 60; tm_hour := t mod 86400 / 3600;
       tm_mday := d; tm_mon := m; tm_year := y + k; tm_wday := (4 + t / 86400) mod 7 |}.
Proof.
  intros Ht. unfold time_gmtime. cbv zeta. rewrite (u32_small t) by done.
  set (D := t / 86400). assert (0 <= D <= 49710) as HD by (unfold D; div_mod_lia).
  rewrite (u32_small (4 + D)) by (unfold is_u32; lia). rewrite (s32_small (_ mod 7)) by (unfold is_s32; div_mod_lia).
  rewrite (s32_small (_ mod 60)), (s32_small (_ / 60)), (s32_small (_ / 3600)) by (unfold is_s32; div_mod_lia).
  assert (u32 (u32 (D - (31 + 28)) + 719527) = D + 719468) as ->.
  { unfold u32. rewrite Zplus_mod_idemp_l, Z.mod_small; lia. }
  set (days := D + 719468) in *. rewrite (u32_small (days + 2)) by (unfold is_u32; lia).
  rewrite (u32_small ((days + 2) * 400)) by (unfold is_u32; lia). change (365 * 400 + 100 - 4 + 1) with 146097.
  pose proof (march_date_spec days) as Hspec. unfold march_date in *.
  set (r := (days + 2) * 400 / 146097) in *. assert (1969 <= r <= 2107) as Hr by (unfold r; div_mod_lia).
  destruct (march_year days r eq_refl) as [H1 H2].
  pose proof (march_start_next r) as Hn. pose proof (march_start_next (r - 1)) as Hp.
  replace (r - 1 + 1) with r in * by lia.
  assert (forall b, 0 <= Z.b2z b <= 1) as Hb by (intros []; simpl; lia).
  pose proof (Hb (is_leap r)) as Hb1. pose proof (Hb (is_leap (r + 1))) as Hb2.
  assert (s32 (u32 (days - u32 (u32 (u32 (u32 (365 * r) + r / 4) - r / 100) + r / 400))) = days - march_start r) as ->.
  { unfold march_start. rewrite (u32_small (365 * r)) by (unfold is_u32; lia).
    rewrite (u32_small (365 * r + r / 4)) by (unfold is_u32; div_mod_lia).
    rewrite (u32_small (365 * r + r / 4 - r / 100)) by (unfold is_u32; div_mod_lia).
    rewrite (u32_small (_ + r / 400)) by (unfold is_u32; div_mod_lia).
    unfold march_start in *. rewrite s32_u32, s32_small by (unfold is_s32; lia). lia. }
  set (yd0 := days - march_start r) in *.
  assert ((if (r mod 4 =? 0) && (negb (r mod 100 =? 0) || (r mod 400 =? 0)) then 1 else 0) = Z.b2z (is_leap r)) as Hleap
    by (unfold is_leap; by destruct (_ && _)).
  assert (exists y yd, (if yd0 <? 0 then
      (s32 (u32 (u32 (365 + Z.b2z (is_leap r)) + yd0)), u32 (r - 1)) else (yd0, r)) = (yd, y) /\
    (if yd0 <? 0 then (r - 1, 365 + Z.b2z (is_leap r) + yd0) else (r, yd0)) = (y, yd) /\ 1968 <= y <= 2107)
    as (y & yd & E1 & E2 & Hy).
  { destruct (Z.ltb_spec yd0 0); do 2 eexists; (split; [| split; [reflexivity | lia]]); [|reflexivity].
    rewrite (u32_small (365 + _)), (u32_small (r - 1)) by (unfold is_u32; lia).
    rewrite s32_u32, s32_small by (unfold is_s32; lia). done. }
  rewrite Hleap, E1. rewrite E2 in Hspec |- *. destruct Hspec as [_ Hyd].
  pose proof (Hb (is_leap (y + 1))) as Hb3. pose proof (month_of_spec yd ltac:(lia)) as Hm. unfold month_of in *.
  rewrite Z.quot_div_nonneg by lia.
  set (mon := (yd + 31) * 10 / 306) in *. assert (1 <= mon <= 12) as Hmon by (unfold mon; div_mod_lia).
  rewrite (u32_small mon), (u32_small (367 * mon)) by (unfold is_u32; lia).
  assert (u32 (u32 (yd - u32 (367 * mon / 12 - 30)) + 1) = yd - (367 * mon / 12 - 30) + 1) as ->.
  { rewrite (u32_small (_ - 30)) by (unfold is_u32; div_mod_lia).
    unfold u32 at 2. unfold u32. rewrite Zplus_mod_idemp_l. destruct (306 <=? yd) eqn:E; rewrite Z.mod_small; lia || div_mod_lia. }
  destruct (Z.leb_spec 306 yd).
  - rewrite (u32_small (y + 1)), (u32_small (mon - 10)) by (unfold is_u32; div_mod_lia).
    f_equal; apply s32_small; unfold is_s32; unfold longest, march_days in *; div_mod_lia || lia.
  - rewrite (u32_small (mon + 2)) by (unfold is_u32; lia). rewrite Z.add_0_r.
    f_equal; apply s32_small; unfold is_s32; div_mod_lia || lia.
Qed.

Lemma gmtime_spec t :
  0 <= t < 2 ^ 32 ->
  let tm := time_gmtime t in
  valid_date (tm_year tm) (tm_mon tm) (tm_mday tm) /\ 1970 <= tm_year tm <= 2106 /\
  0 <= tm_hour tm < 24 /\ 0 <= tm_min tm < 60 /\ 0 <= tm_sec tm < 60 /\
  t = ((days_of_date (tm_year tm) (tm_mon tm) (tm_mday tm) * 24 + tm_hour tm) * 60 + tm_min tm) * 60 + tm_sec tm /\
  tm_wday tm = (days_of_date (tm_year tm) (tm_mon tm) (tm_mday tm) + 4) mod 7.
Proof.
  intros Ht. cbv zeta. rewrite gmtime_unwrap by done.
  assert (0 <= t / 86400 <= 49710) as HD by div_mod_lia.
  pose proof (march_date_spec (t / 86400 + 719468)) as H.
  destruct (march_date (t / 86400 + 719468)) as [y yd]. destruct H as [Hdays Hyd].
  assert (0 <= Z.b2z (is_leap (y + 1)) <= 1) as Hb by (destruct (is_leap (y + 1)); simpl; lia).
  pose proof (month_of_spec yd ltac:(lia)) as Hm. destruct (month_of yd) as [[m k] d].
  destruct Hm as (Hm & Hk & Hd & Hyd'). cbn [tm_sec tm_min tm_hour tm_mday tm_mon tm_year tm_wday].
  pose proof (days_of_month y m k d Hm Hk) as Hday.
  assert (days_of_date (y + k) m d = t / 86400) as -> by lia.
  split; [split; [done |]; split; [lia |]; apply (longest_month y m k d yd); done || lia |].
  assert (1970 <= y + k <= 2106) as Hyear.
  { unfold march_start in Hdays. destruct (m <=? 2) eqn:Em; subst k.
    - assert (306 <= yd) by (assert (m = 1 \/ m = 2) as [-> | ->] by lia; unfold march_days, tbl in Hyd'; compute_index; cbn in Hyd'; lia).
      div_mod_lia.
    - assert (yd < 306).
      { pose proof (below_13 m Hm) as Hcase. unfold march_days, longest, tbl in *.
        repeat destruct Hcase as [-> | Hcase]; try subst m; compute_index; cbn in Hyd', Hd; lia. }
      div_mod_lia. }
  split; [done |]. repeat (split; [div_mod_lia |]). f_equal. lia.
Qed.

(** ** HTTP dates *)

Definition two (v : Z) : list Z := [48 + v / 10; 48 + v mod 10].
Definition four (v : Z) : list Z := [48 + v / 1000; 48 + v / 100 mod 10; 48 + v / 10 mod 10; 48 + v mod 10].

Lemma two_spec v : 0 <= v < 100 -> item_out (IPad true [2] v) = two v.
Proof.
  intros Hv. apply (bool_decide_eq_true_1 (item_out (IPad true [2] v) = two v)).
  exact (forall_below_Z 100 (fun v => bool_decide (item_out (IPad true [2] v) = two v)) eq_refl v Hv).
Qed.

Lemma four_spec v : 1970 <= v <= 2106 -> item_out (IPad false [4] v) = four v.
Proof.
  intros Hv. apply (bool_decide_eq_true_1 (item_out (IPad false [4] v) = four v)).
  pose proof (forall_below_Z 137 (fun i => bool_decide (item_out (IPad false [4] (1970 + i)) = four (1970 + i)))
    eq_refl (v - 1970) ltac:(lia)) as H. cbv beta in H. by replace (1970 + (v - 1970)) with v in H by lia.
Qed.

Lemma entry_spec t i : 0 <= i < Z.of_nat (length t) -> exists w, entry t i = Some w /\ w ∈ t.
Proof.
  intros Hi. unfold entry. rewrite (proj2 (Z.ltb_ge i 0)) by lia.
  destruct (lookup_lt_is_Some_2 t (Z.to_nat i)) as [w Hw]; [lia |]. exists w. split; [done |].
  by eapply list_elem_of_lookup_2.
Qed.

(** Three letters, none of which is NUL. *)
Lemma name_letters w : w ∈ week \/ w ∈ months -> length w = 3%nat /\ Forall (fun c => c <> 0) w.
Proof.
  assert (Forall (fun w => length w = 3%nat /\ Forall (fun c => c <> 0) w) (week ++ months)) as H.
  { apply (bool_decide_unpack _). vm_compute. exact I. }
  rewrite Forall_forall in H. intros Hw. apply H. apply elem_of_app. done.
Qed.

Definition rfc1123 (w m : list Z) (d y hh mm ss : Z) : list Z :=
  w ++ [44; 32] ++ two d ++ [32] ++ m ++ [32] ++ four y ++ [32] ++ two hh ++ [58] ++ two mm ++ [58] ++ two ss ++
  [32; 71; 77; 84].

Definition http_items (w m : list Z) (d y hh mm ss : Z) : list item :=
  [IStr w; ILit 44; ILit 32; IPad true [2] d; ILit 32; IStr m; ILit 32; IPad false [4] y; ILit 32;
   IPad true [2] hh; ILit 58; IPad true [2] mm; ILit 58; IPad true [2] ss; ILit 32; ILit 71; ILit 77; ILit 84].

(** ** Claims *)

(** C38. [time_gmtime] is the Gregorian calendar: for every 32-bit time it returns a valid
    date between 1970 and 2106 and a time of day that together denote exactly that second,
    and the weekday of the date. *)
Theorem gmtime_calendar t :
  0 <= t < 2 ^ 32 ->
  let tm := time_gmtime t in
  valid_date (tm_year tm) (tm_mon tm) (tm_mday tm) /\ 1970 <= tm_year tm <= 2106 /\
  0 <= tm_hour tm < 24 /\ 0 <= tm_min tm < 60 /\ 0 <= tm_sec tm < 60 /\
  t = ((days_of_date (tm_year tm) (tm_mon tm) (tm_mday tm) * 24 + tm_hour tm) * 60 + tm_min tm) * 60 + tm_sec tm /\
  tm_wday tm = (days_of_date (tm_year tm) (tm_mon tm) (tm_mday tm) + 4) mod 7.
Proof. apply gmtime_spec. Qed.

(** The HTTP date of every 32-bit time is the 29-byte RFC 1123 form of the date
    [time_gmtime] computes, with the weekday and month names from the tables, and
    [time_monthtoi] reads the month back (counting from 0). *)
Theorem http_time_rfc1123 buf t :
  0 <= t < 2 ^ 32 -> 0 < buf -> buf + 65536 <= user_space ->
  let tm := time_gmtime t in
  exists w m, entry week (tm_wday tm) = Some w /\ entry months (tm_mon tm - 1) = Some m /\
    time_to_http_time buf t = Some (rfc1123 w m (tm_mday tm) (tm_year tm) (tm_hour tm) (tm_min tm) (tm_sec tm)) /\
    length (rfc1123 w m (tm_mday tm) (tm_year tm) (tm_hour tm) (tm_min tm) (tm_sec tm)) = 29%nat /\
    time_monthtoi m = Some (tm_mon tm - 1).
Proof.
  intros Ht Hb Hs. pose proof (gmtime_spec t Ht) as H. unfold time_to_http_time. cbv zeta in *.
  destruct (time_gmtime t) as [ss mm hh d mon y wd]. cbn [tm_sec tm_min tm_hour tm_mday tm_mon tm_year tm_wday] in *.
  destruct H as ((Hmon & Hd) & Hy & Hhh & Hmm & Hss & _ & Hwd).
  assert (0 <= wd < 7) as Hwd' by (subst wd; apply Z.mod_pos_bound; lia).
  assert (month_days y mon <= 31) as H31 by (unfold month_days; repeat case_match; lia).
  destruct (entry_spec week wd) as (w & Ew & Hw); [by change (length week) with 7%nat |].
  destruct (entry_spec months (mon - 1)) as (m & Em & Hm); [change (length months) with 12%nat; lia |].
  destruct (name_letters w) as [Hlw Hnw]; [by left |]. destruct (name_letters m) as [Hlm Hnm]; [by right |].
  exists w, m. split; [done |]. split; [done |]. rewrite Ew, Em. cbn [mbind option_bind]. split; [|split].
  - unfold string_xxsprintf, string_xxvsnprintf. change (65536 =? 0) with false. rewrite (proj2 (Z.eqb_neq buf 0)) by lia. cbn [orb].
    change [VStr (w ++ [0]); VInt d; VStr (m ++ [0]); VInt y; VInt hh; VInt mm; VInt ss]
      with (items_args (http_items w m d y hh mm ss)).
    change (str "%s, %02d %s %4d %02d:%02d:%02d GMT" ++ [0]) with (items_fmt (http_items w m d y hh mm ss) ++ [0]).
    rewrite vsnprintf_items; [| | simpl; lia | lia | done].
    + assert (items_out (http_items w m d y hh mm ss) = rfc1123 w m d y hh mm ss) as ->.
      { unfold items_out, http_items, rfc1123. rewrite !bind_cons.
        rewrite (two_spec d), (two_spec hh), (two_spec mm), (two_spec ss), (four_spec y) by lia.
        reflexivity. }
      by rewrite take_ge by (unfold rfc1123, two, four; rewrite !length_app, Hlw, Hlm; simpl; lia).
    + unfold http_items.
      assert (forall z k v, (k = 2 \/ k = 4) -> 0 <= v < 10000 -> item_ok (IPad z [k] v)) as Hpad.
      { intros z k v Hk Hv. simpl. split; [lia |]. split; [by repeat constructor; lia |].
        split; [unfold dec_value, dec_from; simpl; lia |]. intros _ [= ->]. lia. }
      repeat (apply Forall_cons; split; [first [by simpl | apply Hpad; lia | simpl; lia] |]). apply Forall_nil_2.
  - unfold rfc1123, two, four. rewrite !length_app, Hlw, Hlm. reflexivity.
  - clear - Em Hmon. destruct (below_13 mon Hmon) as [->|[->|[->|[->|[->|[->|[->|[->|[->|[->|[->| ->]]]]]]]]]]];
      vm_compute in Em; injection Em as <-; reflexivity.
Qed.

Lemma gmtime_calendar_witness :
  let tm := time_gmtime 951782400 in tm_year tm = 2000 /\ valid_date (tm_year tm) (tm_mon tm) (tm_mday tm).
Proof.
  cbv zeta. split; [reflexivity |]. apply (gmtime_calendar 951782400). lia.
Defined.

(** Thu, 01 Jan 1970 00:00:00 GMT *)
Lemma http_time_rfc1123_witness :
  exists out, time_to_http_time 4096 0 = Some out /\ length out = 29%nat.
Proof.
  destruct (http_time_rfc1123 4096 0) as (w & m & _ & _ & H1 & H2 & _); [lia | lia | vm_compute; discriminate |].
  eexists. split; [exact H1 | exact H2].
Defined.
