(* ===== verification/Hashtable.v ===== *)
(** * The chained hash table ([src/core/dfs_hashtable.cpp])

    The table links objects it does not own: a heap gives every link its key (the memory
    from the key pointer on, [None] for [NULL]), its length and its [next] pointer. The hash
    and comparison functions are parameters of the operations, as they are of the C table;
    the three hash functions of the file come first. Undefined behaviour is [None].

    The table is proved to be a last-joined-first dictionary for every pair of functions
    that satisfies the interface [HashOk], and the pair used for names satisfies it. *)

From S2P Require Import Prelude Numeric Strings.

(** ** Hash functions *)

(** A [char] is signed. *)
Definition s8 (z : Z) : Z := (z + 2 ^ 7) mod 2 ^ 8 - 2 ^ 7.

(** [ret % hashtable_size]: dividing by zero is undefined. *)
Definition mod_size (z size : Z) : option Z := if size =? 0 then None else Some (z mod size).

(** [DFS_HASH4(x)], [n] times. *)
Fixpoint hash4_loop (n : nat) (key : list Z) (x : Z) : option (Z * list Z) :=
  match n with
  | O => Some (x, key)
  | S n => c ← head key; hash4_loop n (tail key) (u64 (u64 (u64 (Z.shiftl x 5) + x) + s8 c))
  end.

(* src/src/core/dfs_hashtable.cpp:8-35 (dfs_hashtable_hash_hash4) *)
Definition dfs_hashtable_hash_hash4 (key : list Z) (data_size hashtable_size : Z) : option Z :=
  '(ret, key) ← hash4_loop (if Z.land data_size (8 - 1) =? 0 then 0 else 1) key 0;
  '(ret, _) ← hash4_loop (8 * Z.to_nat (Z.shiftr data_size 3)) key ret;
  mod_size ret hashtable_size.

(** [*((uint64_t * ) s)], little-endian. *)
Fixpoint load64 (n : nat) (s : list Z) : option Z :=
  match n with
  | O => Some 0
  | S n => c ← head s; r ← load64 n (tail s); Some (c + 256 * r)
  end.

Fixpoint key8_loop (todo : nat) (bnum : Z) (s : list Z) (n : Z) : option Z :=
  match todo with
  | O => Some n
  | S todo =>
      one ← load64 8 s;
      let one := if negb (bnum =? 0) && bool_decide (todo = 0%nat) then Z.shiftr one (bnum * 8) else one in
      key8_loop todo bnum (drop 8 s) (Z.lxor n (u64 (271 * one)))
  end.

(* src/src/core/dfs_hashtable.cpp:37-69 (dfs_hashtable_hash_key8) *)
Definition dfs_hashtable_hash_key8 (s : list Z) (data_size hashtable_size : Z) : option Z :=
  let bnum := data_size mod 8 in
  let loop := if bnum =? 0 then Z.shiftr data_size 3 else u64 (Z.shiftr data_size 3 + 1) in
  n ← key8_loop (Z.to_nat loop) bnum s 0;
  mod_size (Z.lxor n (u64 (loop * 271))) hashtable_size.

Fixpoint hash_low_loop (todo : nat) (s : list Z) (n : Z) : option Z :=
  c ← head s;
  if c =? 0 then Some n
  else match todo with
  | O => Some n
  | S todo => hash_low_loop todo (tail s) (u64 (u64 (n * 31) + string_xxctolower c))
  end.

(* src/src/core/dfs_hashtable.cpp:71-86 (dfs_hashtable_hash_low) *)
Definition dfs_hashtable_hash_low (s : list Z) (data_size hashtable_size : Z) : option Z :=
  n ← hash_low_loop (Z.to_nat data_size) s 0; mod_size n hashtable_size.

(** ** The table *)

(* src/src/core/dfs_hashtable.h:34-39 (dfs_hashtable_link_s) *)
Record link := { key : option (list Z); len : Z; next : ptr }.

(** Buckets are addressed by index; [count] is an [int]. *)
(* src/src/core/dfs_hashtable.h:48-57 (dfs_hashtable_s) *)
Record hashtable := { buckets : list ptr; size : Z; count : Z }.

Abbreviation links := (gmap ptr link).

Definition DFS_HASHTABLE_DEFAULT_SIZE : Z := 7951.

(** [alloc] says whether the allocation of the buckets succeeds; [None] is
    [DFS_HASHTABLE_ERROR]. *)
(* src/src/core/dfs_hashtable.cpp:134-171 (dfs_hashtable_init) *)
Definition dfs_hashtable_init (fuel : nat) (hash_sz : Z) (alloc : bool) : option (option hashtable) :=
  size ← (if hash_sz =? 0 then Some DFS_HASHTABLE_DEFAULT_SIZE else dfs_math_find_prime fuel hash_sz);
  Some (if alloc then Some {| buckets := replicate (Z.to_nat size) nullptr; size := size; count := 0 |} else None).

(** The header is allocated first (and dereferenced before the check when it comes from an
    allocator); when the buckets cannot be, it is freed again. *)
(* src/src/core/dfs_hashtable.cpp:93-132 (dfs_hashtable_create) *)
Definition dfs_hashtable_create (fuel : nat) (hash_sz : Z) (allocator alloc_ht alloc : bool) : option (option hashtable) :=
  if alloc_ht then dfs_hashtable_init fuel hash_sz alloc
  else if allocator then None else Some None.

Section Table.
Context (hash : list Z -> Z -> Z -> option Z) (cmp : list Z -> list Z -> Z -> option Z).

(** [ht->buckets[i]] *)
Definition bucket (ht : hashtable) (i : Z) : option ptr := if i <? 0 then None else buckets ht !! Z.to_nat i.

Definition link_hash (ht : hashtable) (l : link) : option Z :=
  k ← key l; hash k (len l) (size ht).

Definition link_set_next (x v : ptr) (m : links) : option links :=
  l ← m !! x; Some (<[x := {| key := key l; len := len l; next := v |}]> m).

(* src/src/core/dfs_hashtable.cpp:180-195 (dfs_hashtable_join) *)
Definition dfs_hashtable_join (hl : ptr) (m : links) (ht : hashtable) : option (links * hashtable) :=
  l ← m !! hl;
  i ← link_hash ht l;
  b ← bucket ht i;
  m ← link_set_next hl b m;
  Some (m, {| buckets := <[Z.to_nat i := hl]> (buckets ht); size := size ht; count := s32 (count ht + 1) |}).

(** [for (walker = ht->buckets[i]; walker; walker = walker->next)]; [nullptr] is not found. *)
Fixpoint lookup_loop (fuel : nat) (k : list Z) (n : Z) (walker : ptr) (m : links) : option ptr :=
  match fuel with
  | O => None
  | S fuel =>
      if bool_decide (walker = nullptr) then Some nullptr
      else
        l ← m !! walker;
        match key l with
        | None => Some nullptr
        | Some k' =>
            r ← cmp k k' n;
            if r =? 0 then Some walker
            else if bool_decide (walker = next l) then None
            else lookup_loop fuel k n (next l) m
        end
  end.

(* src/src/core/dfs_hashtable.cpp:202-231 (dfs_hashtable_lookup) *)
Definition dfs_hashtable_lookup (fuel : nat) (k : option (list Z)) (n : Z) (m : links) (ht : hashtable) : option ptr :=
  match k with
  | None => Some nullptr
  | Some k => i ← hash k n (size ht); b ← bucket ht i; lookup_loop fuel k n b m
  end.

(** Behind the first link of the bucket: [link = &(prev->next)]. *)
Fixpoint remove_loop (fuel : nat) (hl prev : ptr) (m : links) : option (option links) :=
  match fuel with
  | O => None
  | S fuel =>
      p ← m !! prev;
      if bool_decide (next p = nullptr) then Some None
      else if bool_decide (next p = hl) then
        l ← m !! hl; m ← link_set_next prev (next l) m; Some (Some m)
      else remove_loop fuel hl (next p) m
  end.

(** The result is [DFS_HASHTABLE_OK]. *)
(* src/src/core/dfs_hashtable.cpp:241-266 (dfs_hashtable_remove_link) *)
Definition dfs_hashtable_remove_link (fuel : nat) (hl : ptr) (m : links) (ht : hashtable)
    : option (bool * links * hashtable) :=
  l ← m !! hl;
  i ← link_hash ht l;
  let i := s32 i in
  b ← bucket ht i;
  if bool_decide (b = nullptr) then Some (false, m, ht)
  else if bool_decide (b = hl) then
    Some (true, m, {| buckets := <[Z.to_nat i := next l]> (buckets ht); size := size ht; count := s32 (count ht - 1) |})
  else
    r ← remove_loop fuel hl b m;
    match r with
    | Some m => Some (true, m, {| buckets := buckets ht; size := size ht; count := s32 (count ht - 1) |})
    | None => Some (false, m, ht)
    end.

(* src/src/core/dfs_hashtable.cpp:272-281 (dfs_hashtable_get_bucket) *)
Definition dfs_hashtable_get_bucket (ht : hashtable) (b : Z) : option ptr :=
  if size ht <=? b then Some nullptr else bucket ht b.

(** The links of one bucket, each handed to the free function after its [next] is read. *)
Fixpoint free_bucket (fuel : nat) (walker : ptr) (m : links) : option (list ptr) :=
  match fuel with
  | O => None
  | S fuel =>
      if bool_decide (walker = nullptr) then Some []
      else l ← m !! walker; ws ← free_bucket fuel (next l) (delete walker m); Some (walker :: ws)
  end.

Fixpoint free_buckets (fuel : nat) (bs : list ptr) (m : links) : option (list ptr) :=
  match bs with
  | [] => Some []
  | b :: bs =>
      ws ← free_bucket fuel b m;
      ws' ← free_buckets fuel bs (foldr delete m ws); Some (ws ++ ws')
  end.

(** The links freed, in order; the buckets keep their pointers. *)
(* src/src/core/dfs_hashtable.cpp:312-335 (dfs_hashtable_free_items) *)
Definition dfs_hashtable_free_items (fuel : nat) (m : links) (ht : hashtable) : option (list ptr * hashtable) :=
  ws ← free_buckets fuel (buckets ht) m;
  Some (ws, {| buckets := buckets ht; size := size ht; count := s32 (count ht - Z.of_nat (length ws)) |}).

(* src/src/core/dfs_hashtable.cpp:337-340 (dfs_hashtable_empty) *)
Definition dfs_hashtable_empty (ht : hashtable) : bool := count ht =? 0.
End Table.

(** ** The contract of the function pointers

    On keys accepted by [good], the hash is a bucket of every non-empty table, the comparison
    decides, and keys that compare equal hash alike. Nothing else is asked: the comparison
    need not be an equivalence. *)
Class KeyOps (hash : list Z -> Z -> Z -> option Z) (cmp : list Z -> list Z -> Z -> option Z)
    (good : list Z -> Z -> Prop) : Prop := {
  hash_range k n size : good k n -> 0 < size -> exists i, hash k n size = Some i /\ 0 <= i < size;
  cmp_total k n k' n' : good k n -> good k' n' -> exists r, cmp k k' n = Some r;
  cmp_hash k n k' n' size : good k n -> good k' n' -> cmp k k' n = Some 0 -> hash k n size = hash k' n' size
}.

(** ** Chains *)

Section Refinement.
Context `{HK : KeyOps hash cmp good}.

(** The keys of the links, which the table never changes. *)
Context (keys : gmap ptr (list Z * Z)).

Abbreviation lchain := (chain next).

Definition keyed (m : links) : Prop :=
  forall x k n, keys !! x = Some (k, n) ->
    x <> nullptr /\ good k n /\ exists nx, m !! x = Some {| key := Some k; len := n; next := nx |}.

Definition index (size : Z) (x : ptr) : option Z := '(k, n) ← keys !! x; hash k n size.

Definition in_bucket (size i : Z) (x : ptr) : Prop := index size x = Some i.

#[local] Instance in_bucket_dec size i x : Decision (in_bucket size i x).
Proof. unfold in_bucket. apply _. Defined.

(** [d] lists the links joined and not removed since, the last joined first. *)
Record repr (m : links) (ht : hashtable) (d : list ptr) : Prop := {
  repr_keyed : keyed m;
  repr_nodup : NoDup d;
  repr_keys x : x ∈ d -> is_Some (keys !! x);
  repr_size : 0 < size ht < 2 ^ 31;
  repr_buckets : length (buckets ht) = Z.to_nat (size ht);
  repr_count : count ht = Z.of_nat (length d);
  repr_bound : Z.of_nat (length d) < 2 ^ 31;
  repr_chain i : 0 <= i < size ht ->
    exists b, bucket ht i = Some b /\ lchain m b (filter (in_bucket (size ht) i) d)
}.

(** The abstract dictionary: the last joined link whose key compares equal. *)
Definition matches (k : list Z) (n : Z) (x : ptr) : bool :=
  match keys !! x with Some (k', _) => bool_decide (cmp k k' n = Some 0) | None => false end.

Fixpoint first_match (k : list Z) (n : Z) (d : list ptr) : ptr :=
  match d with [] => nullptr | x :: d => if matches k n x then x else first_match k n d end.

Lemma index_range x size : is_Some (keys !! x) -> 0 < size -> (forall m, keyed m -> exists i, index size x = Some i /\ 0 <= i < size).
Proof.
  intros [[k n] Hx] Hs m Hm. unfold index. rewrite Hx. cbn. destruct (Hm _ _ _ Hx) as (_ & Hg & _).
  by apply hash_range.
Qed.

Lemma keyed_update m x k n nx nx' :
  keyed m -> m !! x = Some {| key := k; len := n; next := nx |} ->
  keyed (<[x := {| key := k; len := n; next := nx' |}]> m).
Proof.
  intros Hm Hx y k' n' Hy. destruct (Hm _ _ _ Hy) as (Hn & Hg & ny & Hmy). split; [done |]. split; [done |].
  destruct (decide (x = y)) as [-> | Hne].
  - exists nx'. rewrite lookup_insert_eq. congruence.
  - exists ny. by rewrite lookup_insert_ne.
Qed.

Lemma bucket_insert ht i b j n c :
  0 <= i < size ht -> length (buckets ht) = Z.to_nat (size ht) -> 0 <= j ->
  bucket {| buckets := <[Z.to_nat i := b]> (buckets ht); size := n; count := c |} j =
    if bool_decide (i = j) then Some b else bucket ht j.
Proof.
  intros Hi Hl Hj. unfold bucket. cbn. rewrite (proj2 (Z.ltb_ge j 0)) by done. case_bool_decide as E.
  - subst. apply list_lookup_insert_eq. lia.
  - apply list_lookup_insert_ne. lia.
Qed.

(** ** Each operation *)

Lemma lookup_loop_spec k n m b xs fuel :
  keyed m -> good k n -> NoDup xs -> (forall x, x ∈ xs -> is_Some (keys !! x)) ->
  lchain m b xs -> (length xs < fuel)%nat ->
  lookup_loop cmp fuel k n b m = Some (first_match k n xs).
Proof.
  intros Hm Hg. revert b fuel. induction xs as [|x xs IH]; intros b fuel Hnd Hk Hc Hf;
    destruct fuel as [|fuel]; try (simpl in Hf; lia); cbn [lookup_loop].
  { simpl in Hc. by rewrite bool_decide_true. }
  destruct Hc as [-> (l & Hl & Hc)]. destruct (Hk x) as [[k' n'] Hx]; [by left |].
  destruct (Hm _ _ _ Hx) as (Hnn & Hg' & nx & Hmx). rewrite Hmx in Hl. injection Hl as <-.
  rewrite bool_decide_false, Hmx by done. cbn [mbind option_bind key next] in *.
  destruct (cmp_total k n k' n' Hg Hg') as [r Hr]. rewrite Hr. cbn [mbind option_bind first_match].
  unfold matches. rewrite Hx, Hr.
  destruct (Z.eqb_spec r 0) as [-> | Hne]; [by rewrite bool_decide_true |].
  rewrite (bool_decide_false (Some r = Some 0)) by congruence.
  apply NoDup_cons in Hnd as [Hni Hnd].
  rewrite bool_decide_false.
  2: { intros <-. destruct xs; [done |]. destruct Hc as [-> _]. apply Hni. by left. }
  apply IH; [done | | done | simpl in Hf; lia]. intros y Hy. apply Hk. by right.
Qed.

(** Only the bucket of the key can hold a match. *)
Lemma first_match_bucket k n sz i d m :
  keyed m -> good k n -> hash k n sz = Some i ->
  first_match k n (filter (in_bucket sz i) d) = first_match k n d.
Proof.
  intros Hm Hg Hh. induction d as [|x d IH]; [done |]. rewrite filter_cons. cbn [first_match].
  case_decide as E; cbn [first_match]; [by rewrite IH |]. rewrite IH.
  destruct (matches k n x) eqn:Hx; [|done]. exfalso. apply E. unfold matches in Hx.
  destruct (keys !! x) as [[k' n']|] eqn:Hk; [|done]. apply bool_decide_eq_true in Hx.
  unfold in_bucket, index. rewrite Hk. cbn. destruct (Hm _ _ _ Hk) as (_ & Hg' & _).
  by rewrite <- (cmp_hash k n k' n' sz Hg Hg' Hx).
Qed.

Lemma filter_length_lt (P : ptr -> Prop) `{!forall x, Decision (P x)} d fuel :
  (length d < fuel)%nat -> (length (filter P d) < fuel)%nat.
Proof. pose proof (length_filter P d). lia. Qed.

Lemma lookup_refines m ht d k n fuel :
  repr m ht d -> good k n -> (length d < fuel)%nat ->
  dfs_hashtable_lookup hash cmp fuel (Some k) n m ht = Some (first_match k n d).
Proof.
  intros [Hm Hnd Hk Hs Hb Hc Hbd Hch] Hg Hf. cbn [dfs_hashtable_lookup].
  destruct (hash_range k n (size ht) Hg) as (i & Hi & Hr); [lia |]. rewrite Hi. cbn [mbind option_bind].
  destruct (Hch i Hr) as (b & -> & Hx). cbn [mbind option_bind].
  rewrite <- (first_match_bucket k n (size ht) i d m) by done.
  apply lookup_loop_spec; [done | done | by apply NoDup_filter | | done | by apply filter_length_lt].
  intros x [_ Hin]%list_elem_of_filter. by apply Hk.
Qed.

Lemma link_hash_index m ht x l :
  keyed m -> is_Some (keys !! x) -> m !! x = Some l -> link_hash hash ht l = index (size ht) x.
Proof.
  intros Hm [[k n] Hx] Hl. destruct (Hm _ _ _ Hx) as (_ & _ & nx & Hmx). rewrite Hmx in Hl. injection Hl as <-.
  unfold link_hash, index. rewrite Hx. done.
Qed.

Lemma keyed_lookup m x : keyed m -> is_Some (keys !! x) -> is_Some (m !! x) /\ x <> nullptr.
Proof. intros Hm [[k n] Hx]. destruct (Hm _ _ _ Hx) as (? & _ & ? & ->). by split. Qed.

Lemma join_refines m ht d x :
  repr m ht d -> is_Some (keys !! x) -> x ∉ d -> Z.of_nat (length d) < 2 ^ 31 - 1 ->
  exists m' ht', dfs_hashtable_join hash x m ht = Some (m', ht') /\ repr m' ht' (x :: d).
Proof.
  intros Hr Hx Hnx Hlen. pose proof Hr as [Hm Hnd Hk Hs Hb Hc Hbd Hch].
  destruct (keyed_lookup m x Hm Hx) as [[l Hl] Hnn].
  destruct (index_range x (size ht) Hx ltac:(lia) m Hm) as (i & Hi & Hir).
  destruct (Hch i Hir) as (b & Hbk & Hcb).
  unfold dfs_hashtable_join, link_set_next. rewrite Hl. cbn [mbind option_bind].
  rewrite (link_hash_index m ht x l) by done. rewrite Hi. cbn [mbind option_bind]. rewrite Hbk. cbn [mbind option_bind].
  eexists _, _. split; [reflexivity |]. destruct l as [lk ln lx]. cbn [key len].
  constructor; cbn [size count buckets].
  - by apply (keyed_update m x lk ln lx b).
  - by apply NoDup_cons.
  - intros y [-> | Hy]%elem_of_cons; auto.
  - done.
  - by rewrite length_insert.
  - rewrite Hc, s32_small; [simpl; lia | unfold is_s32; lia].
  - simpl. lia.
  - intros j Hj. rewrite (bucket_insert ht i x j) by (done || lia). rewrite filter_cons.
    assert (in_bucket (size ht) j x <-> i = j) as Hij by (unfold in_bucket; rewrite Hi; naive_solver).
    case_bool_decide as E.
    + subst j. rewrite decide_True by tauto. exists x. split; [done |]. cbn [chain]. split; [done |].
      rewrite lookup_insert_eq. eexists. split; [done |]. cbn [next]. apply chain_insert; [|done].
      by intros [_ ?]%list_elem_of_filter.
    + rewrite decide_False by tauto. destruct (Hch j Hj) as (b' & Hb' & Hc'). exists b'. split; [done |].
      apply chain_insert; [|done]. by intros [_ ?]%list_elem_of_filter.
Qed.

Abbreviation other x := (fun y : ptr => y <> x).

Lemma filter_other_absent x (xs : list ptr) : x ∉ xs -> filter (other x) xs = xs.
Proof.
  intros Hx. induction xs as [|y xs IH]; [done |]. apply not_elem_of_cons in Hx as [? ?].
  rewrite filter_cons, decide_True by done. by rewrite IH.
Qed.

Lemma filter_other_head x (xs : list ptr) : x ∉ xs -> filter (other x) (x :: xs) = xs.
Proof. intros. rewrite filter_cons, decide_False by tauto. by apply filter_other_absent. Qed.

Lemma filter_filter_comm (P Q : ptr -> Prop) `{!forall x, Decision (P x)} `{!forall x, Decision (Q x)} (xs : list ptr) :
  filter P (filter Q xs) = filter Q (filter P xs).
Proof.
  rewrite !list_filter_filter. apply list_filter_iff. tauto.
Qed.

Lemma length_filter_other x (xs : list ptr) : NoDup xs -> x ∈ xs -> S (length (filter (other x) xs)) = length xs.
Proof.
  intros Hnd (l1 & l2 & ->)%list_elem_of_split. apply NoDup_app in Hnd as (_ & Hd & [Hx _]%NoDup_cons).
  rewrite filter_app, filter_other_head by done. rewrite filter_other_absent.
  - rewrite !length_app. simpl. lia.
  - intros Hin. apply (Hd x Hin). by left.
Qed.

(** The scan behind the first link either meets [hl] and unlinks it, or ends. *)
Lemma remove_loop_spec hl m p xs fuel :
  NoDup (p :: xs) -> nullptr ∉ p :: xs -> lchain m p (p :: xs) -> (length xs < fuel)%nat ->
  if bool_decide (hl ∈ xs) then
    exists q l nx, q ∈ p :: xs /\ m !! q = Some l /\
      let m' := <[q := {| key := key l; len := len l; next := nx |}]> m in
      remove_loop fuel hl p m = Some (Some m') /\ lchain m' p (p :: filter (other hl) xs)
  else remove_loop fuel hl p m = Some None.
Proof.
  revert p fuel. induction xs as [|x xs IH]; intros p fuel Hnd Hnn Hc Hf;
    destruct fuel as [|fuel]; try (simpl in Hf; lia); cbn [remove_loop];
    destruct Hc as [_ (lp & Hlp & Hc)]; rewrite Hlp; cbn [mbind option_bind].
  { rewrite bool_decide_false by apply not_elem_of_nil. cbn [chain] in Hc. by rewrite bool_decide_true. }
  apply not_elem_of_cons in Hnn as [_ Hnn]. apply NoDup_cons in Hnd as [Hp Hnd].
  pose proof Hc as [Hx (lx & Hlx & Hcx)]. rewrite Hx in *.
  rewrite (bool_decide_false (x = nullptr)) by (intros ->; apply Hnn; by left).
  destruct (decide (x = hl)) as [-> | Hne].
  - rewrite (bool_decide_true (hl ∈ _)) by by left. rewrite (bool_decide_true (hl = hl)) by done.
    rewrite Hlx. cbn [mbind option_bind]. unfold link_set_next. rewrite Hlp. cbn [mbind option_bind].
    exists p, lp, (next lx). split; [by left |]. split; [done |]. split; [done |].
    apply NoDup_cons in Hnd as [Hh _]. rewrite filter_other_head by done. cbn [chain].
    split; [done |]. rewrite lookup_insert_eq. eexists. split; [done |]. cbn [next].
    apply chain_insert; [|done]. intros ?. apply Hp. by right.
  - rewrite (bool_decide_false (x = hl)) by done.
    specialize (IH x fuel Hnd Hnn Hc ltac:(simpl in Hf; lia)).
    rewrite (bool_decide_ext (hl ∈ x :: xs) (hl ∈ xs)) by (rewrite elem_of_cons; naive_solver).
    case_bool_decide; [|done]. destruct IH as (q & l & nx & Hq & Hl & -> & Hc').
    exists q, l, nx. split; [by right |]. split; [done |]. split; [done |].
    rewrite filter_cons, decide_True by done. assert (p <> q) by (intros ->; done). cbn [chain] in *.
    split; [done |]. rewrite lookup_insert_ne by done. exists lp. split; [done |]. by rewrite Hx.
Qed.

(** Unlinking from bucket [i] leaves the invariant for the list without the link. *)
Lemma repr_unlink m ht d x i m' bs b' :
  repr m ht d -> x ∈ d -> index (size ht) x = Some i ->
  bs = <[Z.to_nat i := b']> (buckets ht) ->
  keyed m' -> lchain m' b' (filter (other x) (filter (in_bucket (size ht) i) d)) ->
  (forall b xs, (forall q, q ∈ xs -> index (size ht) q <> Some i) -> lchain m b xs -> lchain m' b xs) ->
  repr m' {| buckets := bs; size := size ht; count := s32 (count ht - 1) |} (filter (other x) d).
Proof.
  intros [Hm Hnd Hk Hs Hb Hc Hbd Hch] Hx Hi -> Hm' Hc' Hoff.
  destruct (index_range x (size ht) (Hk x Hx) ltac:(lia) m Hm) as (i' & Hi' & Hir).
  assert (i' = i) as -> by congruence.
  constructor; cbn [size count buckets]; [done | by apply NoDup_filter | | done | by rewrite length_insert | | |].
  - intros y [_ Hy]%list_elem_of_filter. by apply Hk.
  - pose proof (length_filter_other x d Hnd Hx). pose proof (length_filter (other x) d).
    rewrite Hc, s32_small; [lia | unfold is_s32; lia].
  - pose proof (length_filter (other x) d). lia.
  - intros j Hj. rewrite (bucket_insert ht i b' j) by (done || lia). case_bool_decide as E.
    + subst j. exists b'. split; [done |]. by rewrite filter_filter_comm.
    + destruct (Hch j Hj) as (b & Hb' & Hcb). exists b. split; [done |]. rewrite filter_filter_comm.
      rewrite filter_other_absent.
      * apply Hoff; [|done]. intros q [Hq _]%list_elem_of_filter. unfold in_bucket in Hq. congruence.
      * intros [Hin _]%list_elem_of_filter. unfold in_bucket in Hin. congruence.
Qed.

Lemma remove_refines m ht d x fuel :
  repr m ht d -> is_Some (keys !! x) -> (length d < fuel)%nat ->
  exists m' ht', dfs_hashtable_remove_link hash fuel x m ht = Some (bool_decide (x ∈ d), m', ht') /\
    repr m' ht' (filter (other x) d).
Proof.
  intros Hr Hx Hf. pose proof Hr as [Hm Hnd Hk Hs Hb Hc Hbd Hch].
  destruct (keyed_lookup m x Hm Hx) as [[l Hl] Hnn].
  destruct (index_range x (size ht) Hx ltac:(lia) m Hm) as (i & Hi & Hir).
  destruct (Hch i Hir) as (b & Hbk & Hcb).
  unfold dfs_hashtable_remove_link. rewrite Hl. cbn [mbind option_bind].
  rewrite (link_hash_index m ht x l) by done. rewrite Hi. cbn [mbind option_bind].
  rewrite s32_small by (unfold is_s32; lia). rewrite Hbk. cbn [mbind option_bind].
  assert (x ∈ d <-> x ∈ filter (in_bucket (size ht) i) d) as Hin by (rewrite list_elem_of_filter; tauto).
  assert (NoDup (filter (in_bucket (size ht) i) d)) as Hnd' by by apply NoDup_filter.
  assert (forall y, y ∈ filter (in_bucket (size ht) i) d -> index (size ht) y = Some i /\ is_Some (keys !! y)) as Hys
    by (intros y [? ?]%list_elem_of_filter; auto).
  pose proof (repr_unlink m ht d x i) as Hun.
  destruct (filter (in_bucket (size ht) i) d) as [|y ys] eqn:Hfl.
  { simpl in Hcb. subst b. rewrite (bool_decide_true (nullptr = _)) by done.
    assert (x ∉ d) as Hni by (rewrite Hin; apply not_elem_of_nil).
    exists m, ht. rewrite bool_decide_false, filter_other_absent by done. done. }
  pose proof Hcb as [-> (ly & Hly & Hcy)].
  assert (forall z, z ∈ y :: ys -> z <> nullptr) as Hnz.
  { intros z Hz. by destruct (keyed_lookup m z Hm (proj2 (Hys z Hz))). }
  rewrite (bool_decide_false (y = nullptr)) by (apply Hnz; by left).
  pose proof Hnd' as [Hy _]%NoDup_cons.
  case_bool_decide as E.
  - subst y. assert (ly = l) as -> by congruence. rewrite (bool_decide_true (x ∈ d)) by (apply Hin; by left).
    eexists _, _. split; [reflexivity |].
    eapply Hun; [done | apply Hin; by left | done | reflexivity | done | by rewrite filter_other_head | done].
  - assert (length ys < fuel)%nat as Hf'.
    { pose proof (length_filter (in_bucket (size ht) i) d) as Hlf. rewrite Hfl in Hlf. simpl in Hlf. lia. }
    assert (nullptr ∉ y :: ys) as Hnn' by (intros Hz; by apply (Hnz _ Hz)).
    pose proof (remove_loop_spec x m y ys fuel Hnd' Hnn' Hcb Hf') as Hrm.
    rewrite (bool_decide_ext (x ∈ d) (x ∈ ys)) by (rewrite Hin, elem_of_cons; naive_solver).
    case_bool_decide as Hxy.
    + destruct Hrm as (q & lq & nx & Hq & Hlq & -> & Hc'). cbn [mbind option_bind].
      eexists _, _. split; [reflexivity |].
      eapply Hun; [done | apply Hin; by right | done | | | rewrite filter_cons, decide_True by done; exact Hc' |].
      * symmetry. apply list_insert_id. unfold bucket in Hbk. by destruct (i <? 0).
      * destruct lq as [lk ln lx]. by apply (keyed_update m q lk ln lx nx).
      * intros b' xs Hxs. apply chain_insert. intros Hqx. apply (Hxs q Hqx). by apply Hys.
    + rewrite Hrm. cbn [mbind option_bind]. exists m, ht. split; [done |].
      rewrite filter_other_absent; [done |]. rewrite Hin. intros [-> |]%elem_of_cons; done.
Qed.

Lemma empty_refines m ht d : repr m ht d -> dfs_hashtable_empty ht = bool_decide (d = []).
Proof.
  intros [_ _ _ _ _ Hc _ _]. unfold dfs_hashtable_empty. rewrite Hc.
  destruct d as [|x d]; [done |]. rewrite bool_decide_false by done. by apply Z.eqb_neq.
Qed.

Lemma init_refines m fuel hash_sz ht :
  keyed m -> dfs_hashtable_init fuel hash_sz true = Some (Some ht) -> 0 < size ht < 2 ^ 31 -> repr m ht [].
Proof.
  unfold dfs_hashtable_init. intros Hm (sz & _ & [= <-])%bind_Some Hs. cbn [size] in Hs.
  constructor; cbn [size count buckets]; [done | constructor | by intros x ?%elem_of_nil | done | | done | done |].
  - apply length_replicate.
  - intros i Hi. exists nullptr. split; [|done]. unfold bucket. rewrite (proj2 (Z.ltb_ge i 0)) by lia.
    apply lookup_replicate_2. lia.
Qed.

(** ** Histories of operations *)

Inductive op := Join (hl : ptr) | RemoveLink (hl : ptr) | Lookup (k : list Z) (n : Z) | Empty.
Inductive out := Returned (ok : bool) | Found (hl : ptr) | IsEmpty (b : bool).

Definition run_op (fuel : nat) (o : op) (s : links * hashtable) : option (out * (links * hashtable)) :=
  let '(m, ht) := s in
  match o with
  | Join hl => s ← dfs_hashtable_join hash hl m ht; Some (Returned true, s)
  | RemoveLink hl => '(ok, m, ht) ← dfs_hashtable_remove_link hash fuel hl m ht; Some (Returned ok, (m, ht))
  | Lookup k n => p ← dfs_hashtable_lookup hash cmp fuel (Some k) n m ht; Some (Found p, s)
  | Empty => Some (IsEmpty (dfs_hashtable_empty ht), s)
  end.

Fixpoint run_ops (fuel : nat) (os : list op) (s : links * hashtable) : option (list out * (links * hashtable)) :=
  match os with
  | [] => Some ([], s)
  | o :: os => '(r, s) ← run_op fuel o s; '(rs, s) ← run_ops fuel os s; Some (r :: rs, s)
  end.

(** The dictionary, with what a caller may ask of it. *)
Inductive dict_op : op -> list ptr -> out -> list ptr -> Prop :=
| DictJoin hl d : is_Some (keys !! hl) -> hl ∉ d -> dict_op (Join hl) d (Returned true) (hl :: d)
| DictRemove hl d : is_Some (keys !! hl) ->
    dict_op (RemoveLink hl) d (Returned (bool_decide (hl ∈ d))) (filter (other hl) d)
| DictLookup k n d : good k n -> dict_op (Lookup k n) d (Found (first_match k n d)) d
| DictEmpty d : dict_op Empty d (IsEmpty (bool_decide (d = []))) d.

Inductive dict_ops : list op -> list ptr -> list out -> list ptr -> Prop :=
| DictNil d : dict_ops [] d [] d
| DictCons o os d d' d'' r rs :
    dict_op o d r d' -> dict_ops os d' rs d'' -> dict_ops (o :: os) d (r :: rs) d''.

Lemma table_op_refines fuel o m ht d r d' :
  repr m ht d -> dict_op o d r d' -> (length d < fuel)%nat -> Z.of_nat fuel < 2 ^ 31 ->
  exists m' ht', run_op fuel o (m, ht) = Some (r, (m', ht')) /\ repr m' ht' d' /\ size ht' = size ht.
Proof.
  intros Hr Ho Hf Hb. destruct Ho as [hl d Hk Hn | hl d Hk | k n d Hg | d]; cbn [run_op].
  - destruct (join_refines m ht d hl) as (m' & ht' & Hj & Hr'); [done.. | lia |]. rewrite Hj.
    exists m', ht'. split; [done |]. split; [done |]. unfold dfs_hashtable_join in Hj.
    repeat apply bind_Some in Hj as (? & ? & Hj). by injection Hj as <- <-.
  - destruct (remove_refines m ht d hl fuel) as (m' & ht' & Hj & Hr'); [done.. |]. rewrite Hj.
    exists m', ht'. split; [done |]. split; [done |]. unfold dfs_hashtable_remove_link in Hj.
    do 3 apply bind_Some in Hj as (? & ? & Hj). repeat case_match; try apply bind_Some in Hj as ([?|] & ? & Hj);
      by injection Hj as _ _ <-.
  - rewrite (lookup_refines m ht d k n fuel Hr Hg Hf). exists m, ht. done.
  - rewrite (empty_refines m ht d Hr). exists m, ht. done.
Qed.

Lemma table_ops_refines fuel os m ht d rs d' :
  repr m ht d -> dict_ops os d rs d' -> (length d + length os < fuel)%nat -> Z.of_nat fuel < 2 ^ 31 ->
  exists m' ht', run_ops fuel os (m, ht) = Some (rs, (m', ht')) /\ repr m' ht' d' /\ size ht' = size ht.
Proof.
  intros Hr Hd Hf Hb. revert m ht Hr Hf. induction Hd as [d | o os d d1 d2 r rs Ho Hos IH]; intros m ht Hr Hf.
  { by exists m, ht. }
  simpl in Hf. cbn [run_ops].
  destruct (table_op_refines fuel o m ht d r d1 Hr Ho) as (m1 & ht1 & -> & Hr1 & Hs1); [lia | done |].
  cbn [mbind option_bind].
  assert (length d1 <= S (length d))%nat as Hl.
  { destruct Ho; simpl; try lia. pose proof (length_filter (other hl) d). lia. }
  destruct (IH m1 ht1 Hr1) as (m2 & ht2 & -> & Hr2 & Hs2); [lia |]. cbn [mbind option_bind].
  exists m2, ht2. split; [done |]. split; [done |]. congruence.
Qed.

(** ** Freeing the objects *)

Lemma free_bucket_spec m b xs fuel :
  NoDup xs -> nullptr ∉ xs -> lchain m b xs -> (length xs < fuel)%nat -> free_bucket fuel b m = Some xs.
Proof.
  revert m b fuel. induction xs as [|x xs IH]; intros m b fuel Hnd Hnn Hc Hf;
    destruct fuel as [|fuel]; try (simpl in Hf; lia); cbn [free_bucket].
  { simpl in Hc. by rewrite bool_decide_true. }
  destruct Hc as [-> (l & Hl & Hc)]. rewrite bool_decide_false by (intros ->; apply Hnn; by left).
  rewrite Hl. cbn [mbind option_bind]. apply NoDup_cons in Hnd as [Hx Hnd]. apply not_elem_of_cons in Hnn as [_ Hnn].
  rewrite (IH (delete x m) (next l) fuel); [done | done | done | | simpl in Hf; lia].
  by apply chain_delete.
Qed.

(** The buckets are freed in order; [f i] are the links of bucket [i]. *)
Lemma free_buckets_spec fuel (f : nat -> list ptr) bs i m :
  (forall j b, bs !! j = Some b -> lchain m b (f (i + j)%nat)) ->
  (forall j, NoDup (f j) /\ (nullptr ∉ f j) /\ (length (f j) < fuel)%nat) ->
  (forall (j k : nat) (x : ptr), x ∈ f j -> x ∈ f k -> j = k) ->
  free_buckets fuel bs m = Some (mbind f (seq i (length bs))).
Proof.
  intros Hc Hf Hd. revert i m Hc. induction bs as [|b bs IH]; intros i m Hc; [done |].
  cbn [free_buckets length]. destruct (Hf i) as (Hnd & Hnn & Hl).
  rewrite (free_bucket_spec m b (f i)); [|done..| |done].
  2: { specialize (Hc O b eq_refl). by rewrite Nat.add_0_r in Hc. }
  cbn [mbind option_bind]. rewrite (IH (S i)); [done |]. intros j b' Hj.
  apply chain_foldr_delete.
  - intros x Hx Hx'. specialize (Hd _ _ _ Hx Hx'). lia.
  - specialize (Hc (S j) b' Hj). by rewrite Nat.add_succ_r in Hc.
Qed.

Lemma free_items_refines m ht d fuel :
  repr m ht d -> (length d < fuel)%nat ->
  exists ws, dfs_hashtable_free_items fuel m ht =
      Some (ws, {| buckets := buckets ht; size := size ht; count := 0 |}) /\
    ws ≡ₚ d /\
    (forall i b, bucket ht i = Some b -> b <> nullptr -> (foldr delete m ws) !! b = None).
Proof.
  intros [Hm Hnd Hk Hs Hb Hc Hbd Hch] Hf.
  set (f := fun i : nat => filter (in_bucket (size ht) (Z.of_nat i)) d).
  assert (forall x, x ∈ d -> x <> nullptr) as Hnn by (intros x Hx; by destruct (keyed_lookup m x Hm (Hk x Hx))).
  set (ws := seq 0 (length (buckets ht)) ≫= f).
  assert (ws ≡ₚ d) as Hp.
  { apply NoDup_Permutation; [|done|].
    - apply NoDup_bind; [| |apply NoDup_seq].
      + intros j k x _ _ [Hj _]%list_elem_of_filter [Hk' _]%list_elem_of_filter.
        unfold in_bucket in *. rewrite Hj in Hk'. injection Hk'. lia.
      + intros j _. by apply NoDup_filter.
    - intros x. unfold ws. rewrite list_elem_of_bind. split.
      + by intros (j & [_ ?]%list_elem_of_filter & _).
      + intros Hx. destruct (index_range x (size ht) (Hk x Hx) ltac:(lia) m Hm) as (i & Hi & Hir).
        exists (Z.to_nat i). split.
        * apply list_elem_of_filter. split; [|done]. unfold in_bucket. rewrite Hi. f_equal. lia.
        * apply elem_of_seq. lia. }
  assert (free_buckets fuel (buckets ht) m = Some ws) as Hfb.
  { apply free_buckets_spec.
    - intros j b Hj. destruct (Hch (Z.of_nat j)) as (b' & Hb' & Hcb).
      { apply lookup_lt_Some in Hj. lia. }
      unfold bucket in Hb'. rewrite (proj2 (Z.ltb_ge (Z.of_nat j) 0)), Nat2Z.id in Hb' by lia. cbn in Hb'.
      by assert (b' = b) as -> by congruence.
    - intros j. split; [by apply NoDup_filter |]. split; [intros [_ ?]%list_elem_of_filter; by apply (Hnn nullptr) |].
      by apply filter_length_lt.
    - intros j k x [Hj _]%list_elem_of_filter [Hk' _]%list_elem_of_filter.
      unfold in_bucket in *. rewrite Hj in Hk'. injection Hk'. lia. }
  exists ws. unfold dfs_hashtable_free_items. rewrite Hfb. cbn [mbind option_bind]. split; [|split; [done |]].
  - rewrite (Permutation_length Hp), Hc, Z.sub_diag. done.
  - intros i b Hbk Hb0. apply lookup_foldr_delete_in. rewrite Hp.
    destruct (Z.ltb_spec i 0) as [Hi | Hi]; unfold bucket in Hbk; [rewrite (proj2 (Z.ltb_lt i 0)) in Hbk by done; done |].
    rewrite (proj2 (Z.ltb_ge i 0)) in Hbk by done. pose proof (lookup_lt_Some _ _ _ Hbk).
    destruct (Hch i) as (b' & Hb' & Hcb); [lia |]. unfold bucket in Hb'. rewrite (proj2 (Z.ltb_ge i 0)) in Hb' by done.
    cbn in Hb', Hbk. assert (b' = b) as -> by congruence.
    destruct (filter (in_bucket (size ht) i) d) as [|y ys] eqn:Hfl; [done |]. destruct Hcb as [-> _].
    assert (y ∈ filter (in_bucket (size ht) i) d) as [_ ?]%list_elem_of_filter; [|done]. rewrite Hfl. by left.
Qed.
End Refinement.

(** ** The hash functions *)

Definition hash_step (n c : Z) : Z := u64 (u64 (n * 31) + fold_case c).

Lemma ctolower_fold_case c : is_u8 c -> string_xxctolower c = fold_case c.
Proof.
  intros Hc. apply Z.eqb_eq. 
  exact (forall_below_Z 256 (fun c => string_xxctolower c =? fold_case c) eq_refl c Hc).
Qed.

Lemma hash_low_loop_spec s n h :
  bytes s -> readable s (S n) -> hash_low_loop n s h = Some (foldl hash_step h (cstr (take n s))).
Proof.
  revert s h. induction n as [|n IH]; intros s h Hb Hr;
    apply readable_cons in Hr as (c & t & -> & Hr); apply Forall_cons in Hb as [Hc Hb];
    cbn [hash_low_loop head tail mbind option_bind take firstn cstr].
  - by destruct (c =? 0).
  - destruct (Z.eqb_spec c 0) as [-> | Hne]; [done |]. rewrite IH by (done || tauto).
    by rewrite ctolower_fold_case.
Qed.

Lemma foldl_hash_fold s h : bytes s -> foldl hash_step h (fold_case <$> s) = foldl hash_step h s.
Proof.
  revert h. induction s as [|c s IH]; intros h Hb; [done |]. apply Forall_cons in Hb as [Hc Hb].
  cbn [fmap list_fmap foldl]. rewrite IH by done. f_equal. unfold hash_step. f_equal. f_equal.
  apply Z.eqb_eq. exact (forall_below_Z 256 (fun c => fold_case (fold_case c) =? fold_case c) eq_refl c Hc).
Qed.

Lemma hash_low_spec s n size :
  bytes s -> readable s (S (Z.to_nat n)) -> 0 < size ->
  dfs_hashtable_hash_low s n size = Some (foldl hash_step 0 (cstr (take (Z.to_nat n) s)) mod size).
Proof.
  intros Hb Hr Hs. unfold dfs_hashtable_hash_low. rewrite hash_low_loop_spec by done. cbn [mbind option_bind].
  unfold mod_size. by rewrite (proj2 (Z.eqb_neq size 0)) by lia.
Qed.

Lemma mod_size_range z size : 0 < size -> exists i, mod_size z size = Some i /\ 0 <= i < size.
Proof.
  intros Hs. unfold mod_size. rewrite (proj2 (Z.eqb_neq size 0)) by lia. exists (z mod size).
  split; [done |]. by apply Z.mod_pos_bound.
Qed.

Lemma hash4_loop_total n key x :
  (n <= length key)%nat -> exists r, hash4_loop n key x = Some (r, drop n key).
Proof.
  revert key x. induction n as [|n IH]; intros key x Hl; [by exists x; rewrite drop_0 |].
  destruct key as [|c key]; simpl in Hl; [lia |]. cbn [hash4_loop head tail mbind option_bind drop].
  apply IH. lia.
Qed.

Lemma load64_total n s : (n <= length s)%nat -> exists r, load64 n s = Some r.
Proof.
  revert s. induction n as [|n IH]; intros s Hl; [by exists 0 |].
  destruct s as [|c s]; simpl in Hl; [lia |]. cbn [load64 head tail mbind option_bind].
  destruct (IH s) as [r ->]; [lia |]. by exists (c + 256 * r).
Qed.

Lemma load64_cons n c t : load64 (S n) (c :: t) = (r ← load64 n t; Some (c + 256 * r)).
Proof. reflexivity. Qed.

Lemma key8_loop_total todo bnum s n : (8 * todo <= length s)%nat -> exists r, key8_loop todo bnum s n = Some r.
Proof.
  revert s n. induction todo as [|todo IH]; intros s n Hl; [by exists n |]. cbn [key8_loop].
  destruct (load64_total 8 s) as [one ->]; [lia |]. cbn [mbind option_bind].
  apply IH. rewrite length_drop. lia.
Qed.

(** ** Names as keys *)

(** NUL-terminated names whose length counts the NUL, compared by [string_xxstrncasecmp]. *)
Definition name_cmp (k k' : list Z) (n : Z) : option Z := string_xxstrncasecmp k k' (Z.to_nat n).

Definition name_key (k : list Z) (n : Z) : Prop :=
  bytes k /\ 0 ∈ k /\ n = Z.of_nat (length (cstr k)) + 1.

#[export] Instance name_key_dec k n : Decision (name_key k n).
Proof. unfold name_key, bytes. apply _. Defined.

Lemma cstr_bytes k : bytes k -> bytes (cstr k).
Proof.
  intros H. induction H as [|c k Hc Hk IH]; [constructor |]. simpl. destruct (c =? 0); [constructor |].
  by constructor.
Qed.

Lemma name_hash k n size :
  name_key k n -> 0 < size -> dfs_hashtable_hash_low k n size = Some (foldl hash_step 0 (cstr k) mod size).
Proof.
  intros (Hb & H0 & ->) Hs. rewrite hash_low_spec by (done || by right).
  rewrite <- take_cstr, take_ge by lia. done.
Qed.

#[export] Instance names_ok : KeyOps dfs_hashtable_hash_low name_cmp name_key.
Proof.
  constructor.
  - intros k n size Hk Hs. rewrite name_hash by done. eexists. split; [done |]. by apply Z.mod_pos_bound.
  - intros k n k' n' (Hb & H0 & _) (Hb' & H0' & _).
    destruct (strncasecmp_spec (Z.to_nat n) k k') as (r & Hr & _); [done | done | by right | by right |]. by exists r.
  - intros k n k' n' size Hk Hk' Hc. pose proof Hk as (Hb & H0 & Hn). pose proof Hk' as (Hb' & H0' & Hn').
    destruct (strncasecmp_spec (Z.to_nat n) k k') as (r & Hr & Hcmp); [done | done | by right | by right |].
    unfold name_cmp in Hc. assert (r = 0) as -> by congruence. symmetry in Hcmp. apply byte_compare_eq in Hcmp.
    rewrite <- !take_cstr, take_ge in Hcmp by lia.
    assert (length (cstr k') <= length (cstr k))%nat as Hle.
    { apply (f_equal length) in Hcmp. rewrite !length_fmap, length_take in Hcmp. lia. }
    rewrite take_ge in Hcmp by lia.
    destruct (Z_lt_le_dec 0 size) as [Hs | Hs].
    + rewrite !name_hash by done.
      by rewrite <- (foldl_hash_fold (cstr k)), Hcmp, foldl_hash_fold by by apply cstr_bytes.
    + unfold dfs_hashtable_hash_low. rewrite !hash_low_loop_spec by (done || by right). cbn [mbind option_bind].
      rewrite <- !take_cstr, !take_ge by lia.
      by rewrite <- (foldl_hash_fold (cstr k)), Hcmp, foldl_hash_fold by by apply cstr_bytes.
Qed.

(** ** Claims *)

(** C32. Refinement of the hash table to a dictionary, for every pair of hash and comparison
    functions with the contract [KeyOps]: a table made by [dfs_hashtable_init], run through
    any history of joins of unlinked objects, removals of linked or unlinked objects, lookups
    and emptiness tests, gives exactly the answers of the abstract dictionary - a lookup
    finds the last joined matching object and [NULL] when none matches, a removal reports
    whether the object was linked and drops only it - and ends in a table that again
    represents the dictionary. Chains are walked within [fuel] steps when [fuel] exceeds the
    number of operations. *)
Theorem hashtable_ops_refine hash cmp good `{HK : KeyOps hash cmp good} keys m ht pfuel hash_sz fuel os rs d :
  keyed (good := good) keys m ->
  dfs_hashtable_init pfuel hash_sz true = Some (Some ht) -> 0 < size ht < 2 ^ 31 ->
  dict_ops (cmp := cmp) (good := good) keys os [] rs d ->
  (length os < fuel)%nat -> Z.of_nat fuel < 2 ^ 31 ->
  exists m' ht', run_ops (hash := hash) (cmp := cmp) fuel os (m, ht) = Some (rs, (m', ht')) /\
    repr (hash := hash) (good := good) keys m' ht' d.
Proof.
  intros Hm Hi Hs Hd Hf Hb.
  destruct (table_ops_refines (hash := hash) keys fuel os m ht [] rs d) as (m' & ht' & Hr & Hr' & _);
    [by eapply init_refines | done | simpl; lia | done |].
  by exists m', ht'.
Qed.

(** [dfs_hashtable_free_items] hands every object of the table to the free function
    exactly once, reading each [next] before its object is freed, and counts them all off;
    but it resets no bucket: every bucket that was not empty still points to a freed object. *)
Theorem hashtable_free_items hash cmp good `{HK : KeyOps hash cmp good} keys m ht d fuel :
  repr (hash := hash) (good := good) keys m ht d -> (length d < fuel)%nat ->
  exists ws, dfs_hashtable_free_items fuel m ht =
      Some (ws, {| buckets := buckets ht; size := size ht; count := 0 |}) /\
    ws ≡ₚ d /\
    (forall i b, bucket ht i = Some b -> b <> nullptr -> (foldr delete m ws) !! b = None).
Proof. apply free_items_refines. Qed.

(** The hash functions return a bucket of every non-empty table, when the bytes they read
    are there: [data_size] rounded up to whole words for [dfs_hashtable_hash_key8], one byte
    past [data_size] or a NUL for [dfs_hashtable_hash_low], which is the base-31 polynomial of
    the case-folded name. A [dfs_hashtable_hash_key8] of a one-byte key ignores the key. *)
Theorem hash_functions_range s n size :
  bytes s -> is_u64 n -> 0 < size ->
  (Z.of_nat (length s) >= n -> exists i, dfs_hashtable_hash_hash4 s n size = Some i /\ 0 <= i < size) /\
  (Z.of_nat (length s) >= n + 7 -> exists i, dfs_hashtable_hash_key8 s n size = Some i /\ 0 <= i < size) /\
  (readable s (S (Z.to_nat n)) ->
   dfs_hashtable_hash_low s n size = Some (foldl hash_step 0 (fold_case <$> cstr (take (Z.to_nat n) s)) mod size)) /\
  (forall c c' t, is_u8 c -> is_u8 c' -> dfs_hashtable_hash_key8 (c :: t) 1 size = dfs_hashtable_hash_key8 (c' :: t) 1 size).
Proof.
  intros Hb Hn Hs. unfold is_u64 in Hn. split; [|split; [|split]].
  - intros Hl. unfold dfs_hashtable_hash_hash4. rewrite (land_mask 3 (8 - 1)), Z.shiftr_div_pow2 by done.
    destruct (hash4_loop_total (if n mod 2 ^ 3 =? 0 then 0 else 1) s 0) as [r Hr].
    { case_match; [lia |]. assert (n <> 0) by (intros ->; done). lia. }
    rewrite Hr. cbn [mbind option_bind].
    destruct (hash4_loop_total (8 * Z.to_nat (n / 2 ^ 3)) (drop (if n mod 2 ^ 3 =? 0 then 0 else 1) s) r) as [r' Hr'].
    { rewrite length_drop. destruct (Z.eqb_spec (n mod 2 ^ 3) 0); div_mod_lia. }
    rewrite Hr'. by apply mod_size_range.
  - intros Hl. unfold dfs_hashtable_hash_key8. rewrite Z.shiftr_div_pow2 by done. change (2 ^ 3) with 8.
    destruct (key8_loop_total (Z.to_nat (if n mod 8 =? 0 then n / 8 else u64 (n / 8 + 1))) (n mod 8) s 0) as [r Hr].
    { destruct (Z.eqb_spec (n mod 8) 0); [div_mod_lia |]. rewrite u64_small by (unfold is_u64; div_mod_lia). div_mod_lia. }
    rewrite Hr. by apply mod_size_range.
  - intros Hr. rewrite hash_low_spec, foldl_hash_fold; [done | | done..].
    apply cstr_bytes. by apply Forall_take.
  - intros c c' t Hc Hc'. unfold dfs_hashtable_hash_key8.
    change (Z.to_nat (if 1 mod 8 =? 0 then Z.shiftr 1 3 else u64 (Z.shiftr 1 3 + 1))) with 1%nat. change (1 mod 8) with 1.
    cbn [key8_loop]. rewrite !load64_cons.
    destruct (load64 7 t) as [r|]; [|done]. cbn [mbind option_bind].
    rewrite (bool_decide_true (0%nat = 0%nat)) by done. cbn [negb andb Z.eqb].
    rewrite !Z.shiftr_div_pow2 by lia. unfold is_u8 in *. change (2 ^ (1 * 8)) with 256.
    assert (forall c, 0 <= c < 2 ^ 8 -> (c + 256 * r) / 256 = r) as E by (intros; div_mod_lia).
    by rewrite !E.
Qed.

(** ** Concrete tables *)

(** Two names, two links. *)
Definition ex_keys : gmap ptr (list Z * Z) := {[ 1%N := ([65; 98; 0], 3); 2%N := ([97; 66; 0], 3) ]}.
Definition ex_heap : links :=
  {[ 1%N := {| key := Some [65; 98; 0]; len := 3; next := 0%N |};
     2%N := {| key := Some [97; 66; 0]; len := 3; next := 0%N |} ]}.
Definition ex_table : hashtable := {| buckets := replicate 2 nullptr; size := 2; count := 0 |}.

Lemma ex_keyed : keyed (good := name_key) ex_keys ex_heap.
Proof.
  unfold ex_keys. intros x k n [[<- [= <- <-]] | [_ [<- [= <- <-]]%lookup_singleton_Some]]%lookup_insert_Some;
    (split; [done |]; split; [by apply (bool_decide_unpack _); vm_compute | eexists; reflexivity]).
Qed.

Lemma hashtable_ops_refine_witness :
  exists m' ht', run_ops (hash := dfs_hashtable_hash_low) (cmp := name_cmp) 9
      [Join 1; Join 2; Lookup [97; 98; 0]%Z 3%Z; RemoveLink 2; RemoveLink 2; Lookup [97; 98; 0]%Z 3%Z; Empty]%N (ex_heap, ex_table) =
    Some ([Returned true; Returned true; Found 2; Returned true; Returned false; Found 1; IsEmpty false]%N, (m', ht')) /\
    repr (hash := dfs_hashtable_hash_low) (good := name_key) ex_keys m' ht' [1%N].
Proof.
  apply (hashtable_ops_refine dfs_hashtable_hash_low name_cmp name_key ex_keys ex_heap ex_table 1 2);
    [exact ex_keyed | vm_compute; reflexivity | split; reflexivity | | simpl; lia | lia].
  assert (forall k, k = [97; 98; 0] -> name_key k 3) as Hk by (intros k ->; by apply (bool_decide_unpack _); vm_compute).
  eapply DictCons; [apply DictJoin; [eexists; reflexivity | apply not_elem_of_nil] |].
  eapply DictCons; [apply DictJoin; [eexists; reflexivity | by apply (bool_decide_unpack _)] |].
  eapply DictCons; [exact (DictLookup _ [97; 98; 0] 3 [2; 1]%N (Hk _ eq_refl)) |].
  eapply DictCons; [exact (DictRemove ex_keys 2%N [2; 1]%N ltac:(eexists; reflexivity)) |].
  eapply DictCons; [exact (DictRemove ex_keys 2%N [1]%N ltac:(eexists; reflexivity)) |].
  eapply DictCons; [exact (DictLookup _ [97; 98; 0] 3 [1]%N (Hk _ eq_refl)) |].
  eapply DictCons; [exact (DictEmpty _ [1]%N) |]. apply DictNil.
Defined.

(** Both links joined: they collide in bucket 0. *)
Definition ex_heap2 : links :=
  {[ 1%N := {| key := Some [65; 98; 0]; len := 3; next := 0%N |};
     2%N := {| key := Some [97; 66; 0]; len := 3; next := 1%N |} ]}.
Definition ex_table2 : hashtable := {| buckets := [0; 2]%N; size := 2; count := 2 |}.

Lemma ex_repr2 : repr (hash := dfs_hashtable_hash_low) (good := name_key) ex_keys ex_heap2 ex_table2 [2; 1]%N.
Proof.
  destruct (table_ops_refines (hash := dfs_hashtable_hash_low) (cmp := name_cmp) ex_keys 9 [Join 1; Join 2]%N
    ex_heap ex_table [] [Returned true; Returned true] [2; 1]%N) as (m & ht & Hr & Hrep & _).
  - apply (init_refines (hash := dfs_hashtable_hash_low) (good := name_key) ex_keys ex_heap 1 2 ex_table);
      [exact ex_keyed | vm_compute; reflexivity | split; reflexivity].
  - eapply DictCons; [apply DictJoin; [eexists; reflexivity | apply not_elem_of_nil] |].
    eapply DictCons; [apply DictJoin; [eexists; reflexivity | by apply (bool_decide_unpack _)] |]. apply DictNil.
  - simpl. lia.
  - lia.
  - assert ((m, ht) = (ex_heap2, ex_table2)) as [= -> ->]; [|done].
    apply (f_equal (fun o => from_option snd (m, ht) o)) in Hr. cbn [from_option snd] in Hr. rewrite <- Hr. 
    vm_compute. reflexivity.
Qed.

Lemma hashtable_free_items_witness :
  exists ws, dfs_hashtable_free_items 3 ex_heap2 ex_table2 = Some (ws, {| buckets := [0; 2]%N; size := 2; count := 0 |}) /\
    ws ≡ₚ [2; 1]%N /\
    (forall i b, bucket ex_table2 i = Some b -> b <> nullptr -> (foldr delete ex_heap2 ws) !! b = None).
Proof.
  apply (hashtable_free_items dfs_hashtable_hash_low name_cmp name_key ex_keys ex_heap2 ex_table2 [2; 1]%N 3);
    [exact ex_repr2 | simpl; lia].
Defined.

Lemma hash_functions_range_witness :
  dfs_hashtable_hash_low [65; 98; 0] 2 7 = Some (foldl hash_step 0 (fold_case <$> cstr (take 2 [65; 98; 0])) mod 7).
Proof.
  apply (hash_functions_range [65; 98; 0] 2 7).
  - by apply (bool_decide_unpack (Forall is_u8 _)); vm_compute.
  - by apply (bool_decide_unpack _); vm_compute.
  - lia.
  - left. simpl. lia.
Defined.

(** Lengths that leave the NUL out are not [name_key]s: the comparison stops at the length of
    the key looked up, so in one bucket a name finds any name it is a prefix of. *)
Lemma lookup_finds_prefix :
  (let m : links := {[ 1%N := {| key := Some [97; 98; 100; 0]; len := 3; next := 0%N |} ]} in
   '(m, ht) ← dfs_hashtable_join dfs_hashtable_hash_low 1%N m ex_table;
   dfs_hashtable_lookup dfs_hashtable_hash_low name_cmp 9 (Some [97; 98; 0]) 2 m ht) = Some 1%N.
Proof. vm_compute. reflexivity. Qed.
