(* ===== verification/HlMempool.v ===== *)
(** * The half-life memory pool ([src/core/dfs_half_life_mempool.cpp])

    The pool keeps between [min_size] and [max_size] free nodes in a queue of [Queue] and
    falls back to [malloc] and [free]. The heap is the map of link cells: an address is
    allocated when it has cells, so a leak, a double free and a use after free are visible.
    [malloc] is a parameter (an oracle numbered by call, [nullptr] on failure) with the one
    law that a block it returns was not allocated.

    The pool and the sentinel of its queue share an address, as do a node and its links. *)

From S2P Require Import Prelude Queue.

(** Successive calls may answer differently on the same heap. *)
Class Malloc (malloc : nat -> links -> ptr) : Prop :=
  malloc_fresh k m : malloc k m <> nullptr -> ~ allocated m (malloc k m).

(* src/src/core/dfs_half_life_mempool.cpp:6-13 (hl_mempool_s) *)
Record hl_mempool := {
  max_size : Z; min_size : Z; element_size : Z; free_size : Z; free_q : ptr
}.

Definition with_free_size (pool : hl_mempool) (n : Z) : hl_mempool :=
  {| max_size := max_size pool; min_size := min_size pool; element_size := element_size pool;
     free_size := n; free_q := free_q pool |}.

(** The heap and the number of [malloc] calls so far. *)
Record state := { heap : links; calls : nat }.

Section Pool.
Context (malloc : nat -> links -> ptr).

(** [malloc] and [memset]: a block of cells. *)
Definition do_malloc (s : state) : ptr * state :=
  let p := malloc (calls s) (heap s) in
  (p, {| heap := if bool_decide (p = nullptr) then heap s else upd_prev p nullptr (upd_next p nullptr (heap s));
         calls := S (calls s) |}).

(** [free] of an address that is not allocated is undefined. *)
Definition do_free (p : ptr) (s : state) : option state :=
  _ ← l_next (heap s) !! p; _ ← l_prev (heap s) !! p;
  Some {| heap := {| l_next := delete p (l_next (heap s)); l_prev := delete p (l_prev (heap s)) |}; calls := calls s |}.

Definition set_heap (s : state) (m : links) : state := {| heap := m; calls := calls s |}.

(* src/src/core/dfs_half_life_mempool.cpp:126-144 (do_clean) *)
Fixpoint do_clean (fuel : nat) (pool : hl_mempool) (s : state) : option (hl_mempool * state) :=
  match fuel with
  | O => None
  | S fuel =>
      e ← queue_empty (free_q pool) (heap s);
      if (e : bool) then Some (pool, s)
      else
        que ← queue_head (free_q pool) (heap s);
        m ← queue_remove que (heap s);
        s ← do_free que (set_heap s m);
        do_clean fuel (with_free_size pool (s32 (free_size pool - 1))) s
  end.

(** The loop that fills a new pool, at the head. *)
Fixpoint create_loop (fuel : nat) (t : hl_mempool) (s : state) : option (bool * hl_mempool * state) :=
  match fuel with
  | O => None
  | S fuel =>
      if free_size t <? max_size t then
        let '(node, s) := do_malloc s in
        if bool_decide (node = nullptr) then Some (false, t, s)
        else
          m ← queue_insert_head (free_q t) node (heap s);
          create_loop fuel (with_free_size t (s32 (free_size t + 1))) (set_heap s m)
      else Some (true, t, s)
  end.

(** [None] inside is the null pointer. *)
(* src/src/core/dfs_half_life_mempool.cpp:25-70 (hl_mempool_create) *)
Definition hl_mempool_create (fuel : nat) (max_reserv_size min_reserv_size elememt_size : Z) (s : state)
    : option (option hl_mempool * state) :=
  if (max_reserv_size <=? 0) || (max_reserv_size <? min_reserv_size) || (elememt_size <? 0) then Some (None, s)
  else
    let '(t, s) := do_malloc s in
    if bool_decide (t = nullptr) then Some (None, s)
    else
      m ← queue_init t (heap s);
      let pool := {| max_size := max_reserv_size; min_size := min_reserv_size; element_size := elememt_size;
                     free_size := 0; free_q := t |} in
      '(ok, pool, s) ← create_loop fuel pool (set_heap s m);
      if (ok : bool) then Some (Some pool, s)
      else
        '(_, s) ← do_clean fuel pool s;
        s ← do_free t s;
        Some (None, s).

Fixpoint expand_loop (fuel : nat) (pool : hl_mempool) (s : state) : option (bool * hl_mempool * state) :=
  match fuel with
  | O => None
  | S fuel =>
      if free_size pool <? max_size pool then
        let '(node, s) := do_malloc s in
        if bool_decide (node = nullptr) then Some (false, pool, s)
        else
          m ← queue_insert_tail (free_q pool) node (heap s);
          expand_loop fuel (with_free_size pool (s32 (free_size pool + 1))) (set_heap s m)
      else Some (true, pool, s)
  end.

(** [false] is the return value [-1]. *)
(* src/src/core/dfs_half_life_mempool.cpp:146-172 (do_expand) *)
Definition do_expand (fuel : nat) (pool : hl_mempool) (s : state) : option (bool * hl_mempool * state) :=
  if min_size pool <? free_size pool then Some (true, pool, s) else expand_loop fuel pool s.

(** The loop makes the early return redundant, as in the source. *)
Fixpoint shrink_loop (fuel : nat) (pool : hl_mempool) (s : state) : option (hl_mempool * state) :=
  match fuel with
  | O => None
  | S fuel =>
      if max_size pool <? free_size pool then
        que ← queue_head (free_q pool) (heap s);
        m ← queue_remove que (heap s);
        s ← do_free que (set_heap s m);
        shrink_loop fuel (with_free_size pool (s32 (free_size pool - 1))) s
      else Some (pool, s)
  end.

(* src/src/core/dfs_half_life_mempool.cpp:174-192 (do_shrink) *)
Definition do_shrink (fuel : nat) (pool : hl_mempool) (s : state) : option (hl_mempool * state) :=
  if free_size pool <=? max_size pool then Some (pool, s) else shrink_loop fuel pool s.

(* src/src/core/dfs_half_life_mempool.cpp:72-96 (hl_mempool_get) *)
Definition hl_mempool_get (fuel : nat) (pool : hl_mempool) (s : state) : option (ptr * hl_mempool * state) :=
  '(ret, pool, s) ← do_expand fuel pool s;
  if negb ret && (free_size pool <=? 0) then Some (nullptr, pool, s)
  else
    queue ← queue_head (free_q pool) (heap s);
    if bool_decide (queue = nullptr) then Some (nullptr, pool, s)
    else
      m ← queue_remove queue (heap s);
      Some (queue, with_free_size pool (s32 (free_size pool - 1)), set_heap s m).

(* src/src/core/dfs_half_life_mempool.cpp:98-108 (hl_mempool_free) *)
Definition hl_mempool_free (fuel : nat) (pool : hl_mempool) (node : ptr) (s : state) : option (hl_mempool * state) :=
  m ← queue_insert_tail (free_q pool) node (heap s);
  do_shrink fuel (with_free_size pool (s32 (free_size pool + 1))) (set_heap s m).

(* src/src/core/dfs_half_life_mempool.cpp:110-113 (hl_mempool_get_free_size) *)
Definition hl_mempool_get_free_size (pool : hl_mempool) : Z := free_size pool.

(* src/src/core/dfs_half_life_mempool.cpp:115-124 (hl_mempool_destroy) *)
Definition hl_mempool_destroy (fuel : nat) (pool : hl_mempool) (s : state) : option state :=
  '(_, s) ← do_clean fuel pool s;
  do_free (free_q pool) s.
End Pool.

(** ** Ownership

    [B] are the addresses allocated before the pool; [owns B m L]: the rest of the heap is
    exactly [L]. *)
Section Proofs.
Context (malloc : nat -> links -> ptr) `{HM : Malloc malloc} (B : ptr -> Prop).

Definition owns (m : links) (L : list ptr) : Prop :=
  (forall x, allocated m x <-> B x \/ x ∈ L) /\ NoDup L /\ (forall x, x ∈ L -> ~ B x /\ x <> nullptr).

#[global] Instance owns_perm m : Proper ((≡ₚ) ==> iff) (owns m).
Proof. intros L L' HL. unfold owns. by setoid_rewrite HL. Qed.

(** The queue of free nodes [free], and the other blocks [rest] owned. *)
Definition holds (q : ptr) (m : links) (free rest : list ptr) : Prop :=
  is_queue m q free /\ owns m (q :: free ++ rest).

#[global] Instance holds_perm q m free : Proper ((≡ₚ) ==> iff) (holds q m free).
Proof. intros L L' HL. unfold holds. by rewrite HL. Qed.

Lemma owns_same_off S m m' L :
  owns m L -> same_off S m m' -> (forall x, x ∈ S -> x ∈ L) -> (forall x, x ∈ S -> allocated m' x) -> owns m' L.
Proof.
  intros (Ha & Hnd & Hb) Hoff HS Hal. split; [|done]. intros x. destruct (decide (x ∈ S)) as [Hx | Hx].
  - split; [|by auto]. intros _. right. auto.
  - unfold allocated. destruct (Hoff x Hx) as [-> ->]. apply Ha.
Qed.

Lemma do_malloc_owns s p s' L :
  do_malloc malloc s = (p, s') -> owns (heap s) L ->
  if bool_decide (p = nullptr) then heap s' = heap s
  else owns (heap s') (p :: L) /\ same_off [p] (heap s) (heap s').
Proof.
  unfold do_malloc. intros [= <- <-] (Ha & Hnd & Hb). cbn [heap]. case_bool_decide as Hp; [done |].
  pose proof (malloc_fresh (calls s) (heap s) Hp) as Hf. set (p := malloc (calls s) (heap s)) in *.
  assert (~ B p /\ p ∉ L) as [HnB HnL] by (rewrite Ha in Hf; tauto). split; [split; [|split; [by constructor |]] |].
  - intros x. unfold allocated. cbn [l_next l_prev upd_next upd_prev]. rewrite elem_of_cons.
    destruct (decide (p = x)) as [-> | Hne].
    + rewrite !lookup_insert_eq. split; [tauto | intros _; by split].
    + rewrite !lookup_insert_ne by done. specialize (Ha x). unfold allocated in Ha. rewrite Ha. naive_solver.
  - intros x [-> | Hx]%elem_of_cons; [done | auto].
  - intros a Hna. apply not_elem_of_cons in Hna as [Hna _]. cbn [l_next l_prev upd_next upd_prev].
    by rewrite !lookup_insert_ne by done.
Qed.

Lemma do_malloc_holds q s free rest p s' :
  do_malloc malloc s = (p, s') -> holds q (heap s) free rest ->
  if bool_decide (p = nullptr) then heap s' = heap s else holds q (heap s') free (p :: rest).
Proof.
  intros Hma [Hq Ho]. pose proof (do_malloc_owns _ _ _ _ Hma Ho) as Hm. case_bool_decide; [done |].
  destruct Hm as [Ho' Hoff]. split; [|by rewrite <- Permutation_middle, Permutation_swap].
  eapply is_queue_frame; [exact Hoff | | done]. intros a Hin ->%list_elem_of_singleton.
  destruct Ho' as (_ & [Hn _]%NoDup_cons & _). apply Hn. rewrite app_comm_cons, elem_of_app. by left.
Qed.

Lemma holds_insert q m free free' n m' rest :
  holds q m free (n :: rest) -> is_queue m' q free' -> free' ≡ₚ n :: free -> same_off (n :: q :: free) m m' ->
  holds q m' free' rest.
Proof.
  intros [Hq Ho] Hq' Hp Hoff. split; [done |]. rewrite Hp. rewrite <- Permutation_middle in Ho.
  eapply owns_same_off; [exact Ho | exact Hoff | set_solver |].
  intros x Hx. eapply is_queue_allocated; [exact Hq' |]. rewrite Hp. set_solver.
Qed.

Lemma holds_free_node q m free n rest :
  holds q m free (n :: rest) -> (n ∉ q :: free) /\ allocated m n /\ n <> nullptr.
Proof.
  intros [_ (Ha & Hnd & Hb)]. rewrite <- Permutation_middle in Hnd. split; [|split].
  - intros Hin. assert (q :: n :: free ++ rest ≡ₚ n :: (q :: free) ++ rest) as E by solve_Permutation.
    rewrite E in Hnd. apply NoDup_cons in Hnd as [Hn _]. apply Hn, elem_of_app. by left.
  - apply Ha. right. set_solver.
  - apply Hb. set_solver.
Qed.

Lemma insert_tail_holds q m free n rest :
  holds q m free (n :: rest) -> exists m', queue_insert_tail q n m = Some m' /\ holds q m' (free ++ [n]) rest.
Proof.
  intros Hh. destruct (holds_free_node _ _ _ _ _ Hh) as (Hn & Ha & _). pose proof Hh as [Hq _].
  destruct (insert_tail_spec m q free n Hq Hn Ha) as (m' & Hm & Hq' & Hoff). exists m'. split; [done |].
  eapply holds_insert; [done.. | | done]. symmetry. apply Permutation_cons_append.
Qed.

Lemma insert_head_holds q m free n rest :
  holds q m free (n :: rest) -> exists m', queue_insert_head q n m = Some m' /\ holds q m' (n :: free) rest.
Proof.
  intros Hh. destruct (holds_free_node _ _ _ _ _ Hh) as (Hn & Ha & _). pose proof Hh as [Hq _].
  destruct (insert_head_spec m q free n Hq Hn Ha) as (m' & Hm & Hq' & Hoff). exists m'. split; [done |].
  by eapply holds_insert.
Qed.

Lemma remove_head_holds q m x free rest :
  holds q m (x :: free) rest ->
  queue_head q m = Some x /\ x <> nullptr /\
  exists m', queue_remove x m = Some m' /\ holds q m' free (x :: rest).
Proof.
  intros [Hq Ho]. split; [exact (is_queue_head _ _ _ Hq) |].
  pose proof Ho as (_ & _ & Hb). split; [apply Hb; set_solver |].
  destruct (remove_spec m q [] x free Hq) as (m' & Hm & Hq' & Hoff & Hn & Hp). exists m'. split; [done |].
  split; [done |]. assert (q :: free ++ x :: rest ≡ₚ q :: (x :: free) ++ rest) as -> by solve_Permutation.
  eapply owns_same_off; [exact Ho | exact Hoff | set_solver |]. simpl.
  intros y [-> | [-> | Hy]%elem_of_cons]%elem_of_cons.
  - eapply is_queue_allocated; [exact Hq' | by left].
  - split; by eexists.
  - eapply is_queue_allocated; [exact Hq' | by right].
Qed.

Lemma do_free_owns s x L :
  owns (heap s) (x :: L) ->
  exists s', do_free x s = Some s' /\ owns (heap s') L /\ same_off [x] (heap s) (heap s').
Proof.
  intros (Ha & [Hx Hnd]%NoDup_cons & Hb). assert (allocated (heap s) x) as [[vn Hn] [vp Hp]] by (apply Ha; right; by left).
  unfold do_free. rewrite Hn, Hp. cbn [mbind option_bind]. eexists. split; [done |]. cbn [heap].
  split; [split; [|split; [done |]] |].
  - intros y. unfold allocated. cbn [l_next l_prev]. destruct (decide (x = y)) as [<- | Hne].
    + rewrite !lookup_delete_eq. split; [by intros [[? ?] _] |]. intros [HB | ?]; [|done].
      exfalso. destruct (Hb x) as [? _]; [by left | done].
    + rewrite !lookup_delete_ne by done. specialize (Ha y). unfold allocated in Ha. rewrite Ha, elem_of_cons. naive_solver.
  - intros y Hy. apply Hb. by right.
  - intros y Hy. apply not_elem_of_cons in Hy as [Hy _]. cbn [l_next l_prev]. by rewrite !lookup_delete_ne by done.
Qed.

Lemma do_free_holds q s free x rest :
  holds q (heap s) free (x :: rest) ->
  exists s', do_free x s = Some s' /\ holds q (heap s') free rest.
Proof.
  intros Hh. destruct (holds_free_node _ _ _ _ _ Hh) as (Hn & _ & _). destruct Hh as [Hq Ho].
  assert (q :: free ++ x :: rest ≡ₚ x :: q :: free ++ rest) as E by solve_Permutation. rewrite E in Ho.
  destruct (do_free_owns s x _ Ho) as (s' & Hs & Ho' & Hoff). exists s'. split; [done |]. split; [|done].
  eapply is_queue_frame; [exact Hoff | | done]. by intros a Ha ->%list_elem_of_singleton.
Qed.

(** ** The pool *)

Definition pool_inv (pool : hl_mempool) (s : state) (free out : list ptr) : Prop :=
  holds (free_q pool) (heap s) free out /\ free_size pool = Z.of_nat (length free) /\
  free_size pool <= max_size pool.

(** The arguments [hl_mempool_create] should be given; it also accepts a negative minimum. *)
Definition sizes_ok (pool : hl_mempool) : Prop :=
  0 <= min_size pool <= max_size pool /\ 0 < max_size pool < 2 ^ 31 - 1.

Definition same_params (pool pool' : hl_mempool) : Prop := exists n, pool' = with_free_size pool n.

Definition malloc_failed : Prop := exists k m, malloc k m = nullptr.

Lemma same_params_refl pool : same_params pool pool.
Proof. exists (free_size pool). by destruct pool. Qed.
Lemma same_params_step pool pool' n : same_params (with_free_size pool n) pool' -> same_params pool pool'.
Proof. intros [k ->]. by exists k. Qed.
#[local] Hint Resolve same_params_refl same_params_step : core.

Lemma do_malloc_failed s p s' : do_malloc malloc s = (p, s') -> p = nullptr -> malloc_failed.
Proof. intros [= <- _] H. by exists (calls s), (heap s). Qed.

Lemma s32_count n : (Z.of_nat n < 2 ^ 31 - 1) -> s32 (Z.of_nat n + 1) = Z.of_nat (S n).
Proof. intros. rewrite s32_small; [lia | unfold is_s32; lia]. Qed.
Lemma s32_uncount n : (Z.of_nat n < 2 ^ 31 - 1) -> s32 (Z.of_nat (S n) - 1) = Z.of_nat n.
Proof. intros. rewrite s32_small; [lia | unfold is_s32; lia]. Qed.

(** Both filling loops reach [max_size] or stop at the first failing [malloc]. *)
Lemma fill_spec (loop : nat -> hl_mempool -> state -> option (bool * hl_mempool * state))
    (insert : ptr -> ptr -> links -> option links) (place : list ptr -> ptr -> list ptr) :
  (forall fuel pool s, loop (S fuel) pool s =
    if free_size pool <? max_size pool then
      let '(node, s) := do_malloc malloc s in
      if bool_decide (node = nullptr) then Some (false, pool, s)
      else
        m ← insert (free_q pool) node (heap s);
        loop fuel (with_free_size pool (s32 (free_size pool + 1))) (set_heap s m)
    else Some (true, pool, s)) ->
  (forall q m free n rest, holds q m free (n :: rest) ->
    exists m', insert q n m = Some m' /\ holds q m' (place free n) rest) ->
  (forall free n, length (place free n) = S (length free)) ->
  forall fuel pool s free out,
  pool_inv pool s free out -> sizes_ok pool -> (Z.to_nat (max_size pool - free_size pool) < fuel)%nat ->
  exists ok pool' s' free', loop fuel pool s = Some (ok, pool', s') /\ pool_inv pool' s' free' out /\
    same_params pool pool' /\
    (if ok then free_size pool' = max_size pool else malloc_failed) /\ free_size pool <= free_size pool'.
Proof.
  intros Hloop Hins Hlen. induction fuel as [|fuel IH]; intros pool s free out (Hh & Hf & Hm) Hok Hfu; [lia |].
  rewrite Hloop. destruct (Z.ltb_spec (free_size pool) (max_size pool)) as [Hlt | Hge].
  2: { exists true, pool, s, free. split; [done |]. split; [done |]. split; [auto |]. lia. }
  destruct (do_malloc malloc s) as [node s1] eqn:Hma. pose proof (do_malloc_holds _ _ _ _ _ _ Hma Hh) as Hh1.
  case_bool_decide as Hn.
  - exists false, pool, s1, free. split; [done |]. split; [unfold pool_inv; by rewrite Hh1 |]. split; [auto |].
    split; [by eapply do_malloc_failed | lia].
  - destruct (Hins _ _ _ _ _ Hh1) as (m' & -> & Hh2). cbn [mbind option_bind].
    destruct Hok as [Hmin Hmax]. rewrite Hf, s32_count by lia.
    destruct (IH (with_free_size pool (Z.of_nat (S (length free)))) (set_heap s1 m') (place free node) out)
      as (ok & pool' & s' & free' & Hl & Hi & Hp & Hr & Hle).
    + unfold pool_inv. cbn [free_q free_size max_size with_free_size heap set_heap]. rewrite Hlen.
      split; [done |]. split; [done |]. lia.
    + done.
    + cbn [max_size free_size with_free_size]. lia.
    + exists ok, pool', s', free'. cbn [free_size max_size with_free_size] in Hr, Hle.
      split; [done |]. split; [done |]. split; [eauto |]. split; [done | lia].
Qed.

Lemma expand_loop_spec fuel pool s free out :
  pool_inv pool s free out -> sizes_ok pool -> (Z.to_nat (max_size pool - free_size pool) < fuel)%nat ->
  exists ok pool' s' free', expand_loop malloc fuel pool s = Some (ok, pool', s') /\ pool_inv pool' s' free' out /\
    same_params pool pool' /\
    (if ok then free_size pool' = max_size pool else malloc_failed) /\ free_size pool <= free_size pool'.
Proof.
  apply (fill_spec (expand_loop malloc) queue_insert_tail (fun free n => free ++ [n])).
  - done.
  - intros. by apply insert_tail_holds.
  - intros. rewrite length_app. simpl. lia.
Qed.

(** The refill of an empty pool stands or falls with the first [malloc]. *)
Lemma expand_empty fuel pool s out ok pool' s' :
  pool_inv pool s [] out -> sizes_ok pool -> (Z.to_nat (max_size pool) < fuel)%nat ->
  expand_loop malloc fuel pool s = Some (ok, pool', s') ->
  free_size pool' = 0 <-> malloc (calls s) (heap s) = nullptr.
Proof.
  intros (Hh & Hf & Hm) Hok Hfu. destruct fuel as [|fuel]; [lia |]. cbn [expand_loop length] in *. destruct Hok as [Hmin Hmax].
  destruct (Z.ltb_spec (free_size pool) (max_size pool)) as [_ | ?]; [| lia].
  destruct (do_malloc malloc s) as [node s1] eqn:Hma. pose proof (do_malloc_holds _ _ _ _ _ _ Hma Hh) as Hh1.
  assert (malloc (calls s) (heap s) = node) as -> by (by injection Hma). case_bool_decide as Hn; [by intros [= _ <- _] |].
  destruct (insert_tail_holds _ _ _ _ _ Hh1) as (m' & -> & Hh2). cbn [mbind option_bind]. intros Hl.
  destruct (expand_loop_spec fuel (with_free_size pool (s32 (free_size pool + 1))) (set_heap s1 m') [node] out) as (ok2 & pool2 & s2 & free2 & Hl2 & _ & _ & _ & Hge).
  - unfold pool_inv. cbn [free_q free_size max_size with_free_size heap set_heap length]. rewrite Hf. split; [done |]. rewrite s32_small by (unfold is_s32; lia). lia.
  - done.
  - cbn [free_size max_size with_free_size]. rewrite Hf, s32_small by (unfold is_s32; lia). lia.
  - rewrite Hl in Hl2. injection Hl2 as _ <- _. cbn [free_size with_free_size] in Hge. rewrite Hf, s32_small in Hge by (unfold is_s32; lia). split; [lia | done].
Qed.

Lemma create_loop_spec fuel pool s free out :
  pool_inv pool s free out -> sizes_ok pool -> (Z.to_nat (max_size pool - free_size pool) < fuel)%nat ->
  exists ok pool' s' free', create_loop malloc fuel pool s = Some (ok, pool', s') /\ pool_inv pool' s' free' out /\
    same_params pool pool' /\
    (if ok then free_size pool' = max_size pool else malloc_failed) /\ free_size pool <= free_size pool'.
Proof.
  apply (fill_spec (create_loop malloc) queue_insert_head (fun free n => n :: free)).
  - done.
  - intros. by apply insert_head_holds.
  - done.
Qed.

Lemma do_clean_spec fuel pool s free out :
  pool_inv pool s free out -> sizes_ok pool -> (length free < fuel)%nat ->
  exists pool' s', do_clean fuel pool s = Some (pool', s') /\ holds (free_q pool) (heap s') [] out.
Proof.
  revert pool s free. induction fuel as [|fuel IH]; intros pool s free (Hh & Hf & Hm) Hok Hfu; [lia |].
  cbn [do_clean]. rewrite (empty_spec _ _ _ (proj1 Hh)). cbn [mbind option_bind].
  destruct free as [|x free]; [exists pool, s; by rewrite bool_decide_true |].
  rewrite bool_decide_false by done. destruct (remove_head_holds _ _ _ _ _ Hh) as (-> & _ & m' & Hr & Hh1).
  cbn [mbind option_bind]. rewrite Hr. cbn [mbind option_bind].
  destruct (do_free_holds (free_q pool) (set_heap s m') free x out Hh1) as (s1 & -> & Hh2). cbn [mbind option_bind].
  destruct Hok as [Hmin Hmax]. simpl in Hf, Hfu. rewrite Hf, s32_uncount by lia.
  destruct (IH (with_free_size pool (Z.of_nat (length free))) s1 free) as (pool' & s' & ? & ?); [|done | lia | by eauto].
  unfold pool_inv. cbn [free_q free_size max_size with_free_size]. split; [done |]. split; [done |]. lia.
Qed.

Lemma get_spec fuel pool s free out :
  pool_inv pool s free out -> sizes_ok pool -> (Z.to_nat (max_size pool) < fuel)%nat ->
  exists p pool' s' free', hl_mempool_get malloc fuel pool s = Some (p, pool', s') /\ same_params pool pool' /\
    (p = nullptr <-> free = [] /\ malloc (calls s) (heap s) = nullptr) /\
    if bool_decide (p = nullptr) then pool_inv pool' s' free' out
    else pool_inv pool' s' free' (p :: out).
Proof.
  intros Hi Hok Hfu. unfold hl_mempool_get, do_expand. pose proof Hok as [Hmin Hmax].
  assert (exists ok pool1 s1 free1,
    (if min_size pool <? free_size pool then Some (true, pool, s) else expand_loop malloc fuel pool s) =
      Some (ok, pool1, s1) /\ pool_inv pool1 s1 free1 out /\ same_params pool pool1 /\
    (ok = true -> 0 < free_size pool1) /\
    (free_size pool1 = 0 <-> free = [] /\ malloc (calls s) (heap s) = nullptr)) as (ok & pool1 & s1 & free1 & -> & Hi1 & Hp1 & Hr1 & Hz).
  { pose proof Hi as (_ & Hf & _). destruct (Z.ltb_spec (min_size pool) (free_size pool)) as [Hlt | Hge].
    - exists true, pool, s, free. split; [done |]. split; [done |]. split; [auto |]. split; [lia |]. split; [lia |]. intros [-> _]. simpl in Hf. lia.
    - destruct (expand_loop_spec fuel pool s free out Hi) as (ok & pool1 & s1 & free1 & Hl & Hi1 & Hp1 & Hr1 & Hle);
        [done | lia |].
      exists ok, pool1, s1, free1. split; [done |]. split; [done |]. split; [done |]. split; [intros ->; lia |].
      destruct free as [|x free]; [| split; [simpl in Hf; lia | by intros [? _]]].
      rewrite (expand_empty _ _ _ _ _ _ _ Hi Hok Hfu Hl). tauto. }
  cbn [mbind option_bind]. destruct Hi1 as (Hh1 & Hf1 & Hm1).
  assert (max_size pool1 = max_size pool) as Emax by (by destruct Hp1 as [? ->]).
  destruct free1 as [|x free1].
  - simpl in Hf1. destruct ok; [specialize (Hr1 eq_refl); lia |]. rewrite (proj2 (Z.leb_le _ _)) by lia. cbn [negb andb].
    exists nullptr, pool1, s1, []. split; [done |]. split; [done |]. split; [by rewrite <- Hz |]. by rewrite bool_decide_true.
  - assert (negb ok && (free_size pool1 <=? 0) = false) as ->.
    { simpl in Hf1. apply andb_false_iff. right. apply Z.leb_gt. lia. }
    destruct (remove_head_holds _ _ _ _ _ Hh1) as (-> & Hx & m' & Hr & Hh2). cbn [mbind option_bind].
    rewrite (bool_decide_false (x = nullptr)) by done. rewrite Hr. cbn [mbind option_bind].
    simpl in Hf1. rewrite Hf1, s32_uncount by lia.
    exists x, (with_free_size pool1 (Z.of_nat (length free1))), (set_heap s1 m'), free1. split; [done |].
    split; [destruct Hp1 as [? ->]; by eexists |]. split; [rewrite <- Hz, Hf1; split; [done | lia] |]. rewrite bool_decide_false by done.
    unfold pool_inv. cbn [free_q free_size max_size with_free_size heap set_heap]. split; [done |]. split; [done |]. lia.
Qed.

Lemma free_spec fuel pool s free out x :
  pool_inv pool s free (x :: out) -> sizes_ok pool -> (1 < fuel)%nat ->
  exists pool' s' free', hl_mempool_free fuel pool x s = Some (pool', s') /\ same_params pool pool' /\
    pool_inv pool' s' free' out.
Proof.
  intros (Hh & Hf & Hm) [Hmin Hmax] Hfu. unfold hl_mempool_free, do_shrink.
  destruct (insert_tail_holds _ _ _ _ _ Hh) as (m' & -> & Hh1). cbn [mbind option_bind].
  rewrite Hf, s32_count by lia. cbn [free_size max_size with_free_size].
  destruct (Z.leb_spec (Z.of_nat (S (length free))) (max_size pool)) as [Hle | Hgt].
  - eexists _, _, (free ++ [x]). split; [done |]. split; [by eexists |]. unfold pool_inv.
    cbn [free_q free_size max_size with_free_size heap set_heap]. rewrite length_app. simpl.
    split; [done |]. split; lia.
  - destruct fuel as [|[|fuel]]; [lia.. |]. cbn [shrink_loop free_size max_size with_free_size free_q heap set_heap].
    rewrite (proj2 (Z.ltb_lt _ _)) by lia.
    destruct (free ++ [x]) as [|y ys] eqn:E; [by destruct free |].
    assert (length ys = length free) as El by (apply (f_equal length) in E; rewrite length_app in E; simpl in E; lia).
    destruct (remove_head_holds _ _ _ _ _ Hh1) as (-> & _ & m2 & Hr & Hh2). cbn [mbind option_bind].
    rewrite Hr. cbn [mbind option_bind].
    destruct (do_free_holds (free_q pool) (set_heap (set_heap s m') m2) ys y out Hh2) as (s2 & -> & Hh3).
    cbn [mbind option_bind free_size max_size with_free_size].
    rewrite s32_uncount, (proj2 (Z.ltb_ge _ _)) by lia.
    eexists _, _, ys. split; [done |]. split; [by eexists |]. unfold pool_inv.
    cbn [free_q free_size max_size with_free_size]. split; [done |]. split; lia.
Qed.

Definition params_ok (mx mn el : Z) : bool := negb ((mx <=? 0) || (mx <? mn) || (el <? 0)).

Lemma create_spec fuel mx mn el s :
  owns (heap s) [] -> 0 <= mn -> mx < 2 ^ 31 - 1 -> (Z.to_nat mx < fuel)%nat ->
  exists r s', hl_mempool_create malloc fuel mx mn el s = Some (r, s') /\
    match r with
    | Some pool => exists free, pool_inv pool s' free [] /\ sizes_ok pool /\
        max_size pool = mx /\ min_size pool = mn /\ free_size pool = mx
    | None => owns (heap s') [] /\ (params_ok mx mn el = false \/ malloc_failed)
    end.
Proof.
  intros Ho Hmn Hmx Hfu. unfold hl_mempool_create, params_ok.
  destruct ((mx <=? 0) || (mx <? mn) || (el <? 0)) eqn:Hpar.
  { exists None, s. split; [done |]. split; [done |]. by left. }
  apply orb_false_iff in Hpar as [[H1%Z.leb_gt H2%Z.ltb_ge]%orb_false_iff _].
  destruct (do_malloc malloc s) as [t s1] eqn:Hma. pose proof (do_malloc_owns _ _ _ _ Hma Ho) as Hm.
  case_bool_decide as Ht.
  { exists None, s1. split; [done |]. rewrite Hm. split; [done |]. right. by eapply do_malloc_failed. }
  destruct Hm as [Ho1 _].
  destruct (init_spec (heap s1) t) as (m2 & -> & Hq & Hoff); [apply Ho1; right; by left |]. cbn [mbind option_bind].
  set (pool := {| max_size := mx |}).
  assert (pool_inv pool (set_heap s1 m2) [] []) as Hi.
  { split; [|done || (split; [done | simpl; lia])]. split; [done |].
    eapply owns_same_off; [exact Ho1 | exact Hoff | done |]. intros x Hx. by eapply is_queue_allocated. }
  assert (sizes_ok pool) as Hok by (unfold sizes_ok; simpl; lia).
  destruct (create_loop_spec fuel pool (set_heap s1 m2) [] [] Hi Hok) as (ok & pool3 & s3 & free & -> & Hi3 & [n ->] & Hr & _);
    [simpl; lia |]. cbn [mbind option_bind]. destruct ok.
  - eexists _, s3. split; [done |]. exists free. repeat (split; [done |]). exact Hr.
  - assert (length free < fuel)%nat as Hlf by (destruct Hi3 as (_ & Hf & Hle); cbn in Hf, Hle; lia).
    destruct (do_clean_spec fuel _ _ _ _ Hi3 Hok Hlf) as (pool4 & s4 & -> & [_ Ho4]). cbn [mbind option_bind].
    destruct (do_free_owns s4 t [] Ho4) as (s5 & -> & Ho5 & _). cbn [mbind option_bind].
    exists None, s5. split; [done |]. split; [done |]. by right.
Qed.

Lemma destroy_spec fuel pool s free out :
  pool_inv pool s free out -> sizes_ok pool -> (length free < fuel)%nat ->
  exists s', hl_mempool_destroy fuel pool s = Some s' /\ owns (heap s') out.
Proof.
  intros Hi Hok Hf. unfold hl_mempool_destroy.
  destruct (do_clean_spec fuel pool s free out Hi Hok Hf) as (pool' & s1 & -> & [_ Ho]). cbn [mbind option_bind].
  destruct (do_free_owns s1 (free_q pool) out Ho) as (s2 & Hs & Ho2 & _). eauto.
Qed.

(** ** Every use of a pool *)

(** [out]: the nodes the caller holds. *)
Inductive reachable (fuel : nat) (mx mn el : Z) (s0 : state) : hl_mempool -> state -> list ptr -> Prop :=
| Created pool s :
    hl_mempool_create malloc fuel mx mn el s0 = Some (Some pool, s) -> reachable fuel mx mn el s0 pool s []
| Got pool s out p pool' s' :
    reachable fuel mx mn el s0 pool s out ->
    hl_mempool_get malloc fuel pool s = Some (p, pool', s') ->
    reachable fuel mx mn el s0 pool' s' (if bool_decide (p = nullptr) then out else p :: out)
| Freed pool s l1 x l2 pool' s' :
    reachable fuel mx mn el s0 pool s (l1 ++ x :: l2) ->
    hl_mempool_free fuel pool x s = Some (pool', s') ->
    reachable fuel mx mn el s0 pool' s' (l1 ++ l2).

Lemma sizes_ok_same pool pool' : same_params pool pool' -> sizes_ok pool -> sizes_ok pool'.
Proof. intros [n ->]. done. Qed.

Lemma pool_inv_perm pool s free out out' : out ≡ₚ out' -> pool_inv pool s free out -> pool_inv pool s free out'.
Proof. unfold pool_inv. by intros ->. Qed.

Lemma reachable_inv fuel mx mn el s0 pool s out :
  owns (heap s0) [] -> 0 <= mn -> mx < 2 ^ 31 - 1 -> (Z.to_nat mx < fuel)%nat ->
  reachable fuel mx mn el s0 pool s out ->
  sizes_ok pool /\ max_size pool = mx /\ exists free, pool_inv pool s free out.
Proof.
  intros Ho Hmn Hmx Hfu. induction 1 as [pool s Hc | pool s out p pool' s' _ IH Hg | pool s l1 x l2 pool' s' _ IH Hg].
  - destruct (create_spec fuel mx mn el s0 Ho Hmn Hmx Hfu) as (r & s' & Hc' & Hr).
    rewrite Hc in Hc'. injection Hc' as <- <-. destruct Hr as (free & ? & ? & ? & _). eauto.
  - destruct IH as (Hok & Emx & free & Hi).
    destruct (get_spec fuel pool s free out Hi Hok) as (p2 & pool2 & s2 & free2 & Hg2 & Hp & Hr); [by rewrite Emx |].
    rewrite Hg in Hg2. injection Hg2 as <- <- <-. split; [by eapply sizes_ok_same |].
    split; [by destruct Hp as [? ->] |]. exists free2. case_bool_decide; tauto.
  - destruct IH as (Hok & Emx & free & Hi). apply (pool_inv_perm _ _ _ _ (x :: l1 ++ l2)) in Hi;
      [|symmetry; apply Permutation_middle].
    destruct (free_spec fuel pool s free (l1 ++ l2) x Hi Hok) as (pool2 & s2 & free2 & Hg2 & Hp & Hr);
      [destruct Hok; lia |].
    rewrite Hg in Hg2. injection Hg2 as <- <-. split; [by eapply sizes_ok_same |].
    split; [by destruct Hp as [? ->] |]. by exists free2.
Qed.
End Proofs.

(** ** Claims *)

(** C33. Safety of the half-life pool, for every [malloc] that returns unallocated blocks,
    a minimum that is not negative and a maximum below 2^31 - 1 (with a negative minimum an
    empty pool hands out its own sentinel: [negative_minimum_hands_out_sentinel]): in every state reached from [hl_mempool_create] by gets and by returns of nodes held,
    the blocks allocated on top of the initial heap are exactly the pool, its free nodes and
    the nodes held - nothing is leaked, freed twice or handed out twice -, [free_size] is the
    number of free nodes and never exceeds [max_size]. From each such state a get returns a
    node nobody holds, or [NULL], exactly when the pool is empty and the first [malloc] of this
    get fails; a node held can be returned; and destroying the pool frees everything but the
    nodes still held. *)
Theorem hl_mempool_safe malloc `{HM : Malloc malloc} fuel mx mn el s0 pool s out :
  0 <= mn -> mx < 2 ^ 31 - 1 -> (Z.to_nat mx < fuel)%nat ->
  reachable malloc fuel mx mn el s0 pool s out ->
  (exists free, is_queue (heap s) (free_q pool) free /\ NoDup (free_q pool :: free ++ out) /\
    (forall x, allocated (heap s) x <-> allocated (heap s0) x \/ x ∈ free_q pool :: free ++ out) /\
    hl_mempool_get_free_size pool = Z.of_nat (length free) /\ Z.of_nat (length free) <= mx) /\
  (exists p pool' s', hl_mempool_get malloc fuel pool s = Some (p, pool', s') /\ (p ∉ out) /\
    (p = nullptr <-> hl_mempool_get_free_size pool = 0 /\ malloc (calls s) (heap s) = nullptr)) /\
  (forall x, x ∈ out -> is_Some (hl_mempool_free fuel pool x s)) /\
  (exists s', hl_mempool_destroy fuel pool s = Some s' /\
    forall x, allocated (heap s') x <-> allocated (heap s0) x \/ x ∈ out).
Proof.
  intros Hmn Hmx Hfu Hr. set (B := allocated (heap s0)).
  assert (owns B (heap s0) []) as Ho.
  { split; [|split; [constructor | by intros x ?%elem_of_nil]]. intros x. rewrite elem_of_nil. tauto. }
  destruct (reachable_inv malloc B fuel mx mn el s0 pool s out Ho Hmn Hmx Hfu Hr) as (Hok & Emx & free & Hi).
  pose proof Hi as ((Hq & Ha & Hnd & Hb) & Hf & Hle). split; [|split; [|split]].
  - exists free. split; [done |]. split; [done |]. split; [done |]. split; [done | lia].
  - destruct (get_spec malloc B fuel pool s free out Hi Hok) as (p & pool' & s' & free' & Hg & _ & Hz & Hp); [by rewrite Emx |].
    exists p, pool', s'. split; [done |]. split;
      [| rewrite Hz; unfold hl_mempool_get_free_size; rewrite Hf; destruct free; cbn; split; intros [??]; split; done || lia].
    case_bool_decide as E.
    + intros Hin. subst p.
      destruct (Hb nullptr) as [_ ?]; [|done]. rewrite app_comm_cons, elem_of_app. by right.
    + destruct Hp as ((_ & _ & Hnd' & _) & _).
      rewrite <- Permutation_middle, Permutation_swap in Hnd'. apply NoDup_cons in Hnd' as [Hn _].
      intros Hin. apply Hn. rewrite app_comm_cons, elem_of_app. by right.
  - intros x (l1 & l2 & ->)%list_elem_of_split.
    apply (pool_inv_perm B _ _ _ _ (x :: l1 ++ l2)) in Hi; [|symmetry; apply Permutation_middle].
    destruct (free_spec malloc B fuel pool s free (l1 ++ l2) x Hi Hok) as (pool' & s' & free' & -> & _); [destruct Hok; lia | done].
  - destruct (destroy_spec malloc B fuel pool s free out Hi Hok) as (s' & Hs & Ha' & _); [lia |]. by exists s'.
Qed.

(** ** A concrete pool *)

(** Three blocks, then failure. *)
Definition ex_malloc (k : nat) (m : links) : ptr :=
  let p := (N.of_nat k + 1)%N in
  if bool_decide (allocated m p) || (3 <? Z.of_nat k) then nullptr else p.

#[export] Instance ex_malloc_ok : Malloc ex_malloc.
Proof.
  intros k m. unfold ex_malloc. destruct (bool_decide _) eqn:E; [done |]. apply bool_decide_eq_false in E.
  by destruct (3 <? Z.of_nat k).
Qed.

Definition ex_empty : state := {| heap := {| l_next := ∅; l_prev := ∅ |}; calls := 0 |}.

Lemma hl_mempool_safe_witness :
  exists pool s, reachable ex_malloc 4 2 0 8 ex_empty pool s [3%N] /\
    hl_mempool_get_free_size pool = 1 /\ is_Some (hl_mempool_free 4 pool 3%N s).
Proof.
  destruct (hl_mempool_create ex_malloc 4 2 0 8 ex_empty) as [[[pool|] s]|] eqn:E;
    [|vm_compute in E; discriminate E..].
  destruct (hl_mempool_get ex_malloc 4 pool s) as [[[p pool'] s']|] eqn:E';
    [|vm_compute in E; injection E as <- <-; vm_compute in E'; discriminate E'].
  assert (reachable ex_malloc 4 2 0 8 ex_empty pool' s' [3%N]) as Hr.
  { replace [3%N] with (if bool_decide (p = nullptr) then [] else p :: []).
    - eapply Got; [by apply Created | exact E'].
    - vm_compute in E; injection E as <- <-; vm_compute in E'; injection E' as <- <- <-. reflexivity. }
  exists pool', s'. split; [exact Hr |]. split.
  - vm_compute in E; injection E as <- <-; vm_compute in E'; injection E' as <- <- <-. reflexivity.
  - apply (hl_mempool_safe ex_malloc 4 2 0 8 ex_empty pool' s' [3%N]); [lia | lia | simpl; lia | exact Hr | by left].
Defined.

(** [hl_mempool_create] accepts a negative minimum; an exhausted pool is then not refilled
    and [hl_mempool_get] unlinks and hands out the sentinel inside the pool itself. *)
Lemma negative_minimum_hands_out_sentinel :
  (r ← hl_mempool_create ex_malloc 9 1 (-1) 8 ex_empty;
   match r with
   | (Some pool, s) =>
       '(_, pool, s) ← hl_mempool_get ex_malloc 9 pool s;
       '(p, pool, s) ← hl_mempool_get ex_malloc 9 pool s; Some (bool_decide (p = free_q pool))
   | _ => None
   end) = Some true.
Proof. vm_compute. reflexivity. Qed.
