(* ===== verification/ConnPool.v ===== *)
(** * Connection pools ([src/core/dfs_conn_pool.cpp])

    Each worker thread preallocates its connections and links the free ones through [next];
    a common pool, guarded by a spin lock, passes connections between threads. [change_n] is
    what a thread may still borrow from the common pool (when negative) or has to give back
    to it (when positive).

    A connection is an address; arrays are consecutive addresses. The results of
    [memory_calloc] are arguments, [nullptr] on failure. *)

From S2P Require Import Prelude.

(* src/src/core/dfs_conn.h:41-47 (conn_s: fd, next, read, write) *)
Record conn := { fd : Z; next : ptr; read : ptr; write : ptr }.

(** The two flags of an event that the pool initialises. *)
Record event := { instance : Z; timer_event : Z }.

(* src/src/core/dfs_conn_pool.h:8-18 (conn_pool_s) *)
Record conn_pool := {
  connections : ptr; connection_n : Z; change_n : Z; free_connections : ptr;
  free_connection_n : Z; read_events : ptr; write_events : ptr; used_n : Z
}.

Record heap := { conns : gmap ptr conn; events : gmap ptr event }.

Definition NGX_INVALID_FILE : Z := -1.
Definition NGX_FALSE : Z := 0.

(** [&a[i]] *)
Definition elt (a : ptr) (i : nat) : ptr := (a + N.of_nat i)%N.

Definition calloc_conns (a : ptr) (n : nat) (m : gmap ptr conn) : gmap ptr conn :=
  foldr (fun i => <[elt a i := {| fd := 0; next := nullptr; read := nullptr; write := nullptr |}]>) m (seq 0 n).
Definition calloc_events (a : ptr) (n : nat) (m : gmap ptr event) : gmap ptr event :=
  foldr (fun i => <[elt a i := {| instance := 0; timer_event := 0 |}]>) m (seq 0 n).
Definition free_array {A} (a : ptr) (n : nat) (m : gmap ptr A) : option (gmap ptr A) :=
  if bool_decide (a = nullptr) then Some m
  else _ ← m !! a; Some (foldr (fun i => delete (elt a i)) m (seq 0 n)).

(** [memory_free] needs no size; the model's is the [connection_n] the arrays were made with. *)
(* src/src/core/dfs_conn_pool.cpp:79-106 (conn_pool_free) *)
Definition conn_pool_free (pool : conn_pool) (h : heap) : option (conn_pool * heap) :=
  let n := Z.to_nat (connection_n pool) in
  cs ← free_array (connections pool) n (conns h);
  es ← free_array (read_events pool) n (events h);
  es ← free_array (write_events pool) n es;
  Some ({| connections := nullptr; connection_n := 0; change_n := change_n pool;
           free_connections := free_connections pool; free_connection_n := 0;
           read_events := nullptr; write_events := nullptr; used_n := used_n pool |},
        {| conns := cs; events := es |}).

Definition set_instance (e : ptr) (m : gmap ptr event) : option (gmap ptr event) :=
  v ← m !! e; Some (<[e := {| instance := 1; timer_event := timer_event v |}]> m).
Definition set_timer_event (e : ptr) (m : gmap ptr event) : option (gmap ptr event) :=
  v ← m !! e; Some (<[e := {| instance := instance v; timer_event := NGX_FALSE |}]> m).

(** Iteration [i] of [todo + i], with the pools arrays [conn], [revs] and [wevs]. *)
Fixpoint init_loop (todo i n : nat) (conn revs wevs : ptr) (h : heap) : option heap :=
  match todo with
  | O => Some h
  | S todo =>
      ev ← set_instance (elt revs i) (events h);
      _ ← conns h !! elt conn i;
      let c := {| fd := NGX_INVALID_FILE;
                  next := if bool_decide (i = n - 1)%nat then nullptr else elt conn (i + 1);
                  read := elt revs i; write := elt wevs i |} in
      ev ← set_timer_event (read c) ev;
      ev ← set_timer_event (write c) ev;
      init_loop todo (S i) n conn revs wevs {| conns := <[elt conn i := c]> (conns h); events := ev |}
  end.

(** [true] is [NGX_OK]. *)
(* src/src/core/dfs_conn_pool.cpp:13-77 (conn_pool_init) *)
Definition conn_pool_init (pool : conn_pool) (n : Z) (conns_at revs_at wevs_at : ptr) (h : heap)
    : option (bool * conn_pool * heap) :=
  if n =? 0 then Some (false, pool, h)
  else
    let k := Z.to_nat n in
    let pool1 c r w := {| connections := c; connection_n := n; change_n := change_n pool;
      free_connections := free_connections pool; free_connection_n := free_connection_n pool;
      read_events := r; write_events := w; used_n := used_n pool |} in
    if bool_decide (conns_at = nullptr) then
      Some (false, pool1 nullptr (read_events pool) (write_events pool), h)
    else
      let h := {| conns := calloc_conns conns_at k (conns h); events := events h |} in
      if bool_decide (revs_at = nullptr) then
        '(pool, h) ← conn_pool_free (pool1 conns_at nullptr (write_events pool)) h; Some (false, pool, h)
      else
        let h := {| conns := conns h; events := calloc_events revs_at k (events h) |} in
        if bool_decide (wevs_at = nullptr) then
          '(pool, h) ← conn_pool_free (pool1 conns_at revs_at nullptr) h; Some (false, pool, h)
        else
          let h := {| conns := conns h; events := calloc_events wevs_at k (events h) |} in
          h ← init_loop k 0 k conns_at revs_at wevs_at h;
          Some (true, {| connections := conns_at; connection_n := n; change_n := change_n pool;
            free_connections := conns_at; free_connection_n := n;
            read_events := revs_at; write_events := wevs_at; used_n := used_n pool |}, h).

(** ** Taking and returning connections *)

Definition with_free (pool : conn_pool) (c : ptr) (n : Z) : conn_pool :=
  {| connections := connections pool; connection_n := connection_n pool; change_n := change_n pool;
     free_connections := c; free_connection_n := n; read_events := read_events pool;
     write_events := write_events pool; used_n := used_n pool |}.
Definition with_quota (pool : conn_pool) (change used : Z) : conn_pool :=
  {| connections := connections pool; connection_n := connection_n pool; change_n := change;
     free_connections := free_connections pool; free_connection_n := free_connection_n pool;
     read_events := read_events pool; write_events := write_events pool; used_n := used |}.

Definition set_next (c v : ptr) (m : gmap ptr conn) : option (gmap ptr conn) :=
  x ← m !! c; Some (<[c := {| fd := fd x; next := v; read := read x; write := write x |}]> m).

(** One critical section of the common lock. *)
(* src/src/core/dfs_conn_pool.cpp:175-185 (put_comm_conn) *)
Definition put_comm_conn (c : ptr) (comm : conn_pool) (m : gmap ptr conn) : option (conn_pool * gmap ptr conn) :=
  m ← set_next c (free_connections comm) m;
  Some (with_free comm c (u32 (free_connection_n comm + 1)), m).

(** [for (plast = p; p && i > 0; i--) { plast = p; p = p->next; }] *)
Fixpoint comm_walk (i : nat) (plast p : ptr) (m : gmap ptr conn) : option (ptr * ptr) :=
  match i with
  | O => Some (plast, p)
  | S i =>
      if bool_decide (p = nullptr) then Some (plast, p)
      else c ← m !! p; comm_walk i p (next c) m
  end.

(** One critical section of the common lock; the second result is [*num], untouched when
    nothing is found. *)
(* src/src/core/dfs_conn_pool.cpp:187-235 (get_comm_conn) *)
Definition get_comm_conn (n num : Z) (comm : conn_pool) (m : gmap ptr conn)
    : option (ptr * Z * conn_pool * gmap ptr conn) :=
  if free_connection_n comm =? 0 then Some (nullptr, num, comm, m)
  else if free_connection_n comm <=? n then
    Some (free_connections comm, s32 (free_connection_n comm), with_free comm nullptr 0, m)
  else
    '(plast, p) ← comm_walk (Z.to_nat n) (free_connections comm) (free_connections comm) m;
    let c := free_connections comm in
    m ← set_next plast nullptr m;
    Some (c, s32 n, with_free comm p (u32 (free_connection_n comm - n)), m).

(** The label [out_conn]. *)
Definition take_free (c : ptr) (pool : conn_pool) (m : gmap ptr conn) : option conn_pool :=
  x ← m !! c;
  Some (with_quota (with_free pool (next x) (u32 (free_connection_n pool - 1))) (change_n pool) (u32 (used_n pool + 1))).

(* src/src/core/dfs_conn_pool.cpp:108-139 (conn_pool_get_connection) *)
Definition conn_pool_get_connection (pool comm : conn_pool) (m : gmap ptr conn)
    : option (ptr * conn_pool * conn_pool * gmap ptr conn) :=
  let c := free_connections pool in
  if bool_decide (c = nullptr) then
    if 0 <=? change_n pool then Some (nullptr, pool, comm, m)
    else
      let n := u32 (- change_n pool) in
      '(c, num, comm, m) ← get_comm_conn n 0 comm m;
      if bool_decide (c = nullptr) then Some (nullptr, pool, comm, m)
      else
        let pool := with_quota (with_free pool c (u32 (free_connection_n pool + num)))
                      (s32 (change_n pool + num)) (used_n pool) in
        pool ← take_free c pool m; Some (c, pool, comm, m)
  else pool ← take_free c pool m; Some (c, pool, comm, m).

(* src/src/core/dfs_conn_pool.cpp:141-158 (conn_pool_free_connection) *)
Definition conn_pool_free_connection (pool : conn_pool) (c : ptr) (comm : conn_pool) (m : gmap ptr conn)
    : option (conn_pool * conn_pool * gmap ptr conn) :=
  if 0 <? change_n pool then
    '(comm, m) ← put_comm_conn c comm m;
    Some (with_quota pool (s32 (change_n pool - 1)) (u32 (used_n pool - 1)), comm, m)
  else
    m ← set_next c (free_connections pool) m;
    Some (with_quota (with_free pool c (u32 (free_connection_n pool + 1))) (change_n pool) (u32 (used_n pool - 1)), comm, m).

(* src/src/core/dfs_conn_pool.cpp:237-241 (conn_pool_out) *)
Definition conn_pool_out (pool : conn_pool) (n : Z) : conn_pool :=
  with_quota pool (s32 (change_n pool - n)) (u32 (used_n pool - n)).

(* src/src/core/dfs_conn_pool.cpp:243-247 (conn_pool_in) *)
Definition conn_pool_in (pool : conn_pool) (n : Z) : conn_pool :=
  with_quota pool (s32 (change_n pool + n)) (u32 (used_n pool + n)).

(** ** Arrays *)

Definition range (a : ptr) (n : nat) : list ptr := elt a <$> seq 0 n.

Lemma elem_of_range x a n : x ∈ range a n <-> exists i, (i < n)%nat /\ x = elt a i.
Proof.
  unfold range. rewrite list_elem_of_fmap. setoid_rewrite elem_of_seq. split; intros (i & ? & ?); exists i; (split; [|done || lia]); (done || lia).
Qed.

Lemma elt_inj a i j : elt a i = elt a j -> i = j.
Proof. unfold elt. lia. Qed.

Lemma lookup_calloc {A} (v : A) a n (m : gmap ptr A) x :
  foldr (fun i => <[elt a i := v]>) m (seq 0 n) !! x = if bool_decide (x ∈ range a n) then Some v else m !! x.
Proof.
  unfold range. generalize (seq 0 n) as l. intros l. induction l as [|i l IH]; [by rewrite bool_decide_false by apply not_elem_of_nil |].
  simpl. destruct (decide (elt a i = x)) as [<- | Hne].
  - rewrite lookup_insert_eq, bool_decide_true by by left. done.
  - rewrite lookup_insert_ne, IH by done. erewrite bool_decide_ext; [done |].
    rewrite elem_of_cons. naive_solver.
Qed.

Lemma lookup_free {A} a n (m : gmap ptr A) x :
  foldr (fun i => delete (elt a i)) m (seq 0 n) !! x = if bool_decide (x ∈ range a n) then None else m !! x.
Proof.
  unfold range. generalize (seq 0 n) as l. intros l. induction l as [|i l IH]; [by rewrite bool_decide_false by apply not_elem_of_nil |].
  simpl. destruct (decide (elt a i = x)) as [<- | Hne].
  - rewrite lookup_delete_eq, bool_decide_true by by left. done.
  - rewrite lookup_delete_ne, IH by done. erewrite bool_decide_ext; [done |].
    rewrite elem_of_cons. naive_solver.
Qed.

(** Freeing a fresh array gives back the map. *)
Definition fresh_array {A} (a : ptr) (n : nat) (m : gmap ptr A) : Prop := forall x, x ∈ range a n -> m !! x = None.

Lemma free_calloc {A} (v : A) a n (m : gmap ptr A) :
  (0 < n)%nat -> fresh_array a n m -> a <> nullptr ->
  free_array a n (foldr (fun i => <[elt a i := v]>) m (seq 0 n)) = Some m.
Proof.
  intros Hn Hf Ha. unfold free_array. rewrite bool_decide_false by done.
  rewrite lookup_calloc, bool_decide_true by (apply elem_of_range; exists O; split; [done | unfold elt; lia]).
  cbn [mbind option_bind]. f_equal. apply map_eq. intros x. rewrite lookup_free, lookup_calloc.
  case_bool_decide as E; [|done]. symmetry. by apply Hf.
Qed.

(** ** Initialisation *)

Definition ready (n : nat) (ca ra wa : ptr) (h : heap) (j : nat) : Prop :=
  conns h !! elt ca j = Some {| fd := NGX_INVALID_FILE;
    next := if bool_decide (j = n - 1)%nat then nullptr else elt ca (j + 1);
    read := elt ra j; write := elt wa j |} /\
  events h !! elt ra j = Some {| instance := 1; timer_event := NGX_FALSE |} /\
  events h !! elt wa j = Some {| instance := 0; timer_event := NGX_FALSE |}.

Definition blank (ca ra wa : ptr) (h : heap) (j : nat) : Prop :=
  is_Some (conns h !! elt ca j) /\
  events h !! elt ra j = Some {| instance := 0; timer_event := 0 |} /\
  events h !! elt wa j = Some {| instance := 0; timer_event := 0 |}.

Lemma init_loop_spec n ca ra wa todo i h :
  (todo + i = n)%nat -> (forall x, x ∈ range ra n -> x ∉ range wa n) ->
  (forall j, (i <= j < n)%nat -> blank ca ra wa h j) -> (forall j, (j < i)%nat -> ready n ca ra wa h j) ->
  exists h', init_loop todo i n ca ra wa h = Some h' /\ forall j, (j < n)%nat -> ready n ca ra wa h' j.
Proof.
  revert i h. induction todo as [|todo IH]; intros i h Hn Hd Hb Hr.
  { exists h. split; [done |]. intros j Hj. apply Hr. lia. }
  assert (forall j k, (j < n)%nat -> (k < n)%nat -> elt ra j <> elt wa k) as Hrw.
  { intros j k Hj Hk E. apply (Hd (elt ra j)); apply elem_of_range; [by exists j | by exists k]. }
  assert (forall a j, j <> i -> elt a i <> elt a j) as Hne by (intros a j Hji E; apply elt_inj in E; done).
  destruct (Hb i) as ([c Hc] & Hre & Hwe); [lia |].
  cbn [init_loop]. unfold set_instance. rewrite Hre. cbn [mbind option_bind instance timer_event]. rewrite Hc.
  cbn [mbind option_bind read write]. unfold set_timer_event.
  rewrite lookup_insert_eq. cbn [mbind option_bind instance timer_event].
  rewrite !lookup_insert_ne, Hwe by (apply Hrw; lia). cbn [mbind option_bind instance timer_event].
  apply IH; [lia | done | |]; intros j Hj.
  - destruct (Hb j) as (Hcj & Hrj & Hwj); [lia |]. unfold blank. cbn [conns events].
    rewrite (lookup_insert_ne (conns h)) by (apply Hne; lia).
    rewrite !lookup_insert_ne; [done | (apply Hne || apply not_eq_sym, Hrw || apply Hrw); lia ..].
  - unfold ready. cbn [conns events]. destruct (decide (j = i)) as [-> | Hji].
    + rewrite !lookup_insert_eq. rewrite lookup_insert_ne, !lookup_insert_eq by (apply not_eq_sym, Hrw; lia). done.
    + destruct (Hr j) as (Hcj & Hrj & Hwj); [lia |].
      rewrite (lookup_insert_ne (conns h)) by by apply Hne.
      rewrite !lookup_insert_ne; [done | (apply Hne || apply not_eq_sym, Hrw || apply Hrw); lia ..].
Qed.

Lemma ready_chain n ca ra wa h i :
  (forall j, (j < n)%nat -> ready n ca ra wa h j) -> (i < n)%nat ->
  chain next (conns h) (elt ca i) (elt ca <$> seq i (n - i)).
Proof.
  intros Hr Hi. remember (n - i)%nat as k eqn:Hk. revert i Hi Hk. induction k as [|k IH]; intros i Hi Hk; [lia |].
  cbn [seq fmap list_fmap chain]. split; [done |]. destruct (Hr i Hi) as (Hc & _). eexists. split; [exact Hc |].
  cbn [next]. case_bool_decide as E.
  - assert (k = 0)%nat as -> by lia. done.
  - rewrite Nat.add_1_r. apply IH; lia.
Qed.

(** ** One thread and the common pool *)

(** [f] and [cf] are the free lists of the thread and of the common pool, [held] the
    connections anybody else has. *)
Record local (p comm : conn_pool) (m : gmap ptr conn) (f cf held : list ptr) : Prop := {
  local_free : chain next m (free_connections p) f;
  local_free_n : free_connection_n p = Z.of_nat (length f);
  local_comm : chain next m (free_connections comm) cf;
  local_comm_n : free_connection_n comm = Z.of_nat (length cf);
  local_nodup : NoDup (f ++ cf ++ held);
  local_null : nullptr ∉ f ++ cf ++ held;
  local_conns x : x ∈ f ++ cf ++ held -> is_Some (m !! x);
  local_few : Z.of_nat (length (f ++ cf ++ held)) < 2 ^ 31;
  local_change : - 2 ^ 31 < change_n p < 2 ^ 31
}.

(** What an operation on a thread's pool may do: it moves connections between the three
    lists and writes only the [next] of those. *)
Definition moves (m m' : gmap ptr conn) (L L' : list ptr) : Prop :=
  L' ≡ₚ L /\ (forall x, x ∉ L -> m' !! x = m !! x) /\ (forall x, is_Some (m !! x) -> is_Some (m' !! x)).

Lemma moves_refl m L : moves m m L L.
Proof. done. Qed.

Lemma moves_app m m' L L' R : moves m m' L L' -> moves m m' (L ++ R) (L' ++ R).
Proof.
  intros (Hp & Hoff & Hk). split; [by rewrite Hp | split; [|done]]. intros x Hx. apply Hoff.
  intros Hin. apply Hx, elem_of_app. by left.
Qed.

Lemma moves_perm m m' L1 L2 L1' L2' :
  L1 ≡ₚ L2 -> L1' ≡ₚ L2' -> moves m m' L1 L1' -> moves m m' L2 L2'.
Proof.
  intros E E' (Hp & Hoff & Hk). split; [by rewrite <- E, <- E' | split; [|done]]. intros x. rewrite <- E. apply Hoff.
Qed.

Lemma local_moves p comm m f cf held p' comm' m' f' cf' held' :
  local p comm m f cf held -> moves m m' (f ++ cf ++ held) (f' ++ cf' ++ held') ->
  chain next m' (free_connections p') f' -> free_connection_n p' = Z.of_nat (length f') ->
  chain next m' (free_connections comm') cf' -> free_connection_n comm' = Z.of_nat (length cf') ->
  - 2 ^ 31 < change_n p' < 2 ^ 31 -> local p' comm' m' f' cf' held'.
Proof.
  intros [_ _ _ _ Hnd Hnn Hc Hl _] (Hp & _ & Hk) Hf' Hfn' Hcf' Hcn' Hch.
  constructor; [done.. | | | | | done]; [by rewrite Hp | by rewrite Hp | | by rewrite Hp].
  intros x. rewrite Hp. intros Hx. by apply Hk, Hc.
Qed.

Lemma set_next_moves c v m L :
  is_Some (m !! c) -> c ∈ L ->
  exists m', set_next c v m = Some m' /\ moves m m' L L /\
    (exists x, m' !! c = Some x /\ next x = v) /\ (forall x, x <> c -> m' !! x = m !! x).
Proof.
  intros [x Hx] Hc. unfold set_next. rewrite Hx. cbn [mbind option_bind]. eexists. split; [done |].
  split; [split; [done | split] |].
  - intros y Hy. apply lookup_insert_ne. by intros ->.
  - intros y Hy. apply lookup_insert_is_Some'. by right.
  - split; [rewrite lookup_insert_eq; eauto |]. intros y Hy. by apply lookup_insert_ne.
Qed.

(** Linking [c] in front of a free list. *)
Lemma push_chain c b m xs L :
  is_Some (m !! c) -> c ∈ L -> c ∉ xs -> chain next m b xs ->
  exists m', set_next c b m = Some m' /\ moves m m' L L /\ chain next m' c (c :: xs) /\
    (forall x, x <> c -> m' !! x = m !! x).
Proof.
  intros Hm Hc Hx Hch. destruct (set_next_moves c b m L Hm Hc) as (m' & Hs & Hmv & (x & Hxc & Hnx) & Hoff).
  exists m'. split; [done |]. split; [done |]. split; [|done]. cbn [chain]. split; [done |]. exists x.
  split; [done |]. rewrite Hnx. eapply chain_frame; [|exact Hch]. intros y Hy. apply Hoff. by intros ->.
Qed.

Lemma comm_walk_spec i plast p m xs :
  chain next m p xs -> nullptr ∉ xs -> (i <= length xs)%nat ->
  exists b, comm_walk i plast p m = Some (List.last (take i xs) plast, b) /\ chain next m b (drop i xs).
Proof.
  revert plast p xs. induction i as [|i IH]; intros plast p xs Hc Hn Hi; [exists p; by rewrite drop_0 |].
  destruct xs as [|x xs]; [simpl in Hi; lia |]. destruct Hc as [-> (l & Hl & Hc)].
  apply not_elem_of_cons in Hn as [Hx Hn]. cbn [comm_walk]. rewrite bool_decide_false, Hl by done.
  cbn [mbind option_bind]. destruct (IH x (next l) xs Hc Hn) as (b & Hb & Hcb); [simpl in Hi; lia |].
  exists b. rewrite Hb. split; [|done]. f_equal. f_equal. cbn [take firstn].
  destruct (take i xs) as [|y ys] eqn:E; [done |]. clear. revert y x. induction ys as [|z ys IH]; intros y x; [done |].
  apply (IH z x).
Qed.

(** Cutting a list after its [i]-th connection. *)
Lemma chain_take m m' b xs i c d :
  chain next m b xs -> NoDup xs -> (0 < i <= length xs)%nat -> c = List.last (take i xs) d ->
  (forall x, x <> c -> m' !! x = m !! x) -> (exists x, m' !! c = Some x /\ next x = nullptr) ->
  chain next m' b (take i xs).
Proof.
  revert b i. induction xs as [|x xs IH]; intros b [|i] Hc Hnd Hi Hl Hoff Hcut; try (simpl in Hi; lia).
  destruct Hc as [-> (l & Hx & Hc)]. apply NoDup_cons in Hnd as [Hnx Hnd]. cbn [take firstn chain]. split; [done |].
  destruct (decide (i = 0)%nat) as [-> | Hne].
  - simpl in Hl. subst c. destruct Hcut as (y & Hy & Hny). exists y. by rewrite take_0.
  - assert (c ∈ xs) as Hcx.
    { subst c. destruct xs as [|y xs]; [simpl in Hi; lia |]. destruct i as [|i]; [lia |].
      cbn [take firstn]. assert (forall (y0 : ptr) l0, List.last (x :: y0 :: l0) d ∈ y0 :: l0) as Hlast.
      { clear. intros y0 l0. revert y0. induction l0 as [|z l0 IH]; intros y0; [by left |]. right. apply (IH z). }
      specialize (Hlast y (take i xs)). apply elem_of_cons in Hlast as [-> | Hin]; [by left |]. right.
      apply elem_of_take in Hin as (k & Hk & _).
      exact (list_elem_of_lookup_2 _ _ _ Hk). }
    exists l. rewrite Hoff by (intros ->; done). split; [done |]. apply IH; [done | done | simpl in Hi; lia | | done | done].
    rewrite Hl. destruct xs as [|y xs]; [simpl in Hi; lia |]. destruct i as [|i]; [lia |]. done.
Qed.

(** What [get_comm_conn] gives to a thread whose own free list is empty. *)
Lemma get_comm_spec p comm m cf held n :
  local p comm m [] cf held -> 0 < n < 2 ^ 32 ->
  if bool_decide (cf = []) then get_comm_conn n 0 comm m = Some (nullptr, 0, comm, m)
  else exists c comm' m' g cf', get_comm_conn n 0 comm m = Some (c, Z.of_nat (length g), comm', m') /\
    g ++ cf' = cf /\ g <> [] /\ Z.of_nat (length g) <= n /\ moves m m' cf (g ++ cf') /\
    chain next m' c g /\ chain next m' (free_connections comm') cf' /\
    free_connection_n comm' = Z.of_nat (length cf').
Proof.
  intros [Hf Hfn Hc Hcn Hnd Hnn Hm Hl Hch] Hn. cbn [app] in *. unfold get_comm_conn. rewrite Hcn.
  rewrite length_app in Hl.
  destruct cf as [|x cf].
  { rewrite bool_decide_true by done. done. }
  rewrite bool_decide_false by done. rewrite (proj2 (Z.eqb_neq _ 0)) by (simpl; lia).
  destruct (Z.leb_spec (Z.of_nat (length (x :: cf))) n) as [Hle | Hgt].
  - eexists _, _, m, (x :: cf), []. split; [rewrite s32_small by (unfold is_s32; lia); reflexivity |].
    rewrite app_nil_r. split; [done |]. split; [done |]. split; [lia |]. split; [done |]. done.
  - destruct (comm_walk_spec (Z.to_nat n) (free_connections comm) (free_connections comm) m (x :: cf) Hc)
      as (b & Hw & Hcb); [|lia |].
    { intros Hin. apply Hnn, elem_of_app. by left. }
    rewrite Hw. cbn [mbind option_bind]. set (g := take (Z.to_nat n) (x :: cf)) in *.
    assert (length g = Z.to_nat n) as Hgl by (unfold g; rewrite length_take; lia).
    set (c := List.last g (free_connections comm)).
    assert (c ∈ g) as Hcg.
    { unfold c. clear - Hgl Hn. destruct g as [|y g]; [simpl in Hgl; lia |]. clear. revert y.
      induction g as [|z g IH]; intros y; [by left |]. right. apply (IH z). }
    assert (g ++ drop (Z.to_nat n) (x :: cf) = x :: cf) as Hgd by apply take_drop.
    assert (c ∈ x :: cf) as HcL by (rewrite <- Hgd, !elem_of_app; tauto).
    destruct (set_next_moves c nullptr m (x :: cf) (Hm c ltac:(apply elem_of_app; by left)) HcL) as (m' & Hs & Hmv & Hcut & Hoff).
    rewrite Hs. cbn [mbind option_bind].
    eexists _, _, m', g, (drop (Z.to_nat n) (x :: cf)). rewrite s32_small by (unfold is_s32; lia).
    split; [rewrite Hgl, Z2Nat.id by lia; reflexivity |]. split; [done |].
    split; [intros E; rewrite E in Hgl; simpl in Hgl; lia |]. split; [lia |].
    apply NoDup_app in Hnd as (Hnd & _ & _).
    split; [by rewrite Hgd |]. split; [|split].
    + destruct Hc as [Hx Hc]. eapply (chain_take m m'); [| exact Hnd | | | exact Hoff | exact Hcut]; [done | lia |].
      done.
    + cbn [free_connections with_free]. eapply chain_frame; [|exact Hcb]. intros y Hy. apply Hoff. intros ->.
      rewrite <- Hgd in Hnd. apply NoDup_app in Hnd as (_ & Hd & _). by apply (Hd c).
    + cbn [free_connection_n with_free]. rewrite length_drop, u32_small; [lia | unfold is_u32; lia].
Qed.

Lemma conn_get_spec p comm m f cf held :
  local p comm m f cf held ->
  exists c p' comm' m' f' cf', conn_pool_get_connection p comm m = Some (c, p', comm', m') /\
    let held' := if bool_decide (c = nullptr) then held else c :: held in
    local p' comm' m' f' cf' held' /\
    moves m m' (f ++ cf) (f' ++ cf' ++ if bool_decide (c = nullptr) then [] else [c]) /\
    (c = nullptr <-> f = [] /\ (0 <= change_n p \/ cf = [])).
Proof.
  intros HL. pose proof HL as [Hf Hfn Hc Hcn Hnd Hnn Hm Hl Hch]. unfold conn_pool_get_connection.
  destruct f as [|x f].
  - simpl in Hf. rewrite bool_decide_true by done. destruct (Z.leb_spec 0 (change_n p)) as [Hle | Hlt].
    { exists nullptr, p, comm, m, [], cf. rewrite bool_decide_true by done. split; [done |]. split; [done |].
      split; [by rewrite app_nil_r |]. tauto. }
    assert (0 < u32 (- change_n p) < 2 ^ 32) as Hn by (rewrite u32_small; [lia | unfold is_u32; lia]).
    pose proof (get_comm_spec p comm m cf held (u32 (- change_n p)) HL Hn) as Hg. case_bool_decide as Hcf.
    { rewrite Hg. cbn [mbind option_bind]. rewrite (bool_decide_true (nullptr = nullptr)) by done.
      exists nullptr, p, comm, m, [], cf. split; [done |]. split; [done |]. split; [by rewrite app_nil_r |]. tauto. }
    destruct Hg as (c & comm' & m' & g & cf' & -> & Hgc & Hg0 & Hgn & Hmv & Hcg & Hcc & Hccn).
    cbn [mbind option_bind]. destruct g as [|y g]; [done |]. destruct Hcg as [-> (l & Hy & Hcg)].
    assert (y <> nullptr) as Hyn. { intros ->. apply Hnn. rewrite <- Hgc. by left. }
    rewrite (bool_decide_false (y = nullptr)) by done. unfold take_free. rewrite Hy. cbn [mbind option_bind].
    exists y. eexists _, _, m', g, cf'. split; [reflexivity |]. rewrite (bool_decide_false (y = nullptr)) by done.
    cbn zeta. cbn [app length] in *. rewrite length_app in Hl.
    assert (length cf = S (length g) + length cf')%nat as Hlc by (rewrite <- Hgc; simpl; rewrite length_app; lia).
    assert (moves m m' cf (g ++ cf' ++ [y])) as Hmv'.
    { eapply moves_perm; [done | | exact Hmv]. simpl. solve_Permutation. }
    split; [|split; [done |]].
    + eapply local_moves; [exact HL | | done | | done | done |];
        [eapply moves_perm; [| | exact (moves_app _ _ _ _ held Hmv')]; solve_Permutation | |]; cbn [free_connection_n free_connections change_n with_quota with_free].
      * rewrite Hfn, (u32_small (_ + _)) by (unfold is_u32; lia).
        rewrite u32_small; [lia | unfold is_u32; lia].
      * rewrite u32_small in Hgn by (unfold is_u32; lia). rewrite s32_small; [lia | unfold is_s32; lia].
    + split; [done |]. intros [_ [? | ->]]; [lia | done].
  - destruct Hf as [E (l & Hx & Hf)]. assert (x <> nullptr) as Hxn by (intros ->; apply Hnn; by left).
    rewrite E. rewrite bool_decide_false by done. unfold take_free. rewrite Hx. cbn [mbind option_bind].
    exists x. eexists _, _, m, f, cf. split; [reflexivity |]. rewrite (bool_decide_false (x = nullptr)) by done.
    cbn zeta. assert (moves m m ((x :: f) ++ cf) (f ++ cf ++ [x])) as Hmv.
    { split; [|done]. solve_Permutation. }
    rewrite length_app in Hl.
    split; [|split; [done |]].
    + eapply local_moves; [exact HL | | done | | done | done | done];
        [eapply moves_perm; [| | exact (moves_app _ _ _ _ held Hmv)]; solve_Permutation |].
      cbn [free_connection_n with_quota with_free]. rewrite Hfn. simpl. simpl in Hl. rewrite u32_small; [lia | unfold is_u32; lia].
    + split; [done |]. by intros [? _].
Qed.

Lemma conn_free_spec p comm m f cf held c :
  local p comm m f cf (c :: held) ->
  exists p' comm' m' f' cf', conn_pool_free_connection p c comm m = Some (p', comm', m') /\
    local p' comm' m' f' cf' held /\ moves m m' (f ++ cf ++ [c]) (f' ++ cf').
Proof.
  intros HL. pose proof HL as [Hf Hfn Hc Hcn Hnd Hnn Hm Hl Hch]. unfold conn_pool_free_connection, put_comm_conn.
  assert (c ∈ f ++ cf ++ [c]) as Hin by (rewrite !elem_of_app, list_elem_of_singleton; tauto).
  assert (is_Some (m !! c)) as Hmc by (apply Hm; rewrite !elem_of_app, elem_of_cons; tauto).
  assert (c :: (f ++ cf) ++ held ≡ₚ f ++ cf ++ c :: held) as Hp by solve_Permutation.
  assert (c ∉ f ++ cf) as Hni.
  { rewrite <- Hp in Hnd. apply NoDup_cons in Hnd as [Hn _]. intros Hx. apply Hn, elem_of_app. by left. }
  rewrite elem_of_app in Hni. rewrite !length_app in Hl. simpl in Hl.
  destruct (Z.ltb_spec 0 (change_n p)) as [Hlt | Hge].
  - destruct (push_chain c (free_connections comm) m cf _ Hmc Hin) as (m' & -> & Hmv & Hch' & Hoff); [tauto | done |].
    cbn [mbind option_bind]. eexists _, _, m', f, (c :: cf). split; [reflexivity |].
    assert (moves m m' (f ++ cf ++ [c]) (f ++ c :: cf)) as Hmv'.
    { eapply moves_perm; [done | | exact Hmv]. solve_Permutation. }
    split; [|done]. eapply local_moves; [exact HL | | | done | done | |];
      [eapply moves_perm; [| | exact (moves_app _ _ _ _ held Hmv')]; solve_Permutation | | |]; cbn [free_connection_n free_connections change_n with_quota with_free].
    + eapply chain_frame; [|exact Hf]. intros y Hy. apply Hoff. intros ->. tauto.
    + rewrite Hcn. simpl. rewrite u32_small; [lia | unfold is_u32; lia].
    + rewrite s32_small; [lia | unfold is_s32; lia].
  - destruct (push_chain c (free_connections p) m f _ Hmc Hin) as (m' & -> & Hmv & Hch' & Hoff); [tauto | done |].
    cbn [mbind option_bind]. eexists _, _, m', (c :: f), cf. split; [reflexivity |].
    assert (moves m m' (f ++ cf ++ [c]) ((c :: f) ++ cf)) as Hmv'.
    { eapply moves_perm; [done | | exact Hmv]. solve_Permutation. }
    split; [|done]. eapply local_moves; [exact HL | | done | | | done | done];
      [eapply moves_perm; [| | exact (moves_app _ _ _ _ held Hmv')]; solve_Permutation | |]; cbn [free_connection_n free_connections change_n with_quota with_free].
    + rewrite Hfn. simpl. rewrite u32_small; [lia | unfold is_u32; lia].
    + eapply chain_frame; [|exact Hc]. intros y Hy. apply Hoff. intros ->. tauto.
Qed.

(** ** Threads sharing the common pool *)

Record sys := { pools : list conn_pool; comm_conn_pool : conn_pool; links : gmap ptr conn }.

(** One operation of one thread; [held] are the connections in use. A quota change must not
    leave the range of [int]. *)
Inductive step : sys * list ptr -> sys * list ptr -> Prop :=
| StepGet s held t p c p' comm' m' :
    pools s !! t = Some p -> conn_pool_get_connection p (comm_conn_pool s) (links s) = Some (c, p', comm', m') ->
    step (s, held) ({| pools := <[t := p']> (pools s); comm_conn_pool := comm'; links := m' |},
                    if bool_decide (c = nullptr) then held else c :: held)
| StepFree s l1 c l2 t p p' comm' m' :
    pools s !! t = Some p -> conn_pool_free_connection p c (comm_conn_pool s) (links s) = Some (p', comm', m') ->
    step (s, l1 ++ c :: l2) ({| pools := <[t := p']> (pools s); comm_conn_pool := comm'; links := m' |}, l1 ++ l2)
| StepOut s held t p n :
    pools s !! t = Some p -> - 2 ^ 31 < change_n p - n < 2 ^ 31 ->
    step (s, held) ({| pools := <[t := conn_pool_out p n]> (pools s); comm_conn_pool := comm_conn_pool s; links := links s |}, held)
| StepIn s held t p n :
    pools s !! t = Some p -> - 2 ^ 31 < change_n p + n < 2 ^ 31 ->
    step (s, held) ({| pools := <[t := conn_pool_in p n]> (pools s); comm_conn_pool := comm_conn_pool s; links := links s |}, held).

(** The connections [all] are split between the free lists and the connections in use. *)
Definition conserved (all : list ptr) (s : sys) (held : list ptr) (fs : list (list ptr)) (cf : list ptr) : Prop :=
  length fs = length (pools s) /\
  (forall t p f, pools s !! t = Some p -> fs !! t = Some f ->
    chain next (links s) (free_connections p) f /\ free_connection_n p = Z.of_nat (length f) /\
    - 2 ^ 31 < change_n p < 2 ^ 31) /\
  chain next (links s) (free_connections (comm_conn_pool s)) cf /\
  free_connection_n (comm_conn_pool s) = Z.of_nat (length cf) /\
  concat fs ++ cf ++ held ≡ₚ all /\
  (forall x, x ∈ all -> is_Some (links s !! x)).

Definition proper_conns (all : list ptr) : Prop :=
  NoDup all /\ (nullptr ∉ all) /\ Z.of_nat (length all) < 2 ^ 31.

Lemma concat_delete {A} (fs : list (list A)) t f :
  fs !! t = Some f -> concat fs ≡ₚ f ++ concat (delete t fs).
Proof.
  revert t. induction fs as [|g fs IH]; intros [|t] Hf; [done.. | by injection Hf as -> |].
  simpl. rewrite (IH t Hf). rewrite !app_assoc. by rewrite (Permutation_app_comm g f).
Qed.

Lemma concat_insert {A} (fs : list (list A)) t f g :
  fs !! t = Some f -> concat (<[t := g]> fs) ≡ₚ g ++ concat (delete t fs).
Proof.
  revert t. induction fs as [|h fs IH]; intros [|t] Hf; [done.. |].
  simpl. rewrite (IH t Hf). rewrite !app_assoc. by rewrite (Permutation_app_comm h g).
Qed.

Lemma elem_of_concat_delete {A} (fs : list (list A)) t i f x :
  i <> t -> fs !! i = Some f -> x ∈ f -> x ∈ concat (delete t fs).
Proof.
  revert t i. induction fs as [|h fs IH]; intros t i Hit Hf Hx; [done |].
  destruct t as [|t], i as [|i]; [done | | |]; simpl in *.
  - apply list_elem_of_In, in_concat. exists f. split; apply list_elem_of_In; [by eapply list_elem_of_lookup_2 | done].
  - injection Hf as ->. apply elem_of_app. by left.
  - apply elem_of_app. right. apply (IH t i); [congruence | done | done].
Qed.

(** The pool of thread [t] as a [local]: what the other threads have counts as held. *)
Lemma conserved_local all s held fs cf t p f :
  proper_conns all -> conserved all s held fs cf -> pools s !! t = Some p -> fs !! t = Some f ->
  local p (comm_conn_pool s) (links s) f cf (held ++ concat (delete t fs)) /\
  f ++ cf ++ held ++ concat (delete t fs) ≡ₚ all.
Proof.
  intros (Hnd & Hnn & Hl) (_ & Hp & Hc & Hcn & Hall & Hm) Hpt Hft.
  destruct (Hp t p f Hpt Hft) as (Hf & Hfn & Hch).
  assert (f ++ cf ++ held ++ concat (delete t fs) ≡ₚ all) as E.
  { rewrite <- Hall, (concat_delete fs t f) by done. solve_Permutation. }
  split; [|done]. constructor; [done.. | by rewrite E | by rewrite E | | by rewrite E | done].
  intros x. rewrite E. apply Hm.
Qed.

Lemma conserved_update all s held fs cf t p f p' comm' m' f' cf' held' :
  proper_conns all -> conserved all s held fs cf -> pools s !! t = Some p -> fs !! t = Some f ->
  local p' comm' m' f' cf' (held' ++ concat (delete t fs)) ->
  moves (links s) m' (f ++ cf ++ held) (f' ++ cf' ++ held') ->
  conserved all {| pools := <[t := p']> (pools s); comm_conn_pool := comm'; links := m' |} held' (<[t := f']> fs) cf'.
Proof.
  intros Hpr HC Hpt Hft HL (Hperm & Hoff & Hk). pose proof Hpr as (Hnd & _).
  destruct (conserved_local all s held fs cf t p f Hpr HC Hpt Hft) as [_ E].
  destruct HC as (Hlen & Hp & Hc & Hcn & Hall & Hm). destruct HL as [Lf Lfn Lc Lcn _ _ _ _ Lch].
  unfold conserved. cbn [pools comm_conn_pool links].
  split; [by rewrite !length_insert |]. split; [|split; [done | split; [done | split]]].
  - intros i q g Hi Hg. destruct (decide (i = t)) as [-> | Hne].
    + rewrite list_lookup_insert_eq in Hi by exact (lookup_lt_Some _ _ _ Hpt).
      rewrite list_lookup_insert_eq in Hg by exact (lookup_lt_Some _ _ _ Hft).
      injection Hi as <-. injection Hg as <-. done.
    + rewrite list_lookup_insert_ne in Hi by congruence. rewrite list_lookup_insert_ne in Hg by congruence. destruct (Hp i q g Hi Hg) as (Hg1 & Hg2 & Hg3).
      split; [|done]. eapply chain_frame; [|exact Hg1]. intros x Hx. apply Hoff. intros Hin.
      rewrite <- E in Hnd. rewrite !app_assoc in Hnd. apply NoDup_app in Hnd as (_ & Hd & _).
      apply (Hd x); [by rewrite <- !app_assoc |]. by eapply elem_of_concat_delete.
  - rewrite (concat_insert fs t f) by done. rewrite <- E.
    transitivity ((f' ++ cf' ++ held') ++ concat (delete t fs)); [solve_Permutation |].
    rewrite Hperm. solve_Permutation.
  - intros x Hx. by apply Hk, Hm.
Qed.

Lemma pool_list all s held fs cf t p : conserved all s held fs cf -> pools s !! t = Some p -> exists f, fs !! t = Some f.
Proof. intros (Hlen & _) Hp. apply lookup_lt_is_Some. rewrite Hlen. by eapply lookup_lt_Some. Qed.

Lemma step_conserved all s held s' held' fs cf :
  proper_conns all -> step (s, held) (s', held') -> conserved all s held fs cf ->
  exists fs' cf', conserved all s' held' fs' cf'.
Proof.
  intros Hpr Hst HC. inversion Hst as [s0 held0 t p c p' comm' m' Hpt Hg | s0 l1 c l2 t p p' comm' m' Hpt Hg |
    s0 held0 t p n Hpt Hn | s0 held0 t p n Hpt Hn]; subst;
    destruct (pool_list _ _ _ _ _ _ _ HC Hpt) as [f Hft];
    destruct (conserved_local _ _ _ _ _ _ _ _ Hpr HC Hpt Hft) as [HL _].
  - destruct (conn_get_spec _ _ _ _ _ _ HL) as (c2 & p2 & comm2 & m2 & f2 & cf2 & Hg2 & HL2 & Hmv & _).
    rewrite Hg in Hg2. injection Hg2 as <- <- <- <-.
    eexists (<[t := f2]> fs), cf2. eapply (conserved_update all s held fs cf t p f);
      [done | done | done | done | by case_bool_decide |].
    eapply moves_perm; [| | exact (moves_app _ _ _ _ held Hmv)]; [solve_Permutation |]. case_bool_decide; solve_Permutation.
  - assert (local p (comm_conn_pool s) (links s) f cf (c :: (l1 ++ l2) ++ concat (delete t fs))) as HL'.
    { eapply local_moves; [exact HL | | apply HL..]. split; [|done]. solve_Permutation. }
    destruct (conn_free_spec _ _ _ _ _ _ _ HL') as (p2 & comm2 & m2 & f2 & cf2 & Hg2 & HL2 & Hmv).
    rewrite Hg in Hg2. injection Hg2 as <- <- <-.
    eexists (<[t := f2]> fs), cf2. eapply (conserved_update all s (l1 ++ c :: l2) fs cf t p f); [done.. |].
    eapply moves_perm; [| | exact (moves_app _ _ _ _ (l1 ++ l2) Hmv)]; solve_Permutation.
  - eexists (<[t := f]> fs), cf. eapply (conserved_update all s held' fs cf t p f); [done.. | | done].
    destruct HL. constructor; try done. cbn [change_n conn_pool_out with_quota]. rewrite s32_small; [lia | unfold is_s32; lia].
  - eexists (<[t := f]> fs), cf. eapply (conserved_update all s held' fs cf t p f); [done.. | | done].
    destruct HL. constructor; try done. cbn [change_n conn_pool_in with_quota]. rewrite s32_small; [lia | unfold is_s32; lia].
Qed.

Lemma steps_conserved all x y fs cf :
  proper_conns all -> rtc step x y -> conserved all x.1 x.2 fs cf -> exists fs' cf', conserved all y.1 y.2 fs' cf'.
Proof.
  intros Hpr Hs. revert fs cf. induction Hs as [x | [s held] [s1 held1] y Hst _ IH]; intros fs cf HC; [by exists fs, cf |].
  destruct (step_conserved _ _ _ _ _ _ _ Hpr Hst HC) as (fs1 & cf1 & HC1). by apply (IH fs1 cf1).
Qed.

(** ** Claims *)

(** [conn_pool_init] on fresh arrays: when the three allocations succeed the pool's free
    list is exactly the connection array in order, [free_connection_n] is its length, and
    every connection has an invalid descriptor and its own pair of events, the read event
    with [instance] set; when one of them fails the result is [NGX_ERROR] and whatever had
    been allocated is freed again. *)
Theorem conn_pool_init_spec pool n ca ra wa h :
  0 < n < 2 ^ 32 -> fresh_array ca (Z.to_nat n) (conns h) ->
  fresh_array ra (Z.to_nat n) (events h) -> fresh_array wa (Z.to_nat n) (events h) ->
  (forall x, x ∈ range ra (Z.to_nat n) -> x ∉ range wa (Z.to_nat n)) ->
  read_events pool = nullptr -> write_events pool = nullptr ->
  exists ok pool' h', conn_pool_init pool n ca ra wa h = Some (ok, pool', h') /\
    if bool_decide (ca <> nullptr /\ ra <> nullptr /\ wa <> nullptr) then
      ok = true /\ free_connection_n pool' = n /\
      chain next (conns h') (free_connections pool') (range ca (Z.to_nat n)) /\
      (forall j, (j < Z.to_nat n)%nat -> ready (Z.to_nat n) ca ra wa h' j)
    else ok = false /\ h' = h /\ free_connection_n pool' = (if bool_decide (ca = nullptr) then free_connection_n pool else 0).
Proof.
  intros Hn Hca Hra Hwa Hd Hr0 Hw0. unfold conn_pool_init. rewrite (proj2 (Z.eqb_neq n 0)) by lia.
  set (k := Z.to_nat n) in *. assert (0 < k)%nat as Hk by lia.
  case_bool_decide as Ec.
  { eexists _, _, _. split; [done |]. rewrite bool_decide_false by tauto. done. }
  case_bool_decide as Er.
  { unfold conn_pool_free. cbn [connection_n connections read_events write_events conns events].
    unfold calloc_conns. rewrite free_calloc by done. rewrite Hw0. cbn [mbind option_bind free_array].
    unfold free_array. rewrite !bool_decide_true by done. cbn [mbind option_bind].
    eexists _, _, _. split; [done |]. rewrite bool_decide_false by tauto. split; [done |].
    split; [by destruct h |]. done. }
  case_bool_decide as Ew.
  { unfold conn_pool_free. cbn [connection_n connections read_events write_events conns events].
    unfold calloc_conns, calloc_events. rewrite free_calloc by done. cbn [mbind option_bind].
    rewrite free_calloc by done. cbn [mbind option_bind]. unfold free_array. rewrite !bool_decide_true by done.
    cbn [mbind option_bind]. eexists _, _, _. split; [done |]. rewrite bool_decide_false by tauto. split; [done |].
    split; [by destruct h |]. done. }
  rewrite bool_decide_true by done.
  destruct (init_loop_spec k ca ra wa k 0 {| conns := calloc_conns ca k (conns h);
      events := calloc_events wa k (calloc_events ra k (events h)) |}) as (h' & Hh & Hready); [lia | done | | lia |].
  { intros j Hj. unfold blank. cbn [conns events]. unfold calloc_conns, calloc_events.
    assert (forall a, elt a j ∈ range a k) as Hin by (intros a; apply elem_of_range; exists j; split; [lia | done]).
    rewrite !lookup_calloc, (bool_decide_false (elt ra j ∈ range wa k)) by (apply Hd, Hin).
    rewrite (bool_decide_true _ (Hin ca)), (bool_decide_true _ (Hin ra)), (bool_decide_true _ (Hin wa)). done. }
  cbn [conns events] in Hh. cbn [conns events]. rewrite Hh. cbn [mbind option_bind].
  eexists _, _, _. split; [done |]. split; [done |]. split; [done |]. split; [|done].
  cbn [free_connections]. pose proof (ready_chain k ca ra wa h' 0 Hready Hk) as Hc.
  rewrite Nat.sub_0_r in Hc. unfold elt in Hc at 1. by rewrite N.add_0_r in Hc.
Qed.

(** C27. Conservation of connections across threads: however the threads' gets, frees and
    quota changes interleave, from a state whose free lists hold the connections [all] every
    connection stays in exactly one place - one thread's free list, the common pool's, or in
    use - and each [free_connection_n] is the length of its list. In every state reached any
    thread can get a connection, which nobody else has, and gets [NULL] only when its list
    is empty and it may not borrow or the common pool is empty; and any thread can free any
    connection in use. *)
Theorem conn_pools_conserve all s0 fs0 cf0 s held :
  proper_conns all -> conserved all s0 [] fs0 cf0 -> rtc step (s0, []) (s, held) ->
  exists fs cf, conserved all s held fs cf /\
    (forall t p, pools s !! t = Some p ->
      exists c p' comm' m', conn_pool_get_connection p (comm_conn_pool s) (links s) = Some (c, p', comm', m') /\
        (c ∉ held) /\ (c <> nullptr -> c ∈ all) /\
        (c = nullptr <-> fs !! t = Some [] /\ (0 <= change_n p \/ cf = []))) /\
    (forall t p c, pools s !! t = Some p -> c ∈ held ->
      is_Some (conn_pool_free_connection p c (comm_conn_pool s) (links s))).
Proof.
  intros Hpr HC0 Hs. destruct (steps_conserved all _ _ _ _ Hpr Hs HC0) as (fs & cf & HC). cbn [fst snd] in HC.
  exists fs, cf. split; [done |]. split.
  - intros t p Hpt. destruct (pool_list _ _ _ _ _ _ _ HC Hpt) as [f Hft].
    destruct (conserved_local _ _ _ _ _ _ _ _ Hpr HC Hpt Hft) as [HL E].
    destruct (conn_get_spec _ _ _ _ _ _ HL) as (c & p' & comm' & m' & f' & cf' & Hg & HL' & Hmv & Hnull).
    exists c, p', comm', m'. split; [done |]. split; [|split].
    + intros Hin. destruct HL' as [_ _ _ _ Hnd _ _ _ _]. case_bool_decide as Ec.
      * destruct Hpr as (_ & Hnn & _). subst c. apply Hnn. rewrite <- E, !elem_of_app. tauto.
      * apply NoDup_app in Hnd as (_ & _ & Hnd). apply NoDup_app in Hnd as (_ & _ & Hnd).
        apply NoDup_cons in Hnd as [Hn _]. apply Hn, elem_of_app. by left.
    + intros Ec. rewrite bool_decide_false in Hmv by done. destruct Hmv as (Hp & _).
      assert (c ∈ f ++ cf) as Hin by (rewrite <- Hp, !elem_of_app, list_elem_of_singleton; tauto).
      rewrite <- E, !elem_of_app. rewrite elem_of_app in Hin. tauto.
    + rewrite Hnull, Hft. naive_solver.
  - intros t p c Hpt (l1 & l2 & ->)%list_elem_of_split. destruct (pool_list _ _ _ _ _ _ _ HC Hpt) as [f Hft].
    destruct (conserved_local _ _ _ _ _ _ _ _ Hpr HC Hpt Hft) as [HL E].
    assert (local p (comm_conn_pool s) (links s) f cf (c :: (l1 ++ l2) ++ concat (delete t fs))) as HL'.
    { eapply local_moves; [exact HL | | apply HL..]. split; [|done]. solve_Permutation. }
    destruct (conn_free_spec _ _ _ _ _ _ _ HL') as (p2 & comm2 & m2 & f2 & cf2 & -> & _). done.
Qed.

(** ** Concrete pools *)

Definition ex_pool (c n change : Z) : conn_pool :=
  {| connections := Z.to_N c; connection_n := n; change_n := change; free_connections := Z.to_N c;
     free_connection_n := n; read_events := 0; write_events := 0; used_n := 0 |}.
Definition ex_conn (nx : ptr) : conn := {| fd := -1; next := nx; read := 0; write := 0 |}.

(** One thread with an empty list that may borrow 2, and three connections in common. *)
Definition ex_sys : sys :=
  {| pools := [ex_pool 0 0 (-2)]; comm_conn_pool := ex_pool 4 3 0;
     links := list_to_map (zip [4; 5; 6] [ex_conn 5; ex_conn 6; ex_conn 0])%N |}.

Lemma ex_conserved : conserved [4; 5; 6]%N ex_sys [] [[]] [4; 5; 6]%N.
Proof.
  split; [done |]. split; [|split; [|split; [done | split; [done |]]]].
  - intros [|t] p f Hp Hf; [|done]. injection Hp as <-. injection Hf as <-. done.
  - repeat (split; [done |]; eexists; split; [reflexivity |]). done.
  - intros x Hx. repeat (apply elem_of_cons in Hx as [-> | Hx]; [by eexists |]). by apply elem_of_nil in Hx.
Qed.

Lemma conn_pool_init_spec_witness :
  exists pool' h', conn_pool_init (ex_pool 0 0 0) 2 10 20 30 {| conns := ∅; events := ∅ |} = Some (true, pool', h') /\
    chain next (conns h') (free_connections pool') [10; 11]%N.
Proof.
  destruct (conn_pool_init_spec (ex_pool 0 0 0) 2 10 20 30 {| conns := ∅; events := ∅ |})
    as (ok & pool' & h' & Hi & Hr).
  - lia.
  - intros x _. done.
  - intros x _. done.
  - intros x _. done.
  - change (Z.to_nat 2) with 2%nat. intros x Hx. apply elem_of_cons in Hx as [-> | [-> | []%elem_of_nil]%elem_of_cons];
      by apply (bool_decide_unpack _); vm_compute.
  - done.
  - done.
  - rewrite bool_decide_true in Hr by done. destruct Hr as (-> & _ & Hc & _). exists pool', h'. split; [exact Hi | exact Hc].
Defined.

Lemma conn_pools_conserve_witness :
  exists s, rtc step (ex_sys, []) (s, [4%N]) /\ exists fs cf, conserved [4; 5; 6]%N s [4%N] fs cf.
Proof.
  destruct (conn_pool_get_connection (ex_pool 0 0 (-2)) (comm_conn_pool ex_sys) (links ex_sys))
    as [[[[c p'] comm'] m']|] eqn:E; [|vm_compute in E; discriminate E].
  set (s := {| pools := [p']; comm_conn_pool := comm'; links := m' |}).
  assert (rtc step (ex_sys, []) (s, [4%N])) as Hs.
  { apply rtc_once. replace [4%N] with (if bool_decide (c = nullptr) then [] else [c])
      by (vm_compute in E; injection E as <- _ _ _; reflexivity).
    apply (StepGet ex_sys [] 0 _ c p' comm' m' eq_refl E). }
  exists s. split; [exact Hs |].
  destruct (conn_pools_conserve [4; 5; 6]%N ex_sys [[]] [4; 5; 6]%N s [4%N]) as (fs & cf & HC & _).
  - split; [by apply (bool_decide_unpack _); vm_compute |]. split; [by apply (bool_decide_unpack _); vm_compute | done].
  - exact ex_conserved.
  - exact Hs.
  - exists fs, cf. exact HC.
Defined.
