(* ===== verification/Rbtree.v ===== *)
(** * Red-black trees ([src/core/dfs_rbtree.cpp])

    Nodes live in a heap from addresses to records, the sentinel among them; every read and
    write through a pointer that holds no node is undefined ([None]). The source writes each
    rebalancing case twice, with left and right exchanged; here a direction is a parameter
    and the two copies are its two instances.

    [rbtree_rep] relates the heap to a functional tree; the rebalancing loops are proved to
    keep its in-order sequence and to restore the colour and height invariants. *)

From stdpp Require Import sorting.
From S2P Require Import Prelude.

Definition RBTREE_COLOR_RED : Z := 1.
Definition RBTREE_COLOR_BLACK : Z := 0.

(* src/src/core/dfs_rbtree.h:11-19 (rbtree_node_s) *)
Record node := { n_key : Z; n_left : ptr; n_right : ptr; n_parent : ptr; n_color : Z }.

(** The [insert] function pointer is a parameter of [rbtree_insert]. *)
(* src/src/core/dfs_rbtree.h:24-29 (rbtree_s) *)
Record rbtree := { root : ptr; sentinel : ptr }.

Abbreviation nodes := (gmap ptr node).

(** ** Fields *)

Inductive dir := L | R.
#[export] Instance dir_eq_dec : EqDecision dir.
Proof. solve_decision. Defined.

Definition opp (d : dir) : dir := match d with L => R | R => L end.

Definition get {A} (f : node -> A) (x : ptr) (m : nodes) : option A := n ← m !! x; Some (f n).
Definition upd (f : node -> node) (x : ptr) (m : nodes) : option nodes := n ← m !! x; Some (<[x := f n]> m).

Definition n_child (d : dir) (n : node) : ptr := match d with L => n_left n | R => n_right n end.
Definition with_key (v : Z) (n : node) : node :=
  {| n_key := v; n_left := n_left n; n_right := n_right n; n_parent := n_parent n; n_color := n_color n |}.
Definition with_child (d : dir) (v : ptr) (n : node) : node :=
  match d with
  | L => {| n_key := n_key n; n_left := v; n_right := n_right n; n_parent := n_parent n; n_color := n_color n |}
  | R => {| n_key := n_key n; n_left := n_left n; n_right := v; n_parent := n_parent n; n_color := n_color n |}
  end.
Definition with_parent (v : ptr) (n : node) : node :=
  {| n_key := n_key n; n_left := n_left n; n_right := n_right n; n_parent := v; n_color := n_color n |}.
Definition with_color (v : Z) (n : node) : node :=
  {| n_key := n_key n; n_left := n_left n; n_right := n_right n; n_parent := n_parent n; n_color := v |}.

Definition child (d : dir) : ptr -> nodes -> option ptr := get (n_child d).
Definition set_child (d : dir) (x v : ptr) : nodes -> option nodes := upd (with_child d v) x.
Definition set_parent (x v : ptr) : nodes -> option nodes := upd (with_parent v) x.

(* src/src/core/dfs_rbtree.h:40-44 (rbtree_red, rbtree_black, rbtree_is_red, rbtree_is_black, rbtree_copy_color) *)
Definition rbtree_is_red (x : ptr) (m : nodes) : option bool := get (fun n => n_color n =? RBTREE_COLOR_RED) x m.
Definition rbtree_is_black (x : ptr) (m : nodes) : option bool := get (fun n => n_color n =? RBTREE_COLOR_BLACK) x m.
Definition rbtree_red (x : ptr) : nodes -> option nodes := upd (with_color RBTREE_COLOR_RED) x.
Definition rbtree_black (x : ptr) : nodes -> option nodes := upd (with_color RBTREE_COLOR_BLACK) x.
Definition rbtree_copy_color (x y : ptr) (m : nodes) : option nodes :=
  c ← get n_color y m; upd (with_color c) x m.

(* src/src/core/dfs_rbtree.cpp:12-32 (rbtree_init, rbtree_sentinel_init) *)
Definition rbtree_init (s : ptr) (m : nodes) : option (rbtree * nodes) :=
  m ← rbtree_black s m; Some ({| root := s; sentinel := s |}, m).

(** ** Rotation

    [rotate L] is [rbtree_left_rotate], [rotate R] is [rbtree_right_rotate]; [*root] is
    passed and returned. *)
(* src/src/core/dfs_rbtree.cpp:375-440 (rbtree_left_rotate, rbtree_right_rotate) *)
Definition rotate (d : dir) (root sentinel node : ptr) (m : nodes) : option (ptr * nodes) :=
  temp ← child (opp d) node m;
  tc ← child d temp m;
  m ← set_child (opp d) node tc m;
  m ← (if bool_decide (tc = sentinel) then Some m else set_parent tc node m);
  np ← get n_parent node m;
  m ← set_parent temp np m;
  '(root, m) ← (
    if bool_decide (node = root) then Some (temp, m)
    else
      np ← get n_parent node m;
      npc ← child d np m;
      m ← set_child (if bool_decide (node = npc) then d else opp d) np temp m;
      Some (root, m));
  m ← set_child d temp node m;
  m ← set_parent node temp m;
  Some (root, m).

(** ** Insertion *)

(** The link [p] at which the descent ends: a child of [temp] that is the sentinel. *)
(* src/src/core/dfs_rbtree.cpp:115-124 (rbtree_insert_value: loop) *)
Fixpoint insert_descend (fuel : nat) (temp node sentinel : ptr) (m : nodes) : option (ptr * dir) :=
  match fuel with
  | O => None
  | S fuel =>
      nk ← get n_key node m; tk ← get n_key temp m;
      let d := if nk <? tk then L else R in
      p ← child d temp m;
      if bool_decide (p = sentinel) then Some (temp, d) else insert_descend fuel p node sentinel m
  end.

(* src/src/core/dfs_rbtree.cpp:110-132 (rbtree_insert_value) *)
Definition rbtree_insert_value (fuel : nat) (temp node sentinel : ptr) (m : nodes) : option nodes :=
  '(temp, d) ← insert_descend fuel temp node sentinel m;
  m ← set_child d temp node m;
  m ← set_parent node temp m;
  m ← set_child L node sentinel m;
  m ← set_child R node sentinel m;
  rbtree_red node m.

(** [rbtree_key_int] is [rbtree_key], so the casts change nothing and the body after the
    null checks is that of [rbtree_insert_value]. *)
(* src/src/core/dfs_rbtree.cpp:134-179 (rbtree_insert_timer_value) *)
Definition rbtree_insert_timer_value (fuel : nat) (root node sentinel : ptr) (m : nodes) : option nodes :=
  if bool_decide (root = nullptr) || bool_decide (node = nullptr) then Some m
  else rbtree_insert_value fuel root node sentinel m.

(** The loop re-balancing the tree after a red [node] was hung into it. *)
(* src/src/core/dfs_rbtree.cpp:60-105 (rbtree_insert: loop) *)
Fixpoint insert_fixup (fuel : nat) (root sentinel node : ptr) (m : nodes) : option (ptr * nodes) :=
  match fuel with
  | O => None
  | S fuel =>
      if bool_decide (node = root) then Some (root, m)
      else
        p ← get n_parent node m;
        red ← rbtree_is_red p m;
        if negb (red : bool) then Some (root, m)
        else
          g ← get n_parent p m;
          gl ← child L g m;
          let d := if bool_decide (p = gl) then L else R in
          temp ← child (opp d) g m;
          red ← rbtree_is_red temp m;
          if (red : bool) then
            m ← rbtree_black p m;
            m ← rbtree_black temp m;
            m ← rbtree_red g m;
            insert_fixup fuel root sentinel g m
          else
            pc ← child (opp d) p m;
            '(node, root, m) ← (
              if bool_decide (node = pc) then '(root, m) ← rotate d root sentinel p m; Some (p, root, m)
              else Some (node, root, m));
            p ← get n_parent node m;
            m ← rbtree_black p m;
            g ← get n_parent p m;
            m ← rbtree_red g m;
            '(root, m) ← rotate (opp d) root sentinel g m;
            insert_fixup fuel root sentinel node m
  end.

(* src/src/core/dfs_rbtree.cpp:34-108 (rbtree_insert) *)
Definition rbtree_insert (insert : nat -> ptr -> ptr -> ptr -> nodes -> option nodes) (fuel : nat)
    (tree : rbtree) (node : ptr) (m : nodes) : option (rbtree * nodes) :=
  if bool_decide (root tree = sentinel tree) then
    m ← set_parent node nullptr m;
    m ← set_child L node (sentinel tree) m;
    m ← set_child R node (sentinel tree) m;
    m ← rbtree_black node m;
    Some ({| root := node; sentinel := sentinel tree |}, m)
  else
    m ← insert fuel (root tree) node (sentinel tree) m;
    '(root, m) ← insert_fixup fuel (root tree) (sentinel tree) node m;
    m ← rbtree_black root m;
    Some ({| root := root; sentinel := sentinel tree |}, m).

(** ** Minimum and deletion *)

(* src/src/core/dfs_rbtree.cpp:448-458 (rbtree_min) *)
Fixpoint rbtree_min (fuel : nat) (node sentinel : ptr) (m : nodes) : option ptr :=
  match fuel with
  | O => None
  | S fuel =>
      l ← child L node m;
      if bool_decide (l = sentinel) then Some node else rbtree_min fuel l sentinel m
  end.

(** [rbtree_is_black(w->left) && rbtree_is_black(w->right)] *)
Definition both_black (w : ptr) (m : nodes) : option bool :=
  wl ← child L w m;
  bl ← rbtree_is_black wl m;
  if (bl : bool) then wr ← child R w m; rbtree_is_black wr m else Some false.

(** The sibling [w] of [temp] is red: rotate, and take the new sibling. *)
(* src/src/core/dfs_rbtree.cpp:297-304 (rbtree_delete: red sibling) *)
Definition delete_red_sibling (d : dir) (root sentinel temp w : ptr) (m : nodes) : option (ptr * ptr * nodes) :=
  red ← rbtree_is_red w m;
  if (red : bool) then
    m ← rbtree_black w m;
    p ← get n_parent temp m;
    m ← rbtree_red p m;
    '(root, m) ← rotate d root sentinel p m;
    p ← get n_parent temp m;
    w ← child (opp d) p m;
    Some (root, w, m)
  else Some (root, w, m).

(** The far child of the sibling is black: rotate, and take the new sibling. *)
(* src/src/core/dfs_rbtree.cpp:313-319 (rbtree_delete: near child red) *)
Definition delete_near_red (d : dir) (root sentinel temp w : ptr) (m : nodes) : option (ptr * ptr * nodes) :=
  wf ← child (opp d) w m;
  bf ← rbtree_is_black wf m;
  if (bf : bool) then
    wn ← child d w m;
    m ← rbtree_black wn m;
    m ← rbtree_red w m;
    '(root, m) ← rotate (opp d) root sentinel w m;
    p ← get n_parent temp m;
    w ← child (opp d) p m;
    Some (root, w, m)
  else Some (root, w, m).

(** The far child of the sibling is red: the last rotation. *)
(* src/src/core/dfs_rbtree.cpp:321-324 (rbtree_delete: far child red) *)
Definition delete_far_red (d : dir) (root sentinel temp w : ptr) (m : nodes) : option (ptr * nodes) :=
  p ← get n_parent temp m;
  m ← rbtree_copy_color w p m;
  m ← rbtree_black p m;
  wf ← child (opp d) w m;
  m ← rbtree_black wf m;
  rotate d root sentinel p m.

(** The rest of an iteration, once the sibling is black. *)
(* src/src/core/dfs_rbtree.cpp:306-326 (rbtree_delete: black sibling) *)
Definition delete_black_sibling (d : dir) (root sentinel temp w : ptr) (m : nodes) : option (ptr * ptr * nodes) :=
  both ← both_black w m;
  if (both : bool) then
    m ← rbtree_red w m;
    p ← get n_parent temp m;
    Some (root, p, m)
  else
    '(root, w, m) ← delete_near_red d root sentinel temp w m;
    '(root, m) ← delete_far_red d root sentinel temp w m;
    Some (root, root, m).

(** The loop re-balancing the tree after a black node above [temp] was taken out; the second
    result is the last [temp]. *)
(* src/src/core/dfs_rbtree.cpp:293-362 (rbtree_delete: loop) *)
Fixpoint delete_fixup (fuel : nat) (root sentinel temp : ptr) (m : nodes) : option (ptr * ptr * nodes) :=
  match fuel with
  | O => None
  | S fuel =>
      if bool_decide (temp = root) then Some (root, temp, m)
      else
        black ← rbtree_is_black temp m;
        if negb (black : bool) then Some (root, temp, m)
        else
          p ← get n_parent temp m;
          pl ← child L p m;
          let d := if bool_decide (temp = pl) then L else R in
          w ← child (opp d) p m;
          '(root, w, m) ← delete_red_sibling d root sentinel temp w m;
          '(root, temp, m) ← delete_black_sibling d root sentinel temp w m;
          delete_fixup fuel root sentinel temp m
  end.

(** [node->left = node->right = node->parent = nullptr; node->key = 0] *)
(* src/src/core/dfs_rbtree.cpp:283-286 (rbtree_delete: clear) *)
Definition clear_node (node : ptr) (m : nodes) : option nodes :=
  m ← set_child L node nullptr m;
  m ← set_child R node nullptr m;
  m ← set_parent node nullptr m;
  upd (with_key 0) node m.

(** [temp], the tree that moves up, and [subst], the node that leaves its place. *)
(* src/src/core/dfs_rbtree.cpp:190-211 (rbtree_delete: temp and subst) *)
Definition delete_choose (fuel : nat) (node sentinel : ptr) (m : nodes) : option (ptr * ptr) :=
  nl ← child L node m; nr ← child R node m;
  if bool_decide (nl = sentinel) then Some (nr, node)
  else if bool_decide (nr = sentinel) then Some (nl, node)
  else
    subst ← rbtree_min fuel nr sentinel m;
    sl ← child L subst m;
    if bool_decide (sl <> sentinel) then Some (sl, subst)
    else sr ← child R subst m; Some (sr, subst).

(** [subst] takes the place of [node]. *)
(* src/src/core/dfs_rbtree.cpp:250-280 (rbtree_delete: subst takes the place) *)
Definition delete_relink (root sentinel node subst : ptr) (m : nodes) : option (ptr * nodes) :=
  nl ← child L node m; m ← set_child L subst nl m;
  nr ← child R node m; m ← set_child R subst nr m;
  np ← get n_parent node m; m ← set_parent subst np m;
  m ← rbtree_copy_color subst node m;
  '(root, m) ← (
    if bool_decide (node = root) then Some (subst, m)
    else
      np ← get n_parent node m;
      npl ← child L np m;
      m ← set_child (if bool_decide (node = npl) then L else R) np subst m;
      Some (root, m));
  sl ← child L subst m;
  m ← (if bool_decide (sl = sentinel) then Some m else set_parent sl subst m);
  sr ← child R subst m;
  m ← (if bool_decide (sr = sentinel) then Some m else set_parent sr subst m);
  Some (root, m).

(* src/src/core/dfs_rbtree.cpp:241-280 (rbtree_delete: subst is not node) *)
Definition delete_replace (root sentinel node subst temp : ptr) (m : nodes) : option (ptr * nodes) :=
  sp ← get n_parent subst m;
  m ← set_parent temp (if bool_decide (sp = node) then subst else sp) m;
  delete_relink root sentinel node subst m.

(* src/src/core/dfs_rbtree.cpp:181-367 (rbtree_delete) *)
Definition rbtree_delete (fuel : nat) (tree : rbtree) (node : ptr) (m : nodes) : option (rbtree * nodes) :=
  let sentinel := sentinel tree in
  '(temp, subst) ← delete_choose fuel node sentinel m;
  if bool_decide (subst = root tree) then
    m ← rbtree_black temp m;
    m ← clear_node node m;
    Some ({| root := temp; sentinel := sentinel |}, m)
  else
    red ← rbtree_is_red subst m;
    sp ← get n_parent subst m;
    spl ← child L sp m;
    m ← set_child (if bool_decide (subst = spl) then L else R) sp temp m;
    '(root, m) ← (
      if bool_decide (subst = node) then
        sp ← get n_parent subst m;
        m ← set_parent temp sp m;
        Some (root tree, m)
      else delete_replace (root tree) sentinel node subst temp m);
    m ← clear_node node m;
    if (red : bool) then Some ({| root := root; sentinel := sentinel |}, m)
    else
      '(root, temp, m) ← delete_fixup fuel root sentinel temp m;
      m ← rbtree_black temp m;
      Some ({| root := root; sentinel := sentinel |}, m).

(** ** Cells of the heap *)

Definition holds (m : nodes) (C : list (ptr * node)) : Prop :=
  NoDup C.*1 /\ forall x n, (x, n) ∈ C -> m !! x = Some n.

#[global] Instance holds_perm m : Proper ((≡ₚ) ==> iff) (holds m).
Proof. intros C C' HC. unfold holds. by setoid_rewrite HC. Qed.

Lemma holds_permute m C C' : C ≡ₚ C' -> holds m C -> holds m C'.
Proof. by intros ->. Qed.

Lemma holds_at m pre x n post : holds m (pre ++ (x, n) :: post) -> m !! x = Some n.
Proof. intros [_ H]. apply H, elem_of_app. right. by left. Qed.

Lemma holds_set m pre x n n' post :
  holds m (pre ++ (x, n) :: post) -> holds (<[x := n']> m) (pre ++ (x, n') :: post).
Proof.
  intros [Hnd H]. split; [by rewrite fmap_app in * |]. rewrite fmap_app, fmap_cons in Hnd.
  rewrite <- Permutation_middle in Hnd. apply NoDup_cons in Hnd as [Hx _]. intros y k Hy.
  assert ((y, k) = (x, n') \/ (y, k) ∈ pre ++ post) as [[= -> ->] | Hin].
  { rewrite <- Permutation_middle in Hy. by apply elem_of_cons in Hy. }
  - apply lookup_insert_eq.
  - rewrite lookup_insert_ne.
    + apply H. rewrite <- Permutation_middle. by right.
    + intros ->. apply Hx. rewrite <- fmap_app. apply list_elem_of_fmap. by exists (y, k).
Qed.

Lemma holds_ne m pre x n mid y k post : holds m (pre ++ (x, n) :: mid ++ (y, k) :: post) -> x <> y.
Proof.
  intros [Hnd _] ->. rewrite fmap_app, fmap_cons, fmap_app, fmap_cons in Hnd.
  apply NoDup_app in Hnd as (_ & _ & Hnd). apply NoDup_cons in Hnd as [Hy _]. apply Hy, elem_of_app.
  right. by left.
Qed.

(** Symbolic execution over an explicit list of cells. *)
Ltac locate C x k :=
  lazymatch C with
  | (x, ?n) :: ?post => k (@nil (ptr * node)) n post
  | ?c :: ?t => locate t x ltac:(fun pre n post => k (c :: pre) n post)
  end.

Ltac cells_ne x y :=
  match goal with
  | H : holds ?m ?C |- _ =>
      locate C x ltac:(fun pre n post =>
        locate post y ltac:(fun mid k post' => exact (holds_ne m pre x n mid y k post' H)))
  | H : holds ?m ?C |- _ =>
      locate C y ltac:(fun pre n post =>
        locate post x ltac:(fun mid k post' => exact (not_eq_sym (holds_ne m pre y n mid x k post' H))))
  end.

Ltac heap_cbn :=
  cbn [mbind option_bind n_key n_left n_right n_parent n_color n_child with_key with_child with_parent with_color opp negb].

Ltac heap_unfold :=
  unfold child, set_child, set_parent, rbtree_is_red, rbtree_is_black, rbtree_red, rbtree_black,
    rbtree_copy_color, get, upd; heap_cbn.

Ltac heap_step :=
  match goal with
  | |- context [bool_decide (?x = ?x)] => rewrite (bool_decide_true (x = x)) by reflexivity; heap_cbn
  | |- context [bool_decide (?x = ?y)] => rewrite (bool_decide_false (x = y)) by first [assumption | cells_ne x y]; heap_cbn
  | H : holds ?m ?C |- context [@insert _ _ _ _ ?x ?n' ?m] =>
      locate C x ltac:(fun pre n post =>
        let H' := fresh H in
        pose proof (holds_set m pre x n n' post H) as H'; cbn [app] in H'; clear H; rename H' into H;
        let m' := fresh "m" in
        set (m' := <[x := n']> m) in *; clearbody m'; clear m || idtac)
  | H : holds ?m ?C |- context [@lookup _ _ _ _ ?x ?m] =>
      locate C x ltac:(fun pre n post => rewrite (holds_at m pre x n post H)); heap_cbn
  end.
Ltac heap_run := heap_unfold; repeat heap_step.

(** ** Trees and contexts *)

Inductive col := Red | Black.
Definition cz (c : col) : Z := match c with Red => RBTREE_COLOR_RED | Black => RBTREE_COLOR_BLACK end.

Inductive tree := E | T (c : col) (l : tree) (x : ptr) (k : Z) (r : tree).

(** [a] on side [d], [b] on the other. *)
Definition mk (d : dir) (c : col) (a : tree) (x : ptr) (k : Z) (b : tree) : tree :=
  match d with L => T c a x k b | R => T c b x k a end.

(** A frame: the hole is on side [f_dir] of the node [f_x], whose other child is [f_sib]. *)
Record frame := { f_dir : dir; f_col : col; f_x : ptr; f_k : Z; f_sib : tree }.
Abbreviation ctx := (list frame).

Definition plug1 (f : frame) (t : tree) : tree := mk (f_dir f) (f_col f) t (f_x f) (f_k f) (f_sib f).
Definition plug (K : ctx) (t : tree) : tree := foldl (fun t f => plug1 f t) t K.

(** Sequences of keys and nodes in the order of the keys. *)
Abbreviation sorted := (StronglySorted (fun u v : Z * ptr => u.1 <= v.1)).
Abbreviation keys_le l k := (Forall (fun u : Z * ptr => u.1 <= k) l).
Abbreviation keys_gt l k := (Forall (fun u : Z * ptr => k < u.1) l).

Section Cells.
Context (s : ptr).

Definition rt (t : tree) : ptr := match t with E => s | T _ _ x _ _ => x end.

Definition mkn (d : dir) (k : Z) (a b : ptr) (par : ptr) (c : col) : node :=
  match d with
  | L => {| n_key := k; n_left := a; n_right := b; n_parent := par; n_color := cz c |}
  | R => {| n_key := k; n_left := b; n_right := a; n_parent := par; n_color := cz c |}
  end.

Fixpoint cells (par : ptr) (t : tree) : list (ptr * node) :=
  match t with
  | E => []
  | T c l x k r => (x, mkn L k (rt l) (rt r) par c) :: cells x l ++ cells x r
  end.

(** The parent of a hole and the root of a tree around it; [r0] is the root's [parent]. *)
Definition up (r0 : ptr) (K : ctx) : ptr := match K with [] => r0 | f :: _ => f_x f end.
Definition top (hp : ptr) (K : ctx) : ptr := match last K with None => hp | Some f => f_x f end.

Fixpoint kcells (r0 hp : ptr) (K : ctx) : list (ptr * node) :=
  match K with
  | [] => []
  | f :: K =>
      (f_x f, mkn (f_dir f) (f_k f) hp (rt (f_sib f)) (up r0 K) (f_col f)) ::
      cells (f_x f) (f_sib f) ++ kcells r0 (f_x f) K
  end.

Lemma rt_mk d c a x k b : rt (mk d c a x k b) = x.
Proof. by destruct d. Qed.

Lemma cells_mk par d c a x k b :
  cells par (mk d c a x k b) ≡ₚ (x, mkn d k (rt a) (rt b) par c) :: cells x a ++ cells x b.
Proof. destruct d; simpl; [done |]. by rewrite (Permutation_app_comm (cells x b)). Qed.

(** Moving the focus up. *)
Lemma refocus r0 f K t :
  cells (up r0 (f :: K)) t ++ kcells r0 (rt t) (f :: K) ≡ₚ
  cells (up r0 K) (plug1 f t) ++ kcells r0 (rt (plug1 f t)) K.
Proof. unfold plug1. rewrite rt_mk, cells_mk. simpl. solve_Permutation. Qed.

(** The tree [plug K t] with its root pointer, the sentinel, whose [parent] is [q], and
    other nodes [X]. *)
Record focus (q : ptr) (m : nodes) (root : ptr) (K : ctx) (t : tree) (X : list (ptr * node)) : Prop := {
  focus_cells : exists sn r0, (n_color sn = RBTREE_COLOR_BLACK /\ n_parent sn = q) /\
    holds m ((s, sn) :: cells (up r0 K) t ++ kcells r0 (rt t) K ++ X);
  focus_root : root = top (rt t) K
}.

Lemma top_cons hp f K : top hp (f :: K) = top (f_x f) K.
Proof. unfold top. rewrite last_cons. by destruct (last K). Qed.

Lemma focus_up q m root f K t X : focus q m root (f :: K) t X <-> focus q m root K (plug1 f t) X.
Proof.
  split; intros [(sn & r0 & Hb & Hh) Hr]; (split; [exists sn, r0; split; [done |] |]).
  - rewrite (app_assoc (cells _ _)), <- refocus, <- app_assoc. done.
  - unfold plug1. rewrite rt_mk. by rewrite top_cons in Hr.
  - rewrite (app_assoc (cells _ _)), refocus, <- app_assoc. done.
  - unfold plug1 in Hr. rewrite rt_mk in Hr. by rewrite top_cons.
Qed.

Lemma focus_plug q m root K t X : focus q m root K t X <-> focus q m root [] (plug K t) X.
Proof. revert t. induction K as [|f K IH]; intros t; [done |]. rewrite focus_up. apply IH. Qed.

Lemma top_in r0 hp K : top hp K = hp \/ top hp K ∈ (kcells r0 hp K).*1.
Proof.
  revert hp. induction K as [|f K IH]; intros hp; [by left |]. right. rewrite top_cons. cbn [kcells].
  rewrite fmap_cons, fmap_app. destruct (IH (f_x f)) as [-> | Hin]; [by left |].
  right. apply elem_of_app. by right.
Qed.

Lemma focus_not_root q m root f K t X x :
  focus q m root (f :: K) t X -> x ∈ (cells (f_x f) t).*1 -> x <> root.
Proof.
  intros [(sn & r0 & _ & [Hnd _]) ->] Hx E. rewrite top_cons in E. cbn [up] in Hnd.
  rewrite fmap_cons, !fmap_app in Hnd. apply NoDup_cons in Hnd as [_ Hnd].
  apply NoDup_app in Hnd as (_ & Hd & _). apply (Hd x Hx). apply elem_of_app. left.
  cbn [kcells]. rewrite fmap_cons, fmap_app, elem_of_cons, elem_of_app.
  destruct (top_in r0 (f_x f) K) as [E' | Hin]; rewrite <- E in *; [by left | tauto].
Qed.
End Cells.

(** Bring the explicit cells of a hypothesis to the front. *)
Ltac flat C k :=
  lazymatch C with
  | ?c :: ?t => flat t ltac:(fun cs ts => k (c :: cs) ts)
  | ?a ++ ?b =>
      flat a ltac:(fun cs1 ts1 => flat b ltac:(fun cs2 ts2 =>
        let cs := eval cbn [app] in (cs1 ++ cs2) in
        let ts := lazymatch ts1 with nil => ts2 | _ => lazymatch ts2 with nil => ts1 | _ => constr:(ts1 ++ ts2) end end in
        k cs ts))
  | nil => k (@nil (ptr * node)) (@nil (ptr * node))
  | ?t => k (@nil (ptr * node)) t
  end.

Ltac open_cells H :=
  cbn [cells kcells mk mkn rt up app f_dir f_col f_x f_k f_sib plug1] in H;
  match type of H with
  | holds ?m ?C =>
      flat C ltac:(fun cs ts =>
        let C' := eval cbn [app] in (cs ++ ts) in
        first [constr_eq C C' | let HE := fresh in
          assert (C ≡ₚ C') as HE by solve_Permutation; rewrite HE in H; clear HE])
  end.

Ltac close_cells H :=
  cbn [cells kcells mk mkn rt up app f_dir f_col f_x f_k f_sib plug1];
  refine (holds_permute _ _ _ _ H); solve_Permutation.

Section Specs.
Context (s q : ptr).
Implicit Types (K : ctx) (a b e t : tree) (X : list (ptr * node)).

Lemma rotate_spec m root K X d c1 c2 a b e x y k j :
  focus s q m root K (mk d c1 a x k (mk d c2 b y j e)) X ->
  exists root' m', rotate d root s x m = Some (root', m') /\
    focus s q m' root' K (mk d c2 (mk d c1 a x k b) y j e) X.
Proof.
  intros HF. unfold rotate. destruct K as [|[df cf g gk sib] K].
  - destruct HF as [(sn & r0 & Hb & H) Hr]. rewrite rt_mk in *.
    destruct d, b as [|cb bl z zk br]; open_cells H; cbn in Hr; subst root; heap_run;
      (eexists _, _; split; [reflexivity |]; split; [exists sn, r0; split; [done |] | done]; close_cells H).
  - assert (x <> root) as Hxr by (eapply focus_not_root; [exact HF |]; destruct d; by left).
    destruct HF as [(sn & r0 & Hb & H) Hr]. rewrite rt_mk in *. rewrite top_cons in Hr. cbn [f_x] in Hr.
    destruct d, b as [|cb bl z zk br], df, sib as [|cs sl w wk sr]; open_cells H; heap_run;
      (eexists _, _; split; [reflexivity |]; split; [exists sn, r0; split; [done |] |]; [close_cells H | by rewrite top_cons]).
Qed.

(** ** Reading and recolouring at the focus *)

Lemma opp_opp d : opp (opp d) = d.
Proof. by destruct d. Qed.

Lemma mk_opp d c a x k b : mk (opp d) c a x k b = mk d c b x k a.
Proof. by destruct d. Qed.

Lemma T_mk d c l x k r : T c l x k r = mk d c (match d with L => l | R => r end) x k (match d with L => r | R => l end).
Proof. by destruct d. Qed.

Definition col_of (t : tree) : col := match t with E => Black | T c _ _ _ _ => c end.

(** The same tree seen from the other child of the innermost frame. *)
Definition swapf (f : frame) (t : tree) : frame :=
  {| f_dir := opp (f_dir f); f_col := f_col f; f_x := f_x f; f_k := f_k f; f_sib := t |}.

Lemma plug1_swap f t : plug1 (swapf f t) (f_sib f) = plug1 f t.
Proof. unfold plug1. apply mk_opp. Qed.

Lemma focus_swap m root f K t X : focus s q m root (f :: K) t X <-> focus s q m root (swapf f t :: K) (f_sib f) X.
Proof. by rewrite !focus_up, plug1_swap. Qed.

Lemma focus_node m root K d c a x k b X :
  focus s q m root K (mk d c a x k b) X ->
  exists r0, m !! x = Some (mkn d k (rt s a) (rt s b) (up r0 K) c).
Proof.
  intros [(sn & r0 & _ & [_ H]) _]. exists r0. apply H. rewrite cells_mk. right. by left.
Qed.

Lemma focus_child m root K d c a x k b X :
  focus s q m root K (mk d c a x k b) X -> child d x m = Some (rt s a) /\ child (opp d) x m = Some (rt s b).
Proof. intros [r0 H]%focus_node. unfold child, get. rewrite H. by destruct d. Qed.

Lemma focus_parent m root f K c l x k r X :
  focus s q m root (f :: K) (T c l x k r) X -> get n_parent x m = Some (f_x f).
Proof. intros [r0 H]%(focus_node _ _ _ L). unfold get. by rewrite H. Qed.

Lemma focus_color m root K t X : focus s q m root K t X -> get n_color (rt s t) m = Some (cz (col_of t)).
Proof.
  intros HF. destruct t as [|c l x k r]; simpl.
  - destruct HF as [(sn & r0 & Hb & [_ H]) _]. unfold get. rewrite (H s sn) by by left. cbn. by rewrite (proj1 Hb).
  - apply (focus_node _ _ _ L) in HF as [r0 H]. unfold get. by rewrite H.
Qed.

Lemma get_map {A B} (f : node -> A) (g : A -> B) x m v : get f x m = Some v -> get (fun n => g (f n)) x m = Some (g v).
Proof. unfold get. intros (n & -> & [= <-])%bind_Some. done. Qed.

Lemma focus_is_red m root K t X :
  focus s q m root K t X -> rbtree_is_red (rt s t) m = Some (match col_of t with Red => true | Black => false end).
Proof. intros H%focus_color. refine (eq_trans (get_map _ (fun z => z =? RBTREE_COLOR_RED) _ _ _ H) _). by destruct (col_of t). Qed.

Lemma focus_is_black m root K t X :
  focus s q m root K t X -> rbtree_is_black (rt s t) m = Some (match col_of t with Red => false | Black => true end).
Proof. intros H%focus_color. refine (eq_trans (get_map _ (fun z => z =? RBTREE_COLOR_BLACK) _ _ _ H) _). by destruct (col_of t). Qed.

Lemma focus_recolor c' m root K c l x k r X :
  focus s q m root K (T c l x k r) X ->
  exists m', upd (with_color (cz c')) x m = Some m' /\ focus s q m' root K (T c' l x k r) X.
Proof.
  intros [(sn & r0 & Hb & H) Hr]. open_cells H. unfold upd.
  rewrite (holds_at m [(s, sn)] x _ _ H). cbn [mbind option_bind]. eexists. split; [done |].
  split; [|exact Hr]. exists sn, r0. split; [done |].
  apply (holds_set m [(s, sn)] x _ (mkn L k (rt s l) (rt s r) (up r0 K) c') _) in H. cbn [app] in H. close_cells H.
Qed.

Lemma focus_recolor_mk c' m root K d c a x k b X :
  focus s q m root K (mk d c a x k b) X ->
  exists m', upd (with_color (cz c')) x m = Some m' /\ focus s q m' root K (mk d c' a x k b) X.
Proof. destruct d; apply focus_recolor. Qed.

(** Blackening the root of any focus, the sentinel included. *)
Definition blacken (t : tree) : tree := match t with E => E | T _ l x k r => T Black l x k r end.

Lemma focus_blacken m root K t X :
  focus s q m root K t X -> exists m', rbtree_black (rt s t) m = Some m' /\ focus s q m' root K (blacken t) X.
Proof.
  intros HF. destruct t as [|c l x k r]; [|by apply (focus_recolor Black) in HF].
  destruct HF as [(sn & r0 & Hb & H) Hr]. unfold rbtree_black, upd. cbn [rt].
  rewrite (holds_at m [] s sn _ H). cbn [mbind option_bind]. eexists. split; [done |]. split; [|exact Hr].
  exists (with_color RBTREE_COLOR_BLACK sn), r0. split; [by destruct Hb |]. exact (holds_set m [] s sn _ _ H).
Qed.

Lemma focus_root_ne m root f K c l x k r X : focus s q m root (f :: K) (T c l x k r) X -> x <> root.
Proof. intros H. eapply focus_not_root; [exact H | by left]. Qed.

Lemma focus_sib_ne m root f K c l x k r X : focus s q m root (f :: K) (T c l x k r) X -> x <> rt s (f_sib f).
Proof.
  intros [(sn & r0 & _ & [Hnd _]) _] E. cbn [up kcells] in Hnd. rewrite fmap_cons, !fmap_app, fmap_cons, fmap_app in Hnd.
  apply NoDup_cons in Hnd as [Hs Hnd]. apply NoDup_app in Hnd as (_ & Hd & _).
  destruct (f_sib f) as [|c' l' y k' r']; simpl in E; subst x.
  - apply Hs, elem_of_app. left. by left.
  - apply (Hd y); [by left |]. apply elem_of_app. left. right. apply elem_of_app. left. by left.
Qed.

(** The test that finds out on which side of its parent a node is. *)
Lemma focus_side m root f K c l x k r X :
  focus s q m root (f :: K) (T c l x k r) X ->
  exists v, child L (f_x f) m = Some v /\ (if bool_decide (x = v) then L else R) = f_dir f.
Proof.
  intros HF. pose proof (focus_sib_ne _ _ _ _ _ _ _ _ _ _ HF) as Hne. apply focus_up in HF. unfold plug1 in HF.
  apply focus_child in HF as [H1 H2]. destruct (f_dir f); simpl in *.
  - eexists. split; [exact H1 |]. by rewrite bool_decide_true.
  - eexists. split; [exact H2 |]. by rewrite bool_decide_false.
Qed.

(** ** In-order sequence and balance *)

Fixpoint inorder (t : tree) : list (Z * ptr) :=
  match t with E => [] | T _ l x k r => inorder l ++ (k, x) :: inorder r end.

Definition bef (f : frame) : list (Z * ptr) := match f_dir f with L => [] | R => inorder (f_sib f) ++ [(f_k f, f_x f)] end.
Definition aft (f : frame) : list (Z * ptr) := match f_dir f with L => (f_k f, f_x f) :: inorder (f_sib f) | R => [] end.

Fixpoint before (K : ctx) : list (Z * ptr) := match K with [] => [] | f :: K => before K ++ bef f end.
Fixpoint after (K : ctx) : list (Z * ptr) := match K with [] => [] | f :: K => aft f ++ after K end.

Lemma inorder_plug1 f t : inorder (plug1 f t) = bef f ++ inorder t ++ aft f.
Proof.
  unfold plug1, bef, aft. destruct (f_dir f); simpl; [done |]. by rewrite app_nil_r, <- app_assoc.
Qed.

Lemma inorder_plug K t : inorder (plug K t) = before K ++ inorder t ++ after K.
Proof.
  revert t. induction K as [|f K IH]; intros t; simpl; [by rewrite app_nil_r |].
  change (plug (f :: K) t) with (plug K (plug1 f t)). by rewrite IH, inorder_plug1, <- !app_assoc.
Qed.

(** [rbt c n t]: [t] is a red-black tree with root colour [c] and black height [n]. *)
Inductive rbt : col -> nat -> tree -> Prop :=
| RbtE : rbt Black 0 E
| RbtRed n l x k r : rbt Black n l -> rbt Black n r -> rbt Red n (T Red l x k r)
| RbtBlack n c1 c2 l x k r : rbt c1 n l -> rbt c2 n r -> rbt Black (S n) (T Black l x k r).

(** [kok K n]: the context takes a tree of black height [n] (black under a red frame); a red
    frame is below a black one. *)
Fixpoint kok (K : ctx) (n : nat) : Prop :=
  match K with
  | [] => True
  | f :: K =>
      match f_col f with
      | Red => rbt Black n (f_sib f) /\ kok K n /\ match K with [] => False | g :: _ => f_col g = Black end
      | Black => (exists c, rbt c n (f_sib f)) /\ kok K (S n)
      end
  end.

Definition under (K : ctx) (c : col) : Prop :=
  match K with f :: _ => f_col f = Black \/ c = Black | [] => True end.

Lemma rbt_col c n t : rbt c n t -> col_of t = c.
Proof. by intros []. Qed.

Lemma rbt_mk_red d n a x k b : rbt Black n a -> rbt Black n b -> rbt Red n (mk d Red a x k b).
Proof. destruct d; by constructor. Qed.
Lemma rbt_mk_black d n c1 c2 a x k b : rbt c1 n a -> rbt c2 n b -> rbt Black (S n) (mk d Black a x k b).
Proof. destruct d; by econstructor. Qed.
Lemma rbt_red_inv d n a x k b : rbt Red n (mk d Red a x k b) -> rbt Black n a /\ rbt Black n b.
Proof. destruct d; by inversion 1. Qed.
Lemma rbt_black_inv d n a x k b :
  rbt Black n (mk d Black a x k b) -> exists n' c1 c2, n = S n' /\ rbt c1 n' a /\ rbt c2 n' b.
Proof. destruct d; inversion 1; subst; eauto 10. Qed.

Lemma rbt_plug K c n t : rbt c n t -> kok K n -> under K c -> exists c' n', rbt c' n' (plug K t) /\ (K <> [] -> c' = Black).
Proof.
  revert c n t. induction K as [|f K IH]; intros c n t Ht HK Hu; [by exists c, n |].
  change (plug (f :: K) t) with (plug K (plug1 f t)). cbn [kok under] in *. unfold plug1.
  destruct (f_col f) eqn:Ef.
  - destruct HK as (Hs & HK & Hg). destruct Hu as [? | ->]; [done |].
    destruct (IH Red n (mk (f_dir f) Red t (f_x f) (f_k f) (f_sib f))) as (c' & n' & Hr & Hb);
      [by apply rbt_mk_red | done | by destruct K as [|g K]; [| left] |].
    exists c', n'. split; [done |]. intros _. apply Hb. by destruct K.
  - destruct HK as ((cs & Hs) & HK).
    destruct (IH Black (S n) (mk (f_dir f) Black t (f_x f) (f_k f) (f_sib f))) as (c' & n' & Hr & Hb);
      [by eapply rbt_mk_black | done | by destruct K; [| right] |].
    exists c', n'. split; [done |]. intros _. destruct K as [|g K]; [|by apply Hb].
    rewrite <- (rbt_col _ _ _ Hr). by destruct (f_dir f).
Qed.

(** ** Re-balancing after an insertion *)

Lemma focus_up_mk m root d c p k b K t X :
  focus s q m root ({| f_dir := d; f_col := c; f_x := p; f_k := k; f_sib := b |} :: K) t X ->
  focus s q m root K (mk d c t p k b) X.
Proof. exact (proj1 (focus_up s q m root _ K t X)). Qed.

Lemma focus_down_mk m root d c p k b K t X :
  focus s q m root K (mk d c t p k b) X ->
  focus s q m root ({| f_dir := d; f_col := c; f_x := p; f_k := k; f_sib := b |} :: K) t X.
Proof. exact (proj2 (focus_up s q m root {| f_dir := d; f_col := c; f_x := p; f_k := k; f_sib := b |} K t X)). Qed.

Lemma focus_parent_mk m root f K d c a x k b X :
  focus s q m root (f :: K) (mk d c a x k b) X -> get n_parent x m = Some (f_x f).
Proof. destruct d; apply focus_parent. Qed.

Lemma focus_root_ne_mk m root f K d c a x k b X : focus s q m root (f :: K) (mk d c a x k b) X -> x <> root.
Proof. destruct d; apply focus_root_ne. Qed.

Lemma focus_side_mk m root f K d c a x k b X :
  focus s q m root (f :: K) (mk d c a x k b) X ->
  exists v, child L (f_x f) m = Some v /\ (if bool_decide (x = v) then L else R) = f_dir f.
Proof. destruct d; apply focus_side. Qed.

Lemma col_of_mk d c a x k b : col_of (mk d c a x k b) = c.
Proof. by destruct d. Qed.

Lemma focus_is_red_mk m root K d c a x k b X :
  focus s q m root K (mk d c a x k b) X -> rbtree_is_red x m = Some (match c with Red => true | Black => false end).
Proof. intros H%focus_is_red. by rewrite rt_mk, col_of_mk in H. Qed.

(** Both frames lean to side [d], perhaps after a first rotation. *)
Lemma insert_straight m root K d c p pk sf g gk sg t X :
  focus s q m root K (mk d c (mk d Red t p pk sf) g gk sg) X ->
  exists m1 m2 root' m3, rbtree_black p m = Some m1 /\ get n_parent p m1 = Some g /\
    rbtree_red g m1 = Some m2 /\ rotate (opp d) root s g m2 = Some (root', m3) /\
    focus s q m3 root' K (mk d Black t p pk (mk (opp d) Red sg g gk sf)) X.
Proof.
  intros HF. apply focus_down_mk, (focus_recolor_mk Black) in HF as (m1 & Hm1 & HF).
  pose proof (focus_parent_mk _ _ _ _ _ _ _ _ _ _ _ HF) as Hp.
  apply focus_up_mk, (focus_recolor_mk Red) in HF as (m2 & Hm2 & HF).
  rewrite <- (mk_opp d Red), <- (mk_opp d Black) in HF. apply rotate_spec in HF as (root' & m3 & Hr & HF).
  rewrite (mk_opp d Black) in HF. exists m1, m2, root', m3. done.
Qed.

Lemma insert_fixup_black fuel m root K df p pk sf d a x k b X :
  focus s q m root K (mk df Black (mk d Red a x k b) p pk sf) X -> insert_fixup (S fuel) root s x m = Some (root, m).
Proof.
  intros HF. cbn [insert_fixup]. pose proof (focus_is_red_mk _ _ _ _ _ _ _ _ _ _ HF) as Hc. apply focus_down_mk in HF.
  rewrite bool_decide_false by by eapply focus_root_ne_mk.
  rewrite (focus_parent_mk _ _ _ _ _ _ _ _ _ _ _ HF). cbn [mbind option_bind f_x]. by rewrite Hc.
Qed.

(** The result of the loop: same sequence, balanced. *)
Definition fixed (r : option (ptr * nodes)) (X : list (ptr * node)) (seq : list (Z * ptr)) : Prop :=
  exists root m t c n, r = Some (root, m) /\ focus s q m root [] t X /\ inorder t = seq /\ rbt c n t.

Lemma fixed_plug m root K t X c n seq :
  focus s q m root K t X -> rbt c n t -> kok K n -> under K c -> inorder (plug K t) = seq ->
  fixed (Some (root, m)) X seq.
Proof.
  intros HF Ht HK Hu Hs. destruct (rbt_plug K c n t Ht HK Hu) as (c' & n' & Hr & _).
  exists root, m, (plug K t), c', n'. split; [done |]. by apply focus_plug in HF.
Qed.

Lemma insert_red_uncle m root K dg g gk t cu ul u uk ur X :
  focus s q m root K (mk dg Black t g gk (T cu ul u uk ur)) X -> t <> E ->
  exists m1 m2 m3, rbtree_black (rt s t) m = Some m1 /\ rbtree_black u m1 = Some m2 /\ rbtree_red g m2 = Some m3 /\
    focus s q m3 root K (mk dg Red (blacken t) g gk (T Black ul u uk ur)) X.
Proof.
  intros HF Ht. apply focus_down_mk, focus_blacken in HF as (m1 & Hm1 & HF).
  apply focus_swap in HF. cbn [f_sib] in HF. apply (focus_recolor Black) in HF as (m2 & Hm2 & HF).
  unfold swapf in HF. cbn [f_dir f_col f_x f_k] in HF. apply focus_up_mk in HF. rewrite mk_opp in HF.
  apply (focus_recolor_mk Red) in HF as (m3 & Hm3 & HF). exists m1, m2, m3. done.
Qed.

Lemma inorder_mk d c a x k b :
  inorder (mk d c a x k b) = match d with L => inorder a ++ (k, x) :: inorder b | R => inorder b ++ (k, x) :: inorder a end.
Proof. by destruct d. Qed.

Lemma inorder_straight d t p pk sf g gk sg c :
  inorder (mk d Black t p pk (mk (opp d) Red sg g gk sf)) = inorder (mk d c (mk d Red t p pk sf) g gk sg).
Proof. destruct d; simpl; by repeat (rewrite <- app_assoc; simpl). Qed.

(** The first rotation, when [node] and its parent lean to different sides. *)
Lemma insert_zigzag d x k a b p pk sf c g gk sg :
  inorder (mk d c (mk d Red (mk d Red sf p pk a) x k b) g gk sg) =
  inorder (mk d c (mk (opp d) Red (mk d Red a x k b) p pk sf) g gk sg).
Proof. destruct d; simpl; by repeat (rewrite <- app_assoc; simpl). Qed.

Lemma inorder_plug_eq K t t' : inorder t = inorder t' -> inorder (plug K t) = inorder (plug K t').
Proof. intros H. by rewrite !inorder_plug, H. Qed.

Lemma insert_fixup_spec fuel m root K d a x k b X n :
  focus s q m root K (mk d Red a x k b) X -> rbt Red n (mk d Red a x k b) -> kok K n -> (length K < fuel)%nat ->
  fixed (insert_fixup fuel root s x m) X (inorder (plug K (mk d Red a x k b))).
Proof.
  revert m root K d a x k b n. induction fuel as [|fuel IH]; intros m root K d a x k b n HF Ht HK Hfu; [lia |].
  destruct K as [|[df cf p pk sf] K].
  { cbn [insert_fixup]. pose proof HF as [_ Hr]. rewrite rt_mk in Hr. cbn in Hr. rewrite bool_decide_true by done.
    by eapply fixed_plug. }
  destruct cf.
  2: { rewrite (insert_fixup_black fuel m root K df p pk sf d a x k b X) by by apply focus_up_mk in HF.
       eapply fixed_plug; [exact HF | done | done | by left | done]. }
  cbn [kok f_col f_sib] in HK. destruct HK as (Hsf & HK & Hg). destruct K as [|[dg cg g gk sg] K]; [done |].
  cbn [f_col] in Hg. subst cg. cbn [kok f_col f_sib] in HK. destruct HK as ((cs & Hsg) & HK). simpl length in Hfu.
  cbn [insert_fixup]. rewrite bool_decide_false by by eapply focus_root_ne_mk.
  rewrite (focus_parent_mk _ _ _ _ _ _ _ _ _ _ _ HF). cbn [mbind option_bind f_x].
  pose proof HF as HFp. apply focus_up_mk in HFp.
  rewrite (focus_is_red_mk _ _ _ _ _ _ _ _ _ _ HFp). cbn [mbind option_bind negb].
  rewrite (focus_parent_mk _ _ _ _ _ _ _ _ _ _ _ HFp). cbn [mbind option_bind f_x].
  destruct (focus_side_mk _ _ _ _ _ _ _ _ _ _ _ HFp) as (v & Hv & Hdg). cbn [f_x f_dir] in Hv, Hdg.
  rewrite Hv. cbn [mbind option_bind]. rewrite Hdg. clear v Hv Hdg.
  pose proof HFp as HFs. apply focus_swap in HFs. apply focus_is_red in HFs. cbn [f_sib] in HFs.
  apply focus_up_mk in HFp. destruct (focus_child _ _ _ _ _ _ _ _ _ _ HFp) as [_ Hc]. rewrite Hc. clear Hc.
  cbn [mbind option_bind]. rewrite HFs. clear HFs. cbn [mbind option_bind]. rewrite (rbt_col _ _ _ Hsg). destruct cs.
  - (* a red uncle: recolour and go on from the grandparent *)
    destruct sg as [|cu ul u uk ur]; [by inversion Hsg |].
    destruct (insert_red_uncle _ _ _ _ _ _ _ _ _ _ _ _ _ HFp) as (m1 & m2 & m3 & H1 & H2 & H3 & HF3); [by destruct df |].
    rewrite rt_mk in H1. cbn [rt]. rewrite H1. cbn [mbind option_bind]. rewrite H2. cbn [mbind option_bind]. rewrite H3.
    cbn [mbind option_bind]. pose proof (IH _ _ _ _ _ _ _ _ (S n) HF3) as Hfix.
    replace (inorder (plug _ (mk d Red a x k b))) with
      (inorder (plug K (mk dg Red (blacken (mk df Red (mk d Red a x k b) p pk sf)) g gk (T Black ul u uk ur)))); [apply Hfix; [|done | lia] |].
    + apply rbt_mk_red; [|inversion Hsg; subst; by econstructor].
      assert (blacken (mk df Red (mk d Red a x k b) p pk sf) = mk df Black (mk d Red a x k b) p pk sf) as -> by by destruct df.
      by eapply rbt_mk_black.
    + apply (inorder_plug_eq K). unfold plug1. cbn [f_dir f_col f_x f_k f_sib]. by destruct dg, df.
  - (* a black uncle: one or two rotations *)
    assert (child (opp dg) p m = Some (if decide (df = dg) then rt s sf else x)) as Hpc.
    { apply focus_down_mk, focus_child in HFp as [H1 H2]. rewrite rt_mk in H1. destruct df, dg; done. }
    rewrite Hpc. cbn [mbind option_bind]. clear Hpc.
    assert (under K Black) as HuK by (destruct K; [| right]; done).
    destruct (decide (df = dg)) as [-> | Hne].
    + rewrite bool_decide_false.
      2: { pose proof (focus_sib_ne m root {| f_dir := dg; f_col := Red; f_x := p; f_k := pk; f_sib := sf |}) as Hne.
           destruct d; by eapply Hne. }
      cbn [mbind option_bind]. rewrite (focus_parent_mk _ _ _ _ _ _ _ _ _ _ _ HF). cbn [mbind option_bind f_x].
      destruct (insert_straight _ _ _ _ _ _ _ _ _ _ _ _ _ HFp) as (m1 & m2 & root' & m3 & H1 & H2 & H3 & H4 & HF4).
      rewrite H1. cbn [mbind option_bind]. rewrite H2. cbn [mbind option_bind]. rewrite H3. cbn [mbind option_bind].
      rewrite H4. cbn [mbind option_bind]. destruct fuel as [|fuel]; [lia |].
      rewrite (insert_fixup_black fuel m3 root' K dg p pk (mk (opp dg) Red sg g gk sf) d a x k b X) by done.
      eapply fixed_plug; [exact HF4 | by eapply rbt_mk_black; [| apply rbt_mk_red] | done | done |].
      apply (inorder_plug_eq K), inorder_straight.
    + assert (df = opp dg) as -> by by destruct df, dg.
      rewrite bool_decide_true by done. 
      assert (mk d Red a x k b = mk dg Red (if decide (d = dg) then a else b) x k (if decide (d = dg) then b else a)) as Ex
        by by destruct d, dg.
      rewrite Ex in *. set (a' := if decide (d = dg) then a else b) in *. set (b' := if decide (d = dg) then b else a) in *.
      clearbody a' b'. clear Ex.
      pose proof HFp as HFr. apply focus_down_mk in HFr. rewrite mk_opp in HFr.
      apply rotate_spec in HFr as (root1 & m0 & Hr & HFr). rewrite Hr. cbn [mbind option_bind].
      apply rbt_red_inv in Ht as [Ha Hb]. pose proof HFr as HFx. apply focus_down_mk in HFx.
      rewrite (focus_parent_mk _ _ _ _ _ _ _ _ _ _ _ HFx). cbn [mbind option_bind f_x]. clear HFx.
      pose proof HFr as HFy. apply focus_up_mk in HFy.
      destruct (insert_straight _ _ _ _ _ _ _ _ _ _ _ _ _ HFy) as (m1 & m2 & root' & m3 & H1 & H2 & H3 & H4 & HF4).
      rewrite H1. cbn [mbind option_bind]. rewrite H2. cbn [mbind option_bind]. rewrite H3. cbn [mbind option_bind].
      rewrite H4. cbn [mbind option_bind]. destruct fuel as [|fuel]; [lia |].
      rewrite (insert_fixup_black fuel m3 root' K dg x k (mk (opp dg) Red sg g gk b') dg sf p pk a' X) by done.
      eapply fixed_plug; [exact HF4 | | done | done |].
      * eapply rbt_mk_black; by apply rbt_mk_red.
      * apply (inorder_plug_eq K). etransitivity; [apply (inorder_straight dg _ _ _ _ _ _ _ Black) |]. apply insert_zigzag.
Qed.

(** ** Descent and insertion *)

Fixpoint height (t : tree) : nat := match t with E => 0 | T _ l _ _ r => S (height l `max` height r) end.

Lemma height_mk d c a x k b : height (mk d c a x k b) = S (height a `max` height b).
Proof. destruct d; simpl; lia. Qed.

Lemma kok_down K d cc a y k b c n :
  rbt c n (mk d cc a y k b) -> kok K n -> under K c -> (K = [] -> c = Black) ->
  exists ca na, rbt ca na a /\ kok ({| f_dir := d; f_col := cc; f_x := y; f_k := k; f_sib := b |} :: K) na /\
    (cc = Black \/ ca = Black).
Proof.
  intros Ht HK Hu Htop. assert (c = cc) as -> by (rewrite <- (rbt_col _ _ _ Ht); apply col_of_mk).
  cbn [kok f_col f_sib]. destruct cc.
  - apply rbt_red_inv in Ht as [Ha Hb]. exists Black, n. split; [done |]. split; [|by right].
    split; [done |]. split; [done |]. destruct K as [|g K]; [by specialize (Htop eq_refl) | by destruct Hu].
  - apply rbt_black_inv in Ht as (n' & c1 & c2 & -> & Ha & Hb). exists c1, n'. split; [done |]. split; [|by left]. eauto.
Qed.

Lemma sorted_app l1 l2 : sorted (l1 ++ l2) <-> sorted l1 /\ sorted l2 /\ forall u v, u ∈ l1 -> v ∈ l2 -> u.1 <= v.1.
Proof.
  induction l1 as [|e l1 IH]; simpl.
  - split; [|tauto]. intros H. split; [constructor |]. split; [done |]. by intros u v ?%elem_of_nil.
  - split.
    + intros [Hs Hf]%StronglySorted_inv. apply IH in Hs as (H1 & H2 & H3). rewrite Forall_app, !Forall_forall in Hf.
      destruct Hf as [Hf1 Hf2]. split; [constructor; [done | by apply Forall_forall] |]. split; [done |].
      intros u v [-> | H]%elem_of_cons; auto.
    + intros (H1 & H2 & H3). apply StronglySorted_inv in H1 as [H1 Hf]. constructor.
      * apply IH. split; [done |]. split; [done |]. intros u v Hu. apply H3. by right.
      * apply Forall_app. split; [done |]. apply Forall_forall. intros v Hv. apply H3; [by left | done].
Qed.

(** The descent ends at the hole after the keys that are at most the new one. *)
Lemma insert_descend_spec m root x nx X t K c n fuel :
  focus s q m root K t ((x, nx) :: X) -> t <> E -> (height t <= fuel)%nat ->
  rbt c n t -> kok K n -> under K c -> (K = [] -> c = Black) -> sorted (inorder t) ->
  keys_le (before K) (n_key nx) -> keys_gt (after K) (n_key nx) ->
  exists d f K', insert_descend fuel (rt s t) x s m = Some (f_x f, d) /\ f_dir f = d /\
    focus s q m root (f :: K') E ((x, nx) :: X) /\ plug (f :: K') E = plug K t /\ kok (f :: K') 0 /\
    keys_le (before (f :: K')) (n_key nx) /\ keys_gt (after (f :: K')) (n_key nx) /\
    (length (f :: K') <= length K + height t)%nat.
Proof.
  revert K t c n. induction fuel as [|fuel IH]; intros K t c n HF Hne Hh Ht HK Hu Htop Hs Hle Hgt;
    destruct t as [|ct l y k r]; try done; [simpl in Hh; lia |].
  cbn [insert_descend rt].
  assert (get n_key x m = Some (n_key nx)) as ->.
  { destruct HF as [(sn & r0 & _ & [_ H]) _]. unfold get. rewrite (H x nx); [done |].
    right. rewrite !elem_of_app. do 2 right. by left. }
  assert (get n_key y m = Some k) as ->.
  { pose proof HF as HF'. apply (focus_node _ _ _ L) in HF' as [r0 H]. unfold get. by rewrite H. }
  cbn [mbind option_bind]. cbn [inorder] in Hs. apply sorted_app in Hs as (Hsl & [Hsr Hkr]%StronglySorted_inv & Hlr).
  set (d := if n_key nx <? k then L else R). rewrite (T_mk d) in HF, Ht.
  set (a := match d with L => l | R => r end) in *. set (b := match d with L => r | R => l end) in *.
  destruct (focus_child _ _ _ _ _ _ _ _ _ _ HF) as [-> _]. cbn [mbind option_bind].
  destruct (kok_down _ _ _ _ _ _ _ _ _ Ht HK Hu Htop) as (ca & na & Ha & HKa & Hca).
  apply focus_down_mk in HF. set (f := {| f_dir := d |}) in *.
  assert (keys_le (before (f :: K)) (n_key nx) /\ keys_gt (after (f :: K)) (n_key nx)) as [Hle' Hgt'].
  { cbn [before after]. unfold f, bef, aft, d. cbn [f_dir f_sib f_k f_x].
    destruct (Z.ltb_spec (n_key nx) k) as [Hlt | Hge]; rewrite ?app_nil_r; simpl; (split; [try done |]); try done.
    - constructor; [done |]. apply Forall_app. split; [|done]. apply Forall_forall. intros u Hin.
      rewrite Forall_forall in Hkr. specialize (Hkr u). simpl in Hkr. enough (k <= u.1) by lia. apply Hkr. done.
    - apply Forall_app. split; [done |]. apply Forall_app. split; [|by repeat constructor].
      apply Forall_forall. intros u Hin. specialize (Hlr u (k, y)). simpl in Hlr.
      enough (u.1 <= k) by lia. apply Hlr; [done | by left]. }
  assert (S (height a) <= height (T ct l y k r))%nat as Hha by (rewrite (T_mk d), height_mk; fold a b; lia).
  assert (a = E \/ a <> E) as [Ea | Hna] by (destruct a; auto).
  - rewrite bool_decide_true by by rewrite Ea. exists d, f, K. split; [done |]. split; [done |].
    rewrite Ea in HF, Ha. split; [done |]. split.
    { change (plug (f :: K) E) with (plug K (plug1 f E)). unfold plug1, f. cbn [f_dir f_col f_x f_k f_sib].
      rewrite <- Ea. unfold a, b. by rewrite <- T_mk. }
    split; [by inversion Ha; subst |]. split; [done |]. split; [done |]. simpl in *. lia.
  - rewrite bool_decide_false.
    2: { destruct a as [|c' l' z k' r']; [done |]. intros E. destruct HF as [(sn & r0 & _ & [Hnd _]) _].
         simpl in E. subst z. apply NoDup_cons in Hnd as [Hn _]. apply Hn. by left. }
    destruct (IH (f :: K) a ca na) as (d' & f' & K' & Hd & Hfd & HF' & Hp & HK' & Hle2 & Hgt2 & Hl);
      [done | done | lia | done | done | by destruct Hca; [left | right] | done | | done | done |].
    { unfold a, d. by destruct (n_key nx <? k). }
    exists d', f', K'. split; [done |]. split; [done |]. split; [done |]. split.
    { rewrite Hp. change (plug (f :: K) a) with (plug K (plug1 f a)). unfold plug1, f. cbn [f_dir f_col f_x f_k f_sib].
      unfold a, b. by rewrite <- T_mk. }
    split; [done |]. split; [done |]. split; [done |]. simpl in *. lia.
Qed.

Lemma insert_value_spec m root x nx X t fuel :
  focus s q m root [] t ((x, nx) :: X) -> t <> E -> (height t <= fuel)%nat ->
  (exists n, rbt Black n t) -> sorted (inorder t) ->
  exists m' K, rbtree_insert_value fuel (rt s t) x s m = Some m' /\
    focus s q m' root K (T Red E x (n_key nx) E) X /\ plug K E = t /\ kok K 0 /\
    keys_le (before K) (n_key nx) /\ keys_gt (after K) (n_key nx) /\ (length K <= height t)%nat.
Proof.
  intros HF Hne Hh [n Ht] Hs.
  destruct (insert_descend_spec m root x nx X t [] Black n fuel HF Hne Hh Ht) as
    (d & [df cf p pk sf] & K & Hd & Hfd & HF' & Hp & HK & Hle & Hgt & Hl); [done | done | done | done | constructor.. |].
  unfold rbtree_insert_value. rewrite Hd. cbn [mbind option_bind f_x]. cbn [f_dir] in Hfd. subst df.
  destruct HF' as [(sn & r0 & Hb & H) Hr]. rewrite top_cons in Hr. cbn [f_x] in Hr.
  assert (exists m', (m0 ← set_child d p x m; m0 ← set_parent x p m0; m0 ← set_child L x s m0;
      m0 ← set_child R x s m0; rbtree_red x m0) = Some m' /\
    holds m' ((s, sn) :: cells s p (T Red E x (n_key nx) E) ++
      kcells s r0 x ({| f_dir := d; f_col := cf; f_x := p; f_k := pk; f_sib := sf |} :: K) ++ X)) as (m' & Hm & H').
  { destruct d; open_cells H; heap_run; (eexists; split; [reflexivity |]); close_cells H. }
  exists m'. eexists. split; [exact Hm |]. split; [|repeat (split; [done |]); exact Hl].
  split; [exists sn, r0; split; [done | exact H'] |]. by rewrite top_cons.
Qed.

(** ** Re-balancing after a deletion *)

Lemma focus_other m root d c p k b K t X :
  focus s q m root ({| f_dir := d; f_col := c; f_x := p; f_k := k; f_sib := b |} :: K) t X ->
  focus s q m root ({| f_dir := opp d; f_col := c; f_x := p; f_k := k; f_sib := t |} :: K) b X.
Proof. intros HF. apply focus_up_mk in HF. apply focus_down_mk. by rewrite mk_opp. Qed.

Lemma focus_back m root d c p k b K t X :
  focus s q m root ({| f_dir := opp d; f_col := c; f_x := p; f_k := k; f_sib := t |} :: K) b X ->
  focus s q m root ({| f_dir := d; f_col := c; f_x := p; f_k := k; f_sib := b |} :: K) t X.
Proof. intros HF. apply focus_up_mk in HF. apply focus_down_mk. by rewrite mk_opp in HF. Qed.

(** The node of the hole, or the sentinel, with its [parent] set to the hole's. *)
Definition parent_set K t : Prop := match t, K with E, f :: _ => q = f_x f | _, _ => True end.

Lemma focus_parent_gen m root f K t X :
  focus s q m root (f :: K) t X -> parent_set (f :: K) t -> get n_parent (rt s t) m = Some (f_x f).
Proof.
  intros HF Hp. destruct t as [|c l x k r]; [|by eapply focus_parent].
  destruct HF as [(sn & r0 & [_ Hq] & [_ H]) _]. simpl. unfold get. rewrite (H s sn) by by left.
  simpl in *. congruence.
Qed.

Lemma focus_root_ne_gen m root f K t X : focus s q m root (f :: K) t X -> rt s t <> root.
Proof.
  intros HF. destruct t as [|c l x k r]; [|by eapply focus_root_ne].
  destruct HF as [(sn & r0 & _ & [Hnd _]) ->]. simpl. rewrite top_cons. intros E.
  cbn [cells app] in Hnd. rewrite fmap_cons in Hnd. apply NoDup_cons in Hnd as [Hn _]. apply Hn.
  rewrite fmap_app, elem_of_app. left. cbn [kcells]. rewrite fmap_cons, fmap_app, elem_of_cons, elem_of_app.
  cbn [fst]. destruct (top_in s r0 (f_x f) K) as [E' | Hin]; rewrite <- E in *; [by left | tauto].
Qed.

Lemma focus_side_gen m root f K t X :
  focus s q m root (f :: K) t X -> f_sib f <> E ->
  exists v, child L (f_x f) m = Some v /\ (if bool_decide (rt s t = v) then L else R) = f_dir f.
Proof.
  intros HF Hs. destruct t as [|c l x k r]; [|by eapply focus_side].
  pose proof HF as HF'. apply focus_swap in HF'. destruct (f_sib f) as [|c' l' y k' r'] eqn:Ef; [done |].
  pose proof (focus_sib_ne _ _ _ _ _ _ _ _ _ _ HF') as Hne. cbn [swapf f_sib rt] in Hne.
  apply focus_up in HF. unfold plug1 in HF. apply focus_child in HF as [H1 H2]. rewrite Ef in H2.
  destruct (f_dir f); simpl in *.
  - eexists. split; [exact H1 |]. by rewrite bool_decide_true.
  - eexists. split; [exact H2 |]. by rewrite bool_decide_false by congruence.
Qed.

Definition is_blk t : bool := match col_of t with Black => true | Red => false end.

Lemma focus_both_black m root K d c a x k b X :
  focus s q m root K (mk d c a x k b) X ->
  both_black x m = Some (is_blk a && is_blk b).
Proof.
  intros HF. unfold both_black. pose proof (focus_child _ _ _ _ _ _ _ _ _ _ HF) as [H1 H2].
  pose proof HF as HFa. apply focus_down_mk in HFa. pose proof HFa as HFb. apply focus_other in HFb.
  apply focus_is_black in HFa, HFb. unfold is_blk in *.
  destruct d; cbn [opp] in H2; rewrite ?H1, ?H2; cbn [mbind option_bind];
    rewrite ?HFa, ?HFb; cbn [mbind option_bind]; by destruct (col_of a), (col_of b).
Qed.

Lemma rbt_col_inv c n t : rbt c n t -> c = Red -> exists d l x k r, t = mk d Red l x k r.
Proof. intros [| |] ?; [done | | done]. by exists L, l, x, k, r. Qed.

Lemma rbt_plug_black K n t : rbt Black n t -> kok K n -> exists n', rbt Black n' (plug K t).
Proof.
  intros Ht HK. destruct (rbt_plug K Black n t Ht HK) as (c' & n' & Hr & Hb).
  - destruct K; [done | by right].
  - destruct K as [|f K]; [by exists n |]. rewrite Hb in Hr by done. by exists n'.
Qed.

(** A hole one black short; a red root makes up for it when blackened. *)
Definition short (n : nat) t : Prop :=
  match col_of t with Red => rbt Black (S n) (blacken t) | Black => rbt Black n t end.

Lemma short_blacken n t : short n t -> exists n', rbt Black n' (blacken t).
Proof.
  unfold short. destruct t as [|[] l x k r]; simpl; intros H; [by exists n | by exists (S n) | by exists n].
Qed.

Definition dfixed (r : option (ptr * ptr * nodes)) (X : list (ptr * node)) (seq : list (Z * ptr)) : Prop :=
  exists root m K t n, r = Some (root, rt s t, m) /\ focus s q m root K t X /\
    inorder (plug K t) = seq /\ rbt Black n (plug K (blacken t)).

Lemma delete_fixup_root fuel m root t X n :
  focus s q m root [] t X -> rbt Black n (blacken t) ->
  dfixed (delete_fixup (S fuel) root s (rt s t) m) X (inorder t).
Proof.
  intros HF Ht. cbn [delete_fixup]. pose proof HF as [_ Hr]. cbn in Hr. rewrite bool_decide_true by done.
  by exists root, m, [], t, n.
Qed.

Lemma delete_fixup_red fuel m root K t X n :
  focus s q m root K t X -> col_of t = Red -> rbt Black n (blacken t) -> kok K n ->
  dfixed (delete_fixup (S fuel) root s (rt s t) m) X (inorder (plug K t)).
Proof.
  intros HF Hc Ht HK. cbn [delete_fixup]. rewrite (focus_is_black _ _ _ _ _ HF), Hc. cbn [mbind option_bind negb].
  destruct (rbt_plug_black K n _ Ht HK) as [n' Hn'].
  assert (dfixed (Some (root, rt s t, m)) X (inorder (plug K t))) by by exists root, m, K, t, n'.
  by case_bool_decide.
Qed.

(** The sibling's far child is red: one rotation and the loop ends. *)
Lemma far_red_spec fuel m root K d c t p pk a w wk b X n :
  focus s q m root ({| f_dir := d; f_col := c; f_x := p; f_k := pk; f_sib := mk d Black a w wk b |} :: K) t X ->
  parent_set ({| f_dir := d; f_col := c; f_x := p; f_k := pk; f_sib := mk d Black a w wk b |} :: K) t ->
  rbt Black n t -> (exists ca, rbt ca n a) -> rbt Red n b ->
  (match c with Red => kok K (S n) /\ under K Red | Black => kok K (S (S n)) end) ->
  exists root' m', delete_far_red d root s (rt s t) w m = Some (root', m') /\
    dfixed (delete_fixup (S fuel) root' s root' m') X (inorder (plug K (mk d c t p pk (mk d Black a w wk b)))).
Proof.
  intros HF Hps Ht [ca Ha] Hb HK. unfold delete_far_red. rewrite (focus_parent_gen _ _ _ _ _ _ HF Hps).
  cbn [mbind option_bind f_x]. apply focus_up_mk in HF.
  assert (get n_color p m = Some (cz c)) as Hcp.
  { pose proof (focus_color _ _ _ _ _ HF) as H. by rewrite rt_mk, col_of_mk in H. }
  apply focus_down_mk, focus_other, (focus_recolor_mk c) in HF as (m1 & Hm1 & HF).
  apply focus_back, focus_up_mk, (focus_recolor_mk Black) in HF as (m2 & Hm2 & HF).
  apply focus_down_mk, focus_other in HF. pose proof (focus_child _ _ _ _ _ _ _ _ _ _ HF) as [_ Hch].
  apply focus_down_mk, focus_other, focus_blacken in HF as (m3 & Hm3 & HF).
  apply focus_back, focus_up_mk, focus_back, focus_up_mk, rotate_spec in HF as (root' & m4 & Hm4 & HF).
  unfold rbtree_copy_color. rewrite Hcp. cbn [mbind option_bind]. rewrite Hm1. cbn [mbind option_bind].
  change (rbtree_black p m1 = Some m2) in Hm2. rewrite Hm2. cbn [mbind option_bind]. rewrite Hch. cbn [mbind option_bind]. rewrite Hm3. cbn [mbind option_bind].
  exists root', m4. split; [done |].
  set (u := mk d c (mk d Black t p pk a) w wk (blacken b)) in HF.
  assert (exists n', rbt c n' u /\ kok K n' /\ under K c) as (n' & Hu & HKn & Hund).
  { assert (rbt Black (S n) (blacken b)) as Hb' by (inversion Hb; subst; simpl; by econstructor).
    destruct c; [exists (S n) | exists (S (S n))].
    - split; [by apply rbt_mk_red; [eapply rbt_mk_black |] | done].
    - split; [eapply rbt_mk_black; [by eapply rbt_mk_black | done] |]. split; [done |]. destruct K; [done | by right]. }
  destruct (rbt_plug K c n' u Hu HKn Hund) as (c' & n2 & Hr & _).
  apply focus_plug in HF. pose proof HF as [_ Hroot]. cbn in Hroot.
  replace (inorder (plug K (mk d c t p pk (mk d Black a w wk b)))) with (inorder (plug K u)).
  - rewrite Hroot at 2. 
    assert (exists n3, rbt Black n3 (blacken (plug K u))) as [n3 Hn3]
      by (inversion Hr; subst; simpl; eexists; first [done | by econstructor]).
    eapply delete_fixup_root; [exact HF | exact Hn3].
  - apply inorder_plug_eq. unfold u. assert (inorder (blacken b) = inorder b) as Eb by by destruct b.
    destruct d; simpl; rewrite Eb; by repeat (rewrite <- app_assoc; simpl).
Qed.

Lemma parent_set_frame d c p pk b d' c' b' K K' t :
  parent_set ({| f_dir := d; f_col := c; f_x := p; f_k := pk; f_sib := b |} :: K) t ->
  parent_set ({| f_dir := d'; f_col := c'; f_x := p; f_k := pk; f_sib := b' |} :: K') t.
Proof. by destruct t. Qed.

Lemma focus_other_child m root f K t X : focus s q m root (f :: K) t X -> child (opp (f_dir f)) (f_x f) m = Some (rt s (f_sib f)).
Proof. destruct f. intros HF. apply focus_up_mk in HF. by apply focus_child in HF as [_ H]. Qed.

(** The sibling's far child becomes red, whatever it was. *)
Lemma near_red_spec m root d c p pk K t a w wk b X n :
  focus s q m root ({| f_dir := d; f_col := c; f_x := p; f_k := pk; f_sib := mk d Black a w wk b |} :: K) t X ->
  parent_set ({| f_dir := d; f_col := c; f_x := p; f_k := pk; f_sib := mk d Black a w wk b |} :: K) t ->
  rbt Black (S n) (mk d Black a w wk b) -> is_blk a && is_blk b = false ->
  exists root' w' m' a' wk' b',
    delete_near_red d root s (rt s t) w m = Some (root', w', m') /\
    focus s q m' root' ({| f_dir := d; f_col := c; f_x := p; f_k := pk; f_sib := mk d Black a' w' wk' b' |} :: K) t X /\
    (exists ca, rbt ca n a') /\ rbt Red n b' /\
    inorder (mk d Black a' w' wk' b') = inorder (mk d Black a w wk b).
Proof.
  intros HF Hps Hw Hnb. destruct (rbt_black_inv _ _ _ _ _ _ Hw) as (n' & ca & cb & [= <-] & Ha & Hb).
  unfold delete_near_red. pose proof HF as HFo. apply focus_other in HFo.
  destruct (focus_child _ _ _ _ _ _ _ _ _ _ HFo) as [Hwn Hwf]. rewrite Hwf. cbn [mbind option_bind].
  pose proof HFo as HFb. apply focus_down_mk, focus_other, focus_is_black in HFb. rewrite HFb, (rbt_col _ _ _ Hb).
  cbn [mbind option_bind]. unfold is_blk in Hnb. rewrite (rbt_col _ _ _ Ha), (rbt_col _ _ _ Hb) in Hnb.
  destruct cb.
  { exists root, w, m, a, wk, b. eauto 10. }
  destruct ca; [|done]. destruct (rbt_col_inv _ _ _ Ha eq_refl) as (d0 & l & y & yk & r & ->).
  assert (exists a1 b1, mk d0 Red l y yk r = mk d Red a1 y yk b1) as (a1 & b1 & E)
    by (destruct d0, d; by do 2 eexists).
  rewrite E in *. clear E l r d0. apply rbt_red_inv in Ha as [Ha1 Hb1].
  rewrite Hwn, rt_mk. cbn [mbind option_bind].
  apply focus_down_mk, (focus_recolor_mk Black) in HFo as (m1 & Hm1 & HFo).
  apply focus_up_mk, (focus_recolor_mk Red) in HFo as (m2 & Hm2 & HFo).
  rewrite <- (mk_opp d Red), <- (mk_opp d Black) in HFo. apply rotate_spec in HFo as (root' & m3 & Hm3 & HFo).
  rewrite !mk_opp in HFo. apply focus_back in HFo.
  change (rbtree_black y m = Some m1) in Hm1. change (rbtree_red w m1 = Some m2) in Hm2.
  rewrite Hm1. cbn [mbind option_bind]. rewrite Hm2. cbn [mbind option_bind]. rewrite Hm3. cbn [mbind option_bind].
  rewrite (focus_parent_gen _ _ _ _ _ _ HFo) by by eapply parent_set_frame. cbn [mbind option_bind f_x].
  pose proof (focus_other_child _ _ _ _ _ _ HFo) as Hc. cbn [f_dir f_x f_sib] in Hc. rewrite Hc, rt_mk.
  cbn [mbind option_bind]. exists root', y, m3, a1, yk, (mk d Red b1 w wk b). split; [done |]. split; [done |].
  split; [by exists Black |]. split; [by apply rbt_mk_red |].
  destruct d; simpl; by repeat (rewrite <- app_assoc; simpl).
Qed.

Lemma kok_cons_inv K d c b p pk n :
  kok ({| f_dir := d; f_col := c; f_x := p; f_k := pk; f_sib := b |} :: K) n ->
  match c with Red => kok K n /\ under K Red | Black => kok K (S n) end.
Proof. cbn [kok f_col f_sib]. destruct c; [|tauto]. intros (_ & HK & Hg). split; [done |]. destruct K; [done | by left]. Qed.

(** An iteration with a black sibling ends the loop, or passes the lack on to the parent. *)
Lemma black_sibling_spec fuel m root K d c t p pk a w wk b X n :
  focus s q m root ({| f_dir := d; f_col := c; f_x := p; f_k := pk; f_sib := mk d Black a w wk b |} :: K) t X ->
  parent_set ({| f_dir := d; f_col := c; f_x := p; f_k := pk; f_sib := mk d Black a w wk b |} :: K) t ->
  rbt Black n t -> rbt Black (S n) (mk d Black a w wk b) ->
  kok ({| f_dir := d; f_col := c; f_x := p; f_k := pk; f_sib := mk d Black a w wk b |} :: K) (S n) ->
  (forall m' t' n', focus s q m' root K t' X -> rt s t' = p -> t' <> E -> short n' t' -> kok K (S n') ->
    (c = Red -> col_of t' = Red) ->
    inorder t' = inorder (mk d c t p pk (mk d Black a w wk b)) ->
    dfixed (delete_fixup (S fuel) root s p m') X (inorder (plug K t'))) ->
  dfixed ('(root, temp, m) ← delete_black_sibling d root s (rt s t) w m; delete_fixup (S fuel) root s temp m) X
    (inorder (plug K (mk d c t p pk (mk d Black a w wk b)))).
Proof.
  intros HF Hps Ht Hw HK Hrec. pose proof (kok_cons_inv _ _ _ _ _ _ _ HK) as HKc.
  destruct (rbt_black_inv _ _ _ _ _ _ Hw) as (n' & ca & cb & [= <-] & Ha & Hb).
  unfold delete_black_sibling. pose proof HF as HFo. apply focus_other in HFo.
  rewrite (focus_both_black _ _ _ _ _ _ _ _ _ _ HFo). cbn [mbind option_bind].
  destruct (is_blk a && is_blk b) eqn:Ebb.
  - apply (focus_recolor_mk Red) in HFo as (m1 & Hm1 & HFo). apply focus_back in HFo.
    unfold rbtree_red. change RBTREE_COLOR_RED with (cz Red). rewrite Hm1. cbn [mbind option_bind].
    rewrite (focus_parent_gen _ _ _ _ _ _ HFo) by by eapply parent_set_frame. cbn [mbind option_bind f_x].
    apply focus_up_mk in HFo. apply andb_true_iff in Ebb as [Ea Eb]. unfold is_blk in Ea, Eb.
    rewrite (rbt_col _ _ _ Ha) in Ea. rewrite (rbt_col _ _ _ Hb) in Eb. destruct ca, cb; try done.
    replace (inorder (plug K (mk d c t p pk (mk d Black a w wk b)))) with
      (inorder (plug K (mk d c t p pk (mk d Red a w wk b)))) by (apply inorder_plug_eq; by destruct d).
    destruct c.
    + apply (Hrec m1 (mk d Red t p pk (mk d Red a w wk b)) n); [done | apply rt_mk | by destruct d | | tauto | by rewrite col_of_mk | by destruct d].
      unfold short. rewrite col_of_mk.
      assert (blacken (mk d Red t p pk (mk d Red a w wk b)) = mk d Black t p pk (mk d Red a w wk b)) as -> by by destruct d.
      eapply rbt_mk_black; [done | by apply rbt_mk_red].
    + apply (Hrec m1 (mk d Black t p pk (mk d Red a w wk b)) (S n)); [done | apply rt_mk | by destruct d | | done | done | by destruct d].
      unfold short. rewrite col_of_mk. eapply rbt_mk_black; [done | by apply rbt_mk_red].
  - destruct (near_red_spec _ _ _ _ _ _ _ _ _ _ _ _ _ _ HF Hps Hw Ebb)
      as (root1 & w1 & m1 & a1 & wk1 & b1 & -> & HF1 & Ha1 & Hb1 & Hin). cbn [mbind option_bind].
    destruct (far_red_spec fuel _ _ _ _ _ _ _ _ _ _ _ _ _ n HF1) as (root2 & m2 & Hm2 & Hfix);
      [by eapply parent_set_frame | done | done | done | by destruct c |].
    rewrite Hm2. cbn [mbind option_bind].
    replace (inorder (plug K (mk d c t p pk (mk d Black a w wk b)))) with
      (inorder (plug K (mk d c t p pk (mk d Black a1 w1 wk1 b1)))); [done |].
    apply inorder_plug_eq. destruct d; simpl in *; congruence.
Qed.

Lemma delete_fixup_spec fuel m root K t X n :
  focus s q m root K t X -> parent_set K t -> short n t -> kok K (S n) -> (length K < fuel)%nat ->
  dfixed (delete_fixup fuel root s (rt s t) m) X (inorder (plug K t)).
Proof.
  revert m root K t n. induction fuel as [|fuel IH]; intros m root K t n HF Hps Ht HK Hfu; [lia |].
  destruct K as [|[d c p pk sw] K].
  { destruct (short_blacken n t Ht) as [n' Hn']. by eapply delete_fixup_root. }
  unfold short in Ht. destruct (col_of t) eqn:Hc; [by eapply delete_fixup_red |].
  cbn [delete_fixup]. rewrite bool_decide_false by by eapply focus_root_ne_gen.
  rewrite (focus_is_black _ _ _ _ _ HF), Hc. cbn [mbind option_bind negb].
  rewrite (focus_parent_gen _ _ _ _ _ _ HF Hps). cbn [mbind option_bind f_x].
  assert (exists cw, rbt cw (S n) sw) as [cw Hsw] by (cbn [kok f_col f_sib] in HK; destruct c; destruct HK as [HK _]; [by exists Black | exact HK]).
  assert (sw <> E) as Hne by (intros ->; inversion Hsw).
  destruct (focus_side_gen _ _ _ _ _ _ HF Hne) as (v & Hv & Hd). cbn [f_x f_dir] in Hv, Hd.
  rewrite Hv. cbn [mbind option_bind]. rewrite Hd. clear v Hv Hd.
  pose proof (focus_other_child _ _ _ _ _ _ HF) as Hch. cbn [f_dir f_x f_sib] in Hch. rewrite Hch.
  cbn [mbind option_bind]. clear Hch. simpl length in Hfu. destruct fuel as [|fuel]; [lia |].
  assert (exists a w wk b, sw = mk d cw a w wk b) as (a & w & wk & b & ->).
  { destruct sw as [|c0 l0 x0 k0 r0]; [done |]. rewrite <- (rbt_col _ _ _ Hsw). simpl.
    destruct d; by do 4 eexists. }
  rewrite rt_mk. unfold delete_red_sibling. pose proof HF as HFo. apply focus_other in HFo.
  rewrite (focus_is_red_mk _ _ _ _ _ _ _ _ _ _ HFo). cbn [mbind option_bind]. clear Hne.
  destruct cw.
  - (* red sibling *)
    assert (c = Black) as -> by (destruct c; [cbn [kok f_col f_sib] in HK; destruct HK as [HK _];
      apply rbt_col in HK; by rewrite col_of_mk in HK | done]).
    cbn [kok f_col] in HK. destruct HK as [_ HK].
    apply rbt_red_inv in Hsw as [Ha Hb].
    destruct (focus_recolor_mk Black _ _ _ _ _ _ _ _ _ _ HFo) as (m1 & Hm1 & HF1). apply focus_back in HF1.
    unfold rbtree_black at 1. change RBTREE_COLOR_BLACK with (cz Black). rewrite Hm1. cbn [mbind option_bind].
    rewrite (focus_parent_gen _ _ _ _ _ _ HF1) by by eapply parent_set_frame. cbn [mbind option_bind f_x].
    apply focus_up_mk, (focus_recolor_mk Red) in HF1 as (m2 & Hm2 & HF2).
    unfold rbtree_red at 1. change RBTREE_COLOR_RED with (cz Red). rewrite Hm2. cbn [mbind option_bind].
    apply rotate_spec in HF2 as (root1 & m3 & Hm3 & HF3). rewrite Hm3. cbn [mbind option_bind].
    do 2 apply focus_down_mk in HF3.
    rewrite (focus_parent_gen _ _ _ _ _ _ HF3) by by eapply parent_set_frame. cbn [mbind option_bind f_x].
    pose proof (focus_other_child _ _ _ _ _ _ HF3) as Hch. cbn [f_dir f_x f_sib] in Hch. rewrite Hch.
    cbn [mbind option_bind]. clear Hch.
    inversion Ha as [E1 E2 | | n0 c1 c2 la xa ka ra Hla Hra E1 E2]. subst a.
    rewrite (T_mk d) in *. set (a1 := match d with L => la | R => ra end) in *. set (a2 := match d with L => ra | R => la end) in *.
    rewrite rt_mk.
    replace (inorder (plug _ t)) with (inorder (plug ({| f_dir := d; f_col := Black; f_x := w; f_k := wk; f_sib := b |} :: K)
      (mk d Red t p pk (mk d Black a1 xa ka a2)))).
    2: { change (plug (?f :: K) ?u) with (plug K (plug1 f u)). apply inorder_plug_eq. unfold plug1.
         cbn [f_dir f_col f_x f_k f_sib]. destruct d; simpl; by repeat (rewrite <- app_assoc; simpl). }
    eapply (black_sibling_spec fuel); [exact HF3 | by eapply parent_set_frame | done | exact Ha | |].
    { cbn [kok f_col f_sib]. split; [done |]. split; [|done]. split; [by exists Black | done]. }
    intros m' t' n' HF' Hrt Hne Hsh HK' Hcol Hin. rewrite <- Hrt. specialize (Hcol eq_refl).
    unfold short in Hsh. rewrite Hcol in Hsh. by eapply delete_fixup_red.
  - (* black sibling *)
    replace (inorder (plug _ t)) with (inorder (plug K (mk d c t p pk (mk d Black a w wk b)))) by done.
    eapply (black_sibling_spec fuel); [exact HF | done | done | done | done |].
    intros m' t' n' HF' Hrt Hne Hsh HK' Hcol Hin. rewrite <- Hrt.
    apply (IH m' root K t' n'); [done | by destruct t' | done | done | lia].
Qed.
End Specs.

(** ** Taking a node out *)

Section Removal.
Context (s : ptr).
Implicit Types (K : ctx) (a b e t : tree) (X : list (ptr * node)).

Definition released (n : node) : node :=
  {| n_key := 0; n_left := nullptr; n_right := nullptr; n_parent := nullptr; n_color := n_color n |}.

Lemma holds_free m C x n X : holds m (C ++ (x, n) :: X) -> forall n', holds (<[x := n']> m) (C ++ (x, n') :: X).
Proof. intros H n'. by eapply holds_set. Qed.

Lemma clear_node_spec q m root K t x n X :
  focus s q m root K t ((x, n) :: X) ->
  exists m', clear_node x m = Some m' /\ focus s q m' root K t ((x, released n) :: X).
Proof.
  intros [(sn & r0 & Hb & H) Hr].
  assert (exists m', clear_node x m = Some m' /\
    holds m' ((s, sn) :: cells s (up r0 K) t ++ kcells s r0 (rt s t) K ++ (x, released n) :: X)) as (m' & Hm & H').
  { open_cells H. unfold clear_node. heap_run. eexists. split; [reflexivity |]. close_cells H. }
  exists m'. split; [done |]. split; [|done]. by exists sn, r0.
Qed.

(** A node with at most one child is replaced by it. *)
Lemma splice_spec q m root f K d c x k b X :
  focus s q m root (f :: K) (mk d c E x k b) X ->
  exists m1, set_child (f_dir f) (f_x f) (rt s b) m = Some m1 /\ get n_parent x m1 = Some (f_x f) /\
    exists m2, set_parent (rt s b) (f_x f) m1 = Some m2 /\
    exists q' nx, focus s q' m2 root (f :: K) b ((x, nx) :: X) /\ parent_set q' (f :: K) b /\ n_key nx = k.
Proof.
  destruct f as [df cf p pk sf]. intros [(sn & r0 & [Hb Hq] & H) Hr]. rewrite rt_mk, top_cons in *. cbn [f_x f_dir] in *.
  destruct b as [|cb bl z zk br].
  - cbn [rt]. destruct d, df; open_cells H; heap_run; (eexists; split; [reflexivity |]; split; [by heap_run |]; heap_run; eexists; split; [reflexivity |]);
      (exists p; eexists; split; [split; [exists (with_parent p sn), r0; split; [done | close_cells H] | by rewrite top_cons] | by split]).
  - cbn [rt]. destruct d, df; open_cells H; heap_run; (eexists; split; [reflexivity |]; split; [by heap_run |]; heap_run; eexists; split; [reflexivity |]);
      (exists q; eexists; split; [split; [exists sn, r0; split; [done | close_cells H] | by rewrite top_cons] | by split]).
Qed.

(** [y] takes the place of [x]; the [parent] of the right subtree's root is not relied on. *)
Lemma relink_spec m root K c l x k r v y ny sn r0 X :
  holds m ((s, sn) :: (x, mkn L k (rt s l) (rt s r) (up r0 K) c) :: cells s x l ++ cells s v r ++
    (y, ny) :: kcells s r0 x K ++ X) ->
  root = top x K ->
  exists root' m' nx, delete_relink root s x y m = Some (root', m') /\
    holds m' ((s, sn) :: cells s (up r0 K) (T c l y (n_key ny) r) ++ kcells s r0 y K ++ (x, nx) :: X) /\
    root' = top y K.
Proof.
  intros H Hr. unfold delete_relink. destruct K as [|[df cf p pk sf] K].
  - cbn in Hr. subst root. destruct l as [|cl ll lx lk lr], r as [|cr rl rx rk rr]; open_cells H; heap_run;
      (eexists _, _, _; split; [reflexivity |]; split; [close_cells H | done]).
  - rewrite top_cons in Hr. cbn [f_x] in Hr.
    assert (x <> root) as Hne.
    { intros E. destruct H as [Hnd _]. cbn [up kcells] in Hnd. rewrite !fmap_cons, !fmap_app, fmap_cons, fmap_app in Hnd.
      cbn [fst] in Hnd. rewrite fmap_cons, fmap_app in Hnd. cbn [fst f_x] in Hnd. apply NoDup_cons in Hnd as [_ Hnd].
      apply NoDup_cons in Hnd as [Hx _]. apply Hx. rewrite !elem_of_app. do 2 right. right. apply elem_of_app. left.
      destruct (top_in s r0 p K) as [E' | Hin]; rewrite E, Hr; [rewrite E'; by left | right; apply elem_of_app; by right]. }
    destruct df, sf as [|cs sl w wk sr], l as [|cl ll lx lk lr], r as [|cr rl rx rk rr]; open_cells H; heap_run;
      (eexists _, _, _; split; [reflexivity |]; split; [close_cells H | by rewrite top_cons]).
Qed.

Lemma plug_app K K' t : plug (K ++ K') t = plug K' (plug K t).
Proof. unfold plug. apply foldl_app. Qed.

Lemma focus_app q m root K K' t X : focus s q m root (K ++ K') t X <-> focus s q m root K' (plug K t) X.
Proof. revert t. induction K as [|f K IH]; intros t; [done |]. cbn [app]. rewrite focus_up. apply IH. Qed.

Abbreviation rframe c l x k := {| f_dir := R; f_col := c; f_x := x; f_k := k; f_sib := l |}.

(** The successor [y] of [x], somewhere down the left spine of the right subtree. *)
Lemma relink_focus q m root K c l x k r y ny X :
  focus s q m root K (T c l x k r) ((y, ny) :: X) ->
  exists root' m' nx, delete_relink root s x y m = Some (root', m') /\
    focus s q m' root' K (T c l y (n_key ny) r) ((x, nx) :: X).
Proof.
  intros [(sn & r0 & Hb & H) Hr].
  destruct (relink_spec m root K c l x k r x y ny sn r0 X) as (root' & m' & nx & Hm & H' & Hr').
  { refine (holds_permute _ _ _ _ H). cbn [cells rt]. solve_Permutation. }
  { done. }
  exists root', m', nx. split; [done |]. split; [by exists sn, r0 | done].
Qed.

Lemma succ_near_spec q m root K c l x k cy y yk ry X :
  focus s q m root (rframe c l x k :: K) (T cy E y yk ry) X ->
  exists m1, set_child R x (rt s ry) m = Some m1 /\
    exists root' m' q' nx, delete_replace root s x y (rt s ry) m1 = Some (root', m') /\
      focus s q' m' root' (rframe c l y yk :: K) ry ((x, nx) :: X) /\ parent_set q' (rframe c l y yk :: K) ry.
Proof.
  intros [(sn & r0 & [Hb Hq] & H) Hr]. rewrite top_cons in Hr. cbn [f_x rt] in *.
  assert (exists m1, set_child R x (rt s ry) m = Some m1 /\ get n_parent y m1 = Some x /\
    exists m2, set_parent (rt s ry) y m1 = Some m2 /\
    exists sn' ny, (n_color sn' = RBTREE_COLOR_BLACK /\ (ry = E -> n_parent sn' = y)) /\ n_key ny = yk /\
      holds m2 ((s, sn') :: (x, mkn L k (rt s l) (rt s ry) (up r0 K) c) :: cells s x l ++ cells s y ry ++
        (y, ny) :: kcells s r0 x K ++ X)) as (m1 & Hm1 & Hp & m2 & Hm2 & sn' & ny & [Hb' Hq'] & Hk & H').
  { destruct ry as [|cb bl z zk br]; cbn [rt]; open_cells H; heap_run;
      (eexists; split; [reflexivity |]; split; [by heap_run |]; heap_run; eexists; split; [reflexivity |]).
    - exists (with_parent y sn). eexists. split; [done |]. split; [|close_cells H]. done.
    - exists sn. eexists. split; [done |]. split; [|close_cells H]. done. }
  destruct (relink_spec _ root _ _ _ _ _ _ _ _ _ _ _ _ H' Hr) as (root' & m' & nx & Hm & H2 & Hr').
  exists m1. split; [done |]. exists root', m', (n_parent sn'), nx. unfold delete_replace. rewrite Hp. cbn [mbind option_bind].
  rewrite bool_decide_true by done. rewrite Hm2. cbn [mbind option_bind]. split; [done |]. rewrite Hk in H2.
  split; [|destruct ry; [by apply Hq' | done]]. apply focus_up. split; [by exists sn', r0 | done].
Qed.

Lemma kcells_in r0 hp K f : f ∈ K -> f_x f ∈ (kcells s r0 hp K).*1.
Proof.
  revert hp. induction K as [|g K IH]; intros hp; [by intros ?%elem_of_nil |].
  intros [-> | Hf]%elem_of_cons; cbn [kcells]; rewrite fmap_cons, fmap_app; [by left |].
  right. apply elem_of_app. right. by apply IH.
Qed.

Lemma frames_ne q m root g f K t X : focus s q m root (g :: K) t X -> f ∈ K -> f_x g <> f_x f.
Proof.
  intros [(sn & r0 & _ & [Hnd _]) _] Hf E. cbn [kcells] in Hnd. rewrite fmap_cons, !fmap_app, fmap_cons, fmap_app in Hnd.
  apply NoDup_cons in Hnd as [_ Hnd]. apply NoDup_app in Hnd as (_ & _ & Hnd).
  apply NoDup_app in Hnd as (Hnd & _). apply NoDup_cons in Hnd as [Hg _]. apply Hg. cbn [fst]. rewrite E.
  apply elem_of_app. right. by apply kcells_in.
Qed.

Lemma succ_spec q m root Ky K c l x k cy y yk ry X :
  focus s q m root (Ky ++ rframe c l x k :: K) (T cy E y yk ry) X ->
  Forall (fun f => f_dir f = L) Ky ->
  exists p v m1, get n_parent y m = Some p /\ child L p m = Some v /\
    set_child (if bool_decide (y = v) then L else R) p (rt s ry) m = Some m1 /\
    exists root' m' q' nx, delete_replace root s x y (rt s ry) m1 = Some (root', m') /\
      focus s q' m' root' (Ky ++ rframe c l y yk :: K) ry ((x, nx) :: X) /\
      parent_set q' (Ky ++ rframe c l y yk :: K) ry.
Proof.
  intros HF HL. destruct Ky as [|g Ky]; cbn [app] in *.
  - destruct (focus_side _ _ _ _ _ _ _ _ _ _ _ _ HF) as (v & Hv & Hd). cbn [f_x f_dir] in *.
    pose proof (focus_parent _ _ _ _ _ _ _ _ _ _ _ _ HF) as Hp. destruct (succ_near_spec _ _ _ _ _ _ _ _ _ _ _ _ _ HF) as (m1 & Hm1 & H).
    exists x, v, m1. rewrite Hd. done.
  - pose proof (focus_side _ _ _ _ _ _ _ _ _ _ _ _ HF) as (v & Hv & Hd).
    pose proof (focus_parent _ _ _ _ _ _ _ _ _ _ _ _ HF) as Hp.
    assert (f_x g <> x) as Hgx by (apply (frames_ne _ _ _ _ (rframe c l x k) _ _ _ HF), elem_of_app; right; by left).
    destruct (splice_spec _ _ _ _ _ L _ _ _ _ _ HF) as (m1 & Hm1 & Hp1 & m2 & Hm2 & q' & ny & HF2 & Hq' & <-).
    exists (f_x g), v, m1. rewrite Hd. split; [done |]. split; [done |]. split; [done |].
    change (g :: Ky ++ rframe c l x k :: K) with ((g :: Ky) ++ rframe c l x k :: K) in HF2.
    apply focus_app in HF2. apply focus_up_mk in HF2. destruct (relink_focus _ _ _ _ _ _ _ _ _ _ _ _ HF2) as (root' & m' & nx & Hm' & HF3).
    exists root', m', q', nx. unfold delete_replace. rewrite Hp1. cbn [mbind option_bind].
    rewrite bool_decide_false by done. rewrite Hm2. cbn [mbind option_bind]. split; [done |]. split; [|exact Hq'].
    change (g :: Ky ++ ?K') with ((g :: Ky) ++ K'). apply focus_app. by apply (focus_down_mk s q' m' root' R).
Qed.

(** [rbtree_min] follows the left spine. *)
Lemma min_spec q m root K t X c n fuel :
  focus s q m root K t X -> t <> E -> (height t <= fuel)%nat -> rbt c n t -> kok K n -> under K c ->
  (K = [] -> c = Black) ->
  exists Ky cy y yk ry n', rbtree_min fuel (rt s t) s m = Some y /\ plug Ky (T cy E y yk ry) = t /\
    focus s q m root (Ky ++ K) (T cy E y yk ry) X /\ Forall (fun f => f_dir f = L) Ky /\
    rbt cy n' (T cy E y yk ry) /\ kok (Ky ++ K) n' /\ under (Ky ++ K) cy /\ (length Ky < height t)%nat.
Proof.
  revert K t c n. induction fuel as [|fuel IH]; intros K t c n HF Hne Hh Ht HK Hu Htop;
    destruct t as [|ct l y k r]; try done; [simpl in Hh; lia |].
  assert (c = ct) as -> by by apply rbt_col in Ht.
  cbn [rbtree_min rt]. destruct (focus_child _ _ _ _ _ L _ _ _ _ _ _ HF) as [-> _]. cbn [mbind option_bind].
  assert (l = E \/ l <> E) as [-> | Hl] by (destruct l; auto).
  - rewrite bool_decide_true by done. exists [], ct, y, k, r, n. simpl in *.
    split; [done |]. split; [done |]. split; [done |]. split; [constructor |]. split; [done |]. split; [done |]. split; [done | lia].
  - destruct (kok_down K L ct l y k r ct n Ht HK Hu Htop) as (cl & nl & Hlr & HKl & Hul).
    apply (focus_down_mk s q m root L) in HF. rewrite bool_decide_false.
    2: { destruct l as [|c' l' z k' r']; [done |]. intros E. destruct HF as [(sn & r0 & _ & [Hnd _]) _].
         simpl in E. subst z. apply NoDup_cons in Hnd as [Hn _]. apply Hn. by left. }
    simpl in Hh.
    destruct (IH ({| f_dir := L; f_col := ct; f_x := y; f_k := k; f_sib := r |} :: K) l cl nl)
      as (Ky & cy & z & zk & rz & n' & Hm & Hp & HF' & HL & Hz & HKz & Huz & Hlen); [done.. | lia | done | done | | done |].
    { by destruct Hul; [left | right]. }
    exists (Ky ++ [{| f_dir := L; f_col := ct; f_x := y; f_k := k; f_sib := r |}]), cy, z, zk, rz, n'.
    rewrite <- app_assoc, plug_app, Hp, length_app. split; [done |]. split; [done |]. split; [done |].
    split; [apply Forall_app; split; [done | by repeat constructor] |]. split; [done |]. split; [done |]. split; [done |]. simpl. lia.
Qed.

(** ** Deletion *)

Lemma height_plug K t : (length K + height t <= height (plug K t))%nat.
Proof.
  revert t. induction K as [|f K IH]; intros t; simpl; [lia |]. etransitivity; [|apply IH].
  unfold plug1. rewrite height_mk. lia.
Qed.

Lemma rbt_find K t c n l1 k x l2 :
  rbt c n t -> kok K n -> under K c -> (K = [] -> c = Black) -> inorder t = l1 ++ (k, x) :: l2 ->
  exists K' ct l r n', plug K' (T ct l x k r) = plug K t /\ rbt ct n' (T ct l x k r) /\ kok K' n' /\ under K' ct /\
    (K' = [] -> ct = Black) /\ before K' ++ inorder l = before K ++ l1 /\ inorder r ++ after K' = l2 ++ after K.
Proof.
  revert K c n l1 l2. induction t as [|ct l IHl y j r IHr]; intros K c n l1 l2 Ht HK Hu Htop Hin; [by destruct l1 |].
  assert (c = ct) as -> by by apply rbt_col in Ht. cbn [inorder] in Hin.
  apply app_eq_inv in Hin as [(l3 & Hl & H3) | (l3 & -> & H3)].
  - destruct l3 as [|u l3]; simplify_eq/=.
    + rewrite app_nil_r in Hl. subst l1. exists K, ct, l, r, n. done.
    + destruct (kok_down K L ct l y j r ct n Ht HK Hu Htop) as (cl & nl & Hl' & HKl & Hul).
      destruct (IHl ({| f_dir := L; f_col := ct; f_x := y; f_k := j; f_sib := r |} :: K) cl nl l1 l3)
        as (K' & c' & l' & r' & n' & Hp & H1 & H2 & H4 & H5 & Hb & Ha);
        [done | done | by destruct Hul; [left | right] | done | done |].
      exists K', c', l', r', n'. split; [done |]. do 4 (split; [done |]). split.
      * rewrite Hb. cbn [before]. unfold bef. cbn [f_dir]. by rewrite app_nil_r.
      * rewrite Ha. cbn [after]. unfold aft. cbn [f_dir f_sib f_k f_x]. by rewrite <- app_assoc.
  - destruct l3 as [|u l3]; simplify_eq/=.
    + exists K, ct, l, r, n. by rewrite app_nil_r.
    + destruct (kok_down K R ct r y j l ct n Ht HK Hu Htop) as (cr & nr & Hr & HKr & Hur).
      destruct (IHr (rframe ct l y j :: K) cr nr l3 l2) as (K' & c' & l' & r' & n' & Hp & H1 & H2 & H4 & H5 & Hb & Ha);
        [done | done | by destruct Hur; [left | right] | done | done |].
      exists K', c', l', r', n'. split; [done |]. do 4 (split; [done |]). split; [|done].
      rewrite Hb. cbn [before]. unfold bef. cbn [f_dir f_sib f_k f_x]. by rewrite <- !app_assoc.
Qed.

Lemma kok_swap Ky f f' K n :
  f_col f = f_col f' -> f_sib f = f_sib f' -> kok (Ky ++ f :: K) n -> kok (Ky ++ f' :: K) n.
Proof.
  intros Hc Hs. revert n. induction Ky as [|g Ky IH]; intros n; cbn [app kok].
  - by rewrite Hc, Hs.
  - destruct (f_col g); [|intros [? ?]; auto]. intros (H1 & H2 & H3). split; [done |]. split; [by apply IH |].
    destruct Ky; simpl in *; congruence.
Qed.

Lemma rbt_short c n t : rbt c n t -> short n t.
Proof. unfold short. destruct 1; simpl; try by econstructor. Qed.

(** The black node taken out, or the re-balancing after it. *)
Lemma delete_finish_spec fuel q m root K d c x k b n X :
  focus s q m root K b X -> parent_set q K b -> rbt c n (mk d c E x k b) -> kok K n -> (length K < fuel)%nat ->
  exists root' m', (if (match c with Red => true | Black => false end) then Some ({| root := root; sentinel := s |}, m)
    else '(root, temp, m) ← delete_fixup fuel root s (rt s b) m; m ← rbtree_black temp m;
         Some ({| root := root; sentinel := s |}, m)) = Some ({| root := root'; sentinel := s |}, m') /\
    exists t n', focus s q m' root' [] t X /\ rbt Black n' t /\ inorder t = inorder (plug K b).
Proof.
  intros HF Hps Ht HK Hfu. destruct c.
  - apply rbt_red_inv in Ht as [HE Hb]. exists root, m. split; [done |]. inversion HE; subst n.
    destruct (rbt_plug_black K 0 b Hb HK) as [n' Hn']. exists (plug K b), n'. split; [by apply focus_plug in HF | done].
  - apply rbt_black_inv in Ht as (n' & c1 & c2 & -> & HE & Hb).
    destruct (delete_fixup_spec s q fuel m root K b X n' HF Hps (rbt_short _ _ _ Hb) HK Hfu)
      as (root' & m' & K' & t' & n2 & -> & HF' & Hin & Hr). cbn [mbind option_bind].
    apply focus_blacken in HF' as (m2 & Hm2 & HF2). rewrite Hm2. cbn [mbind option_bind].
    exists root', m2. split; [done |]. exists (plug K' (blacken t')), n2. split; [by apply focus_plug in HF2 |].
    split; [done |]. rewrite <- Hin. apply inorder_plug_eq. by destruct t'.
Qed.

Lemma splice_root_spec q m root d c x k b X :
  focus s q m root [] (mk d c E x k b) X ->
  root = x /\ exists nx, focus s q m (rt s b) [] b ((x, nx) :: X).
Proof.
  intros [(sn & r0 & Hb & H) Hr]. rewrite rt_mk in Hr. cbn in Hr. split; [done |].
  exists (mkn d k s (rt s b) r0 c). split; [|done]. exists sn, x. split; [done |]. cbn [up kcells app] in *.
  rewrite cells_mk in H. cbn [cells rt app] in H. refine (holds_permute _ _ _ _ H). solve_Permutation.
Qed.

(** What a deletion establishes; [x] is released. *)
Definition removed (r : option (rbtree * nodes)) (x : ptr) (X : list (ptr * node)) (l : list (Z * ptr)) : Prop :=
  exists root m nx q t n, r = Some ({| root := root; sentinel := s |}, m) /\
    focus s q m root [] t ((x, released nx) :: X) /\ rbt Black n t /\ inorder t = l.

Lemma delete_one_child fuel q m root K d c x k b n X :
  focus s q m root K (mk d c E x k b) X -> rbt c n (mk d c E x k b) -> kok K n -> under K c -> (length K < fuel)%nat ->
  delete_choose fuel x s m = Some (rt s b, x) ->
  removed (rbtree_delete fuel {| root := root; sentinel := s |} x m) x X (before K ++ inorder b ++ after K).
Proof.
  intros HF Ht HK Hu Hfu Hch. rewrite <- inorder_plug. unfold rbtree_delete. cbn [sentinel Rbtree.root]. rewrite Hch. cbn [mbind option_bind].
  destruct K as [|f K].
  - apply splice_root_spec in HF as (-> & nx & HF). rewrite bool_decide_true by done.
    apply focus_blacken in HF as (m1 & Hm1 & HF). rewrite Hm1. cbn [mbind option_bind].
    apply clear_node_spec in HF as (m2 & Hm2 & HF). rewrite Hm2. cbn [mbind option_bind].
    assert (exists n', rbt Black n' (blacken b)) as [n' Hn'].
    { destruct c; [apply rbt_red_inv in Ht as [_ Hb] | apply rbt_black_inv in Ht as (n1 & c1 & c2 & -> & _ & Hb)];
        eapply short_blacken, rbt_short, Hb. }
    exists (rt s b), m2, nx, q, (blacken b), n'. split; [done |]. split; [done |]. split; [done |]. by destruct b.
  - rewrite bool_decide_false by by eapply focus_root_ne_mk.
    pose proof (focus_is_red_mk _ _ _ _ _ _ _ _ _ _ _ _ HF) as Hred. rewrite Hred. cbn [mbind option_bind].
    rewrite (focus_parent_mk _ _ _ _ _ _ _ _ _ _ _ _ _ HF). cbn [mbind option_bind].
    destruct (focus_side_mk _ _ _ _ _ _ _ _ _ _ _ _ _ HF) as (v & Hv & Hd). rewrite Hv. cbn [mbind option_bind]. rewrite Hd.
    destruct (splice_spec _ _ _ _ _ _ _ _ _ _ _ HF) as (m1 & Hm1 & Hp1 & m2 & Hm2 & q' & nx & HF2 & Hps & _).
    rewrite Hm1. cbn [mbind option_bind]. rewrite bool_decide_true by done. rewrite Hp1. cbn [mbind option_bind].
    rewrite Hm2. cbn [mbind option_bind].
    apply clear_node_spec in HF2 as (m3 & Hm3 & HF3). rewrite Hm3. cbn [mbind option_bind].
    destruct (delete_finish_spec fuel _ _ _ _ _ _ _ _ _ _ _ HF3 Hps Ht HK Hfu) as (root' & m' & Hm' & t' & n' & HF' & Hr & Hin).
    exists root', m', nx, q', t', n'. split; [by destruct c | done].
Qed.

Lemma before_left K : Forall (fun f => f_dir f = L) K -> before K = [].
Proof. induction 1 as [|f K Hf _ IH]; [done |]. cbn [before]. unfold bef. by rewrite IH, Hf. Qed.

Lemma focus_rt_ne q m root K t X : focus s q m root K t X -> t <> E -> rt s t <> s.
Proof.
  intros [(sn & r0 & _ & [Hnd _]) _] Hne E. destruct t as [|c l x k r]; [done |]. simpl in E. subst x.
  apply NoDup_cons in Hnd as [Hn _]. apply Hn. by left.
Qed.

Lemma delete_two_children fuel q m root K c l x k r n X :
  focus s q m root K (T c l x k r) X -> l <> E -> r <> E -> rbt c n (T c l x k r) -> kok K n -> under K c ->
  (K = [] -> c = Black) -> (length K + height (T c l x k r) < fuel)%nat ->
  removed (rbtree_delete fuel {| root := root; sentinel := s |} x m) x X (before K ++ (inorder l ++ inorder r) ++ after K).
Proof.
  intros HF Hl Hr Ht HK Hu Htop Hfu. unfold rbtree_delete, delete_choose. cbn [sentinel Rbtree.root].
  destruct (focus_child _ _ _ _ _ L _ _ _ _ _ _ HF) as [Hcl Hcr]. cbn [opp] in Hcr. rewrite Hcl, Hcr. cbn [mbind option_bind].
  pose proof HF as HFl. apply (focus_down_mk s q m root L) in HFl. pose proof HF as HFr. apply (focus_down_mk s q m root R) in HFr.
  rewrite (bool_decide_false (rt s l = s)) by (by eapply focus_rt_ne).
  rewrite (bool_decide_false (rt s r = s)) by (by eapply focus_rt_ne).
  destruct (kok_down K R c r x k l c n Ht HK Hu Htop) as (cr & nr & Hrr & HKr & Hur). simpl in Hfu.
  destruct (min_spec q m root (rframe c l x k :: K) r X cr nr fuel) as (Ky & cy & y & yk & ry & n' & Hm & Hp & HF' & HL & Hy & HKy & Huy & Hlen);
    [done | done | lia | done | done | by destruct Hur; [left | right] | done |].
  rewrite Hm. cbn [mbind option_bind]. destruct (focus_child _ _ _ _ _ L _ _ _ _ _ _ HF') as [Hyl Hyr]. cbn [opp] in Hyr. rewrite Hyl. cbn [mbind option_bind rt].
  rewrite bool_decide_false by (by intros []). rewrite Hyr. cbn [mbind option_bind].
  assert (y <> root) as Hyroot by (destruct Ky; by eapply focus_root_ne). rewrite bool_decide_false by done.
  assert (y <> x) as Hyx.
  { apply (focus_down_mk s q m root L) in HF'. apply (frames_ne _ _ _ _ (rframe c l x k)) in HF'; [exact HF' |].
    apply elem_of_app. right. by left. }
  pose proof (focus_is_red _ _ _ _ _ _ _ HF') as Hred. cbn [rt col_of] in Hred. rewrite Hred. cbn [mbind option_bind].
  destruct (succ_spec _ _ _ _ _ _ _ _ _ _ _ _ _ _ HF' HL) as (p & v & m1 & Hpy & Hv & Hm1 & root1 & m2 & q' & nx & Hm2 & HF2 & Hps).
  rewrite Hpy. cbn [mbind option_bind]. rewrite Hv. cbn [mbind option_bind]. rewrite Hm1. cbn [mbind option_bind].
  rewrite (bool_decide_false (y = x)) by exact Hyx. rewrite Hm2. cbn [mbind option_bind].
  apply clear_node_spec in HF2 as (m3 & Hm3 & HF3). rewrite Hm3. cbn [mbind option_bind].
  destruct (delete_finish_spec fuel q' m3 root1 (Ky ++ rframe c l y yk :: K) L cy y yk ry n' ((x, released nx) :: X))
    as (root' & m' & Hm' & t' & n2 & HF4 & Hr4 & Hin); [done | done | done | by eapply kok_swap; [| | exact HKy] | rewrite length_app; simpl; lia |].
  exists root', m', nx, q', t', n2. split; [by destruct cy |]. split; [done |]. split; [done |].
  rewrite Hin, plug_app. change (plug (?f :: K) ?u) with (plug K (plug1 f u)). rewrite inorder_plug.
  f_equal. f_equal. unfold plug1. cbn [f_dir f_col f_x f_k f_sib mk inorder]. rewrite <- Hp, !inorder_plug. cbn [inorder app].
  rewrite (before_left Ky HL). simpl. by rewrite <- ?app_assoc.
Qed.
End Removal.

(** ** Balance *)

Lemma rbt_height c n t : rbt c n t -> (height t <= 2 * n + match c with Red => 1 | Black => 0 end)%nat.
Proof. induction 1; simpl; repeat match goal with c : col |- _ => destruct c end; lia. Qed.

Lemma rbt_size c n t : rbt c n t -> (2 ^ n <= S (length (inorder t)))%nat.
Proof. induction 1; cbn [inorder length Nat.pow]; rewrite ?length_app; cbn [length]; lia. Qed.

(** The longest path of a tree of this many nodes. *)
Definition depth {A} (l : list A) : nat := 2 * Nat.log2 (S (length l)).

Lemma rbt_depth n t : rbt Black n t -> (height t <= depth (inorder t))%nat.
Proof.
  intros Ht. pose proof (rbt_height _ _ _ Ht) as H1. cbn iota in H1. pose proof (rbt_size _ _ _ Ht) as H2.
  unfold depth. apply Nat.log2_le_mono in H2. rewrite Nat.log2_pow2 in H2 by lia. lia.
Qed.

(** ** The tree as a sorted sequence *)

(** The heap holds a red-black tree whose in-order sequence of keys and nodes is [l], and
    apart from it the cells [X]. *)
Definition rbtree_rep (m : nodes) (tr : rbtree) (l : list (Z * ptr)) (X : list (ptr * node)) : Prop :=
  exists q t n, focus (sentinel tr) q m (root tr) [] t X /\ rbt Black n t /\ inorder t = l.

Lemma sorted_between l1 l2 k x : sorted (l1 ++ l2) -> keys_le l1 k -> keys_gt l2 k -> sorted (l1 ++ (k, x) :: l2).
Proof.
  rewrite !sorted_app, !Forall_forall. intros (H1 & H2 & H3) Hle Hgt. split; [done |]. split.
  - constructor; [done |]. apply Forall_forall. intros u Hu. apply Hgt in Hu. simpl. lia.
  - intros u v Hu [-> | Hv]%elem_of_cons; [by apply Hle | by apply H3].
Qed.

Lemma focus_empty_root s q m root X : focus s q m root [] E X -> root = s.
Proof. by intros [_ ->]. Qed.

Lemma insert_into_empty s q m root x nx X :
  focus s q m root [] E ((x, nx) :: X) ->
  exists m', (m ← set_parent x nullptr m; m ← set_child L x s m; m ← set_child R x s m; rbtree_black x m) = Some m' /\
    focus s q m' x [] (T Black E x (n_key nx) E) X.
Proof.
  intros [(sn & r0 & Hb & H) Hr]. cbn in H.
  assert (exists m', (m ← set_parent x nullptr m; m ← set_child L x s m; m ← set_child R x s m; rbtree_black x m) = Some m' /\
    holds m' ((s, sn) :: cells s nullptr (T Black E x (n_key nx) E) ++ X)) as (m' & Hm & H').
  { open_cells H. heap_run. eexists. split; [reflexivity |]. close_cells H. }
  exists m'. split; [done |]. split; [|done]. by exists sn, nullptr.
Qed.

(** The two insertion functions, the second one for non-null pointers. *)
Definition insertion (root x : ptr) (insert : nat -> ptr -> ptr -> ptr -> nodes -> option nodes) : Prop :=
  insert = rbtree_insert_value \/ insert = rbtree_insert_timer_value /\ root <> nullptr /\ x <> nullptr.

Lemma insertion_value insert fuel root x s m :
  insertion root x insert -> insert fuel root x s m = rbtree_insert_value fuel root x s m.
Proof. intros [-> | (-> & Hr & Hx)]; [done |]. unfold rbtree_insert_timer_value. by rewrite !bool_decide_false. Qed.

(** The specification of an insertion: after the keys that are not greater. *)
Fixpoint ordered_insert (k : Z) (x : ptr) (l : list (Z * ptr)) : list (Z * ptr) :=
  match l with
  | [] => [(k, x)]
  | u :: l' => if k <? u.1 then (k, x) :: l else u :: ordered_insert k x l'
  end.

Lemma ordered_insert_app l1 l2 k x : keys_le l1 k -> keys_gt l2 k -> ordered_insert k x (l1 ++ l2) = l1 ++ (k, x) :: l2.
Proof.
  intros H1 H2. induction H1 as [|u l1 Hu H1 IH]; simpl.
  - destruct H2 as [|v l2 Hv _]; simpl; [done |]. by destruct (Z.ltb_spec k v.1); [| lia].
  - rewrite IH. by destruct (Z.ltb_spec k u.1); [lia |].
Qed.

Lemma insert_spec insert m tr l x nx X fuel :
  rbtree_rep m tr l ((x, nx) :: X) -> insertion (root tr) x insert -> sorted l -> (depth l < fuel)%nat ->
  exists tr' m', rbtree_insert insert fuel tr x m = Some (tr', m') /\ sentinel tr' = sentinel tr /\
    rbtree_rep m' tr' (ordered_insert (n_key nx) x l) X /\ sorted (ordered_insert (n_key nx) x l).
Proof.
  intros (q & t & n & HF & Ht & <-) Hins Hs Hfu. destruct tr as [root s]. cbn [Rbtree.root sentinel] in *.
  unfold rbtree_insert. cbn [Rbtree.root sentinel]. pose proof (rbt_depth _ _ Ht) as Hd.
  assert (t = E \/ t <> E) as [-> | Hne] by (destruct t; auto).
  - rewrite bool_decide_true by by eapply focus_empty_root.
    destruct (insert_into_empty _ _ _ _ _ _ _ HF) as (m' & Hm & HF').
    exists {| root := x; sentinel := s |}, m'. split.
    { do 3 (apply bind_Some in Hm as (? & -> & Hm); cbn [mbind option_bind]). by rewrite Hm. }
    split; [done |]. split; [|by repeat constructor].
    exists q, (T Black E x (n_key nx) E), 1%nat. split; [done |]. split; [|done]. by repeat econstructor.
  - pose proof HF as [_ Hr]. cbn in Hr. rewrite bool_decide_false by (subst root; by eapply focus_rt_ne).
    rewrite insertion_value by done.
    destruct (insert_value_spec s q m root x nx X t fuel HF Hne) as (m1 & K & Hm1 & HF1 & Hp & HK & Hle & Hgt & Hl);
      [lia | by exists n | done |].
    rewrite Hr, Hm1. cbn [mbind option_bind]. rewrite <- Hr.
    destruct (insert_fixup_spec s q fuel m1 root K L E x (n_key nx) E X 0 HF1) as (root' & m2 & t' & c' & n' & Hm2 & HF2 & Hin & Hrb);
      [by repeat constructor | done | lia |].
    rewrite Hm2. cbn [mbind option_bind]. pose proof HF2 as [_ Hr2]. cbn in Hr2. subst root'.
    apply focus_blacken in HF2 as (m3 & Hm3 & HF3). rewrite Hm3. cbn [mbind option_bind].
    exists {| root := rt s t'; sentinel := s |}, m3. split; [done |]. split; [done |].
    rewrite <- Hp, inorder_plug in Hs |- *. cbn [inorder app] in Hs |- *.
    rewrite ordered_insert_app by done. split; [|by apply sorted_between].
    destruct (short_blacken n' t' (rbt_short _ _ _ Hrb)) as [n2 Hn2].
    exists q, (blacken t'), n2. split; [done |]. split; [done |].
    transitivity (inorder t'); [by destruct t' |]. by rewrite Hin, inorder_plug.
Qed.

Lemma delete_spec m tr l1 k x l2 X fuel :
  rbtree_rep m tr (l1 ++ (k, x) :: l2) X -> (depth (l1 ++ (k, x) :: l2) < fuel)%nat ->
  exists tr' m' nx, rbtree_delete fuel tr x m = Some (tr', m') /\ sentinel tr' = sentinel tr /\
    rbtree_rep m' tr' (l1 ++ l2) ((x, released nx) :: X).
Proof.
  intros (q & t & n & HF & Ht & Hin) Hfu. destruct tr as [root s]. cbn [Rbtree.root sentinel] in *.
  pose proof (rbt_depth _ _ Ht) as Hd. rewrite Hin in Hd.
  destruct (rbt_find [] t Black n l1 k x l2 Ht) as (K & c & l & r & n' & Hp & Hx & HK & Hu & Htop & Hb & Ha); [done.. |].
  cbn [before after app] in Hb, Ha. rewrite app_nil_r in Ha. change (plug [] t) with t in Hp.
  rewrite <- Hp in HF, Hd. apply focus_plug in HF. pose proof (height_plug K (T c l x k r)) as Hl.
  assert (removed s (rbtree_delete fuel {| Rbtree.root := root; sentinel := s |} x m) x X (l1 ++ l2)) as
    (root' & m' & nx & q' & t' & n2 & Hdel & HF' & Hr & Hin').
  { replace (l1 ++ l2) with (before K ++ (inorder l ++ inorder r) ++ after K) by by rewrite <- Hb, <- Ha, !app_assoc.
    destruct (focus_child _ _ _ _ _ L _ _ _ _ _ _ HF) as [Hcl Hcr]. cbn [opp] in Hcr.
    assert (l = E \/ l <> E) as [-> | Hl1] by (destruct l; auto).
    - eapply (delete_one_child _ _ _ _ _ _ L); [exact HF | exact Hx | done | done | lia |].
      unfold delete_choose. rewrite Hcl, Hcr. cbn [mbind option_bind]. by rewrite bool_decide_true.
    - assert (r = E \/ r <> E) as [-> | Hr1] by (destruct r; auto).
      + cbn [inorder]. rewrite app_nil_r.
        eapply (delete_one_child _ _ _ _ _ _ R); [exact HF | exact Hx | done | done | lia |].
        unfold delete_choose. rewrite Hcl, Hcr. cbn [mbind option_bind].
        apply (focus_down_mk s q m root L) in HF. rewrite bool_decide_false by by eapply focus_rt_ne.
        by rewrite bool_decide_true.
      + eapply delete_two_children; [done.. |]. lia. }
  exists {| Rbtree.root := root'; sentinel := s |}, m', nx. split; [done |]. split; [done |]. by exists q', t', n2.
Qed.

Lemma minimum_spec m tr k x l X fuel :
  rbtree_rep m tr ((k, x) :: l) X -> (depth ((k, x) :: l) < fuel)%nat ->
  rbtree_min fuel (root tr) (sentinel tr) m = Some x.
Proof.
  intros (q & t & n & HF & Ht & Hin) Hfu. destruct tr as [root s]. cbn [Rbtree.root sentinel] in *.
  pose proof (rbt_depth _ _ Ht) as Hd. rewrite Hin in Hd. pose proof HF as [_ Hr]. cbn in Hr. rewrite Hr.
  destruct (min_spec s q m root [] t X Black n fuel HF) as (Ky & cy & y & yk & ry & n' & Hm & Hp & _ & HL & _);
    [by destruct t | lia | done.. |].
  rewrite Hm. rewrite <- Hp, inorder_plug, (before_left Ky HL) in Hin. by simplify_eq/=.
Qed.

(** ** The interface to the users of the tree *)

(** A collection of nodes in the order of their keys, later ones after equal ones; [X] are
    the nodes outside it. *)
Class OrderedNodes := {
  on_insert : nat -> rbtree -> ptr -> nodes -> option (rbtree * nodes);
  on_delete : nat -> rbtree -> ptr -> nodes -> option (rbtree * nodes);
  on_min : nat -> rbtree -> nodes -> option ptr;
  on_rep : nodes -> rbtree -> list (Z * ptr) -> list (ptr * node) -> Prop;

  on_empty m tr l X : on_rep m tr l X -> (root tr = sentinel tr <-> l = []);
  on_nodup m tr l X : on_rep m tr l X -> NoDup (l.*2 ++ X.*1);
  on_inside m tr l X k x : on_rep m tr l X -> (k, x) ∈ l -> get n_key x m = Some k;
  on_outside m tr l X x n : on_rep m tr l X -> (x, n) ∈ X -> m !! x = Some n;
  on_perm m tr l X X' : X ≡ₚ X' -> on_rep m tr l X -> on_rep m tr l X';
  on_set m tr l X x n n' : on_rep m tr l ((x, n) :: X) -> on_rep (<[x := n']> m) tr l ((x, n') :: X);
  on_insert_spec m tr l x n X fuel :
    on_rep m tr l ((x, n) :: X) -> sorted l -> (depth l < fuel)%nat ->
    exists tr' m', on_insert fuel tr x m = Some (tr', m') /\ sentinel tr' = sentinel tr /\
      on_rep m' tr' (ordered_insert (n_key n) x l) X;
  on_delete_spec m tr l1 k x l2 X fuel :
    on_rep m tr (l1 ++ (k, x) :: l2) X -> (depth (l1 ++ (k, x) :: l2) < fuel)%nat ->
    exists tr' m' n, on_delete fuel tr x m = Some (tr', m') /\ sentinel tr' = sentinel tr /\
      on_rep m' tr' (l1 ++ l2) ((x, n) :: X);
  on_min_spec m tr k x l X fuel :
    on_rep m tr ((k, x) :: l) X -> (depth ((k, x) :: l) < fuel)%nat -> on_min fuel tr m = Some x
}.

Lemma cells_inorder s par t : (cells s par t).*1 ≡ₚ (inorder t).*2.
Proof.
  revert par. induction t as [|c l IHl x k r IHr]; intros par; [done |].
  cbn [cells inorder]. rewrite fmap_cons, !fmap_app, fmap_cons, IHl, IHr. cbn. solve_Permutation.
Qed.

Lemma cells_key s par t k x : (k, x) ∈ inorder t -> exists n, (x, n) ∈ cells s par t /\ n_key n = k.
Proof.
  revert par. induction t as [|c l IHl y j r IHr]; intros par; [by intros ?%elem_of_nil |].
  cbn [cells inorder]. intros [Hin | [[= -> ->] | Hin]%elem_of_cons]%elem_of_app.
  - destruct (IHl y Hin) as (n & Hn & Hk). exists n. split; [|done]. right. apply elem_of_app. by left.
  - eexists. split; [by left | done].
  - destruct (IHr y Hin) as (n & Hn & Hk). exists n. split; [|done]. right. apply elem_of_app. by right.
Qed.

Lemma rep_nodup m tr l X : rbtree_rep m tr l X -> NoDup (sentinel tr :: l.*2 ++ X.*1).
Proof.
  intros (q & t & n & [(sn & r0 & _ & [Hnd _]) _] & _ & <-). revert Hnd. cbn [kcells app].
  by rewrite fmap_cons, fmap_app, cells_inorder.
Qed.

Lemma focus_perm s q m root K t X X' : X ≡ₚ X' -> focus s q m root K t X -> focus s q m root K t X'.
Proof. intros HX [(sn & r0 & Hb & H) Hr]. split; [|done]. exists sn, r0. by rewrite <- HX. Qed.

Lemma focus_set s q m root K t x n n' X :
  focus s q m root K t ((x, n) :: X) -> focus s q (<[x := n']> m) root K t ((x, n') :: X).
Proof.
  intros [(sn & r0 & Hb & H) Hr]. split; [|done]. exists sn, r0. split; [done |].
  assert (holds m (((s, sn) :: cells s (up r0 K) t ++ kcells s r0 (rt s t) K) ++ (x, n) :: X)) as H' by by rewrite <- app_comm_cons, <- app_assoc.
  apply (holds_set _ _ _ _ n') in H'. by rewrite <- app_comm_cons, <- app_assoc in H'.
Qed.

Lemma ordered_insert_perm k x l : ordered_insert k x l ≡ₚ (k, x) :: l.
Proof. induction l as [|u l IH]; simpl; [done |]. destruct (k <? u.1); [done |]. rewrite IH. solve_Permutation. Qed.

Lemma sorted_ordered_insert k x l : sorted l -> sorted (ordered_insert k x l).
Proof.
  induction 1 as [|u l Hs IH Hf]; simpl; [by repeat constructor |]. destruct (Z.ltb_spec k u.1) as [Hlt | Hge].
  - constructor; [by constructor |]. constructor; [simpl; lia |]. eapply Forall_impl; [exact Hf |]. simpl. lia.
  - constructor; [done |]. rewrite ordered_insert_perm. by constructor.
Qed.

(** The timer tree: red-black trees with [rbtree_insert_timer_value], away from address 0. *)
Definition timer_tree_rep (m : nodes) (tr : rbtree) (l : list (Z * ptr)) (X : list (ptr * node)) : Prop :=
  rbtree_rep m tr l X /\ nullptr ∉ sentinel tr :: l.*2 ++ X.*1.

#[export, refine] Instance timer_tree : OrderedNodes := {
  on_insert := rbtree_insert rbtree_insert_timer_value;
  on_delete := rbtree_delete;
  on_min fuel tr := rbtree_min fuel (root tr) (sentinel tr);
  on_rep := timer_tree_rep
}.
Proof.
  - (* empty *) intros m tr l X [(q & t & n & HF & _ & <-) _]. split.
    + intros E. destruct t as [|c a x k b]; [done |]. exfalso. pose proof HF as [_ Hr]. cbn in Hr.
      apply (focus_rt_ne _ _ _ _ _ _ _ HF); [done |]. cbn. by rewrite <- Hr.
    + destruct t as [|c a x k b]; [|cbn [inorder]; by destruct (inorder a)]. intros _. by eapply focus_empty_root.
  - (* distinct *) intros m tr l X [H _]. apply rep_nodup in H. by apply NoDup_cons in H as [_ H].
  - (* keys *) intros m tr l X k x [(q & t & n & [(sn & r0 & _ & [_ H]) _] & _ & <-) _] Hin.
    destruct (cells_key (sentinel tr) r0 t k x Hin) as (nx & Hnx & <-). unfold get. rewrite (H x nx); [done |].
    right. apply elem_of_app. by left.
  - (* outside *) intros m tr l X x nx [(q & t & n & [(sn & r0 & _ & [_ H]) _] & _) _] Hin. apply H. right.
    apply elem_of_app. by right.
  - (* order outside *) intros m tr l X X' HX [(q & t & n & HF & H) Hnull]. split; [|by rewrite <- HX].
    exists q, t, n. split; [by eapply focus_perm | done].
  - (* fields outside *) intros m tr l X x nx n' [(q & t & n & HF & H) Hnull]. split; [|done].
    exists q, t, n. split; [by eapply focus_set | done].
  - (* insert *) intros m tr l x nx X fuel [H Hnull] Hs Hf.
    destruct (insert_spec rbtree_insert_timer_value m tr l x nx X fuel H) as (tr' & m' & -> & Hsn & H' & _); [|done..|].
    + right. split; [done |]. destruct H as (q & t & n & [_ Hr] & _ & <-). cbn in Hr.
      cbn [fst fmap list_fmap] in Hnull. split.
      * rewrite Hr. destruct t as [|c a y k b]; cbn; [by intros E; apply Hnull; rewrite E; left |]. intros ->. apply Hnull. right.
        apply elem_of_app. left. cbn [inorder]. rewrite fmap_app. apply elem_of_app. right. by left.
      * intros ->. apply Hnull. right. apply elem_of_app. right. by left.
    + exists tr', m'. split; [done |]. split; [done |]. split; [done |]. rewrite Hsn, ordered_insert_perm.
      revert Hnull. rewrite !fmap_cons. cbn. set_solver.
  - (* delete *) intros m tr l1 k x l2 X fuel [H Hnull] Hf.
    destruct (delete_spec m tr l1 k x l2 X fuel H Hf) as (tr' & m' & nx & -> & Hsn & H').
    exists tr', m', (released nx). split; [done |]. split; [done |]. split; [done |]. rewrite Hsn.
    revert Hnull. rewrite !fmap_app, !fmap_cons. cbn. set_solver.
  - (* minimum *) intros m tr k x l X fuel [H _]. by eapply minimum_spec.
Defined.

(** ** Correctness *)

#[export] Instance node_eq_dec : EqDecision node.
Proof. solve_decision. Defined.

Lemma holds_decide m C :
  bool_decide (NoDup C.*1) && bool_decide (Forall (fun c => m !! c.1 = Some c.2) C) = true -> holds m C.
Proof.
  intros [H1 H2]%andb_true_iff. apply bool_decide_eq_true in H1, H2. split; [done |].
  intros x n Hin. by apply (proj1 (Forall_forall _ _) H2 (x, n)).
Qed.

Lemma rep_decide m s root t n sn r0 X :
  holds m ((s, sn) :: cells s r0 t ++ X) -> n_color sn = RBTREE_COLOR_BLACK -> root = rt s t -> rbt Black n t ->
  rbtree_rep m {| root := root; sentinel := s |} (inorder t) X.
Proof. intros H Hb Hr Ht. exists (n_parent sn), t, n. split; [|done]. split; [by exists sn, r0 | done]. Qed.

Definition demo_node (k : Z) (par : ptr) (c : Z) : node := {| n_key := k; n_left := 1; n_right := 1; n_parent := par; n_color := c |}.

(** The sentinel, a tree of two nodes, and a node outside. *)
Definition demo_nodes : nodes :=
  <[1%N := demo_node 0 0 0]> (<[10%N := {| n_key := 5; n_left := 20; n_right := 1; n_parent := 0; n_color := 0 |}]>
    (<[20%N := demo_node 3 10 1]> (<[30%N := demo_node 4 0 0]> ∅))).

Definition demo_tree : tree := T Black (T Red E 20 3 E) 10 5 E.

Lemma demo_rep : rbtree_rep demo_nodes {| root := 10; sentinel := 1 |} (inorder demo_tree) [(30%N, demo_node 4 0 0)].
Proof.
  apply (rep_decide _ _ _ demo_tree 1 (demo_node 0 0 0) 0); [|done | done | repeat econstructor].
  apply holds_decide. by vm_compute.
Qed.

(** C29. Insertion into the red-black tree, with either insertion function: on a tree whose
    sequence [l] is sorted it terminates without an undefined access within a number of
    steps logarithmic in the number of nodes, leaves a red-black tree with the same
    sentinel, whose sequence is [l] with the node after the keys that are not greater, and
    touches no node outside the tree. *)
Theorem rbtree_insert_correct insert m tr l x nx X fuel :
  rbtree_rep m tr l ((x, nx) :: X) -> insertion (root tr) x insert -> sorted l -> (depth l < fuel)%nat ->
  exists tr' m', rbtree_insert insert fuel tr x m = Some (tr', m') /\ sentinel tr' = sentinel tr /\
    rbtree_rep m' tr' (ordered_insert (n_key nx) x l) X /\ sorted (ordered_insert (n_key nx) x l).
Proof. apply insert_spec. Qed.

(** The rotations of both kinds run: 4 goes between 3 and 5. *)
Lemma rbtree_insert_correct_witness :
  exists tr' m', rbtree_insert rbtree_insert_timer_value 4 {| root := 10; sentinel := 1 |} 30 demo_nodes = Some (tr', m') /\
    sentinel tr' = 1%N /\ rbtree_rep m' tr' [(3, 20%N); (4, 30%N); (5, 10%N)] [] /\
    sorted [(3, 20%N); (4, 30%N); (5, 10%N)].
Proof.
  apply (rbtree_insert_correct rbtree_insert_timer_value _ _ _ _ _ _ _ demo_rep); [by right | | vm_compute; lia].
  cbn. repeat constructor; simpl; lia.
Defined.

(** C30. Deletion: any node of the tree can be taken out; it terminates without an undefined
    access within a number of steps logarithmic in the number of nodes, leaves a red-black
    tree of the other nodes in the same order, and the node itself cleared; no other node
    outside the tree is touched. *)
Theorem rbtree_delete_correct m tr l1 k x l2 X fuel :
  rbtree_rep m tr (l1 ++ (k, x) :: l2) X -> (depth (l1 ++ (k, x) :: l2) < fuel)%nat ->
  exists tr' m' nx, rbtree_delete fuel tr x m = Some (tr', m') /\ sentinel tr' = sentinel tr /\
    rbtree_rep m' tr' (l1 ++ l2) ((x, released nx) :: X).
Proof. apply delete_spec. Qed.

Lemma rbtree_delete_correct_witness :
  exists tr' m' nx, rbtree_delete 3 {| root := 10; sentinel := 1 |} 10 demo_nodes = Some (tr', m') /\ sentinel tr' = 1%N /\
    rbtree_rep m' tr' [(3, 20%N)] [(10%N, released nx); (30%N, demo_node 4 0 0)].
Proof. apply (rbtree_delete_correct demo_nodes {| root := 10; sentinel := 1 |} [(3, 20%N)] 5 10 [] _ 3 demo_rep). vm_compute. lia. Defined.

Lemma rbtree_init_spec s n m X :
  holds m ((s, n) :: X) ->
  exists m', rbtree_init s m = Some ({| root := s; sentinel := s |}, m') /\ rbtree_rep m' {| root := s; sentinel := s |} [] X.
Proof.
  intros H. unfold rbtree_init, rbtree_black, upd. rewrite (holds_at m [] s n X H). cbn [mbind option_bind].
  eexists. split; [done |]. apply (rep_decide _ s s E 0 (with_color RBTREE_COLOR_BLACK n) nullptr); [|done | done | constructor].
  exact (holds_set m [] s n _ X H).
Qed.
