(* ===== verification/EventTimer.v ===== *)
(** * Timers ([src/core/dfs_event_timer.cpp])

    An event embeds the tree node of its timer at a fixed offset; the events of a thread
    whose timers run are in one ordered tree, keyed by the time they are due. The file is
    written against the interface [OrderedNodes]; [timer_tree] of Rbtree.v implements it.

    [timers_ok] relates the tree and the flags of the events to the sequence of the timers
    that run; each operation is proved against a function on that sequence. *)

From stdpp Require Import sorting.
From S2P Require Import Prelude Rbtree.

Definition EVENT_TIMER_INFINITE : Z := -1.
Definition EVENT_TIMER_LAZY_DELAY : Z := 300.

(** The flags of an event that the timers use. *)
(* src/src/core/dfs_event.h:18-38 (event_s) *)
Record event := { timedout : bool; timer_set : bool }.

(** A signed result; what does not fit is undefined. *)
Definition int64 (z : Z) : option Z := if bool_decide (is_s64 z) then Some z else None.

Section EventTimer.
Context `{TT : OrderedNodes} {U : Type} (offset : N).

(** The tree, the nodes, the events, the time [time_handler] reads, and what else the
    handlers of the events may change. *)
(* src/src/core/dfs_event_timer.h:11-18 (event_timer_s) *)
Record timers := { timer_rbtree : rbtree; timer_sentinel : ptr; rb : nodes; events : gmap ptr event; clock : Z; user : U }.

Definition timer_of (ev : ptr) : ptr := (ev + offset)%N.
Definition event_of (node : ptr) : ptr := (node - offset)%N.

Definition with_tree (tr : rbtree) (m : nodes) (w : timers) : timers :=
  {| timer_rbtree := tr; timer_sentinel := timer_sentinel w; rb := m; events := events w; clock := clock w; user := user w |}.
Definition with_event (ev : ptr) (e : event) (w : timers) : timers :=
  {| timer_rbtree := timer_rbtree w; timer_sentinel := timer_sentinel w; rb := rb w; events := <[ev := e]> (events w);
     clock := clock w; user := user w |}.

(** Iterations enough for every loop over the tree. *)
Definition tree_fuel (m : nodes) : nat := S (2 * Nat.log2 (S (size m))).

(* src/src/core/dfs_event_timer.cpp:4-13 (event_timer_init) *)
Definition event_timer_init (sentinel : ptr) (m : nodes) (evs : gmap ptr event) (now : Z) (u : U) : option timers :=
  '(tr, m) ← rbtree_init sentinel m;
  Some {| timer_rbtree := tr; timer_sentinel := sentinel; rb := m; events := evs; clock := now; user := u |}.

(* src/src/core/dfs_event_timer.cpp:15-51 (event_timers_expire) *)
Fixpoint event_timers_expire (handler : ptr -> timers -> option timers) (fuel : nat) (w : timers) : option timers :=
  match fuel with
  | O => None
  | S fuel =>
      if bool_decide (root (timer_rbtree w) = sentinel (timer_rbtree w)) then Some w
      else
        node ← on_min (tree_fuel (rb w)) (timer_rbtree w) (rb w);
        key ← get n_key node (rb w);
        if key <=? clock w then
          let ev := event_of node in
          '(tr, m) ← on_delete (tree_fuel (rb w)) (timer_rbtree w) (timer_of ev) (rb w);
          e ← events w !! ev;
          w ← handler ev (with_event ev {| timer_set := false; timedout := true |} (with_tree tr m w));
          event_timers_expire handler fuel w
        else Some w
  end.

(* src/src/core/dfs_event_timer.cpp:53-71 (event_find_timer) *)
Definition event_find_timer (w : timers) : option Z :=
  if bool_decide (root (timer_rbtree w) = timer_sentinel w) then Some EVENT_TIMER_INFINITE
  else
    node ← on_min (tree_fuel (rb w)) (timer_rbtree w) (rb w);
    key ← get n_key node (rb w);
    timer ← int64 (key - clock w);
    Some (if timer >? 0 then timer else 0).

(* src/src/core/dfs_event_timer.cpp:73-86 (event_timer_del) *)
Definition event_timer_del (ev : ptr) (w : timers) : option timers :=
  e ← events w !! ev;
  if negb (timer_set e) then Some w
  else
    '(tr, m) ← on_delete (tree_fuel (rb w)) (timer_rbtree w) (timer_of ev) (rb w);
    Some (with_event ev {| timer_set := false; timedout := timedout e |} (with_tree tr m w)).

(** [ev->timer.key = key; rbtree_insert(...); ev->timer_set = 1] *)
Definition event_timer_arm (ev : ptr) (key : Z) (w : timers) : option timers :=
  m ← upd (with_key key) (timer_of ev) (rb w);
  '(tr, m) ← on_insert (tree_fuel m) (timer_rbtree w) (timer_of ev) m;
  e ← events w !! ev;
  Some (with_event ev {| timer_set := true; timedout := timedout e |} (with_tree tr m w)).

(* src/src/core/dfs_event_timer.cpp:89-122 (event_timer_add) *)
Definition event_timer_add (ev : ptr) (timer : Z) (w : timers) : option timers :=
  key ← int64 (clock w + timer);
  e ← events w !! ev;
  if timer_set e then
    old ← get n_key (timer_of ev) (rb w);
    diff ← int64 (key - old);
    if Z.abs diff <? EVENT_TIMER_LAZY_DELAY then Some w
    else w ← event_timer_del ev w; event_timer_arm ev key w
  else event_timer_arm ev key w.

(** ** What the operations do to the sequence of timers *)

Definition node_of (u : Z * ptr) : Z * ptr := (u.1, timer_of u.2).
Definition unset (ev : ptr) (l : list (Z * ptr)) : list (Z * ptr) := filter (fun u => u.2 <> ev) l.
Definition key_of (ev : ptr) (l : list (Z * ptr)) : option Z := fst <$> head (filter (fun u : Z * ptr => u.2 = ev) l).

(** A timer that runs is moved only when the new time is far enough from the old one. *)
Definition timer_add (key : Z) (ev : ptr) (l : list (Z * ptr)) : list (Z * ptr) :=
  match key_of ev l with
  | Some old => if Z.abs (key - old) <? EVENT_TIMER_LAZY_DELAY then l else ordered_insert key ev (unset ev l)
  | None => ordered_insert key ev l
  end.

(** The tree holds the timers [l] of the events whose [timer_set] is 1, in order; the nodes
    of all other events are outside it. *)
Record timers_ok_at (w : timers) (l : list (Z * ptr)) (X : list (ptr * node)) : Prop := {
  ok_tree : on_rep (rb w) (timer_rbtree w) (node_of <$> l) X;
  ok_sentinel : sentinel (timer_rbtree w) = timer_sentinel w;
  ok_sorted : sorted l;
  ok_set : forall ev, ev ∈ l.*2 <-> timer_set <$> events w !! ev = Some true;
  ok_unset : forall ev, timer_set <$> events w !! ev = Some false -> timer_of ev ∈ X.*1
}.
Definition timers_ok (w : timers) (l : list (Z * ptr)) : Prop := exists X, timers_ok_at w l X.

Lemma timer_of_inj ev ev' : timer_of ev = timer_of ev' -> ev = ev'.
Proof. unfold timer_of. lia. Qed.

Lemma event_of_timer ev : event_of (timer_of ev) = ev.
Proof. unfold event_of, timer_of. lia. Qed.

Lemma node_of_snd l : (node_of <$> l).*2 = timer_of <$> l.*2.
Proof. rewrite <- !list_fmap_compose. done. Qed.

Lemma ordered_insert_node k ev l : ordered_insert k (timer_of ev) (node_of <$> l) = node_of <$> ordered_insert k ev l.
Proof.
  induction l as [|u l IH]; [done |]. rewrite fmap_cons. cbn [ordered_insert]. change (node_of u).1 with u.1.
  destruct (k <? u.1); [done |]. by rewrite fmap_cons, IH.
Qed.

Lemma depth_node l : depth (node_of <$> l) = depth l.
Proof. unfold depth. by rewrite length_fmap. Qed.

(** The fuel is enough. *)
Lemma tree_fuel_enough m tr l X : on_rep m tr l X -> (depth l < tree_fuel m)%nat.
Proof.
  intros Hrep. pose proof (on_nodup _ _ _ _ Hrep) as Hnd. apply NoDup_app in Hnd as [Hnd _].
  assert (length l <= size m)%nat as Hlen.
  { rewrite <- (length_fmap snd l), <- size_dom, <- (size_list_to_set (C := gset ptr)) by done.
    apply subseteq_size. intros x. rewrite elem_of_list_to_set. intros ([k y] & -> & Hin)%list_elem_of_fmap.
    apply (on_inside _ _ _ _ _ _ Hrep) in Hin. unfold get in Hin. apply bind_Some in Hin as (n & Hn & _).
    by eapply elem_of_dom_2. }
  unfold depth, tree_fuel. pose proof (Nat.log2_le_mono (S (length l)) (S (size m))). lia.
Qed.

(** ** Specifications *)

Lemma ok_nodup w l X : timers_ok_at w l X -> NoDup l.*2.
Proof.
  intros H. pose proof (on_nodup _ _ _ _ (ok_tree _ _ _ H)) as Hnd. apply NoDup_app in Hnd as [Hnd _].
  rewrite node_of_snd in Hnd. by apply NoDup_fmap_1 in Hnd.
Qed.

Lemma unset_middle l1 k ev l2 : NoDup (l1 ++ (k, ev) :: l2).*2 -> unset ev (l1 ++ (k, ev) :: l2) = l1 ++ l2.
Proof.
  rewrite fmap_app, fmap_cons. intros (H1 & Hd & [Hn H2]%NoDup_cons)%NoDup_app. unfold unset.
  assert (forall l : list (Z * ptr), ev ∉ l.*2 -> filter (fun u => u.2 <> ev) l = l) as Hf.
  { intros l Hl. apply list_filter_all, Forall_forall. intros u Hu <-. apply Hl, list_elem_of_fmap. by exists u. }
  rewrite filter_app, filter_cons_False by tauto. rewrite !Hf; [done | done |].
  intros Hin. apply (Hd ev Hin). by left.
Qed.

Lemma key_of_middle l1 k ev l2 : NoDup (l1 ++ (k, ev) :: l2).*2 -> key_of ev (l1 ++ (k, ev) :: l2) = Some k.
Proof.
  rewrite fmap_app, fmap_cons. intros (H1 & Hd & _)%NoDup_app. unfold key_of.
  rewrite filter_app, filter_cons_True by done.
  assert (filter (fun u : Z * ptr => u.2 = ev) l1 = []) as ->; [|done].
  apply list_filter_none, Forall_forall. intros u Hu <-. apply (Hd u.2); [|by left].
  apply list_elem_of_fmap. by exists u.
Qed.

Lemma key_of_none ev l : ev ∉ l.*2 -> key_of ev l = None.
Proof.
  intros Hn. unfold key_of. assert (filter (fun u : Z * ptr => u.2 = ev) l = []) as ->; [|done].
  apply list_filter_none, Forall_forall. intros u Hu <-. apply Hn, list_elem_of_fmap. by exists u.
Qed.

Lemma set_middle w l X ev : timers_ok_at w l X -> timer_set <$> events w !! ev = Some true ->
  exists l1 k l2, l = l1 ++ (k, ev) :: l2.
Proof.
  intros H Hs. apply (ok_set _ _ _ H), list_elem_of_fmap in Hs as ([k ev'] & -> & Hin).
  apply list_elem_of_split in Hin as (l1 & l2 & ->). by exists l1, k, l2.
Qed.

Lemma key_read w l1 k ev l2 X : timers_ok_at w (l1 ++ (k, ev) :: l2) X -> get n_key (timer_of ev) (rb w) = Some k.
Proof.
  intros H. apply (on_inside _ _ _ _ _ _ (ok_tree _ _ _ H)). rewrite fmap_app. apply elem_of_app. right. by left.
Qed.

(** Taking a timer out, by [event_timer_del] or when it is due. *)
Lemma take_out_spec w l1 k ev l2 X b :
  timers_ok_at w (l1 ++ (k, ev) :: l2) X ->
  exists tr m, on_delete (tree_fuel (rb w)) (timer_rbtree w) (timer_of ev) (rb w) = Some (tr, m) /\
    timers_ok (with_event ev {| timer_set := false; timedout := b |} (with_tree tr m w)) (l1 ++ l2).
Proof.
  intros H. pose proof (ok_nodup _ _ _ H) as Hnd. pose proof (ok_tree _ _ _ H) as Ht.
  pose proof (tree_fuel_enough _ _ _ _ Ht) as Hf. rewrite fmap_app, fmap_cons in Ht, Hf.
  destruct (on_delete_spec _ _ _ _ _ _ _ _ Ht Hf) as (tr & m & n & Hd & Hsn & Hrep).
  exists tr, m. split; [exact Hd |]. exists ((timer_of ev, n) :: X).
  rewrite fmap_app, fmap_cons in Hnd. cbn in Hnd. split; cbn.
  - by rewrite fmap_app.
  - by rewrite Hsn, (ok_sentinel _ _ _ H).
  - pose proof (ok_sorted _ _ _ H) as Hs. apply sorted_app in Hs as (Hs1 & [Hs2 _]%StronglySorted_inv & Hs3).
    apply sorted_app. split; [done |]. split; [done |]. intros u v Hu Hv. apply Hs3; [done | by right].
  - intros ev'. pose proof (ok_set _ _ _ H ev') as He. rewrite fmap_app, fmap_cons in He. cbn in He.
    rewrite fmap_app. apply NoDup_app in Hnd as (_ & Hd1 & [Hn _]%NoDup_cons).
    destruct (decide (ev' = ev)) as [-> | Hne].
    + rewrite lookup_insert_eq. cbn. split; [|done]. rewrite elem_of_app. intros [Hin | Hin]; [|done].
      exfalso. apply (Hd1 ev Hin). by left.
    + rewrite lookup_insert_ne by done. rewrite <- He, !elem_of_app, elem_of_cons. naive_solver.
  - intros ev' He. rewrite elem_of_cons. destruct (decide (ev' = ev)) as [-> | Hne]; [by left |]. right.
    rewrite lookup_insert_ne in He by done. by apply (ok_unset _ _ _ H).
Qed.

Lemma del_spec w l ev :
  timers_ok w l -> is_Some (events w !! ev) ->
  exists w', event_timer_del ev w = Some w' /\ timers_ok w' (unset ev l) /\ timer_set <$> events w' !! ev = Some false /\
    clock w' = clock w.
Proof.
  intros [X H] [e He]. unfold event_timer_del. rewrite He. cbn [mbind option_bind]. destruct (timer_set e) eqn:Es; cbn [negb].
  - destruct (set_middle _ _ _ ev H) as (l1 & k & l2 & ->); [by rewrite He; cbn; rewrite Es |].
    rewrite unset_middle by by eapply ok_nodup.
    destruct (take_out_spec _ _ _ _ _ _ (timedout e) H) as (tr & m & Hd & Hok). rewrite Hd. cbn [mbind option_bind].
    eexists. split; [done |]. split; [done |]. cbn. by rewrite lookup_insert_eq.
  - exists w. split; [done |]. split; [|by rewrite He; cbn; rewrite Es]. exists X.
    assert (unset ev l = l) as ->; [|done]. apply list_filter_all, Forall_forall. intros u Hu Hue.
    assert (ev ∈ l.*2) as Hin by (apply list_elem_of_fmap; by exists u). apply (ok_set _ _ _ H) in Hin.
    rewrite He in Hin. cbn in Hin. congruence.
Qed.

Lemma arm_spec w l ev key :
  timers_ok w l -> timer_set <$> events w !! ev = Some false ->
  exists w', event_timer_arm ev key w = Some w' /\ timers_ok w' (ordered_insert key ev l) /\ clock w' = clock w.
Proof.
  intros [X H] Hs. pose proof (ok_unset _ _ _ H ev Hs) as Hin. apply list_elem_of_fmap in Hin as ([x n] & Hx & Hin).
  cbn in Hx. subst x. pose proof (on_outside _ _ _ _ _ _ (ok_tree _ _ _ H) Hin) as Hn.
  apply list_elem_of_split in Hin as (X1 & X2 & ->).
  unfold event_timer_arm, upd. rewrite Hn. cbn [mbind option_bind].
  pose proof (ok_tree _ _ _ H) as Ht. apply (on_perm _ _ _ _ ((timer_of ev, n) :: X1 ++ X2)) in Ht; [|solve_Permutation].
  apply (on_set _ _ _ _ _ _ (with_key key n)) in Ht.
  assert (sorted (node_of <$> l)) as Hsn.
  { pose proof (ok_sorted _ _ _ H) as Hl. clear -Hl. induction Hl as [|u l Hl IH Hf]; [constructor |].
    rewrite fmap_cons. constructor; [done |]. apply Forall_fmap. exact Hf. }
  destruct (on_insert_spec _ _ _ _ _ _ _ Ht Hsn (tree_fuel_enough _ _ _ _ Ht)) as (tr & m & Hi & Hst & Hrep).
  rewrite Hi. cbn [mbind option_bind]. apply fmap_Some in Hs as (e & He & Hes). rewrite He. cbn [mbind option_bind].
  eexists. split; [done |]. split; [|done]. exists (X1 ++ X2). split; cbn.
  - by rewrite <- ordered_insert_node.
  - by rewrite Hst, (ok_sentinel _ _ _ H).
  - apply sorted_ordered_insert, (ok_sorted _ _ _ H).
  - intros ev'. pose proof (ok_set _ _ _ H ev') as Hev. rewrite ordered_insert_perm, fmap_cons, elem_of_cons. cbn.
    destruct (decide (ev' = ev)) as [-> | Hne]; [rewrite lookup_insert_eq; cbn; tauto |].
    rewrite lookup_insert_ne by done. rewrite <- Hev. naive_solver.
  - intros ev' He'. destruct (decide (ev' = ev)) as [-> | Hne]; [by rewrite lookup_insert_eq in He' |].
    rewrite lookup_insert_ne in He' by done. apply (ok_unset _ _ _ H) in He'. revert He'.
    rewrite !fmap_app, fmap_cons, !elem_of_app, elem_of_cons. cbn. intros [? | [E%timer_of_inj | ?]]; [by left | done | by right].
Qed.

Lemma empty_test w l X : timers_ok_at w l X -> root (timer_rbtree w) = sentinel (timer_rbtree w) <-> l = [].
Proof. intros H. rewrite (on_empty _ _ _ _ (ok_tree _ _ _ H)). by destruct l. Qed.

Lemma first_timer w k ev l X :
  timers_ok_at w ((k, ev) :: l) X ->
  on_min (tree_fuel (rb w)) (timer_rbtree w) (rb w) = Some (timer_of ev) /\ get n_key (timer_of ev) (rb w) = Some k.
Proof.
  intros H. pose proof (ok_tree _ _ _ H) as Ht. split; [|by apply (key_read w [] k ev l X)].
  eapply on_min_spec; [exact Ht |]. by eapply tree_fuel_enough.
Qed.

Lemma expire_stops handler fuel w l :
  timers_ok w l -> keys_gt l (clock w) -> event_timers_expire handler (S fuel) w = Some w.
Proof.
  intros [X H] Hk. cbn [event_timers_expire]. pose proof (empty_test _ _ _ H) as He. destruct l as [|[k ev] l].
  - rewrite bool_decide_true by by apply He. done.
  - rewrite bool_decide_false by (intros E; by apply He in E). destruct (first_timer _ _ _ _ _ H) as [-> Hkey].
    cbn [mbind option_bind]. rewrite Hkey. cbn [mbind option_bind]. apply Forall_cons in Hk as [Hk _]. cbn in Hk.
    by destruct (Z.leb_spec k (clock w)); [lia |].
Qed.

Lemma expire_step handler fuel w k ev l :
  timers_ok w ((k, ev) :: l) -> k <= clock w ->
  exists w1, event_timers_expire handler (S fuel) w = (w2 ← handler ev w1; event_timers_expire handler fuel w2) /\ timers_ok w1 l /\
    clock w1 = clock w /\ user w1 = user w /\ events w1 = <[ev := {| timer_set := false; timedout := true |}]> (events w).
Proof.
  intros [X H] Hk. cbn [event_timers_expire]. pose proof (empty_test _ _ _ H) as He.
  rewrite bool_decide_false by (intros E; by apply He in E). destruct (first_timer _ _ _ _ _ H) as [-> Hkey].
  cbn [mbind option_bind]. rewrite Hkey. cbn [mbind option_bind]. destruct (Z.leb_spec k (clock w)); [|lia].
  rewrite event_of_timer. destruct (take_out_spec w [] k ev l X true H) as (tr & m & Hd & Hok). rewrite Hd.
  cbn [mbind option_bind]. assert (ev ∈ ((k, ev) :: l).*2) as Hin by by left. apply (ok_set _ _ _ H), fmap_Some in Hin as (e & He' & _).
  rewrite He'. cbn [mbind option_bind]. eexists. split; [reflexivity |]. done.
Qed.

(** [event_timer_add] refines the update of an ordered sequence of timers: it terminates,
    whatever the tree holds, and afterwards the event's timer is in the sequence once, at the
    current time plus [timer], behind the timers due at the same time - or where it was, when
    it ran already and the new time is less than 300 ms from the old one; all other timers
    keep their keys and their order. *)
Theorem event_timer_add_refines w l ev timer :
  timers_ok w l -> is_Some (events w !! ev) -> is_s64 (clock w + timer) ->
  (forall old, key_of ev l = Some old -> is_s64 (clock w + timer - old)) ->
  exists w', event_timer_add ev timer w = Some w' /\ timers_ok w' (timer_add (clock w + timer) ev l).
Proof.
  intros Hok [e He] Hk Hd. pose proof Hok as [X H]. unfold event_timer_add, int64, timer_add.
  rewrite bool_decide_true by done. cbn [mbind option_bind]. rewrite He. cbn [mbind option_bind].
  destruct (timer_set e) eqn:Es.
  - destruct (set_middle _ _ _ ev H) as (l1 & k & l2 & El); [by rewrite He; cbn; rewrite Es |]. subst l.
    rewrite key_of_middle in Hd |- * by by eapply ok_nodup. rewrite (key_read _ _ _ _ _ _ H). cbn [mbind option_bind].
    rewrite bool_decide_true by by apply Hd. cbn [mbind option_bind]. destruct (_ <? _); [by exists w |].
    destruct (del_spec _ _ ev Hok) as (w1 & -> & Hok1 & He1 & _); [by eexists |]. cbn [mbind option_bind].
    destruct (arm_spec _ _ ev (clock w + timer) Hok1 He1) as (w2 & Ha & Hok2 & _). by exists w2.
  - assert (timer_set <$> events w !! ev = Some false) as Hs by by rewrite He; cbn; rewrite Es.
    rewrite key_of_none by (intros Hin; apply (ok_set _ _ _ H) in Hin; congruence).
    destruct (arm_spec _ _ ev (clock w + timer) Hok Hs) as (w2 & Ha & Hok2 & _). by exists w2.
Qed.

(** [event_find_timer] returns the time until the first timer is due, 0 when one is due
    already, and [EVENT_TIMER_INFINITE] exactly when no timer runs: waiting that long makes
    the first timer due, and no timer before. *)
Theorem event_find_timer_exact w l :
  timers_ok w l -> Forall (fun u => is_s64 (u.1 - clock w)) l ->
  exists t, event_find_timer w = Some t /\
    match head l with
    | None => t = EVENT_TIMER_INFINITE
    | Some u => 0 <= t /\ u.1 <= clock w + t /\ (0 < t -> keys_gt l (clock w + t - 1))
    end.
Proof.
  intros [X H] Hs. unfold event_find_timer. rewrite <- (ok_sentinel _ _ _ H). pose proof (empty_test _ _ _ H) as He.
  destruct l as [|[k ev] l].
  - rewrite bool_decide_true by by apply He. by eexists.
  - rewrite bool_decide_false by (intros E; by apply He in E). destruct (first_timer _ _ _ _ _ H) as [-> Hkey].
    cbn [mbind option_bind]. rewrite Hkey. cbn [mbind option_bind]. apply Forall_cons in Hs as [Hs _]. unfold int64.
    rewrite bool_decide_true by done. cbn [mbind option_bind]. eexists. split; [done |]. cbn.
    pose proof (ok_sorted _ _ _ H) as [Hl Hf]%StronglySorted_inv. cbn in Hf.
    destruct (Z.gtb_spec (k - clock w) 0); (split; [lia |]; split; [lia |]); [|lia].
    intros _. constructor; [cbn; lia |]. eapply Forall_impl; [exact Hf |]. cbn. lia.
Qed.

Definition with_user (u : U) (w : timers) : timers :=
  {| timer_rbtree := timer_rbtree w; timer_sentinel := timer_sentinel w; rb := rb w; events := events w; clock := clock w; user := u |}.

Lemma timers_ok_user u w l : timers_ok w l -> timers_ok (with_user u w) l.
Proof. intros [X H]. exists X. by destruct H. Qed.

(** C31. Expiry calls the handlers of exactly the timers that are due, in the order of their
    keys and of their arming, each once. [seen] are the calls, each with the state the handler
    found, which it may inspect as a whole: its event was marked timed out, the event's timer
    was out of the tree, and the timers that ran were those still to come and the ones that are
    not due; these stay in the end. (The handlers here change only data of their own,
    [user].) *)
Theorem event_timers_expire_in_order handler (f : ptr -> timers -> U) fuel w due rest :
  (forall ev w, handler ev w = Some (with_user (f ev w) w)) ->
  timers_ok w (due ++ rest) -> keys_le due (clock w) -> keys_gt rest (clock w) -> (length due < fuel)%nat ->
  exists w' seen, event_timers_expire handler fuel w = Some w' /\ timers_ok w' rest /\ clock w' = clock w /\
    seen.*1 = due.*2 /\
    (forall i ev v, seen !! i = Some (ev, v) -> timers_ok v (drop (S i) due ++ rest) /\ clock v = clock w /\
      events v !! ev = Some {| timer_set := false; timedout := true |}) /\
    user w :: map (fun c => f c.1 c.2) seen = map (fun c => user c.2) seen ++ [user w'] /\
    forall ev, events w' !! ev = if decide (ev ∈ due.*2) then Some {| timer_set := false; timedout := true |} else events w !! ev.
Proof.
  intros Hh. revert w fuel. induction due as [|[k ev] due IH]; intros w fuel Hok Hle Hgt Hf; destruct fuel as [|fuel]; [lia | | simpl in Hf; lia |].
  - exists w, []. split; [by eapply expire_stops |]. done.
  - apply Forall_cons in Hle as [Hk Hle]. destruct (expire_step handler fuel _ _ _ _ Hok Hk) as (w1 & -> & Hok1 & Hc & Hu & He).
    rewrite Hh. cbn [mbind option_bind]. simpl in Hf.
    destruct (IH (with_user (f ev w1) w1) fuel) as (w' & seen & -> & Hok' & Hc' & Hev & Hseen & Hu' & He');
      [by apply timers_ok_user | cbn; by rewrite Hc | cbn; by rewrite Hc | lia |].
    exists w', ((ev, w1) :: seen). split; [done |]. split; [done |]. split; [by rewrite Hc' |]. split; [by rewrite !fmap_cons, Hev |].
    split; [| split; [by cbn in *; rewrite Hu, <- Hu' |]].
    + intros [|i] ev' v; cbn [lookup list_lookup drop].
      * intros [= <- <-]. split; [done |]. split; [done |]. rewrite He. apply lookup_insert_eq.
      * intros Hi. destruct (Hseen i ev' v Hi) as (? & Hcv & ?). split; [done |]. split; [by rewrite Hcv; cbn |]. done.
    + intros ev'. rewrite He'. cbn [events with_user]. rewrite He, fmap_cons. cbn [snd].
      destruct (decide (ev' = ev)) as [-> | Hne].
      * rewrite lookup_insert_eq. rewrite (decide_True (P := ev ∈ _ :: _)) by by left. by case_decide.
      * rewrite lookup_insert_ne by done. do 2 case_decide; try done; rewrite elem_of_cons in *; naive_solver.
Qed.

(** C39. Expiry terminates for handlers that stop timers and arm new ones in the future: no
    more handlers run than timers are due, and none is due in the end. *)
Theorem event_timers_expire_terminates handler fuel w l :
  (forall ev w l, timers_ok w l -> exists w' l', handler ev w = Some w' /\ timers_ok w' l' /\ clock w' = clock w /\
    forall u, u ∈ l' -> u.1 <= clock w -> u ∈ l) ->
  timers_ok w l -> (length (filter (fun u => (u.1 <= clock w)%Z) l) < fuel)%nat ->
  exists w' l', event_timers_expire handler fuel w = Some w' /\ timers_ok w' l' /\ clock w' = clock w /\ keys_gt l' (clock w).
Proof.
  intros Hh. revert w l. induction fuel as [|fuel IH]; intros w l Hok Hf; [lia |]. pose proof Hok as [X H].
  assert (l = [] \/ exists k ev l', l = (k, ev) :: l') as [-> | (k & ev & l' & ->)] by (destruct l as [|[k ev] l']; eauto).
  { exists w, []. split; [by apply (expire_stops handler fuel w []) |]. done. }
  pose proof (ok_sorted _ _ _ H) as [Hl Hall]%StronglySorted_inv. destruct (Z.le_gt_cases k (clock w)) as [Hk | Hk].
  - destruct (expire_step handler fuel _ _ _ _ Hok Hk) as (w1 & -> & Hok1 & Hc & _ & _).
    destruct (Hh ev w1 l' Hok1) as (w2 & l2 & -> & Hok2 & Hc2 & Hsub). cbn [mbind option_bind].
    destruct (IH w2 l2 Hok2) as (w' & l3 & -> & Hok3 & Hc3 & Hgt); [|exists w', l3; by rewrite Hc3, Hc2, Hc in *].
    rewrite filter_cons_True in Hf by done. simpl in Hf. eapply Nat.le_lt_trans; [|apply Nat.succ_lt_mono, Hf].
    destruct Hok2 as [X2 H2]. pose proof (ok_nodup _ _ _ H2) as Hnd.
    apply submseteq_length, NoDup_submseteq; [apply NoDup_filter, (NoDup_fmap_1 snd), Hnd |].
    intros u. rewrite !list_elem_of_filter, Hc2, Hc. intros [Hu Hin]. split; [done |]. apply Hsub; [done | by rewrite Hc].
  - exists w, ((k, ev) :: l'). assert (keys_gt ((k, ev) :: l') (clock w)) as Hgt.
    { constructor; [done |]. eapply Forall_impl; [exact Hall |]. cbn. lia. }
    split; [by eapply expire_stops |]. done.
Qed.
End EventTimer.

(** A fresh timer of a thread runs no timers. *)
Lemma event_timer_init_ok {U} offset s n m X evs now (u : U) :
  holds m ((s, n) :: X) -> nullptr ∉ s :: X.*1 ->
  (forall ev e, evs !! ev = Some e -> timer_set e = false /\ timer_of offset ev ∈ X.*1) ->
  exists w, event_timer_init s m evs now u = Some w /\ timers_ok offset w [].
Proof.
  intros H Hnull He. destruct (rbtree_init_spec s n m X H) as (m' & Hm & Hrep).
  unfold event_timer_init. rewrite Hm. cbn [mbind option_bind]. eexists. split; [done |]. exists X. split; cbn.
  - by split.
  - done.
  - constructor.
  - intros ev. split; [by intros ?%elem_of_nil |]. intros (e & Hev & Ht)%fmap_Some. apply He in Hev as [Hf _]. congruence.
  - intros ev (e & Hev & _)%fmap_Some. by apply He in Hev as [_ ?].
Qed.

(** ** Concrete inputs *)

(** Two timers, due at 3 and at 5, and an event without a timer; it is 4. *)
Definition demo_timers : timers (U := list ptr) :=
  {| timer_rbtree := {| root := 10; sentinel := 1 |}; timer_sentinel := 1; rb := demo_nodes;
     events := <[2%N := {| timedout := false; timer_set := true |}]> (<[12%N := {| timedout := false; timer_set := true |}]>
       (<[22%N := {| timedout := false; timer_set := false |}]> ∅));
     clock := 4; user := [] |}.

Lemma demo_timers_ok : timers_ok 8 demo_timers [(3, 12%N); (5, 2%N)].
Proof.
  exists [(30%N, demo_node 4 0 0)]. split.
  - split; [exact demo_rep |]. by apply (bool_decide_unpack _); vm_compute.
  - done.
  - repeat constructor; simpl; lia.
  - intros ev. cbn [events demo_timers]. change ([(3, 12%N); (5, 2%N)].*2) with [12%N; 2%N].
    destruct (decide (ev = 2%N)) as [-> | H1]; [by rewrite lookup_insert_eq; split; [| intros _; right; left] |].
    rewrite lookup_insert_ne by done. destruct (decide (ev = 12%N)) as [-> | H2]; [by rewrite lookup_insert_eq; split; [| left] |].
    rewrite lookup_insert_ne by done. destruct (decide (ev = 22%N)) as [-> | H3]; [rewrite lookup_insert_eq; set_solver |].
    rewrite lookup_insert_ne by done. set_solver.
  - intros ev. cbn [events demo_timers]. rewrite !lookup_insert, lookup_empty.
    repeat case_decide; try done. subst. intros _. by left.
Qed.

(** The third timer, due at 4 as well, runs behind the first. *)
Lemma event_timer_add_refines_witness :
  exists w', event_timer_add 8 22 0 demo_timers = Some w' /\ timers_ok 8 w' [(3, 12%N); (4, 22%N); (5, 2%N)].
Proof.
  apply (event_timer_add_refines 8 _ _ 22 0 demo_timers_ok); [by eexists | by vm_compute | by intros old [=]].
Defined.

Lemma event_find_timer_exact_witness :
  exists t, event_find_timer demo_timers = Some t /\ 0 <= t /\ 3 <= 4 + t /\
    (0 < t -> keys_gt [(3, 12%N); (5, 2%N)] (4 + t - 1)).
Proof. apply (event_find_timer_exact 8 _ _ demo_timers_ok). by repeat constructor; vm_compute. Defined.

(** A handler that logs its event. *)
Definition log_handler (ev : ptr) (w : timers (U := list ptr)) : option (timers (U := list ptr)) :=
  Some (with_user (ev :: user w) w).

Lemma event_timers_expire_in_order_witness :
  exists w' (v : timers (U := list ptr)), event_timers_expire 8 log_handler 2 demo_timers = Some w' /\ timers_ok 8 w' [(5, 2%N)] /\ user w' = [12%N] /\
    timers_ok 8 v [(5, 2%N)] /\ events v !! 12%N = Some {| timer_set := false; timedout := true |} /\ user v = [].
Proof.
  destruct (event_timers_expire_in_order 8 log_handler (fun ev w => ev :: user w) 2 demo_timers [(3, 12%N)] [(5, 2%N)])
    as (w' & seen & H1 & H2 & _ & Hev & Hseen & Hu & _);
    [done | exact demo_timers_ok | by repeat constructor; vm_compute.. | simpl; lia |].
  destruct seen as [| [ev v] [| c seen]]; [discriminate Hev | | discriminate Hev]. injection Hev as ->. injection Hu as Hv Hw.
  destruct (Hseen 0%nat 12%N v eq_refl) as (H3 & _ & H4). exists w', v.
  split; [exact H1 |]. split; [exact H2 |]. split; [rewrite <- Hw, <- Hv; reflexivity |]. split; [exact H3 |]. split; [exact H4 |]. symmetry. exact Hv.
Defined.

Lemma event_timers_expire_terminates_witness :
  exists w' l', event_timers_expire 8 log_handler 2 demo_timers = Some w' /\ timers_ok 8 w' l' /\ clock w' = 4 /\ keys_gt l' 4.
Proof.
  apply (event_timers_expire_terminates 8 log_handler 2 demo_timers [(3, 12%N); (5, 2%N)]);
    [| exact demo_timers_ok | vm_compute; lia].
  intros ev w l H. exists (with_user (ev :: user w) w), l. split; [done |]. split; [by apply timers_ok_user |]. done.
Defined.
