(* ===== verification/Shmem.v ===== *)
(** * The shared-memory allocator ([src/core/dfs_shmem.cpp])

    One mapped segment: the control record, an array of size classes, and after them the
    blocks ([storage] headers, each followed by its bytes). All blocks are in address order
    in one queue; the free ones are also in the queue of their class, and the classes that
    have free blocks in the queue [available].

    Every [queue_t] field is a link heap of [Queue] of its own, keyed by the object the field
    is in ([order]: the control record and the blocks; [available]: the control record and
    the classes; [frees]: the classes and the blocks), so [queue_data] is the identity. All
    other fields of the blocks are in [storages]. An access to an object that was never
    written is undefined ([None]). *)

From stdpp Require Import sorting strings.
From S2P Require Import Prelude Numeric Queue.

Definition STORAGE_SIZE : Z := 64.
Definition FREE_NODE_SIZE : Z := 40.
Definition SHMEM_SIZE : Z := 168.
Definition DFS_SHMEM_LEVEL_TYPE_LINEAR : Z := 0.
Definition DFS_SHMEM_LEVEL_TYPE_EXP : Z := 1.
Definition DFS_SHMEM_EXP_FACTOR : Z := 2.

(* src/src/core/dfs_shmem.h:33-65 (DFS_SHMEM_ERR_NONE) *)
Inductive shmem_errno :=
| ERR_NONE | CREATE_SIZE | CREATE_MINSIZE | CREATE_LEVELTYPE | CREATE_FREELEN | CREATE_TOTALSIZE
| CREATE_TOTALSIZE_NOT_ENOUGH | CREATE_MMAP | CREATE_STORAGESIZE | RELEASE_NULL | RELEASE_MUNMAP | ALLOC_PARAM
| ALLOC_EXHAUSTED | ALLOC_MAX_AVAILABLE_EMPTY | ALLOC_NO_AVAILABLE_FREE_LIST | ALLOC_NO_FIXED_FREE_SPACE
| ALLOC_FOUND_NO_FIXED | ALLOC_REMOVE_FREE | GET_MAX_PARAM | GET_MAX_EXHAUSTED | GET_MAX_CRITICAL | SPLIT_ALLOC_PARAM
| SPLIT_ALLOC_NO_FIXED_REQ_MINSIZE | SPLIT_ALLOC_REMOVE_FREE | FREE_PARAM | FREE_NONALLOCED | FREE_REMOVE_NEXT
| FREE_REMOVE_PREV.
#[export] Instance shmem_errno_eq_dec : EqDecision shmem_errno.
Proof. solve_decision. Defined.

(* src/src/core/dfs_shmem.h:67-76 (storage) *)
Record storage := { alloc : bool; sz : Z; act_size : Z; free_list_head : ptr }.

(* src/src/core/dfs_shmem.h:85-96 (dfs_shmem_stat_s) *)
Record dfs_shmem_stat := {
  used_size : Z; reqs_size : Z; st_count : Z; st_size : Z; total_size : Z; system_size : Z;
  failed : Z; split_failed : Z; split : Z
}.

(** [base] is the address of the control record, [free] of the array of classes. *)
(* src/src/core/dfs_shmem.h:98-111 (dfs_shmem_s) *)
Record shmem := {
  base : ptr; free : ptr; free_len : Z; max_available_index : Z; min_size : Z; max_size : Z; factor : Z;
  split_threshold : Z; level_type : Z; shmem_stat : dfs_shmem_stat;
  order : links; available : links; frees : links; storages : gmap ptr storage
}.

(** [(char * )p + n] *)
Definition addr (p : ptr) (n : Z) : ptr := Z.to_N (Z.of_N p + n).

(** [&shm->free[i]]; the [index] stored in a class is its place in the array. *)
(* src/src/core/dfs_shmem.h:78-83 (free_node) *)
Definition class_at (s : shmem) (i : Z) : ptr := addr (free s) (FREE_NODE_SIZE * i).
Definition index (s : shmem) (c : ptr) : Z := (Z.of_N c - Z.of_N (free s)) / FREE_NODE_SIZE.

(** ** Field updates *)

Definition with_max (i : Z) (s : shmem) : shmem :=
  {| base := base s; free := free s; free_len := free_len s; max_available_index := i; min_size := min_size s;
     max_size := max_size s; factor := factor s; split_threshold := split_threshold s; level_type := level_type s;
     shmem_stat := shmem_stat s; order := order s; available := available s; frees := frees s; storages := storages s |}.
Definition with_threshold (t : Z) (s : shmem) : shmem :=
  {| base := base s; free := free s; free_len := free_len s; max_available_index := max_available_index s;
     min_size := min_size s; max_size := max_size s; factor := factor s; split_threshold := t; level_type := level_type s;
     shmem_stat := shmem_stat s; order := order s; available := available s; frees := frees s; storages := storages s |}.
Definition with_stat (st : dfs_shmem_stat) (s : shmem) : shmem :=
  {| base := base s; free := free s; free_len := free_len s; max_available_index := max_available_index s;
     min_size := min_size s; max_size := max_size s; factor := factor s; split_threshold := split_threshold s;
     level_type := level_type s; shmem_stat := st; order := order s; available := available s; frees := frees s;
     storages := storages s |}.
Definition with_order (m : links) (s : shmem) : shmem :=
  {| base := base s; free := free s; free_len := free_len s; max_available_index := max_available_index s;
     min_size := min_size s; max_size := max_size s; factor := factor s; split_threshold := split_threshold s;
     level_type := level_type s; shmem_stat := shmem_stat s; order := m; available := available s; frees := frees s;
     storages := storages s |}.
Definition with_available (m : links) (s : shmem) : shmem :=
  {| base := base s; free := free s; free_len := free_len s; max_available_index := max_available_index s;
     min_size := min_size s; max_size := max_size s; factor := factor s; split_threshold := split_threshold s;
     level_type := level_type s; shmem_stat := shmem_stat s; order := order s; available := m; frees := frees s;
     storages := storages s |}.
Definition with_frees (m : links) (s : shmem) : shmem :=
  {| base := base s; free := free s; free_len := free_len s; max_available_index := max_available_index s;
     min_size := min_size s; max_size := max_size s; factor := factor s; split_threshold := split_threshold s;
     level_type := level_type s; shmem_stat := shmem_stat s; order := order s; available := available s; frees := m;
     storages := storages s |}.
Definition with_storage (st : ptr) (h : storage) (s : shmem) : shmem :=
  {| base := base s; free := free s; free_len := free_len s; max_available_index := max_available_index s;
     min_size := min_size s; max_size := max_size s; factor := factor s; split_threshold := split_threshold s;
     level_type := level_type s; shmem_stat := shmem_stat s; order := order s; available := available s; frees := frees s;
     storages := <[st := h]> (storages s) |}.

Definition set_free_list_head (st v : ptr) (s : shmem) : option shmem :=
  h ← storages s !! st;
  Some (with_storage st {| alloc := alloc h; sz := sz h; act_size := act_size h; free_list_head := v |} s).
Definition set_size (st : ptr) (n : Z) (s : shmem) : option shmem :=
  h ← storages s !! st;
  Some (with_storage st {| alloc := alloc h; sz := n; act_size := act_size h; free_list_head := free_list_head h |} s).
Definition set_act_size (st : ptr) (n : Z) (s : shmem) : option shmem :=
  h ← storages s !! st;
  Some (with_storage st {| alloc := alloc h; sz := sz h; act_size := n; free_list_head := free_list_head h |} s).
Definition set_alloc (st : ptr) (b : bool) (s : shmem) : option shmem :=
  h ← storages s !! st;
  Some (with_storage st {| alloc := b; sz := sz h; act_size := act_size h; free_list_head := free_list_head h |} s).

Definition add_stat (used reqs count : Z) (s : shmem) : shmem :=
  let t := shmem_stat s in
  with_stat {| used_size := u64 (used_size t + used); reqs_size := u64 (reqs_size t + reqs);
    st_count := u64 (st_count t + count); st_size := st_size t; total_size := total_size t; system_size := system_size t;
    failed := failed t; split_failed := split_failed t; split := split t |} s.
Definition count_stat (f sf sp : Z) (s : shmem) : shmem :=
  let t := shmem_stat s in
  with_stat {| used_size := used_size t; reqs_size := reqs_size t; st_count := st_count t; st_size := st_size t;
    total_size := total_size t; system_size := system_size t; failed := u64 (failed t + f);
    split_failed := u64 (split_failed t + sf); split := u64 (split t + sp) |} s.

(** ** Size classes *)

(** Division by zero is undefined. *)
Definition divide (a b : Z) : option Z := if b =? 0 then None else Some (a / b).

(** The rounded-up quotient both class functions and [dfs_shmem_create] compute. *)
Definition divide_up (a b : Z) : option Z :=
  q ← divide a b; Some (if negb (a mod b =? 0) then u64 (q + 1) else q).

(* src/src/core/dfs_shmem.cpp:70-101 (dfs_shmem_get_alloc_index) *)
Definition dfs_shmem_get_alloc_index (s : shmem) (size : Z) : option Z :=
  if size <=? min_size s then Some 0
  else if level_type s =? DFS_SHMEM_LEVEL_TYPE_LINEAR then divide_up (size - min_size s) (factor s)
  else power ← divide_up size (min_size s); dfs_math_dfslog2 power 1.

(* src/src/core/dfs_shmem.cpp:103-124 (dfs_shmem_get_insert_index) *)
Definition dfs_shmem_get_insert_index (s : shmem) (size : Z) : option Z :=
  if size <=? min_size s then Some 0
  else if level_type s =? DFS_SHMEM_LEVEL_TYPE_LINEAR then divide (size - min_size s) (factor s)
  else power ← divide size (min_size s); dfs_math_dfslog2 power 0.

(** ** The free lists *)

(** The free list of class [i] has become empty. *)
(* src/src/core/dfs_shmem.cpp:314-331 (dfs_shmem_remove_free) *)
Definition retire_class (i : Z) (s : shmem) : option shmem :=
  let c := class_at s i in
  s ← (
    if i =? max_available_index s then
      pqueue ← queue_prev c (available s);
      Some (with_max (if bool_decide (pqueue = base s) then free_len s else index s pqueue) s)
    else Some s);
  m ← queue_remove c (available s);
  Some (with_available m s).

(** [false] is [DFS_SHMEM_ERROR]. *)
(* src/src/core/dfs_shmem.cpp:295-336 (dfs_shmem_remove_free) *)
Definition dfs_shmem_remove_free (st : ptr) (s : shmem) : option (bool * shmem) :=
  h ← storages s !! st;
  index0 ← dfs_shmem_get_insert_index s (sz h);
  let i := if max_available_index s <? index0 then max_available_index s else index0 in
  let c := class_at s i in
  if negb (bool_decide (free_list_head h = c)) then Some (false, s)
  else
    m ← queue_remove st (frees s);
    let s := with_frees m s in
    e ← queue_empty c (frees s);
    s ← (if (e : bool) then retire_class i s else Some s);
    s ← set_free_list_head st nullptr s;
    Some (true, s).

(** The search for the first class behind [index0]; [base] when there is none. *)
(* src/src/core/dfs_shmem.cpp:363-383 (dfs_shmem_insert_free) *)
Fixpoint insert_place (fuel : nat) (s : shmem) (index0 : Z) (q : ptr) : option ptr :=
  match fuel with
  | O => None
  | S fuel =>
      if bool_decide (q = base s) then Some q
      else if index0 <? index s q then Some q
      else q ← queue_next q (available s); insert_place fuel s index0 q
  end.

(** The free list of class [i] is about to get its first block. *)
(* src/src/core/dfs_shmem.cpp:361-390 (dfs_shmem_insert_free) *)
Definition enlist_class (i : Z) (s : shmem) : option shmem :=
  let c := class_at s i in
  q ← queue_head (base s) (available s);
  q ← insert_place (S (S (Z.to_nat (free_len s)))) s i q;
  if bool_decide (q = base s) then
    m ← queue_insert_tail (base s) c (available s);
    Some (with_max (index s c) (with_available m s))
  else
    m ← queue_insert_before q c (available s);
    Some (with_available m s).

(* src/src/core/dfs_shmem.cpp:338-393 (dfs_shmem_insert_free) *)
Definition dfs_shmem_insert_free (st_free : ptr) (s : shmem) : option shmem :=
  h ← storages s !! st_free;
  if alloc h then Some s
  else
    index0 ← dfs_shmem_get_insert_index s (sz h);
    let i := if u64 (free_len s - 1) <? index0 then u64 (free_len s - 1) else index0 in
    let c := class_at s i in
    s ← set_free_list_head st_free c s;
    e ← queue_empty c (frees s);
    s ← (if (e : bool) then enlist_class i s else Some s);
    m ← queue_insert_head c st_free (frees s);
    Some (with_frees m s).

(** ** Allocation *)

(** The first class behind [index0] with a free block. *)
(* src/src/core/dfs_shmem.cpp:434-447 (dfs_shmem_alloc) *)
Fixpoint find_class (fuel : nat) (s : shmem) (index0 : Z) (q : ptr) : option (option ptr) :=
  match fuel with
  | O => None
  | S fuel =>
      if bool_decide (q = base s) then Some None
      else
        e ← queue_empty q (frees s);
        if negb (e : bool) && (index0 <? index s q) then Some (Some q)
        else q ← queue_next q (available s); find_class fuel s index0 q
  end.

(* src/src/core/dfs_shmem.cpp:474-491 (dfs_shmem_alloc) *)
Fixpoint first_fit (fuel : nat) (s : shmem) (c st : ptr) (size : Z) : option (option ptr) :=
  match fuel with
  | O => None
  | S fuel =>
      h ← storages s !! st;
      if size <=? sz h then Some (Some st)
      else
        q ← queue_next st (frees s);
        if bool_decide (c = q) then Some None else first_fit fuel s c q size
  end.

(** Turns that exhaust the blocks. *)
Definition block_fuel (s : shmem) : nat := S (size (storages s)).

(** The class to search, or the error. *)
(* src/src/core/dfs_shmem.cpp:424-471 (dfs_shmem_alloc) *)
Definition choose_class (s : shmem) (size : Z) : option (ptr + shmem_errno) :=
  index0 ← dfs_shmem_get_alloc_index s size;
  if index0 <? max_available_index s then
    let c := class_at s index0 in
    e ← queue_empty c (frees s);
    if negb (e : bool) then Some (inl c)
    else
      q ← queue_head (base s) (available s);
      r ← find_class (S (S (Z.to_nat (free_len s)))) s index0 q;
      match r with
      | Some c => Some (inl c)
      | None =>
          e ← queue_empty (base s) (available s);
          Some (inr (if (e : bool) then ALLOC_NO_AVAILABLE_FREE_LIST else ALLOC_NO_FIXED_FREE_SPACE))
      end
  else
    let c := class_at s (max_available_index s) in
    e ← queue_empty c (frees s);
    Some (if (e : bool) then inr ALLOC_MAX_AVAILABLE_EMPTY else inl c).

(** A copy of the links of an entry, as the assignment of its object makes it. *)
Definition copy_entry (from to : ptr) (m : links) : option links :=
  n ← l_next m !! from; p ← l_prev m !! from; Some (upd_prev to p (upd_next to n m)).

(** [st] is cut behind [size] bytes; the rest becomes a free block. *)
(* src/src/core/dfs_shmem.cpp:520-532 (dfs_shmem_alloc) *)
Definition split_storage (st : ptr) (size : Z) (s : shmem) : option shmem :=
  let st_new := addr st (STORAGE_SIZE + size) in
  h ← storages s !! st;
  m ← copy_entry st st_new (order s);
  let s := with_order m s in
  m ← copy_entry st st_new (frees s);
  let s := with_storage st_new h (with_frees m s) in
  h ← storages s !! st_new;
  s ← set_size st_new (u64 (sz h - u64 (size + STORAGE_SIZE))) s;
  s ← set_alloc st true s;
  s ← set_size st size s;
  m ← queue_insert_before st_new st (order s);
  m ← queue_remove st_new m;
  m ← queue_insert_after st st_new m;
  dfs_shmem_insert_free st_new (with_order m s).

(* src/src/core/dfs_shmem.cpp:395-539 (dfs_shmem_alloc) *)
Definition dfs_shmem_alloc (size : Z) (s : shmem) : option (shmem_errno * ptr * shmem) :=
  if size =? 0 then Some (ALLOC_PARAM, nullptr, s)
  else if max_available_index s =? free_len s then Some (ALLOC_EXHAUSTED, nullptr, count_stat 1 0 0 s)
  else
    class ← choose_class s size;
    match class with
    | inr err => Some (err, nullptr, count_stat 1 0 0 s)
    | inl c =>
        st ← queue_head c (frees s);
        found ← first_fit (block_fuel s) s c st size;
        match found with
        | None => Some (ALLOC_FOUND_NO_FIXED, nullptr, count_stat 1 0 0 s)
        | Some st =>
            '(ok, s) ← dfs_shmem_remove_free st s;
            if negb (ok : bool) then Some (ALLOC_REMOVE_FREE, nullptr, count_stat 1 0 0 s)
            else
              h ← storages s !! st;
              if u64 (sz h - size) <? u64 (STORAGE_SIZE + split_threshold s) then
                s ← set_alloc st true s;
                s ← set_act_size st size s;
                Some (ERR_NONE, addr st STORAGE_SIZE, add_stat (sz h) size 0 s)
              else
                s ← split_storage st size s;
                s ← set_act_size st size s;
                h ← storages s !! st;
                Some (ERR_NONE, addr st STORAGE_SIZE, add_stat (sz h) size 1 s)
        end
    end.

(** The largest block of a free list; the first one of several. *)
(* src/src/core/dfs_shmem.cpp:590-604 (dfs_shmem_get_max_st) *)
Fixpoint max_loop (fuel : nat) (s : shmem) (c st_max st_q : ptr) : option ptr :=
  match fuel with
  | O => None
  | S fuel =>
      if bool_decide (st_q = c) then Some st_max
      else
        h ← storages s !! st_q;
        hm ← storages s !! st_max;
        q ← queue_next st_q (frees s);
        max_loop fuel s c (if sz hm <? sz h then st_q else st_max) q
  end.

(* src/src/core/dfs_shmem.cpp:554-607 (dfs_shmem_get_max_st) *)
Definition dfs_shmem_get_max_st (s : shmem) : option (ptr + shmem_errno) :=
  e ← (if max_available_index s =? free_len s then Some true else queue_empty (base s) (available s));
  if (e : bool) then Some (inr GET_MAX_EXHAUSTED)
  else
    q ← queue_tail (base s) (available s);
    e ← queue_empty q (frees s);
    if (e : bool) then Some (inr GET_MAX_CRITICAL)
    else
      st_max ← queue_head q (frees s);
      st_q ← queue_next st_max (frees s);
      st ← max_loop (block_fuel s) s q st_max st_q;
      Some (inl st).

(** The second result is [*act_size], unchanged on an error. *)
(* src/src/core/dfs_shmem.cpp:609-655 (dfs_shmem_split_alloc) *)
Definition dfs_shmem_split_alloc (act req_minsize : Z) (s : shmem) : option (shmem_errno * ptr * Z * shmem) :=
  let s := count_stat 0 0 1 s in
  r ← dfs_shmem_get_max_st s;
  match r with
  | inr err => Some (err, nullptr, act, count_stat 0 1 0 s)
  | inl st =>
      h ← storages s !! st;
      if sz h <? req_minsize then Some (SPLIT_ALLOC_NO_FIXED_REQ_MINSIZE, nullptr, act, count_stat 0 1 0 s)
      else
        '(ok, s) ← dfs_shmem_remove_free st s;
        if negb (ok : bool) then Some (SPLIT_ALLOC_REMOVE_FREE, nullptr, act, count_stat 0 1 0 s)
        else
          s ← set_alloc st true s;
          s ← set_act_size st (sz h) s;
          Some (ERR_NONE, addr st STORAGE_SIZE, sz h, add_stat (sz h) (sz h) 0 s)
  end.

(** ** Release of a block *)

(** The next block in address order joins [st_alloc], when it is free. *)
(* src/src/core/dfs_shmem.cpp:684-705 (dfs_shmem_free) *)
Definition join_next (st_alloc : ptr) (s : shmem) : option (bool * shmem) :=
  q ← queue_next st_alloc (order s);
  if bool_decide (q = base s) then Some (true, s)
  else
    h ← storages s !! q;
    ha ← storages s !! st_alloc;
    if negb (alloc h) && bool_decide (q = addr st_alloc (STORAGE_SIZE + sz ha)) then
      '(ok, s) ← dfs_shmem_remove_free q s;
      if negb (ok : bool) then Some (false, s)
      else
        ha ← storages s !! st_alloc;
        h ← storages s !! q;
        s ← set_size st_alloc (u64 (sz ha + u64 (sz h + STORAGE_SIZE))) s;
        m ← queue_remove q (order s);
        Some (true, add_stat 0 0 (-1) (with_order m s))
    else Some (true, s).

(** [st_alloc] joins the previous block, when that is free; the result is the joint block. *)
(* src/src/core/dfs_shmem.cpp:707-730 (dfs_shmem_free) *)
Definition join_prev (st_alloc : ptr) (s : shmem) : option (bool * ptr * shmem) :=
  q ← queue_prev st_alloc (order s);
  if bool_decide (q = base s) then Some (true, st_alloc, s)
  else
    h ← storages s !! q;
    if negb (alloc h) && bool_decide (st_alloc = addr q (sz h + STORAGE_SIZE)) then
      '(ok, s) ← dfs_shmem_remove_free q s;
      if negb (ok : bool) then Some (false, st_alloc, s)
      else
        ha ← storages s !! st_alloc;
        h ← storages s !! q;
        s ← set_size q (u64 (sz h + u64 (sz ha + STORAGE_SIZE))) s;
        m ← queue_remove st_alloc (order s);
        Some (true, q, add_stat 0 0 (-1) (with_order m s))
    else Some (true, st_alloc, s).

(* src/src/core/dfs_shmem.cpp:657-734 (dfs_shmem_free) *)
Definition dfs_shmem_free (address : ptr) (s : shmem) : option (shmem_errno * shmem) :=
  if bool_decide (address = nullptr) then Some (FREE_PARAM, s)
  else
    let st_alloc := addr address (- STORAGE_SIZE) in
    h ← storages s !! st_alloc;
    if negb (alloc h) then Some (FREE_NONALLOCED, s)
    else
      s ← set_alloc st_alloc false (add_stat (- sz h) (- act_size h) 0 s);
      '(ok, s) ← join_next st_alloc s;
      if negb (ok : bool) then Some (FREE_REMOVE_NEXT, s)
      else
        '(ok, st_alloc, s) ← join_prev st_alloc s;
        if negb (ok : bool) then Some (FREE_REMOVE_PREV, s)
        else
          s ← dfs_shmem_insert_free st_alloc s;
          Some (ERR_NONE, s).

(** ** Creation *)

(** The number of classes, or the error. *)
(* src/src/core/dfs_shmem.cpp:157-182 (dfs_shmem_create) *)
Definition create_free_len (min_size max_size level_type factor : Z) : option ((Z * Z) + shmem_errno) :=
  if level_type =? DFS_SHMEM_LEVEL_TYPE_LINEAR then
    let factor := DFS_MATH_ALIGNMENT factor DFS_MATH_ALIGN_SIZE in
    n ← divide_up (max_size - min_size) factor; Some (inl (factor, n))
  else if level_type =? DFS_SHMEM_LEVEL_TYPE_EXP then
    power ← divide_up max_size min_size;
    n ← dfs_math_dfslog2 power 1; Some (inl (DFS_SHMEM_EXP_FACTOR, n))
  else Some (inr CREATE_LEVELTYPE).

(** Fresh memory: the mapping is filled with zeros. *)
Definition fresh (q : ptr) (m : links) : links := upd_prev q nullptr (upd_next q nullptr m).

(* src/src/core/dfs_shmem.cpp:229-233 (dfs_shmem_create) *)
Fixpoint create_classes (n : nat) (i : Z) (s : shmem) : option shmem :=
  match n with
  | O => Some s
  | S n =>
      let c := class_at s i in
      m ← queue_init c (fresh c (frees s));
      create_classes n (i + 1) (with_available (fresh c (available s)) (with_frees m s))
  end.

Definition no_links : links := {| l_next := ∅; l_prev := ∅ |}.

(** The whole area becomes one free block [st] of [n] bytes. *)
(* src/src/core/dfs_shmem.cpp:243-268 (dfs_shmem_create) *)
Definition install_first (st : ptr) (n : Z) (s : shmem) : option shmem :=
  m ← queue_init (base s) (order s);
  m ← queue_insert_head (base s) st (fresh st m);
  let s := with_order m s in
  i ← dfs_shmem_get_insert_index s n;
  let i := if free_len s <=? i then u64 (free_len s - 1) else i in
  let c := class_at s i in
  let s := with_storage st {| alloc := false; sz := n; act_size := 0; free_list_head := c |} s in
  m ← queue_insert_head c st (fresh st (frees s));
  let s := with_frees m s in
  m ← queue_init (base s) (available s);
  m ← queue_insert_head (base s) c m;
  Some (with_max i (with_available m s)).

(** [page] is [DFS_PAGE_SIZE]; [mmap] answers an address, or fails. *)
(* src/src/core/dfs_shmem.cpp:126-271 (dfs_shmem_create) *)
Definition dfs_shmem_create (page : Z) (mmap : Z -> option ptr) (size min_size max_size level_type factor : Z)
    : option (shmem + shmem_errno) :=
  if size =? 0 then Some (inr CREATE_SIZE)
  else
    let min_size := DFS_MATH_ALIGNMENT min_size DFS_MATH_ALIGN_SIZE in
    let max_size := DFS_MATH_ALIGNMENT max_size DFS_MATH_ALIGN_SIZE in
    if (min_size =? 0) || (max_size <=? min_size) then Some (inr CREATE_MINSIZE)
    else
      r ← create_free_len min_size max_size level_type factor;
      match r with
      | inr err => Some (inr err)
      | inl (factor, free_len) =>
          if free_len =? 0 then Some (inr CREATE_FREELEN)
          else
            let free_len := u64 (free_len + 1) in
            let total := DFS_MATH_ROUND_UP size page in
            if total =? 0 then Some (inr CREATE_TOTALSIZE)
            else
              match mmap total with
              | None => Some (inr CREATE_MMAP)
              | Some b =>
                  let free_size := u64 (FREE_NODE_SIZE * free_len) in
                  if total <=? u64 (u64 (free_size + SHMEM_SIZE) + STORAGE_SIZE) then Some (inr CREATE_TOTALSIZE_NOT_ENOUGH)
                  else
                    let system := DFS_MATH_ALIGNMENT (u64 (SHMEM_SIZE + free_size)) DFS_MATH_ALIGN_SIZE in
                    let stat := {| used_size := 0; reqs_size := 0; st_count := 1; st_size := 0; total_size := total;
                                   system_size := system; failed := 0; split_failed := 0; split := 0 |} in
                    let s := {| base := b; free := addr b SHMEM_SIZE; free_len := free_len; max_available_index := 0;
                                min_size := min_size; max_size := max_size; factor := factor; split_threshold := min_size;
                                level_type := level_type; shmem_stat := stat; order := fresh b no_links;
                                available := fresh b no_links; frees := no_links; storages := ∅ |} in
                    s ← create_classes (Z.to_nat free_len) 0 s;
                    let st := addr b system in
                    let st_sz := u64 (u64 (total - system) - STORAGE_SIZE) in
                    if st_sz <? max_size then Some (inr CREATE_STORAGESIZE)
                    else s ← install_first st st_sz s; Some (inl s)
              end
      end.

(* src/src/core/dfs_shmem.cpp:38-68 (dfs_shmem_get_storage_size, dfs_shmem_set_split_threshold, dfs_shmem_get_system_size, dfs_shmem_get_total_size, dfs_shmem_get_used_size) *)
Definition dfs_shmem_get_storage_size (s : shmem) : Z := u64 (st_count (shmem_stat s) * STORAGE_SIZE).
Definition dfs_shmem_set_split_threshold (size : Z) (s : shmem) : shmem := with_threshold size s.
Definition dfs_shmem_get_system_size (s : shmem) : Z := system_size (shmem_stat s).
Definition dfs_shmem_get_total_size (s : shmem) : Z := total_size (shmem_stat s).
Definition dfs_shmem_get_used_size (s : shmem) : Z := used_size (shmem_stat s).

(** ** Releasing a segment, counters and messages *)

(** [munmap] answers zero on success. The first result is [true] for [DFS_SHMEM_OK]. *)
(* src/src/core/dfs_shmem.cpp:273-293 (dfs_shmem_release) *)
Definition dfs_shmem_release (munmap : ptr -> Z -> Z) (shm : option shmem) : bool * shmem_errno * option shmem :=
  match shm with
  | None => (false, RELEASE_NULL, None)
  | Some s => if munmap (base s) (total_size (shmem_stat s)) =? 0 then (true, ERR_NONE, None) else (false, RELEASE_MUNMAP, Some s)
  end.

(* src/src/core/dfs_shmem.cpp:750-761 (dfs_shmem_get_stat) *)
Definition dfs_shmem_get_stat (s : shmem) : dfs_shmem_stat :=
  let t := shmem_stat s in
  {| used_size := used_size t; reqs_size := reqs_size t; st_count := st_count t; st_size := u64 (st_count t * STORAGE_SIZE);
     total_size := total_size t; system_size := system_size t; failed := failed t; split_failed := split_failed t; split := split t |}.

(** The errors in the order of their numbers, from [DFS_SHMEM_ERR_START + 1] on. *)
Definition errors : list shmem_errno :=
  [CREATE_SIZE; CREATE_MINSIZE; CREATE_LEVELTYPE; CREATE_FREELEN; CREATE_TOTALSIZE; CREATE_TOTALSIZE_NOT_ENOUGH; CREATE_MMAP;
   CREATE_STORAGESIZE; RELEASE_NULL; RELEASE_MUNMAP; ALLOC_PARAM; ALLOC_EXHAUSTED; ALLOC_MAX_AVAILABLE_EMPTY;
   ALLOC_NO_AVAILABLE_FREE_LIST; ALLOC_NO_FIXED_FREE_SPACE; ALLOC_FOUND_NO_FIXED; ALLOC_REMOVE_FREE; GET_MAX_PARAM;
   GET_MAX_EXHAUSTED; GET_MAX_CRITICAL; SPLIT_ALLOC_PARAM; SPLIT_ALLOC_NO_FIXED_REQ_MINSIZE; SPLIT_ALLOC_REMOVE_FREE;
   FREE_PARAM; FREE_NONALLOCED; FREE_REMOVE_NEXT; FREE_REMOVE_PREV].

Definition DFS_SHMEM_ERR_START : Z := 100.
Definition DFS_SHMEM_ERR_END : Z := 128.

Definition errno_code (err : shmem_errno) : Z :=
  match list_find (fun x => x = err) errors with Some (i, _) => DFS_SHMEM_ERR_START + 1 + Z.of_nat i | None => 0 end.

(* src/src/core/dfs_shmem.cpp:5-36 (dfs_shmem_err_string) *)
Definition dfs_shmem_err_string : list string :=
  ["dfs_shmem: unknown error number"; "dfs_shmem_create: size error"; "dfs_shmem_create: minsize is 0 or less than maxsize";
   "dfs_shmem_create: unknown leve type"; "dfs_shmem_create: free len is 0"; "dfs_shmem_create: total size error";
   "dfs_shmem_create: total size is not enough"; "dfs_shmem_create: mmap failed";
   "dfs_shmem_create: storage size less than maxsize"; "dfs_shmem_release: shmem instance is null";
   "dfs_shmem_release: munmap failed"; "dfs_shmem_alloc: parameter error"; "dfs_shmem_alloc: memory is exhausted";
   "dfs_shmem_alloc: max available free list is empty"; "dfs_shmem_alloc: no available free list";
   "dfs_shmem_alloc: no fixed free space"; "dfs_shmem_alloc: found no fixed free space"; "dfs_shmem_alloc: remove free failed";
   "dfs_shmem_get_max_st: parameter error"; "dfs_shmem_get_max_st: memory is exhausted"; "dfs_shmem_get_max_st: critical error";
   "dfs_shmem_split_alloc: parameter error"; "dfs_shmem_split_alloc: max storage size less than request size";
   "dfs_shmem_split_alloc: remove free failed"; "dfs_shmem_free: shmem instance or address is null";
   "dfs_shmem_free: free a non-alloced address"; "dfs_shmem_free: remove the next storage failed";
   "dfs_shmem_free: remove the previous storage failed"]%string.

(* src/src/core/dfs_shmem.cpp:739-748 (dfs_shmem_strerror) *)
Definition dfs_shmem_strerror (shmem_errno : Z) : option string :=
  if (shmem_errno <=? DFS_SHMEM_ERR_START) || (DFS_SHMEM_ERR_END <=? shmem_errno) then dfs_shmem_err_string !! 0%nat
  else dfs_shmem_err_string !! Z.to_nat (shmem_errno - DFS_SHMEM_ERR_START).

Lemma errors_complete err : err ∈ ERR_NONE :: errors.
Proof. destruct err; by apply (bool_decide_unpack _); vm_compute. Qed.

(** Every number has a message, and every error but [ERR_NONE] one of its own. *)
Lemma strerror_own :
  (forall n, exists m, dfs_shmem_strerror n = Some m) /\
  (forall e1 e2, e1 <> ERR_NONE -> dfs_shmem_strerror (errno_code e1) = dfs_shmem_strerror (errno_code e2) -> e1 = e2).
Proof.
  split.
  - intros n. unfold dfs_shmem_strerror. destruct (_ || _) eqn:E; [by eexists |]. apply orb_false_iff in E as [H1 H2].
    apply Z.leb_gt in H1, H2. apply lookup_lt_is_Some_2. cbn. unfold DFS_SHMEM_ERR_START, DFS_SHMEM_ERR_END in *. lia.
  - intros e1 e2. pose proof (errors_complete e1) as H1. pose proof (errors_complete e2) as H2. revert e2 H2. revert e1 H1.
    rewrite <- Forall_forall. setoid_rewrite <- Forall_forall. apply (bool_decide_unpack _). vm_compute. exact I.
Qed.

Lemma shmem_release_spec munmap s :
  dfs_shmem_release munmap (Some s) =
    (if decide (munmap (base s) (total_size (shmem_stat s)) = 0) then (true, ERR_NONE, None) else (false, RELEASE_MUNMAP, Some s)).
Proof. unfold dfs_shmem_release. destruct (Z.eqb_spec (munmap (base s) (total_size (shmem_stat s))) 0); by case_decide. Qed.

(** ** A small segment *)

(** 4096 bytes of minimum mapping at address 4096, classes by powers of two from 64 to 1024. *)
Definition small_segment : option (shmem + shmem_errno) := dfs_shmem_create 4096 (fun _ => Some 4096%N) 8000 64 1024 DFS_SHMEM_LEVEL_TYPE_EXP 0.

(** Freed small blocks hide larger ones: a request of the smallest class fails although
    thousands of bytes are free. *)
Example small_request_refused :
  match small_segment with
  | Some (inl s) =>
      '(_, p, s) ← dfs_shmem_alloc 10 s;
      '(_, _, s) ← dfs_shmem_alloc 100 s;
      '(_, _, s) ← dfs_shmem_alloc 2000 s;
      '(_, s) ← dfs_shmem_free p s;
      '(err, _, _) ← dfs_shmem_alloc 64 s;
      '(err', _, _) ← dfs_shmem_alloc 5000 s;
      Some (err, err')
  | _ => None
  end = Some (ALLOC_FOUND_NO_FIXED, ERR_NONE).
Proof. vm_compute. reflexivity. Qed.
