(* ===== verification/ShmemInv.v ===== *)
(** * The invariant of the shared-memory segment

    The blocks of a segment as a list ([block]) that covers the area ([tiles]), the invariant
    [inv] that ties links, headers and classes to that list, the consistent states [good],
    and one lemma per operation: what it answers and which list of blocks it leaves. *)

From stdpp Require Import sorting.
From S2P Require Import Prelude Numeric Queue Shmem.

(** ** Geometry *)

(** A block: its address, size and what is known of it; [Loose] is a free block that is in no
    free list. *)
Inductive status := Used (act : Z) | Free | Loose.
#[export] Instance status_eq_dec : EqDecision status.
Proof. solve_decision. Defined.
Record block := { b_at : ptr; b_sz : Z; b_st : status }.

Definition raw_class (s : shmem) (size : Z) : Z :=
  if size <=? min_size s then 0
  else if level_type s =? DFS_SHMEM_LEVEL_TYPE_LINEAR then (size - min_size s) / factor s
  else Z.log2 (size / min_size s).
Definition class (s : shmem) (size : Z) : Z := Z.min (free_len s - 1) (raw_class s size).

Definition same_geometry (s s' : shmem) : Prop :=
  base s' = base s /\ free s' = free s /\ free_len s' = free_len s /\ min_size s' = min_size s /\
  factor s' = factor s /\ level_type s' = level_type s /\ split_threshold s' = split_threshold s.

(** The blocks cover the addresses from [a] to [e]. *)
Fixpoint tiles (a : Z) (bl : list block) (e : Z) : Prop :=
  match bl with
  | [] => a = e
  | b :: bl => Z.of_N (b_at b) = a /\ 0 <= b_sz b /\ tiles (a + STORAGE_SIZE + b_sz b) bl e
  end.

Section Geometry.
(** The area of the blocks. *)
Context (a e : Z).

Record geometry (s : shmem) : Prop := {
  g_base : 0 < Z.of_N (base s);
  g_free : Z.of_N (free s) = Z.of_N (base s) + SHMEM_SIZE;
  g_len : 1 <= free_len s < 2 ^ 32;
  g_min : 0 < min_size s < 2 ^ 64;
  g_level : level_type s = DFS_SHMEM_LEVEL_TYPE_LINEAR /\ 0 < factor s \/ level_type s = DFS_SHMEM_LEVEL_TYPE_EXP;
  g_thr : 0 <= split_threshold s < 2 ^ 63;
  g_area : Z.of_N (free s) + FREE_NODE_SIZE * free_len s <= a /\ e < 2 ^ 64
}.

Lemma geometry_same s s' : same_geometry s s' -> geometry s -> geometry s'.
Proof. intros (E1 & E2 & E3 & E4 & E5 & E6 & E7) []. split; rewrite ?E1, ?E2, ?E3, ?E4, ?E5, ?E6, ?E7; done. Qed.

Lemma class_same s s' n : same_geometry s s' -> class s' n = class s n.
Proof. intros (E1 & E2 & E3 & E4 & E5 & E6 & E7). unfold class, raw_class. by rewrite E3, E4, E5, E6. Qed.

Lemma class_at_same s s' i : same_geometry s s' -> class_at s' i = class_at s i.
Proof. intros (E1 & E2 & _). unfold class_at. by rewrite E2. Qed.

Lemma class_at_Z s i : 0 <= i -> Z.of_N (class_at s i) = Z.of_N (free s) + FREE_NODE_SIZE * i.
Proof. intros. unfold class_at, addr, FREE_NODE_SIZE. lia. Qed.

Lemma index_class s i : 0 <= i -> index s (class_at s i) = i.
Proof.
  intros Hi. unfold index. rewrite class_at_Z by done. unfold FREE_NODE_SIZE.
  replace (_ + 40 * i - _) with (i * 40) by lia. by apply Z.div_mul.
Qed.

Lemma class_at_inj s i j : 0 <= i -> 0 <= j -> class_at s i = class_at s j -> i = j.
Proof. intros Hi Hj E. by rewrite <- (index_class s i Hi), <- (index_class s j Hj), E. Qed.

Lemma class_at_base s i : geometry s -> 0 <= i -> class_at s i <> base s.
Proof. intros G Hi E. pose proof (class_at_Z s i Hi) as H. rewrite E, (g_free s G) in H. unfold SHMEM_SIZE, FREE_NODE_SIZE in H. lia. Qed.

Lemma raw_class_nonneg s n : geometry s -> 0 <= n -> 0 <= raw_class s n.
Proof.
  intros G Hn. unfold raw_class. destruct (Z.leb_spec n (min_size s)); [done |].
  destruct (g_level s G) as [[-> Hf] | ->]; cbn; [apply Z.div_pos; lia | apply Z.log2_nonneg].
Qed.

Lemma class_range s n : geometry s -> 0 <= n -> 0 <= class s n < free_len s.
Proof. intros G Hn. pose proof (raw_class_nonneg s n G Hn). pose proof (g_len s G). unfold class. lia. Qed.

Lemma insert_index s n : geometry s -> is_u64 n -> dfs_shmem_get_insert_index s n = Some (raw_class s n).
Proof.
  intros G [Hn Hn2]. unfold dfs_shmem_get_insert_index, raw_class. destruct (Z.leb_spec n (min_size s)); [done |].
  destruct (g_level s G) as [[-> Hf] | ->]; cbn; unfold divide.
  - by destruct (Z.eqb_spec (factor s) 0); [lia |].
  - pose proof (g_min s G). destruct (Z.eqb_spec (min_size s) 0); [lia |]. cbn [mbind option_bind].
    assert (is_u64 (n / min_size s)) as Hu.
    { split; [apply Z.div_pos; lia |]. apply Z.div_lt_upper_bound; [lia |]. nia. }
    by apply dfslog2_spec.
Qed.

Lemma tiles_app a0 l1 l2 e0 : tiles a0 (l1 ++ l2) e0 <-> exists m, tiles a0 l1 m /\ tiles m l2 e0.
Proof.
  revert a0. induction l1 as [|b l1 IH]; intros a0; simpl.
  - split; [intros H; by exists a0 | by intros (m & <- & ?)].
  - rewrite IH. split; [intros (H1 & H2 & m & H3 & H4); exists m; tauto | intros (m & (H1 & H2 & H3) & H4); eauto 10].
Qed.

Lemma tiles_le a0 bl e0 : tiles a0 bl e0 -> a0 + STORAGE_SIZE * Z.of_nat (length bl) <= e0.
Proof.
  revert a0. induction bl as [|b bl IH]; intros a0; simpl; [lia |]. intros (_ & Hs & Ht%IH).
  unfold STORAGE_SIZE in *. lia.
Qed.

Lemma tiles_in a0 bl e0 b : tiles a0 bl e0 -> b ∈ bl -> a0 <= Z.of_N (b_at b) /\ 0 <= b_sz b /\ Z.of_N (b_at b) + STORAGE_SIZE + b_sz b <= e0.
Proof.
  intros Ht (l1 & l2 & ->)%list_elem_of_split. apply tiles_app in Ht as (m & H1%tiles_le & H2 & H3 & H4%tiles_le).
  unfold STORAGE_SIZE in *. lia.
Qed.

Lemma tiles_nodup a0 bl e0 : tiles a0 bl e0 -> NoDup (b_at <$> bl).
Proof.
  revert a0. induction bl as [|b bl IH]; intros a0; [constructor |]. simpl. intros (E & Hs & Ht).
  constructor; [|by eapply IH]. intros (b' & E' & Hin)%list_elem_of_fmap. destruct (tiles_in _ _ _ _ Ht Hin) as [H _].
  rewrite <- E' in H. unfold STORAGE_SIZE in H. lia.
Qed.

Lemma block_unique a0 bl e0 b b' : tiles a0 bl e0 -> b ∈ bl -> b' ∈ bl -> b_at b = b_at b' -> b = b'.
Proof.
  intros Ht%tiles_nodup Hb Hb' E. apply list_elem_of_lookup in Hb as [i Hi], Hb' as [j Hj].
  assert (i = j) as ->; [|congruence].
  eapply (NoDup_lookup _ _ _ (b_at b) Ht); rewrite list_lookup_fmap; [by rewrite Hi | by rewrite Hj, E].
Qed.
End Geometry.

(** ** The invariant *)

Definition block_ok (s : shmem) (b : block) : Prop :=
  exists h, storages s !! b_at b = Some h /\ sz h = b_sz b /\
    match b_st b with
    | Used act => alloc h = true /\ act_size h = act
    | Free => alloc h = false /\ free_list_head h = class_at s (class s (b_sz b))
    | Loose => alloc h = false
    end.

Fixpoint used_of (bl : list block) : Z :=
  match bl with [] => 0 | b :: bl => match b_st b with Used _ => b_sz b | _ => 0 end + used_of bl end.
Fixpoint reqs_of (bl : list block) : Z :=
  match bl with [] => 0 | b :: bl => match b_st b with Used act => act | _ => 0 end + reqs_of bl end.

(** [x] is a free block of class [i]. *)
Definition free_in (s : shmem) (bl : list block) (i : Z) (x : ptr) : Prop :=
  exists b, b ∈ bl /\ b_at b = x /\ b_st b = Free /\ class s (b_sz b) = i.

Definition update {A} (i : Z) (v : A) (f : Z -> A) (j : Z) : A := if decide (j = i) then v else f j.

Lemma update_eq {A} i (v : A) f : update i v f i = v.
Proof. unfold update. by rewrite decide_True. Qed.
Lemma update_ne {A} i j (v : A) f : j <> i -> update i v f j = f j.
Proof. intros. unfold update. by rewrite decide_False. Qed.

Section Invariant.
Context (a e : Z).

(** The blocks [bl] in address order, the free list [fl i] of every class, and the classes
    [av] that have free blocks, in order. *)
Record inv (s : shmem) (bl : list block) (fl : Z -> list ptr) (av : list Z) : Prop := {
  v_geom : geometry a e s;
  v_tiles : tiles a bl e;
  v_order : is_queue (order s) (base s) (b_at <$> bl);
  v_blocks : forall b, b ∈ bl -> block_ok s b;
  v_cells : forall b, b ∈ bl -> allocated (frees s) (b_at b);
  v_frees : forall i, 0 <= i < free_len s -> is_queue (frees s) (class_at s i) (fl i);
  v_members : forall i x, 0 <= i < free_len s -> x ∈ fl i <-> free_in s bl i x;
  v_classes : forall i, 0 <= i < free_len s -> allocated (available s) (class_at s i);
  v_avail : is_queue (available s) (base s) (class_at s <$> av);
  v_sorted : StronglySorted Z.lt av;
  v_nonempty : forall i, i ∈ av <-> 0 <= i < free_len s /\ fl i <> [];
  v_max : max_available_index s = List.last av (free_len s)
}.

(** No more was asked for than the block holds. *)
Definition act_ok (b : block) : Prop := match b_st b with Used act => 0 <= act <= b_sz b | _ => True end.

(** The counters. *)
Record stats_ok (s : shmem) (bl : list block) : Prop := {
  t_used : used_size (shmem_stat s) = used_of bl;
  t_reqs : reqs_size (shmem_stat s) = reqs_of bl;
  t_count : st_count (shmem_stat s) = Z.of_nat (length bl);
  t_acts : Forall act_ok bl
}.

Lemma free_in_middle s l1 b l2 i x :
  NoDup (b_at <$> l1 ++ b :: l2) ->
  free_in s (l1 ++ b :: l2) i x <->
    x = b_at b /\ b_st b = Free /\ class s (b_sz b) = i \/ x <> b_at b /\ free_in s (l1 ++ l2) i x.
Proof.
  rewrite fmap_app, fmap_cons. intros Hnd. rewrite <- Permutation_middle in Hnd. apply NoDup_cons in Hnd as [Hb _].
  rewrite <- fmap_app in Hb. split.
  - intros (b' & Hin & <- & Hf & Hc). rewrite <- Permutation_middle in Hin. apply elem_of_cons in Hin as [-> | Hin]; [by left |].
    right. split; [|by exists b']. intros E. apply Hb. rewrite <- E. by apply list_elem_of_fmap_2.
  - intros [(-> & Hf & Hc) | (_ & b' & Hin & H)].
    + exists b. split; [|done]. apply elem_of_app. right. by left.
    + exists b'. split; [|done]. rewrite <- Permutation_middle. by right.
Qed.

Lemma free_in_at s bl i x : free_in s bl i x -> x ∈ b_at <$> bl.
Proof. intros (b & Hin & <- & _). by apply list_elem_of_fmap_2. Qed.

Lemma free_in_same s s' bl i x : same_geometry s s' -> free_in s' bl i x <-> free_in s bl i x.
Proof. intros Hg. unfold free_in. by setoid_rewrite (class_same s s' _ Hg). Qed.

Lemma class_below s bl fl av i b :
  inv s bl fl av -> 0 <= i < free_len s -> b ∈ bl -> b_at b <> class_at s i.
Proof.
  intros V Hi Hb E. pose proof (tiles_in _ _ _ _ (v_tiles _ _ _ _ V) Hb) as (H & _).
  pose proof (g_area _ _ _ (v_geom _ _ _ _ V)) as [Ha _]. pose proof (class_at_Z s i ltac:(lia)) as H2.
  rewrite <- E in H2. unfold FREE_NODE_SIZE in *. lia.
Qed.

(** The queues of two classes share no cell. *)
Lemma classes_disjoint s bl fl av i j x :
  inv s bl fl av -> 0 <= i < free_len s -> 0 <= j < free_len s -> i <> j ->
  x ∈ class_at s i :: fl i -> x ∈ class_at s j :: fl j -> False.
Proof.
  intros V Hi Hj Hne Hx Hy. apply elem_of_cons in Hx, Hy.
  destruct Hx as [-> | Hx], Hy as [E | Hy].
  - apply Hne, (class_at_inj s); [lia.. | done].
  - apply (v_members _ _ _ _ V) in Hy as (b & Hb & E & _); [|done]. by apply (class_below _ _ _ _ i _ V Hi Hb).
  - subst x. apply (v_members _ _ _ _ V) in Hx as (b & Hb & E & _); [|done]. by apply (class_below _ _ _ _ j _ V Hj Hb).
  - apply (v_members _ _ _ _ V) in Hx as (b & Hb & E & _ & Hc), Hy as (b' & Hb' & E' & _ & Hc'); [|done..].
    rewrite <- E' in E. pose proof (block_unique _ _ _ _ _ (v_tiles _ _ _ _ V) Hb Hb' E). congruence.
Qed.

Lemma v_nodup s bl fl av : inv s bl fl av -> NoDup (b_at <$> bl).
Proof. intros V. by eapply tiles_nodup, (v_tiles _ _ _ _ V). Qed.

Lemma size_u64 s bl fl av b : inv s bl fl av -> b ∈ bl -> is_u64 (b_sz b).
Proof.
  intros V Hb. pose proof (tiles_in _ _ _ _ (v_tiles _ _ _ _ V) Hb) as (H1 & H2 & H3).
  pose proof (g_area _ _ _ (v_geom _ _ _ _ V)) as [_ He]. unfold is_u64, STORAGE_SIZE in *. lia.
Qed.

Lemma block_class s bl fl av b : inv s bl fl av -> b ∈ bl -> 0 <= class s (b_sz b) < free_len s.
Proof. intros V Hb. eapply class_range; [exact (v_geom _ _ _ _ V) |]. by destruct (size_u64 _ _ _ _ _ V Hb). Qed.

Lemma last_le (av : list Z) d i : StronglySorted Z.lt av -> i ∈ av -> i <= List.last av d.
Proof.
  induction 1 as [|j av Hs IH Hf]; [by intros ?%elem_of_nil |]. intros [-> | Hi]%elem_of_cons.
  - destruct av as [|k av]; [done |]. simpl. rewrite Forall_forall in Hf. assert (j < k) by (apply Hf; by left).
    assert (k <= List.last (k :: av) d); [|simpl in *; lia]. clear -Hs. revert k Hs. induction av as [|m av IH]; intros k Hs; [simpl; lia |].
    apply StronglySorted_inv in Hs as [Hs Hf]. rewrite Forall_forall in Hf. assert (k < m) by (apply Hf; by left).
    specialize (IH m Hs). simpl in *. lia.
  - specialize (IH Hi). destruct av; [by apply elem_of_nil in Hi |]. done.
Qed.

Lemma last_in (av : list Z) d : av <> [] -> List.last av d ∈ av.
Proof.
  induction av as [|j av IH]; [done |]. intros _. destruct av as [|k av]; [by left |].
  right. apply (IH ltac:(done)).
Qed.

(** The class in which [dfs_shmem_remove_free] looks for a free block. *)
Lemma remove_index s bl fl av i n :
  inv s bl fl av -> i ∈ av -> i = class s n ->
  (if max_available_index s <? raw_class s n then max_available_index s else raw_class s n) = i.
Proof.
  intros V Hi E. rewrite (v_max _ _ _ _ V). pose proof (last_le _ (free_len s) _ (v_sorted _ _ _ _ V) Hi) as Hle.
  assert (List.last av (free_len s) ∈ av) as Hl by (apply last_in; intros ->; by apply elem_of_nil in Hi).
  apply (v_nonempty _ _ _ _ V) in Hl as [Hl _]. unfold class in E.
  destruct (Z.ltb_spec (List.last av (free_len s)) (raw_class s n)); lia.
Qed.

Lemma av_range s bl fl av i : inv s bl fl av -> i ∈ av -> 0 <= i < free_len s.
Proof. intros V Hi. by apply (v_nonempty _ _ _ _ V) in Hi as [? _]. Qed.

Lemma last_app_cons (l1 : list Z) x l2 d : l2 <> [] -> List.last (l1 ++ x :: l2) d = List.last l2 d.
Proof.
  intros Hne. destruct (exists_last Hne) as (l & y & ->).
  replace (l1 ++ x :: l ++ [y]) with ((l1 ++ x :: l) ++ [y]) by by rewrite <- app_assoc.
  by rewrite !List.last_last.
Qed.

(** Class [i] leaves the available classes. *)
Lemma retire_class_spec s fl bl A1 i A2 :
  inv s bl fl (A1 ++ i :: A2) ->
  exists m s', retire_class i s = Some s' /\
    s' = with_max (List.last (A1 ++ A2) (free_len s)) (with_available m s) /\
    is_queue m (base s) (class_at s <$> A1 ++ A2) /\
    forall j, 0 <= j < free_len s -> allocated m (class_at s j).
Proof.
  intros V. pose proof (v_avail _ _ _ _ V) as Hq. rewrite fmap_app, fmap_cons in Hq.
  destruct (remove_spec _ _ _ _ _ Hq) as (m & Hm & Hq' & Hoff & Hn & Hp). rewrite <- fmap_app in Hq'.
  assert (0 <= i < free_len s) as Hi by (apply (av_range _ _ _ _ _ V), elem_of_app; right; by left).
  exists m, (with_max (List.last (A1 ++ A2) (free_len s)) (with_available m s)).
  split; [|split; [done |]; split; [done |]].
  - unfold retire_class. rewrite (v_max _ _ _ _ V).
    assert (A2 = [] \/ A2 <> []) as [-> | Hne] by (destruct A2; auto).
    + rewrite List.last_last, Z.eqb_refl. destruct (is_queue_cut _ _ _ _ _ Hq) as [[_ Hpr] _]. unfold queue_prev.
      rewrite Hpr. cbn [mbind option_bind available with_max]. rewrite Hm. cbn [mbind option_bind].
      rewrite app_nil_r. unfold with_available, with_max. cbn. do 2 f_equal.
      assert (A1 = [] \/ A1 <> []) as [-> | Hne1] by (destruct A1; auto); [by rewrite bool_decide_true |].
      destruct (exists_last Hne1) as (A & j & ->). assert (class_at s <$> A ++ [j] = (class_at s <$> A) ++ [class_at s j]) as -> by by rewrite fmap_app.
      rewrite pred_of_snoc, List.last_last.
      assert (0 <= j < free_len s) by (apply (av_range _ _ _ _ _ V); rewrite !elem_of_app, list_elem_of_singleton; tauto).
      rewrite bool_decide_false by (apply (class_at_base a e); [exact (v_geom _ _ _ _ V) | lia]).
      apply index_class. lia.
    + rewrite last_app_cons by done. pose proof (v_sorted _ _ _ _ V) as Hs.
      assert (i < List.last A2 (free_len s)).
      { apply StronglySorted_app_1_r in Hs. apply StronglySorted_inv in Hs as [_ Hf]. rewrite Forall_forall in Hf.
        by apply Hf, last_in. }
      destruct (Z.eqb_spec i (List.last A2 (free_len s))); [lia |]. cbn [mbind option_bind]. rewrite Hm. cbn [mbind option_bind].
      assert (max_available_index s = List.last (A1 ++ A2) (free_len s)) as Em; [|by rewrite <- Em].
      rewrite (v_max _ _ _ _ V), last_app_cons by done. destruct (exists_last Hne) as (A & j & ->).
      by rewrite app_assoc, !List.last_last.
  - intros j Hj. destruct (decide (class_at s j ∈ base s :: (class_at s <$> A1) ++ class_at s i :: (class_at s <$> A2))) as [Hin | Hout].
    + destruct (decide (j = i)) as [-> | Hne]; [split; by eexists |]. eapply is_queue_allocated; [exact Hq' |].
      rewrite fmap_app. revert Hin. rewrite !elem_of_cons, !elem_of_app, elem_of_cons. intros [? | [? | [E | ?]]]; try tauto.
      exfalso. apply Hne, (class_at_inj s); [lia.. | done].
    + destruct (Hoff _ Hout) as [E1 E2]. unfold allocated. rewrite E1, E2. by apply (v_classes _ _ _ _ V).
Qed.

Definition restate (b : block) (st : status) : block := {| b_at := b_at b; b_sz := b_sz b; b_st := st |}.

Lemma tiles_restate a0 l1 b st l2 e0 : tiles a0 (l1 ++ b :: l2) e0 -> tiles a0 (l1 ++ restate b st :: l2) e0.
Proof. rewrite !tiles_app. done. Qed.

Lemma at_restate l1 b st l2 : b_at <$> l1 ++ restate b st :: l2 = b_at <$> l1 ++ b :: l2.
Proof. by rewrite !fmap_app, !fmap_cons. Qed.

Lemma block_ok_other s s' b :
  same_geometry s s' -> storages s' !! b_at b = storages s !! b_at b -> block_ok s b -> block_ok s' b.
Proof.
  intros Hg Hst (h & Hh & Hsz & H). exists h. rewrite Hst. split; [done |]. split; [done |].
  destruct (b_st b); [done | | done]. by rewrite (class_same s s' _ Hg), (class_at_same s s' _ Hg).
Qed.

Lemma in_middle (l1 : list block) b st l2 b' : b' ∈ l1 ++ restate b st :: l2 -> b' = restate b st \/ b' ∈ l1 ++ l2.
Proof. rewrite !elem_of_app, elem_of_cons. tauto. Qed.

Lemma in_rest (l1 : list block) b l2 b' : b' ∈ l1 ++ l2 -> b' ∈ l1 ++ b :: l2.
Proof. rewrite !elem_of_app, elem_of_cons. tauto. Qed.

Lemma rest_other l1 b l2 b' : NoDup (b_at <$> l1 ++ b :: l2) -> b' ∈ l1 ++ l2 -> b_at b' <> b_at b.
Proof.
  rewrite fmap_app, fmap_cons, <- Permutation_middle, <- fmap_app. intros [Hb _]%NoDup_cons Hin E.
  apply Hb. rewrite <- E. by apply list_elem_of_fmap_2.
Qed.

Lemma used_of_app l1 l2 : used_of (l1 ++ l2) = used_of l1 + used_of l2.
Proof. induction l1; simpl; lia. Qed.
Lemma reqs_of_app l1 l2 : reqs_of (l1 ++ l2) = reqs_of l1 + reqs_of l2.
Proof. induction l1; simpl; lia. Qed.

(** The frees after an entry left its queue. *)
Lemma frees_remove s bl fl av i k1 x k2 :
  inv s bl fl av -> 0 <= i < free_len s -> fl i = k1 ++ x :: k2 ->
  exists m, queue_remove x (frees s) = Some m /\
    (forall j, 0 <= j < free_len s -> is_queue m (class_at s j) (update i (k1 ++ k2) fl j)) /\
    (forall b, b ∈ bl -> allocated m (b_at b)).
Proof.
  intros V Hi Hfl. pose proof (v_frees _ _ _ _ V i Hi) as Hq. rewrite Hfl in Hq.
  destruct (remove_spec _ _ _ _ _ Hq) as (m & Hm & Hq' & Hoff & Hn & Hp). exists m. split; [done |]. split.
  - intros j Hj. destruct (decide (j = i)) as [-> | Hne]; [by rewrite update_eq |]. rewrite update_ne by done.
    eapply is_queue_frame; [exact Hoff | | by apply (v_frees _ _ _ _ V)].
    intros y Hy Hy'. rewrite <- Hfl in Hy'. by apply (classes_disjoint _ _ _ _ j i y V Hj Hi).
  - intros b Hb. destruct (decide (b_at b ∈ class_at s i :: k1 ++ x :: k2)) as [Hin | Hout].
    + destruct (decide (b_at b = x)) as [-> | Hne]; [split; by eexists |]. eapply is_queue_allocated; [exact Hq' |].
      revert Hin. rewrite !elem_of_cons, !elem_of_app, elem_of_cons. tauto.
    + destruct (Hoff _ Hout) as [E1 E2]. unfold allocated. rewrite E1, E2. by apply (v_cells _ _ _ _ V).
Qed.

(** The members of the free lists when the free block [b] becomes loose. *)
Lemma members_loose s l1 b l2 fl av i k1 k2 j x :
  inv s (l1 ++ b :: l2) fl av -> b_st b = Free -> class s (b_sz b) = i -> fl i = k1 ++ b_at b :: k2 ->
  0 <= j < free_len s -> x ∈ update i (k1 ++ k2) fl j <-> free_in s (l1 ++ restate b Loose :: l2) j x.
Proof.
  intros V Hf Hc Hfl Hj. pose proof (v_nodup _ _ _ _ V) as Hnd.
  rewrite (free_in_middle s l1 (restate b Loose) l2 j x) by by rewrite at_restate. cbn [b_at b_st b_sz restate].
  pose proof (v_members _ _ _ _ V j x Hj) as Hm. rewrite (free_in_middle s l1 b l2 j x Hnd) in Hm.
  destruct (decide (j = i)) as [-> | Hne].
  - rewrite update_eq. rewrite Hfl in Hm. pose proof (v_frees _ _ _ _ V i Hj) as [Hq _]. rewrite Hfl in Hq.
    apply NoDup_cons in Hq as [_ Hq]. rewrite <- Permutation_middle in Hq, Hm. apply NoDup_cons in Hq as [Hx _].
    rewrite elem_of_cons in Hm. destruct (decide (x = b_at b)) as [-> | Hne]; [|naive_solver].
    split; [done |]. intros [[_ [? _]] | [? _]]; done.
  - rewrite update_ne by done. rewrite Hm. destruct (decide (x = b_at b)) as [-> | Hx]; naive_solver.
Qed.

Lemma retire_class_frees m i s : retire_class i (with_frees m s) = with_frees m <$> retire_class i s.
Proof.
  unfold retire_class. change (max_available_index (with_frees m s)) with (max_available_index s).
  change (class_at (with_frees m s) i) with (class_at s i). destruct (i =? max_available_index s).
  - unfold queue_prev. cbn [available with_frees]. destruct (l_prev _ !! _) as [q|]; [|done]. cbn [mbind option_bind available with_max].
    by destruct (queue_remove _ _).
  - cbn [mbind option_bind]. cbn [available with_frees]. by destruct (queue_remove _ _).
Qed.

(** What removing or inserting a free block leaves alone. *)
Definition same_rest (s s' : shmem) : Prop :=
  same_geometry s s' /\ order s' = order s /\ shmem_stat s' = shmem_stat s.

(** The storage of [b] is updated and its status changes; the free lists and the available
    classes are given. *)
Lemma inv_restate s s' l1 b st l2 fl av fl' av' :
  inv s (l1 ++ b :: l2) fl av -> same_rest s s' ->
  (forall x, x <> b_at b -> storages s' !! x = storages s !! x) -> block_ok s' (restate b st) ->
  (forall b', b' ∈ l1 ++ b :: l2 -> allocated (frees s') (b_at b')) ->
  (forall i, 0 <= i < free_len s -> is_queue (frees s') (class_at s i) (fl' i)) ->
  (forall i x, 0 <= i < free_len s -> x ∈ fl' i <-> free_in s (l1 ++ restate b st :: l2) i x) ->
  (forall i, 0 <= i < free_len s -> allocated (available s') (class_at s i)) ->
  is_queue (available s') (base s) (class_at s <$> av') -> StronglySorted Z.lt av' ->
  (forall i, i ∈ av' <-> 0 <= i < free_len s /\ fl' i <> []) ->
  max_available_index s' = List.last av' (free_len s) ->
  inv s' (l1 ++ restate b st :: l2) fl' av'.
Proof.
  intros V (Hg & Ho & _) Hother Hb Hcells Hfr Hmem Hcl Hav Hso Hne Hmax. pose proof Hg as (E1 & E2 & E3 & _).
  pose proof (v_nodup _ _ _ _ V) as Hnd. split.
  - eapply geometry_same; [exact Hg | exact (v_geom _ _ _ _ V)].
  - apply tiles_restate, (v_tiles _ _ _ _ V).
  - rewrite Ho, E1, at_restate. apply (v_order _ _ _ _ V).
  - intros b' [-> | Hin]%in_middle; [done |]. eapply block_ok_other; [exact Hg | | by apply (v_blocks _ _ _ _ V), in_rest].
    apply Hother. by eapply rest_other.
  - intros b' [-> | Hin]%in_middle; [apply (Hcells b), elem_of_app; right; by left | by apply Hcells, in_rest].
  - intros i Hi. rewrite (class_at_same s s' _ Hg). apply Hfr. by rewrite E3 in Hi.
  - intros i x Hi. rewrite (free_in_same s s' _ _ _ Hg). apply Hmem. by rewrite E3 in Hi.
  - intros i Hi. rewrite (class_at_same s s' _ Hg). apply Hcl. by rewrite E3 in Hi.
  - rewrite E1. assert (class_at s' <$> av' = class_at s <$> av') as ->; [|done].
    apply list_fmap_ext. intros ? i _. by apply class_at_same.
  - done.
  - by rewrite E3.
  - by rewrite E3.
Qed.

Lemma set_free_list_head_spec st v s h :
  storages s !! st = Some h ->
  exists s', set_free_list_head st v s = Some s' /\
    s' = with_storage st {| alloc := alloc h; sz := sz h; act_size := act_size h; free_list_head := v |} s.
Proof. intros H. unfold set_free_list_head. rewrite H. by eexists. Qed.

Lemma remove_free_spec s l1 b l2 fl av :
  inv s (l1 ++ b :: l2) fl av -> b_st b = Free ->
  exists s' fl' av', dfs_shmem_remove_free (b_at b) s = Some (true, s') /\ same_rest s s' /\
    inv s' (l1 ++ restate b Loose :: l2) fl' av'.
Proof.
  intros V Hf. assert (b ∈ l1 ++ b :: l2) as Hb by (apply elem_of_app; right; by left).
  destruct (v_blocks _ _ _ _ V b Hb) as (h & Hh & Hsz & Hst). rewrite Hf in Hst. destruct Hst as [Hal Hfh].
  set (i := class s (b_sz b)) in *. pose proof (block_class _ _ _ _ _ V Hb) as Hi. fold i in Hi.
  assert (b_at b ∈ fl i) as Hin by (apply (v_members _ _ _ _ V); [done |]; by exists b).
  assert (i ∈ av) as Hiav by (apply (v_nonempty _ _ _ _ V); split; [done |]; intros E; rewrite E in Hin; by apply elem_of_nil in Hin).
  apply list_elem_of_split in Hin as (k1 & k2 & Hk).
  destruct (frees_remove _ _ _ _ _ _ _ _ V Hi Hk) as (m & Hm & Hqs & Hcells).
  unfold dfs_shmem_remove_free. rewrite Hh. cbn [mbind option_bind]. rewrite Hsz.
  rewrite (insert_index a e s) by first [exact (v_geom _ _ _ _ V) | by eapply size_u64]. cbn [mbind option_bind].
  rewrite (remove_index _ _ _ _ i _ V) by done. rewrite bool_decide_true by done. cbn [negb]. rewrite Hm. cbn [mbind option_bind].
  change (frees (with_frees m s)) with m.
  pose proof (Hqs i Hi) as Hqi. rewrite update_eq in Hqi. rewrite (empty_spec _ _ _ Hqi). cbn [mbind option_bind].
  assert (forall j, j <> i -> j ∈ av <-> 0 <= j < free_len s /\ update i (k1 ++ k2) fl j <> []) as Hother.
  { intros j Hne. rewrite update_ne by done. apply (v_nonempty _ _ _ _ V). }
  set (h' := {| alloc := alloc h; sz := sz h; act_size := act_size h; free_list_head := nullptr |}).
  assert (forall s', storages s' = <[b_at b := h']> (storages s) -> block_ok s' (restate b Loose)) as Hbok.
  { intros s' E. exists h'. rewrite E. cbn. by rewrite lookup_insert_eq. }
  case_bool_decide as Hemp.
  - apply list_elem_of_split in Hiav as (A1 & A2 & ->).
    destruct (retire_class_spec s fl _ A1 i A2 V) as (mav & s1 & Hret & -> & Hqav & Hclasses).
    rewrite retire_class_frees, Hret. cbn [fmap option_fmap option_map mbind option_bind].
    destruct (set_free_list_head_spec (b_at b) nullptr (with_frees m (with_max (List.last (A1 ++ A2) (free_len s)) (with_available mav s))) h)
      as (s2 & Hs2 & Es2); [done |]. rewrite Hs2. cbn [mbind option_bind]. exists s2, (update i (k1 ++ k2) fl), (A1 ++ A2).
    subst s2. split; [done |]. split; [done |]. eapply (inv_restate s); [exact V | done | | by apply Hbok | exact Hcells | exact Hqs | | exact Hclasses | exact Hqav | | |done].
    + intros x Hx. cbn. by rewrite lookup_insert_ne.
    + intros j x Hj. by eapply members_loose.
    + pose proof (v_sorted _ _ _ _ V) as Hs. apply StronglySorted_app in Hs as (Hlt & Hs1 & Hs2').
      apply StronglySorted_inv in Hs2' as [Hs2' _]. apply StronglySorted_app. split; [|done].
      intros x1 x2 H1 H2. apply Hlt; [done | by right].
    + intros j. destruct (decide (j = i)) as [-> | Hne].
      * rewrite update_eq. split; [|naive_solver]. intros Hin'. exfalso. pose proof (v_sorted _ _ _ _ V) as Hs.
        apply StronglySorted_app in Hs as (Hlt & _ & [_ Hfa]%StronglySorted_inv). rewrite Forall_forall in Hfa.
        apply elem_of_app in Hin' as [Hin' | Hin']; [specialize (Hlt i i Hin' ltac:(by left)) | specialize (Hfa i Hin')]; lia.
      * rewrite <- Hother by done. rewrite !elem_of_app, elem_of_cons. naive_solver.
  - cbn [mbind option_bind]. destruct (set_free_list_head_spec (b_at b) nullptr (with_frees m s) h) as (s2 & Hs2 & Es2); [done |].
    rewrite Hs2. cbn [mbind option_bind]. exists s2, (update i (k1 ++ k2) fl), av. subst s2. split; [done |]. split; [done |].
    eapply (inv_restate s); [exact V | done | | by apply Hbok | exact Hcells | exact Hqs | | apply (v_classes _ _ _ _ V) | apply (v_avail _ _ _ _ V) | apply (v_sorted _ _ _ _ V) | | apply (v_max _ _ _ _ V)].
    + intros x Hx. cbn. by rewrite lookup_insert_ne.
    + intros j x Hj. by eapply members_loose.
    + intros j. destruct (decide (j = i)) as [-> | Hne]; [rewrite update_eq; tauto | by apply Hother].
Qed.

Lemma succ_class s A2 : succ_of (base s) (class_at s <$> A2) = match A2 with [] => base s | j :: _ => class_at s j end.
Proof. by destruct A2. Qed.

(** The head of the rest of a queue's elements leads to the next one. *)
Lemma queue_next_class s A1 j A2 :
  is_queue (available s) (base s) (class_at s <$> A1 ++ j :: A2) ->
  queue_next (class_at s j) (available s) = Some (succ_of (base s) (class_at s <$> A2)).
Proof. rewrite fmap_app, fmap_cons. intros Hq. by destruct (is_queue_cut _ _ _ _ _ Hq) as [_ [Hn _]]. Qed.

Lemma insert_place_spec s i fuel A1 A2 :
  geometry a e s -> is_queue (available s) (base s) (class_at s <$> A1 ++ A2) ->
  (forall j, j ∈ A2 -> 0 <= j) -> (length A2 < fuel)%nat ->
  exists B1 B2, A2 = B1 ++ B2 /\ (forall j, j ∈ B1 -> j <= i) /\ (forall j, head B2 = Some j -> i < j) /\
    insert_place fuel s i (succ_of (base s) (class_at s <$> A2)) = Some (succ_of (base s) (class_at s <$> B2)).
Proof.
  intros G. revert A1 A2. induction fuel as [|fuel IH]; intros A1 A2 Hq Hpos Hf; [lia |]. cbn [insert_place].
  rewrite succ_class. destruct A2 as [|j A2].
  - rewrite bool_decide_true by done. exists [], []. split; [done |]. split; [by intros ? ?%elem_of_nil |]. done.
  - assert (0 <= j) as Hj by (apply Hpos; by left). rewrite bool_decide_false by by apply (class_at_base a e).
    rewrite index_class by done. destruct (Z.ltb_spec i j).
    + exists [], (j :: A2). split; [done |]. split; [by intros ? ?%elem_of_nil |]. split; [by intros ? [= <-] | done].
    + rewrite (queue_next_class _ _ _ _ Hq). cbn [mbind option_bind].
      destruct (IH (A1 ++ [j]) A2) as (B1 & B2 & -> & HB1 & HB2 & Hr);
        [by rewrite <- app_assoc | intros k Hk; apply Hpos; by right | simpl in Hf; lia |].
      exists (j :: B1), B2. split; [done |]. split; [|done]. intros k [-> | Hk]%elem_of_cons; [lia | auto].
Qed.

Lemma sorted_lt_nodup l : StronglySorted Z.lt l -> NoDup l.
Proof.
  induction 1 as [|x l Hs IH Hf]; constructor; [|done]. intros Hx. rewrite Forall_forall in Hf. specialize (Hf x Hx). lia.
Qed.

Lemma av_length s bl fl av : inv s bl fl av -> (length av <= Z.to_nat (free_len s))%nat.
Proof.
  intros V. assert (length (Z.to_nat <$> av) <= length (seq 0 (Z.to_nat (free_len s))))%nat as H.
  { apply submseteq_length, NoDup_submseteq.
    - apply NoDup_fmap_2_strong; [|apply sorted_lt_nodup, (v_sorted _ _ _ _ V)].
      intros x y Hx%(av_range _ _ _ _ _ V) Hy%(av_range _ _ _ _ _ V) ?. lia.
    - intros n (i & -> & Hi%(av_range _ _ _ _ _ V))%list_elem_of_fmap. apply elem_of_seq. lia. }
  by rewrite length_fmap, length_seq in H.
Qed.

(** Class [i] joins the available classes in its place. *)
Lemma enlist_class_spec s bl fl av i :
  inv s bl fl av -> 0 <= i < free_len s -> fl i = [] ->
  exists A1 A2 m, av = A1 ++ A2 /\
    enlist_class i s = Some (with_max (List.last (A1 ++ i :: A2) (free_len s)) (with_available m s)) /\
    is_queue m (base s) (class_at s <$> A1 ++ i :: A2) /\ StronglySorted Z.lt (A1 ++ i :: A2) /\
    forall j, 0 <= j < free_len s -> allocated m (class_at s j).
Proof.
  intros V Hi Hfl. pose proof (v_avail _ _ _ _ V) as Hq. pose proof (v_geom _ _ _ _ V) as G.
  destruct (insert_place_spec s i (S (S (Z.to_nat (free_len s)))) [] av G Hq) as (A1 & A2 & -> & HA1 & HA2 & Hpl).
  { intros j Hj%(av_range _ _ _ _ _ V). lia. }
  { pose proof (av_length _ _ _ _ V). lia. }
  assert (i ∉ A1 ++ A2) as Hnin by (intros [_ ?]%(v_nonempty _ _ _ _ V); done).
  rewrite fmap_app in Hq. assert (class_at s i ∉ base s :: (class_at s <$> A1) ++ (class_at s <$> A2)) as Hci.
  { rewrite <- fmap_app. intros [E | (j & E & Hj)%list_elem_of_fmap]%elem_of_cons; [by apply (class_at_base a e s i) in E; [| |lia] |].
    pose proof (av_range _ _ _ _ _ V Hj). apply class_at_inj in E; [|lia..]. by subst. }
  destruct (insert_before_spec _ _ _ _ _ Hq Hci (v_classes _ _ _ _ V i Hi)) as (m & Hm1 & Hm2 & Hq' & Hoff).
  exists A1, A2, m. split; [done |]. split; [|split; [|split]].
  - unfold enlist_class. unfold queue_head. rewrite (is_queue_head _ _ _ (v_avail _ _ _ _ V)). cbn [mbind option_bind].
    rewrite Hpl. cbn [mbind option_bind]. destruct A2 as [|j A2].
    + cbn [succ_of List.hd fmap list_fmap] in Hm1 |- *. rewrite bool_decide_true by done. rewrite Hm1. cbn [mbind option_bind].
      rewrite List.last_last. rewrite index_class by lia. done.
    + rewrite succ_class in Hm2 |- *. assert (0 <= j < free_len s) as Hj by (apply (av_range _ _ _ _ _ V), elem_of_app; right; by left).
      rewrite bool_decide_false by (apply (class_at_base a e); [done | lia]). rewrite Hm2. cbn [mbind option_bind].
      rewrite last_app_cons by done. assert (max_available_index s = List.last (j :: A2) (free_len s)) as Em; [|by rewrite <- Em].
      rewrite (v_max _ _ _ _ V). destruct (exists_last (l := j :: A2)) as (A & k & ->); [done |]. by rewrite app_assoc, !List.last_last.
  - by rewrite fmap_app, fmap_cons.
  - pose proof (v_sorted _ _ _ _ V) as Hs. apply StronglySorted_app in Hs as (Hlt & Hs1 & Hs2). apply StronglySorted_app.
    assert (forall j, j ∈ A1 -> j < i) as H1.
    { intros j Hj. pose proof (HA1 j Hj). destruct (decide (j = i)) as [-> |]; [|lia]. exfalso. apply Hnin, elem_of_app. by left. }
    assert (forall j, j ∈ A2 -> i < j) as H2.
    { intros j Hj. destruct A2 as [|k A2]; [by apply elem_of_nil in Hj |]. specialize (HA2 k eq_refl).
      apply elem_of_cons in Hj as [-> | Hj]; [done |]. apply StronglySorted_inv in Hs2 as [_ Hf].
      rewrite Forall_forall in Hf. specialize (Hf j Hj). lia. }
    split; [|split; [done | constructor; [done | by apply Forall_forall]]].
    intros x y Hx [-> | Hy]%elem_of_cons; [auto | by apply Hlt].
  - intros j Hj. destruct (decide (class_at s j ∈ class_at s i :: base s :: (class_at s <$> A1) ++ (class_at s <$> A2))) as [Hin | Hout].
    + eapply is_queue_allocated; [exact Hq' |]. revert Hin. rewrite !elem_of_cons, !elem_of_app, elem_of_cons. tauto.
    + destruct (Hoff _ Hout) as [E1 E2]. unfold allocated. rewrite E1, E2. by apply (v_classes _ _ _ _ V).
Qed.

Lemma insert_place_storage fuel x h s i q : insert_place fuel (with_storage x h s) i q = insert_place fuel s i q.
Proof.
  revert q. induction fuel as [|fuel IH]; intros q; [done |]. cbn [insert_place base available with_storage].
  change (index (with_storage x h s) q) with (index s q). case_bool_decide; [done |]. destruct (i <? index s q); [done |].
  destruct (queue_next q (available s)); [apply IH | done].
Qed.

Lemma enlist_class_storage x h i s : enlist_class i (with_storage x h s) = with_storage x h <$> enlist_class i s.
Proof.
  unfold enlist_class. cbn [base available with_storage free_len].
  change (class_at (with_storage x h s) i) with (class_at s i). destruct (queue_head _ _) as [q|]; [|done].
  cbn [mbind option_bind]. rewrite insert_place_storage. destruct (insert_place _ _ _ _) as [q'|]; [|done].
  cbn [mbind option_bind]. change (index (with_storage x h s)) with (index s).
  case_bool_decide; [by destruct (queue_insert_tail _ _ _) | by destruct (queue_insert_before _ _ _)].
Qed.

(** The members of the free lists when the loose block [b] becomes free. *)
Lemma members_free s l1 b l2 fl av i j x :
  inv s (l1 ++ b :: l2) fl av -> b_st b = Loose -> class s (b_sz b) = i -> 0 <= j < free_len s ->
  x ∈ update i (b_at b :: fl i) fl j <-> free_in s (l1 ++ restate b Free :: l2) j x.
Proof.
  intros V Hf Hc Hj. pose proof (v_nodup _ _ _ _ V) as Hnd.
  rewrite (free_in_middle s l1 (restate b Free) l2 j x) by by rewrite at_restate. cbn [b_at b_st b_sz restate].
  pose proof (v_members _ _ _ _ V j x Hj) as Hm. rewrite (free_in_middle s l1 b l2 j x Hnd), Hf in Hm.
  destruct (decide (j = i)) as [-> | Hne].
  - rewrite update_eq, elem_of_cons, Hm. destruct (decide (x = b_at b)) as [-> | Hne]; naive_solver.
  - rewrite update_ne by done. rewrite Hm. destruct (decide (x = b_at b)) as [-> | Hx]; naive_solver.
Qed.

(** The frees after a loose block is inserted. *)
Lemma frees_insert s l1 b l2 fl av i :
  inv s (l1 ++ b :: l2) fl av -> b_st b = Loose -> 0 <= i < free_len s ->
  exists m, queue_insert_head (class_at s i) (b_at b) (frees s) = Some m /\
    (forall j, 0 <= j < free_len s -> is_queue m (class_at s j) (update i (b_at b :: fl i) fl j)) /\
    (forall b', b' ∈ l1 ++ b :: l2 -> allocated m (b_at b')).
Proof.
  intros V Hl Hi. assert (b ∈ l1 ++ b :: l2) as Hb by (apply elem_of_app; right; by left).
  assert (forall j, 0 <= j < free_len s -> b_at b ∉ class_at s j :: fl j) as Hout.
  { intros j Hj [E | Hin]%elem_of_cons; [by apply (class_below _ _ _ _ j b V Hj Hb) in E |].
    apply (v_members _ _ _ _ V) in Hin as (b' & Hb' & E & Hf & _); [|done].
    pose proof (block_unique _ _ _ _ _ (v_tiles _ _ _ _ V) Hb' Hb E). congruence. }
  destruct (insert_head_spec _ _ _ (b_at b) (v_frees _ _ _ _ V i Hi) (Hout i Hi) (v_cells _ _ _ _ V b Hb)) as (m & Hm & Hq & Hoff).
  exists m. split; [done |]. split.
  - intros j Hj. destruct (decide (j = i)) as [-> | Hne]; [by rewrite update_eq |]. rewrite update_ne by done.
    eapply is_queue_frame; [exact Hoff | | by apply (v_frees _ _ _ _ V)].
    intros y Hy [-> | Hy']%elem_of_cons; [by apply (Hout j Hj) | by apply (classes_disjoint _ _ _ _ j i y V Hj Hi)].
  - intros b' Hb'. destruct (decide (b_at b' ∈ b_at b :: class_at s i :: fl i)) as [Hin | Hnin].
    + eapply is_queue_allocated; [exact Hq |]. revert Hin. rewrite !elem_of_cons. tauto.
    + destruct (Hoff _ Hnin) as [E1 E2]. unfold allocated. rewrite E1, E2. by apply (v_cells _ _ _ _ V).
Qed.

Lemma insert_free_spec s l1 b l2 fl av :
  inv s (l1 ++ b :: l2) fl av -> b_st b = Loose ->
  exists s' fl' av', dfs_shmem_insert_free (b_at b) s = Some s' /\ same_rest s s' /\
    inv s' (l1 ++ restate b Free :: l2) fl' av'.
Proof.
  intros V Hl. assert (b ∈ l1 ++ b :: l2) as Hb by (apply elem_of_app; right; by left).
  destruct (v_blocks _ _ _ _ V b Hb) as (h & Hh & Hsz & Hst). rewrite Hl in Hst.
  set (i := class s (b_sz b)). pose proof (block_class _ _ _ _ _ V Hb) as Hi. fold i in Hi.
  destruct (frees_insert _ _ _ _ _ _ i V Hl Hi) as (m & Hm & Hqs & Hcells).
  unfold dfs_shmem_insert_free. rewrite Hh. cbn [mbind option_bind]. rewrite Hst, Hsz.
  rewrite (insert_index a e s) by first [exact (v_geom _ _ _ _ V) | by eapply size_u64]. cbn [mbind option_bind].
  pose proof (g_len _ _ _ (v_geom _ _ _ _ V)) as Hlen. rewrite (u64_small (free_len s - 1)) by (unfold is_u64; lia).
  replace (if free_len s - 1 <? raw_class s (b_sz b) then free_len s - 1 else raw_class s (b_sz b)) with i
    by (unfold i, class; destruct (Z.ltb_spec (free_len s - 1) (raw_class s (b_sz b))); lia).
  set (h' := {| alloc := alloc h; sz := sz h; act_size := act_size h; free_list_head := class_at s i |}).
  destruct (set_free_list_head_spec (b_at b) (class_at s i) s h Hh) as (s1 & Hs1 & ->). rewrite Hs1. cbn [mbind option_bind].
  fold h'. cbn [frees with_storage]. rewrite (empty_spec _ _ _ (v_frees _ _ _ _ V i Hi)). cbn [mbind option_bind].
  assert (forall s', same_geometry s s' -> storages s' = <[b_at b := h']> (storages s) -> block_ok s' (restate b Free)) as Hbok.
  { intros s' Hg E. exists h'. rewrite E. cbn. rewrite lookup_insert_eq. split; [done |]. split; [done |]. split; [done |].
    by rewrite (class_same s s' _ Hg), (class_at_same s s' _ Hg). }
  assert (forall j, update i (b_at b :: fl i) fl j <> [] <-> j = i \/ fl j <> []) as Hup.
  { intros j. destruct (decide (j = i)) as [-> | Hne]; [rewrite update_eq; naive_solver | rewrite update_ne by done; naive_solver]. }
  case_bool_decide as Hemp.
  - destruct (enlist_class_spec _ _ _ _ i V Hi Hemp) as (A1 & A2 & mav & -> & Hen & Hqav & Hso & Hclasses).
    rewrite enlist_class_storage, Hen. cbn [fmap option_fmap option_map mbind option_bind frees with_storage with_max with_available].
    rewrite Hm. cbn [mbind option_bind]. eexists _, (update i (b_at b :: fl i) fl), (A1 ++ i :: A2).
    split; [done |]. split; [done |].
    eapply (inv_restate s); [exact V | done | | by apply Hbok | exact Hcells | exact Hqs | | exact Hclasses | exact Hqav | exact Hso | |done].
    + intros x Hx. cbn. by rewrite lookup_insert_ne.
    + intros j x Hj. by apply (members_free _ _ _ _ _ _ _ _ _ V).
    + intros j. pose proof (v_nonempty _ _ _ _ V j) as Hj. rewrite elem_of_app in Hj.
      rewrite Hup, elem_of_app, elem_of_cons. naive_solver.
  - cbn [mbind option_bind frees with_storage]. rewrite Hm. cbn [mbind option_bind].
    eexists _, (update i (b_at b :: fl i) fl), av. split; [done |]. split; [done |].
    eapply (inv_restate s); [exact V | done | | by apply Hbok | exact Hcells | exact Hqs | | apply (v_classes _ _ _ _ V) | apply (v_avail _ _ _ _ V) | apply (v_sorted _ _ _ _ V) | | apply (v_max _ _ _ _ V)].
    + intros x Hx. cbn. by rewrite lookup_insert_ne.
    + intros j x Hj. by apply (members_free _ _ _ _ _ _ _ _ _ V).
    + intros j. rewrite Hup. pose proof (v_nonempty _ _ _ _ V j). naive_solver.
Qed.

(** ** The searches *)

Definition size_at (s : shmem) (x : ptr) : Z := match storages s !! x with Some h => sz h | None => 0 end.

Lemma fl_block s bl fl av i x :
  inv s bl fl av -> 0 <= i < free_len s -> x ∈ fl i ->
  exists b, b ∈ bl /\ b_at b = x /\ b_st b = Free /\ class s (b_sz b) = i /\ size_at s x = b_sz b /\
    exists h, storages s !! x = Some h /\ sz h = b_sz b.
Proof.
  intros V Hi Hx. apply (v_members _ _ _ _ V) in Hx as (b & Hb & <- & Hf & Hc); [|done].
  destruct (v_blocks _ _ _ _ V b Hb) as (h & Hh & Hsz & _). exists b. unfold size_at. rewrite Hh. eauto 10.
Qed.

Lemma fl_length s bl fl av i : inv s bl fl av -> 0 <= i < free_len s -> (length (fl i) < block_fuel s)%nat.
Proof.
  intros V Hi. unfold block_fuel. pose proof (v_frees _ _ _ _ V i Hi) as [Hnd _]. apply NoDup_cons in Hnd as [_ Hnd].
  apply Nat.lt_succ_r. rewrite <- size_dom, <- (size_list_to_set (C := gset ptr)) by done.
  apply subseteq_size. intros x. rewrite elem_of_list_to_set. intros Hx.
  destruct (fl_block _ _ _ _ _ _ V Hi Hx) as (b & _ & _ & _ & _ & _ & h & Hh & _). by eapply elem_of_dom_2.
Qed.

(** The first block of a list that is large enough. *)
Lemma first_fit_spec s bl fl av i size fuel k1 x k2 :
  inv s bl fl av -> 0 <= i < free_len s -> fl i = k1 ++ x :: k2 -> (length k2 < fuel)%nat ->
  first_fit fuel s (class_at s i) x size = Some (snd <$> list_find (fun y => size <= size_at s y) (x :: k2)).
Proof.
  intros V Hi. revert k1 x k2. induction fuel as [|fuel IH]; intros k1 x k2 Hfl Hf; [lia |]. cbn [first_fit].
  assert (x ∈ fl i) as Hx by (rewrite Hfl; apply elem_of_app; right; by left).
  destruct (fl_block _ _ _ _ _ _ V Hi Hx) as (b & Hb & _ & _ & _ & Hat & h & Hh & Hsz). rewrite Hh. cbn [mbind option_bind].
  cbn [list_find]. rewrite Hat, Hsz. destruct (Z.leb_spec size (b_sz b)); [by rewrite decide_True |].
  rewrite decide_False by lia. pose proof (v_frees _ _ _ _ V i Hi) as Hq. rewrite Hfl in Hq.
  destruct (is_queue_cut _ _ _ _ _ Hq) as [_ [Hn _]]. unfold queue_next. rewrite Hn. cbn [mbind option_bind].
  destruct k2 as [|y k2]; [by rewrite bool_decide_true |]. cbn [succ_of List.hd]. rewrite bool_decide_false.
  - rewrite (IH (k1 ++ [x]) y k2); [|by rewrite <- app_assoc | simpl in Hf; lia]. cbn [list_find].
    destruct (decide _); [done |]. by destruct (list_find _ k2) as [[? ?]|].
  - intros E. destruct Hq as [Hnd _]. apply NoDup_cons in Hnd as [Hnd _]. apply Hnd. rewrite E.
    apply elem_of_app. right. right. by left.
Qed.

Lemma find_class_spec s bl fl av i fuel A1 A2 :
  inv s bl fl av -> av = A1 ++ A2 -> (length A2 < fuel)%nat ->
  find_class fuel s i (succ_of (base s) (class_at s <$> A2)) = Some (class_at s ∘ snd <$> list_find (fun j => i < j) A2).
Proof.
  intros V. revert A1 A2. induction fuel as [|fuel IH]; intros A1 A2 E Hf; [lia |]. cbn [find_class]. rewrite succ_class.
  destruct A2 as [|j A2]; [by rewrite bool_decide_true |].
  assert (j ∈ av) as Hj by (rewrite E; apply elem_of_app; right; by left).
  pose proof (av_range _ _ _ _ _ V Hj) as Hr. apply (v_nonempty _ _ _ _ V) in Hj as [_ Hne].
  rewrite bool_decide_false by (apply (class_at_base a e); [exact (v_geom _ _ _ _ V) | lia]).
  rewrite (empty_spec _ _ _ (v_frees _ _ _ _ V j Hr)), bool_decide_false by done. cbn [mbind option_bind negb andb].
  rewrite index_class by lia. cbn [list_find]. destruct (Z.ltb_spec i j); [by rewrite decide_True |].
  rewrite decide_False by lia. pose proof (v_avail _ _ _ _ V) as Hq. rewrite E in Hq.
  rewrite (queue_next_class _ _ _ _ Hq). cbn [mbind option_bind]. rewrite (IH (A1 ++ [j]) A2); [|by rewrite <- app_assoc | simpl in Hf; lia].
  by destruct (list_find _ A2) as [[? ?]|].
Qed.

(** ** Size classes and sizes *)

(** The class from which on every block is large enough. *)
Definition fit_class (s : shmem) (size : Z) : Z :=
  if size <=? min_size s then 0
  else if level_type s =? DFS_SHMEM_LEVEL_TYPE_LINEAR then
    (size - min_size s) / factor s + (if (size - min_size s) mod factor s =? 0 then 0 else 1)
  else Z.log2_up (size / min_size s + (if size mod min_size s =? 0 then 0 else 1)).

Lemma divide_up_spec p q : is_u64 p -> 0 < q ->
  divide_up p q = Some (p / q + (if p mod q =? 0 then 0 else 1)).
Proof.
  unfold is_u64. intros Hp Hq. unfold divide_up, divide. destruct (Z.eqb_spec q 0); [lia |]. cbn [mbind option_bind].
  destruct (Z.eqb_spec (p mod q) 0) as [H0 | H0]; cbn [negb]; [by rewrite Z.add_0_r |]. rewrite u64_small; [done |].
  assert (q <> 1) by (intros ->; by rewrite Z.mod_1_r in H0). pose proof (Z.div_pos p q ltac:(lia) Hq).
  assert (p / q <= p / 2) by (apply Z.div_le_compat_l; lia). pose proof (Z.div_mod p 2 ltac:(lia)).
  pose proof (Z.mod_pos_bound p 2 ltac:(lia)). unfold is_u64. lia.
Qed.

Lemma alloc_index s size : geometry a e s -> is_u64 size -> dfs_shmem_get_alloc_index s size = Some (fit_class s size).
Proof.
  intros G [H1 H2]. unfold dfs_shmem_get_alloc_index, fit_class. destruct (Z.leb_spec size (min_size s)); [done |].
  pose proof (g_min _ _ _ G) as Hm. destruct (g_level _ _ _ G) as [[-> Hf] | ->]; cbn [Z.eqb DFS_SHMEM_LEVEL_TYPE_LINEAR DFS_SHMEM_LEVEL_TYPE_EXP].
  - apply divide_up_spec; [unfold is_u64|]; lia.
  - rewrite divide_up_spec by (unfold is_u64; lia). cbn [mbind option_bind]. apply dfslog2_spec.
    pose proof (Z.div_pos size (min_size s) ltac:(lia) ltac:(lia)). unfold is_u64.
    destruct (decide (min_size s = 1)) as [-> |]; [rewrite Z.mod_1_r, Z.div_1_r; cbn; lia |].
    assert (size / min_size s <= size / 2) by (apply Z.div_le_compat_l; lia).
    pose proof (Z.div_mod size 2 ltac:(lia)). pose proof (Z.mod_pos_bound size 2 ltac:(lia)).
    destruct (_ =? 0); lia.
Qed.

Lemma fit_class_nonneg s size : geometry a e s -> 0 <= size -> 0 <= fit_class s size.
Proof.
  intros G Hs. unfold fit_class. destruct (Z.leb_spec size (min_size s)); [lia |].
  destruct (g_level _ _ _ G) as [[-> Hf] | ->]; cbn [Z.eqb DFS_SHMEM_LEVEL_TYPE_LINEAR DFS_SHMEM_LEVEL_TYPE_EXP].
  - pose proof (Z.div_pos (size - min_size s) (factor s) ltac:(lia) Hf). destruct (_ =? 0); lia.
  - apply Z.log2_up_nonneg.
Qed.

(** Blocks from the class of a request on are large enough for it ... *)
Lemma fit_enough s size n :
  geometry a e s -> min_size s < size -> 0 <= n -> fit_class s size <= raw_class s n -> size <= n.
Proof.
  intros G Hs Hn. pose proof (g_min _ _ _ G) as Hm. unfold fit_class, raw_class.
  destruct (Z.leb_spec size (min_size s)); [lia |].
  destruct (g_level _ _ _ G) as [[-> Hf] | ->]; cbn [Z.eqb DFS_SHMEM_LEVEL_TYPE_LINEAR DFS_SHMEM_LEVEL_TYPE_EXP].
  - pose proof (Z.div_mod (size - min_size s) (factor s) ltac:(lia)) as E1.
    pose proof (Z.mod_pos_bound (size - min_size s) (factor s) Hf) as B1.
    pose proof (Z.div_pos (size - min_size s) (factor s) ltac:(lia) Hf).
    destruct (Z.leb_spec n (min_size s)).
    + destruct (Z.eqb_spec ((size - min_size s) mod factor s) 0); [|lia]. intros H3.
      assert ((size - min_size s) / factor s = 0) as H4 by lia. rewrite H4 in E1. lia.
    + pose proof (Z.div_mod (n - min_size s) (factor s) ltac:(lia)) as E2.
      pose proof (Z.mod_pos_bound (n - min_size s) (factor s) Hf) as B2.
      destruct (Z.eqb_spec ((size - min_size s) mod factor s) 0); nia.
  - pose proof (Z.div_mod size (min_size s) ltac:(lia)) as E1. pose proof (Z.mod_pos_bound size (min_size s) ltac:(lia)) as B1.
    set (c := size / min_size s + (if size mod min_size s =? 0 then 0 else 1)).
    assert (1 < c /\ size <= min_size s * c) as [Hc1 Hc2].
    { unfold c. assert (1 <= size / min_size s) by (apply Z.div_le_lower_bound; lia).
      destruct (Z.eqb_spec (size mod min_size s) 0); [|nia]. split; [|nia].
      destruct (decide (size / min_size s = 1)); [nia | lia]. }
    pose proof (Z.log2_up_spec c ltac:(lia)) as [_ Hup]. pose proof (Z.log2_up_pos c ltac:(lia)) as Hpos.
    destruct (Z.leb_spec n (min_size s)); [lia |]. intros Hle.
    assert (1 <= n / min_size s) as Hq by (apply Z.div_le_lower_bound; lia).
    pose proof (Z.log2_spec (n / min_size s) ltac:(lia)) as [Hlo _].
    assert (2 ^ Z.log2_up c <= 2 ^ Z.log2 (n / min_size s)) by (apply Z.pow_le_mono_r; lia).
    pose proof (Z.mul_div_le n (min_size s) ltac:(lia)). nia.
Qed.

(** ... and blocks two classes below it are too small. *)
Lemma fit_needed s size n :
  geometry a e s -> min_size s < size -> 0 <= n -> size <= n -> fit_class s size <= raw_class s n + 1.
Proof.
  intros G Hs Hn Hle. pose proof (g_min _ _ _ G) as Hm. unfold fit_class, raw_class.
  destruct (Z.leb_spec size (min_size s)); [lia |]. destruct (Z.leb_spec n (min_size s)); [lia |].
  destruct (g_level _ _ _ G) as [[-> Hf] | ->]; cbn [Z.eqb DFS_SHMEM_LEVEL_TYPE_LINEAR DFS_SHMEM_LEVEL_TYPE_EXP].
  - assert ((size - min_size s) / factor s <= (n - min_size s) / factor s) by (apply Z.div_le_mono; lia).
    destruct (_ =? 0); lia.
  - assert (1 <= size / min_size s <= n / min_size s) as Hq by (split; [apply Z.div_le_lower_bound; lia | apply Z.div_le_mono; lia]).
    pose proof (Z.log2_le_mono _ _ (proj2 Hq)) as Hlog. destruct (_ =? 0).
    + rewrite Z.add_0_r. pose proof (Z.le_log2_up_succ_log2 (size / min_size s)). lia.
    + rewrite Z.log2_up_eqn by lia. replace (Z.pred (size / min_size s + 1)) with (size / min_size s) by lia. lia.
Qed.

Lemma class_pos_size s n : 0 < class s n -> min_size s < n.
Proof. unfold class, raw_class. destruct (Z.leb_spec n (min_size s)); lia. Qed.

(** The class that is searched has free blocks, and among them one that is large enough, if
    any free block is (for a request of at most the smallest size: any of class 0). *)
Definition covers (s : shmem) (bl : list block) (fl : Z -> list ptr) (size i : Z) : Prop :=
  forall b, b ∈ bl -> b_st b = Free -> size <= b_sz b -> min_size s < size \/ class s (b_sz b) = 0 ->
  exists x, x ∈ fl i /\ size <= size_at s x.

Lemma covers_above s bl fl av size i :
  inv s bl fl av -> 0 < size -> min_size s < size -> i ∈ av -> fit_class s size <= i -> covers s bl fl size i.
Proof.
  intros V Hs Hm Hi Hfit b _ _ _ _. pose proof (av_range _ _ _ _ _ V Hi) as Hr.
  apply (v_nonempty _ _ _ _ V) in Hi as [_ Hne]. destruct (fl i) as [|x k] eqn:E; [done |]. exists x. split; [by left |].
  destruct (fl_block _ _ _ _ i x V Hr) as (b' & Hb' & _ & _ & Hc & -> & _); [rewrite E; by left |].
  eapply (fit_enough s size); [exact (v_geom _ _ _ _ V) | done | by destruct (size_u64 _ _ _ _ _ V Hb') |].
  unfold class in Hc. lia.
Qed.

Lemma covers_last s bl fl av size :
  inv s bl fl av -> 0 < size -> av <> [] -> List.last av (free_len s) <= fit_class s size ->
  covers s bl fl size (List.last av (free_len s)).
Proof.
  intros V Hs Hav Hle b Hb Hf Hsz Hor. set (mx := List.last av (free_len s)) in *.
  assert (mx ∈ av) as Hmx by by apply last_in. pose proof (av_range _ _ _ _ _ V Hmx) as Hr.
  pose proof (block_class _ _ _ _ _ V Hb) as Hcr.
  assert (b_at b ∈ fl (class s (b_sz b))) as Hbin by (apply (v_members _ _ _ _ V); [done | by exists b]).
  assert (class s (b_sz b) ∈ av) as Hcav by (apply (v_nonempty _ _ _ _ V); split; [done |]; intros E; rewrite E in Hbin; by apply elem_of_nil in Hbin).
  pose proof (last_le _ (free_len s) _ (v_sorted _ _ _ _ V) Hcav) as Hcle. fold mx in Hcle.
  destruct (fl_block _ _ _ _ _ _ V Hcr Hbin) as (b' & Hb' & E & _ & _ & Hat & _).
  pose proof (block_unique _ _ _ _ _ (v_tiles _ _ _ _ V) Hb' Hb E). subst b'.
  destruct (decide (class s (b_sz b) = mx)) as [Ec | Hne]; [exists (b_at b); rewrite <- Ec, Hat; done |].
  destruct (Z.le_gt_cases size (min_size s)) as [Hmin | Hmin].
  - (* a small request *) destruct Hor as [? | Hc0]; [lia |]. exfalso. unfold fit_class in Hle.
    destruct (Z.leb_spec size (min_size s)); lia.
  - apply (v_nonempty _ _ _ _ V) in Hmx as [_ Hmne]. destruct (fl mx) as [|x k] eqn:Ek; [done |]. exists x. split; [by left |].
    destruct (fl_block _ _ _ _ mx x V Hr) as (b' & Hb'' & _ & _ & Hc' & -> & _); [rewrite Ek; by left |].
    pose proof (fit_needed s size (b_sz b) (v_geom _ _ _ _ V) Hmin ltac:(lia) Hsz) as Hneed.
    eapply (fit_enough s size); [exact (v_geom _ _ _ _ V) | done | by destruct (size_u64 _ _ _ _ _ V Hb'') |].
    unfold class in *. lia.
Qed.

Lemma choose_class_spec s bl fl av size :
  inv s bl fl av -> 0 < size < 2 ^ 64 -> av <> [] ->
  exists i, choose_class s size = Some (inl (class_at s i)) /\ i ∈ av /\ covers s bl fl size i.
Proof.
  intros V Hs Hav. pose proof (v_geom _ _ _ _ V) as G. unfold choose_class.
  rewrite alloc_index by (try done; unfold is_u64; lia). cbn [mbind option_bind]. rewrite (v_max _ _ _ _ V).
  assert (List.last av (free_len s) ∈ av) as Hmx by by apply last_in. pose proof (av_range _ _ _ _ _ V Hmx) as Hr.
  pose proof (fit_class_nonneg s size G ltac:(lia)) as Hpos.
  destruct (Z.ltb_spec (fit_class s size) (List.last av (free_len s))) as [Hlt | Hge].
  - set (i := fit_class s size) in *. rewrite (empty_spec _ _ _ (v_frees _ _ _ _ V i ltac:(lia))). cbn [mbind option_bind].
    assert (i ∈ av -> covers s bl fl size i) as Hcov.
    { intros Hi. destruct (Z.le_gt_cases size (min_size s)) as [Hmin | Hmin]; [|eapply covers_above; [exact V | lia | done | done | lia]].
      intros b Hb Hf Hsz [? | Hc]; [lia |]. exists (b_at b).
      assert (i = 0) as -> by (unfold i, fit_class; destruct (Z.leb_spec size (min_size s)); lia).
      assert (b_at b ∈ fl 0) as Hin by (apply (v_members _ _ _ _ V); [lia | by exists b]). split; [done |].
      destruct (fl_block _ _ _ _ 0 _ V ltac:(lia) Hin) as (b' & Hb' & E & _ & _ & -> & _).
      by rewrite (block_unique _ _ _ _ _ (v_tiles _ _ _ _ V) Hb' Hb E). }
    case_bool_decide as Hemp; cbn [negb].
    + unfold queue_head. rewrite (is_queue_head _ _ _ (v_avail _ _ _ _ V)). cbn [mbind option_bind].
      rewrite (find_class_spec _ _ _ _ i _ [] av V) by (try done; pose proof (av_length _ _ _ _ V); lia). cbn [mbind option_bind].
      destruct (list_find (fun j => i < j) av) as [[k j]|] eqn:Ef; cbn [fmap option_fmap option_map].
      * apply list_find_Some in Ef as (Hj & Hij & _). apply list_elem_of_lookup_2 in Hj. exists j. split; [done |].
        split; [done |]. destruct (Z.le_gt_cases size (min_size s)) as [Hmin | Hmin]; [|eapply covers_above; [exact V | lia | done | done | lia]].
        intros b Hb Hf Hsz [? | Hc]; [lia |]. exfalso.
        assert (i = 0) as E by (unfold i, fit_class; destruct (Z.leb_spec size (min_size s)); lia). rewrite E in Hemp.
        assert (b_at b ∈ fl 0) as Hin by (apply (v_members _ _ _ _ V); [lia | by exists b]).
        rewrite Hemp in Hin. by apply elem_of_nil in Hin.
      * exfalso. apply list_find_None in Ef. rewrite Forall_forall in Ef. apply (Ef _ Hmx Hlt).
    + assert (i ∈ av) as Hi by (apply (v_nonempty _ _ _ _ V); split; [lia | done]). exists i. auto.
  - pose proof Hmx as [_ Hne]%(v_nonempty _ _ _ _ V). set (mx := List.last av (free_len s)) in *.
    rewrite (empty_spec _ _ _ (v_frees _ _ _ _ V mx Hr)), bool_decide_false by done. cbn [mbind option_bind].
    exists mx. split; [done |]. split; [done |]. eapply covers_last; [exact V | lia | done | lia].
Qed.

(** ** Taking, splitting and joining blocks *)

(** A change of a block that is not in the free lists. *)
Lemma inv_status s s' l1 b st l2 fl av :
  inv s (l1 ++ b :: l2) fl av -> b_st b <> Free -> st <> Free -> same_geometry s s' -> order s' = order s ->
  available s' = available s -> frees s' = frees s -> max_available_index s' = max_available_index s ->
  (forall x, x <> b_at b -> storages s' !! x = storages s !! x) -> block_ok s' (restate b st) ->
  inv s' (l1 ++ restate b st :: l2) fl av.
Proof.
  intros V Hb Hst Hg Ho Ha Hf Hm Hother Hok. pose proof Hg as (E1 & E2 & E3 & _). pose proof (v_nodup _ _ _ _ V) as Hnd. split.
  - eapply geometry_same; [exact Hg | exact (v_geom _ _ _ _ V)].
  - apply tiles_restate, (v_tiles _ _ _ _ V).
  - rewrite Ho, E1, at_restate. apply (v_order _ _ _ _ V).
  - intros b' [-> | Hin]%in_middle; [done |]. eapply block_ok_other; [exact Hg | | by apply (v_blocks _ _ _ _ V), in_rest].
    apply Hother. by eapply rest_other.
  - rewrite Hf. intros b' [-> | Hin]%in_middle; [apply (v_cells _ _ _ _ V b), elem_of_app; right; by left | by apply (v_cells _ _ _ _ V), in_rest].
  - intros i Hi. rewrite (class_at_same s s' _ Hg), Hf. apply (v_frees _ _ _ _ V). by rewrite E3 in Hi.
  - intros i x Hi. rewrite E3 in Hi. rewrite (free_in_same s s' _ _ _ Hg), (v_members _ _ _ _ V i x Hi).
    rewrite (free_in_middle s l1 (restate b st) l2) by by rewrite at_restate. rewrite (free_in_middle s l1 b l2) by done. naive_solver.
  - intros i Hi. rewrite (class_at_same s s' _ Hg), Ha. apply (v_classes _ _ _ _ V). by rewrite E3 in Hi.
  - rewrite E1, Ha. assert (class_at s' <$> av = class_at s <$> av) as ->; [|exact (v_avail _ _ _ _ V)].
    apply list_fmap_ext. intros ? i _. by apply class_at_same.
  - exact (v_sorted _ _ _ _ V).
  - rewrite E3. exact (v_nonempty _ _ _ _ V).
  - rewrite Hm, E3. exact (v_max _ _ _ _ V).
Qed.

(** The links of the order queue when [y] is split off behind [x]: the copied entry, the two
    insertions and the removal amount to one insertion. *)
Lemma split_links m h l1 x l2 y :
  is_queue m h (l1 ++ x :: l2) -> y ∉ h :: l1 ++ x :: l2 ->
  exists m1 m2 m3 m4, copy_entry x y m = Some m1 /\ queue_insert_before y x m1 = Some m2 /\ queue_remove y m2 = Some m3 /\
    queue_insert_after x y m3 = Some m4 /\ is_queue m4 h (l1 ++ x :: y :: l2).
Proof.
  intros Hq Hy. pose proof Hq as [Hnd _]. destruct (is_queue_cut _ _ _ _ _ Hq) as [[HPn HPp] [HNn HNp]].
  pose proof (pred_of_in h l1) as HP. pose proof (succ_of_in h l2) as HN.
  set (P := pred_of h l1) in *. set (N := succ_of h l2) in *. clearbody P N.
  assert (y <> x /\ y <> P /\ y <> N /\ x <> P /\ x <> N) as (H1 & H2 & H3 & H4 & H5).
  { rewrite elem_of_cons, elem_of_app, elem_of_cons in Hy. rewrite elem_of_cons in HP, HN.
    rewrite NoDup_cons, NoDup_app, NoDup_cons, elem_of_app, elem_of_cons in Hnd. destruct Hnd as (Hh & _ & Hd & Hx & _).
    repeat split; intros E; try (subst; tauto).
    - destruct HP as [HP | HP]; [subst; tauto |]. rewrite <- E in HP. apply (Hd x HP). by left.
    - destruct HN as [HN | HN]; [subst; tauto |]. rewrite <- E in HN. done. }
  assert (exists m1 m2 m3, copy_entry x y m = Some m1 /\ queue_insert_before y x m1 = Some m2 /\
    queue_remove y m2 = Some m3 /\ same_off [y] m m3 /\ allocated m3 y) as (m1 & m2 & m3 & E1 & E2 & E3 & Hoff & Hal).
  { unfold copy_entry. rewrite HNn, HPp. cbn [mbind option_bind]. eexists _, _, _. split; [reflexivity |].
    split; [unfold queue_insert_before; run_links; reflexivity |]. split; [unfold queue_remove; run_links; reflexivity |].
    split; [|split; cbn; rewrite lookup_insert_eq; by eexists].
    intros c Hc. apply not_elem_of_cons in Hc as [Hc _]. cbn [l_next l_prev]. rewrite !lookup_insert.
    split; repeat case_decide; congruence. }
  assert (is_queue m3 h ((l1 ++ [x]) ++ l2)) as Hq3.
  { rewrite <- app_assoc. eapply is_queue_frame; [exact Hoff | | exact Hq]. by intros c Hc ->%list_elem_of_singleton. }
  destruct (insert_after_spec m3 h (l1 ++ [x]) y l2) as (m4 & _ & Hm4 & Hq4 & _); [done | by rewrite <- app_assoc | done |].
  rewrite pred_of_snoc in Hm4. exists m1, m2, m3, m4. rewrite <- app_assoc in Hq4. done.
Qed.

Definition cut_head (b : block) (size act : Z) : block := {| b_at := b_at b; b_sz := size; b_st := Used act |}.
Definition cut_tail (b : block) (size : Z) (st : status) : block :=
  {| b_at := addr (b_at b) (STORAGE_SIZE + size); b_sz := b_sz b - size - STORAGE_SIZE; b_st := st |}.

Lemma addr_Z x n : 0 <= Z.of_N x + n -> Z.of_N (addr x n) = Z.of_N x + n.
Proof. unfold addr. lia. Qed.

Lemma tail_inside s l1 b l2 fl av size :
  inv s (l1 ++ b :: l2) fl av -> 0 <= size -> size + STORAGE_SIZE <= b_sz b ->
  Z.of_N (addr (b_at b) (STORAGE_SIZE + size)) = Z.of_N (b_at b) + STORAGE_SIZE + size /\
  (forall b', b' ∈ l1 ++ b :: l2 -> b_at b' <> addr (b_at b) (STORAGE_SIZE + size)) /\
  (forall i, 0 <= i < free_len s -> class_at s i <> addr (b_at b) (STORAGE_SIZE + size)) /\
  addr (b_at b) (STORAGE_SIZE + size) <> base s.
Proof.
  intros V Hs Hsz. pose proof (g_area _ _ _ (v_geom _ _ _ _ V)) as [Ha _]. pose proof (g_free _ _ _ (v_geom _ _ _ _ V)) as Hfr.
  pose proof (v_tiles _ _ _ _ V) as Ht. apply tiles_app in Ht as (m & H1 & H2 & H3 & H4).
  assert (a <= m) by (pose proof (tiles_le _ _ _ H1); unfold STORAGE_SIZE in *; lia).
  pose proof (g_len _ _ _ (v_geom _ _ _ _ V)). unfold STORAGE_SIZE, SHMEM_SIZE, FREE_NODE_SIZE in *.
  assert (Z.of_N (addr (b_at b) (64 + size)) = Z.of_N (b_at b) + 64 + size) as E by (rewrite addr_Z; lia).
  split; [done |]. split; [|split].
  - intros b' [Hin | [-> | Hin]%elem_of_cons]%elem_of_app E'; rewrite <- E' in E.
    + destruct (tiles_in _ _ _ _ H1 Hin) as (_ & ? & ?). unfold STORAGE_SIZE in *. lia.
    + lia.
    + destruct (tiles_in _ _ _ _ H4 Hin) as (? & ? & ?). unfold STORAGE_SIZE in *. lia.
  - intros i Hi E'. pose proof (class_at_Z s i ltac:(lia)) as Ec. unfold FREE_NODE_SIZE in Ec. rewrite E' in Ec. lia.
  - intros E'. rewrite E' in E. lia.
Qed.

(** The invariant when a loose block has been cut in two. *)
Lemma inv_split s s1 l1 b l2 fl av size act :
  inv s (l1 ++ b :: l2) fl av -> b_st b = Loose -> 0 <= size -> size + STORAGE_SIZE <= b_sz b ->
  same_geometry s s1 -> available s1 = available s -> max_available_index s1 = max_available_index s ->
  is_queue (order s1) (base s) ((b_at <$> l1) ++ b_at b :: addr (b_at b) (STORAGE_SIZE + size) :: (b_at <$> l2)) ->
  same_off [addr (b_at b) (STORAGE_SIZE + size)] (frees s) (frees s1) ->
  allocated (frees s1) (addr (b_at b) (STORAGE_SIZE + size)) ->
  (forall x, x <> b_at b -> x <> addr (b_at b) (STORAGE_SIZE + size) -> storages s1 !! x = storages s !! x) ->
  block_ok s1 (cut_head b size act) -> block_ok s1 (cut_tail b size Loose) ->
  inv s1 ((l1 ++ [cut_head b size act]) ++ cut_tail b size Loose :: l2) fl av.
Proof.
  intros V Hb Hs Hsz Hg Ha Hm Ho Hoff Hal Hother Hok1 Hok2. pose proof Hg as (E1 & E2 & E3 & _).
  pose proof (v_nodup _ _ _ _ V) as Hnd. destruct (tail_inside _ _ _ _ _ _ _ V Hs Hsz) as (Ey & Hyb & Hyc & _).
  set (y := addr (b_at b) (STORAGE_SIZE + size)) in *.
  assert (forall b', b' ∈ (l1 ++ [cut_head b size act]) ++ cut_tail b size Loose :: l2 <->
    b' = cut_head b size act \/ b' = cut_tail b size Loose \/ b' ∈ l1 ++ l2) as Hin.
  { intros b'. rewrite !elem_of_app, list_elem_of_singleton, elem_of_cons. tauto. }
  assert (forall x, x <> y -> allocated (frees s) x -> allocated (frees s1) x) as Hcell.
  { intros x Hx. destruct (Hoff x) as [F1 F2]; [by rewrite list_elem_of_singleton|]. unfold allocated. by rewrite F1, F2. }
  split.
  - eapply geometry_same; [exact Hg | exact (v_geom _ _ _ _ V)].
  - rewrite <- app_assoc. pose proof (v_tiles _ _ _ _ V) as Ht. apply tiles_app in Ht as (m & H1 & H2 & H3 & H4).
    apply tiles_app. exists m. split; [done |]. cbn. unfold STORAGE_SIZE in *. split; [done |]. split; [done |].
    split; [fold y; lia |]. split; [lia |]. by replace (m + 64 + size + 64 + (b_sz b - size - 64)) with (m + 64 + b_sz b) by lia.
  - rewrite E1, !fmap_app, fmap_cons, <- app_assoc. exact Ho.
  - intros b' [-> | [-> | Hin']]%Hin; [done.. |]. eapply block_ok_other; [exact Hg | | by apply (v_blocks _ _ _ _ V), in_rest].
    apply Hother; [by eapply rest_other | by apply Hyb, in_rest].
  - intros b' [-> | [-> | Hin']]%Hin; [| done |].
    + apply Hcell; [apply (Hyb b) | apply (v_cells _ _ _ _ V b)]; apply elem_of_app; right; by left.
    + apply Hcell; [by apply Hyb, in_rest | by apply (v_cells _ _ _ _ V), in_rest].
  - intros i Hi. rewrite (class_at_same s s1 _ Hg). rewrite E3 in Hi. eapply is_queue_frame; [exact Hoff | | by apply (v_frees _ _ _ _ V)].
    intros x Hx Ex%list_elem_of_singleton. subst x. apply elem_of_cons in Hx as [E | Hx]; [by apply (Hyc i) |].
    destruct (fl_block _ _ _ _ _ _ V Hi Hx) as (b' & Hb' & E & _). by apply (Hyb b').
  - intros i x Hi. rewrite E3 in Hi. rewrite (free_in_same s s1 _ _ _ Hg), (v_members _ _ _ _ V i x Hi).
    rewrite (free_in_middle s l1 b l2) by done. rewrite Hb. unfold free_in. setoid_rewrite Hin. split.
    + intros [(_ & ? & _) | (_ & b' & Hb' & H)]; [done |]. exists b'. tauto.
    + intros (b' & [-> | [-> | Hb']] & <- & Hf & Hc); [done.. |]. right. split; [by eapply rest_other | by exists b'].
  - intros i Hi. rewrite (class_at_same s s1 _ Hg), Ha. apply (v_classes _ _ _ _ V). by rewrite E3 in Hi.
  - rewrite E1, Ha. assert (class_at s1 <$> av = class_at s <$> av) as ->; [|exact (v_avail _ _ _ _ V)].
    apply list_fmap_ext. intros ? i _. by apply class_at_same.
  - exact (v_sorted _ _ _ _ V).
  - rewrite E3. exact (v_nonempty _ _ _ _ V).
  - rewrite Hm, E3. exact (v_max _ _ _ _ V).
Qed.

Lemma set_size_spec st n s h :
  storages s !! st = Some h ->
  set_size st n s = Some (with_storage st {| alloc := alloc h; sz := n; act_size := act_size h; free_list_head := free_list_head h |} s).
Proof. intros H. unfold set_size. by rewrite H. Qed.
Lemma set_alloc_spec st v s h :
  storages s !! st = Some h ->
  set_alloc st v s = Some (with_storage st {| alloc := v; sz := sz h; act_size := act_size h; free_list_head := free_list_head h |} s).
Proof. intros H. unfold set_alloc. by rewrite H. Qed.
Lemma set_act_size_spec st n s h :
  storages s !! st = Some h ->
  set_act_size st n s = Some (with_storage st {| alloc := alloc h; sz := sz h; act_size := n; free_list_head := free_list_head h |} s).
Proof. intros H. unfold set_act_size. by rewrite H. Qed.

Lemma split_storage_spec s l1 b l2 fl av size :
  inv s (l1 ++ b :: l2) fl av -> b_st b = Loose -> 0 <= size -> size + STORAGE_SIZE <= b_sz b ->
  exists s' fl' av' act, split_storage (b_at b) size s = Some s' /\ same_geometry s s' /\ shmem_stat s' = shmem_stat s /\
    inv s' ((l1 ++ [cut_head b size act]) ++ cut_tail b size Free :: l2) fl' av'.
Proof.
  intros V Hb Hs Hsz. assert (b ∈ l1 ++ b :: l2) as Hin by (apply elem_of_app; right; by left).
  destruct (v_blocks _ _ _ _ V b Hin) as (h & Hh & Hhsz & Hst). rewrite Hb in Hst.
  destruct (tail_inside _ _ _ _ _ _ _ V Hs Hsz) as (Ey & Hyb & Hyc & Hybase). pose proof (v_order _ _ _ _ V) as Hq.
  rewrite fmap_app, fmap_cons in Hq.
  assert (addr (b_at b) (STORAGE_SIZE + size) ∉ base s :: (b_at <$> l1) ++ b_at b :: (b_at <$> l2)) as Hy.
  { rewrite <- fmap_cons, <- fmap_app. intros [E | (b' & E & Hb')%list_elem_of_fmap]%elem_of_cons; [done | by apply (Hyb b')]. }
  destruct (split_links _ _ _ _ _ _ Hq Hy) as (m1 & m2 & m3 & m4 & Hm1 & Hm2 & Hm3 & Hm4 & Hq4).
  destruct (v_cells _ _ _ _ V b Hin) as [[vn Hvn] [vp Hvp]].
  pose proof (size_u64 _ _ _ _ _ V Hin) as [Hu1 Hu2].
  unfold split_storage. cbv zeta. set (y := addr (b_at b) (STORAGE_SIZE + size)) in *. assert (b_at b <> y) as Hne by by apply Hyb.
  rewrite Hh. cbn [mbind option_bind]. rewrite Hm1. cbn [mbind option_bind frees with_order]. unfold copy_entry at 1.
  rewrite Hvn, Hvp. cbn [mbind option_bind storages with_storage with_frees with_order].
  rewrite (lookup_insert_eq (storages s) y h). cbn [mbind option_bind].
  erewrite set_size_spec by (cbn; apply lookup_insert_eq). cbn [mbind option_bind].
  erewrite set_alloc_spec by (cbn; rewrite !lookup_insert_ne by done; exact Hh). cbn [mbind option_bind].
  erewrite set_size_spec by (cbn; apply lookup_insert_eq).
  cbn [mbind option_bind order with_storage with_frees with_order alloc sz act_size free_list_head].
  rewrite Hm2. cbn [mbind option_bind]. rewrite Hm3. cbn [mbind option_bind]. rewrite Hm4. cbn [mbind option_bind].
  rewrite Hhsz. rewrite (u64_small (size + STORAGE_SIZE)) by (unfold is_u64, STORAGE_SIZE in *; lia).
  rewrite (u64_small (b_sz b - (size + STORAGE_SIZE))) by (unfold is_u64, STORAGE_SIZE in *; lia).
  match goal with |- context [dfs_shmem_insert_free y ?st] => set (s1 := st) end.
  assert (inv s1 ((l1 ++ [cut_head b size (act_size h)]) ++ cut_tail b size Loose :: l2) fl av) as V1.
  { eapply (inv_split s); [exact V | done.. | exact Hq4 | | | | |].
    - intros c Hc. fold y in Hc. apply not_elem_of_cons in Hc as [Hc _]. cbn. by rewrite !lookup_insert_ne.
    - fold y. split; cbn; rewrite lookup_insert_eq; by eexists.
    - intros x Hx Hx'. fold y in Hx'. cbn. by rewrite !lookup_insert_ne.
    - eexists. cbn. rewrite lookup_insert_eq. split; [reflexivity |]. done.
    - eexists. cbn. fold y. rewrite !(lookup_insert_ne _ (b_at b) y) by done. rewrite lookup_insert_eq.
      split; [reflexivity |]. cbn. split; [lia | done]. }
  destruct (insert_free_spec _ _ _ _ _ _ V1 eq_refl) as (s' & fl' & av' & Hins & (Hg & Ho & Hstat) & V').
  cbn [b_at cut_tail] in Hins. fold y in Hins. exists s', fl', av', (act_size h). split; [done |]. split; [done |]. split; [done |]. exact V'.
Qed.

Definition joined (b1 b2 : block) : block :=
  {| b_at := b_at b1; b_sz := b_sz b1 + STORAGE_SIZE + b_sz b2; b_st := Loose |}.

(** The invariant when two neighbouring loose blocks have become one. *)
Lemma inv_joined s s1 l1 b1 b2 l2 fl av :
  inv s (l1 ++ b1 :: b2 :: l2) fl av -> b_st b1 = Loose -> b_st b2 = Loose ->
  same_geometry s s1 -> available s1 = available s -> frees s1 = frees s -> max_available_index s1 = max_available_index s ->
  is_queue (order s1) (base s) ((b_at <$> l1) ++ b_at b1 :: (b_at <$> l2)) ->
  (forall x, x <> b_at b1 -> storages s1 !! x = storages s !! x) -> block_ok s1 (joined b1 b2) ->
  inv s1 (l1 ++ joined b1 b2 :: l2) fl av.
Proof.
  intros V Hb1 Hb2 Hg Ha Hf Hm Ho Hother Hok. pose proof Hg as (E1 & E2 & E3 & _). pose proof (v_nodup _ _ _ _ V) as Hnd.
  assert (forall b', b' ∈ l1 ++ joined b1 b2 :: l2 <-> b' = joined b1 b2 \/ b' ∈ l1 ++ l2) as Hin.
  { intros b'. rewrite !elem_of_app, elem_of_cons. tauto. }
  assert (forall b', b' ∈ l1 ++ l2 -> b' ∈ l1 ++ b1 :: b2 :: l2) as Hsub.
  { intros b'. rewrite !elem_of_app, !elem_of_cons. tauto. }
  assert (forall b', b' ∈ l1 ++ l2 -> b_at b' <> b_at b1) as Hne.
  { intros b' Hb'. eapply rest_other; [exact Hnd |]. revert Hb'. rewrite !elem_of_app, elem_of_cons. tauto. }
  split.
  - eapply geometry_same; [exact Hg | exact (v_geom _ _ _ _ V)].
  - pose proof (v_tiles _ _ _ _ V) as Ht. apply tiles_app in Ht as (m & H1 & H2 & H3 & H4 & H5 & H6).
    apply tiles_app. exists m. split; [done |]. cbn. unfold STORAGE_SIZE in *. split; [done |]. split; [lia |].
    by replace (m + 64 + (b_sz b1 + 64 + b_sz b2)) with (m + 64 + b_sz b1 + 64 + b_sz b2) by lia.
  - rewrite E1, fmap_app, fmap_cons. exact Ho.
  - intros b' [-> | Hin']%Hin; [done |]. eapply block_ok_other; [exact Hg | apply Hother; auto | apply (v_blocks _ _ _ _ V); auto].
  - rewrite Hf. intros b' [-> | Hin']%Hin; [|apply (v_cells _ _ _ _ V); auto].
    apply (v_cells _ _ _ _ V b1), elem_of_app. right. by left.
  - intros i Hi. rewrite (class_at_same s s1 _ Hg), Hf. apply (v_frees _ _ _ _ V). by rewrite E3 in Hi.
  - intros i x Hi. rewrite E3 in Hi. rewrite (free_in_same s s1 _ _ _ Hg), (v_members _ _ _ _ V i x Hi).
    unfold free_in. setoid_rewrite Hin. split.
    + intros (b' & Hb' & E & Hfr & Hc). exists b'. split; [|done]. right. revert Hb'. rewrite !elem_of_app, !elem_of_cons.
      intros [? | [-> | [-> | ?]]]; [tauto | congruence | congruence | tauto].
    + intros (b' & [-> | Hb'] & E & Hfr & Hc); [done |]. exists b'. auto.
  - intros i Hi. rewrite (class_at_same s s1 _ Hg), Ha. apply (v_classes _ _ _ _ V). by rewrite E3 in Hi.
  - rewrite E1, Ha. assert (class_at s1 <$> av = class_at s <$> av) as ->; [|exact (v_avail _ _ _ _ V)].
    apply list_fmap_ext. intros ? i _. by apply class_at_same.
  - exact (v_sorted _ _ _ _ V).
  - rewrite E3. exact (v_nonempty _ _ _ _ V).
  - rewrite Hm, E3. exact (v_max _ _ _ _ V).
Qed.

(** The writes that join [b2] to [b1], in both directions of [dfs_shmem_free]. *)
Lemma join_spec s l1 b1 b2 l2 fl av :
  inv s (l1 ++ b1 :: b2 :: l2) fl av -> b_st b1 = Loose -> b_st b2 = Loose ->
  exists h1 h2 m, storages s !! b_at b1 = Some h1 /\ storages s !! b_at b2 = Some h2 /\ sz h1 = b_sz b1 /\ sz h2 = b_sz b2 /\
    set_size (b_at b1) (b_sz b1 + STORAGE_SIZE + b_sz b2) s =
      Some (with_storage (b_at b1) {| alloc := false; sz := b_sz b1 + STORAGE_SIZE + b_sz b2; act_size := act_size h1; free_list_head := free_list_head h1 |} s) /\
    queue_remove (b_at b2) (order s) = Some m /\
    is_u64 (b_sz b1 + STORAGE_SIZE + b_sz b2) /\
    inv (add_stat 0 0 (-1) (with_order m
      (with_storage (b_at b1) {| alloc := false; sz := b_sz b1 + STORAGE_SIZE + b_sz b2; act_size := act_size h1; free_list_head := free_list_head h1 |} s)))
      (l1 ++ joined b1 b2 :: l2) fl av.
Proof.
  intros V Hb1 Hb2. assert (b1 ∈ l1 ++ b1 :: b2 :: l2) as Hi1 by (apply elem_of_app; right; by left).
  assert (b2 ∈ l1 ++ b1 :: b2 :: l2) as Hi2 by (apply elem_of_app; right; right; by left).
  destruct (v_blocks _ _ _ _ V b1 Hi1) as (h1 & Hh1 & Hs1 & Hst1), (v_blocks _ _ _ _ V b2 Hi2) as (h2 & Hh2 & Hs2 & Hst2).
  rewrite Hb1 in Hst1. rewrite Hb2 in Hst2. pose proof (v_order _ _ _ _ V) as Hq.
  rewrite fmap_app, !fmap_cons in Hq.
  assert ((b_at <$> l1) ++ b_at b1 :: b_at b2 :: (b_at <$> l2) = ((b_at <$> l1) ++ [b_at b1]) ++ b_at b2 :: (b_at <$> l2)) as E
    by by rewrite <- app_assoc.
  rewrite E in Hq. destruct (remove_spec _ _ _ _ _ Hq) as (m & Hm & Hq' & _). rewrite <- app_assoc in Hq'.
  exists h1, h2, m. split; [done |]. split; [done |]. split; [done |]. split; [done |].
  split; [erewrite set_size_spec by exact Hh1; by rewrite Hst1 |]. split; [done |]. split.
  - pose proof (g_area _ _ _ (v_geom _ _ _ _ V)) as [_ He]. pose proof (v_tiles _ _ _ _ V) as Ht.
    apply tiles_app in Ht as (k & H1%tiles_le & H2 & H3 & H4 & H5 & H6%tiles_le). pose proof (g_area _ _ _ (v_geom _ _ _ _ V)) as [Ha _].
    pose proof (g_base _ _ _ (v_geom _ _ _ _ V)). pose proof (g_free _ _ _ (v_geom _ _ _ _ V)). pose proof (g_len _ _ _ (v_geom _ _ _ _ V)).
    unfold is_u64, STORAGE_SIZE, SHMEM_SIZE, FREE_NODE_SIZE in *. lia.
  - eapply (inv_joined s); [exact V | done.. | exact Hq' | |].
    + intros x Hx. cbn. by rewrite lookup_insert_ne.
    + eexists. cbn. rewrite lookup_insert_eq. split; [reflexivity |]. done.
Qed.

Definition is_free (b : block) : bool := match b_st b with Free => true | _ => false end.

Lemma next_block s l1 b l2 fl av :
  inv s (l1 ++ b :: l2) fl av ->
  queue_next (b_at b) (order s) = Some (match l2 with [] => base s | c :: _ => b_at c end) /\
  (forall c, c ∈ l1 ++ b :: l2 -> b_at c <> base s) /\
  match l2 with [] => True | c :: _ => b_at c = addr (b_at b) (STORAGE_SIZE + b_sz b) end.
Proof.
  intros V. pose proof (v_order _ _ _ _ V) as Hq. rewrite fmap_app, fmap_cons in Hq.
  destruct (is_queue_cut _ _ _ _ _ Hq) as [_ [Hn _]]. split; [unfold queue_next; rewrite Hn; by destruct l2 |]. split.
  - intros c Hc E. destruct Hq as [Hnd _]. rewrite <- fmap_cons, <- fmap_app in Hnd. apply NoDup_cons in Hnd as [Hnd _].
    apply Hnd. rewrite <- E. by apply list_elem_of_fmap_2.
  - destruct l2 as [|c l2]; [done |]. pose proof (v_tiles _ _ _ _ V) as Ht. apply tiles_app in Ht as (m & _ & H2 & H3 & H4 & _).
    unfold addr, STORAGE_SIZE in *. lia.
Qed.

Definition merge_next (b : block) (l2 : list block) : block * list block :=
  match l2 with
  | c :: l2' => if is_free c then (joined b c, l2') else (b, l2)
  | [] => (b, l2)
  end.

Definition settled (b : block) : Prop := b_st b <> Loose.

Lemma block_alloc s bl fl av b :
  inv s bl fl av -> b ∈ bl -> settled b ->
  exists h, storages s !! b_at b = Some h /\ sz h = b_sz b /\ alloc h = negb (is_free b).
Proof.
  intros V Hb Hs. destruct (v_blocks _ _ _ _ V b Hb) as (h & Hh & Hsz & Hst). exists h. split; [done |]. split; [done |].
  unfold is_free. unfold settled in Hs. by destruct (b_st b); [destruct Hst | destruct Hst |].
Qed.

Lemma same_geometry_trans s s' s2 : same_geometry s s' -> same_geometry s' s2 -> same_geometry s s2.
Proof. intros (A1 & A2 & A3 & A4 & A5 & A6 & A7) (B1 & B2 & B3 & B4 & B5 & B6 & B7). repeat split; congruence. Qed.

(** One block less is counted. *)
Definition one_less (b : bool) (s : shmem) : dfs_shmem_stat := shmem_stat (if b then add_stat 0 0 (-1) s else s).

Lemma one_less_stat b s s' : shmem_stat s' = shmem_stat s -> one_less b s' = one_less b s.
Proof. intros E. unfold one_less. destruct b; [|done]. unfold add_stat. cbn. by rewrite E. Qed.

Lemma join_next_spec s l1 b l2 fl av :
  inv s (l1 ++ b :: l2) fl av -> b_st b = Loose -> Forall settled l2 ->
  exists s' fl' av', join_next (b_at b) s = Some (true, s') /\ same_geometry s s' /\
    inv s' (l1 ++ (merge_next b l2).1 :: (merge_next b l2).2) fl' av' /\
    shmem_stat s' = one_less (match l2 with c :: _ => is_free c | [] => false end) s.
Proof.
  intros V Hb Hset. destruct (next_block _ _ _ _ _ _ V) as (Hn & Hbase & Hat). unfold join_next. rewrite Hn. cbn [mbind option_bind].
  destruct l2 as [|c l2]; [rewrite bool_decide_true by done; exists s, fl, av; done |].
  assert (b ∈ l1 ++ b :: c :: l2) as Hi1 by (apply elem_of_app; right; by left).
  assert (c ∈ l1 ++ b :: c :: l2) as Hi2 by (apply elem_of_app; right; right; by left).
  rewrite bool_decide_false by by apply Hbase. apply Forall_cons in Hset as [Hset _].
  destruct (v_blocks _ _ _ _ V b Hi1) as (h1 & Hh1 & Hs1 & Hst1), (block_alloc _ _ _ _ _ V Hi2 Hset) as (h2 & Hh2 & Hs2 & Hal2).
  rewrite Hh2, Hh1. cbn [mbind option_bind]. rewrite Hs1, <- Hat, (bool_decide_true (b_at c = b_at c)), andb_true_r, Hal2, negb_involutive by done.
  cbn [merge_next]. destruct (is_free c) eqn:Ef; [|by exists s, fl, av].
  assert (l1 ++ b :: c :: l2 = (l1 ++ [b]) ++ c :: l2) as El by by rewrite <- app_assoc. rewrite El in V.
  destruct (remove_free_spec _ _ _ _ _ _ V) as (s1 & fl1 & av1 & Hrem & (Hg1 & Ho1 & Hst) & V1); [unfold is_free in Ef; by destruct (b_st c)|].
  rewrite <- app_assoc in V1. rewrite Hrem. cbn [mbind option_bind negb].
  destruct (join_spec _ _ _ _ _ _ _ V1 Hb eq_refl) as (g1 & g2 & m & Hg & Hg' & Hsz1 & Hsz2 & Hset' & Hm & Hu & V2).
  cbn [b_at b_sz restate] in *. rewrite Hg, Hg'. cbn [mbind option_bind]. rewrite Hsz1, Hsz2.
  pose proof (size_u64 _ _ _ _ c V ltac:(apply elem_of_app; right; by left)) as Hu2.
  pose proof (size_u64 _ _ _ _ b V ltac:(apply elem_of_app; left; apply elem_of_app; right; by left)) as Hu1.
  rewrite (u64_small (b_sz c + STORAGE_SIZE)) by (unfold is_u64, STORAGE_SIZE in *; lia).
  replace (b_sz b + (b_sz c + STORAGE_SIZE)) with (b_sz b + STORAGE_SIZE + b_sz c) by lia. rewrite u64_small by done.
  rewrite Hset'. cbn [mbind option_bind order with_storage]. rewrite Hm. cbn [mbind option_bind].
  eexists _, fl1, av1. split; [done |]. split; [done |]. split; [exact V2 |]. cbn [fst snd].
  unfold one_less, add_stat. cbn. by rewrite Hst.
Qed.

Definition merge_prev (l1 : list block) (b : block) : list block * block :=
  match last l1 with
  | Some p => if is_free p then (removelast l1, joined p b) else (l1, b)
  | None => (l1, b)
  end.

Lemma join_prev_spec s l1 b l2 fl av :
  inv s (l1 ++ b :: l2) fl av -> b_st b = Loose -> Forall settled l1 ->
  exists s' fl' av', join_prev (b_at b) s = Some (true, b_at (merge_prev l1 b).2, s') /\ same_geometry s s' /\
    inv s' ((merge_prev l1 b).1 ++ (merge_prev l1 b).2 :: l2) fl' av' /\
    shmem_stat s' = one_less (match last l1 with Some p => is_free p | None => false end) s.
Proof.
  intros V Hb Hset. unfold join_prev, merge_prev. pose proof (v_order _ _ _ _ V) as Hq. rewrite fmap_app, fmap_cons in Hq.
  destruct (is_queue_cut _ _ _ _ _ Hq) as [[_ Hp] _]. unfold queue_prev. rewrite Hp. cbn [mbind option_bind].
  assert (l1 = [] \/ l1 <> []) as [-> | Hne] by (destruct l1; auto).
  { cbn. rewrite bool_decide_true by done. by exists s, fl, av. }
  destruct (exists_last Hne) as (k & p & ->). clear Hne. rewrite fmap_app. cbn [fmap list_fmap]. rewrite pred_of_snoc.
  rewrite last_snoc, removelast_last. apply Forall_app in Hset as [_ [Hset _]%Forall_cons].
  rewrite <- app_assoc in V. cbn [app] in V. destruct (next_block _ _ _ _ _ _ V) as (_ & Hbase & Hat).
  assert (p ∈ k ++ p :: b :: l2) as Hi1 by (apply elem_of_app; right; by left).
  assert (b ∈ k ++ p :: b :: l2) as Hi2 by (apply elem_of_app; right; right; by left).
  rewrite bool_decide_false by by apply Hbase.
  destruct (block_alloc _ _ _ _ _ V Hi1 Hset) as (h1 & Hh1 & Hs1 & Hal1). rewrite Hh1. cbn [mbind option_bind].
  replace (sz h1 + STORAGE_SIZE) with (STORAGE_SIZE + b_sz p) by lia.
  rewrite <- Hat, (bool_decide_true (b_at b = b_at b)), andb_true_r, Hal1, negb_involutive by done.
  destruct (is_free p) eqn:Ef; [|by exists s, fl, av; cbn [fst snd]; rewrite <- app_assoc].
  destruct (remove_free_spec _ _ _ _ _ _ V) as (s1 & fl1 & av1 & Hrem & (Hg1 & Ho1 & Hst) & V1); [unfold is_free in Ef; by destruct (b_st p)|].
  rewrite Hrem. cbn [mbind option_bind negb].
  destruct (join_spec _ _ _ _ _ _ _ V1 eq_refl Hb) as (g1 & g2 & m & Hg & Hg' & Hsz1 & Hsz2 & Hset' & Hm & Hu & V2).
  cbn [b_at b_sz restate] in *. rewrite Hg', Hg. cbn [mbind option_bind]. rewrite Hsz1, Hsz2.
  pose proof (size_u64 _ _ _ _ _ V Hi1) as Hu1. pose proof (size_u64 _ _ _ _ _ V Hi2) as Hu2.
  rewrite (u64_small (b_sz b + STORAGE_SIZE)) by (unfold is_u64, STORAGE_SIZE in *; lia).
  replace (b_sz p + (b_sz b + STORAGE_SIZE)) with (b_sz p + STORAGE_SIZE + b_sz b) by lia. rewrite u64_small by done.
  rewrite Hset'. cbn [mbind option_bind order with_storage]. rewrite Hm. cbn [mbind option_bind].
  eexists _, fl1, av1. split; [done |]. split; [done |]. split; [exact V2 |].
  unfold one_less, add_stat. cbn. by rewrite Hst.
Qed.

(** ** The operations on the blocks *)

(** No free block follows another. *)
Fixpoint coalesced (bl : list block) : bool :=
  match bl with
  | b :: (c :: _) as bl => negb (is_free b && is_free c) && coalesced bl
  | _ => true
  end.

(** A consistent segment with the blocks [bl]. *)
Record good (s : shmem) (bl : list block) : Prop := {
  good_inv : exists fl av, inv s bl fl av;
  good_stats : stats_ok s bl;
  good_settled : Forall settled bl;
  good_coalesced : coalesced bl = true
}.

Lemma coalesced_app l1 b l2 :
  coalesced (l1 ++ b :: l2) = coalesced (l1 ++ [b]) && coalesced (b :: l2).
Proof.
  induction l1 as [|c l1 IH]; [done |]. destruct l1 as [|d l1].
  - cbn [app]. change (coalesced (c :: b :: l2)) with (negb (is_free c && is_free b) && coalesced (b :: l2)).
    cbn [coalesced]. by rewrite andb_true_r.
  - cbn [app] in *. change (coalesced (c :: d :: ?l)) with (negb (is_free c && is_free d) && coalesced (d :: l)).
    by rewrite IH, andb_assoc.
Qed.

Lemma coalesced_cons b l : is_free b = false -> coalesced (b :: l) = coalesced l.
Proof. intros Hb. destruct l; [done |]. cbn [coalesced]. by rewrite Hb. Qed.

Lemma coalesced_snoc l b : is_free b = false -> coalesced (l ++ [b]) = coalesced l.
Proof.
  intros Hb. destruct l as [|c l] using rev_ind; [done |]. rewrite <- app_assoc. cbn [app]. rewrite (coalesced_app l c [b]).
  cbn [coalesced]. by rewrite Hb, andb_false_r, !andb_true_r.
Qed.

Lemma coalesced_snoc_free l b : is_free b = true -> coalesced (l ++ [b]) = coalesced l && match last l with Some p => negb (is_free p) | None => true end.
Proof.
  intros Hb. destruct l as [|c l] using rev_ind; [done |]. rewrite <- app_assoc. cbn [app]. rewrite (coalesced_app l c [b]), last_snoc.
  cbn [coalesced]. by rewrite Hb, !andb_true_r.
Qed.

Lemma coalesced_cons_free b l : is_free b = true -> coalesced (b :: l) = coalesced l && match l with c :: _ => negb (is_free c) | [] => true end.
Proof. intros Hb. destruct l as [|c l]; [done |]. cbn [coalesced]. rewrite Hb. cbn [andb]. by rewrite andb_comm. Qed.

Lemma used_bound a0 bl e0 : tiles a0 bl e0 -> 0 <= used_of bl <= e0 - a0.
Proof.
  revert a0. induction bl as [|b bl IH]; intros a0; simpl; [lia |]. intros (_ & Hs & Ht%IH).
  unfold STORAGE_SIZE in *. destruct (b_st b); lia.
Qed.

Lemma reqs_bound bl : Forall act_ok bl -> 0 <= reqs_of bl <= used_of bl.
Proof.
  induction 1 as [|b bl Hb _ IH]; simpl; [lia |]. unfold act_ok in Hb. destruct (b_st b); lia.
Qed.

Lemma area_small s : geometry a e s -> tiles a [] e \/ True -> 0 <= a /\ e < 2 ^ 64.
Proof.
  intros G _. pose proof (g_area _ _ _ G) as [Ha He]. pose proof (g_base _ _ _ G). pose proof (g_free _ _ _ G).
  pose proof (g_len _ _ _ G). unfold SHMEM_SIZE, FREE_NODE_SIZE in *. lia.
Qed.

(** The counters after an operation that turns the blocks [bl] into [bl']. *)
Lemma stats_ok_add s s' bl fl av bl' fl' av' used reqs count :
  inv s bl fl av -> stats_ok s bl -> inv s' bl' fl' av' -> shmem_stat s' = shmem_stat (add_stat used reqs count s) ->
  used_of bl' = used_of bl + used -> reqs_of bl' = reqs_of bl + reqs ->
  Z.of_nat (length bl') = Z.of_nat (length bl) + count ->
  Forall act_ok bl' -> stats_ok s' bl'.
Proof.
  intros V [H1 H2 H3 H4] V' E Hu Hr Hc Hacts. destruct (area_small s (v_geom _ _ _ _ V)) as [Ha He]; [by right |].
  pose proof (used_bound _ _ _ (v_tiles _ _ _ _ V')) as Hb. pose proof (reqs_bound _ Hacts) as Hb2.
  pose proof (tiles_le _ _ _ (v_tiles _ _ _ _ V')) as Hl. unfold STORAGE_SIZE in Hl.
  split; [rewrite E; cbn.. | done].
  - rewrite H1, <- Hu. apply u64_small. unfold is_u64. lia.
  - rewrite H2, <- Hr. apply u64_small. unfold is_u64. lia.
  - rewrite H3, <- Hc. apply u64_small. unfold is_u64. lia.
Qed.

Lemma inv_with_stat s bl fl av t : inv s bl fl av -> inv (with_stat t s) bl fl av.
Proof. intros []. split; try done. by apply (geometry_same _ _ s). Qed.

(** What an allocation leaves of a free block. *)
Definition carve (s : shmem) (b : block) (size : Z) : list block :=
  if b_sz b - size <? STORAGE_SIZE + split_threshold s then [restate b (Used size)]
  else [cut_head b size size; cut_tail b size Free].

Lemma loose_taken s l1 b l2 fl av act :
  inv s (l1 ++ b :: l2) fl av -> b_st b = Loose ->
  exists h s1, storages s !! b_at b = Some h /\ sz h = b_sz b /\
    (s ← set_alloc (b_at b) true s; set_act_size (b_at b) act s) = Some s1 /\ same_rest s s1 /\
    inv s1 (l1 ++ restate b (Used act) :: l2) fl av.
Proof.
  intros V Hb. assert (b ∈ l1 ++ b :: l2) as Hin by (apply elem_of_app; right; by left).
  destruct (v_blocks _ _ _ _ V b Hin) as (h & Hh & Hsz & _). exists h. eexists. split; [done |]. split; [done |].
  erewrite set_alloc_spec by exact Hh. cbn [mbind option_bind]. erewrite set_act_size_spec by apply lookup_insert_eq.
  split; [done |]. split; [done |]. eapply (inv_status s); [exact V | by rewrite Hb | done | done | done | done | done | done | |].
  - intros x Hx. cbn. by rewrite !lookup_insert_ne.
  - eexists. cbn. rewrite lookup_insert_eq. split; [reflexivity |]. done.
Qed.

Lemma settled_restate l1 b st l2 : st <> Loose -> Forall settled (l1 ++ b :: l2) -> Forall settled (l1 ++ restate b st :: l2).
Proof. intros Hst. rewrite !Forall_app, !Forall_cons. tauto. Qed.

Lemma coalesced_used l1 b l2 : is_free b = false -> coalesced l1 = true -> coalesced l2 = true -> coalesced (l1 ++ b :: l2) = true.
Proof. intros Hb H1 H2. rewrite coalesced_app, coalesced_snoc, coalesced_cons by done. by rewrite H1, H2. Qed.

Lemma coalesced_parts l1 b l2 :
  coalesced (l1 ++ b :: l2) = true -> coalesced l1 = true /\ coalesced l2 = true /\
  (is_free b = true -> match last l1 with Some p => negb (is_free p) | None => true end = true /\
    match l2 with c :: _ => negb (is_free c) | [] => true end = true).
Proof.
  rewrite coalesced_app, andb_true_iff. intros [H1 H2]. destruct (is_free b) eqn:Hb.
  - rewrite coalesced_snoc_free in H1 by done. rewrite coalesced_cons_free in H2 by done.
    apply andb_true_iff in H1 as [? ?], H2 as [? ?]. done.
  - rewrite coalesced_snoc in H1 by done. rewrite coalesced_cons in H2 by done. done.
Qed.

Lemma coalesced_carve s l1 b size l2 :
  b_st b = Free -> coalesced (l1 ++ b :: l2) = true -> coalesced (l1 ++ carve s b size ++ l2) = true.
Proof.
  intros Hb (H1 & H2 & H3)%coalesced_parts. destruct H3 as [_ H3]; [unfold is_free; by rewrite Hb |].
  unfold carve. destruct (_ <? _); [by apply coalesced_used |]. cbn [app]. apply coalesced_used; [done.. |].
  rewrite coalesced_cons_free by done. by rewrite H2, H3.
Qed.

(** A request that cannot be met changes nothing but the count of failures. *)
Definition refused (s : shmem) (bl : list block) (size : Z) (r : option (shmem_errno * ptr * shmem)) : Prop :=
  exists err, r = Some (err, nullptr, count_stat 1 0 0 s) /\ (err = ALLOC_EXHAUSTED \/ err = ALLOC_FOUND_NO_FIXED) /\
    forall b, b ∈ bl -> b_st b = Free -> min_size s < size \/ class s (b_sz b) = 0 -> b_sz b < size.

Definition granted (s : shmem) (bl : list block) (size : Z) (r : option (shmem_errno * ptr * shmem)) : Prop :=
  exists l1 b l2 s', bl = l1 ++ b :: l2 /\ b_st b = Free /\ size <= b_sz b /\
    r = Some (ERR_NONE, addr (b_at b) STORAGE_SIZE, s') /\ same_geometry s s' /\ good s' (l1 ++ carve s b size ++ l2).

Lemma av_empty s bl fl av : inv s bl fl av -> max_available_index s = free_len s <-> av = [].
Proof.
  intros V. rewrite (v_max _ _ _ _ V). split; [|by intros ->]. intros E. destruct av as [|i av]; [done |]. exfalso.
  assert (List.last (i :: av) (free_len s) ∈ i :: av) as Hin by by apply last_in. rewrite E in Hin.
  apply (av_range _ _ _ _ _ V) in Hin. lia.
Qed.

Lemma free_available s bl fl av b : inv s bl fl av -> b ∈ bl -> b_st b = Free -> class s (b_sz b) ∈ av /\ b_at b ∈ fl (class s (b_sz b)).
Proof.
  intros V Hb Hf. pose proof (block_class _ _ _ _ _ V Hb) as Hr.
  assert (b_at b ∈ fl (class s (b_sz b))) as Hin by (apply (v_members _ _ _ _ V); [done | by exists b]). split; [|done].
  apply (v_nonempty _ _ _ _ V). split; [done |]. intros E. rewrite E in Hin. by apply elem_of_nil in Hin.
Qed.

(** After the block is chosen. *)
Lemma take_block s l1 b l2 size :
  good s (l1 ++ b :: l2) -> b_st b = Free -> 0 < size <= b_sz b ->
  granted s (l1 ++ b :: l2) size
    ('(ok, s) ← dfs_shmem_remove_free (b_at b) s;
     if negb (ok : bool) then Some (ALLOC_REMOVE_FREE, nullptr, count_stat 1 0 0 s)
     else
       h ← storages s !! b_at b;
       if u64 (sz h - size) <? u64 (STORAGE_SIZE + split_threshold s) then
         s ← set_alloc (b_at b) true s;
         s ← set_act_size (b_at b) size s;
         Some (ERR_NONE, addr (b_at b) STORAGE_SIZE, add_stat (sz h) size 0 s)
       else
         s ← split_storage (b_at b) size s;
         s ← set_act_size (b_at b) size s;
         h ← storages s !! b_at b;
         Some (ERR_NONE, addr (b_at b) STORAGE_SIZE, add_stat (sz h) size 1 s)).
Proof.
  intros [(fl & av & V) Hst Hset Hco] Hb Hs. exists l1, b, l2.
  pose proof (coalesced_parts _ _ _ Hco) as (Hco1 & Hco2 & _). pose proof (t_acts _ _ Hst) as Hacts.
  rewrite Forall_app, Forall_cons in Hset, Hacts. destruct Hset as (Hset1 & _ & Hset2), Hacts as (Ha1 & _ & Ha2).
  assert (b ∈ l1 ++ b :: l2) as Hin by (apply elem_of_app; right; by left). pose proof (size_u64 _ _ _ _ _ V Hin) as [Hu1 Hu2].
  pose proof (g_thr _ _ _ (v_geom _ _ _ _ V)) as Hthr.
  destruct (remove_free_spec _ _ _ _ _ _ V Hb) as (s1 & fl1 & av1 & -> & (Hg1 & Ho1 & Hst1) & V1). cbn [mbind option_bind negb].
  assert (split_threshold s1 = split_threshold s) as -> by by destruct Hg1 as (_ & _ & _ & _ & _ & _ & ->).
  rewrite (u64_small (STORAGE_SIZE + split_threshold s)) by (unfold is_u64, STORAGE_SIZE; lia).
  destruct (loose_taken _ _ _ _ _ _ size V1 eq_refl) as (h & s2 & Hh & Hsz & Hsetact & (Hg2 & Ho2 & Hst2) & V2). cbn [b_at b_sz restate] in *.
  rewrite Hh. cbn [mbind option_bind]. rewrite Hsz, u64_small by (unfold is_u64; lia). unfold carve.
  destruct (b_sz b - size <? STORAGE_SIZE + split_threshold s) eqn:Ecut.
  - destruct (set_alloc (b_at b) true s1) as [s1'|] eqn:Ea; [|done]. cbn [mbind option_bind] in Hsetact |- *. rewrite Hsetact.
    cbn [mbind option_bind]. eexists. split; [done |]. split; [done |]. split; [lia |]. split; [done |].
    split; [eapply same_geometry_trans; [exact Hg1 | exact Hg2] |]. split.
    + exists fl1, av1. by apply inv_with_stat.
    + eapply (stats_ok_add s _ _ fl av _ fl1 av1 (b_sz b) size 0); [exact V | done | by apply inv_with_stat | | | | |].
      * unfold add_stat. cbn. by rewrite Hst2, Hst1.
      * rewrite !used_of_app. cbn. rewrite Hb. lia.
      * rewrite !reqs_of_app. cbn. rewrite Hb. lia.
      * rewrite !length_app. cbn. lia.
      * cbn [app]. rewrite Forall_app, Forall_cons. unfold act_ok at 2. cbn. split; [done |]. split; [lia | done].
    + cbn [app]. rewrite Forall_app, Forall_cons. done.
    + by apply coalesced_used.
  - assert (size + STORAGE_SIZE <= b_sz b) as Hfit by (apply Z.ltb_ge in Ecut; lia).
    destruct (split_storage_spec _ _ _ _ _ _ size V1 eq_refl ltac:(lia) Hfit) as (s3 & fl3 & av3 & act & Hsp & Hg3 & Hst3 & V3).
    cbn [b_at restate] in Hsp. rewrite Hsp. cbn [mbind option_bind]. rewrite <- app_assoc in V3. cbn [app] in V3.
    assert (cut_head (restate b Loose) size act ∈ l1 ++ cut_head (restate b Loose) size act :: cut_tail (restate b Loose) size Free :: l2) as Hin3
      by (apply elem_of_app; right; by left).
    destruct (v_blocks _ _ _ _ V3 _ Hin3) as (h3 & Hh3 & Hsz3 & Hal3 & _). cbn [b_at b_sz b_st cut_head restate] in Hh3, Hsz3.
    erewrite set_act_size_spec by exact Hh3. cbn [mbind option_bind storages with_storage].
    rewrite (lookup_insert_eq (storages s3)). cbn [mbind option_bind]. cbn [sz]. rewrite Hsz3.
    eexists. split; [done |]. split; [done |]. split; [lia |]. split; [done |].
    split; [eapply same_geometry_trans; [exact Hg1 | exact Hg3] |].
    assert (inv (with_storage (b_at b) {| alloc := alloc h3; sz := size; act_size := size; free_list_head := free_list_head h3 |} s3)
      (l1 ++ cut_head b size size :: cut_tail b size Free :: l2) fl3 av3) as V4.
    { eapply (inv_status s3 _ l1 (cut_head (restate b Loose) size act) (Used size)); [exact V3 | done.. | |].
      - intros x Hx. cbn in Hx |- *. by rewrite lookup_insert_ne.
      - eexists. cbn. rewrite lookup_insert_eq. split; [reflexivity |]. by rewrite Hal3. }
    split.
    + exists fl3, av3. apply inv_with_stat. exact V4.
    + eapply (stats_ok_add s _ _ fl av _ fl3 av3 size size 1); [exact V | done | apply inv_with_stat; exact V4 | | | | |].
      * unfold add_stat. cbn. by rewrite Hst3, Hst1.
      * rewrite !used_of_app. cbn. rewrite Hb. lia.
      * rewrite !reqs_of_app. cbn. rewrite Hb. lia.
      * rewrite !length_app. cbn. lia.
      * cbn [app]. rewrite Forall_app, !Forall_cons. unfold act_ok at 2 3. cbn. split; [done |]. split; [lia | done].
    + cbn [app]. rewrite Forall_app, !Forall_cons. done.
    + pose proof (coalesced_carve s l1 b size l2 Hb Hco) as Hc. unfold carve in Hc. by rewrite Ecut in Hc.
Qed.

Lemma fl_first s bl fl av i :
  inv s bl fl av -> i ∈ av -> exists x k, fl i = x :: k /\ queue_head (class_at s i) (frees s) = Some x.
Proof.
  intros V Hi. pose proof (av_range _ _ _ _ _ V Hi) as Hr. pose proof Hi as [_ Hne]%(v_nonempty _ _ _ _ V).
  pose proof (v_frees _ _ _ _ V i Hr) as Hq. destruct (fl i) as [|x k]; [done |]. exists x, k. split; [done |].
  unfold queue_head. by rewrite (is_queue_head _ _ _ Hq).
Qed.

Lemma alloc_spec s bl size :
  good s bl -> 0 < size < 2 ^ 64 ->
  granted s bl size (dfs_shmem_alloc size s) \/ refused s bl size (dfs_shmem_alloc size s).
Proof.
  intros Hgood Hs. pose proof Hgood as [(fl & av & V) Hst Hset Hco]. unfold dfs_shmem_alloc.
  destruct (Z.eqb_spec size 0); [lia |]. pose proof (av_empty _ _ _ _ V) as Hemp.
  destruct (Z.eqb_spec (max_available_index s) (free_len s)) as [E | E].
  { right. exists ALLOC_EXHAUSTED. split; [done |]. split; [by left |]. intros b Hb Hf _. exfalso. apply Hemp in E.
    destruct (free_available _ _ _ _ _ V Hb Hf) as [Hin _]. rewrite E in Hin. by apply elem_of_nil in Hin. }
  destruct (choose_class_spec s bl fl av size V Hs) as (i & Hc & Hi & Hcov); [by intros E'; apply E, Hemp |].
  rewrite Hc. cbn [mbind option_bind]. destruct (fl_first _ _ _ _ _ V Hi) as (x & k & Hfl & Hhd). rewrite Hhd. cbn [mbind option_bind].
  pose proof (av_range _ _ _ _ _ V Hi) as Hr. pose proof (fl_length _ _ _ _ _ V Hr) as Hlen. rewrite Hfl in Hlen.
  rewrite (first_fit_spec s bl fl av i size (block_fuel s) [] x k V Hr Hfl) by (simpl in Hlen; lia). cbn [mbind option_bind].
  destruct (list_find (fun y => size <= size_at s y) (x :: k)) as [[j y]|] eqn:Ef; cbn [fmap option_fmap option_map snd].
  - left. apply list_find_Some in Ef as (Hy & Hfit & _). apply list_elem_of_lookup_2 in Hy. rewrite <- Hfl in Hy.
    destruct (fl_block _ _ _ _ _ _ V Hr Hy) as (b & Hb & <- & Hfree & _ & Hat & _). rewrite Hat in Hfit.
    apply list_elem_of_split in Hb as (l1 & l2 & ->). apply take_block; [done | done | lia].
  - right. exists ALLOC_FOUND_NO_FIXED. split; [done |]. split; [by right |]. intros b Hb Hf Hor.
    destruct (Z.lt_ge_cases (b_sz b) size) as [? | Hge]; [done |]. exfalso.
    destruct (Hcov b Hb Hf Hge Hor) as (y & Hy & Hfit). rewrite Hfl in Hy. apply list_find_None in Ef.
    rewrite Forall_forall in Ef. by apply (Ef y Hy).
Qed.

(** ** Release *)

(** The free block that a released block becomes, joined with its free neighbours. *)
Definition release (l1 : list block) (b : block) (l2 : list block) : list block :=
  let '(b, l2) := merge_next (restate b Loose) l2 in
  let '(l1, b) := merge_prev l1 b in
  l1 ++ restate b Free :: l2.

Lemma merge_next_facts b l2 :
  b_st b = Loose -> coalesced l2 = true -> Forall settled l2 ->
  b_at (merge_next b l2).1 = b_at b /\ b_st (merge_next b l2).1 = Loose /\ coalesced (merge_next b l2).2 = true /\
  Forall settled (merge_next b l2).2 /\ match (merge_next b l2).2 with c :: _ => negb (is_free c) | [] => true end = true /\
  used_of (merge_next b l2).2 = used_of l2 /\ reqs_of (merge_next b l2).2 = reqs_of l2 /\
  (Forall act_ok l2 -> Forall act_ok (merge_next b l2).2) /\
  length l2 = (length (merge_next b l2).2 + (if match l2 with c :: _ => is_free c | [] => false end then 1 else 0))%nat.
Proof.
  intros Hb Hco Hset. destruct l2 as [|c l2]; cbn [merge_next]; [repeat split; by simpl || lia |].
  apply Forall_cons in Hset as [Hc Hset]. destruct (is_free c) eqn:Ef; cbn [fst snd].
  - rewrite coalesced_cons_free in Hco by done. apply andb_true_iff in Hco as [Hco Hhd].
    assert (b_st c = Free) as Ec by (unfold is_free in Ef; by destruct (b_st c)).
    repeat split; try done; cbn; rewrite ?Ec; try lia; by intros [_ ?]%Forall_cons.
  - repeat split; try done; try lia; [by constructor | by rewrite Ef].
Qed.

Lemma merge_prev_facts l1 b :
  b_st b = Loose -> coalesced l1 = true -> Forall settled l1 ->
  b_st (merge_prev l1 b).2 = Loose /\ coalesced (merge_prev l1 b).1 = true /\
  Forall settled (merge_prev l1 b).1 /\ match last (merge_prev l1 b).1 with Some p => negb (is_free p) | None => true end = true /\
  used_of (merge_prev l1 b).1 = used_of l1 /\ reqs_of (merge_prev l1 b).1 = reqs_of l1 /\
  (Forall act_ok l1 -> Forall act_ok (merge_prev l1 b).1) /\
  length l1 = (length (merge_prev l1 b).1 + (if match last l1 with Some p => is_free p | None => false end then 1 else 0))%nat.
Proof.
  intros Hb Hco Hset. unfold merge_prev. destruct l1 as [|p l1 _] using rev_ind; [repeat split; by simpl || lia |].
  rewrite last_snoc, removelast_last. apply Forall_app in Hset as [Hset [Hp _]%Forall_cons].
  destruct (is_free p) eqn:Ef; cbn [fst snd].
  - rewrite coalesced_snoc_free in Hco by done. apply andb_true_iff in Hco as [Hco Hhd].
    assert (b_st p = Free) as Ec by (unfold is_free in Ef; by destruct (b_st p)).
    rewrite used_of_app, reqs_of_app, length_app, Forall_app. cbn. rewrite Ec.
    repeat split; try done; try lia; by intros [? _].
  - rewrite last_snoc, Ef, length_app. repeat split; try done; try (simpl; lia). apply Forall_app. split; [done | by constructor].
Qed.

Lemma stats_ok_less s s' bl fl av bl' fl' av' (c : bool) :
  inv s bl fl av -> stats_ok s bl -> inv s' bl' fl' av' -> shmem_stat s' = one_less c s ->
  used_of bl' = used_of bl -> reqs_of bl' = reqs_of bl -> length bl = (length bl' + (if c then 1 else 0))%nat ->
  Forall act_ok bl' -> stats_ok s' bl'.
Proof.
  intros V Hst V' E Hu Hr Hl Ha. destruct c.
  - eapply (stats_ok_add s s' bl fl av bl' fl' av' 0 0 (-1)); [done.. | lia | lia | lia | done].
  - destruct Hst as [H1 H2 H3 _]. unfold one_less in E. split; [rewrite E | rewrite E | rewrite E | done]; [lia.. |].
    rewrite H3, Hl. lia.
Qed.

Lemma block_address s l1 b l2 fl av :
  inv s (l1 ++ b :: l2) fl av -> addr (b_at b) STORAGE_SIZE <> nullptr /\ addr (addr (b_at b) STORAGE_SIZE) (- STORAGE_SIZE) = b_at b.
Proof. unfold addr, STORAGE_SIZE, nullptr. intros _. split; lia. Qed.

Lemma shmem_free_spec s l1 b l2 act :
  good s (l1 ++ b :: l2) -> b_st b = Used act ->
  exists s', dfs_shmem_free (addr (b_at b) STORAGE_SIZE) s = Some (ERR_NONE, s') /\ same_geometry s s' /\ good s' (release l1 b l2).
Proof.
  intros [(fl & av & V) Hst Hset Hco] Hb. destruct (block_address _ _ _ _ _ _ V) as [Hnull Haddr].
  unfold dfs_shmem_free. rewrite bool_decide_false by done. cbv zeta. rewrite Haddr.
  pose proof (coalesced_parts _ _ _ Hco) as (Hco1 & Hco2 & _). pose proof (t_acts _ _ Hst) as Hacts.
  rewrite Forall_app, Forall_cons in Hset, Hacts. destruct Hset as (Hset1 & _ & Hset2), Hacts as (Ha1 & Hab & Ha2).
  assert (b ∈ l1 ++ b :: l2) as Hin by (apply elem_of_app; right; by left).
  destruct (v_blocks _ _ _ _ V b Hin) as (h & Hh & Hsz & Hal). rewrite Hb in Hal. destruct Hal as [Hal Hact].
  rewrite Hh. cbn [mbind option_bind]. rewrite Hal. cbn [negb]. erewrite set_alloc_spec by exact Hh. cbn [mbind option_bind].
  match goal with |- context [join_next _ ?st] => set (s1 := st) end.
  assert (inv s1 (l1 ++ restate b Loose :: l2) fl av) as V1.
  { eapply (inv_status s); [exact V | by rewrite Hb | done | done | done | done | done | done | |].
    - intros x Hx. cbn. by rewrite lookup_insert_ne.
    - eexists. cbn. rewrite lookup_insert_eq. split; [reflexivity |]. done. }
  assert (stats_ok s1 (l1 ++ restate b Loose :: l2)) as T1.
  { eapply (stats_ok_add s s1 _ fl av _ fl av (- b_sz b) (- act) 0); [exact V | done | exact V1 | | | | |].
    - unfold s1, add_stat. cbn. by rewrite Hsz, Hact.
    - rewrite !used_of_app. cbn. rewrite Hb. lia.
    - rewrite !reqs_of_app. cbn. rewrite Hb. lia.
    - rewrite !length_app. cbn. lia.
    - rewrite Forall_app, Forall_cons. done. }
  destruct (merge_next_facts (restate b Loose) l2 eq_refl Hco2 Hset2) as (Mat & Mst & Mco & Mset & Mhd & Mu & Mr & Ma & Ml).
  destruct (join_next_spec _ _ _ _ _ _ V1 eq_refl Hset2) as (s2 & fl2 & av2 & Hj & Hg2 & V2 & Hst2). cbn [b_at restate] in Hj.
  rewrite Hj. cbn [mbind option_bind negb].
  assert (stats_ok s2 (l1 ++ (merge_next (restate b Loose) l2).1 :: (merge_next (restate b Loose) l2).2)) as T2.
  { eapply (stats_ok_less s1 s2); [exact V1 | exact T1 | exact V2 | exact Hst2 | | | |].
    - rewrite !used_of_app. cbn [used_of]. rewrite Mst, Mu. done.
    - rewrite !reqs_of_app. cbn [reqs_of]. rewrite Mst, Mr. done.
    - rewrite !length_app. cbn [length]. rewrite Ml at 1. lia.
    - rewrite Forall_app, Forall_cons. split; [done |]. split; [unfold act_ok; by rewrite Mst | by apply Ma]. }
  unfold release. destruct (merge_next (restate b Loose) l2) as [b2 l2']. cbn [fst snd b_at restate] in *.
  destruct (merge_prev_facts l1 b2 Mst Hco1 Hset1) as (Pst & Pco & Pset & Plast & Pu & Pr & Pa & Pl).
  destruct (join_prev_spec _ _ _ _ _ _ V2 Mst Hset1) as (s3 & fl3 & av3 & Hj3 & Hg3 & V3 & Hst3). rewrite Mat in Hj3.
  rewrite Hj3. cbn [mbind option_bind negb].
  assert (stats_ok s3 ((merge_prev l1 b2).1 ++ (merge_prev l1 b2).2 :: l2')) as T3.
  { eapply (stats_ok_less s2 s3); [exact V2 | exact T2 | exact V3 | exact Hst3 | | | |].
    - rewrite !used_of_app. cbn [used_of]. rewrite Mst, Pst, Pu. done.
    - rewrite !reqs_of_app. cbn [reqs_of]. rewrite Mst, Pst, Pr. done.
    - rewrite !length_app. cbn [length]. rewrite Pl at 1. lia.
    - rewrite Forall_app, Forall_cons. split; [by apply Pa |]. split; [unfold act_ok; by rewrite Pst | by apply Ma]. }
  destruct (merge_prev l1 b2) as [l1' b3]. cbn [fst snd] in *.
  destruct (insert_free_spec _ _ _ _ _ _ V3 Pst) as (s4 & fl4 & av4 & Hins & (Hg4 & _ & Hst4) & V4).
  rewrite Hins. cbn [mbind option_bind]. exists s4. split; [done |].
  split; [eapply same_geometry_trans; [|eapply same_geometry_trans; [exact Hg3 | exact Hg4]]; exact Hg2 |]. split.
  - by exists fl4, av4.
  - eapply (stats_ok_less s3 s4 _ _ _ _ _ _ false); [exact V3 | exact T3 | exact V4 | exact Hst4 | | | |].
    + rewrite !used_of_app. cbn. by rewrite Pst.
    + rewrite !reqs_of_app. cbn. by rewrite Pst.
    + rewrite !length_app. cbn. lia.
    + rewrite Forall_app, Forall_cons. split; [by apply Pa |]. split; [done | by apply Ma].
  - rewrite Forall_app, Forall_cons. done.
  - rewrite coalesced_app, coalesced_snoc_free, coalesced_cons_free by done. by rewrite Pco, Mco, Plast, Mhd.
Qed.

(** A block that is not allocated is not released again. *)
Lemma free_twice s l1 b l2 :
  good s (l1 ++ b :: l2) -> b_st b = Free -> dfs_shmem_free (addr (b_at b) STORAGE_SIZE) s = Some (FREE_NONALLOCED, s).
Proof.
  intros [(fl & av & V) _ _ _] Hb. destruct (block_address _ _ _ _ _ _ V) as [Hnull Haddr].
  unfold dfs_shmem_free. rewrite bool_decide_false by done. cbv zeta. rewrite Haddr.
  assert (b ∈ l1 ++ b :: l2) as Hin by (apply elem_of_app; right; by left).
  destruct (v_blocks _ _ _ _ V b Hin) as (h & Hh & Hsz & Hal). rewrite Hb in Hal. destruct Hal as [Hal _].
  rewrite Hh. cbn [mbind option_bind]. by rewrite Hal.
Qed.

(** ** The largest block *)

Lemma class_mono s n n' : geometry a e s -> 0 <= n <= n' -> class s n <= class s n'.
Proof.
  intros G Hn. pose proof (g_min _ _ _ G) as Hm. pose proof (raw_class_nonneg _ _ s n' G ltac:(lia)) as Hpos.
  unfold class. enough (raw_class s n <= raw_class s n') by lia. unfold raw_class in *.
  destruct (Z.leb_spec n (min_size s)); [done |]. destruct (Z.leb_spec n' (min_size s)); [lia |].
  destruct (g_level _ _ _ G) as [[-> Hf] | ->]; cbn [Z.eqb DFS_SHMEM_LEVEL_TYPE_LINEAR DFS_SHMEM_LEVEL_TYPE_EXP].
  - apply Z.div_le_mono; lia.
  - apply Z.log2_le_mono, Z.div_le_mono; lia.
Qed.

Lemma max_loop_spec s bl fl av i fuel k1 k2 y :
  inv s bl fl av -> 0 <= i < free_len s -> fl i = k1 ++ k2 -> y ∈ k1 -> (forall z, z ∈ k1 -> size_at s z <= size_at s y) ->
  (length k2 < fuel)%nat ->
  exists x, max_loop fuel s (class_at s i) y (succ_of (class_at s i) k2) = Some x /\ x ∈ fl i /\
    forall z, z ∈ fl i -> size_at s z <= size_at s x.
Proof.
  intros V Hi. revert k1 k2 y. induction fuel as [|fuel IH]; intros k1 k2 y Hfl Hy Hmax Hf; [lia |]. cbn [max_loop].
  pose proof (v_frees _ _ _ _ V i Hi) as Hq. destruct k2 as [|q k2].
  - rewrite bool_decide_true by done. rewrite app_nil_r in Hfl. exists y. rewrite Hfl. done.
  - cbn [succ_of List.hd]. rewrite Hfl in Hq. rewrite bool_decide_false.
    2: { intros E. destruct Hq as [Hnd _]. apply NoDup_cons in Hnd as [Hnd _]. apply Hnd. rewrite <- E. apply elem_of_app. right. by left. }
    assert (forall z, z ∈ fl i -> exists h, storages s !! z = Some h /\ sz h = size_at s z) as Hread.
    { intros z Hz. destruct (fl_block _ _ _ _ _ _ V Hi Hz) as (b & _ & _ & _ & _ & Hat & h & Hh & Hsz). exists h. by rewrite Hat. }
    destruct (Hread q) as (hq & Hhq & Hsq); [rewrite Hfl; apply elem_of_app; right; by left |].
    destruct (Hread y) as (hy & Hhy & Hsy); [rewrite Hfl; apply elem_of_app; by left |].
    rewrite Hhq, Hhy. cbn [mbind option_bind]. destruct (is_queue_cut _ _ _ _ _ Hq) as [_ [Hn _]]. unfold queue_next. rewrite Hn.
    cbn [mbind option_bind]. rewrite Hsq, Hsy. apply (IH (k1 ++ [q])); [by rewrite <- app_assoc | | | simpl in Hf; lia].
    + apply elem_of_app. destruct (_ <? _); [right; by left | by left].
    + intros z [Hz | ->%list_elem_of_singleton]%elem_of_app; destruct (Z.ltb_spec (size_at s y) (size_at s q)); try lia.
      * specialize (Hmax z Hz). lia.
      * by apply Hmax.
Qed.

(** [dfs_shmem_split_alloc] hands out the largest free block, whole. *)
Lemma split_alloc_spec s bl act req :
  good s bl -> 
  ((exists l1 b l2 s', bl = l1 ++ b :: l2 /\ b_st b = Free /\ (forall c, c ∈ bl -> b_st c = Free -> b_sz c <= b_sz b) /\
      req <= b_sz b /\
      dfs_shmem_split_alloc act req s = Some (ERR_NONE, addr (b_at b) STORAGE_SIZE, b_sz b, s') /\ same_geometry s s' /\
      good s' (l1 ++ restate b (Used (b_sz b)) :: l2)) \/
   (exists err s', dfs_shmem_split_alloc act req s = Some (err, nullptr, act, s') /\
      (err = GET_MAX_EXHAUSTED \/ err = SPLIT_ALLOC_NO_FIXED_REQ_MINSIZE) /\ same_geometry s s' /\ good s' bl /\
      forall c, c ∈ bl -> b_st c = Free -> b_sz c < req)).
Proof.
  intros [(fl & av & V0) Hst Hset Hco]. unfold dfs_shmem_split_alloc. cbv zeta.
  assert (inv (count_stat 0 0 1 s) bl fl av) as V by by apply inv_with_stat.
  assert (forall f sf sp, stats_ok (count_stat f sf sp s) bl) as T by (intros; destruct Hst; by split).
  assert (forall f sf sp, good (count_stat f sf sp (count_stat 0 0 1 s)) bl) as Hg2.
  { intros. split; [exists fl, av; by apply inv_with_stat | destruct Hst; by split | done | done]. }
  set (s0 := count_stat 0 0 1 s) in *. assert (same_geometry s s0) as Hgeo by done. pose proof (T 0 0 1) as T0. fold s0 in T0.
  clearbody s0. unfold dfs_shmem_get_max_st. pose proof (av_empty _ _ _ _ V) as Hemp. rewrite <- Z.eqb_eq in Hemp.
  assert (av = [] \/ av <> []) as [Eav | Hav] by (destruct av; auto).
  { right. exists GET_MAX_EXHAUSTED. rewrite (proj2 Hemp Eav). cbn [mbind option_bind]. eexists. split; [done |]. split; [by left |].
    split; [done |]. split; [apply Hg2 |]. intros c Hc Hf. exfalso. destruct (free_available _ _ _ _ _ V Hc Hf) as [Hin _].
    rewrite Eav in Hin. by apply elem_of_nil in Hin. }
  destruct (max_available_index s0 =? free_len s0) eqn:Emax; [by exfalso; apply Hav, Hemp |]. clear Hemp.
  rewrite (empty_spec _ _ _ (v_avail _ _ _ _ V)), bool_decide_false by (by destruct av). cbn [mbind option_bind].
  set (mx := List.last av (free_len s0)). assert (mx ∈ av) as Hmx by by apply last_in.
  unfold queue_tail. rewrite (is_queue_tail _ _ _ (v_avail _ _ _ _ V)).
  assert (pred_of (base s0) (class_at s0 <$> av) = class_at s0 mx) as ->.
  { unfold mx. destruct (exists_last Hav) as (A & j & ->). rewrite fmap_app. cbn [fmap list_fmap]. by rewrite pred_of_snoc, List.last_last. }
  cbn [mbind option_bind]. pose proof (av_range _ _ _ _ _ V Hmx) as Hr. pose proof (v_frees _ _ _ _ V mx Hr) as Hq.
  destruct (fl_first _ _ _ _ _ V Hmx) as (x & k & Hfl & Hhd). rewrite Hfl in Hq.
  rewrite (empty_spec _ _ _ Hq), bool_decide_false by done. cbn [mbind option_bind]. rewrite Hhd. cbn [mbind option_bind].
  destruct (is_queue_cut _ _ [] _ _ Hq) as [_ [Hn _]].
  change (queue_next x (frees s0) = Some (succ_of (class_at s0 mx) k)) in Hn. rewrite Hn. cbn [mbind option_bind].
  pose proof (fl_length _ _ _ _ _ V Hr) as Hlen. rewrite Hfl in Hlen. simpl in Hlen.
  destruct (max_loop_spec s0 bl fl av mx (block_fuel s0) [x] k x V Hr Hfl) as (y & Hy & Hyin & Hymax); [by left | by intros z ->%list_elem_of_singleton | lia |].
  rewrite Hy. cbn [mbind option_bind]. destruct (fl_block _ _ _ _ _ _ V Hr Hyin) as (b & Hb & <- & Hf & Hc & Hat & h & Hh & Hsz).
  rewrite Hh. cbn [mbind option_bind]. rewrite Hsz.
  assert (forall c, c ∈ bl -> b_st c = Free -> b_sz c <= b_sz b) as Hlarge.
  { intros c Hcin Hcf. destruct (free_available _ _ _ _ _ V Hcin Hcf) as [Hcav Hcfl].
    pose proof (last_le _ (free_len s0) _ (v_sorted _ _ _ _ V) Hcav) as Hle. fold mx in Hle.
    destruct (decide (class s0 (b_sz c) = mx)) as [Ec | Hne].
    - rewrite Ec in Hcfl. specialize (Hymax _ Hcfl). rewrite Hat in Hymax.
      destruct (fl_block _ _ _ _ _ _ V Hr Hcfl) as (c' & Hc' & E & _ & _ & Hat' & _).
      rewrite (block_unique _ _ _ _ _ (v_tiles _ _ _ _ V) Hc' Hcin E) in Hat'. lia.
    - destruct (Z.le_gt_cases (b_sz c) (b_sz b)) as [? | Hgt]; [done |]. exfalso.
      pose proof (size_u64 _ _ _ _ _ V Hb) as [? _]. pose proof (class_mono s0 (b_sz b) (b_sz c) (v_geom _ _ _ _ V) ltac:(lia)). lia. }
  destruct (Z.ltb_spec (b_sz b) req) as [Hlt | Hge].
  { right. exists SPLIT_ALLOC_NO_FIXED_REQ_MINSIZE. eexists. split; [done |]. split; [by right |]. split; [done |]. split; [apply Hg2 |].
    intros c Hcin Hcf. specialize (Hlarge c Hcin Hcf). lia. }
  left. apply list_elem_of_split in Hb as (l1 & l2 & ->). exists l1, b, l2.
  destruct (remove_free_spec _ _ _ _ _ _ V Hf) as (s1 & fl1 & av1 & -> & (Hg1 & Ho1 & Hst1) & V1). cbn [mbind option_bind negb].
  destruct (loose_taken _ _ _ _ _ _ (b_sz b) V1 eq_refl) as (h' & s2 & Hh' & Hsz' & Hsetact & (Hg2' & Ho2 & Hst2) & V2). cbn [b_at b_sz restate] in *.
  destruct (set_alloc (b_at b) true s1) as [s1'|] eqn:Ea; [|done]. cbn [mbind option_bind] in Hsetact |- *. rewrite Hsetact.
  cbn [mbind option_bind]. eexists. split; [done |]. split; [done |]. split; [done |]. split; [done |]. split; [done |].
  split; [eapply same_geometry_trans; [exact Hgeo |]; eapply same_geometry_trans; [exact Hg1 | exact Hg2'] |].
  pose proof (coalesced_parts _ _ _ Hco) as (Hco1 & Hco2 & _). pose proof (t_acts _ _ Hst) as Hacts.
  assert (b ∈ l1 ++ b :: l2) as Hbin by (apply elem_of_app; right; by left).
  pose proof (tiles_in _ _ _ _ (v_tiles _ _ _ _ V) Hbin) as (_ & Hpos & _).
  rewrite Forall_app, Forall_cons in Hset, Hacts. destruct Hset as (Hset1 & _ & Hset2), Hacts as (Ha1 & _ & Ha2). split.
  - exists fl1, av1. by apply inv_with_stat.
  - eapply (stats_ok_add s0 _ _ fl av _ fl1 av1 (b_sz b) (b_sz b) 0); [exact V | done | by apply inv_with_stat | | | | |].
    + unfold add_stat. cbn. by rewrite Hst2, Hst1.
    + rewrite !used_of_app. cbn. rewrite Hf. lia.
    + rewrite !reqs_of_app. cbn. rewrite Hf. lia.
    + rewrite !length_app. cbn. lia.
    + rewrite Forall_app, Forall_cons. unfold act_ok at 2. cbn. split; [done |]. split; [lia | done].
  - rewrite Forall_app, Forall_cons. done.
  - by apply coalesced_used.
Qed.
End Invariant.

(** ** Creation *)

Lemma fresh_allocated q m : allocated (fresh q m) q.
Proof. split; cbn; rewrite lookup_insert_eq; by eexists. Qed.

Lemma fresh_same_off q m : same_off [q] m (fresh q m).
Proof. intros x Hx. apply not_elem_of_cons in Hx as [Hx _]. cbn. by rewrite !lookup_insert_ne. Qed.

Lemma same_off_in S S' m m' : (forall x, x ∈ S -> x ∈ S') -> same_off S m m' -> same_off S' m m'.
Proof. intros HS H x Hx. apply H. auto. Qed.

Lemma same_off_compose S m1 m2 m3 : same_off S m1 m2 -> same_off S m2 m3 -> same_off S m1 m3.
Proof. intros H1 H2 x Hx. destruct (H1 x Hx) as [<- <-], (H2 x Hx) as [<- <-]. done. Qed.

Lemma same_off_allocated S m m' x : same_off S m m' -> x ∉ S -> allocated m x -> allocated m' x.
Proof. intros H Hx [H1 H2]. destruct (H x Hx) as [E1 E2]. unfold allocated. by rewrite E1, E2. Qed.

Definition class_range_list (s : shmem) (i : Z) (n : nat) : list ptr := (fun k => class_at s (i + Z.of_nat k)) <$> seq 0 n.

Lemma in_class_range s i n j : 0 <= i -> 0 <= j -> class_at s j ∈ class_range_list s i n <-> i <= j < i + Z.of_nat n.
Proof.
  intros Hi Hj. unfold class_range_list. rewrite list_elem_of_fmap. split.
  - intros (k & E & Hk%elem_of_seq). apply class_at_inj in E; lia.
  - intros Hr. exists (Z.to_nat (j - i)). split; [f_equal; lia | apply elem_of_seq; lia].
Qed.

Lemma class_range_S s i n : class_range_list s i (S n) = class_at s i :: class_range_list s (i + 1) n.
Proof.
  unfold class_range_list. cbn [seq]. rewrite fmap_cons, Z.add_0_r. f_equal.
  apply list_eq. intros k. rewrite !list_lookup_fmap. destruct (decide (k < n)%nat).
  - rewrite !lookup_seq_lt by lia. cbn. do 2 f_equal. lia.
  - by rewrite !lookup_seq_ge by lia.
Qed.

Lemma create_classes_spec n i s :
  0 <= i ->
  exists mf ma, create_classes n i s = Some (with_available ma (with_frees mf s)) /\
    same_off (class_range_list s i n) (frees s) mf /\ same_off (class_range_list s i n) (available s) ma /\
    (forall j, i <= j < i + Z.of_nat n -> is_queue mf (class_at s j) [] /\ allocated ma (class_at s j)).
Proof.
  revert i s. induction n as [|n IH]; intros i s Hi; cbn [create_classes].
  - exists (frees s), (available s). split; [by destruct s |]. split; [done |]. split; [done |]. lia.
  - destruct (init_spec _ _ (fresh_allocated (class_at s i) (frees s))) as (m & Hm & Hq & Hoff). rewrite Hm. cbn [mbind option_bind].
    set (s1 := with_available (fresh (class_at s i) (available s)) (with_frees m s)).
    destruct (IH (i + 1) s1 ltac:(lia)) as (mf & ma & Hc & Hof & Hoa & Hall). exists mf, ma. split; [exact Hc |].
    change (class_range_list s1 (i + 1) n) with (class_range_list s (i + 1) n) in Hof, Hoa.
    assert (forall x, x ∈ [class_at s i] -> x ∈ class_range_list s i (S n)) as Hin1 by (intros x ->%list_elem_of_singleton; rewrite class_range_S; left).
    assert (forall x, x ∈ class_range_list s (i + 1) n -> x ∈ class_range_list s i (S n)) as Hin2 by (intros x Hx; rewrite class_range_S; by right).
    assert (class_at s i ∉ class_range_list s (i + 1) n) as Hnin by (rewrite in_class_range by lia; lia).
    split; [|split].
    + eapply same_off_compose; [|eapply same_off_in; [exact Hin2 | exact Hof]]. eapply same_off_in; [exact Hin1 |].
      eapply same_off_compose; [apply fresh_same_off | exact Hoff].
    + eapply same_off_compose; [|eapply same_off_in; [exact Hin2 | exact Hoa]]. eapply same_off_in; [exact Hin1 | apply fresh_same_off].
    + intros j Hj. destruct (decide (j = i)) as [-> | Hne].
      * split; [|eapply same_off_allocated; [exact Hoa | done | apply fresh_allocated]].
        eapply is_queue_frame; [exact Hof | | exact Hq]. by intros x ->%list_elem_of_singleton.
      * apply (Hall j). lia.
Qed.

Lemma install_first_spec a e s st n :
  geometry a e s -> a = Z.of_N st -> 0 <= n -> e = a + STORAGE_SIZE + n ->
  allocated (order s) (base s) -> allocated (available s) (base s) ->
  (forall j, 0 <= j < free_len s -> is_queue (frees s) (class_at s j) [] /\ allocated (available s) (class_at s j)) ->
  exists s', install_first st n s = Some s' /\ same_geometry s s' /\ shmem_stat s' = shmem_stat s /\
    inv a e s' [{| b_at := st; b_sz := n; b_st := Free |}] (update (class s n) [st] (fun _ => [])) [class s n].
Proof.
  intros G Ea Hn Ee Ho Ha Hcl. pose proof (g_len _ _ _ G) as Hlen. pose proof (g_area _ _ _ G) as [Harea He].
  pose proof (g_base _ _ _ G) as Hb. pose proof (g_free _ _ _ G) as Hfr.
  assert (0 <= n < 2 ^ 64) as Hn64 by (unfold STORAGE_SIZE, SHMEM_SIZE, FREE_NODE_SIZE in *; lia).
  set (i := class s n). pose proof (class_range _ _ s n G Hn) as Hi. fold i in Hi.
  assert (forall j, 0 <= j < free_len s -> class_at s j <> st) as Hst.
  { intros j Hj E. pose proof (class_at_Z s j ltac:(lia)) as H. rewrite E in H. unfold FREE_NODE_SIZE in *. lia. }
  assert (st <> base s) as Hstb by (unfold SHMEM_SIZE, FREE_NODE_SIZE in *; intros E; rewrite E in Ea; lia).
  destruct (init_spec _ _ Ho) as (mo & Hmo & Hqo & _).
  assert (is_queue (fresh st mo) (base s) []) as Hqo'.
  { eapply is_queue_frame; [apply fresh_same_off | | exact Hqo]. intros x Hx Hx2. apply list_elem_of_singleton in Hx, Hx2. congruence. }
  destruct (insert_head_spec _ _ _ st Hqo') as (mo' & Hmo' & Hqo2 & _); [by rewrite list_elem_of_singleton | apply fresh_allocated |].
  assert (forall j, 0 <= j < free_len s -> is_queue (fresh st (frees s)) (class_at s j) []) as Hqf.
  { intros j Hj. eapply is_queue_frame; [apply fresh_same_off | | by apply Hcl]. intros x Hx Hx2. apply list_elem_of_singleton in Hx, Hx2.
    subst x. by apply (Hst j). }
  destruct (insert_head_spec _ _ _ st (Hqf i Hi)) as (mf & Hmf & Hqf2 & Hoff); [rewrite list_elem_of_singleton; apply not_eq_sym; auto | apply fresh_allocated |].
  destruct (init_spec _ _ Ha) as (ma & Hma & Hqa & Hoffa).
  assert (forall j, 0 <= j < free_len s -> allocated ma (class_at s j)) as Hal.
  { intros j Hj. eapply same_off_allocated; [exact Hoffa | | by apply Hcl]. rewrite list_elem_of_singleton. apply (class_at_base a e); [done | lia]. }
  destruct (insert_head_spec _ _ _ (class_at s i) Hqa) as (ma' & Hma' & Hqa2 & Hoffa2);
    [rewrite list_elem_of_singleton; apply (class_at_base a e); [done | lia] | auto |].
  eexists. split; [|split; [|split]].
  - unfold install_first. rewrite Hmo. cbn [mbind option_bind]. rewrite Hmo'. cbn [mbind option_bind].
    rewrite (insert_index a e) by first [by apply (geometry_same a e s) | unfold is_u64; lia]. cbn [mbind option_bind].
    change (raw_class (with_order mo' s) n) with (raw_class s n). change (free_len (with_order mo' s)) with (free_len s).
    rewrite (u64_small (free_len s - 1)) by (unfold is_u64; lia).
    replace (if free_len s <=? raw_class s n then free_len s - 1 else raw_class s n) with i
      by (unfold i, class; destruct (Z.leb_spec (free_len s) (raw_class s n)); lia).
    cbn [frees with_storage with_order]. change (class_at (with_order mo' s) i) with (class_at s i). rewrite Hmf. cbn [mbind option_bind].
    cbn [available base with_frees with_storage with_order]. rewrite Hma. cbn [mbind option_bind]. rewrite Hma'. cbn [mbind option_bind]. done.
  - done.
  - done.
  - split.
    + by apply (geometry_same a e s).
    + by repeat split; cbn.
    + exact Hqo2.
    + intros b ->%list_elem_of_singleton. eexists. cbn. rewrite lookup_insert_eq. split; [reflexivity |]. done.
    + intros b ->%list_elem_of_singleton. eapply is_queue_allocated; [exact Hqf2 |]. right. by left.
    + intros j Hj. change (0 <= j < free_len s) in Hj. destruct (decide (j = i)) as [-> | Hne]; [rewrite update_eq; exact Hqf2 |].
      rewrite update_ne by done. eapply is_queue_frame; [exact Hoff | | by apply Hqf]. intros x ->%list_elem_of_singleton Hx.
      apply elem_of_cons in Hx as [E | [E | Hx]%elem_of_cons]; [by apply (Hst j) | | by apply elem_of_nil in Hx].
      apply Hne, (class_at_inj s); [lia.. | exact E].
    + intros j x Hj. change (0 <= j < free_len s) in Hj. unfold free_in. setoid_rewrite list_elem_of_singleton. split.
      * destruct (decide (j = i)) as [-> | Hne]; [|rewrite update_ne by done; by intros ?%elem_of_nil].
        rewrite update_eq. intros ->%list_elem_of_singleton. eexists. split; [reflexivity |]. done.
      * intros (b & -> & <- & _ & E). cbn [b_sz b_at] in *. assert (j = i) as -> by done. rewrite update_eq. by left.
    + intros j Hj. change (0 <= j < free_len s) in Hj. change (allocated ma' (class_at s j)).
      destruct (decide (class_at s j ∈ [class_at s i; base s])) as [Hin | Hnin]; [eapply is_queue_allocated; [exact Hqa2 |]; set_solver |].
      eapply same_off_allocated; [exact Hoffa2 | done | auto].
    + exact Hqa2.
    + repeat constructor.
    + intros j. rewrite list_elem_of_singleton. change (free_len _) with (free_len s). fold i. split.
      * intros ->. rewrite update_eq. done.
      * intros [_ H]. destruct (decide (j = i)) as [-> | Hne]; [done |]. by rewrite update_ne in H.
    + done.
Qed.

Lemma alignment_spec x : 0 <= x < 2 ^ 63 ->
  x <= DFS_MATH_ALIGNMENT x DFS_MATH_ALIGN_SIZE < x + 8 /\ DFS_MATH_ALIGNMENT x DFS_MATH_ALIGN_SIZE mod 8 = 0.
Proof.
  intros Hx. unfold DFS_MATH_ALIGNMENT, DFS_MATH_ALIGN_SIZE. pose proof (Z.mod_pos_bound x 8 ltac:(lia)) as Hb.
  destruct (Z.eqb_spec (x mod 8) 0) as [H0 | H0]; [lia |]. rewrite u64_small by (unfold is_u64; lia). split; [lia |].
  pose proof (Z.div_mod x 8 ltac:(lia)). replace (x + (8 - x mod 8)) with ((x / 8 + 1) * 8) by lia. by apply Z.mod_mul.
Qed.

(** What the arguments must be for a segment: the number of classes fits the control record. *)
Lemma create_free_len_spec min max level factor f n :
  0 < min < max -> max < 2 ^ 59 -> 0 <= factor < 2 ^ 63 -> create_free_len min max level factor = Some (inl (f, n)) ->
  (level = DFS_SHMEM_LEVEL_TYPE_LINEAR /\ 0 < f \/ level = DFS_SHMEM_LEVEL_TYPE_EXP) /\ 0 <= n < 2 ^ 57.
Proof.
  intros Hm Hmax Hf. unfold create_free_len. destruct (Z.eqb_spec level DFS_SHMEM_LEVEL_TYPE_LINEAR) as [-> | Hl].
  - destruct (alignment_spec factor Hf) as [Ha Ha8]. set (g := DFS_MATH_ALIGNMENT factor DFS_MATH_ALIGN_SIZE) in *. clearbody g.
    destruct (decide (g = 0)) as [-> | Hg]; [done |]. rewrite divide_up_spec by (try unfold is_u64; lia). cbn [mbind option_bind].
    intros [= <- <-]. split; [left; split; [done | lia] |]. assert (8 <= g) by (pose proof (Z.div_mod g 8 ltac:(lia)); lia).
    assert ((max - min) / g <= (max - min) / 8) by (apply Z.div_le_compat_l; lia).
    pose proof (Z.div_pos (max - min) g ltac:(lia) ltac:(lia)). pose proof (Z.div_mod (max - min) 8 ltac:(lia)).
    pose proof (Z.mod_pos_bound (max - min) 8 ltac:(lia)). destruct (_ =? 0); lia.
  - destruct (Z.eqb_spec level DFS_SHMEM_LEVEL_TYPE_EXP) as [-> | _]; [|done].
    rewrite divide_up_spec by (try unfold is_u64; lia). cbn [mbind option_bind].
    set (c := max / min + (if max mod min =? 0 then 0 else 1)).
    assert (is_u64 c) as Hc.
    { unfold c, is_u64. pose proof (Z.div_pos max min ltac:(lia) ltac:(lia)). pose proof (Z.div_le_upper_bound max min max ltac:(lia) ltac:(nia)).
      destruct (_ =? 0); lia. }
    destruct (dfslog2_spec c Hc) as [_ ->]. cbn [mbind option_bind]. intros [= <- <-]. split; [by right |].
    split; [apply Z.log2_up_nonneg |]. pose proof (Z.le_log2_up_succ_log2 c). pose proof (log2_u64 c Hc). lia.
Qed.

Lemma shmem_create_spec page mmap size min max level factor s :
  (forall b, mmap (DFS_MATH_ROUND_UP size page) = Some b -> 0 < Z.of_N b /\ Z.of_N b + DFS_MATH_ROUND_UP size page < 2 ^ 64) ->
  0 <= min < 2 ^ 58 -> 0 <= max < 2 ^ 58 -> 0 <= factor < 2 ^ 63 -> DFS_MATH_ROUND_UP size page < 2 ^ 37 ->
  dfs_shmem_create page mmap size min max level factor = Some (inl s) ->
  exists a e, a = Z.of_N (base s) + system_size (shmem_stat s) /\ SHMEM_SIZE <= system_size (shmem_stat s) /\
    e = Z.of_N (base s) + DFS_MATH_ROUND_UP size page /\ a < e /\
    mmap (DFS_MATH_ROUND_UP size page) = Some (base s) /\ good a e s [{| b_at := Z.to_N a; b_sz := e - a - STORAGE_SIZE; b_st := Free |}].
Proof.
  intros Hmmap Hmin Hmax Hfac Htot. unfold dfs_shmem_create. destruct (size =? 0); [done |].
  destruct (alignment_spec min ltac:(lia)) as [Hmi Hmi8], (alignment_spec max ltac:(lia)) as [Hma _].
  set (mi := DFS_MATH_ALIGNMENT min DFS_MATH_ALIGN_SIZE) in *. set (ma := DFS_MATH_ALIGNMENT max DFS_MATH_ALIGN_SIZE) in *. clearbody mi ma.
  destruct (Z.eqb_spec mi 0); [done |]. destruct (Z.leb_spec ma mi); [done |]. cbn [orb].
  destruct (create_free_len mi ma level factor) as [[[f nc] | err]|] eqn:Efl; [|done..]. cbn [mbind option_bind].
  apply create_free_len_spec in Efl as [Hlevel Hn]; [|lia..]. destruct (Z.eqb_spec nc 0); [done |].
  rewrite (u64_small (nc + 1)) by (unfold is_u64; lia).
  set (total := DFS_MATH_ROUND_UP size page) in *. destruct (Z.eqb_spec total 0) as [|Ht0]; [done |].
  assert (0 <= total) as Htp.
  { unfold total, DFS_MATH_ROUND_UP. apply Z.land_nonneg. left. apply u64_range. }
  destruct (mmap total) as [b|] eqn:Eb; [|done]. destruct (Hmmap _ eq_refl) as [Hb Hbt]. clear Hmmap. clearbody total.
  unfold FREE_NODE_SIZE, SHMEM_SIZE, STORAGE_SIZE.
  rewrite (u64_small (40 * (nc + 1))), (u64_small (40 * (nc + 1) + 168)), (u64_small (40 * (nc + 1) + 168 + 64)) by (unfold is_u64; lia).
  destruct (Z.leb_spec total (40 * (nc + 1) + 168 + 64)) as [|Hroom]; [done |].
  rewrite (u64_small (168 + 40 * (nc + 1))) by (unfold is_u64; lia).
  assert (DFS_MATH_ALIGNMENT (168 + 40 * (nc + 1)) DFS_MATH_ALIGN_SIZE = 168 + 40 * (nc + 1)) as ->.
  { unfold DFS_MATH_ALIGNMENT, DFS_MATH_ALIGN_SIZE. replace (168 + 40 * (nc + 1)) with ((26 + 5 * nc) * 8) by lia. by rewrite Z.mod_mul. }
  rewrite (u64_small (total - (168 + 40 * (nc + 1)))), (u64_small (total - (168 + 40 * (nc + 1)) - 64)) by (unfold is_u64; lia).
  match goal with |- context [create_classes _ 0 ?x] => set (s0 := x) end.
  set (a := Z.of_N b + (168 + 40 * (nc + 1))). set (e := Z.of_N b + total).
  assert (geometry a e s0) as G.
  { split; cbn; unfold SHMEM_SIZE, FREE_NODE_SIZE in *; rewrite ?addr_Z by lia; try lia. }
  destruct (create_classes_spec (Z.to_nat (nc + 1)) 0 s0 ltac:(lia)) as (mf & mav & Hcc & Hof & Hoa & Hall).
  rewrite Hcc. cbn [mbind option_bind]. destruct (_ <? ma); [done |].
  set (s1 := with_available mav (with_frees mf s0)).
  destruct (install_first_spec a e s1 (addr b (168 + 40 * (nc + 1))) (total - (168 + 40 * (nc + 1)) - 64)) as (s' & Hs' & Hg & Hst & V).
  - by apply (geometry_same a e s0).
  - unfold a. rewrite addr_Z by lia. done.
  - lia.
  - unfold a, e, STORAGE_SIZE. lia.
  - apply fresh_allocated.
  - eapply same_off_allocated; [exact Hoa | | apply fresh_allocated]. intros (k & E & _)%list_elem_of_fmap.
    refine (class_at_base a e s0 _ G _ (eq_sym E)). lia.
  - intros j Hj. apply (Hall j). cbn in Hj. lia.
  - rewrite Hs'. cbn [mbind option_bind]. intros [= <-]. exists a, e. destruct Hg as (Hgb & Hg). rewrite Hgb.
    rewrite Hst.
    split; [done |]. split; [cbn; unfold SHMEM_SIZE; lia |]. split; [done |]. split; [unfold a, e; lia |]. split; [done |].
    replace (Z.to_N a) with (addr b (168 + 40 * (nc + 1))) by (unfold addr, a; done).
    replace (e - a - 64) with (total - (168 + 40 * (nc + 1)) - 64) by (unfold a, e; lia).
    split; [do 2 eexists; exact V | | by repeat constructor | done]. split; rewrite ?Hst; cbn; try done. by repeat constructor.
Qed.
