(* ===== verification/ShmemClient.v ===== *)
(** * Clients of the shared-memory segment

    The abstract allocator ([promised]) that the operations refine, a client that remembers
    the regions it holds ([run_calls]), and the properties of the whole component. *)

From stdpp Require Import sorting.
From S2P Require Import Prelude Numeric Queue Shmem ShmemInv.

(** ** What the segment promises its clients

    An abstract allocator: the state is the list of the blocks that cover the area, and a
    request may be answered in any of the ways a rule of [promised] allows. *)

Inductive request := Alloc (n : Z) | SplitAlloc (req : Z) | Release (address : ptr).
Inductive reply := Granted (p : ptr) (n : Z) | Refused | Released | Rejected.

(** The bytes of a block. *)
Definition bytes_at (b : block) : ptr := addr (b_at b) STORAGE_SIZE.

Inductive promised (s : shmem) : list block -> request -> reply -> list block -> Prop :=
| P_alloc l1 b l2 n :
    b_st b = Free -> n <= b_sz b ->
    promised s (l1 ++ b :: l2) (Alloc n) (Granted (bytes_at b) n) (l1 ++ carve s b n ++ l2)
| P_alloc_refused bl n :
    (forall b, b ∈ bl -> b_st b = Free -> min_size s < n \/ class s (b_sz b) = 0 -> b_sz b < n) ->
    promised s bl (Alloc n) Refused bl
| P_split l1 b l2 req :
    b_st b = Free -> req <= b_sz b -> (forall c, c ∈ l1 ++ b :: l2 -> b_st c = Free -> b_sz c <= b_sz b) ->
    promised s (l1 ++ b :: l2) (SplitAlloc req) (Granted (bytes_at b) (b_sz b)) (l1 ++ restate b (Used (b_sz b)) :: l2)
| P_split_refused bl req :
    (forall b, b ∈ bl -> b_st b = Free -> b_sz b < req) ->
    promised s bl (SplitAlloc req) Refused bl
| P_release l1 b l2 act :
    b_st b = Used act ->
    promised s (l1 ++ b :: l2) (Release (bytes_at b)) Released (release l1 b l2)
| P_release_free l1 b l2 :
    b_st b = Free -> promised s (l1 ++ b :: l2) (Release (bytes_at b)) Rejected (l1 ++ b :: l2).

(** A client asks for a positive number of bytes and gives back addresses of blocks only. *)
Definition allowed (bl : list block) (r : request) : Prop :=
  match r with Alloc n => 0 < n < 2 ^ 64 | SplitAlloc _ => True | Release p => p ∈ bytes_at <$> bl end.

(** How the code answers. *)
Definition serve (r : request) (s : shmem) : option (reply * shmem) :=
  match r with
  | Alloc n =>
      '(err, p, s) ← dfs_shmem_alloc n s;
      Some (if bool_decide (err = ERR_NONE) then Granted p n else Refused, s)
  | SplitAlloc req =>
      '(err, p, act, s) ← dfs_shmem_split_alloc 0 req s;
      Some (if bool_decide (err = ERR_NONE) then Granted p act else Refused, s)
  | Release p =>
      '(err, s) ← dfs_shmem_free p s;
      Some (if bool_decide (err = ERR_NONE) then Released else Rejected, s)
  end.

Lemma serve_promised a e s bl r :
  good a e s bl -> allowed bl r ->
  exists rep s' bl', serve r s = Some (rep, s') /\ promised s bl r rep bl' /\ same_geometry s s' /\ good a e s' bl'.
Proof.
  intros Hg Hr. destruct r as [n | req | p]; cbn [serve allowed] in *.
  - destruct (alloc_spec a e s bl n Hg Hr) as [(l1 & b & l2 & s' & -> & Hb & Hn & -> & Hgeo & Hg') | (err & -> & Herr & Hno)]; cbn [mbind option_bind].
    + rewrite bool_decide_true by done. do 3 eexists. split; [done |]. split; [by apply P_alloc |]. done.
    + rewrite bool_decide_false by (by destruct Herr as [-> | ->]). do 3 eexists. split; [done |]. split; [by apply P_alloc_refused |].
      split; [done |]. destruct Hg as [(fl & av & V) Hst Hset Hco].
      split; [exists fl, av; by apply inv_with_stat | destruct Hst; by split | done | done].
  - destruct (split_alloc_spec a e s bl 0 req Hg) as [(l1 & b & l2 & s' & -> & Hb & Hmax & Hreq & -> & Hgeo & Hg') | (err & s' & -> & Herr & Hgeo & Hg' & Hno)];
      cbn [mbind option_bind].
    + rewrite bool_decide_true by done. do 3 eexists. split; [done |]. split; [by apply P_split |]. done.
    + rewrite bool_decide_false by (by destruct Herr as [-> | ->]). do 3 eexists. split; [done |]. split; [by apply P_split_refused |]. done.
  - apply list_elem_of_fmap in Hr as (b & -> & (l1 & l2 & ->)%list_elem_of_split). destruct (b_st b) as [act | |] eqn:Hb.
    + destruct (shmem_free_spec a e s l1 b l2 act Hg Hb) as (s' & Hs' & Hgeo & Hg'). unfold bytes_at at 1. rewrite Hs'.
      cbn [mbind option_bind]. rewrite bool_decide_true by done. do 3 eexists. split; [done |]. split; [by eapply P_release |]. done.
    + unfold bytes_at at 1. rewrite (free_twice a e s l1 b l2 Hg Hb). cbn [mbind option_bind]. rewrite bool_decide_false by done.
      do 3 eexists. split; [done |]. split; [by apply P_release_free |]. done.
    + exfalso. pose proof (good_settled _ _ _ _ Hg) as Hset. rewrite Forall_app, Forall_cons in Hset. by destruct Hset as (_ & ? & _).
Qed.

(** ** A client that remembers its regions *)

Record client := { seg : shmem; live : list (ptr * Z) }.

(** A call gives back the [i]-th region the client holds. *)
Inductive call := CAlloc (n : Z) | CSplitAlloc (req : Z) | CFree (i : nat).

Definition keep (rep : reply) (l : list (ptr * Z)) : list (ptr * Z) :=
  match rep with Granted p n => (p, n) :: l | _ => l end.

Definition run_call (c : call) (cl : client) : option client :=
  match c with
  | CAlloc n => '(rep, s) ← serve (Alloc n) (seg cl); Some {| seg := s; live := keep rep (live cl) |}
  | CSplitAlloc req => '(rep, s) ← serve (SplitAlloc req) (seg cl); Some {| seg := s; live := keep rep (live cl) |}
  | CFree i =>
      match live cl !! i with
      | None => Some cl
      | Some (p, _) => '(_, s) ← serve (Release p) (seg cl); Some {| seg := s; live := delete i (live cl) |}
      end
  end.

Fixpoint run_calls (cs : list call) (cl : client) : option client :=
  match cs with [] => Some cl | c :: cs => cl ← run_call c cl; run_calls cs cl end.

Definition call_ok (c : call) : Prop := match c with CAlloc n => 0 < n < 2 ^ 64 | _ => True end.

(** The regions of the blocks in use. *)
Definition region_of (b : block) : option (ptr * Z) := match b_st b with Used act => Some (bytes_at b, act) | _ => None end.
Definition regions (bl : list block) : list (ptr * Z) := omap region_of bl.

Lemma regions_app l1 l2 : regions (l1 ++ l2) = regions l1 ++ regions l2.
Proof. apply omap_app. Qed.

Lemma regions_free b l : is_free b = true -> regions (b :: l) = regions l.
Proof. unfold regions, is_free. cbn. unfold region_of. by destruct (b_st b). Qed.

Lemma in_regions bl r : r ∈ regions bl <-> exists b, b ∈ bl /\ region_of b = Some r.
Proof. apply list_elem_of_omap. Qed.

Lemma regions_carve s b n : regions (carve s b n) = [(bytes_at b, n)].
Proof. unfold carve. by destruct (_ <? _). Qed.

Lemma regions_merge_next b l2 : regions (merge_next b l2).2 = regions l2.
Proof. destruct l2 as [|c l2]; [done |]. cbn [merge_next]. destruct (is_free c) eqn:E; [|done]. by rewrite regions_free. Qed.

Lemma regions_merge_prev l1 b : regions (merge_prev l1 b).1 = regions l1.
Proof.
  unfold merge_prev. destruct l1 as [|c l1 _] using rev_ind; [done |]. rewrite last_snoc, removelast_last.
  destruct (is_free c) eqn:E; [|done]. cbn [fst]. by rewrite regions_app, regions_free, app_nil_r.
Qed.

Lemma regions_release l1 b l2 : regions (release l1 b l2) = regions l1 ++ regions l2.
Proof.
  unfold release. pose proof (regions_merge_next (restate b Loose) l2) as E.
  destruct (merge_next (restate b Loose) l2) as [b' l2']. pose proof (regions_merge_prev l1 b') as E'.
  destruct (merge_prev l1 b') as [l1' b2]. cbn [fst snd] in *. by rewrite regions_app, regions_free, E, E'.
Qed.

(** Two regions that share no byte. *)
Definition apart (x y : ptr * Z) : Prop := Z.of_N x.1 + x.2 <= Z.of_N y.1 \/ Z.of_N y.1 + y.2 <= Z.of_N x.1.

Lemma tiles_apart a bl e b c :
  tiles a bl e -> b ∈ bl -> c ∈ bl -> b_at b <> b_at c ->
  Z.of_N (b_at b) + STORAGE_SIZE + b_sz b <= Z.of_N (b_at c) \/ Z.of_N (b_at c) + STORAGE_SIZE + b_sz c <= Z.of_N (b_at b).
Proof.
  revert a. induction bl as [|d bl IH]; intros a; [intros _ Hb; by apply elem_of_nil in Hb |]. intros (Hd & Hsz & Ht) Hb Hc Hne.
  apply elem_of_cons in Hb as [-> | Hb], Hc as [-> | Hc]; [done | | |].
  - apply (tiles_in _ _ _ _ Ht) in Hc. lia.
  - apply (tiles_in _ _ _ _ Ht) in Hb. lia.
  - eapply IH; eauto.
Qed.

Lemma bytes_at_Z b : Z.of_N (bytes_at b) = Z.of_N (b_at b) + STORAGE_SIZE.
Proof. unfold bytes_at, addr, STORAGE_SIZE. lia. Qed.

(** The regions a client holds are the blocks in use. *)
Record client_ok (a e : Z) (cl : client) (bl : list block) : Prop := {
  c_good : good a e (seg cl) bl;
  c_live : live cl ≡ₚ regions bl
}.

Lemma block_act a e s bl b act : good a e s bl -> b ∈ bl -> b_st b = Used act -> 0 <= act <= b_sz b.
Proof.
  intros Hg Hb E. pose proof (t_acts _ _ (good_stats _ _ _ _ Hg)) as Ha. rewrite Forall_forall in Ha.
  specialize (Ha b Hb). unfold act_ok in Ha. by rewrite E in Ha.
Qed.

Lemma client_region a e cl bl r : client_ok a e cl bl -> r ∈ live cl -> a + STORAGE_SIZE <= Z.of_N r.1 /\ 0 <= r.2 /\ Z.of_N r.1 + r.2 <= e.
Proof.
  intros [Hg Hl] Hr. rewrite Hl in Hr. apply in_regions in Hr as (b & Hb & E). unfold region_of in E.
  destruct (b_st b) as [act | |] eqn:Est; try done. injection E as <-. cbn. rewrite bytes_at_Z.
  pose proof (block_act _ _ _ _ _ _ Hg Hb Est). destruct (good_inv _ _ _ _ Hg) as (fl & av & V).
  pose proof (tiles_in _ _ _ _ (v_tiles _ _ _ _ _ _ V) Hb). lia.
Qed.

Lemma client_apart a e cl bl x y : client_ok a e cl bl -> x ∈ live cl -> y ∈ live cl -> x <> y -> apart x y.
Proof.
  intros [Hg Hl] Hx Hy Hne. rewrite Hl in Hx, Hy. apply in_regions in Hx as (b & Hb & E), Hy as (c & Hc & E'). unfold region_of in E, E'.
  destruct (b_st b) as [act | |] eqn:Est; try done. destruct (b_st c) as [act' | |] eqn:Est'; try done.
  injection E as <-. injection E' as <-. unfold apart. cbn. rewrite !bytes_at_Z.
  pose proof (block_act _ _ _ _ _ _ Hg Hb Est). pose proof (block_act _ _ _ _ _ _ Hg Hc Est').
  destruct (good_inv _ _ _ _ Hg) as (fl & av & V). pose proof (v_tiles _ _ _ _ _ _ V) as Ht.
  assert (STORAGE_SIZE = 64) by done. destruct (tiles_apart _ _ _ _ _ Ht Hb Hc) as [Hd | Hd]; cycle 1; [lia | lia |].
  intros E. pose proof (block_unique _ _ _ _ _ Ht Hb Hc E) as ->. apply Hne. congruence.
Qed.

Lemma regions_nodup bl : NoDup (b_at <$> bl) -> NoDup (regions bl).
Proof.
  induction bl as [|b bl IH]; [intros; constructor |]. cbn. intros [Hb Hbl]%NoDup_cons. unfold regions in *. cbn.
  destruct (region_of b) as [r|] eqn:E; [|by apply IH]. apply NoDup_cons. split; [|by apply IH].
  intros (c & Hc & E')%in_regions. apply Hb. apply list_elem_of_fmap. exists c. split; [|done]. unfold region_of in E, E'.
  destruct (b_st b); try done. destruct (b_st c); try done. rewrite <- E in E'. injection E' as Hat _.
  apply (f_equal Z.of_N) in Hat. change (Z.of_N (bytes_at c) = Z.of_N (bytes_at b)) in Hat. rewrite !bytes_at_Z in Hat. apply N2Z.inj. lia.
Qed.

Lemma client_nodup a e cl bl : client_ok a e cl bl -> NoDup (live cl).
Proof.
  intros [Hg Hl]. rewrite Hl. apply regions_nodup. destruct (good_inv _ _ _ _ Hg) as (fl & av & V).
  by eapply tiles_nodup, v_tiles.
Qed.

Lemma run_call_ok a e cl bl c :
  client_ok a e cl bl -> call_ok c -> exists cl' bl', run_call c cl = Some cl' /\ client_ok a e cl' bl' /\ same_geometry (seg cl) (seg cl').
Proof.
  intros [Hg Hl] Hc. destruct c as [n | req | i]; cbn [run_call call_ok] in *.
  - destruct (serve_promised a e (seg cl) bl (Alloc n) Hg Hc) as (rep & s' & bl' & -> & Hp & Hgeo & Hg'). cbn [mbind option_bind].
    exists {| seg := s'; live := keep rep (live cl) |}, bl'. split; [done |]. split; [|done]. split; [done |]. cbn. inversion Hp; subst; cbn; [|done].
    rewrite Hl, !regions_app, regions_carve. rewrite regions_free by (unfold is_free; match goal with H : b_st _ = Free |- _ => by rewrite H end).
    by rewrite Permutation_middle.
  - destruct (serve_promised a e (seg cl) bl (SplitAlloc req) Hg I) as (rep & s' & bl' & -> & Hp & Hgeo & Hg'). cbn [mbind option_bind].
    exists {| seg := s'; live := keep rep (live cl) |}, bl'. split; [done |]. split; [|done]. split; [done |]. cbn. inversion Hp; subst; cbn; [|done].
    rewrite Hl, !regions_app. rewrite regions_free by (unfold is_free; match goal with H : b_st _ = Free |- _ => by rewrite H end).
    by rewrite Permutation_middle.
  - destruct (live cl !! i) as [[p n]|] eqn:Ei; [|exists cl, bl; split; [done |]; split; [by split | done]].
    assert ((p, n) ∈ regions bl) as Hin by (rewrite <- Hl; by eapply list_elem_of_lookup_2).
    apply in_regions in Hin as (b & Hb & E). unfold region_of in E. destruct (b_st b) as [act | |] eqn:Est; try done. injection E as <- <-.
    apply list_elem_of_split in Hb as (l1 & l2 & ->).
    destruct (shmem_free_spec a e (seg cl) l1 b l2 act Hg Est) as (s' & Hs' & Hgeo & Hg'). cbn [serve]. unfold bytes_at. rewrite Hs'. cbn [mbind option_bind].
    exists {| seg := s'; live := delete i (live cl) |}, (release l1 b l2). split; [done |]. split; [|done]. split; [done |]. cbn.
    rewrite regions_release. apply (Permutation_cons_inv (a := (bytes_at b, act))).
    rewrite <- (delete_Permutation _ _ _ Ei), Hl, regions_app. unfold regions at 2, region_of at 1. cbn. rewrite Est. by rewrite Permutation_middle.
Qed.

Lemma run_calls_ok a e cs : forall cl bl, client_ok a e cl bl -> Forall call_ok cs ->
  exists cl' bl', run_calls cs cl = Some cl' /\ client_ok a e cl' bl' /\ same_geometry (seg cl) (seg cl').
Proof.
  induction cs as [|c cs IH]; intros cl bl Hok Hcs; [by exists cl, bl |]. apply Forall_cons in Hcs as [Hc Hcs]. cbn [run_calls].
  destruct (run_call_ok a e cl bl c Hok Hc) as (cl1 & bl1 & -> & Hok1 & Hgeo). cbn [mbind option_bind].
  destruct (IH cl1 bl1 Hok1 Hcs) as (cl2 & bl2 & -> & Hok2 & Hgeo2). exists cl2, bl2. split; [done |]. split; [done |].
  by eapply same_geometry_trans.
Qed.

(** When nothing is in use, the whole area is one free block again. *)
Lemma idle_blocks a e s bl : good a e s bl -> a < e -> regions bl = [] -> bl = [{| b_at := Z.to_N a; b_sz := e - a - STORAGE_SIZE; b_st := Free |}].
Proof.
  intros Hg Hae Hr. destruct (good_inv _ _ _ _ Hg) as (fl & av & V). pose proof (v_tiles _ _ _ _ _ _ V) as Ht.
  assert (forall b, b ∈ bl -> b_st b = Free) as Hfree.
  { intros b Hb. pose proof (good_settled _ _ _ _ Hg) as Hset. rewrite Forall_forall in Hset. specialize (Hset b Hb). unfold settled in Hset.
    destruct (b_st b) as [act | |] eqn:E; [exfalso | done..]. assert ((bytes_at b, act) ∈ regions bl) as Hin.
    { apply in_regions. exists b. split; [done |]. unfold region_of. by rewrite E. }
    rewrite Hr in Hin. by apply elem_of_nil in Hin. }
  pose proof (good_coalesced _ _ _ _ Hg) as Hco. destruct bl as [|b [|c bl]].
  - cbn in Ht. lia.
  - destruct Ht as (Hat & Hsz & Hend). cbn in Hend. destruct b as [p n st]. cbn in *. specialize (Hfree _ (list_elem_of_here _ _)). cbn in Hfree.
    subst st a. rewrite N2Z.id. do 2 f_equal. lia.
  - exfalso. cbn [coalesced] in Hco. unfold is_free in Hco. rewrite (Hfree b), (Hfree c) in Hco; [done | right; left | left].
Qed.

(** ** Properties *)

(** What [mmap] and the arguments of [dfs_shmem_create] must be: the mapping lies in the
    address space, the sizes are below 2^58 and the mapping below 2^37 bytes, so that the number
    of classes fits 32 bits. *)
Record create_ok (page : Z) (mmap : Z -> option ptr) (size min max factor : Z) : Prop := {
  ok_mmap : forall b, mmap (DFS_MATH_ROUND_UP size page) = Some b -> 0 < Z.of_N b /\ Z.of_N b + DFS_MATH_ROUND_UP size page < 2 ^ 64;
  ok_min : 0 <= min < 2 ^ 58;
  ok_max : 0 <= max < 2 ^ 58;
  ok_factor : 0 <= factor < 2 ^ 63;
  ok_total : DFS_MATH_ROUND_UP size page < 2 ^ 37
}.

(** A created segment and a client that holds nothing. *)
Definition opened (s : shmem) : client := {| seg := s; live := [] |}.

Lemma opened_ok page mmap size min max level factor s :
  create_ok page mmap size min max factor -> dfs_shmem_create page mmap size min max level factor = Some (inl s) ->
  exists a e bl, a = Z.of_N (base s) + system_size (shmem_stat s) /\ SHMEM_SIZE <= system_size (shmem_stat s) /\
    e = Z.of_N (base s) + DFS_MATH_ROUND_UP size page /\ a < e /\ client_ok a e (opened s) bl.
Proof.
  intros [Hm Hmin Hmax Hf Ht] Hc. destruct (shmem_create_spec _ _ _ _ _ _ _ _ Hm Hmin Hmax Hf Ht Hc) as (a & e & Ha & Hsys & He & Hae & _ & Hg).
  eexists a, e, _. split; [done |]. split; [done |]. split; [done |]. split; [done |]. by split.
Qed.

(** C23. The allocator refines the abstract one: a created segment is one free block, and every
    request of a consistent segment is answered, in a way the abstract allocator allows, and
    leaves a consistent segment whose blocks are those of the abstract state. A consistent
    segment has its blocks in address order without gaps, no two free neighbours, exactly the
    free blocks in the free lists of their classes, exactly the classes with free blocks in the
    queue of available classes, and counters that agree with the blocks. *)
Theorem shmem_refines page mmap size min max level factor s0 :
  create_ok page mmap size min max factor -> dfs_shmem_create page mmap size min max level factor = Some (inl s0) ->
  exists a e, 
    good a e s0 [{| b_at := Z.to_N a; b_sz := e - a - STORAGE_SIZE; b_st := Free |}] /\
    (forall s bl r, good a e s bl -> allowed bl r ->
      exists rep s' bl', serve r s = Some (rep, s') /\ promised s bl r rep bl' /\ good a e s' bl').
Proof.
  intros [Hm Hmin Hmax Hf Ht] Hc. destruct (shmem_create_spec _ _ _ _ _ _ _ _ Hm Hmin Hmax Hf Ht Hc) as (a & e & _ & _ & _ & _ & _ & Hg).
  exists a, e. split; [exact Hg |]. intros s bl r Hs Hr.
  destruct (serve_promised a e s bl r Hs Hr) as (rep & s' & bl' & H1 & H2 & _ & H3). by exists rep, s', bl'.
Qed.

(** C24. Clients are safe: whatever sequence of allocations, largest-block allocations and
    releases of held regions a client makes, no call touches memory outside the objects of the
    segment, and the regions it holds then are inside the mapping behind the control records and
    pairwise disjoint. *)
Theorem shmem_client_safe page mmap size min max level factor s cs :
  create_ok page mmap size min max factor -> dfs_shmem_create page mmap size min max level factor = Some (inl s) ->
  Forall call_ok cs ->
  exists cl, run_calls cs (opened s) = Some cl /\
    Forall (fun r => Z.of_N (base s) + system_size (shmem_stat s) + STORAGE_SIZE <= Z.of_N r.1 /\ 0 <= r.2 /\
      Z.of_N r.1 + r.2 <= Z.of_N (base s) + DFS_MATH_ROUND_UP size page) (live cl) /\
    forall i j x y, i <> j -> live cl !! i = Some x -> live cl !! j = Some y -> apart x y.
Proof.
  intros Hok Hc Hcs. destruct (opened_ok _ _ _ _ _ _ _ _ Hok Hc) as (a & e & bl & Ha & _ & He & _ & Hcl).
  destruct (run_calls_ok a e cs _ _ Hcl Hcs) as (cl & bl' & Hrun & Hcl' & _). exists cl. split; [done |]. split.
  - apply Forall_forall. intros r Hr. rewrite <- Ha, <- He. by eapply client_region.
  - intros i j x y Hij Hi Hj. eapply client_apart; [done | by eapply list_elem_of_lookup_2.. |]. intros <-. apply Hij.
    eapply NoDup_lookup; [by eapply client_nodup | done..].
Qed.

(** C25. Nothing is lost: once a client has given everything back, the whole area is one block
    again, and one request can have all of it, however the area was cut before. *)
Theorem shmem_idle_whole page mmap size min max level factor s cs cl n :
  create_ok page mmap size min max factor -> dfs_shmem_create page mmap size min max level factor = Some (inl s) ->
  Forall call_ok cs -> run_calls cs (opened s) = Some cl -> live cl = [] ->
  min_size s < n <= DFS_MATH_ROUND_UP size page - system_size (shmem_stat s) - STORAGE_SIZE ->
  exists s', dfs_shmem_alloc n (seg cl) =
    Some (ERR_NONE, addr (base s) (system_size (shmem_stat s) + STORAGE_SIZE), s').
Proof.
  intros Hok Hc Hcs Hrun Hlive Hn. destruct (opened_ok _ _ _ _ _ _ _ _ Hok Hc) as (a & e & bl & Ha & Hsys & He & Hae & Hcl).
  destruct (run_calls_ok a e cs _ _ Hcl Hcs) as (cl' & bl' & Hrun' & Hcl' & Hgeo). rewrite Hrun in Hrun'. injection Hrun' as <-.
  destruct Hcl' as [Hg Hl]. rewrite Hlive in Hl. apply Permutation_nil_l in Hl.
  destruct (good_inv _ _ _ _ (c_good _ _ _ _ Hcl)) as (fl & av & V). pose proof (v_geom _ _ _ _ _ _ V) as G.
  pose proof (g_min _ _ _ G) as Hmin. pose proof (g_area _ _ _ G) as [_ He64]. cbn in Hmin.
  pose proof (idle_blocks a e (seg cl) bl' Hg Hae (eq_sym Hl)) as ->. unfold SHMEM_SIZE, STORAGE_SIZE in *.
  destruct (alloc_spec a e (seg cl) _ n Hg) as [(l1 & b & l2 & s' & E & _ & _ & Hs' & _) | (err & _ & _ & Hno)]; [lia | |].
  - destruct l1 as [|? [|]]; try done. injection E as <- _. exists s'. rewrite Hs'. cbn. unfold addr. rewrite Ha.
    do 3 f_equal. f_equal. unfold STORAGE_SIZE. lia.
  - exfalso. destruct Hgeo as (_ & _ & _ & Hms & _). cbn in Hms. rewrite Hms in Hno.
    specialize (Hno _ (list_elem_of_here _ _) eq_refl (or_introl (proj1 Hn))). cbn in Hno. lia.
Qed.

(** ** Witnesses *)

Definition small_state : shmem := match small_segment with Some (inl s) => s | _ => {| base := 0; free := 0; free_len := 0;
  max_available_index := 0; min_size := 0; max_size := 0; factor := 0; split_threshold := 0; level_type := 0;
  shmem_stat := {| used_size := 0; reqs_size := 0; st_count := 0; st_size := 0; total_size := 0; system_size := 0; failed := 0;
    split_failed := 0; split := 0 |};
  order := no_links; available := no_links; frees := no_links; storages := ∅ |} end.

Definition small_mmap (n : Z) : option ptr := Some 4096%N.

Lemma small_ok : create_ok 4096 small_mmap 8000 64 1024 0.
Proof. split; [|lia..|by vm_compute]. intros b [= <-]. by vm_compute. Qed.

Lemma small_created : dfs_shmem_create 4096 small_mmap 8000 64 1024 DFS_SHMEM_LEVEL_TYPE_EXP 0 = Some (inl small_state).
Proof. vm_compute. reflexivity. Qed.

Lemma shmem_refines_witness :
  exists a e, 
    good a e small_state [{| b_at := Z.to_N a; b_sz := e - a - STORAGE_SIZE; b_st := Free |}] /\
    (forall s bl r, good a e s bl -> allowed bl r ->
      exists rep s' bl', serve r s = Some (rep, s') /\ promised s bl r rep bl' /\ good a e s' bl').
Proof. exact (shmem_refines 4096 small_mmap 8000 64 1024 DFS_SHMEM_LEVEL_TYPE_EXP 0 small_state small_ok small_created). Defined.

Definition small_calls : list call := [CAlloc 10; CAlloc 100; CSplitAlloc 500; CFree 1; CAlloc 64; CFree 0; CFree 0].

Lemma small_calls_ok : Forall call_ok small_calls.
Proof. repeat constructor. Qed.

Lemma shmem_client_safe_witness :
  exists cl, run_calls small_calls (opened small_state) = Some cl /\
    Forall (fun r => Z.of_N (base small_state) + system_size (shmem_stat small_state) + STORAGE_SIZE <= Z.of_N r.1 /\ 0 <= r.2 /\
      Z.of_N r.1 + r.2 <= Z.of_N (base small_state) + DFS_MATH_ROUND_UP 8000 4096) (live cl) /\
    forall i j x y, i <> j -> live cl !! i = Some x -> live cl !! j = Some y -> apart x y.
Proof.
  exact (shmem_client_safe 4096 small_mmap 8000 64 1024 DFS_SHMEM_LEVEL_TYPE_EXP 0 small_state small_calls
    small_ok small_created small_calls_ok).
Defined.

(** The client gives back what it took, in another order. *)
Definition small_round : list call := [CAlloc 10; CAlloc 100; CAlloc 2000; CFree 1; CFree 1; CFree 0].

Lemma small_round_ok : Forall call_ok small_round.
Proof. repeat constructor. Qed.

Lemma small_room : min_size small_state < 7760 <= DFS_MATH_ROUND_UP 8000 4096 - system_size (shmem_stat small_state) - STORAGE_SIZE.
Proof. vm_compute. split; [reflexivity | discriminate]. Qed.

Lemma small_round_idle : live <$> run_calls small_round (opened small_state) = Some [].
Proof. vm_compute. reflexivity. Qed.

Lemma shmem_idle_whole_witness :
  exists cl s', run_calls small_round (opened small_state) = Some cl /\
    dfs_shmem_alloc 7760 (seg cl) = Some (ERR_NONE, addr (base small_state) (system_size (shmem_stat small_state) + STORAGE_SIZE), s').
Proof.
  destruct (proj1 (fmap_Some _ _ _) small_round_idle) as (cl & Hr & Hl).
  destruct (shmem_idle_whole 4096 small_mmap 8000 64 1024 DFS_SHMEM_LEVEL_TYPE_EXP 0 small_state small_round cl 7760
    small_ok small_created small_round_ok Hr (eq_sym Hl) small_room) as (s' & Hs').
  exact (ex_intro _ cl (ex_intro _ s' (conj Hr Hs'))).
Defined.
