(* ===== verification/Memory.v ===== *)
(** * Byte memory

    The bytes of the buffers and messages, by address; an address that is not in the map is
    not allocated. Integers in memory are little-endian. [holds m p l] says that the bytes
    from [p] on are [l]. *)

From S2P Require Import Prelude.

Abbreviation memory := (gmap ptr Z).

Definition at_ (p : ptr) (i : nat) : ptr := (p + N.of_nat i)%N.

Fixpoint load (m : memory) (p : ptr) (n : nat) : option (list Z) :=
  match n with
  | O => Some []
  | S n => b ← m !! p; l ← load m (at_ p 1) n; Some (b :: l)
  end.

Fixpoint store (m : memory) (p : ptr) (l : list Z) : option memory :=
  match l with
  | [] => Some m
  | b :: l => _ ← m !! p; store (<[p := b]> m) (at_ p 1) l
  end.

(** [memmove]: the source is read before the destination is written. *)
Definition memmove (dst src : ptr) (n : nat) (m : memory) : option memory := l ← load m src n; store m dst l.

Definition disjoint_ranges (p q : ptr) (n : nat) : bool := bool_decide (p + N.of_nat n <= q)%N || bool_decide (q + N.of_nat n <= p)%N.

(** [memcpy] of overlapping ranges is undefined. *)
Definition memcpy (dst src : ptr) (n : nat) (m : memory) : option memory :=
  if disjoint_ranges dst src n then memmove dst src n m else None.

(** ** Contents *)

Definition holds (m : memory) (p : ptr) (l : list Z) : Prop := forall i b, l !! i = Some b -> m !! at_ p i = Some b.

(** The [n] bytes from [p] on are allocated. *)
Definition valid (m : memory) (p : ptr) (n : nat) : Prop := forall i, (i < n)%nat -> is_Some (m !! at_ p i).

(** [m'] has the same addresses as [m], and the same bytes outside the range. *)
Definition only_changes (p : ptr) (n : nat) (m m' : memory) : Prop :=
  dom m' = dom m /\ forall a, (a < p)%N \/ (at_ p n <= a)%N -> m' !! a = m !! a.

Lemma at_0 p : at_ p 0 = p.
Proof. unfold at_. lia. Qed.

Lemma at_add p i j : at_ (at_ p i) j = at_ p (i + j).
Proof. unfold at_. lia. Qed.

Lemma at_S p i : at_ (at_ p 1) i = at_ p (S i).
Proof. apply at_add. Qed.

Lemma at_inj p i j : at_ p i = at_ p j -> i = j.
Proof. unfold at_. lia. Qed.

Lemma holds_nil m p : holds m p [].
Proof. intros i b. by rewrite lookup_nil. Qed.

Lemma holds_cons m p b l : holds m p (b :: l) <-> m !! p = Some b /\ holds m (at_ p 1) l.
Proof.
  split.
  - intros H. split; [by rewrite <- (at_0 p); apply (H 0%nat) |]. intros i c Hi. rewrite at_S. by apply H.
  - intros [Hb Hl] [|i] c Hi; [rewrite at_0; cbn in Hi; congruence |]. rewrite <- at_S. by apply Hl.
Qed.

Lemma holds_app m p l1 l2 : holds m p (l1 ++ l2) <-> holds m p l1 /\ holds m (at_ p (length l1)) l2.
Proof.
  revert p. induction l1 as [|b l1 IH]; intros p; cbn [app length].
  - rewrite at_0. split; [intros; split; [apply holds_nil | done] | by intros [_ ?]].
  - rewrite !holds_cons, IH, at_S. tauto.
Qed.

Lemma load_holds m p l : holds m p l <-> load m p (length l) = Some l.
Proof.
  revert p. induction l as [|b l IH]; intros p; cbn [load length]; [split; [done | intros; apply holds_nil] |].
  rewrite holds_cons, IH. destruct (m !! p) as [c|] eqn:E; cbn [mbind option_bind]; [|by split; intros H; [destruct H|]].
  destruct (load m (at_ p 1) (length l)) as [k|]; cbn [mbind option_bind]; [|by split; intros H; [destruct H|]].
  split; [by intros [[= ->] [= ->]] | by intros [= -> ->]].
Qed.

Lemma holds_valid m p l : holds m p l -> valid m p (length l).
Proof. intros H i Hi. destruct (lookup_lt_is_Some_2 l i Hi) as [b Hb]. exists b. by apply H. Qed.

Lemma valid_holds m p n : valid m p n -> exists l, length l = n /\ holds m p l.
Proof.
  revert p. induction n as [|n IH]; intros p Hv; [exists []; split; [done | apply holds_nil] |].
  destruct (Hv 0%nat) as [b Hb]; [lia |]. rewrite at_0 in Hb. destruct (IH (at_ p 1)) as (l & <- & Hl).
  - intros i Hi. rewrite at_S. apply Hv. lia.
  - exists (b :: l). split; [done |]. by apply holds_cons.
Qed.

Lemma valid_load m p n : valid m p n -> exists l, length l = n /\ load m p n = Some l.
Proof. intros (l & <- & Hl)%valid_holds. exists l. split; [done |]. by apply load_holds. Qed.

Lemma valid_sub m p n i k : valid m p n -> (i + k <= n)%nat -> valid m (at_ p i) k.
Proof. intros Hv Hk j Hj. rewrite at_add. apply Hv. lia. Qed.

Lemma holds_take m p l n : holds m p l -> holds m p (take n l).
Proof. intros H i b Hi. apply lookup_take_Some in Hi as [Hi _]. by apply H. Qed.

Lemma holds_drop m p l n : holds m p l -> holds m (at_ p n) (drop n l).
Proof. intros H i b Hi. rewrite lookup_drop in Hi. rewrite at_add. by apply H. Qed.

Lemma holds_unique m p l l' : holds m p l -> holds m p l' -> length l = length l' -> l = l'.
Proof. rewrite !load_holds. intros H1 H2 E. rewrite E in H1. congruence. Qed.

(** ** Updates *)

Lemma only_changes_refl p n m : only_changes p n m m.
Proof. done. Qed.

Lemma only_changes_trans p n m1 m2 m3 : only_changes p n m1 m2 -> only_changes p n m2 m3 -> only_changes p n m1 m3.
Proof. intros [D1 H1] [D2 H2]. split; [congruence |]. intros a Ha. by rewrite H2, H1. Qed.

Lemma only_changes_wider p n q k m m' :
  only_changes q k m m' -> (p <= q)%N -> (at_ q k <= at_ p n)%N -> only_changes p n m m'.
Proof. intros [D H] Hp Hk. split; [done |]. intros a Ha. apply H. unfold at_ in *. lia. Qed.

Lemma only_changes_valid p n m m' q k : only_changes p n m m' -> valid m q k -> valid m' q k.
Proof. intros [D _] Hv i Hi. specialize (Hv i Hi). apply elem_of_dom. rewrite D. by apply elem_of_dom. Qed.

Lemma only_changes_holds p n m m' q l :
  only_changes p n m m' -> (at_ q (length l) <= p)%N \/ (at_ p n <= q)%N -> holds m q l -> holds m' q l.
Proof.
  intros [_ H] Hd Hl i b Hi. rewrite H; [by apply Hl |]. apply lookup_lt_Some in Hi. unfold at_ in *. lia.
Qed.

Lemma store_spec m p l :
  valid m p (length l) -> exists m', store m p l = Some m' /\ holds m' p l /\ only_changes p (length l) m m'.
Proof.
  revert m p. induction l as [|b l IH]; intros m p Hv; cbn [store length].
  - exists m. split; [done |]. split; [apply holds_nil | done].
  - destruct (Hv 0%nat) as [c Hc]; [cbn; lia |]. rewrite at_0 in Hc. rewrite Hc. cbn [mbind option_bind].
    destruct (IH (<[p := b]> m) (at_ p 1)) as (m' & Hm' & Hl & Hd & Ho).
    { intros i Hi. rewrite at_S. rewrite lookup_insert_ne by (unfold at_; lia). apply Hv. cbn. lia. }
    exists m'. split; [done |]. split.
    + apply holds_cons. split; [|done]. rewrite Ho by (unfold at_; lia). by rewrite lookup_insert_eq.
    + split.
      * rewrite Hd, dom_insert_L. assert (p ∈ dom m) by (by eapply elem_of_dom_2). set_solver.
      * intros a Ha. rewrite Ho by (unfold at_ in *; lia). apply lookup_insert_ne. unfold at_ in *. lia.
Qed.

Lemma memmove_spec m dst src l :
  holds m src l -> valid m dst (length l) ->
  exists m', memmove dst src (length l) m = Some m' /\ holds m' dst l /\ only_changes dst (length l) m m'.
Proof. intros Hs%load_holds Hd. unfold memmove. rewrite Hs. cbn [mbind option_bind]. by apply store_spec. Qed.

Lemma memcpy_spec m dst src l :
  holds m src l -> valid m dst (length l) -> (at_ dst (length l) <= src)%N \/ (at_ src (length l) <= dst)%N ->
  exists m', memcpy dst src (length l) m = Some m' /\ holds m' dst l /\ only_changes dst (length l) m m'.
Proof.
  intros Hs Hd Hr. unfold memcpy, disjoint_ranges, at_ in *. destruct Hr as [Hr | Hr].
  - rewrite (bool_decide_true _ Hr). by apply memmove_spec.
  - rewrite (bool_decide_true _ Hr), orb_true_r. by apply memmove_spec.
Qed.

(** ** Integers in memory *)

Fixpoint le (n : nat) (z : Z) : list Z := match n with O => [] | S n => z mod 256 :: le n (z / 256) end.
Fixpoint unle (l : list Z) : Z := match l with [] => 0 | b :: l => b + 256 * unle l end.

Lemma length_le n z : length (le n z) = n.
Proof. revert z. induction n as [|n IH]; intros z; [done |]. cbn. by rewrite IH. Qed.

Lemma le_u8 n z : Forall is_u8 (le n z).
Proof. revert z. induction n as [|n IH]; intros z; constructor; [|done]. unfold is_u8. pose proof (Z.mod_pos_bound z 256). lia. Qed.

Lemma unle_le n z : unle (le n z) = z mod 256 ^ Z.of_nat n.
Proof.
  revert z. induction n as [|n IH]; intros z; cbn [le unle]; [by rewrite Z.mod_1_r |].
  rewrite IH, Nat2Z.inj_succ, Z.pow_succ_r by lia. rewrite Z.rem_mul_r by (try apply Z.pow_nonzero; lia). lia.
Qed.

Lemma le_unle l : Forall is_u8 l -> le (length l) (unle l) = l.
Proof.
  induction l as [|b l IH]; [done |]. intros [Hb Hl]%Forall_cons. cbn [length le unle]. unfold is_u8 in Hb.
  replace ((b + 256 * unle l) mod 256) with b by div_mod_lia.
  replace ((b + 256 * unle l) / 256) with (unle l) by div_mod_lia. by rewrite IH.
Qed.

Lemma unle_range l : Forall is_u8 l -> 0 <= unle l < 256 ^ Z.of_nat (length l).
Proof.
  induction l as [|b l IH]; [cbn; lia |]. intros [Hb Hl]%Forall_cons. specialize (IH Hl). unfold is_u8 in Hb.
  cbn [length unle]. rewrite Nat2Z.inj_succ, Z.pow_succ_r by lia. lia.
Qed.

(** A signed [int] and its four bytes. *)
Definition load_int (m : memory) (p : ptr) : option Z := l ← load m p 4; Some (s32 (unle l)).
Definition store_int (p : ptr) (z : Z) (m : memory) : option memory := store m p (le 4 z).

Lemma s32_le z : is_s32 z -> s32 (unle (le 4 z)) = z.
Proof. rewrite unle_le. unfold is_s32, s32. change (256 ^ Z.of_nat 4) with (2 ^ 32). div_mod_lia. Qed.

Lemma load_int_holds m p z : is_s32 z -> holds m p (le 4 z) -> load_int m p = Some z.
Proof. intros Hz Hl%load_holds. rewrite length_le in Hl. unfold load_int. rewrite Hl. cbn [mbind option_bind]. by rewrite s32_le. Qed.

(** Writing behind what is already there. *)
Lemma store_append m p l k n :
  holds m p l -> valid m p n -> (length l + length k <= n)%nat ->
  exists m', store m (at_ p (length l)) k = Some m' /\ holds m' p (l ++ k) /\ only_changes p n m m'.
Proof.
  intros Hl Hv Hn. destruct (store_spec m (at_ p (length l)) k) as (m' & Hm' & Hk & Ho).
  { eapply valid_sub; [exact Hv | lia]. }
  exists m'. split; [done |]. split.
  - apply holds_app. split; [|done]. eapply only_changes_holds; [exact Ho | | exact Hl]. left. lia.
  - eapply only_changes_wider; [exact Ho | unfold at_; lia | unfold at_; lia].
Qed.

Lemma memcpy_append m p l src k n :
  holds m p l -> valid m p n -> (length l + length k <= n)%nat -> holds m src k ->
  (at_ p n <= src)%N \/ (at_ src (length k) <= p)%N ->
  exists m', memcpy (at_ p (length l)) src (length k) m = Some m' /\ holds m' p (l ++ k) /\ only_changes p n m m'.
Proof.
  intros Hl Hv Hn Hk Hd. destruct (memcpy_spec m (at_ p (length l)) src k) as (m' & Hm' & Hk' & Ho); [done | | |].
  { eapply valid_sub; [exact Hv | lia]. }
  { unfold at_ in *. lia. }
  exists m'. split; [done |]. split.
  - apply holds_app. split; [|done]. eapply only_changes_holds; [exact Ho | | exact Hl]. left. lia.
  - eapply only_changes_wider; [exact Ho | unfold at_; lia | unfold at_; lia].
Qed.

Lemma load_valid m p n l : load m p n = Some l -> valid m p n.
Proof.
  revert p l. induction n as [|n IH]; intros p l; [intros _ i Hi; lia |]. cbn [load].
  destruct (m !! p) as [b|] eqn:Hb; [|done]. destruct (load m (at_ p 1) n) as [k|] eqn:Hk; [|done]. intros _ [|i] Hi; [by exists b; rewrite at_0 |].
  rewrite <- at_S. apply (IH _ _ Hk). lia.
Qed.

(** [n] fresh bytes from [p] on, all of them [b]. *)
Fixpoint fill (p : ptr) (n : nat) (b : Z) (m : memory) : memory :=
  match n with O => m | S n => fill (at_ p 1) n b (<[p := b]> m) end.
