(* ===== verification/Codec.v ===== *)
(** * Buffers and the task codec ([src/core/dfs_buffer.cpp], [src/common/dfs_task.cpp],
      [src/common/dfs_task_codec.cpp])

    A buffer is four addresses into byte memory. A request travels as a frame: its length,
    the bytes of the [task_t], the length of the payload and the payload. A [task_t] is a
    record whose padding bytes are fields, because they travel too. Reading or writing
    memory that is not allocated, and overflow of an [int], are undefined ([None]). *)

From S2P Require Import Prelude Memory.

Definition NGX_OK : Z := 0.
Definition NGX_ERROR : Z := -1.
Definition NGX_AGAIN : Z := -2.
Definition TASK_EAGIN : Z := -2.

(** ** Buffers *)

(* src/src/core/dfs_buffer.h:11-23 (buffer_s) *)
Record buffer := {
  pos : ptr; last : ptr; file_pos : Z; file_last : Z; start : ptr; end_ : ptr; temporary : bool; memory_ : bool; in_file : bool
}.

Definition with_ptrs (p l : ptr) (b : buffer) : buffer :=
  {| pos := p; last := l; file_pos := file_pos b; file_last := file_last b; start := start b; end_ := end_ b;
     temporary := temporary b; memory_ := memory_ b; in_file := in_file b |}.

(** The difference of two pointers. *)
Definition minus (p q : ptr) : Z := Z.of_N p - Z.of_N q.

(** A pointer moved by a signed number of bytes. *)
Definition move (p : ptr) (n : Z) : ptr := Z.to_N (Z.of_N p + n).

(* src/src/core/dfs_buffer.h:34-43 (buffer_size, buffer_free_size, buffer_full, buffer_reset, buffer_pull, buffer_used) *)
Definition buffer_size (b : buffer) : Z := if memory_ b then minus (last b) (pos b) else file_last b - file_pos b.
Definition buffer_free_size (b : buffer) : Z := minus (end_ b) (last b).
Definition buffer_full (b : buffer) : bool := bool_decide (end_ b = pos b).
Definition buffer_reset (b : buffer) : buffer := with_ptrs (start b) (start b) b.
Definition buffer_pull (b : buffer) (n : Z) : buffer := with_ptrs (move (pos b) n) (last b) b.
Definition buffer_used (b : buffer) (n : Z) : buffer := with_ptrs (pos b) (move (last b) n) b.

(** The allocations answer an address or [nullptr]: [b] is that of the header, whose
    contents are [old], [s] that of the bytes. The second result is the blocks given back. *)
(* src/src/core/dfs_buffer.cpp:11-61 (buffer_create) *)
Definition buffer_create (pool : bool) (old : buffer) (b s : ptr) (size : Z) : option buffer * list ptr :=
  if size =? 0 then (None, [])
  else if bool_decide (b = nullptr) then (None, [])
  else if bool_decide (s = nullptr) then (None, if pool then [] else [b])
  else (Some {| pos := s; last := s; file_pos := file_pos old; file_last := file_last old; start := s; end_ := move s size;
                temporary := pool; memory_ := true; in_file := false |}, []).

(** The blocks given back; [p] is the address of the header. *)
(* src/src/core/dfs_buffer.cpp:90-99 (buffer_free) *)
Definition buffer_free (p : ptr) (b : buffer) : list ptr :=
  if bool_decide (p = nullptr) || temporary b then [] else [start b; p].

(* src/src/core/dfs_buffer.cpp:63-88 (buffer_shrink) *)
Definition buffer_shrink (b : buffer) (m : memory) : option (buffer * memory) :=
  if bool_decide (start b = pos b) then Some (b, m)
  else
    let blen := s32 (buffer_size b) in
    if blen =? 0 then Some (buffer_reset b, m)
    else
      m ← memmove (start b) (pos b) (Z.to_nat (u64 blen)) m;
      Some (with_ptrs (start b) (move (start b) blen) b, m).

(** ** Tasks *)

Definition KEY_LEN : nat := 256.
Definition OWNER_LEN : nat := 16.
Definition GROUP_LEN : nat := 16.
Definition sizeof_task : nat := 336.

(** The padding bytes are those in front of [opq], behind [permission] and in front of
    [data]. *)
(* src/src/common/dfs_task.h:17-34 (task_s) *)
Record task := {
  cmd : Z; ret : Z; seq : Z; pad_opq : list Z; opq : ptr; master_nodeid : Z; key : list Z; user : list Z; group : list Z;
  permission : Z; pad_permission : list Z; data_len : Z; pad_data : list Z; data : ptr
}.

(** The [sizeof(task_t)] bytes of a task. *)
Definition task_bytes (t : task) : list Z :=
  le 4 (cmd t) ++ le 4 (ret t) ++ le 4 (seq t) ++ pad_opq t ++ le 8 (Z.of_N (opq t)) ++ le 4 (master_nodeid t) ++
  key t ++ user t ++ group t ++ le 2 (permission t) ++ pad_permission t ++ le 4 (data_len t) ++ pad_data t ++
  le 8 (Z.of_N (data t)).

Definition field (off n : nat) (l : list Z) : list Z := take n (drop off l).

Definition task_of_bytes (l : list Z) : task :=
  {| cmd := unle (field 0 4 l); ret := s32 (unle (field 4 4 l)); seq := unle (field 8 4 l); pad_opq := field 12 4 l;
     opq := Z.to_N (unle (field 16 8 l)); master_nodeid := s32 (unle (field 24 4 l)); key := field 28 256 l;
     user := field 284 16 l; group := field 300 16 l; permission := s16 (unle (field 316 2 l));
     pad_permission := field 318 2 l; data_len := s32 (unle (field 320 4 l)); pad_data := field 324 4 l;
     data := Z.to_N (unle (field 328 8 l)) |}.

Definition with_opq (p : ptr) (t : task) : task :=
  {| cmd := cmd t; ret := ret t; seq := seq t; pad_opq := pad_opq t; opq := p; master_nodeid := master_nodeid t; key := key t;
     user := user t; group := group t; permission := permission t; pad_permission := pad_permission t;
     data_len := data_len t; pad_data := pad_data t; data := data t |}.
Definition with_data (p : ptr) (t : task) : task :=
  {| cmd := cmd t; ret := ret t; seq := seq t; pad_opq := pad_opq t; opq := opq t; master_nodeid := master_nodeid t; key := key t;
     user := user t; group := group t; permission := permission t; pad_permission := pad_permission t;
     data_len := data_len t; pad_data := pad_data t; data := p |}.

(** Addition of two [int]s. *)
Definition add_int (a b : Z) : option Z := if decide (is_s32 (a + b)) then Some (a + b) else None.

Definition pkg_size : Z := 4.
Definition data_size : Z := 4.
Definition task_size : Z := 336.

(* src/src/common/dfs_task.cpp:35-65 (task_encode2str) *)
Definition task_encode2str (t : task) (buff : ptr) (len : Z) (m : memory) : option (Z * memory) :=
  need_size ← add_int (pkg_size + task_size + data_size) (data_len t);
  if len <? need_size then Some (TASK_EAGIN, m)
  else
    m ← store_int buff need_size m;
    let buff := move buff pkg_size in
    m ← store m buff (task_bytes t);
    let buff := move buff task_size in
    m ← store_int buff (data_len t) m;
    let buff := move buff data_size in
    m ← (if 0 <? data_len t then memcpy buff (data t) (Z.to_nat (data_len t)) m else Some m);
    Some (need_size, m).

(* src/src/common/dfs_task.cpp:67-97 (task_decodefstr) *)
Definition task_decodefstr (buff : ptr) (len : Z) (t : task) (m : memory) : option (Z * task) :=
  let data := opq t in
  need_size ← load_int m buff;
  if len <? need_size then Some (TASK_EAGIN, t)
  else
    let buff := move buff pkg_size in
    l ← load m buff sizeof_task;
    let t := task_of_bytes l in
    let buff := move buff task_size in
    data_len ← load_int m buff;
    let buff := move buff data_size in
    let t := if 0 <? data_len then with_data buff t else t in
    Some (need_size, with_opq data t).

(* src/src/common/dfs_task_codec.cpp:3-23 (task_decode) *)
Definition task_decode (b : buffer) (t : task) (m : memory) : option (Z * buffer * task) :=
  if buffer_size b <=? 0 then Some (NGX_AGAIN, b, t)
  else
    '(r, t) ← task_decodefstr (pos b) (s32 (buffer_size b)) t m;
    if r <=? 0 then Some (r, b, t) else Some (NGX_OK, buffer_pull b r, t).

(* src/src/common/dfs_task_codec.cpp:27-45 (task_encode) *)
Definition task_encode (t : task) (b : buffer) (m : memory) : option (Z * buffer * memory) :=
  if buffer_free_size b <=? 0 then Some (NGX_AGAIN, b, m)
  else
    '(r, m) ← task_encode2str t (last b) (s32 (buffer_free_size b)) m;
    if r <=? 0 then Some (r, b, m) else Some (NGX_OK, buffer_used b r, m).

(** ** The representation of a task *)

Record task_ok (t : task) : Prop := {
  ok_cmd : is_u32 (cmd t); ok_ret : is_s32 (ret t); ok_seq : is_u32 (seq t); ok_opq : (opq t < 2 ^ 64)%N;
  ok_master : is_s32 (master_nodeid t); ok_permission : - 2 ^ 15 <= permission t < 2 ^ 15; ok_data_len : is_s32 (data_len t);
  ok_data : (data t < 2 ^ 64)%N;
  ok_key : length (key t) = 256%nat /\ Forall is_u8 (key t); ok_user : length (user t) = 16%nat /\ Forall is_u8 (user t);
  ok_group : length (group t) = 16%nat /\ Forall is_u8 (group t); ok_pad1 : length (pad_opq t) = 4%nat /\ Forall is_u8 (pad_opq t);
  ok_pad2 : length (pad_permission t) = 2%nat /\ Forall is_u8 (pad_permission t);
  ok_pad3 : length (pad_data t) = 4%nat /\ Forall is_u8 (pad_data t)
}.

Lemma field_skip off n a l : (length a <= off)%nat -> field off n (a ++ l) = field (off - length a) n l.
Proof. intros H. unfold field. rewrite drop_app_ge by done. done. Qed.

Lemma field_first n a l : length a = n -> field 0 n (a ++ l) = a.
Proof. intros <-. unfold field. rewrite drop_0. by rewrite take_app_length. Qed.

Lemma field_all n a : length a = n -> field 0 n a = a.
Proof. intros <-. unfold field. by rewrite drop_0, firstn_all. Qed.

Lemma field_u8 off n l : Forall is_u8 l -> Forall is_u8 (field off n l).
Proof. intros H. unfold field. by apply Forall_take, Forall_drop. Qed.

Lemma field_length off n l : (off + n <= length l)%nat -> length (field off n l) = n.
Proof. intros H. unfold field. rewrite length_take, length_drop. lia. Qed.

Lemma unle_u n z : 0 <= z < 256 ^ Z.of_nat n -> unle (le n z) = z.
Proof. intros H. rewrite unle_le. by apply Z.mod_small. Qed.

Lemma s16_le z : - 2 ^ 15 <= z < 2 ^ 15 -> s16 (unle (le 2 z)) = z.
Proof. intros H. rewrite unle_le. unfold s16. change (256 ^ Z.of_nat 2) with (2 ^ 16). div_mod_lia. Qed.

Lemma ptr_le p : (p < 2 ^ 64)%N -> Z.to_N (unle (le 8 (Z.of_N p))) = p.
Proof. intros H. rewrite unle_u; [lia |]. change (256 ^ Z.of_nat 8) with (2 ^ 64). lia. Qed.

(** Cuts a field out of a concatenation of parts of known lengths. *)
Ltac cut_field :=
  repeat (rewrite field_skip; [| rewrite ?length_le; lia]; rewrite ?length_le;
    repeat match goal with H : length ?x = _ |- context [length ?x] => rewrite H end; cbn [Nat.sub]);
  first [rewrite field_first | rewrite field_all]; [| rewrite ?length_le; done].

Lemma length_task_bytes t : task_ok t -> length (task_bytes t) = sizeof_task.
Proof. intros [_ _ _ _ _ _ _ _ [H1 _] [H2 _] [H3 _] [H4 _] [H5 _] [H6 _]]. unfold task_bytes. rewrite !length_app, !length_le, H1, H2, H3, H4, H5, H6. done. Qed.

Lemma task_bytes_u8 t : task_ok t -> Forall is_u8 (task_bytes t).
Proof.
  intros [_ _ _ _ _ _ _ _ [_ H1] [_ H2] [_ H3] [_ H4] [_ H5] [_ H6]]. unfold task_bytes.
  repeat (apply Forall_app; split); first [done | apply le_u8].
Qed.

Lemma task_of_task_bytes t : task_ok t -> task_of_bytes (task_bytes t) = t.
Proof.
  intros [H1 H2 H3 H4 H5 H6 H7 H8 [Hk _] [Hu _] [Hg _] [Hp1 _] [Hp2 _] [Hp3 _]]. destruct t as [c r s p1 o ms k u g pe p2 dl p3 d].
  unfold task_of_bytes, task_bytes. cbn [cmd ret seq pad_opq opq master_nodeid key user group permission pad_permission data_len pad_data data] in *.
  f_equal; cut_field; try done; first [apply unle_u | apply s32_le | apply s16_le | apply ptr_le]; done.
Qed.

Lemma le_mod n z z' : z mod 256 ^ Z.of_nat n = z' mod 256 ^ Z.of_nat n -> le n z = le n z'.
Proof.
  intros E. rewrite <- (unle_le n z), <- (unle_le n z') in E. rewrite <- (le_unle (le n z)), <- (le_unle (le n z')) by apply le_u8.
  by rewrite !length_le, E.
Qed.

Lemma le_field off n l : Forall is_u8 l -> (off + n <= length l)%nat -> le n (unle (field off n l)) = field off n l.
Proof. intros Hl Hn. rewrite <- (field_length off n l Hn) at 1. apply le_unle. by apply field_u8. Qed.

Lemma le_s32 z : le 4 (s32 z) = le 4 z.
Proof. apply le_mod. unfold s32. change (256 ^ Z.of_nat 4) with (2 ^ 32). div_mod_lia. Qed.

Lemma le_s16 z : le 2 (s16 z) = le 2 z.
Proof. apply le_mod. unfold s16. change (256 ^ Z.of_nat 2) with (2 ^ 16). div_mod_lia. Qed.

Lemma field_range off n l : Forall is_u8 l -> (off + n <= length l)%nat -> 0 <= unle (field off n l) < 256 ^ Z.of_nat n.
Proof. intros Hl Hn. pose proof (unle_range _ (field_u8 off n l Hl)) as H. by rewrite field_length in H. Qed.

Lemma field_join off n k l : k = (off + n)%nat -> field off n l ++ drop k l = drop off l.
Proof. intros ->. unfold field. rewrite <- drop_drop. apply take_drop. Qed.

Lemma s16_range z : - 2 ^ 15 <= s16 z < 2 ^ 15.
Proof. unfold s16. div_mod_lia. Qed.

Lemma task_of_bytes_ok l : length l = sizeof_task -> Forall is_u8 l -> task_ok (task_of_bytes l).
Proof.
  unfold sizeof_task. intros Hn Hl. pose proof (fun off n => field_range off n l Hl) as Hr. rewrite Hn in Hr.
  split; cbn [task_of_bytes cmd ret seq pad_opq opq master_nodeid key user group permission pad_permission data_len pad_data data];
    try (apply s32_range); try (apply s16_range);
    try (split; [apply field_length; rewrite Hn; lia | by apply field_u8]).
  - specialize (Hr 0%nat 4%nat ltac:(lia)). exact Hr.
  - specialize (Hr 8%nat 4%nat ltac:(lia)). exact Hr.
  - specialize (Hr 16%nat 8%nat ltac:(lia)). change (256 ^ Z.of_nat 8) with (2 ^ 64) in Hr. lia.
  - specialize (Hr 328%nat 8%nat ltac:(lia)). change (256 ^ Z.of_nat 8) with (2 ^ 64) in Hr. lia.
Qed.

Lemma task_bytes_of_bytes l : length l = sizeof_task -> Forall is_u8 l -> task_bytes (task_of_bytes l) = l.
Proof.
  unfold sizeof_task. intros Hn Hl. pose proof (fun off n => field_range off n l Hl) as Hr. rewrite Hn in Hr. unfold task_bytes.
  cbn [task_of_bytes cmd ret seq pad_opq opq master_nodeid key user group permission pad_permission data_len pad_data data].
  rewrite !le_s32, le_s16, !Z2N.id by (apply Hr; lia). rewrite !le_field by (done || lia).
  rewrite <- (app_nil_r (field 328 8 l)). rewrite <- (drop_ge l (328 + 8)) by lia. by repeat rewrite field_join by reflexivity.
Qed.

(** ** Frames *)

(** A request on the wire. *)
Definition frame (t : task) (d : list Z) : list Z :=
  le 4 (pkg_size + task_size + data_size + Z.of_nat (length d)) ++ task_bytes t ++ le 4 (Z.of_nat (length d)) ++ d.

(** A task that can be sent: its fields fit, and its payload is [d]. *)
Record sendable (m : memory) (t : task) (d : list Z) : Prop := {
  send_ok : task_ok t;
  send_len : data_len t = Z.of_nat (length d);
  send_small : pkg_size + task_size + data_size + Z.of_nat (length d) < 2 ^ 31;
  send_data : d <> [] -> holds m (data t) d
}.

Lemma length_frame t d : task_ok t -> length (frame t d) = (344 + length d)%nat.
Proof. intros Ht. unfold frame. rewrite !length_app, !length_le, length_task_bytes by done. unfold sizeof_task. lia. Qed.

Lemma move_at p n : 0 <= n -> move p n = at_ p (Z.to_nat n).
Proof. intros. unfold move, at_. lia. Qed.

(** The payload lies outside the range. *)
Definition outside (p : ptr) (n : nat) (q : ptr) (d : list Z) : Prop := d = [] \/ (at_ p n <= q)%N \/ (at_ q (length d) <= p)%N.

Lemma encode2str_fits t d buff len m :
  sendable m t d -> valid m buff (Z.to_nat len) -> outside buff (Z.to_nat len) (data t) d -> 
  344 + Z.of_nat (length d) <= len ->
  exists m', task_encode2str t buff len m = Some (344 + Z.of_nat (length d), m') /\
    holds m' buff (frame t d) /\ only_changes buff (Z.to_nat len) m m'.
Proof.
  intros [Ht Hl Hs Hd] Hv Hout Hlen. pose proof (length_task_bytes _ Ht) as Htl. unfold task_encode2str, add_int, pkg_size, task_size, data_size, sizeof_task in *.
  rewrite Hl. rewrite decide_True by (unfold is_s32; lia). cbn [mbind option_bind].
  destruct (Z.ltb_spec len (4 + 336 + 4 + Z.of_nat (length d))); [lia |].
  change (4 + 336 + 4) with 344. unfold store_int. cbv zeta. rewrite !move_at, !at_add by lia.
  change (Z.to_nat 4) with 4%nat. change (4 + Z.to_nat 336)%nat with 340%nat. change (4 + (Z.to_nat 336 + 4))%nat with 344%nat. set (n := Z.to_nat len) in *. set (need := 344 + Z.of_nat (length d)).
  destruct (store_append m buff [] (le 4 need) n) as (m1 & H1 & C1 & O1); [apply holds_nil | done | rewrite length_le; cbn; lia |].
  cbn [length] in H1. rewrite at_0 in H1. rewrite H1. cbn [mbind option_bind app] in *.
  destruct (store_append m1 buff (le 4 need) (task_bytes t) n) as (m2 & H2 & C2 & O2);
    [done | by eapply only_changes_valid | rewrite length_le, Htl; lia |].
  rewrite length_le in H2. rewrite H2. cbn [mbind option_bind].
  destruct (store_append m2 buff (le 4 need ++ task_bytes t) (le 4 (Z.of_nat (length d))) n) as (m3 & H3 & C3 & O3);
    [done | by do 2 (eapply only_changes_valid; [done |]) | rewrite length_app, !length_le, Htl; lia |].
  rewrite length_app, length_le, Htl in H3. change (4 + 336)%nat with 340%nat in H3. rewrite H3. cbn [mbind option_bind].
  assert (only_changes buff n m m3) as O by (do 2 (eapply only_changes_trans; [done |]); done).
  assert (frame t d = (le 4 need ++ task_bytes t) ++ le 4 (Z.of_nat (length d)) ++ d) as Ef by (unfold frame; by rewrite <- !app_assoc).
  destruct (Z.ltb_spec 0 (Z.of_nat (length d))) as [Hpos | Hzero].
  - assert (d <> []) as Hne by (destruct d; [simpl in Hpos; lia | done]). destruct Hout as [? | Hout]; [done |].
    destruct (memcpy_append m3 buff ((le 4 need ++ task_bytes t) ++ le 4 (Z.of_nat (length d))) (data t) d n) as (m4 & H4 & C4 & O4).
    + done.
    + by eapply only_changes_valid.
    + rewrite !length_app, !length_le, Htl. lia.
    + eapply only_changes_holds; [exact O | | by apply Hd]. unfold at_ in *. lia.
    + done.
    + rewrite !length_app, !length_le, Htl in H4. change (4 + 336 + 4)%nat with 344%nat in H4. rewrite Nat2Z.id. rewrite H4. cbn [mbind option_bind]. exists m4. split; [done |].
      split; [by rewrite Ef, app_assoc |]. by eapply only_changes_trans.
  - assert (d = []) as -> by (destruct d; [done | simpl in Hzero; lia]). cbn [mbind option_bind]. exists m3. split; [done |].
    split; [by rewrite Ef, app_nil_r |]. done.
Qed.

Lemma encode2str_again t d buff len m :
  sendable m t d -> len < 344 + Z.of_nat (length d) -> task_encode2str t buff len m = Some (TASK_EAGIN, m).
Proof.
  intros [Ht Hl Hs Hd] Hlen. unfold task_encode2str, add_int, pkg_size, task_size, data_size in *. rewrite Hl.
  rewrite decide_True by (unfold is_s32; lia). cbn [mbind option_bind]. by destruct (Z.ltb_spec len (4 + 336 + 4 + Z.of_nat (length d))); [|lia].
Qed.

(** What decoding leaves in a node whose [opq] is [o]: the payload stays where it is. *)
Definition received (o : ptr) (at_payload : ptr) (t : task) (d : list Z) : task :=
  with_opq o (match d with [] => t | _ => with_data at_payload t end).

Lemma decodefstr_frame t d rest old buff len m :
  task_ok t -> data_len t = Z.of_nat (length d) -> 344 + Z.of_nat (length d) <= len -> 344 + Z.of_nat (length d) < 2 ^ 31 ->
  holds m buff (frame t d ++ rest) ->
  task_decodefstr buff len old m = Some (344 + Z.of_nat (length d), received (opq old) (at_ buff 344) t d).
Proof.
  intros Ht Hdl Hlen Hs H. pose proof (length_task_bytes _ Ht) as Htl. unfold sizeof_task in Htl. unfold frame in H. change (pkg_size + task_size + data_size) with 344 in H.
  apply holds_app in H as [H _]. apply holds_app in H as [Hn H]. rewrite length_le in H. apply holds_app in H as [Hb H].
  rewrite Htl, at_add in H. change (4 + 336)%nat with 340%nat in H. apply holds_app in H as [Hl _].
  unfold task_decodefstr. cbv zeta. assert (is_s32 (344 + Z.of_nat (length d))) as Hi by (unfold is_s32; lia). rewrite (load_int_holds _ _ _ Hi Hn). cbn [mbind option_bind].
  destruct (Z.ltb_spec len (344 + Z.of_nat (length d))); [lia |]. unfold pkg_size, task_size, data_size.
  rewrite !move_at, !at_add by lia. change (Z.to_nat 4) with 4%nat. change (4 + Z.to_nat 336)%nat with 340%nat.
  change (4 + (Z.to_nat 336 + 4))%nat with 344%nat.
  apply load_holds in Hb. rewrite Htl in Hb. unfold sizeof_task. rewrite Hb. cbn [mbind option_bind].
  assert (is_s32 (Z.of_nat (length d))) as Hi2 by (unfold is_s32; lia). rewrite (load_int_holds _ _ _ Hi2 Hl). cbn [mbind option_bind].
  rewrite task_of_task_bytes by done. unfold received. clear - d.
  destruct d as [|z d]; [reflexivity |]. destruct (Z.ltb_spec 0 (Z.of_nat (length (z :: d)))) as [_ | Hz]; [reflexivity | cbn [length] in Hz; lia].
Qed.

Lemma decodefstr_again n old buff len m :
  is_s32 n -> len < n -> holds m buff (le 4 n) -> task_decodefstr buff len old m = Some (TASK_EAGIN, old).
Proof.
  intros Hn Hlen H. unfold task_decodefstr. cbv zeta. rewrite (load_int_holds _ _ _ Hn H). cbn [mbind option_bind].
  by destruct (Z.ltb_spec len n); [|lia].
Qed.

(** ** Buffers and their contents *)

Record buffer_ok (m : memory) (b : buffer) : Prop := {
  b_memory : memory_ b = true;
  b_order : (start b <= pos b <= last b)%N /\ (last b <= end_ b)%N;
  b_small : minus (end_ b) (start b) < 2 ^ 31;
  b_valid : valid m (start b) (Z.to_nat (minus (end_ b) (start b)))
}.

(** The unread bytes of the buffer are [l]. *)
Record content (m : memory) (b : buffer) (l : list Z) : Prop := {
  c_ok : buffer_ok m b;
  c_holds : holds m (pos b) l;
  c_length : minus (last b) (pos b) = Z.of_nat (length l)
}.

(** [b'] is in the same place as [b]. *)
Definition same_place (b b' : buffer) : Prop := start b' = start b /\ end_ b' = end_ b /\ temporary b' = temporary b.

(** The capacity of a buffer. *)
Definition room (b : buffer) : Z := minus (end_ b) (start b).

Lemma content_room m b l : content m b l -> Z.of_nat (length l) <= room b.
Proof. intros [[_ [[H1 H2] H3] _ _] _ Hl]. unfold minus, room, minus in *. lia. Qed.

Lemma buffer_size_content m b l : content m b l -> buffer_size b = Z.of_nat (length l).
Proof. intros [Hok _ Hl]. unfold buffer_size. by rewrite (b_memory _ _ Hok). Qed.

Lemma shrink_spec m b l :
  content m b l ->
  exists b' m', buffer_shrink b m = Some (b', m') /\ content m' b' l /\ pos b' = start b /\ same_place b b' /\
    only_changes (start b) (Z.to_nat (room b)) m m'.
Proof.
  intros Hc. pose proof (content_room _ _ _ Hc) as Hr. pose proof (buffer_size_content _ _ _ Hc) as Hsz. pose proof Hc as [Hok Hh Hl].
  pose proof Hok as [Hm [[O1 O2] O3] Hs Hv]. unfold buffer_shrink. rewrite Hsz. fold (room b) in Hs, Hv.
  case_bool_decide as Heq; [by exists b, m |]. rewrite s32_small by (unfold is_s32; lia).
  destruct (Z.eqb_spec (Z.of_nat (length l)) 0) as [E | E].
  - assert (l = []) as -> by (destruct l; [done | simpl in E; lia]). exists (buffer_reset b), m. split; [done |].
    split; [|done]. split; [|apply holds_nil | cbn; unfold minus; lia]. split; cbn; [done | lia | done | done].
  - rewrite u64_small by (unfold is_u64, room, minus in *; lia). rewrite Nat2Z.id.
    destruct (memmove_spec m (start b) (pos b) l Hh) as (m' & Hm' & Hh' & Ho).
    { rewrite <- (at_0 (start b)). eapply valid_sub; [exact Hv | lia]. }
    rewrite Hm'. cbn [mbind option_bind].
    assert (only_changes (start b) (Z.to_nat (room b)) m m') as Ho'.
    { eapply only_changes_wider; [exact Ho | done | unfold at_; lia]. }
    do 2 eexists. split; [done |]. split; [|done]. split; [|done | cbn; unfold minus, move; lia].
    split; cbn; [done | unfold move, room, minus in *; lia | done |]. by eapply only_changes_valid.
Qed.

Lemma reset_content m b l : content m b l -> content m (buffer_reset b) [].
Proof.
  intros [[Hm [[O1 O2] O3] Hs Hv] Hh Hl]. split; [|apply holds_nil | cbn; unfold minus; lia]. split; cbn; [done | lia | done | done].
Qed.

Lemma pull_content m b l1 l2 : content m b (l1 ++ l2) -> content m (buffer_pull b (Z.of_nat (length l1))) l2.
Proof.
  intros [[Hm [[O1 O2] O3] Hs Hv] Hh Hl]. rewrite length_app in Hl. apply holds_app in Hh as [_ Hh]. unfold minus in *.
  split; cbn; rewrite ?move_at, ?Nat2Z.id by lia; unfold at_ in *; [|done | unfold minus; lia].
  split; cbn; [done | | done | done]. rewrite ?move_at, ?Nat2Z.id by lia. unfold at_. lia.
Qed.

(** Bytes written behind [last] join the contents. *)
Lemma used_content m m' b l k :
  content m b l -> holds m' (last b) k -> Z.of_nat (length k) <= buffer_free_size b ->
  only_changes (last b) (Z.to_nat (buffer_free_size b)) m m' -> content m' (buffer_used b (Z.of_nat (length k))) (l ++ k).
Proof.
  intros [[Hm [[O1 O2] O3] Hs Hv] Hh Hl] Hk Hroom Ho. unfold buffer_free_size, minus in *.
  assert (last b = at_ (pos b) (length l)) as El by (unfold at_; lia). split; cbn.
  - split; cbn; [done | unfold move; lia | done |]. by eapply only_changes_valid.
  - apply holds_app. rewrite <- El. split; [|done]. eapply only_changes_holds; [exact Ho | | exact Hh]. left. unfold at_ in *. lia.
  - rewrite length_app. unfold minus, move. lia.
Qed.

(** ** The codec on buffers *)

Lemma encode_fits m b l t d :
  content m b l -> sendable m t d -> outside (last b) (Z.to_nat (buffer_free_size b)) (data t) d ->
  344 + Z.of_nat (length d) <= buffer_free_size b ->
  exists m', task_encode t b m = Some (NGX_OK, buffer_used b (344 + Z.of_nat (length d)), m') /\
    content m' (buffer_used b (344 + Z.of_nat (length d))) (l ++ frame t d) /\
    only_changes (last b) (Z.to_nat (buffer_free_size b)) m m'.
Proof.
  intros Hc Ht Hout Hlen. pose proof Hc as [Hok _ _]. pose proof Hok as [_ [[O1 O2] O3] Hs Hv]. unfold task_encode.
  destruct (Z.leb_spec (buffer_free_size b) 0); [lia |].
  assert (s32 (buffer_free_size b) = buffer_free_size b) as -> by (apply s32_small; unfold is_s32, buffer_free_size, minus in *; lia).
  assert (valid m (last b) (Z.to_nat (buffer_free_size b))) as Hv'.
  { replace (last b) with (at_ (start b) (N.to_nat (last b - start b))) at 1 by (unfold at_; lia). eapply valid_sub; [exact Hv |].
    unfold buffer_free_size, minus in *. lia. }
  destruct (encode2str_fits t d (last b) (buffer_free_size b) m Ht Hv' Hout Hlen) as (m' & -> & Hf & Ho). cbn [mbind option_bind].
  destruct (Z.leb_spec (344 + Z.of_nat (length d)) 0); [lia |]. exists m'. split; [done |]. split; [|done].
  pose proof (length_frame t d (send_ok _ _ _ Ht)) as Hfl.
  replace (344 + Z.of_nat (length d)) with (Z.of_nat (length (frame t d))) by lia. apply (used_content m); [done | done | lia | done].
Qed.

Lemma encode_again m b l t d :
  content m b l -> sendable m t d -> buffer_free_size b < 344 + Z.of_nat (length d) -> task_encode t b m = Some (NGX_AGAIN, b, m).
Proof.
  intros [[_ [[O1 O2] O3] Hs _] _ _] Ht Hlen. unfold task_encode. destruct (Z.leb_spec (buffer_free_size b) 0); [done |].
  assert (s32 (buffer_free_size b) = buffer_free_size b) as -> by (apply s32_small; unfold is_s32, buffer_free_size, minus in *; lia).
  by rewrite (encode2str_again t d).
Qed.

Lemma decode_frame m b t d rest old :
  content m b (frame t d ++ rest) -> task_ok t -> data_len t = Z.of_nat (length d) ->
  task_decode b old m = Some (NGX_OK, buffer_pull b (344 + Z.of_nat (length d)), received (opq old) (at_ (pos b) 344) t d) /\
  content m (buffer_pull b (344 + Z.of_nat (length d))) rest.
Proof.
  intros Hc Ht Hdl. pose proof (length_frame t d Ht) as Hfl. pose proof (buffer_size_content _ _ _ Hc) as Hsz.
  pose proof (content_room _ _ _ Hc) as Hr. pose proof (b_small _ _ (c_ok _ _ _ Hc)) as Hs. fold (room b) in Hs.
  rewrite length_app, Hfl in Hsz, Hr. unfold task_decode. rewrite Hsz. split.
  - destruct (Z.leb_spec (Z.of_nat (344 + length d + length rest)) 0); [lia |]. rewrite s32_small by (unfold is_s32; lia).
    rewrite (decodefstr_frame t d rest) by (try done; try lia; apply (c_holds _ _ _ Hc)). cbn [mbind option_bind].
    by destruct (Z.leb_spec (344 + Z.of_nat (length d)) 0); [lia |].
  - replace (344 + Z.of_nat (length d)) with (Z.of_nat (length (frame t d))) by lia. by apply pull_content.
Qed.

(** The bytes that have come are the beginning of a frame, with its length or empty. *)
Definition partial (l : list Z) (t : task) (d : list Z) : Prop :=
  exists k, l = take k (frame t d) /\ (k = 0%nat \/ (4 <= k)%nat) /\ (k < length (frame t d))%nat.

Lemma decode_partial m b l t d old :
  content m b l -> task_ok t -> 344 + Z.of_nat (length d) < 2 ^ 31 -> partial l t d -> task_decode b old m = Some (NGX_AGAIN, b, old).
Proof.
  intros Hc Ht Hd (k & -> & Hk & Hlt). pose proof (buffer_size_content _ _ _ Hc) as Hsz. pose proof (length_frame t d Ht) as Hfl.
  rewrite length_take in Hsz. unfold task_decode. rewrite Hsz. destruct (Z.leb_spec (Z.of_nat (k `min` length (frame t d))) 0); [done |].
  rewrite s32_small by (unfold is_s32; lia). rewrite (decodefstr_again (344 + Z.of_nat (length d))); [done | unfold is_s32; lia | lia |].
  replace (le 4 (344 + Z.of_nat (length d))) with (take 4 (take k (frame t d))); [by apply holds_take, (c_holds _ _ _ Hc) |].
  rewrite take_take, Nat.min_l by lia. unfold frame. by rewrite take_app_length'.
Qed.

(** ** Properties *)

(** C7. The codec round trip: encoding a task with its payload behind the contents [l] of a
    buffer either leaves everything as it is and answers [NGX_AGAIN], when the frame does not
    fit, or appends the frame and touches nothing but the free room; and from any buffer, in
    any memory, whose contents begin with that frame, [task_decode] takes exactly the frame and
    yields the same task, with the receiver's own [opq] and with [data] at the payload bytes. *)
Theorem task_codec_roundtrip m b l t d :
  content m b l -> sendable m t d -> outside (last b) (Z.to_nat (buffer_free_size b)) (data t) d ->
  (buffer_free_size b < 344 + Z.of_nat (length d) /\ task_encode t b m = Some (NGX_AGAIN, b, m)) \/
  (exists b' m', task_encode t b m = Some (NGX_OK, b', m') /\ content m' b' (l ++ frame t d) /\
    only_changes (last b) (Z.to_nat (buffer_free_size b)) m m' /\
    forall m2 b2 rest old, content m2 b2 (frame t d ++ rest) ->
      exists b3 t', task_decode b2 old m2 = Some (NGX_OK, b3, t') /\ content m2 b3 rest /\
        with_data (data t) (with_opq (opq t) t') = t /\ opq t' = opq old /\ (d <> [] -> holds m2 (data t') d)).
Proof.
  intros Hc Ht Hout. destruct (Z.lt_ge_cases (buffer_free_size b) (344 + Z.of_nat (length d))) as [Hlt | Hge].
  - left. split; [done |]. by apply (encode_again m b l t d).
  - right. destruct (encode_fits m b l t d Hc Ht Hout Hge) as (m' & He & Hc' & Ho). do 2 eexists. split; [exact He |]. split; [done |]. split; [done |].
    intros m2 b2 rest old Hc2. pose proof (send_ok _ _ _ Ht) as Htok.
    destruct (decode_frame m2 b2 t d rest old Hc2 Htok (send_len _ _ _ Ht)) as [Hd Hrest]. do 2 eexists. split; [exact Hd |]. split; [exact Hrest |].
    pose proof (c_holds _ _ _ Hc2) as Hh. apply holds_app in Hh as [Hh _]. unfold frame in Hh. rewrite !app_assoc in Hh. apply holds_app in Hh as [_ Hh].
    rewrite !length_app, !length_le, length_task_bytes in Hh by done. change (4 + sizeof_task + 4)%nat with 344%nat in Hh.
    destruct t, d; (split; [done |]; split; [done |]; intros Hne); [done | exact Hh].
Qed.

(** ** Witnesses *)

Definition blank (n : nat) : list Z := repeat 0 n.

Definition ping : task :=
  {| cmd := 16; ret := 0; seq := 7; pad_opq := blank 4; opq := 20000%N; master_nodeid := -1; key := 47 :: blank 255; user := blank 16;
     group := blank 16; permission := 420; pad_permission := blank 2; data_len := 3; pad_data := blank 4; data := 9000%N |}.

Lemma ping_ok : task_ok ping.
Proof. split; cbn; unfold is_u32, is_s32; try lia; split; try reflexivity; repeat constructor; unfold is_u8; lia. Qed.

Definition ping_memory : memory := fill 4096 400 0 (<[9000%N := 97]> (<[9001%N := 98]> (<[9002%N := 99]> ∅))).

Definition ping_buffer : buffer :=
  {| pos := 4096; last := 4096; file_pos := 0; file_last := 0; start := 4096; end_ := 4496; temporary := true; memory_ := true; in_file := false |}.

Lemma ping_content : content ping_memory ping_buffer [].
Proof.
  split; [|apply holds_nil | by vm_compute]. split; [done | cbn; lia | cbn; unfold minus; lia |].
  apply (load_valid _ _ _ (blank 400)). vm_compute. reflexivity.
Qed.

Lemma ping_sendable : sendable ping_memory ping [97; 98; 99].
Proof. split; [apply ping_ok | done | by vm_compute |]. intros _. apply load_holds. vm_compute. reflexivity. Qed.

Lemma task_codec_roundtrip_witness :
  exists b' m', task_encode ping ping_buffer ping_memory = Some (NGX_OK, b', m') /\
    forall m2 b2 rest old, content m2 b2 (frame ping [97; 98; 99] ++ rest) ->
      exists b3 t', task_decode b2 old m2 = Some (NGX_OK, b3, t') /\ content m2 b3 rest /\
        with_data (data ping) (with_opq (opq ping) t') = ping /\ opq t' = opq old /\ holds m2 (data t') [97; 98; 99].
Proof.
  destruct (task_codec_roundtrip ping_memory ping_buffer [] ping [97; 98; 99]) as [[Hlt _] | (b' & m' & He & _ & _ & Hd)].
  - exact ping_content.
  - exact ping_sendable.
  - right. left. vm_compute. discriminate.
  - exfalso. vm_compute in Hlt. discriminate.
  - exists b', m'. split; [exact He |]. intros m2 b2 rest old Hc. destruct (Hd m2 b2 rest old Hc) as (b3 & t' & H1 & H2 & H3 & H4 & H5).
    exists b3, t'. split; [exact H1 |]. split; [exact H2 |]. split; [exact H3 |]. split; [exact H4 |]. apply H5. discriminate.
Defined.

(** One byte of a frame has come, and the three bytes behind it, left from earlier use of the
    buffer, are 255: the length is read as negative, and the struct from memory no byte of the
    request has reached. *)
Example short_header_misread :
  (fun r => r.1.1) <$> task_decode (buffer_used ping_buffer 1) ping (<[4096%N := 88]> (fill 4096 400 255 ∅)) = Some (-168).
Proof. vm_compute. reflexivity. Qed.
