(* ===== verification/Request.v ===== *)
(** * The connection ([src/nn_request.cpp], [src/core/dfs_sysio.cpp])

    A connection of a worker thread: its receive and send buffers, its nodes for tasks in
    flight, the queue of responses, and the handlers the event loop calls. Requests leave by
    [dispatch_task], responses come back by [nn_conn_outtask].

    The functions are written in a state monad over [world]; an access to an object that
    does not exist, to the connection after its pool was destroyed, or a [free] of what is
    not a block of [malloc], is undefined ([None]). A node of a task queue is the address of
    its link. Results of [recv] and [send] and of the epoll registration are parameters,
    numbered by call. [rx_bytes], [tx_bytes] and [log] record what the environment sees: the
    bytes received and sent, other effects; [hand] is what the threads that handle requests have
    of this connection. *)

From S2P Require Import Prelude Memory Codec Queue.

Definition NGX_BUSY : Z := -3.
Definition NGX_BUFFER_FULL : Z := -9.
Definition NGX_CONN_CLOSED : Z := -10.
Definition CONN_TIME_OUT : Z := 300000.
Definition ST_CONNCECTED : Z := 0.
Definition ST_DISCONNCECTED : Z := 1.

(** ** State *)

(** The write event of a [conn_t]. *)
Record conn := { w_ready : bool; w_timedout : bool; w_timer_set : bool }.

(** [free_head] and [out_head] are the addresses of the two queue sentinels. *)
(* src/src/nn_request.h:20-37 (nn_conn_s) *)
Record nn_conn := {
  connection : option conn; m_in : buffer; m_out : buffer; out_head : ptr; write_event_handler : bool; count : Z; slow : Z;
  free_head : ptr; timer_set : bool; max_task : Z; state : Z
}.

(** A request or a response: the task and its payload. *)
Abbreviation message := (task * list Z)%type.

Inductive effect := AddReadTimer (ms : Z) | AddWriteTimer (ms : Z) | DelRead | DelTimer | Close | Destroy.

(** What the threads that handle requests have of this connection. [tqs] are its nodes in the
    queues of these threads, as many as there are threads, the one pushed last in front, as
    [push_task] leaves them; [batches] are the queues each thread has taken, the first one
    first. [sent] records the calls of [dispatch_task]: the node, its task and the bytes its
    [data] points to at that moment. *)
Record handoff := { sent : list (ptr * message); tqs : list (list ptr); batches : list (list (list ptr)) }.

Record world := {
  mem : memory; lk : links; tasks : gmap ptr task; blocks : gset ptr; mc : option nn_conn; calls : nat;
  rx_bytes : list Z; tx_bytes : list Z; hand : handoff; log : list effect
}.

Definition with_mem (m : memory) (w : world) : world :=
  {| mem := m; lk := lk w; tasks := tasks w; blocks := blocks w; mc := mc w; calls := calls w; rx_bytes := rx_bytes w;
     tx_bytes := tx_bytes w; hand := hand w; log := log w |}.
Definition with_lk (l : links) (w : world) : world :=
  {| mem := mem w; lk := l; tasks := tasks w; blocks := blocks w; mc := mc w; calls := calls w; rx_bytes := rx_bytes w;
     tx_bytes := tx_bytes w; hand := hand w; log := log w |}.
Definition with_task (q : ptr) (t : task) (w : world) : world :=
  {| mem := mem w; lk := lk w; tasks := <[q := t]> (tasks w); blocks := blocks w; mc := mc w; calls := calls w; rx_bytes := rx_bytes w;
     tx_bytes := tx_bytes w; hand := hand w; log := log w |}.
Definition with_blocks (b : gset ptr) (w : world) : world :=
  {| mem := mem w; lk := lk w; tasks := tasks w; blocks := b; mc := mc w; calls := calls w; rx_bytes := rx_bytes w;
     tx_bytes := tx_bytes w; hand := hand w; log := log w |}.
Definition with_mc (c : option nn_conn) (w : world) : world :=
  {| mem := mem w; lk := lk w; tasks := tasks w; blocks := blocks w; mc := c; calls := calls w; rx_bytes := rx_bytes w;
     tx_bytes := tx_bytes w; hand := hand w; log := log w |}.
Definition one_call (rx tx : list Z) (w : world) : world :=
  {| mem := mem w; lk := lk w; tasks := tasks w; blocks := blocks w; mc := mc w; calls := S (calls w); rx_bytes := rx_bytes w ++ rx;
     tx_bytes := tx_bytes w ++ tx; hand := hand w; log := log w |}.
Definition with_hand (h : handoff) (w : world) : world :=
  {| mem := mem w; lk := lk w; tasks := tasks w; blocks := blocks w; mc := mc w; calls := calls w; rx_bytes := rx_bytes w;
     tx_bytes := tx_bytes w; hand := h; log := log w |}.
Definition add_log (x : effect) (w : world) : world :=
  {| mem := mem w; lk := lk w; tasks := tasks w; blocks := blocks w; mc := mc w; calls := calls w; rx_bytes := rx_bytes w;
     tx_bytes := tx_bytes w; hand := hand w; log := log w ++ [x] |}.

Definition with_connection (k : option conn) (c : nn_conn) : nn_conn :=
  {| connection := k; m_in := m_in c; m_out := m_out c; out_head := out_head c; write_event_handler := write_event_handler c;
     count := count c; slow := slow c; free_head := free_head c; timer_set := timer_set c; max_task := max_task c; state := state c |}.
Definition with_in (b : buffer) (c : nn_conn) : nn_conn :=
  {| connection := connection c; m_in := b; m_out := m_out c; out_head := out_head c; write_event_handler := write_event_handler c;
     count := count c; slow := slow c; free_head := free_head c; timer_set := timer_set c; max_task := max_task c; state := state c |}.
Definition with_out (b : buffer) (c : nn_conn) : nn_conn :=
  {| connection := connection c; m_in := m_in c; m_out := b; out_head := out_head c; write_event_handler := write_event_handler c;
     count := count c; slow := slow c; free_head := free_head c; timer_set := timer_set c; max_task := max_task c; state := state c |}.
Definition with_write_handler (c : nn_conn) : nn_conn :=
  {| connection := connection c; m_in := m_in c; m_out := m_out c; out_head := out_head c; write_event_handler := true;
     count := count c; slow := slow c; free_head := free_head c; timer_set := timer_set c; max_task := max_task c; state := state c |}.
Definition with_count (n : Z) (c : nn_conn) : nn_conn :=
  {| connection := connection c; m_in := m_in c; m_out := m_out c; out_head := out_head c; write_event_handler := write_event_handler c;
     count := n; slow := slow c; free_head := free_head c; timer_set := timer_set c; max_task := max_task c; state := state c |}.
Definition with_slow (n : Z) (c : nn_conn) : nn_conn :=
  {| connection := connection c; m_in := m_in c; m_out := m_out c; out_head := out_head c; write_event_handler := write_event_handler c;
     count := count c; slow := n; free_head := free_head c; timer_set := timer_set c; max_task := max_task c; state := state c |}.
Definition with_timer (b : bool) (c : nn_conn) : nn_conn :=
  {| connection := connection c; m_in := m_in c; m_out := m_out c; out_head := out_head c; write_event_handler := write_event_handler c;
     count := count c; slow := slow c; free_head := free_head c; timer_set := b; max_task := max_task c; state := state c |}.
Definition with_state (n : Z) (c : nn_conn) : nn_conn :=
  {| connection := connection c; m_in := m_in c; m_out := m_out c; out_head := out_head c; write_event_handler := write_event_handler c;
     count := count c; slow := slow c; free_head := free_head c; timer_set := timer_set c; max_task := max_task c; state := n |}.

Definition dispatched (w : world) : list (ptr * message) := sent (hand w).

(** The first byte of the key, a signed [char]. *)
(* src/src/dn_worker_process.cpp:551-556 (hash_task_key) *)
Definition hash_task_key (str : list Z) : Z := let c := default 0 (head str) in if c <? 2 ^ 7 then c else c - 2 ^ 8.

(** [index % task_num], with the hash as a [uint32_t]. *)
Definition thread_of (task_num : nat) (t : task) : nat := Z.to_nat (u32 (hash_task_key (key t)) mod Z.of_nat task_num).

(** [push_task] puts a node at the head of the queue of its thread. *)
Definition push_node (h : handoff) (e : ptr * message) : handoff :=
  {| sent := sent h ++ [e]; tqs := alter (cons e.1) (thread_of (length (tqs h)) e.2.1) (tqs h); batches := batches h |}.

(** The [i]-th thread takes its queue, as [pop_all] does. *)
Definition take_batch (i : nat) (h : handoff) : handoff :=
  match tqs h !! i with
  | Some q => {| sent := sent h; tqs := <[i := []]> (tqs h); batches := alter (fun b => b ++ [q]) i (batches h) |}
  | None => h
  end.

(** ** The monad *)

Definition M (A : Type) : Type := world -> option (A * world).
#[export] Instance M_ret : MRet M := fun A x w => Some (x, w).
#[export] Instance M_bind : MBind M := fun A B f m w => '(x, w) ← m w; f x w.

Definition get_mc : M nn_conn := fun w => c ← mc w; Some (c, w).
Definition put_mc (f : nn_conn -> nn_conn) : M unit := fun w => c ← mc w; Some (tt, with_mc (Some (f c)) w).
Definition get_conn : M conn := fun w => c ← mc w; k ← connection c; Some (k, w).
Definition put_conn (f : conn -> conn) : M unit :=
  fun w => c ← mc w; k ← connection c; Some (tt, with_mc (Some (with_connection (Some (f k)) c)) w).
Definition modify (f : world -> world) : M unit := fun w => Some (tt, f w).
Definition links_op (f : links -> option links) : M unit := fun w => m ← f (lk w); Some (tt, with_lk m w).
Definition links_get {A} (f : links -> option A) : M A := fun w => x ← f (lk w); Some (x, w).
Definition get_task (q : ptr) : M task := fun w => t ← tasks w !! q; Some (t, w).
Definition out_of_fuel {A} : M A := fun _ => None.

Definition in_buffer (f : buffer -> memory -> option (buffer * memory)) : M unit :=
  fun w => c ← mc w; '(b, m) ← f (m_in c) (mem w); Some (tt, with_mem m (with_mc (Some (with_in b c)) w)).
Definition out_buffer (f : buffer -> memory -> option (buffer * memory)) : M unit :=
  fun w => c ← mc w; '(b, m) ← f (m_out c) (mem w); Some (tt, with_mem m (with_mc (Some (with_out b c)) w)).

(** ** The environment *)

Inductive rx_result := RData (l : list Z) | RClosed | RIntr | RAgain | RFail.
Inductive tx_result := TSent (n : Z) | TIntr | TAgain | TFail.

Section Connection.

(** [recv] and [send] by call, for the room and the bytes they are given; [patience] bounds
    the interruptions in a row; the epoll registration of reads and writes by call. *)
Context (recv : nat -> Z -> rx_result) (send : nat -> list Z -> tx_result) (patience : nat)
  (event_handle_read event_handle_write : nat -> Z).

(** The first result is the return value; received bytes are written to [p]. *)
Fixpoint recv_loop (fuel : nat) (p : ptr) (size : Z) : M Z := fun w =>
  match fuel with
  | O => None
  | S fuel =>
      match recv (calls w) size with
      | RData l => m ← store (mem w) p l; Some (Z.of_nat (length l), one_call l [] (with_mem m w))
      | RClosed => Some (0, one_call [] [] w)
      | RIntr => recv_loop fuel p size (one_call [] [] w)
      | RAgain => Some (NGX_AGAIN, one_call [] [] w)
      | RFail => Some (NGX_ERROR, one_call [] [] w)
      end
  end.

(* src/src/core/dfs_sysio.cpp:22-78 (sysio_unix_recv) *)
Definition sysio_unix_recv (p : ptr) (size : Z) : M Z :=
  if bool_decide (p = nullptr) then mret NGX_ERROR else recv_loop patience p size.

Definition not_ready (k : conn) : conn := {| w_ready := false; w_timedout := w_timedout k; w_timer_set := w_timer_set k |}.
Definition write_timer (b : bool) (k : conn) : conn := {| w_ready := w_ready k; w_timedout := w_timedout k; w_timer_set := b |}.

Fixpoint send_loop (fuel : nat) (l : list Z) : M Z := fun w =>
  match fuel with
  | O => None
  | S fuel =>
      match send (calls w) l with
      | TSent n =>
          let w := one_call [] (take (Z.to_nat n) l) w in
          if n <? Z.of_nat (length l) then (put_conn not_ready ≫= fun _ => mret n) w else Some (n, w)
      | TIntr => send_loop fuel l (one_call [] [] w)
      | TAgain => (put_conn not_ready ≫= fun _ => mret NGX_AGAIN) (one_call [] [] w)
      | TFail => Some (NGX_ERROR, one_call [] [] w)
      end
  end.

(* src/src/core/dfs_sysio.cpp:198-256 (sysio_unix_send) *)
Definition sysio_unix_send (p : ptr) (size : Z) : M Z := fun w =>
  l ← load (mem w) p (Z.to_nat size); send_loop patience l w.

Definition call_handle_read : M Z := fun w => Some (event_handle_read (calls w), one_call [] [] w).
Definition call_handle_write : M Z := fun w => Some (event_handle_write (calls w), one_call [] [] w).

(** ** Nodes *)

(** [nullptr] when [max_task] nodes are in use. *)
(* src/src/nn_request.cpp:576-595 (nn_conn_get_task) *)
Definition nn_conn_get_task : M ptr :=
  c ← get_mc;
  if max_task c <=? count c then mret nullptr
  else
    queue ← links_get (queue_head (free_head c));
    _ ← links_op (queue_remove queue);
    _ ← put_mc (fun c => with_count (s32 (count c + 1)) c);
    mret queue.

Definition free (p : ptr) : M unit :=
  fun w => if bool_decide (p ∈ blocks w) then Some (tt, with_blocks (blocks w ∖ {[p]}) w) else None.

(** The payload of a node. *)
(* src/src/nn_request.cpp:602-608 (nn_conn_free_task) *)
Definition free_payload (q : ptr) : M unit :=
  t ← get_task q;
  if negb (bool_decide (data t = nullptr)) && (0 <? data_len t) then
    _ ← free (data t); modify (with_task q (with_data nullptr t))
  else mret tt.

(** [finalize] is [nn_conn_finalize]. *)
(* src/src/nn_request.cpp:598-617 (nn_conn_free_task) *)
Definition free_task_with (finalize : M unit) (q : ptr) : M unit :=
  _ ← put_mc (fun c => with_count (s32 (count c - 1)) c);
  _ ← free_payload q;
  _ ← links_op (queue_init q);
  c ← get_mc;
  _ ← links_op (queue_insert_tail (free_head c) q);
  c ← get_mc;
  if (state c =? ST_DISCONNCECTED) && (count c =? 0) then finalize else mret tt.

(** Turns that exhaust any queue of the heap. *)
Definition queue_fuel : M nat := fun w => Some (S (size (l_next (lk w))), w).

Fixpoint free_queue_with (fuel : nat) (finalize : M unit) : M unit :=
  match fuel with
  | O => out_of_fuel
  | S fuel =>
      c ← get_mc;
      e ← links_get (queue_empty (out_head c));
      if (e : bool) then mret tt
      else
        qn ← links_get (queue_head (out_head c));
        _ ← links_op (queue_remove qn);
        _ ← free_task_with finalize qn;
        free_queue_with fuel finalize
  end.

(** The connection goes back to its pool. *)
(* src/src/nn_request.cpp:415-427 (nn_conn_close) *)
Definition nn_conn_close : M unit :=
  c ← get_mc;
  match connection c with
  | None => mret tt
  | Some _ => _ ← modify (add_log Close); put_mc (with_connection None)
  end.

(* src/src/nn_request.cpp:631-636 (nn_conn_update_state) *)
Definition nn_conn_update_state (s : Z) : M unit := put_mc (with_state s).

(** [nn_conn_finalize] and [nn_conn_free_task] call each other; the calls nest at most twice,
    since the inner one finds the connection disconnected. *)
(* src/src/nn_request.cpp:643-663 (nn_conn_finalize) *)
Fixpoint finalize_rec (depth : nat) : M unit :=
  match depth with
  | O => out_of_fuel
  | S depth =>
      c ← get_mc;
      _ ← (if state c =? ST_CONNCECTED then
        _ ← (if timer_set c then _ ← get_conn; _ ← modify (add_log DelTimer); put_mc (with_timer false) else mret tt);
        _ ← nn_conn_close;
        fuel ← queue_fuel;
        _ ← free_queue_with fuel (finalize_rec depth);
        nn_conn_update_state ST_DISCONNCECTED
      else mret tt);
      c ← get_mc;
      if 0 <? count c then mret tt
      else _ ← modify (add_log Destroy); modify (with_mc None)
  end.

Definition nn_conn_finalize : M unit := finalize_rec 2.
Definition nn_conn_free_task (q : ptr) : M unit := free_task_with nn_conn_finalize q.
(* src/src/nn_request.cpp:619-629 (nn_conn_free_queue) *)
Definition nn_conn_free_queue : M unit := fuel ← queue_fuel; free_queue_with fuel nn_conn_finalize.

(** ** Requests *)

(** [n] of [c->recv], when it is neither positive nor zero, is an error code. *)
(* src/src/nn_request.cpp:228-260 (nn_conn_recv) *)
Fixpoint conn_recv_loop (fuel : nat) : M Z :=
  match fuel with
  | O => out_of_fuel
  | S fuel =>
      _ ← in_buffer buffer_shrink;
      c ← get_mc;
      let blen := buffer_free_size (m_in c) in
      if blen =? 0 then mret NGX_BUFFER_FULL
      else
        _ ← get_conn;
        n ← sysio_unix_recv (last (m_in c)) blen;
        if 0 <? n then _ ← put_mc (fun c => with_in (buffer_used (m_in c) n) c); conn_recv_loop fuel
        else if n =? 0 then mret NGX_CONN_CLOSED
        else if n =? NGX_ERROR then mret NGX_ERROR
        else if n =? NGX_AGAIN then mret NGX_AGAIN
        else conn_recv_loop fuel
  end.

(** Every turn that goes on fills at least one byte of the room. *)
(* src/src/nn_request.cpp:220-263 (nn_conn_recv) *)
Definition nn_conn_recv : M Z :=
  c ← get_mc; conn_recv_loop (S (S (Z.to_nat (minus (end_ (m_in c)) (start (m_in c)))))).

Definition decode_into (q : ptr) : M Z := fun w =>
  c ← mc w;
  t ← tasks w !! q;
  '(rc, b, t) ← task_decode (m_in c) t (mem w);
  Some (rc, with_task q t (with_mc (Some (with_in b c)) w)).

(** The payload of a request is read where [data] points to. *)
Definition payload_now (m : memory) (t : task) : list Z := if 0 <? data_len t then default [] (load m (data t) (Z.to_nat (data_len t))) else [].

(** The node goes to the thread its key says; with no thread the remainder is undefined. *)
(* src/src/dn_worker_process.cpp:888-904 (dispatch_task) *)
Definition dispatch_task (q : ptr) : M unit := fun w =>
  t ← tasks w !! q;
  match tqs (hand w) with
  | [] => None
  | _ => Some (tt, with_hand (push_node (hand w) (q, (t, payload_now (mem w) t))) w)
  end.

Fixpoint decode_loop (fuel : nat) : M Z :=
  match fuel with
  | O => out_of_fuel
  | S fuel =>
      node ← nn_conn_get_task;
      if bool_decide (node = nullptr) then
        _ ← put_mc (with_slow 1);
        _ ← get_conn;
        _ ← modify (add_log DelRead);
        _ ← put_mc (with_timer true);
        _ ← modify (add_log (AddReadTimer 1000));
        mret NGX_BUSY
      else
        rc ← decode_into node;
        if rc =? NGX_OK then _ ← dispatch_task node; decode_loop fuel
        else if rc =? NGX_ERROR then
          _ ← nn_conn_free_task node;
          _ ← put_mc (fun c => with_in (buffer_reset (m_in c)) c);
          mret NGX_ERROR
        else if rc =? NGX_AGAIN then
          _ ← nn_conn_free_task node;
          _ ← in_buffer buffer_shrink;
          mret NGX_AGAIN
        else decode_loop fuel
  end.

(** Every turn that goes on takes a node out of the free queue. *)
(* src/src/nn_request.cpp:268-321 (nn_conn_decode) *)
Definition nn_conn_decode : M Z := fuel ← queue_fuel; decode_loop (S fuel).

(* src/src/nn_request.cpp:329-381 (nn_conn_read_handler) *)
Definition nn_conn_read_handler : M unit :=
  c ← get_mc;
  if state c =? ST_DISCONNCECTED then mret tt
  else
    rc ← nn_conn_recv;
    _ ← get_conn;
    if (rc =? NGX_AGAIN) || (rc =? NGX_BUFFER_FULL) then
      rc ← nn_conn_decode;
      if rc =? NGX_ERROR then nn_conn_finalize else mret tt
    else nn_conn_finalize.

(** ** Responses *)

(* src/src/nn_request.cpp:447-461 (nn_conn_out_buffer) *)
Fixpoint out_loop (fuel : nat) (size : Z) : M Z :=
  match fuel with
  | O => out_of_fuel
  | S fuel =>
      if size =? 0 then _ ← put_mc (fun c => with_out (buffer_reset (m_out c)) c); mret NGX_OK
      else
        c ← get_mc;
        rc ← sysio_unix_send (pos (m_out c)) size;
        if rc <? 0 then mret rc
        else _ ← put_mc (fun c => with_out (buffer_pull (m_out c) rc) c); out_loop fuel (size - rc)
  end.

(* src/src/nn_request.cpp:435-462 (nn_conn_out_buffer) *)
Definition nn_conn_out_buffer : M Z :=
  k ← get_conn;
  if negb (w_ready k) then mret NGX_AGAIN
  else c ← get_mc; let size := buffer_size (m_out c) in out_loop (S (Z.to_nat size)) size.

Definition encode_from (q : ptr) : M Z := fun w =>
  c ← mc w;
  t ← tasks w !! q;
  '(rc, b, m) ← task_encode t (m_out c) (mem w);
  Some (rc, with_mem m (with_mc (Some (with_out b c)) w)).

(** Responses are packed until the buffer is full or the queue empty. *)
(* src/src/nn_request.cpp:509-535 (nn_conn_output) *)
Fixpoint pack_loop (fuel : nat) : M unit :=
  match fuel with
  | O => out_of_fuel
  | S fuel =>
      c ← get_mc;
      e ← links_get (queue_empty (out_head c));
      if (e : bool) then mret tt
      else
        qe ← links_get (queue_head (out_head c));
        rc ← encode_from qe;
        if rc =? NGX_OK then _ ← links_op (queue_remove qe); _ ← nn_conn_free_task qe; pack_loop fuel
        else if rc =? NGX_AGAIN then mret tt
        else if rc =? NGX_ERROR then _ ← links_op (queue_remove qe); _ ← nn_conn_free_task qe; pack_loop fuel
        else pack_loop fuel
  end.

(* src/src/nn_request.cpp:506-566 (nn_conn_output) *)
Fixpoint repack_loop (fuel : nat) : M Z :=
  match fuel with
  | O => out_of_fuel
  | S fuel =>
      _ ← out_buffer buffer_shrink;
      n ← queue_fuel;
      _ ← pack_loop n;
      c ← get_mc;
      if buffer_size (m_out c) =? 0 then mret NGX_OK
      else
        rc ← nn_conn_out_buffer;
        if rc =? NGX_ERROR then _ ← nn_conn_finalize; mret NGX_ERROR
        else if rc =? NGX_AGAIN then
          _ ← get_conn;
          r ← call_handle_write;
          if r =? NGX_ERROR then mret NGX_ERROR
          else
            _ ← put_conn (write_timer true);
            _ ← modify (add_log (AddWriteTimer CONN_TIME_OUT));
            mret NGX_AGAIN
        else repack_loop fuel
  end.

(** Every turn that goes on sends the whole buffer, and packs a response unless it ends. *)
(* src/src/nn_request.cpp:488-573 (nn_conn_output) *)
Definition nn_conn_output : M Z :=
  k ← get_conn;
  c ← get_mc;
  if negb (w_ready k) && (0 <? buffer_size (m_out c)) then mret NGX_AGAIN
  else
    _ ← put_mc with_write_handler;
    n ← queue_fuel;
    repack_loop (S n).

(* src/src/nn_request.cpp:468-483 (nn_conn_outtask) *)
Definition nn_conn_outtask (node : ptr) : M Z :=
  c ← get_mc;
  if negb (state c =? ST_CONNCECTED) then _ ← nn_conn_free_task node; mret NGX_OK
  else _ ← links_op (queue_insert_tail (out_head c) node); nn_conn_output.

(* src/src/nn_request.cpp:384-413 (nn_conn_write_handler) *)
Definition nn_conn_write_handler : M unit :=
  c ← get_mc;
  if state c =? ST_DISCONNCECTED then mret tt
  else
    k ← get_conn;
    if w_timedout k then nn_conn_finalize
    else
      _ ← (if w_timer_set k then put_conn (write_timer false) else mret tt);
      _ ← nn_conn_output;
      mret tt.

(* src/src/nn_request.cpp:29-43 (nn_conn_timer_handler) *)
Definition nn_conn_timer_handler : M unit :=
  _ ← get_conn;
  _ ← put_mc (with_timer false);
  r ← call_handle_read;
  if negb (r =? 0) then nn_conn_finalize
  else _ ← nn_conn_write_handler; nn_conn_read_handler.

(** [write] says which event of the connection has come. *)
(* src/src/nn_request.cpp:180-212 (nn_event_process_handler) *)
Definition nn_event_process_handler (write : bool) : M unit :=
  c ← get_mc;
  if write then (if write_event_handler c then nn_conn_write_handler else mret tt)
  else nn_conn_read_handler.

(* src/src/nn_request.cpp:429-432 (nn_conn_is_connected) *)
Definition nn_conn_is_connected (c : nn_conn) : bool := state c =? ST_CONNCECTED.
(* src/src/nn_request.cpp:638-641 (nn_conn_get_state) *)
Definition nn_conn_get_state (c : nn_conn) : Z := state c.

(** ** A new connection *)

(** What the pool answers: whether it was created and gave the connection, the header and the
    bytes of the two buffers, the nodes. Memory of the pool is part of the world before. *)
Record allocs := {
  a_pool : bool; a_mc : bool; a_in : ptr; a_in_bytes : ptr; a_out : ptr; a_out_bytes : ptr; a_nodes : ptr;
  a_free_head : ptr; a_out_head : ptr
}.

Definition sizeof_wb_node : nat := 368.
(** [buff + i] by the address of its link, and its [wbt]. *)
Definition node_of (buff : ptr) (i : nat) : ptr := at_ buff (i * sizeof_wb_node + 336).
Definition wbt_of (buff : ptr) (i : nat) : ptr := at_ buff (i * sizeof_wb_node + 352).

(* src/src/nn_request.cpp:119-142 (nn_conn_init) *)
Fixpoint init_nodes (n i : nat) (buff head : ptr) : M unit :=
  match n with
  | O => mret tt
  | S n =>
      let node := node_of buff i in
      t ← get_task node;
      _ ← modify (with_task node (with_data nullptr (with_opq (wbt_of buff i) t)));
      _ ← links_op (queue_insert_head head node);
      init_nodes n (S i) buff head
  end.

Definition raw_buffer : buffer :=
  {| pos := nullptr; last := nullptr; file_pos := 0; file_last := 0; start := nullptr; end_ := nullptr; temporary := false;
     memory_ := false; in_file := false |}.

(** [pool_calloc] answers zeroed memory. *)
Definition zero_conn (a : allocs) : nn_conn :=
  {| connection := None; m_in := raw_buffer; m_out := raw_buffer; out_head := a_out_head a; write_event_handler := false; count := 0; slow := 0;
     free_head := a_free_head a; timer_set := false; max_task := 0; state := 0 |}.

(** The pool, if there is one in [mc], and the connection are given back. *)
(* src/src/nn_request.cpp:167-175 (nn_conn_init) *)
Definition init_error (mc : bool) : M unit :=
  _ ← (if mc then _ ← modify (add_log Destroy); modify (with_mc None) else mret tt);
  modify (add_log Close).

(** [c->conn_data] is null, as [conn_set_default] leaves it; [old_in] and [old_out] are what
    the headers of the buffers held. *)
(* src/src/nn_request.cpp:49-176 (nn_conn_init) *)
Definition nn_conn_init (a : allocs) (old_in old_out : buffer) (recv_buff_len send_buff_len max_tqueue_len : Z) (c : conn) : M unit :=
  if negb (a_pool a) then init_error false
  else if negb (a_mc a) then init_error false
  else
    _ ← modify (with_mc (Some (zero_conn a)));
    let b_in := (buffer_create true old_in (a_in a) (a_in_bytes a) (u32 (recv_buff_len * 2))).1 in
    let b_out := (buffer_create true old_out (a_out a) (a_out_bytes a) (u32 (send_buff_len * 2))).1 in
    match b_in, b_out with
    | Some b_in, Some b_out =>
        _ ← put_mc (fun mc => with_in b_in (with_out b_out mc));
        _ ← put_mc (fun mc => {| connection := connection mc; m_in := m_in mc; m_out := m_out mc; out_head := out_head mc;
          write_event_handler := write_event_handler mc; count := count mc; slow := slow mc; free_head := free_head mc;
          timer_set := timer_set mc; max_task := s32 max_tqueue_len; state := state mc |});
        _ ← put_mc (with_count 0);
        _ ← put_mc (with_connection (Some c));
        _ ← put_mc (with_slow 0);
        _ ← links_op (queue_init (a_free_head a));
        if bool_decide (a_nodes a = nullptr) then init_error true
        else
          mc ← get_mc;
          _ ← init_nodes (Z.to_nat (max_task mc)) 0 (a_nodes a) (a_free_head a);
          _ ← put_mc (with_timer false);
          _ ← links_op (queue_init (a_out_head a));
          _ ← nn_conn_update_state ST_CONNCECTED;
          r ← call_handle_read;
          if r =? NGX_ERROR then init_error true else mret tt
    | _, _ => init_error true
    end.

(** ** Running the monad *)

Lemma bind_run {A B} (m : M A) (f : A -> M B) w x w' : m w = Some (x, w') -> (m ≫= f) w = f x w'.
Proof. intros H. unfold mbind, M_bind. by rewrite H. Qed.

Lemma get_mc_run w c : mc w = Some c -> get_mc w = Some (c, w).
Proof. intros H. unfold get_mc. by rewrite H. Qed.

Lemma put_mc_run f w c : mc w = Some c -> put_mc f w = Some (tt, with_mc (Some (f c)) w).
Proof. intros H. unfold put_mc. by rewrite H. Qed.

Lemma get_conn_run w c k : mc w = Some c -> connection c = Some k -> get_conn w = Some (k, w).
Proof. intros H Hk. unfold get_conn. rewrite H. cbn [mbind option_bind]. by rewrite Hk. Qed.

Lemma put_conn_run f w c k :
  mc w = Some c -> connection c = Some k -> put_conn f w = Some (tt, with_mc (Some (with_connection (Some (f k)) c)) w).
Proof. intros H Hk. unfold put_conn. rewrite H. cbn [mbind option_bind]. by rewrite Hk. Qed.

Lemma links_op_run f w m : f (lk w) = Some m -> links_op f w = Some (tt, with_lk m w).
Proof. intros H. unfold links_op. by rewrite H. Qed.

Lemma links_get_run {A} (f : links -> option A) w x : f (lk w) = Some x -> links_get f w = Some (x, w).
Proof. intros H. unfold links_get. by rewrite H. Qed.

Lemma head_run w h xs : is_queue (lk w) h xs -> links_get (queue_head h) w = Some (succ_of h xs, w).
Proof. intros H. apply links_get_run. unfold queue_head. by rewrite (is_queue_head _ _ _ H). Qed.

Lemma empty_run w h xs : is_queue (lk w) h xs -> links_get (queue_empty h) w = Some (bool_decide (xs = []), w).
Proof. intros H. apply links_get_run. by apply empty_spec. Qed.

Lemma get_task_run q w t : tasks w !! q = Some t -> get_task q w = Some (t, w).
Proof. intros H. unfold get_task. by rewrite H. Qed.

(** Takes one step of a sequence, with a lemma for its first command. *)
Ltac run_with H := erewrite bind_run by (first [exact H | eapply H]; eauto); cbv beta.

(** ** Who owns the nodes

    [fr] are the nodes in the free queue, [out] those with responses to send, [fly] those whose
    request some other thread handles. *)

Definition clean (t : task) : Prop := data t = nullptr \/ data_len t <= 0.

Record owns (w : world) (c : nn_conn) (fr out fly : list ptr) : Prop := {
  o_mc : mc w = Some c;
  o_free : is_queue (lk w) (free_head c) fr;
  o_out : is_queue (lk w) (out_head c) out;
  o_nodup : NoDup (free_head c :: out_head c :: fr ++ out ++ fly);
  o_null : nullptr ∉ fr ++ out ++ fly;
  o_cells : forall q, q ∈ fly -> allocated (lk w) q;
  o_tasks : forall q, q ∈ out ++ fly -> is_Some (tasks w !! q);
  o_clean : forall q, q ∈ fr -> exists t, tasks w !! q = Some t /\ clean t;
  o_count : count c = Z.of_nat (length (out ++ fly));
  o_max : max_task c = Z.of_nat (length (fr ++ out ++ fly));
  o_small : max_task c < 2 ^ 31
}.

Lemma nodes_bound m xs : NoDup xs -> (forall q, q ∈ xs -> allocated m q) -> (length xs <= size (l_next m))%nat.
Proof.
  intros Hnd Ha. rewrite <- (size_list_to_set (C := gset ptr) xs Hnd). rewrite <- size_dom. apply subseteq_size.
  intros q Hq%elem_of_list_to_set. apply elem_of_dom. by apply Ha.
Qed.

Lemma owns_fuel w c fr out fly : owns w c fr out fly -> (length (fr ++ out ++ fly) <= size (l_next (lk w)))%nat.
Proof.
  intros O. apply nodes_bound; [pose proof (o_nodup _ _ _ _ _ O) as H; rewrite !NoDup_cons in H; tauto |].
  intros q. rewrite !elem_of_app. intros [Hq | [Hq | Hq]].
  - eapply is_queue_allocated; [apply (o_free _ _ _ _ _ O) | by right].
  - eapply is_queue_allocated; [apply (o_out _ _ _ _ _ O) | by right].
  - by apply (o_cells _ _ _ _ _ O).
Qed.

Lemma same_off_alloc S m m' x : same_off S m m' -> x ∉ S -> allocated m x -> allocated m' x.
Proof. intros H Hx [H1 H2]. destruct (H x Hx) as [E1 E2]. split; [by rewrite E1 | by rewrite E2]. Qed.

(** Taking a node. *)
Lemma get_task_spec w c q fr out fly :
  owns w c (q :: fr) out fly ->
  exists m, nn_conn_get_task w = Some (q, with_mc (Some (with_count (count c + 1) c)) (with_lk m w)) /\
    owns (with_mc (Some (with_count (count c + 1) c)) (with_lk m w)) (with_count (count c + 1) c) fr out (fly ++ [q]).
Proof.
  intros [Hmc Hfr Hout Hnd Hnull Hcells Htasks Hclean Hcount Hmax Hsmall].
  destruct (remove_spec _ _ [] q fr Hfr) as (m & Hm & Hq & Hoff & Hn & Hp). cbn [app] in *.
  assert ((max_task c <=? count c) = false) as Hle by (apply Z.leb_gt; rewrite Hcount, Hmax; cbn [length]; rewrite !length_app; lia).
  assert (s32 (count c + 1) = count c + 1) as Hs.
  { apply s32_small. unfold is_s32. cbn [length] in Hmax. rewrite !length_app in *. lia. }
  exists m. split.
  - unfold nn_conn_get_task. run_with (get_mc_run w c). rewrite Hle.
    run_with head_run. cbn [succ_of List.hd].
    run_with links_op_run. run_with put_mc_run. rewrite Hs. done.
  - assert (forall x, x ∈ out_head c :: out ++ fly -> x ∉ free_head c :: q :: fr) as Hsep.
    { intros x Hx Hx2. clear - Hnd Hx Hx2. rewrite !NoDup_cons, !NoDup_app in Hnd. set_solver. }
    assert (fr ++ out ++ fly ++ [q] ≡ₚ q :: fr ++ out ++ fly) as Hperm by (rewrite !app_assoc; by rewrite <- Permutation_cons_append).
    split; cbn [mc lk tasks with_mc with_lk free_head out_head count max_task with_count].
    + done.
    + done.
    + eapply is_queue_frame; [exact Hoff | | exact Hout]. intros x Hx. apply Hsep. set_solver.
    + rewrite Hperm. exact Hnd.
    + rewrite Hperm. exact Hnull.
    + intros x [Hx | ->%list_elem_of_singleton]%elem_of_app; [|by split; eexists].
      eapply same_off_alloc; [exact Hoff | | by apply Hcells]. apply Hsep. set_solver.
    + intros x Hx. rewrite app_assoc in Hx. apply elem_of_app in Hx as [Hx | ->%list_elem_of_singleton]; [by apply Htasks |].
      destruct (Hclean q) as (t & Ht & _); [by left | by exists t].
    + intros x Hx. apply Hclean. by right.
    + rewrite Hcount, !length_app. cbn. lia.
    + rewrite Hmax, Hperm. done.
    + done.
Qed.

Lemma get_task_none w c out fly : owns w c [] out fly -> nn_conn_get_task w = Some (nullptr, w).
Proof.
  intros O. pose proof (o_mc _ _ _ _ _ O) as Hmc. unfold nn_conn_get_task. run_with get_mc_run.
  rewrite (o_count _ _ _ _ _ O), (o_max _ _ _ _ _ O), Z.leb_refl. done.
Qed.

(** What [free_payload] leaves of a node and of the blocks. *)
Definition released (q : ptr) (t : task) (w : world) : world :=
  if negb (bool_decide (data t = nullptr)) && (0 <? data_len t) then
    with_task q (with_data nullptr t) (with_blocks (blocks w ∖ {[data t]}) w) else w.

(** The payload of a task may be freed. *)
Definition freeable (w : world) (t : task) : Prop := data t <> nullptr -> 0 < data_len t -> data t ∈ blocks w.

Lemma free_payload_run q t w : tasks w !! q = Some t -> freeable w t -> free_payload q w = Some (tt, released q t w).
Proof.
  intros Ht Hf. unfold free_payload, released. run_with get_task_run.
  case_bool_decide as Hd; cbn [negb andb]; [done |]. destruct (Z.ltb_spec 0 (data_len t)); [|done].
  erewrite bind_run; [reflexivity |]. unfold free. by rewrite bool_decide_true by auto.
Qed.

Lemma released_fields q t w :
  mem (released q t w) = mem w /\ lk (released q t w) = lk w /\ mc (released q t w) = mc w /\ calls (released q t w) = calls w /\
  rx_bytes (released q t w) = rx_bytes w /\ tx_bytes (released q t w) = tx_bytes w /\ hand (released q t w) = hand w /\
  log (released q t w) = log w /\ (forall x, x <> q -> tasks (released q t w) !! x = tasks w !! x) /\
  (forall b, b <> data t -> b ∈ blocks w -> b ∈ blocks (released q t w)).
Proof. unfold released. destruct (_ && _); repeat split; try done; intros; cbn; [by apply lookup_insert_ne | set_solver]. Qed.

Lemma released_task q t w : tasks w !! q = Some t -> exists t', tasks (released q t w) !! q = Some t' /\ clean t'.
Proof.
  intros Ht. unfold released. destruct (_ && _) eqn:E; cbn; [rewrite lookup_insert_eq; eexists; split; [done | by left] |].
  exists t. split; [done |]. apply andb_false_iff in E as [E | E]; [left | right].
  - apply negb_false_iff in E. by apply bool_decide_eq_true in E.
  - by apply Z.ltb_ge in E.
Qed.

Lemma released_mc q t w x : released q t (with_mc x w) = with_mc x (released q t w).
Proof. unfold released. by destruct (_ && _). Qed.

(** Giving a node back. *)
Lemma free_task_run fin w c l1 q l2 fr out t :
  owns w c fr out (l1 ++ q :: l2) -> tasks w !! q = Some t -> freeable w t ->
  exists m, free_task_with fin q w =
      (if (state c =? ST_DISCONNCECTED) && (count c - 1 =? 0) then fin else mret tt)
        (with_mc (Some (with_count (count c - 1) c)) (with_lk m (released q t w))) /\
    owns (with_mc (Some (with_count (count c - 1) c)) (with_lk m (released q t w))) (with_count (count c - 1) c) (fr ++ [q]) out (l1 ++ l2).
Proof.
  intros [Hmc Hfr Hout Hnd Hnull Hcells Htasks Hclean Hcount Hmax Hsmall] Ht Hf.
  destruct (released_fields q t w) as (Em & El & Ec & _ & _ & _ & _ & _ & Eo & _).
  assert (allocated (lk w) q) as Hq by (apply Hcells; apply elem_of_app; right; by left).
  destruct (init_spec _ _ Hq) as (m1 & Hm1 & Hq1 & Hoff1).
  assert (fr ++ out ++ l1 ++ q :: l2 ≡ₚ q :: fr ++ out ++ l1 ++ l2) as Hperm.
  { rewrite !app_assoc. by rewrite <- Permutation_middle. }
  rewrite Hperm in Hnd, Hnull, Hmax.
  assert (is_queue m1 (free_head c) fr) as Hfr1.
  { eapply is_queue_frame; [exact Hoff1 | | exact Hfr]. intros x Hx ->%list_elem_of_singleton. clear - Hnd Hx. rewrite !NoDup_cons in Hnd. set_solver. }
  destruct (insert_tail_spec _ _ _ q Hfr1) as (m2 & Hm2 & Hq2 & Hoff2).
  { intros Hx. clear - Hnd Hx. rewrite !NoDup_cons in Hnd. set_solver. }
  { eapply is_queue_allocated; [exact Hq1 | by left]. }
  assert (s32 (count c - 1) = count c - 1) as Hs.
  { apply s32_small. unfold is_s32. rewrite !length_app in *. cbn [length] in *. rewrite !length_app in *. lia. }
  assert (forall x, x ∈ out_head c :: out ++ l1 ++ l2 -> x ∉ q :: free_head c :: fr) as Hsep.
  { intros x Hx Hx2. clear - Hnd Hx Hx2. rewrite !NoDup_cons, !NoDup_app in Hnd. set_solver. }
  exists m2. split.
  - unfold free_task_with. run_with put_mc_run. rewrite Hs. run_with free_payload_run. rewrite released_mc.
    rewrite <- El in Hm1. run_with links_op_run.
    run_with get_mc_run. cbn [free_head with_count].
    run_with links_op_run. run_with get_mc_run. done.
  - split; cbn [mc lk tasks with_mc with_lk free_head out_head count max_task with_count].
    + done.
    + done.
    + eapply is_queue_frame; [exact Hoff2 | intros x Hx; apply Hsep; set_solver |].
      eapply is_queue_frame; [exact Hoff1 | | exact Hout]. intros x Hx ->%list_elem_of_singleton. eapply Hsep; [|left]. set_solver.
    + assert ((fr ++ [q]) ++ out ++ l1 ++ l2 ≡ₚ q :: fr ++ out ++ l1 ++ l2) as -> by (rewrite <- app_assoc; by rewrite Permutation_middle).
      exact Hnd.
    + assert ((fr ++ [q]) ++ out ++ l1 ++ l2 ≡ₚ q :: fr ++ out ++ l1 ++ l2) as -> by (rewrite <- app_assoc; by rewrite Permutation_middle).
      exact Hnull.
    + intros x Hx. eapply same_off_alloc; [exact Hoff2 | apply Hsep; set_solver |].
      eapply same_off_alloc; [exact Hoff1 | | apply Hcells; set_solver]. intros ->%list_elem_of_singleton. eapply Hsep; [|left]. set_solver.
    + intros x Hx. rewrite Eo; [apply Htasks; set_solver |]. intros ->. eapply Hsep; [|left]. set_solver.
    + intros x [Hx | ->%list_elem_of_singleton]%elem_of_app; [|by apply released_task]. rewrite Eo; [by apply Hclean |].
      intros ->. clear - Hnd Hx. rewrite !NoDup_cons in Hnd. set_solver.
    + rewrite Hcount, !length_app. cbn. lia.
    + rewrite Hmax, <- app_assoc. cbn [app]. by rewrite <- Permutation_middle.
    + done.
Qed.

Lemma free_task_spec fin w c l1 q l2 fr out t :
  owns w c fr out (l1 ++ q :: l2) -> state c = ST_CONNCECTED -> tasks w !! q = Some t -> freeable w t ->
  exists m, free_task_with fin q w = Some (tt, with_mc (Some (with_count (count c - 1) c)) (with_lk m (released q t w))) /\
    owns (with_mc (Some (with_count (count c - 1) c)) (with_lk m (released q t w))) (with_count (count c - 1) c) (fr ++ [q]) out (l1 ++ l2).
Proof.
  intros O Hst Ht Hf. destruct (free_task_run fin w c l1 q l2 fr out t O Ht Hf) as (m & Hrun & O'). exists m. split; [|done].
  rewrite Hrun, Hst. done.
Qed.

(** ** Receiving *)

(** What the documentation of [recv] promises, and that it is not interrupted [patience] times
    in a row. *)
Definition recv_ok : Prop :=
  (forall k n l, recv k n = RData l -> l <> [] /\ Z.of_nat (length l) <= n) /\
  (forall k n, exists j, (j < patience)%nat /\ recv (k + j) n <> RIntr).

(** A world after input and output. *)
Definition io (m : memory) (k : nat) (rx tx : list Z) (w : world) : world :=
  {| mem := m; lk := lk w; tasks := tasks w; blocks := blocks w; mc := mc w; calls := k; rx_bytes := rx_bytes w ++ rx;
     tx_bytes := tx_bytes w ++ tx; hand := hand w; log := log w |}.

Lemma io_io m k rx tx m' k' rx' tx' w : io m' k' rx' tx' (io m k rx tx w) = io m' k' (rx ++ rx') (tx ++ tx') w.
Proof. unfold io. cbn. by rewrite !app_assoc. Qed.

Lemma recv_loop_spec (Hok : recv_ok) p size fuel w :
  (exists j, (j < fuel)%nat /\ recv (calls w + j) size <> RIntr) -> 0 < size -> valid (mem w) p (Z.to_nat size) ->
  exists n l m k, recv_loop fuel p size w = Some (n, io m k l [] w) /\
    (l <> [] /\ n = Z.of_nat (length l) /\ n <= size /\ holds m p l /\ only_changes p (Z.to_nat size) (mem w) m \/
     l = [] /\ m = mem w /\ (n = 0 \/ n = NGX_AGAIN \/ n = NGX_ERROR)).
Proof.
  intros Hj Hs. revert w Hj. induction fuel as [|fuel IH]; intros w (j & Hj & Hr) Hv; [lia |]. cbn [recv_loop].
  destruct (recv (calls w) size) as [l | | | |] eqn:E.
  - destruct (proj1 Hok _ _ _ E) as [Hne Hl]. destruct (store_spec (mem w) p l) as (m & Hm & Hh & Ho).
    { rewrite <- (at_0 p). eapply valid_sub; [exact Hv | lia]. }
    rewrite Hm. cbn [mbind option_bind]. exists (Z.of_nat (length l)), l, m, (S (calls w)). split; [done |]. left.
    repeat (split; [done |]). eapply only_changes_wider; [exact Ho | done | unfold at_; lia].
  - exists 0, [], (mem w), (S (calls w)). split; [by unfold io, one_call |]. right. auto.
  - destruct (IH (one_call [] [] w)) as (n & l & m & k & Hn & H).
    + destruct j as [|j]; [by rewrite Nat.add_0_r in Hr |]. exists j. split; [lia |]. cbn. by rewrite <- Nat.add_succ_comm in Hr.
    + done.
    + exists n, l, m, k. split; [|done]. rewrite Hn. unfold io, one_call. cbn. by rewrite !app_nil_r.
  - exists NGX_AGAIN, [], (mem w), (S (calls w)). split; [by unfold io, one_call |]. right. auto.
  - exists NGX_ERROR, [], (mem w), (S (calls w)). split; [by unfold io, one_call |]. right. auto.
Qed.

(** The buffers of the connection and their contents. *)
Definition apart (b1 b2 : buffer) : Prop := (end_ b1 <= start b2)%N \/ (end_ b2 <= start b1)%N.

Record bufs (w : world) (c : nn_conn) (lin lout : list Z) : Prop := {
  in_content : content (mem w) (m_in c) lin;
  out_content : content (mem w) (m_out c) lout;
  bufs_apart : apart (m_in c) (m_out c);
  in_placed : (0 < start (m_in c) < end_ (m_in c))%N
}.

Lemma content_frame m m' b l p n :
  content m b l -> only_changes p n m m' -> (at_ p n <= start b)%N \/ (end_ b <= p)%N -> content m' b l.
Proof.
  intros [[Hm [[O1 O2] O3] Hs Hv] Hh Hl] Ho Hd. split; [|eapply only_changes_holds; [exact Ho | | exact Hh]; unfold at_, minus in *; lia | done].
  split; [done | done | done | by eapply only_changes_valid].
Qed.

(** Writing into one buffer leaves the other alone. *)
Lemma apart_content m m' b1 l1 b2 l2 :
  content m b1 l1 -> content m b2 l2 -> apart b1 b2 -> only_changes (start b1) (Z.to_nat (room b1)) m m' -> content m' b2 l2.
Proof.
  intros H1 H2 Ha Ho. eapply content_frame; [exact H2 | exact Ho |]. pose proof (b_order _ _ (c_ok _ _ _ H1)).
  unfold apart, at_, room, minus in *. lia.
Qed.

Lemma apart_sym b1 b2 : apart b1 b2 -> apart b2 b1.
Proof. unfold apart. tauto. Qed.

Lemma free_valid m b l : content m b l -> valid m (last b) (Z.to_nat (buffer_free_size b)).
Proof.
  intros [[_ [[O1 O2] O3] Hs Hv] _ _]. replace (last b) with (at_ (start b) (N.to_nat (last b - start b))) at 1 by (unfold at_; lia).
  eapply valid_sub; [exact Hv |]. unfold buffer_free_size, minus in *. lia.
Qed.

(** The receive loop stops with the bytes it got behind those that were there. *)
Lemma conn_recv_loop_spec (Hok : recv_ok) c kk fuel : forall w lin b,
  mc w = Some (with_in b c) -> connection c = Some kk -> content (mem w) b lin -> (0 < start b)%N -> 
  (Z.to_nat (room b) < length lin + fuel)%nat ->
  exists rc bs b' m k, conn_recv_loop fuel w = Some (rc, io m k bs [] (with_mc (Some (with_in b' c)) w)) /\
    content m b' (lin ++ bs) /\ same_place b b' /\ only_changes (start b) (Z.to_nat (room b)) (mem w) m /\
    (rc = NGX_AGAIN \/ rc = NGX_BUFFER_FULL \/ rc = NGX_CONN_CLOSED \/ rc = NGX_ERROR).
Proof.
  induction fuel as [|fuel IH]; intros w lin b Hmc Hk Hc Hp Hf; [pose proof (content_room _ _ _ Hc); lia |].
  cbn [conn_recv_loop]. destruct (shrink_spec _ _ _ Hc) as (b1 & m1 & Hb1 & Hc1 & Hpos & (Hst & He & Htmp) & Ho1).
  assert (in_buffer buffer_shrink w = Some (tt, with_mem m1 (with_mc (Some (with_in b1 c)) w))) as Hin.
  { unfold in_buffer. rewrite Hmc. cbn [mbind option_bind m_in with_in]. by rewrite Hb1. }
  run_with Hin. set (w1 := with_mem m1 (with_mc (Some (with_in b1 c)) w)). run_with (get_mc_run w1). cbn [m_in with_in].
  assert (buffer_free_size b1 = room b - Z.of_nat (length lin)) as Hfree.
  { pose proof (c_length _ _ _ Hc1). unfold buffer_free_size, room, minus in *. rewrite Hpos in *. lia. }
  destruct (Z.eqb_spec (buffer_free_size b1) 0) as [Hz | Hz].
  - exists NGX_BUFFER_FULL, [], b1, m1, (calls w). split; [unfold mret, M_ret, io, w1; cbn; by rewrite !app_nil_r |].
    rewrite app_nil_r. split; [done |]. split; [done |]. split; [done |]. auto.
  - pose proof (content_room _ _ _ Hc1) as Hroom. pose proof (b_order _ _ (c_ok _ _ _ Hc1)) as Hord.
    assert (0 < buffer_free_size b1) as Hpos1 by (unfold buffer_free_size, minus in *; lia).
    run_with (get_conn_run w1).
    destruct (recv_loop_spec Hok (last b1) (buffer_free_size b1) patience w1) as (n & l & m & k & Hn & Hcase);
      [apply Hok | done | by eapply free_valid |].
    assert (sysio_unix_recv (last b1) (buffer_free_size b1) w1 = Some (n, io m k l [] w1)) as Hr.
    { unfold sysio_unix_recv. rewrite bool_decide_false; [done |]. unfold nullptr. lia. }
    run_with Hr. destruct Hcase as [(Hne & En & Hle & Hh & Ho2) | (-> & -> & En)].
    + assert (0 < n) as Hnpos by (destruct l; [done | cbn [length] in En; lia]). destruct (Z.ltb_spec 0 n); [|lia].
      run_with put_mc_run. cbn [m_in with_in]. set (b2 := buffer_used b1 n).
      set (w2 := with_mc (Some (with_in b2 (with_in b1 c))) (io m k l [] w1)).
      assert (content m b2 (lin ++ l)) as Hc2 by (unfold b2; rewrite En; apply (used_content m1); [done | done | lia | done]).
      destruct (IH w2 (lin ++ l) b2) as (rc & bs & b3 & m3 & k3 & Hrun & Hc3 & (Hst3 & He3 & Htmp3) & Ho3 & Hrc); [done | done | done | | |].
      { cbn. by rewrite Hst. }
      { unfold room in *. cbn. rewrite Hst, He, length_app. destruct l; [done |]. cbn [length]. lia. }
      exists rc, (l ++ bs), b3, m3, k3. split; [|split; [by rewrite app_assoc | split; [|split; [|done]]]].
      * rewrite Hrun. f_equal. f_equal. unfold w2, w1, io. cbn. by rewrite !app_nil_r, <- !app_assoc.
      * unfold b2 in Hst3, He3, Htmp3. cbn in Hst3, He3, Htmp3. repeat split; congruence.
      * eapply only_changes_trans; [exact Ho1 |]. eapply only_changes_trans; [eapply only_changes_wider; [exact Ho2 | lia |]|].
        -- unfold at_, room, buffer_free_size, minus in *. lia.
        -- unfold room in *. cbn in Ho3. by rewrite Hst, He in Ho3.
    + assert (n = 0 \/ n = NGX_AGAIN \/ n = NGX_ERROR) as Hcases by done.
      exists (if n =? 0 then NGX_CONN_CLOSED else n), [], b1, m1, k. split.
      * destruct En as [-> | [-> | ->]]; cbn; unfold mret, M_ret, io, w1; cbn; by rewrite !app_nil_r.
      * rewrite app_nil_r. split; [done |]. split; [done |]. split; [done |]. destruct En as [-> | [-> | ->]]; cbn; auto.
Qed.

Lemma recv_spec (Hok : recv_ok) w c kk lin lout :
  mc w = Some c -> connection c = Some kk -> bufs w c lin lout ->
  exists rc bs b m k, nn_conn_recv w = Some (rc, io m k bs [] (with_mc (Some (with_in b c)) w)) /\
    bufs (io m k bs [] (with_mc (Some (with_in b c)) w)) (with_in b c) (lin ++ bs) lout /\
    same_place (m_in c) b /\ only_changes (start (m_in c)) (Z.to_nat (room (m_in c))) (mem w) m /\
    (rc = NGX_AGAIN \/ rc = NGX_BUFFER_FULL \/ rc = NGX_CONN_CLOSED \/ rc = NGX_ERROR).
Proof.
  intros Hmc Hk [Hin Hout Hap Hp]. unfold nn_conn_recv. run_with get_mc_run.
  assert (c = with_in (m_in c) c) as Ec by (by destruct c).
  destruct (conn_recv_loop_spec Hok c kk (S (S (Z.to_nat (room (m_in c))))) w lin (m_in c)) as (rc & bs & b & m & k & Hrun & Hc & (Hst & He & Ht) & Ho & Hrc);
    [by rewrite <- Ec | done | done | lia | lia |].
  exists rc, bs, b, m, k. split; [exact Hrun |]. split; [|done]. split; cbn.
  - done.
  - exact (apart_content _ _ _ _ _ _ Hin Hout Hap Ho).
  - unfold apart. by rewrite Hst, He.
  - by rewrite Hst, He.
Qed.

(** ** Decoding and dispatching *)

Definition frames (ms : list message) : list Z := concat (map (fun r => frame r.1 r.2) ms).

(** A message as it travels. *)
Definition wire (r : message) : Prop := task_ok r.1 /\ data_len r.1 = Z.of_nat (length r.2).

(** What may follow the complete frames in the receive buffer: nothing, or a frame that has
    begun, with its length. *)
Definition begun (p : list Z) : Prop :=
  p = [] \/ exists t d, task_ok t /\ 344 + Z.of_nat (length d) < 2 ^ 31 /\ partial p t d.

(** What was dispatched is the message: its task is that of the message but for the two fields
    the receiver sets, and its [data] pointed to the payload of the message. *)
Definition arrived (e r : message) : Prop := with_data (data r.1) (with_opq (opq r.1) e.1) = r.1 /\ e.2 = r.2.

Lemma received_arrived m b o t d rest : content m b (frame t d ++ rest) -> task_ok t -> data_len t = Z.of_nat (length d) ->
  arrived (received o (at_ (pos b) 344) t d, payload_now m (received o (at_ (pos b) 344) t d)) (t, d).
Proof.
  intros Hc Ht Hl. split; cbn [fst snd]; [unfold received; by destruct t, d |]. unfold payload_now. destruct d as [|x d]; [unfold received; cbn; by rewrite Hl |].
  assert (data_len (received o (at_ (pos b) 344) t (x :: d)) = Z.of_nat (length (x :: d))) as -> by exact Hl.
  change (data (received o (at_ (pos b) 344) t (x :: d))) with (at_ (pos b) 344).
  destruct (Z.ltb_spec 0 (Z.of_nat (length (x :: d)))) as [_ | Hn]; [|cbn in Hn; lia]. rewrite Nat2Z.id.
  pose proof (c_holds _ _ _ Hc) as H. apply holds_app in H as [H _]. unfold frame in H. rewrite app_assoc in H. pose proof (length_frame t (x :: d) Ht) as Hf.
  unfold frame in Hf. rewrite !length_app in Hf.
  rewrite app_assoc in H. apply holds_app in H as [_ H]. rewrite !length_app in H.
  match type of H with holds _ (at_ _ ?n) _ => replace n with 344%nat in H by lia end. apply load_holds in H. by rewrite H.
Qed.

Definition push_all (h : handoff) (es : list (ptr * message)) : handoff := foldl push_node h es.

Lemma sent_push_all es : forall h, sent (push_all h es) = sent h ++ es.
Proof. induction es as [|e es IH]; intros h; cbn; [by rewrite app_nil_r |]. rewrite IH. cbn. by rewrite <- app_assoc. Qed.

Lemma push_all_app h es1 es2 : push_all h (es1 ++ es2) = push_all (push_all h es1) es2.
Proof. unfold push_all. by rewrite foldl_app. Qed.

(** Every thread's batches, each read backwards, and its queue, read backwards, are the nodes
    sent to it in the order they were sent. *)
Definition in_turn (h : handoff) : Prop :=
  forall i b q, batches h !! i = Some b -> tqs h !! i = Some q ->
    concat (reverse <$> b) ++ reverse q = (filter (fun e => thread_of (length (tqs h)) e.2.1 = i) (sent h)).*1.

Definition hand_ok (h : handoff) : Prop := tqs h <> [] /\ length (batches h) = length (tqs h) /\ in_turn h.

Lemma tqs_push h e : length (tqs (push_node h e)) = length (tqs h).
Proof. cbn. apply length_alter. Qed.

Lemma push_ne h e : tqs h <> [] -> tqs (push_node h e) <> [].
Proof. intros H E. pose proof (tqs_push h e) as L. rewrite E in L. by destruct (tqs h). Qed.

Lemma thread_of_lt n t : (0 < n)%nat -> (thread_of n t < n)%nat.
Proof. intros Hn. unfold thread_of. pose proof (Z.mod_pos_bound (u32 (hash_task_key (key t))) (Z.of_nat n)). lia. Qed.

Lemma hand_ok_push h e : hand_ok h -> hand_ok (push_node h e).
Proof.
  intros (Hne & Hl & Ht). split; [by apply push_ne |]. split; [rewrite tqs_push; exact Hl |]. intros i b q Hb Hq. rewrite tqs_push. cbn [push_node sent batches tqs] in *.
  rewrite filter_app, fmap_app. destruct (decide (thread_of (length (tqs h)) e.2.1 = i)) as [E | E].
  - rewrite E, list_lookup_alter_eq in Hq. apply fmap_Some in Hq as (q0 & Hq0 & ->). rewrite filter_cons_True by done.
    rewrite reverse_cons, app_assoc, (Ht i b q0) by done. done.
  - rewrite list_lookup_alter_ne in Hq by done. rewrite filter_cons_False by done. rewrite (Ht i b q) by done. symmetry. apply app_nil_r.
Qed.

Lemma hand_ok_push_all es : forall h, hand_ok h -> hand_ok (push_all h es).
Proof. induction es as [|e es IH]; intros h H; [done |]. by apply IH, hand_ok_push. Qed.

Lemma hand_ok_take i h : hand_ok h -> hand_ok (take_batch i h).
Proof.
  intros (Hne & Hl & Ht). unfold take_batch. destruct (tqs h !! i) as [q|] eqn:Eq; [|done].
  assert (length (<[i := []]> (tqs h)) = length (tqs h)) as El by apply length_insert. split; [|split].
  - cbn [tqs]. intros E. rewrite E in El. by destruct (tqs h).
  - cbn. by rewrite length_alter, El.
  - intros j b q' Hb Hq. cbn [sent tqs batches] in *. rewrite El. destruct (decide (j = i)) as [-> | Hji].
    + rewrite list_lookup_alter_eq in Hb. apply fmap_Some in Hb as (b0 & Hb0 & ->).
      rewrite list_lookup_insert_eq in Hq by (by eapply lookup_lt_Some). injection Hq as <-. rewrite fmap_app, concat_app, reverse_nil, app_nil_r. cbn [fmap list_fmap concat]. rewrite app_nil_r. by apply Ht.
    + rewrite list_lookup_alter_ne in Hb by done. rewrite list_lookup_insert_ne in Hq by done. by apply Ht.
Qed.

Lemma sent_take i h : sent (take_batch i h) = sent h.
Proof. unfold take_batch. by destruct (tqs h !! i). Qed.

Lemma frames_cons r ms : frames (r :: ms) = frame r.1 r.2 ++ frames ms.
Proof. done. Qed.

Lemma frames_app l1 l2 : frames (l1 ++ l2) = frames l1 ++ frames l2.
Proof. unfold frames. by rewrite map_app, concat_app. Qed.

Lemma released_clean q t w : clean t -> released q t w = w.
Proof.
  intros [Hd | Hd]; unfold released; [by rewrite bool_decide_true | ].
  destruct (Z.ltb_spec 0 (data_len t)); [lia |]. by rewrite andb_false_r.
Qed.

Lemma content_partial m b p t : content m b p -> begun p -> task_decode b t m = Some (NGX_AGAIN, b, t).
Proof.
  intros Hc [-> | (t0 & d & Ht & Hd & Hp)]; [|by eapply decode_partial].
  unfold task_decode. rewrite (buffer_size_content _ _ _ Hc). done.
Qed.

Lemma owns_in w c fr out fly b m :
  owns w c fr out fly -> owns (with_mem m (with_mc (Some (with_in b c)) w)) (with_in b c) fr out fly.
Proof. intros []. by split. Qed.

(** Everything about the world that decoding leaves alone. *)
Record untouched (out : list ptr) (w w' : world) : Prop := {
  u_blocks : blocks w' = blocks w; u_rx : rx_bytes w' = rx_bytes w; u_tx : tx_bytes w' = tx_bytes w;
  u_tasks : forall q, q ∈ out -> tasks w' !! q = tasks w !! q
}.

Lemma untouched_trans out w1 w2 w3 : untouched out w1 w2 -> untouched out w2 w3 -> untouched out w1 w3.
Proof. intros [] []. split; try congruence. intros q Hq. rewrite <- u_tasks0 by done. auto. Qed.

(** The fields of the connection that decoding leaves alone. *)
Definition same_conn (c c' : nn_conn) : Prop :=
  connection c' = connection c /\ m_out c' = m_out c /\ out_head c' = out_head c /\ free_head c' = free_head c /\
  max_task c' = max_task c /\ state c' = state c /\ write_event_handler c' = write_event_handler c /\ same_place (m_in c) (m_in c').

Lemma same_conn_trans c1 c2 c3 : same_conn c1 c2 -> same_conn c2 c3 -> same_conn c1 c3.
Proof.
  intros (? & ? & ? & ? & ? & ? & ? & ? & ? & ?) (? & ? & ? & ? & ? & ? & ? & ? & ? & ?). repeat split; congruence.
Qed.

Lemma with_task_id q t w : tasks w !! q = Some t -> with_task q t w = w.
Proof. intros H. unfold with_task. rewrite insert_id by done. by destruct w. Qed.

(** The nodes [fr1] left with the requests [ts1]; the loop ends when no free node is left, or
    when no complete frame is. *)
Lemma decode_loop_spec fuel : forall w c kk fr out fly ts p lout,
  owns w c fr out fly -> connection c = Some kk -> state c = ST_CONNCECTED ->
  bufs w c (frames ts ++ p) lout -> Forall wire ts -> begun p -> tqs (hand w) <> [] -> (length fr < fuel)%nat ->
  exists ts1 ts2 fr1 fr2 es w' c' rc, decode_loop fuel w = Some (rc, w') /\
    ts = ts1 ++ ts2 /\ length fr1 = length ts1 /\
    (fr = fr1 /\ fr2 = [] /\ rc = NGX_BUSY \/ (exists q k, fr = fr1 ++ q :: k /\ fr2 = k ++ [q]) /\ ts2 = [] /\ rc = NGX_AGAIN) /\
    owns w' c' fr2 out (fly ++ fr1) /\ bufs w' c' (frames ts2 ++ p) lout /\ same_conn c c' /\ untouched out w w' /\
    only_changes (start (m_in c)) (Z.to_nat (room (m_in c))) (mem w) (mem w') /\
    hand w' = push_all (hand w) es /\ es.*1 = fr1 /\ Forall2 (fun e r => arrived e.2 r) es ts1.
Proof.
  induction fuel as [|fuel IH]; intros w c kk fr out fly ts p lout O Hk Hst B Hts Hp Hth Hf; [lia |].
  pose proof (o_mc _ _ _ _ _ O) as Hmc. cbn [decode_loop]. destruct fr as [|q fr].
  - run_with (get_task_none w c out fly). rewrite bool_decide_true by done.
    run_with put_mc_run. run_with (get_conn_run (with_mc (Some (with_slow 1 c)) w)).
    erewrite bind_run by reflexivity. run_with put_mc_run. erewrite bind_run by reflexivity.
    exists [], ts, [], [], []. eexists _, (with_timer true (with_slow 1 c)), _. split; [reflexivity |]. split; [done |]. split; [done |]. split; [by left |].
    split; [|split; [|split; [|split; [|split; [|split; [|split]]]]]]; try done.
    + destruct O. rewrite app_nil_r. by split.
    + destruct B. by split.
  - destruct (get_task_spec w c q fr out fly O) as (m & Hget & O1). run_with Hget.
    rewrite bool_decide_false. 2: { intros ->. apply (o_null _ _ _ _ _ O). by left. }
    destruct (o_tasks _ _ _ _ _ O1 q) as [told Htold]; [set_solver |].
    set (w1 := with_mc _ (with_lk m w)) in *. set (c1 := with_count (count c + 1) c) in *.
    assert (bufs w1 c1 (frames ts ++ p) lout) as B1 by (destruct B; by split).
    destruct ts as [|[t d] ts].
    + cbn [frames map concat app] in B1. 
      assert (decode_into q w1 = Some (NGX_AGAIN, with_task q told w1)) as Hdec.
      { unfold decode_into. change (mc w1) with (Some c1). cbn [mbind option_bind]. rewrite Htold. cbn [mbind option_bind].
        by rewrite (content_partial _ _ p) by (done || apply (in_content _ _ _ _ B1)). }
      rewrite with_task_id in Hdec by done. run_with Hdec. cbv [NGX_AGAIN NGX_OK NGX_ERROR Z.eqb Pos.eqb].
      destruct (o_clean _ _ _ _ _ O q) as (told' & Htold' & Hclean); [by left |].
      assert (told' = told) as -> by (change (tasks w1) with (tasks w) in Htold; congruence).
      destruct (free_task_spec nn_conn_finalize w1 c1 fly q [] fr out told O1 Hst Htold) as (m2 & Hfree & O2).
      { intros Hd Hl. exfalso. destruct Hclean; [done | lia]. }
      rewrite released_clean in Hfree, O2 by done. run_with Hfree.
      set (c2 := with_count (count c1 - 1) c1) in *. set (w2 := with_mc (Some c2) (with_lk m2 w1)) in *.
      destruct (shrink_spec _ _ _ (in_content _ _ _ _ B1)) as (b3 & m3 & Hb3 & Hc3 & Hpos & Hpl & Ho3).
      assert (in_buffer buffer_shrink w2 = Some (tt, with_mem m3 (with_mc (Some (with_in b3 c2)) w2))) as Hin.
      { unfold in_buffer. change (mc w2) with (Some c2). cbn [mbind option_bind]. change (m_in c2) with (m_in c1).
        change (mem w2) with (mem w1). by rewrite Hb3. }
      run_with Hin. rewrite app_nil_r in O2.
      exists [], [], [], (fr ++ [q]), []. eexists _, (with_in b3 c2), _. split; [reflexivity |].
      split; [done |]. split; [done |]. split; [right; split; [by exists q, fr | done] |].
      split; [rewrite app_nil_r; by apply owns_in |]. split; [|split; [|split; [|split; [|split; [|split]]]]].
      * destruct B1 as [Bi Bo Ba Bp]. destruct Hpl as (Hs1 & He1 & _). split; cbn.
        -- done.
        -- exact (apart_content _ _ _ _ _ _ Bi Bo Ba Ho3).
        -- unfold apart. by rewrite Hs1, He1.
        -- by rewrite Hs1, He1.
      * done.
      * done.
      * exact Ho3.
      * done.
      * done.
      * done.
    + apply Forall_cons in Hts as [[Htok Hdl] Hts]. cbn [fst snd] in *. rewrite frames_cons, <- app_assoc in B1. cbn [fst snd] in B1.
      destruct (decode_frame _ _ _ _ _ told (in_content _ _ _ _ B1) Htok Hdl) as [Hd Hrest].
      set (b2 := buffer_pull (m_in c1) (344 + Z.of_nat (length d))) in *. set (t2 := received _ _ t d) in *.
      assert (decode_into q w1 = Some (NGX_OK, with_task q t2 (with_mc (Some (with_in b2 c1)) w1))) as Hdec.
      { unfold decode_into. change (mc w1) with (Some c1). cbn [mbind option_bind]. rewrite Htold. cbn [mbind option_bind]. by rewrite Hd. }
      run_with Hdec. cbv [NGX_OK Z.eqb]. set (w2 := with_task q t2 (with_mc (Some (with_in b2 c1)) w1)) in *.
      set (e := (q, (t2, payload_now (mem w2) t2))). set (w3 := with_hand (push_node (hand w2) e) w2).
      assert (dispatch_task q w2 = Some (tt, w3)) as Hdis.
      { unfold dispatch_task. assert (tasks w2 !! q = Some t2) as -> by (cbn; by rewrite lookup_insert_eq). cbn [mbind option_bind].
        change (tqs (hand w2)) with (tqs (hand w)). by destruct (tqs (hand w)). }
      run_with Hdis.
      assert (owns w3 (with_in b2 c1) fr out (fly ++ [q])) as O2.
      { destruct O1 as [P1 P2 P3 P4 P5 P6 P7 P8 P9 P10 P11]. split; try done; cbn.
        - intros x Hx. destruct (decide (x = q)) as [-> | Hne]; [by rewrite lookup_insert_eq; eexists | rewrite lookup_insert_ne by done; by apply P7].
        - intros x Hx. rewrite lookup_insert_ne; [by apply P8 |]. intros ->. clear - P4 Hx. rewrite !NoDup_cons, NoDup_app in P4. set_solver. }
      assert (bufs w3 (with_in b2 c1) (frames ts ++ p) lout) as B2 by (destruct B1; by split).
      destruct (IH _ _ kk fr out (fly ++ [q]) ts p lout O2 Hk Hst B2 Hts Hp (push_ne (hand w2) e Hth)) as (ts1 & ts2 & fr1 & fr2 & es & w' & c' & rc & Hrun & Ets & Hlen & Hend & O' & B' & Hsame & Hun & Hmem & Hdis' & Hes & Hreq);
        [cbn in Hf; lia |].
      exists ((t, d) :: ts1), ts2, (q :: fr1), fr2, (e :: es), w', c', rc. split; [exact Hrun |]. split; [by rewrite Ets |].
      split; [cbn; lia |]. split.
      { destruct Hend as [(-> & ?) | ((q' & k & -> & ?) & ?)]; [by left | right; split; [by exists q', k | done]]. }
      split; [by rewrite <- app_assoc in O' |]. split; [done |]. split; [|split; [|split; [|split; [|split]]]].
      * eapply same_conn_trans; [|exact Hsame]. done.
      * eapply untouched_trans; [|exact Hun]. split; try done. intros x Hx. cbn. rewrite lookup_insert_ne; [done |].
        intros ->. pose proof (o_nodup _ _ _ _ _ O) as Hnd. cbn [app] in Hnd. rewrite !NoDup_cons, !elem_of_app in Hnd. tauto.
      * exact Hmem.
      * by rewrite Hdis'.
      * cbn. by rewrite Hes.
      * constructor; [|done]. exact (received_arrived _ _ _ _ _ _ (in_content _ _ _ _ B1) Htok Hdl).
Qed.

Lemma decode_spec w c kk fr out fly ts p lout :
  owns w c fr out fly -> connection c = Some kk -> state c = ST_CONNCECTED ->
  bufs w c (frames ts ++ p) lout -> Forall wire ts -> begun p -> tqs (hand w) <> [] ->
  exists ts1 ts2 fr1 fr2 es w' c' rc, nn_conn_decode w = Some (rc, w') /\
    ts = ts1 ++ ts2 /\ length fr1 = length ts1 /\
    (fr = fr1 /\ fr2 = [] /\ rc = NGX_BUSY \/ (exists q k, fr = fr1 ++ q :: k /\ fr2 = k ++ [q]) /\ ts2 = [] /\ rc = NGX_AGAIN) /\
    owns w' c' fr2 out (fly ++ fr1) /\ bufs w' c' (frames ts2 ++ p) lout /\ same_conn c c' /\ untouched out w w' /\
    only_changes (start (m_in c)) (Z.to_nat (room (m_in c))) (mem w) (mem w') /\
    hand w' = push_all (hand w) es /\ es.*1 = fr1 /\ Forall2 (fun e r => arrived e.2 r) es ts1.
Proof.
  intros O Hk Hst B Hts Hp Hth. unfold nn_conn_decode. erewrite bind_run by reflexivity.
  eapply decode_loop_spec; try done. pose proof (owns_fuel _ _ _ _ _ O) as Hf. rewrite length_app in Hf. lia.
Qed.

(** ** Responses that wait *)

(** The range of a payload does not meet the buffer. *)
Definition away (b : buffer) (p : ptr) (d : list Z) : Prop := (end_ b <= p)%N \/ (at_ p (length d) <= start b)%N.

(** The payload of the response lies in a block of its own, outside the buffers. *)
Record pend (w : world) (c : nn_conn) (q : ptr) (r : message) : Prop := {
  p_task : tasks w !! q = Some r.1;
  p_send : sendable (mem w) r.1 r.2;
  p_block : r.2 <> [] -> data r.1 <> nullptr /\ data r.1 ∈ blocks w;
  p_away : r.2 <> [] -> away (m_in c) (data r.1) r.2 /\ away (m_out c) (data r.1) r.2
}.

Definition payload (r : message) : option ptr := match r.2 with [] => None | _ => Some (data r.1) end.
Definition payloads (rs : list message) : list ptr := omap payload rs.

Definition pending (w : world) (c : nn_conn) (out : list ptr) (rs : list message) : Prop :=
  Forall2 (pend w c) out rs /\ NoDup (payloads rs).

Lemma payload_some r : r.2 <> [] -> payload r = Some (data r.1).
Proof. unfold payload. by destruct (r.2). Qed.

Lemma in_payloads p rs : p ∈ payloads rs <-> exists r, r ∈ rs /\ r.2 <> [] /\ data r.1 = p.
Proof.
  unfold payloads. rewrite list_elem_of_omap. split.
  - intros (r & Hr & E). exists r. unfold payload in E. destruct (r.2) eqn:E2; [done |]. split; [done |]. split; [done | by injection E].
  - intros (r & Hr & Hne & <-). exists r. split; [done | by apply payload_some].
Qed.

Lemma pend_freeable w c q r : pend w c q r -> freeable w r.1.
Proof.
  intros H _ Hl. destruct (p_block _ _ _ _ H) as [_ ?]; [|done]. pose proof (send_len _ _ _ (p_send _ _ _ _ H)) as E.
  intros E2. rewrite E2 in E. cbn in E. lia.
Qed.

(** A change of the world that keeps a waiting response. *)
Lemma pend_keep w w' c c' q r :
  pend w c q r -> tasks w' !! q = tasks w !! q ->
  (r.2 <> [] -> data r.1 ∈ blocks w -> data r.1 ∈ blocks w') ->
  (r.2 <> [] -> holds (mem w) (data r.1) r.2 -> holds (mem w') (data r.1) r.2) ->
  same_place (m_in c) (m_in c') -> same_place (m_out c) (m_out c') -> pend w' c' q r.
Proof.
  intros [Ht [S1 S2 S3 S4] Hb Ha] E1 E2 E3 (I1 & I2 & _) (J1 & J2 & _). split.
  - by rewrite E1.
  - split; try done. auto.
  - intros Hne. destruct (Hb Hne). auto.
  - intros Hne. destruct (Ha Hne) as [A1 A2]. unfold away in *. rewrite I1, I2, J1, J2. done.
Qed.

Lemma same_place_refl b : same_place b b.
Proof. done. Qed.

(** The payload of another response survives when one is released. *)
Lemma released_pend q (r : message) w c x r' :
  pend w c x r' -> x <> q -> (r.2 <> [] -> r'.2 <> [] -> data r.1 <> data r'.1) -> data_len r.1 = Z.of_nat (length r.2) ->
  pend (released q r.1 w) c x r'.
Proof.
  intros Hp Hx Hd Hl. destruct (released_fields q r.1 w) as (Em & _ & _ & _ & _ & _ & _ & _ & Eo & Eb).
  eapply pend_keep; [exact Hp | by apply Eo | | by rewrite Em | done | done]. intros Hne Hin.
  destruct (decide (r.2 = [])) as [E | E]; [|apply Eb; [intros E2; by apply (Hd E Hne) | done]].
  unfold released. rewrite Hl, E. cbn. by rewrite andb_false_r.
Qed.

(** The environment sees nothing of the step. *)
Record unseen (w w' : world) : Prop := {
  s_calls : calls w' = calls w; s_rx : rx_bytes w' = rx_bytes w; s_tx : tx_bytes w' = tx_bytes w;
  s_hand : hand w' = hand w; s_log : log w' = log w
}.

Lemma unseen_trans w1 w2 w3 : unseen w1 w2 -> unseen w2 w3 -> unseen w1 w3.
Proof. intros [] []. split; congruence. Qed.

(** The first response leaves the queue and its node returns to the free queue. *)
Lemma retire_spec fin w c fr q out fly r rs :
  owns w c fr (q :: out) fly -> state c = ST_CONNCECTED -> pending w c (q :: out) (r :: rs) ->
  exists w', (forall A (f : unit -> M A), (links_op (queue_remove q) ≫= fun _ => free_task_with fin q ≫= f) w = f tt w') /\
    owns w' (with_count (count c - 1) c) (fr ++ [q]) out fly /\ pending w' (with_count (count c - 1) c) out rs /\
    mem w' = mem w /\ unseen w w'.
Proof.
  intros O Hst [Hp Hnd]. apply Forall2_cons in Hp as [Hr Hp]. pose proof (o_nodup _ _ _ _ _ O) as Hnodup.
  destruct (remove_spec _ _ [] q out (o_out _ _ _ _ _ O)) as (m & Hm & Hq2 & Hoff & Hn & Hpv).
  assert (owns (with_lk m w) c fr out (fly ++ [q])) as O1.
  { destruct O as [P1 P2 P3 P4 P5 P6 P7 P8 P9 P10 P11].
    assert (fr ++ out ++ fly ++ [q] ≡ₚ fr ++ (q :: out) ++ fly) as Hperm by (rewrite (app_assoc out), <- Permutation_cons_append; done).
    split; cbn; try done.
    - eapply is_queue_frame; [exact Hoff | | exact P2]. intros x Hx Hx2. clear - P4 Hx Hx2. rewrite !NoDup_cons, !NoDup_app in P4. set_solver.
    - by rewrite Hperm.
    - by rewrite Hperm.
    - intros x [Hx | ->%list_elem_of_singleton]%elem_of_app; [|by split; eexists].
      eapply same_off_alloc; [exact Hoff | | by apply P6]. intros Hx2. clear - P4 Hx Hx2. rewrite !NoDup_cons, !NoDup_app in P4. set_solver.
    - intros x Hx. apply P7. set_solver.
    - rewrite P9, !length_app. cbn. lia.
    - by rewrite P10, Hperm. }
  destruct (free_task_spec fin (with_lk m w) c fly q [] fr out r.1 O1 Hst) as (m2 & Hfree & O2);
    [apply (p_task _ _ _ _ Hr) | exact (pend_freeable _ _ _ _ Hr) |].
  rewrite app_nil_r in O2. set (w2 := with_mc _ _) in *. exists w2.
  destruct (released_fields q r.1 (with_lk m w)) as (Em & _ & _ & Ecl & Er & Etx & Ed & Elg & Eo & Eb).
  split; [|split; [done | split; [split | split; [done | by split]]]].
  - intros A f. run_with links_op_run. run_with Hfree. done.
  - apply Forall2_same_length_lookup. split; [by eapply Forall2_length |]. intros i x r' Hx Hr'.
    pose proof (Forall2_lookup_lr _ _ _ _ _ _ Hp Hx Hr') as Hpx.
    assert (pend (with_lk m w) c x r') as Hpx1 by (destruct Hpx; by split). apply (released_pend q r) in Hpx1.
    + destruct Hpx1. by split.
    + intros ->. apply list_elem_of_lookup_2 in Hx. clear - Hnodup Hx. rewrite !NoDup_cons, !NoDup_app in Hnodup.
      destruct Hnodup as (_ & _ & _ & _ & [Hq _]%NoDup_cons & _). by apply Hq.
    + intros Hne Hne' E. unfold payloads in Hnd. cbn in Hnd. rewrite payload_some in Hnd by done. apply NoDup_cons in Hnd as [Hnd _]. apply Hnd.
      apply in_payloads. exists r'. split; [by eapply list_elem_of_lookup_2 | done].
    + by apply (send_len _ _ _ (p_send _ _ _ _ Hr)).
  - unfold payloads in *. cbn in Hnd. destruct (payload r); [by apply NoDup_cons in Hnd as [_ ?] | done].
Qed.

(** ** Closing the connection *)

Lemma free_queue_spec fin fuel : forall w c fr out fly rs,
  owns w c fr out fly -> state c = ST_CONNCECTED -> pending w c out rs -> (length out < fuel)%nat ->
  exists w', free_queue_with fuel fin w = Some (tt, w') /\
    owns w' (with_count (Z.of_nat (length fly)) c) (fr ++ out) [] fly /\ mem w' = mem w /\ unseen w w'.
Proof.
  induction fuel as [|fuel IH]; intros w c fr out fly rs O Hst Hp Hf; [lia |]. pose proof (o_mc _ _ _ _ _ O) as Hmc.
  cbn [free_queue_with]. run_with get_mc_run. pose proof (o_out _ _ _ _ _ O) as Hq. run_with empty_run.
  destruct out as [|q out].
  - rewrite bool_decide_true by done. exists w. split; [done |]. split; [|done]. rewrite app_nil_r.
    replace (with_count (Z.of_nat (length fly)) c) with c; [done |]. pose proof (o_count _ _ _ _ _ O) as E. cbn in E. rewrite <- E. by destruct c.
  - rewrite bool_decide_false by done. run_with head_run. cbn [succ_of List.hd].
    destruct rs as [|r rs]; [destruct Hp as [Hp _]; by apply Forall2_nil_inv_r in Hp |].
    destruct (retire_spec fin w c fr q out fly r rs O Hst Hp) as (w1 & Hrun1 & O1 & Hp1 & Hm1 & Hu1). rewrite Hrun1.
    destruct (IH w1 _ (fr ++ [q]) out fly rs O1 Hst Hp1) as (w' & Hrun & O' & Hm & Hu); [cbn in Hf; lia |].
    exists w'. split; [exact Hrun |]. rewrite <- app_assoc in O'. split; [exact O' |]. split; [by rewrite Hm | by eapply unseen_trans].
Qed.

Lemma owns_conn w c fr out fly c' w' :
  owns w c fr out fly -> mc w' = Some c' -> lk w' = lk w -> tasks w' = tasks w -> out_head c' = out_head c -> free_head c' = free_head c ->
  count c' = count c -> max_task c' = max_task c -> owns w' c' fr out fly.
Proof.
  intros [P1 P2 P3 P4 P5 P6 P7 P8 P9 P10 P11] E1 E2 E3 E4 E5 E6 E7. split; rewrite ?E2, ?E3, ?E4, ?E5, ?E6, ?E7; done.
Qed.

Lemma pending_conn w c out rs c' w' :
  pending w c out rs -> mem w' = mem w -> blocks w' = blocks w -> tasks w' = tasks w -> same_place (m_in c) (m_in c') ->
  same_place (m_out c) (m_out c') -> pending w' c' out rs.
Proof.
  intros [Hp Hnd] E1 E2 E3 E4 E5. split; [|done]. eapply Forall2_impl; [exact Hp |]. intros q r Hr.
  eapply pend_keep; [exact Hr | by rewrite E3 | by rewrite E2 | by rewrite E1 | done | done].
Qed.

(** [nn_conn_finalize] of a connection in use: the nodes of the waiting responses are free
    again; the pool goes with the last request in flight. *)
Lemma finalize_spec w c kk fr out fly rs :
  owns w c fr out fly -> state c = ST_CONNCECTED -> connection c = Some kk -> pending w c out rs ->
  exists w' c', nn_conn_finalize w = Some (tt, w') /\
    mem w' = mem w /\ calls w' = calls w /\ rx_bytes w' = rx_bytes w /\ tx_bytes w' = tx_bytes w /\ hand w' = hand w /\
    connection c' = None /\ state c' = ST_DISCONNCECTED /\
    if decide (fly = []) then mc w' = None /\ log w' = log w ++ (if timer_set c then [DelTimer] else []) ++ [Close; Destroy]
    else owns w' c' (fr ++ out) [] fly /\ log w' = log w ++ (if timer_set c then [DelTimer] else []) ++ [Close].
Proof.
  intros O Hst Hk Hp. pose proof (o_mc _ _ _ _ _ O) as Hmc. unfold nn_conn_finalize. cbn [finalize_rec]. run_with get_mc_run.
  rewrite Hst. cbn [Z.eqb ST_CONNCECTED].
  set (c1 := if timer_set c then with_timer false c else c).
  set (w1 := if timer_set c then with_mc (Some c1) (add_log DelTimer w) else w).
  set (c2 := with_connection None c1). set (w2 := with_mc (Some c2) (add_log Close w1)).
  assert (forall f, ((if timer_set c then get_conn ≫= fun _ => modify (add_log DelTimer) ≫= fun _ => put_mc (with_timer false) else mret tt)
    ≫= f) w = f tt w1 :> option (unit * world)) as Ht.
  { intros f. unfold w1, c1. destruct (timer_set c); [|done]. erewrite bind_run; [done |].
    run_with get_conn_run. erewrite bind_run by reflexivity. apply put_mc_run. exact Hmc. }
  assert (mc w1 = Some c1) as Hmc1 by (unfold w1, c1; by destruct (timer_set c)).
  assert (connection c1 = Some kk) as Hk1 by (unfold c1; by destruct (timer_set c)).
  assert (nn_conn_close w1 = Some (tt, w2)) as Hclose.
  { unfold nn_conn_close. run_with get_mc_run. rewrite Hk1. erewrite bind_run by reflexivity. apply put_mc_run. exact Hmc1. }
  assert (owns w2 c2 fr out fly) as O2.
  { eapply owns_conn; [exact O | done |..]; unfold w2, c2, w1, c1; by destruct (timer_set c). }
  assert (pending w2 c2 out rs) as Hp2.
  { eapply pending_conn; [exact Hp |..]; unfold w2, c2, w1, c1; by destruct (timer_set c). }
  assert (state c2 = ST_CONNCECTED) as Hst2 by (unfold c2, c1; by destruct (timer_set c)).
  destruct (free_queue_spec (finalize_rec 1) (S (size (l_next (lk w2)))) w2 c2 fr out fly rs O2 Hst2 Hp2) as (w3 & Hrun & O3 & Hm3 & Hu3).
  { pose proof (owns_fuel _ _ _ _ _ O2) as Hf. rewrite !length_app in Hf. lia. }
  set (c3 := with_state ST_DISCONNCECTED (with_count (Z.of_nat (length fly)) c2)).
  pose proof (o_mc _ _ _ _ _ O3) as Hmc3.
  assert (owns (with_mc (Some c3) w3) c3 (fr ++ out) [] fly) as O4 by (eapply owns_conn; [exact O3 | done..]).
  assert (log w2 = log w ++ (if timer_set c then [DelTimer] else []) ++ [Close]) as Hlog.
  { unfold w2, w1. cbn. destruct (timer_set c); cbn; by rewrite <- ?app_assoc. }
  erewrite bind_run.
  2: { rewrite Ht. run_with Hclose. unfold queue_fuel. erewrite bind_run by reflexivity. run_with Hrun. apply put_mc_run. exact Hmc3. }
  fold c3. run_with get_mc_run. destruct Hu3 as [U1 U2 U3 U4 U5].
  assert (calls w2 = calls w /\ rx_bytes w2 = rx_bytes w /\ tx_bytes w2 = tx_bytes w /\ hand w2 = hand w /\ mem w2 = mem w) as (V1 & V2 & V3 & V4 & V5).
  { unfold w2, w1. by destruct (timer_set c). }
  case_decide as Hfly.
  - subst fly. change (0 <? count c3) with false. cbv iota. erewrite bind_run by reflexivity.
    eexists _, c3. split; [reflexivity |]. cbn. rewrite Hm3, U1, U2, U3, U4, U5, V1, V2, V3, V4, V5, Hlog, <- !app_assoc.
    repeat (split; [done |]). done.
  - assert ((0 <? count c3) = true) as -> by (apply Z.ltb_lt; destruct fly; [done | cbn; lia]).
    eexists _, c3. split; [reflexivity |]. cbn. rewrite Hm3, U1, U2, U3, U4, U5, V1, V2, V3, V4, V5, Hlog.
    repeat (split; [done |]). done.
Qed.

(** ** Packing and sending responses *)

(** The fields of the connection that sending leaves alone. *)
Definition same_but_out (c c' : nn_conn) : Prop :=
  m_in c' = m_in c /\ out_head c' = out_head c /\ free_head c' = free_head c /\ max_task c' = max_task c /\ state c' = state c /\
  timer_set c' = timer_set c /\ same_place (m_out c) (m_out c').

Lemma same_but_out_trans c1 c2 c3 : same_but_out c1 c2 -> same_but_out c2 c3 -> same_but_out c1 c3.
Proof. intros (? & ? & ? & ? & ? & ? & ? & ? & ?) (? & ? & ? & ? & ? & ? & ? & ? & ?). repeat split; congruence. Qed.

(** A change of memory inside the send buffer keeps the waiting responses. *)
Lemma pending_out w c out rs lin lout m b :
  pending w c out rs -> bufs w c lin lout -> only_changes (start (m_out c)) (Z.to_nat (room (m_out c))) (mem w) m -> same_place (m_out c) b ->
  pending (with_mem m (with_mc (Some (with_out b c)) w)) (with_out b c) out rs.
Proof.
  intros [Hp Hnd] B Ho Hb. split; [|done]. eapply Forall2_impl; [exact Hp |]. intros q r Hr.
  eapply pend_keep; [exact Hr | done | done | | done | done]. intros Hne Hh.
  destruct (p_away _ _ _ _ Hr Hne) as [_ Ha]. eapply only_changes_holds; [exact Ho | | exact Hh].
  pose proof (b_order _ _ (c_ok _ _ _ (out_content _ _ _ _ B))). unfold away, at_, room, minus in *. lia.
Qed.

Lemma bufs_out w c lin lout m b lout' :
  bufs w c lin lout -> only_changes (start (m_out c)) (Z.to_nat (room (m_out c))) (mem w) m -> same_place (m_out c) b -> content m b lout' ->
  bufs (with_mem m (with_mc (Some (with_out b c)) w)) (with_out b c) lin lout'.
Proof.
  intros [Bi Bo Ba Bp] Ho (E1 & E2 & _) Hc. split; cbn; [| done | | done].
  - exact (apart_content _ _ _ _ _ _ Bo Bi (apart_sym _ _ Ba) Ho).
  - unfold apart in *. by rewrite E1, E2.
Qed.

Lemma owns_out w c fr out fly m b :
  owns w c fr out fly -> owns (with_mem m (with_mc (Some (with_out b c)) w)) (with_out b c) fr out fly.
Proof. intros O. by eapply owns_conn. Qed.

(** The next response does not fit behind what is packed. *)
Definition full_for (b : buffer) (rs : list message) : Prop :=
  match rs with [] => True | r :: _ => buffer_free_size b < 344 + Z.of_nat (length r.2) end.

Lemma pack_loop_spec fuel : forall w c fr out fly rs lin lout,
  owns w c fr out fly -> state c = ST_CONNCECTED -> pending w c out rs -> bufs w c lin lout -> (length out < fuel)%nat ->
  exists rs1 rs2 out1 out2 w' c', pack_loop fuel w = Some (tt, w') /\ rs = rs1 ++ rs2 /\ out = out1 ++ out2 /\ length out1 = length rs1 /\
    owns w' c' (fr ++ out1) out2 fly /\ pending w' c' out2 rs2 /\ bufs w' c' lin (lout ++ frames rs1) /\ full_for (m_out c') rs2 /\
    same_but_out c c' /\ connection c' = connection c /\ pos (m_out c') = pos (m_out c) /\ unseen w w' /\
    only_changes (start (m_out c)) (Z.to_nat (room (m_out c))) (mem w) (mem w').
Proof.
  induction fuel as [|fuel IH]; intros w c fr out fly rs lin lout O Hst Hp B Hf; [lia |]. pose proof (o_mc _ _ _ _ _ O) as Hmc.
  cbn [pack_loop]. run_with get_mc_run. pose proof (o_out _ _ _ _ _ O) as Hq. run_with empty_run. destruct out as [|q out].
  - rewrite bool_decide_true by done. destruct rs as [|r rs]; [|destruct Hp as [Hp _]; by apply Forall2_nil_inv_l in Hp].
    exists [], [], [], [], w, c. split; [done |]. cbn. rewrite !app_nil_r. repeat (split; [done |]). done.
  - rewrite bool_decide_false by done. run_with head_run. cbn [succ_of List.hd].
    destruct rs as [|r rs]; [destruct Hp as [Hp _]; by apply Forall2_nil_inv_r in Hp |].
    assert (pend w c q r) as Hr by (destruct Hp as [Hp _]; by apply Forall2_cons in Hp as [? _]).
    pose proof (out_content _ _ _ _ B) as Hc. pose proof (b_order _ _ (c_ok _ _ _ Hc)) as Hord.
    assert (forall rc b m, task_encode r.1 (m_out c) (mem w) = Some (rc, b, m) ->
      encode_from q w = Some (rc, with_mem m (with_mc (Some (with_out b c)) w))) as Henc.
    { intros rc b m E. unfold encode_from. rewrite Hmc. cbn [mbind option_bind]. rewrite (p_task _ _ _ _ Hr). cbn [mbind option_bind]. by rewrite E. }
    destruct (Z.lt_ge_cases (buffer_free_size (m_out c)) (344 + Z.of_nat (length r.2))) as [Hlt | Hge].
    + pose proof (Henc _ _ _ (encode_again _ _ _ _ _ Hc (p_send _ _ _ _ Hr) Hlt)) as He. run_with He.
      cbv [NGX_AGAIN NGX_OK Z.eqb Pos.eqb]. exists [], (r :: rs), [], (q :: out). eexists _, (with_out (m_out c) c). split; [reflexivity |].
      cbn [frames map concat app]. rewrite !app_nil_r. split; [done |]. split; [done |]. split; [done |]. split; [by apply owns_out |].
      split; [by eapply pending_out |]. split; [by eapply bufs_out |]. split; [exact Hlt |]. repeat split; try done.
    + assert (outside (last (m_out c)) (Z.to_nat (buffer_free_size (m_out c))) (data r.1) r.2) as Hout.
      { destruct (decide (r.2 = [])) as [E | Hne]; [by left | right]. destruct (p_away _ _ _ _ Hr Hne) as [_ Ha].
        unfold away, at_, buffer_free_size, minus in *. lia. }
      destruct (encode_fits _ _ _ _ _ Hc (p_send _ _ _ _ Hr) Hout Hge) as (m & He & Hc1 & Ho). apply Henc in He.
      set (b1 := buffer_used _ _) in *. run_with He. cbn [Z.eqb NGX_OK]. set (w1 := with_mem m _) in *.
      assert (only_changes (start (m_out c)) (Z.to_nat (room (m_out c))) (mem w) m) as Ho1.
      { eapply only_changes_wider; [exact Ho | lia |]. unfold at_, room, buffer_free_size, minus in *. lia. }
      destruct (retire_spec nn_conn_finalize w1 (with_out b1 c) fr q out fly r rs (owns_out _ _ _ _ _ m b1 O) Hst (pending_out _ _ _ _ _ _ _ b1 Hp B Ho1 ltac:(done)))
        as (w2 & Hrun2 & O2 & Hp2 & Hm2 & Hu2).
      change (nn_conn_free_task q) with (free_task_with nn_conn_finalize q). rewrite Hrun2.
      set (c2 := with_count _ _) in *.
      assert (bufs w2 c2 lin (lout ++ frame r.1 r.2)) as B2.
      { assert (bufs w1 (with_out b1 c) lin (lout ++ frame r.1 r.2)) as [X1 X2 X3 X4] by (by eapply bufs_out). split; rewrite ?Hm2; done. }
      destruct (IH w2 c2 (fr ++ [q]) out fly rs lin _ O2 Hst Hp2 B2) as (rs1 & rs2 & out1 & out2 & w' & c' & Hrun & -> & -> & Hlen & O' & Hp' & B' & Hfull & Hsame & Hk & Hps & Hu & Hm);
        [cbn in Hf; lia |].
      exists (r :: rs1), rs2, (q :: out1), out2, w', c'. split; [exact Hrun |]. split; [done |]. split; [done |]. split; [cbn; lia |].
      split; [by rewrite <- app_assoc in O' |]. split; [done |]. split; [by rewrite frames_cons, app_assoc |]. split; [done |].
      split; [eapply same_but_out_trans; [|exact Hsame]; done |]. split; [done |]. split; [done |]. split.
      * eapply unseen_trans; [|exact Hu]. eapply unseen_trans; [|exact Hu2]. by split.
      * eapply only_changes_trans; [exact Ho1 |]. rewrite Hm2 in Hm. exact Hm.
Qed.

(** What the documentation of [send] promises, and that it is not interrupted [patience] times
    in a row. *)
Definition send_ok : Prop :=
  (forall k l n, send k l = TSent n -> 0 < n <= Z.of_nat (length l)) /\
  (forall k l, exists j, (j < patience)%nat /\ send (k + j) l <> TIntr).

Definition same_timer (k k' : conn) : Prop := w_timedout k' = w_timedout k /\ w_timer_set k' = w_timer_set k.

Lemma with_connection_id c k : connection c = Some k -> with_connection (Some k) c = c.
Proof. intros <-. by destruct c. Qed.

(** The world after sending. *)
Definition sent_world (k : nat) (tx : list Z) (kk : conn) (c : nn_conn) (w : world) : world :=
  io (mem w) k [] tx (with_mc (Some (with_connection (Some kk) c)) w).

Lemma sent_world_same k tx kk c w : mc w = Some c -> connection c = Some kk -> sent_world k tx kk c w = io (mem w) k [] tx w.
Proof. intros Hmc Hk. unfold sent_world. rewrite with_connection_id by done. unfold io, with_mc. cbn. by rewrite <- Hmc. Qed.

Lemma send_loop_spec (Hok : send_ok) l fuel : forall w c kk,
  (exists j, (j < fuel)%nat /\ send (calls w + j) l <> TIntr) -> mc w = Some c -> connection c = Some kk ->
  exists rc sent k kk', send_loop fuel l w = Some (rc, sent_world k sent kk' c w) /\ same_timer kk kk' /\
    (rc = Z.of_nat (length sent) /\ 0 < rc /\ sent = take (length sent) l \/
     sent = [] /\ (rc = NGX_AGAIN /\ w_ready kk' = false \/ rc = NGX_ERROR)).
Proof.
  induction fuel as [|fuel IH]; intros w c kk (j & Hj & Hr) Hmc Hk; [lia |]. cbn [send_loop]. destruct (send (calls w) l) as [n | | |] eqn:E.
  - pose proof (proj1 Hok _ _ _ E) as Hn. assert (length (take (Z.to_nat n) l) = Z.to_nat n) as Hlen by (rewrite length_take; lia).
    destruct (Z.ltb_spec n (Z.of_nat (length l))).
    + exists n, (take (Z.to_nat n) l), (S (calls w)), (not_ready kk). split; [|split; [done |]].
      * erewrite bind_run by (by apply (put_conn_run _ _ c kk)). unfold mret, M_ret, sent_world, io, one_call. cbn. by rewrite !app_nil_r.
      * left. rewrite Hlen. split; [lia | split; [lia | done]].
    + exists n, (take (Z.to_nat n) l), (S (calls w)), kk. split; [|split; [done |]].
      * rewrite sent_world_same by done. unfold io, one_call. cbn. by rewrite !app_nil_r.
      * left. rewrite Hlen. split; [lia | split; [lia | done]].
  - destruct (IH (one_call [] [] w) c kk) as (rc & sent & k & kk' & Hrun & H).
    + destruct j as [|j]; [by rewrite Nat.add_0_r in Hr |]. exists j. split; [lia |]. cbn. by rewrite <- Nat.add_succ_comm in Hr.
    + done.
    + done.
    + exists rc, sent, k, kk'. split; [|done]. rewrite Hrun. unfold sent_world, io, one_call. cbn. by rewrite !app_nil_r.
  - exists NGX_AGAIN, [], (S (calls w)), (not_ready kk). split; [|split; [done | right; split; [done | by left]]].
    erewrite bind_run by (by apply (put_conn_run _ _ c kk)). unfold mret, M_ret, sent_world, io, one_call. cbn. by rewrite !app_nil_r.
  - exists NGX_ERROR, [], (S (calls w)), kk. split; [|split; [done | right; split; [done | by right]]].
    rewrite sent_world_same by done. unfold io, one_call. cbn. by rewrite !app_nil_r.
Qed.

(** What is sent is the beginning of the buffer; the rest stays. *)
Lemma out_loop_spec (Hok : send_ok) fuel : forall w c kk b rest,
  mc w = Some (with_out b c) -> connection c = Some kk -> content (mem w) b rest -> (length rest < fuel)%nat ->
  exists rc sent rest' b' k kk', out_loop fuel (Z.of_nat (length rest)) w = Some (rc, sent_world k sent kk' (with_out b' c) w) /\
    rest = sent ++ rest' /\ content (mem w) b' rest' /\ same_place b b' /\ same_timer kk kk' /\
    (rc = NGX_OK /\ rest' = [] \/ rest' <> [] /\ (rc = NGX_AGAIN /\ w_ready kk' = false \/ rc = NGX_ERROR)).
Proof.
  induction fuel as [|fuel IH]; intros w c kk b rest Hmc Hk Hc Hf; [lia |]. cbn [out_loop].
  destruct (Z.eqb_spec (Z.of_nat (length rest)) 0) as [Hz | Hz].
  - assert (rest = []) as -> by (destruct rest; [done | simpl in Hz; lia]).
    exists NGX_OK, [], [], (buffer_reset b), (calls w), kk. split; [|split; [done |]].
    + run_with put_mc_run. cbn [m_out with_out]. unfold mret, M_ret, sent_world.
      replace (with_connection (Some kk) (with_out (buffer_reset b) c)) with (with_out (buffer_reset b) c) by (rewrite with_connection_id; done).
      unfold io. cbn. by rewrite !app_nil_r.
    + split; [by eapply reset_content |]. split; [done |]. split; [done |]. by left.
  - run_with get_mc_run. cbn [m_out with_out].
    destruct (send_loop_spec Hok rest patience w (with_out b c) kk) as (rc & sent & k & kk' & Hrun & Ht & Hcase); [apply Hok | done | done |].
    assert (sysio_unix_send (pos b) (Z.of_nat (length rest)) w = Some (rc, sent_world k sent kk' (with_out b c) w)) as Hs.
    { unfold sysio_unix_send. rewrite Nat2Z.id. pose proof (c_holds _ _ _ Hc) as Hh. apply load_holds in Hh. rewrite Hh. exact Hrun. }
    run_with Hs. destruct Hcase as [(Erc & Hpos & Esent) | (-> & Hrc)].
    + destruct (Z.ltb_spec rc 0); [lia |].
      destruct (conj (take_drop (length sent) rest) (length_drop rest (length sent))) as [Ecut Hdrop]. rewrite <- Esent in Ecut.
      set (r2 := drop (length sent) rest) in *. assert (length rest = (length sent + length r2)%nat) as Hl by (rewrite <- Ecut at 1; by rewrite length_app).
      run_with put_mc_run. cbn [m_out with_out with_connection]. rewrite <- Ecut in Hc. pose proof (pull_content _ _ _ _ Hc) as Hc2. rewrite <- Erc in Hc2.
      set (b2 := buffer_pull b rc) in *. set (c2 := with_connection (Some kk') c).
      set (w2 := with_mc (Some (with_out b2 c2)) (sent_world k sent kk' (with_out b c) w)).
      destruct (IH w2 c2 kk' b2 r2) as (rc' & sent' & rest' & b' & k' & kk2 & Hrun' & Er2 & Hc' & Hpl & Ht' & Hcase'); [done | done | done | lia |].
      exists rc', (sent ++ sent'), rest', b', k', kk2. split.
      * replace (Z.of_nat (length rest) - rc) with (Z.of_nat (length r2)) by lia.
        change (with_mc _ (sent_world k sent kk' (with_out b c) w)) with w2. rewrite Hrun'. unfold w2, sent_world, io. cbn. by rewrite !app_nil_r, app_assoc.
      * split; [by rewrite <- Ecut, Er2, app_assoc |]. split; [done |]. split; [by destruct Hpl as (? & ? & ?) |].
        split; [destruct Ht, Ht'; split; congruence | done].
    + assert (rc < 0) as Hneg by (destruct Hrc as [[-> _] | ->]; unfold NGX_AGAIN, NGX_ERROR; lia). destruct (Z.ltb_spec rc 0); [|lia].
      exists rc, [], rest, b, k, kk'. split; [done |]. split; [done |]. split; [done |]. split; [done |]. split; [done |]. right.
      split; [by intros -> | done].
Qed.

(** A connection in use: the responses [rs] wait at the nodes [out], the buffers hold [lin]
    and [lout], and every waiting frame fits the empty send buffer. *)
Record live (w : world) (c : nn_conn) (kk : conn) (fr out fly : list ptr) (rs : list message) (lin lout : list Z) : Prop := {
  l_owns : owns w c fr out fly;
  l_state : state c = ST_CONNCECTED;
  l_conn : connection c = Some kk;
  l_pending : pending w c out rs;
  l_bufs : bufs w c lin lout;
  l_fits : Forall (fun r => 344 + Z.of_nat (length r.2) <= room (m_out c)) rs
}.

(** A connection that was closed: its pool lasts until the last request in flight is back. *)
Definition gone (w : world) (fly : list ptr) : Prop :=
  if decide (fly = []) then mc w = None
  else exists c fr, owns w c fr [] fly /\ state c = ST_DISCONNCECTED /\ connection c = None.

(** The effect of sending: [rs1] were packed, [sent] left, [lout'] is left in the buffer. *)
Definition sends (w : world) (c : nn_conn) (fr out fly : list ptr) (rs : list message) (lin lout : list Z) (w' : world) (sent : list Z) : Prop :=
  exists c' kk' rs1 rs2 out1 out2 lout', rs = rs1 ++ rs2 /\ out = out1 ++ out2 /\ live w' c' kk' (fr ++ out1) out2 fly rs2 lin lout' /\
    lout ++ frames rs1 = sent ++ lout' /\ same_but_out c c'.

Lemma finalize_gone w c kk fr out fly rs lin lout :
  live w c kk fr out fly rs lin lout ->
  exists w', nn_conn_finalize w = Some (tt, w') /\ gone w' fly /\ rx_bytes w' = rx_bytes w /\ tx_bytes w' = tx_bytes w /\ hand w' = hand w.
Proof.
  intros [O Hst Hk Hp B _]. destruct (finalize_spec _ _ _ _ _ _ _ O Hst Hk Hp) as (w' & c' & Hrun & _ & _ & E1 & E2 & E3 & Hc' & Hs' & H).
  exists w'. split; [done |]. split; [|done]. unfold gone. case_decide; [by destruct H |]. destruct H as [H _]. by exists c', (fr ++ out).
Qed.

Lemma out_buffer_spec (Hok : send_ok) w c kk lin lout :
  mc w = Some c -> connection c = Some kk -> bufs w c lin lout -> lout <> [] ->
  exists rc sent lout' b k kk', nn_conn_out_buffer w = Some (rc, sent_world k sent kk' (with_out b c) w) /\
    lout = sent ++ lout' /\ content (mem w) b lout' /\ same_place (m_out c) b /\ same_timer kk kk' /\
    (rc = NGX_OK /\ lout' = [] \/ lout' <> [] /\ (rc = NGX_AGAIN \/ rc = NGX_ERROR)).
Proof.
  intros Hmc Hk B Hne. pose proof (out_content _ _ _ _ B) as Hc. unfold nn_conn_out_buffer. run_with get_conn_run.
  assert (c = with_out (m_out c) c) as Ec by (by destruct c).
  destruct (w_ready kk) eqn:Hready; cbn [negb].
  - run_with get_mc_run. rewrite (buffer_size_content _ _ _ Hc), Nat2Z.id. rewrite Ec in Hmc.
    destruct (out_loop_spec Hok (S (length lout)) w c kk (m_out c) lout) as (rc & sent & rest & b & k & kk' & Hrun & E1 & E2 & E3 & E4 & Hcase);
      [done | done | done | lia |].
    exists rc, sent, rest, b, k, kk'. split; [exact Hrun |]. repeat (split; [done |]). destruct Hcase as [? | (? & [[? _] | ?])]; auto.
  - exists NGX_AGAIN, [], lout, (m_out c), (calls w), kk. split.
    + rewrite <- Ec. rewrite sent_world_same by done. unfold mret, M_ret, io. rewrite !app_nil_r. by destruct w.
    + repeat (split; [done |]). auto.
Qed.

Lemma sent_live w c kk fr out fly rs lin lout b k sent kk' lout' :
  live w c kk fr out fly rs lin lout -> content (mem w) b lout' -> same_place (m_out c) b ->
  live (sent_world k sent kk' (with_out b c) w) (with_connection (Some kk') (with_out b c)) kk' fr out fly rs lin lout'.
Proof.
  intros [O Hst Hk Hp B Hfit] Hc (E1 & E2 & E3). split; try done.
  - by eapply owns_conn.
  - by eapply pending_conn.
  - destruct B as [Bi Bo Ba Bp]. split; cbn; try done. unfold apart in *. by rewrite E1, E2.
  - unfold room in *. cbn. by rewrite E1, E2.
Qed.

Lemma live_update w c kk fr out fly rs lin lout w' kk' :
  live w c kk fr out fly rs lin lout -> mc w' = Some (with_connection (Some kk') c) -> mem w' = mem w -> lk w' = lk w ->
  tasks w' = tasks w -> blocks w' = blocks w -> live w' (with_connection (Some kk') c) kk' fr out fly rs lin lout.
Proof.
  intros [O Hst Hk Hp B Hfit] E1 E2 E3 E4 E5. split; try done.
  - by eapply owns_conn.
  - by eapply pending_conn.
  - destruct B. by split; rewrite ?E2.
Qed.

Lemma pending_nil w c rs : pending w c [] rs -> rs = [].
Proof. intros [H _]. by apply Forall2_nil_inv_l in H. Qed.

Lemma pending_none w c out : pending w c out [] -> out = [].
Proof. intros [H _]. by apply Forall2_nil_inv_r in H. Qed.

Lemma repack_loop_spec (Hok : send_ok) fuel : forall w c kk fr out fly rs lin lout,
  live w c kk fr out fly rs lin lout -> (length rs + 1 + (if decide (lout = []) then 0 else 1) <= fuel)%nat ->
  exists rc w' sent, repack_loop fuel w = Some (rc, w') /\ tx_bytes w' = tx_bytes w ++ sent /\ rx_bytes w' = rx_bytes w /\
    hand w' = hand w /\
    (sends w c fr out fly rs lin lout w' sent /\ (rc = NGX_OK -> sent = lout ++ frames rs) /\ (rc = NGX_OK \/ rc = NGX_AGAIN \/ rc = NGX_ERROR) \/
     rc = NGX_ERROR /\ gone w' fly /\ sent `prefix_of` lout ++ frames rs).
Proof.
  induction fuel as [|fuel IH]; intros w c kk fr out fly rs lin lout L Hf; [lia |]. pose proof L as [O Hst Hk Hp B Hfit].
  pose proof (o_mc _ _ _ _ _ O) as Hmc. cbn [repack_loop].
  destruct (shrink_spec _ _ _ (out_content _ _ _ _ B)) as (b1 & m1 & Hb1 & Hc1 & Hpos & Hpl & Ho1).
  set (c1 := with_out b1 c). set (w1 := with_mem m1 (with_mc (Some c1) w)).
  assert (out_buffer buffer_shrink w = Some (tt, w1)) as Hshrink.
  { unfold out_buffer. rewrite Hmc. cbn [mbind option_bind]. by rewrite Hb1. }
  run_with Hshrink. unfold queue_fuel at 1. erewrite bind_run by reflexivity.
  assert (owns w1 c1 fr out fly) as O1 by (by apply owns_out).
  assert (pending w1 c1 out rs) as Hp1 by (by eapply pending_out).
  assert (bufs w1 c1 lin lout) as B1 by (by eapply bufs_out).
  destruct (pack_loop_spec (S (size (l_next (lk w1)))) w1 c1 fr out fly rs lin lout O1 Hst Hp1 B1)
    as (rs1 & rs2 & out1 & out2 & w2 & c2 & Hpack & Ers & Eout & Hlen & O2 & Hp2 & B2 & Hfull & Hsame & Hk2 & Hps & Hu2 & Hm2).
  { pose proof (owns_fuel _ _ _ _ _ O1) as Hfu. rewrite !length_app in Hfu. lia. }
  run_with Hpack. pose proof (o_mc _ _ _ _ _ O2) as Hmc2. run_with get_mc_run.
  destruct Hsame as (S1 & S2 & S3 & S4 & S5 & S6 & S7). destruct Hpl as (P1 & P2 & P3). destruct Hu2 as [U1 U2 U3 U4 U5].
  assert (same_but_out c c2) as Hsame2.
  { destruct S7 as (Q1 & Q2 & Q3). repeat split; try done; unfold c1 in *; cbn in *; congruence. }
  assert (room (m_out c2) = room (m_out c)) as Hroom.
  { destruct Hsame2 as (_ & _ & _ & _ & _ & _ & (Q1 & Q2 & _)). unfold room. by rewrite Q1, Q2. }
  assert (live w2 c2 kk (fr ++ out1) out2 fly rs2 lin (lout ++ frames rs1)) as L2.
  { split; try done; [by rewrite S5 | by rewrite Hk2 |]. rewrite Hroom. rewrite Ers in Hfit. by apply Forall_app in Hfit as [_ ?]. }
  rewrite (buffer_size_content _ _ _ (out_content _ _ _ _ B2)).
  destruct (Z.eqb_spec (Z.of_nat (length (lout ++ frames rs1))) 0) as [Hz | Hz].
  - assert (lout ++ frames rs1 = []) as E by (destruct (lout ++ frames rs1); [done | cbn in Hz; lia]).
    assert (rs2 = []) as ->.
    { destruct rs2 as [|r rs2]; [done |]. exfalso. cbn [full_for] in Hfull. pose proof (c_length _ _ _ (out_content _ _ _ _ B2)) as Hl. rewrite E in Hl.
      pose proof (l_fits _ _ _ _ _ _ _ _ _ L2) as Hfit2. apply Forall_cons in Hfit2 as [Hr _].
      assert (pos (m_out c2) = start (m_out c2)) as Hp0 by (rewrite Hps; destruct S7 as (-> & _); unfold c1; cbn; congruence).
      unfold room, buffer_free_size, minus in *. cbn [length] in Hl. rewrite Hp0 in Hl. lia. }
    rewrite app_nil_r in Ers. subst rs1. pose proof (pending_none _ _ _ Hp2) as ->.
    exists NGX_OK, w2, []. split; [done |]. rewrite app_nil_r. split; [exact U3 |]. split; [exact U2 |]. split; [exact U4 |]. left.
    split; [|split; [by rewrite E | by left]].
    exists c2, kk, rs, [], out1, [], []. rewrite !app_nil_r. rewrite app_nil_r in Eout. rewrite E in L2. done.
  - assert (lout ++ frames rs1 <> []) as Hne by (intros E; by rewrite E in Hz).
    destruct (out_buffer_spec Hok w2 c2 kk lin _ Hmc2 (l_conn _ _ _ _ _ _ _ _ _ L2) B2 Hne) as (rc & sent & rest & b & k & kk' & Hrun & Esent & Hcb & Hplb & Htm & Hcase).
    run_with Hrun. pose proof (sent_live _ _ _ _ _ _ _ _ _ b k sent kk' rest L2 Hcb Hplb) as L3.
    set (c3 := with_connection (Some kk') (with_out b c2)) in *. set (w3 := sent_world k sent kk' (with_out b c2) w2) in *.
    assert (tx_bytes w3 = tx_bytes w ++ sent /\ rx_bytes w3 = rx_bytes w /\ hand w3 = hand w) as (T1 & T2 & T3).
    { unfold w3, sent_world, io. cbn. by rewrite U2, U3, U4, app_nil_r. }
    assert (same_but_out c c3) as Hsame3.
    { eapply same_but_out_trans; [exact Hsame2 |]. by repeat split; apply Hplb. }
    assert (sends w c fr out fly rs lin lout w3 sent) as Hsends.
    { exists c3, kk', rs1, rs2, out1, out2, rest. done. }
    destruct Hcase as [(-> & ->) | (Hrest & [-> | ->])].
    + cbv [NGX_OK NGX_ERROR NGX_AGAIN Z.eqb Pos.eqb].
      destruct (IH w3 c3 kk' (fr ++ out1) out2 fly rs2 lin [] L3) as (rc' & w' & sent' & Hrun' & E1 & E2 & E3 & Hcase').
      { rewrite decide_True by done. rewrite Ers, length_app in Hf. destruct rs1 as [|r rs1]; [|cbn [length] in Hf; lia].
        cbn [frames map concat] in Hne. rewrite app_nil_r in Hne. rewrite decide_False in Hf by done. cbn [length] in Hf. lia. }
      exists rc', w', (sent ++ sent'). split; [exact Hrun' |]. rewrite app_nil_r in Esent. split; [by rewrite E1, T1, app_assoc |]. split; [congruence |]. split; [congruence |].
      assert (lout ++ frames rs = sent ++ frames rs2) as Eall by (by rewrite Ers, frames_app, app_assoc, Esent).
      destruct Hcase' as [(Hs' & Hok' & Hrc') | (-> & Hg & Hpre)].
      * left. split; [|split; [|done]].
        -- destruct Hs' as (c' & k2 & rs3 & rs4 & o3 & o4 & l4 & -> & -> & L4 & Es4 & Hsm). exists c', k2, (rs1 ++ rs3), rs4, (out1 ++ o3), o4, l4.
           split; [by rewrite Ers, app_assoc |]. split; [by rewrite Eout, app_assoc |]. split; [by rewrite <- app_assoc in L4 |].
           split; [|by eapply same_but_out_trans]. cbn [app] in Es4. rewrite frames_app, app_assoc, Esent, <- app_assoc. by rewrite Es4.
        -- intros Hrc. rewrite Eall. by rewrite (Hok' Hrc).
      * right. split; [done |]. split; [done |]. rewrite Eall. by apply prefix_app.
    + change (NGX_AGAIN =? NGX_ERROR) with false. change (NGX_AGAIN =? NGX_AGAIN) with true. cbv iota. pose proof (o_mc _ _ _ _ _ (l_owns _ _ _ _ _ _ _ _ _ L3)) as Hmc3.
      run_with (get_conn_run w3). erewrite bind_run by reflexivity.
      destruct (event_handle_write (calls w3) =? NGX_ERROR).
      * exists NGX_ERROR, (one_call [] [] w3), sent. split; [done |]. split; [change (tx_bytes w3 ++ [] = tx_bytes w ++ sent); by rewrite app_nil_r |].
        split; [change (rx_bytes w3 ++ [] = rx_bytes w); by rewrite app_nil_r |]. split; [exact T3 |].
        left. split; [|split; [done | auto]]. exists c3, kk', rs1, rs2, out1, out2, rest. repeat (split; [done |]). split; [|done].
        exact (live_update w3 c3 kk' _ _ _ _ _ _ (one_call [] [] w3) kk' L3 Hmc3 eq_refl eq_refl eq_refl eq_refl).
      * erewrite bind_run by (by apply (put_conn_run _ _ c3 kk')). erewrite bind_run by reflexivity.
        eexists NGX_AGAIN, _, sent. split; [reflexivity |]. split; [change (tx_bytes w3 ++ [] = tx_bytes w ++ sent); by rewrite app_nil_r |].
        split; [change (rx_bytes w3 ++ [] = rx_bytes w); by rewrite app_nil_r |]. split; [exact T3 |]. left. split; [|split; [done | auto]].
        exists (with_connection (Some (write_timer true kk')) c3), (write_timer true kk'), rs1, rs2, out1, out2, rest. split; [done |]. split; [done |]. split; [|done].
        eapply (live_update w3 c3 kk'); done.
    + change (NGX_ERROR =? NGX_ERROR) with true. cbv iota. destruct (finalize_gone _ _ _ _ _ _ _ _ _ L3) as (w4 & Hfin & Hgone & E1 & E2 & E3).
      run_with Hfin. exists NGX_ERROR, w4, sent. split; [done |]. split; [congruence |]. split; [congruence |]. split; [congruence |].
      right. split; [done |]. split; [done |]. rewrite Ers, frames_app, app_assoc, Esent, <- app_assoc. by apply prefix_app_r.
Qed.

(** ** The handlers *)

Lemma live_conn w c kk fr out fly rs lin lout w' c' kk' :
  live w c kk fr out fly rs lin lout -> mc w' = Some c' -> connection c' = Some kk' -> state c' = state c -> out_head c' = out_head c ->
  free_head c' = free_head c -> count c' = count c -> max_task c' = max_task c -> m_in c' = m_in c -> m_out c' = m_out c ->
  mem w' = mem w -> lk w' = lk w -> tasks w' = tasks w -> blocks w' = blocks w -> live w' c' kk' fr out fly rs lin lout.
Proof.
  intros [O Hst Hk Hp B Hfit] E0 E1 E2 E3 E4 E5 E6 E7 E8 E9 E10 E11 E12. split.
  - by eapply owns_conn.
  - by rewrite E2.
  - done.
  - eapply pending_conn; [exact Hp | done | done | done | by rewrite E7 | by rewrite E8].
  - destruct B. by split; rewrite ?E7, ?E8, ?E9.
  - by rewrite E8.
Qed.

(** The result of sending what can be sent. *)
Definition sent_result (w : world) (c : nn_conn) (fr out fly : list ptr) (rs : list message) (lin lout : list Z) (w' : world) (rc : Z) : Prop :=
  exists sent, tx_bytes w' = tx_bytes w ++ sent /\ rx_bytes w' = rx_bytes w /\ hand w' = hand w /\
    (sends w c fr out fly rs lin lout w' sent /\ (rc = NGX_OK -> sent = lout ++ frames rs) /\ (rc = NGX_OK \/ rc = NGX_AGAIN \/ rc = NGX_ERROR) \/
     rc = NGX_ERROR /\ gone w' fly /\ sent `prefix_of` lout ++ frames rs).

Lemma output_spec (Hok : send_ok) w c kk fr out fly rs lin lout :
  live w c kk fr out fly rs lin lout ->
  exists rc w', nn_conn_output w = Some (rc, w') /\ sent_result w c fr out fly rs lin lout w' rc.
Proof.
  intros L. pose proof (o_mc _ _ _ _ _ (l_owns _ _ _ _ _ _ _ _ _ L)) as Hmc. pose proof (l_conn _ _ _ _ _ _ _ _ _ L) as Hk.
  unfold nn_conn_output. run_with get_conn_run. run_with get_mc_run. destruct (negb (w_ready kk) && (0 <? buffer_size (m_out c))) eqn:E.
  - exists NGX_AGAIN, w. split; [done |]. exists []. rewrite app_nil_r. split; [done |]. split; [done |]. split; [done |]. left.
    split; [|split; [done | auto]]. exists c, kk, [], rs, [], out, lout. rewrite !app_nil_r. done.
  - run_with put_mc_run. unfold queue_fuel. erewrite bind_run by reflexivity.
    set (w1 := with_mc _ w). assert (live w1 (with_write_handler c) kk fr out fly rs lin lout) as L1 by (by eapply live_conn).
    destruct (repack_loop_spec Hok (S (S (size (l_next (lk w1))))) w1 _ kk fr out fly rs lin lout L1) as (rc & w' & sent & Hrun & E1 & E2 & E3 & Hcase).
    { pose proof (owns_fuel _ _ _ _ _ (l_owns _ _ _ _ _ _ _ _ _ L1)) as Hf. rewrite !length_app in Hf.
      destruct (l_pending _ _ _ _ _ _ _ _ _ L) as [Hp _]. apply Forall2_length in Hp. case_decide; lia. }
    exists rc, w'. split; [exact Hrun |]. exists sent. split; [done |]. split; [done |]. split; [done |].
    destruct Hcase as [(Hs & H1) | H1]; [left; split; [|done] | by right].
    destruct Hs as (c' & k2 & rs1 & rs2 & o1 & o2 & l2 & H2 & H3 & H4 & H5 & H6). by exists c', k2, rs1, rs2, o1, o2, l2.
Qed.

(** A response joins the queue. *)
Lemma outtask_live (Hok : send_ok) w c kk fr out l1 q l2 rs lin lout r :
  live w c kk fr out (l1 ++ q :: l2) rs lin lout -> pend w c q r -> NoDup (payloads (rs ++ [r])) ->
  344 + Z.of_nat (length r.2) <= room (m_out c) ->
  exists rc w', nn_conn_outtask q w = Some (rc, w') /\ sent_result w c fr (out ++ [q]) (l1 ++ l2) (rs ++ [r]) lin lout w' rc.
Proof.
  intros L Hr Hnd Hfit. destruct L as [O Hst Hk [Hp _] B Hfits]. pose proof (o_mc _ _ _ _ _ O) as Hmc.
  unfold nn_conn_outtask. run_with get_mc_run. rewrite Hst. cbn [Z.eqb ST_CONNCECTED negb].
  destruct O as [P1 P2 P3 P4 P5 P6 P7 P8 P9 P10 P11].
  assert (fr ++ (out ++ [q]) ++ l1 ++ l2 ≡ₚ fr ++ out ++ l1 ++ q :: l2) as Hperm.
  { rewrite <- (app_assoc out). cbn [app]. by rewrite (Permutation_middle l1 l2 q). }
  assert (q ∉ out_head c :: out) as Hq.
  { intros Hx. clear - P4 Hx. rewrite !NoDup_cons, !NoDup_app in P4. set_solver. }
  destruct (insert_tail_spec _ _ _ q P3 Hq) as (m & Hm & Hq2 & Hoff); [apply P6; set_solver |].
  run_with links_op_run.
  assert (forall x, x ∈ free_head c :: fr ++ l1 ++ l2 -> x ∉ q :: out_head c :: out) as Hsep.
  { intros x Hx Hx2. clear - P4 Hx Hx2. rewrite !NoDup_cons, !NoDup_app, !NoDup_cons in P4. set_solver. }
  apply (output_spec Hok (with_lk m w) c kk). split.
  - split; cbn; try done.
    + eapply is_queue_frame; [exact Hoff | | exact P2]. intros x Hx. apply Hsep. set_solver.
    + by rewrite Hperm.
    + by rewrite Hperm.
    + intros x Hx. eapply same_off_alloc; [exact Hoff | apply Hsep; set_solver | apply P6; set_solver].
    + intros x Hx. apply P7. set_solver.
    + rewrite P9, !length_app. cbn. lia.
    + by rewrite P10, Hperm.
  - done.
  - done.
  - split; [|done]. apply Forall2_app; [|constructor; [by eapply (pend_keep w _ c) | constructor]].
    eapply Forall2_impl; [exact Hp |]. intros x y Hx. by eapply (pend_keep w _ c).
  - destruct B. by split.
  - apply Forall_app. split; [done |]. by constructor.
Qed.

(** A response for a connection that was closed only frees its node; the last one takes the
    pool with it. *)
Lemma outtask_gone w l1 q l2 t :
  gone w (l1 ++ q :: l2) -> tasks w !! q = Some t -> freeable w t ->
  exists w', nn_conn_outtask q w = Some (NGX_OK, w') /\ gone w' (l1 ++ l2) /\ tx_bytes w' = tx_bytes w /\ rx_bytes w' = rx_bytes w /\
    hand w' = hand w /\ (l1 ++ l2 = [] -> mc w' = None /\ log w' = log w ++ [Destroy]) /\ (l1 ++ l2 <> [] -> log w' = log w).
Proof.
  unfold gone at 1. rewrite decide_False by (by destruct l1). intros (c & fr & O & Hst & Hk) Ht Hf. pose proof (o_mc _ _ _ _ _ O) as Hmc.
  unfold nn_conn_outtask. run_with get_mc_run. rewrite Hst. cbn [Z.eqb ST_DISCONNCECTED ST_CONNCECTED negb].
  destruct (free_task_run nn_conn_finalize w c l1 q l2 fr [] t O Ht Hf) as (m & Hrun & O'). unfold nn_conn_free_task.
  destruct (released_fields q t w) as (Em & _ & _ & Ecl & Er & Etx & Ed & Elg & Eo & Eb).
  set (w1 := with_mc _ _) in *. set (c1 := with_count _ _) in *. rewrite Hst in Hrun. cbn [Z.eqb ST_DISCONNCECTED Pos.eqb andb] in Hrun.
  pose proof (o_count _ _ _ _ _ O') as Hcount. cbn in Hcount.
  destruct (Z.eqb_spec (count c - 1) 0) as [Hz | Hz].
  - assert (l1 ++ l2 = []) as Enil by (destruct (l1 ++ l2); [done | cbn in Hcount; lia]).
    assert (nn_conn_finalize w1 = Some (tt, with_mc None (add_log Destroy w1))) as Hfin.
    { unfold nn_conn_finalize. cbn [finalize_rec]. run_with (get_mc_run w1). change (state c1) with (state c). rewrite Hst. cbn [Z.eqb ST_CONNCECTED ST_DISCONNCECTED].
      erewrite bind_run by reflexivity. run_with (get_mc_run w1). change (count c1) with (count c - 1). rewrite Hz. cbn [Z.ltb Z.compare]. done. }
    rewrite Hfin in Hrun. run_with Hrun. eexists. split; [reflexivity |]. rewrite Enil. unfold gone. rewrite decide_True by done. cbn.
    rewrite Er, Etx, Ed, Elg. done.
  - assert (l1 ++ l2 <> []) as Hne by (intros E; rewrite E in Hcount; cbn in Hcount; lia).
    run_with Hrun. exists w1. split; [done |]. unfold gone. rewrite decide_False by done. split; [by exists c1, (fr ++ [q]) |].
    unfold w1. cbn. rewrite Er, Etx, Ed, Elg. done.
Qed.

(** A change of memory inside the receive buffer keeps a connection's responses. *)
Lemma pending_in w c out rs lin lout w' c' :
  pending w c out rs -> bufs w c lin lout -> only_changes (start (m_in c)) (Z.to_nat (room (m_in c))) (mem w) (mem w') ->
  (forall q, q ∈ out -> tasks w' !! q = tasks w !! q) -> blocks w' = blocks w -> same_place (m_in c) (m_in c') -> m_out c' = m_out c ->
  pending w' c' out rs.
Proof.
  intros [Hp Hnd] B Ho Ht Hb Hi Hout. split; [|done]. apply Forall2_same_length_lookup. split; [by eapply Forall2_length |].
  intros i q r Hq Hr. pose proof (Forall2_lookup_lr _ _ _ _ _ _ Hp Hq Hr) as Hpq. apply list_elem_of_lookup_2 in Hq.
  eapply pend_keep; [exact Hpq | by apply Ht | by rewrite Hb | | done | by rewrite Hout]. intros Hne Hh.
  destruct (p_away _ _ _ _ Hpq Hne) as [Ha _]. eapply only_changes_holds; [exact Ho | | exact Hh].
  pose proof (b_order _ _ (c_ok _ _ _ (in_content _ _ _ _ B))). unfold away, at_, room, minus in *. lia.
Qed.

Lemma read_handler_live (Hok : recv_ok) w c kk fr out fly rs lin lout :
  live w c kk fr out fly rs lin lout -> tqs (hand w) <> [] ->
  exists rc bs w1, nn_conn_recv w = Some (rc, w1) /\ rx_bytes w1 = rx_bytes w ++ bs /\
    forall ts p, lin ++ bs = frames ts ++ p -> Forall wire ts -> begun p ->
    exists w', nn_conn_read_handler w = Some (tt, w') /\ rx_bytes w' = rx_bytes w ++ bs /\ tx_bytes w' = tx_bytes w /\
      ((exists c' ts1 ts2 fr1 fr2 es, ts = ts1 ++ ts2 /\ live w' c' kk fr2 out (fly ++ fr1) rs (frames ts2 ++ p) lout /\
          hand w' = push_all (hand w) es /\ es.*1 = fr1 /\ Forall2 (fun e r => arrived e.2 r) es ts1 /\ (ts2 = [] \/ fr2 = []) /\
          m_out c' = m_out c) \/
       gone w' fly /\ hand w' = hand w /\ (rc = NGX_CONN_CLOSED \/ rc = NGX_ERROR)).
Proof.
  intros L Hth. pose proof L as [O Hst Hk Hp B Hfit]. pose proof (o_mc _ _ _ _ _ O) as Hmc.
  destruct (recv_spec Hok w c kk lin lout Hmc Hk B) as (rc & bs & b & m & k & Hrun & B1 & Hpl & Ho & Hrc).
  set (c1 := with_in b c) in *. set (w1 := io m k bs [] (with_mc (Some c1) w)) in *.
  exists rc, bs, w1. split; [done |]. split; [done |]. intros ts p Ebs Hts Hp0. rewrite Ebs in B1.
  assert (live w1 c1 kk fr out fly rs (frames ts ++ p) lout) as L1.
  { split; try done; [by eapply owns_conn |]. by eapply pending_in. }
  assert (tx_bytes w1 = tx_bytes w) as Etx by (unfold w1, io; cbn; by rewrite app_nil_r).
  unfold nn_conn_read_handler. run_with get_mc_run. rewrite Hst. cbn [Z.eqb ST_CONNCECTED ST_DISCONNCECTED].
  run_with Hrun. run_with (get_conn_run w1).
  destruct ((rc =? NGX_AGAIN) || (rc =? NGX_BUFFER_FULL)) eqn:Erc.
  - destruct L1 as [O1 Hst1 Hk1 Hp1 _ Hfit1].
    destruct (decode_spec w1 c1 kk fr out fly ts p lout O1 Hk1 Hst1 B1 Hts Hp0 Hth) as (ts1 & ts2 & fr1 & fr2 & es & w' & c' & rc' & Hdec & Ets & Hlen & Hend & O' & B' & Hsame & Hun & Hm & Hd & Hes & Hreq).
    run_with Hdec. assert ((rc' =? NGX_ERROR) = false) as -> by (destruct Hend as [(_ & _ & ->) | (_ & _ & ->)]; done).
    destruct Hsame as (S1 & S2 & S3 & S4 & S5 & S6 & S7 & S8). destruct Hun as [V1 V2 V3 V4].
    exists w'. split; [done |]. split; [by rewrite V2 |]. split; [by rewrite V3 |]. left. exists c', ts1, ts2, fr1, fr2, es.
    split; [done |]. split; [|split; [done |]; split; [done |]; split; [done |]; split; [|by rewrite S2]].
    + split; [done | by rewrite S6 | by rewrite S1 | | done | by rewrite S2]. by eapply (pending_in w1 c1).
    + destruct Hend as [(_ & ? & _) | (_ & ? & _)]; auto.
  - destruct (finalize_gone _ _ _ _ _ _ _ _ _ L1) as (w' & Hfin & Hg & E1 & E2 & E3).
    exists w'. split; [exact Hfin |]. split; [by rewrite E1 |]. split; [by rewrite E2, Etx |]. right. split; [done |]. split; [done |].
    apply orb_false_iff in Erc as [X1 X2]. apply Z.eqb_neq in X1, X2. naive_solver.
Qed.

Lemma write_handler_live (Hok : send_ok) w c kk fr out fly rs lin lout :
  live w c kk fr out fly rs lin lout ->
  exists w' rc, nn_conn_write_handler w = Some (tt, w') /\ sent_result w c fr out fly rs lin lout w' rc.
Proof.
  intros L. pose proof L as [O Hst Hk Hp B Hfit]. pose proof (o_mc _ _ _ _ _ O) as Hmc.
  unfold nn_conn_write_handler. run_with get_mc_run. rewrite Hst. cbn [Z.eqb ST_CONNCECTED ST_DISCONNCECTED].
  run_with (get_conn_run w). destruct (w_timedout kk).
  - destruct (finalize_gone _ _ _ _ _ _ _ _ _ L) as (w' & Hfin & Hg & E1 & E2 & E3). exists w', NGX_ERROR. split; [done |].
    exists []. rewrite app_nil_r. split; [done |]. split; [done |]. split; [done |]. right. split; [done |]. split; [done |]. apply prefix_nil.
  - set (k2 := if w_timer_set kk then write_timer false kk else kk). set (c2 := with_connection (Some k2) c).
    set (w2 := if w_timer_set kk then with_mc (Some c2) w else w).
    assert ((if w_timer_set kk then put_conn (write_timer false) else mret tt) w = Some (tt, w2)) as Ht.
    { unfold w2, c2, k2. destruct (w_timer_set kk); [by apply put_conn_run | done]. }
    run_with Ht. assert (live w2 c2 k2 fr out fly rs lin lout) as L2.
    { unfold w2, c2, k2. destruct (w_timer_set kk); [by eapply live_conn | by rewrite with_connection_id]. }
    destruct (output_spec Hok w2 c2 k2 fr out fly rs lin lout L2) as (rc & w' & Hrun & sent & E1 & E2 & E3 & Hcase).
    run_with Hrun. exists w', rc. split; [done |].
    assert (tx_bytes w2 = tx_bytes w /\ rx_bytes w2 = rx_bytes w /\ hand w2 = hand w) as (F1 & F2 & F3) by (unfold w2; by destruct (w_timer_set kk)).
    exists sent. rewrite E1, E2, E3, F1, F2, F3. split; [done |]. split; [done |]. split; [done |].
    destruct Hcase as [(Hs & H1) | H1]; [left; split; [|done] | by right].
    destruct Hs as (c' & k' & rs1 & rs2 & o1 & o2 & l2 & H2 & H3 & H4 & H5 & H6). by exists c', k', rs1, rs2, o1, o2, l2.
Qed.

(** ** The timer of a busy connection *)

(** What [nn_conn_timer_handler] does before it calls the read handler, and whether it does. *)
Definition timer_first : M bool :=
  _ ← get_conn;
  _ ← put_mc (with_timer false);
  r ← call_handle_read;
  if negb (r =? 0) then _ ← nn_conn_finalize; mret false
  else _ ← nn_conn_write_handler; mret true.

Lemma timer_handler_split w : nn_conn_timer_handler w = (go ← timer_first; if (go : bool) then nn_conn_read_handler else mret tt) w.
Proof.
  unfold nn_conn_timer_handler, timer_first, mbind, M_bind. generalize nn_conn_finalize nn_conn_write_handler nn_conn_read_handler. intros f g h.
  destruct (get_conn w) as [[k w1]|]; cbn; [|done]. destruct (put_mc _ w1) as [[[] w2]|]; cbn; [|done].
  destruct (event_handle_read (calls w2) =? 0); cbn [negb]; [by destruct (g _) as [[[] ?]|] | by destruct (f _) as [[[] ?]|]].
Qed.

(** ** Histories of a connection

    The state of a history: the world, the nodes whose requests other threads handle, and the
    responses they have given back. [S] are the messages the peer sends. *)

(** What has come so far are whole messages of the peer and the beginning of the next, with its
    length. *)
Definition peer_ok (S : list message) (l : list Z) : Prop :=
  exists ts rest p, S = ts ++ rest /\ l = frames ts ++ p /\
    (p = [] \/ exists r k, rest = r :: k /\ partial p r.1 r.2).

(** A handling thread fills the node [q] with the response [r]; the payload is a fresh block. *)
Record reply (w w1 : world) (q : ptr) (r : message) : Prop := {
  r_tasks : tasks w1 = <[q := r.1]> (tasks w);
  r_same : lk w1 = lk w /\ mc w1 = mc w /\ rx_bytes w1 = rx_bytes w /\ tx_bytes w1 = tx_bytes w /\ hand w1 = hand w;
  r_blocks : blocks w ⊆ blocks w1;
  r_mem : mem w ⊆ mem w1;
  r_send : sendable (mem w1) r.1 r.2;
  r_payload : r.2 <> [] -> data r.1 <> nullptr /\ data r.1 ∈ blocks w1 /\ (data r.1 ∉ blocks w) /\
    forall i, (i < length r.2)%nat -> mem w !! at_ (data r.1) i = None;
  r_fits : forall c, mc w = Some c -> 344 + Z.of_nat (length r.2) <= room (m_out c)
}.

(** The connection is open: the event loop may call its handlers. *)
Definition open_ (w : world) : Prop := exists c kk, mc w = Some c /\ connection c = Some kk.

(** The peer's bytes come; the connection can be written; the timer of the busy connection fires,
    and runs where it is defined; the event loop changes the flags of the write event; a
    handling thread takes its queue; a response is given back, by a thread that may have it
    from anywhere. *)
Inductive step (S : list message) : world * list ptr * list message -> world * list ptr * list message -> Prop :=
| step_read w fly sub w' :
    open_ w -> (forall rc w1, nn_conn_recv w = Some (rc, w1) -> peer_ok S (rx_bytes w1)) ->
    nn_event_process_handler false w = Some (tt, w') ->
    step S (w, fly, sub) (w', fly ++ drop (length (dispatched w)) ((dispatched w').*1), sub)
| step_write w fly sub w' :
    open_ w -> nn_event_process_handler true w = Some (tt, w') -> step S (w, fly, sub) (w', fly, sub)
| step_timer w fly sub w' :
    open_ w -> (forall w1 rc w2, timer_first w = Some (true, w1) -> nn_conn_recv w1 = Some (rc, w2) -> peer_ok S (rx_bytes w2)) ->
    nn_conn_timer_handler w = Some (tt, w') ->
    step S (w, fly, sub) (w', fly ++ drop (length (dispatched w)) ((dispatched w').*1), sub)
| step_event w fly sub c kk kk' :
    mc w = Some c -> connection c = Some kk -> step S (w, fly, sub) (with_mc (Some (with_connection (Some kk') c)) w, fly, sub)
| step_take w fly sub i : step S (w, fly, sub) (with_hand (take_batch i (hand w)) w, fly, sub)
| step_reply w l1 q l2 sub r w1 rc w' :
    reply w w1 q r -> nn_conn_outtask q w1 = Some (rc, w') -> step S (w, l1 ++ q :: l2, sub) (w', l1 ++ l2, sub ++ [r]).

(** Nothing was sent to the threads yet; there is at least one. *)
Definition no_hand (h : handoff) : Prop := exists n, (0 < n)%nat /\ h = {| sent := []; tqs := replicate n []; batches := replicate n [] |}.

(** A new connection. *)
Definition fresh_conn (w : world) : Prop :=
  exists c kk fr, live w c kk fr [] [] [] [] [] /\ rx_bytes w = [] /\ tx_bytes w = [] /\ no_hand (hand w).

Lemma no_hand_ok h : no_hand h -> hand_ok h.
Proof.
  intros (n & Hn & ->). split; [destruct n; [lia | done] |]. split; [cbn; by rewrite !length_replicate |]. intros i b q Hb Hq. cbn [batches tqs sent] in *. apply lookup_replicate in Hb as [-> _], Hq as [-> _]. done.
Qed.

(** The requests dispatched are the first messages of the peer, and what else has come waits in
    the receive buffer. *)
Definition received_ok (S : list message) (w : world) (lin : list Z) : Prop :=
  (exists reqs rest, S = reqs ++ rest /\ rx_bytes w = frames reqs ++ lin /\ Forall2 (fun e r => arrived e.2 r) (dispatched w) reqs) /\ hand_ok (hand w).

Lemma received_keep S w w' lin : received_ok S w lin -> rx_bytes w' = rx_bytes w -> hand w' = hand w -> received_ok S w' lin.
Proof. unfold received_ok, dispatched. by intros H -> ->. Qed.

Lemma dispatched_more w w' es : hand w' = push_all (hand w) es -> dispatched w' = dispatched w ++ es.
Proof. unfold dispatched. intros ->. apply sent_push_all. Qed.

Inductive conn_inv (S : list message) : world * list ptr * list message -> Prop :=
| inv_live w c kk fr out fly rs lin lout sub :
    live w c kk fr out fly rs lin lout -> received_ok S w lin -> tx_bytes w ++ lout ++ frames rs = frames sub -> conn_inv S (w, fly, sub)
| inv_gone w fly lin sub :
    gone w fly -> received_ok S w lin -> tx_bytes w `prefix_of` frames sub -> conn_inv S (w, fly, sub).

(** No message is complete. *)
Definition less_than_next (l : list Z) (rest : list message) : Prop :=
  forall r k, rest = r :: k -> (length l < length (frame r.1 r.2))%nat.

(** The messages that come behind [reqs] when [l] has come in all. *)
Lemma peer_rest S reqs rest lin :
  Forall wire S -> (forall r, r ∈ S -> 344 + Z.of_nat (length r.2) < 2 ^ 31) -> S = reqs ++ rest -> peer_ok S (frames reqs ++ lin) ->
  exists ts p k, rest = ts ++ k /\ lin = frames ts ++ p /\ Forall wire ts /\ begun p /\ less_than_next p k.
Proof.
  intros Hw Hsz -> (ts & k & p & E & El & Hp).
  assert (begun p) as Hb.
  { destruct Hp as [-> | (r & k' & -> & Hp)]; [by left | right]. exists r.1, r.2. rewrite E in Hw, Hsz.
    apply Forall_app in Hw as [_ [[Hr _] _]%Forall_cons]. split; [done |]. split; [|done]. apply Hsz. set_solver. }
  assert (less_than_next p k) as Hless.
  { rewrite E in Hw. apply Forall_app in Hw as [_ Hk]. intros r k' ->. destruct Hp as [-> | (r' & k'' & [= <- <-] & j & -> & _ & Hj)].
    - apply Forall_cons in Hk as [[Hr _] _]. rewrite length_frame by done. cbn. lia.
    - rewrite length_take. lia. }
  apply app_eq_app in E as (l & [[-> ->] | [-> ->]]).
  - destruct l as [|r l].
    + exists [], p, rest. rewrite app_nil_r in *. split; [done |]. apply app_inv_head in El. cbn in Hless. by rewrite El.
    + exfalso. rewrite frames_app, <- app_assoc in El. apply app_inv_head in El. destruct Hp as [-> | (r' & k' & Ek & Hp)].
      * rewrite frames_cons in El. apply (f_equal length) in El. rewrite !length_app, length_frame in El; [simpl in El; lia |].
        apply Forall_app in Hw as [Hw _]. apply Forall_app in Hw as [_ [[? _] _]%Forall_cons]. done.
      * injection Ek as <- _. destruct Hp as (j & -> & _ & Hj). rewrite frames_cons in El. apply (f_equal length) in El.
        rewrite !length_app, length_take in El. lia.
  - exists l, p, k. split; [done |]. rewrite frames_app, <- app_assoc in El. apply app_inv_head in El. split; [done |]. split; [|by split].
    apply Forall_app in Hw as [_ Hw]. by apply Forall_app in Hw as [? _].
Qed.

Lemma app_live_out {A} (l1 l2 : list A) : drop (length l1) (l1 ++ l2) = l2.
Proof. apply drop_app_length. Qed.

(** A thread's reply finds the connection as it was. *)
Lemma holds_weaken m m' p l : m ⊆ m' -> holds m p l -> holds m' p l.
Proof. intros Hm H i b Hi. eapply lookup_weaken; [by apply H | done]. Qed.

Lemma content_weaken m m' b l : m ⊆ m' -> content m b l -> content m' b l.
Proof.
  intros Hm [[H1 H2 H3 H4] Hh Hl]. split; [split; try done | by eapply holds_weaken | done].
  intros i Hi. destruct (H4 i Hi) as [x Hx]. exists x. by eapply lookup_weaken.
Qed.

Lemma fresh_away m b p d :
  valid m (start b) (Z.to_nat (room b)) -> (start b < end_ b)%N -> d <> [] -> (forall i, (i < length d)%nat -> m !! at_ p i = None) -> away b p d.
Proof.
  intros Hv Hb Hd Hf. unfold away. destruct (decide (end_ b <= p)%N) as [? | H1]; [by left |]. right.
  destruct (decide (at_ p (length d) <= start b)%N) as [? | H2]; [done |]. exfalso.
  set (a := N.max p (start b)).
  destruct (Hv (N.to_nat (a - start b))) as [x Hx]; [unfold room, minus, a in *; lia |].
  specialize (Hf (N.to_nat (a - p))). unfold at_ in *.
  replace (start b + N.of_nat (N.to_nat (a - start b)))%N with a in Hx by (unfold a; lia).
  replace (p + N.of_nat (N.to_nat (a - p)))%N with a in Hf by (unfold a; lia). rewrite Hf in Hx; [done |].
  unfold a. destruct d; [done |]. cbn [length] in *. lia.
Qed.

Lemma owns_reply w w1 q r c fr out l1 l2 :
  owns w c fr out (l1 ++ q :: l2) -> reply w w1 q r -> owns w1 c fr out (l1 ++ q :: l2).
Proof.
  intros [P1 P2 P3 P4 P5 P6 P7 P8 P9 P10 P11] [R1 (R2 & R3 & _) _ _ _ _ _].
  split; rewrite ?R2, ?R3, ?R1; try done.
  - intros x Hx. destruct (decide (x = q)) as [-> | Hne]; [rewrite lookup_insert_eq; by eexists | rewrite lookup_insert_ne by done; by apply P7].
  - intros x Hx. rewrite lookup_insert_ne; [by apply P8 |]. intros ->. clear - P4 Hx. rewrite !NoDup_cons, NoDup_app in P4. set_solver.
Qed.

Lemma reply_freeable w w1 q r : reply w w1 q r -> freeable w1 r.1.
Proof.
  intros R _ Hl. destruct (r_payload _ _ _ _ R) as (_ & ? & _); [|done]. pose proof (send_len _ _ _ (r_send _ _ _ _ R)) as E.
  intros E2. rewrite E2 in E. cbn in E. lia.
Qed.

Lemma reply_live w w1 q r c kk fr out l1 l2 rs lin lout :
  live w c kk fr out (l1 ++ q :: l2) rs lin lout -> reply w w1 q r ->
  live w1 c kk fr out (l1 ++ q :: l2) rs lin lout /\ pend w1 c q r /\ NoDup (payloads (rs ++ [r])).
Proof.
  intros [O Hst Hk [Hp Hnd] B Hfit] R. pose proof (owns_reply _ _ _ _ _ _ _ _ _ O R) as O1. pose proof (o_mc _ _ _ _ _ O) as P1.
  destruct R as [R1 (R2 & R3 & R4 & R5 & R6) R7 R8 R9 R10 R11].
  assert (forall x, x ∈ out -> x <> q) as Hq.
  { intros x Hx ->. pose proof (o_nodup _ _ _ _ _ O) as P4. clear - P4 Hx. rewrite !NoDup_cons, app_assoc, NoDup_app in P4. set_solver. }
  assert (Forall2 (pend w1 c) out rs) as Hp1.
  { apply Forall2_same_length_lookup. split; [by eapply Forall2_length |]. intros i x r' Hx Hr'.
    pose proof (Forall2_lookup_lr _ _ _ _ _ _ Hp Hx Hr') as Hpx. apply list_elem_of_lookup_2 in Hx.
    eapply pend_keep; [exact Hpx | | set_solver | intros _; by apply holds_weaken | done | done].
    rewrite R1, lookup_insert_ne; [done |]. apply not_eq_sym, Hq. set_solver. }
  assert (pend w1 c q r) as Hr.
  { split; [by rewrite R1, lookup_insert_eq | done | intros Hne; destruct (R10 Hne) as (? & ? & _); done |]. intros Hne.
    destruct (R10 Hne) as (_ & _ & _ & Hf). destruct B as [Bi Bo Ba Bp]. specialize (R11 c P1). unfold room, minus in R11.
    split; eapply fresh_away; try done; [apply (b_valid _ _ (c_ok _ _ _ Bi)) | lia | apply (b_valid _ _ (c_ok _ _ _ Bo)) | lia]. }
  split; [|split; [done |]].
  - split; try done. destruct B as [Bi Bo Ba Bp]. split; try done; by eapply content_weaken.
  - unfold payloads in *. rewrite omap_app. apply NoDup_app. split; [done |]. cbn. destruct (decide (r.2 = [])) as [E | Hne].
    + unfold payload. rewrite E. cbn. split; [|constructor]. intros x _. apply not_elem_of_nil.
    + rewrite payload_some by done. split; [|apply NoDup_singleton]. intros x Hx ->%list_elem_of_singleton.
      apply in_payloads in Hx as (r' & Hr' & Hne' & E). destruct (R10 Hne) as (_ & _ & Hb & _). apply Hb. rewrite <- E.
      apply list_elem_of_lookup in Hr' as [i Hi]. destruct (Forall2_lookup_r _ _ _ _ _ Hp Hi) as (x & _ & Hpx). by apply (p_block _ _ _ _ Hpx).
Qed.

(** ** The invariant of a history *)

Lemma gone_closed w fly : gone w fly -> forall c kk, mc w = Some c -> connection c <> Some kk.
Proof.
  intros G c kk Hc Hk. unfold gone in G. case_decide; [congruence |]. destruct G as (c' & fr & O & _ & Hk'). apply o_mc in O. congruence.
Qed.

Lemma open_live_or_gone S w fly sub :
  conn_inv S (w, fly, sub) -> open_ w ->
  exists c kk fr out rs lin lout, live w c kk fr out fly rs lin lout /\ received_ok S w lin /\ tx_bytes w ++ lout ++ frames rs = frames sub.
Proof.
  intros H (c & kk & Hc & Hk). inversion H as [? c1 kk1 fr out ? rs lin lout ? L | ? ? ? ? G]; subst; [by exists c1, kk1, fr, out, rs, lin, lout |].
  exfalso. by apply (gone_closed _ _ G c kk).
Qed.

(** After sending, whatever the outcome. *)
Lemma sent_inv S w c kk fr out fly rs lin lout sub w' rc :
  live w c kk fr out fly rs lin lout -> received_ok S w lin -> tx_bytes w ++ lout ++ frames rs = frames sub ->
  sent_result w c fr out fly rs lin lout w' rc -> conn_inv S (w', fly, sub).
Proof.
  intros _ HR0 Etx (sent & E1 & E2 & E3 & H).
  assert (received_ok S w' lin) as HR by (by eapply received_keep).
  destruct H as [((c' & k' & rs1 & rs2 & o1 & o2 & l2 & -> & -> & L & Es & _) & _) | (_ & G & P)].
  - eapply inv_live; [exact L | exact HR |]. rewrite E1, <- Etx, frames_app, <- app_assoc. f_equal. by rewrite !app_assoc, Es, <- app_assoc.
  - eapply inv_gone; [exact G | exact HR |]. rewrite E1, <- Etx. by apply prefix_app.
Qed.

Section Histories.

Context (Hrecv : recv_ok) (Hsend : send_ok) (S : list message) (Hwire : Forall wire S)
  (Hsmall : forall r, r ∈ S -> 344 + Z.of_nat (length r.2) < 2 ^ 31).

(** All complete requests were dispatched, or all nodes are in use. *)
Definition drained (w : world) : Prop :=
  exists reqs rest lin, S = reqs ++ rest /\ rx_bytes w = frames reqs ++ lin /\ Forall2 (fun e r => arrived e.2 r) (dispatched w) reqs /\
    (less_than_next lin rest \/ exists c, mc w = Some c /\ count c = max_task c).

Lemma read_defined w fly sub :
  conn_inv S (w, fly, sub) -> open_ w ->
  exists rc w1, nn_conn_recv w = Some (rc, w1) /\ (peer_ok S (rx_bytes w1) ->
    exists w', nn_event_process_handler false w = Some (tt, w') /\
      conn_inv S (w', fly ++ drop (length (dispatched w)) ((dispatched w').*1), sub) /\ (open_ w' -> drained w')).
Proof using All.
  intros H Ho. destruct (open_live_or_gone _ _ _ _ H Ho) as (c & kk & fr & out & rs & lin & lout & L & ((reqs & rest & ES & Erx & Hreq) & Hh) & Etx).
  destruct (read_handler_live Hrecv _ _ _ _ _ _ _ _ _ L (proj1 Hh)) as (rc & bs & w1 & Hrun & E1 & Hnext). exists rc, w1. split; [done |]. intros Hpeer.
  rewrite E1, Erx, <- app_assoc in Hpeer. destruct (peer_rest S reqs rest (lin ++ bs) Hwire Hsmall ES Hpeer) as (ts & p & k & Er & El & Hts & Hb & Hless).
  destruct (Hnext ts p El Hts Hb) as (w' & Hw & Ex & Et & Hcase). exists w'. split.
  { unfold nn_event_process_handler. pose proof (o_mc _ _ _ _ _ (l_owns _ _ _ _ _ _ _ _ _ L)) as Hmc. run_with (get_mc_run w c). exact Hw. }
  destruct Hcase as [(c' & ts1 & ts2 & fr1 & fr2 & es & Ets & L' & Ed & Ees & Hes & Hfull & _) | (G & Ed & _)].
  - pose proof (hand_ok_push_all es _ Hh) as Hh'. rewrite <- Ed in Hh'. apply dispatched_more in Ed. split.
    2: { intros _. exists (reqs ++ ts1), (ts2 ++ k), (frames ts2 ++ p). split; [by rewrite ES, Er, Ets, <- !app_assoc |].
      split; [by rewrite Ex, Erx, frames_app, <- !app_assoc, El, Ets, frames_app, <- app_assoc |]. split; [rewrite Ed; by apply Forall2_app |].
      destruct Hfull as [-> | ->]; [by left | right]. exists c'. destruct (l_owns _ _ _ _ _ _ _ _ _ L') as [O1 _ _ _ _ _ _ _ O9 O10 _]. by rewrite O9, O10. }
    rewrite Ed, fmap_app, drop_app_length' by (by rewrite length_fmap). rewrite Ees. eapply inv_live; [exact L' | | by rewrite Et].
    split; [|exact Hh']. exists (reqs ++ ts1), (ts2 ++ k). split; [by rewrite ES, Er, Ets, <- !app_assoc |]. split; [|rewrite Ed; by apply Forall2_app].
    rewrite Ex, Erx, frames_app, <- !app_assoc, El, Ets, frames_app. by rewrite <- app_assoc.
  - split.
    2: { intros (c' & k' & Hc' & Hk'). exfalso. by apply (gone_closed _ _ G c' k'). }
    assert (dispatched w' = dispatched w) as Ed' by (unfold dispatched; by rewrite Ed).
    rewrite Ed', drop_ge, app_nil_r by (by rewrite length_fmap). eapply inv_gone; [exact G | | rewrite Et, <- Etx; by eexists].
    split; [|by rewrite Ed]. exists reqs, rest. split; [done |]. split; [|by rewrite Ed']. by rewrite Ex, Erx, <- app_assoc.
Qed.

Lemma write_defined w fly sub :
  conn_inv S (w, fly, sub) -> open_ w -> exists w', nn_event_process_handler true w = Some (tt, w') /\ conn_inv S (w', fly, sub).
Proof using All.
  intros H Ho. destruct (open_live_or_gone _ _ _ _ H Ho) as (c & kk & fr & out & rs & lin & lout & L & HR & Etx).
  assert (mc w = Some c) as Hmc by apply (o_mc _ _ _ _ _ (l_owns _ _ _ _ _ _ _ _ _ L)).
  unfold nn_event_process_handler. run_with (get_mc_run w c). destruct (write_event_handler c).
  - destruct (write_handler_live Hsend _ _ _ _ _ _ _ _ _ L) as (w' & rc & Hw & Hs). exists w'. split; [done |]. by eapply sent_inv.
  - exists w. split; [done |]. by eapply inv_live.
Qed.

Lemma reply_defined w l1 q l2 sub r w1 :
  conn_inv S (w, l1 ++ q :: l2, sub) -> reply w w1 q r ->
  exists rc w', nn_conn_outtask q w1 = Some (rc, w') /\ conn_inv S (w', l1 ++ l2, sub ++ [r]) /\
    (l1 ++ l2 = [] -> ~ open_ w -> mc w' = None).
Proof using All.
  intros H R. inversion H as [? c kk fr out ? rs lin lout ? L HR Etx | ? ? lin ? G HR Ep]; subst.
  - destruct (reply_live _ _ _ _ _ _ _ _ _ _ _ _ _ L R) as (L1 & Hp & Hnd).
    assert (mc w = Some c) as Hmc by apply (o_mc _ _ _ _ _ (l_owns _ _ _ _ _ _ _ _ _ L)).
    destruct (outtask_live Hsend _ _ _ _ _ _ _ _ _ _ _ _ L1 Hp Hnd (r_fits _ _ _ _ R c Hmc)) as (rc & w' & Hrun & Hs).
    exists rc, w'. split; [done |]. split; [|intros _ Hno; exfalso; apply Hno; exists c, kk; split; [done | apply (l_conn _ _ _ _ _ _ _ _ _ L)]].
    destruct R as [_ (_ & _ & R4 & R5 & R6) _ _ _ _ _].
    destruct Hs as (sent & E1 & E2 & E3 & Hs).
    assert (received_ok S w' lin) as HR' by (eapply received_keep; [exact HR | congruence | congruence]).
    assert (tx_bytes w1 ++ lout ++ frames (rs ++ [r]) = frames (sub ++ [r])) as Etx1 by (by rewrite R5, !frames_app, <- Etx, <- !app_assoc).
    destruct Hs as [((c' & k' & rs1 & rs2 & o1 & o2 & l3 & Ers & Eo & L' & Es & _) & _) | (_ & G & P)].
    + eapply inv_live; [exact L' | done |]. rewrite E1, <- Etx1, Ers, frames_app, <- app_assoc. f_equal. by rewrite !app_assoc, Es, <- app_assoc.
    + eapply inv_gone; [exact G | done |]. rewrite E1, <- Etx1. by apply prefix_app.
  - assert (gone w1 (l1 ++ q :: l2)) as G1.
    { unfold gone in *. rewrite decide_False in * by (by destruct l1). destruct G as (c & fr & O & Hst & Hk). exists c, fr.
      split; [by eapply owns_reply |]. done. }
    destruct (outtask_gone w1 l1 q l2 r.1 G1) as (w' & Hrun & G' & E1 & E2 & E3 & Hlast & _).
    { rewrite (r_tasks _ _ _ _ R). apply lookup_insert_eq. }
    { by eapply reply_freeable. }
    destruct R as [_ (_ & _ & R4 & R5 & R6) _ _ _ _ _].
    exists NGX_OK, w'. split; [done |]. split; [|intros El _; by apply Hlast]. eapply inv_gone; [exact G' | |].
    + eapply received_keep; [exact HR | congruence | congruence].
    + rewrite E1, R5, frames_app. by apply prefix_app_r.
Qed.

(** The timer: what comes before the read handler, and when there is nothing left to read. *)
Lemma timer_first_inv w fly sub : conn_inv S (w, fly, sub) -> open_ w ->
  exists go w1, timer_first w = Some (go, w1) /\ conn_inv S (w1, fly, sub) /\ dispatched w1 = dispatched w.
Proof using All.
  intros H Ho. destruct (open_live_or_gone _ _ _ _ H Ho) as (c & kk & fr & out & rs & lin & lout & L & HR & Etx).
  pose proof L as [O Hst Hk _ _ _]. pose proof (o_mc _ _ _ _ _ O) as Hmc.
  set (w1 := one_call [] [] (with_mc (Some (with_timer false c)) w)).
  assert (live w1 (with_timer false c) kk fr out fly rs lin lout) as L1 by (by eapply live_conn).
  assert (tx_bytes w1 = tx_bytes w /\ rx_bytes w1 = rx_bytes w) as [T1 T2] by (cbn; by rewrite !app_nil_r).
  assert (received_ok S w1 lin) as HR1 by (by eapply received_keep).
  unfold timer_first. run_with (get_conn_run w). run_with put_mc_run. erewrite bind_run by reflexivity. fold w1. cbn [calls with_mc].
  destruct (negb (event_handle_read (calls w) =? 0)).
  - destruct (finalize_gone _ _ _ _ _ _ _ _ _ L1) as (w2 & Hfin & G & E1 & E2 & E3). run_with Hfin. exists false, w2. split; [done |].
    split; [|unfold dispatched; by rewrite E3]. eapply inv_gone; [exact G | by eapply received_keep |]. rewrite E2, T1, <- Etx. by eexists.
  - destruct (write_handler_live Hsend _ _ _ _ _ _ _ _ _ L1) as (w2 & rc & Hw & Hs). run_with Hw. exists true, w2. split; [done |].
    split; [eapply sent_inv; [exact L1 | exact HR1 | by rewrite T1 | exact Hs] |]. destruct Hs as (? & _ & _ & E3 & _). unfold dispatched. by rewrite E3.
Qed.

Lemma timer_defined w fly sub : conn_inv S (w, fly, sub) -> open_ w ->
  exists go w1, timer_first w = Some (go, w1) /\
    ((forall rc w2, go = true -> nn_conn_recv w1 = Some (rc, w2) -> peer_ok S (rx_bytes w2)) ->
     if (go && bool_decide (mc w1 = None)) then nn_conn_timer_handler w = None
     else exists w', nn_conn_timer_handler w = Some (tt, w') /\ conn_inv S (w', fly ++ drop (length (dispatched w)) ((dispatched w').*1), sub)).
Proof using All.
  intros H Ho. destruct (timer_first_inv _ _ _ H Ho) as (go & w1 & Hf & H1 & Ed). exists go, w1. split; [done |]. intros Hp.
  rewrite timer_handler_split. run_with Hf. assert (drop (length (dispatched w)) ((dispatched w1).*1) = []) as Enil by (rewrite Ed; apply drop_ge; by rewrite length_fmap).
  destruct go; cbn [andb].
  2: { exists w1. split; [done |]. by rewrite Enil, app_nil_r. }
  destruct (mc w1) as [c|] eqn:Hc.
  2: { rewrite bool_decide_true by done. unfold nn_conn_read_handler, get_mc. unfold mbind at 1, M_bind. by rewrite Hc. }
  rewrite bool_decide_false by done. destruct (connection c) as [kk|] eqn:Hk.
  - assert (open_ w1) as Ho1 by (by exists c, kk). destruct (read_defined _ _ _ H1 Ho1) as (rc & w2 & Hr & Hd). destruct (Hd (Hp rc w2 eq_refl Hr)) as (w' & Hw & H2 & _).
    exists w'. rewrite <- Ed. split; [|exact H2]. unfold nn_event_process_handler in Hw. by erewrite bind_run in Hw by (apply get_mc_run; exact Hc).
  - inversion H1 as [? c' kk' fr out ? rs lin lout ? L | ? ? lin ? G]; subst.
    { pose proof (o_mc _ _ _ _ _ (l_owns _ _ _ _ _ _ _ _ _ L)). pose proof (l_conn _ _ _ _ _ _ _ _ _ L). congruence. }
    exists w1. rewrite Enil, app_nil_r. split; [|exact H1]. unfold gone in G. case_decide; [congruence |]. destruct G as (c' & fr & O & Hst & _).
    pose proof (o_mc _ _ _ _ _ O) as Hmc. assert (c' = c) as -> by congruence. unfold nn_conn_read_handler. run_with (get_mc_run w1 c). by rewrite Hst.
Qed.

(** The handling threads touch nothing of the connection when they take their queues. *)
Lemma take_inv w fly sub i : conn_inv S (w, fly, sub) -> conn_inv S (with_hand (take_batch i (hand w)) w, fly, sub).
Proof using.
  assert (forall lin, received_ok S w lin -> received_ok S (with_hand (take_batch i (hand w)) w) lin) as HR.
  { intros lin [(reqs & rest & E1 & E2 & E3) Hh]. split; [|by apply hand_ok_take]. exists reqs, rest. split; [done |]. split; [done |]. unfold dispatched. cbn. by rewrite sent_take. }
  intros H. inversion H as [? c kk fr out ? rs lin lout ? L | ? ? lin ? G]; subst.
  - eapply inv_live; [|by apply HR | done]. destruct L as [O Hst Hk [Hp Hn] B Hfit]. split; try done; [by destruct O; split | | by destruct B; split].
    split; [|done]. eapply Forall2_impl; [exact Hp |]. intros q r [P1 P2 P3 P4]. by split.
  - eapply inv_gone; [|by apply HR | done]. unfold gone in *. cbn. case_decide; [done |]. destruct G as (c & fr & O & Hst & Hk). exists c, fr. split; [by destruct O; split |]. done.
Qed.

Lemma conn_step_inv x y : conn_inv S x -> step S x y -> conn_inv S y.
Proof using All.
  intros H Hs. destruct Hs as [w fly sub w' Ho Hpeer Hrun | w fly sub w' Ho Hrun | w fly sub w' Ho Hpeer Hrun | w fly sub c kk kk' Hc Hk | w fly sub i | w l1 q l2 sub r w1 rc w' R Hrun].
  - destruct (read_defined _ _ _ H Ho) as (rc & w1 & Hr & Hd). destruct (Hd (Hpeer _ _ Hr)) as (w2 & Hw & H2 & _). congruence.
  - destruct (write_defined _ _ _ H Ho) as (w2 & Hw & H2). congruence.
  - destruct (timer_defined _ _ _ H Ho) as (go & w1 & Hf & Hd). rewrite Hrun in Hd. assert (forall rc w2, go = true -> nn_conn_recv w1 = Some (rc, w2) -> peer_ok S (rx_bytes w2)) as Hp.
    { intros rc w2 -> Hr. by eapply Hpeer. }
    specialize (Hd Hp). destruct (go && _); [done |]. destruct Hd as (w2 & [= <-] & H2). exact H2.
  - destruct (open_live_or_gone _ _ _ _ H) as (c' & k' & fr & out & rs & lin & lout & L & HR & E); [by exists c, kk |].
    assert (c' = c) as -> by (pose proof (o_mc _ _ _ _ _ (l_owns _ _ _ _ _ _ _ _ _ L)); congruence). eapply inv_live; [by eapply live_conn | done | done].
  - by apply take_inv.
  - destruct (reply_defined _ _ _ _ _ _ _ H R) as (rc2 & w2 & Hw & H2 & _). congruence.
Qed.

Lemma reach_inv w0 y : fresh_conn w0 -> rtc (step S) (w0, [], []) y -> conn_inv S y.
Proof using All.
  intros (c & kk & fr & L & E1 & E2 & E3) Hr. assert (conn_inv S (w0, [], [])) as H0.
  { eapply inv_live; [exact L | | by rewrite E2]. split; [|by apply no_hand_ok]. exists [], S. rewrite E1. split; [done |]. split; [done |]. destruct E3 as (n & _ & E3). unfold dispatched. by rewrite E3. }
  remember (w0, [], []) as x eqn:Ex. clear Ex. induction Hr as [|x y z Hxy Hr IH]; [done |]. apply IH. by eapply conn_step_inv.
Qed.

(** ** The theorems *)

(** C1. Requests reach the handling threads in the order and with the contents the peer sent
    them, none lost, none twice, however the network cuts the stream - as long as what has come at
    a read is whole messages of the peer and the beginning of the next one with all four bytes
    of its length ([peer_ok]), messages are well-formed and shorter than 2^31, [recv] and [send]
    keep what their documentation says and are not interrupted for ever, and each response,
    with its header, fits the send buffer and has its payload in a new block or none ([reply]). The calls of [dispatch_task] are for the first messages of the peer, in their
    order; at the moment of each call the task of the node is that of the message, but for [opq]
    and [data] which the receiver sets, and [data] points to exactly the payload of the message.
    (The payload lies in the receive buffer, which later reads overwrite: [payload_overwritten].)
    For each handling thread, the batches it has taken so far and then its queue, each read from
    its last node to its first since [push_task] puts nodes at the head, are exactly the nodes
    dispatched to it, in that order. And what else has come waits in the receive buffer or
    was dropped with a closed connection. *)
Theorem requests_in_order w0 w fly sub :
  fresh_conn w0 -> rtc (step S) (w0, [], []) (w, fly, sub) ->
  (exists reqs rest lin, S = reqs ++ rest /\ rx_bytes w = frames reqs ++ lin /\ Forall2 (fun e r => arrived e.2 r) (dispatched w) reqs /\
    (open_ w -> exists c, mc w = Some c /\ content (mem w) (m_in c) lin)) /\
  (forall i b q, batches (hand w) !! i = Some b -> tqs (hand w) !! i = Some q ->
    concat (reverse <$> b) ++ reverse q = (filter (fun e => thread_of (length (tqs (hand w))) e.2.1 = i) (dispatched w)).*1) /\
  length (batches (hand w)) = length (tqs (hand w)) /\ (0 < length (tqs (hand w)))%nat.
Proof using All.
  intros Hf Hr. pose proof (reach_inv _ _ Hf Hr) as H.
  inversion H as [? c kk fr out ? rs lin lout ? L ((reqs & rest & E1 & E2 & E3) & Hne & Hl & Ht) | ? ? lin ? G ((reqs & rest & E1 & E2 & E3) & Hne & Hl & Ht)]; subst.
  all: split; [|split; [exact Ht |]; split; [exact Hl | by destruct (tqs (hand w)); [|cbn; lia]]]; exists reqs, rest, lin; split; [done |]; split; [done |]; split; [done |].
  - intros _. exists c. destruct L as [O _ _ _ B _]. split; [apply (o_mc _ _ _ _ _ O) | apply (in_content _ _ _ _ B)].
  - intros (c & kk & Hc & Hk). exfalso. by apply (gone_closed _ _ G c kk).
Qed.

(** C2. Responses leave in the order in which [nn_conn_outtask] is called for them. (That is not
    the order in which the threads call [write_back]: [net_response_handler] takes each batch
    from its newest node.) In every history in which the peer's stream is whole well-formed
    messages with the four bytes of a length together ([peer_ok]), each response, with its
    header, fits the send buffer and has its payload in a new block or none ([reply]), and
    [recv] and [send] keep what their documentation says and are not interrupted for ever: the bytes sent are always a prefix of
    the frames of the responses given, and while the connection is open the rest of these
    frames is in the send buffer and in the queue, nothing lost, nothing twice. *)
Theorem responses_in_order w0 w fly sub :
  fresh_conn w0 -> rtc (step S) (w0, [], []) (w, fly, sub) ->
  tx_bytes w `prefix_of` frames sub /\
  (open_ w -> exists c out rs lout, mc w = Some c /\ is_queue (lk w) (out_head c) out /\ Forall2 (fun q r => tasks w !! q = Some r.1) out rs /\
    content (mem w) (m_out c) lout /\ tx_bytes w ++ lout ++ frames rs = frames sub).
Proof using All.
  intros Hf Hr. pose proof (reach_inv _ _ Hf Hr) as H. split.
  - inversion H as [? c kk fr out ? rs lin lout ? L HR E | ? ? lin ? G HR E]; subst; [rewrite <- E; by eexists | done].
  - intros Ho. destruct (open_live_or_gone _ _ _ _ H Ho) as (c & kk & fr & out & rs & lin & lout & [O _ _ [Hp _] B _] & _ & E).
    exists c, out, rs, lout. split; [apply (o_mc _ _ _ _ _ O) |]. split; [apply (o_out _ _ _ _ _ O) |]. split; [|split; [apply (out_content _ _ _ _ B) | done]].
    eapply Forall2_impl; [exact Hp |]. intros q r [Hq _ _ _]. done.
Qed.

(** C3. What a connection does is defined, with one exception. In every history of read, write
    and timer events, of responses and of changes of the write event's flags, in which the
    peer's stream is whole well-formed messages with the four bytes of a length together
    ([peer_ok]), each response, with its header, fits the send buffer and has its payload in a
    new block or none ([reply]), and [recv] and [send] keep what their documentation says and
    are not interrupted for ever: the handlers of an open connection run to their end on a read event and on a
    write event; [nn_conn_outtask] does for the response to any request in flight, whether the
    connection is still open or was closed; and [nn_conn_timer_handler] does unless the write
    handler it calls first has closed the connection and destroyed its pool, in which case the
    read handler uses the connection after it is gone. *)
Theorem connection_never_stuck w0 w fly sub :
  fresh_conn w0 -> rtc (step S) (w0, [], []) (w, fly, sub) ->
  (open_ w -> exists rc w1, nn_conn_recv w = Some (rc, w1) /\
    (peer_ok S (rx_bytes w1) -> is_Some (nn_event_process_handler false w))) /\
  (open_ w -> is_Some (nn_event_process_handler true w)) /\
  (forall q r w1, q ∈ fly -> reply w w1 q r -> is_Some (nn_conn_outtask q w1)) /\
  (open_ w -> exists go w1, timer_first w = Some (go, w1) /\
    ((forall rc w2, go = true -> nn_conn_recv w1 = Some (rc, w2) -> peer_ok S (rx_bytes w2)) ->
     (nn_conn_timer_handler w = None <-> go = true /\ mc w1 = None))).
Proof using All.
  intros Hf Hr. pose proof (reach_inv _ _ Hf Hr) as H. split; [|split; [|split]].
  - intros Ho. destruct (read_defined _ _ _ H Ho) as (rc & w1 & Hrun & Hd). exists rc, w1. split; [done |]. intros Hp.
    destruct (Hd Hp) as (w' & Hw & _). by exists (tt, w').
  - intros Ho. destruct (write_defined _ _ _ H Ho) as (w' & Hw & _). by exists (tt, w').
  - intros q r w1 Hq R. apply list_elem_of_split in Hq as (l1 & l2 & ->). destruct (reply_defined _ _ _ _ _ _ _ H R) as (rc & w' & Hw & _).
    by exists (rc, w').
  - intros Ho. destruct (timer_defined _ _ _ H Ho) as (go & w1 & Hfst & Hd). exists go, w1. split; [done |]. intros Hp. specialize (Hd Hp).
    destruct (go && bool_decide (mc w1 = None)) eqn:E.
    + apply andb_true_iff in E as [-> E]. apply bool_decide_eq_true in E. done.
    + destruct Hd as (w' & -> & _). split; [done |]. intros [-> Hn]. cbn in E. by apply bool_decide_eq_false in E.
Qed.

(** C5. A read event leaves no complete request behind while there are nodes: if the
    connection is still open, every complete message that has come was dispatched, or all the
    [max_task] nodes are in use (in the histories in which the peer keeps [peer_ok] and the
    responses [reply]). *)
Theorem read_event_drains w0 w fly sub w' :
  fresh_conn w0 -> rtc (step S) (w0, [], []) (w, fly, sub) -> open_ w ->
  (forall rc w1, nn_conn_recv w = Some (rc, w1) -> peer_ok S (rx_bytes w1)) ->
  nn_event_process_handler false w = Some (tt, w') -> open_ w' -> drained w'.
Proof using All.
  intros Hf Hr Ho Hp Hw Ho'. pose proof (reach_inv _ _ Hf Hr) as H. destruct (read_defined _ _ _ H Ho) as (rc & w1 & Hrun & Hd).
  destruct (Hd (Hp _ _ Hrun)) as (w2 & Hw2 & _ & Hdr). assert (w2 = w') as -> by congruence. by apply Hdr.
Qed.

(** C4. The nodes of a connection are conserved, in every history in which the peer's stream is
    whole well-formed messages with the four bytes of a length together ([peer_ok]), each
    response, with its header, fits the send buffer and has its payload in a new block or none
    ([reply]), and [recv] and [send] keep what their documentation says and are not interrupted
    for ever: as long as the connection's pool exists, every one of its [max_task] nodes is
    free, waits with a response, or is in flight, and none is twice. (A peer that sends a negative length makes a node leak:
    [negative_length_leaks].) *)
Theorem nodes_conserved w0 w fly sub c :
  fresh_conn w0 -> rtc (step S) (w0, [], []) (w, fly, sub) -> mc w = Some c ->
  exists fr out, is_queue (lk w) (free_head c) fr /\ is_queue (lk w) (out_head c) out /\ NoDup (fr ++ out ++ fly) /\
    count c = Z.of_nat (length (out ++ fly)) /\ max_task c = Z.of_nat (length (fr ++ out ++ fly)).
Proof using All.
  intros Hf Hr Hc. pose proof (reach_inv _ _ Hf Hr) as H.
  assert (exists fr out, owns w c fr out fly) as (fr & out & [O1 O2 O3 O4 _ _ _ _ O9 O10 _]).
  { inversion H as [? c' kk fr out ? rs lin lout ? [O _ _ _ _ _] | ? ? lin ? G]; subst.
    - exists fr, out. pose proof (o_mc _ _ _ _ _ O). by replace c with c' by congruence.
    - unfold gone in G. case_decide; [congruence |]. destruct G as (c' & fr & O & _). exists fr, []. pose proof (o_mc _ _ _ _ _ O).
      by replace c with c' by congruence. }
  exists fr, out. rewrite !NoDup_cons in O4. tauto.
Qed.

(** C6. The pool of a closed connection lives exactly as long as it is needed, in every history
    in which the peer's stream is whole well-formed messages with the four bytes of a length
    together ([peer_ok]; after a negative length the pool is never destroyed:
    [negative_length_leaks]), each response, with its header, fits the send buffer and has its
    payload in a new block or none ([reply]), and [recv] and [send] keep what their
    documentation says and are not interrupted for ever: it is destroyed as soon as no request is in flight, and not before. *)
Theorem pool_lives_with_requests w0 w fly sub :
  fresh_conn w0 -> rtc (step S) (w0, [], []) (w, fly, sub) -> ~ open_ w -> (mc w = None <-> fly = []).
Proof using All.
  intros Hf Hr Hno. pose proof (reach_inv _ _ Hf Hr) as H. inversion H as [? c kk fr out ? rs lin lout ? [O _ Hk _ _ _] | ? ? lin ? G]; subst.
  - exfalso. apply Hno. exists c, kk. split; [apply (o_mc _ _ _ _ _ O) | done].
  - unfold gone in G. case_decide as Hd; [done |]. destruct G as (c & fr & O & _). pose proof (o_mc _ _ _ _ _ O). split; [congruence | done].
Qed.

End Histories.

(** ** [nn_conn_init] makes a new connection *)

(** What the pool gives a connection: two ranges of bytes apart from each other, links for the
    queues and the nodes. *)
Record granted (w : world) (a : allocs) (n_in n_out : Z) (n : nat) : Prop := {
  g_pool : a_pool a = true /\ a_mc a = true;
  g_headers : a_in a <> nullptr /\ a_out a <> nullptr /\ a_nodes a <> nullptr;
  g_bytes : (0 < a_in_bytes a)%N /\ (0 < a_out_bytes a)%N;
  g_sizes : 0 < n_in < 2 ^ 31 /\ 0 < n_out < 2 ^ 31;
  g_valid : valid (mem w) (a_in_bytes a) (Z.to_nat n_in) /\ valid (mem w) (a_out_bytes a) (Z.to_nat n_out);
  g_apart : (a_in_bytes a + Z.to_N n_in <= a_out_bytes a \/ a_out_bytes a + Z.to_N n_out <= a_in_bytes a)%N;
  g_links : forall q, q ∈ a_free_head a :: a_out_head a :: map (node_of (a_nodes a)) (List.seq 0 n) -> allocated (lk w) q;
  g_heads : NoDup (a_free_head a :: a_out_head a :: map (node_of (a_nodes a)) (List.seq 0 n));
  g_tasks : forall i, (i < n)%nat -> is_Some (tasks w !! node_of (a_nodes a) i)
}.

Lemma init_nodes_spec buff h n : forall i w xs,
  is_queue (lk w) h xs -> NoDup (h :: map (node_of buff) (List.seq i n)) -> (forall q, q ∈ map (node_of buff) (List.seq i n) -> q ∉ xs) ->
  (forall q, q ∈ map (node_of buff) (List.seq i n) -> allocated (lk w) q /\ is_Some (tasks w !! q)) ->
  exists m ts, init_nodes n i buff h w = Some (tt, with_lk m {| mem := mem w; lk := lk w; tasks := ts; blocks := blocks w; mc := mc w;
      calls := calls w; rx_bytes := rx_bytes w; tx_bytes := tx_bytes w; hand := hand w; log := log w |}) /\
    is_queue m h (reverse (map (node_of buff) (List.seq i n)) ++ xs) /\ same_off (h :: xs ++ map (node_of buff) (List.seq i n)) (lk w) m /\
    (forall q, q ∈ map (node_of buff) (List.seq i n) -> exists t, ts !! q = Some t /\ data t = nullptr) /\
    (forall q, q ∉ map (node_of buff) (List.seq i n) -> ts !! q = tasks w !! q).
Proof.
  induction n as [|n IH]; intros i w xs Hq Hnd Hxs Ha; cbn [List.seq map init_nodes] in *.
  - exists (lk w), (tasks w). split; [by destruct w |]. split; [done |]. split; [by intros ? ? |]. split; [intros q Hq'; by apply not_elem_of_nil in Hq' | done].
  - set (q := node_of buff i) in *. destruct (Ha q) as [Hal [t Ht]]; [by left |]. run_with get_task_run. erewrite bind_run by reflexivity.
    destruct (insert_head_spec (lk w) h xs q Hq) as (m & Hm & Hq2 & Hoff); [|done |].
    { rewrite not_elem_of_cons. split; [|apply Hxs; by left]. intros ->. rewrite NoDup_cons in Hnd. apply (proj1 Hnd). by left. }
    set (t2 := with_data nullptr (with_opq (wbt_of buff i) t)). run_with (links_op_run (queue_insert_head h q) (with_task q t2 w) m).
    rewrite !NoDup_cons, not_elem_of_cons in Hnd. destruct Hnd as ((Hhq & Hh) & Hqn & Hnd).
    destruct (IH (S i) (with_lk m (with_task q t2 w)) (q :: xs)) as (m2 & ts & Hrun & Hq3 & Hoff2 & Hts & Hts2).
    + done.
    + by apply NoDup_cons.
    + intros x Hx. rewrite not_elem_of_cons. split; [intros ->; done | apply Hxs; by right].
    + intros x Hx. cbn. destruct (Ha x) as [Hax Htx]; [by right |]. split.
      * eapply same_off_alloc; [exact Hoff | | done]. rewrite !not_elem_of_cons. split; [by intros -> |]. split; [by intros -> |]. apply Hxs. by right.
      * rewrite lookup_insert_ne; [done | by intros ->].
    + exists m2, ts. split; [exact Hrun |]. rewrite reverse_cons, <- app_assoc. split; [exact Hq3 |]. split; [|split].
      * intros x Hx. destruct (Hoff2 x) as [E1 E2]; [set_solver |]. destruct (Hoff x) as [E3 E4]; [set_solver |]. cbn in E1, E2. split; congruence.
      * intros x [-> | Hx]%elem_of_cons; [|by apply Hts]. exists t2. split; [|done]. rewrite Hts2 by done. cbn. by rewrite lookup_insert_eq.
      * intros x Hx. apply not_elem_of_cons in Hx as [Hne Hx]. rewrite Hts2 by done. cbn. by rewrite lookup_insert_ne by done.
Qed.

(** An empty buffer of a pool. *)
Lemma create_content m old h s n :
  h <> nullptr -> (0 < s)%N -> 0 < n < 2 ^ 31 -> valid m s (Z.to_nat n) ->
  exists b, (buffer_create true old h s n).1 = Some b /\ content m b [] /\ start b = s /\ end_ b = (s + Z.to_N n)%N.
Proof.
  intros Hh Hs Hn Hv. unfold buffer_create. destruct (Z.eqb_spec n 0); [lia |]. rewrite !bool_decide_false by (done || unfold nullptr; lia).
  assert (move s n = s + Z.to_N n)%N as E by (unfold move; lia). eexists. split; [reflexivity |]. cbn. rewrite E.
  split; [|done]. split; cbn.
  - split; cbn; [done | lia | unfold minus; lia |]. replace (minus (s + Z.to_N n) s) with n by (unfold minus; lia). done.
  - intros i b Hi. by destruct i.
  - unfold minus. lia.
Qed.

Lemma init_live w a old_in old_out rl sl ml k :
  granted w a (u32 (rl * 2)) (u32 (sl * 2)) (Z.to_nat ml) -> 0 <= ml < 2 ^ 31 -> nullptr ∉ map (node_of (a_nodes a)) (List.seq 0 (Z.to_nat ml)) ->
  exists w' c fr, nn_conn_init a old_in old_out rl sl ml k w =
      (call_handle_read ≫= fun r => if r =? NGX_ERROR then init_error true else mret tt) w' /\ live w' c k fr [] [] [] [] [] /\
    length fr = Z.to_nat ml /\ room (m_in c) = u32 (rl * 2) /\ room (m_out c) = u32 (sl * 2) /\
    rx_bytes w' = rx_bytes w /\ tx_bytes w' = tx_bytes w /\ hand w' = hand w /\ log w' = log w /\ calls w' = calls w.
Proof.
  intros [[G1 G2] (G3 & G4 & G5) [G6 G7] [G8 G9] [G10 G11] G12 G13 G14 G15] Hml Hnull.
  destruct (create_content (mem w) old_in (a_in a) (a_in_bytes a) _ G3 G6 G8 G10) as (bi & Ebi & Hbi & Sbi & Nbi).
  destruct (create_content (mem w) old_out (a_out a) (a_out_bytes a) _ G4 G7 G9 G11) as (bo & Ebo & Hbo & Sbo & Nbo).
  unfold nn_conn_init. rewrite G1, G2, Ebi, Ebo. cbn [negb]. erewrite bind_run by reflexivity. do 5 run_with put_mc_run.
  destruct (init_spec (lk w) (a_free_head a)) as (m1 & Hm1 & Hq1 & Hoff1); [apply G13; by left |].
  run_with links_op_run. rewrite bool_decide_false by done. run_with get_mc_run.
  cbn [max_task with_slow with_connection with_count with_in with_out]. rewrite s32_small by (unfold is_s32; lia).
  set (nodes := map (node_of (a_nodes a)) (List.seq 0 (Z.to_nat ml))) in *.
  rewrite !NoDup_cons, not_elem_of_cons in G14. destruct G14 as ((Hh & Hhn) & Hon & Hnd).
  match goal with |- context [(init_nodes _ _ _ _ ≫= _) ?wa] => set (w1 := wa) end.
  assert (forall q, q ∈ nodes -> allocated m1 q /\ is_Some (tasks w !! q)) as Hall.
  { intros q Hq. split.
    - eapply same_off_alloc; [exact Hoff1 | | apply G13; by do 2 right]. intros ->%list_elem_of_singleton. done.
    - apply list_elem_of_fmap in Hq as (i & -> & Hi%elem_of_seq). apply G15. lia. }
  destruct (init_nodes_spec (a_nodes a) (a_free_head a) (Z.to_nat ml) 0 w1 []) as (m2 & ts & Hrun & Hq2 & Hoff2 & Hts & _);
    [done | by apply NoDup_cons | intros q _; apply not_elem_of_nil | done |].
  rewrite app_nil_r in Hq2. fold nodes in Hq2, Hoff2, Hts.
  run_with Hrun. run_with put_mc_run. destruct (init_spec m2 (a_out_head a)) as (m3 & Hm3 & Hq3 & Hoff3).
  { eapply same_off_alloc; [exact Hoff2 | | eapply same_off_alloc; [exact Hoff1 | | apply G13; right; by left]]; set_solver. }
  run_with links_op_run. unfold nn_conn_update_state. run_with put_mc_run. eexists _, _, (reverse nodes). split; [reflexivity |].
  assert (length nodes = Z.to_nat ml) as Hlen by (unfold nodes; by rewrite length_map, length_seq).
  split; [split; cbn; try done |].
  - split; cbn; try done.
    + eapply is_queue_frame; [exact Hoff3 | | exact Hq2]. intros x Hx ->%list_elem_of_singleton. rewrite elem_of_cons, elem_of_reverse in Hx. naive_solver.
    + assert (fr_perm : reverse nodes ++ [] ++ [] ≡ₚ nodes) by (rewrite !app_nil_r; apply reverse_Permutation). rewrite fr_perm, !NoDup_cons, not_elem_of_cons. done.
    + rewrite app_nil_r, elem_of_reverse. done.
    + intros q Hq. by apply not_elem_of_nil in Hq.
    + intros q Hq. by apply not_elem_of_nil in Hq.
    + intros q Hq. rewrite elem_of_reverse in Hq. destruct (Hts q Hq) as (t & Ht & Hd). exists t. split; [done | by left].
    + rewrite !length_app, length_reverse, Hlen. cbn. lia.
    + cbn [max_task with_state with_timer with_slow with_connection with_count]. lia.
  - done.
  - done.
  - split; constructor.
  - split; cbn; try done.
    + unfold apart. rewrite Sbi, Nbi, Sbo, Nbo. lia.
    + rewrite Sbi, Nbi. lia.
  - rewrite length_reverse. split; [done |]. cbn. unfold room. rewrite Sbi, Nbi, Sbo, Nbo. repeat split; unfold minus; lia.
Qed.

(** [nn_conn_init] makes a new connection from what the pool gives it, with [max_tqueue_len]
    free nodes and buffers of twice the configured sizes; and when the read event cannot be
    registered the pool is destroyed and the connection given back. *)
Theorem init_fresh w a old_in old_out rl sl ml k :
  granted w a (u32 (rl * 2)) (u32 (sl * 2)) (Z.to_nat ml) -> 0 <= ml < 2 ^ 31 -> nullptr ∉ map (node_of (a_nodes a)) (List.seq 0 (Z.to_nat ml)) ->
  rx_bytes w = [] -> tx_bytes w = [] -> no_hand (hand w) ->
  exists w', nn_conn_init a old_in old_out rl sl ml k w = Some (tt, w') /\
    if event_handle_read (calls w) =? NGX_ERROR then mc w' = None /\ log w' = log w ++ [Destroy; Close]
    else fresh_conn w' /\ exists c fr, mc w' = Some c /\ is_queue (lk w') (free_head c) fr /\ length fr = Z.to_nat ml /\
      room (m_in c) = u32 (rl * 2) /\ room (m_out c) = u32 (sl * 2).
Proof.
  intros Hg Hml Hnull E1 E2 E3. destruct (init_live w a old_in old_out rl sl ml k Hg Hml Hnull) as (w' & c & fr & Hrun & L & Hlen & R1 & R2 & F1 & F2 & F3 & F4 & F5).
  rewrite Hrun. erewrite bind_run by reflexivity. rewrite F5. destruct (event_handle_read (calls w) =? NGX_ERROR).
  - eexists. split; [reflexivity |]. cbn. rewrite F4, <- app_assoc. done.
  - eexists. split; [reflexivity |]. pose proof (l_owns _ _ _ _ _ _ _ _ _ L) as [O1 O2 _ _ _ _ _ _ _ _ _]. split.
    + exists c, k, fr. split; [|cbn; rewrite F1, F2, F3, E1, E2; done].
      eapply (live_conn w' c); try done. apply (l_conn _ _ _ _ _ _ _ _ _ L).
    + exists c, fr. cbn. done.
Qed.

(** C40. The timer handler of a busy connection goes on after its connection is gone: when the
    write handler closes the connection and no request is in flight, the pool that holds the
    connection is destroyed, and the read handler that follows reads it. *)
Theorem timer_handler_use_after_free (Hsend : send_ok) w c kk fr out rs lin lout w2 :
  live w c kk fr out [] rs lin lout -> event_handle_read (calls w) = 0 ->
  nn_conn_write_handler (one_call [] [] (with_mc (Some (with_timer false c)) w)) = Some (tt, w2) -> ~ open_ w2 ->
  nn_conn_timer_handler w = None.
Proof.
  intros L Hev Hw Hno. pose proof L as [O Hst Hk Hp B Hfit]. pose proof (o_mc _ _ _ _ _ O) as Hmc.
  unfold nn_conn_timer_handler. run_with (get_conn_run w). run_with put_mc_run. erewrite bind_run by reflexivity. cbn [calls with_mc]. rewrite Hev. cbn [Z.eqb negb].
  set (w1 := one_call [] [] _) in *. assert (live w1 (with_timer false c) kk fr out [] rs lin lout) as L1 by (by eapply live_conn).
  run_with Hw. destruct (write_handler_live Hsend _ _ _ _ _ _ _ _ _ L1) as (w' & rc & Hw' & sent & _ & _ & _ & Hcase).
  assert (w' = w2) as -> by congruence. destruct Hcase as [((c' & k' & ? & ? & ? & ? & ? & _ & _ & L2 & _) & _) | (_ & G & _)].
  - exfalso. apply Hno. exists c', k'. split; [apply (o_mc _ _ _ _ _ (l_owns _ _ _ _ _ _ _ _ _ L2)) | apply (l_conn _ _ _ _ _ _ _ _ _ L2)].
  - unfold gone in G. rewrite decide_True in G by done. unfold nn_conn_read_handler, get_mc. unfold mbind at 1, M_bind. by rewrite G.
Qed.
End Connection.

(** ** Witnesses

    A connection with two nodes and two buffers of 400 bytes. A request of 347 bytes comes, its
    response is given back, the socket takes 200 bytes at a time. *)

Definition request : message := (ping, [97; 98; 99]).
Definition pong : task :=
  {| cmd := 17; ret := 0; seq := 7; pad_opq := Codec.blank 4; opq := 1352%N; master_nodeid := -1; key := 47 :: Codec.blank 255; user := Codec.blank 16;
     group := Codec.blank 16; permission := 420; pad_permission := Codec.blank 2; data_len := 2; pad_data := Codec.blank 4; data := 9000%N |}.
Definition response : message := (pong, [111; 107]).

Definition a_recv (k : nat) (n : Z) : rx_result :=
  if bool_decide (k = 1%nat) && (347 <=? n) then RData (frame ping [97; 98; 99])
  else if bool_decide (k = 3%nat) then RClosed else RAgain.
Definition a_send (k : nat) (l : list Z) : tx_result := 
  match l with [] => TAgain | _ => if bool_decide (k = 4%nat) then TAgain else TSent (Z.min 200 (Z.of_nat (length l))) end.
Definition no_error (k : nat) : Z := 0.

Lemma a_recv_ok : recv_ok a_recv 1.
Proof.
  split.
  - intros k n l. unfold a_recv. destruct (bool_decide (k = 1%nat)); cbn [andb]; [|by case_bool_decide]. destruct (Z.leb_spec 347 n); [|by case_bool_decide].
    intros [= <-]. split; [done |]. rewrite length_frame by apply ping_ok. done.
  - intros k n. exists 0%nat. split; [lia |]. unfold a_recv. destruct (_ && _); [done |]. by case_bool_decide.
Qed.

Lemma a_send_ok : send_ok a_send 1.
Proof.
  split.
  - intros k l n. unfold a_send. destruct l; [done |]. case_bool_decide; [done |]. intros [= <-]. cbn [length]. lia.
  - intros k l. exists 0%nat. split; [lia |]. unfold a_send. destruct l; [done |]. by case_bool_decide.
Qed.

Definition pool_links : links :=
  let cells := list_to_map (map (fun q => (q, 0%N)) [100; 116; 1336; 1704]%N) in {| l_next := cells; l_prev := cells |}.

Definition pool_world : world :=
  {| mem := fill 4096 400 0 (fill 8192 400 0 ∅); lk := pool_links; tasks := <[1336%N := ping]> (<[1704%N := ping]> ∅); blocks := ∅;
     mc := None; calls := 0; rx_bytes := []; tx_bytes := []; hand := {| sent := []; tqs := [[]; []]; batches := [[]; []] |}; log := [] |}.

Definition pool_allocs : allocs :=
  {| a_pool := true; a_mc := true; a_in := 200; a_in_bytes := 4096; a_out := 300; a_out_bytes := 8192; a_nodes := 1000; a_free_head := 100;
     a_out_head := 116 |}.

Definition idle : conn := {| w_ready := true; w_timedout := false; w_timer_set := false |}.

Lemma pool_granted : granted pool_world pool_allocs (u32 (200 * 2)) (u32 (200 * 2)) (Z.to_nat 2).
Proof.
  change (u32 (200 * 2)) with 400. split.
  - done.
  - done.
  - done.
  - lia.
  - split; apply (load_valid _ _ _ (Codec.blank 400)); vm_compute; reflexivity.
  - left. done.
  - intros q Hq. assert (q ∈ [100; 116; 1704; 1336]%N) as Hq' by (revert Hq; vm_compute; set_solver). clear Hq.
    repeat (apply elem_of_cons in Hq' as [-> | Hq']; [split; vm_compute; by eexists |]). by apply not_elem_of_nil in Hq'.
  - apply (bool_decide_unpack _). vm_compute. exact I.
  - intros [|[|i]] Hi; [vm_compute; by eexists | vm_compute; by eexists | lia].
Qed.

Lemma pool_nodes : nullptr ∉ map (node_of (a_nodes pool_allocs)) (List.seq 0 (Z.to_nat 2)).
Proof. apply (bool_decide_unpack _). vm_compute. exact I. Qed.

Definition after (o : option (unit * world)) : world := default pool_world (snd <$> o).

Lemma after_run o : bool_decide (is_Some o) = true -> o = Some (tt, after o).
Proof. intros H%bool_decide_eq_true. destruct H as [[[] w] ->]. done. Qed.

Definition w_new : world := after (nn_conn_init no_error pool_allocs raw_buffer raw_buffer 200 200 2 idle pool_world).
Definition w_read : world := after (nn_event_process_handler a_recv a_send 1 no_error false w_new).

Lemma made_live k :
  exists c fr, live (after (nn_conn_init no_error pool_allocs raw_buffer raw_buffer 200 200 2 k pool_world)) c k fr [] [] [] [] [] /\
    let w := after (nn_conn_init no_error pool_allocs raw_buffer raw_buffer 200 200 2 k pool_world) in
    rx_bytes w = [] /\ tx_bytes w = [] /\ no_hand (hand w).
Proof.
  destruct (init_live a_recv a_send 1 no_error no_error pool_world pool_allocs raw_buffer raw_buffer 200 200 2 k pool_granted) as (w' & c & fr & Hrun & L & _ & _ & _ & F1 & F2 & F3 & _);
    [lia | exact pool_nodes |].
  rewrite Hrun. exists c, fr. split.
  2: { change (rx_bytes w' ++ [] = [] /\ tx_bytes w' ++ [] = [] /\ no_hand (hand w')). rewrite !app_nil_r, F1, F2, F3. split; [done |]. split; [done |]. exists 2%nat. split; [lia | reflexivity]. }
  cbn. eapply (live_conn w' c); try done; [apply (o_mc _ _ _ _ _ (l_owns _ _ _ _ _ _ _ _ _ L)) |].
  apply (l_conn _ _ _ _ _ _ _ _ _ L).
Qed.

Lemma new_fresh : fresh_conn w_new.
Proof. destruct (made_live idle) as (c & fr & L & H). by exists c, idle, fr. Qed.

Lemma request_wire : Forall wire [request].
Proof. constructor; [|constructor]. split; [apply ping_ok | done]. Qed.

Lemma request_small r : r ∈ [request] -> 344 + Z.of_nat (length r.2) < 2 ^ 31.
Proof. intros ->%list_elem_of_singleton. done. Qed.

Definition open_b (w : world) : bool := bool_decide (is_Some (mc w ≫= connection)).
Lemma open_b_open w : open_b w = true -> open_ w.
Proof. unfold open_b. intros [k H]%bool_decide_eq_true. destruct (mc w) as [c|] eqn:E; [|done]. by exists c, k. Qed.

Abbreviation a_step := (step a_recv a_send 1 no_error no_error [request]).

Lemma new_peer rc w1 : nn_conn_recv a_recv 1 w_new = Some (rc, w1) -> peer_ok [request] (rx_bytes w1).
Proof.
  intros H. assert ((fun x => rx_bytes x.2) <$> nn_conn_recv a_recv 1 w_new = Some (frames [request])) as E by (vm_compute; reflexivity).
  rewrite H in E. injection E as E. change (rx_bytes w1 = frames [request]) in E. rewrite E. exists [request], [], []. rewrite !app_nil_r. auto.
Qed.

Lemma read_runs : nn_event_process_handler a_recv a_send 1 no_error false w_new = Some (tt, w_read).
Proof. apply after_run. vm_compute. reflexivity. Qed.

Lemma read_step : a_step (w_new, [], []) (w_read, [1704%N], []).
Proof.
  change [1704%N] with ([] ++ [1704%N]). assert (drop (length (dispatched w_new)) ((dispatched w_read).*1) = [1704%N]) as <- by (vm_compute; reflexivity).
  apply step_read; [apply open_b_open; vm_compute; reflexivity | exact new_peer | exact read_runs].
Qed.

(** A thread answers, its payload in a new block at 9000. *)
Definition answer (w : world) : world :=
  with_mem (<[9000%N := 111]> (<[9001%N := 107]> (mem w))) (with_blocks (blocks w ∪ {[9000%N]}) (with_task 1704%N pong w)).
Definition w_answer : world := answer w_read.
Definition w_sent : world := after ((fun x => (tt, x.2)) <$> nn_conn_outtask a_send 1 no_error 1704%N w_answer).

Lemma pong_ok : task_ok pong.
Proof. split; cbn; unfold is_u32, is_s32; try lia; split; try reflexivity; repeat constructor; unfold is_u8; lia. Qed.

Lemma mem_read_new : mem w_read !! 9000%N = None /\ mem w_read !! 9001%N = None /\ (9000%N ∉ blocks w_read) /\
  (fun c => room (m_out c)) <$> mc w_read = Some 400.
Proof. split; [|split; [|split]]; [vm_compute; reflexivity.. | apply (bool_decide_unpack _); vm_compute; exact I | vm_compute; reflexivity]. Qed.

Lemma answer_reply w :
  mem w !! 9000%N = None -> mem w !! 9001%N = None -> 9000%N ∉ blocks w -> (fun c => room (m_out c)) <$> mc w = Some 400 ->
  reply w (answer w) 1704%N response.
Proof.
  intros E1 E2 E3 E4. split.
  - reflexivity.
  - done.
  - cbn. set_solver.
  - cbn. etransitivity; [apply (insert_subseteq _ 9001%N 107 E2) |]. apply insert_subseteq. by rewrite lookup_insert_ne.
  - split; [apply pong_ok | done | by vm_compute |]. intros _ [|[|i]] b Hb; cbn in Hb; [| |done]; injection Hb as <-; cbn [mem answer with_mem response fst pong data].
    + apply lookup_insert_eq.
    + rewrite lookup_insert_ne by done. apply lookup_insert_eq.
  - intros _. split; [done |]. split; [cbn; set_solver |]. split; [exact E3 |].
    intros [|[|i]] Hi; [exact E1 | exact E2 | cbn in Hi; lia].
  - intros c Hc. rewrite Hc in E4. injection E4 as E4. cbn. lia.
Qed.

Lemma read_answered : reply w_read w_answer 1704%N response.
Proof. destruct mem_read_new as (E1 & E2 & E3 & E4). by apply answer_reply. Qed.

Lemma answer_runs : exists rc, nn_conn_outtask a_send 1 no_error 1704%N w_answer = Some (rc, w_sent).
Proof.
  unfold w_sent. assert (bool_decide (is_Some (nn_conn_outtask a_send 1 no_error 1704%N w_answer)) = true) as H by (vm_compute; reflexivity).
  apply bool_decide_eq_true in H as [[rc w] H]. exists rc. by rewrite H.
Qed.

Definition w_ready_again : world :=
  match mc w_sent with Some c => with_mc (Some (with_connection (Some idle) c)) w_sent | None => w_sent end.
Definition w_done : world := after (nn_event_process_handler a_recv a_send 1 no_error true w_ready_again).

Lemma done_runs : nn_event_process_handler a_recv a_send 1 no_error true w_ready_again = Some (tt, w_done).
Proof. apply after_run. vm_compute. reflexivity. Qed.

Lemma history_answered : rtc a_step (w_new, [], []) (w_sent, [], [response]).
Proof.
  eapply rtc_l; [apply read_step |]. destruct answer_runs as [rc Hrun].
  eapply rtc_l; [exact (step_reply _ _ _ _ _ _ w_read [] 1704%N [] [] response w_answer rc w_sent read_answered Hrun) | apply rtc_refl].
Qed.

Lemma ready_step : a_step (w_sent, [], [response]) (w_ready_again, [], [response]).
Proof.
  assert (open_b w_sent = true) as H by (vm_compute; reflexivity). apply open_b_open in H as (c & kk & Hc & Hk).
  assert (w_ready_again = with_mc (Some (with_connection (Some idle) c)) w_sent) as -> by (unfold w_ready_again; by rewrite Hc).
  apply (step_event _ _ _ _ _ _ w_sent _ _ c kk idle Hc Hk).
Qed.

Lemma history_done : rtc a_step (w_new, [], []) (w_done, [], [response]).
Proof.
  eapply rtc_r; [eapply rtc_r; [apply history_answered | apply ready_step] |].
  apply step_write; [apply open_b_open; vm_compute; reflexivity | apply done_runs].
Qed.

(** The second of the two handling threads takes the request: the key begins with a slash. *)
Definition w_taken : world := with_hand (take_batch 1 (hand w_read)) w_read.

Lemma history_taken : rtc a_step (w_new, [], []) (w_taken, [1704%N], []).
Proof. eapply rtc_l; [apply read_step |]. apply rtc_once. exact (step_take _ _ _ _ _ _ w_read [1704%N] [] 1). Qed.

Lemma requests_in_order_witness :
  (exists reqs rest lin, [request] = reqs ++ rest /\ rx_bytes w_taken = frames reqs ++ lin /\ Forall2 (fun e r => arrived e.2 r) (dispatched w_taken) reqs /\
    (open_ w_taken -> exists c, mc w_taken = Some c /\ content (mem w_taken) (m_in c) lin)) /\
  batches (hand w_taken) !! 1%nat = Some [[1704%N]] /\ [1704%N] = (filter (fun e => thread_of (length (tqs (hand w_taken))) e.2.1 = 1%nat) (dispatched w_taken)).*1.
Proof.
  destruct (requests_in_order a_recv a_send 1 no_error no_error a_recv_ok a_send_ok [request] request_wire request_small
    w_new w_taken [1704%N] [] new_fresh history_taken) as (H1 & H2 & _).
  split; [exact H1 |]. assert (batches (hand w_taken) !! 1%nat = Some [[1704%N]]) as Eb by (vm_compute; reflexivity).
  assert (tqs (hand w_taken) !! 1%nat = Some []) as Eq by (vm_compute; reflexivity). split; [exact Eb |]. exact (H2 1%nat _ _ Eb Eq).
Defined.

Lemma responses_in_order_witness :
  tx_bytes w_done `prefix_of` frames [response] /\
  (open_ w_done -> exists c out rs lout, mc w_done = Some c /\ is_queue (lk w_done) (out_head c) out /\
    Forall2 (fun q r => tasks w_done !! q = Some r.1) out rs /\ content (mem w_done) (m_out c) lout /\ tx_bytes w_done ++ lout ++ frames rs = frames [response]).
Proof.
  exact (responses_in_order a_recv a_send 1 no_error no_error a_recv_ok a_send_ok [request] request_wire request_small
    w_new w_done [] [response] new_fresh history_done).
Defined.

Lemma connection_never_stuck_witness :
  open_ w_read /\ is_Some (nn_event_process_handler a_recv a_send 1 no_error true w_read) /\ is_Some (nn_conn_outtask a_send 1 no_error 1704%N w_answer) /\
  exists go w1, timer_first a_send 1 no_error no_error w_read = Some (go, w1).
Proof.
  destruct (connection_never_stuck a_recv a_send 1 no_error no_error a_recv_ok a_send_ok [request] request_wire request_small
    w_new w_read [1704%N] [] new_fresh (rtc_once _ _ read_step)) as (_ & Hw & Hr & Ht).
  assert (open_ w_read) as Ho by (apply open_b_open; vm_compute; reflexivity).
  split; [exact Ho |]. split; [exact (Hw Ho) |]. split; [exact (Hr 1704%N response w_answer (list_elem_of_here _ _) read_answered) |].
  destruct (Ht Ho) as (go & w1 & Hf & _). exists go, w1. exact Hf.
Defined.

Lemma read_event_drains_witness : drained [request] w_read.
Proof.
  apply (read_event_drains a_recv a_send 1 no_error no_error a_recv_ok a_send_ok [request] request_wire request_small
    w_new w_new [] [] w_read new_fresh (rtc_refl _ _)).
  - apply open_b_open. vm_compute. reflexivity.
  - exact new_peer.
  - exact read_runs.
  - apply open_b_open. vm_compute. reflexivity.
Defined.

Lemma nodes_conserved_witness :
  exists c fr out, mc w_read = Some c /\ NoDup (fr ++ out ++ [1704%N]) /\ max_task c = Z.of_nat (length (fr ++ out ++ [1704%N])).
Proof.
  assert (open_ w_read) as (c & kk & Hc & _) by (apply open_b_open; vm_compute; reflexivity).
  destruct (nodes_conserved a_recv a_send 1 no_error no_error a_recv_ok a_send_ok [request] request_wire request_small
    w_new w_read [1704%N] [] c new_fresh (rtc_once _ _ read_step) Hc) as (fr & out & _ & _ & H1 & _ & H2).
  exists c, fr, out. exact (conj Hc (conj H1 H2)).
Defined.

Lemma init_fresh_witness :
  exists w', nn_conn_init no_error pool_allocs raw_buffer raw_buffer 200 200 2 idle pool_world = Some (tt, w') /\ fresh_conn w'.
Proof.
  destruct (init_fresh a_recv a_send 1 no_error no_error pool_world pool_allocs raw_buffer raw_buffer 200 200 2 idle pool_granted) as (w' & H1 & H2 & _);
    [lia | exact pool_nodes | reflexivity | reflexivity | exists 2%nat; split; [lia | reflexivity] |]. exists w'. exact (conj H1 H2).
Defined.

(** The peer closes the connection while its request is in flight; the response that comes then
    takes the pool with it. *)
Definition w_closed : world := after (nn_event_process_handler a_recv a_send 1 no_error false w_read).
Definition w_freed : world := after ((fun x => (tt, x.2)) <$> nn_conn_outtask a_send 1 no_error 1704%N (answer w_closed)).

Lemma read_peer rc w1 : nn_conn_recv a_recv 1 w_read = Some (rc, w1) -> peer_ok [request] (rx_bytes w1).
Proof.
  intros H. assert ((fun x => rx_bytes x.2) <$> nn_conn_recv a_recv 1 w_read = Some (frames [request])) as E by (vm_compute; reflexivity).
  rewrite H in E. injection E as E. change (rx_bytes w1 = frames [request]) in E. rewrite E. exists [request], [], []. rewrite !app_nil_r. auto.
Qed.

Lemma close_step : a_step (w_read, [1704%N], []) (w_closed, [1704%N], []).
Proof.
  assert ([1704%N] ++ drop (length (dispatched w_read)) ((dispatched w_closed).*1) = [1704%N]) as E by (vm_compute; reflexivity).
  rewrite <- E at 2. apply (step_read _ _ _ _ _ _ w_read [1704%N] [] w_closed); [apply open_b_open; vm_compute; reflexivity | exact read_peer |]. apply after_run. vm_compute. reflexivity.
Qed.

Lemma mem_closed_new : mem w_closed !! 9000%N = None /\ mem w_closed !! 9001%N = None /\ (9000%N ∉ blocks w_closed) /\
  (fun c => room (m_out c)) <$> mc w_closed = Some 400.
Proof. split; [|split; [|split]]; [vm_compute; reflexivity.. | apply (bool_decide_unpack _); vm_compute; exact I | vm_compute; reflexivity]. Qed.

Lemma closed_answered : reply w_closed (answer w_closed) 1704%N response.
Proof. destruct mem_closed_new as (E1 & E2 & E3 & E4). by apply answer_reply. Qed.

Lemma freed_step : a_step (w_closed, [1704%N], []) (w_freed, [], [response]).
Proof.
  assert (exists rc, nn_conn_outtask a_send 1 no_error 1704%N (answer w_closed) = Some (rc, w_freed)) as [rc Hrun].
  { unfold w_freed. assert (bool_decide (is_Some (nn_conn_outtask a_send 1 no_error 1704%N (answer w_closed))) = true) as H by (vm_compute; reflexivity).
    apply bool_decide_eq_true in H as [[rc w] H]. exists rc. by rewrite H. }
  exact (step_reply _ _ _ _ _ _ w_closed [] 1704%N [] [] response (answer w_closed) rc w_freed closed_answered Hrun).
Qed.

Lemma history_closed : rtc a_step (w_new, [], []) (w_closed, [1704%N], []).
Proof. eapply rtc_l; [apply read_step | apply rtc_once, close_step]. Qed.

Lemma not_open w : open_b w = false -> ~ open_ w.
Proof. unfold open_b. intros H%bool_decide_eq_false (c & kk & Hc & Hk). apply H. rewrite Hc. cbn. rewrite Hk. by eexists. Qed.

Lemma pool_lives_with_requests_witness : mc w_closed <> None /\ mc w_freed = None.
Proof.
  split.
  - intros H. assert (~ open_ w_closed) as Hno by (apply not_open; vm_compute; reflexivity).
    discriminate (proj1 (pool_lives_with_requests a_recv a_send 1 no_error no_error a_recv_ok a_send_ok [request] request_wire request_small
      w_new w_closed [1704%N] [] new_fresh history_closed Hno) H).
  - apply (pool_lives_with_requests a_recv a_send 1 no_error no_error a_recv_ok a_send_ok [request] request_wire request_small
      w_new w_freed [] [response] new_fresh (rtc_r _ _ _ history_closed freed_step)); [apply not_open; vm_compute; reflexivity | reflexivity].
Defined.

(** A write event that has timed out when the timer of the busy connection fires. *)
Definition late : conn := {| w_ready := true; w_timedout := true; w_timer_set := false |}.
Definition w_late : world := after (nn_conn_init no_error pool_allocs raw_buffer raw_buffer 200 200 2 late pool_world).

Lemma late_write c : mc w_late = Some c ->
  exists w2, nn_conn_write_handler a_send 1 no_error (one_call [] [] (with_mc (Some (with_timer false c)) w_late)) = Some (tt, w2) /\ ~ open_ w2.
Proof.
  set (o c := nn_conn_write_handler a_send 1 no_error (one_call [] [] (with_mc (Some (with_timer false c)) w_late))). intros Hc.
  assert ((fun c => match o c with Some (_, w2) => open_b w2 | None => true end) <$> mc w_late = Some false) as H by (vm_compute; reflexivity).
  rewrite Hc in H. injection H as H. change (o c) with (o c) in H. fold (o c). destruct (o c) as [[[] w2]|]; [|discriminate H]. exists w2. split; [reflexivity | by apply not_open].
Qed.

Lemma timer_handler_use_after_free_witness : nn_conn_timer_handler a_recv a_send 1 no_error no_error w_late = None.
Proof.
  destruct (made_live late) as (c & fr & L & _). fold w_late in L.
  destruct (late_write c (o_mc _ _ _ _ _ (l_owns _ _ _ _ _ _ _ _ _ L))) as (w2 & Hw & Hno).
  exact (timer_handler_use_after_free a_recv a_send 1 no_error no_error a_send_ok w_late c late fr [] [] [] [] w2 L eq_refl Hw Hno).
Defined.

(** A second request is read before the first is handled: its bytes come to lie over the
    payload of the first, to which the task still points. *)
Definition second : message := (ping, [120; 121; 122]).
Definition busy_recv (k : nat) (n : Z) : rx_result :=
  if bool_decide (k = 1%nat) then RData (frame ping [97; 98; 99]) else if bool_decide (k = 3%nat) then RData (frame ping [120; 121; 122]) else RAgain.
Definition w_first : world := after (nn_event_process_handler busy_recv a_send 1 no_error false w_new).
Definition w_second : world := after (nn_event_process_handler busy_recv a_send 1 no_error false w_first).

Example payload_overwritten :
  (fun e => e.2.2) <$> dispatched w_second = [[97; 98; 99]; [120; 121; 122]] /\
  (fun e => payload_now (mem w_second) e.2.1) <$> dispatched w_second = [[120; 121; 122]; [120; 121; 122]].
Proof. vm_compute. done. Qed.

(** A peer that sends a negative length: [nn_conn_decode] takes a node and goes on, until it has
    taken all of them. None is in a queue or was dispatched, and when the peer closes the
    connection the pool stays. *)
Definition bad_recv (k : nat) (n : Z) : rx_result :=
  if bool_decide (k = 1%nat) then RData (le 4 (- 168) ++ repeat 0 340) else if bool_decide (k = 3%nat) then RClosed else RAgain.
Definition w_leaked : world := after (nn_event_process_handler bad_recv a_send 1 no_error false w_new).
Definition w_leaked_closed : world := after (nn_event_process_handler bad_recv a_send 1 no_error false w_leaked).

Example negative_length_leaks :
  (fun c => (count c, max_task c, queue_empty (free_head c) (lk w_leaked), queue_empty (out_head c) (lk w_leaked))) <$> mc w_leaked =
    Some (2, 2, Some true, Some true) /\ dispatched w_leaked = [] /\
  (fun c => (match connection c with None => true | _ => false end, count c)) <$> mc w_leaked_closed = Some (true, 2).
Proof. vm_compute. done. Qed.
