(* ===== verification/MemoryPool.v ===== *)
(** * The memory pool ([src/core/dfs_memory_pool.cpp], [src/core/dfs_memory.cpp])

    A pool is a chain of blocks of the same size, each with a header; small requests are cut
    off the blocks, large ones get a block of [malloc] of their own, on a list whose nodes are
    small requests of the pool itself.

    The heap holds the headers as objects at their addresses and the bytes of the clients. A
    write to a range of bytes destroys the headers it overlaps, and so does [free] of a block:
    reading such a header is undefined. So a theorem that a call is defined whatever clients
    have written to their ranges says that no range overlaps what the pool needs.

    [malloc] and [posix_memalign] are parameters, numbered by call, that see the blocks which
    are live. *)

From S2P Require Import Prelude Memory.

(** ** Heap *)

(* src/src/core/dfs_memory_pool.h:28-33 (pool_data_s) *)
Record pool_data := { last : ptr; end_ : ptr; next : ptr }.

(** The rest of the header of a pool's first block. *)
(* src/src/core/dfs_memory_pool.h:36-43 (pool_s) *)
Record pool_s := { max : Z; current : ptr; large : ptr }.

(* src/src/core/dfs_memory_pool.h:20-25 (pool_large_s) *)
Record pool_large_s := { alloc : ptr; l_size : Z; l_next : ptr }.

Definition sizeof_pool_data : Z := 24.
Definition sizeof_pool : Z := 56.
Definition sizeof_pool_large : Z := 24.

Record heap := {
  datas : gmap ptr pool_data; pools : gmap ptr pool_s; larges : gmap ptr pool_large_s; live : gmap ptr Z; bytes : memory; calls : nat
}.

Definition set_data (p : ptr) (d : pool_data) (h : heap) : heap :=
  {| datas := <[p := d]> (datas h); pools := pools h; larges := larges h; live := live h; bytes := bytes h; calls := calls h |}.
Definition set_pool (p : ptr) (r : pool_s) (h : heap) : heap :=
  {| datas := datas h; pools := <[p := r]> (pools h); larges := larges h; live := live h; bytes := bytes h; calls := calls h |}.
Definition set_large (p : ptr) (l : pool_large_s) (h : heap) : heap :=
  {| datas := datas h; pools := pools h; larges := <[p := l]> (larges h); live := live h; bytes := bytes h; calls := calls h |}.
Definition set_live (l : gmap ptr Z) (h : heap) : heap :=
  {| datas := datas h; pools := pools h; larges := larges h; live := l; bytes := bytes h; calls := calls h |}.
Definition one_call (h : heap) : heap :=
  {| datas := datas h; pools := pools h; larges := larges h; live := live h; bytes := bytes h; calls := S (calls h) |}.

(** The ranges of [n] bytes from [p] and of [k] bytes from [q] have no byte in common. *)
Definition apart (p : ptr) (n : Z) (q : ptr) (k : Z) : Prop := Z.of_N p + n <= Z.of_N q \/ Z.of_N q + k <= Z.of_N p.

#[export] Instance apart_dec p n q k : Decision (apart p n q k).
Proof. unfold apart. apply _. Defined.

(** The headers that overlap the range are gone. *)
Definition clobber (p : ptr) (n : Z) (h : heap) : heap :=
  {| datas := filter (fun x => apart p n x.1 sizeof_pool_data) (datas h); pools := filter (fun x => apart p n x.1 sizeof_pool) (pools h);
     larges := filter (fun x => apart p n x.1 sizeof_pool_large) (larges h); live := live h; bytes := bytes h; calls := calls h |}.

Fixpoint put (p : ptr) (l : list Z) (m : memory) : memory :=
  match l with [] => m | b :: l => put (at_ p 1) l (<[p := b]> m) end.

(** A client writes the bytes [l] from [p] on. *)
Definition write (p : ptr) (l : list Z) (h : heap) : heap :=
  let h := clobber p (Z.of_nat (length l)) h in
  {| datas := datas h; pools := pools h; larges := larges h; live := live h; bytes := put p l (bytes h); calls := calls h |}.

(** ** [src/core/dfs_memory.cpp] *)

Section Pool.

Context (malloc : nat -> gmap ptr Z -> Z -> ptr) (posix_memalign : nat -> gmap ptr Z -> Z -> Z -> ptr).

Definition add_live (p : ptr) (size : Z) (h : heap) : heap :=
  if bool_decide (p = nullptr) then h else set_live (<[p := size]> (live h)) h.

(* src/src/core/dfs_memory.cpp:8-20 (memory_alloc) *)
Definition memory_alloc (size : Z) (h : heap) : ptr * heap :=
  if size =? 0 then (nullptr, h)
  else let p := malloc (calls h) (live h) size in (p, add_live p size (one_call h)).

(* src/src/core/dfs_memory.cpp:23-33 (memory_calloc) *)
Definition memory_calloc (size : Z) (h : heap) : ptr * heap :=
  let '(p, h) := memory_alloc size h in
  if bool_decide (p = nullptr) then (p, h) else (p, write p (repeat 0 (Z.to_nat size)) h).

(** [free] of what is not a live block is undefined. *)
(* src/src/core/dfs_memory.cpp:35-41 (memory_free) *)
Definition memory_free (p : ptr) (h : heap) : option heap :=
  if bool_decide (p = nullptr) then Some h
  else n ← live h !! p; Some (set_live (delete p (live h)) (clobber p n h)).

(* src/src/core/dfs_memory.cpp:44-56 (memory_memalign) *)
Definition memory_memalign (alignment size : Z) (h : heap) : ptr * heap :=
  if size =? 0 then (nullptr, h)
  else let p := posix_memalign (calls h) (live h) alignment size in (p, add_live p size (one_call h)).

(** ** The pool *)

Definition with_last (p : ptr) (d : pool_data) : pool_data := {| last := p; end_ := end_ d; next := next d |}.
Definition with_next (p : ptr) (d : pool_data) : pool_data := {| last := last d; end_ := end_ d; next := p |}.
Definition with_current (p : ptr) (r : pool_s) : pool_s := {| max := max r; current := p; large := large r |}.
Definition with_large (p : ptr) (r : pool_s) : pool_s := {| max := max r; current := current r; large := p |}.
Definition with_alloc (p : ptr) (l : pool_large_s) : pool_large_s := {| alloc := p; l_size := l_size l; l_next := l_next l |}.

Definition plus (p : ptr) (n : Z) : ptr := Z.to_N (Z.of_N p + n).
Definition minus (p q : ptr) : Z := Z.of_N p - Z.of_N q.

(* src/src/core/dfs_memory_pool.h:13-14 (dfs_align_ptr) *)
Definition dfs_align_ptr (p : ptr) (a : Z) : ptr := Z.to_N (Z.land (u64 (Z.of_N p + (a - 1))) (Z.lnot (a - 1))).
Definition DFS_ALIGNMENT : Z := 8.

(* src/src/core/dfs_memory_pool.cpp:13-49 (pool_create) *)
Definition pool_create (size max_size : Z) (h : heap) : ptr * heap :=
  if size =? 0 then (nullptr, h)
  else
    let size := if size <? sizeof_pool then u64 (size + sizeof_pool) else size in
    let '(p, h) := memory_alloc size h in
    if bool_decide (p = nullptr) then (nullptr, h)
    else
      let h := set_data p {| last := plus p sizeof_pool; end_ := plus p size; next := nullptr |} h in
      let size := u64 (size - sizeof_pool) in
      (p, set_pool p {| max := if size <? max_size then size else max_size; current := p; large := nullptr |} h).

(* src/src/core/dfs_memory_pool.cpp:63-75 (pool_reset) *)
Fixpoint free_larges (reset : bool) (fuel : nat) (l : ptr) (h : heap) : option heap :=
  match fuel with
  | O => None
  | S fuel =>
      if bool_decide (l = nullptr) then Some h
      else
        x ← larges h !! l;
        h ← (if bool_decide (alloc x = nullptr) then Some h
             else
               h ← memory_free (alloc x) h;
               if reset then x ← larges h !! l; Some (set_large l (with_alloc nullptr x) h) else Some h);
        x ← larges h !! l;
        free_larges reset fuel (l_next x) h
  end.

Fixpoint reset_blocks (fuel : nat) (p : ptr) (h : heap) : option heap :=
  match fuel with
  | O => None
  | S fuel =>
      if bool_decide (p = nullptr) then Some h
      else
        d ← datas h !! p;
        reset_blocks fuel (next d) (set_data p (with_last (plus p sizeof_pool) d) h)
  end.

(** A walk visits each header of the heap at most once. *)
Definition walk_fuel (h : heap) : nat := S (size (datas h) + size (larges h)).

(* src/src/core/dfs_memory_pool.cpp:53-88 (pool_reset) *)
Definition pool_reset (pool : ptr) (h : heap) : option heap :=
  if bool_decide (pool = nullptr) then Some h
  else
    r ← pools h !! pool;
    h ← free_larges true (walk_fuel h) (large r) h;
    r ← pools h !! pool;
    reset_blocks (walk_fuel h) pool (set_pool pool (with_current pool r) h).

(** [n] was read before [p] is freed. *)
Fixpoint free_blocks (fuel : nat) (p n : ptr) (h : heap) : option heap :=
  match fuel with
  | O => None
  | S fuel =>
      h ← memory_free p h;
      if bool_decide (n = nullptr) then Some h
      else d ← datas h !! n; free_blocks fuel n (next d) h
  end.

(* src/src/core/dfs_memory_pool.cpp:91-122 (pool_destroy) *)
Definition pool_destroy (pool : ptr) (h : heap) : option heap :=
  if bool_decide (pool = nullptr) then Some h
  else
    r ← pools h !! pool;
    h ← free_larges false (walk_fuel h) (large r) h;
    d ← datas h !! pool;
    free_blocks (walk_fuel h) pool (next d) h.

(** The first block from [p] on that has room; [nullptr] when none has. *)
(* src/src/core/dfs_memory_pool.cpp:136-150 (pool_alloc) *)
Fixpoint search_blocks (fuel : nat) (p : ptr) (size : Z) (h : heap) : option (ptr * heap) :=
  match fuel with
  | O => None
  | S fuel =>
      if bool_decide (p = nullptr) then Some (nullptr, h)
      else
        d ← datas h !! p;
        let m := dfs_align_ptr (last d) DFS_ALIGNMENT in
        if bool_decide (m < end_ d)%N && (size <=? u64 (minus (end_ d) m)) then Some (m, set_data p (with_last (plus m size) d) h)
        else search_blocks fuel (next d) size h
  end.

(** The last block from [p] on, and the block from which the next search begins. *)
(* src/src/core/dfs_memory_pool.cpp:207-213 (pool_alloc_block) *)
Fixpoint find_tail (fuel : nat) (p cur : ptr) (h : heap) : option (ptr * ptr) :=
  match fuel with
  | O => None
  | S fuel =>
      d ← datas h !! p;
      if bool_decide (next d = nullptr) then Some (p, cur)
      else find_tail fuel (next d) (if u64 (minus (end_ d) (last d)) <? DFS_ALIGNMENT then next d else cur) h
  end.

(* src/src/core/dfs_memory_pool.cpp:174-220 (pool_alloc_block) *)
Definition pool_alloc_block (pool : ptr) (size : Z) (h : heap) : option (ptr * heap) :=
  if bool_decide (pool = nullptr) || (size =? 0) then Some (nullptr, h)
  else
    d ← datas h !! pool;
    let psize := u64 (minus (end_ d) pool) in
    let '(np, h) := memory_alloc psize h in
    if bool_decide (np = nullptr) then Some (nullptr, h)
    else
      let nm := dfs_align_ptr (plus np sizeof_pool_data) DFS_ALIGNMENT in
      let h := set_data np {| last := plus nm size; end_ := plus np psize; next := nullptr |} h in
      r ← pools h !! pool;
      '(p, cur) ← find_tail (walk_fuel h) (current r) nullptr h;
      d ← datas h !! p;
      let h := set_data p (with_next np d) h in
      r ← pools h !! pool;
      Some (nm, set_pool pool (with_current (if bool_decide (cur = nullptr) then np else cur) r) h).

(** The node of the large block [p], whose memory comes from [pool_alloc] with the fuel left. *)
Definition link_large (pool_alloc : ptr -> Z -> heap -> option (ptr * heap)) (pool p : ptr) (size : Z) (h : heap) : option (ptr * heap) :=
  '(l, h) ← pool_alloc pool sizeof_pool_large h;
  if bool_decide (l = nullptr) then h ← memory_free p h; Some (nullptr, h)
  else
    r ← pools h !! pool;
    let h := set_large l {| alloc := p; l_size := size; l_next := large r |} (clobber l sizeof_pool_large h) in
    r ← pools h !! pool;
    Some (p, set_pool pool (with_large l r) h).

(* src/src/core/dfs_memory_pool.cpp:223-255 (pool_alloc_large) *)
Definition pool_alloc_large_with (pool_alloc : ptr -> Z -> heap -> option (ptr * heap)) (pool : ptr) (size : Z) (h : heap) : option (ptr * heap) :=
  if bool_decide (pool = nullptr) || (size =? 0) then Some (nullptr, h)
  else
    let '(p, h) := memory_alloc size h in
    if bool_decide (p = nullptr) then Some (nullptr, h) else link_large pool_alloc pool p size h.

(** [depth] bounds the calls of [pool_alloc] inside each other. *)
(* src/src/core/dfs_memory_pool.cpp:125-156 (pool_alloc) *)
Fixpoint pool_alloc (depth : nat) (pool : ptr) (size : Z) (h : heap) : option (ptr * heap) :=
  match depth with
  | O => None
  | S depth =>
      if bool_decide (pool = nullptr) || (size =? 0) then Some (nullptr, h)
      else
        r ← pools h !! pool;
        if size <=? max r then
          '(m, h) ← search_blocks (walk_fuel h) (current r) size h;
          if bool_decide (m = nullptr) then pool_alloc_block pool size h else Some (m, h)
        else pool_alloc_large_with (pool_alloc depth) pool size h
  end.

(* src/src/core/dfs_memory_pool.cpp:160-171 (pool_calloc) *)
Definition pool_calloc (depth : nat) (pool : ptr) (size : Z) (h : heap) : option (ptr * heap) :=
  '(p, h) ← pool_alloc depth pool size h;
  if bool_decide (p = nullptr) then Some (p, h) else Some (p, write p (repeat 0 (Z.to_nat size)) h).

(* src/src/core/dfs_memory_pool.cpp:257-283 (pool_memalign) *)
Definition pool_memalign (depth : nat) (pool : ptr) (size alignment : Z) (h : heap) : option (ptr * heap) :=
  let '(p, h) := memory_memalign alignment size h in
  if bool_decide (p = nullptr) then Some (nullptr, h) else link_large (pool_alloc depth) pool p size h.

(* src/src/core/dfs_memory_pool.cpp:285-293 (dfs_align) *)
Definition dfs_align (d a : Z) : option Z :=
  if a =? 0 then None else if negb (d mod a =? 0) then Some (u64 (d + u64 (a - d mod a))) else Some d.

(** ** What the allocators of the system promise *)

Definition fresh_block (live : gmap ptr Z) (p : ptr) (size : Z) : Prop :=
  Z.of_N p + size <= 2 ^ 63 /\ forall q n, live !! q = Some n -> apart p size q n.

Definition malloc_ok : Prop :=
  forall k live size, 0 < size -> malloc k live size <> nullptr ->
    fresh_block live (malloc k live size) size /\ (8 | Z.of_N (malloc k live size)).

Definition memalign_ok : Prop :=
  forall k live a size, 0 < size -> posix_memalign k live a size <> nullptr ->
    fresh_block live (posix_memalign k live a size) size /\ (a | Z.of_N (posix_memalign k live a size)).

(** ** Chains of objects *)

Section Chain.
Context {A : Type} (nx : A -> ptr).

Fixpoint chain (m : gmap ptr A) (p : ptr) (l : list (ptr * A)) : Prop :=
  match l with
  | [] => p = nullptr
  | (q, x) :: l => p = q /\ q <> nullptr /\ m !! q = Some x /\ chain m (nx x) l
  end.

Lemma chain_lookup m p l q x : chain m p l -> (q, x) ∈ l -> m !! q = Some x /\ q <> nullptr.
Proof.
  revert p. induction l as [|[q' x'] l IH]; intros p; [intros _ H; by apply not_elem_of_nil in H |].
  intros (-> & Hn & Hx & Hl) [[= -> ->] | Hq]%elem_of_cons; [done | by eapply IH].
Qed.

Lemma chain_keep m m' p l : chain m p l -> (forall q x, (q, x) ∈ l -> m' !! q = Some x) -> chain m' p l.
Proof.
  revert p. induction l as [|[q x] l IH]; intros p; [done |]. intros (-> & Hn & Hx & Hl) H. split; [done |]. split; [done |].
  split; [apply H; by left |]. apply IH; [done |]. intros q' x' H'. apply H. by right.
Qed.

(** The list of a chain is a function of its first address. *)
Lemma chain_fun m p l l' : chain m p l -> chain m p l' -> l = l'.
Proof.
  revert p l'. induction l as [|[q x] l IH]; intros p [|[q' x'] l']; cbn.
  - done.
  - intros -> (<- & ? & _). done.
  - intros (-> & ? & _) E. done.
  - intros (-> & ? & Hx & Hl) (<- & _ & Hx' & Hl'). assert (x' = x) as -> by congruence. by rewrite (IH _ _ Hl Hl').
Qed.

Lemma chain_suffix m p l1 q x l2 : chain m p (l1 ++ (q, x) :: l2) -> chain m q ((q, x) :: l2).
Proof.
  revert p. induction l1 as [|[q' x'] l1 IH]; intros p; [intros (-> & H); by split |]. intros (-> & _ & _ & H). by eapply IH.
Qed.

(** No address comes twice: the chain would not end. *)
Lemma chain_nodup m p l : chain m p l -> NoDup l.*1.
Proof.
  revert p. induction l as [|[q x] l IH]; intros p; [constructor |]. intros H. pose proof H as (-> & Hn & Hx & Hl). cbn. apply NoDup_cons.
  split; [|by eapply IH]. intros Hq. apply list_elem_of_fmap in Hq as ((q' & x') & E & Hq). cbn in E. subst q'.
  apply list_elem_of_split in Hq as (l1 & l2 & ->). pose proof (chain_suffix _ _ _ _ _ _ Hl) as H2.
  pose proof (chain_fun _ _ _ _ H H2) as E. apply (f_equal length) in E. rewrite length_cons, length_app in E. cbn in E. lia.
Qed.

Lemma chain_length m p l : chain m p l -> (length l <= size m)%nat.
Proof.
  intros H. rewrite <- (length_fmap fst). rewrite <- (size_list_to_set (C := gset ptr)) by (by eapply chain_nodup). rewrite <- size_dom. apply subseteq_size.
  intros q Hq%elem_of_list_to_set. apply list_elem_of_fmap in Hq as ((q' & x) & -> & Hx). apply elem_of_dom. destruct (chain_lookup _ _ _ _ _ H Hx) as [? _]. by eexists.
Qed.

(** One object of the chain changes, its successor stays. *)
Lemma chain_update m p l1 q x x' l2 :
  chain m p (l1 ++ (q, x) :: l2) -> nx x' = nx x -> chain (<[q := x']> m) p (l1 ++ (q, x') :: l2).
Proof.
  intros H Hx. pose proof (chain_nodup _ _ _ H) as Hnd. rewrite fmap_app, fmap_cons in Hnd. cbn in Hnd.
  apply NoDup_app in Hnd as (_ & Hd & [Hq _]%NoDup_cons). revert p H Hd. induction l1 as [|[r y] l1 IH]; intros p H Hd.
  - destruct H as (-> & Hn & _ & Hl). split; [done |]. split; [done |]. split; [apply lookup_insert_eq |]. rewrite Hx.
    eapply chain_keep; [exact Hl |]. intros r y Hr. rewrite lookup_insert_ne; [by eapply chain_lookup |]. intros ->. apply Hq.
    apply list_elem_of_fmap. by exists (r, y).
  - destruct H as (-> & Hn & Hy & Hl). split; [done |]. split; [done |]. split; [|apply IH; [done |]; intros z Hz; apply Hd; by right].
    rewrite lookup_insert_ne; [done |]. intros ->. apply (Hd r); [by left | by left].
Qed.

(** A new last object. *)
Lemma chain_snoc m p l q x q' x' y :
  chain m p (l ++ [(q, x)]) -> nx x' = q' -> q' <> nullptr -> m !! q' = Some y -> nx y = nullptr -> q' ∉ (l ++ [(q, x)]).*1 ->
  chain (<[q := x']> m) p (l ++ [(q, x'); (q', y)]).
Proof.
  intros H Hx Hn Hy Hny Hq'. pose proof (chain_nodup _ _ _ H) as Hnd. rewrite fmap_app in Hnd. cbn in Hnd.
  apply NoDup_app in Hnd as (_ & Hd & _). revert p H Hd Hq'. induction l as [|[r z] l IH]; intros p H Hd Hq'.
  - destruct H as (-> & Hnq & _ & _). split; [done |]. split; [done |]. split; [apply lookup_insert_eq |]. cbn. split; [done |]. split; [done |].
    split; [|done]. rewrite lookup_insert_ne; [done |]. intros ->. apply Hq'. by left.
  - destruct H as (-> & Hnr & Hz & Hl). split; [done |]. split; [done |]. split; [|apply IH; [done | |]].
    + rewrite lookup_insert_ne; [done |]. intros ->. apply (Hd r); by left.
    + intros w Hw. apply Hd. by right.
    + intros Hin. apply Hq'. by right.
Qed.

End Chain.

(** ** Ranges *)

Definition aparts (x y : ptr * Z) : Prop := apart x.1 x.2 y.1 y.2.

#[local] Instance aparts_sym : Symmetric aparts.
Proof. intros x y. unfold aparts, apart. tauto. Qed.

Fixpoint separated (l : list (ptr * Z)) : Prop := match l with [] => True | x :: l => Forall (aparts x) l /\ separated l end.

#[export] Instance separated_perm : Proper ((≡ₚ) ==> iff) separated.
Proof.
  assert (forall l l', l ≡ₚ l' -> separated l -> separated l') as H.
  { induction 1 as [|x l l' H IH|x y l|l1 l2 l3 _ IH1 _ IH2]; cbn; [done | | | tauto].
    - intros [H1 H2]. split; [by rewrite <- H | by apply IH].
    - intros [[H1 H2]%Forall_cons [H3 H4]]. split; [constructor; [by symmetry | done] | done]. }
  intros l l' E. split; apply H; [done | by symmetry].
Qed.

Lemma separated_app l1 l2 : separated (l1 ++ l2) <-> separated l1 /\ separated l2 /\ forall x y, x ∈ l1 -> y ∈ l2 -> aparts x y.
Proof.
  induction l1 as [|x l1 IH]; cbn; [split; [intros; split; [done |]; split; [done |]; intros x y Hx; by apply not_elem_of_nil in Hx | tauto] |].
  rewrite Forall_app, !Forall_forall, IH. split.
  - intros ((H1 & H2) & H3 & H4 & H5). split; [done |]. split; [done |]. intros a b [-> | Ha]%elem_of_cons Hb; [by apply H2 | by apply H5].
  - intros ((H1 & H2) & H3 & H4). split; [split; [done |]; intros y Hy; apply H4; [by left | done] |]. split; [done |]. split; [done |].
    intros a b Ha Hb. apply H4; [by right | done].
Qed.

Lemma separated_lookup l i j x y : separated l -> i <> j -> l !! i = Some x -> l !! j = Some y -> aparts x y.
Proof.
  revert i j. induction l as [|z l IH]; intros i j; [done |]. intros [Hz Hl] Hij Hi Hj. rewrite Forall_forall in Hz.
  destruct i as [|i], j as [|j]; cbn in Hi, Hj; [done | | |].
  - injection Hi as <-. apply Hz. by eapply list_elem_of_lookup_2.
  - injection Hj as <-. symmetry. apply Hz. by eapply list_elem_of_lookup_2.
  - apply (IH i j); [done | congruence | done | done].
Qed.

(** What is above a block's header is apart from everything in other blocks. *)
Lemma align_spec p : Z.of_N p + 7 < 2 ^ 64 ->
  Z.of_N p <= Z.of_N (dfs_align_ptr p DFS_ALIGNMENT) < Z.of_N p + 8 /\ (8 | Z.of_N (dfs_align_ptr p DFS_ALIGNMENT)).
Proof.
  intros Hp. unfold dfs_align_ptr, DFS_ALIGNMENT. rewrite u64_small by (unfold is_u64; lia). cbn [Z.sub Z.add Z.opp Z.pos_sub].
  rewrite <- Z.ldiff_land. change (Z.ldiff (Z.of_N p + (8 - 1)) (8 - 1)) with (Z.ldiff (Z.of_N p + 7) (Z.ones 3)).
  rewrite Z.ldiff_ones_r, Z.shiftl_mul_pow2, Z.shiftr_div_pow2 by lia. change (2 ^ 3) with 8.
  pose proof (Z.div_mod (Z.of_N p + 7) 8 ltac:(lia)). pose proof (Z.mod_pos_bound (Z.of_N p + 7) 8 ltac:(lia)).
  rewrite Z2N.id by lia. split; [lia |]. eexists. reflexivity.
Qed.

Lemma plus_spec p n : 0 <= n -> Z.of_N (plus p n) = Z.of_N p + n.
Proof. intros H. unfold plus. lia. Qed.

(** ** The invariant *)

(** The blocks of [malloc] that are live. *)
Definition live_ok (l : gmap ptr Z) : Prop :=
  (forall p n, l !! p = Some n -> 0 < n /\ p <> nullptr /\ Z.of_N p + n <= 2 ^ 63) /\
  forall p n q k, l !! p = Some n -> l !! q = Some k -> p <> q -> apart p n q k.

Definition head_size (pool p : ptr) : Z := if bool_decide (p = pool) then sizeof_pool else sizeof_pool_data.

(** Small requests of clients, and the nodes of the large blocks. *)
Definition taken (small : list (ptr * Z)) (ls : list (ptr * pool_large_s)) : list (ptr * Z) :=
  small ++ map (fun l => (l.1, sizeof_pool_large)) ls.

Definition keys (bs : list (ptr * pool_data)) (ls : list (ptr * pool_large_s)) : list ptr := bs.*1 ++ map (fun l => alloc l.2) ls.

(** [bs] are the blocks with their headers, each of [ps] bytes, [ls] the nodes of the large
    blocks, [small] the small requests that were answered; [others] are the blocks of [malloc]
    that do not belong to the pool. *)
Record pool_ok (others : gmap ptr Z) (ps : Z) (pool : ptr) (r : pool_s) (bs : list (ptr * pool_data)) (ls : list (ptr * pool_large_s))
    (small : list (ptr * Z)) (h : heap) : Prop := {
  k_pool : pools h !! pool = Some r;
  k_null : pool <> nullptr;
  k_chain : chain next (datas h) pool bs;
  k_larges : chain l_next (larges h) (large r) ls;
  k_current : current r ∈ bs.*1;
  k_max : sizeof_pool_large <= max r /\ max r + sizeof_pool <= ps;
  k_block : forall p d, (p, d) ∈ bs -> live h !! p = Some ps /\
    Z.of_N p + head_size pool p <= Z.of_N (last d) <= Z.of_N (end_ d) /\ Z.of_N (end_ d) = Z.of_N p + ps;
  k_large : forall q x, (q, x) ∈ ls -> alloc x <> nullptr /\ live h !! alloc x = Some (l_size x);
  k_keys : NoDup (keys bs ls);
  k_others : forall p, (p ∈ keys bs ls -> others !! p = None) /\ (p ∉ keys bs ls -> live h !! p = others !! p);
  k_live : live_ok (live h);
  k_taken : forall x, x ∈ taken small ls -> 0 < x.2 /\ (8 | Z.of_N x.1) /\
    exists p d, (p, d) ∈ bs /\ Z.of_N p + head_size pool p <= Z.of_N x.1 /\ Z.of_N x.1 + x.2 <= Z.of_N (last d);
  k_apart : separated (taken small ls)
}.

Lemma head_size_bounds pool p : 24 <= head_size pool p <= 56.
Proof. unfold head_size, sizeof_pool, sizeof_pool_data. case_bool_decide; lia. Qed.

Lemma chain_datas_fuel pool bs h : chain next (datas h) pool bs -> (length bs < walk_fuel h)%nat.
Proof. intros H%chain_length. unfold walk_fuel. lia. Qed.

Lemma chain_larges_fuel p ls h : chain l_next (larges h) p ls -> (length ls < walk_fuel h)%nat.
Proof. intros H%chain_length. unfold walk_fuel. lia. Qed.

Lemma block_bounds others ps pool r bs ls small h p d :
  pool_ok others ps pool r bs ls small h -> (p, d) ∈ bs -> Z.of_N (end_ d) <= 2 ^ 63 /\ 0 < ps.
Proof.
  intros K Hp. destruct (k_block _ _ _ _ _ _ _ _ K _ _ Hp) as (Hl & _ & He). destruct (proj1 (k_live _ _ _ _ _ _ _ _ K) _ _ Hl) as (? & _ & ?). lia.
Qed.

(** ** Searching the blocks *)

Lemma search_spec size h : 0 < size -> forall fuel p bs,
  chain next (datas h) p bs -> (length bs < fuel)%nat -> (forall q d, (q, d) ∈ bs -> Z.of_N (last d) <= Z.of_N (end_ d) <= 2 ^ 63) ->
  search_blocks fuel p size h = Some (nullptr, h) \/
  exists l1 q d l2, bs = l1 ++ (q, d) :: l2 /\ let m := dfs_align_ptr (last d) DFS_ALIGNMENT in
    search_blocks fuel p size h = Some (m, set_data q (with_last (plus m size) d) h) /\
    Z.of_N (last d) <= Z.of_N m /\ Z.of_N m + size <= Z.of_N (end_ d) /\ (8 | Z.of_N m).
Proof.
  intros Hs. induction fuel as [|fuel IH]; intros p bs Hc Hf Hb; [lia |]. cbn [search_blocks]. destruct bs as [|[q d] bs].
  - cbn in Hc. rewrite bool_decide_true by done. by left.
  - destruct Hc as (-> & Hn & Hd & Hc). rewrite bool_decide_false by done. rewrite Hd. cbn [mbind option_bind].
    destruct (Hb q d) as [Hle He]; [by left |]. destruct (align_spec (last d)) as [Ha Hdiv]; [lia |].
    set (m := dfs_align_ptr (last d) DFS_ALIGNMENT) in *. destruct (_ && _) eqn:E.
    + right. apply andb_true_iff in E as [E1%bool_decide_eq_true E2%Z.leb_le]. rewrite u64_small in E2 by (unfold is_u64, minus; lia).
      exists [], q, d, bs. split; [done |]. split; [done |]. unfold minus in E2. repeat split; [lia | lia | done].
    + destruct (IH (next d) bs Hc) as [H | (l1 & q' & d' & l2 & -> & H)]; [cbn in Hf; lia | intros; apply (Hb q0); by right | by left |].
      right. by exists ((q, d) :: l1), q', d', l2.
Qed.

Lemma find_tail_spec h : forall fuel p cur l q x,
  chain next (datas h) p (l ++ [(q, x)]) -> (length l < fuel)%nat ->
  exists cur', find_tail fuel p cur h = Some (q, cur') /\ (cur' = cur \/ cur' ∈ (l ++ [(q, x)]).*1).
Proof.
  induction fuel as [|fuel IH]; intros p cur l q x Hc Hf; [lia |]. cbn [find_tail]. destruct l as [|[q' x'] l].
  - destruct Hc as (-> & Hn & Hx & Hnx). rewrite Hx. cbn [mbind option_bind]. cbn in Hnx. rewrite bool_decide_true by done. exists cur. by split; [|left].
  - destruct Hc as (-> & Hn & Hx & Hc). rewrite Hx. cbn [mbind option_bind].
    assert (next x' ∈ (l ++ [(q, x)]).*1 /\ next x' <> nullptr) as [Hnx Hnn].
    { destruct l as [|[q2 x2] l]; destruct Hc as (-> & ? & _); (split; [by left | done]). }
    rewrite bool_decide_false by done.
    destruct (IH (next x') (if u64 (minus (end_ x') (last x')) <? DFS_ALIGNMENT then next x' else cur) l q x Hc) as (cur' & Hrun & Hcur); [cbn in Hf; lia |].
    exists cur'. split; [exact Hrun |]. destruct Hcur as [-> | ?]; [|right; by right]. destruct (_ <? _); [right; by right | by left].
Qed.

(** ** What keeps the invariant *)

Lemma pool_ok_same others ps pool r bs ls small h h' :
  pool_ok others ps pool r bs ls small h -> pools h' = pools h -> datas h' = datas h -> larges h' = larges h -> live h' = live h ->
  pool_ok others ps pool r bs ls small h'.
Proof. intros [] E1 E2 E3 E4. split; rewrite ?E1, ?E2, ?E3, ?E4; done. Qed.

(** Every header and every range handed out lies in one of the blocks. *)
Definition in_block (ps : Z) (bs : list (ptr * pool_data)) (p : ptr) (n : Z) : Prop :=
  exists b d, (b, d) ∈ bs /\ Z.of_N b <= Z.of_N p /\ Z.of_N p + n <= Z.of_N b + ps.

Section Kept.

Context (others : gmap ptr Z) (ps : Z) (pool : ptr) (r : pool_s) (bs : list (ptr * pool_data)) (ls : list (ptr * pool_large_s))
  (small : list (ptr * Z)) (h : heap) (K : pool_ok others ps pool r bs ls small h).

Lemma block_same p d d' : (p, d) ∈ bs -> (p, d') ∈ bs -> d = d'.
Proof using All. intros H H'. pose proof (chain_lookup _ _ _ _ _ _ (k_chain _ _ _ _ _ _ _ _ K) H) as [? _]. pose proof (chain_lookup _ _ _ _ _ _ (k_chain _ _ _ _ _ _ _ _ K) H') as [? _]. congruence. Qed.

Lemma taken_in_block x : x ∈ taken small ls -> in_block ps bs x.1 x.2.
Proof using All.
  intros Hx. destruct (k_taken _ _ _ _ _ _ _ _ K x Hx) as (_ & _ & p & d & Hp & H1 & H2). exists p, d. split; [done |].
  destruct (k_block _ _ _ _ _ _ _ _ K p d Hp) as (_ & H3 & H4). pose proof (head_size_bounds pool p). lia.
Qed.

Lemma head_in_block p d : (p, d) ∈ bs -> in_block ps bs p (head_size pool p).
Proof using All. intros Hp. exists p, d. split; [done |]. destruct (k_block _ _ _ _ _ _ _ _ K p d Hp) as (_ & H3 & H4). lia. Qed.

Lemma node_taken q x : (q, x) ∈ ls -> (q, sizeof_pool_large) ∈ taken small ls.
Proof using All. intros H. unfold taken. apply elem_of_app. right. apply list_elem_of_fmap. by exists (q, x). Qed.

Lemma key_live p : p ∈ keys bs ls -> exists n, live h !! p = Some n /\ 0 < n /\ p <> nullptr.
Proof using All.
  intros Hp. assert (exists n, live h !! p = Some n) as [n Hn].
  { apply elem_of_app in Hp as [Hp | Hp]; apply list_elem_of_fmap in Hp as ([q x] & -> & Hq).
    - exists ps. by apply (k_block _ _ _ _ _ _ _ _ K q x).
    - exists (l_size x). by apply (k_large _ _ _ _ _ _ _ _ K q x). }
  exists n. split; [done |]. destruct (proj1 (k_live _ _ _ _ _ _ _ _ K) p n Hn). tauto.
Qed.

(** A live block that is none of the pool's is apart from what lies in them. *)
Lemma live_apart_block a n p k : live h !! a = Some n -> a ∉ bs.*1 -> in_block ps bs p k -> apart a n p k.
Proof using All.
  intros Ha Hn (b & d & Hb & H1 & H2). destruct (k_block _ _ _ _ _ _ _ _ K b d Hb) as (Hl & _ & _).
  assert (a <> b) as Hne by (intros ->; apply Hn, list_elem_of_fmap; by exists (b, d)).
  pose proof (proj2 (k_live _ _ _ _ _ _ _ _ K) a n b ps Ha Hl Hne) as H. unfold apart in *. lia.
Qed.

Lemma fresh_not_live p n : fresh_block (live h) p n -> 0 < n -> live h !! p = None.
Proof using All.
  intros [_ Hf] Hn. destruct (live h !! p) as [k|] eqn:E; [|done]. pose proof (Hf p k E) as Ha.
  destruct (proj1 (k_live _ _ _ _ _ _ _ _ K) p k E) as [? _]. unfold apart in Ha. lia.
Qed.

Lemma fresh_not_key p n : fresh_block (live h) p n -> 0 < n -> p ∉ keys bs ls.
Proof using All. intros Hf Hn Hp. destruct (key_live p Hp) as (k & Hk & _). rewrite (fresh_not_live p n Hf Hn) in Hk. done. Qed.

Lemma fresh_not_others p n : fresh_block (live h) p n -> 0 < n -> others !! p = None.
Proof using All.
  intros Hf Hn. rewrite <- (proj2 (k_others _ _ _ _ _ _ _ _ K p)); [by eapply fresh_not_live | by eapply fresh_not_key].
Qed.

Lemma pool_ok_malloc p n :
  fresh_block (live h) p n -> 0 < n -> p <> nullptr -> pool_ok (<[p := n]> others) ps pool r bs ls small (add_live p n (one_call h)).
Proof using All.
  intros Hf Hn Hp. pose proof (fresh_not_key p n Hf Hn) as Hk. unfold add_live. rewrite bool_decide_false by done.
  assert (forall q, q ∈ keys bs ls -> q <> p) as Hne by (intros q Hq ->; done).
  destruct K as [K1 K2 K3 K4 K5 K6 K7 K8 K9 K10 [K11 K12] K13 K14]. split; cbn; try done.
  - intros q d Hq. rewrite lookup_insert_ne; [by apply K7 |]. apply not_eq_sym, Hne, elem_of_app. left. apply list_elem_of_fmap. by exists (q, d).
  - intros q x Hq. rewrite lookup_insert_ne; [exact (K8 q x Hq) |]. apply not_eq_sym, Hne, elem_of_app. right. apply list_elem_of_fmap. by exists (q, x).
  - intros q. destruct (K10 q) as [H1 H2]. split; intros Hq.
    + rewrite lookup_insert_ne; [by apply H1 | by apply not_eq_sym, Hne].
    + destruct (decide (q = p)) as [-> | ?]; [by rewrite !lookup_insert_eq |]. rewrite !lookup_insert_ne by done. by apply H2.
  - destruct Hf as [Hb Hf]. split.
    + intros q k [[<- <-] | [_ Hq]]%lookup_insert_Some; [done | by eapply K11].
    + intros q k q' k' [[<- <-] | [Hne1 Hq]]%lookup_insert_Some [[<- <-] | [Hne2 Hq']]%lookup_insert_Some Hqq; [done | by apply Hf | | by apply K12].
      destruct (Hf q k Hq) as [? | ?]; [by right | by left].
Qed.

(** The ranges of the pool's headers are out of the way. *)
Lemma pool_ok_clobber a n :
  (forall p d, (p, d) ∈ bs -> apart a n p (head_size pool p)) -> (forall q x, (q, x) ∈ ls -> apart a n q sizeof_pool_large) ->
  pool_ok others ps pool r bs ls small (clobber a n h).
Proof using All.
  intros Hb Hl. pose proof K as [K1 K2 K3 K4 K5 K6 K7 K8 K9 K10 K11 K13 K14]. split; cbn; try done.
  - apply map_lookup_filter_Some. split; [done |]. cbn. destruct bs as [|[q d] bs']; [done |]. destruct K3 as (E & _).
    specialize (Hb q d ltac:(by left)). unfold head_size in Hb. rewrite E. by rewrite bool_decide_true in Hb by done.
  - eapply chain_keep; [exact K3 |]. intros p d Hp. apply map_lookup_filter_Some. split; [by eapply chain_lookup |]. cbn.
    specialize (Hb p d Hp). pose proof (head_size_bounds pool p). unfold apart, sizeof_pool_data in *. lia.
  - eapply chain_keep; [exact K4 |]. intros q x Hq. apply map_lookup_filter_Some. split; [by eapply chain_lookup |]. by eapply Hl.
Qed.

(** [free] of a block that is not the pool's. *)
Lemma pool_ok_free p n :
  others !! p = Some n -> p ∉ keys bs ls -> p <> nullptr ->
  exists h', memory_free p h = Some h' /\ pool_ok (delete p others) ps pool r bs ls small h' /\ bytes h' = bytes h.
Proof using All.
  intros Hn Hk Hp. assert (live h !! p = Some n) as Hl by (rewrite (proj2 (k_others _ _ _ _ _ _ _ _ K p) Hk); done).
  unfold memory_free. rewrite bool_decide_false by done. rewrite Hl. cbn [mbind option_bind]. eexists. split; [reflexivity |]. split; [|done].
  assert (p ∉ bs.*1) as Hpb by (intros H; apply Hk, elem_of_app; by left).
  assert (pool_ok others ps pool r bs ls small (clobber p n h)) as [K1 K2 K3 K4 K5 K6 K7 K8 K9 K10 [K11 K12] K13 K14].
  { apply pool_ok_clobber.
    - intros q d Hq. eapply live_apart_block; [exact Hl | done |]. by eapply head_in_block.
    - intros q x Hq. eapply live_apart_block; [exact Hl | done |]. apply (taken_in_block (q, sizeof_pool_large)). by eapply node_taken. }
  assert (forall q, q ∈ keys bs ls -> p <> q) as Hne by (intros q Hq ->; done).
  split; cbn in *; try done.
  - intros q d Hq. rewrite lookup_delete_ne; [by apply K7 |]. apply Hne, elem_of_app. left. apply list_elem_of_fmap. by exists (q, d).
  - intros q x Hq. rewrite lookup_delete_ne; [exact (K8 q x Hq) |]. apply Hne, elem_of_app. right. apply list_elem_of_fmap. by exists (q, x).
  - intros q. destruct (K10 q) as [H1 H2]. split; intros Hq.
    + rewrite lookup_delete_ne by (by apply Hne). by apply H1.
    + destruct (decide (p = q)) as [-> | ?]; [by rewrite !lookup_delete_eq |]. rewrite !lookup_delete_ne by done. by apply H2.
  - split.
    + intros q k [_ Hq]%lookup_delete_Some. by eapply K11.
    + intros q k q' k' [_ Hq]%lookup_delete_Some [_ Hq']%lookup_delete_Some. by apply K12.
Qed.

Lemma pool_ok_current c : c ∈ bs.*1 -> pool_ok others ps pool (with_current c r) bs ls small (set_pool pool (with_current c r) h).
Proof using All. intros Hc. destruct K. split; cbn; try done. apply lookup_insert_eq. Qed.

End Kept.

(** ** Taking a range *)

Lemma head_size_pos pool p : 0 < head_size pool p.
Proof. pose proof (head_size_bounds pool p). lia. Qed.

Lemma pool_ok_take others ps pool r l1 q d l2 ls small h m n :
  pool_ok others ps pool r (l1 ++ (q, d) :: l2) ls small h -> 0 < n -> Z.of_N (last d) <= Z.of_N m -> Z.of_N m + n <= Z.of_N (end_ d) ->
  (8 | Z.of_N m) ->
  pool_ok others ps pool r (l1 ++ (q, with_last (plus m n) d) :: l2) ls (small ++ [(m, n)]) (set_data q (with_last (plus m n) d) h).
Proof.
  intros K Hn Hm He Hdiv. set (d' := with_last (plus m n) d).
  assert ((q, d) ∈ l1 ++ (q, d) :: l2) as Hq by set_solver.
  destruct (k_block _ _ _ _ _ _ _ _ K q d Hq) as (Hlq & Hord & Hend).
  assert ((l1 ++ (q, d') :: l2).*1 = (l1 ++ (q, d) :: l2).*1) as Ekeys by (by rewrite !fmap_app).
  assert (taken (small ++ [(m, n)]) ls ≡ₚ (m, n) :: taken small ls) as Etaken.
  { unfold taken. rewrite <- app_assoc. cbn. by rewrite <- Permutation_middle. }
  assert (forall b e, (b, e) ∈ l1 ++ (q, d) :: l2 -> exists e', (b, e') ∈ l1 ++ (q, d') :: l2 /\ Z.of_N (last e) <= Z.of_N (last e')) as Hmono.
  { intros b e Hb. apply elem_of_app in Hb as [Hb | [[= -> ->] | Hb]%elem_of_cons]; [exists e; split; [set_solver | lia] | | exists e; split; [set_solver | lia]].
    exists d'. split; [set_solver |]. cbn. rewrite plus_spec by lia. lia. }
  pose proof K as [K1 K2 K3 K4 K5 K6 K7 K8 K9 K10 K11 K13 K14]. split; unfold keys in *; rewrite ?Ekeys; try done.
  - by eapply chain_update.
  - intros b e Hb. apply elem_of_app in Hb as [Hb | [[= -> ->] | Hb]%elem_of_cons]; [apply K7; set_solver | | apply K7; set_solver].
    split; [done |]. cbn. rewrite plus_spec by lia. lia.
  - intros x Hx. rewrite Etaken in Hx. apply elem_of_cons in Hx as [-> | Hx].
    + split; [done |]. split; [done |]. exists q, d'. split; [set_solver |]. cbn. rewrite plus_spec by lia. lia.
    + destruct (K13 x Hx) as (H1 & H2 & b & e & Hb & H3 & H4). split; [done |]. split; [done |].
      destruct (Hmono b e Hb) as (e' & He' & Hle). exists b, e'. split; [done |]. lia.
  - rewrite Etaken. split; [|done]. apply Forall_forall. intros x Hx. destruct (K13 x Hx) as (H1 & H2 & b & e & Hb & H3 & H4).
    unfold aparts, apart. cbn [fst snd]. destruct (decide (b = q)) as [-> | Hne].
    + assert (e = d) as -> by (by eapply block_same). lia.
    + destruct (K7 b e Hb) as (Hlb & Hob & Heb). pose proof (proj2 K11 b ps q ps Hlb Hlq Hne) as Hap. unfold apart in Hap. pose proof (head_size_pos pool b). pose proof (head_size_pos pool q). lia.
Qed.

(** ** A new block *)

Definition empty_block (np : ptr) (ps : Z) : pool_data := {| last := plus np sizeof_pool_data; end_ := plus np ps; next := nullptr |}.

Lemma pool_ok_grow others ps pool r l q d ls small h np :
  pool_ok others ps pool r (l ++ [(q, d)]) ls small h -> others !! np = Some ps -> np ∉ keys (l ++ [(q, d)]) ls ->
  pool_ok (delete np others) ps pool r (l ++ [(q, with_next np d); (np, empty_block np ps)]) ls small
    (set_data q (with_next np d) (set_data np (empty_block np ps) h)).
Proof.
  intros K Hnp Hk. assert (live h !! np = Some ps) as Hl by (rewrite (proj2 (k_others _ _ _ _ _ _ _ _ K np) Hk); done).
  pose proof K as [K1 K2 K3 K4 K5 K6 K7 K8 K9 K10 K11 K13 K14]. destruct (proj1 K11 np ps Hl) as (Hps & Hnn & Hb63).
  assert (np ∉ (l ++ [(q, d)]).*1) as Hnb by (intros H; apply Hk, elem_of_app; by left).
  assert (np <> pool) as Hnpool.
  { intros ->. apply Hnb. destruct (l ++ [(q, d)]) as [|[b e] bs]; [by destruct (k_null _ _ _ _ _ _ _ _ K) |]. destruct K3 as (-> & _). by left. }
  assert ((l ++ [(q, with_next np d); (np, empty_block np ps)]).*1 = (l ++ [(q, d)]).*1 ++ [np]) as Ekeys by (rewrite !fmap_app; cbn; by rewrite <- app_assoc).
  assert (keys (l ++ [(q, with_next np d); (np, empty_block np ps)]) ls ≡ₚ np :: keys (l ++ [(q, d)]) ls) as Ek.
  { unfold keys. rewrite Ekeys, <- app_assoc. cbn. by rewrite Permutation_middle. }
  assert (forall b e, (b, e) ∈ l ++ [(q, d)] -> exists e', (b, e') ∈ l ++ [(q, with_next np d); (np, empty_block np ps)] /\ last e' = last e) as Hmono.
  { intros b e [Hb | [= -> ->]%list_elem_of_singleton]%elem_of_app; [exists e; split; [set_solver | done] | exists (with_next np d); split; [set_solver | done]]. }
  split; try done.
  - cbn [datas set_data]. apply (chain_snoc next _ _ _ _ d).
    + eapply chain_keep; [exact K3 |]. intros b e Hb. rewrite lookup_insert_ne; [by eapply chain_lookup |]. intros ->. apply Hnb, list_elem_of_fmap. by exists (b, e).
    + done.
    + done.
    + apply lookup_insert_eq.
    + done.
    + done.
  - rewrite Ekeys. apply elem_of_app. by left.
  - intros b e Hb. rewrite cons_middle, app_assoc in Hb. apply elem_of_app in Hb as [Hb | [= -> ->]%list_elem_of_singleton].
    + apply elem_of_app in Hb as [Hb | [= -> ->]%list_elem_of_singleton]; [apply K7; set_solver | apply (K7 q d); set_solver].
    + split; [done |]. cbn. unfold head_size. rewrite bool_decide_false by done. unfold sizeof_pool_data, sizeof_pool, sizeof_pool_large in *. rewrite !plus_spec by lia. lia.
  - rewrite Ek. by apply NoDup_cons.
  - intros p. destruct (K10 p) as [H1 H2]. setoid_rewrite Ek. split.
    + intros [-> | Hp]%elem_of_cons; [apply lookup_delete_eq |]. rewrite lookup_delete_ne; [by apply H1 | by intros ->].
    + rewrite not_elem_of_cons. intros [Hne Hp]. rewrite lookup_delete_ne by done. by apply H2.
  - intros x Hx. destruct (K13 x Hx) as (H1 & H2 & b & e & Hb & H3 & H4). split; [done |]. split; [done |].
    destruct (Hmono b e Hb) as (e' & He' & Ee). exists b, e'. by rewrite Ee.
Qed.

(** ** A large block gets its node *)

Lemma taken_node small l x ls : taken small ((l, x) :: ls) ≡ₚ taken (small ++ [(l, sizeof_pool_large)]) ls.
Proof. unfold taken. rewrite <- app_assoc. done. Qed.

Lemma node_apart others ps pool r bs ls small h l :
  pool_ok others ps pool r bs ls (small ++ [(l, sizeof_pool_large)]) h -> forall q y, (q, y) ∈ ls -> apart l sizeof_pool_large q sizeof_pool_large.
Proof.
  intros K q y Hq. pose proof (k_apart _ _ _ _ _ _ _ _ K) as Hs. rewrite <- (taken_node _ _ y) in Hs. unfold taken in Hs. cbn in Hs.
  apply separated_app in Hs as (_ & [Hs _] & _). rewrite Forall_forall in Hs. apply (Hs (q, sizeof_pool_large)). apply list_elem_of_fmap. by exists (q, y).
Qed.

(** A range handed out is apart from the blocks' headers. *)
Lemma taken_apart_heads others ps pool r bs ls small h x :
  pool_ok others ps pool r bs ls small h -> x ∈ taken small ls -> forall b d, (b, d) ∈ bs -> apart x.1 x.2 b (head_size pool b).
Proof.
  intros K Hin b d Hb. destruct (k_taken _ _ _ _ _ _ _ _ K _ Hin) as (Hx & _ & c & e & Hc & H1 & H2).
  destruct (decide (b = c)) as [-> | Hne]; [unfold apart; lia |].
  destruct (k_block _ _ _ _ _ _ _ _ K b d Hb) as (Hlb & Hob & Heb). destruct (k_block _ _ _ _ _ _ _ _ K c e Hc) as (Hlc & Hoc & Hec).
  pose proof (proj2 (k_live _ _ _ _ _ _ _ _ K) b ps c ps Hlb Hlc Hne) as Hap. unfold apart in *. pose proof (head_size_pos pool c). lia.
Qed.

Lemma pool_ok_clobber_node others ps pool r bs ls small h l :
  pool_ok others ps pool r bs ls (small ++ [(l, sizeof_pool_large)]) h ->
  pool_ok others ps pool r bs ls (small ++ [(l, sizeof_pool_large)]) (clobber l sizeof_pool_large h).
Proof.
  intros K. apply pool_ok_clobber; [done | | by eapply node_apart]. intros b d Hb. eapply (taken_apart_heads _ _ _ _ _ _ _ _ (l, sizeof_pool_large)); [exact K | | done].
  unfold taken. set_solver.
Qed.

Lemma pool_ok_node others ps pool r bs ls small h l p n :
  pool_ok others ps pool r bs ls (small ++ [(l, sizeof_pool_large)]) h -> others !! p = Some n -> p ∉ keys bs ls -> p <> nullptr ->
  let x := {| alloc := p; l_size := n; l_next := large r |} in
  pool_ok (delete p others) ps pool (with_large l r) bs ((l, x) :: ls) small (set_pool pool (with_large l r) (set_large l x (clobber l sizeof_pool_large h))).
Proof.
  intros K Hp Hk Hpn x. assert (live h !! p = Some n) as Hl by (rewrite (proj2 (k_others _ _ _ _ _ _ _ _ K p) Hk); done).
  pose proof (taken_node small l x ls) as Et. pose proof (node_apart _ _ _ _ _ _ _ _ _ K) as Hnodes. pose proof (pool_ok_clobber_node _ _ _ _ _ _ _ _ _ K) as K'.
  assert ((l, sizeof_pool_large) ∈ taken (small ++ [(l, sizeof_pool_large)]) ls) as Hin by (unfold taken; set_solver).
  assert (l <> nullptr) as Hln.
  { destruct (k_taken _ _ _ _ _ _ _ _ K _ Hin) as (_ & _ & c & e & Hc & H1 & H2). cbn in H1. pose proof (head_size_pos pool c). unfold nullptr. lia. }
  destruct K' as [K1 K2 K3 K4 K5 K6 K7 K8 K9 K10 K11 K13 K14]. cbn in K1, K3, K4, K7, K8, K10, K11, K13.
  split; try done.
  - apply lookup_insert_eq.
  - cbn [larges set_pool set_large large with_large]. split; [done |]. split; [done |]. split; [apply lookup_insert_eq |]. cbn [l_next x].
    eapply chain_keep; [exact K4 |]. intros q y Hq. rewrite lookup_insert_ne; [by eapply chain_lookup |]. intros ->.
    specialize (Hnodes _ _ Hq). unfold apart, sizeof_pool_large in Hnodes. lia.
  - intros q y [[= -> ->] | Hq]%elem_of_cons; [done | exact (K8 q y Hq)].
  - unfold keys in *. cbn. rewrite <- Permutation_middle. apply NoDup_cons. done.
  - intros q. destruct (K10 q) as [H1 H2]. unfold keys in *. cbn. rewrite <- Permutation_middle. split.
    + intros [-> | Hq]%elem_of_cons; [apply lookup_delete_eq |]. rewrite lookup_delete_ne; [by apply H1 | by intros ->].
    + rewrite not_elem_of_cons. intros [Hne Hq]. rewrite lookup_delete_ne by done. by apply H2.
  - intros y Hy. rewrite Et in Hy. by apply K13.
  - by rewrite Et.
Qed.

(** ** The operations *)

(** The pool as its clients know it: its large and small ranges. *)
Definition serves (others : gmap ptr Z) (ps mx : Z) (pool : ptr) (ls : list (ptr * pool_large_s)) (small : list (ptr * Z)) (h : heap) : Prop :=
  exists r bs, max r = mx /\ pool_ok others ps pool r bs ls small h.

Lemma mbind_some {A B} (x : A) (f : A -> option B) : (Some x ≫= f) = f x.
Proof. done. Qed.

Lemma with_last_twice p q d : with_last p (with_last q d) = with_last p d.
Proof. done. Qed.

Section Operations.

Context (Hmalloc : malloc_ok) (Hmemalign : memalign_ok).

Lemma memory_alloc_spec n h : 0 < n -> live_ok (live h) ->
  exists p, memory_alloc n h = (p, add_live p n (one_call h)) /\ (p <> nullptr -> fresh_block (live h) p n /\ (8 | Z.of_N p)).
Proof using All.
  intros Hn _. unfold memory_alloc. destruct (Z.eqb_spec n 0); [lia |]. eexists. split; [reflexivity |]. intros Hp. by apply Hmalloc.
Qed.

Lemma add_live_new p n h : p <> nullptr -> add_live p n h = set_live (<[p := n]> (live h)) h.
Proof. intros Hp. unfold add_live. by rewrite bool_decide_false. Qed.

Lemma pool_ok_null others ps pool r bs ls small h n : pool_ok others ps pool r bs ls small h -> pool_ok others ps pool r bs ls small (add_live nullptr n (one_call h)).
Proof. intros K. by eapply pool_ok_same. Qed.

(** A new block serves the request. *)
Lemma pool_alloc_block_spec others ps mx pool ls small h n :
  serves others ps mx pool ls small h -> 0 < n <= mx ->
  exists p h', pool_alloc_block pool n h = Some (p, h') /\ bytes h' = bytes h /\
    (p = nullptr /\ serves others ps mx pool ls small h' \/ p <> nullptr /\ serves others ps mx pool ls (small ++ [(p, n)]) h').
Proof using All.
  intros (r & bs & Hmx & K) Hn. pose proof K as [K1 K2 K3 K4 K5 K6 K7 K8 K9 K10 K11 K13 K14].
  destruct bs as [|[b0 d0] bs0] eqn:Ebs; [done |]. pose proof K3 as (<- & _ & Hd0 & _).
  destruct (K7 pool d0) as (Hl0 & Hb0 & He0); [by left |]. destruct (proj1 K11 pool ps Hl0) as (Hps & _ & Hps63).
  unfold sizeof_pool_large, sizeof_pool in K6.
  unfold pool_alloc_block. rewrite bool_decide_false by done. destruct (Z.eqb_spec n 0); [lia |]. cbn [orb]. rewrite Hd0, mbind_some.
  assert (u64 (minus (end_ d0) pool) = ps) as -> by (unfold minus; rewrite u64_small by (unfold is_u64; lia); lia).
  destruct (memory_alloc_spec ps h Hps K11) as (np & -> & Hfresh). case_bool_decide as Hnp.
  - exists nullptr. eexists. split; [reflexivity |]. subst np. split; [done |]. left. split; [done |]. exists r. eexists. split; [done |]. by apply pool_ok_null.
  - destruct (Hfresh Hnp) as [Hf Hdiv]. pose proof (pool_ok_malloc _ _ _ _ _ _ _ _ K np ps Hf Hps Hnp) as Km.
    pose proof (fresh_not_key _ _ _ _ _ _ _ _ K np ps Hf Hps) as Hkey. pose proof (fresh_not_others _ _ _ _ _ _ _ _ K np ps Hf Hps) as Hoth.
    rewrite add_live_new in * by done. set (h1 := set_live _ (one_call h)) in *. set (nm := dfs_align_ptr (plus np sizeof_pool_data) DFS_ALIGNMENT).
    destruct Hf as [Hnp63 _]. unfold sizeof_pool_data in *.
    destruct (align_spec (plus np 24)) as [Hnm Hnmdiv]; [rewrite plus_spec by lia; lia |]. fold nm in Hnm, Hnmdiv. rewrite plus_spec in Hnm by lia.
    set (dn := {| last := plus nm n; end_ := plus np ps; next := nullptr |}). set (h2 := set_data np dn h1).
    assert (np ∉ ((pool, d0) :: bs0).*1) as Hnb by (intros H; apply Hkey, elem_of_app; by left).
    assert (chain next (datas h2) pool ((pool, d0) :: bs0)) as Hc2.
    { eapply chain_keep; [exact (k_chain _ _ _ _ _ _ _ _ Km) |]. intros q d Hq. cbn. rewrite lookup_insert_ne; [exact (proj1 (chain_lookup _ _ _ _ _ _ (k_chain _ _ _ _ _ _ _ _ Km) Hq)) |].
      intros ->. apply Hnb, list_elem_of_fmap. by exists (q, d). }
    change (pools h2) with (pools h). rewrite K1, mbind_some.
    destruct (exists_last (l := (pool, d0) :: bs0)) as (l & [q d] & El); [done |].
    pose proof K5 as Hcur. rewrite El in Hcur, Hc2. apply list_elem_of_fmap in Hcur as ((c & dc) & Ec & Hc). cbn in Ec. subst c.
    assert (exists l1 l2, l ++ [(q, d)] = l1 ++ l2 ++ [(q, d)] /\ chain next (datas h2) (current r) (l2 ++ [(q, d)])) as (l1 & l2 & Esuf & Hcs).
    { apply elem_of_app in Hc as [Hc | Hc%list_elem_of_singleton].
      - apply list_elem_of_split in Hc as (l1 & l2 & ->). exists l1, ((current r, dc) :: l2). rewrite <- !app_assoc in *. split; [done |]. by eapply chain_suffix.
      - injection Hc as Ecur Edc. exists l, []. split; [done |]. rewrite Ecur. by eapply (chain_suffix next _ _ l). }
    assert (length l2 < walk_fuel h2)%nat as Hfuel.
    { pose proof (chain_datas_fuel _ _ _ Hcs) as Hlen. rewrite length_app in Hlen. lia. }
    destruct (find_tail_spec h2 (walk_fuel h2) (current r) nullptr l2 q d Hcs Hfuel) as (cur & -> & Hcur). rewrite mbind_some.
    assert (datas h2 !! q = Some d) as -> by (apply (chain_lookup next _ _ _ q d Hc2); set_solver). rewrite mbind_some.
    change (pools (set_data q (with_next np d) h2)) with (pools h). rewrite K1, mbind_some.
    eexists nm, _. split; [reflexivity |]. split; [done |]. right. split; [unfold nullptr; lia |].
    rewrite El in Km, Hkey, Hnb.
    pose proof (pool_ok_grow _ _ _ _ _ _ _ _ _ _ np Km (lookup_insert_eq _ _ _) Hkey) as Kg. rewrite delete_insert_id in Kg by done.
    rewrite cons_middle, app_assoc in Kg. 
    pose proof (pool_ok_take _ _ _ _ _ _ _ _ _ _ _ nm n Kg) as Kt. specialize (Kt ltac:(lia)). cbn [last end_ empty_block] in Kt. unfold sizeof_pool_data in Kt. rewrite !plus_spec in Kt by lia.
    specialize (Kt ltac:(lia) ltac:(lia) Hnmdiv).
    pose proof (pool_ok_current _ _ _ _ _ _ _ _ Kt (if bool_decide (cur = nullptr) then np else cur)) as Kc.
    eexists _, _. split; [|eapply pool_ok_same; [apply Kc | done | | done | done]].
    + done.
    + match goal with |- _ ∈ ?k => assert (k = (l ++ [(q, d)]).*1 ++ [np]) as -> by (by rewrite !fmap_app) end. rewrite elem_of_app, list_elem_of_singleton.
      case_bool_decide as Hz; [by right |]. left. destruct Hcur as [-> | Hcur]; [done |]. rewrite Esuf, fmap_app. apply elem_of_app. by right.
    + cbn. rewrite (insert_insert_ne _ np q); [by rewrite insert_insert_eq |]. intros ->. apply Hnb. rewrite fmap_app. set_solver.
Qed.

Lemma pool_alloc_small others ps mx pool ls small h n depth :
  serves others ps mx pool ls small h -> 0 < n <= mx ->
  exists p h', pool_alloc (S depth) pool n h = Some (p, h') /\ bytes h' = bytes h /\
    (p = nullptr /\ serves others ps mx pool ls small h' \/ p <> nullptr /\ serves others ps mx pool ls (small ++ [(p, n)]) h').
Proof using All.
  intros Hs Hn. pose proof Hs as (r & bs & Hmx & K). pose proof K as [K1 K2 K3 K4 K5 K6 K7 K8 K9 K10 K11 K13 K14].
  cbn [pool_alloc]. rewrite bool_decide_false by done. destruct (Z.eqb_spec n 0); [lia |]. cbn [orb]. rewrite K1, mbind_some, Hmx.
  destruct (Z.leb_spec n mx); [|lia].
  apply list_elem_of_fmap in K5 as ((c & dc) & Ec & Hc). cbn in Ec. subst c. apply list_elem_of_split in Hc as (l1 & l2 & ->).
  pose proof (chain_suffix _ _ _ _ _ _ _ K3) as Hcs.
  destruct (search_spec n h ltac:(lia) (walk_fuel h) (current r) _ Hcs) as [Hrun | (k1 & q & d & k2 & E & Hrun & H1 & H2 & H3)].
  - by eapply chain_datas_fuel.
  - intros q d Hq. destruct (K7 q d) as (Hl & Ho & He); [set_solver |]. destruct (proj1 K11 q ps Hl) as (_ & _ & ?). lia.
  - rewrite Hrun, mbind_some. rewrite bool_decide_true by done. by apply pool_alloc_block_spec.
  - rewrite Hrun, mbind_some. rewrite E, app_assoc in K. destruct (k_block _ _ _ _ _ _ _ _ K q d) as (Hl & Ho & He); [set_solver |].
    pose proof (head_size_pos pool q). rewrite bool_decide_false by (unfold nullptr; lia). eexists _, _. split; [reflexivity |]. split; [done |]. right.
    split; [unfold nullptr; lia |]. exists r. eexists. split; [done |]. apply pool_ok_take; [done | lia | done | done | done].
Qed.

(** The node of a block that [malloc] or [posix_memalign] has just answered. *)
Lemma link_large_spec others ps mx pool ls small h n p depth :
  serves others ps mx pool ls small h -> 0 < n -> fresh_block (live h) p n -> p <> nullptr ->
  exists q h', link_large (pool_alloc (S depth)) pool p n (add_live p n (one_call h)) = Some (q, h') /\ bytes h' = bytes h /\
    (q = nullptr /\ serves others ps mx pool ls small h' \/
     q = p /\ exists l x, alloc x = p /\ l_size x = n /\ serves others ps mx pool ((l, x) :: ls) small h').
Proof using All.
  intros (r & bs & Hmx & K) Hn Hf Hp. pose proof (pool_ok_malloc _ _ _ _ _ _ _ _ K p n Hf Hn Hp) as Km.
  pose proof (fresh_not_others _ _ _ _ _ _ _ _ K p n Hf Hn) as Hoth.
  set (h1 := add_live p n (one_call h)) in *. unfold link_large.
  assert (bytes h1 = bytes h) as Eb by (unfold h1, add_live; by case_bool_decide).
  destruct (pool_alloc_small (<[p := n]> others) ps mx pool ls small h1 sizeof_pool_large depth) as (l & h2 & Hrun & Eb2 & Hcase).
  { by exists r, bs. }
  { pose proof (k_max _ _ _ _ _ _ _ _ K). unfold sizeof_pool_large in *. lia. }
  rewrite Hrun, mbind_some. destruct Hcase as [(-> & r2 & bs2 & Hm2 & K2) | (Hl & r2 & bs2 & Hm2 & K2)].
  - rewrite bool_decide_true by done.
    assert (p ∉ keys bs2 ls) as Hk2 by (intros H; destruct (k_others _ _ _ _ _ _ _ _ K2 p) as [E _]; specialize (E H); by rewrite lookup_insert_eq in E).
    destruct (pool_ok_free _ _ _ _ _ _ _ _ K2 p n (lookup_insert_eq _ _ _) Hk2 Hp) as (h3 & Hfree & K3 & Eb3).
    rewrite Hfree, mbind_some. eexists nullptr, h3. split; [done |]. split; [congruence |]. left. split; [done |]. exists r2, bs2.
    split; [done |]. by rewrite delete_insert_id in K3 by done.
  - rewrite bool_decide_false by done. pose proof (k_pool _ _ _ _ _ _ _ _ K2) as Hr2. rewrite Hr2, mbind_some.
    assert (p ∉ keys bs2 ls) as Hk2 by (intros H; destruct (k_others _ _ _ _ _ _ _ _ K2 p) as [E _]; specialize (E H); by rewrite lookup_insert_eq in E).
    pose proof (pool_ok_node _ _ _ _ _ _ _ _ l p n K2 (lookup_insert_eq _ _ _) Hk2 Hp) as Kn. cbn zeta in Kn. rewrite delete_insert_id in Kn by done.
    assert (pools (clobber l sizeof_pool_large h2) !! pool = Some r2) as Hr3 by (eapply k_pool; by eapply pool_ok_clobber_node).
    cbn [pools set_large]. rewrite Hr3, mbind_some. eexists p, _. split; [reflexivity |]. split; [cbn; congruence |]. right. split; [done |].
    eexists l, _. split; [|split; [|eexists _, bs2; split; [|exact Kn]]]; done.
Qed.

Lemma pool_alloc_spec others ps mx pool ls small h n depth :
  serves others ps mx pool ls small h -> 0 < n ->
  exists p h', pool_alloc (S (S depth)) pool n h = Some (p, h') /\ bytes h' = bytes h /\
    (p = nullptr /\ serves others ps mx pool ls small h' \/
     p <> nullptr /\ n <= mx /\ serves others ps mx pool ls (small ++ [(p, n)]) h' \/
     p <> nullptr /\ mx < n /\ (8 | Z.of_N p) /\ exists l x, alloc x = p /\ l_size x = n /\ serves others ps mx pool ((l, x) :: ls) small h').
Proof using All.
  intros Hs Hn. destruct (Z.le_gt_cases n mx) as [Hle | Hgt].
  - destruct (pool_alloc_small _ _ _ _ _ _ _ n (S depth) Hs ltac:(lia)) as (p & h' & Hrun & Eb & Hcase). exists p, h'. naive_solver.
  - pose proof Hs as (r & bs & Hmx & K). pose proof (k_pool _ _ _ _ _ _ _ _ K) as Hr. pose proof (k_null _ _ _ _ _ _ _ _ K) as Hnn.
    remember (S depth) as dep eqn:Edep. cbn [pool_alloc]. rewrite bool_decide_false by done. destruct (Z.eqb_spec n 0); [lia |]. cbn [orb]. rewrite Hr, mbind_some, Hmx.
    destruct (Z.leb_spec n mx); [lia |]. unfold pool_alloc_large_with. rewrite bool_decide_false by done. destruct (Z.eqb_spec n 0); [lia |]. cbn [orb].
    destruct (memory_alloc_spec n h Hn (k_live _ _ _ _ _ _ _ _ K)) as (p & -> & Hf). case_bool_decide as Hp.
    + subst p. eexists nullptr, _. split; [reflexivity |]. split; [done |]. left. split; [done |]. exists r, bs. split; [done |]. by apply pool_ok_null.
    + destruct (Hf Hp) as [Hfr H8]. rewrite Edep. destruct (link_large_spec _ _ _ _ _ _ _ n p depth Hs Hn Hfr Hp) as (q & h' & Hrun & Eb & Hcase).
      exists q, h'. split; [exact Hrun |]. split; [done |]. destruct Hcase as [? | (-> & Hl)]; [by left |]. right. right. done.
Qed.

Lemma pool_memalign_spec others ps mx pool ls small h n a depth :
  serves others ps mx pool ls small h -> 0 < n ->
  exists p h', pool_memalign (S depth) pool n a h = Some (p, h') /\ bytes h' = bytes h /\
    (p = nullptr /\ serves others ps mx pool ls small h' \/
     p <> nullptr /\ (a | Z.of_N p) /\ exists l x, alloc x = p /\ l_size x = n /\ serves others ps mx pool ((l, x) :: ls) small h').
Proof using All.
  intros Hs Hn. pose proof Hs as (r & bs & Hmx & K). unfold pool_memalign, memory_memalign. destruct (Z.eqb_spec n 0); [lia |].
  set (p := posix_memalign _ _ _ _). case_bool_decide as Hp.
  - rewrite Hp. eexists nullptr, _. split; [reflexivity |]. split; [done |]. left. split; [done |]. exists r, bs. split; [done |]. by apply pool_ok_null.
  - destruct (Hmemalign (calls h) (live h) a n Hn Hp) as [Hf Hdiv]. fold p in Hf, Hdiv.
    destruct (link_large_spec _ _ _ _ _ _ _ n p depth Hs Hn Hf Hp) as (q & h' & Hrun & Eb & Hcase).
    exists q, h'. split; [exact Hrun |]. split; [done |]. destruct Hcase as [? | (-> & Hl)]; [by left | right; done].
Qed.

End Operations.

(** ** The ranges of the clients *)

Definition users (small : list (ptr * Z)) (ls : list (ptr * pool_large_s)) : list (ptr * Z) := small ++ map (fun l => (alloc l.2, l_size l.2)) ls.

Lemma large_not_block others ps pool r bs ls small h q x : pool_ok others ps pool r bs ls small h -> (q, x) ∈ ls -> alloc x ∉ bs.*1.
Proof.
  intros K Hq Hin. pose proof (k_keys _ _ _ _ _ _ _ _ K) as Hnd. unfold keys in Hnd. apply NoDup_app in Hnd as (_ & H & _).
  apply (H _ Hin). apply list_elem_of_fmap. by exists (q, x).
Qed.

Lemma users_separated others ps pool r bs ls small h : pool_ok others ps pool r bs ls small h -> separated (users small ls).
Proof.
  intros K. pose proof (k_apart _ _ _ _ _ _ _ _ K) as Hs. apply separated_app in Hs as (Hs & _ & _). apply separated_app. split; [done |]. split.
  - pose proof (k_keys _ _ _ _ _ _ _ _ K) as Hnd. unfold keys in Hnd. apply NoDup_app in Hnd as (_ & _ & Hnd).
    assert (forall q x, (q, x) ∈ ls -> live h !! alloc x = Some (l_size x)) as Hl by (intros q x Hq; by apply (k_large _ _ _ _ _ _ _ _ K q x)).
    pose proof (proj2 (k_live _ _ _ _ _ _ _ _ K)) as Hlive. clear - Hnd Hl Hlive. induction ls as [|[q x] ls' IH]; cbn in *; [done |].
    apply NoDup_cons in Hnd as [Hx Hnd]. split; [|apply IH; [done | intros q' x' Hq; apply (Hl q' x'); by right]].
    apply Forall_forall. intros y Hy. apply list_elem_of_fmap in Hy as ([q' x'] & -> & Hq). unfold aparts. cbn.
    apply Hlive; [apply (Hl q x); by left | apply (Hl q' x'); by right |]. intros E. apply Hx. rewrite E. apply list_elem_of_fmap. by exists (q', x').
  - intros x y Hx Hy. apply list_elem_of_fmap in Hy as ([q z] & -> & Hq). symmetry. unfold aparts. cbn.
    eapply live_apart_block; [exact K | by apply (k_large _ _ _ _ _ _ _ _ K q z) | by eapply large_not_block |].
    eapply taken_in_block; [exact K |]. unfold taken. set_solver.
Qed.

(** A client may write to its range what it likes. *)
Lemma pool_ok_write others ps pool r bs ls small h p l :
  pool_ok others ps pool r bs ls small h -> (p, Z.of_nat (length l)) ∈ users small ls -> pool_ok others ps pool r bs ls small (write p l h).
Proof.
  intros K Hx. assert (pool_ok others ps pool r bs ls small (clobber p (Z.of_nat (length l)) h)) as K'; [|by eapply pool_ok_same].
  apply elem_of_app in Hx as [Hx | Hx].
  - apply pool_ok_clobber; [done | |].
    + eapply (taken_apart_heads _ _ _ _ _ _ _ _ (p, Z.of_nat (length l))); [exact K |]. unfold taken. set_solver.
    + intros q x Hq. pose proof (k_apart _ _ _ _ _ _ _ _ K) as Hs. apply separated_app in Hs as (_ & _ & Hs).
      apply (Hs (p, Z.of_nat (length l)) (q, sizeof_pool_large) Hx). apply list_elem_of_fmap. by exists (q, x).
  - apply list_elem_of_fmap in Hx as ([q z] & E & Hq). cbn in E. injection E as -> El. rewrite El.
    destruct (k_large _ _ _ _ _ _ _ _ K q z Hq) as [_ Hl]. pose proof (large_not_block _ _ _ _ _ _ _ _ _ _ K Hq) as Hn.
    apply pool_ok_clobber; [done | |].
    + intros b d Hb. eapply live_apart_block; [exact K | exact Hl | done |]. by eapply head_in_block.
    + intros b y Hb. eapply live_apart_block; [exact K | exact Hl | done |]. eapply (taken_in_block _ _ _ _ _ _ _ _ K (b, sizeof_pool_large)). by eapply node_taken.
Qed.

(** ** Making a pool *)

Definition block_size (size : Z) : Z := if size <? sizeof_pool then size + sizeof_pool else size.
Definition small_max (size max_size : Z) : Z := Z.min (block_size size - sizeof_pool) max_size.

Lemma pool_create_spec (Hmalloc : malloc_ok) size max_size h pool h' :
  0 < size < 2 ^ 63 -> sizeof_pool_large <= small_max size max_size -> live_ok (live h) -> pool_create size max_size h = (pool, h') ->
  bytes h' = bytes h /\ (pool = nullptr /\ live h' = live h \/ pool <> nullptr /\ serves (live h) (block_size size) (small_max size max_size) pool [] [] h').
Proof.
  intros Hsz Hmx Hlive. unfold pool_create. destruct (Z.eqb_spec size 0); [lia |].
  assert ((if size <? sizeof_pool then u64 (size + sizeof_pool) else size) = block_size size) as ->.
  { unfold block_size, sizeof_pool. destruct (Z.ltb_spec size 56); [|done]. by rewrite u64_small by (unfold is_u64; lia). }
  set (ps := block_size size) in *. assert (0 < ps < 2 ^ 64) as Hps by (unfold ps, block_size, sizeof_pool; destruct (size <? 56); lia).
  unfold memory_alloc. destruct (Z.eqb_spec ps 0); [lia |]. set (p := malloc _ _ _). case_bool_decide as Hp.
  - intros [= <- <-]. rewrite Hp. split; [done | by left].
  - intros [= <- <-]. rewrite add_live_new by done. split; [done |]. right. split; [done |].
    destruct (Hmalloc (calls h) (live h) ps ltac:(lia) Hp) as [[Hb Hf] _]. fold p in Hb, Hf. unfold sizeof_pool_large, small_max, sizeof_pool in *. fold ps in Hmx.
    assert (u64 (ps - 56) = ps - 56) as Eu by (rewrite u64_small; [done | unfold is_u64; lia]).
    assert (live h !! p = None) as Hn.
    { destruct (live h !! p) as [k|] eqn:E; [|done]. pose proof (Hf p k E) as Ha. destruct (proj1 Hlive p k E) as [? _]. unfold apart in Ha. lia. }
    exists {| max := if u64 (ps - 56) <? max_size then u64 (ps - 56) else max_size; current := p; large := nullptr |}, [(p, {| last := plus p 56; end_ := plus p ps; next := nullptr |})]. split; [|split].
    + cbn [max]. unfold sizeof_pool. rewrite Eu. destruct (Z.ltb_spec (ps - 56) max_size); lia.
    + cbn. apply lookup_insert_eq.
    + done.
    + cbn. split; [done |]. split; [done |]. split; [apply lookup_insert_eq | done].
    + done.
    + by left.
    + cbn [max]. unfold sizeof_pool_large, sizeof_pool. rewrite Eu. destruct (Z.ltb_spec (ps - 56) max_size); lia.
    + intros q d [= -> ->]%list_elem_of_singleton. split; [cbn; apply lookup_insert_eq |]. cbn. unfold head_size, sizeof_pool. rewrite bool_decide_true by done. rewrite !plus_spec by lia. lia.
    + intros q x Hq. by apply not_elem_of_nil in Hq.
    + cbn. apply NoDup_singleton.
    + intros q. unfold keys. cbn. rewrite list_elem_of_singleton. split; [by intros -> |]. intros Hne. by rewrite lookup_insert_ne.
    + cbn. split.
      * intros q k [[<- <-] | [_ Hq]]%lookup_insert_Some; [split; [lia | done] | by apply Hlive].
      * intros q k q' k' [[<- <-] | [Hne1 Hq]]%lookup_insert_Some [[<- <-] | [Hne2 Hq']]%lookup_insert_Some Hqq; [done | by apply Hf | | by apply Hlive].
        destruct (Hf q k Hq) as [? | ?]; [by right | by left].
    + intros x Hx. by apply not_elem_of_nil in Hx.
    + done.
Qed.

(** ** Destroying a pool

    While [pool_destroy] runs, [ls] are the large blocks and [bs] the blocks it has not freed. *)

Record dying (others : gmap ptr Z) (ps : Z) (p : ptr) (bs : list (ptr * pool_data)) (l : ptr) (ls : list (ptr * pool_large_s)) (h : heap) : Prop := {
  y_chain : chain next (datas h) p bs;
  y_larges : chain l_next (larges h) l ls;
  y_block : forall b d, (b, d) ∈ bs -> live h !! b = Some ps;
  y_room : sizeof_pool_data <= ps;
  y_large : forall q x, (q, x) ∈ ls -> alloc x <> nullptr /\ live h !! alloc x = Some (l_size x);
  y_node : forall q x, (q, x) ∈ ls -> in_block ps bs q sizeof_pool_large;
  y_keys : NoDup (keys bs ls);
  y_others : forall q, (q ∈ keys bs ls -> others !! q = None) /\ (q ∉ keys bs ls -> live h !! q = others !! q);
  y_live : live_ok (live h)
}.

Lemma pool_ok_dying others ps pool r bs ls small h : pool_ok others ps pool r bs ls small h -> dying others ps pool bs (large r) ls h.
Proof.
  intros K. pose proof K as [K1 K2 K3 K4 K5 K6 K7 K8 K9 K10 K11 K13 K14]. split; try done.
  - intros b d Hb. by apply (K7 b d).
  - unfold sizeof_pool_data, sizeof_pool, sizeof_pool_large in *. lia.
  - intros q x Hq. eapply (taken_in_block _ _ _ _ _ _ _ _ K (q, sizeof_pool_large)). by eapply node_taken.
Qed.

Lemma live_ok_delete l p : live_ok l -> live_ok (delete p l).
Proof.
  intros [H1 H2]. split; [intros q k [_ Hq]%lookup_delete_Some; by apply H1 | intros q k q' k' [_ Hq]%lookup_delete_Some [_ Hq']%lookup_delete_Some; by apply H2].
Qed.

Lemma live_apart others ps p bs l ls h a n q k :
  dying others ps p bs l ls h -> live h !! a = Some n -> a ∉ bs.*1 -> in_block ps bs q k -> apart a n q k.
Proof.
  intros Y Ha Hn (b & d & Hb & H1 & H2). assert (a <> b) as Hne by (intros ->; apply Hn, list_elem_of_fmap; by exists (b, d)).
  pose proof (proj2 (y_live _ _ _ _ _ _ _ Y) a n b ps Ha (y_block _ _ _ _ _ _ _ Y b d Hb) Hne) as H. unfold apart in *. lia.
Qed.

(** One large block is freed. *)
Lemma dying_large others ps p bs l q x ls h :
  dying others ps p bs l ((q, x) :: ls) h ->
  exists h', memory_free (alloc x) h = Some h' /\ dying others ps p bs (l_next x) ls h' /\ larges h !! q = Some x /\ larges h' !! q = Some x /\
    l = q /\ q <> nullptr /\ alloc x <> nullptr.
Proof.
  intros Y. pose proof Y as [Y1 Y2 Y3 Y4 Y5 Y6 Y7 Y8 Y9]. pose proof Y2 as (-> & Hq & Hx & Hl). destruct (Y5 q x) as [Ha Hlive]; [by left |].
  unfold memory_free. rewrite bool_decide_false by done. rewrite Hlive. cbn [mbind option_bind]. eexists. split; [reflexivity |].
  assert (keys bs ((q, x) :: ls) ≡ₚ alloc x :: keys bs ls) as Ek by (unfold keys; cbn; by rewrite <- Permutation_middle).
  rewrite Ek in Y7. apply NoDup_cons in Y7 as [Hk Y7].
  assert (alloc x ∉ bs.*1) as Hnb by (intros H; apply Hk, elem_of_app; by left).
  assert (forall q' x', (q', x') ∈ (q, x) :: ls -> larges (clobber (alloc x) (l_size x) h) !! q' = Some x') as Hkeep.
  { intros q' x' H'. apply map_lookup_filter_Some. split; [by apply (chain_lookup _ _ _ _ _ _ Y2 H') |]. cbn. eapply live_apart; [exact Y | done | done | by eapply Y6]. }
  split; [|split; [done |]; split; [apply Hkeep; by left | done]].
  assert (forall b, b ∈ keys bs ls -> alloc x <> b) as Hne by (intros b Hb <-; done).
  split; cbn [set_live datas larges live clobber]; try done.
  - eapply chain_keep; [exact Y1 |]. intros b d Hb. apply map_lookup_filter_Some. split; [by apply (chain_lookup _ _ _ _ _ _ Y1 Hb) |]. cbn.
    eapply live_apart; [exact Y | done | done |]. exists b, d. split; [done |]. lia.
  - eapply chain_keep; [exact Hl |]. intros q' x' H'. apply Hkeep. by right.
  - intros b d Hb. rewrite lookup_delete_ne; [by eapply Y3 |]. apply Hne, elem_of_app. left. apply list_elem_of_fmap. by exists (b, d).
  - intros q' x' H'. rewrite lookup_delete_ne; [apply (Y5 q' x'); by right |]. apply Hne, elem_of_app. right. apply list_elem_of_fmap. by exists (q', x').
  - intros q' x' H'. apply (Y6 q' x'). by right.
  - intros b. destruct (Y8 b) as [H1 H2]. rewrite Ek, elem_of_cons in H1, H2. split; [tauto |]. intros Hb.
    destruct (decide (alloc x = b)) as [<- | ?]; [rewrite lookup_delete_eq; symmetry; apply H1; by left |]. rewrite lookup_delete_ne by done. apply H2. naive_solver.
  - by apply live_ok_delete.
Qed.

Lemma free_larges_spec others ps p bs : forall fuel l ls h,
  dying others ps p bs l ls h -> (length ls < fuel)%nat -> exists h', free_larges false fuel l h = Some h' /\ dying others ps p bs nullptr [] h'.
Proof.
  induction fuel as [|fuel IH]; intros l ls h Y Hf; [lia |]. cbn [free_larges]. destruct ls as [|[q x] ls].
  - pose proof (y_larges _ _ _ _ _ _ _ Y) as E. cbn in E. subst l. rewrite bool_decide_true by done. by exists h.
  - destruct (dying_large _ _ _ _ _ _ _ _ _ Y) as (h1 & Hfree & Y1 & Hx & Hx1 & -> & Hq & Ha).
    rewrite bool_decide_false by done. rewrite Hx, mbind_some. rewrite bool_decide_false by done. rewrite Hfree, mbind_some.
    rewrite mbind_some, Hx1, mbind_some. apply (IH _ ls); [done | cbn in Hf; lia].
Qed.

(** One block is freed. *)
Lemma dying_block others ps p b d bs h :
  dying others ps p ((b, d) :: bs) nullptr [] h ->
  exists h', memory_free p h = Some h' /\ dying others ps (next d) bs nullptr [] h' /\ p = b.
Proof.
  intros Y. pose proof Y as [Y1 Y2 Y3 Y4 Y5 Y6 Y7 Y8 Y9]. pose proof Y1 as (-> & Hb & Hd & Hc). pose proof (Y3 b d ltac:(by left)) as Hlive.
  unfold memory_free. rewrite bool_decide_false by done. rewrite Hlive. cbn [mbind option_bind]. eexists. split; [reflexivity |]. split; [|done].
  unfold keys in *. cbn in Y7, Y8. rewrite app_nil_r in Y7, Y8. apply NoDup_cons in Y7 as [Hk Y7].
  assert (forall c, c ∈ bs.*1 -> b <> c) as Hne by (intros c Hc' <-; done).
  split; cbn [set_live datas larges live clobber]; try done.
  - eapply chain_keep; [exact Hc |]. intros c e Hce. apply map_lookup_filter_Some. split; [by apply (chain_lookup _ _ _ _ _ _ Hc Hce) |]. cbn.
    assert (apart b ps c ps) as Hap.
    { apply (proj2 Y9); [done | apply (Y3 c e); by right |]. apply Hne, list_elem_of_fmap. by exists (c, e). }
    unfold apart, sizeof_pool_data in *. lia.
  - intros c e Hce. rewrite lookup_delete_ne; [apply (Y3 c e); by right |]. apply Hne, list_elem_of_fmap. by exists (c, e).
  - intros q x Hq. by apply not_elem_of_nil in Hq.
  - intros q x Hq. by apply not_elem_of_nil in Hq.
  - unfold keys. by rewrite app_nil_r.
  - intros c. destruct (Y8 c) as [H1 H2]. unfold keys. cbn. rewrite app_nil_r. rewrite elem_of_cons in H1, H2. split; [tauto |]. intros Hc'.
    destruct (decide (b = c)) as [<- | ?]; [rewrite lookup_delete_eq; symmetry; apply H1; by left |]. rewrite lookup_delete_ne by done. apply H2. naive_solver.
  - by apply live_ok_delete.
Qed.

Lemma free_blocks_spec others ps : forall fuel p b d bs h,
  dying others ps p ((b, d) :: bs) nullptr [] h -> (length bs < fuel)%nat ->
  exists h', free_blocks fuel p (next d) h = Some h' /\ live h' = others.
Proof.
  induction fuel as [|fuel IH]; intros p b d bs h Y Hf; [lia |]. cbn [free_blocks]. destruct (dying_block _ _ _ _ _ _ _ Y) as (h1 & Hfree & Y1 & ->).
  rewrite Hfree, mbind_some. pose proof (y_chain _ _ _ _ _ _ _ Y1) as Hc. destruct bs as [|[c e] bs].
  - cbn in Hc. rewrite bool_decide_true by done. exists h1. split; [done |]. apply map_eq. intros q.
    apply (proj2 (y_others _ _ _ _ _ _ _ Y1 q)). apply not_elem_of_nil.
  - destruct Hc as (Hn & Hnn & He & Hc). rewrite Hn in *. rewrite bool_decide_false by done. rewrite He, mbind_some. apply (IH c c e bs); [done | cbn in Hf; lia].
Qed.

(** Everything the pool took from [malloc] goes back, each block once. *)
Lemma pool_destroy_spec others ps mx pool ls small h :
  serves others ps mx pool ls small h -> exists h', pool_destroy pool h = Some h' /\ live h' = others.
Proof.
  intros (r & bs & _ & K). pose proof (pool_ok_dying _ _ _ _ _ _ _ _ K) as Y. unfold pool_destroy.
  rewrite bool_decide_false by apply (k_null _ _ _ _ _ _ _ _ K). rewrite (k_pool _ _ _ _ _ _ _ _ K), mbind_some.
  destruct (free_larges_spec _ _ _ _ (walk_fuel h) (large r) ls h Y) as (h1 & Hrun & Y1); [eapply chain_larges_fuel, (y_larges _ _ _ _ _ _ _ Y) |].
  rewrite Hrun, mbind_some. pose proof (y_chain _ _ _ _ _ _ _ Y1) as Hc. destruct bs as [|[b d] bs]; [by destruct (k_null _ _ _ _ _ _ _ _ K) |].
  pose proof Hc as (-> & Hn & Hd & _). rewrite Hd, mbind_some. eapply free_blocks_spec; [exact Y1 |].
  pose proof (chain_datas_fuel _ _ _ Hc) as Hf. cbn in Hf. lia.
Qed.

(** ** Resetting a pool without large blocks *)

Lemma reset_blocks_spec : forall fuel p bs h,
  chain next (datas h) p bs -> (length bs < fuel)%nat ->
  exists h', reset_blocks fuel p h = Some h' /\ pools h' = pools h /\ larges h' = larges h /\ live h' = live h /\ bytes h' = bytes h /\
    chain next (datas h') p (map (fun b => (b.1, with_last (plus b.1 sizeof_pool) b.2)) bs) /\
    forall q, q ∉ bs.*1 -> datas h' !! q = datas h !! q.
Proof.
  induction fuel as [|fuel IH]; intros p bs h Hc Hf; [lia |]. cbn [reset_blocks]. destruct bs as [|[b d] bs].
  - cbn in Hc. subst p. rewrite bool_decide_true by done. exists h. done.
  - pose proof (chain_nodup _ _ _ _ Hc) as Hnd. cbn in Hnd. apply NoDup_cons in Hnd as [Hb _]. destruct Hc as (-> & Hn & Hd & Hc).
    rewrite bool_decide_false by done. rewrite Hd, mbind_some. set (h1 := set_data b _ h).
    destruct (IH (next d) bs h1) as (h' & Hrun & E1 & E2 & E3 & E4 & Hc' & Hother); [|cbn in Hf; lia |].
    { eapply chain_keep; [exact Hc |]. intros q x Hq. cbn. rewrite lookup_insert_ne; [by apply (chain_lookup _ _ _ _ _ _ Hc Hq) |].
      intros ->. apply Hb, list_elem_of_fmap. by exists (q, x). }
    exists h'. split; [exact Hrun |]. split; [done |]. split; [done |]. split; [done |]. split; [done |]. split.
    + cbn. split; [done |]. split; [done |]. split; [rewrite Hother by done; apply lookup_insert_eq | done].
    + intros q Hq. apply not_elem_of_cons in Hq as [Hne Hq]. rewrite Hother by done. cbn. by rewrite lookup_insert_ne.
Qed.

Lemma pool_reset_spec others ps mx pool small h :
  serves others ps mx pool [] small h -> exists h', pool_reset pool h = Some h' /\ bytes h' = bytes h /\ serves others ps mx pool [] [] h'.
Proof.
  intros (r & bs & Hmx & K). pose proof K as [K1 K2 K3 K4 K5 K6 K7 K8 K9 K10 K11 K13 K14]. unfold pool_reset. rewrite bool_decide_false by done.
  rewrite K1, mbind_some. cbn in K4. assert (free_larges true (walk_fuel h) (large r) h = Some h) as -> by (rewrite K4; reflexivity).
  rewrite mbind_some, K1, mbind_some.
  destruct (reset_blocks_spec (walk_fuel h) pool bs (set_pool pool (with_current pool r) h)) as (h' & Hrun & E1 & E2 & E3 & E4 & Hc & _);
    [done | by eapply chain_datas_fuel |].
  exists h'. split; [exact Hrun |]. split; [done |]. set (bs' := map _ bs) in *. exists (with_current pool r), bs'. split; [done |].
  assert (bs'.*1 = bs.*1) as Ek by (unfold bs'; rewrite <- list_fmap_compose; by apply list_fmap_ext).
  split; unfold keys in *; rewrite ?Ek, ?E3; try done.
  - rewrite E1. apply lookup_insert_eq.
  - destruct bs as [|[b d] bs0]; [done |]. destruct K3 as (<- & _). by left.
  - intros p d Hp. apply list_elem_of_fmap in Hp as ([b e] & [= -> ->] & Hb). destruct (K7 b e Hb) as (Hl & Ho & He). split; [done |].
    cbn. unfold sizeof_pool, sizeof_pool_large in *. rewrite plus_spec by lia. pose proof (head_size_bounds pool b). lia.
  - intros x Hx. by apply not_elem_of_nil in Hx.
Qed.

(** ** A client *)

Lemma put_other m p l a : (a < p)%N \/ (at_ p (length l) <= a)%N -> put p l m !! a = m !! a.
Proof.
  revert m p. induction l as [|b l IH]; intros m p Ha; cbn; [done |]. cbn in Ha. unfold at_ in *. rewrite IH by (unfold at_; lia).
  rewrite lookup_insert_ne; [done | lia].
Qed.

Lemma put_holds m p l : holds (put p l m) p l.
Proof.
  revert m p. induction l as [|b l IH]; intros m p; [apply holds_nil |]. cbn. apply holds_cons. split; [|apply IH].
  rewrite put_other by (unfold at_; lia). apply lookup_insert_eq.
Qed.

Inductive pcall := PAlloc (n : Z) | PCalloc (n : Z) | PMemalign (n a : Z) | PWrite (i : nat) (l : list Z).

(** A range the client was given: its address, its size, the alignment it may rely on, and
    what it holds when that is known. *)
Record range := { r_at : ptr; r_size : Z; r_align : Z; r_holds : option (list Z) }.
Definition span (x : range) : ptr * Z := (r_at x, r_size x).

Definition gain (p : ptr) (n a : Z) (c : option (list Z)) (rs : list range) : list range :=
  if bool_decide (p = nullptr) then rs else rs ++ [{| r_at := p; r_size := n; r_align := a; r_holds := c |}].

(** A write of another length than that of the range is not made. *)
Definition run_call (depth : nat) (pool : ptr) (c : pcall) (s : heap * list range) : option (heap * list range) :=
  let '(h, rs) := s in
  match c with
  | PAlloc n => '(p, h) ← pool_alloc depth pool n h; Some (h, gain p n DFS_ALIGNMENT None rs)
  | PCalloc n => '(p, h) ← pool_calloc depth pool n h; Some (h, gain p n DFS_ALIGNMENT (Some (repeat 0 (Z.to_nat n))) rs)
  | PMemalign n a => '(p, h) ← pool_memalign depth pool n a h; Some (h, gain p n a None rs)
  | PWrite i l =>
      match rs !! i with
      | Some x =>
          if Z.of_nat (length l) =? r_size x then
            Some (write (r_at x) l h, <[i := {| r_at := r_at x; r_size := r_size x; r_align := r_align x; r_holds := Some l |}]> rs)
          else Some (h, rs)
      | None => Some (h, rs)
      end
  end.

Fixpoint run_calls (depth : nat) (pool : ptr) (cs : list pcall) (s : heap * list range) : option (heap * list range) :=
  match cs with [] => Some s | c :: cs => s ← run_call depth pool c s; run_calls depth pool cs s end.

Definition pcall_ok (c : pcall) : Prop := match c with PAlloc n | PCalloc n | PMemalign n _ => 0 < n | PWrite _ _ => True end.

Definition range_ok (h : heap) (x : range) : Prop :=
  (r_align x | Z.of_N (r_at x)) /\ match r_holds x with Some l => Z.of_nat (length l) = r_size x /\ holds (bytes h) (r_at x) l | None => True end.

Definition good (others : gmap ptr Z) (ps mx : Z) (pool : ptr) (s : heap * list range) : Prop :=
  exists ls small, serves others ps mx pool ls small s.1 /\ map span s.2 ≡ₚ users small ls /\ Forall (range_ok s.1) s.2.

Lemma range_ok_same h h' x : bytes h' = bytes h -> range_ok h x -> range_ok h' x.
Proof. unfold range_ok. by intros ->. Qed.

Lemma users_snoc small ls x : users (small ++ [x]) ls ≡ₚ users small ls ++ [x].
Proof. unfold users. rewrite <- !app_assoc. by rewrite (Permutation_app_comm [x]). Qed.

Lemma users_cons small ls l x : users small ((l, x) :: ls) ≡ₚ users small ls ++ [(alloc x, l_size x)].
Proof. unfold users. cbn. rewrite <- app_assoc. by rewrite (Permutation_cons_append _ (alloc x, l_size x)). Qed.

Lemma good_separated others ps mx pool s : good others ps mx pool s -> separated (map span s.2).
Proof. intros (ls & small & (r & bs & _ & K) & E & _). rewrite E. by eapply users_separated. Qed.

(** A range that was just answered. *)
Lemma good_gain others ps mx pool ls small ls' small' h h' rs p n a :
  map span rs ≡ₚ users small ls -> Forall (range_ok h) rs -> bytes h' = bytes h -> serves others ps mx pool ls' small' h' ->
  users small' ls' ≡ₚ users small ls ++ [(p, n)] -> p <> nullptr -> (a | Z.of_N p) -> good others ps mx pool (h', gain p n a None rs).
Proof.
  intros E Hr Eb Hs Eu Hp Ha. exists ls', small'. split; [done |]. unfold gain. rewrite bool_decide_false by done. split.
  - cbn. rewrite map_app, Eu, E. done.
  - apply Forall_app. split; [|constructor; [split; [exact Ha | exact I] | constructor]]. eapply Forall_impl; [exact Hr |]. intros x. by apply range_ok_same.
Qed.

Lemma good_null others ps mx pool ls small h h' rs n a :
  map span rs ≡ₚ users small ls -> Forall (range_ok h) rs -> bytes h' = bytes h -> serves others ps mx pool ls small h' ->
  good others ps mx pool (h', gain nullptr n a None rs).
Proof. intros E Hr Eb Hs. exists ls, small. split; [done |]. split; [done |]. eapply Forall_impl; [exact Hr |]. intros x. by apply range_ok_same. Qed.

Lemma small_aligned others ps mx pool ls small h p n : serves others ps mx pool ls (small ++ [(p, n)]) h -> (8 | Z.of_N p).
Proof. intros (r & bs & _ & K). destruct (k_taken _ _ _ _ _ _ _ _ K (p, n)) as (_ & H & _); [unfold taken; set_solver | done]. Qed.

(** What a client writes to its range stays there. *)
Lemma good_write others ps mx pool h rs i x l :
  good others ps mx pool (h, rs) -> rs !! i = Some x -> Z.of_nat (length l) = r_size x ->
  good others ps mx pool (write (r_at x) l h, <[i := {| r_at := r_at x; r_size := r_size x; r_align := r_align x; r_holds := Some l |}]> rs).
Proof.
  intros G Hi Hl. pose proof (good_separated _ _ _ _ _ G) as Hsep. destruct G as (ls & small & (r & bs & Hmx & K) & E & Hr). cbn [fst snd] in *.
  set (x' := {| r_at := r_at x; r_size := r_size x; r_align := r_align x; r_holds := Some l |}).
  assert (map span (<[i := x']> rs) = map span rs) as Espan.
  { rewrite list_fmap_insert. apply list_insert_id. by rewrite list_lookup_fmap, Hi. }
  exists ls, small. cbn [fst snd]. split; [|split; [by rewrite Espan |]].
  - exists r, bs. split; [done |]. apply pool_ok_write; [done |]. rewrite <- E, Hl. apply list_elem_of_fmap. exists x. split; [done |]. by eapply list_elem_of_lookup_2.
  - apply Forall_lookup. intros j y Hj. rewrite Forall_lookup in Hr. destruct (decide (j = i)) as [-> | Hne].
    + rewrite list_lookup_insert_eq in Hj by (by eapply lookup_lt_Some). injection Hj as <-. destruct (Hr i x Hi) as [Ha _]. split; [done |].
      cbn. split; [done |]. apply put_holds.
    + rewrite list_lookup_insert_ne in Hj by done. destruct (Hr j y Hj) as [Ha Hh]. split; [done |]. destruct (r_holds y) as [k|]; [|done].
      destruct Hh as [Hk Hh]. split; [done |]. intros a b Hb. cbn. rewrite put_other; [by apply Hh |].
      assert (aparts (span x) (span y)) as Hap by (apply (separated_lookup _ i j _ _ Hsep); [done | by rewrite list_lookup_fmap, Hi | by rewrite list_lookup_fmap, Hj]).
      apply lookup_lt_Some in Hb. unfold aparts, apart, span, at_ in *. cbn in Hap. lia.
Qed.

Section Client.

Context (Hmalloc : malloc_ok) (Hmemalign : memalign_ok).

Lemma alloc_good others ps mx pool h rs n depth :
  good others ps mx pool (h, rs) -> 0 < n ->
  exists p h', pool_alloc (S (S depth)) pool n h = Some (p, h') /\ good others ps mx pool (h', gain p n DFS_ALIGNMENT None rs).
Proof using All.
  intros (ls & small & Hs & E & Hr) Hn. cbn [fst snd] in *. destruct (pool_alloc_spec Hmalloc Hmemalign _ _ _ _ _ _ _ n depth Hs Hn) as (p & h' & Hrun & Eb & Hcase).
  exists p, h'. split; [done |]. destruct Hcase as [(-> & Hs') | [(Hp & Hle & Hs') | (Hp & Hgt & H8 & l & x & Ex & En & Hs')]].
  - by eapply good_null.
  - eapply (good_gain _ _ _ _ ls small ls (small ++ [(p, n)])); try done; [apply users_snoc | by eapply small_aligned].
  - eapply (good_gain _ _ _ _ ls small ((l, x) :: ls) small); try done. rewrite <- Ex, <- En. apply users_cons.
Qed.

Lemma gain_insert p n a c rs : p <> nullptr ->
  gain p n a c rs = <[length rs := {| r_at := p; r_size := n; r_align := a; r_holds := c |}]> (gain p n a None rs).
Proof. intros Hp. unfold gain. rewrite !bool_decide_false by done. induction rs as [|x rs IH]; [done |]. cbn. f_equal. exact IH. Qed.

Lemma run_call_good others ps mx pool c s depth :
  good others ps mx pool s -> pcall_ok c -> exists s', run_call (S (S depth)) pool c s = Some s' /\ good others ps mx pool s'.
Proof using All.
  destruct s as [h rs]. intros G Hc. destruct c as [n | n | n a | i l]; cbn [run_call pcall_ok] in *.
  - destruct (alloc_good _ _ _ _ _ _ n depth G Hc) as (p & h' & Hrun & G'). rewrite Hrun, mbind_some. by eexists.
  - destruct (alloc_good _ _ _ _ _ _ n depth G Hc) as (p & h' & Hrun & G'). unfold pool_calloc. rewrite Hrun, mbind_some.
    case_bool_decide as Hp; rewrite mbind_some; eexists; (split; [reflexivity |]).
    + subst p. exact G'.
    + rewrite gain_insert by done. unfold gain in *. rewrite bool_decide_false in * by done.
      apply (good_write _ _ _ _ _ _ (length rs) {| r_at := p; r_size := n; r_align := DFS_ALIGNMENT; r_holds := None |} (repeat 0 (Z.to_nat n)) G').
      * rewrite lookup_app_r, Nat.sub_diag by done. done.
      * rewrite repeat_length. cbn. lia.
  - destruct G as (ls & small & Hs & E & Hr). cbn [fst snd] in *.
    destruct (pool_memalign_spec Hmalloc Hmemalign _ _ _ _ _ _ _ n a (S depth) Hs Hc) as (p & h' & Hrun & Eb & Hcase). rewrite Hrun, mbind_some. eexists. split; [reflexivity |].
    destruct Hcase as [(-> & Hs') | (Hp & Ha & l & x & Ex & En & Hs')]; [by eapply good_null |].
    eapply (good_gain _ _ _ _ ls small ((l, x) :: ls) small); try done. rewrite <- Ex, <- En. apply users_cons.
  - destruct (rs !! i) as [x|] eqn:Hi; [|by eexists]. destruct (Z.eqb_spec (Z.of_nat (length l)) (r_size x)) as [Hl | _]; [|by eexists].
    eexists. split; [reflexivity |]. by apply good_write.
Qed.

Lemma run_calls_good others ps mx pool cs depth : forall s,
  good others ps mx pool s -> Forall pcall_ok cs -> exists s', run_calls (S (S depth)) pool cs s = Some s' /\ good others ps mx pool s'.
Proof using All.
  induction cs as [|c cs IH]; intros s G Hc; [by exists s |]. apply Forall_cons in Hc as [Hc Hcs].
  destruct (run_call_good _ _ _ _ c s depth G Hc) as (s1 & Hrun & G1). cbn [run_calls]. rewrite Hrun, mbind_some. by apply IH.
Qed.

Lemma created_good size max_size h pool h' :
  0 < size < 2 ^ 63 -> sizeof_pool_large <= small_max size max_size -> live_ok (live h) -> pool_create size max_size h = (pool, h') ->
  pool <> nullptr -> good (live h) (block_size size) (small_max size max_size) pool (h', []).
Proof using All.
  intros H1 H2 H3 H4 Hp. destruct (pool_create_spec Hmalloc _ _ _ _ _ H1 H2 H3 H4) as [_ [[? _] | [_ Hs]]]; [done |].
  exists [], []. split; [done |]. split; [done |]. constructor.
Qed.

(** C12. Clients of a memory pool are safe. The pool is one that [pool_create] made for a size
    below 2^63 and whose first block is large enough that the node of a large block fits in it
    as a small range (otherwise a large request never ends: [tiny_pool_never_answers]). The
    clients call [pool_alloc], [pool_calloc] and [pool_memalign] for sizes that are not 0, in
    any order, and write into the ranges they were given; they do not call [pool_reset], which
    keeps pointers into what it frees ([reset_then_destroy]). Then every call is defined, for
    any behaviour of [malloc] and [posix_memalign] that their documentation allows, refusals included; the ranges handed out are aligned
    and have no byte in common, and each holds what was last written to it (zeros after
    [pool_calloc]). *)
Theorem pool_client_safe size max_size h pool h' cs depth :
  0 < size < 2 ^ 63 -> sizeof_pool_large <= small_max size max_size -> live_ok (live h) -> pool_create size max_size h = (pool, h') ->
  pool <> nullptr -> Forall pcall_ok cs ->
  exists h2 rs, run_calls (S (S depth)) pool cs (h', []) = Some (h2, rs) /\ Forall (range_ok h2) rs /\
    forall i j x y, i <> j -> rs !! i = Some x -> rs !! j = Some y -> apart (r_at x) (r_size x) (r_at y) (r_size y).
Proof using All.
  intros H1 H2 H3 H4 Hp Hcs. destruct (run_calls_good _ _ _ _ cs depth _ (created_good _ _ _ _ _ H1 H2 H3 H4 Hp) Hcs) as ([h2 rs] & Hrun & G).
  exists h2, rs. split; [done |]. split; [by destruct G as (ls & small & _ & _ & ?) |]. intros i j x y Hij Hi Hj.
  apply (separated_lookup _ i j (span x) (span y) (good_separated _ _ _ _ _ G)); [done | cbn; by rewrite list_lookup_fmap, Hi | cbn; by rewrite list_lookup_fmap, Hj].
Qed.

(** C13. [pool_destroy] gives back all of a pool. For a pool made for a size below 2^63 whose
    first block has room for the node of a large block, and after any calls of [pool_alloc],
    [pool_calloc] and [pool_memalign] for sizes that are not 0 and any writes of the clients
    into their ranges, but no [pool_reset] ([reset_then_destroy] shows that the pool cannot be
    destroyed safely after it), [pool_destroy] is defined and frees every block the pool took,
    each once, and nothing else. *)
Theorem pool_destroy_gives_back size max_size h pool h' cs depth :
  0 < size < 2 ^ 63 -> sizeof_pool_large <= small_max size max_size -> live_ok (live h) -> pool_create size max_size h = (pool, h') ->
  pool <> nullptr -> Forall pcall_ok cs ->
  exists h2 rs h3, run_calls (S (S depth)) pool cs (h', []) = Some (h2, rs) /\ pool_destroy pool h2 = Some h3 /\ live h3 = live h.
Proof using All.
  intros H1 H2 H3 H4 Hp Hcs. destruct (run_calls_good _ _ _ _ cs depth _ (created_good _ _ _ _ _ H1 H2 H3 H4 Hp) Hcs) as ([h2 rs] & Hrun & ls & small & Hs & _).
  destruct (pool_destroy_spec _ _ _ _ _ _ _ Hs) as (h3 & Hd & E). by exists h2, rs, h3.
Qed.

End Client.

(** A pool whose blocks are so small that not even the node of a large block fits never
    answers a larger request: [pool_alloc] and [pool_alloc_large] call each other as long as
    [malloc] answers. *)
Theorem tiny_pool_never_answers size max_size h pool h' n :
  (forall k l m, malloc k l m <> nullptr) -> pool_create size max_size h = (pool, h') -> 0 < size < 2 ^ 63 ->
  small_max size max_size < sizeof_pool_large -> small_max size max_size < n -> 0 < n -> forall depth, pool_alloc depth pool n h' = None.
Proof.
  intros Hm. unfold pool_create. intros Hc Hsz Hmx. revert Hc. destruct (Z.eqb_spec size 0); [lia |].
  assert ((if size <? sizeof_pool then u64 (size + sizeof_pool) else size) = block_size size) as ->.
  { unfold block_size, sizeof_pool. destruct (Z.ltb_spec size 56); [|done]. by rewrite u64_small by (unfold is_u64; lia). }
  set (ps := block_size size). assert (sizeof_pool <= ps < 2 ^ 64) as Hps by (unfold ps, block_size, sizeof_pool; destruct (Z.ltb_spec size 56); lia).
  unfold sizeof_pool in *. unfold memory_alloc. destruct (Z.eqb_spec ps 0); [lia |]. rewrite bool_decide_false by apply Hm. intros [= Ep Eh].
  assert (pool <> nullptr) as Hp by (rewrite <- Ep; apply Hm).
  assert (exists r, pools h' !! pool = Some r /\ max r = small_max size max_size) as (r & Hr & Hmax).
  { eexists. rewrite <- Eh, Ep. cbn. split; [apply lookup_insert_eq |]. cbn. unfold small_max, sizeof_pool. fold ps.
    rewrite u64_small by (unfold is_u64; lia). destruct (Z.ltb_spec (ps - 56) max_size); lia. }
  clear Ep Eh. intros Hn Hn0 depth. revert n h' Hr Hn Hn0. induction depth as [|depth IH]; intros k h' Hr Hn Hn0; [done |].
  cbn [pool_alloc]. rewrite bool_decide_false by done. destruct (Z.eqb_spec k 0); [lia |]. cbn [orb]. rewrite Hr, mbind_some, Hmax.
  destruct (Z.leb_spec k (small_max size max_size)); [lia |]. unfold pool_alloc_large_with. rewrite bool_decide_false by done.
  destruct (Z.eqb_spec k 0); [lia |]. cbn [orb]. unfold memory_alloc. destruct (Z.eqb_spec k 0); [lia |]. rewrite bool_decide_false by apply Hm.
  unfold link_large. rewrite IH; [done | by rewrite add_live_new by apply Hm | unfold sizeof_pool_large in *; lia | done].
Qed.

Lemma dfs_align_spec d a : 0 < a < 2 ^ 32 -> 0 <= d -> d + a < 2 ^ 64 -> exists m, dfs_align d a = Some m /\ d <= m < d + a /\ (a | m).
Proof.
  intros Ha Hd Hs. unfold dfs_align. destruct (Z.eqb_spec a 0); [lia |]. pose proof (Z.mod_pos_bound d a ltac:(lia)). pose proof (Z.div_mod d a ltac:(lia)).
  destruct (Z.eqb_spec (d mod a) 0) as [E | E]; cbn [negb].
  - exists d. split; [done |]. split; [lia |]. exists (d / a). lia.
  - exists (d + (a - d mod a)). split; [|split; [lia |]; exists (d / a + 1); lia]. rewrite (u64_small (a - d mod a)) by (unfold is_u64; lia). by rewrite u64_small by (unfold is_u64; lia).
Qed.

End Pool.

(** ** Witnesses *)

(** An allocator that answers the first multiple of [a] behind all live blocks. *)
Definition top (live : gmap ptr Z) : Z := foldr (fun x acc => Z.max acc (Z.of_N x.1 + x.2)) 0 (map_to_list live).
Definition bump (a : Z) (live : gmap ptr Z) (n : Z) : ptr :=
  if a <=? 0 then nullptr else let p := a * (top live / a + 1) in if p + n <=? 2 ^ 63 then Z.to_N p else nullptr.

Lemma top_max live q n : live !! q = Some n -> Z.of_N q + n <= top live.
Proof.
  intros H%elem_of_map_to_list. unfold top. induction (map_to_list live) as [|x l IH]; [by apply not_elem_of_nil in H |]. cbn.
  apply elem_of_cons in H as [<- | H]; [cbn; lia | specialize (IH H); lia].
Qed.

Lemma top_pos live : 0 <= top live.
Proof. unfold top. induction (map_to_list live) as [|x l IH]; cbn; lia. Qed.

Lemma bump_fresh a live n : 0 < n -> bump a live n <> nullptr -> fresh_block live (bump a live n) n /\ (a | Z.of_N (bump a live n)).
Proof.
  intros Hn. unfold bump. destruct (Z.leb_spec a 0) as [? | Ha]; [done |]. set (p := a * (top live / a + 1)). destruct (Z.leb_spec (p + n) (2 ^ 63)); [|done]. intros _.
  pose proof (top_pos live) as Htop. pose proof (Z.div_mod (top live) a ltac:(lia)). pose proof (Z.mod_pos_bound (top live) a Ha).
  assert (top live < p) as Hp by (unfold p; nia). rewrite Z2N.id by lia. split; [split; [lia |]|].
  - intros q k Hq. right. pose proof (top_max _ _ _ Hq). lia.
  - exists (top live / a + 1). unfold p. lia.
Qed.

Lemma bump_malloc_ok : malloc_ok (fun _ => bump 16).
Proof. intros k live n Hn Hp. destruct (bump_fresh 16 live n Hn Hp) as [? [c Hc]]. split; [done |]. exists (2 * c). lia. Qed.

Lemma bump_memalign_ok : memalign_ok (fun _ live a n => bump a live n).
Proof. intros k live a n. apply bump_fresh. Qed.

Definition empty_heap : heap := {| datas := ∅; pools := ∅; larges := ∅; live := ∅; bytes := ∅; calls := 0 |}.

Lemma empty_live_ok : live_ok (live empty_heap).
Proof. split; [intros q n H | intros q n k m H]; cbn in H; by rewrite lookup_empty in H. Qed.

Definition made (size max_size : Z) : ptr * heap := pool_create (fun _ => bump 16) size max_size empty_heap.

(** A large range, small ones that need a second block, an aligned one, and writes. *)
Definition session : list pcall :=
  [PAlloc 100; PCalloc 300; PWrite 0 (repeat 7 100); PAlloc 90; PCalloc 60; PMemalign 64 32; PWrite 2 (repeat 9 90); PWrite 4 (repeat 5 64); PWrite 1 (repeat 1 300)].

Lemma session_ok : Forall pcall_ok session.
Proof. repeat constructor. Qed.

Lemma pool_client_safe_witness :
  exists h2 rs, run_calls (fun _ => bump 16) (fun _ live a n => bump a live n) 2 (made 256 4096).1 session ((made 256 4096).2, []) = Some (h2, rs) /\
    Forall (range_ok h2) rs /\ forall i j x y, i <> j -> rs !! i = Some x -> rs !! j = Some y -> apart (r_at x) (r_size x) (r_at y) (r_size y).
Proof.
  apply (pool_client_safe (fun _ => bump 16) (fun _ live a n => bump a live n) bump_malloc_ok bump_memalign_ok 256 4096 empty_heap).
  - lia.
  - vm_compute. discriminate.
  - exact empty_live_ok.
  - unfold made. symmetry. apply surjective_pairing.
  - vm_compute. discriminate.
  - exact session_ok.
Defined.

Lemma pool_destroy_gives_back_witness :
  exists h2 rs h3, run_calls (fun _ => bump 16) (fun _ live a n => bump a live n) 2 (made 256 4096).1 session ((made 256 4096).2, []) = Some (h2, rs) /\
    pool_destroy (made 256 4096).1 h2 = Some h3 /\ live h3 = live empty_heap.
Proof.
  apply (pool_destroy_gives_back (fun _ => bump 16) (fun _ live a n => bump a live n) bump_malloc_ok bump_memalign_ok 256 4096 empty_heap).
  - lia.
  - vm_compute. discriminate.
  - exact empty_live_ok.
  - unfold made. symmetry. apply surjective_pairing.
  - vm_compute. discriminate.
  - exact session_ok.
Defined.

Lemma tiny_pool_never_answers_witness :
  pool_alloc (fun _ _ _ => 4096%N) 50 4096%N 100 (pool_create (fun _ _ _ => 4096%N) 60 4096 empty_heap).2 = None.
Proof.
  apply (tiny_pool_never_answers (fun _ _ _ => 4096%N) 60 4096 empty_heap 4096%N).
  - discriminate.
  - reflexivity.
  - lia.
  - reflexivity.
  - reflexivity.
  - reflexivity.
Defined.

(** [pool_reset] keeps [large], whose nodes lie in the ranges it has just freed: the next client
    overwrites a node, and [pool_destroy] reads it. *)
Example reset_then_destroy :
  (let '(pool, h) := made 256 4096 in
   '(_, h) ← pool_alloc (fun _ => bump 16) 2 pool 300 h;
   h ← pool_reset pool h;
   '(p, h) ← pool_alloc (fun _ => bump 16) 2 pool 100 h;
   Some (bool_decide (is_Some (pool_destroy pool h)), bool_decide (is_Some (pool_destroy pool (write p (repeat 0 100) h))))) = Some (true, false).
Proof. vm_compute. reflexivity. Qed.
