(* ===== verification/Chain.v ===== *)
(** * Chains of buffers ([src/core/dfs_chain.cpp], chain functions of [src/core/dfs_sysio.cpp])

    A chain is a linked list of buffers that lie in memory or in a file. Output gathers the
    memory buffers into vectors for [writev] and sends the file buffers with [sendfile]; what
    was sent is taken off the buffers. Input scatters into the free room of the buffers.

    Nodes and buffers are objects at addresses, so chains may share them. The results of the
    system calls are parameters, numbered by call; [tx] records the bytes sent. *)

From S2P Require Import Prelude Memory Codec.

Definition DFS_IOVS_REV : nat := 16.
Definition DFS_IOVS_MAX : nat := 64.
Definition DFS_MAX_LIMIT : Z := 2147479552.

(* src/src/core/dfs_chain.h:10-14 (chain_s) *)
Record chain_s := { buf : ptr; next : ptr }.

(** [ready] is that of the connection's write event, [sent] the connection's counter, [file]
    the file that file buffers name. *)
Record world := {
  nodes : gmap ptr chain_s; bufs : gmap ptr buffer; mem : memory; file : list Z; ready : bool; sent : Z; calls : nat; tx : list Z
}.

Definition with_nodes (n : gmap ptr chain_s) (w : world) : world :=
  {| nodes := n; bufs := bufs w; mem := mem w; file := file w; ready := ready w; sent := sent w; calls := calls w; tx := tx w |}.
Definition with_bufs (b : gmap ptr buffer) (w : world) : world :=
  {| nodes := nodes w; bufs := b; mem := mem w; file := file w; ready := ready w; sent := sent w; calls := calls w; tx := tx w |}.
Definition with_mem (m : memory) (w : world) : world :=
  {| nodes := nodes w; bufs := bufs w; mem := m; file := file w; ready := ready w; sent := sent w; calls := calls w; tx := tx w |}.
Definition with_ready (r : bool) (w : world) : world :=
  {| nodes := nodes w; bufs := bufs w; mem := mem w; file := file w; ready := r; sent := sent w; calls := calls w; tx := tx w |}.
Definition add_sent (n : Z) (w : world) : world :=
  {| nodes := nodes w; bufs := bufs w; mem := mem w; file := file w; ready := ready w; sent := sent w + n; calls := calls w; tx := tx w |}.
Definition one_call (out : list Z) (w : world) : world :=
  {| nodes := nodes w; bufs := bufs w; mem := mem w; file := file w; ready := ready w; sent := sent w; calls := S (calls w); tx := tx w ++ out |}.

Definition with_file_pos (n : Z) (b : buffer) : buffer :=
  {| pos := pos b; last := last b; file_pos := n; file_last := file_last b; start := start b; end_ := end_ b; temporary := temporary b;
     memory_ := memory_ b; in_file := in_file b |}.

Definition set_buf (p : ptr) (b : buffer) (w : world) : world := with_bufs (<[p := b]> (bufs w)) w.
Definition node_buf (p : ptr) (w : world) : option (chain_s * buffer) := n ← nodes w !! p; b ← bufs w !! buf n; Some (n, b).

(** A walk along a chain visits each node at most once. *)
Definition walk_fuel (w : world) : nat := S (size (nodes w)).

(** ** Walks *)

Fixpoint reset_loop (fuel : nat) (cl : ptr) (w : world) : option world :=
  match fuel with
  | O => None
  | S fuel =>
      if bool_decide (cl = nullptr) then Some w
      else '(n, b) ← node_buf cl w; reset_loop fuel (next n) (set_buf (buf n) (buffer_reset b) w)
  end.
(* src/src/core/dfs_chain.cpp:25-33 (chain_reset) *)
Definition chain_reset (cl : ptr) (w : world) : option world := reset_loop (walk_fuel w) cl w.

Fixpoint empty_loop (fuel : nat) (cl : ptr) (w : world) : option bool :=
  match fuel with
  | O => None
  | S fuel =>
      if bool_decide (cl = nullptr) then Some true
      else '(n, b) ← node_buf cl w; if 0 <? buffer_size b then Some false else empty_loop fuel (next n) w
  end.
(* src/src/core/dfs_chain.cpp:35-46 (chain_empty) *)
Definition chain_empty (cl : ptr) (w : world) : option bool := empty_loop (walk_fuel w) cl w.

Fixpoint size_loop (fuel : nat) (cl : ptr) (len : Z) (w : world) : option Z :=
  match fuel with
  | O => None
  | S fuel =>
      if bool_decide (cl = nullptr) then Some len
      else '(n, b) ← node_buf cl w; size_loop fuel (next n) (u64 (len + buffer_size b)) w
  end.
(* src/src/core/dfs_chain.cpp:48-59 (chain_size) *)
Definition chain_size (cl : ptr) (w : world) : option Z := size_loop (walk_fuel w) cl 0 w.

(** A pointer to a chain is the variable that holds it, whose value is [dst], or the [next]
    field of its last node. *)
Fixpoint last_node (fuel : nat) (cl : ptr) (w : world) : option ptr :=
  match fuel with
  | O => None
  | S fuel => n ← nodes w !! cl; if bool_decide (next n = nullptr) then Some cl else last_node fuel (next n) w
  end.

Definition set_next (p q : ptr) (w : world) : option world :=
  n ← nodes w !! p; Some (with_nodes (<[p := {| buf := buf n; next := q |}]> (nodes w)) w).

(** The variable and the world after [*dst_chain = q] at the end of the chain. *)
Definition link_end (dst q : ptr) (w : world) : option (ptr * world) :=
  if bool_decide (dst = nullptr) then Some (q, w)
  else l ← last_node (walk_fuel w) dst w; w ← set_next l q w; Some (dst, w).

(* src/src/core/dfs_chain.cpp:199-212 (chain_append_all) *)
Definition chain_append_all (dst src : ptr) (w : world) : option (ptr * world) :=
  if bool_decide (src = nullptr) then Some (dst, w) else link_end dst src w.

(** [chain_alloc] answers the address [ln] of a node, or [nullptr]. *)
(* src/src/core/dfs_chain.cpp:5-23 (chain_alloc) *)
Definition chain_alloc (ln : ptr) (w : world) : option world :=
  if bool_decide (ln = nullptr) then Some w else set_next ln nullptr w.

Definition set_node_buf (p b : ptr) (w : world) : option world :=
  n ← nodes w !! p; Some (with_nodes (<[p := {| buf := b; next := next n |}]> (nodes w)) w).

(* src/src/core/dfs_chain.cpp:214-239 (chain_append_buffer) *)
Definition chain_append_buffer (ln dst src_buffer : ptr) (w : world) : option (Z * ptr * world) :=
  if bool_decide (src_buffer = nullptr) then Some (NGX_OK, dst, w)
  else
    w ← chain_alloc ln w;
    if bool_decide (ln = nullptr) then Some (NGX_ERROR, dst, w)
    else w ← set_node_buf ln src_buffer w; '(dst, w) ← link_end dst ln w; Some (NGX_OK, dst, w).

(** The size is not used. *)
(* src/src/core/dfs_chain.cpp:241-266 (chain_append_buffer_withsize) *)
Definition chain_append_buffer_withsize (ln dst src_buffer : ptr) (size : Z) (w : world) : option (Z * ptr * world) :=
  if bool_decide (src_buffer = nullptr) then Some (NGX_OK, dst, w)
  else
    w ← chain_alloc ln w;
    if bool_decide (ln = nullptr) then Some (NGX_ERROR, dst, w)
    else w ← set_node_buf ln src_buffer w; '(dst, w) ← link_end dst ln w; Some (NGX_OK, dst, w).

(** [prev] is the node whose [next] field [dst_chain] points to, or [nullptr] for the variable. *)
Fixpoint append_loop (fuel : nat) (prev dst src : ptr) (size : Z) (w : world) : option (ptr * ptr * world) :=
  match fuel with
  | O => None
  | S fuel =>
      if bool_decide (src = nullptr) || (size <=? 0) then Some (dst, src, w)
      else
        '(n, b) ← node_buf src w;
        w ← (if bool_decide (prev = nullptr) then Some w else set_next prev src w);
        let dst := if bool_decide (prev = nullptr) then src else dst in
        w ← set_next src nullptr w;
        append_loop fuel src dst (next n) (u64 (size - buffer_size b)) w
  end.

(** [free_chain] is the value of its variable. *)
(* src/src/core/dfs_chain.cpp:167-197 (chain_append_withsize) *)
Definition chain_append_withsize (dst src : ptr) (size : Z) (free_chain : ptr) (w : world) : option (ptr * ptr * world) :=
  if bool_decide (src = nullptr) || (size =? 0) then Some (dst, free_chain, w)
  else
    prev ← (if bool_decide (dst = nullptr) then Some nullptr else last_node (walk_fuel w) dst w);
    '(dst, src, w) ← append_loop (walk_fuel w) prev dst src size w;
    Some (dst, if bool_decide (src = nullptr) then free_chain else src, w).

(** Bytes have come into the free room. *)
Fixpoint read_update_loop (fuel : nat) (cl : ptr) (size : Z) (w : world) : option world :=
  match fuel with
  | O => None
  | S fuel =>
      if bool_decide (cl = nullptr) || (size <=? 0) then Some w
      else
        '(n, b) ← node_buf cl w;
        let chain_size := u64 (buffer_free_size b) in
        if chain_size <=? size then read_update_loop fuel (next n) (size - chain_size) (set_buf (buf n) (with_ptrs (pos b) (end_ b) b) w)
        else read_update_loop fuel (next n) 0 (set_buf (buf n) (buffer_used b size) w)
  end.
(* src/src/core/dfs_chain.cpp:268-294 (chain_read_update) *)
Definition chain_read_update (cl : ptr) (size : Z) (w : world) : option world := read_update_loop (walk_fuel w) cl size w.

(** The first [size] bytes have been sent; the result is the first node with bytes left, or
    behind them. *)
Fixpoint write_update_loop (fuel : nat) (cl : ptr) (size : Z) (w : world) : option (ptr * world) :=
  match fuel with
  | O => None
  | S fuel =>
      if bool_decide (cl = nullptr) || (size <=? 0) then Some (cl, w)
      else
        '(n, b) ← node_buf cl w;
        let bsize := u64 (buffer_size b) in
        if size <? bsize then Some (cl, set_buf (buf n) (if memory_ b then buffer_pull b size else with_file_pos (file_pos b + size) b) w)
        else write_update_loop fuel (next n) (size - bsize)
               (set_buf (buf n) (if memory_ b then with_ptrs (last b) (last b) b else with_file_pos (file_last b) b) w)
  end.
(* src/src/core/dfs_chain.cpp:297-335 (chain_write_update) *)
Definition chain_write_update (cl : ptr) (size : Z) (w : world) : option (ptr * world) := write_update_loop (walk_fuel w) cl size w.

(** ** System calls *)

Inductive io_result := Done (n : Z) | Intr | Again | Fail.
Abbreviation iovec := (ptr * Z)%type.

(** The bytes of a vector, and a vector filled with bytes. *)
Fixpoint gather (iovs : list iovec) (m : memory) : option (list Z) :=
  match iovs with [] => Some [] | (p, n) :: iovs => l ← load m p (Z.to_nat n); k ← gather iovs m; Some (l ++ k) end.
Fixpoint scatter (iovs : list iovec) (l : list Z) (m : memory) : option memory :=
  match iovs with
  | [] => Some m
  | (p, n) :: iovs => m ← store m p (take (Z.to_nat n) l); scatter iovs (drop (Z.to_nat n) l) m
  end.

(** A range joins the last one if it begins where that ends. *)
Definition add_iov (join : bool) (p : ptr) (n : Z) (iovs : list iovec) : option (list iovec) :=
  if join then match reverse iovs with [] => None | (q, k) :: r => Some (reverse r ++ [(q, k + n)]) end else Some (iovs ++ [(p, n)]).

Section Chains.

(** [writev] for the bytes it is given, [sendfile] for the bytes of the file, [readv] for the
    room; [patience] bounds the interruptions in a row. *)
Context (writev sendfile : nat -> list Z -> io_result) (readv : nat -> Z -> option (list Z) + io_result) (patience : nat).

(** ** Output *)

(* src/src/core/dfs_sysio.cpp:520-570 (sysio_pack_chain_to_iovs) *)
Fixpoint pack_loop (fuel : nat) (iovs : list iovec) (cl : ptr) (last_size limit : Z) (last_pos : ptr) (w : world) : option (list iovec * Z) :=
  match fuel with
  | O => None
  | S fuel =>
      if bool_decide (cl = nullptr) || negb (bool_decide (length iovs < DFS_IOVS_MAX)%nat) || (limit <=? last_size) then Some (iovs, last_size)
      else
        '(n, b) ← node_buf cl w;
        if negb (memory_ b) then Some (iovs, last_size)
        else
          let bsize := buffer_size b in
          if bsize <=? 0 then pack_loop fuel iovs (next n) last_size limit last_pos w
          else
            let bsize := if limit <? u64 (last_size + bsize) then limit - last_size else bsize in
            iovs ← add_iov (bool_decide (last_pos = pos b)) (pos b) bsize iovs;
            pack_loop fuel iovs (next n) (u64 (last_size + bsize)) limit (move (pos b) bsize) w
  end.

Definition sysio_pack_chain_to_iovs (cl : ptr) (last_size limit : Z) (w : world) : option (list iovec * Z) :=
  if bool_decide (cl = nullptr) then Some ([], last_size) else pack_loop (walk_fuel w) [] cl last_size limit nullptr w.

Fixpoint writev_loop (fuel : nat) (l : list Z) (w : world) : option (Z * world) :=
  match fuel with
  | O => None
  | S fuel =>
      match writev (calls w) l with
      | Done n => if 0 <? n then Some (n, one_call (take (Z.to_nat n) l) w) else Some (NGX_ERROR, one_call [] w)
      | Intr => writev_loop fuel l (one_call [] w)
      | Again => Some (NGX_AGAIN, one_call [] w)
      | Fail => Some (NGX_ERROR, one_call [] w)
      end
  end.
(* src/src/core/dfs_sysio.cpp:572-613 (sysio_writev_iovs) *)
Definition sysio_writev_iovs (iovs : list iovec) (w : world) : option (Z * world) :=
  if bool_decide (iovs = []) then Some (NGX_ERROR, w) else l ← gather iovs (mem w); writev_loop patience l w.

(** A chain or [DFS_CHAIN_ERROR]. *)
Abbreviation chain_result := (option ptr).

Definition cap (limit : Z) : Z := if (limit =? 0) || (DFS_MAX_LIMIT <? limit) then DFS_MAX_LIMIT else limit.

Fixpoint writev_chain_loop (fuel : nat) (cl : ptr) (packall_size limit : Z) (w : world) : option (chain_result * world) :=
  match fuel with
  | O => None
  | S fuel =>
      if bool_decide (cl = nullptr) || (limit <=? packall_size) then Some (Some cl, w)
      else
        '(n, b) ← node_buf cl w;
        if negb (memory_ b) then Some (Some cl, w)
        else
          '(iovs, packall_size) ← sysio_pack_chain_to_iovs cl packall_size limit w;
          if bool_decide (iovs = []) then Some (Some nullptr, w)
          else
            '(sent_size, w) ← sysio_writev_iovs iovs w;
            if 0 <? sent_size then
              '(cl, w) ← chain_write_update cl sent_size (add_sent sent_size w);
              if limit <=? packall_size then Some (Some cl, w) else writev_chain_loop fuel cl packall_size limit w
            else if sent_size =? NGX_AGAIN then Some (Some cl, with_ready false w)
            else if sent_size =? NGX_ERROR then Some (None, w)
            else writev_chain_loop fuel cl packall_size limit w
  end.

(** Every turn that goes on packs at least one byte. *)
(* src/src/core/dfs_sysio.cpp:261-380 (sysio_writev_chain) *)
Definition sysio_writev_chain (cl : ptr) (limit : Z) (w : world) : option (chain_result * world) :=
  if bool_decide (cl = nullptr) then Some (Some nullptr, w)
  else if negb (ready w) then Some (Some cl, w)
  else n ← chain_size cl w; writev_chain_loop (S (Z.to_nat n)) cl 0 (cap limit) w.

(** [sendfile] moves [file_pos]. *)
Fixpoint sendfile_loop (fuel : nat) (cl : ptr) (sent limit : Z) (w : world) : option (chain_result * world) :=
  match fuel with
  | O => None
  | S fuel =>
      if bool_decide (cl = nullptr) || (limit <=? sent) then Some (Some cl, w)
      else
        '(n, b) ← node_buf cl w;
        if memory_ b then Some (Some cl, w)
        else
          let pack_size := u64 (buffer_size b) in
          if pack_size =? 0 then sendfile_loop fuel (next n) sent limit w
          else
            let pack_size := if limit <? u64 (sent + pack_size) then limit - sent else pack_size in
            let l := take (Z.to_nat pack_size) (drop (Z.to_nat (file_pos b)) (file w)) in
            match sendfile (calls w) l with
            | Done rc =>
                if rc =? 0 then Some (None, one_call [] w)
                else
                  let w := one_call (take (Z.to_nat rc) l) w in
                  let b := with_file_pos (file_pos b + rc) b in
                  let w := add_sent rc (set_buf (buf n) b w) in
                  sendfile_loop fuel (if buffer_size b =? 0 then next n else cl) (sent + rc) limit w
            | Intr => sendfile_loop fuel cl sent limit (one_call [] w)
            | Again => Some (Some cl, with_ready false (one_call [] w))
            | Fail => Some (None, one_call [] w)
            end
  end.

(** Between two turns that send a byte or leave a node there are at most [patience] turns. *)
(* src/src/core/dfs_sysio.cpp:395-514 (sysio_sendfile_chain) *)
Definition sysio_sendfile_chain (cl : ptr) (limit : Z) (w : world) : option (chain_result * world) :=
  if bool_decide (cl = nullptr) then Some (Some nullptr, w)
  else if negb (ready w) then Some (Some cl, w)
  else n ← chain_size cl w; sendfile_loop (S (patience * S (Z.to_nat n + size (nodes w)))) cl 0 (cap limit) w.

Fixpoint output_loop (fuel : nat) (out : ptr) (limit : Z) (w : world) : option (chain_result * world) :=
  match fuel with
  | O => None
  | S fuel =>
      if negb (ready w) || bool_decide (out = nullptr) then Some (Some out, w)
      else
        '(n, b) ← node_buf out w;
        '(r, w) ← (if memory_ b then sysio_writev_chain out limit w else sysio_sendfile_chain out limit w);
        match r with None => Some (None, w) | Some out => output_loop fuel out limit w end
  end.

(** The return value, [ctx->out] and the world; [conn] says whether [ctx->connection] is set. *)
(* src/src/core/dfs_chain.cpp:61-112 (chain_output) *)
Definition chain_output (conn : bool) (out cl : ptr) (limit : Z) (w : world) : option (Z * chain_result * world) :=
  '(out, w) ← (if bool_decide (cl = nullptr) then Some (out, w) else chain_append_all out cl w);
  e ← chain_empty out w;
  if (e : bool) then Some (NGX_OK, Some out, w)
  else if negb conn then Some (NGX_ERROR, Some out, w)
  else
    n ← chain_size out w;
    '(r, w) ← output_loop (S (S (Z.to_nat n + size (nodes w)))) out limit w;
    match r with
    | None => Some (NGX_ERROR, None, w)
    | Some out => Some (if bool_decide (out = nullptr) then NGX_OK else NGX_AGAIN, Some out, w)
    end.

Fixpoint output_limit_loop (fuel : nat) (out : ptr) (sent0 limit cur_limit : Z) (w : world) : option (chain_result * world) :=
  match fuel with
  | O => None
  | S fuel =>
      if negb (ready w) || bool_decide (out = nullptr) then Some (Some out, w)
      else
        '(n, b) ← node_buf out w;
        '(r, w) ← (if memory_ b then sysio_writev_chain out (u64 cur_limit) w else sysio_sendfile_chain out (u64 cur_limit) w);
        match r with
        | None => Some (None, w)
        | Some out =>
            if negb (ready w) then Some (Some out, w)
            else if limit =? 0 then output_limit_loop fuel out sent0 limit cur_limit w
            else
              let cur_limit := cur_limit - (sent w - sent0) in
              if cur_limit <=? 0 then Some (Some out, w) else output_limit_loop fuel out (sent w) limit cur_limit w
        end
  end.

(* src/src/core/dfs_chain.cpp:114-165 (chain_output_with_limit) *)
Definition chain_output_with_limit (out : ptr) (limit : Z) (w : world) : option (Z * chain_result * world) :=
  n ← chain_size out w;
  '(r, w) ← output_limit_loop (S (S (Z.to_nat n + size (nodes w)))) out (sent w) limit (s64 limit) w;
  match r with
  | None => Some (NGX_ERROR, None, w)
  | Some out => Some (if bool_decide (out = nullptr) then NGX_OK else NGX_AGAIN, Some out, w)
  end.

(** ** Input *)

(* src/src/core/dfs_sysio.cpp:92-118 (sysio_readv_chain) *)
Fixpoint rev_iovs_loop (fuel : nat) (iovs : list iovec) (cl prev : ptr) (size : Z) (w : world) : option (list iovec * Z) :=
  match fuel with
  | O => None
  | S fuel =>
      if bool_decide (cl = nullptr) || negb (bool_decide (length iovs < DFS_IOVS_REV)%nat) then Some (iovs, size)
      else
        '(n, b) ← node_buf cl w;
        iovs ← add_iov (bool_decide (prev = last b)) (last b) (buffer_free_size b) iovs;
        rev_iovs_loop fuel iovs (next n) (end_ b) (size + buffer_free_size b) w
  end.

(** [readv] answers the bytes that came, [None] at the end of the stream. *)
Fixpoint readv_loop (fuel : nat) (iovs : list iovec) (size : Z) (w : world) : option (Z * world) :=
  match fuel with
  | O => None
  | S fuel =>
      match readv (calls w) size with
      | inl (Some l) => m ← scatter iovs l (mem w); Some (Z.of_nat (length l), one_call [] (with_mem m w))
      | inl None => Some (0, one_call [] w)
      | inr Intr => readv_loop fuel iovs size (one_call [] w)
      | inr Again => Some (NGX_AGAIN, one_call [] w)
      | inr _ => Some (NGX_ERROR, one_call [] w)
      end
  end.

(* src/src/core/dfs_sysio.cpp:84-156 (sysio_readv_chain) *)
Definition sysio_readv_chain (cl : ptr) (w : world) : option (Z * world) :=
  '(iovs, size) ← rev_iovs_loop (walk_fuel w) [] cl nullptr 0 w; readv_loop patience iovs size w.

(** ** Chains and their contents *)

Record item := { i_node : ptr; i_buf : ptr; i_b : buffer; i_data : list Z }.

Definition first (l : list item) : ptr := match l with [] => nullptr | x :: _ => i_node x end.

(** The unsent bytes of a buffer. *)
Definition buf_holds (w : world) (b : buffer) (l : list Z) : Prop :=
  if memory_ b then pos b <> nullptr /\ holds (mem w) (pos b) l /\ last b = at_ (pos b) (length l)
  else 0 <= file_pos b /\ file_last b = file_pos b + Z.of_nat (length l) /\ file_last b <= Z.of_nat (length (file w)) /\
    l = take (length l) (drop (Z.to_nat (file_pos b)) (file w)).

Fixpoint linked (w : world) (l : list item) : Prop :=
  match l with
  | [] => True
  | x :: l => i_node x <> nullptr /\ nodes w !! i_node x = Some {| buf := i_buf x; next := first l |} /\ bufs w !! i_buf x = Some (i_b x) /\
      buf_holds w (i_b x) (i_data x) /\ linked w l
  end.

Definition content (l : list item) : list Z := concat (map i_data l).

(** The chain from [p] on has the items [l], no buffer twice, and less than 2{^63} bytes. *)
Record chained (w : world) (p : ptr) (l : list item) : Prop := {
  ch_first : p = first l;
  ch_linked : linked w l;
  ch_bufs : NoDup (map i_buf l);
  ch_small : Z.of_nat (length (content l)) < 2 ^ 63
}.

Lemma content_cons x l : content (x :: l) = i_data x ++ content l.
Proof. done. Qed.

Lemma content_app l1 l2 : content (l1 ++ l2) = content l1 ++ content l2.
Proof. unfold content. by rewrite map_app, concat_app. Qed.

Lemma linked_node w l x : linked w l -> x ∈ l -> i_node x <> nullptr /\ is_Some (nodes w !! i_node x).
Proof.
  induction l as [|y l IH]; [intros _ H; by apply not_elem_of_nil in H |]. intros (Hn & Hx & _ & _ & Hl) [-> | H]%elem_of_cons; [split; [done | by eexists] | by apply IH].
Qed.

Lemma linked_suffix w l1 l2 : linked w (l1 ++ l2) -> linked w l2.
Proof. induction l1 as [|x l1 IH]; [done |]. intros (_ & _ & _ & _ & H). by apply IH. Qed.

(** Nodes do not repeat: the list would have no end. *)
Lemma linked_fun w l l' : linked w l -> linked w l' -> first l = first l' -> length l = length l'.
Proof.
  revert l'. induction l as [|x l IH]; intros [|y l']; cbn; [done | | |].
  - intros _ (Hn & _) E. by symmetry in E.
  - intros (Hn & _) _ E. done.
  - intros (_ & Hx & _ & _ & Hl) (_ & Hy & _ & _ & Hl') E. f_equal. apply IH; [done | done |]. rewrite E in Hx. rewrite Hx in Hy. by injection Hy.
Qed.

Lemma linked_nodup w l : linked w l -> NoDup (map i_node l).
Proof.
  induction l as [|x l IH]; intros H; [constructor |]. cbn. apply NoDup_cons. split; [|apply IH; by apply (linked_suffix w [x])].
  intros Hin. apply list_elem_of_fmap in Hin as (y & E & Hy). apply list_elem_of_split in Hy as (l1 & l2 & ->).
  pose proof (linked_suffix w (x :: l1) (y :: l2) H) as H2. pose proof (linked_fun w _ _ H H2 E) as Hlen. cbn in Hlen. rewrite length_app in Hlen. cbn in Hlen. lia.
Qed.

Lemma linked_length w l : linked w l -> (length l <= size (nodes w))%nat.
Proof.
  intros H. rewrite <- (length_map i_node). rewrite <- (size_list_to_set (C := gset ptr)) by (by eapply linked_nodup). rewrite <- size_dom. apply subseteq_size.
  intros q Hq%elem_of_list_to_set. apply list_elem_of_fmap in Hq as (x & -> & Hx). apply elem_of_dom. by eapply linked_node.
Qed.

Lemma buf_size_holds w b l : buf_holds w b l -> buffer_size b = Z.of_nat (length l).
Proof. unfold buf_holds, buffer_size. destruct (memory_ b); [intros (_ & _ & ->); unfold minus, at_; lia | intros (_ & -> & _); lia]. Qed.

Lemma chained_cons w p x l : chained w p (x :: l) ->
  p = i_node x /\ p <> nullptr /\ node_buf p w = Some ({| buf := i_buf x; next := first l |}, i_b x) /\ buf_holds w (i_b x) (i_data x) /\
  buffer_size (i_b x) = Z.of_nat (length (i_data x)) /\ chained w (first l) l.
Proof.
  intros [-> (Hn & Hx & Hb & Hh & Hl) Hnd Hs]. cbn [first]. split; [done |]. split; [done |]. split; [unfold node_buf; rewrite Hx; cbn; by rewrite Hb |].
  split; [done |]. split; [by eapply buf_size_holds |]. rewrite content_cons, length_app in Hs. cbn in Hnd. apply NoDup_cons in Hnd as [_ Hnd]. split; [done | done | done | lia].
Qed.

Lemma chained_nil w p : chained w p [] -> p = nullptr.
Proof. by intros [-> _ _ _]. Qed.

Lemma chained_fuel w p l : chained w p l -> (length l < walk_fuel w)%nat.
Proof. intros [_ H _ _]. apply linked_length in H. unfold walk_fuel. lia. Qed.

(** ** Walks *)

Lemma empty_loop_spec w : forall fuel p l, chained w p l -> (length l < fuel)%nat -> empty_loop fuel p w = Some (bool_decide (content l = [])).
Proof.
  induction fuel as [|fuel IH]; intros p l C Hf; [lia |]. cbn [empty_loop]. destruct l as [|x l].
  - rewrite (chained_nil _ _ C). by rewrite bool_decide_true.
  - destruct (chained_cons _ _ _ _ C) as (-> & Hn & Hnb & _ & Hsz & Cl). rewrite bool_decide_false by done. rewrite Hnb. cbn [mbind option_bind]. rewrite Hsz.
    rewrite content_cons. destruct (Z.ltb_spec 0 (Z.of_nat (length (i_data x)))) as [Hlt | Hge].
    + rewrite bool_decide_false; [done |]. destruct (i_data x); [cbn in Hlt; lia | done].
    + cbn [next]. destruct (i_data x) eqn:E; [|cbn in Hge; lia]. apply IH; [done | cbn in Hf; lia].
Qed.

Lemma chain_empty_spec w p l : chained w p l -> chain_empty p w = Some (bool_decide (content l = [])).
Proof. intros C. apply empty_loop_spec; [done | by eapply chained_fuel]. Qed.

Lemma size_loop_spec w : forall fuel p l len, chained w p l -> (length l < fuel)%nat -> 0 <= len -> len + Z.of_nat (length (content l)) < 2 ^ 64 ->
  size_loop fuel p len w = Some (len + Z.of_nat (length (content l))).
Proof.
  induction fuel as [|fuel IH]; intros p l len C Hf H0 Hlen; [lia |]. cbn [size_loop]. destruct l as [|x l].
  - rewrite (chained_nil _ _ C). rewrite bool_decide_true by done. cbn. f_equal. lia.
  - destruct (chained_cons _ _ _ _ C) as (-> & Hn & Hnb & _ & Hsz & Cl). rewrite bool_decide_false by done. rewrite Hnb. cbn [mbind option_bind]. rewrite Hsz.
    rewrite content_cons, length_app in *. rewrite u64_small by (unfold is_u64; lia). cbn [next]. rewrite (IH _ l); [f_equal; lia | done | cbn in Hf; lia | lia | lia].
Qed.

Lemma chain_size_spec w p l : chained w p l -> chain_size p w = Some (Z.of_nat (length (content l))).
Proof. intros C. pose proof (ch_small _ _ _ C). unfold chain_size. rewrite (size_loop_spec w _ p l); [done | done | by eapply chained_fuel | lia | lia]. Qed.

(** ** Packing *)

(** The memory buffers in front of the first file buffer. *)
Fixpoint run (l : list item) : list item := match l with [] => [] | x :: l => if memory_ (i_b x) then x :: run l else [] end.

Lemma gather_snoc iovs p n m acc l : gather iovs m = Some acc -> holds m p l -> n = Z.of_nat (length l) -> gather (iovs ++ [(p, n)]) m = Some (acc ++ l).
Proof.
  intros Ha Hl ->. apply load_holds in Hl. revert acc Ha. induction iovs as [|[q k] iovs IH]; intros acc; cbn.
  - intros [= <-]. rewrite Nat2Z.id, Hl. cbn. by rewrite app_nil_r.
  - destruct (load m q (Z.to_nat k)) as [a|]; [|done]. cbn. destruct (gather iovs m) as [b|]; [|done]. cbn. intros [= <-].
    rewrite (IH b) by done. cbn. by rewrite app_assoc.
Qed.

Lemma gather_snoc_inv iovs p n m acc : gather (iovs ++ [(p, n)]) m = Some acc -> 0 <= n ->
  exists a l, gather iovs m = Some a /\ holds m p l /\ n = Z.of_nat (length l) /\ acc = a ++ l.
Proof.
  intros H Hn. revert acc H. induction iovs as [|[q k] iovs IH]; intros acc; cbn.
  - destruct (load m p (Z.to_nat n)) as [l|] eqn:E; [|done]. cbn. intros [= <-]. exists [], l. split; [done |].
    assert (length l = Z.to_nat n) as Hl.
    { clear -E. revert p l E. induction (Z.to_nat n) as [|j IH]; intros p l; cbn; [by intros [= <-] |]. destruct (m !! p); [|done]. cbn.
      destruct (load m (at_ p 1) j) eqn:E; [|done]. cbn. intros [= <-]. cbn. f_equal. by eapply IH. }
    split; [apply load_holds; by rewrite Hl |]. split; [lia |]. by rewrite app_nil_r.
  - destruct (load m q (Z.to_nat k)) as [b|]; [|done]. cbn. destruct (gather (iovs ++ [(p, n)]) m) as [c|]; [|done]. cbn. intros [= <-].
    destruct (IH c eq_refl) as (a & l & Ha & Hl & En & ->). exists (b ++ a), l. rewrite Ha. cbn. by rewrite app_assoc.
Qed.

(** [last_pos] is the end of the last range. *)
Definition ends_at (iovs : list iovec) (last_pos : ptr) : Prop :=
  iovs = [] /\ last_pos = nullptr \/ exists r q k, iovs = r ++ [(q, k)] /\ 0 <= k /\ last_pos = move q k.

Lemma add_iov_spec iovs last_pos p n m acc l :
  gather iovs m = Some acc -> ends_at iovs last_pos -> holds m p l -> n = Z.of_nat (length l) -> p <> nullptr ->
  exists iovs', add_iov (bool_decide (last_pos = p)) p n iovs = Some iovs' /\ gather iovs' m = Some (acc ++ l) /\ ends_at iovs' (move p n) /\ iovs' <> [].
Proof.
  intros Ha He Hl -> Hp. unfold add_iov. case_bool_decide as Hj.
  - destruct He as [[-> ->] | (r & q & k & -> & Hk & E)]; [done |]. rewrite reverse_snoc, reverse_involutive.
    destruct (gather_snoc_inv _ _ _ _ _ Ha Hk) as (a & lq & Har & Hq & -> & ->). eexists. split; [reflexivity |]. split; [|split].
    + rewrite <- app_assoc. apply gather_snoc; [done | | rewrite length_app; lia]. apply holds_app. split; [done |].
      assert (at_ q (length lq) = p) as -> by (rewrite <- Hj, E; unfold move, at_; lia). done.
    + right. exists r, q, (Z.of_nat (length lq) + Z.of_nat (length l)). split; [done |]. split; [lia |]. rewrite <- Hj, E. unfold move. lia.
    + by destruct r.
  - eexists. split; [reflexivity |]. split; [by apply gather_snoc |]. split; [|by destruct iovs]. right. exists iovs, p, (Z.of_nat (length l)). split; [done |]. split; [lia | done].
Qed.

Lemma run_cons_mem x l : memory_ (i_b x) = true -> run (x :: l) = x :: run l.
Proof. cbn. by intros ->. Qed.

Lemma pack_iovs_spec w limit : limit <= DFS_MAX_LIMIT -> forall fuel iovs p l last_size last_pos acc,
  chained w p l -> (length l < fuel)%nat -> gather iovs (mem w) = Some acc -> ends_at iovs last_pos -> 0 <= last_size ->
  exists iovs' k, pack_loop fuel iovs p last_size limit last_pos w = Some (iovs', last_size + Z.of_nat (length k)) /\
    gather iovs' (mem w) = Some (acc ++ k) /\ k `prefix_of` content (run l) /\
    (iovs' = iovs /\ k = [] /\ (content (run l) = [] \/ (DFS_IOVS_MAX <= length iovs)%nat \/ limit <= last_size) \/ iovs' <> [] /\ k <> []).
Proof.
  intros Hlim. unfold DFS_MAX_LIMIT in Hlim. induction fuel as [|fuel IH]; intros iovs p l last_size last_pos acc C Hf Ha He H0; [lia |]. cbn [pack_loop].
  assert (Some (iovs, last_size) = Some (iovs, last_size + Z.of_nat (length (@nil Z)))) as Estop by (cbn; do 2 f_equal; lia).
  destruct l as [|x l].
  - rewrite (chained_nil _ _ C). rewrite bool_decide_true by done. cbn [orb]. exists iovs, []. rewrite app_nil_r. split; [done |]. split; [done |]. split; [done |]. left. auto.
  - destruct (chained_cons _ _ _ _ C) as (-> & Hn & Hnb & Hh & Hsz & Cl). rewrite bool_decide_false by done. cbn [orb].
    case_bool_decide as Hmax; cbn [negb orb]. 2: { exists iovs, []. rewrite app_nil_r. split; [done |]. split; [done |]. split; [apply prefix_nil |]. left. split; [done |]. split; [done |]. right. left. lia. }
    destruct (Z.leb_spec limit last_size) as [Hle | Hgt]. { exists iovs, []. rewrite app_nil_r. split; [done |]. split; [done |]. split; [apply prefix_nil |]. left. auto. }
    rewrite Hnb. cbn [mbind option_bind]. destruct (memory_ (i_b x)) eqn:Em; cbn [negb].
    2: { exists iovs, []. rewrite app_nil_r. split; [done |]. split; [done |]. split; [apply prefix_nil |]. left. cbn. rewrite Em. auto. }
    rewrite (run_cons_mem x l Em). rewrite content_cons. unfold buf_holds in Hh. rewrite Em in Hh. destruct Hh as (Hpn & Hd & _).
    rewrite Hsz. destruct (Z.leb_spec (Z.of_nat (length (i_data x))) 0) as [Hz | Hnz].
    + destruct (i_data x) eqn:Ed; [|cbn in Hz; lia]. cbn [app next]. apply (IH _ _ l); [done | cbn in Hf; lia | done | done | done].
    + pose proof (ch_small _ _ _ C) as Hsm. rewrite content_cons, length_app in Hsm.
      rewrite (u64_small (last_size + Z.of_nat (length (i_data x)))) by (unfold is_u64; lia).
      set (bs := if limit <? last_size + Z.of_nat (length (i_data x)) then limit - last_size else Z.of_nat (length (i_data x))).
      assert (0 < bs <= Z.of_nat (length (i_data x)) /\ (bs = Z.of_nat (length (i_data x)) \/ last_size + bs = limit)) as [Hbs Hcut].
      { unfold bs. destruct (Z.ltb_spec limit (last_size + Z.of_nat (length (i_data x)))); lia. }
      set (d := take (Z.to_nat bs) (i_data x)). assert (bs = Z.of_nat (length d)) as Ebs by (unfold d; rewrite length_take; lia).
      assert (d <> []) as Hdn by (intros E; rewrite E in Ebs; cbn in Ebs; lia).
      destruct (add_iov_spec iovs last_pos (pos (i_b x)) bs (mem w) acc d Ha He) as (iovs1 & Hadd & Ha1 & He1 & Hn1); [by apply holds_take | done | done |].
      rewrite Hadd. cbn [mbind option_bind next]. rewrite u64_small by (unfold is_u64; lia).
      destruct (IH iovs1 (first l) l (last_size + bs) (move (pos (i_b x)) bs) (acc ++ d) Cl) as (iovs' & k & Hrun & Hg & Hk & Hcase);
        [cbn in Hf; lia | done | done | lia |].
      exists iovs', (d ++ k). split; [rewrite Hrun, length_app; do 2 f_equal; lia |]. split; [by rewrite app_assoc |].
      assert (d ++ k <> []) as Hdk by (by destruct d). split.
      * destruct Hcut as [Hfull | Hcut].
        -- assert (d = i_data x) as -> by (unfold d; apply take_ge; lia). by apply prefix_app.
        -- destruct Hcase as [(-> & -> & _) | (_ & Hkn)].
           ++ rewrite app_nil_r. apply prefix_app_r. unfold d. apply prefix_take.
           ++ exfalso. (* nothing more is packed at the limit *)
              revert Hrun. destruct fuel; [done |]. cbn [pack_loop]. rewrite (proj2 (Z.leb_le limit (last_size + bs))) by lia. rewrite !orb_true_r.
              intros [= _ E]. destruct k; [done | cbn in E; lia].
      * right. split; [|done]. destruct Hcase as [(-> & _) | [? _]]; done.
Qed.

Lemma pack_loop_bound w limit : 0 <= limit < 2 ^ 64 -> forall fuel iovs p last_size last_pos iovs' n,
  0 <= last_size -> pack_loop fuel iovs p last_size limit last_pos w = Some (iovs', n) -> n <= Z.max last_size limit.
Proof.
  intros Hlim. induction fuel as [|fuel IH]; intros iovs p last_size last_pos iovs' n H0; [done |]. cbn [pack_loop].
  destruct (_ || _) eqn:Eg; [intros [= _ <-]; lia |]. apply orb_false_iff in Eg as [_ Eg%Z.leb_gt]. destruct (node_buf p w) as [[c b]|]; [|done]. cbn [mbind option_bind].
  destruct (memory_ b); cbn [negb]; [|intros [= _ <-]; lia]. destruct (buffer_size b <=? 0); [by apply IH |]. destruct (add_iov _ _ _ _); [|done]. cbn [mbind option_bind].
  intros H%IH; [|destruct (u64_range (last_size + (if limit <? u64 (last_size + buffer_size b) then limit - last_size else buffer_size b))); lia]. destruct (Z.ltb_spec limit (u64 (last_size + buffer_size b))); [|lia].
  rewrite u64_small in H by (unfold is_u64; lia). lia.
Qed.

Lemma pack_spec w p l last_size limit :
  chained w p l -> limit <= DFS_MAX_LIMIT -> 0 <= last_size < limit ->
  exists iovs k, sysio_pack_chain_to_iovs p last_size limit w = Some (iovs, last_size + Z.of_nat (length k)) /\
    gather iovs (mem w) = Some k /\ k `prefix_of` content (run l) /\ (iovs = [] /\ content (run l) = [] \/ iovs <> [] /\ k <> []) /\ Z.of_nat (length k) <= limit - last_size.
Proof.
  intros C Hlim Hlast. unfold sysio_pack_chain_to_iovs. destruct l as [|x l].
  - rewrite (chained_nil _ _ C), bool_decide_true by done. exists [], []. cbn. split; [do 2 f_equal; lia |]. split; [done |]. split; [done |]. split; [by left | lia].
  - pose proof (chained_cons _ _ _ _ C) as (_ & Hn & _). rewrite bool_decide_false by done.
    destruct (pack_iovs_spec w limit Hlim (walk_fuel w) [] p (x :: l) last_size nullptr [] C) as (iovs & k & Hrun & Hg & Hk & Hcase);
      [by eapply chained_fuel | done | by left | lia |].
    exists iovs, k. split; [done |]. split; [done |]. split; [done |].
    split; [|apply pack_loop_bound in Hrun; unfold DFS_MAX_LIMIT in Hlim; lia]. destruct Hcase as [(-> & -> & Hc) | ?]; [left | by right].
    split; [done |]. destruct Hc as [? | [Hc | ?]]; [done | unfold DFS_IOVS_MAX in Hc; cbn in Hc; lia | lia].
Qed.

(** ** Taking off what was sent *)

Lemma linked_same w w' l : nodes w' = nodes w -> bufs w' = bufs w -> mem w' = mem w -> file w' = file w -> linked w l -> linked w' l.
Proof.
  intros E1 E2 E3 E4. induction l as [|x l IH]; [done |]. intros (H1 & H2 & H3 & H4 & H5). cbn. rewrite E1, E2. split; [done |]. split; [done |]. split; [done |].
  split; [|by apply IH]. unfold buf_holds in *. by rewrite E3, E4.
Qed.

Lemma chained_same w w' p l : nodes w' = nodes w -> bufs w' = bufs w -> mem w' = mem w -> file w' = file w -> chained w p l -> chained w' p l.
Proof. intros E1 E2 E3 E4 []. split; try done. by eapply linked_same. Qed.

Lemma linked_set_buf w p b l : p ∉ map i_buf l -> linked w l -> linked (set_buf p b w) l.
Proof.
  induction l as [|x l IH]; [done |]. cbn. rewrite not_elem_of_cons. intros [Hp Hl] (H1 & H2 & H3 & H4 & H5). split; [done |]. split; [done |].
  split; [by rewrite lookup_insert_ne |]. split; [done | by apply IH].
Qed.

(** No empty memory buffer stands directly in front of a file buffer. *)
Fixpoint settled (l : list item) : Prop :=
  match l with
  | x :: r => (memory_ (i_b x) = true -> match r with y :: _ => memory_ (i_b y) = false -> i_data x <> [] | [] => True end) /\ settled r
  | [] => True
  end.

(** [l'] is what is left of [l]: nodes from the front are gone, and the first one that is left
    may have lost bytes. *)
Definition rest (l l' : list item) : Prop :=
  exists l1 l2, l = l1 ++ l2 /\ (l' = l2 \/ exists x x' l3, l2 = x :: l3 /\ l' = x' :: l3 /\ memory_ (i_b x') = memory_ (i_b x) /\ i_data x' <> []).

Lemma settled_suffix l1 l2 : settled (l1 ++ l2) -> settled l2.
Proof. induction l1 as [|x l1 IH]; [done |]. intros [_ H]. by apply IH. Qed.

Lemma settled_rest l l' : rest l l' -> settled l -> settled l'.
Proof.
  intros (l1 & l2 & -> & [-> | (x & x' & l3 & -> & -> & Em & Hd)]) H%settled_suffix; [done |]. destruct H as [H1 H2]. split; [|done].
  intros _. by destruct l3.
Qed.

Lemma rest_refl l : rest l l.
Proof. exists [], l. split; [done | by left]. Qed.

Lemma rest_length l l' : rest l l' -> (length l' <= length l)%nat.
Proof. intros (l1 & l2 & -> & [-> | (x & x' & l3 & -> & -> & _)]); rewrite length_app; cbn; lia. Qed.

Lemma rest_nil l : rest l [].
Proof. exists l, []. rewrite app_nil_r. split; [done | by left]. Qed.

Lemma rest_cons x l l' : rest l l' -> rest (x :: l) l'.
Proof. intros (l1 & l2 & -> & H). by exists (x :: l1), l2. Qed.

Lemma rest_trans l1 l2 l3 : rest l1 l2 -> rest l2 l3 -> rest l1 l3.
Proof.
  intros (a & b & -> & Hb) (c & d & Ec & Hd). destruct Hb as [-> | (x & x' & l & -> & -> & Em & Hx)].
  - exists (a ++ c), d. rewrite Ec, app_assoc. by split.
  - destruct c as [|y c].
    + cbn in Ec. subst d. exists a, (x :: l). split; [done |]. right. destruct Hd as [-> | (y & y' & m & [= <- <-] & -> & Em' & Hy)].
      * by exists x, x', l.
      * exists x, y', l. split; [done |]. split; [done |]. split; [congruence | done].
    + injection Ec as -> ->. exists (a ++ x :: c), d. rewrite <- app_assoc. by split.
Qed.

(** The bytes and the objects that sending leaves alone. *)
Record kept (w w' : world) : Prop := { kp_nodes : nodes w' = nodes w; kp_mem : mem w' = mem w; kp_file : file w' = file w }.

Lemma kept_refl w : kept w w.
Proof. done. Qed.

Lemma kept_trans w1 w2 w3 : kept w1 w2 -> kept w2 w3 -> kept w1 w3.
Proof. intros [] []. split; congruence. Qed.

Lemma chained_update w p x l b d :
  chained w p (x :: l) -> buf_holds w b d -> (length d <= length (i_data x))%nat ->
  chained (set_buf (i_buf x) b w) p ({| i_node := i_node x; i_buf := i_buf x; i_b := b; i_data := d |} :: l).
Proof.
  intros [-> (Hn & Hx & Hb & Hh & Hl) Hnd Hs] Hd Hlen. cbn in Hnd. pose proof Hnd as [Hni _]%NoDup_cons. split; try done.
  - cbn. split; [done |]. split; [done |]. split; [apply lookup_insert_eq |]. split; [exact Hd | by apply linked_set_buf].
  - rewrite content_cons, length_app in *. cbn in *. lia.
Qed.

Lemma chained_after w p x l b : chained w p (x :: l) -> chained (set_buf (i_buf x) b w) (first l) l.
Proof.
  intros C. pose proof (ch_bufs _ _ _ C) as Hnd. cbn in Hnd. apply NoDup_cons in Hnd as [Hni _]. destruct (chained_cons _ _ _ _ C) as (_ & _ & _ & _ & _ & [H1 H2 H3 H4]).
  split; try done. by apply linked_set_buf.
Qed.

Lemma write_update_spec : forall fuel w p l size,
  chained w p l -> (length l < fuel)%nat -> 0 <= size <= Z.of_nat (length (content l)) ->
  exists p' l' B, write_update_loop fuel p size w = Some (p', with_bufs B w) /\ chained (with_bufs B w) p' l' /\ rest l l' /\
    content l' = drop (Z.to_nat size) (content l).
Proof.
  induction fuel as [|fuel IH]; intros w p l size C Hf Hs; [lia |]. cbn [write_update_loop].
  assert (with_bufs (bufs w) w = w) as Ew by (by destruct w). destruct l as [|x l].
  - pose proof (chained_nil _ _ C) as ->. rewrite bool_decide_true by done. cbn [orb]. exists nullptr, [], (bufs w). rewrite Ew. split; [done |]. split; [done |].
    split; [apply rest_refl |]. cbn. by rewrite skipn_nil.
  - destruct (chained_cons _ _ _ _ C) as (Ep & Hn & Hnb & Hh & Hsz & Cl). rewrite bool_decide_false by done. cbn [orb].
    destruct (Z.leb_spec size 0) as [Hz | Hnz].
    + assert (size = 0) as -> by lia. exists p, (x :: l), (bufs w). rewrite Ew. split; [done |]. split; [done |]. split; [apply rest_refl | done].
    + rewrite Hnb. cbn [mbind option_bind buf next]. pose proof (ch_small _ _ _ C) as Hsm. rewrite content_cons, length_app in *.
      rewrite Hsz, u64_small by (unfold is_u64; lia). destruct (Z.ltb_spec size (Z.of_nat (length (i_data x)))) as [Hlt | Hge].
      * set (d := drop (Z.to_nat size) (i_data x)). assert (length d = length (i_data x) - Z.to_nat size)%nat as Hld by (unfold d; by rewrite length_drop).
        eexists p, _, _. split; [reflexivity |]. split; [apply (chained_update w p x l _ d C); [|lia] | split].
        -- unfold buf_holds in *. destruct (memory_ (i_b x)) eqn:Em; cbn [memory_ buffer_pull with_ptrs with_file_pos]; rewrite Em.
           ++ destruct Hh as (H1 & H2 & H3). cbn [pos last buffer_pull with_ptrs]. assert (move (pos (i_b x)) size = at_ (pos (i_b x)) (Z.to_nat size)) as -> by (unfold move, at_; lia).
              split; [unfold at_, nullptr in *; lia |]. split; [by apply holds_drop |]. rewrite H3, at_add. f_equal. lia.
           ++ destruct Hh as (H1 & H2 & H3 & H4). cbn [file_pos file_last with_file_pos]. split; [lia |]. split; [lia |]. split; [lia |].
              unfold d. rewrite H4 at 1. rewrite skipn_firstn_comm, drop_drop. rewrite length_drop. do 2 f_equal. lia.
        -- exists [], (x :: l). split; [done |]. right. eexists x, _, l. split; [done |]. split; [done |]. split; [by destruct (memory_ (i_b x)) eqn:Em |].
           cbn. intros E. rewrite E in Hld. cbn in Hld. lia.
        -- rewrite !content_cons. cbn [i_data]. rewrite drop_app_le by lia. done.
      * destruct (IH (set_buf (i_buf x) (if memory_ (i_b x) then with_ptrs (last (i_b x)) (last (i_b x)) (i_b x) else with_file_pos (file_last (i_b x)) (i_b x)) w)
          (first l) l (size - Z.of_nat (length (i_data x)))) as (p' & l' & B & Hrun & C' & Hr & Ec); [by eapply chained_after | cbn in Hf; lia | lia |].
        exists p', l', B. split; [exact Hrun |]. split; [exact C' |]. split; [by apply rest_cons |]. rewrite Ec, drop_app_ge by lia. f_equal. lia.
Qed.

(** ** Sending *)

(** What the system calls promise; whether a call is interrupted does not depend on its bytes,
    and of [patience] calls in a row one is not. *)
Record io_ok : Prop := {
  io_writev : forall k l n, writev k l = Done n -> n <= Z.of_nat (length l);
  io_sendfile : forall k l n, sendfile k l = Done n -> 0 <= n <= Z.of_nat (length l);
  io_writev_ends : forall k, exists j, (j < patience)%nat /\ forall l, writev (k + j) l <> Intr;
  io_sendfile_ends : forall k, exists j, (j < patience)%nat /\ forall l, sendfile (k + j) l <> Intr
}.

(** [out] was sent and nothing else has changed but the counters. *)
Record sends (w w' : world) (out : list Z) : Prop := {
  sn_tx : tx w' = tx w ++ out; sn_sent : sent w' = sent w + Z.of_nat (length out); sn_kept : kept w w'
}.

Lemma sends_trans w1 w2 w3 o1 o2 : sends w1 w2 o1 -> sends w2 w3 o2 -> sends w1 w3 (o1 ++ o2).
Proof. intros [A1 A2 A3] [B1 B2 B3]. split; [by rewrite B1, A1, app_assoc | rewrite B2, A2, length_app; lia | by eapply kept_trans]. Qed.

(** A chain function on the chain [l]: after an error what was sent is a prefix of the chain;
    otherwise the bytes sent and those of the chain that is left are the bytes of [l]. *)
Definition outcome (w : world) (l : list item) (r : option ptr) (w' : world) (out : list Z) : Prop :=
  sends w w' out /\
  match r with
  | None => out `prefix_of` content l
  | Some p' => exists l', chained w' p' l' /\ rest l l' /\ content l = out ++ content l'
  end.

Lemma outcome_step w w1 w' l l1 o1 r out :
  sends w w1 o1 -> rest l l1 -> content l = o1 ++ content l1 -> outcome w1 l1 r w' out -> outcome w l r w' (o1 ++ out).
Proof.
  intros Hs Hr Hc [Ho H]. split; [by eapply sends_trans |]. destruct r as [p'|].
  - destruct H as (l' & C & Hr' & Hc'). exists l'. split; [done |]. split; [by eapply rest_trans |]. by rewrite Hc, Hc', app_assoc.
  - rewrite Hc. by apply prefix_app.
Qed.

Lemma sends_refl w : sends w w [].
Proof. split; [by rewrite app_nil_r | cbn; lia | done]. Qed.

Lemma outcome_stop w p l : chained w p l -> outcome w l (Some p) w [].
Proof. intros C. split; [apply sends_refl |]. exists l. split; [done |]. split; [apply rest_refl | done]. Qed.

Section Sending.

Context (Hio : io_ok).

(** The call of [writev]: [n] bytes of [l] leave, or none. *)
Lemma writev_loop_spec l : forall fuel w, (exists j, (j < fuel)%nat /\ forall k, writev (calls w + j) k <> Intr) ->
  exists n w', writev_loop fuel l w = Some (n, w') /\ bufs w' = bufs w /\ kept w w' /\ ready w' = ready w /\ sent w' = sent w /\
    (0 < n <= Z.of_nat (length l) /\ tx w' = tx w ++ take (Z.to_nat n) l \/ (n = NGX_AGAIN \/ n = NGX_ERROR) /\ tx w' = tx w).
Proof using Hio.
  induction fuel as [|fuel IH]; intros w (j & Hj & Hi); [lia |]. cbn [writev_loop]. destruct (writev (calls w) l) as [n | | |] eqn:E.
  - pose proof (io_writev Hio _ _ _ E). destruct (Z.ltb_spec 0 n).
    + exists n. eexists. split; [reflexivity |]. repeat (split; [done |]). left. done.
    + exists NGX_ERROR. eexists. split; [reflexivity |]. repeat (split; [done |]). right. split; [by right |]. cbn. by rewrite app_nil_r.
  - destruct j as [|j]; [exfalso; apply (Hi l); by rewrite Nat.add_0_r |].
    destruct (IH (one_call [] w)) as (n & w' & Hrun & E1 & E2 & E3 & E4 & H).
    { exists j. split; [lia |]. intros k. cbn [calls one_call]. replace (S (calls w) + j)%nat with (calls w + S j)%nat by lia. apply Hi. }
    cbn [one_call tx] in H. rewrite app_nil_r in H. exists n, w'. split; [exact Hrun |]. split; [done |]. split; [by eapply kept_trans; [|exact E2] |]. done.
  - exists NGX_AGAIN. eexists. split; [reflexivity |]. repeat (split; [done |]). right. split; [by left |]. cbn. by rewrite app_nil_r.
  - exists NGX_ERROR. eexists. split; [reflexivity |]. repeat (split; [done |]). right. split; [by right |]. cbn. by rewrite app_nil_r.
Qed.

Lemma run_prefix l : exists k, content l = content (run l) ++ k.
Proof.
  induction l as [|x l [k IH]]; [by exists [] |]. cbn [run]. destruct (memory_ (i_b x)); [|by eexists]. exists k. by rewrite !content_cons, IH, app_assoc.
Qed.

(** A settled chain whose memory buffers in front are all empty is empty. *)
Lemma settled_run_empty x l : settled (x :: l) -> memory_ (i_b x) = true -> content (run (x :: l)) = [] -> content (x :: l) = [].
Proof.
  revert x. induction l as [|y l IH]; intros x [Hx Hl] Em Hc.
  - rewrite run_cons_mem in Hc by done. done.
  - rewrite run_cons_mem, content_cons in Hc by done. apply app_eq_nil in Hc as [Hdx Hc].
    destruct (memory_ (i_b y)) eqn:Ey; [|by specialize (Hx Em eq_refl)]. rewrite content_cons, Hdx. by apply IH.
Qed.

Lemma writev_chain_loop_spec limit : limit <= DFS_MAX_LIMIT -> forall fuel w p l packall,
  chained w p l -> settled l -> 0 <= packall -> (Z.to_nat (Z.of_nat (length (content l))) < fuel)%nat ->
  exists r w' out, writev_chain_loop fuel p packall limit w = Some (r, w') /\ outcome w l r w' out /\
    (ready w' = true -> out = [] -> r = Some nullptr \/ r = None \/ limit <= packall \/ match l with x :: _ => memory_ (i_b x) = false | [] => True end) /\
    Z.of_nat (length out) <= Z.max 0 (limit - packall).
Proof using Hio.
  intros Hlim. induction fuel as [|fuel IH]; intros w p l packall C Hset H0 Hf; [lia |]. cbn [writev_chain_loop]. destruct l as [|x l].
  - pose proof (chained_nil _ _ C) as ->. rewrite bool_decide_true by done. cbn [orb]. exists (Some nullptr), w, []. split; [done |]. split; [by apply outcome_stop |]. split; [auto | cbn; lia].
  - destruct (chained_cons _ _ _ _ C) as (Ep & Hn & Hnb & Hh & Hsz & Cl). rewrite bool_decide_false by done. cbn [orb].
    destruct (Z.leb_spec limit packall) as [Hle | Hgt]; [exists (Some p), w, []; split; [done |]; split; [by apply outcome_stop |]; split; [auto | cbn; lia] |].
    rewrite Hnb. cbn [mbind option_bind]. destruct (memory_ (i_b x)) eqn:Em; cbn [negb]; [|exists (Some p), w, []; split; [done |]; split; [by apply outcome_stop |]; split; [auto | cbn; lia]].
    destruct (pack_spec w p (x :: l) packall limit C Hlim ltac:(lia)) as (iovs & k & -> & Hg & Hk & Hcase & Hkl). cbn [mbind option_bind].
    case_bool_decide as Hiov.
    + destruct Hcase as [[_ Hrun] | [? _]]; [|done]. exists (Some nullptr), w, []. split; [done |]. split; [|split; [auto | cbn; lia]]. split; [apply sends_refl |].
      exists []. split; [split; [done | done | constructor | done] |]. split; [apply rest_nil |]. by rewrite (settled_run_empty x l).
    + destruct Hcase as [[? _] | [_ Hkn]]; [done |]. destruct (run_prefix (x :: l)) as [k2 Hk2].
      assert (exists k3, content (x :: l) = k ++ k3) as [k3 Hk3] by (destruct Hk as [k4 Hk4]; exists (k4 ++ k2); by rewrite Hk2, Hk4, app_assoc).
      unfold sysio_writev_iovs. rewrite bool_decide_false by done. rewrite Hg. cbn [mbind option_bind].
      destruct (writev_loop_spec k patience w (io_writev_ends Hio (calls w))) as (n & w1 & -> & E1 & E2 & E3 & E4 & Hcase). cbn [mbind option_bind].
      destruct Hcase as [[Hn1 Etx] | [Hn1 Etx]].
      * destruct (Z.ltb_spec 0 n); [|lia]. destruct E2 as [F1 F2 F3]. set (w2 := add_sent n w1).
        assert (chained w2 p (x :: l)) as C2 by (eapply chained_same; [..|exact C]; done).
        assert (length (content (x :: l)) = length k + length k3)%nat as Hlen by (by rewrite Hk3, length_app).
        destruct (write_update_spec (walk_fuel w2) w2 p (x :: l) n C2) as (p' & l' & B & Hrun & C' & Hr & Ec); [by eapply chained_fuel | lia |].
        unfold chain_write_update. rewrite Hrun. cbn [mbind option_bind]. set (o1 := take (Z.to_nat n) k) in *.
        assert (content (x :: l) = o1 ++ content l') as Hcont by (rewrite Ec, Hk3, drop_app_le by lia; unfold o1; by rewrite app_assoc, take_drop).
        assert (Z.of_nat (length o1) = n) as Ho1 by (unfold o1; rewrite length_take; lia).
        assert (sends w (with_bufs B w2) o1) as Hs1 by (split; [done | cbn; lia | done]).
        assert (o1 <> []) as Ho1n by (intros E; rewrite E in Ho1; cbn in Ho1; lia).
        destruct (Z.leb_spec limit (packall + Z.of_nat (length k))).
        -- exists (Some p'), (with_bufs B w2), o1. split; [done |]. split; [|split; [done | lia]]. split; [done |]. by exists l'.
        -- destruct (IH (with_bufs B w2) p' l' (packall + Z.of_nat (length k)) C' (settled_rest _ _ Hr Hset)) as (r & w' & out & Hrun' & Ho & _ & Hlo).
           { lia. } { apply (f_equal length) in Hcont. rewrite length_app in Hcont. lia. }
           exists r, w', (o1 ++ out). split; [exact Hrun' |]. split; [by eapply outcome_step |]. split; [intros _ E; by destruct o1 | rewrite length_app; lia].
      * assert (sends w w1 []) as Hs1 by (split; [by rewrite app_nil_r | cbn; lia | done]). destruct E2 as [F1 F2 F3].
        destruct Hn1 as [-> | ->].
        -- change (0 <? NGX_AGAIN) with false. change (NGX_AGAIN =? NGX_AGAIN) with true. cbv iota. exists (Some p), (with_ready false w1), []. split; [done |].
           split; [|split; [done | cbn; lia]]. split; [by destruct Hs1; split |]. exists (x :: l). split; [by eapply chained_same; [..|exact C] |]. split; [apply rest_refl | done].
        -- change (0 <? NGX_ERROR) with false. change (NGX_ERROR =? NGX_AGAIN) with false. change (NGX_ERROR =? NGX_ERROR) with true. cbv iota.
           exists None, w1, []. split; [done |]. split; [split; [done | apply prefix_nil] |]. split; [auto | cbn; lia].
Qed.

(** Bytes and nodes that are left. *)
Definition amount (l : list item) : nat := (length (content l) + length l)%nat.

Lemma sendfile_loop_spec limit : limit <= DFS_MAX_LIMIT -> forall fuel w p l sent0,
  chained w p l -> 0 <= sent0 -> (exists j, (S j + patience * amount l <= fuel)%nat /\ forall k, sendfile (calls w + j) k <> Intr) ->
  exists r w' out, sendfile_loop fuel p sent0 limit w = Some (r, w') /\ outcome w l r w' out /\
    (ready w' = true -> out = [] -> r = None \/ limit <= sent0 \/ match l with x :: _ => memory_ (i_b x) = true | [] => True end \/
       exists p' l', r = Some p' /\ chained w' p' l' /\ rest l l' /\ content l = content l' /\ (length l' < length l)%nat) /\
    Z.of_nat (length out) <= Z.max 0 (limit - sent0).
Proof using Hio.
  intros Hlim. unfold DFS_MAX_LIMIT in Hlim. induction fuel as [|fuel IH]; intros w p l sent0 C H0 (j & Hj & Hi); [lia |]. cbn [sendfile_loop]. destruct l as [|x l].
  - pose proof (chained_nil _ _ C) as ->. rewrite bool_decide_true by done. cbn [orb]. exists (Some nullptr), w, []. split; [done |]. split; [by apply outcome_stop |]. split; [auto | cbn; lia].
  - destruct (chained_cons _ _ _ _ C) as (Ep & Hn & Hnb & Hh & Hsz & Cl). rewrite bool_decide_false by done. cbn [orb].
    destruct (Z.leb_spec limit sent0) as [Hle | Hgt]; [exists (Some p), w, []; split; [done |]; split; [by apply outcome_stop |]; split; [auto | cbn; lia] |].
    rewrite Hnb. cbn [mbind option_bind buf next]. destruct (memory_ (i_b x)) eqn:Em; [exists (Some p), w, []; split; [done |]; split; [by apply outcome_stop |]; split; [auto | cbn; lia] |].
    pose proof (ch_small _ _ _ C) as Hsm. rewrite content_cons, length_app in Hsm. rewrite Hsz, u64_small by (unfold is_u64; lia).
    destruct (Z.eqb_spec (Z.of_nat (length (i_data x))) 0) as [Hz | Hnz].
    + (* an empty file buffer is skipped *)
      destruct (i_data x) as [|? ?] eqn:Ed; [|cbn in Hz; lia].
      destruct (io_sendfile_ends Hio (calls w)) as (j' & Hj' & Hi').
      destruct (IH w (first l) l sent0 Cl H0) as (r & w' & out & Hrun & [Hs Ho] & Hp & Hlo).
      { exists j'. split; [|done]. unfold amount in *. rewrite content_cons, Ed in Hj. cbn in Hj. lia. }
      exists r, w', out. split; [exact Hrun |]. assert (rest (x :: l) l) as Hrl by (apply rest_cons, rest_refl).
      assert (content (x :: l) = content l) as Ec by (by rewrite content_cons, Ed). split; [|split; [|done]].
      * split; [done |]. destruct r as [p'|]; [|by rewrite Ec]. destruct Ho as (l' & C' & Hr' & Hc'). exists l'. split; [done |]. split; [by eapply rest_trans | by rewrite Ec].
      * intros Hready Hout. destruct r as [p'|]; [|by left]. right. right. right. destruct Ho as (l' & C' & Hr' & Hc'). exists p', l'. rewrite Hout in Hc'.
        split; [done |]. split; [done |]. split; [by eapply rest_trans |]. split; [by rewrite Ec |]. apply rest_length in Hr'. cbn. lia.
    + rewrite (u64_small (sent0 + Z.of_nat (length (i_data x)))) by (unfold is_u64; lia).
      set (ps := if limit <? sent0 + Z.of_nat (length (i_data x)) then limit - sent0 else Z.of_nat (length (i_data x))).
      assert (0 < ps <= Z.of_nat (length (i_data x)) /\ ps <= limit - sent0) as Hps by (unfold ps; destruct (Z.ltb_spec limit (sent0 + Z.of_nat (length (i_data x)))); lia).
      unfold buf_holds in Hh. rewrite Em in Hh. destruct Hh as (Hf0 & Hf1 & Hf2 & Hf3).
      set (k := take (Z.to_nat ps) (drop (Z.to_nat (file_pos (i_b x))) (file w))).
      assert (k = take (Z.to_nat ps) (i_data x)) as Ek by (rewrite Hf3, take_take; unfold k; f_equal; lia).
      assert (Z.of_nat (length k) = ps) as Hlk by (rewrite Ek, length_take; lia).
      destruct (sendfile (calls w) k) as [rc | | |] eqn:E.
      * pose proof (io_sendfile Hio _ _ _ E) as Hrc. destruct (Z.eqb_spec rc 0) as [-> | Hrc0].
        { exists None, (one_call [] w), []. split; [done |]. split; [split; [split; [done | cbn; lia | done] | apply prefix_nil] | split; [auto | cbn; lia]]. }
        set (d := drop (Z.to_nat rc) (i_data x)). set (o1 := take (Z.to_nat rc) k). set (b := with_file_pos (file_pos (i_b x) + rc) (i_b x)).
        set (w1 := add_sent rc (set_buf (i_buf x) b (one_call o1 w))).
        assert (o1 ++ d = i_data x) as Eo by (unfold o1, d; rewrite Ek, take_take, Nat.min_l by lia; apply take_drop).
        assert (Z.of_nat (length o1) = rc) as Ho1 by (unfold o1; rewrite length_take; lia).
        assert (o1 <> []) as Ho1n by (intros Hz; rewrite Hz in Ho1; cbn in Ho1; lia).
        assert (length d = length (i_data x) - Z.to_nat rc)%nat as Hld by (unfold d; by rewrite length_drop).
        assert (buffer_size b = Z.of_nat (length d)) as Hsb by (unfold b, buffer_size; cbn; rewrite Em, Hf1; lia).
        assert (chained w1 p ({| i_node := i_node x; i_buf := i_buf x; i_b := b; i_data := d |} :: l)) as C1.
        { eapply (chained_same (set_buf (i_buf x) b w)); [done.. |]. apply chained_update; [done | | lia]. unfold buf_holds, b. cbn. rewrite Em.
          split; [lia |]. split; [lia |]. split; [lia |]. unfold d. rewrite Hf3 at 1. rewrite skipn_firstn_comm, drop_drop, length_drop. do 2 f_equal. lia. }
        assert (sends w w1 o1) as Hs1 by (split; [done | cbn; lia | done]).
        set (l1 := if bool_decide (d = []) then l else {| i_node := i_node x; i_buf := i_buf x; i_b := b; i_data := d |} :: l).
        assert (chained w1 (if buffer_size b =? 0 then first l else p) l1) as Cl1.
        { rewrite Hsb. unfold l1. case_bool_decide as Hd; [rewrite Hd; cbn; by destruct (chained_cons _ _ _ _ C1) as (_ & _ & _ & _ & _ & ?) |].
          destruct (Z.eqb_spec (Z.of_nat (length d)) 0) as [Hz |]; [|done]. destruct d; [done | cbn in Hz; lia]. }
        assert (rest (x :: l) l1 /\ content (x :: l) = o1 ++ content l1) as [Hrl Hc1].
        { rewrite content_cons, <- Eo. unfold l1. case_bool_decide as Hd.
          - rewrite Hd, app_nil_r. split; [apply rest_cons, rest_refl | done].
          - split; [|by rewrite content_cons, <- app_assoc]. exists [], (x :: l). split; [done |]. right. eexists x, _, l. split; [done |]. split; [done |]. cbn. by rewrite Em. }
        destruct (io_sendfile_ends Hio (calls w1)) as (j' & Hj' & Hi').
        destruct (IH w1 (if buffer_size b =? 0 then first l else p) l1 (sent0 + rc) Cl1 ltac:(lia)) as (r & w' & out & Hrun & Ho & _ & Hlo).
        { exists j'. split; [|done]. assert (S (amount l1) <= amount (x :: l))%nat as Hlt.
          { unfold amount. apply (f_equal length) in Hc1. rewrite length_app in Hc1. apply rest_length in Hrl. lia. }
          nia. }
        exists r, w', (o1 ++ out). split; [exact Hrun |]. split; [by eapply outcome_step |]. split; [|rewrite length_app; lia]. intros _ Hz. by apply app_eq_nil in Hz as [? _].
      * destruct j as [|j]; [exfalso; apply (Hi k); by rewrite Nat.add_0_r |].
        assert (chained (one_call [] w) p (x :: l)) as C1 by (by eapply chained_same; [..|exact C]).
        destruct (IH (one_call [] w) p (x :: l) sent0 C1 H0) as (r & w' & out & Hrun & Ho & Hp & Hlo).
        { exists j. split; [lia |]. intros k'. cbn [calls one_call]. replace (S (calls w) + j)%nat with (calls w + S j)%nat by lia. apply Hi. }
        exists r, w', out. split; [exact Hrun |]. rewrite Em in Hp. split; [|exact (conj Hp Hlo)]. apply (outcome_step w (one_call [] w) w' (x :: l) (x :: l) [] r out); [|apply rest_refl | done | done].
        split; [done | cbn; lia | done].
      * exists (Some p), (with_ready false (one_call [] w)), []. split; [done |]. split; [|split; [done | cbn; lia]]. split; [split; [done | cbn; lia | done] |].
        exists (x :: l). split; [by eapply chained_same; [..|exact C] |]. split; [apply rest_refl | done].
      * exists None, (one_call [] w), []. split; [done |]. split; [split; [split; [done | cbn; lia | done] | apply prefix_nil] | split; [auto | cbn; lia]].
Qed.

Lemma cap_pos limit : 0 <= limit -> 0 < cap limit <= DFS_MAX_LIMIT.
Proof using. unfold cap, DFS_MAX_LIMIT. intros H. destruct (Z.eqb_spec limit 0), (Z.ltb_spec 2147479552 limit); cbn [orb]; lia. Qed.

Lemma chained_amount w p l : chained w p l -> (amount l <= Z.to_nat (Z.of_nat (length (content l))) + size (nodes w))%nat.
Proof using. intros [_ H _ _]. apply linked_length in H. unfold amount. lia. Qed.

(** What a turn of the output loops does to a chain that is not empty: it ends with an error,
    with the connection not ready, or with less left. *)
Definition turn (w : world) (l : list item) (r : option ptr) (w' : world) (out : list Z) : Prop :=
  outcome w l r w' out /\
  (ready w' = true -> match r with
   | None => True
   | Some p' => exists l', chained w' p' l' /\ rest l l' /\ content l = out ++ content l' /\ (amount l' < amount l)%nat
   end).

Lemma turn_progress w p l w' out :
  outcome w l (Some p) w' out -> out <> [] ->
  exists l', chained w' p l' /\ rest l l' /\ content l = out ++ content l' /\ (amount l' < amount l)%nat.
Proof using.
  intros [_ (l' & C & Hr & Hc)] Ho. exists l'. split; [done |]. split; [done |]. split; [done |].
  apply rest_length in Hr. apply (f_equal length) in Hc. rewrite length_app in Hc. unfold amount. destruct out; [done | cbn in Hc; lia].
Qed.

Lemma writev_chain_turn w p x l limit :
  chained w p (x :: l) -> settled (x :: l) -> 0 <= limit -> ready w = true -> memory_ (i_b x) = true ->
  exists r w' out, sysio_writev_chain p limit w = Some (r, w') /\ turn w (x :: l) r w' out /\ Z.of_nat (length out) <= cap limit.
Proof using Hio.
  intros C Hset Hlim Hrd Em. pose proof (chained_cons _ _ _ _ C) as (_ & Hn & _). unfold sysio_writev_chain. rewrite bool_decide_false by done. rewrite Hrd. cbn [negb].
  rewrite (chain_size_spec _ _ _ C). cbn [mbind option_bind]. pose proof (cap_pos limit Hlim) as Hcap.
  destruct (writev_chain_loop_spec (cap limit) (proj2 Hcap) (S (Z.to_nat (Z.of_nat (length (content (x :: l)))))) w p (x :: l) 0 C Hset) as (r & w' & out & Hrun & Ho & Hp & Hlo);
    [done | lia |].
  exists r, w', out. split; [exact Hrun |]. split; [|lia]. split; [done |]. intros Hr'. destruct r as [p'|]; [|done]. destruct (decide (out = [])) as [Hout | Hout].
  - rewrite Em in Hp. destruct (Hp Hr' Hout) as [[= ->] | [? | [? | ?]]]; [|done | lia | done].
    destruct Ho as [_ (l' & C' & Hr & Hc)]. exists l'. split; [done |]. split; [done |]. split; [done |].
    assert (l' = []) as -> by (destruct l' as [|y l']; [done | by destruct (chained_cons _ _ _ _ C') as (_ & ? & _)]). unfold amount. cbn. lia.
  - by apply (turn_progress w p' (x :: l) w' out).
Qed.

Lemma sendfile_chain_turn w p x l limit :
  chained w p (x :: l) -> 0 <= limit -> ready w = true -> memory_ (i_b x) = false ->
  exists r w' out, sysio_sendfile_chain p limit w = Some (r, w') /\ turn w (x :: l) r w' out /\ Z.of_nat (length out) <= cap limit.
Proof using Hio.
  intros C Hlim Hrd Em. pose proof (chained_cons _ _ _ _ C) as (_ & Hn & _). unfold sysio_sendfile_chain. rewrite bool_decide_false by done. rewrite Hrd. cbn [negb].
  rewrite (chain_size_spec _ _ _ C). cbn [mbind option_bind]. pose proof (cap_pos limit Hlim) as Hcap. pose proof (chained_amount _ _ _ C) as Ham.
  destruct (io_sendfile_ends Hio (calls w)) as (j & Hj & Hi).
  destruct (sendfile_loop_spec (cap limit) (proj2 Hcap) (S (patience * S (Z.to_nat (Z.of_nat (length (content (x :: l)))) + size (nodes w)))) w p (x :: l) 0 C)
    as (r & w' & out & Hrun & Ho & Hp & Hlo); [done | exists j; split; [nia | done] |].
  exists r, w', out. split; [exact Hrun |]. split; [|lia]. split; [done |]. intros Hr'. destruct r as [p'|]; [|done]. destruct (decide (out = [])) as [Hout | Hout].
  - rewrite Em in Hp. destruct (Hp Hr' Hout) as [? | [? | [? | (p2 & l' & [= <-] & C' & Hr & Hc & Hl)]]]; [done | lia | done |].
    exists l'. rewrite Hout. split; [done |]. split; [done |]. split; [done |]. unfold amount. rewrite Hc. lia.
  - by apply (turn_progress w p' (x :: l) w' out).
Qed.

Lemma output_turn w p l limit :
  chained w p l -> settled l -> 0 <= limit -> ready w = true -> p <> nullptr ->
  exists n b r w' out, node_buf p w = Some (n, b) /\
    (if memory_ b then sysio_writev_chain p limit w else sysio_sendfile_chain p limit w) = Some (r, w') /\ turn w l r w' out /\ Z.of_nat (length out) <= cap limit.
Proof using Hio.
  intros C Hset Hlim Hrd Hn. destruct l as [|x l]; [by rewrite (chained_nil _ _ C) in Hn |]. destruct (chained_cons _ _ _ _ C) as (_ & _ & Hnb & _).
  eexists _, (i_b x). destruct (memory_ (i_b x)) eqn:Em.
  - destruct (writev_chain_turn w p x l limit C Hset Hlim Hrd Em) as (r & w' & out & H). by exists r, w', out.
  - destruct (sendfile_chain_turn w p x l limit C Hlim Hrd Em) as (r & w' & out & H). by exists r, w', out.
Qed.

Lemma output_loop_spec limit : 0 <= limit -> forall fuel w p l, chained w p l -> settled l -> (amount l < fuel)%nat ->
  exists r w' out, output_loop fuel p limit w = Some (r, w') /\ outcome w l r w' out /\
    match r with Some p' => p' = nullptr \/ ready w' = false | None => True end.
Proof using Hio.
  intros Hlim. induction fuel as [|fuel IH]; intros w p l C Hset Hf; [lia |]. cbn [output_loop]. destruct (ready w) eqn:Hrd; cbn [negb orb].
  2: { exists (Some p), w, []. split; [done |]. split; [by apply outcome_stop |]. by right. }
  case_bool_decide as Hn; [exists (Some p), w, []; split; [done |]; split; [by apply outcome_stop |]; by left |].
  destruct (output_turn w p l limit C Hset Hlim Hrd Hn) as (n & b & r & w1 & o1 & Hnb & Hrun & [Ho Hp] & _). rewrite Hnb. cbn [mbind option_bind]. rewrite Hrun.
  cbn [mbind option_bind]. destruct r as [p1|]; [|by exists None, w1, o1].
  destruct (ready w1) eqn:Hrd1.
  - destruct (Hp eq_refl) as (l1 & C1 & Hr & Hc & Ham). destruct (IH w1 p1 l1 C1 (settled_rest _ _ Hr Hset)) as (r & w' & out & Hrun' & Ho' & H); [lia |].
    exists r, w', (o1 ++ out). split; [exact Hrun' |]. split; [|done]. eapply outcome_step; [exact (proj1 Ho) | done | done | done].
  - exists (Some p1), w1, o1. split; [|split; [done | by right]].
    destruct fuel; [|cbn [output_loop]; by rewrite Hrd1]. destruct l; [by rewrite (chained_nil _ _ C) in Hn | unfold amount in Hf; cbn in Hf; lia].
Qed.

(** With a limit: no more bytes than it, and if bytes are left, all of it or what the
    connection took. *)
Lemma output_limit_loop_spec limit : 0 <= limit -> forall fuel w p l cur, chained w p l -> settled l -> (amount l < fuel)%nat ->
  limit = 0 /\ cur = 0 \/ 0 < limit /\ 0 < cur < 2 ^ 63 ->
  exists r w' out, output_limit_loop fuel p (sent w) limit cur w = Some (r, w') /\ outcome w l r w' out /\ (0 < limit -> Z.of_nat (length out) <= cur) /\
    match r with Some p' => p' = nullptr \/ ready w' = false \/ 0 < limit /\ Z.of_nat (length out) = cur | None => True end.
Proof using Hio.
  intros Hlim. induction fuel as [|fuel IH]; intros w p l cur C Hset Hf Hcur; [lia |]. cbn [output_limit_loop]. destruct (ready w) eqn:Hrd; cbn [negb orb].
  2: { exists (Some p), w, []. split; [done |]. split; [by apply outcome_stop |]. split; [cbn; lia | auto]. }
  case_bool_decide as Hn; [exists (Some p), w, []; split; [done |]; split; [by apply outcome_stop |]; split; [cbn; lia | auto] |].
  rewrite (u64_small cur) by (unfold is_u64; lia).
  destruct (output_turn w p l cur C Hset ltac:(lia) Hrd Hn) as (n & b & r & w1 & o1 & Hnb & Hrun & [Ho Hp] & Hlo). rewrite Hnb. cbn [mbind option_bind]. rewrite Hrun.
  cbn [mbind option_bind]. assert (0 < limit -> Z.of_nat (length o1) <= cur) as Hcap.
  { unfold cap in Hlo. destruct (Z.eqb_spec cur 0), (Z.ltb_spec DFS_MAX_LIMIT cur); cbn [orb] in Hlo; lia. }
  destruct r as [p1|]; [|by exists None, w1, o1]. destruct (ready w1) eqn:Hrd1; cbn [negb]; [|exists (Some p1), w1, o1; split; [done |]; split; [done |]; split; [done | auto]].
  destruct (Hp eq_refl) as (l1 & C1 & Hr & Hc & Ham). pose proof (settled_rest _ _ Hr Hset) as Hset1.
  assert (sent w1 - sent w = Z.of_nat (length o1)) as Es by (rewrite (sn_sent _ _ _ (proj1 Ho)); lia).
  destruct (Z.eqb_spec limit 0) as [-> | Hl0].
  - destruct Hcur as [[_ ->] | ?]; [|lia]. assert (output_limit_loop fuel p1 (sent w) 0 0 w1 = output_limit_loop fuel p1 (sent w1) 0 0 w1) as ->.
    { clear. generalize (sent w), (sent w1). revert p1 w1. induction fuel as [|fuel IH]; intros p1 w1 s1 s2; [done |]. cbn [output_limit_loop].
      destruct (_ || _); [done |]. destruct (node_buf p1 w1) as [[n b]|]; [|done]. cbn [mbind option_bind].
      destruct (if memory_ b then _ else _) as [[[p2|] w2]|]; [|done | done]. cbn [mbind option_bind]. destruct (negb (ready w2)); [done |]. cbn. apply IH. }
    destruct (IH w1 p1 l1 0 C1 Hset1 ltac:(lia) ltac:(auto)) as (r & w' & out & Hrun' & Ho' & Hb & He). exists r, w', (o1 ++ out).
    split; [exact Hrun' |]. split; [eapply outcome_step; [exact (proj1 Ho) | done | done | done] |]. split; [lia |]. destruct r; [|done]. destruct He as [? | [? | ?]]; [auto | auto | lia].
  - destruct Hcur as [? | [_ Hcur]]; [lia |]. rewrite Es. destruct (Z.leb_spec (cur - Z.of_nat (length o1)) 0).
    + exists (Some p1), w1, o1. split; [done |]. split; [done |]. split; [done |]. right. right. lia.
    + destruct (IH w1 p1 l1 (cur - Z.of_nat (length o1)) C1 Hset1 ltac:(lia) ltac:(lia)) as (r & w' & out & Hrun' & Ho' & Hb & He). exists r, w', (o1 ++ out).
      split; [exact Hrun' |]. split; [eapply outcome_step; [exact (proj1 Ho) | done | done | done] |]. rewrite length_app. split; [lia |].
      destruct r; [|done]. destruct He as [? | [? | ?]]; [auto | auto | right; right; lia].
Qed.

End Sending.

(** ** Chaining *)

Lemma linked_set_node w p nd l : p ∉ map i_node l -> linked w l -> linked (with_nodes (<[p := nd]> (nodes w)) w) l.
Proof using.
  induction l as [|x l IH]; [done |]. cbn. rewrite not_elem_of_cons. intros [Hp Hl] (H1 & H2 & H3 & H4 & H5). split; [done |].
  split; [by rewrite lookup_insert_ne |]. split; [done |]. split; [done | by apply IH].
Qed.

Lemma last_node_spec w : forall fuel l x, linked w (l ++ [x]) -> (length l < fuel)%nat -> last_node fuel (first (l ++ [x])) w = Some (i_node x).
Proof using.
  induction fuel as [|fuel IH]; intros l x H Hf; [lia |]. destruct l as [|y l]; cbn [app first last_node]; destruct H as (Hn & Hx & _ & _ & Hl); rewrite Hx; cbn [mbind option_bind next].
  - cbn. done.
  - destruct (l ++ [x]) as [|z r] eqn:E; [by destruct l |]. destruct Hl as (Hz & ?). rewrite bool_decide_false by done.
    rewrite <- E. apply IH; [by rewrite E | cbn in Hf; lia].
Qed.

Lemma linked_link w l x l2 : NoDup (map i_node ((l ++ [x]) ++ l2)) -> linked w (l ++ [x]) -> linked w l2 ->
  linked (with_nodes (<[i_node x := {| buf := i_buf x; next := first l2 |}]> (nodes w)) w) ((l ++ [x]) ++ l2).
Proof using.
  intros Hnd H1 H2. induction l as [|y l IH]; cbn [app] in *; cbn [map] in Hnd; apply NoDup_cons in Hnd as [Hni Hnd]; destruct H1 as (Hn & Hy & Hb & Hh & Hl).
  - cbn. split; [done |]. split; [apply lookup_insert_eq |]. split; [done |]. split; [done |]. by apply linked_set_node.
  - cbn. split; [done |]. split; [|split; [done | split; [done | by apply IH]]]. rewrite lookup_insert_ne.
    + rewrite Hy. do 2 f_equal. by destruct l.
    + intros E. apply Hni. rewrite <- E, !map_app. cbn. set_solver +.
Qed.

(** Appending a chain to the chain of a variable. *)
Lemma chain_append_all_spec w p q l1 l2 :
  chained w p l1 -> chained w q l2 -> NoDup (map i_node (l1 ++ l2)) -> NoDup (map i_buf (l1 ++ l2)) -> Z.of_nat (length (content (l1 ++ l2))) < 2 ^ 63 ->
  exists p' N, chain_append_all p q w = Some (p', with_nodes N w) /\ chained (with_nodes N w) p' (l1 ++ l2).
Proof using.
  intros C1 C2 Hn Hb Hs. unfold chain_append_all, link_end. assert (with_nodes (nodes w) w = w) as Ew by (by destruct w).
  destruct l2 as [|y l2]; [rewrite (chained_nil _ _ C2), app_nil_r, bool_decide_true by done; exists p, (nodes w); by rewrite Ew |].
  destruct (chained_cons _ _ _ _ C2) as (Eq & Hq & _). rewrite bool_decide_false by done.
  destruct l1 as [|x1 l1 _] using rev_ind; [rewrite (chained_nil _ _ C1), bool_decide_true by done; exists q, (nodes w); by rewrite Ew |].
  destruct C1 as [Ep L1 _ _]. pose proof (linked_link w l1 x1 (y :: l2) Hn L1 (ch_linked _ _ _ C2)) as HL.
  rewrite bool_decide_false by (rewrite Ep; intros E; destruct l1; cbn in L1, E; by destruct L1).
  rewrite Ep, last_node_spec; [|done | apply linked_length in L1; rewrite length_app in L1; unfold walk_fuel; cbn in L1; lia].
  cbn [mbind option_bind]. unfold set_next. destruct (linked_node w (l1 ++ [x1]) x1 L1) as [_ [nd Hnd]]; [set_solver + |]. rewrite Hnd. cbn [mbind option_bind].
  assert (buf nd = i_buf x1) as ->.
  { pose proof (linked_suffix w l1 [x1] L1) as (_ & E & _). rewrite E in Hnd. by injection Hnd as <-. }
  rewrite Eq. eexists _, _. split; [reflexivity |]. split; [by destruct l1 | exact HL | done | done].
Qed.

(** ** What output does *)

(** Two chains that can be put together and sent: no node and no buffer twice, and settled. *)
Record joins (w : world) (p q : ptr) (l1 l2 : list item) : Prop := {
  jn_first : chained w p l1;
  jn_second : chained w q l2;
  jn_nodes : NoDup (map i_node (l1 ++ l2));
  jn_bufs : NoDup (map i_buf (l1 ++ l2));
  jn_small : Z.of_nat (length (content (l1 ++ l2))) < 2 ^ 63;
  jn_settled : settled (l1 ++ l2)
}.

Lemma joins_append w p q l1 l2 : joins w p q l1 l2 ->
  exists p' N, (if bool_decide (q = nullptr) then Some (p, w) else chain_append_all p q w) = Some (p', with_nodes N w) /\ chained (with_nodes N w) p' (l1 ++ l2).
Proof using.
  intros [C1 C2 Hn Hb Hs _]. destruct (chain_append_all_spec w p q l1 l2 C1 C2 Hn Hb Hs) as (p' & N & Ha & C). exists p', N. split; [|done].
  case_bool_decide as Hq; [|done]. rewrite <- Ha. unfold chain_append_all. by rewrite bool_decide_true.
Qed.

Lemma chained_empty w p : chained w p [] <-> p = nullptr.
Proof using. split; [apply chained_nil |]. intros ->. split; [done | done | constructor | done]. Qed.

(** Bytes sent and the chain that is left. *)
Definition sent_and_left (w : world) (l : list item) (rc : Z) (r : option ptr) (w' : world) (out : list Z) : Prop :=
  tx w' = tx w ++ out /\ sent w' = sent w + Z.of_nat (length out) /\ mem w' = mem w /\ file w' = file w /\
  match r with
  | None => rc = NGX_ERROR /\ out `prefix_of` content l
  | Some p => exists l', chained w' p l' /\ rest l l' /\ content l = out ++ content l' /\ (rc = NGX_OK /\ content l' = [] \/ rc = NGX_AGAIN /\ p <> nullptr)
  end.

(** C22. Output loses nothing: for chains that can be put together, in which no empty memory
    buffer stands directly in front of a file buffer, [chain_output] returns. The bytes it sent
    followed by those of the chain it leaves in the context are the bytes of the old chain and
    the new one, in order; it answers [NGX_OK] only if nothing is left and [NGX_AGAIN] only if
    the connection takes no more; after an error what was sent is a prefix. *)
Theorem chain_output_loses_nothing w out cl l1 l2 limit :
  io_ok -> joins w out cl l1 l2 -> 0 <= limit ->
  exists rc r w' o, chain_output true out cl limit w = Some (rc, r, w') /\ sent_and_left w (l1 ++ l2) rc r w' o /\ (rc = NGX_AGAIN -> ready w' = false).
Proof using.
  intros Hio J Hlim. destruct (joins_append _ _ _ _ _ J) as (p & N & Ha & C). unfold chain_output. rewrite Ha. cbn [mbind option_bind].
  rewrite (chain_empty_spec _ _ _ C). cbn [mbind option_bind]. clear Ha. case_bool_decide as He.
  - exists NGX_OK, (Some p), (with_nodes N w), []. split; [reflexivity |]. split; [|intros E; discriminate E]. split; [cbn; by rewrite app_nil_r |]. split; [cbn; lia |]. split; [done |]. split; [done |].
    exists (l1 ++ l2). split; [done |]. split; [apply rest_refl |]. split; [done | by left].
  - cbn [negb]. rewrite (chain_size_spec _ _ _ C). cbn [mbind option_bind].
    destruct (output_loop_spec Hio limit Hlim (S (S (Z.to_nat (Z.of_nat (length (content (l1 ++ l2)))) + size (nodes (with_nodes N w))))) (with_nodes N w) p (l1 ++ l2) C
      (jn_settled _ _ _ _ _ J)) as (r & w' & o & Hrun & [Hs Ho] & Hr); [apply chained_amount in C; lia |].
    rewrite Hrun. cbn [mbind option_bind]. destruct Hs as [Etx Es [_ Em Ef]]. destruct r as [p'|].
    + destruct Ho as (l' & C' & Hrest & Hc). eexists _, (Some p'), w', o. split; [reflexivity |]. split.
      * split; [done |]. split; [done |]. split; [done |]. split; [done |]. exists l'. split; [done |]. split; [done |]. split; [done |].
        case_bool_decide as Hp; [left | by right]. split; [done |]. destruct l' as [|x l']; [done |]. by destruct (chained_cons _ _ _ _ C') as (_ & ? & _).
      * case_bool_decide; [intros E; discriminate E |]. intros _. by destruct Hr.
    + exists NGX_ERROR, None, w', o. split; [done |]. split; [|intros E; discriminate E].
      split; [done |]. split; [done |]. by split.
Qed.

(** Output with a limit: [chain_output_with_limit] returns, loses nothing, sends no more
    bytes than the limit, and if it answers [NGX_AGAIN] it has sent that many or the connection
    takes no more. *)
Theorem chain_output_limited w out l limit :
  io_ok -> chained w out l -> settled l -> 0 < limit < 2 ^ 63 ->
  exists rc r w' o, chain_output_with_limit out limit w = Some (rc, r, w') /\ sent_and_left w l rc r w' o /\ Z.of_nat (length o) <= limit /\
    (rc = NGX_AGAIN -> ready w' = false \/ Z.of_nat (length o) = limit).
Proof using.
  intros Hio C Hset Hlim. unfold chain_output_with_limit. rewrite (chain_size_spec _ _ _ C). cbn [mbind option_bind]. rewrite s64_small by (unfold is_s64; lia).
  destruct (output_limit_loop_spec Hio limit ltac:(lia) (S (S (Z.to_nat (Z.of_nat (length (content l))) + size (nodes w)))) w out l limit C Hset)
    as (r & w' & o & Hrun & [Hs Ho] & Hb & Hr); [apply chained_amount in C; lia | lia |].
  rewrite Hrun. cbn [mbind option_bind]. destruct Hs as [Etx Es [_ Em Ef]]. specialize (Hb ltac:(lia)). destruct r as [p'|].
  - destruct Ho as (l' & C' & Hrest & Hc). eexists _, (Some p'), w', o. split; [reflexivity |]. split; [|split; [done |]].
    + split; [done |]. split; [done |]. split; [done |]. split; [done |]. exists l'. split; [done |]. split; [done |]. split; [done |].
      case_bool_decide as Hp; [left | by right]. split; [done |]. destruct l' as [|x l']; [done |]. by destruct (chained_cons _ _ _ _ C') as (_ & ? & _).
    + case_bool_decide; [intros E; discriminate E |]. intros _. destruct Hr as [? | [? | [_ ?]]]; [done | by left | by right].
  - exists NGX_ERROR, None, w', o. split; [done |]. split; [|split; [done | intros E; discriminate E]].
    split; [done |]. split; [done |]. by split.
Qed.

(** ** Input *)

Definition room (b : buffer) : nat := Z.to_nat (buffer_free_size b).
Definition rooms (l : list item) : list iovec := map (fun x => (last (i_b x), buffer_free_size (i_b x))) l.
Fixpoint total (l : list item) : nat := match l with [] => O | x :: l => (room (i_b x) + total l)%nat end.

Definition apart (x y : item) : Prop := (end_ (i_b x) <= pos (i_b y))%N \/ (end_ (i_b y) <= pos (i_b x))%N.

(** Memory buffers with room at their ends, none in another. *)
Fixpoint fillable (m : memory) (l : list item) : Prop :=
  match l with
  | [] => True
  | x :: l => memory_ (i_b x) = true /\ (last (i_b x) <= end_ (i_b x))%N /\ valid m (last (i_b x)) (room (i_b x)) /\ (forall y, y ∈ l -> apart x y) /\ fillable m l
  end.

(** The chain after the bytes [d] have come in. *)
Fixpoint filled (l : list item) (d : list Z) : list item :=
  match l with
  | [] => []
  | x :: l =>
      let k := take (room (i_b x)) d in
      {| i_node := i_node x; i_buf := i_buf x; i_b := with_ptrs (pos (i_b x)) (at_ (last (i_b x)) (length k)) (i_b x); i_data := i_data x ++ k |}
      :: filled l (drop (room (i_b x)) d)
  end.

Fixpoint landed (m : memory) (l : list item) (d : list Z) : Prop :=
  match l with [] => True | x :: l => holds m (last (i_b x)) (take (room (i_b x)) d) /\ landed m l (drop (room (i_b x)) d) end.

Lemma free_room b : (last b <= end_ b)%N -> buffer_free_size b = Z.of_nat (room b) /\ end_ b = at_ (last b) (room b).
Proof. unfold room, buffer_free_size, minus, at_. lia. Qed.

Lemma fillable_valid m m' l : dom m' = dom m -> fillable m l -> fillable m' l.
Proof.
  intros D. induction l as [|x l IH]; [done |]. intros (H1 & H2 & H3 & H4 & H5). split; [done |]. split; [done |]. split; [|split; [done | by apply IH]].
  intros i Hi. specialize (H3 i Hi). apply elem_of_dom. rewrite D. by apply elem_of_dom.
Qed.

Lemma scatter_fill : forall l d m, fillable m l -> Forall (fun x => (pos (i_b x) <= last (i_b x))%N) l -> exists m', scatter (rooms l) d m = Some m' /\ dom m' = dom m /\
  (forall a, (forall x, x ∈ l -> (a < last (i_b x))%N \/ (end_ (i_b x) <= a)%N) -> m' !! a = m !! a) /\ landed m' l d.
Proof.
  induction l as [|x l IH]; intros d m Hf Hp; [by exists m |]. destruct Hf as (_ & Hle & Hv & Hap & Hf). apply Forall_cons in Hp as [Hpx Hp]. cbn [rooms map scatter].
  destruct (free_room _ Hle) as [Efr Eend]. rewrite Efr, Nat2Z.id. set (k := take (room (i_b x)) d). assert (length k <= room (i_b x))%nat as Hk by (unfold k; rewrite length_take; lia).
  destruct (store_spec m (last (i_b x)) k) as (m1 & -> & Hk1 & Ho1); [intros i Hi; apply Hv; lia |]. cbn [mbind option_bind].
  destruct (IH (drop (room (i_b x)) d) m1) as (m' & Hm' & Hd & Ho & Hl); [by eapply fillable_valid; [apply Ho1 |] | done |].
  exists m'. split; [exact Hm' |]. split; [by rewrite Hd; apply Ho1 |]. split.
  - intros a Ha. rewrite Ho by (intros y Hy; apply Ha; by right). apply Ho1. destruct (Ha x) as [? | ?]; [by left | by left | right]. unfold at_ in *. lia.
  - split; [|done]. intros i b Hi. rewrite Ho; [by apply Hk1 |]. intros y Hy. apply lookup_lt_Some in Hi. fold k in Hi.
    assert (pos (i_b y) <= last (i_b y))%N by (rewrite Forall_forall in Hp; by apply Hp). destruct (Hap y Hy) as [? | ?]; [left | right]; unfold at_ in *; lia.
Qed.

Lemma store_nil m p : store m p [] = Some m.
Proof. done. Qed.

Lemma store_app : forall l1 l2 m p, store m p (l1 ++ l2) = (m ← store m p l1; store m (at_ p (length l1)) l2).
Proof.
  induction l1 as [|b l1 IH]; intros l2 m p; cbn [app store length mbind option_bind]; [by rewrite at_0 |].
  destruct (m !! p); [|done]. cbn [mbind option_bind]. rewrite IH, at_S. done.
Qed.

Lemma scatter_nil iovs m : scatter iovs [] m = Some m.
Proof. revert m. induction iovs as [|[p n] iovs IH]; intros m; [done |]. cbn. rewrite take_nil, drop_nil. apply IH. Qed.

Lemma scatter_more l1 l2 d m : (length d <= total l1)%nat -> scatter (rooms (l1 ++ l2)) d m = scatter (rooms l1) d m.
Proof.
  revert d m. induction l1 as [|x l1 IH]; intros d m Hd; cbn [app rooms map scatter total] in *.
  - destruct d; [|cbn in Hd; lia]. apply scatter_nil.
  - destruct (store m _ _); [|done]. cbn [mbind option_bind]. apply IH. rewrite length_drop. unfold room in Hd. lia.
Qed.

(** Two lists of ranges that take bytes the same way, whatever follows. *)
Definition same_scatter (i1 i2 : list iovec) : Prop := forall r d m, scatter (i1 ++ r) d m = scatter (i2 ++ r) d m.

Lemma scatter_join r q k n s d m : 0 <= k -> 0 <= n -> scatter (r ++ (q, k + n) :: s) d m = scatter (r ++ (q, k) :: (move q k, n) :: s) d m.
Proof.
  intros Hk Hn. revert d m. induction r as [|[p j] r IH]; intros d m; cbn [app scatter].
  - rewrite Z2Nat.inj_add by done. assert (take (Z.to_nat k + Z.to_nat n) d = take (Z.to_nat k) d ++ take (Z.to_nat n) (drop (Z.to_nat k) d)) as ->.
    { rewrite <- (take_drop (Z.to_nat k) (take _ d)) at 1. rewrite take_take, Nat.min_l by lia. f_equal. rewrite skipn_firstn_comm. f_equal. lia. }
    rewrite store_app. destruct (store m q _) as [m1|]; [|done]. cbn [mbind option_bind]. rewrite drop_drop.
    destruct (decide (Z.to_nat k <= length d)%nat).
    + assert (at_ q (length (take (Z.to_nat k) d)) = move q k) as -> by (rewrite length_take; unfold at_, move; lia). done.
    + rewrite (drop_ge d (Z.to_nat k)) by lia. by rewrite take_nil.
  - destruct (store m p _); [|done]. cbn [mbind option_bind]. apply IH.
Qed.

Lemma rev_iovs_spec w : forall fuel p l iovs prev size pl,
  chained w p l -> (length l < fuel)%nat -> fillable (mem w) l -> same_scatter iovs pl -> ends_at iovs prev ->
  exists iovs' l1 l2, rev_iovs_loop fuel iovs p prev size w = Some (iovs', size + Z.of_nat (total l1)) /\ l = l1 ++ l2 /\ same_scatter iovs' (pl ++ rooms l1).
Proof.
  induction fuel as [|fuel IH]; intros p l iovs prev size pl C Hf Hfl Hsame He; [lia |]. cbn [rev_iovs_loop]. destruct l as [|x l].
  - rewrite (chained_nil _ _ C), bool_decide_true by done. cbn [orb]. exists iovs, [], []. cbn. rewrite Z.add_0_r, app_nil_r. done.
  - destruct (chained_cons _ _ _ _ C) as (Ep & Hn & Hnb & Hh & Hsz & Cl). rewrite bool_decide_false by done. cbn [orb].
    case_bool_decide; cbn [negb]; [|exists iovs, [], (x :: l); cbn; by rewrite Z.add_0_r, app_nil_r]. rewrite Hnb. cbn [mbind option_bind next].
    destruct Hfl as (Em & Hle & Hv & Hap & Hfl). unfold buf_holds in Hh. rewrite Em in Hh. destruct Hh as (Hpn & _ & El). destruct (free_room _ Hle) as [Efr Eend].
    set (n := buffer_free_size (i_b x)) in *.
    assert (exists iovs1, add_iov (bool_decide (prev = last (i_b x))) (last (i_b x)) n iovs = Some iovs1 /\ same_scatter iovs1 (pl ++ [(last (i_b x), n)]) /\
      ends_at iovs1 (end_ (i_b x))) as (iovs1 & -> & Hsame1 & He1).
    { unfold add_iov. case_bool_decide as Hj.
      - destruct He as [[-> ->] | (r & q & k & -> & Hk & E)]; [unfold at_, nullptr in *; lia |]. rewrite reverse_snoc, reverse_involutive. eexists. split; [reflexivity |]. split.
        + intros s d m. rewrite <- !app_assoc. cbn [app]. rewrite scatter_join by lia. rewrite <- (Hsame ((last (i_b x), n) :: s)), <- app_assoc. cbn [app].
          rewrite <- E, Hj. done.
        + right. exists r, q, (k + n). split; [done |]. split; [lia |]. rewrite Eend, <- Hj, E. unfold move, at_. lia.
      - eexists. split; [reflexivity |]. split; [intros s d m; rewrite <- !app_assoc; apply Hsame |]. right. exists iovs, (last (i_b x)), n.
        split; [done |]. split; [lia |]. rewrite Eend. unfold move, at_. lia. }
    cbn [mbind option_bind]. destruct (IH (first l) l iovs1 (end_ (i_b x)) (size + n) (pl ++ [(last (i_b x), n)]) Cl) as (iovs' & l1 & l2 & Hrun & -> & Hs);
      [cbn in Hf; lia | done | done | done |].
    exists iovs', (x :: l1), l2. split; [rewrite Hrun; cbn [total]; do 2 f_equal; lia |]. split; [done |]. cbn [rooms map]. by rewrite <- app_assoc in Hs.
Qed.

Lemma filled_nil l : filled l [] = l.
Proof.
  induction l as [|[p q b k] l IH]; [done |]. cbn [filled i_node i_buf i_b i_data]. rewrite take_nil, drop_nil, IH, app_nil_r. do 2 f_equal. cbn [length]. rewrite at_0. by destruct b.
Qed.

Lemma length_filled l d : (length d <= total l)%nat -> length (content (filled l d)) = (length (content l) + length d)%nat.
Proof.
  revert d. induction l as [|x l IH]; intros d Hd; cbn [filled total] in *; [cbn in *; lia |]. rewrite !content_cons, !length_app. cbn [i_data].
  rewrite length_app, IH by (rewrite length_drop; lia). rewrite length_take, length_drop. lia.
Qed.

Lemma filled_bufs l d : map i_buf (filled l d) = map i_buf l.
Proof. revert d. induction l as [|x l IH]; intros d; [done |]. cbn. by rewrite IH. Qed.

Lemma filled_first l d : first (filled l d) = first l.
Proof. by destruct l. Qed.

Lemma buf_fill w x d : memory_ (i_b x) = true -> buf_holds w (i_b x) (i_data x) -> holds (mem w) (last (i_b x)) d ->
  buf_holds w (with_ptrs (pos (i_b x)) (at_ (last (i_b x)) (length d)) (i_b x)) (i_data x ++ d).
Proof.
  intros Em. unfold buf_holds. cbn [memory_ with_ptrs pos last]. rewrite Em. intros (Hn & Hd & El) Hk. split; [done |]. rewrite El in *. split; [by apply holds_app |].
  rewrite at_add, length_app. done.
Qed.

Lemma read_update_spec : forall fuel w p l d,
  chained w p l -> (length l < fuel)%nat -> fillable (mem w) l -> landed (mem w) l d -> (length d <= total l)%nat ->
  Z.of_nat (length (content l) + length d) < 2 ^ 63 -> Z.of_nat (total l) < 2 ^ 63 ->
  exists B, read_update_loop fuel p (Z.of_nat (length d)) w = Some (with_bufs B w) /\ chained (with_bufs B w) p (filled l d) /\
    (forall q, q ∉ map i_buf l -> B !! q = bufs w !! q).
Proof.
  induction fuel as [|fuel IH]; intros w p l d C Hf Hfl Hl Hd Hs Ht; [lia |]. cbn [read_update_loop]. assert (with_bufs (bufs w) w = w) as Ew by (by destruct w).
  destruct (decide (length d = 0)%nat) as [Hd0 | Hd0].
  { destruct d; [|done]. cbn [length]. change (Z.of_nat 0 <=? 0) with true. rewrite orb_true_r, filled_nil. exists (bufs w). by rewrite Ew. }
  destruct l as [|x l]; [cbn in Hd; lia |]. destruct (chained_cons _ _ _ _ C) as (Ep & Hn & Hnb & Hh & Hsz & Cl). rewrite bool_decide_false by done.
  rewrite (proj2 (Z.leb_gt _ _)) by lia. cbn [orb]. rewrite Hnb. cbn [mbind option_bind buf next]. destruct Hfl as (Em & Hle & Hv & Hap & Hfl). destruct Hl as [Hk Hl].
  destruct (free_room _ Hle) as [Efr Eend]. cbn [total] in Hd, Ht. rewrite Efr, u64_small by (unfold is_u64; lia). set (k := take (room (i_b x)) d) in *.
  rewrite content_cons, length_app in Hs. pose proof (buf_fill w x k Em Hh Hk) as Hx.
  set (b := with_ptrs (pos (i_b x)) (at_ (last (i_b x)) (length k)) (i_b x)) in *.
  assert ((if Z.of_nat (room (i_b x)) <=? Z.of_nat (length d)
     then read_update_loop fuel (first l) (Z.of_nat (length d) - Z.of_nat (room (i_b x))) (set_buf (i_buf x) (with_ptrs (pos (i_b x)) (end_ (i_b x)) (i_b x)) w)
     else read_update_loop fuel (first l) 0 (set_buf (i_buf x) (buffer_used (i_b x) (Z.of_nat (length d))) w)) =
    read_update_loop fuel (first l) (Z.of_nat (length (drop (room (i_b x)) d))) (set_buf (i_buf x) b w)) as ->.
  { unfold b, k. rewrite length_take, length_drop. destruct (Z.leb_spec (Z.of_nat (room (i_b x))) (Z.of_nat (length d))).
    - rewrite Nat.min_l, <- Eend by lia. f_equal. lia.
    - rewrite Nat.min_r by lia. f_equal; [lia |]. f_equal. unfold buffer_used. f_equal. unfold move, at_. lia. }
  pose proof (chained_after w p x l b C) as C1.
  destruct (IH (set_buf (i_buf x) b w) (first l) l (drop (room (i_b x)) d) C1) as (B & Hrun & C2 & HB); [cbn in Hf; lia | done | done | rewrite length_drop; lia | rewrite length_drop; lia | lia |].
  exists B. split; [exact Hrun |]. destruct C as [_ (Hxn & Hxl & _) Hnd _]. cbn in Hnd. apply NoDup_cons in Hnd as [Hni Hnd]. split.
  - cbn [filled]. fold k. fold b. split; [done | | |].
    + cbn [linked i_node i_buf i_b i_data]. split; [done |]. split; [by rewrite filled_first |]. split; [cbn; rewrite HB by done; apply lookup_insert_eq |].
      split; [exact Hx | exact (ch_linked _ _ _ C2)].
    + cbn [map i_buf]. rewrite filled_bufs. by constructor.
    + change (Z.of_nat (length (content (filled (x :: l) d))) < 2 ^ 63). rewrite length_filled by (cbn [total]; lia). rewrite content_cons, length_app. lia.
  - intros q Hq. cbn in Hq. rewrite not_elem_of_cons in Hq. destruct Hq as [Hq1 Hq2]. rewrite HB by done. by apply lookup_insert_ne.
Qed.

(** What [readv] promises: no more bytes than there is room for, and not always interrupted. *)
Record readv_ok : Prop := {
  rv_size : forall k n d, readv k n = inl (Some d) -> Z.of_nat (length d) <= n;
  rv_ends : forall k, exists j, (j < patience)%nat /\ forall n, readv (k + j) n <> inr Intr
}.

Definition after_call (c : nat) (m : memory) (w : world) : world :=
  {| nodes := nodes w; bufs := bufs w; mem := m; file := file w; ready := ready w; sent := sent w; calls := S c; tx := tx w |}.

Lemma one_call_nil w : one_call [] w = after_call (calls w) (mem w) w.
Proof. unfold one_call. by rewrite app_nil_r. Qed.

Lemma readv_loop_spec (Hrv : readv_ok) iovs size : forall fuel w, (exists j, (j < fuel)%nat /\ forall n, readv (calls w + j) n <> inr Intr) ->
  exists c,
    (exists d, readv c size = inl (Some d) /\ readv_loop fuel iovs size w = (m ← scatter iovs d (mem w); Some (Z.of_nat (length d), after_call c m w))) \/
    (exists n, n <= 0 /\ readv_loop fuel iovs size w = Some (n, after_call c (mem w) w)).
Proof using.
  induction fuel as [|fuel IH]; intros w (j & Hj & Hi); [lia |]. cbn [readv_loop]. rewrite !one_call_nil. destruct (readv (calls w) size) as [[d|] | [n | | |]] eqn:E.
  - exists (calls w). left. exists d. split; [done |]. destruct (scatter _ _ _); [|done]. cbn [mbind option_bind]. by rewrite one_call_nil.
  - exists (calls w). right. by exists 0.
  - exists (calls w). right. by exists NGX_ERROR.
  - destruct j as [|j]; [exfalso; apply (Hi size); by rewrite Nat.add_0_r |]. apply (IH (after_call (calls w) (mem w) w)). exists j. split; [lia |]. intros n.
    cbn [calls after_call]. replace (S (calls w) + j)%nat with (calls w + S j)%nat by lia. apply Hi.
  - exists (calls w). right. by exists NGX_AGAIN.
  - exists (calls w). right. by exists NGX_ERROR.
Qed.

Lemma linked_mem w w' l : nodes w' = nodes w -> bufs w' = bufs w -> (forall x, x ∈ l -> buf_holds w (i_b x) (i_data x) -> buf_holds w' (i_b x) (i_data x)) ->
  linked w l -> linked w' l.
Proof.
  intros E1 E2. induction l as [|x l IH]; [done |]. intros H (H1 & H2 & H3 & H4 & H5). cbn. rewrite E1, E2. split; [done |]. split; [done |]. split; [done |].
  split; [by apply H; [left |] |]. apply IH; [|done]. intros y Hy. apply H. by right.
Qed.

Lemma fillable_in m l x : fillable m l -> x ∈ l -> memory_ (i_b x) = true /\ (last (i_b x) <= end_ (i_b x))%N /\ forall y, y ∈ l -> x = y \/ apart x y.
Proof.
  induction l as [|z l IH]; [by intros _ ?%not_elem_of_nil |]. intros (H1 & H2 & _ & H4 & H5) [-> | Hx]%elem_of_cons.
  - split; [done |]. split; [done |]. intros y [-> | Hy]%elem_of_cons; [by left | right; by apply H4].
  - destruct (IH H5 Hx) as (K1 & K2 & K3). split; [done |]. split; [done |]. intros y [-> | Hy]%elem_of_cons; [|by apply K3].
    right. destruct (H4 x Hx) as [? | ?]; [by right | by left].
Qed.

Lemma linked_pos w l x : linked w l -> x ∈ l -> memory_ (i_b x) = true -> (pos (i_b x) <= last (i_b x))%N /\ buf_holds w (i_b x) (i_data x).
Proof.
  intros H Hx Em. apply list_elem_of_split in Hx as (l1 & l2 & ->). apply linked_suffix in H. destruct H as (_ & _ & _ & Hh & _). split; [|done].
  unfold buf_holds in Hh. rewrite Em in Hh. destruct Hh as (_ & _ & ->). unfold at_. lia.
Qed.

(** Input fills the chain in order: for a chain of memory buffers that lie apart, reading
    returns, and either nothing came and no byte has changed, or the bytes that came lie in the
    free room of the buffers in the order of the chain, no byte outside that room has changed,
    and after [chain_read_update] the buffers hold them behind what they held before. *)
Theorem readv_chain_fills w p l :
  readv_ok -> chained w p l -> fillable (mem w) l -> Z.of_nat (length (content l) + total l) < 2 ^ 63 ->
  exists n w1, sysio_readv_chain p w = Some (n, w1) /\ nodes w1 = nodes w /\ bufs w1 = bufs w /\
    (n <= 0 /\ mem w1 = mem w \/
     exists c size d w2, readv c size = inl (Some d) /\ n = Z.of_nat (length d) /\ (length d <= total l)%nat /\ chain_read_update p n w1 = Some w2 /\
       chained w2 p (filled l d) /\ (forall a, (forall x, x ∈ l -> (a < last (i_b x))%N \/ (end_ (i_b x) <= a)%N) -> mem w2 !! a = mem w !! a)).
Proof using.
  intros Hrv C Hfl Hs. unfold sysio_readv_chain.
  destruct (rev_iovs_spec w (walk_fuel w) p l [] nullptr 0 [] C (chained_fuel _ _ _ C) Hfl (fun r d m => eq_refl)) as (iovs & l1 & l2 & -> & El & Hsame); [by left |].
  cbn [mbind option_bind app] in *. destruct (readv_loop_spec Hrv iovs (0 + Z.of_nat (total l1)) patience w (rv_ends Hrv (calls w))) as (c & [(d & Hd & ->) | (n & Hn & ->)]).
  2: { exists n. eexists. split; [reflexivity |]. split; [done |]. split; [done |]. by left. }
  pose proof (rv_size Hrv _ _ _ Hd) as Hlen. specialize (Hsame [] d (mem w)). rewrite !app_nil_r in Hsame. rewrite Hsame.
  assert (total l1 <= total l)%nat as Htl by (rewrite El; clear; induction l1; cbn; lia).
  assert (forall x, x ∈ l -> (pos (i_b x) <= last (i_b x))%N /\ buf_holds w (i_b x) (i_data x)) as Hpos.
  { intros x Hx. apply (linked_pos w l); [apply C | done | by apply (fillable_in (mem w) l)]. }
  destruct (scatter_fill l d (mem w) Hfl) as (m & Hm & Hdom & Ho & Hland); [rewrite Forall_forall; intros x Hx; by apply Hpos |].
  rewrite El, scatter_more in Hm by lia. rewrite Hm. cbn [mbind option_bind]. set (w1 := after_call c m w).
  eexists _, w1. split; [reflexivity |]. split; [done |]. split; [done |]. right. exists c, (0 + Z.of_nat (total l1)), d.
  assert (chained w1 p l) as C1.
  { destruct C as [E HL Hnd Hsm]. split; [done | | done | done]. apply (linked_mem w); [done | done | | done]. intros x Hx. destruct (fillable_in _ _ _ Hfl Hx) as (Em & Hle & Hap).
    unfold buf_holds. rewrite Em. intros (Hn & Hd1 & Hlast). split; [done |]. split; [|done]. intros i b Hi. cbn. rewrite Ho; [by apply Hd1 |]. intros y Hy.
    apply lookup_lt_Some in Hi. destruct (Hpos y Hy) as [Hy1 _]. destruct (fillable_in _ _ _ Hfl Hy) as (_ & Hy2 & _).
    destruct (Hap y Hy) as [-> | [? | ?]]; unfold at_ in *; lia. }
  destruct (read_update_spec (walk_fuel w1) w1 p l d C1 (chained_fuel _ _ _ C1)) as (B & Hrun & C2 & _); [by eapply fillable_valid | done | lia | lia | lia |].
  exists (with_bufs B w1). split; [done |]. split; [done |]. split; [lia |]. split; [exact Hrun |]. by split.
Qed.
End Chains.

(** ** Witnesses

    Two bytes of the first buffer leave, the rest after an interruption; the file goes out in
    pieces of two bytes. *)

Definition mem_buf (p l e : ptr) : buffer :=
  {| pos := p; last := l; file_pos := 0; file_last := 0; start := p; end_ := e; temporary := true; memory_ := true; in_file := false |}.
Definition file_buf (p l : Z) : buffer :=
  {| pos := nullptr; last := nullptr; file_pos := p; file_last := l; start := nullptr; end_ := nullptr; temporary := true; memory_ := false; in_file := true |}.

Definition a_writev (k : nat) (l : list Z) : io_result := match k with O => Done (Z.min 2 (Z.of_nat (length l))) | 1%nat => Intr | _ => Done (Z.of_nat (length l)) end.
Definition a_sendfile (k : nat) (l : list Z) : io_result := match k with 3%nat => Intr | _ => Done (Z.min 2 (Z.of_nat (length l))) end.
Definition a_readv (k : nat) (n : Z) : option (list Z) + io_result := match k with O => inr Intr | _ => if 4 <=? n then inl (Some [50; 51; 52; 53]) else inr Again end.

Lemma a_io_ok : io_ok a_writev a_sendfile 2.
Proof.
  split.
  - intros [|[|k]] l n [= <-]; lia.
  - intros [|[|[|[|k]]]] l n [= <-]; lia.
  - intros [|[|k]]; [exists 0%nat | exists 1%nat | exists 0%nat]; (split; [lia | done]).
  - intros [|[|[|[|k]]]]; [exists 0%nat | exists 0%nat | exists 0%nat | exists 1%nat | exists 0%nat]; (split; [lia |]); [done.. |]. intros l. by rewrite Nat.add_0_r.
Qed.

Lemma a_readv_ok : readv_ok a_readv 2.
Proof.
  split.
  - intros [|k] n d; cbn; [done |]. destruct (Z.leb_spec 4 n); [|done]. intros [= <-]. cbn. lia.
  - intros [|k]; [exists 1%nat | exists 0%nat]; (split; [lia |]); intros n; cbn; by destruct (4 <=? n).
Qed.

Definition bytes_at (p : ptr) (l : list Z) : memory := list_to_map (imap (fun i b => (at_ p i, b)) l).

Definition item_mem (n q : ptr) (b : buffer) (d : list Z) : item := {| i_node := n; i_buf := q; i_b := b; i_data := d |}.

Definition old_items : list item := [item_mem 1 11 (mem_buf 100 103 105) [1; 2; 3]; item_mem 2 12 (file_buf 1 4) [8; 7; 6]].
Definition new_items : list item := [item_mem 3 13 (mem_buf 200 202 206) [4; 5]].

Definition a_world : world :=
  {| nodes := {[1%N := {| buf := 11; next := 2 |}; 2%N := {| buf := 12; next := nullptr |}; 3%N := {| buf := 13; next := nullptr |}]};
     bufs := {[11%N := mem_buf 100 103 105; 12%N := file_buf 1 4; 13%N := mem_buf 200 202 206]};
     mem := bytes_at 100 [1; 2; 3; 0; 0] ∪ bytes_at 200 [4; 5; 0; 0; 0; 0]; file := [9; 8; 7; 6; 5]; ready := true; sent := 0; calls := 0; tx := [] |}.

Lemma old_chained : chained a_world 1 old_items.
Proof.
  split; [done | | by apply (bool_decide_unpack _); vm_compute | done]. split; [done |]. split; [reflexivity |]. split; [reflexivity |].
  split; [split; [done |]; split; [by apply load_holds | done] |]. split; [done |]. split; [reflexivity |]. split; [reflexivity |]. by split.
Qed.

Lemma new_chained : chained a_world 3 new_items.
Proof.
  split; [done | | by apply (bool_decide_unpack _); vm_compute | done]. split; [done |]. split; [reflexivity |]. split; [reflexivity |].
  split; [split; [done |]; split; [by apply load_holds | done] | done].
Qed.

Lemma a_joins : joins a_world 1 3 old_items new_items.
Proof. split; [apply old_chained | apply new_chained | by apply (bool_decide_unpack _); vm_compute | by apply (bool_decide_unpack _); vm_compute | done | done]. Qed.

Lemma chain_output_loses_nothing_witness :
  exists rc r w' o, chain_output a_writev a_sendfile 2 true 1 3 0 a_world = Some (rc, r, w') /\ sent_and_left a_world (old_items ++ new_items) rc r w' o /\
    (rc = NGX_AGAIN -> ready w' = false).
Proof. apply (chain_output_loses_nothing a_writev a_sendfile 2 a_world 1 3 old_items new_items 0 a_io_ok a_joins). lia. Defined.

Example a_output : (fun x => (x.1, tx x.2)) <$> chain_output a_writev a_sendfile 2 true 1 3 0 a_world = Some ((NGX_OK, Some nullptr), [1; 2; 3; 8; 7; 6; 4; 5]).
Proof. by vm_compute. Qed.

Lemma chain_output_limited_witness :
  exists rc r w' o, chain_output_with_limit a_writev a_sendfile 2 1 4 a_world = Some (rc, r, w') /\ sent_and_left a_world old_items rc r w' o /\ Z.of_nat (length o) <= 4 /\
    (rc = NGX_AGAIN -> ready w' = false \/ Z.of_nat (length o) = 4).
Proof. apply (chain_output_limited a_writev a_sendfile 2 a_world 1 old_items 4 a_io_ok old_chained); [cbn; auto | lia]. Defined.

Example a_limited : (fun x => (x.1, tx x.2)) <$> chain_output_with_limit a_writev a_sendfile 2 1 4 a_world = Some ((NGX_AGAIN, Some 2%N), [1; 2; 3; 8]).
Proof. by vm_compute. Qed.

Lemma new_fillable : fillable (mem a_world) new_items.
Proof.
  split; [done |]. split; [done |]. split; [|split; [by intros y ?%not_elem_of_nil | done]].
  intros i Hi. change (room (i_b (item_mem 3 13 (mem_buf 200 202 206) [4; 5]))) with 4%nat in Hi. do 4 (destruct i as [|i]; [by eexists |]). lia.
Qed.

Lemma readv_chain_fills_witness :
  exists n w1, sysio_readv_chain a_readv 2 3 a_world = Some (n, w1) /\ nodes w1 = nodes a_world /\ bufs w1 = bufs a_world /\
    (n <= 0 /\ mem w1 = mem a_world \/
     exists c size d w2, a_readv c size = inl (Some d) /\ n = Z.of_nat (length d) /\ (length d <= total new_items)%nat /\ chain_read_update 3 n w1 = Some w2 /\
       chained w2 3 (filled new_items d) /\ (forall a, (forall x, x ∈ new_items -> (a < last (i_b x))%N \/ (end_ (i_b x) <= a)%N) -> mem w2 !! a = mem a_world !! a)).
Proof. apply (readv_chain_fills a_readv 2 a_world 3 new_items a_readv_ok new_chained new_fillable). done. Defined.

Definition trap : world :=
  {| nodes := {[1%N := {| buf := 11; next := 2 |}; 2%N := {| buf := 12; next := 3 |}; 3%N := {| buf := 13; next := nullptr |}]};
     bufs := {[11%N := mem_buf 100 103 105; 12%N := mem_buf 200 200 206; 13%N := file_buf 1 4]};
     mem := bytes_at 100 [1; 2; 3; 0; 0]; file := [9; 8; 7; 6; 5]; ready := true; sent := 0; calls := 2; tx := [] |}.

(** A file behind an empty memory buffer is lost: when what stands in front has been sent
    and only the empty buffer remains, [sysio_writev_chain] packs nothing and answers the empty
    chain, and [chain_output] reports that everything was sent. *)
Example chain_output_loses_file :
  (fun x => (x.1, tx x.2)) <$> chain_output a_writev a_sendfile 2 true 1 nullptr 0 trap = Some ((NGX_OK, Some nullptr), [1; 2; 3]).
Proof. by vm_compute. Qed.

(** The size of [chain_append_withsize] wraps: asked for a byte more than the first buffer
    has, it takes the second, the rest becomes negative as an unsigned number, and the third is
    appended too: twice the bytes asked for, and nothing in the free chain. *)
Example chain_append_withsize_wraps :
  ('(p, w) ← chain_append_all 1 3 a_world; '(dst, free, w) ← chain_append_withsize nullptr p 4 nullptr w; n ← chain_size dst w; Some (free, n)) = Some (nullptr, 8).
Proof. by vm_compute. Qed.
