(* ===== verification/Allocator.v ===== *)
(** * Allocators ([src/core/dfs_mem_allocator.cpp], [dfs_shmem_allocator.cpp],
      [dfs_mempool_allocator.cpp], [dfs_commpool_allocator.cpp], [dfs_commpool.cpp])

    An allocator is a table of functions over private data. The class [Allocator] is that table,
    [AllocatorOk] what its users rely on: the blocks granted and not given back are apart. The
    instances are the shared-memory segment, the memory pool and the bump allocator of a fixed
    area; a function pointer that an allocator leaves null is [None]. *)

From stdpp Require Import sorting strings.
From S2P Require Import Prelude Memory Numeric MemoryPool Shmem ShmemInv ShmemClient.

Definition DFS_MEM_ALLOCATOR_OK : Z := 0.
Definition DFS_MEM_ALLOCATOR_ERROR : Z := -1.

(** The error number is that of [param_data], before and after. *)
(* src/src/core/dfs_mem_allocator.h:9-35 (dfs_mem_allocator_s) *)
Class Allocator (A : Type) := {
  a_alloc : Z -> Z -> A -> option (ptr * Z * A);
  a_split_alloc : option (Z -> Z -> Z -> A -> option (ptr * Z * Z * A));
  a_free : option (ptr -> Z -> A -> option (Z * Z * A))
}.

Definition spread (p : ptr) (n : Z) (q : ptr) (k : Z) : Prop := Z.of_N p + n <= Z.of_N q \/ Z.of_N q + k <= Z.of_N p.

Definition fresh_for (l : gmap ptr Z) (p : ptr) (n : Z) : Prop := p <> nullptr /\ 0 <= n /\ forall q k, l !! q = Some k -> p <> q /\ spread p n q k.

(** [owns a l]: in the state [a] the blocks [l] are granted. *)
Class AllocatorOk (A : Type) `{Allocator A} := {
  owns : A -> gmap ptr Z -> Prop;
  owns_apart : forall a l p n, owns a l -> l !! p = Some n -> fresh_for (delete p l) p n;
  alloc_ok : forall n err a l, owns a l -> 0 < n < 2 ^ 63 ->
    exists p err' a', a_alloc n err a = Some (p, err', a') /\ (p = nullptr /\ owns a' l \/ fresh_for l p n /\ owns a' (<[p := n]> l));
  split_ok : forall f act n err a l, a_split_alloc = Some f -> owns a l -> 0 < n < 2 ^ 63 ->
    exists p act' err' a', f act n err a = Some (p, act', err', a') /\ (p = nullptr /\ owns a' l \/ n <= act' < 2 ^ 64 /\ fresh_for l p act' /\ owns a' (<[p := act']> l));
  free_ok : forall f p n err a l, a_free = Some f -> owns a l -> l !! p = Some n ->
    exists err' a', f p err a = Some (DFS_MEM_ALLOCATOR_OK, err', a') /\ owns a' (delete p l)
}.

(** [calloc] is [alloc] followed by [memory_zero] of the block; the contents of blocks are the
    business of those who hold them. *)
(* src/src/core/dfs_mempool_allocator.cpp:89-102 (dfs_mempool_allocator_calloc) *)
Definition allocator_calloc {A} `{Allocator A} (size err : Z) (a : A) : option (ptr * Z * A) := a_alloc size err a.

Lemma spread_sym p n q k : spread p n q k -> spread q k p n.
Proof. unfold spread. lia. Qed.

(** ** The shared-memory segment *)

(** The private data: a segment, or nothing. *)
Abbreviation shmem_me := (option shmem).

(* src/src/core/dfs_shmem_allocator.cpp:37-61 (dfs_shmem_allocator_init) *)
Definition dfs_shmem_allocator_init (page : Z) (mmap : Z -> option ptr) (size min_size max_size level_type factor : Z) (me : shmem_me) : option (Z * Z * shmem_me) :=
  match me with
  | Some s => Some (DFS_MEM_ALLOCATOR_OK, 0, Some s)
  | None =>
      r ← dfs_shmem_create page mmap size min_size max_size level_type factor;
      match r with inl s => Some (DFS_MEM_ALLOCATOR_OK, errno_code ERR_NONE, Some s) | inr e => Some (DFS_MEM_ALLOCATOR_ERROR, errno_code e, None) end
  end.

(* src/src/core/dfs_shmem_allocator.cpp:63-83 (dfs_shmem_allocator_release) *)
Definition dfs_shmem_allocator_release (munmap : ptr -> Z -> Z) (me : shmem_me) : Z * shmem_me :=
  match me with
  | None => (DFS_MEM_ALLOCATOR_ERROR, None)
  | Some _ => let '(ok, _, me) := dfs_shmem_release munmap me in (if ok : bool then DFS_MEM_ALLOCATOR_OK else DFS_MEM_ALLOCATOR_ERROR, me)
  end.

(* src/src/core/dfs_shmem_allocator.cpp:85-108 (dfs_shmem_allocator_alloc) *)
Definition dfs_shmem_allocator_alloc (size err : Z) (me : shmem_me) : option (ptr * Z * shmem_me) :=
  match me with
  | None => Some (nullptr, err, None)
  | Some s => '(e, p, s) ← dfs_shmem_alloc size s; Some (p, if bool_decide (p = nullptr) then errno_code e else err, Some s)
  end.

(* src/src/core/dfs_shmem_allocator.cpp:130-147 (dfs_shmem_allocator_split_alloc) *)
Definition dfs_shmem_allocator_split_alloc (act req_minsize err : Z) (me : shmem_me) : option (ptr * Z * Z * shmem_me) :=
  match me with
  | None => Some (nullptr, act, err, None)
  | Some s => '(e, p, act, s) ← dfs_shmem_split_alloc act req_minsize s; Some (p, act, errno_code e, Some s)
  end.

(* src/src/core/dfs_shmem_allocator.cpp:149-174 (dfs_shmem_allocator_free) *)
Definition dfs_shmem_allocator_free (p : ptr) (err : Z) (me : shmem_me) : option (Z * Z * shmem_me) :=
  match me with
  | None => Some (DFS_MEM_ALLOCATOR_ERROR, err, None)
  | Some s =>
      if bool_decide (p = nullptr) then Some (DFS_MEM_ALLOCATOR_ERROR, err, me)
      else
        '(e, s) ← dfs_shmem_free p s;
        Some (if bool_decide (e = ERR_NONE) then (DFS_MEM_ALLOCATOR_OK, err, Some s) else (DFS_MEM_ALLOCATOR_ERROR, errno_code e, Some s))
  end.

(* src/src/core/dfs_shmem_allocator.cpp:176-185 (dfs_shmem_allocator_strerror) *)
Definition dfs_shmem_allocator_strerror (err : Z) : option string := dfs_shmem_strerror err.

(* src/src/core/dfs_shmem_allocator.cpp:187-205 (dfs_shmem_allocator_stat) *)
Definition dfs_shmem_allocator_stat (me : shmem_me) : Z * option dfs_shmem_stat :=
  match me with None => (DFS_MEM_ALLOCATOR_ERROR, None) | Some s => (DFS_MEM_ALLOCATOR_OK, Some (dfs_shmem_get_stat s)) end.

(* src/src/core/dfs_shmem_allocator.cpp:207-221 (dfs_get_shmem_allocator) *)
Definition dfs_get_shmem_allocator : Allocator shmem_me :=
  {| a_alloc := dfs_shmem_allocator_alloc; a_split_alloc := Some dfs_shmem_allocator_split_alloc; a_free := Some dfs_shmem_allocator_free |}.
#[export] Existing Instance dfs_get_shmem_allocator.

(* src/src/core/dfs_shmem_allocator.cpp:110-128 (dfs_shmem_allocator_calloc) *)
Definition dfs_shmem_allocator_calloc : Z -> Z -> shmem_me -> option (ptr * Z * shmem_me) := allocator_calloc.

(** ** The bump allocator of a fixed area *)

(* src/src/core/dfs_commpool.h:18-23 (mpool_mgmt_s) *)
Record mpool_mgmt := { start : ptr; bump : ptr; mem_size : Z }.
Definition sizeof_mpool_mgmt : Z := 24.

Definition with_bump (p : ptr) (m : mpool_mgmt) : mpool_mgmt := {| start := start m; bump := p; mem_size := mem_size m |}.

(** A pointer and a number of bytes, in a machine word. *)
Definition offset (p : ptr) (n : Z) : ptr := Z.to_N (u64 (Z.of_N p + n)).

(** [pm + sizeof(mpool_mgmt_t)] counts records, not bytes. *)
(* src/src/core/dfs_commpool.cpp:8-18 (mpool_mgmt_create) *)
Definition mpool_mgmt_create (mem_addr : ptr) (size : Z) : mpool_mgmt :=
  {| start := mem_addr; bump := offset mem_addr (sizeof_mpool_mgmt * sizeof_mpool_mgmt); mem_size := size |}.

(* src/src/core/dfs_commpool.cpp:20-43 (mpool_alloc) *)
Definition mpool_alloc (size : Z) (pm : mpool_mgmt) : ptr * mpool_mgmt :=
  let pm := with_bump (dfs_align_ptr (bump pm) 8) pm in
  let e := offset (start pm) (mem_size pm) in
  if bool_decide (e < bump pm)%N then (nullptr, with_bump e pm)
  else if bool_decide (e < offset (bump pm) size)%N then (nullptr, pm)
  else (bump pm, with_bump (offset (bump pm) size) pm).

(** Without memory at [mem_addr] the call is undefined. *)
(* src/src/core/dfs_commpool_allocator.cpp:6-26 (mpool_mgmt_allocator_init) *)
Definition mpool_mgmt_allocator_init (mem_addr : ptr) (size : Z) (me : option mpool_mgmt) : option (Z * option mpool_mgmt) :=
  if bool_decide (mem_addr = nullptr) then None else Some (DFS_MEM_ALLOCATOR_OK, Some (mpool_mgmt_create mem_addr size)).

(** [destroy_mpool_mgmt] does nothing. *)
(* src/src/core/dfs_commpool_allocator.cpp:28-43 (mpool_mgmt_allocator_release) *)
Definition mpool_mgmt_allocator_release (me : option mpool_mgmt) : Z :=
  match me with None => DFS_MEM_ALLOCATOR_ERROR | Some _ => DFS_MEM_ALLOCATOR_OK end.

(* src/src/core/dfs_commpool_allocator.cpp:46-60 (mpool_mgmt_allocator_alloc) *)
Definition mpool_mgmt_allocator_alloc (size err : Z) (me : option mpool_mgmt) : option (ptr * Z * option mpool_mgmt) :=
  match me with
  | None => Some (nullptr, err, None)
  | Some pm => let '(p, pm) := mpool_alloc size pm in Some (p, err, Some pm)
  end.

(* src/src/core/dfs_commpool_allocator.cpp:82-90 (mpool_mgmt_allocator_free) *)
Definition mpool_mgmt_allocator_free (p : ptr) (err : Z) (me : option mpool_mgmt) : option (Z * Z * option mpool_mgmt) := Some (DFS_MEM_ALLOCATOR_OK, err, me).

(* src/src/core/dfs_commpool_allocator.cpp:105-116 (dfs_get_commpool_allocator) *)
Definition dfs_get_commpool_allocator : Allocator (option mpool_mgmt) :=
  {| a_alloc := mpool_mgmt_allocator_alloc; a_split_alloc := None; a_free := Some mpool_mgmt_allocator_free |}.
#[export] Existing Instance dfs_get_commpool_allocator.

(* src/src/core/dfs_commpool_allocator.cpp:62-80 (mpool_mgmt_allocator_calloc) *)
Definition mpool_mgmt_allocator_calloc : Z -> Z -> option mpool_mgmt -> option (ptr * Z * option mpool_mgmt) := allocator_calloc.

(** ** The memory pool *)

Section Mempool.

Context (malloc : nat -> gmap ptr Z -> Z -> ptr) (posix_memalign : nat -> gmap ptr Z -> Z -> Z -> ptr) (depth : nat).

(** The private data and the heap the pool lies in. *)
Definition pool_me : Type := option ptr * heap.

(* src/src/core/dfs_mempool_allocator.cpp:30-54 (dfs_mempool_allocator_init) *)
Definition dfs_mempool_allocator_init (pool_size max_size : Z) (me : pool_me) : Z * pool_me :=
  match me with
  | (Some p, h) => (DFS_MEM_ALLOCATOR_OK, me)
  | (None, h) =>
      let '(p, h) := pool_create malloc pool_size max_size h in
      if bool_decide (p = nullptr) then (DFS_MEM_ALLOCATOR_ERROR, (None, h)) else (DFS_MEM_ALLOCATOR_OK, (Some p, h))
  end.

(* src/src/core/dfs_mempool_allocator.cpp:56-71 (dfs_mempool_allocator_release) *)
Definition dfs_mempool_allocator_release (me : pool_me) : option (Z * pool_me) :=
  match me with
  | (None, h) => Some (DFS_MEM_ALLOCATOR_ERROR, me)
  | (Some p, h) => h ← pool_destroy p h; Some (DFS_MEM_ALLOCATOR_OK, (None, h))
  end.

(** No error number is written. *)
(* src/src/core/dfs_mempool_allocator.cpp:73-87 (dfs_mempool_allocator_alloc) *)
Definition dfs_mempool_allocator_alloc (size err : Z) (me : pool_me) : option (ptr * Z * pool_me) :=
  match me with
  | (None, h) => Some (nullptr, err, me)
  | (Some p, h) => '(q, h) ← pool_alloc malloc depth p size h; Some (q, err, (Some p, h))
  end.

(* src/src/core/dfs_mempool_allocator.cpp:110-123 (dfs_get_mempool_allocator) *)
Definition dfs_get_mempool_allocator : Allocator pool_me :=
  {| a_alloc := dfs_mempool_allocator_alloc; a_split_alloc := None; a_free := None |}.

(** ** The choice of an allocator *)

Definition DFS_MEM_ALLOCATOR_TYPE_SHMEM : Z := 1.
Definition DFS_MEM_ALLOCATOR_TYPE_MEMPOOL : Z := 2.
Definition DFS_MEM_ALLOCATOR_TYPE_COMMPOOL : Z := 3.

(** A table with its private data. *)
Inductive allocator := Shm (me : shmem_me) | Pool (me : pool_me) | Comm (me : option mpool_mgmt).

(** [block] is what [malloc] answers for the table, [h] the heap. *)
(* src/src/core/dfs_mem_allocator.cpp:5-35 (dfs_mem_allocator_new) *)
Definition dfs_mem_allocator_new (block : ptr) (allocator_type : Z) (h : heap) : option allocator :=
  if bool_decide (block = nullptr) then None
  else if allocator_type =? DFS_MEM_ALLOCATOR_TYPE_SHMEM then Some (Shm None)
  else if allocator_type =? DFS_MEM_ALLOCATOR_TYPE_MEMPOOL then Some (Pool (None, h))
  else None. (* [DFS_MEM_ALLOCATOR_TYPE_COMMPOOL] falls through to the default *)

Inductive init_param := ShmemParam (size min_size max_size level_type factor : Z) | MempoolParam (pool_size max_size : Z) | CommParam (mem_addr : ptr) (mem_size : Z).

(** Parameters of another type than the table's are read as what they are not: undefined. *)
Definition allocator_init (page : Z) (mmap : Z -> option ptr) (p : init_param) (a : allocator) : option (Z * allocator) :=
  match a, p with
  | Shm me, ShmemParam size min_size max_size level_type factor =>
      '(rc, _, me) ← dfs_shmem_allocator_init page mmap size min_size max_size level_type factor me; Some (rc, Shm me)
  | Pool me, MempoolParam pool_size max_size => let '(rc, me) := dfs_mempool_allocator_init pool_size max_size me in Some (rc, Pool me)
  | Comm me, CommParam mem_addr mem_size => '(rc, me) ← mpool_mgmt_allocator_init mem_addr mem_size me; Some (rc, Comm me)
  | _, _ => None
  end.

(** The outer [None] is undefined, the inner one a null pointer. *)
(* src/src/core/dfs_mem_allocator.cpp:37-74 (dfs_mem_allocator_new_init) *)
Definition dfs_mem_allocator_new_init (page : Z) (mmap : Z -> option ptr) (block : ptr) (allocator_type : Z) (p : option init_param) (h : heap)
    : option (option allocator) :=
  if bool_decide (block = nullptr) then Some None
  else
    match (if allocator_type =? DFS_MEM_ALLOCATOR_TYPE_SHMEM then Some (Shm None)
           else if allocator_type =? DFS_MEM_ALLOCATOR_TYPE_MEMPOOL then Some (Pool (None, h))
           else if allocator_type =? DFS_MEM_ALLOCATOR_TYPE_COMMPOOL then Some (Comm None)
           else None), p with
    | None, _ => Some None
    | Some a, None => Some (Some a)
    | Some a, Some p => '(rc, a) ← allocator_init page mmap p a; Some (if rc =? DFS_MEM_ALLOCATOR_ERROR then None else Some a)
    end.

(** The private data is released; the table goes back to [free]. *)
(* src/src/core/dfs_mem_allocator.cpp:76-105 (dfs_mem_allocator_delete) *)
Definition dfs_mem_allocator_delete (munmap : ptr -> Z -> Z) (a : allocator) : option allocator :=
  match a with
  | Shm None | Pool (None, _) | Comm None => Some a
  | Shm me => Some (Shm (dfs_shmem_allocator_release munmap me).2)
  | Pool me => '(_, me) ← dfs_mempool_allocator_release me; Some (Pool me)
  | Comm me => let _ := mpool_mgmt_allocator_release me in Some a
  end.

End Mempool.

(** ** The segment keeps the promise *)

Lemma fresh_lookup l p n q k : fresh_for l p n -> l !! q = Some k -> p <> q /\ spread p n q k.
Proof. intros (_ & _ & H). apply H. Qed.

Lemma regions_keys bl : NoDup (b_at <$> bl) -> NoDup (regions bl).*1.
Proof.
  induction bl as [|b bl IH]; [intros; constructor |]. cbn. intros [Hb Hbl]%NoDup_cons. unfold regions in *. cbn.
  destruct (region_of b) as [r|] eqn:E; [|by apply IH]. cbn. apply NoDup_cons. split; [|by apply IH].
  intros Hin. apply list_elem_of_fmap in Hin as (r' & Er & (c & Hc & E')%in_regions). apply Hb, list_elem_of_fmap. exists c. split; [|done].
  unfold region_of in E, E'. destruct (b_st b); try done. destruct (b_st c); try done. injection E as <-. injection E' as <-. cbn in Er.
  apply (f_equal Z.of_N) in Er. rewrite !bytes_at_Z in Er. apply N2Z.inj. lia.
Qed.

Definition shm_owns (me : shmem_me) (l : gmap ptr Z) : Prop :=
  match me with None => l = ∅ | Some s => exists a e bl, good a e s bl /\ map_to_list l ≡ₚ regions bl end.

Lemma shm_client a e s bl l : good a e s bl -> map_to_list l ≡ₚ regions bl -> client_ok a e {| seg := s; live := map_to_list l |} bl.
Proof. by split. Qed.

Lemma good_area a e s bl : good a e s bl -> 0 <= a /\ e < 2 ^ 64.
Proof. intros G. destruct (good_inv _ _ _ _ G) as (fl & av & V). apply (area_small _ _ s (v_geom _ _ _ _ _ _ V)). by right. Qed.

Lemma shm_apart me l p n : shm_owns me l -> l !! p = Some n -> fresh_for (delete p l) p n.
Proof.
  destruct me as [s|]; cbn; [|intros ->; by rewrite lookup_empty]. intros (a & e & bl & G & Hl) Hp. pose proof (shm_client _ _ _ _ _ G Hl) as Hc.
  apply elem_of_map_to_list in Hp as Hin. destruct (client_region _ _ _ _ _ Hc Hin) as (H1 & H2 & _). cbn in H1, H2. destruct (good_area _ _ _ _ G) as [Ha _].
  split; [unfold STORAGE_SIZE, nullptr in *; lia |]. split; [done |]. intros q k Hq. destruct (decide (p = q)) as [-> | Hne]; [by rewrite lookup_delete_eq in Hq |].
  rewrite lookup_delete_ne in Hq by done. split; [done |]. apply elem_of_map_to_list in Hq. apply (client_apart _ _ _ _ _ _ Hc Hin Hq). congruence.
Qed.

Lemma shm_grant a e s bl l p n : good a e s bl -> regions bl ≡ₚ (p, n) :: map_to_list l -> fresh_for l p n /\ shm_owns (Some s) (<[p := n]> l).
Proof.
  intros G Hr. destruct (good_inv _ _ _ _ G) as (fl & av & V). pose proof (regions_keys bl (tiles_nodup _ _ _ (v_tiles _ _ _ _ _ _ V))) as Hnd.
  rewrite Hr in Hnd. cbn in Hnd. apply NoDup_cons in Hnd as [Hni _].
  assert (l !! p = None) as Hp.
  { destruct (l !! p) as [k|] eqn:E; [|done]. exfalso. apply Hni, list_elem_of_fmap. exists (p, k). split; [done |]. by apply elem_of_map_to_list. }
  assert (shm_owns (Some s) (<[p := n]> l)) as Ho by (exists a, e, bl; split; [done |]; rewrite map_to_list_insert by done; by rewrite Hr).
  split; [|done]. rewrite <- (delete_insert_id l p n Hp). apply (shm_apart _ _ _ _ Ho). apply lookup_insert_eq.
Qed.

Lemma shm_alloc n err me l : shm_owns me l -> 0 < n < 2 ^ 63 ->
  exists p err' me', dfs_shmem_allocator_alloc n err me = Some (p, err', me') /\ (p = nullptr /\ shm_owns me' l \/ fresh_for l p n /\ shm_owns me' (<[p := n]> l)).
Proof.
  destruct me as [s|]; [|intros Hl _; exists nullptr, err, None; split; [done | by left]]. intros (a & e & bl & G & Hl) Hn. cbn [dfs_shmem_allocator_alloc].
  destruct (alloc_spec a e s bl n G ltac:(lia)) as [(l1 & b & l2 & s' & E & Hb & Hsz & -> & Hgeo & G') | (er & -> & Her & Hno)]; cbn [mbind option_bind].
  - do 3 eexists. split; [reflexivity |]. right. apply (shm_grant _ _ _ _ _ _ _ G').
    rewrite Hl, E, !regions_app, regions_carve, regions_free by (unfold is_free; by rewrite Hb). cbn. by rewrite Permutation_middle.
  - do 3 eexists. split; [reflexivity |]. left. split; [done |]. exists a, e, bl. split; [|done]. destruct G as [(fl & av & V) Hst Hset Hco].
    split; [exists fl, av; by apply inv_with_stat | destruct Hst; by split | done | done].
Qed.

Lemma shm_split act n err me l : shm_owns me l -> 0 < n < 2 ^ 63 ->
  exists p act' err' me', dfs_shmem_allocator_split_alloc act n err me = Some (p, act', err', me') /\
    (p = nullptr /\ shm_owns me' l \/ n <= act' < 2 ^ 64 /\ fresh_for l p act' /\ shm_owns me' (<[p := act']> l)).
Proof.
  destruct me as [s|]; [|intros Hl _; exists nullptr, act, err, None; split; [done | by left]]. intros (a & e & bl & G & Hl) Hn. cbn [dfs_shmem_allocator_split_alloc].
  destruct (split_alloc_spec a e s bl act n G) as [(l1 & b & l2 & s' & E & Hb & _ & Hsz & -> & Hgeo & G') | (er & s' & -> & Her & Hgeo & G' & Hno)]; cbn [mbind option_bind].
  - do 4 eexists. split; [reflexivity |]. right. split.
    + split; [done |]. destruct (good_inv _ _ _ _ G) as (fl & av & V). destruct (good_area _ _ _ _ G). assert (b ∈ bl) as Hin by (rewrite E; set_solver).
      pose proof (tiles_in _ _ _ _ (v_tiles _ _ _ _ _ _ V) Hin). unfold STORAGE_SIZE in *. lia.
    + apply (shm_grant _ _ _ _ _ _ _ G'). rewrite Hl, E, !regions_app, (regions_free b) by (unfold is_free; by rewrite Hb).
      by rewrite Permutation_middle.
  - do 4 eexists. split; [reflexivity |]. left. split; [done |]. by exists a, e, bl.
Qed.

Lemma shm_free p n err me l : shm_owns me l -> l !! p = Some n ->
  exists err' me', dfs_shmem_allocator_free p err me = Some (DFS_MEM_ALLOCATOR_OK, err', me') /\ shm_owns me' (delete p l).
Proof.
  intros Ho Hp. pose proof (shm_apart _ _ _ _ Ho Hp) as (Hnull & _). destruct me as [s|]; [|cbn in Ho; subst l; by rewrite lookup_empty in Hp].
  destruct Ho as (a & e & bl & G & Hl). cbn [dfs_shmem_allocator_free]. rewrite bool_decide_false by done.
  assert ((p, n) ∈ regions bl) as Hin by (rewrite <- Hl; by apply elem_of_map_to_list). apply in_regions in Hin as (b & Hb & E). unfold region_of in E.
  destruct (b_st b) as [act | |] eqn:Est; try done. injection E as <- <-. apply list_elem_of_split in Hb as (l1 & l2 & ->).
  destruct (shmem_free_spec a e s l1 b l2 act G Est) as (s' & Hs' & _ & G'). change (addr (b_at b) STORAGE_SIZE) with (bytes_at b) in Hs'. rewrite Hs'. cbn [mbind option_bind]. rewrite bool_decide_true by done.
  do 2 eexists. split; [reflexivity |]. exists a, e, (release l1 b l2). split; [done |].
  rewrite regions_release. apply (Permutation_cons_inv (a := (bytes_at b, act))). pose proof (map_to_list_delete l _ _ Hp) as E. rewrite E, Hl, regions_app.
  unfold regions at 2, region_of at 1. cbn. rewrite Est. by rewrite Permutation_middle.
Qed.

#[export, refine] Instance shmem_allocator_ok : AllocatorOk shmem_me := {| owns := shm_owns |}.
Proof.
  - exact shm_apart.
  - intros n err a l. apply shm_alloc.
  - intros f act n err a l [= <-]. apply shm_split.
  - intros f p n err a l [= <-]. apply shm_free.
Defined.

(** A created segment owes nothing. *)
Lemma shmem_created page mmap size min max level factor s :
  create_ok page mmap size min max factor -> dfs_shmem_create page mmap size min max level factor = Some (inl s) -> owns (A := shmem_me) (Some s) ∅.
Proof.
  intros Hok Hc. destruct (opened_ok _ _ _ _ _ _ _ _ Hok Hc) as (a & e & bl & H1 & H2 & H3 & H4 & Hk). destruct Hk as [G Hl]. change (shm_owns (Some s) ∅). exists a, e, bl. split; [exact G |].
  rewrite map_to_list_empty. exact Hl.
Qed.

(** ** The bump allocator keeps the promise *)

(** The area is inside the address space, and what lies behind [bump] was never granted. *)
Record comm_ok (m : mpool_mgmt) (l : gmap ptr Z) : Prop := {
  cm_start : 0 < Z.of_N (start m) /\ 0 <= mem_size m /\ Z.of_N (start m) + mem_size m < 2 ^ 63;
  cm_bump : Z.of_N (start m) <= Z.of_N (bump m) < 2 ^ 63;
  cm_block : forall p n, l !! p = Some n -> 0 < n /\ p <> nullptr /\ Z.of_N p + n <= Z.of_N (bump m) /\ Z.of_N p + n <= Z.of_N (start m) + mem_size m;
  cm_apart : forall p n q k, l !! p = Some n -> l !! q = Some k -> p <> q -> spread p n q k
}.

Definition comm_owns (me : option mpool_mgmt) (l : gmap ptr Z) : Prop := match me with None => l = ∅ | Some m => comm_ok m l end.

Lemma offset_small p n : 0 <= Z.of_N p + n < 2 ^ 64 -> Z.of_N (offset p n) = Z.of_N p + n.
Proof. intros H. unfold offset. rewrite u64_small by (unfold is_u64; lia). lia. Qed.

Lemma comm_alloc n err me l : comm_owns me l -> 0 < n < 2 ^ 63 ->
  exists p err' me', mpool_mgmt_allocator_alloc n err me = Some (p, err', me') /\ (p = nullptr /\ comm_owns me' l \/ fresh_for l p n /\ comm_owns me' (<[p := n]> l)).
Proof.
  destruct me as [m|]; [|intros Hl _; exists nullptr, err, None; split; [done | by left]]. intros [H1 H2 H3 H4] Hn. cbn [mpool_mgmt_allocator_alloc]. unfold mpool_alloc.
  cbn [start bump mem_size with_bump]. destruct (align_spec (bump m)) as (Hal & _); [lia |]. change DFS_ALIGNMENT with 8 in Hal. set (b := dfs_align_ptr (bump m) 8) in *.
  pose proof (offset_small (start m) (mem_size m) ltac:(lia)) as He. set (e := offset (start m) (mem_size m)) in *.
  case_bool_decide as Hend.
  - do 3 eexists. split; [reflexivity |]. left. split; [done |]. split; [done | cbn; lia | | done]. intros p k Hp. destruct (H3 p k Hp) as (? & ? & ? & ?). split; [done |]. split; [done |]. cbn. lia.
  - pose proof (offset_small b n ltac:(lia)) as Hb. case_bool_decide as Hroom.
    + do 3 eexists. split; [reflexivity |]. left. split; [done |]. split; [done | cbn; lia | | done]. intros p k Hp. destruct (H3 p k Hp) as (? & ? & ? & ?). split; [done |]. split; [done |]. cbn. lia.
    + assert (forall q k, l !! q = Some k -> b <> q /\ spread b n q k) as Hfresh.
      { intros q k Hq. destruct (H3 q k Hq) as (? & ? & ? & ?). unfold spread. split; [intros <-; lia | lia]. }
      do 3 eexists. split; [reflexivity |]. right. split; [split; [unfold nullptr; lia | split; [lia | exact Hfresh]] |]. split; cbn [start bump mem_size with_bump].
      * done.
      * lia.
      * intros p k [[<- <-] | [_ Hp]]%lookup_insert_Some; [unfold nullptr; lia |]. destruct (H3 p k Hp) as (? & ? & ? & ?). lia.
      * intros p k q j [[<- <-] | [Hne Hp]]%lookup_insert_Some [[<- <-] | [Hne' Hq]]%lookup_insert_Some Hpq; [done | by apply Hfresh | | by eapply H4].
        apply spread_sym. by apply Hfresh.
Qed.

#[export, refine] Instance comm_allocator_ok : AllocatorOk (option mpool_mgmt) := {| owns := comm_owns |}.
Proof.
  - intros [m|] l p n; cbn; [|intros ->; by rewrite lookup_empty]. intros [H1 H2 H3 H4] Hp. destruct (H3 p n Hp) as (? & ? & _). split; [done |]. split; [lia |].
    intros q k [Hne Hq]%lookup_delete_Some. split; [done |]. by eapply H4.
  - intros n err a l. apply comm_alloc.
  - done.
  - intros f p n err [m|] l [= <-]; cbn; [|intros ->; by rewrite lookup_empty]. intros [H1 H2 H3 H4] Hp. exists err, (Some m). split; [done |]. split; [done | done | |].
    + intros q k [_ Hq]%lookup_delete_Some. by apply H3.
    + intros q k r j [_ Hq]%lookup_delete_Some [_ Hr]%lookup_delete_Some. by apply H4.
Defined.

(** An area from which nothing was granted. *)
Lemma comm_created mem_addr size : 0 < Z.of_N mem_addr -> 0 <= size -> Z.of_N mem_addr + size < 2 ^ 63 - 576 ->
  owns (A := option mpool_mgmt) (Some (mpool_mgmt_create mem_addr size)) ∅.
Proof.
  intros H1 H2 H3. change (comm_ok (mpool_mgmt_create mem_addr size) ∅). pose proof (offset_small mem_addr (sizeof_mpool_mgmt * sizeof_mpool_mgmt)) as E.
  unfold sizeof_mpool_mgmt in *. split; cbn [start bump mem_size mpool_mgmt_create]; [lia | unfold sizeof_mpool_mgmt; rewrite E; lia | done | done].
Qed.

(** ** The memory pool keeps the promise *)

Section MempoolOk.

Context (malloc : nat -> gmap ptr Z -> Z -> ptr) (posix_memalign : nat -> gmap ptr Z -> Z -> Z -> ptr) (depth : nat).
Context (Hmalloc : malloc_ok malloc) (Hmemalign : memalign_ok posix_memalign).

Definition pool_owns (me : pool_me) (l : gmap ptr Z) : Prop :=
  match me with
  | (None, _) => l = ∅
  | (Some p, h) => exists others ps mx rs, MemoryPool.good others ps mx p (h, rs) /\ map_to_list l ≡ₚ map span rs /\ (forall q n, l !! q = Some n -> 0 < n /\ q <> nullptr)
  end.

Lemma pool_owns_apart me l p n : pool_owns me l -> l !! p = Some n -> fresh_for (delete p l) p n.
Proof.
  destruct me as [[pool|] h]; cbn; [|intros ->; by rewrite lookup_empty]. intros (others & ps & mx & rs & G & Hl & Hpos) Hp. destruct (Hpos _ _ Hp) as [Hn Hnull].
  split; [done |]. split; [lia |]. intros q k [Hne Hq]%lookup_delete_Some. split; [done |]. pose proof (MemoryPool.good_separated malloc posix_memalign _ _ _ _ _ G) as Hs. cbn in Hs. rewrite <- Hl in Hs.
  apply elem_of_map_to_list, list_elem_of_lookup in Hp as [i Hi]. apply elem_of_map_to_list, list_elem_of_lookup in Hq as [j Hj].
  assert (i <> j) as Hij by (intros ->; congruence). exact (separated_lookup _ _ _ _ _ Hs Hij Hi Hj).
Qed.

Lemma pool_alloc_owns n err me l : pool_owns me l -> 0 < n < 2 ^ 63 ->
  exists p err' me', dfs_mempool_allocator_alloc malloc (S (S depth)) n err me = Some (p, err', me') /\
    (p = nullptr /\ pool_owns me' l \/ fresh_for l p n /\ pool_owns me' (<[p := n]> l)).
Proof using All.
  destruct me as [[pool|] h]; [|intros Hl _; exists nullptr, err, (None, h); split; [done | by left]]. intros (others & ps & mx & rs & G & Hl & Hpos) Hn.
  cbn [dfs_mempool_allocator_alloc]. destruct (MemoryPool.alloc_good _ _ Hmalloc Hmemalign _ _ _ _ _ _ n depth G ltac:(lia)) as (p & h' & -> & G'). cbn [mbind option_bind].
  exists p, err, (Some pool, h'). split; [done |]. unfold gain in G'. case_bool_decide as Hp.
  - left. split; [done |]. by exists others, ps, mx, rs.
  - right. assert (forall q k, l !! q = Some k -> p <> q /\ spread p n q k) as Hfresh.
    { intros q k Hq. destruct (Hpos q k Hq) as [Hk _]. apply elem_of_map_to_list in Hq. rewrite Hl in Hq. apply list_elem_of_lookup in Hq as [i Hi].
      pose proof (MemoryPool.good_separated malloc posix_memalign _ _ _ _ _ G') as Hs. cbn in Hs. rewrite map_app in Hs. pose proof (lookup_lt_Some _ _ _ Hi) as Hlt.
      assert (aparts (p, n) (q, k)) as Hap.
      { apply (separated_lookup _ (length (map span rs)) i _ _ Hs); [lia | rewrite lookup_app_r, Nat.sub_diag by lia; done | by rewrite lookup_app_l]. }
      unfold aparts, MemoryPool.apart in Hap. cbn in Hap. split; [intros <-; lia | exact Hap]. }
    split; [split; [done |]; split; [lia | exact Hfresh] |]. exists others, ps, mx, (rs ++ [{| r_at := p; r_size := n; r_align := 8; r_holds := None |}]). split; [exact G' |]. split.
    + rewrite map_to_list_insert, map_app, Hl; [by rewrite Permutation_app_comm |]. destruct (l !! p) as [k|] eqn:E; [|done]. by destruct (Hfresh p k E).
    + intros q k [[<- <-] | [_ Hq]]%lookup_insert_Some; [by split; [lia |] | by apply Hpos].
Qed.

Definition mempool_allocator : Allocator pool_me := dfs_get_mempool_allocator malloc (S (S depth)).

Definition mempool_allocator_ok : @AllocatorOk pool_me mempool_allocator.
Proof using All.
  refine {| owns := pool_owns : _ |}.
  - exact pool_owns_apart.
  - exact pool_alloc_owns.
  - done.
  - done.
Defined.

End MempoolOk.
