(* ===== verification/Slabs.v ===== *)
(** * The slab allocator ([src/core/dfs_slabs.cpp])

    Chunks of a few sizes, one free list per size, over an allocator. Each chunk is a block of
    the allocator with a header in front of the bytes of the client. The allocator is any
    instance of [Allocator]; the theorems rely on [AllocatorOk] only. *)

From stdpp Require Import strings.
From S2P Require Import Prelude Numeric Shmem ShmemClient Allocator.

(** ** Data *)

(* src/src/core/dfs_slabs.h:22-42 (dfs_slab_errno) *)
Inductive slab_errno :=
| ERR_NONE | CREATE_PARAM | CREATE_POWER_FACTOR | CREATE_LINER_FACTOR | CREATE_UPTYPE | RELEASE_PARAM | ALLOC_PARAM
| ALLOC_INVALID_ID | ALLOC_FAILED | SPLIT_ALLOC_PARAM | SPLIT_ALLOC_NOT_SUPPORTED | SPLIT_ALLOC_CHUNK_SIZE_TOO_LARGE
| FREE_PARAM | FREE_NOT_SUPPORTED | FREE_CHUNK_ID | ALLOCATOR_ERROR.

#[export] Instance slab_errno_eq_dec : EqDecision slab_errno.
Proof. solve_decision. Defined.

(* src/src/core/dfs_slabs.h:88-92 (dfs_slab_errno_s) *)
Record dfs_slab_errno := { errno : slab_errno; allocator_errno : Z }.

(* src/src/core/dfs_slabs.cpp:4-6 (DFS_SLAB_ERRNO_CLEAN) *)
Definition DFS_SLAB_ERRNO_CLEAN : dfs_slab_errno := {| errno := ERR_NONE; allocator_errno := 0 |}.
Definition with_errno (e : slab_errno) (r : dfs_slab_errno) : dfs_slab_errno := {| errno := e; allocator_errno := allocator_errno r |}.

Definition INVALID_ID : Z := -1.
Definition NOSPACE : Z := -2.
Definition SPLIT_ID : Z := -5.
Definition SLAB_FALSE : Z := 0.
Definition SLAB_TRUE : Z := 1.
Definition SLAB_ERROR : Z := -1.
Definition SLAB_OK : Z := 0.
Definition RECOVER_FACTOR : Z := 2.
Definition ALLOC_TYPE_REQ : Z := 0.
Definition ALLOC_TYPE_ACT : Z := 1.
Definition UPTYPE_POWER : Z := 1.
Definition UPTYPE_LINEAR : Z := 2.
Definition POWER_FACTOR : Z := 2.
Definition LINEAR_FACTOR : Z := 1024.

(** The sizes of the records in bytes. *)
Definition CHUNK : Z := 32.
Definition SLABCLASS : Z := 16.
Definition MANAGER : Z := 128.

(* src/src/core/dfs_slabs.h:74-80 (chunk_link) *)
Record chunk_link := { c_size : Z; req_size : Z; id : Z; next : ptr }.

(* src/src/core/dfs_slabs.h:82-86 (slabclass_s) *)
Record slabclass_s := { size : Z; free_list : ptr }.

(* src/src/core/dfs_slabs.h:94-106 (dfs_slab_stat_s) *)
Record slab_stat := {
  used_size : Z; reqs_size : Z; free_size : Z; chunk_count : Z; chunk_size : Z; system_size : Z; failed : Z; recover : Z; recover_failed : Z;
  split_failed : Z
}.

(** [self] and [table] are the addresses of the manager and of its classes. *)
(* src/src/core/dfs_slabs.h:109-118 (dfs_slab_manager_s) *)
Record slab_manager := { self : ptr; table : ptr; uptype : Z; free_len : Z; factor : Z; min_size : Z; stat : slab_stat; slabclass : list slabclass_s }.

(** The changes of the counters wrap around. *)
Definition add_stat (used reqs free count : Z) (s : slab_stat) : slab_stat :=
  {| used_size := u64 (used_size s + used); reqs_size := u64 (reqs_size s + reqs); free_size := u64 (free_size s + free);
     chunk_count := u64 (chunk_count s + count); chunk_size := chunk_size s; system_size := system_size s; failed := failed s;
     recover := recover s; recover_failed := recover_failed s; split_failed := split_failed s |}.
Definition count_stat (f r rf sf : Z) (s : slab_stat) : slab_stat :=
  {| used_size := used_size s; reqs_size := reqs_size s; free_size := free_size s; chunk_count := chunk_count s; chunk_size := chunk_size s;
     system_size := system_size s; failed := u64 (failed s + f); recover := u64 (recover s + r); recover_failed := u64 (recover_failed s + rf);
     split_failed := u64 (split_failed s + sf) |}.

Definition with_stat (s : slab_stat) (m : slab_manager) : slab_manager :=
  {| self := self m; table := table m; uptype := uptype m; free_len := free_len m; factor := factor m; min_size := min_size m; stat := s; slabclass := slabclass m |}.
Definition with_classes (c : list slabclass_s) (m : slab_manager) : slab_manager :=
  {| self := self m; table := table m; uptype := uptype m; free_len := free_len m; factor := factor m; min_size := min_size m; stat := stat m; slabclass := c |}.

(** Access to the array of classes outside it is undefined. *)
Definition class_at (m : slab_manager) (i : Z) : option slabclass_s := if i <? 0 then None else slabclass m !! Z.to_nat i.
Definition set_free_list (i : Z) (p : ptr) (m : slab_manager) : option slab_manager :=
  c ← class_at m i; Some (with_classes (<[Z.to_nat i := {| size := size c; free_list := p |}]> (slabclass m)) m).

(** ** The class of a size *)

Fixpoint search_class (fuel : nat) (m : slab_manager) (low high all_size : Z) : option Z :=
  match fuel with
  | O => None
  | S fuel =>
      if high <? low then Some INVALID_ID
      else
        let mid := Z.shiftr (low + high) 1 in
        c ← class_at m mid;
        if all_size <=? size c then
          d ← class_at m (mid - 1);
          if size d <? all_size then Some mid
          else if all_size =? size d then Some (mid - 1)
          else search_class fuel m low (mid - 1) all_size
        else
          d ← class_at m (mid + 1);
          if all_size <=? size d then Some (mid + 1) else search_class fuel m (mid + 1) high all_size
  end.

(** Each turn of the search halves the range. *)
(* src/src/core/dfs_slabs.cpp:30-106 (dfs_slabs_clsid) *)
Definition dfs_slabs_clsid (m : slab_manager) (sz up : Z) : option Z :=
  if sz =? 0 then Some INVALID_ID
  else
    let max_id := free_len m - 1 in
    let all_size := DFS_MATH_ALIGNMENT (u64 (sz + CHUNK)) DFS_MATH_ALIGN_SIZE in
    last ← class_at m max_id;
    first ← class_at m 0;
    if size last <? all_size then Some INVALID_ID
    else if all_size <=? size first then Some 0
    else if all_size =? size last then Some max_id
    else if uptype m =? UPTYPE_LINEAR then
      if factor m =? 0 then None
      else
        let d := u64 (sz - min_size m) in
        let id := s64 (d / factor m) in
        Some (if (up =? SLAB_TRUE) && negb (d mod factor m =? 0) then id + 1 else id)
    else search_class (Z.to_nat (free_len m)) m 1 (max_id - 1) all_size.

Section Slabs.

Context {A : Type} {table_of : Allocator A}.

(** The manager, the headers of the chunks, and the allocator. *)
Record slabs := { mgr : slab_manager; chunks : gmap ptr chunk_link; alloc : A }.

Definition with_mgr (m : slab_manager) (s : slabs) : slabs := {| mgr := m; chunks := chunks s; alloc := alloc s |}.
Definition with_chunk (p : ptr) (c : chunk_link) (s : slabs) : slabs := {| mgr := mgr s; chunks := <[p := c]> (chunks s); alloc := alloc s |}.
Definition with_alloc (a : A) (s : slabs) : slabs := {| mgr := mgr s; chunks := chunks s; alloc := a |}.
Definition upd_stat (f : slab_stat -> slab_stat) (s : slabs) : slabs := with_mgr (with_stat (f (stat (mgr s))) (mgr s)) s.

(** ** Creation *)

Fixpoint class_sizes (n : nat) (uptype factor sz : Z) : list slabclass_s :=
  match n with
  | O => []
  | S n =>
      {| size := DFS_MATH_ALIGNMENT (u64 (sz + CHUNK)) DFS_MATH_ALIGN_SIZE; free_list := nullptr |}
      :: class_sizes n uptype factor (u64 (if uptype =? UPTYPE_POWER then sz * factor else sz + factor))
  end.

Definition no_stat (system : Z) : slab_stat :=
  {| used_size := 0; reqs_size := 0; free_size := 0; chunk_count := 0; chunk_size := 0; system_size := system; failed := 0; recover := 0;
     recover_failed := 0; split_failed := 0 |}.

(** The number of classes but one. *)
Definition levels (uptype factor item_size_min item_size_max : Z) : option (Z + slab_errno) :=
  if uptype =? UPTYPE_POWER then
    if negb (factor =? POWER_FACTOR) then Some (inr CREATE_POWER_FACTOR)
    else
      let power := item_size_max / item_size_min in
      let power := if item_size_max mod item_size_min =? 0 then power else power + 1 in
      n ← dfs_math_dfslog2 power 1; Some (inl n)
  else if uptype =? UPTYPE_LINEAR then
    if negb (factor =? LINEAR_FACTOR) then Some (inr CREATE_LINER_FACTOR)
    else
      let d := u64 (item_size_max - item_size_min) in
      Some (inl (if d mod factor =? 0 then s64 (d / factor) else s64 (d / factor) + 1))
  else Some (inr CREATE_UPTYPE).

(** The manager and its table are blocks of zeros from [calloc]; if the table is refused the
    manager is not given back. *)
(* src/src/core/dfs_slabs.cpp:108-213 (dfs_slabs_create) *)
Definition dfs_slabs_create (a : A) (uptype factor item_size_min item_size_max : Z) : option (dfs_slab_errno * (slabs + A)) :=
  let err := DFS_SLAB_ERRNO_CLEAN in
  if (item_size_min =? 0) || (item_size_max =? 0) || (item_size_max / item_size_min <? 2) then Some (with_errno CREATE_PARAM err, inr a)
  else
    r ← levels uptype factor item_size_min item_size_max;
    match r with
    | inr e => Some (with_errno e err, inr a)
    | inl n =>
        let free_len := n + 1 in
        '(p, ae, a) ← allocator_calloc MANAGER (allocator_errno err) a;
        let err := {| errno := ERR_NONE; allocator_errno := ae |} in
        if bool_decide (p = nullptr) then Some (with_errno ALLOCATOR_ERROR err, inr a)
        else
          '(q, ae, a) ← allocator_calloc (u64 (SLABCLASS * free_len)) ae a;
          let err := {| errno := ERR_NONE; allocator_errno := ae |} in
          if bool_decide (q = nullptr) then Some (with_errno ALLOCATOR_ERROR err, inr a)
          else
            let m := {| self := p; table := q; uptype := uptype; free_len := free_len; factor := factor; min_size := item_size_min;
                        stat := no_stat (u64 (MANAGER + SLABCLASS * free_len)); slabclass := class_sizes (Z.to_nat free_len) uptype factor item_size_min |} in
            Some (err, inl {| mgr := m; chunks := ∅; alloc := a |})
    end.

(** A call of the allocator's [free]; calling a null pointer is undefined, the header is gone
    with the block. *)
Definition give_back (p : ptr) (ae : Z) (s : slabs) : option (Z * Z * slabs) :=
  f ← a_free; '(rc, ae, a) ← f p ae (alloc s); Some (rc, ae, {| mgr := mgr s; chunks := delete p (chunks s); alloc := a |}).

(** ** Release *)

(** The lists of the classes from [i] on are emptied. *)
Fixpoint release_class (fuel : nat) (i : Z) (err : dfs_slab_errno) (s : slabs) : option (dfs_slab_errno * slabs) :=
  match fuel with
  | O => None
  | S fuel =>
      c ← class_at (mgr s) i;
      if bool_decide (free_list c = nullptr) then Some (err, s)
      else
        k ← chunks s !! free_list c;
        '(_, ae, s) ← give_back (free_list c) (allocator_errno err) s;
        m ← set_free_list i (next k) (mgr s);
        release_class fuel i {| errno := ALLOCATOR_ERROR; allocator_errno := ae |} (with_mgr m s)
  end.

Fixpoint release_classes (n : nat) (i : Z) (err : dfs_slab_errno) (s : slabs) : option (dfs_slab_errno * slabs) :=
  match n with
  | O => Some (err, s)
  | S n => '(err, s) ← release_class (S (base.size (chunks s))) i err s; release_classes n (i + 1) err s
  end.

(** [err_no] is a null pointer if [None]; [DFS_SLAB_ERRNO_CLEAN] of a null pointer is undefined. *)
(* src/src/core/dfs_slabs.cpp:215-261 (dfs_slabs_release) *)
Definition dfs_slabs_release (err_no : option dfs_slab_errno) (s : option slabs) : option (Z * option dfs_slab_errno * option slabs) :=
  match err_no with
  | Some err => Some (SLAB_ERROR, Some err, s)
  | None =>
      err ← err_no;
      match s with
      | None => Some (SLAB_ERROR, Some (with_errno RELEASE_PARAM err), None)
      | Some s =>
          '(err, s) ← release_classes (Z.to_nat (free_len (mgr s))) 0 err s;
          '(rc, ae, s) ← give_back (self (mgr s)) (allocator_errno err) s;
          let err := {| errno := errno err; allocator_errno := ae |} in
          if rc =? DFS_MEM_ALLOCATOR_ERROR then Some (SLAB_ERROR, Some (with_errno ALLOCATOR_ERROR err), Some s)
          else Some (SLAB_OK, Some err, None)
      end
  end.

(** ** Allocation *)

(** The first free chunk of the class [i] goes back to the allocator. *)
Definition drop_chunk (i : Z) (c : slabclass_s) (s : slabs) : option slabs :=
  k ← chunks s !! free_list c;
  '(_, _, s) ← give_back (free_list c) (2 ^ 32 - 1) s;
  m ← set_free_list i (next k) (mgr s);
  Some (upd_stat (add_stat 0 0 (- u64 (size c - CHUNK)) (-1)) (with_mgr m s)).

Fixpoint recover_above (n : nat) (i : Z) (s : slabs) : option (bool * slabs) :=
  match n with
  | O => Some (false, s)
  | S n =>
      c ← class_at (mgr s) i;
      if bool_decide (free_list c = nullptr) then recover_above n (i + 1) s
      else s ← drop_chunk i c s; Some (true, s)
  end.

(** Chunks of the class [i] go until [want] bytes are free or none is left. *)
Fixpoint recover_class (fuel : nat) (i want got : Z) (s : slabs) : option (bool * Z * slabs) :=
  match fuel with
  | O => None
  | S fuel =>
      c ← class_at (mgr s) i;
      if bool_decide (free_list c = nullptr) then Some (false, got, s)
      else
        s ← drop_chunk i c s;
        let got := u64 (got + size c) in
        if want <=? got then Some (true, got, s) else recover_class fuel i want got s
  end.

(** The classes below [n], from the largest; the first result says whether enough is free, the
    second whether there was a free chunk. *)
Fixpoint recover_below (n : nat) (want got : Z) (space : bool) (s : slabs) : option (bool * bool * slabs) :=
  match n with
  | O => Some (false, space, s)
  | S n =>
      c ← class_at (mgr s) (Z.of_nat n);
      let space := space || negb (bool_decide (free_list c = nullptr)) in
      '(ok, got, s) ← recover_class (S (base.size (chunks s))) (Z.of_nat n) want got s;
      if ok : bool then Some (true, space, s) else recover_below n want got space s
  end.

(* src/src/core/dfs_slabs.cpp:264-329 (dfs_slabs_recover) *)
Definition dfs_slabs_recover (chunk_size id : Z) (s : slabs) : option (Z * slabs) :=
  let s := upd_stat (count_stat 0 1 0 0) s in
  '(ok, s) ← recover_above (Z.to_nat (free_len (mgr s) - (id + 1))) (id + 1) s;
  if ok : bool then Some (SLAB_TRUE, s)
  else
    '(ok, space, s) ← recover_below (Z.to_nat id) (u64 (chunk_size * RECOVER_FACTOR)) 0 false s;
    if ok : bool then Some (SLAB_TRUE, s)
    else
      let s := upd_stat (count_stat 0 0 1 0) s in
      Some (if space : bool then SLAB_FALSE else NOSPACE, s).

(** A call of the allocator's [alloc], and the error it leaves. *)
Definition ask (sz : Z) (err : dfs_slab_errno) (s : slabs) : option (ptr * dfs_slab_errno * slabs) :=
  '(p, ae, a) ← a_alloc sz (allocator_errno err) (alloc s);
  let err := {| errno := errno err; allocator_errno := ae |} in
  Some (p, if bool_decide (p = nullptr) then with_errno ALLOCATOR_ERROR err else err, with_alloc a s).

(** Chunks are given back until the allocator has a block; the second result is the last answer
    of [dfs_slabs_recover]. *)
Fixpoint alloc_loop (fuel : nat) (p : ptr) (ret : Z) (sz id : Z) (err : dfs_slab_errno) (s : slabs) : option (ptr * Z * dfs_slab_errno * slabs) :=
  match fuel with
  | O => None
  | S fuel =>
      if negb (bool_decide (p = nullptr)) then Some (p, ret, err, s)
      else
        '(ret, s) ← dfs_slabs_recover sz id s;
        if ret =? NOSPACE then Some (p, ret, err, s)
        else '(p, err, s) ← ask sz err s; alloc_loop fuel p ret sz id err s
  end.

(** The memory at a new address holds no header yet. *)
Definition blank : chunk_link := {| c_size := 0; req_size := 0; id := 0; next := nullptr |}.

(** A pointer to the bytes behind the header, and back. *)
Definition body (p : ptr) : ptr := Z.to_N (Z.of_N p + CHUNK).
Definition header (p : ptr) : ptr := Z.to_N (Z.of_N p - CHUNK).

(** The chunk goes to the client. *)
Definition hand_out (p : ptr) (alloc_type cid req : Z) (err : dfs_slab_errno) (s : slabs) : option (ptr * Z * dfs_slab_errno * slabs) :=
  k ← chunks s !! p;
  let got := if alloc_type =? ALLOC_TYPE_ACT then c_size k else req in
  let s := with_chunk p {| c_size := c_size k; req_size := got; id := cid; next := next k |} s in
  Some (body p, got, err, upd_stat (add_stat (c_size k) got 0 0) s).

(** The manager and the pointers are there. Each turn of the loop gives back a chunk. *)
(* src/src/core/dfs_slabs.cpp:331-425 (dfs_slabs_alloc) *)
Definition dfs_slabs_alloc (alloc_type req_size slab_size : Z) (s : slabs) : option (ptr * Z * dfs_slab_errno * slabs) :=
  let err := DFS_SLAB_ERRNO_CLEAN in
  if req_size =? 0 then Some (nullptr, slab_size, with_errno ALLOC_PARAM err, s)
  else
    cid ← dfs_slabs_clsid (mgr s) req_size SLAB_TRUE;
    if cid =? INVALID_ID then Some (nullptr, slab_size, with_errno ALLOC_INVALID_ID err, s)
    else
      c ← class_at (mgr s) cid;
      if negb (bool_decide (free_list c = nullptr)) then
        k ← chunks s !! free_list c;
        m ← set_free_list cid (next k) (mgr s);
        hand_out (free_list c) alloc_type cid req_size err (upd_stat (add_stat 0 0 (- c_size k) 0) (with_mgr m s))
      else
        '(p, err, s) ← ask (size c) err s;
        '(p, ret, err, s) ← alloc_loop (S (S (base.size (chunks s)))) p 0 (size c) cid err s;
        if bool_decide (p = nullptr) then
          Some (nullptr, 0, if ret =? NOSPACE then with_errno ALLOC_FAILED err else err, upd_stat (count_stat 1 0 0 0) s)
        else
          let s := upd_stat (add_stat 0 0 0 1) s in
          hand_out p alloc_type cid req_size err
            (with_chunk p {| c_size := u64 (size c - CHUNK); req_size := Slabs.req_size blank; id := id blank; next := next blank |} s).

(* src/src/core/dfs_slabs.cpp:427-504 (dfs_slabs_split_alloc) *)
Definition dfs_slabs_split_alloc (req slab_size req_minsize : Z) (s : slabs) : option (ptr * Z * dfs_slab_errno * slabs) :=
  let err := DFS_SLAB_ERRNO_CLEAN in
  if req =? 0 then Some (nullptr, slab_size, with_errno SPLIT_ALLOC_PARAM err, s)
  else
    match a_split_alloc with
    | None => Some (nullptr, slab_size, with_errno SPLIT_ALLOC_NOT_SUPPORTED err, s)
    | Some split_alloc =>
        let all_size := DFS_MATH_ALIGNMENT (u64 (req + CHUNK)) DFS_MATH_ALIGN_SIZE in
        last ← class_at (mgr s) (free_len (mgr s) - 1);
        if size last <? all_size then Some (nullptr, slab_size, with_errno SPLIT_ALLOC_CHUNK_SIZE_TOO_LARGE err, s)
        else
          let minsize := DFS_MATH_ALIGNMENT (u64 (req_minsize + CHUNK)) DFS_MATH_ALIGN_SIZE in
          '(p, act, ae, a) ← split_alloc 0 minsize (allocator_errno err) (alloc s);
          let err := {| errno := errno err; allocator_errno := ae |} in
          let s := with_alloc a s in
          if bool_decide (p = nullptr) then Some (nullptr, 0, with_errno ALLOCATOR_ERROR err, upd_stat (count_stat 0 0 0 1) s)
          else
            let sz := u64 (act - CHUNK) in
            let got := if sz <=? req then sz else req in
            let s := with_chunk p {| c_size := sz; req_size := got; id := SPLIT_ID; next := next blank |} s in
            Some (body p, sz, err, upd_stat (add_stat sz got 0 1) s)
    end.

(** ** Giving back *)

(* src/src/core/dfs_slabs.cpp:506-566 (dfs_slabs_free) *)
Definition dfs_slabs_free (p : ptr) (s : slabs) : option (Z * dfs_slab_errno * slabs) :=
  let err := DFS_SLAB_ERRNO_CLEAN in
  if bool_decide (p = nullptr) then Some (SLAB_ERROR, with_errno FREE_PARAM err, s)
  else
    match a_free with
    | None => Some (SLAB_OK, with_errno FREE_NOT_SUPPORTED err, s)
    | Some _ =>
        let p := header p in
        k ← chunks s !! p;
        if id k =? SPLIT_ID then
          let s := upd_stat (add_stat (- c_size k) (- req_size k) 0 (-1)) s in
          '(rc, ae, s) ← give_back p (allocator_errno err) s;
          let err := {| errno := errno err; allocator_errno := ae |} in
          Some (SLAB_OK, if rc =? DFS_MEM_ALLOCATOR_ERROR then with_errno ALLOCATOR_ERROR err else err, s)
        else
          c ← class_at (mgr s) (id k);
          let s := with_chunk p {| c_size := c_size k; req_size := req_size k; id := id k; next := free_list c |} s in
          m ← set_free_list (id k) p (mgr s);
          let s := with_mgr m s in
          if used_size (stat m) <? size c then Some (SLAB_ERROR, with_errno FREE_CHUNK_ID err, s)
          else Some (SLAB_OK, err, upd_stat (add_stat (- c_size k) (- req_size k) (c_size k) 0) s)
    end.

(** ** Counters and messages *)

(* src/src/core/dfs_slabs.cpp:568-571 (dfs_slabs_get_chunk_size) *)
Definition dfs_slabs_get_chunk_size (s : slabs) : Z := u64 (chunk_count (stat (mgr s)) * CHUNK).

(* src/src/core/dfs_slabs.cpp:605-616 (dfs_slabs_get_stat) *)
Definition dfs_slabs_get_stat (s : slabs) : slab_stat :=
  let t := stat (mgr s) in
  {| used_size := used_size t; reqs_size := reqs_size t; free_size := free_size t; chunk_count := chunk_count t;
     chunk_size := u64 (chunk_count t * CHUNK); system_size := system_size t; failed := failed t; recover := recover t;
     recover_failed := recover_failed t; split_failed := split_failed t |}.

(** The numbers of the errors follow [DFS_SLAB_ERR_START]. *)
Definition errors : list slab_errno :=
  [CREATE_PARAM; CREATE_POWER_FACTOR; CREATE_LINER_FACTOR; CREATE_UPTYPE; RELEASE_PARAM; ALLOC_PARAM; ALLOC_INVALID_ID; ALLOC_FAILED;
   SPLIT_ALLOC_PARAM; SPLIT_ALLOC_NOT_SUPPORTED; SPLIT_ALLOC_CHUNK_SIZE_TOO_LARGE; FREE_PARAM; FREE_NOT_SUPPORTED; FREE_CHUNK_ID; ALLOCATOR_ERROR].
Definition ERR_START : Z := 100.
Definition errno_code (e : slab_errno) : Z :=
  match list_find (fun e' => e' = e) errors with Some (i, _) => ERR_START + 1 + Z.of_nat i | None => 0 end.

(* src/src/core/dfs_slabs.cpp:8-28 (dfs_slabs_err_string) *)
Definition dfs_slabs_err_string : list string :=
  ["dfs_slabs: unknown error number"; "dfs_slabs_create: parameter error"; "dfs_slabs_create: power factor error"; "dfs_slabs_create: liner factor error";
   "dfs_slabs_create: uptype error"; "dfs_slabs_release: parameter error"; "dfs_slabs_alloc: parameter error"; "dfs_slabs_alloc: invalide id";
   "dfs_slabs_alloc: alloc failed"; "dfs_slabs_split_alloc: parameter error"; "dfs_slabs_split_alloc: not supported or implemented";
   "dfs_slabs_split_alloc: chunk size too large"; "dfs_slabs_free: parameter error"; "dfs_slabs_free: not supported or implemented";
   "dfs_slabs_free: chunk id error"; "dfs_slabs: allocator error"]%string.

(** [strerror] is the allocator's, if it has one. *)
(* src/src/core/dfs_slabs.cpp:573-603 (dfs_slabs_strerror) *)
Definition dfs_slabs_strerror (strerror : option (Z -> option string)) (err_no : option (Z * Z)) : option string :=
  match err_no with
  | None => dfs_slabs_err_string !! 0%nat
  | Some (e, ae) =>
      if (e <=? ERR_START) || (errno_code ALLOCATOR_ERROR + 1 <=? e) then dfs_slabs_err_string !! 0%nat
      else
        match strerror with
        | Some f =>
            if ((e =? errno_code ALLOCATOR_ERROR) || (e =? errno_code ALLOC_FAILED)) && negb (ae =? 0) then f ae
            else dfs_slabs_err_string !! Z.to_nat (e - ERR_START)
        | None => dfs_slabs_err_string !! Z.to_nat (e - ERR_START)
        end
  end.

(** ** Classes *)

Definition ceil8 (x : Z) : Z := 8 * ((x + 7) / 8).

Lemma ceil8_spec x : x <= ceil8 x < x + 8.
Proof. unfold ceil8. pose proof (Z.div_mod (x + 7) 8 ltac:(lia)). pose proof (Z.mod_pos_bound (x + 7) 8 ltac:(lia)). lia. Qed.

Lemma ceil8_mono x y : x <= y -> ceil8 x <= ceil8 y.
Proof. intros H. unfold ceil8. pose proof (Z.div_le_mono (x + 7) (y + 7) 8 ltac:(lia) ltac:(lia)). lia. Qed.

Lemma alignment_ceil8 x : 0 <= x < 2 ^ 63 -> DFS_MATH_ALIGNMENT x DFS_MATH_ALIGN_SIZE = ceil8 x.
Proof.
  intros Hx. unfold DFS_MATH_ALIGNMENT, DFS_MATH_ALIGN_SIZE. pose proof (ceil8_spec x). destruct (Z.eqb_spec (x mod 8) 0) as [E | E].
  - unfold ceil8. div_mod_lia.
  - rewrite u64_small by (unfold is_u64; div_mod_lia). unfold ceil8. div_mod_lia.
Qed.

(** The size the class [i] is meant for. *)
Definition item (m : slab_manager) (i : Z) : Z := if uptype m =? UPTYPE_POWER then min_size m * 2 ^ i else min_size m + LINEAR_FACTOR * i.

Record geometry (m : slab_manager) : Prop := {
  g_type : uptype m = UPTYPE_POWER \/ uptype m = UPTYPE_LINEAR /\ factor m = LINEAR_FACTOR;
  g_min : 0 < min_size m;
  g_len : 2 <= free_len m;
  g_last : item m (free_len m - 1) < 2 ^ 61;
  g_length : Z.of_nat (length (slabclass m)) = free_len m;
  g_size : forall i c, class_at m i = Some c -> size c = ceil8 (item m i + CHUNK)
}.

(** Only the free lists and the counters may differ. *)
Definition same_shape (m m' : slab_manager) : Prop :=
  self m' = self m /\ table m' = table m /\ uptype m' = uptype m /\ free_len m' = free_len m /\ factor m' = factor m /\ min_size m' = min_size m /\
  map size (slabclass m') = map size (slabclass m).

Lemma same_shape_refl m : same_shape m m.
Proof. done. Qed.

Lemma same_shape_trans m1 m2 m3 : same_shape m1 m2 -> same_shape m2 m3 -> same_shape m1 m3.
Proof. unfold same_shape. intros (? & ? & ? & ? & ? & ? & ?) (? & ? & ? & ? & ? & ? & ?). repeat split; congruence. Qed.

Lemma same_shape_size m m' i c : same_shape m m' -> class_at m' i = Some c -> exists c', class_at m i = Some c' /\ size c' = size c.
Proof.
  intros (_ & _ & _ & _ & _ & _ & E). unfold class_at. destruct (i <? 0); [done |]. intros Hc.
  assert (map size (slabclass m') !! Z.to_nat i = Some (size c)) as H1 by (by rewrite list_lookup_fmap, Hc). rewrite E, list_lookup_fmap in H1.
  destruct (slabclass m !! Z.to_nat i) as [c'|]; [|done]. injection H1 as H1. by exists c'.
Qed.

Lemma same_shape_item m m' i : same_shape m m' -> item m' i = item m i.
Proof. intros (_ & _ & E1 & _ & E2 & E3 & _). unfold item. by rewrite E1, E3. Qed.

Lemma same_shape_geometry m m' : same_shape m m' -> geometry m -> geometry m'.
Proof.
  intros S G. pose proof S as (E1 & E2 & E3 & E4 & E5 & E6 & E7). destruct G as [G1 G2 G3 G4 G5 G6]. split.
  - by rewrite E3, E5.
  - by rewrite E6.
  - by rewrite E4.
  - by rewrite (same_shape_item _ _ _ S), E4.
  - rewrite E4, <- G5. apply (f_equal length) in E7. rewrite !length_map in E7. by rewrite E7.
  - intros i c Hc. rewrite (same_shape_item _ _ _ S). destruct (same_shape_size _ _ _ _ S Hc) as (c' & Hc' & <-). by apply G6.
Qed.

Section Classes.

Context (m : slab_manager) (G : geometry m).

Lemma class_at_lookup i : 0 <= i < free_len m -> exists c, class_at m i = Some c.
Proof using G.
  intros Hi. unfold class_at. destruct (Z.ltb_spec i 0); [lia |]. destruct (lookup_lt_is_Some_2 (slabclass m) (Z.to_nat i)) as [c Hc]; [|by exists c].
  pose proof (g_length _ G). lia.
Qed.

Lemma class_at_range i c : class_at m i = Some c -> 0 <= i < free_len m.
Proof using G.
  unfold class_at. destruct (Z.ltb_spec i 0); [done |]. intros Hc%lookup_lt_Some. pose proof (g_length _ G). lia.
Qed.

Lemma item_mono i j : 0 <= i <= j -> item m i <= item m j.
Proof using G.
  intros Hij. unfold item. pose proof (g_min _ G). destruct (_ =? _); [|unfold LINEAR_FACTOR; lia].
  pose proof (Z.pow_le_mono_r 2 i j ltac:(lia) ltac:(lia)). nia.
Qed.

Lemma item_pos i : 0 <= i -> 0 < item m i.
Proof using G.
  intros Hi. pose proof (item_mono 0 i ltac:(lia)). assert (item m 0 = min_size m) by (unfold item; destruct (_ =? _); lia). pose proof (g_min _ G). lia.
Qed.

Lemma size_mono i j c d : class_at m i = Some c -> class_at m j = Some d -> i <= j -> size c <= size d.
Proof using G.
  intros Hc Hd Hij. rewrite (g_size _ G _ _ Hc), (g_size _ G _ _ Hd). apply ceil8_mono. pose proof (class_at_range _ _ Hc). pose proof (item_mono i j ltac:(lia)). lia.
Qed.

Lemma size_bounds i c : class_at m i = Some c -> CHUNK < size c < 2 ^ 62.
Proof using G.
  intros Hc. rewrite (g_size _ G _ _ Hc). pose proof (class_at_range _ _ Hc). pose proof (item_pos i ltac:(lia)). pose proof (item_mono i (free_len m - 1) ltac:(lia)).
  pose proof (g_last _ G). pose proof (ceil8_spec (item m i + CHUNK)). unfold CHUNK in *. lia.
Qed.

(** Between [low] and [high] the classes next to the size are found. *)
Lemma search_class_spec all_size : forall fuel low high c d,
  (Z.to_nat (high - low) < fuel)%nat -> 1 <= low <= high -> high <= free_len m - 2 -> class_at m (low - 1) = Some c -> size c < all_size ->
  class_at m (high + 1) = Some d -> all_size <= size d ->
  exists i e, search_class fuel m low high all_size = Some i /\ class_at m i = Some e /\ all_size <= size e /\
    (all_size = size e \/ exists b, class_at m (i - 1) = Some b /\ size b < all_size).
Proof using G.
  induction fuel as [|fuel IH]; intros low high c d Hf Hlow Hhigh Hc Hlt Hd Hle; [lia |]. cbn [search_class]. destruct (Z.ltb_spec high low); [lia |].
  rewrite Z.shiftr_div_pow2 by lia. change (2 ^ 1) with 2. set (mid := (low + high) / 2). assert (low <= mid <= high) as Hmid by (unfold mid; div_mod_lia).
  destruct (class_at_lookup mid) as [e He]; [lia |]. rewrite He. cbn [mbind option_bind]. destruct (Z.leb_spec all_size (size e)) as [Hall | Hall].
  - destruct (class_at_lookup (mid - 1)) as [f Hfm]; [lia |]. rewrite Hfm. cbn [mbind option_bind]. destruct (Z.ltb_spec (size f) all_size).
    + exists mid, e. split; [done |]. split; [done |]. split; [done |]. right. by exists f.
    + destruct (Z.eqb_spec all_size (size f)) as [Heq | Hne]; [exists (mid - 1), f; split; [done |]; split; [done |]; split; [lia | by left] |].
      assert (low < mid). { destruct (Z.eq_dec low mid) as [E | ?]; [|lia]. rewrite <- E in Hfm. rewrite Hfm in Hc. injection Hc as ->. lia. }
      apply (IH low (mid - 1) c e); try done; try lia. by replace (mid - 1 + 1) with mid by lia.
  - destruct (class_at_lookup (mid + 1)) as [f Hfm]; [lia |]. rewrite Hfm. cbn [mbind option_bind]. destruct (Z.leb_spec all_size (size f)).
    + exists (mid + 1), f. split; [done |]. split; [done |]. split; [done |]. right. exists e. by replace (mid + 1 - 1) with mid by lia.
    + assert (mid < high). { destruct (Z.eq_dec mid high) as [E | ?]; [|lia]. rewrite E in Hfm. rewrite Hfm in Hd. injection Hd as ->. lia. }
      apply (IH (mid + 1) high e d); try done; try lia. by replace (mid + 1 - 1) with mid by lia.
Qed.

(** The class found has room for the size and is no larger than any class meant for it. *)
Definition right_class (sz i : Z) : Prop :=
  exists c, class_at m i = Some c /\ sz + CHUNK <= size c /\ (forall j d, class_at m j = Some d -> sz <= item m j -> size c <= size d).

(** With two classes that double, the search has nothing between them to look at. *)
Lemma clsid_spec sz : 0 < sz < 2 ^ 62 ->
  exists i, dfs_slabs_clsid m sz SLAB_TRUE = Some i /\
    (i = INVALID_ID /\ ((forall j c, class_at m j = Some c -> size c < sz + CHUNK + 8 /\ item m j < sz) \/ uptype m = UPTYPE_POWER /\ free_len m = 2) \/
     i <> INVALID_ID /\ right_class sz i).
Proof using G.
  intros Hsz. unfold dfs_slabs_clsid. destruct (Z.eqb_spec sz 0); [lia |]. rewrite (u64_small (sz + CHUNK)) by (unfold is_u64, CHUNK; lia).
  rewrite alignment_ceil8 by (unfold CHUNK; lia). pose proof (g_len _ G) as Hlen2.
  destruct (class_at_lookup (free_len m - 1)) as [z Hz]; [lia |]. destruct (class_at_lookup 0) as [a Ha]; [lia |]. rewrite Hz, Ha. cbn [mbind option_bind].
  pose proof (ceil8_spec (sz + CHUNK)) as Hc8. set (all := ceil8 (sz + CHUNK)) in *.
  assert (forall j d, class_at m j = Some d -> sz <= item m j -> all <= size d) as Hmeant.
  { intros j d Hd Hj. rewrite (g_size _ G _ _ Hd). apply ceil8_mono. lia. }
  destruct (Z.ltb_spec (size z) all) as [Hbig | Hfit].
  { exists INVALID_ID. split; [done |]. left. split; [done |]. left. intros j c Hc. pose proof (size_mono _ _ _ _ Hc Hz ltac:(pose proof (class_at_range _ _ Hc); lia)).
    split; [lia |]. destruct (Z.le_gt_cases sz (item m j)) as [Hj | ?]; [|lia]. pose proof (Hmeant _ _ Hc Hj). lia. }
  destruct (Z.leb_spec all (size a)) as [Hsmall | Hgt0].
  { exists 0. split; [done |]. right. split; [done |]. exists a. split; [done |]. split; [lia |]. intros j d Hd _. apply (size_mono _ _ _ _ Ha Hd). apply (class_at_range _ _ Hd). }
  destruct (Z.eqb_spec all (size z)) as [Elast | Hne].
  { exists (free_len m - 1). split; [done |]. right. split; [unfold INVALID_ID; lia |]. exists z. split; [done |]. split; [lia |]. intros j d Hd Hj. rewrite <- Elast. by apply (Hmeant j). }
  destruct (g_type _ G) as [Et | [Et Ef]].
  - rewrite Et. change (UPTYPE_POWER =? UPTYPE_LINEAR) with false. cbv iota. destruct (Z.eq_dec (free_len m) 2) as [E2 | Hlen3].
    { exists INVALID_ID. split; [|left; split; [done | by right]]. rewrite E2. reflexivity. }
    assert (3 <= free_len m) as H3 by lia.
    destruct (search_class_spec all (Z.to_nat (free_len m)) 1 (free_len m - 1 - 1) a z) as (i & e & Hrun & He & Hle & Htight); [lia | lia | lia | done | lia | | lia |].
    { by replace (free_len m - 1 - 1 + 1) with (free_len m - 1) by lia. }
    exists i. split; [done |]. right. pose proof (class_at_range _ _ He). split; [unfold INVALID_ID; lia |]. exists e. split; [done |]. split; [lia |]. intros j d Hd Hj.
    pose proof (Hmeant _ _ Hd Hj). destruct Htight as [<- | (b & Hb & Hlt)]; [done |]. destruct (Z.le_gt_cases i j) as [Hij | Hij]; [by eapply size_mono |].
    pose proof (size_mono j (i - 1) d b Hd Hb ltac:(lia)). lia.
  - rewrite Et, Ef. change (UPTYPE_LINEAR =? UPTYPE_LINEAR) with true. change (LINEAR_FACTOR =? 0) with false. change (SLAB_TRUE =? SLAB_TRUE) with true. cbv iota. cbn [andb].
    assert (forall j, item m j = min_size m + LINEAR_FACTOR * j) as Hitem by (intros j; unfold item; by rewrite Et).
    pose proof (g_size _ G _ _ Ha) as Ea. pose proof (g_size _ G _ _ Hz) as Ez. rewrite Hitem in Ea, Ez. pose proof (ceil8_spec (min_size m + LINEAR_FACTOR * 0 + CHUNK)) as Ha8.
    pose proof (ceil8_spec (min_size m + LINEAR_FACTOR * (free_len m - 1) + CHUNK)) as Hz8. pose proof (g_min _ G).
    assert (min_size m < sz) as Hmin. { destruct (Z.le_gt_cases sz (min_size m)); [|lia]. pose proof (ceil8_mono (sz + CHUNK) (min_size m + LINEAR_FACTOR * 0 + CHUNK) ltac:(lia)). lia. }
    assert (sz <= min_size m + LINEAR_FACTOR * (free_len m - 1)) as Hmax.
    { destruct (Z.le_gt_cases sz (min_size m + LINEAR_FACTOR * (free_len m - 1))); [lia |].
      pose proof (ceil8_mono (min_size m + LINEAR_FACTOR * (free_len m - 1) + CHUNK) (sz + CHUNK) ltac:(lia)). lia. }
    rewrite u64_small by (unfold is_u64; lia). set (q := (sz - min_size m) / LINEAR_FACTOR). unfold LINEAR_FACTOR in *.
    rewrite s64_small by (unfold is_s64; unfold q; div_mod_lia). set (i := if negb ((sz - min_size m) mod 1024 =? 0) then q + 1 else q).
    assert (0 < i /\ min_size m + 1024 * (i - 1) < sz <= min_size m + 1024 * i) as [Hi0 Hi].
    { unfold i, q. destruct (Z.eqb_spec ((sz - min_size m) mod 1024) 0); cbn [negb]; div_mod_lia. }
    exists i. split; [done |]. right. split; [unfold INVALID_ID; lia |]. destruct (class_at_lookup i) as [e He]; [lia |]. exists e. split; [done |].
    assert (all <= size e) as Hle by (apply (Hmeant i); [done | rewrite Hitem; lia]). split; [lia |]. intros j d Hd Hj. rewrite Hitem in Hj. apply (size_mono i j); [done | done | lia].
Qed.

End Classes.

(** ** What creation makes *)

Definition step (ty sz i : Z) : Z := if ty =? UPTYPE_POWER then sz * 2 ^ i else sz + LINEAR_FACTOR * i.

Lemma class_sizes_lookup ty f : (ty = UPTYPE_POWER /\ f = POWER_FACTOR \/ ty = UPTYPE_LINEAR /\ f = LINEAR_FACTOR) ->
  forall n sz i, 0 < sz -> step ty sz (Z.of_nat n - 1) < 2 ^ 61 -> (i < n)%nat ->
  class_sizes n ty f sz !! i = Some {| size := ceil8 (step ty sz (Z.of_nat i) + CHUNK); free_list := nullptr |}.
Proof.
  intros Hty. induction n as [|n IH]; intros sz i Hsz Hlast Hi; [lia |]. cbn [class_sizes].
  assert (forall k, 0 <= k -> sz <= step ty sz k) as Hge.
  { intros k Hk. unfold step. destruct (_ =? _); [|unfold LINEAR_FACTOR; lia]. pose proof (Z.pow_pos_nonneg 2 k ltac:(lia) Hk). nia. }
  pose proof (Hge (Z.of_nat (S n) - 1) ltac:(lia)). destruct i as [|i].
  - cbn [lookup list_lookup]. rewrite u64_small by (unfold is_u64, CHUNK; lia). rewrite alignment_ceil8 by (unfold CHUNK; lia). do 2 f_equal.
    unfold step. change (Z.of_nat 0) with 0. destruct (_ =? _); do 2 f_equal; lia.
  - cbn [lookup list_lookup]. set (sz' := if ty =? UPTYPE_POWER then sz * f else sz + f).
    assert (forall k, 0 <= k -> step ty sz' k = step ty sz (k + 1)) as Hstep.
    { intros k Hk. unfold step, sz'. destruct Hty as [[-> ->] | [-> ->]].
      - change (UPTYPE_POWER =? UPTYPE_POWER) with true. cbv iota. rewrite Z.pow_add_r by lia. unfold POWER_FACTOR. lia.
      - change (UPTYPE_LINEAR =? UPTYPE_POWER) with false. cbv iota. lia. }
    assert (sz <= sz') as Hup.
    { unfold sz'. destruct Hty as [[-> ->] | [-> ->]].
      - change (UPTYPE_POWER =? UPTYPE_POWER) with true. cbv iota. unfold POWER_FACTOR. lia.
      - change (UPTYPE_LINEAR =? UPTYPE_POWER) with false. cbv iota. unfold LINEAR_FACTOR. lia. }
    assert (step ty sz' (Z.of_nat n - 1) < 2 ^ 61) as Hlast'.
    { rewrite Hstep by lia. by replace (Z.of_nat n - 1 + 1) with (Z.of_nat (S n) - 1) by lia. }
    assert (sz' < 2 ^ 61) as Hlt.
    { assert (sz' = step ty sz' 0) as -> by (unfold step; destruct (_ =? _); lia). eapply Z.le_lt_trans; [|exact Hlast']. unfold step.
      destruct (_ =? _); [|unfold LINEAR_FACTOR; lia]. assert (0 <= Z.of_nat n - 1 \/ n = 0%nat) as [Hn | ->] by lia; [pose proof (Z.pow_le_mono_r 2 0 (Z.of_nat n - 1) ltac:(lia) Hn); nia | lia]. }
    rewrite u64_small by (unfold is_u64; lia). rewrite IH by (try done; lia). rewrite Hstep by lia. by replace (Z.of_nat (S i)) with (Z.of_nat i + 1) by lia.
Qed.

Lemma length_class_sizes n ty f sz : length (class_sizes n ty f sz) = n.
Proof. revert sz. induction n as [|n IH]; intros sz; [done |]. cbn. by rewrite IH. Qed.

Lemma levels_spec ty f lo hi : 0 < lo -> 2 <= hi / lo -> hi < 2 ^ 58 -> 
  match levels ty f lo hi with
  | Some (inl n) => (ty = UPTYPE_POWER /\ f = POWER_FACTOR \/ ty = UPTYPE_LINEAR /\ f = LINEAR_FACTOR) /\ 1 <= n < 2 ^ 58 /\ hi <= step ty lo n < 2 ^ 61
  | Some (inr _) => True
  | None => False
  end.
Proof.
  intros Hlo Hq Hhi. unfold levels. assert (2 * lo <= hi) as H2 by (pose proof (Z.mul_div_le hi lo Hlo); nia).
  destruct (Z.eqb_spec ty UPTYPE_POWER) as [-> | Ht].
  - destruct (Z.eqb_spec f POWER_FACTOR) as [-> | Hf]; cbn [negb]; [|exact I].
    set (w := if hi mod lo =? 0 then hi / lo else hi / lo + 1).
    assert (hi <= lo * w < hi + lo) as Hw.
    { unfold w. pose proof (Z.div_mod hi lo ltac:(lia)). pose proof (Z.mod_pos_bound hi lo Hlo). destruct (Z.eqb_spec (hi mod lo) 0); nia. }
    assert (2 <= w < 2 ^ 60) as Hwb by nia.
    destruct (dfslog2_spec w) as [_ ->]; [unfold is_u64; lia |]. cbn [mbind option_bind]. split; [by left |].
    pose proof (Z.log2_up_spec w ltac:(lia)) as [Hl1 Hl2]. assert (1 <= Z.log2_up w <= 60) as Hl.
    { split; [pose proof (Z.log2_up_pos w ltac:(lia)); lia |]. change 60 with (Z.log2_up (2 ^ 60)). apply Z.log2_up_le_mono. lia. }
    split; [lia |]. unfold step. change (UPTYPE_POWER =? UPTYPE_POWER) with true. cbv iota.
    assert (2 ^ Z.log2_up w = 2 * 2 ^ Z.pred (Z.log2_up w)) as E by (rewrite <- Z.pow_succ_r by lia; f_equal; lia). nia.
  - destruct (Z.eqb_spec ty UPTYPE_LINEAR) as [-> | Ht2]; [|exact I]. destruct (Z.eqb_spec f LINEAR_FACTOR) as [-> | Hf]; cbn [negb]; [|exact I].
    rewrite u64_small by (unfold is_u64; lia). unfold LINEAR_FACTOR. rewrite s64_small by (unfold is_s64; div_mod_lia).
    split; [by right |]. unfold step. change (UPTYPE_LINEAR =? UPTYPE_POWER) with false. cbv iota. unfold LINEAR_FACTOR.
    destruct (Z.eqb_spec ((hi - lo) mod 1024) 0); div_mod_lia.
Qed.

(** ** The invariant

    [fl] are the free lists, [hs] the chunks of clients, [l] the blocks of the allocator. *)

Section Invariant.

Context {promise : AllocatorOk A}.

Record inv (s : slabs) (fl : list (list ptr)) (hs : list ptr) (l : gmap ptr Z) : Prop := {
  i_owns : owns (alloc s) l;
  i_geom : geometry (mgr s);
  i_self : l !! self (mgr s) = Some MANAGER;
  i_table : l !! table (mgr s) = Some (SLABCLASS * free_len (mgr s));
  i_nodup : NoDup (self (mgr s) :: table (mgr s) :: concat fl ++ hs);
  i_len : length fl = length (slabclass (mgr s));
  i_lists : forall i c q, class_at (mgr s) i = Some c -> fl !! Z.to_nat i = Some q -> chain next (chunks s) (free_list c) q;
  i_dom : forall p, is_Some (chunks s !! p) <-> p ∈ concat fl ++ hs;
  i_block : forall p k, chunks s !! p = Some k -> 0 <= c_size k < 2 ^ 64 /\ l !! p = Some (c_size k + CHUNK);
  i_free : forall i q p, 0 <= i -> fl !! Z.to_nat i = Some q -> p ∈ q ->
    exists k c, chunks s !! p = Some k /\ id k = i /\ class_at (mgr s) i = Some c /\ size c = c_size k + CHUNK;
  i_held : forall p k, p ∈ hs -> chunks s !! p = Some k -> id k = SPLIT_ID \/ exists c, class_at (mgr s) (id k) = Some c /\ size c = c_size k + CHUNK;
  i_count : chunk_count (stat (mgr s)) = u64 (Z.of_nat (base.size (chunks s)))
}.

Lemma concat_pop (fl : list (list ptr)) i p q : fl !! i = Some (p :: q) -> concat fl ≡ₚ p :: concat (<[i := q]> fl).
Proof.
  intros H. rewrite <- (take_drop_middle fl i (p :: q) H) at 1. rewrite (insert_take_drop fl i q) by (by eapply lookup_lt_Some).
  rewrite !concat_app. cbn [concat app]. symmetry. apply Permutation_middle.
Qed.

Lemma concat_push (fl : list (list ptr)) i p q : fl !! i = Some q -> concat (<[i := p :: q]> fl) ≡ₚ p :: concat fl.
Proof.
  intros H. rewrite (concat_pop (<[i := p :: q]> fl) i p q) by (apply list_lookup_insert_eq; by eapply lookup_lt_Some).
  by rewrite list_insert_insert_eq, (list_insert_id fl i q).
Qed.

Lemma elem_of_concat_l (fl : list (list ptr)) i q p : fl !! i = Some q -> p ∈ q -> p ∈ concat fl.
Proof. intros H Hp. apply list_elem_of_In, in_concat. exists q. split; apply list_elem_of_In; [by eapply list_elem_of_lookup_2 | done]. Qed.

Lemma concat_in (fl : list (list ptr)) p : p ∈ concat fl -> exists i q, fl !! i = Some q /\ p ∈ q.
Proof. intros (q & Hq & Hp)%list_elem_of_In%in_concat. apply list_elem_of_In, list_elem_of_lookup in Hq as [i Hi]. exists i, q. split; [done | by apply list_elem_of_In]. Qed.

Lemma set_free_list_spec i p m c : class_at m i = Some c ->
  exists m', set_free_list i p m = Some m' /\ same_shape m m' /\ stat m' = stat m /\ class_at m' i = Some {| size := size c; free_list := p |} /\
    forall j, j <> i -> class_at m' j = class_at m j.
Proof.
  intros Hc. unfold set_free_list. rewrite Hc. cbn [mbind option_bind]. eexists. split; [reflexivity |]. unfold class_at in *. destruct (Z.ltb_spec i 0); [done |].
  pose proof (lookup_lt_Some _ _ _ Hc) as Hlt. cbn [slabclass with_classes]. split; [|split; [done |]; split].
  - repeat (split; [done |]). cbn [slabclass with_classes]. rewrite list_fmap_insert. apply list_insert_id. by rewrite list_lookup_fmap, Hc.
  - by apply list_lookup_insert_eq.
  - intros j Hj. destruct (Z.ltb_spec j 0); [done |]. apply list_lookup_insert_ne. lia.
Qed.

Lemma chunk_granted s fl hs l p : inv s fl hs l -> p ∈ concat fl ++ hs -> exists k, chunks s !! p = Some k /\ p <> nullptr.
Proof.
  intros I Hp. apply (i_dom _ _ _ _ I) in Hp as [k Hk]. exists k. split; [done |]. destruct (i_block _ _ _ _ I _ _ Hk) as [_ Hl].
  by destruct (owns_apart _ _ _ _ (i_owns _ _ _ _ I) Hl) as [? _].
Qed.

(** An empty head means an empty list. *)
Lemma head_spec s fl hs l i c : inv s fl hs l -> class_at (mgr s) i = Some c ->
  exists q, fl !! Z.to_nat i = Some q /\ chain next (chunks s) (free_list c) q /\
    match q with [] => free_list c = nullptr | p :: _ => free_list c = p /\ p <> nullptr end.
Proof.
  intros I Hc. destruct (lookup_lt_is_Some_2 fl (Z.to_nat i)) as [q Hq].
  { rewrite (i_len _ _ _ _ I). unfold class_at in Hc. destruct (i <? 0); [done |]. by apply lookup_lt_Some in Hc. }
  exists q. pose proof (i_lists _ _ _ _ I _ _ _ Hc Hq) as Hch. split; [done |]. split; [done |]. destruct q as [|p q]; [done |]. destruct Hch as [E _]. split; [done |].
  destruct (chunk_granted _ _ _ _ p I) as (k & _ & ?); [|done]. apply elem_of_app. left. eapply elem_of_concat_l; [exact Hq | by left].
Qed.

(** The first chunk of a free list becomes one of the client's. *)
Lemma inv_pop s fl hs l i c p q k m' :
  inv s fl hs l -> class_at (mgr s) i = Some c -> fl !! Z.to_nat i = Some (p :: q) -> chunks s !! p = Some k -> set_free_list i (next k) (mgr s) = Some m' ->
  inv (with_mgr m' s) (<[Z.to_nat i := q]> fl) (p :: hs) l /\ same_shape (mgr s) m' /\ stat m' = stat (mgr s).
Proof.
  intros I Hc Hq Hk Hm. destruct (set_free_list_spec i (next k) (mgr s) c Hc) as (m2 & Hm2 & Hsh & Hst & Hci & Hcj). rewrite Hm2 in Hm. injection Hm as ->.
  split; [|done]. pose proof (class_at_range _ (i_geom _ _ _ _ I) _ _ Hc) as Hr. pose proof (lookup_lt_Some _ _ _ Hq) as Hlt.
  pose proof (concat_pop fl _ p q Hq) as Eperm. pose proof (i_nodup _ _ _ _ I) as Hnd. rewrite Eperm in Hnd.
  assert (concat (<[Z.to_nat i := q]> fl) ++ p :: hs ≡ₚ concat fl ++ hs) as Eall by (rewrite Eperm; cbn; by rewrite Permutation_middle).
  pose proof Hsh as (E1 & E2 & E3 & E4 & E5 & E6 & E7). destruct I as [H1 H2 H3 H4 H5 H6 H7 H8 H9 H10 H11 H12]. split; cbn [mgr chunks alloc with_mgr].
  - done.
  - by eapply same_shape_geometry.
  - by rewrite E1.
  - by rewrite E2, E4.
  - rewrite E1, E2, Eall. exact H5.
  - rewrite length_insert, H6. apply (f_equal length) in E7. by rewrite !length_map in E7.
  - intros j d r Hd Hr'. destruct (decide (j = i)) as [-> | Hne].
    + rewrite list_lookup_insert_eq in Hr' by done. injection Hr' as <-. rewrite Hci in Hd. injection Hd as <-. cbn [free_list].
      destruct (H7 i c (p :: q) Hc Hq) as (_ & k' & Hk' & Hch). rewrite Hk in Hk'. by injection Hk' as <-.
    + rewrite Hcj in Hd by done. apply (H7 j d r Hd). rewrite list_lookup_insert_ne in Hr'; [done |]. unfold class_at in Hd. destruct (Z.ltb_spec j 0); [done | lia].
  - intros r. by rewrite Eall.
  - done.
  - intros j r x Hj Hr' Hx.
    assert (exists r', fl !! Z.to_nat j = Some r' /\ x ∈ r') as (r' & Hr2 & Hx').
    { destruct (decide (Z.to_nat i = Z.to_nat j)) as [Ej | Hne]; [|rewrite list_lookup_insert_ne in Hr' by done; by exists r].
      rewrite <- Ej in *. rewrite list_lookup_insert_eq in Hr' by done. injection Hr' as <-. exists (p :: q). split; [done | by right]. }
    destruct (H10 j r' x Hj Hr2 Hx') as (kx & cx & G1 & G2 & G3 & G4). destruct (decide (j = i)) as [-> | Hne].
    + exists kx, {| size := size c; free_list := next k |}. split; [done |]. split; [done |]. split; [done |]. cbn. rewrite Hc in G3. by injection G3 as <-.
    + exists kx, cx. rewrite Hcj by done. done.
  - intros x kx Hx Hkx. assert (forall z d, class_at (mgr s) z = Some d -> exists e, class_at m' z = Some e /\ size e = size d) as Hcl.
    { intros z d Hd. destruct (decide (z = i)) as [-> | Hne]; [exists {| size := size c; free_list := next k |}; rewrite Hc in Hd; by injection Hd as <- |].
      exists d. by rewrite Hcj. }
    apply elem_of_cons in Hx as [-> | Hx].
    + right. destruct (H10 i (p :: q) p ltac:(lia) Hq ltac:(by left)) as (k' & c' & G1 & G2 & G3 & G4). rewrite Hkx in G1. injection G1 as <-. rewrite G2.
      destruct (Hcl _ _ G3) as (e & He & Hse). exists e. split; [done | by rewrite Hse].
    + destruct (H11 x kx Hx Hkx) as [? | (d & Hd & Hsd)]; [by left | right]. destruct (Hcl _ _ Hd) as (e & He & Hse). exists e. split; [done | by rewrite Hse].
  - rewrite Hst. exact H12.
Qed.

(** A chunk of a client becomes the first of its free list. *)
Lemma inv_push s fl hs l p k c m' :
  inv s fl (p :: hs) l -> chunks s !! p = Some k -> class_at (mgr s) (id k) = Some c -> size c = c_size k + CHUNK -> set_free_list (id k) p (mgr s) = Some m' ->
  exists fl', inv (with_mgr m' (with_chunk p {| c_size := c_size k; req_size := req_size k; id := id k; next := free_list c |} s)) fl' hs l /\
    same_shape (mgr s) m' /\ stat m' = stat (mgr s).
Proof.
  intros I Hk Hc Hsz Hm. set (i := id k) in *. destruct (set_free_list_spec i p (mgr s) c Hc) as (m2 & Hm2 & Hsh & Hst & Hci & Hcj). rewrite Hm2 in Hm. injection Hm as ->.
  destruct (head_spec _ _ _ _ i c I Hc) as (q & Hq & Hch & _). set (fl' := <[Z.to_nat i := p :: q]> fl). exists fl'. split; [|done].
  pose proof (class_at_range _ (i_geom _ _ _ _ I) _ _ Hc) as Hr. pose proof (lookup_lt_Some _ _ _ Hq) as Hlt.
  pose proof (concat_push fl _ p q Hq) as Eperm. fold fl' in Eperm. assert (concat fl' ++ hs ≡ₚ concat fl ++ p :: hs) as Eall by (rewrite Eperm; cbn; by rewrite Permutation_middle).
  pose proof (i_nodup _ _ _ _ I) as Hnd. apply NoDup_cons in Hnd as [_ [_ Hnd]%NoDup_cons]. rewrite <- Permutation_middle in Hnd. apply NoDup_cons in Hnd as [Hp _].
  assert ((p ∉ concat fl) /\ (p ∉ hs)) as [Hpf Hph] by (by apply not_elem_of_app).
  pose proof Hsh as (E1 & E2 & E3 & E4 & E5 & E6 & E7). destruct I as [H1 H2 H3 H4 H5 H6 H7 H8 H9 H10 H11 H12].
  set (k' := {| c_size := c_size k; req_size := req_size k; id := id k; next := free_list c |}). split; cbn [mgr chunks alloc with_mgr with_chunk].
  - done.
  - by eapply same_shape_geometry.
  - by rewrite E1.
  - by rewrite E2, E4.
  - rewrite E1, E2, Eall. exact H5.
  - unfold fl'. rewrite length_insert, H6. apply (f_equal length) in E7. by rewrite !length_map in E7.
  - intros j d r Hd Hr'. destruct (decide (j = i)) as [-> | Hne].
    + unfold fl' in Hr'. rewrite list_lookup_insert_eq in Hr' by done. injection Hr' as <-. rewrite Hci in Hd. injection Hd as <-. cbn [free_list].
      split; [done |]. exists k'. split; [apply lookup_insert_eq |]. cbn [next k']. apply chain_insert; [|done]. intros Hin. apply Hpf. by eapply elem_of_concat_l.
    + rewrite Hcj in Hd by done. unfold fl' in Hr'. rewrite list_lookup_insert_ne in Hr' by (unfold class_at in Hd; destruct (Z.ltb_spec j 0); [done | lia]).
      apply chain_insert; [|by eapply H7]. intros Hin. apply Hpf. by eapply elem_of_concat_l.
  - intros r. rewrite Eall, <- H8. destruct (decide (r = p)) as [-> | Hne]; [rewrite lookup_insert_eq, Hk; split; by eexists |]. by rewrite lookup_insert_ne.
  - intros r kr [[<- <-] | [_ Hkr]]%lookup_insert_Some; [by apply (H9 p k) | by apply H9].
  - intros j r x Hj Hr' Hx. destruct (decide (j = i)) as [-> | Hne].
    + unfold fl' in Hr'. rewrite list_lookup_insert_eq in Hr' by done. injection Hr' as <-. apply elem_of_cons in Hx as [-> | Hx].
      * exists k', {| size := size c; free_list := p |}. split; [apply lookup_insert_eq |]. done.
      * destruct (H10 i q x Hj Hq Hx) as (kx & cx & G1 & G2 & G3 & G4). exists kx, {| size := size c; free_list := p |}.
        rewrite lookup_insert_ne by (intros <-; apply Hpf; by eapply elem_of_concat_l). split; [done |]. split; [done |]. split; [done |]. cbn. rewrite Hc in G3. by injection G3 as <-.
    + unfold fl' in Hr'. rewrite list_lookup_insert_ne in Hr' by lia. destruct (H10 j r x Hj Hr' Hx) as (kx & cx & G1 & G2 & G3 & G4). exists kx, cx.
      rewrite lookup_insert_ne by (intros <-; apply Hpf; by eapply elem_of_concat_l). by rewrite Hcj.
  - intros x kx Hx Hkx. rewrite lookup_insert_ne in Hkx by (by intros <-). destruct (H11 x kx) as [? | (d & Hd & Hsd)]; [by right | done | by left | right].
    destruct (decide (id kx = i)) as [Ei | Hne]; [|exists d; by rewrite Hcj].
    exists {| size := size c; free_list := p |}. rewrite Ei in *. split; [done |]. cbn. rewrite Hc in Hd. by injection Hd as <-.
  - rewrite Hst, H12, map_size_insert_Some by (by eexists). done.
Qed.

Lemma inv_stat s fl hs l t : inv s fl hs l -> chunk_count t = chunk_count (stat (mgr s)) -> inv (with_mgr (with_stat t (mgr s)) s) fl hs l.
Proof.
  intros [H1 H2 H3 H4 H5 H6 H7 H8 H9 H10 H11 H12] E. split; try done; [by apply (same_shape_geometry (mgr s)) |]. cbn. by rewrite E.
Qed.

Lemma inv_upd s fl hs l f : inv s fl hs l -> chunk_count (f (stat (mgr s))) = chunk_count (stat (mgr s)) -> inv (upd_stat f s) fl hs l.
Proof. apply inv_stat. Qed.

(** A chunk of a client, or one that was just taken from its list, is given back. *)
Lemma inv_remove s fl hs l p k a' t :
  inv s fl (p :: hs) l -> chunks s !! p = Some k -> owns a' (delete p l) -> chunk_count t = u64 (chunk_count (stat (mgr s)) - 1) ->
  inv {| mgr := with_stat t (mgr s); chunks := delete p (chunks s); alloc := a' |} fl hs (delete p l).
Proof.
  intros [H1 H2 H3 H4 H5 H6 H7 H8 H9 H10 H11 H12] Hk Ho Ht. assert (self (mgr s) :: table (mgr s) :: concat fl ++ p :: hs ≡ₚ p :: self (mgr s) :: table (mgr s) :: concat fl ++ hs) as Ep.
  { rewrite <- Permutation_middle. by rewrite (Permutation_swap p (table _)), (Permutation_swap p (self _)). }
  rewrite Ep in H5. apply NoDup_cons in H5 as [Hp Hnd]. rewrite !not_elem_of_cons, not_elem_of_app in Hp. destruct Hp as (Hps & Hpt & Hpf & Hph).
  split; cbn [mgr chunks alloc with_stat self table free_len slabclass stat].
  - done.
  - by apply (same_shape_geometry (mgr s)).
  - by rewrite lookup_delete_ne.
  - by rewrite lookup_delete_ne.
  - done.
  - done.
  - intros i c q Hc Hq. apply chain_delete; [|by eapply H7]. intros Hin. apply Hpf. by eapply elem_of_concat_l.
  - intros r. destruct (decide (r = p)) as [-> | Hne].
    + rewrite lookup_delete_eq. split; [by intros [? ?] | intros [? | ?]%elem_of_app; done].
    + rewrite lookup_delete_ne by done. rewrite H8, !elem_of_app, elem_of_cons. naive_solver.
  - intros r kr [Hne Hkr]%lookup_delete_Some. rewrite lookup_delete_ne by done. by apply H9.
  - intros i q r Hi Hq Hr. rewrite lookup_delete_ne by (intros <-; apply Hpf; by eapply elem_of_concat_l). by eapply H10.
  - intros r kr Hr [Hne Hkr]%lookup_delete_Some. apply (H11 r kr); [by right | done].
  - rewrite Ht, H12, map_size_delete_Some by (by eexists). assert (base.size (chunks s) <> 0%nat).
    { intros E. apply map_size_empty_inv in E. rewrite E in Hk. by rewrite lookup_empty in Hk. }
    unfold u64. rewrite Zminus_mod_idemp_l. f_equal. lia.
Qed.

(** A new block becomes a chunk of the client. *)
Lemma inv_add s fl hs l p k a' t :
  inv s fl hs l -> fresh_for l p (c_size k + CHUNK) -> owns a' (<[p := c_size k + CHUNK]> l) -> 0 <= c_size k < 2 ^ 64 ->
  (id k = SPLIT_ID \/ exists c, class_at (mgr s) (id k) = Some c /\ size c = c_size k + CHUNK) -> chunk_count t = u64 (chunk_count (stat (mgr s)) + 1) ->
  inv {| mgr := with_stat t (mgr s); chunks := <[p := k]> (chunks s); alloc := a' |} fl (p :: hs) (<[p := c_size k + CHUNK]> l).
Proof.
  intros I Hf Ho Hk Hid Ht. assert (forall q n, l !! q = Some n -> p <> q) as Hnew by (intros q n Hq; by apply (fresh_lookup _ _ _ _ _ Hf Hq)).
  assert (chunks s !! p = None) as Hnone by (destruct (chunks s !! p) as [k0|] eqn:E; [|done]; by destruct (Hnew p _ (proj2 (i_block _ _ _ _ I _ _ E)))).
  assert (p ∉ concat fl ++ hs) as Hni by (intros Hin; apply (i_dom _ _ _ _ I) in Hin as [? E]; congruence). pose proof Hni as [Hpf Hph]%not_elem_of_app.
  destruct I as [H1 H2 H3 H4 H5 H6 H7 H8 H9 H10 H11 H12]. pose proof (Hnew _ _ H3) as Hps. pose proof (Hnew _ _ H4) as Hpt.
  assert (self (mgr s) :: table (mgr s) :: concat fl ++ p :: hs ≡ₚ p :: self (mgr s) :: table (mgr s) :: concat fl ++ hs) as Ep.
  { rewrite <- Permutation_middle. by rewrite (Permutation_swap p (table _)), (Permutation_swap p (self _)). }
  split; cbn [mgr chunks alloc with_stat self table free_len slabclass stat].
  - done.
  - by apply (same_shape_geometry (mgr s)).
  - by rewrite lookup_insert_ne.
  - by rewrite lookup_insert_ne.
  - rewrite Ep. apply NoDup_cons. split; [|done]. rewrite !not_elem_of_cons. done.
  - done.
  - intros i c q Hc Hq. apply chain_insert; [|by eapply H7]. intros Hin. apply Hpf. by eapply elem_of_concat_l.
  - intros r. destruct (decide (r = p)) as [-> | Hne].
    + rewrite lookup_insert_eq. split; [intros _; set_solver + | intros _; by eexists].
    + rewrite lookup_insert_ne by done. rewrite H8, !elem_of_app, elem_of_cons. naive_solver.
  - intros r kr [[<- <-] | [Hne Hkr]]%lookup_insert_Some; [by rewrite lookup_insert_eq |]. rewrite lookup_insert_ne by done. by apply H9.
  - intros i q r Hi Hq Hr. rewrite lookup_insert_ne by (intros <-; apply Hpf; by eapply elem_of_concat_l). by eapply H10.
  - intros r kr Hr [[<- <-] | [Hne Hkr]]%lookup_insert_Some; [done |]. apply elem_of_cons in Hr as [-> | Hr]; [done | by apply (H11 r kr)].
  - rewrite Ht, H12, map_size_insert_None by done. unfold u64. rewrite Zplus_mod_idemp_l. f_equal. lia.
Qed.

(** The header of a client's chunk is written again, with the same size. *)
Lemma inv_header s fl hs l p k k' :
  inv s fl hs l -> p ∈ hs -> chunks s !! p = Some k -> c_size k' = c_size k -> id k' = id k -> inv (with_chunk p k' s) fl hs l.
Proof.
  intros I Hp Hk Es Ei. pose proof (i_nodup _ _ _ _ I) as Hnd. apply NoDup_cons in Hnd as [_ [_ (_ & Hnd & _)%NoDup_app]%NoDup_cons].
  assert (p ∉ concat fl) as Hpf by (intros Hin; by apply (Hnd p)). destruct I as [H1 H2 H3 H4 H5 H6 H7 H8 H9 H10 H11 H12]. split; cbn [mgr chunks alloc with_chunk]; try done.
  - intros i c q Hc Hq. apply chain_insert; [|by eapply H7]. intros Hin. apply Hpf. by eapply elem_of_concat_l.
  - intros r. rewrite <- H8. destruct (decide (r = p)) as [-> | Hne]; [rewrite lookup_insert_eq, Hk; split; by eexists |]. by rewrite lookup_insert_ne.
  - intros r kr [[<- <-] | [_ Hkr]]%lookup_insert_Some; [rewrite Es; by apply (H9 p k) | by apply H9].
  - intros i q r Hi Hq Hr. rewrite lookup_insert_ne by (intros <-; apply Hpf; by eapply elem_of_concat_l). by eapply H10.
  - intros r kr Hr [[<- <-] | [_ Hkr]]%lookup_insert_Some; [rewrite Es, Ei; by apply (H11 p k) | by apply (H11 r kr)].
  - rewrite H12, map_size_insert_Some by (by eexists). done.
Qed.

(** ** Giving chunks back to the allocator *)

Lemma inv_perm s fl hs hs' l : hs ≡ₚ hs' -> inv s fl hs l -> inv s fl hs' l.
Proof.
  intros E [H1 H2 H3 H4 H5 H6 H7 H8 H9 H10 H11 H12]. split; try done; [by rewrite <- E | intros p; by rewrite <- E |].
  intros p k Hp. rewrite <- E in Hp. by apply H11.
Qed.

(** The classes are the same, and the headers of the client's chunks. *)
Definition moved (s s' : slabs) (hs : list ptr) : Prop := same_shape (mgr s) (mgr s') /\ forall p, p ∈ hs -> chunks s' !! p = chunks s !! p.

Lemma moved_refl s hs : moved s s hs.
Proof. done. Qed.

Lemma moved_trans s1 s2 s3 hs : moved s1 s2 hs -> moved s2 s3 hs -> moved s1 s3 hs.
Proof. intros [S1 H1] [S2 H2]. split; [by eapply same_shape_trans |]. intros p Hp. by rewrite H2, H1. Qed.

Lemma moved_cons s s' p hs : moved s s' (p :: hs) -> moved s s' hs.
Proof. intros [S H]. split; [done |]. intros q Hq. apply H. by right. Qed.

Context (Hfree : exists f, a_free = Some f).

Lemma give_back_spec p ae s l n : owns (alloc s) l -> l !! p = Some n ->
  exists ae' a', give_back p ae s = Some (DFS_MEM_ALLOCATOR_OK, ae', {| mgr := mgr s; chunks := delete p (chunks s); alloc := a' |}) /\ owns a' (delete p l).
Proof using Hfree.
  intros Ho Hp. destruct Hfree as [f Hf]. unfold give_back. rewrite Hf. cbn [mbind option_bind]. destruct (free_ok f p n ae (alloc s) l Hf Ho Hp) as (ae' & a' & -> & Ho').
  by exists ae', a'.
Qed.

Lemma in_hs s fl p hs l : inv s fl (p :: hs) l -> p ∉ hs.
Proof. intros I. pose proof (i_nodup _ _ _ _ I) as Hnd. apply NoDup_cons in Hnd as [_ [_ (_ & _ & [Hp _]%NoDup_cons)%NoDup_app]%NoDup_cons]. done. Qed.

Lemma size_delete (m : gmap ptr chunk_link) p k : m !! p = Some k -> (base.size (delete p m) < base.size m)%nat.
Proof.
  intros Hk. rewrite map_size_delete_Some by (by eexists). assert (base.size m <> 0%nat); [|lia].
  intros E. apply map_size_empty_inv in E. rewrite E in Hk. by rewrite lookup_empty in Hk.
Qed.

Lemma drop_chunk_spec s fl hs l i c : inv s fl hs l -> class_at (mgr s) i = Some c -> free_list c <> nullptr ->
  exists s' fl' l', drop_chunk i c s = Some s' /\ inv s' fl' hs l' /\ moved s s' hs /\ (base.size (chunks s') < base.size (chunks s))%nat.
Proof using Hfree.
  intros I Hc Hn. destruct (head_spec _ _ _ _ i c I Hc) as ([|p q] & Hq & Hch & Hhd); [done |]. destruct Hhd as [Ehd Hp]. destruct Hch as (_ & k & Hk & _).
  rewrite Ehd in *. unfold drop_chunk. rewrite Ehd, Hk. cbn [mbind option_bind]. destruct (i_block _ _ _ _ I _ _ Hk) as [_ Hl].
  destruct (give_back_spec p (2 ^ 32 - 1) s l _ (i_owns _ _ _ _ I) Hl) as (ae' & a' & -> & Ho). cbn [mbind option_bind mgr].
  destruct (set_free_list_spec i (next k) (mgr s) c Hc) as (m' & Hm & _). rewrite Hm. cbn [mbind option_bind].
  destruct (inv_pop _ _ _ _ _ _ _ _ _ _ I Hc Hq Hk Hm) as (I1 & Hsh & Hst). eexists _, _, _. split; [reflexivity |].
  split; [|split].
  - apply (inv_remove _ _ _ _ p k a' (add_stat 0 0 (- u64 (size c - CHUNK)) (-1) (stat m')) I1 Hk Ho). done.
  - split; [exact Hsh |]. intros r Hr. cbn. apply lookup_delete_ne. intros ->. by apply (in_hs _ _ _ _ _ I1).
  - cbn. by eapply size_delete.
Qed.

Lemma recover_above_spec : forall n i s fl hs l, inv s fl hs l -> 0 <= i -> i + Z.of_nat n <= free_len (mgr s) ->
  exists b s' fl' l', recover_above n i s = Some (b, s') /\ inv s' fl' hs l' /\ moved s s' hs /\
    (if b : bool then (base.size (chunks s') < base.size (chunks s))%nat else s' = s).
Proof using Hfree.
  induction n as [|n IH]; intros i s fl hs l I Hi Hn; cbn [recover_above]; [by exists false, s, fl, l |].
  destruct (class_at_lookup _ (i_geom _ _ _ _ I) i) as [c Hc]; [lia |]. rewrite Hc. cbn [mbind option_bind]. case_bool_decide as Hf.
  - destruct (IH (i + 1) s fl hs l I) as (b & s' & fl' & l' & H); [lia | lia |]. by exists b, s', fl', l'.
  - destruct (drop_chunk_spec _ _ _ _ _ _ I Hc Hf) as (s' & fl' & l' & -> & I' & Hm & Hs). cbn [mbind option_bind]. by exists true, s', fl', l'.
Qed.

Lemma recover_class_spec i want : forall fuel got s fl hs l, inv s fl hs l -> 0 <= i < free_len (mgr s) -> (base.size (chunks s) < fuel)%nat ->
  exists ok got' s' fl' l', recover_class fuel i want got s = Some (ok, got', s') /\ inv s' fl' hs l' /\ moved s s' hs /\
    (base.size (chunks s') <= base.size (chunks s))%nat /\
    forall c, class_at (mgr s) i = Some c -> if bool_decide (free_list c = nullptr) then ok = false /\ s' = s else (base.size (chunks s') < base.size (chunks s))%nat.
Proof using Hfree.
  induction fuel as [|fuel IH]; intros got s fl hs l I Hi Hf; [lia |]. cbn [recover_class]. destruct (class_at_lookup _ (i_geom _ _ _ _ I) i Hi) as [c Hc]. rewrite Hc.
  cbn [mbind option_bind]. case_bool_decide as Hn.
  - exists false, got, s, fl, l. split; [done |]. split; [done |]. split; [done |]. split; [lia |]. intros c' [= <-]. by rewrite bool_decide_true.
  - destruct (drop_chunk_spec _ _ _ _ _ _ I Hc Hn) as (s1 & fl1 & l1 & -> & I1 & Hm1 & Hs1). cbn [mbind option_bind].
    destruct (want <=? u64 (got + size c)).
    + do 5 eexists. split; [reflexivity |]. split; [exact I1 |]. split; [done |]. split; [lia |]. intros c' [= <-]. by rewrite bool_decide_false.
    + destruct (IH (u64 (got + size c)) s1 fl1 hs l1 I1) as (ok & got' & s' & fl' & l' & Hrun & I' & Hm & Hs & _); [destruct Hm1 as [(_ & _ & _ & -> & _) _]; lia | lia |].
      exists ok, got', s', fl', l'. split; [exact Hrun |]. split; [done |]. split; [by eapply moved_trans |]. split; [lia |]. intros c' [= <-].
      rewrite bool_decide_false by done. lia.
Qed.

Lemma recover_below_spec want : forall n got sp s fl hs l, inv s fl hs l -> Z.of_nat n <= free_len (mgr s) ->
  exists ok sp' s' fl' l', recover_below n want got sp s = Some (ok, sp', s') /\ inv s' fl' hs l' /\ moved s s' hs /\
    (base.size (chunks s') <= base.size (chunks s))%nat /\ (ok = true \/ sp = false /\ sp' = true -> (base.size (chunks s') < base.size (chunks s))%nat) /\
    (sp = true -> sp' = true).
Proof using Hfree.
  induction n as [|n IH]; intros got sp s fl hs l I Hn; cbn [recover_below].
  - exists false, sp, s, fl, l. split; [done |]. split; [done |]. split; [done |]. split; [lia |]. split; [|done]. intros [? | [-> ?]]; done.
  - destruct (class_at_lookup _ (i_geom _ _ _ _ I) (Z.of_nat n)) as [c Hc]; [lia |]. rewrite Hc. cbn [mbind option_bind].
    destruct (recover_class_spec (Z.of_nat n) want (S (base.size (chunks s))) got s fl hs l I) as (ok & got' & s1 & fl1 & l1 & -> & I1 & Hm1 & Hs1 & Hcase); [lia | lia |].
    cbn [mbind option_bind]. specialize (Hcase c Hc). set (sp1 := sp || negb (bool_decide (free_list c = nullptr))). destruct ok.
    + do 5 eexists. split; [reflexivity |]. split; [exact I1 |]. split; [done |]. split; [done |]. case_bool_decide; [by destruct Hcase |]. split; [done |].
      unfold sp1. by intros ->.
    + destruct (IH got' sp1 s1 fl1 hs l1 I1) as (ok & sp' & s' & fl' & l' & Hrun & I' & Hm & Hs & Hcase' & Hsp); [destruct Hm1 as [(_ & _ & _ & -> & _) _]; lia |].
      exists ok, sp', s', fl', l'. split; [exact Hrun |]. split; [done |]. split; [by eapply moved_trans |]. split; [lia |]. unfold sp1 in *. clear sp1. split.
      * case_bool_decide as Hnull; cbn [negb] in *; [destruct Hcase as [_ ->]; rewrite orb_false_r in *; exact Hcase' | intros _; lia].
      * intros ->. by apply Hsp.
Qed.

(** An answer other than [NOSPACE] means that a chunk was given back. *)
Lemma recover_spec sz i s fl hs l : inv s fl hs l -> 0 <= i < free_len (mgr s) ->
  exists ret s' fl' l', dfs_slabs_recover sz i s = Some (ret, s') /\ inv s' fl' hs l' /\ moved s s' hs /\
    (base.size (chunks s') <= base.size (chunks s))%nat /\ (ret <> NOSPACE -> (base.size (chunks s') < base.size (chunks s))%nat).
Proof using Hfree.
  intros I Hi. unfold dfs_slabs_recover. set (s0 := upd_stat (count_stat 0 1 0 0) s). assert (inv s0 fl hs l) as I0 by (by apply inv_upd).
  assert (moved s s0 hs) as Hm0 by done. change (free_len (mgr s0)) with (free_len (mgr s)).
  destruct (recover_above_spec (Z.to_nat (free_len (mgr s) - (i + 1))) (i + 1) s0 fl hs l I0) as (b & s1 & fl1 & l1 & -> & I1 & Hm1 & Hb);
    [lia | change (free_len (mgr s0)) with (free_len (mgr s)); lia |]. cbn [mbind option_bind]. destruct b.
  - do 4 eexists. split; [reflexivity |]. split; [exact I1 |]. split; [by eapply moved_trans |]. cbn in Hb. lia.
  - subst s1. destruct (recover_below_spec (u64 (sz * RECOVER_FACTOR)) (Z.to_nat i) 0 false s0 fl1 hs l1 I1) as (ok & sp & s2 & fl2 & l2 & -> & I2 & Hm2 & Hs2 & Hcase & _).
    { change (free_len (mgr s0)) with (free_len (mgr s)). lia. }
    cbn [mbind option_bind]. change (base.size (chunks s0)) with (base.size (chunks s)) in *. destruct ok.
    + do 4 eexists. split; [reflexivity |]. split; [exact I2 |]. split; [by eapply moved_trans |]. split; [done |]. intros _. apply Hcase. by left.
    + eexists _, (upd_stat (count_stat 0 0 1 0) s2), fl2, l2. split; [reflexivity |]. split; [by apply inv_upd |]. split; [by eapply moved_trans |]. split; [done |].
      destruct sp; [|done]. intros _. apply Hcase. by right.
Qed.

(** ** Allocation *)

(** A block that the allocator has granted and that is not yet a chunk. *)
Definition asked (s : slabs) (fl : list (list ptr)) (hs : list ptr) (l : gmap ptr Z) (p : ptr) (n : Z) : Prop :=
  exists a, inv (with_alloc a s) fl hs l /\ fresh_for l p n /\ owns (alloc s) (<[p := n]> l).

Definition answered (s : slabs) (fl : list (list ptr)) (hs : list ptr) (l : gmap ptr Z) (p : ptr) (n : Z) : Prop :=
  p = nullptr /\ inv s fl hs l \/ p <> nullptr /\ asked s fl hs l p n.

Lemma ask_spec n err s fl hs l : inv s fl hs l -> 0 < n < 2 ^ 63 ->
  exists p err' s', ask n err s = Some (p, err', s') /\ mgr s' = mgr s /\ chunks s' = chunks s /\ answered s' fl hs l p n.
Proof.
  intros I Hn. unfold ask. destruct (alloc_ok n (allocator_errno err) (alloc s) l (i_owns _ _ _ _ I) Hn) as (p & ae & a' & -> & Hcase). cbn [mbind option_bind].
  do 3 eexists. split; [reflexivity |]. split; [done |]. split; [done |]. destruct I as [H1 H2 H3 H4 H5 H6 H7 H8 H9 H10 H11 H12].
  destruct Hcase as [[-> Ho] | [Hf Ho]]; [left; split; [done |]; by split | right]. split; [apply Hf |]. exists (alloc s). split; [|by split]. by split.
Qed.

Lemma alloc_loop_spec sz i : 0 < sz < 2 ^ 63 -> forall fuel p ret err s fl hs l, answered s fl hs l p sz -> 0 <= i < free_len (mgr s) -> (S (base.size (chunks s)) < fuel)%nat ->
  exists p' ret' err' s' fl' l', alloc_loop fuel p ret sz i err s = Some (p', ret', err', s') /\ moved s s' hs /\ answered s' fl' hs l' p' sz.
Proof using Hfree.
  intros Hsz. induction fuel as [|fuel IH]; intros p ret err s fl hs l Ha Hi Hf; [lia |]. cbn [alloc_loop]. destruct Ha as [[-> I] | [Hp Ha]].
  - rewrite bool_decide_true by done. cbn [negb]. destruct (recover_spec sz i s fl hs l I Hi) as (r & s1 & fl1 & l1 & -> & I1 & Hm1 & Hs1 & Hs2). cbn [mbind option_bind].
    destruct (Z.eqb_spec r NOSPACE) as [-> | Hr]; [do 6 eexists; split; [reflexivity |]; split; [done |]; by left |]. specialize (Hs2 Hr).
    destruct (ask_spec sz err s1 fl1 hs l1 I1 Hsz) as (p2 & err2 & s2 & -> & E1 & E2 & Ha2). cbn [mbind option_bind].
    destruct (IH p2 r err2 s2 fl1 hs l1 Ha2) as (p' & ret' & err' & s' & fl' & l' & Hrun & Hm & Ha'); [rewrite E1; destruct Hm1 as [(_ & _ & _ & -> & _) _]; lia | rewrite E2; lia |].
    exists p', ret', err', s', fl', l'. split; [exact Hrun |]. split; [|done]. eapply moved_trans; [exact Hm1 |]. destruct Hm as [Hsh Hh]. split; [by rewrite <- E1 |].
    intros q Hq. by rewrite Hh, E2.
  - rewrite bool_decide_false by done. cbn [negb]. do 6 eexists. split; [reflexivity |]. split; [done |]. right. by split.
Qed.

Lemma body_spec h : header (body h) = h /\ body h <> nullptr /\ Z.of_N (body h) = Z.of_N h + CHUNK.
Proof. unfold header, body, CHUNK, nullptr. lia. Qed.

(** What a client got: a new chunk with at least the bytes asked for. *)
Definition got_chunk (s s' : slabs) (fl : list (list ptr)) (hs : list ptr) (l : gmap ptr Z) (p : ptr) (got req : Z) : Prop :=
  exists h k, p = body h /\ inv s' fl (h :: hs) l /\ moved s s' hs /\ chunks s' !! h = Some k /\ got <= c_size k /\ req <= got.

(** The header of a chunk that is handed out. *)
Definition handed (ty cid req : Z) (k : chunk_link) : chunk_link :=
  {| c_size := c_size k; req_size := if ty =? ALLOC_TYPE_ACT then c_size k else req; id := cid; next := next k |}.

Lemma hand_out_run h ty cid req err s k : chunks s !! h = Some k ->
  hand_out h ty cid req err s =
    Some (body h, req_size (handed ty cid req k), err, upd_stat (add_stat (c_size k) (req_size (handed ty cid req k)) 0 0) (with_chunk h (handed ty cid req k) s)).
Proof. intros Hk. unfold hand_out. by rewrite Hk. Qed.

Lemma handed_bounds ty cid req k : req <= c_size k -> req_size (handed ty cid req k) <= c_size k /\ req <= req_size (handed ty cid req k).
Proof. cbn. destruct (_ =? _); lia. Qed.

(** Every request is answered: refused, or with a new chunk. *)
Lemma slabs_alloc_spec ty req old s fl hs l : inv s fl hs l -> 0 <= req < 2 ^ 61 ->
  exists p got err s' fl' l', dfs_slabs_alloc ty req old s = Some (p, got, err, s') /\
    (p = nullptr /\ inv s' fl' hs l' /\ moved s s' hs \/ p <> nullptr /\ got_chunk s s' fl' hs l' p got req).
Proof using Hfree.
  intros I Hreq. unfold dfs_slabs_alloc. destruct (Z.eqb_spec req 0) as [-> | Hr0]; [do 6 eexists; split; [reflexivity |]; left; by split |].
  destruct (clsid_spec _ (i_geom _ _ _ _ I) req ltac:(lia)) as (cid & -> & Hcid). cbn [mbind option_bind].
  destruct Hcid as [[-> _] | [Hne (c & Hc & Hroom & _)]]; [do 6 eexists; split; [reflexivity |]; left; by split |].
  rewrite (proj2 (Z.eqb_neq _ _) Hne), Hc. cbn [mbind option_bind]. pose proof (class_at_range _ (i_geom _ _ _ _ I) _ _ Hc) as Hr.
  pose proof (size_bounds _ (i_geom _ _ _ _ I) _ _ Hc) as Hsz.
  destruct (head_spec _ _ _ _ cid c I Hc) as (q & Hq & Hch & Hhd). destruct q as [|h q].
  - rewrite Hhd, bool_decide_true by done. cbn [negb].
    destruct (ask_spec (size c) DFS_SLAB_ERRNO_CLEAN s fl hs l I ltac:(unfold CHUNK in *; lia)) as (p0 & err0 & s0 & -> & E1 & E2 & Ha0). cbn [mbind option_bind].
    destruct (alloc_loop_spec (size c) cid ltac:(unfold CHUNK in *; lia) (S (S (base.size (chunks s0)))) p0 0 err0 s0 fl hs l Ha0) as (p & ret & err & s1 & fl1 & l1 & -> & Hm & Ha);
      [rewrite E1; lia | lia |]. cbn [mbind option_bind].
    assert (moved s s1 hs) as Hm1 by (destruct Hm as [Hsh Hh]; split; [by rewrite <- E1 | intros r Hr'; by rewrite Hh, E2]).
    destruct Ha as [[-> I1] | [Hp (a & I1 & Hf & Ho)]].
    + rewrite bool_decide_true by done. do 6 eexists. split; [reflexivity |]. left. split; [done |]. split; [by apply inv_upd | done].
    + rewrite bool_decide_false by done. set (k := {| c_size := u64 (size c - CHUNK); req_size := _; id := _; next := _ |}).
      assert (size c = c_size k + CHUNK) as Esz by (unfold k; cbn; rewrite u64_small by (unfold is_u64, CHUNK in *; lia); lia).
      set (s2 := with_chunk p k (upd_stat (add_stat 0 0 0 1) s1)). rewrite (hand_out_run p ty cid req err s2 k) by apply lookup_insert_eq.
      set (k' := handed ty cid req k). destruct (handed_bounds ty cid req k) as [Hb1 Hb2]; [lia |]. fold k' in Hb1, Hb2.
      do 6 eexists. split; [reflexivity |]. right. split; [apply body_spec |]. exists p, k'. split; [done |].
      assert (p ∉ hs) as Hph.
      { intros Hin. destruct (chunk_granted _ _ _ _ p I1) as (k0 & Hk0 & _); [set_solver |]. destruct (i_block _ _ _ _ I1 _ _ Hk0) as [_ Hl0].
        by destruct (fresh_lookup _ _ _ _ _ Hf Hl0). }
      assert (exists d, class_at (mgr s1) cid = Some d /\ size d = size c) as (d & Hd & Esd).
      { destruct Hm1 as [Hsh _]. destruct (class_at_lookup _ (i_geom _ _ _ _ I1) cid) as [d Hd]; [cbn; destruct Hsh as (_ & _ & _ & -> & _); lia |]. exists d. split; [done |].
        destruct (same_shape_size _ _ _ _ Hsh Hd) as (c' & Hc' & <-). rewrite Hc in Hc'. by injection Hc' as <-. }
      split; [|split; [|split; [apply lookup_insert_eq | done]]].
      * rewrite Esz in Hf, Ho. pose proof (inv_add _ _ _ _ p k' (alloc s1) (add_stat (c_size k) (req_size k') 0 0 (add_stat 0 0 0 1 (stat (mgr s1)))) I1 Hf Ho) as I2.
        cbn [mgr chunks alloc with_alloc] in I2. unfold upd_stat, with_chunk, s2. cbn [mgr chunks alloc with_mgr upd_stat with_chunk stat with_stat]. rewrite insert_insert_eq.
        apply I2; [unfold k'; cbn [c_size handed]; unfold CHUNK in *; lia | right; exists d; split; [done | by rewrite Esd] |]. cbn. unfold u64. rewrite Z.add_0_r, Zmod_mod. done.
      * split; [exact (proj1 Hm1) |]. intros r Hr'. cbn. rewrite !lookup_insert_ne by (by intros <-). by apply Hm1.
  - destruct Hhd as [Ehd Hh]. rewrite Ehd, bool_decide_false by done. cbn [negb]. destruct Hch as (_ & k & Hk & _). rewrite Hk. cbn [mbind option_bind].
    destruct (set_free_list_spec cid (next k) (mgr s) c Hc) as (m' & Hm & _). rewrite Hm. cbn [mbind option_bind].
    destruct (inv_pop _ _ _ _ _ _ _ _ _ _ I Hc Hq Hk Hm) as (I1 & Hsh & Hst). destruct (i_free _ _ _ _ I cid (h :: q) h ltac:(lia) Hq ltac:(by left)) as (k2 & c2 & Hk2 & Eid & Hc2 & Esz).
    rewrite Hk in Hk2. injection Hk2 as <-. rewrite Hc in Hc2. injection Hc2 as <-.
    set (s1 := upd_stat (add_stat 0 0 (- c_size k) 0) (with_mgr m' s)). rewrite (hand_out_run h ty cid req _ s1 k) by done. set (k' := handed ty cid req k).
    destruct (handed_bounds ty cid req k) as [Hb1 Hb2]; [lia |]. fold k' in Hb1, Hb2. pose proof (i_count _ _ _ _ I1) as Hcnt.
    assert (forall u v w t, chunk_count (add_stat u v w 0 t) = u64 (chunk_count t)) as Hu by (intros; cbn; by rewrite Z.add_0_r).
    assert (inv s1 (<[Z.to_nat cid := q]> fl) (h :: hs) l) as I2.
    { apply inv_upd; [done |]. rewrite Hu, Hcnt. unfold u64. by rewrite Zmod_mod. }
    do 6 eexists. split; [reflexivity |]. right. split; [apply body_spec |]. exists h, k'. split; [done |]. pose proof (in_hs _ _ _ _ _ I1) as Hhh.
    split; [|split; [|split; [apply lookup_insert_eq | done]]].
    * apply inv_upd; [|rewrite Hu; cbn; unfold u64; by rewrite !Zmod_mod]. apply (inv_header _ _ _ _ h k k' I2); [by left | done | done | done].
    * split; [exact Hsh |]. intros r Hr'. cbn. apply lookup_insert_ne. by intros <-.
Qed.

Lemma slabs_split_spec req old mn s fl hs l : inv s fl hs l -> 0 <= req < 2 ^ 61 -> 0 <= mn < 2 ^ 61 ->
  exists p got err s' l', dfs_slabs_split_alloc req old mn s = Some (p, got, err, s') /\
    (p = nullptr /\ inv s' fl hs l' /\ moved s s' hs \/ p <> nullptr /\ got_chunk s s' fl hs l' p got mn).
Proof.
  intros I Hreq Hmn. unfold dfs_slabs_split_alloc. destruct (Z.eqb_spec req 0); [do 5 eexists; split; [reflexivity |]; left; by split |].
  destruct a_split_alloc as [f|] eqn:Ef; [|do 5 eexists; split; [reflexivity |]; left; by split].
  destruct (class_at_lookup _ (i_geom _ _ _ _ I) (free_len (mgr s) - 1)) as [c Hc]; [pose proof (g_len _ (i_geom _ _ _ _ I)); lia |]. rewrite Hc. cbn [mbind option_bind].
  destruct (_ <? _); [do 5 eexists; split; [reflexivity |]; left; by split |].
  rewrite (u64_small (mn + CHUNK)), alignment_ceil8 by (unfold is_u64, CHUNK; lia). pose proof (ceil8_spec (mn + CHUNK)) as Hc8.
  destruct (split_ok f 0 (ceil8 (mn + CHUNK)) (allocator_errno DFS_SLAB_ERRNO_CLEAN) (alloc s) l Ef (i_owns _ _ _ _ I)) as (p & act & ae & a' & -> & Hcase); [unfold CHUNK in *; lia |].
  cbn [mbind option_bind]. destruct Hcase as [[-> Ho] | (Hact & Hf & Ho)].
  - rewrite bool_decide_true by done. do 5 eexists. split; [reflexivity |]. left. split; [done |]. split; [|done]. apply (inv_upd (with_alloc a' s)); [|done].
    destruct I as [H1 H2 H3 H4 H5 H6 H7 H8 H9 H10 H11 H12]. by split.
  - rewrite bool_decide_false by apply Hf. assert (u64 (act - CHUNK) = act - CHUNK) as -> by (apply u64_small; unfold is_u64, CHUNK in *; lia).
    set (got := if act - CHUNK <=? req then act - CHUNK else req). set (k := {| c_size := act - CHUNK; req_size := got; id := SPLIT_ID; next := next blank |}).
    assert (act = c_size k + CHUNK) as E by (cbn; lia). do 5 eexists. split; [reflexivity |]. right. split; [apply body_spec |]. exists p, k. split; [done |].
    assert (p ∉ hs) as Hph.
    { intros Hin. destruct (chunk_granted _ _ _ _ p I) as (k0 & Hk0 & _); [set_solver |]. destruct (i_block _ _ _ _ I _ _ Hk0) as [_ Hl0]. by destruct (fresh_lookup _ _ _ _ _ Hf Hl0). }
    split; [|split; [|split; [apply lookup_insert_eq |]]].
    + rewrite E in Hf, Ho. apply (inv_add s fl hs l p k a' (add_stat (act - CHUNK) got 0 1 (stat (mgr s))) I Hf Ho); [cbn; unfold CHUNK in *; lia | by left | done].
    + split; [done |]. intros r Hr. cbn. apply lookup_insert_ne. by intros <-.
    + cbn. unfold CHUNK in *. lia.
Qed.

(** ** Giving back *)

(** A chunk of the client is taken back, whatever the answer. *)
Lemma slabs_free_spec h s fl hs l : inv s fl (h :: hs) l ->
  exists rc err s' fl' l', dfs_slabs_free (body h) s = Some (rc, err, s') /\ inv s' fl' hs l' /\ moved s s' hs.
Proof using Hfree.
  intros I. unfold dfs_slabs_free. destruct (body_spec h) as (Eh & Hn & _). rewrite bool_decide_false by done. rewrite Eh. destruct Hfree as [f Ef]. rewrite Ef.
  destruct (chunk_granted _ _ _ _ h I) as (k & Hk & _); [set_solver |]. rewrite Hk. cbn [mbind option_bind]. pose proof (in_hs _ _ _ _ _ I) as Hh.
  destruct (i_block _ _ _ _ I _ _ Hk) as [Hb Hl]. destruct (Z.eqb_spec (id k) SPLIT_ID) as [Esp | Hid].
  - set (s1 := upd_stat _ s). destruct (give_back_spec h (allocator_errno DFS_SLAB_ERRNO_CLEAN) s1 l _ (i_owns _ _ _ _ I) Hl) as (ae & a' & -> & Ho).
    cbn [mbind option_bind]. do 5 eexists. split; [reflexivity |]. split.
    + apply (inv_remove s fl hs l h k a' (add_stat (- c_size k) (- req_size k) 0 (-1) (stat (mgr s))) I Hk Ho). done.
    + split; [done |]. intros r Hr. cbn. apply lookup_delete_ne. by intros <-.
  - destruct (i_held _ _ _ _ I h k ltac:(by left) Hk) as [? | (c & Hc & Hsz)]; [done |]. rewrite Hc. cbn [mbind option_bind].
    destruct (set_free_list_spec (id k) h (mgr s) c Hc) as (m' & Hm & _). cbn [mgr with_chunk]. rewrite Hm. cbn [mbind option_bind].
    destruct (inv_push _ _ _ _ _ _ _ _ I Hk Hc Hsz Hm) as (fl' & I1 & Hsh & Hst). set (s1 := with_mgr m' _) in *.
    assert (moved s s1 hs) as Hm1 by (split; [exact Hsh |]; intros r Hr; cbn; apply lookup_insert_ne; by intros <-). destruct (_ <? _).
    + do 5 eexists. split; [reflexivity |]. by split.
    + do 5 eexists. split; [reflexivity |]. split; [|done]. apply inv_upd; [done |]. cbn. rewrite Z.add_0_r, Hst.
      rewrite (i_count _ _ _ _ I). unfold u64. by rewrite Zmod_mod.
Qed.

(** ** Clients *)

Inductive scall := SAlloc (alloc_type req : Z) | SSplit (req req_minsize : Z) | SFree (i : nat).

Definition scall_ok (c : scall) : Prop := match c with SAlloc _ n => 0 <= n < 2 ^ 61 | SSplit n m => 0 <= n < 2 ^ 61 /\ 0 <= m < 2 ^ 61 | SFree _ => True end.

(** The ranges a client holds: address, bytes, and the bytes it asked for at least. *)
Record range := { r_at : ptr; r_size : Z; r_least : Z }.

Definition gain (p : ptr) (n least : Z) (rs : list range) : list range :=
  if bool_decide (p = nullptr) then rs else {| r_at := p; r_size := n; r_least := least |} :: rs.

(** [SFree i] gives back the [i]-th range. *)
Definition run_scall (c : scall) (s : slabs * list range) : option (slabs * list range) :=
  let '(s, rs) := s in
  match c with
  | SAlloc ty req => '(p, got, _, s) ← dfs_slabs_alloc ty req 0 s; Some (s, gain p got req rs)
  | SSplit req mn => '(p, got, _, s) ← dfs_slabs_split_alloc req 0 mn s; Some (s, gain p got mn rs)
  | SFree i => match rs !! i with Some x => '(_, _, s) ← dfs_slabs_free (r_at x) s; Some (s, delete i rs) | None => Some (s, rs) end
  end.

Fixpoint run_scalls (cs : list scall) (s : slabs * list range) : option (slabs * list range) :=
  match cs with [] => Some s | c :: cs => s ← run_scall c s; run_scalls cs s end.

Definition range_ok (s : slabs) (x : range) : Prop :=
  r_at x = body (header (r_at x)) /\ exists k, chunks s !! header (r_at x) = Some k /\ r_size x <= c_size k /\ r_least x <= r_size x.

Definition served (st : slabs * list range) : Prop :=
  exists fl l, inv st.1 fl (map (fun x => header (r_at x)) st.2) l /\ Forall (range_ok st.1) st.2.

Lemma range_ok_moved s s' rs : moved s s' (map (fun x => header (r_at x)) rs) -> Forall (range_ok s) rs -> Forall (range_ok s') rs.
Proof.
  intros [_ Hm] H. rewrite Forall_forall in H |- *. intros x Hx. destruct (H x Hx) as (E & k & Hk & Hb). split; [done |]. exists k. split; [|done].
  rewrite Hm; [done |]. apply list_elem_of_fmap. by exists x.
Qed.

Lemma served_gain s s' fl rs l p got least :
  Forall (range_ok s) rs -> got_chunk s s' fl (map (fun x => header (r_at x)) rs) l p got least -> served (s', {| r_at := p; r_size := got; r_least := least |} :: rs).
Proof.
  intros Hr (h & k & -> & I & Hm & Hk & Hgot & Hleast). destruct (body_spec h) as (Eh & _ & _). exists fl, l. split; [cbn; by rewrite Eh |]. constructor.
  - split; cbn; rewrite Eh; [done |]. by exists k.
  - by eapply range_ok_moved.
Qed.

Lemma run_scall_served c st : served st -> scall_ok c -> exists st', run_scall c st = Some st' /\ served st'.
Proof using Hfree.
  destruct st as [s rs]. intros (fl & l & I & Hr) Hc. cbn [fst snd] in *. destruct c as [ty req | req mn | i]; cbn [run_scall scall_ok] in *.
  - destruct (slabs_alloc_spec ty req 0 s fl _ l I Hc) as (p & got & err & s' & fl' & l' & -> & Hcase). cbn [mbind option_bind]. eexists. split; [reflexivity |]. unfold gain.
    destruct Hcase as [(-> & I' & Hm) | (Hp & Hg)]; [rewrite bool_decide_true by done | rewrite bool_decide_false by done].
    + exists fl', l'. split; [exact I' |]. by eapply range_ok_moved.
    + by eapply served_gain.
  - destruct Hc as [Hc1 Hc2]. destruct (slabs_split_spec req 0 mn s fl _ l I Hc1 Hc2) as (p & got & err & s' & l' & -> & Hcase). cbn [mbind option_bind]. eexists.
    split; [reflexivity |]. unfold gain. destruct Hcase as [(-> & I' & Hm) | (Hp & Hg)]; [rewrite bool_decide_true by done | rewrite bool_decide_false by done].
    + exists fl, l'. split; [exact I' |]. by eapply range_ok_moved.
    + by eapply served_gain.
  - destruct (rs !! i) as [x|] eqn:Ei; [|eexists; split; [reflexivity |]; by exists fl, l]. rewrite Forall_forall in Hr.
    destruct (Hr x) as (Eb & _); [by eapply list_elem_of_lookup_2 |].
    assert (map (fun x => header (r_at x)) rs ≡ₚ header (r_at x) :: map (fun x => header (r_at x)) (delete i rs)) as Ep by (by rewrite (delete_Permutation rs i x Ei) at 1).
    apply (inv_perm _ _ _ _ _ Ep) in I. destruct (slabs_free_spec _ _ _ _ _ I) as (rc & err & s' & fl' & l' & Hrun & I' & Hm). rewrite <- Eb in Hrun. rewrite Hrun.
    cbn [mbind option_bind]. eexists. split; [reflexivity |]. exists fl', l'. split; [exact I' |]. eapply range_ok_moved; [exact Hm |]. rewrite Forall_forall.
    intros y Hy. apply Hr. rewrite (delete_Permutation rs i x Ei). by right.
Qed.

Lemma run_scalls_served cs : forall st, served st -> Forall scall_ok cs -> exists st', run_scalls cs st = Some st' /\ served st'.
Proof using Hfree.
  induction cs as [|c cs IH]; intros st Hs Hcs; [by exists st |]. apply Forall_cons in Hcs as [Hc Hcs]. cbn [run_scalls].
  destruct (run_scall_served c st Hs Hc) as (st1 & -> & H1). cbn [mbind option_bind]. by apply IH.
Qed.

Lemma concat_nils n : concat (replicate n (@nil ptr)) = [].
Proof using. by induction n. Qed.

(** What creation leaves, in an allocator that owes [l]. *)
Lemma slabs_create_spec a l ty f lo hi : owns a l -> 0 < lo -> hi < 2 ^ 58 ->
  exists err r, dfs_slabs_create a ty f lo hi = Some (err, r) /\
    match r with inl s => hi <= item (mgr s) (free_len (mgr s) - 1) /\ exists l', inv s (replicate (Z.to_nat (free_len (mgr s))) []) [] l' | inr _ => True end.
Proof using promise.
  clear Hfree. intros Ho Hlo Hhi. unfold dfs_slabs_create. destruct (_ || _) eqn:Eg; [by do 2 eexists |]. apply orb_false_iff in Eg as [_ Hq%Z.ltb_ge].
  pose proof (levels_spec ty f lo hi Hlo Hq Hhi) as Hlev. destruct (levels ty f lo hi) as [[n | e]|]; [| by do 2 eexists | done]. cbn [mbind option_bind].
  destruct Hlev as (Hty & Hn & Hstep). unfold allocator_calloc.
  destruct (alloc_ok MANAGER (allocator_errno DFS_SLAB_ERRNO_CLEAN) a l Ho) as (p & ae & a1 & -> & Hcase); [unfold MANAGER; lia |]. cbn [mbind option_bind].
  destruct Hcase as [[-> _] | [Hf1 Ho1]]; [rewrite bool_decide_true by done; by do 2 eexists |]. rewrite bool_decide_false by apply Hf1.
  rewrite (u64_small (SLABCLASS * (n + 1))) by (unfold is_u64, SLABCLASS; lia).
  destruct (alloc_ok (SLABCLASS * (n + 1)) ae a1 _ Ho1) as (q & ae2 & a2 & -> & Hcase); [unfold SLABCLASS; lia |]. cbn [mbind option_bind].
  destruct Hcase as [[-> _] | [Hf2 Ho2]]; [rewrite bool_decide_true by done; by do 2 eexists |]. rewrite bool_decide_false by apply Hf2.
  do 2 eexists. split; [reflexivity |]. cbn [mgr free_len]. set (m := {| self := p; table := q; uptype := ty; free_len := n + 1; factor := f; min_size := lo; stat := _; slabclass := _ |}).
  assert (forall i, item m i = step ty lo i) as Hitem by done. assert (p <> q) as Hpq by (intros ->; by destruct (fresh_lookup _ _ _ _ _ Hf2 (lookup_insert_eq _ _ _))).
  split; [rewrite Hitem; replace (n + 1 - 1) with n by lia; lia |]. exists (<[q := SLABCLASS * (n + 1)]> (<[p := MANAGER]> l)).
  assert (forall i c, class_at m i = Some c -> 0 <= i < n + 1 /\ c = {| size := ceil8 (step ty lo i + CHUNK); free_list := nullptr |}) as Hclass.
  { intros i c. unfold class_at. destruct (Z.ltb_spec i 0); [done |]. cbn [slabclass m]. intros Hc. pose proof (lookup_lt_Some _ _ _ Hc) as Hlt. rewrite length_class_sizes in Hlt.
    assert (step ty lo (Z.of_nat (Z.to_nat (n + 1)) - 1) < 2 ^ 61) as Hst by (replace (Z.of_nat (Z.to_nat (n + 1)) - 1) with n by lia; lia).
    rewrite (class_sizes_lookup ty f Hty _ lo _ Hlo Hst Hlt), Z2Nat.id in Hc by lia. injection Hc as <-. split; [lia | done]. }
  split; cbn [mgr chunks alloc].
  - done.
  - split; cbn [uptype factor min_size free_len slabclass m].
    + destruct Hty as [[-> _] | [-> ->]]; [by left | by right].
    + done.
    + lia.
    + rewrite Hitem. replace (n + 1 - 1) with n by lia. lia.
    + rewrite length_class_sizes. lia.
    + intros i c Hc. destruct (Hclass i c Hc) as [_ ->]. done.
  - cbn. rewrite lookup_insert_ne by done. apply lookup_insert_eq.
  - apply lookup_insert_eq.
  - cbn [self table m]. rewrite concat_nils.
    cbn. apply NoDup_cons. split; [set_solver | apply NoDup_singleton].
  - cbn. by rewrite length_replicate, length_class_sizes.
  - intros i c r Hc [-> _]%lookup_replicate. destruct (Hclass i c Hc) as [_ ->]. done.
  - intros r. rewrite concat_nils.
    rewrite lookup_empty. cbn. split; [intros [? ?]; done | by intros ?%not_elem_of_nil].
  - done.
  - intros i r x _ [-> _]%lookup_replicate Hx. by apply not_elem_of_nil in Hx.
  - intros r k Hr. by apply not_elem_of_nil in Hr.
  - cbn. by rewrite map_size_empty.
Qed.

Lemma blocks_spread s fl hs l p q k j : inv s fl hs l -> chunks s !! p = Some k -> chunks s !! q = Some j -> p <> q -> spread p (c_size k + CHUNK) q (c_size j + CHUNK).
Proof.
  intros I Hp Hq Hne. destruct (i_block _ _ _ _ I _ _ Hp) as [_ Hlp], (i_block _ _ _ _ I _ _ Hq) as [_ Hlq].
  destruct (owns_apart _ _ _ _ (i_owns _ _ _ _ I) Hlp) as (_ & _ & H). apply (H q). by rewrite lookup_delete_ne.
Qed.

(** Ranges of clients keep off each other, the headers, the manager and its table. *)
Definition well_apart (s : slabs) (rs : list range) : Prop :=
  (forall x, x ∈ rs -> r_least x <= r_size x) /\
  (forall i j x y, i <> j -> rs !! i = Some x -> rs !! j = Some y -> spread (r_at x) (r_size x) (r_at y) (r_size y)) /\
  (forall x h k, x ∈ rs -> chunks s !! h = Some k -> spread (r_at x) (r_size x) h CHUNK) /\
  (forall x, x ∈ rs -> spread (r_at x) (r_size x) (self (mgr s)) MANAGER /\ spread (r_at x) (r_size x) (table (mgr s)) (SLABCLASS * free_len (mgr s))).

Lemma served_apart s rs : served (s, rs) -> well_apart s rs.
Proof.
  intros (fl & l & I & Hr). cbn [fst snd] in *. rewrite Forall_forall in Hr.
  assert (forall x, x ∈ rs -> exists k, chunks s !! header (r_at x) = Some k /\ 0 <= c_size k /\ r_size x <= c_size k /\ r_least x <= r_size x /\ Z.of_N (r_at x) = Z.of_N (header (r_at x)) + CHUNK) as Hx.
  { intros x Hx. destruct (Hr x Hx) as (E & k & Hk & H1 & H2). exists k. destruct (i_block _ _ _ _ I _ _ Hk) as [? _]. split; [done |]. split; [lia |]. split; [done |]. split; [done |].
    rewrite E at 1. apply body_spec. }
  assert (forall x b n, x ∈ rs -> l !! b = Some n -> b ∉ concat fl ++ map (fun x => header (r_at x)) rs -> spread (r_at x) (r_size x) b n) as Hblock.
  { intros x b n Hin Hb Hni. destruct (Hx x Hin) as (k & Hk & H0 & H1 & H2 & H3). destruct (i_block _ _ _ _ I _ _ Hk) as [_ Hl].
    destruct (owns_apart _ _ _ _ (i_owns _ _ _ _ I) Hl) as (_ & _ & H). assert (header (r_at x) <> b) as Hne by (intros <-; apply Hni, (i_dom _ _ _ _ I); by eexists).
    destruct (H b n) as [_ Hs]; [by rewrite lookup_delete_ne |]. unfold spread, CHUNK in *. lia. }
  pose proof (i_nodup _ _ _ _ I) as Hnd. split; [|split; [|split]].
  - intros x Hin. by destruct (Hx x Hin) as (k & _ & _ & _ & ? & _).
  - intros i j x y Hij Hi Hj. destruct (Hx x) as (k & Hk & H0 & H1 & H2 & H3); [by eapply list_elem_of_lookup_2 |]. destruct (Hx y) as (k' & Hk' & H0' & H1' & H2' & H3'); [by eapply list_elem_of_lookup_2 |].
    assert (header (r_at x) <> header (r_at y)) as Hne.
    { intros E. apply NoDup_cons in Hnd as [_ [_ (_ & _ & Hnd)%NoDup_app]%NoDup_cons]. apply Hij, (NoDup_lookup _ i j (header (r_at x)) Hnd); rewrite list_lookup_fmap; [by rewrite Hi | rewrite Hj, E; done]. }
    pose proof (blocks_spread _ _ _ _ _ _ _ _ I Hk Hk' Hne) as Hs. unfold spread, CHUNK in *. lia.
  - intros x h k' Hin Hk'. destruct (Hx x Hin) as (k & Hk & H0 & H1 & H2 & H3). destruct (i_block _ _ _ _ I _ _ Hk') as [? _].
    destruct (decide (header (r_at x) = h)) as [<- | Hne]; [unfold spread, CHUNK in *; lia |].
    pose proof (blocks_spread _ _ _ _ _ _ _ _ I Hk Hk' Hne) as Hs. unfold spread, CHUNK in *. lia.
  - apply NoDup_cons in Hnd as [Hself [Htable _]%NoDup_cons]. apply not_elem_of_cons in Hself as [_ Hself]. intros x Hin.
    split; [by apply Hblock; [|apply (i_self _ _ _ _ I) |] | by apply Hblock; [|apply (i_table _ _ _ _ I) |]].
Qed.

(** C14. Clients of a slab allocator are safe, over any allocator that keeps its promise and has
    an operation to free (shared memory and the common pool have one, the memory pool has none): after
    the creation of a manager whose smallest item is not 0 and whose largest is below 2^58, whatever a client allocates,
    splits off and gives back, each request being below 2^61 (a request near 2^64 wraps around
    when the header is added to it and is answered with a small chunk: [slabs_request_wraps]),
    no call is undefined (the recovery of chunks when the allocator refuses always ends), and the
    ranges the client holds have at least the bytes asked for, share no byte with each other and
    none with the headers of the chunks, the manager and its table. *)
Theorem slabs_client_safe a l ty f lo hi err s cs :
  owns a l -> 0 < lo -> hi < 2 ^ 58 -> dfs_slabs_create a ty f lo hi = Some (err, inl s) -> Forall scall_ok cs ->
  exists s' rs, run_scalls cs (s, []) = Some (s', rs) /\ well_apart s' rs.
Proof using Hfree.
  intros Ho Hlo Hhi Hc Hcs. destruct (slabs_create_spec a l ty f lo hi Ho Hlo Hhi) as (err' & r & Hc' & Hr). rewrite Hc in Hc'. injection Hc' as <- <-. destruct Hr as (_ & l' & I).
  destruct (run_scalls_served cs (s, [])) as ([s' rs] & Hrun & Hs); [by exists (replicate (Z.to_nat (free_len (mgr s))) []), l' | done |].
  exists s', rs. split; [done |]. by apply served_apart.
Qed.

(** C15. The class of a size is right: for a created manager every size up to the largest item
    has a class; its chunks have room for the size, and no class meant for the size has smaller
    ones. Excepted are managers of two classes that double. *)
Theorem slabs_class_right a l ty f lo hi err s sz :
  owns a l -> 0 < lo -> hi < 2 ^ 58 -> dfs_slabs_create a ty f lo hi = Some (err, inl s) -> 0 < sz <= hi ->
  ~ (uptype (mgr s) = UPTYPE_POWER /\ free_len (mgr s) = 2) ->
  exists i, dfs_slabs_clsid (mgr s) sz SLAB_TRUE = Some i /\ right_class (mgr s) sz i.
Proof using promise.
  intros Ho Hlo Hhi Hc Hsz Hex. destruct (slabs_create_spec a l ty f lo hi Ho Hlo Hhi) as (err' & r & Hc' & Hr). rewrite Hc in Hc'. injection Hc' as <- <-. destruct Hr as (Hmax & l' & I).
  pose proof (i_geom _ _ _ _ I) as G. destruct (clsid_spec _ G sz ltac:(lia)) as (i & Hrun & Hcase). exists i. split; [done |].
  destruct Hcase as [[_ [Hsmall | ?]] | [_ ?]]; [|done | done]. destruct (class_at_lookup _ G (free_len (mgr s) - 1)) as [c Hcl]; [pose proof (g_len _ G); lia |].
  destruct (Hsmall _ _ Hcl). lia.
Qed.

(** With two classes that double, every size strictly between them is refused, although the
    larger class has room: the loop that should find the class starts above its end. *)
Lemma slabs_two_classes_refuse s fl hs l sz a b :
  inv s fl hs l -> uptype (mgr s) = UPTYPE_POWER -> free_len (mgr s) = 2 -> class_at (mgr s) 0 = Some a -> class_at (mgr s) 1 = Some b ->
  size a < sz + CHUNK -> sz + CHUNK + 8 <= size b -> 0 < sz ->
  forall ty old, dfs_slabs_alloc ty sz old s = Some (nullptr, old, with_errno ALLOC_INVALID_ID DFS_SLAB_ERRNO_CLEAN, s).
Proof using promise.
  intros I Ht Hlen Ha Hb H1 H2 H0 ty old. pose proof (size_bounds _ (i_geom _ _ _ _ I) _ _ Hb) as Hsb. unfold dfs_slabs_alloc. destruct (Z.eqb_spec sz 0); [lia |].
  assert (dfs_slabs_clsid (mgr s) sz SLAB_TRUE = Some INVALID_ID) as ->; [|done]. unfold dfs_slabs_clsid. destruct (Z.eqb_spec sz 0); [lia |].
  rewrite (u64_small (sz + CHUNK)) by (unfold is_u64, CHUNK in *; lia). rewrite alignment_ceil8 by (unfold CHUNK in *; lia). pose proof (ceil8_spec (sz + CHUNK)).
  rewrite Hlen. change (2 - 1) with 1. rewrite Ha, Hb. cbn [mbind option_bind]. rewrite (proj2 (Z.ltb_ge _ _)) by lia. rewrite (proj2 (Z.leb_gt _ _)) by lia.
  destruct (Z.eqb_spec (ceil8 (sz + CHUNK)) (size b)); [lia |]. by rewrite Ht.
Qed.

End Invariant.

End Slabs.

(** ** Witnesses *)

(** A slab allocator over a shared-memory segment, and two over a fixed area. *)
Definition get_slabs {A} (x : option (dfs_slab_errno * (slabs (A := A) + A))) (a : A) : slabs (A := A) :=
  match x with
  | Some (_, inl s) => s
  | _ => {| mgr := {| self := nullptr; table := nullptr; uptype := 0; free_len := 0; factor := 0; min_size := 0; stat := no_stat 0; slabclass := [] |}; chunks := ∅; alloc := a |}
  end.

Definition shm_create : option (dfs_slab_errno * (slabs (A := shmem_me) + shmem_me)) := dfs_slabs_create (Some small_state) UPTYPE_POWER POWER_FACTOR 64 512.
Definition shm_slabs : slabs (A := shmem_me) := get_slabs shm_create None.

Definition shm_calls : list scall := [SAlloc ALLOC_TYPE_REQ 100; SAlloc ALLOC_TYPE_ACT 400; SSplit 200 500; SFree 1; SAlloc ALLOC_TYPE_REQ 300; SFree 2; SFree 0].

Lemma shm_can_free : exists f, a_free (A := shmem_me) = Some f.
Proof. by eexists. Qed.

Lemma shm_owns_none : owns (A := shmem_me) (Some small_state) ∅.
Proof. exact (shmem_created _ _ _ _ _ _ _ _ small_ok small_created). Qed.

Lemma shm_calls_ok : Forall scall_ok shm_calls.
Proof. repeat constructor; lia. Qed.

Lemma slabs_client_safe_witness : exists s' rs, run_scalls shm_calls (shm_slabs, []) = Some (s', rs) /\ well_apart s' rs.
Proof.
  apply (slabs_client_safe (A := shmem_me) shm_can_free (Some small_state) ∅ UPTYPE_POWER POWER_FACTOR 64 512 DFS_SLAB_ERRNO_CLEAN shm_slabs shm_calls shm_owns_none);
    [lia | lia | vm_compute; reflexivity | exact shm_calls_ok].
Defined.

Example shm_ranges : (fun x => map r_size x.2) <$> run_scalls shm_calls (shm_slabs, []) = Some [6576].
Proof. vm_compute. reflexivity. Qed.

Lemma slabs_class_right_witness : exists i, dfs_slabs_clsid (mgr shm_slabs) 300 SLAB_TRUE = Some i /\ right_class (mgr shm_slabs) 300 i.
Proof.
  apply (slabs_class_right (A := shmem_me) (Some small_state) ∅ UPTYPE_POWER POWER_FACTOR 64 512 DFS_SLAB_ERRNO_CLEAN shm_slabs 300 shm_owns_none);
    [lia | lia | vm_compute; reflexivity | lia | intros [_ E]; vm_compute in E; discriminate E].
Defined.

Definition area : option mpool_mgmt := Some (mpool_mgmt_create 4096 65536).
Definition two_classes : slabs (A := option mpool_mgmt) := get_slabs (dfs_slabs_create area UPTYPE_POWER POWER_FACTOR 1024 2048) None.

Lemma area_owns : owns (A := option mpool_mgmt) area ∅.
Proof. apply comm_created; lia. Qed.

Lemma two_classes_inv : exists l, inv two_classes (replicate 2 []) [] l.
Proof.
  destruct (slabs_create_spec (A := option mpool_mgmt) area ∅ UPTYPE_POWER POWER_FACTOR 1024 2048 area_owns ltac:(lia) ltac:(lia)) as (err & r & Hc & Hr).
  assert (dfs_slabs_create area UPTYPE_POWER POWER_FACTOR 1024 2048 = Some (DFS_SLAB_ERRNO_CLEAN, inl two_classes)) as E by (vm_compute; reflexivity).
  rewrite E in Hc. injection Hc as <- <-. destruct Hr as (_ & l & I). by exists l.
Qed.

Lemma slabs_two_classes_refuse_witness :
  dfs_slabs_alloc ALLOC_TYPE_REQ 1500 0 two_classes = Some (nullptr, 0, with_errno ALLOC_INVALID_ID DFS_SLAB_ERRNO_CLEAN, two_classes).
Proof.
  destruct two_classes_inv as [l I]. eapply (slabs_two_classes_refuse (A := option mpool_mgmt) two_classes (replicate 2 []) [] l 1500 {| size := 1056; free_list := nullptr |} {| size := 2080; free_list := nullptr |} I);
    [vm_compute; reflexivity .. | cbn; unfold CHUNK; lia | cbn; unfold CHUNK; lia | lia].
Defined.

(** Giving back the only chunk in use is reported as an error: the counter of used bytes is
    compared with the size of the class, which has the header in it. The chunk is in its free
    list all the same, the counter keeps the bytes, and when the chunk is handed out again the
    counter of free bytes wraps around. *)
Example slabs_last_free_fails :
  ('(p, _, _, s) ← dfs_slabs_alloc ALLOC_TYPE_REQ 1000 0 two_classes;
   '(rc, err, s) ← dfs_slabs_free p s;
   '(q, _, _, s') ← dfs_slabs_alloc ALLOC_TYPE_REQ 1000 0 s;
   Some (rc, errno err, bool_decide (p = q), used_size (stat (mgr s)), used_size (stat (mgr s')), free_size (stat (mgr s')))) =
  Some (SLAB_ERROR, FREE_CHUNK_ID, true, 1024, 2048, 2 ^ 64 - 1024).
Proof. vm_compute. reflexivity. Qed.

(** The header is added to a request modulo 2^64: a request of 2^64 - 16 bytes is answered with
    a chunk of the smallest class, and the caller is told that it got them all. *)
Example slabs_request_wraps :
  ('(p, got, err, s) ← dfs_slabs_alloc ALLOC_TYPE_REQ (2 ^ 64 - 16) 0 two_classes;
   Some (bool_decide (p = nullptr), got, errno err, used_size (stat (mgr s)))) = Some (false, 2 ^ 64 - 16, ERR_NONE, 1024).
Proof. vm_compute. reflexivity. Qed.

(** [dfs_slabs_release] refuses when it has a place for errors, and writes to a null pointer when it has none. *)
Lemma slabs_release_never {A} `{Allocator A} err (s : option (slabs (A := A))) :
  dfs_slabs_release (Some err) s = Some (SLAB_ERROR, Some err, s) /\ dfs_slabs_release None s = None.
Proof. done. Qed.
