(* ===== verification/Array.v ===== *)
(** * Arrays ([src/core/dfs_array.cpp])

    An array is a header and a range of memory for [nalloc] elements of [a_size] bytes, from a
    pool or from [malloc]. The header is a value that the operations thread; the elements are
    bytes of the heap of MemoryPool. A push answers the address of the next element: the
    caller writes it. When the range is full it grows in place if it is the last thing that
    its pool handed out, and moves to a range of twice the size if not.

    [array_push_room] says what one push gives; [array_append_refines] that an array to which
    its owner appends is the list of what was appended. *)

From S2P Require Import Prelude Memory MemoryPool.

(** ** The operations *)

(* src/src/core/dfs_array.h:7-14 (array_s) *)
Record array_t := { elts : ptr; nelts : Z; a_size : Z; nalloc : Z; a_pool : ptr }.

Definition sizeof_array : Z := 40.
Definition NGX_OK : Z := 0.
Definition NGX_ERROR : Z := -1.

Definition with_nelts (n : Z) (a : array_t) : array_t :=
  {| elts := elts a; nelts := n; a_size := a_size a; nalloc := nalloc a; a_pool := a_pool a |}.
Definition with_room (e : ptr) (n : Z) (a : array_t) : array_t :=
  {| elts := e; nelts := nelts a; a_size := a_size a; nalloc := n; a_pool := a_pool a |}.

(** [memcpy] of [n] bytes, of which some may have no value yet. *)
Fixpoint copy_bytes (dst src : ptr) (n : nat) (m : memory) : memory :=
  match n with
  | O => m
  | S n =>
      let m := match m !! src with Some b => <[dst := b]> m | None => delete dst m end in
      copy_bytes (at_ dst 1) (at_ src 1) n m
  end.

Definition heap_memcpy (dst src : ptr) (n : Z) (h : heap) : heap :=
  let h := clobber dst n h in
  {| datas := datas h; pools := pools h; larges := larges h; live := live h; bytes := copy_bytes dst src (Z.to_nat n) (bytes h); calls := calls h |}.

Section Array.

Context (malloc : nat -> gmap ptr Z -> Z -> ptr).

(** [pool_alloc] if there is a pool, [memory_alloc] if not. *)
(* src/src/core/dfs_array.cpp:15-24 (array_create) *)
Definition take_memory (depth : nat) (p : ptr) (size : Z) (h : heap) : option (ptr * heap) :=
  if bool_decide (p = nullptr) then Some (memory_alloc malloc size h) else pool_alloc malloc depth p size h.

(** The address and the header of the new array; [a->elts] is written before [a] is looked at,
    so the first allocation must not fail. *)
(* src/src/core/dfs_array.cpp:6-37 (array_create) *)
Definition array_create (depth : nat) (p : ptr) (n size : Z) (h : heap) : option (option (ptr * array_t) * heap) :=
  if (size =? 0) || (n =? 0) then Some (None, h)
  else
    '(a, h) ← take_memory depth p sizeof_array h;
    '(e, h) ← take_memory depth p (u64 (n * size)) h;
    if bool_decide (a = nullptr) then None
    else
      let h := clobber a sizeof_array h in
      if bool_decide (e = nullptr) then Some (None, h)
      else Some (Some (a, {| elts := e; nelts := 0; a_size := size; nalloc := n; a_pool := p |}), h).

(* src/src/core/dfs_array.cpp:39-66 (array_init) *)
Definition array_init (depth : nat) (array : option array_t) (pool : ptr) (n size : Z) (h : heap) : option (Z * option array_t * heap) :=
  match array with
  | None => Some (NGX_ERROR, None, h)
  | Some a =>
      if (n =? 0) || (size =? 0) then Some (NGX_ERROR, Some a, h)
      else
        '(e, h) ← take_memory depth pool (u64 (n * size)) h;
        let a := {| elts := e; nelts := 0; a_size := size; nalloc := n; a_pool := pool |} in
        if bool_decide (e = nullptr) then Some (NGX_ERROR, Some a, h) else Some (NGX_OK, Some a, h)
  end.

(* src/src/core/dfs_array.cpp:68-72 (array_reset) *)
Definition array_reset (a : array_t) (h : heap) : array_t * heap :=
  (with_nelts 0 a, write (elts a) (repeat 0 (Z.to_nat (u64 (a_size a * nelts a)))) h).

(** The array's memory goes back only when it is the last that the pool's first block handed
    out. *)
(* src/src/core/dfs_array.cpp:74-101 (array_destroy) *)
Definition array_destroy (a : option (ptr * array_t)) (h : heap) : option heap :=
  match a with
  | None => Some h
  | Some (at_a, a) =>
      if bool_decide (a_pool a = nullptr) then memory_free (elts a) h
      else
        d ← datas h !! a_pool a;
        let d := if bool_decide (plus (elts a) (u64 (a_size a * nalloc a)) = last d) then with_last (elts a) d else d in
        let d := if bool_decide (plus at_a sizeof_array = last d) then with_last at_a d else d in
        Some (set_data (a_pool a) d h)
  end.

(** [array_push] of a full array; [None] when there is no room to be had. *)
(* src/src/core/dfs_array.cpp:120-167 (array_push) *)
Definition array_grow (depth : nat) (a : array_t) (h : heap) : option (option array_t * heap) :=
  let size := u64 (a_size a * nalloc a) in
  if bool_decide (a_pool a = nullptr) then Some (None, h)
  else
    d ← datas h !! a_pool a;
    if bool_decide (plus (elts a) size = last d) && bool_decide (plus (last d) (a_size a) <= end_ d)%N then
      Some (Some (with_room (elts a) (u32 (nalloc a + 1)) a), set_data (a_pool a) (with_last (plus (last d) (a_size a)) d) h)
    else
      '(na, h) ← pool_alloc malloc depth (a_pool a) (u64 (2 * size)) h;
      if bool_decide (na = nullptr) then Some (None, h)
      else Some (Some (with_room na (u32 (nalloc a * 2)) a), heap_memcpy na (elts a) size h).

(* src/src/core/dfs_array.cpp:104-173 (array_push) *)
Definition array_push (depth : nat) (a : option array_t) (h : heap) : option (ptr * option array_t * heap) :=
  match a with
  | None => Some (nullptr, None, h)
  | Some a =>
      '(room, h) ← (if nelts a =? nalloc a then array_grow depth a h else Some (Some a, h));
      match room with
      | None => Some (nullptr, Some a, h)
      | Some a => Some (plus (elts a) (u64 (a_size a * nelts a)), Some (with_nelts (u32 (nelts a + 1)) a), h)
      end
  end.

End Array.

(** The walks over the elements see an element as its address; a comparison answers whether
    it matches. *)
Fixpoint indices (n : nat) (i : Z) : list Z := match n with O => [] | S n => i :: indices n (i + 1) end.

Definition element (a : array_t) (i : Z) : ptr := plus (elts a) (u64 (a_size a * i)).

(* src/src/core/dfs_array.cpp:201-217 (array_find) *)
Definition array_find {D} (func : ptr -> D -> heap -> bool) (array : array_t) (dst : D) (h : heap) : ptr :=
  match List.find (fun i => func (element array i) dst h) (indices (Z.to_nat (nelts array)) 0) with
  | Some i => element array i
  | None => nullptr
  end.

(** The inner loop counts with [j] but indexes the second array with [i]: it compares the same
    two elements [nelts a2] times over, or until they match. *)
(* src/src/core/dfs_array.cpp:186-196 (array_inherit) *)
Fixpoint inherit_one (n2 : nat) (func : ptr -> ptr -> heap -> bool) (func2 : ptr -> ptr -> heap -> heap) (v1 v2 : ptr) (h : heap) : heap :=
  match n2 with
  | O => h
  | S n2 => if func v1 v2 h then func2 v1 v2 h else inherit_one n2 func func2 v1 v2 h
  end.

(* src/src/core/dfs_array.cpp:176-198 (array_inherit) *)
Definition array_inherit (a1 a2 : array_t) (func : ptr -> ptr -> heap -> bool) (func2 : ptr -> ptr -> heap -> heap) (h : heap) : heap :=
  foldl (fun h i => inherit_one (Z.to_nat (nelts a2)) func func2 (element a1 i) (element a2 i) h) h (indices (Z.to_nat (nelts a1)) 0).

(** ** Memory that is copied *)

Lemma copy_bytes_other n : forall dst src m a, (a < dst)%N \/ (at_ dst n <= a)%N -> copy_bytes dst src n m !! a = m !! a.
Proof.
  induction n as [|n IH]; intros dst src m a Ha; cbn [copy_bytes]; [done |]. rewrite IH by (unfold at_ in *; lia).
  destruct (m !! src); [apply lookup_insert_ne | apply lookup_delete_ne]; unfold at_ in *; lia.
Qed.

Lemma copy_bytes_copied n : forall dst src m i,
  (at_ dst n <= src)%N \/ (at_ src n <= dst)%N -> (i < n)%nat -> copy_bytes dst src n m !! at_ dst i = m !! at_ src i.
Proof.
  induction n as [|n IH]; intros dst src m i Hd Hi; [lia |]. cbn [copy_bytes]. destruct i as [|i].
  - rewrite copy_bytes_other by (unfold at_; lia). rewrite !at_0.
    destruct (m !! src) eqn:E; [by rewrite lookup_insert_eq | by rewrite lookup_delete_eq].
  - rewrite <- (at_S dst i), <- (at_S src i). rewrite IH; [|unfold at_ in *; lia | lia].
    destruct (m !! src); [apply lookup_insert_ne | apply lookup_delete_ne]; unfold at_ in *; lia.
Qed.

(** ** A range that grows in place *)

Lemma header_unique others ps pool r bs ls small h p d d' :
  pool_ok others ps pool r bs ls small h -> (p, d) ∈ bs -> (p, d') ∈ bs -> d = d'.
Proof.
  intros K H H'. destruct (chain_lookup _ _ _ _ _ _ (k_chain _ _ _ _ _ _ _ _ K) H) as [E _].
  destruct (chain_lookup _ _ _ _ _ _ (k_chain _ _ _ _ _ _ _ _ K) H') as [E' _]. congruence.
Qed.

Lemma taken_middle s1 x s2 ls : taken (s1 ++ x :: s2) ls ≡ₚ x :: taken (s1 ++ s2) ls.
Proof. unfold taken. rewrite <- !app_assoc. cbn [app]. symmetry. apply Permutation_middle. Qed.

(** The range that ends where the first block's free memory begins gets [k] more bytes. *)
Lemma pool_ok_extend others ps pool r d bs ls s1 s2 h e n k :
  pool_ok others ps pool r ((pool, d) :: bs) ls (s1 ++ (e, n) :: s2) h -> 0 < k -> Z.of_N e + n = Z.of_N (last d) ->
  Z.of_N (last d) + k <= Z.of_N (end_ d) ->
  pool_ok others ps pool r ((pool, with_last (plus (last d) k) d) :: bs) ls (s1 ++ (e, n + k) :: s2) (set_data pool (with_last (plus (last d) k) d) h).
Proof.
  intros K Hk He Hend. set (d' := with_last (plus (last d) k) d).
  pose proof K as [K1 K2 K3 K4 K5 K6 K7 K8 K9 K10 K11 K13 K14].
  assert (taken (s1 ++ (e, n) :: s2) ls ≡ₚ (e, n) :: taken (s1 ++ s2) ls) as Et1 by apply taken_middle.
  assert (taken (s1 ++ (e, n + k) :: s2) ls ≡ₚ (e, n + k) :: taken (s1 ++ s2) ls) as Et2 by apply taken_middle.
  rewrite Et1 in K14. destruct K14 as [K14 K15]. destruct (K7 pool d) as (Hl & Hord & He'); [by left |].
  assert (Z.of_N (last d') = Z.of_N (last d) + k) as Elast by (cbn; rewrite plus_spec by lia; lia).
  assert (forall x, x ∈ taken (s1 ++ (e, n) :: s2) ls -> 0 < x.2 /\ (8 | Z.of_N x.1) /\
    exists p c, (p, c) ∈ (pool, d') :: bs /\ Z.of_N p + head_size pool p <= Z.of_N x.1 /\ Z.of_N x.1 + x.2 <= Z.of_N (last c)) as Hold.
  { intros x Hx. destruct (K13 x Hx) as (H1 & H2 & p & c & Hp & H3 & H4). split; [done |]. split; [done |].
    apply elem_of_cons in Hp as [[= -> ->] | Hp]; [exists pool, d'; split; [by left | lia] | exists p, c; split; [by right | lia]]. }
  destruct (K13 (e, n)) as (Hn & Hdiv & p & c & Hp & Hpe & Hpc); [rewrite Et1; by left |]. cbn [fst snd] in *.
  assert (p = pool /\ c = d) as [-> ->].
  { destruct (decide (p = pool)) as [-> | Hne]; [split; [done |]; eapply header_unique; [exact K | exact Hp | by left] |]. exfalso.
    destruct (K7 p c Hp) as (Hlp & Hop & Hep). pose proof (proj2 K11 p ps pool ps Hlp Hl Hne) as Hap. unfold apart in Hap.
    pose proof (head_size_pos pool p). pose proof (head_size_pos pool pool). lia. }
  split; try done.
  - by apply (chain_update next (datas h) pool [] pool d d' bs).
  - intros b x Hb. apply elem_of_cons in Hb as [[= -> ->] | Hb]; [|apply K7; by right]. split; [done |]. rewrite Elast. cbn. lia.
  - intros x Hx. rewrite Et2 in Hx. apply elem_of_cons in Hx as [-> | Hx]; [|apply Hold; rewrite Et1; by right].
    cbn [fst snd]. split; [lia |]. split; [done |]. exists pool, d'. split; [by left | lia].
  - rewrite Et2. split; [|done]. apply Forall_forall. intros x Hx. rewrite Forall_forall in K14. pose proof (K14 x Hx) as Hap.
    destruct (K13 x) as (Hx0 & _ & b & y & Hb & Hby & Hxy); [rewrite Et1; by right |]. unfold aparts, apart in *. cbn [fst snd] in *.
    destruct (decide (b = pool)) as [-> | Hne].
    + assert (y = d) as -> by (eapply header_unique; [exact K | exact Hb | by left]). lia.
    + destruct (K7 b y Hb) as (Hlb & Hob & Heb). pose proof (proj2 K11 b ps pool ps Hlb Hl Hne) as Hbp. unfold apart in Hbp.
      pose proof (head_size_pos pool b). pose proof (head_size_pos pool pool). lia.
Qed.

(** A range of the pool that ends there is a small request of the first block. *)
Lemma last_range_small others ps pool r d bs ls small h e n :
  pool_ok others ps pool r ((pool, d) :: bs) ls small h -> 0 < n -> (e, n) ∈ users small ls -> Z.of_N e + n = Z.of_N (last d) -> (e, n) ∈ small.
Proof.
  intros K Hn He Hl. apply elem_of_app in He as [? | He]; [done |]. exfalso. apply list_elem_of_fmap in He as ([q x] & [= -> ->] & Hq).
  destruct (k_large _ _ _ _ _ _ _ _ K q x Hq) as [_ Hlive]. destruct (k_block _ _ _ _ _ _ _ _ K pool d) as (Hp & Ho & He); [by left |].
  assert (alloc x <> pool) as Hne by (intros E; apply (large_not_block _ _ _ _ _ _ _ _ _ _ K Hq); rewrite E; by left).
  pose proof (proj2 (k_live _ _ _ _ _ _ _ _ K) _ _ _ _ Hlive Hp Hne) as Hap. unfold apart in Hap. pose proof (head_size_pos pool pool). lia.
Qed.

(** A heap with more headers serves as well. *)
Lemma pool_ok_more others ps pool r bs ls small h h' :
  pool_ok others ps pool r bs ls small h -> pools h ⊆ pools h' -> datas h ⊆ datas h' -> larges h ⊆ larges h' -> live h' = live h ->
  pool_ok others ps pool r bs ls small h'.
Proof.
  intros [] E1 E2 E3 E4. split; rewrite ?E4; try done.
  - by eapply lookup_weaken.
  - eapply chain_keep; [done |]. intros p d Hp. eapply lookup_weaken; [by eapply chain_lookup | done].
  - eapply chain_keep; [done |]. intros p d Hp. eapply lookup_weaken; [by eapply chain_lookup | done].
Qed.

Lemma filter_weaken {A} (P Q : ptr * A -> Prop) `{!forall x, Decision (P x), !forall x, Decision (Q x)} (m : gmap ptr A) :
  (forall x, P x -> Q x) -> filter P m ⊆ filter Q m.
Proof. intros Hpq. apply map_subseteq_spec. intros i x. rewrite !map_lookup_filter_Some. naive_solver. Qed.

(** A client writes [k] bytes somewhere in its range. *)
Lemma pool_ok_write_part others ps pool r bs ls small h p n q k m :
  pool_ok others ps pool r bs ls small h -> (p, n) ∈ users small ls -> 0 <= k -> Z.of_N p <= Z.of_N q -> Z.of_N q + k <= Z.of_N p + n ->
  pool_ok others ps pool r bs ls small
    {| datas := datas (clobber q k h); pools := pools (clobber q k h); larges := larges (clobber q k h); live := live h; bytes := m; calls := calls h |}.
Proof.
  intros K Hp Hk Hq Hn.
  eapply pool_ok_more; [apply (pool_ok_write (fun _ _ _ => nullptr) (fun _ _ _ _ => nullptr) _ _ _ _ _ _ _ h p (repeat 0 (Z.to_nat n)) K) | | | | done].
  1: rewrite repeat_length, Z2Nat.id by lia; done.
  all: cbn; apply filter_weaken; intros x; unfold apart; rewrite repeat_length; lia.
Qed.

(** ** One push *)

(** The bytes of the range of an array. *)
Definition capacity (a : array_t) : Z := a_size a * nalloc a.

(** An array of the pool's: its range is one that the pool handed out. *)
Record array_ok (pool : ptr) (ls : list (ptr * pool_large_s)) (small : list (ptr * Z)) (a : array_t) : Prop := {
  a_in_pool : a_pool a = pool;
  a_range : (elts a, capacity a) ∈ users small ls;
  a_elem : 0 < a_size a;
  a_count : 0 <= nelts a <= nalloc a /\ 0 < nalloc a < 2 ^ 32
}.

(** It may still double: neither the count nor the size of the range wraps. *)
Definition may_grow (a : array_t) : Prop := 2 * nalloc a < 2 ^ 32 /\ 2 * capacity a < 2 ^ 64.

(** The other ranges of the pool are still apart from the array, and they hold what they held. *)
Definition ranges_kept (a a' : array_t) (ls ls' : list (ptr * pool_large_s)) (small small' : list (ptr * Z)) (h h' : heap) : Prop :=
  (forall q k, (q, k) ∈ users small ls -> apart q k (elts a) (capacity a) -> (q, k) ∈ users small' ls' /\ apart q k (elts a') (capacity a')) /\
  forall q k l, (q, k) ∈ users small ls -> Z.of_nat (length l) <= k -> holds (bytes h) q l -> holds (bytes h') q l.

Lemma ranges_kept_same a a' ls small h h' :
  bytes h' = bytes h -> elts a' = elts a -> capacity a' = capacity a -> ranges_kept a a' ls ls small small h h'.
Proof. intros E1 E2 E3. split; [intros q k Hq; by rewrite E2, E3 |]. intros q k l _ _. by rewrite E1. Qed.

Lemma users_middle s1 x s2 ls : users (s1 ++ x :: s2) ls ≡ₚ x :: users (s1 ++ s2) ls.
Proof. unfold users. rewrite <- !app_assoc. cbn [app]. symmetry. apply Permutation_middle. Qed.

(** What [array_grow] answers: room at the end, with the elements where they were or copied. *)
Definition grown (others : gmap ptr Z) (ps mx : Z) (pool : ptr) (ls : list (ptr * pool_large_s)) (small : list (ptr * Z)) (h : heap)
    (a a' : array_t) (h' : heap) : Prop :=
  exists ls' small', serves others ps mx pool ls' small' h' /\ array_ok pool ls' small' a' /\ nelts a' = nelts a /\ nelts a < nalloc a' /\
    a_size a' = a_size a /\ ranges_kept a a' ls ls' small small' h h' /\
    forall l, Z.of_nat (length l) <= capacity a -> holds (bytes h) (elts a) l -> holds (bytes h') (elts a') l.

Section Push.

Context {malloc : nat -> gmap ptr Z -> Z -> ptr} {posix_memalign : nat -> gmap ptr Z -> Z -> Z -> ptr}.
Context (Hmalloc : malloc_ok malloc) (Hmemalign : memalign_ok posix_memalign).

Lemma pool_head others ps pool r bs ls small h :
  pool_ok others ps pool r bs ls small h -> exists d bs', bs = (pool, d) :: bs' /\ datas h !! pool = Some d.
Proof using All.
  intros K. pose proof (k_chain _ _ _ _ _ _ _ _ K) as Hc. destruct bs as [|[p d] bs]; [by destruct (k_null _ _ _ _ _ _ _ _ K) |].
  destruct Hc as (-> & _ & Hd & _). by exists d, bs.
Qed.

Lemma user_bounds others ps pool r bs ls small h p n :
  pool_ok others ps pool r bs ls small h -> (p, n) ∈ users small ls -> 0 < n /\ Z.of_N p + n <= 2 ^ 63 /\ p <> nullptr.
Proof using All.
  intros K Hx. apply elem_of_app in Hx as [Hx | Hx].
  - destruct (k_taken _ _ _ _ _ _ _ _ K (p, n)) as (Hn & _ & q & d & Hq & H1 & H2); [unfold taken; set_solver |]. cbn in *.
    destruct (block_bounds _ _ _ _ _ _ _ _ _ _ K Hq) as [He _]. destruct (k_block _ _ _ _ _ _ _ _ K q d Hq) as (_ & Ho & _).
    pose proof (head_size_pos pool q). repeat split; [done | lia |]. unfold nullptr. lia.
  - apply list_elem_of_fmap in Hx as ([q x] & [= -> ->] & Hq). destruct (k_large _ _ _ _ _ _ _ _ K q x Hq) as [Hnn Hl].
    destruct (proj1 (k_live _ _ _ _ _ _ _ _ K) _ _ Hl) as (? & ? & ?). cbn. done.
Qed.

(** There is room behind the array. *)
Lemma grow_in_place others ps mx pool r d bs ls small h a :
  max r = mx -> pool_ok others ps pool r ((pool, d) :: bs) ls small h -> array_ok pool ls small a -> may_grow a -> nelts a = nalloc a ->
  plus (elts a) (capacity a) = last d -> (plus (last d) (a_size a) <= end_ d)%N ->
  grown others ps mx pool ls small h a (with_room (elts a) (u32 (nalloc a + 1)) a) (set_data pool (with_last (plus (last d) (a_size a)) d) h).
Proof using All.
  intros Hmx K [Ha1 Ha2 Ha3 [Ha4 Ha5]] [Hg1 Hg2] Hfull Hlast Hend. destruct (user_bounds _ _ _ _ _ _ _ _ _ _ K Ha2) as (Hcap & Hb & _).
  assert (Z.of_N (elts a) + capacity a = Z.of_N (last d)) as He by (rewrite <- Hlast, plus_spec by lia; lia).
  pose proof (last_range_small _ _ _ _ _ _ _ _ _ _ _ K Hcap Ha2 He) as Hs. apply list_elem_of_split in Hs as (s1 & s2 & ->).
  assert (Z.of_N (last d) + a_size a <= Z.of_N (end_ d)) as Hend' by (rewrite <- plus_spec by lia; lia).
  pose proof (pool_ok_extend _ _ _ _ _ _ _ _ _ _ _ _ _ K Ha3 He Hend') as K'.
  rewrite u32_small by (unfold is_u32; lia).
  assert (capacity (with_room (elts a) (nalloc a + 1) a) = capacity a + a_size a) as Ecap by (unfold capacity; cbn; lia).
  exists ls, (s1 ++ (elts a, capacity a + a_size a) :: s2). split; [by eexists _, _ |]. split; [split; cbn; [done | | done | lia] |].
  { rewrite Ecap, users_middle. by left. }
  split; [done |]. split; [cbn; lia |]. split; [done |]. split; [split |]; [| done | done].
  intros q k Hq Hap. rewrite Ecap. pose proof (users_separated malloc posix_memalign _ _ _ _ _ _ _ _ K') as Hsep. rewrite users_middle in Hsep.
  rewrite users_middle in Hq |- *. apply elem_of_cons in Hq as [[= -> ->] | Hq]; [unfold apart in Hap; lia |]. split; [by right |].
  destruct Hsep as [Hsep _]. rewrite Forall_forall in Hsep. specialize (Hsep (q, k) Hq). unfold aparts, apart in *. cbn in Hsep. cbn. lia.
Qed.

(** A new range of twice the size. *)
Lemma grow_move others ps mx pool ls ls' small small' h h' a na :
  serves others ps mx pool ls small h -> serves others ps mx pool ls' small' h' -> array_ok pool ls small a -> may_grow a -> nelts a = nalloc a ->
  bytes h' = bytes h -> users small' ls' ≡ₚ users small ls ++ [(na, 2 * capacity a)] ->
  grown others ps mx pool ls small h a (with_room na (u32 (nalloc a * 2)) a) (heap_memcpy na (elts a) (capacity a) h').
Proof using All.
  intros (r0 & bs0 & _ & K0) (r & bs & Hmx & K) [Ha1 Ha2 Ha3 [Ha4 Ha5]] [Hg1 Hg2] Hfull Eb Eu.
  destruct (user_bounds _ _ _ _ _ _ _ _ _ _ K0 Ha2) as (Hcap & Hb & _).
  pose proof (users_separated malloc posix_memalign _ _ _ _ _ _ _ _ K) as Hsep. rewrite Eu in Hsep. apply separated_app in Hsep as (_ & _ & Hsep).
  assert (forall q k, (q, k) ∈ users small ls -> apart q k na (2 * capacity a)) as Hap.
  { intros q k Hq. by apply (Hsep (q, k) (na, 2 * capacity a) Hq), list_elem_of_singleton. }
  assert (forall q k l, (q, k) ∈ users small ls -> Z.of_nat (length l) <= k -> holds (bytes h) q l ->
    holds (bytes (heap_memcpy na (elts a) (capacity a) h')) q l) as Hkeep.
  { intros q k l Hq Hl Hh i b Hi. cbn. rewrite Eb, copy_bytes_other; [by apply Hh |]. specialize (Hap q k Hq). apply lookup_lt_Some in Hi.
    unfold apart, at_ in *. lia. }
  rewrite u32_small by (unfold is_u32; lia). exists ls', small'. split.
  { exists r, bs. split; [done |]. apply (pool_ok_write_part _ _ _ _ _ _ _ h' na (2 * capacity a)); [done | rewrite Eu; apply elem_of_app; right; by apply list_elem_of_singleton | lia..]. }
  split; [split; cbn; [done | | done | lia] |].
  { rewrite Eu. unfold capacity. cbn. apply elem_of_app. right. apply list_elem_of_singleton. f_equal. unfold capacity. lia. }
  split; [done |]. split; [cbn; lia |]. split; [done |]. split; [split; [|done] |].
  - intros q k Hq _. rewrite Eu. split; [apply elem_of_app; by left |]. specialize (Hap q k Hq). unfold apart, capacity in *. cbn. lia.
  - intros l Hl Hh i b Hi. cbn [elts with_room]. cbn. specialize (Hap _ _ Ha2). pose proof (lookup_lt_Some _ _ _ Hi) as Hlt.
    rewrite Eb, copy_bytes_copied; [by apply Hh | unfold apart, at_ in *; lia | lia].
Qed.

Lemma array_grow_spec others ps mx pool ls small h a depth :
  serves others ps mx pool ls small h -> array_ok pool ls small a -> may_grow a -> nelts a = nalloc a ->
  exists room h', array_grow malloc (S (S depth)) a h = Some (room, h') /\
    match room with
    | None => serves others ps mx pool ls small h' /\ bytes h' = bytes h
    | Some a' => grown others ps mx pool ls small h a a' h'
    end.
Proof using All.
  intros Hs Ha Hg Hfull. pose proof Hs as (r & bs & Hmx & K). destruct (pool_head _ _ _ _ _ _ _ _ K) as (d & bs' & -> & Hd).
  destruct (user_bounds _ _ _ _ _ _ _ _ _ _ K (a_range _ _ _ _ Ha)) as (Hcap & Hb & _).
  unfold array_grow. fold (capacity a). rewrite (a_in_pool _ _ _ _ Ha), bool_decide_false by (by eapply k_null). rewrite Hd, mbind_some.
  rewrite u64_small by (unfold is_u64; lia). destruct (_ && _) eqn:E.
  - apply andb_true_iff in E as [E1%bool_decide_eq_true E2%bool_decide_eq_true]. eexists _, _. split; [reflexivity |]. by eapply grow_in_place.
  - rewrite u64_small by (unfold is_u64; destruct Hg; lia).
    destruct (pool_alloc_spec _ _ Hmalloc Hmemalign _ _ _ _ _ _ _ (2 * capacity a) depth Hs ltac:(lia)) as (na & h' & Hrun & Eb & Hcase).
    rewrite Hrun, mbind_some. destruct Hcase as [(-> & Hs') | [(Hp & _ & Hs') | (Hp & _ & _ & l & x & Ex & En & Hs')]].
    + rewrite bool_decide_true by done. eexists _, _. by split; [reflexivity |].
    + rewrite bool_decide_false by done. eexists _, _. split; [reflexivity |]. eapply grow_move; try done. apply users_snoc.
    + rewrite bool_decide_false by done. eexists _, _. split; [reflexivity |]. eapply grow_move; try done. rewrite users_cons, Ex, En. done.
Qed.

(** The elements of an array: [nelts] of them, of [a_size] bytes, one after the other. *)
Definition array_holds (a : array_t) (l : list (list Z)) (h : heap) : Prop :=
  Z.of_nat (length l) = nelts a /\ Forall (fun x => Z.of_nat (length x) = a_size a) l /\ holds (bytes h) (elts a) (concat l).

Lemma length_concat_same (s : Z) (l : list (list Z)) : Forall (fun x => Z.of_nat (length x) = s) l -> Z.of_nat (length (concat l)) = s * Z.of_nat (length l).
Proof using. induction 1 as [|x l Hx Hl IH]; cbn; [lia |]. rewrite length_app. lia. Qed.

Definition can_push (a : array_t) : Prop := nelts a = nalloc a -> may_grow a.

(** The room for one more element, before it is counted. *)
Lemma array_push_room others ps mx pool ls small h a l depth :
  serves others ps mx pool ls small h -> array_ok pool ls small a -> can_push a -> array_holds a l h ->
  exists p a' h', array_push malloc (S (S depth)) (Some a) h = Some (p, Some a', h') /\
    (p = nullptr /\ a' = a /\ serves others ps mx pool ls small h' /\ bytes h' = bytes h \/
     p <> nullptr /\ Z.of_N p = Z.of_N (elts a') + a_size a' * nelts a /\ nelts a' = nelts a + 1 /\ a_size a' = a_size a /\
     holds (bytes h') (elts a') (concat l) /\
     exists ls' small', serves others ps mx pool ls' small' h' /\ array_ok pool ls' small' a' /\ ranges_kept a a' ls ls' small small' h h').
Proof using All.
  intros Hs Ha Hg (Hl1 & Hl2 & Hl3). unfold array_push. set (room := if _ =? _ then _ else _).
  assert (exists r h', room = Some (r, h') /\ match r with None => serves others ps mx pool ls small h' /\ bytes h' = bytes h
    | Some a' => grown others ps mx pool ls small h a a' h' end) as (r & h' & Er & Hr).
  { subst room. destruct (Z.eqb_spec (nelts a) (nalloc a)) as [Hfull | Hne]; [apply array_grow_spec; [done | done | by apply Hg | done] |].
    eexists _, _. split; [reflexivity |]. destruct Ha as [Ha1 Ha2 Ha3 Ha4]. exists ls, small. split; [done |]. split; [done |]. split; [done |].
    split; [lia |]. split; [done |]. split; [by apply ranges_kept_same | done]. }
  rewrite Er, mbind_some. destruct r as [a'|]; cycle 1.
  { exists nullptr, a, h'. split; [done |]. left. split; [done |]. split; [done |]. exact Hr. }
  destruct Hr as (ls' & small' & Hs' & Ha' & En & Hlt & Esz & Hkept & Hcont).
  pose proof Hs' as (r' & bs' & _ & K'). destruct (user_bounds _ _ _ _ _ _ _ _ _ _ K' (a_range _ _ _ _ Ha')) as (Hcap & Hb & Hnn).
  destruct Ha' as [Ha1 Ha2 Ha3 Ha4].
  assert (0 <= a_size a' * nelts a' < 2 ^ 63) as Hoff by (unfold capacity in *; nia). rewrite u64_small by (unfold is_u64; lia).
  eexists _, _, _. split; [reflexivity |]. right. cbn [with_nelts elts nelts a_size].
  assert (Z.of_N (plus (elts a') (a_size a' * nelts a')) = Z.of_N (elts a') + a_size a' * nelts a) as Ep by (rewrite plus_spec by lia; lia).
  split; [intros E; rewrite E in Ep; unfold nullptr in *; nia |]. split; [done |]. split; [rewrite u32_small by (unfold is_u32; lia); lia |]. split; [done |].
  split; [apply Hcont; [|done]; rewrite (length_concat_same (a_size a)) by done; unfold capacity; destruct (a_count _ _ _ _ Ha); pose proof (a_elem _ _ _ _ Ha); nia |].
  exists ls', small'. split; [done |]. split; [|exact Hkept]. split; cbn; [done | done | done |]. rewrite u32_small by (unfold is_u32; lia). lia.
Qed.

(** ** An array and its owner *)

(** What the callers do with [array_push]: they write the element that it answers. *)
Definition array_append (depth : nat) (x : list Z) (a : array_t) (h : heap) : option (bool * array_t * heap) :=
  '(p, a', h) ← array_push malloc depth (Some a) h;
  if bool_decide (p = nullptr) then Some (false, a, h) else a' ← a'; Some (true, a', write p x h).

(** The owner of the array appends to it; other code takes memory from the same pool. *)
Inductive astep := Append (x : list Z) | Request (n : Z).

Record astate := { s_arr : array_t; s_list : list (list Z); s_heap : heap }.

Definition run_astep (depth : nat) (pool : ptr) (c : astep) (s : astate) : option astate :=
  match c with
  | Append x =>
      '(ok, a, h) ← array_append depth x (s_arr s) (s_heap s);
      Some {| s_arr := a; s_list := if ok : bool then s_list s ++ [x] else s_list s; s_heap := h |}
  | Request n => '(_, h) ← pool_alloc malloc depth pool n (s_heap s); Some {| s_arr := s_arr s; s_list := s_list s; s_heap := h |}
  end.

Fixpoint run_asteps (depth : nat) (pool : ptr) (cs : list astep) (s : astate) : option astate :=
  match cs with [] => Some s | c :: cs => s ← run_astep depth pool c s; run_asteps depth pool cs s end.

Definition astep_ok (size : Z) (c : astep) : Prop := match c with Append x => Z.of_nat (length x) = size | Request n => 0 < n end.

(** A range of somebody else, and what it holds. *)
Definition watched : Type := ptr * Z * list Z.

Definition undisturbed (small : list (ptr * Z)) (ls : list (ptr * pool_large_s)) (a : array_t) (h : heap) (w : watched) : Prop :=
  let '(q, k, l) := w in (q, k) ∈ users small ls /\ apart q k (elts a) (capacity a) /\ Z.of_nat (length l) <= k /\ holds (bytes h) q l.

(** The array is the list [s_list], and the watched ranges are left alone. At most [todo] appends are to come, and [room]
    bounds the number of elements. *)
Definition refines (others : gmap ptr Z) (ps mx : Z) (pool : ptr) (ws : list watched) (size room : Z) (todo : nat) (s : astate) : Prop :=
  exists ls small, serves others ps mx pool ls small (s_heap s) /\ array_ok pool ls small (s_arr s) /\ a_size (s_arr s) = size /\
    nelts (s_arr s) + Z.of_nat todo <= room /\
    array_holds (s_arr s) (s_list s) (s_heap s) /\ Forall (undisturbed small ls (s_arr s) (s_heap s)) ws.

Lemma put_append p l x m : holds m p l -> holds (put (at_ p (length l)) x m) p (l ++ x).
Proof using. intros Hl. apply holds_app. split; [|apply put_holds]. intros i b Hi. rewrite put_other; [by apply Hl |]. apply lookup_lt_Some in Hi. unfold at_. lia. Qed.

Lemma append_refines others ps mx pool ws size room todo s x depth :
  refines others ps mx pool ws size room (S todo) s -> Z.of_nat (length x) = size -> 2 * room < 2 ^ 32 -> 2 * (size * room) < 2 ^ 64 ->
  exists s', run_astep (S (S depth)) pool (Append x) s = Some s' /\ refines others ps mx pool ws size room todo s'.
Proof using All.
  destruct s as [a l h]. intros (ls & small & Hs & Ha & Esz & Hroom & Hl & Hw) Hx H32 H64. cbn [s_arr s_list s_heap] in *.
  pose proof (a_elem _ _ _ _ Ha) as Hpos. destruct (a_count _ _ _ _ Ha) as [Hc1 Hc2].
  destruct (array_push_room _ _ _ _ _ _ _ _ l depth Hs Ha) as (p & a' & h' & Hrun & Hcase); [|done |].
  { intros Hfull. unfold may_grow, capacity. rewrite <- Hfull. split; nia. }
  unfold run_astep, array_append. cbn [s_arr s_list s_heap]. rewrite Hrun, mbind_some. destruct Hcase as [(-> & -> & Hs' & Eb) | (Hp & Ep & En & Esz' & Hh & ls' & small' & Hs' & Ha' & Hk1 & Hk2)].
  - rewrite bool_decide_true by done. eexists. split; [reflexivity |]. exists ls, small. cbn. split; [done |]. split; [done |]. split; [done |].
    split; [lia |]. split; [split; [apply Hl | split; [apply Hl |]]; rewrite Eb; apply Hl |]. eapply Forall_impl; [exact Hw |].
    intros [[q k] w] (H1 & H2 & H3 & H4). by rewrite <- Eb in H4.
  - rewrite bool_decide_false by done. cbn [mbind option_bind]. eexists. split; [reflexivity |]. exists ls', small'. cbn [s_arr s_list s_heap].
    destruct Hl as (Hl1 & Hl2 & _). pose proof (length_concat_same _ _ Hl2) as Hlen. destruct (a_count _ _ _ _ Ha') as [Hc1' Hc2'].
    assert (Z.of_N p + Z.of_nat (length x) <= Z.of_N (elts a') + capacity a') as Hin by (unfold capacity; nia).
    assert (0 <= a_size a * nelts a) as Hge by nia.
    split; [|split; [done |]; split; [congruence |]; split; [lia |]; split].
    + destruct Hs' as (r & bs & Hmx & K). exists r, bs. split; [done |]. unfold write.
      apply (pool_ok_write_part _ _ _ _ _ _ _ h' (elts a') (capacity a')); [done | apply (a_range _ _ _ _ Ha') | lia | nia | lia].
    + split; [rewrite length_app; cbn; lia |]. split; [apply Forall_app; split; [by rewrite Esz' | by repeat constructor; rewrite Esz', Esz] |].
      rewrite concat_app. cbn [concat]. rewrite app_nil_r. cbn [bytes write]. replace p with (at_ (elts a') (length (concat l))); [by apply put_append |].
      unfold at_. rewrite Esz', <- Hl1, <- Hlen in Ep. lia.
    + eapply Forall_impl; [exact Hw |]. intros [[q k] w] (H1 & H2 & H3 & H4). destruct (Hk1 _ _ H1 H2) as [H5 H6]. split; [done |]. split; [done |]. split; [done |].
      intros i b Hi. cbn [bytes write]. rewrite put_other; [by apply (Hk2 q k w) |]. apply lookup_lt_Some in Hi. unfold apart, at_ in *. nia.
Qed.

(** Another client's request. *)
Lemma request_refines others ps mx pool ws size room todo s n depth :
  refines others ps mx pool ws size room todo s -> 0 < n ->
  exists s', run_astep (S (S depth)) pool (Request n) s = Some s' /\ refines others ps mx pool ws size room todo s'.
Proof using All.
  destruct s as [a l h]. intros (ls & small & Hs & Ha & Esz & Hroom & Hl & Hw) Hn. cbn [s_arr s_list s_heap] in *. cbn [run_astep s_heap].
  destruct (pool_alloc_spec _ _ Hmalloc Hmemalign _ _ _ _ _ _ _ n depth Hs Hn) as (p & h' & Hrun & Eb & Hcase). rewrite Hrun, mbind_some.
  eexists. split; [reflexivity |].
  assert (exists ls' small', serves others ps mx pool ls' small' h' /\ forall x, x ∈ users small ls -> x ∈ users small' ls') as (ls' & small' & Hs' & Hsub).
  { destruct Hcase as [(_ & Hs') | [(_ & _ & Hs') | (_ & _ & _ & q & x & _ & _ & Hs')]]; eexists _, _; (split; [exact Hs' |]); [done | |].
    - intros x Hx. rewrite users_snoc. apply elem_of_app. by left.
    - intros y Hy. rewrite users_cons. apply elem_of_app. by left. }
  exists ls', small'. cbn [s_arr s_list s_heap]. split; [done |]. split; [destruct Ha as [Ha1 Ha2 Ha3 Ha4]; split; [done | by apply Hsub | done | done] |].
  split; [done |]. split; [done |]. split; [unfold array_holds; by rewrite Eb |]. eapply Forall_impl; [exact Hw |].
  intros [[q k] w] (H1 & H2 & H3 & H4). rewrite <- Eb in H4. split; [by apply Hsub | done].
Qed.

Fixpoint appends (cs : list astep) : nat :=
  match cs with [] => O | Append _ :: cs => S (appends cs) | Request _ :: cs => appends cs end.

Lemma run_refines others ps mx pool ws size room depth cs : forall s,
  refines others ps mx pool ws size room (appends cs) s -> Forall (astep_ok size) cs -> 2 * room < 2 ^ 32 -> 2 * (size * room) < 2 ^ 64 ->
  exists s', run_asteps (S (S depth)) pool cs s = Some s' /\ refines others ps mx pool ws size room 0 s'.
Proof using All.
  induction cs as [|c cs IH]; intros s R Hc H32 H64; [by exists s |]. apply Forall_cons in Hc as [Hc Hcs]. cbn [run_asteps].
  assert (exists s', run_astep (S (S depth)) pool c s = Some s' /\ refines others ps mx pool ws size room (appends cs) s') as (s' & Hrun & R').
  { destruct c as [x | n]; [by apply append_refines | by apply request_refines]. }
  rewrite Hrun, mbind_some. by apply IH.
Qed.

(** Memory for a new array. *)
Lemma take_memory_spec others ps mx pool ls small h n depth :
  serves others ps mx pool ls small h -> 0 < n ->
  exists p h', take_memory malloc (S (S depth)) pool n h = Some (p, h') /\ bytes h' = bytes h /\
    exists ls' small', serves others ps mx pool ls' small' h' /\
      (p = nullptr /\ users small' ls' ≡ₚ users small ls \/ p <> nullptr /\ users small' ls' ≡ₚ users small ls ++ [(p, n)]).
Proof using All.
  intros Hs Hn. unfold take_memory. pose proof Hs as (r & bs & _ & K). rewrite bool_decide_false by (by eapply k_null).
  destruct (pool_alloc_spec _ _ Hmalloc Hmemalign _ _ _ _ _ _ _ n depth Hs Hn) as (p & h' & Hrun & Eb & Hcase). exists p, h'. split; [done |]. split; [done |].
  destruct Hcase as [(-> & Hs') | [(Hp & _ & Hs') | (Hp & _ & _ & q & x & Ex & En & Hs')]]; eexists _, _; (split; [exact Hs' |]).
  - left. done.
  - right. split; [done |]. apply users_snoc.
  - right. split; [done |]. rewrite users_cons, Ex, En. done.
Qed.

(** A pool either refuses the array's header, which the code does not survive, or the elements,
    or it makes an empty array that leaves everybody's ranges alone. *)
Lemma array_create_spec others ps mx pool ls small h n size depth :
  serves others ps mx pool ls small h -> 0 < n < 2 ^ 32 -> 0 < size -> n * size < 2 ^ 64 ->
  (exists h', take_memory malloc (S (S depth)) pool sizeof_array h = Some (nullptr, h')) \/
  (exists h', array_create malloc (S (S depth)) pool n size h = Some (None, h')) \/
  exists p a h', array_create malloc (S (S depth)) pool n size h = Some (Some (p, a), h') /\
    forall ws todo room, Forall (fun w => w.1 ∈ users small ls /\ Z.of_nat (length w.2) <= w.1.2 /\ holds (bytes h) w.1.1 w.2) ws -> Z.of_nat todo <= room ->
      refines others ps mx pool ws size room todo {| s_arr := a; s_list := []; s_heap := h' |}.
Proof using All.
  intros Hs Hn Hsz Hw. destruct (take_memory_spec _ _ _ _ _ _ _ sizeof_array depth Hs) as (p & h1 & Hr1 & Eb1 & ls1 & small1 & Hs1 & H1); [done |].
  destruct (decide (p = nullptr)) as [-> | Hp]; [left; by eexists | right]. destruct H1 as [[? _] | [_ H1]]; [done |].
  destruct (take_memory_spec _ _ _ _ _ _ _ (n * size) depth Hs1) as (e & h2 & Hr2 & Eb2 & ls2 & small2 & Hs2 & H2); [lia |].
  unfold array_create. destruct (Z.eqb_spec size 0); [lia |]. destruct (Z.eqb_spec n 0); [lia |]. cbn [orb].
  rewrite Hr1, mbind_some, u64_small by (unfold is_u64; lia). rewrite Hr2, mbind_some, bool_decide_false by done.
  assert (serves others ps mx pool ls2 small2 (clobber p sizeof_array h2)) as Hs3.
  { destruct Hs2 as (r & bs & Hmx & K). exists r, bs. split; [done |].
    apply (pool_ok_write_part _ _ _ _ _ _ _ h2 p sizeof_array); [done | | done | lia | lia].
    destruct H2 as [[_ H2] | [_ H2]]; rewrite H2, H1; set_solver. }
  case_bool_decide as He; [left; by eexists | right]. destruct H2 as [[? _] | [_ H2]]; [done |]. eexists _, _, _. split; [reflexivity |].
  pose proof Hs3 as (r & bs & _ & K). pose proof (users_separated malloc posix_memalign _ _ _ _ _ _ _ _ K) as Hsep. rewrite H2 in Hsep.
  apply separated_app in Hsep as (_ & _ & Hsep).
  intros ws todo room Hws Htodo. exists ls2, small2. cbn [s_arr s_list s_heap]. split; [done |]. split.
  { split; [done | | done | cbn; lia]. rewrite H2. unfold capacity. cbn. rewrite (Z.mul_comm size). set_solver. }
  split; [done |]. split; [cbn; lia |]. split; [split; [done |]; split; [constructor | apply holds_nil] |].
  eapply Forall_impl; [exact Hws |]. intros [[q k] w] (Hq & Hlen & Hh). cbn in Hq, Hlen, Hh. assert ((q, k) ∈ users small1 ls1) as Hq1 by (rewrite H1; set_solver).
  split; [rewrite H2; set_solver |]. split; [|split; [done |]; cbn; by rewrite Eb2, Eb1].
  apply (Hsep (q, k) (e, capacity _) Hq1). unfold capacity. cbn. rewrite (Z.mul_comm size). set_solver.
Qed.

Lemma refused_header pool n size h h' depth :
  0 < n -> 0 < size -> take_memory malloc depth pool sizeof_array h = Some (nullptr, h') -> array_create malloc depth pool n size h = None.
Proof using.
  intros Hn Hs Hr. unfold array_create. destruct (Z.eqb_spec size 0); [lia |]. destruct (Z.eqb_spec n 0); [lia |]. cbn [orb]. rewrite Hr, mbind_some.
  clear Hr. destruct (take_memory _ _ _ _ _) as [[e h2]|]; [|done]. cbn [mbind option_bind]. by rewrite bool_decide_true.
Qed.

(** What was appended. *)
Definition appended (cs : list astep) : list (list Z) := cs ≫= fun c => match c with Append x => [x] | Request _ => [] end.

Lemma run_sublist depth pool cs : forall s s', run_asteps depth pool cs s = Some s' -> exists l, s_list s' = s_list s ++ l /\ l `sublist_of` appended cs.
Proof using.
  induction cs as [|c cs IH]; intros s s' Hrun; cbn [run_asteps] in Hrun.
  - injection Hrun as <-. exists []. by rewrite app_nil_r.
  - destruct (run_astep depth pool c s) as [s1|] eqn:E; [|done]. rewrite mbind_some in Hrun. destruct (IH s1 s' Hrun) as (l & -> & Hl).
    destruct c as [x | n]; cbn [run_astep] in E.
    + destruct (array_append depth x (s_arr s) (s_heap s)) as [[[ok a] h]|]; [|done]. cbn [mbind option_bind] in E. injection E as <-. cbn [s_list].
      destruct ok; [exists (x :: l); split; [by rewrite <- app_assoc | by constructor] | exists l; split; [done | by constructor]].
    + destruct (pool_alloc malloc depth pool n (s_heap s)) as [[p h]|]; [|done]. cbn in E. injection E as <-. by exists l.
Qed.

(** C16. An array is the list of what its owner appended to it: whatever else the pool is asked
    for in between, and however often the array grows, in place or by moving, every append is
    defined, the elements are found one after the other in the order of the appends, those
    that were refused left out, and no other range of the pool is disturbed. *)
Theorem array_append_refines others ps mx pool ls small h n size p a h1 cs ws depth :
  serves others ps mx pool ls small h -> 0 < n < 2 ^ 32 -> 0 < size -> n * size < 2 ^ 64 ->
  array_create malloc (S (S depth)) pool n size h = Some (Some (p, a), h1) ->
  Forall (astep_ok size) cs -> 2 * Z.of_nat (appends cs) < 2 ^ 32 -> 2 * (size * Z.of_nat (appends cs)) < 2 ^ 64 ->
  Forall (fun w => w.1 ∈ users small ls /\ Z.of_nat (length w.2) <= w.1.2 /\ holds (bytes h) w.1.1 w.2) ws ->
  exists s, run_asteps (S (S depth)) pool cs {| s_arr := a; s_list := []; s_heap := h1 |} = Some s /\
    array_holds (s_arr s) (s_list s) (s_heap s) /\ s_list s `sublist_of` appended cs /\
    Forall (fun w => holds (bytes (s_heap s)) w.1.1 w.2) ws.
Proof using All.
  intros Hs Hn Hsz Hw Hcr Hcs H32 H64 Hws. destruct (array_create_spec _ _ _ _ _ _ _ _ _ depth Hs Hn Hsz Hw) as [[h' Hr] | [[h' Hr] | (p' & a' & h' & Hr & Hinit)]].
  - rewrite (refused_header _ _ _ _ h') in Hcr by (done || lia). done.
  - congruence.
  - rewrite Hcr in Hr. injection Hr as <- <- <-. specialize (Hinit ws (appends cs) (Z.of_nat (appends cs)) Hws (Z.le_refl _)).
    destruct (run_refines _ _ _ _ _ _ _ depth _ _ Hinit Hcs H32 H64) as (s & Hrun & ls' & small' & _ & _ & _ & _ & Hl & Hu).
    exists s. split; [done |]. split; [done |]. split; [destruct (run_sublist _ _ _ _ _ Hrun) as (l & -> & ?); done |].
    eapply Forall_impl; [exact Hu |]. intros [[q k] w] (_ & _ & _ & ?). done.
Qed.

End Push.

(** The inner loop of [array_inherit] never gets to a second element. *)
Lemma inherit_one_same n2 func func2 v1 v2 h : inherit_one n2 func func2 v1 v2 h = if (0 <? Z.of_nat n2) && func v1 v2 h then func2 v1 v2 h else h.
Proof.
  induction n2 as [|n2 IH]; cbn [inherit_one]; [done |]. destruct (Z.ltb_spec 0 (Z.of_nat (S n2))); [|lia]. cbn [andb].
  destruct (func v1 v2 h) eqn:E; [done |]. rewrite IH. by rewrite andb_false_r.
Qed.

(** ** Lists ([src/core/dfs_list.cpp]) *)

(** A list is a chain of parts of [l_nalloc] elements; the first part lies in the list's own
    header, at the head of it, so that its address is the list's. *)
(* src/src/core/dfs_list.h:9-14 (list_part_s) *)
Record list_part := { p_elts : ptr; p_nelts : Z; p_next : ptr }.

(* src/src/core/dfs_list.h:16-23 (list_t) *)
Record list_t := { l_last : ptr; l_size : Z; l_nalloc : Z; l_pool : ptr }.

Definition sizeof_list_part : Z := 24.

Section Lists.

Context (malloc : nat -> gmap ptr Z -> Z -> ptr).

Abbreviation parts := (gmap ptr list_part).

(* src/src/core/dfs_list.cpp:4-34 (list_init) *)
Definition list_init (depth : nat) (l : ptr) (list : list_t) (ps : parts) (pool : ptr) (n size : Z) (h : heap) : option (Z * list_t * parts * heap) :=
  part ← ps !! l;
  if negb (bool_decide (p_elts part = nullptr)) then Some (NGX_ERROR, list, ps, h)
  else
    '(e, h) ← take_memory malloc depth pool (u64 (n * size)) h;
    if bool_decide (e = nullptr) then Some (NGX_ERROR, list, <[l := {| p_elts := e; p_nelts := p_nelts part; p_next := p_next part |}]> ps, h)
    else
      Some (NGX_OK, {| l_last := l; l_size := size; l_nalloc := n; l_pool := pool |}, <[l := {| p_elts := e; p_nelts := 0; p_next := nullptr |}]> ps, h).

(* src/src/core/dfs_list.cpp:46-51 (list_reset) *)
Fixpoint reset_parts (fuel : nat) (p : ptr) (ps : parts) : option parts :=
  match fuel with
  | O => None
  | S fuel =>
      if bool_decide (p = nullptr) then Some ps
      else part ← ps !! p; reset_parts fuel (p_next part) (<[p := {| p_elts := p_elts part; p_nelts := 0; p_next := p_next part |}]> ps)
  end.

(* src/src/core/dfs_list.cpp:36-54 (list_reset) *)
Definition list_reset (l : ptr) (list : list_t) (ps : parts) : option (list_t * parts) :=
  if bool_decide (l = nullptr) then Some (list, ps)
  else
    ps' ← reset_parts (S (size ps)) l ps;
    Some ({| l_last := l; l_size := l_size list; l_nalloc := l_nalloc list; l_pool := l_pool list |}, ps').

(** The first part from [p] on that has room, with the last part seen. *)
(* src/src/core/dfs_list.cpp:64-76 (list_push) *)
Fixpoint find_part (fuel : nat) (nalloc : Z) (p seen : ptr) (ps : parts) : option (option ptr * ptr) :=
  match fuel with
  | O => None
  | S fuel =>
      if bool_decide (p = nullptr) then Some (None, seen)
      else part ← ps !! p; if p_nelts part <? nalloc then Some (Some p, p) else find_part fuel nalloc (p_next part) p ps
  end.

(** The address of the new element. The new part's header is written before it is looked at. *)
(* src/src/core/dfs_list.cpp:56-105 (list_push) *)
Definition list_push (depth : nat) (list : list_t) (ps : parts) (h : heap) : option (ptr * list_t * parts * heap) :=
  '(found, last) ← find_part (S (size ps)) (l_nalloc list) (l_last list) (l_last list) ps;
  let list := {| l_last := last; l_size := l_size list; l_nalloc := l_nalloc list; l_pool := l_pool list |} in
  match found with
  | Some p =>
      part ← ps !! p;
      Some (plus (p_elts part) (u64 (l_size list * p_nelts part)), list,
        <[p := {| p_elts := p_elts part; p_nelts := u32 (p_nelts part + 1); p_next := p_next part |}]> ps, h)
  | None =>
      '(q, h) ← take_memory malloc depth (l_pool list) sizeof_list_part h;
      '(e, h) ← take_memory malloc depth (l_pool list) (u64 (l_nalloc list * l_size list)) h;
      if bool_decide (q = nullptr) then None
      else
        let h := clobber q sizeof_list_part h in
        if bool_decide (e = nullptr) then Some (nullptr, list, ps, h)
        else
          part ← ps !! last;
          let ps := <[last := {| p_elts := p_elts part; p_nelts := p_nelts part; p_next := q |}]> ps in
          let ps := <[q := {| p_elts := e; p_nelts := 1; p_next := nullptr |}]> ps in
          Some (e, {| l_last := q; l_size := l_size list; l_nalloc := l_nalloc list; l_pool := l_pool list |}, ps, h)
  end.

End Lists.

(** ** Witnesses *)

Definition test_malloc : nat -> gmap ptr Z -> Z -> ptr := fun _ => bump 16.
Definition test_memalign : nat -> gmap ptr Z -> Z -> Z -> ptr := fun _ live a n => bump a live n.

(** An array of two elements of four bytes, its pool, and the heap. *)
Definition test_array : option (ptr * array_t) := (array_create test_malloc 2 (made 256 4096).1 2 4 (made 256 4096).2 ≫= fst).
Definition test_start : astate :=
  match array_create test_malloc 2 (made 256 4096).1 2 4 (made 256 4096).2 with
  | Some (Some (_, a), h) => {| s_arr := a; s_list := []; s_heap := h |}
  | _ => {| s_arr := {| elts := nullptr; nelts := 0; a_size := 0; nalloc := 0; a_pool := nullptr |}; s_list := []; s_heap := empty_heap |}
  end.

(** It grows in place, then another client takes the memory behind it and it moves. *)
Definition test_steps : list astep :=
  [Append [1; 2; 3; 4]; Append [5; 6; 7; 8]; Append [9; 10; 11; 12]; Request 40; Append [13; 14; 15; 16]; Append [17; 18; 19; 20]].

Lemma made_serves : serves ∅ 256 200 (made 256 4096).1 [] [] (made 256 4096).2.
Proof.
  destruct (pool_create_spec test_malloc bump_malloc_ok 256 4096 empty_heap (made 256 4096).1 (made 256 4096).2) as [_ [[E _] | [_ H]]].
  - lia.
  - vm_compute. discriminate.
  - exact empty_live_ok.
  - unfold made. symmetry. apply surjective_pairing.
  - exfalso. revert E. vm_compute. discriminate.
  - exact H.
Qed.

Lemma array_append_refines_witness :
  exists s, run_asteps (malloc := test_malloc) 2 (made 256 4096).1 test_steps test_start = Some s /\
    array_holds (s_arr s) (s_list s) (s_heap s) /\ s_list s `sublist_of` appended test_steps /\
    Forall (fun w => holds (bytes (s_heap s)) w.1.1 w.2) ([] : list watched).
Proof.
  apply (array_append_refines (malloc := test_malloc) (posix_memalign := test_memalign) bump_malloc_ok bump_memalign_ok ∅ 256 200 _ [] [] (made 256 4096).2 2 4
    (match test_array with Some x => x.1 | None => nullptr end) (s_arr test_start) (s_heap test_start) test_steps [] 0).
  - exact made_serves.
  - lia.
  - lia.
  - lia.
  - vm_compute. reflexivity.
  - repeat constructor.
  - vm_compute. reflexivity.
  - vm_compute. reflexivity.
  - constructor.
Defined.

(** Nothing was refused, and the array has moved. *)
Example test_run :
  (s ← run_asteps (malloc := test_malloc) 2 (made 256 4096).1 test_steps test_start;
   Some (bool_decide (s_list s = appended test_steps), bool_decide (elts (s_arr s) = elts (s_arr test_start)), nalloc (s_arr s))) = Some (true, false, 6).
Proof. vm_compute. reflexivity. Qed.
