(* ===== verification/ConfBase.v ===== *)
(** * Values of configuration options ([src/core/dfs_conf_base.cpp])

    The handlers that turn the words of an option into a field of the configured object. A
    field is known by its offset alone: the numbers of an object are bytes, so that a handler
    that writes more bytes than the field has also writes the next field; its strings, string
    lists and addresses are values at their offsets, and a number that would overlap one of
    those, or a handler used on a field of another kind, is outside the model ([None]), as is
    undefined behaviour.

    What the handlers need of the memory pool, of the arrays and of [malloc] is the class
    [Storage]; [heap_storage] is its instance for MemoryPool and Array. *)

From Stdlib Require Import String Ascii.
From S2P Require Import Prelude Memory Strings MemoryPool Array.
#[local] Open Scope string_scope.
#[local] Open Scope list_scope.
#[local] Open Scope Z_scope.

(** ** Storage *)

(** [None] from an allocation is a broken pool; a refused request is a null pointer. *)
Class Storage (S : Type) := {
  st_malloc : Z -> S -> ptr * S;
  st_free : ptr -> S -> option S;
  st_pool_create : Z -> Z -> S -> ptr * S;
  st_pool_destroy : ptr -> S -> option S;
  st_pool_alloc : ptr -> Z -> S -> option (ptr * S);
  st_array_create : ptr -> Z -> Z -> S -> option (option array_t * S);
  st_array_init : ptr -> Z -> Z -> S -> option (Z * option array_t * S);
  st_array_push : option array_t -> S -> option (ptr * option array_t * S)
}.

(** What the headers of arrays say when an operation was not refused. *)
Class Counting (St : Type) `{Storage St} := {
  create_counts p n size s a s' : st_array_create p n size s = Some (Some a, s') -> nelts a = 0;
  push_counts a s p b s' : st_array_push (Some a) s = Some (p, b, s') -> p <> nullptr -> exists b', b = Some b' /\ nelts b' = u32 (nelts a + 1);
  push_to_none s p b s' : st_array_push None s = Some (p, b, s') -> p = nullptr
}.

#[export] Instance heap_storage (malloc : nat -> gmap ptr Z -> Z -> ptr) (depth : nat) : Storage heap := {
  st_malloc := memory_alloc malloc;
  st_free := memory_free;
  st_pool_create := pool_create malloc;
  st_pool_destroy := pool_destroy;
  st_pool_alloc := pool_alloc malloc depth;
  st_array_create p n size h :=
    match array_create malloc depth p n size h with Some (a, h) => Some (option_map snd a, h) | None => None end;
  st_array_init p n size h :=
    array_init malloc depth (Some {| elts := nullptr; nelts := 0; a_size := 0; nalloc := 0; a_pool := nullptr |}) p n size h;
  st_array_push := array_push malloc depth
}.

Lemma array_grow_nelts malloc depth a h a' h' : array_grow malloc depth a h = Some (Some a', h') -> nelts a' = nelts a.
Proof.
  unfold array_grow. case_bool_decide; [done |]. destruct (datas h !! a_pool a); cbn [mbind option_bind]; [|done]. destruct (_ && _); [by intros [= <- _] |].
  destruct (pool_alloc _ _ _ _ _) as [[na h1]|]; cbn [mbind option_bind]; [|done]. case_bool_decide; [done | by intros [= <- _]].
Qed.

#[export] Instance heap_counting malloc depth : Counting heap (H := heap_storage malloc depth).
Proof.
  split; cbn [st_array_create st_array_push heap_storage].
  - intros p n size h a h'. unfold array_create. destruct (_ || _); [done |]. destruct (take_memory malloc depth p sizeof_array h) as [[x h1]|]; cbn [mbind option_bind]; [|done].
    destruct (take_memory malloc depth p (u64 (n * size)) h1) as [[e h2]|]; cbn [mbind option_bind]; [|done]. case_bool_decide; [done |]. case_bool_decide; cbn; [done | by intros [= <- _]].
  - intros a h p b h'. cbn [array_push]. destruct (nelts a =? nalloc a).
    + destruct (array_grow malloc depth a h) as [[[a'|] h1]|] eqn:E; cbn [mbind option_bind]; [|by intros [= <- _ _]|done].
      intros [= _ <- _] _. eexists. split; [done |]. cbn. by rewrite (array_grow_nelts _ _ _ _ _ _ E).
    + cbn [mbind option_bind]. intros [= _ <- _] _. by eexists.
  - intros h p b h'. cbn. by intros [= <- _ _].
Qed.

(** ** Strings *)

(* src/src/core/dfs_string.h:7-11 (string_s) *)
Record string_t := { len : Z; data : option (list Z) }.

Definition string_null : string_t := {| len := 0; data := None |}.

(** The bytes of a C string. *)
Definition ascii_bytes (s : string) : list Z := (fun c => Z.of_nat (nat_of_ascii c)) <$> list_ascii_of_string s.

(** [string_make]: the literal has its NUL. *)
Definition string_make (s : string) : string_t :=
  {| len := Z.of_nat (length (ascii_bytes s)); data := Some (ascii_bytes s ++ [0]) |}.

Definition chars (x : string_t) : list Z := default [] (data x).
Definition slen (x : string_t) : nat := Z.to_nat (len x).

(** [strchr], [strcmp], [strstr], [strncasecmp], [isalnum] and [toupper] of the C library. *)
Fixpoint strchr (s : list Z) (c : Z) : option (option nat) :=
  match s with
  | [] => None
  | b :: s => if b =? c then Some (Some O) else if b =? 0 then Some None else r ← strchr s c; Some (option_map S r)
  end.

Fixpoint is_prefix (p s : list Z) : bool :=
  match p, s with
  | [], _ => true
  | _, [] => false
  | a :: p, b :: s => (a =? b) && is_prefix p s
  end.

Fixpoint strstr (s p : list Z) : bool :=
  is_prefix p s || match s with [] => false | _ :: s => strstr s p end.

Definition same_char (a b : Z) : bool := fold_case a =? fold_case b.

Fixpoint strncasecmp_eq (s1 s2 : list Z) (n : nat) {struct n} : bool :=
  match n with
  | O => true
  | S n =>
      match s1, s2 with
      | a :: s1, b :: s2 => same_char a b && ((a =? 0) || strncasecmp_eq s1 s2 n)
      | _, _ => false
      end
  end.

Definition is_upper (c : Z) : bool := (65 <=? c) && (c <=? 90).
Definition is_lower (c : Z) : bool := (97 <=? c) && (c <=? 122).
Definition isalnum (c : Z) : bool := is_digit c || is_upper c || is_lower c.
Definition toupper (c : Z) : Z := if is_lower c then c - 32 else c.

Section Base.

Context {St : Type} `{Storage St}.

(** [memcpy] of the [n] bytes at [src], and the NUL behind them. *)
Definition dup_bytes (src : option (list Z)) (n : nat) : option (list Z) :=
  match n with
  | O => Some [0]
  | _ => s ← src; if (n <=? length s)%nat then Some (take n s ++ [0]) else None
  end.

(* src/src/core/dfs_string.cpp:77-91 (string_xxxpdup) *)
Definition string_xxxpdup (pool : ptr) (src : option (list Z)) (n : Z) (s : St) : option (option (list Z) * St) :=
  '(dst, s) ← st_pool_alloc pool (u64 (n + 1)) s;
  if bool_decide (dst = nullptr) then Some (None, s) else d ← dup_bytes src (Z.to_nat n); Some (Some d, s).

(* src/src/core/dfs_string.cpp:61-75 (string_xxpdup) *)
Definition string_xxpdup (pool : ptr) (src : string_t) (s : St) : option (option (list Z) * St) :=
  string_xxxpdup pool (data src) (len src) s.

(* src/src/core/dfs_string.cpp:93-112 (string_xxdup) *)
Definition string_xxdup (src : string_t) (s : St) : option (option (list Z) * St) :=
  let '(dst, s) := st_malloc (u64 (len src + 1)) s in
  if bool_decide (dst = nullptr) then Some (None, s) else d ← dup_bytes (data src) (slen src); Some (Some d, s).

(** ** The configured object *)

(* src/src/core/dfs_conf_base.h:75-79 (server_bind_s) *)
Record server_bind := { addr : string_t; port : Z }.

(** The bytes, the strings and the arrays of addresses and of numbers, by their offsets;
    [percents] has the hundredths of a [double]. *)
Record block := {
  raw : list Z; strings : gmap Z string_t; binds : gmap Z (array_t * list server_bind); ints : gmap Z (array_t * list Z); percents : gmap Z Z
}.

Definition with_raw (r : list Z) (b : block) : block :=
  {| raw := r; strings := strings b; binds := binds b; ints := ints b; percents := percents b |}.
Definition with_string (o : Z) (x : string_t) (b : block) : block :=
  {| raw := raw b; strings := <[o := x]> (strings b); binds := binds b; ints := ints b; percents := percents b |}.
Definition with_binds (o : Z) (x : array_t * list server_bind) (b : block) : block :=
  {| raw := raw b; strings := strings b; binds := <[o := x]> (binds b); ints := ints b; percents := percents b |}.
Definition with_ints (o : Z) (x : array_t * list Z) (b : block) : block :=
  {| raw := raw b; strings := strings b; binds := binds b; ints := <[o := x]> (ints b); percents := percents b |}.
Definition with_percent (o : Z) (x : Z) (b : block) : block :=
  {| raw := raw b; strings := strings b; binds := binds b; ints := ints b; percents := <[o := x]> (percents b) |}.

Definition sizeof_string : Z := 16.
Definition sizeof_double : Z := 8.

(** No field of another kind has a byte among the [n] from [o] on. *)
Definition only_bytes (o n : Z) (b : block) : bool :=
  let clear {A} (k : Z) (m : gmap Z A) := forallb (fun x => (x.1 + k <=? o) || (o + n <=? x.1)) (map_to_list m) in
  clear sizeof_string (strings b) && clear sizeof_array (binds b) && clear sizeof_array (ints b) && clear sizeof_double (percents b).

Definition poke (n : nat) (o z : Z) (b : block) : option block :=
  let i := Z.to_nat o in
  if (0 <=? o) && (i + n <=? length (raw b))%nat && only_bytes o (Z.of_nat n) b then Some (with_raw (take i (raw b) ++ le n z ++ drop (i + n) (raw b)) b)
  else None.

Definition peek (n : nat) (o : Z) (b : block) : option Z :=
  let i := Z.to_nat o in
  if (0 <=? o) && (i + n <=? length (raw b))%nat && only_bytes o (Z.of_nat n) b then Some (unle (take n (drop i (raw b)))) else None.

(** ** Handlers *)

Definition CONF_TAKE2 : Z := 2.
Definition CONF_TAKE3 : Z := 3.
Definition CONF_TAKE12 : Z := 12.
Definition OPE_REGEX : Z := 1.
Definition OPE_EQUAL : Z := 2.
Definition CONF_MAX_LEN_INT : Z := 10.
Definition CONF_MAX_LEN_TIME_T : Z := 20.
Definition CONF_MAX_LEN_SHORT : Z := 5.
Definition CONF_TIME_T_NOT_SET : Z := -1.

(** A handler: the object, the offset of the field, the operator, the words and their number. *)
(* src/src/core/dfs_conf_base.h:65-65 (conf_parse_opt_pt) *)
Definition handler : Type := block -> Z -> Z -> list string_t -> Z -> St -> option (Z * block * St).

Definition fail (b : block) (s : St) : option (Z * block * St) := Some (NGX_ERROR, b, s).
Definition done_ (b : block) (s : St) : option (Z * block * St) := Some (NGX_OK, b, s).

(** [CONF_INVALID_DIGITAL_LEN]. *)
Definition too_long (x : string_t) (n : Z) : bool := n <? len x.

Definition word (args : list string_t) (i : Z) : option string_t := args !! Z.to_nat i.

(* src/src/core/dfs_conf_base.cpp:36-40 (conf_parse_int_array) *)
Fixpoint push_ints (codes : array_t) (l : list Z) (words : list string_t) (s : St) : option (array_t * list Z * St) :=
  match words with
  | [] => Some (codes, l, s)
  | w :: words =>
      '(p, codes, s) ← st_array_push (Some codes) s;
      codes ← codes;
      if bool_decide (p = nullptr) then None
      else v ← string_xxstrtoui (chars w) (slen w); push_ints codes (l ++ [s32 v]) words s
  end.

(* src/src/core/dfs_conf_base.cpp:17-43 (conf_parse_int_array) *)
Definition conf_parse_int_array : handler := fun b offset type args args_n s =>
  if negb (type =? OPE_EQUAL) then fail b s
  else if CONF_TAKE12 <? args_n then fail b s
  else
    '(codes, l) ← ints b !! offset;
    '(codes, l, s) ← push_ints codes l (drop (Z.to_nat CONF_TAKE2) (take (Z.to_nat args_n) args)) s;
    done_ (with_ints offset (codes, l) b) s.

(* src/src/core/dfs_conf_base.cpp:45-76 (conf_parse_short) *)
Definition conf_parse_short : handler := fun b offset type args args_n s =>
  if negb (type =? OPE_EQUAL) then fail b s
  else if negb (args_n =? CONF_TAKE3) then fail b s
  else
    w ← word args (args_n - 1);
    if too_long w CONF_MAX_LEN_SHORT then fail b s
    else
      v ← string_xxstrtoui (chars w) (slen w);
      let port := s16 v in
      b ← poke 2 offset port b;
      if port <=? 0 then fail b s else done_ b s.

(** The digits that a size begins with, and the rest. *)
(* src/src/core/dfs_conf_base.cpp:103-111 (conf_parse_bytes_size) *)
Fixpoint size_digits (n : nat) (l : list Z) (b_size : Z) : option (Z * list Z * nat) :=
  match n with
  | O => Some (b_size, l, O)
  | S n' => c ← head l; if negb (is_digit c) then Some (b_size, l, n) else size_digits n' (tail l) (u64 (u64 (b_size * 10) + (c - 48)))
  end.

(** The unit, in an array of twenty bytes that nothing guards. *)
(* src/src/core/dfs_conf_base.cpp:113-118 (conf_parse_bytes_size) *)
Definition size_unit (n : nat) (l : list Z) : option (list Z) :=
  if (n <=? length l)%nat && (n <? 20)%nat then Some ((toupper <$> take n l) ++ repeat 0 (20 - n)) else None.

(* src/src/core/dfs_conf_base.cpp:120-146 (conf_parse_bytes_size) *)
Definition size_scale (unit : list Z) (b_size : Z) : option Z :=
  let is_unit (u : string) (n : nat) := strncasecmp_eq unit (ascii_bytes u ++ [0]) n in
  if is_unit "KB" 2%nat then Some (u64 (Z.shiftl b_size 10))
  else if is_unit "MB" 2%nat then Some (u64 (Z.shiftl b_size 20))
  else if is_unit "GB" 2%nat then Some (u64 (Z.shiftl b_size 30))
  else if is_unit "TB" 2%nat then Some (u64 (Z.shiftl b_size 40))
  else if is_unit "PB" 2%nat then Some (u64 (Z.shiftl b_size 50))
  else if is_unit "B" 1%nat then Some b_size
  else None.

(** It writes eight bytes. *)
(* src/src/core/dfs_conf_base.cpp:78-151 (conf_parse_bytes_size) *)
Definition conf_parse_bytes_size : handler := fun b offset type args args_n s =>
  if negb (type =? OPE_EQUAL) then fail b s
  else if negb (args_n =? CONF_TAKE3) then fail b s
  else
    w ← word args (args_n - 1);
    '(b_size, rest, n) ← size_digits (slen w) (chars w) 0;
    unit ← size_unit n rest;
    match size_scale unit b_size with
    | None => fail b s
    | Some b_size => b ← poke 8 offset b_size b; done_ b s
    end.

(** [None] inside is the error; [i] counts the bytes read. *)
(* src/src/core/dfs_conf_base.cpp:170-186 (conf_parse_percent) *)
Fixpoint percent_loop (n : nat) (l : list Z) (i b_size : Z) : option (option Z) :=
  match n with
  | O => Some (Some b_size)
  | S n =>
      c ← head l;
      if negb (is_digit c) then
        if (c =? 37) && (((i <? 3) && (b_size <? 100)) || ((i =? 3) && (b_size =? 100))) then Some (Some b_size) else Some None
      else percent_loop n (tail l) (i + 1) (u32 (u32 (b_size * 10) + (c - 48)))
  end.

(* src/src/core/dfs_conf_base.cpp:153-191 (conf_parse_percent) *)
Definition conf_parse_percent : handler := fun b offset type args args_n s =>
  if negb (type =? OPE_EQUAL) || negb (args_n =? CONF_TAKE3) then fail b s
  else
    w ← word args (args_n - 1);
    r ← percent_loop (slen w) (chars w) 0 0;
    match r with
    | None => fail b s
    | Some b_size => _ ← percents b !! offset; done_ (with_percent offset b_size b) s
    end.

(* src/src/core/dfs_conf_base.cpp:193-218 (conf_parse_string) *)
Definition conf_parse_string : handler := fun b offset type args args_n s =>
  if negb (type =? OPE_EQUAL) then fail b s
  else if negb (args_n =? CONF_TAKE3) then fail b s
  else
    str ← strings b !! offset;
    if 0 <? len str then fail b s
    else
      w ← word args (args_n - 1);
      '(d, s) ← string_xxdup w s;
      done_ (with_string offset {| len := len w; data := d |} b) s.

(* src/src/core/dfs_conf_base.cpp:220-252 (conf_parse_int) *)
Definition conf_parse_int : handler := fun b offset type args args_n s =>
  if negb (type =? OPE_EQUAL) then fail b s
  else if negb (args_n =? CONF_TAKE3) then fail b s
  else
    w ← word args (args_n - 1);
    if too_long w CONF_MAX_LEN_INT then fail b s
    else
      v ← string_xxstrtoui (chars w) (slen w);
      b ← poke 4 offset v b;
      if s32 v =? NGX_ERROR then fail b s else done_ b s.

(* src/src/core/dfs_conf_base.cpp:271-303 (conf_parse_time_t) *)
Definition conf_parse_time_t : handler := fun b offset type args args_n s =>
  if negb (type =? OPE_EQUAL) then fail b s
  else if negb (args_n =? CONF_TAKE3) then fail b s
  else
    w ← word args (args_n - 1);
    if too_long w CONF_MAX_LEN_TIME_T then fail b s
    else
      v ← string_xxstrtotime (chars w) (slen w);
      b ← poke 8 offset v b;
      if v =? NGX_ERROR then fail b s else done_ b s.

(* src/src/core/dfs_conf_base.cpp:254-269 (conf_parse_deftime_t) *)
Definition conf_parse_deftime_t : handler := fun b offset type args args_n s =>
  p ← peek 8 offset b;
  if negb (s64 p =? CONF_TIME_T_NOT_SET) then fail b s else conf_parse_time_t b offset type args args_n s.

(* src/src/core/dfs_conf_base.h:59-63 (conf_macro_s) *)
Record conf_macro_t := { m_name : string_t; m_value : Z }.

(** The first macro of that name. The table ends with an empty name. *)
(* src/src/core/dfs_conf_base.cpp:342-352 (conf_parse_macro) *)
Fixpoint find_macro (conf_macro : list conf_macro_t) (start : list Z) (n : Z) : option (option Z) :=
  match conf_macro with
  | [] => None
  | m :: conf_macro =>
      if len (m_name m) <=? 0 then Some None
      else if len (m_name m) =? n then
        r ← string_xxstrncasecmp start (chars (m_name m)) (Z.to_nat n);
        if r =? 0 then Some (Some (m_value m)) else find_macro conf_macro start n
      else find_macro conf_macro start n
  end.

(** The spaces before position [pos], at which they end; [d] is all of the word. *)
(* src/src/core/dfs_conf_base.cpp:364-368 (conf_parse_macro) *)
Fixpoint trim_spaces (fuel : nat) (d : list Z) (pos : nat) (n : Z) : option Z :=
  match fuel, pos with
  | S fuel, S pos => c ← d !! pos; if c =? 32 then trim_spaces fuel d pos (n - 1) else Some n
  | _, _ => None
  end.

(** The macros up to each ['|'], or-ed into the field. The word is [d], its [size] bytes
    counted from its first; [start] is where the rest begins. *)
(* src/src/core/dfs_conf_base.cpp:358-410 (conf_parse_macro) *)
Fixpoint macro_loop (conf_macro : list conf_macro_t) (fuel : nat) (d : list Z) (size : Z) (start : nat) (offset : Z) (b : block) : option (Z * block) :=
  match fuel with
  | O => None
  | S fuel =>
      r ← strchr (drop start d) 124;
      match r with
      | Some i =>
          let pos := (start + i)%nat in
          n ← trim_spaces (S (length d)) d pos (Z.of_nat i);
          v ← find_macro conf_macro (drop start d) (u64 n);
          match v with
          | None => Some (NGX_ERROR, b)
          | Some v => p ← peek 4 offset b; b ← poke 4 offset (Z.lor p v) b; macro_loop conf_macro fuel d size (S pos) offset b
          end
      | None =>
          n ← trim_spaces (S (length d)) d (Z.to_nat size) (size - Z.of_nat start);
          v ← find_macro conf_macro (drop start d) (u64 n);
          match v with
          | None => Some (NGX_ERROR, b)
          | Some v => p ← peek 4 offset b; b ← poke 4 offset (Z.lor p v) b; Some (NGX_OK, b)
          end
      end
  end.

(* src/src/core/dfs_conf_base.cpp:305-411 (conf_parse_macro) *)
Definition conf_parse_macro (conf_macro : list conf_macro_t) : handler := fun b offset type args args_n s =>
  if negb (type =? OPE_EQUAL) then fail b s
  else if negb (args_n =? CONF_TAKE3) then fail b s
  else
    w ← word args (args_n - 1);
    match data w with
    | None => fail b s
    | Some d =>
        if len w =? 0 then fail b s
        else
          bar ← strchr d 124;
          match bar with
          | None =>
              v ← find_macro conf_macro d (len w);
              match v with
              | Some v => b ← poke 4 offset v b; done_ b s
              | None => fail b s
              end
          | Some _ => '(rc, b) ← macro_loop conf_macro (S (length d)) d (len w) 0 offset b; Some (rc, b, s)
          end
    end.

(** ** Addresses *)

Definition CONF_BIND_TYPE_ERROR : Z := 0.
Definition CONF_BIND_TYPE_PORT : Z := 1.
Definition CONF_BIND_TYPE_IP : Z := 2.
Definition CONF_BIND_TYPE_ADDR : Z := 3.
Definition CONF_SERVER_DEF_PORT : Z := 80.
Definition CONF_SERVER_DEF_IP : list Z := ascii_bytes "0.0.0.0".

(** [sizeof("255.255.255.255:65535")]. *)
Definition sizeof_address : Z := 22.

Definition dot : Z := 46.
Definition colon : Z := 58.

(* src/src/core/dfs_conf_base.cpp:437-490 (conf_parse_valid_bind_ipv4) *)
Definition conf_parse_valid_bind_ipv4 (bind_str : string_t) : option Z :=
  if len bind_str =? 0 then Some CONF_BIND_TYPE_ERROR
  else if sizeof_address <=? len bind_str then Some CONF_BIND_TYPE_ERROR
  else
    d ← data bind_str;
    last ← d !! (slen bind_str - 1)%nat;
    if negb (isalnum last) then Some CONF_BIND_TYPE_ERROR
    else
      first ← d !! 0%nat;
      if negb (isalnum first) then Some CONF_BIND_TYPE_ERROR
      else if negb (forallb (fun c => (c =? dot) || (c =? colon) || isalnum c) (take (slen bind_str) d)) then Some CONF_BIND_TYPE_ERROR
      else
        ip ← strchr d dot;
        port ← strchr d colon;
        Some match ip, port with
             | Some _, Some _ => CONF_BIND_TYPE_ADDR
             | Some _, None => CONF_BIND_TYPE_IP
             | None, _ => CONF_BIND_TYPE_PORT
             end.

(** The port behind the colon. *)
Definition port_of (d : list Z) (at_colon : nat) : option Z :=
  let p := drop (S at_colon) d in n ← strlen p; string_xxstrtoi p n.

(* src/src/core/dfs_conf_base.cpp:492-519 (bind_ipv4_str_cmp) *)
Definition bind_ipv4_str_cmp (c1 : server_bind) (str : string_t) : option bool :=
  sp ← strchr (chars str) colon;
  port' ← match sp with Some i => v ← port_of (chars str) i; Some (u16 v) | None => Some CONF_SERVER_DEF_PORT end;
  let any := bool_decide (cstr (chars (addr c1)) = CONF_SERVER_DEF_IP) || strstr (cstr (chars str)) CONF_SERVER_DEF_IP in
  if any && (port' =? port c1) then Some true
  else if port' =? port c1 then r ← strncmp (chars (addr c1)) (chars str) (slen (addr c1)); Some (r =? 0)
  else Some false.

(* src/src/core/dfs_array.cpp:201-217 (array_find) *)
Fixpoint find_bind (l : list server_bind) (str : string_t) : option bool :=
  match l with
  | [] => Some false
  | c :: l => r ← bind_ipv4_str_cmp c str; if r : bool then Some true else find_bind l str
  end.

(** ["0.0.0.0:"] before a lone port, in a buffer of [sizeof_address] bytes that the longest
    words do not fit. *)
(* src/src/core/dfs_conf_base.cpp:552-565 (conf_parse_bind) *)
Definition default_address (w : string_t) (s : St) : option (ptr * string_t * St) :=
  let '(p, s) := st_malloc sizeof_address s in
  if bool_decide (p = nullptr) then None
  else
    d ← data w;
    let l := CONF_SERVER_DEF_IP ++ [colon] ++ take (slen w) d in
    if sizeof_address <? Z.of_nat (length l) then None
    else Some (p, {| len := Z.of_nat (length l); data := Some (l ++ repeat 0 (Z.to_nat sizeof_address - length l)) |}, s).

(* src/src/core/dfs_conf_base.cpp:568-601 (conf_parse_bind) *)
Definition add_bind (l : array_t) (bs : list server_bind) (w : string_t) (s : St) : option (Z * array_t * list server_bind * St) :=
  dup ← find_bind bs w;
  if dup : bool then Some (NGX_ERROR, l, bs, s)
  else
    sp ← strchr (chars w) colon;
    '(port, n) ← match sp with Some i => v ← port_of (chars w) i; Some (u32 v, Z.of_nat i) | None => Some (CONF_SERVER_DEF_PORT, len w) end;
    if (port =? 0) || (65535 <? port) then Some (NGX_ERROR, l, bs, s)
    else
      '(bind, l, s) ← st_array_push (Some l) s;
      l ← l;
      if bool_decide (bind = nullptr) then None
      else
        '(a, s) ← string_xxxpdup (a_pool l) (data w) n s;
        match a with
        | None => Some (NGX_ERROR, l, bs ++ [{| addr := string_null; port := port |}], s)
        | Some a => Some (NGX_OK, l, bs ++ [{| addr := {| len := n; data := Some a |}; port := port |}], s)
        end.

(** The buffer of the default address is not given back when the address is refused. *)
(* src/src/core/dfs_conf_base.cpp:521-614 (conf_parse_bind) *)
Definition conf_parse_bind : handler := fun b offset type args args_n s =>
  if negb (type =? OPE_EQUAL) || negb (args_n =? CONF_TAKE3) then fail b s
  else
    w ← word args (args_n - 1);
    bind_type ← conf_parse_valid_bind_ipv4 w;
    if bind_type =? CONF_BIND_TYPE_ERROR then fail b s
    else
      '(l, bs) ← binds b !! offset;
      '(tmp, w, s) ← (if bind_type =? CONF_BIND_TYPE_PORT then default_address w s else Some (nullptr, w, s));
      '(rc, l, bs, s) ← add_bind l bs w s;
      let b := with_binds offset (l, bs) b in
      if rc =? NGX_OK then
        s ← (if bool_decide (tmp = nullptr) then Some s else st_free tmp s);
        done_ b s
      else fail b s.

End Base.

(** ** Sizes *)

(** The bits a unit shifts by: its first letters decide. *)
Definition unit_bits (u : list Z) : option Z :=
  match toupper <$> u with
  | [] => None
  | a :: t =>
      let b := hd 0 t in
      if (a =? 75) && (b =? 66) then Some 10
      else if (a =? 77) && (b =? 66) then Some 20
      else if (a =? 71) && (b =? 66) then Some 30
      else if (a =? 84) && (b =? 66) then Some 40
      else if (a =? 80) && (b =? 66) then Some 50
      else if a =? 66 then Some 0
      else None
  end.

Lemma u64_step v d : u64 (u64 (u64 v * 10) + d) = u64 (v * 10 + d).
Proof. unfold u64. rewrite Z.mul_mod_idemp_l, Z.add_mod_idemp_l by lia. done. Qed.

Lemma size_digits_spec ds c rest m : forall v,
  digits ds -> is_digit c = false -> size_digits (length ds + S m) (digit_bytes ds ++ c :: rest) (u64 v) = Some (u64 (dec_from v ds), c :: rest, S m).
Proof.
  induction ds as [|d ds IH]; intros v Hd Hc; cbn [length Nat.add size_digits digit_bytes fmap list_fmap app head mbind option_bind].
  - rewrite Hc. done.
  - apply Forall_cons in Hd as [Hd Hds]. rewrite is_digit_byte by done. cbn [negb tail]. replace (48 + d - 48) with d by lia. rewrite u64_step.
    apply IH; done.
Qed.

(** Facts about the 256 bytes, by evaluation. *)
Lemma all_bytes (P : Z -> bool) : forallb P (seqZ 0 256) = true -> forall c, is_u8 c -> P c = true.
Proof. intros H c Hc. rewrite forallb_forall in H. apply H. apply list_elem_of_In, elem_of_seqZ. unfold is_u8 in Hc. lia. Qed.

Lemma same_char_upper a c : is_u8 c -> In a [75; 77; 71; 84; 80; 66] -> same_char (toupper c) a = (toupper c =? a).
Proof.
  intros Hc Ha. apply eqb_true_iff. revert c Hc. apply all_bytes.
  repeat (destruct Ha as [<- | Ha]; [vm_compute; reflexivity |]). done.
Qed.

Lemma toupper_digit c : is_u8 c -> (is_digit c = true -> toupper c = c) /\ (toupper c = 0 -> c = 0).
Proof.
  intros Hc. pose proof (all_bytes (fun c => implb (is_digit c) (toupper c =? c) && implb (toupper c =? 0) (c =? 0)) eq_refl c Hc) as E.
  apply andb_true_iff in E as [E1 E2]. split; [intros H; rewrite H in E1; cbn in E1; lia | intros H; rewrite H in E2; cbn in E2; lia].
Qed.

Lemma unit_not_digit u k : Forall is_u8 u -> unit_bits u = Some k -> exists c t, u = c :: t /\ is_digit c = false.
Proof.
  intros Hu Hk. destruct u as [|c t]; [done |]. exists c, t. split; [done |]. apply Forall_cons in Hu as [Hc _].
  destruct (is_digit c) eqn:E; [|done]. exfalso. unfold unit_bits in Hk. cbn in Hk. rewrite (proj1 (toupper_digit c Hc) E) in Hk.
  unfold is_digit in E. assert (48 <= c <= 57) as Hr by lia.
  repeat (case_match; [lia |]). done.
Qed.

Lemma size_scale_spec u k v :
  Forall is_u8 u -> (length u < 20)%nat -> unit_bits u = Some k -> is_u64 v ->
  size_scale ((toupper <$> u) ++ repeat 0 (20 - length u)) v = Some (u64 (v * 2 ^ k)).
Proof.
  intros Hu Hl Hk Hv. destruct u as [|c t]; [done |]. apply Forall_cons in Hu as [Hc Ht]. unfold unit_bits in Hk. rewrite fmap_cons in *. cbn [app length] in *.
  cbv beta iota zeta in Hk.
  assert (exists b m, (toupper <$> t) ++ repeat 0 (20 - S (length t)) = b :: m /\ b = hd 0 (toupper <$> t) /\ same_char b 66 = (b =? 66)) as (b & m & Em & Eb & Es).
  { destruct t as [|d t]; [rewrite fmap_nil | rewrite fmap_cons]; cbn [app hd length]; [eexists _, _; split; [reflexivity | split; [done | vm_compute; done]] |].
    apply Forall_cons in Ht as [Hd _]. eexists _, _. split; [reflexivity |]. split; [done |]. apply same_char_upper; [done | cbn; tauto]. }
  rewrite <- Eb in Hk. unfold size_scale. rewrite Em. cbn [ascii_bytes].
  unfold ascii_bytes. cbn [list_ascii_of_string fmap list_fmap app strncasecmp_eq].
  change (Z.of_nat (nat_of_ascii "K")) with 75. change (Z.of_nat (nat_of_ascii "M")) with 77. change (Z.of_nat (nat_of_ascii "G")) with 71.
  change (Z.of_nat (nat_of_ascii "T")) with 84. change (Z.of_nat (nat_of_ascii "P")) with 80. change (Z.of_nat (nat_of_ascii "B")) with 66.
  rewrite !same_char_upper, Es by (done || (cbn; tauto)).
  assert (forall a, a <> 0 -> (toupper c =? a) && ((toupper c =? 0) || (b =? 66) && ((b =? 0) || true)) = (toupper c =? a) && (b =? 66)) as E2.
  { intros a Ha. destruct (Z.eqb_spec (toupper c) a) as [->|]; [|done]. destruct (Z.eqb_spec a 0); [done |]. cbn. by rewrite orb_true_r, andb_true_r. }
  change (strncasecmp_eq m [0] 0) with true. rewrite !E2 by done.
  repeat match type of Hk with (if ?x then _ else _) = _ => destruct x eqn:? end; try done; injection Hk as <-.
  all: repeat match goal with H : _ && _ = _ |- _ => rewrite H end; rewrite ?Z.shiftl_mul_pow2 by lia; try done.
  rewrite orb_true_r. cbn [andb]. by rewrite Z.mul_1_r, u64_small.
Qed.

(** ** Fields of bytes *)

Lemma take_le k n z : (k <= n)%nat -> take k (le n z) = le k z.
Proof. revert n z. induction k as [|k IH]; intros [|n] z Hk; try done; [lia |]. cbn. by rewrite IH by lia. Qed.

Lemma drop_le j n z : drop j (le n z) = le (n - j) (z / 256 ^ Z.of_nat j).
Proof.
  revert n z. induction j as [|j IH]; intros [|n] z; cbn [drop le Nat.sub]; try done; [by rewrite Z.div_1_r |].
  rewrite IH, Nat2Z.inj_succ, Z.pow_succ_r, Z.div_div by lia. done.
Qed.

(** [n] bytes from [o] on are a number of the object. *)
Definition field_ok (o : Z) (n : nat) (b : block) : Prop :=
  0 <= o /\ (Z.to_nat o + n <= length (raw b))%nat /\ only_bytes o (Z.of_nat n) b = true.

Lemma clear_weaken {A} k (m : gmap Z A) o n o' n' : o <= o' -> o' + n' <= o + n ->
  forallb (fun x => (x.1 + k <=? o) || (o + n <=? x.1)) (map_to_list m) = true ->
  forallb (fun x => (x.1 + k <=? o') || (o' + n' <=? x.1)) (map_to_list m) = true.
Proof. intros H1 H2. rewrite !forallb_forall. intros Hx x Hin. specialize (Hx x Hin). lia. Qed.

Lemma only_bytes_weaken o n o' n' b : o <= o' -> o' + n' <= o + n -> only_bytes o n b = true -> only_bytes o' n' b = true.
Proof.
  intros H1 H2. unfold only_bytes. rewrite !andb_true_iff. intros [[[Ha Hb] Hc] Hd].
  repeat split; (eapply (clear_weaken _ _ o n); [exact H1 | exact H2 | assumption]).
Qed.

(** What was written is read, all of it or a part. *)
Lemma poke_peek o n z b : field_ok o n b ->
  exists b', poke n o z b = Some b' /\ strings b' = strings b /\ length (raw b') = length (raw b) /\
    forall j k, (j + k <= n)%nat -> peek k (o + Z.of_nat j) b' = Some (z / 256 ^ Z.of_nat j mod 256 ^ Z.of_nat k).
Proof.
  intros (H0 & Hl & Ho). unfold poke. rewrite (proj2 (Z.leb_le 0 o)), (proj2 (Nat.leb_le _ _)), Ho by done. cbn [andb]. eexists. split; [reflexivity |].
  split; [done |]. set (i := Z.to_nat o) in *.
  assert (length (take i (raw b) ++ le n z ++ drop (i + n) (raw b)) = length (raw b)) as Elen.
  { rewrite !length_app, length_take, length_drop, length_le. lia. }
  split; [exact Elen |]. intros j k Hk. unfold peek. cbn [raw with_raw]. rewrite Elen.
  assert (only_bytes (o + Z.of_nat j) (Z.of_nat k) (with_raw (take i (raw b) ++ le n z ++ drop (i + n) (raw b)) b) = true) as ->.
  { eapply (only_bytes_weaken o (Z.of_nat n)); [lia | lia | exact Ho]. }
  replace (Z.to_nat (o + Z.of_nat j)) with (i + j)%nat by lia. rewrite (proj2 (Z.leb_le 0 _)), (proj2 (Nat.leb_le _ _)) by lia. cbn [andb]. f_equal.
  rewrite <- drop_drop. rewrite drop_app_length' by (rewrite length_take; lia). rewrite drop_app, take_app. rewrite drop_le, length_le.
  rewrite take_le by lia. replace (k - (n - j))%nat with 0%nat by lia. cbn [take]. rewrite app_nil_r. apply unle_le.
Qed.

(** C20. [conf_parse_bytes_size] stores the number times its unit, in eight bytes, modulo
    2^64: the field that was meant, of four bytes, has the lower half, and the four bytes
    behind it, another option's field, have the upper half, which is zero for every size
    below 4 GB. *)
Theorem bytes_size_exact {St} `{Storage St} ds u k b o n e (s : St) :
  digits ds -> Forall is_u8 u -> (length u < 20)%nat -> unit_bits u = Some k -> field_ok o 8 b ->
  let w := {| len := Z.of_nat (length ds + length u); data := Some (digit_bytes ds ++ u ++ [0]) |} in
  let v := (dec_value ds * 2 ^ k) mod 2 ^ 64 in
  exists b', conf_parse_bytes_size b o OPE_EQUAL [n; e; w] 3 s = Some (NGX_OK, b', s) /\ strings b' = strings b /\
    peek 8 o b' = Some v /\ peek 4 o b' = Some (v mod 2 ^ 32) /\ peek 4 (o + 4) b' = Some (v / 2 ^ 32).
Proof.
  intros Hd Hu Hl Hk Hf w v. destruct (unit_not_digit u k Hu Hk) as (c & t & -> & Hc).
  unfold conf_parse_bytes_size. cbn [Z.eqb OPE_EQUAL CONF_TAKE3 negb Pos.eqb word]. change (word [n; e; w] (3 - 1)) with (Some w). cbn [mbind option_bind].
  unfold slen, w, chars. cbn [len data default]. rewrite Nat2Z.id. cbn [length] in *.
  match goal with |- context [size_digits ?a ?l 0] => change (size_digits a l 0) with (size_digits a l (u64 0)) end.
  unfold id. cbn [app]. rewrite size_digits_spec by done. cbn [mbind option_bind]. fold (dec_value ds).
  unfold size_unit. cbn [length]. rewrite length_app. cbn [length]. rewrite (proj2 (Nat.leb_le _ _)), (proj2 (Nat.ltb_lt _ _)) by lia. cbn [andb mbind option_bind].
  change (c :: t ++ [0]) with ((c :: t) ++ [0]). change (S (length t)) with (length (c :: t)). rewrite take_app_length.
  rewrite (size_scale_spec _ k) by (done || apply u64_range).
  assert (u64 (u64 (dec_value ds) * 2 ^ k) = v) as -> by (unfold u64, v; by rewrite Z.mul_mod_idemp_l by lia).
  destruct (poke_peek o 8 v b Hf) as (b' & -> & Hs & _ & Hp). exists b'. split; [done |]. split; [done |].
  assert (0 <= v < 2 ^ 64) as Hv by (apply Z.mod_pos_bound; lia).
  pose proof (Hp 0%nat 8%nat ltac:(lia)) as P1. pose proof (Hp 0%nat 4%nat ltac:(lia)) as P2. pose proof (Hp 4%nat 4%nat ltac:(lia)) as P3.
  rewrite Z.add_0_r, Z.div_1_r in P1, P2. change (256 ^ Z.of_nat 8) with (2 ^ 64) in P1. rewrite Z.mod_small in P1 by done.
  split; [done |]. split; [done |]. change (Z.of_nat 4) with 4 in P3. rewrite P3. f_equal. change (256 ^ Z.of_nat 4) with (2 ^ 32). apply Z.mod_small. split; [apply Z.div_pos; lia |].
  apply Z.div_lt_upper_bound; lia.
Qed.

(** ** Addresses *)

Definition address (c : server_bind) : list Z := cstr (chars (addr c)).

(** An address is stored with its length and its NUL. *)
Definition bind_ok (c : server_bind) : Prop :=
  exists l, (0 ∉ l) /\ addr c = {| len := Z.of_nat (length l); data := Some (l ++ [0]) |} /\ 1 <= port c <= 65535.

(** Two sockets for one address: the second cannot be bound. *)
Definition conflict (c e : server_bind) : Prop := port c = port e /\ (address c = address e \/ address c = CONF_SERVER_DEF_IP).

Fixpoint conflict_free (bs : list server_bind) : Prop :=
  match bs with [] => True | c :: bs => (Forall (fun e => ~ (conflict c e)) bs) /\ conflict_free bs end.

Definition binds_ok (bs : list server_bind) : Prop := Forall bind_ok bs /\ conflict_free bs.

Lemma conflict_free_snoc bs e : conflict_free (bs ++ [e]) <-> conflict_free bs /\ Forall (fun c => ~ conflict c e) bs.
Proof.
  induction bs as [|c bs IH]; cbn [conflict_free app]; [split; [done | by repeat constructor] |].
  rewrite IH, Forall_app, (Forall_singleton (fun e => ~ conflict c e)), (Forall_cons (fun c => ~ conflict c e)). tauto.
Qed.

Lemma cstr_app l rest : 0 ∉ l -> cstr (l ++ 0 :: rest) = l.
Proof.
  induction l as [|c l IH]; intros Hl; [done |]. apply not_elem_of_cons in Hl as [Hc Hl]. cbn [cstr app].
  destruct (Z.eqb_spec c 0); [congruence |]. f_equal. by apply IH.
Qed.

Lemma address_eq c l : 0 ∉ l -> addr c = {| len := Z.of_nat (length l); data := Some (l ++ [0]) |} -> address c = l.
Proof. intros Hl E. unfold address, chars. rewrite E. cbn [data default]. by apply cstr_app. Qed.

Lemma strncmp_same l x y : strncmp (l ++ x) (l ++ y) (length l) = Some 0.
Proof.
  induction l as [|c l IH]; [done |]. cbn [app length strncmp head tail mbind option_bind]. rewrite Z.eqb_refl. cbn [negb].
  destruct (c =? 0); [done | exact IH].
Qed.

Lemma strlen_none s : 0 ∉ s -> strlen s = None.
Proof.
  induction s as [|c s IH]; intros Hs; [done |]. apply not_elem_of_cons in Hs as [Hc Hs]. cbn [strlen].
  destruct (Z.eqb_spec c 0); [congruence |]. by rewrite IH.
Qed.

(** The colon is inside the string. *)
Lemma strchr_inside l rest c i : c <> 0 -> 0 ∉ l -> strchr (l ++ 0 :: rest) c = Some (Some i) -> (i < length l)%nat.
Proof.
  intros Hc. revert i. induction l as [|b l IH]; intros i Hl; cbn [strchr app].
  - destruct (Z.eqb_spec 0 c); [congruence |]. done.
  - apply not_elem_of_cons in Hl as [Hb Hl]. destruct (b =? c); [intros [= <-]; cbn; lia |]. destruct (Z.eqb_spec b 0); [congruence |].
    destruct (strchr (l ++ 0 :: rest) c) as [[j|]|] eqn:E; cbn [mbind option_bind option_map]; [|done..]. intros [= <-]. specialize (IH j Hl eq_refl). cbn. lia.
Qed.

Lemma u16_u32 v : u32 v <= 65535 -> u16 v = u32 v.
Proof. unfold u16, u32. intros H. pose proof (Z.mod_pos_bound v (2 ^ 32) ltac:(lia)). rewrite (Z.div_mod v (2 ^ 32)) at 1 by lia.
  replace (2 ^ 32 * (v / 2 ^ 32) + v mod 2 ^ 32) with (v mod 2 ^ 32 + v / 2 ^ 32 * 2 ^ 16 * 2 ^ 16) by lia. rewrite Z.mod_add by lia. apply Z.mod_small. lia. Qed.

(** The string of an address option, or of the default address made from it. *)
Definition cstring (w : string_t) (l : list Z) : Prop := (0 ∉ l) /\ slen w = length l /\ exists rest, data w = Some (l ++ 0 :: rest).

(** What the comparison misses is no conflict. *)
Lemma no_conflict c w l v i e :
  bind_ok c -> cstring w l -> bind_ipv4_str_cmp c w = Some false ->
  strchr (chars w) colon = Some i ->
  match i with Some i => port_of (chars w) i = Some v /\ port e = u32 v /\ address e = take i l | None => port e = CONF_SERVER_DEF_PORT /\ address e = l end ->
  port e <= 65535 -> ~ conflict c e.
Proof.
  intros (a & Ha & Ea & Hp) (Hl & Hlen & rest & Hd) Hcmp Hi He Hpe [Eport Hconf].
  assert (chars w = l ++ 0 :: rest) as Ew by (unfold chars; by rewrite Hd). pose proof (address_eq c a Ha Ea) as Eaddr. rewrite Eaddr in Hconf.
  unfold bind_ipv4_str_cmp in Hcmp. rewrite Hi in Hcmp. cbn [mbind option_bind] in Hcmp. fold (address c) in Hcmp. rewrite Eaddr in Hcmp.
  assert (exists p', (match i with Some i => v ← port_of (chars w) i; Some (u16 v) | None => Some CONF_SERVER_DEF_PORT end) = Some p' /\ p' = port c) as (p' & Ep & Epc).
  { destruct i as [i|]; [destruct He as (-> & E2 & _) | destruct He as [E2 _]]; eexists; (split; [reflexivity |]); [|congruence].
    rewrite E2 in *. rewrite u16_u32; lia. }
  rewrite Ep in Hcmp. cbn [mbind option_bind] in Hcmp. rewrite (proj2 (Z.eqb_eq p' (port c)) Epc) in Hcmp. rewrite andb_true_r in Hcmp.
  destruct (bool_decide (a = CONF_SERVER_DEF_IP)) eqn:Edef; [done |]. apply bool_decide_eq_false in Edef.
  destruct (_ || _); [done |]. destruct Hconf as [Hconf | ?]; [|done].
  assert (exists more, chars w = a ++ more) as [more Emore].
  { rewrite Ew. destruct i as [i|]; [destruct He as (_ & _ & E3) | destruct He as [_ E3]]; rewrite E3 in Hconf.
    - exists (drop i l ++ 0 :: rest). rewrite Hconf, app_assoc, take_drop. done.
    - exists (0 :: rest). by rewrite Hconf. }
  assert (chars (addr c) = a ++ [0]) as Ec by (unfold chars; by rewrite Ea). assert (slen (addr c) = length a) as El by (unfold slen; rewrite Ea; cbn; lia).
  rewrite Ec, Emore, El, strncmp_same in Hcmp. done.
Qed.

Section Binds.

Context {St : Type} `{St_storage : Storage St}.

Lemma pdup_spec p w l n (s : St) r s' :
  cstring w l -> (n <= length l)%nat -> string_xxxpdup p (data w) (Z.of_nat n) s = Some (r, s') -> r = None \/ r = Some (take n l ++ [0]).
Proof using.
  intros (Hl & _ & rest & Hd) Hn. unfold string_xxxpdup. destruct (st_pool_alloc _ _ _) as [[q s1]|]; cbn [mbind option_bind]; [|done].
  case_bool_decide; [intros [= <- <-]; by left |]. rewrite Nat2Z.id. destruct (dup_bytes (data w) n) as [d|] eqn:E; cbn [mbind option_bind]; [|done].
  intros [= <- <-]. right. f_equal. revert E. unfold dup_bytes. destruct n as [|n]; [by intros [= <-] |]. rewrite Hd. cbn [mbind option_bind].
  destruct (_ <=? _)%nat; [|done]. intros [= <-]. by rewrite take_app_le by lia.
Qed.

Lemma find_bind_none bs w : find_bind bs w = Some false -> Forall (fun c => bind_ipv4_str_cmp c w = Some false) bs.
Proof using.
  induction bs as [|c bs IH]; cbn [find_bind]; [constructor |]. destruct (bind_ipv4_str_cmp c w) as [[|]|] eqn:E; cbn [mbind option_bind]; [done | | done].
  intros H. constructor; [done | by apply IH].
Qed.

Lemma add_bind_ok a bs w l (s : St) a' bs' s' :
  binds_ok bs -> cstring w l -> len w = Z.of_nat (length l) -> add_bind a bs w s = Some (NGX_OK, a', bs', s') ->
  exists e, bs' = bs ++ [e] /\ binds_ok bs'.
Proof using.
  intros [Hok Hfree] Hw Hlen Hrun. unfold add_bind in Hrun. destruct (find_bind bs w) as [[|]|] eqn:Ef; cbn [mbind option_bind] in Hrun; [done | | done].
  apply find_bind_none in Ef. destruct (strchr (chars w) colon) as [sp|] eqn:Esp; cbn [mbind option_bind] in Hrun; [|done].
  destruct (match sp with Some i => v ← port_of (chars w) i; Some (u32 v, Z.of_nat i) | None => Some (CONF_SERVER_DEF_PORT, len w) end) as [[p n]|] eqn:Ep;
    cbn [mbind option_bind] in Hrun; [|done].
  destruct (_ || _) eqn:Erange; [done |]. apply orb_false_iff in Erange as [Ep0 Ep1].
  destruct (st_array_push (Some a) s) as [[[bind b] s1]|]; cbn [mbind option_bind] in Hrun; [|done]. destruct b as [b|]; cbn [mbind option_bind] in Hrun; [|done].
  case_bool_decide; [done |].
  assert (exists k v, n = Z.of_nat k /\ (k <= length l)%nat /\ 1 <= p /\
    match sp with Some i => port_of (chars w) i = Some v /\ p = u32 v /\ k = i | None => p = CONF_SERVER_DEF_PORT /\ k = length l end) as (k & v & -> & Hk & Hp1 & Hsp).
  { destruct sp as [i|].
    - destruct (port_of (chars w) i) as [v|]; cbn [mbind option_bind] in Ep; [|done]. injection Ep as <- <-. exists i, v. split; [done |].
      destruct Hw as (Hl & _ & rest & Hd). unfold chars in Esp. rewrite Hd in Esp. cbn [default] in Esp.
      pose proof (strchr_inside l rest colon i ltac:(done) Hl Esp). split; [lia |]. pose proof (u32_range v) as Hr. unfold is_u32 in Hr. split; [lia | done].
    - injection Ep as <- <-. exists (length l), 0. split; [done |]. split; [lia |]. done. }
  destruct (string_xxxpdup (a_pool b) (data w) (Z.of_nat k) s1) as [[r s2]|] eqn:Ed; cbn [mbind option_bind] in Hrun; [|done].
  destruct (pdup_spec _ _ _ _ _ _ _ Hw Hk Ed) as [-> | ->]; [done |]. injection Hrun as <- <- <-.
  set (e := {| addr := {| len := Z.of_nat k; data := Some (take k l ++ [0]) |}; port := p |}). exists e. split; [done |].
  assert (0 ∉ take k l) as Hnul by (intros (j & Hj & _)%elem_of_take; apply (proj1 Hw); by eapply list_elem_of_lookup_2).
  assert (addr e = {| len := Z.of_nat (length (take k l)); data := Some (take k l ++ [0]) |}) as Eaddr by (unfold e; cbn; rewrite length_take, Nat.min_l by done; done).
  split; [apply Forall_app; split; [done |]; constructor; [|constructor]; exists (take k l); split; [done |]; split; [done |]; cbn; lia |].
  apply conflict_free_snoc. split; [done |]. rewrite Forall_forall in Ef, Hok |- *. intros c Hc. eapply (no_conflict c w l v sp e); [by apply Hok | done | by apply Ef | done | | cbn; lia].
  rewrite (address_eq e _ Hnul Eaddr). destruct sp as [i|]; [destruct Hsp as (? & ? & ->) | destruct Hsp as [? ->]]; [done |]. split; [done |]. by rewrite take_ge.
Qed.


(** A word as the parser makes them. *)
Definition word_ok (w : string_t) : Prop := exists l, w = {| len := Z.of_nat (length l); data := Some (l ++ [0]) |}.

Lemma valid_no_nul w l t : w = {| len := Z.of_nat (length l); data := Some (l ++ [0]) |} ->
  conf_parse_valid_bind_ipv4 w = Some t -> t <> CONF_BIND_TYPE_ERROR -> 0 ∉ l.
Proof using.
  intros -> Hv Ht Hin. unfold conf_parse_valid_bind_ipv4, slen in Hv. cbn [len data mbind option_bind] in Hv.
  destruct (_ =? 0); [by injection Hv as <- |]. destruct (sizeof_address <=? _); [by injection Hv as <- |].
  destruct ((l ++ [0]) !! (_ - 1)%nat) as [x|]; cbn [mbind option_bind] in Hv; [|done]. destruct (negb (isalnum x)); [by injection Hv as <- |].
  destruct ((l ++ [0]) !! 0%nat) as [y|]; cbn [mbind option_bind] in Hv; [|done]. destruct (negb (isalnum y)); [by injection Hv as <- |].
  destruct (forallb _ _) eqn:E; cbn [negb] in Hv; [|by injection Hv as <-]. rewrite Nat2Z.id, take_app_length, forallb_forall in E.
  specialize (E 0). rewrite <- list_elem_of_In in E. specialize (E Hin). done.
Qed.

Lemma default_ip_bytes : CONF_SERVER_DEF_IP = [48; 46; 48; 46; 48; 46; 48].
Proof using. reflexivity. Qed.

Lemma default_address_spec w l (s : St) p w' s' : w = {| len := Z.of_nat (length l); data := Some (l ++ [0]) |} -> 0 ∉ l ->
  default_address w s = Some (p, w', s') ->
  let l' := CONF_SERVER_DEF_IP ++ [colon] ++ l in
  (0 ∉ l') /\ len w' = Z.of_nat (length l') /\ data w' = Some (l' ++ repeat 0 (22 - length l')).
Proof using.
  intros -> Hl Hrun l'. unfold default_address in Hrun. destruct (st_malloc _ _) as [q s1]. case_bool_decide; [done |].
  cbn [data mbind option_bind] in Hrun. unfold slen in Hrun. cbn [len] in Hrun. rewrite Nat2Z.id, take_app_length in Hrun. fold l' in Hrun.
  destruct (_ <? _); [done |]. injection Hrun as <- <- <-. split; [|done]. unfold l'. rewrite default_ip_bytes. cbn [app]. rewrite !not_elem_of_cons. unfold colon. repeat split; try done.
Qed.

Lemma add_bind_no_nul a bs w l (s : St) r :
  0 ∉ l -> data w = Some l -> (exists i, strchr l colon = Some (Some i)) -> add_bind a bs w s = Some r -> r.1.1.1 = NGX_ERROR.
Proof using.
  intros Hl Hd [i Hi] Hrun. unfold add_bind in Hrun. destruct (find_bind bs w) as [[|]|]; cbn [mbind option_bind] in Hrun; [by injection Hrun as <- | | done].
  unfold chars in Hrun. rewrite Hd in Hrun. cbn [default] in Hrun. unfold id in Hrun. rewrite Hi in Hrun. cbn [mbind option_bind] in Hrun.
  unfold port_of in Hrun. rewrite strlen_none in Hrun; [done |]. intros Hin. apply Hl. rewrite <- (take_drop (S i) l). apply elem_of_app. by right.
Qed.

Lemma strchr_app a l c : 0 ∉ a -> c ∉ a -> strchr (a ++ c :: l) c = Some (Some (length a)).
Proof using.
  induction a as [|b a IH]; intros H0 Hc; cbn [strchr app length]; [by rewrite Z.eqb_refl |].
  apply not_elem_of_cons in H0 as [? ?]. apply not_elem_of_cons in Hc as [? ?]. destruct (Z.eqb_spec b c); [congruence |]. destruct (Z.eqb_spec b 0); [congruence |].
  rewrite IH by done. done.
Qed.

(** C21. The addresses of a server never stand in each other's way: an option that was accepted
    adds one address to the list, and if no earlier address of the list was the same as a later
    one, or the wildcard with the same port, that is still so. *)
Theorem bind_conflict_free b o type args n (s : St) b' s' a bs w :
  binds b !! o = Some (a, bs) -> binds_ok bs -> word args (n - 1) = Some w -> word_ok w ->
  conf_parse_bind b o type args n s = Some (NGX_OK, b', s') ->
  exists a' e, binds b' !! o = Some (a', bs ++ [e]) /\ binds_ok (bs ++ [e]).
Proof using.
  intros Hb Hok Hw [l Hl] Hrun. unfold conf_parse_bind in Hrun. destruct (_ || _); [done |]. rewrite Hw in Hrun. cbn [mbind option_bind] in Hrun.
  destruct (conf_parse_valid_bind_ipv4 w) as [t|] eqn:Ev; cbn [mbind option_bind] in Hrun; [|done].
  destruct (Z.eqb_spec t CONF_BIND_TYPE_ERROR) as [|Ht]; [done |]. pose proof (valid_no_nul w l t Hl Ev Ht) as Hnul. rewrite Hb in Hrun. cbn [mbind option_bind] in Hrun.
  destruct (if t =? CONF_BIND_TYPE_PORT then default_address w s else Some (nullptr, w, s)) as [[[tmp w'] s1]|] eqn:Et; cbn [mbind option_bind] in Hrun; [|done].
  destruct (add_bind a bs w' s1) as [[[[rc a'] bs'] s2]|] eqn:Ea; cbn [mbind option_bind] in Hrun; [|done].
  destruct (Z.eqb_spec rc NGX_OK) as [-> | Hrc]; [|done].
  assert (exists e, bs' = bs ++ [e] /\ binds_ok bs') as (e & -> & Hok').
  { destruct (t =? CONF_BIND_TYPE_PORT).
    - destruct (default_address_spec _ _ _ _ _ _ Hl Hnul Et) as (Hn' & Hlen & Hd). set (l' := CONF_SERVER_DEF_IP ++ [colon] ++ l) in *.
      destruct (22 - length l')%nat as [|k] eqn:Ek.
      + cbn [repeat] in Hd. rewrite app_nil_r in Hd. exfalso. assert (NGX_OK = NGX_ERROR); [|done].
        apply (add_bind_no_nul a bs w' l' s1 (NGX_OK, a', bs', s2) Hn' Hd); [|exact Ea].
        exists 7%nat. apply (strchr_app CONF_SERVER_DEF_IP); rewrite default_ip_bytes, !not_elem_of_cons; unfold colon; repeat split; try lia; apply not_elem_of_nil.
      + eapply add_bind_ok; [done | | exact Hlen | exact Ea]. split; [done |]. split; [unfold slen; rewrite Hlen; lia |]. eexists. exact Hd.
    - injection Et as <- <- <-. eapply (add_bind_ok a bs w l); [done | | by rewrite Hl | exact Ea]. split; [done |]. rewrite Hl. split; [unfold slen; cbn; lia |]. by exists []. }
  exists a', e. split; [|done]. assert (binds (with_binds o (a', bs ++ [e]) b) !! o = Some (a', bs ++ [e])) as E by (cbn; apply lookup_insert_eq).
  case_bool_decide; cbn [mbind option_bind] in Hrun; [by injection Hrun as <- <- |].
  destruct (st_free tmp s2); cbn [mbind option_bind] in Hrun; [|done]. by injection Hrun as <- <-.
Qed.

End Binds.

(** ** Witnesses and examples *)

(** The program's own storage, on a [malloc] that hands out one address after the other. *)
Definition test_storage : Storage heap := heap_storage (fun _ => bump 16) 3.
#[local] Existing Instance test_storage.

Definition test_made : ptr * heap := pool_create (fun _ => bump 16) 65536 4096 empty_heap.
Definition test_pool : ptr := test_made.1.
Definition test_heap : heap := test_made.2.

Definition sized_block (n : nat) : block := {| raw := repeat 0 n; strings := ∅; binds := ∅; ints := ∅; percents := {[ 100 := 0 ]} |}.

Definition word_of (s : string) : string_t := string_make s.

Lemma bytes_size_exact_witness :
  exists b', conf_parse_bytes_size (sized_block 24) 4 OPE_EQUAL [word_of "size"; word_of "="; word_of "5GBytes"] 3 test_heap = Some (NGX_OK, b', test_heap) /\ strings b' = ∅ /\
    peek 8 4 b' = Some (5 * 2 ^ 30) /\ peek 4 4 b' = Some (2 ^ 30) /\ peek 4 8 b' = Some 1.
Proof.
  apply (bytes_size_exact [5] [71; 66; 121; 116; 101; 115] 30 (sized_block 24) 4 (word_of "size") (word_of "=") test_heap).
  - repeat constructor; lia.
  - repeat constructor; lia.
  - cbn. lia.
  - reflexivity.
  - repeat split; cbn; lia.
Defined.

Definition bind_block : block := {|
  raw := repeat 0 8; strings := ∅; ints := ∅; percents := ∅;
  binds := {[ 8 := ({| elts := 64%N; nelts := 1; a_size := 24; nalloc := 1; a_pool := test_pool |}, [{| addr := word_of "10.0.0.1"; port := 80 |}]) ]}
|}.

Lemma bind_conflict_free_witness :
  exists a' e, binds (match conf_parse_bind bind_block 8 OPE_EQUAL [word_of "bind"; word_of "="; word_of "8500"] 3 test_heap with Some (_, b', _) => b' | None => bind_block end) !! 8 =
    Some (a', [{| addr := word_of "10.0.0.1"; port := 80 |}] ++ [e]) /\ binds_ok ([{| addr := word_of "10.0.0.1"; port := 80 |}] ++ [e]).
Proof.
  eapply (bind_conflict_free bind_block 8 OPE_EQUAL [word_of "bind"; word_of "="; word_of "8500"] 3 test_heap _ _).
  - vm_compute. reflexivity.
  - split; [|split; [constructor | exact I]]. constructor; [|constructor]. exists (ascii_bytes "10.0.0.1"). split; [|split; [reflexivity | cbn; lia]].
    vm_compute. intros H. repeat (apply elem_of_cons in H as [H | H]; [discriminate |]). by apply not_elem_of_nil in H.
  - reflexivity.
  - exists (ascii_bytes "8500"). reflexivity.
  - vm_compute. reflexivity.
Defined.

(** An address that only begins like one of the list is taken for it. *)
Example bind_prefix_refused :
  bind_ipv4_str_cmp {| addr := word_of "10.0.0.1"; port := 80 |} (word_of "10.0.0.10:80") = Some true.
Proof. vm_compute. reflexivity. Qed.

(** Fifteen characters after the default address do not fit the buffer. *)
Example long_port_overflows :
  conf_parse_bind bind_block 8 OPE_EQUAL [word_of "bind"; word_of "="; word_of "localhost000000"] 3 test_heap = None.
Proof. vm_compute. reflexivity. Qed.

(** Without its sign a percentage may be anything. *)
Example percent_unchecked :
  (fun r => percents r.1.2 !! 100) <$> conf_parse_percent (sized_block 8) 100 OPE_EQUAL [word_of "p"; word_of "="; word_of "250"] 3 test_heap = Some (Some 250) /\
  (fun r => r.1.1) <$> conf_parse_percent (sized_block 8) 100 OPE_EQUAL [word_of "p"; word_of "="; word_of "250%"] 3 test_heap = Some NGX_ERROR.
Proof. vm_compute. done. Qed.

(** A long unit runs over its twenty bytes. *)
Example long_unit_overflows :
  conf_parse_bytes_size (sized_block 24) 4 OPE_EQUAL [word_of "size"; word_of "="; word_of "1kilobytes_of_buffer_"] 3 test_heap = None.
Proof. vm_compute. reflexivity. Qed.
