(* ===== verification/Conf.v ===== *)
(** * The configuration parser ([src/core/dfs_conf.cpp])

    A file is statements that end in semicolons. [Class name;] makes an object of a class,
    [name.option = words;] sets one of its options. The parser first cuts the whole buffer
    into statements ([lex], the character loop), then makes the objects, then sets the options
    ([parse_types], [parse_options]).

    A word is the bytes it was built from, the reused option buffer the bytes written since it
    was last cleared; the arrays of words and statements are an [array_t], which decides
    whether there is room, with the list of what was stored in it. Reads behind the buffer and
    writes behind the option buffer are undefined ([None]), and so is the use of an array or a
    buffer that could not be allocated. *)

From Stdlib Require Import String Ascii.
From S2P Require Import Prelude Memory Strings MemoryPool Array ConfBase.
#[local] Open Scope string_scope.
#[local] Open Scope list_scope.
#[local] Open Scope Z_scope.

Definition CONF_MAX_CLASS_N : Z := 32.
Definition CONF_MAX_OPTION_S : Z := 1024.
Definition CONF_MAX_OPTION_N : Z := 8.
Definition CONF_MAX_TYPE_ARRAY_N : Z := 256.
Definition CONF_POOL_SIZE : Z := 16384.
Definition sizeof_conf_args : Z := 16.
Definition sizeof_conf_variable : Z := 56.
Definition sizeof_conf_context : Z := 80.

(** ** The character loop *)

Definition chr_newline : Z := 10.
Definition chr_return : Z := 13.
Definition chr_space : Z := 32.
Definition chr_quote : Z := 34.
Definition chr_hash : Z := 35.
Definition chr_apostrophe : Z := 39.
Definition chr_semicolon : Z := 59.
Definition chr_backslash : Z := 92.

Section Parser.

Context {St : Type} `{Storage St}.

(** An array, null if it could not be made, and its elements. *)
Record items (A : Type) := { arr : option array_t; elems : list A }.
#[global] Arguments arr {A} _.
#[global] Arguments elems {A} _.
#[global] Arguments Build_items {A} _ _.

(* src/src/core/dfs_conf.cpp:11-15 (conf_args_s) *)
Record conf_args_t := { a_words : items string_t; a_line : Z }.

(** The variables of [conf_parse_buf]. [option_] is null, or what was written to the buffer. *)
(* src/src/core/dfs_conf.cpp:156-177 (conf_parse_buf) *)
Record lexer := {
  comment : bool; line : Z; first_quote : bool; last_quote : bool; option_ : option (list Z);
  args : items string_t; arr_type : items conf_args_t; arr_opts : items conf_args_t; tmp_pool : ptr; store : St
}.

Definition with_comment (c : bool) (x : lexer) : lexer :=
  {| comment := c; line := line x; first_quote := first_quote x; last_quote := last_quote x; option_ := option_ x;
     args := args x; arr_type := arr_type x; arr_opts := arr_opts x; tmp_pool := tmp_pool x; store := store x |}.
Definition with_line (n : Z) (x : lexer) : lexer :=
  {| comment := comment x; line := n; first_quote := first_quote x; last_quote := last_quote x; option_ := option_ x;
     args := args x; arr_type := arr_type x; arr_opts := arr_opts x; tmp_pool := tmp_pool x; store := store x |}.
Definition with_quotes (a b : bool) (x : lexer) : lexer :=
  {| comment := comment x; line := line x; first_quote := a; last_quote := b; option_ := option_ x;
     args := args x; arr_type := arr_type x; arr_opts := arr_opts x; tmp_pool := tmp_pool x; store := store x |}.
Definition with_option (o : option (list Z)) (x : lexer) : lexer :=
  {| comment := comment x; line := line x; first_quote := first_quote x; last_quote := last_quote x; option_ := o;
     args := args x; arr_type := arr_type x; arr_opts := arr_opts x; tmp_pool := tmp_pool x; store := store x |}.
Definition with_args (a : items string_t) (s : St) (x : lexer) : lexer :=
  {| comment := comment x; line := line x; first_quote := first_quote x; last_quote := last_quote x; option_ := option_ x;
     args := a; arr_type := arr_type x; arr_opts := arr_opts x; tmp_pool := tmp_pool x; store := s |}.
Definition with_types (a : items conf_args_t) (s : St) (x : lexer) : lexer :=
  {| comment := comment x; line := line x; first_quote := first_quote x; last_quote := last_quote x; option_ := option_ x;
     args := args x; arr_type := a; arr_opts := arr_opts x; tmp_pool := tmp_pool x; store := s |}.
Definition with_opts (a : items conf_args_t) (s : St) (x : lexer) : lexer :=
  {| comment := comment x; line := line x; first_quote := first_quote x; last_quote := last_quote x; option_ := option_ x;
     args := args x; arr_type := arr_type x; arr_opts := a; tmp_pool := tmp_pool x; store := s |}.

(** Go on; [return NGX_ERROR], which leaves the temporary pool behind; [goto error], which
    destroys it. *)
Inductive flow := Go (x : lexer) | Return_ (x : lexer) | Error_ (x : lexer).

(** [*q++ = c; option_len++]: the buffer has [CONF_MAX_OPTION_S + 1] bytes, and nothing looks. *)
Definition put_char (c : Z) (x : lexer) : option lexer :=
  o ← option_ x;
  if Z.of_nat (length o) <=? CONF_MAX_OPTION_S then Some (with_option (Some (o ++ [c])) x) else None.

Definition in_quotes (x : lexer) : bool := first_quote x && negb (last_quote x).

(** [normal_char]. *)
(* src/src/core/dfs_conf.cpp:445-449 (conf_parse_buf) *)
Definition normal_char (c : Z) (x : lexer) : option flow := x ← put_char c x; Some (Go x).

(** The new element of an array, [None] inside when there is no room. *)
Definition push {A} (l : items A) (a : A) (s : St) : option (option (items A) * St) :=
  '(p, b, s) ← st_array_push (arr l) s;
  if bool_decide (p = nullptr) then Some (None, s) else Some (Some {| arr := b; elems := elems l ++ [a] |}, s).

(** The word in the option buffer becomes an argument. [fault] says that the caller uses the
    new element without a look at it. *)
(* src/src/core/dfs_conf.cpp:233-258 (conf_parse_buf) *)
Definition save_word (fault : bool) (x : lexer) : option flow :=
  o ← option_ x;
  '(l, s) ← push (args x) {| len := Z.of_nat (length o); data := Some (o ++ [0]) |} (store x);
  match l with
  | None => if fault then None else Some (Return_ (with_args (args x) s x))
  | Some l =>
      '(d, s) ← st_pool_alloc (tmp_pool x) (u64 (Z.of_nat (length o) + 1)) s;
      if bool_decide (d = nullptr) then Some (Return_ (with_args l s x)) else Some (Go (with_args l s x))
  end.

(* src/src/core/dfs_conf.cpp:225-270 (conf_parse_buf) *)
Definition lex_space (x : lexer) : option flow :=
  if in_quotes x then normal_char chr_space x
  else
    o ← option_ x;
    r ← (match o with [] => Some (Go x) | _ => save_word false x end);
    match r with
    | Go x => Some (Go (with_quotes false false (with_option (Some []) x)))
    | r => Some r
    end.

(** A quote that closes must be followed by a semicolon or a space. *)
(* src/src/core/dfs_conf.cpp:296-318 (conf_parse_buf) *)
Definition lex_quote (rest : list Z) (x : lexer) : flow :=
  if negb (first_quote x) then Go (with_quotes true (last_quote x) x)
  else
    let x := with_quotes (first_quote x) true x in
    match rest with
    | c :: _ => if (c =? chr_semicolon) || (c =? chr_space) then Go x else Return_ x
    | [] => Return_ x
    end.

(* src/src/core/dfs_conf.cpp:320-337 (conf_parse_buf) *)
Definition lex_hash (x : lexer) : option flow :=
  if in_quotes x then normal_char chr_hash x
  else o ← option_ x; match o with [] => Some (Go (with_comment true x)) | _ => Some (Return_ x) end.

(** At the end of the buffer the byte before the newline is looked at. *)
(* src/src/core/dfs_conf.cpp:339-368 (conf_parse_buf) *)
Definition lex_newline (prev : option Z) (rest : list Z) (x : lexer) : option flow :=
  if in_quotes x then Some (Return_ x)
  else
    let x := with_quotes false false (with_line (line x + 1) x) in
    match rest with
    | [] => c ← prev; if negb (c =? chr_semicolon) && negb (comment x) then Some (Return_ x) else Some (Go (with_comment false x))
    | _ => Some (Go (with_comment false x))
    end.

(** The arguments so far are a statement. *)
(* src/src/core/dfs_conf.cpp:408-443 (conf_parse_buf) *)
Definition end_statement (x : lexer) : option flow :=
  a ← arr (args x);
  let st := {| a_words := args x; a_line := line x |} in
  r ← (if 3 <=? nelts a then
         '(l, s) ← push (arr_opts x) st (store x); l ← l; Some (Some (with_opts l s x))
       else if nelts a =? 2 then
         '(l, s) ← push (arr_type x) st (store x); l ← l; Some (Some (with_types l s x))
       else Some None);
  match r with
  | None => Some (Error_ x)
  | Some x =>
      '(a, s) ← st_array_create (tmp_pool x) CONF_MAX_OPTION_N sizeof_string (store x);
      Some (Go (with_quotes false false (with_args {| arr := a; elems := [] |} s x)))
  end.

(* src/src/core/dfs_conf.cpp:370-443 (conf_parse_buf) *)
Definition lex_semicolon (x : lexer) : option flow :=
  if in_quotes x then normal_char chr_semicolon x
  else
    o ← option_ x;
    r ← (match o with
         | [] => '(l, s) ← push (args x) string_null (store x); l ← l; Some (Go (with_args l s x))
         | _ => save_word true x
         end);
    match r with
    | Go x => end_statement (with_option (Some []) x)
    | r => Some r
    end.

(** A backslash and [c]; a newline is handled by the caller. *)
(* src/src/core/dfs_conf.cpp:281-294 (conf_parse_buf) *)
Definition lex_escaped (c : Z) (x : lexer) : option flow :=
  if (c =? chr_quote) || (c =? chr_apostrophe) then normal_char c x
  else x ← put_char chr_backslash x; normal_char c x.

(** The rest of the buffer; [prev] is the byte before it. *)
(* src/src/core/dfs_conf.cpp:206-453 (conf_parse_buf) *)
Fixpoint lex (prev : option Z) (l : list Z) (x : lexer) : option flow :=
  match l with
  | [] => Some (Go x)
  | ch :: rest =>
      let next (r : option flow) := r ← r; match r with Go x => lex (Some ch) rest x | r => Some r end in
      if comment x && negb (ch =? chr_newline) then lex (Some ch) rest x
      else if ch =? chr_return then lex (Some ch) rest x
      else if ch =? chr_space then next (lex_space x)
      else if ch =? chr_backslash then
        match rest with
        | [] => None
        | c :: rest =>
            if c =? chr_newline then lex (Some c) rest x
            else r ← lex_escaped c x; match r with Go x => lex (Some c) rest x | r => Some r end
        end
      else if ch =? chr_quote then next (Some (lex_quote rest x))
      else if ch =? chr_hash then next (lex_hash x)
      else if ch =? chr_newline then next (lex_newline prev rest x)
      else if ch =? chr_semicolon then next (lex_semicolon x)
      else next (normal_char ch x)
  end.

(** The empty arrays and the buffer. *)
(* src/src/core/dfs_conf.cpp:184-204 (conf_parse_buf) *)
Definition lex_start (page_size : Z) (s : St) : option (option lexer * St) :=
  let '(pool, s) := st_pool_create CONF_POOL_SIZE page_size s in
  if bool_decide (pool = nullptr) then Some (None, s)
  else
    '(types, s) ← st_array_create pool CONF_MAX_TYPE_ARRAY_N sizeof_conf_args s;
    '(opts, s) ← st_array_create pool CONF_MAX_TYPE_ARRAY_N sizeof_conf_args s;
    '(a, s) ← st_array_create pool CONF_MAX_OPTION_N sizeof_string s;
    '(o, s) ← st_pool_alloc pool (CONF_MAX_OPTION_S + 1) s;
    Some (Some {|
      comment := false; line := 1; first_quote := false; last_quote := false; option_ := if bool_decide (o = nullptr) then None else Some [];
      args := {| arr := a; elems := [] |}; arr_type := {| arr := types; elems := [] |}; arr_opts := {| arr := opts; elems := [] |};
      tmp_pool := pool; store := s |}, s).

(** ** Objects *)

(* src/src/core/dfs_conf_base.h:67-73 (conf_option_s) *)
Record conf_option_t := { opt_name : string_t; opt_handler : handler (St := St); opt_type : Z; opt_offset : Z }.

(** What a variable's slot of the array holds of its names and its object. A name whose length
    or pointer [make_default] wrote into is [None]. *)
Record slot := { name : option string_t; obj_name : string_t; conf : block }.

(** [make_default] is given a pointer into some memory: the bytes of it and the offset of what
    it points to. *)
Definition default_fn : Type := list Z -> nat -> option (Z * list Z).

(* src/src/core/dfs_conf.h:15-21 (conf_object_s) *)
Record conf_object_t := {
  o_name : string_t; o_init : ptr -> St -> option (option block * St); o_make_default : option default_fn; o_option : list conf_option_t
}.

(* src/src/core/dfs_conf_base.h:50-57 (conf_variable_s) *)
Record conf_variable_t := { v_slot : slot; v_option : list conf_option_t; v_make_default : option default_fn }.

(** [conf_line] is what an error message would say, [None] when it was read from memory that
    was never written. *)
(* src/src/core/dfs_conf.h:31-39 (conf_context_s) *)
Record conf_context_t := { pool : ptr; vars : items conf_variable_t; conf_line : option Z; conf_objects : list conf_object_t; file_name : string_t }.

Definition with_vars (v : items conf_variable_t) (ctx : conf_context_t) : conf_context_t :=
  {| pool := pool ctx; vars := v; conf_line := conf_line ctx; conf_objects := conf_objects ctx; file_name := file_name ctx |}.
Definition at_line (n : option Z) (ctx : conf_context_t) : conf_context_t :=
  {| pool := pool ctx; vars := vars ctx; conf_line := n; conf_objects := conf_objects ctx; file_name := file_name ctx |}.
Definition with_conf (b : block) (v : conf_variable_t) : conf_variable_t :=
  {| v_slot := {| name := name (v_slot v); obj_name := obj_name (v_slot v); conf := b |}; v_option := v_option v; v_make_default := v_make_default v |}.

(* src/src/core/dfs_conf.cpp:824-835 (conf_string_pdup) *)
Definition conf_string_pdup (p : ptr) (src : string_t) (s : St) : option (option string_t * St) :=
  '(d, s) ← string_xxpdup p src s;
  match d with
  | None => Some (None, s)
  | Some d => Some (Some {| len := len src; data := Some d |}, s)
  end.

(** The name comparison of all the tables: equal lengths, and equal bytes but for case. *)
Definition same_name (a b : string_t) : option bool :=
  if len a =? len b then r ← string_xxstrncasecmp (chars a) (chars b) (slen a); Some (r =? 0) else Some false.

(* src/src/core/dfs_conf.cpp:731-770 (conf_parse_object) *)
Definition conf_parse_object (ctx : conf_context_t) (var : string_t) (obj : conf_object_t) (s : St) : option (Z * conf_context_t * St) :=
  '(p, a, s) ← st_array_push (arr (vars ctx)) s;
  if bool_decide (p = nullptr) then Some (NGX_ERROR, ctx, s)
  else
    let ctx := with_vars {| arr := a; elems := elems (vars ctx) |} ctx in
    '(n, s) ← conf_string_pdup (pool ctx) var s;
    match n with
    | None => Some (NGX_ERROR, ctx, s)
    | Some n =>
        '(on, s) ← conf_string_pdup (pool ctx) (o_name obj) s;
        match on with
        | None => Some (NGX_ERROR, ctx, s)
        | Some on =>
            '(c, s) ← o_init obj (pool ctx) s;
            match c with
            | None => Some (NGX_ERROR, ctx, s)
            | Some c =>
                let v := {| v_slot := {| name := Some n; obj_name := on; conf := c |}; v_option := o_option obj; v_make_default := o_make_default obj |} in
                Some (NGX_OK, with_vars {| arr := a; elems := elems (vars ctx) ++ [v] |} ctx, s)
            end
        end
    end.

(** The loop over the classes; an empty name ends the table. *)
(* src/src/core/dfs_conf.cpp:573-598 (conf_parse_type) *)
Fixpoint find_object (objects : list conf_object_t) (w : string_t) : option (option conf_object_t) :=
  match objects with
  | [] => None
  | o :: objects =>
      if len (o_name o) <=? 0 then Some None
      else same ← same_name w (o_name o); if same : bool then Some (Some o) else find_object objects w
  end.

(* src/src/core/dfs_conf.cpp:554-604 (conf_parse_type) *)
Definition conf_parse_type (ctx : conf_context_t) (conf_args : conf_args_t) (s : St) : option (Z * conf_context_t * St) :=
  w0 ← elems (a_words conf_args) !! 0%nat;
  o ← find_object (conf_objects ctx) w0;
  match o with
  | None => Some (NGX_ERROR, ctx, s)
  | Some o => w1 ← elems (a_words conf_args) !! 1%nat; conf_parse_object ctx w1 o s
  end.

(** The index of the first variable of that name. *)
(* src/src/core/dfs_conf.cpp:709-722 (conf_get_vobject) *)
Fixpoint find_variable (vs : list conf_variable_t) (w : string_t) (i : nat) : option (option nat) :=
  match vs with
  | [] => Some None
  | v :: vs => n ← name (v_slot v); same ← same_name w n; if same : bool then Some (Some i) else find_variable vs w (S i)
  end.

(* src/src/core/dfs_conf.cpp:701-729 (conf_get_vobject) *)
Definition conf_get_vobject (ctx : conf_context_t) (w : string_t) : option (option nat) := find_variable (elems (vars ctx)) w 0.

(* src/src/core/dfs_conf.cpp:780-815 (conf_parse_object_att) *)
Fixpoint find_option (options : list conf_option_t) (att : string_t) : option (option conf_option_t) :=
  match options with
  | [] => None
  | o :: options =>
      if len (opt_name o) <=? 0 then Some None
      else same ← same_name att (opt_name o); if same : bool then Some (Some o) else find_option options att
  end.

(** The operator the option wants, if the second word is that. *)
(* src/src/core/dfs_conf.cpp:792-808 (conf_parse_object_att) *)
Definition operator (o : conf_option_t) (oper : string_t) : option (option Z) :=
  if negb (len oper =? 1) then Some None
  else
    c ← chars oper !! 0%nat;
    Some (if (opt_type o =? OPE_EQUAL) && (c =? 61) then Some OPE_EQUAL
          else if (opt_type o =? OPE_REGEX) && (c =? 126) then Some OPE_REGEX else None).

(* src/src/core/dfs_conf.cpp:772-822 (conf_parse_object_att) *)
Definition conf_parse_object_att (v : conf_variable_t) (att : string_t) (args : list string_t) (args_n : Z) (s : St) : option (Z * conf_variable_t * St) :=
  o ← find_option (v_option v) att;
  match o with
  | None => Some (NGX_ERROR, v, s)
  | Some o =>
      oper ← args !! 1%nat;
      type ← operator o oper;
      match type with
      | None => Some (NGX_ERROR, v, s)
      | Some type =>
          '(rc, b, s) ← opt_handler o (conf (v_slot v)) (opt_offset o) type args args_n s;
          Some (if rc <? 0 then NGX_ERROR else NGX_OK, with_conf b v, s)
      end
  end.

(** [object.option]: the part before the dot, and the part behind it. *)
(* src/src/core/dfs_conf.cpp:667-679 (conf_parse_option) *)
Definition split_name (w : string_t) : option (option (string_t * string_t)) :=
  ch ← strchr (chars w) 46;
  Some match ch with
       | None => None
       | Some i => Some ({| len := Z.of_nat i; data := data w |}, {| len := u64 (len w - Z.of_nat i - 1); data := drop (S i) <$> data w |})
       end.

(** A statement of two words never gets here, though there is a branch for it. *)
(* src/src/core/dfs_conf.cpp:607-699 (conf_parse_option) *)
Definition conf_parse_option (ctx : conf_context_t) (conf_args : conf_args_t) (s : St) : option (Z * conf_context_t * St) :=
  a ← arr (a_words conf_args);
  let words := elems (a_words conf_args) in
  if (CONF_TAKE12 <? nelts a) || (nelts a <? CONF_TAKE2) then Some (NGX_ERROR, ctx, s)
  else
    w0 ← words !! 0%nat;
    if nelts a =? CONF_TAKE2 then
      o ← find_object (conf_objects ctx) w0;
      match o with
      | None => Some (NGX_ERROR, ctx, s)
      | Some o => w1 ← words !! 1%nat; conf_parse_object ctx w1 o s
      end
    else
      parts ← split_name w0;
      match parts with
      | None => Some (NGX_ERROR, ctx, s)
      | Some (var, att) =>
          i ← conf_get_vobject ctx var;
          match i with
          | None => Some (NGX_ERROR, ctx, s)
          | Some i =>
              v ← elems (vars ctx) !! i;
              '(rc, v, s) ← conf_parse_object_att v att words (nelts a) s;
              Some (rc, with_vars {| arr := arr (vars ctx); elems := <[i := v]> (elems (vars ctx)) |} ctx, s)
          end
      end.

(** ** The whole buffer *)

(* src/src/core/dfs_conf.cpp:471-479 (conf_parse_buf) *)
Fixpoint parse_types (ctx : conf_context_t) (l : list conf_args_t) (s : St) : option (Z * conf_context_t * St) :=
  match l with
  | [] => Some (NGX_OK, ctx, s)
  | t :: l =>
      '(rc, ctx, s) ← conf_parse_type (at_line (Some (a_line t)) ctx) t s;
      if rc =? NGX_OK then parse_types ctx l s else Some (rc, ctx, s)
  end.

(** [type[i].line]: the options are numbered in the array of the types, which ends after
    [nelts] elements that were written and [nalloc] that are there. *)
Definition line_of_type (types : items conf_args_t) (i : nat) : option (option Z) :=
  a ← arr types;
  match elems types !! i with
  | Some t => Some (Some (a_line t))
  | None => if Z.of_nat i <? nalloc a then Some None else None
  end.

(* src/src/core/dfs_conf.cpp:485-493 (conf_parse_buf) *)
Fixpoint parse_options (ctx : conf_context_t) (types : items conf_args_t) (i : nat) (l : list conf_args_t) (s : St) : option (Z * conf_context_t * St) :=
  match l with
  | [] => Some (NGX_OK, ctx, s)
  | o :: l =>
      n ← line_of_type types i;
      '(rc, ctx, s) ← conf_parse_option (at_line n ctx) o s;
      if rc =? NGX_OK then parse_options ctx types (S i) l s else Some (rc, ctx, s)
  end.

(** [error]: the pool goes, the error stays. *)
Definition destroy_with (rc : Z) (tmp : ptr) (ctx : conf_context_t) (s : St) : option (Z * conf_context_t * St) :=
  s ← st_pool_destroy tmp s; Some (rc, ctx, s).

(** After the character loop. *)
(* src/src/core/dfs_conf.cpp:455-503 (conf_parse_buf) *)
Definition conf_parse_statements (ctx : conf_context_t) (x : lexer) : option (Z * conf_context_t * St) :=
  if in_quotes x then destroy_with NGX_ERROR (tmp_pool x) (at_line (Some (line x)) ctx) (store x)
  else
    _ ← arr (arr_type x);
    '(rc, ctx, s) ← parse_types ctx (elems (arr_type x)) (store x);
    if negb (rc =? NGX_OK) then destroy_with NGX_ERROR (tmp_pool x) ctx s
    else
      _ ← arr (arr_opts x);
      '(rc, ctx, s) ← parse_options ctx (arr_type x) 0 (elems (arr_opts x)) s;
      destroy_with (if rc =? NGX_OK then NGX_OK else NGX_ERROR) (tmp_pool x) ctx s.

(* src/src/core/dfs_conf.cpp:154-504 (conf_parse_buf) *)
Definition conf_parse_buf (page_size : Z) (ctx : conf_context_t) (buf : list Z) (s : St) : option (Z * conf_context_t * St) :=
  match buf with
  | [] => Some (NGX_ERROR, ctx, s)
  | _ =>
      '(x, s) ← lex_start page_size s;
      match x with
      | None => Some (NGX_ERROR, ctx, s)
      | Some x =>
          r ← lex None buf x;
          match r with
          | Return_ x => Some (NGX_ERROR, at_line (Some (line x)) ctx, store x)
          | Error_ x => destroy_with NGX_ERROR (tmp_pool x) (at_line (Some (line x)) ctx) (store x)
          | Go x => conf_parse_statements ctx x
          end
      end
  end.

(** A slot is the name (its length and its pointer), the class's name, the object, the options
    and [make_default]: fifty-six bytes, of which the first sixteen are the name. *)
(* src/src/core/dfs_conf_base.h:50-57 (conf_variable_s) *)
Definition slot_part (i from n : nat) (mem : list Z) : list Z := take n (drop (Z.to_nat sizeof_conf_variable * i + from) mem).

(** What lies behind the name is still there in the first [n] slots. *)
Definition parts_kept (n : nat) (mem mem' : list Z) : bool :=
  forallb (fun i => bool_decide (slot_part i 16 40 mem' = slot_part i 16 40 mem)) (seq 0 n).

(** [mem] is what the array of the variables holds. A call that changes the class's name, the
    object, the options or [make_default] of a variable leaves the model ([None]): they would be
    wild pointers. *)
(* src/src/core/dfs_conf.cpp:539-548 (conf_make_objects_default) *)
Fixpoint make_defaults (n : nat) (fns : list (option default_fn)) (i : nat) (mem : list Z) : option (Z * list Z) :=
  match fns with
  | [] => Some (NGX_OK, mem)
  | None :: fns => make_defaults n fns (S i) mem
  | Some f :: fns =>
      '(rc, mem') ← f mem (Z.to_nat sizeof_conf_variable * i)%nat;
      if negb (parts_kept n mem mem') then None
      else if rc =? NGX_OK then make_defaults n fns (S i) mem' else Some (NGX_ERROR, mem')
  end.

Definition rename (mem mem' : list Z) (i : nat) (v : conf_variable_t) : conf_variable_t :=
  let sl := v_slot v in
  {| v_slot := {| name := if bool_decide (slot_part i 0 16 mem' = slot_part i 0 16 mem) then name sl else None; obj_name := obj_name sl; conf := conf sl |};
     v_option := v_option v; v_make_default := v_make_default v |}.

(* src/src/core/dfs_conf.cpp:530-551 (conf_make_objects_default) *)
Definition conf_make_objects_default (mem : list Z) (ctx : conf_context_t) : option (Z * conf_context_t * list Z) :=
  a ← arr (vars ctx);
  let vs := elems (vars ctx) in
  '(rc, mem') ← make_defaults (length vs) (v_make_default <$> vs) 0 mem;
  Some (rc, with_vars {| arr := Some a; elems := imap (rename mem mem') vs |} ctx, mem').

(** What the system says of the file: it cannot be opened, its size cannot be read, or it is
    mapped. A mapping that fails is not null, so the code does not see it. *)
Inductive file_io := OpenFails | FstatFails | Mapped (buf : list Z).

(** [image] says what the array holds once the variables are there: the model does not know the
    addresses of names and objects, nor what lies in slots that are not in use. *)
(* src/src/core/dfs_conf.cpp:58-135 (conf_context_parse) *)
Definition conf_context_parse (image : items conf_variable_t -> list Z) (page_size : Z) (file : file_io) (ctx : conf_context_t) (s : St) : option (Z * conf_context_t * St) :=
  match file with
  | OpenFails | FstatFails => Some (NGX_ERROR, ctx, s)
  | Mapped buf =>
      '(a, s) ← st_array_create (pool ctx) CONF_MAX_CLASS_N sizeof_conf_variable s;
      match a with
      | None => Some (NGX_ERROR, with_vars {| arr := None; elems := [] |} ctx, s)
      | Some a =>
          '(rc, ctx, s) ← conf_parse_buf page_size (with_vars {| arr := Some a; elems := [] |} ctx) buf s;
          if negb (rc =? NGX_OK) then Some (NGX_ERROR, ctx, s)
          else
            '(rc, ctx, _) ← conf_make_objects_default (image (vars ctx)) ctx;
            Some (if rc =? NGX_OK then NGX_OK else NGX_ERROR, ctx, s)
      end
  end.

(* src/src/core/dfs_conf.cpp:34-46 (conf_context_create) *)
Definition conf_context_create (p : ptr) (s : St) : option (option conf_context_t * St) :=
  '(c, s) ← st_pool_alloc p sizeof_conf_context s;
  Some (if bool_decide (c = nullptr) then None
        else Some {| pool := p; vars := {| arr := None; elems := [] |}; conf_line := Some 0; conf_objects := []; file_name := string_null |}, s).

(* src/src/core/dfs_conf.cpp:49-56 (conf_context_init) *)
Definition conf_context_init (ctx : conf_context_t) (file : string_t) (objects : list conf_object_t) (s : St) : option (Z * conf_context_t * St) :=
  '(f, s) ← conf_string_pdup (pool ctx) file s;
  Some (match f with Some _ => NGX_OK | None => NGX_ERROR end,
    {| pool := pool ctx; vars := vars ctx; conf_line := conf_line ctx; conf_objects := objects; file_name := default string_null f |}, s).

(** The first object of the class, whose name must be spelt as in the table. *)
(* src/src/core/dfs_conf.cpp:846-857 (conf_get_parsed_obj) *)
Fixpoint find_parsed (vs : list conf_variable_t) (w : string_t) : option (option block) :=
  match vs with
  | [] => Some None
  | v :: vs =>
      if negb (len (obj_name (v_slot v)) =? len w) then find_parsed vs w
      else r ← strncmp (chars (obj_name (v_slot v))) (chars w) (slen w); if r =? 0 then Some (Some (conf (v_slot v))) else find_parsed vs w
  end.

(* src/src/core/dfs_conf.cpp:838-858 (conf_get_parsed_obj) *)
Definition conf_get_parsed_obj (ctx : conf_context_t) (w : string_t) : option (option block) := find_parsed (elems (vars ctx)) w.

End Parser.

(** ** Text *)

(** A statement as text: gaps, then words with spaces between them, then the semicolon. *)
Inductive gap := Newline | Carriage | Blank | Comment (c : list Z).

Definition show_gap (g : gap) : list Z :=
  match g with
  | Newline => [chr_newline]
  | Carriage => [chr_return]
  | Blank => [chr_space]
  | Comment c => chr_hash :: c ++ [chr_newline]
  end.

Definition show_gaps (gs : list gap) : list Z := gs ≫= show_gap.

Definition gap_ok (g : gap) : Prop := match g with Comment c => chr_newline ∉ c | _ => True end.

Definition newlines (gs : list gap) : Z :=
  foldr (fun g n => match g with Newline | Comment _ => n + 1 | _ => n end) 0 gs.

(** A word, how many extra spaces are before it, and whether it is in quotes. *)
Record shown := { w_bytes : list Z; w_quoted : bool; w_spaces : nat }.

Definition show_word (w : shown) : list Z := if w_quoted w then chr_quote :: w_bytes w ++ [chr_quote] else w_bytes w.

Definition plain_char (c : Z) : bool :=
  negb ((c =? chr_newline) || (c =? chr_return) || (c =? chr_space) || (c =? chr_quote) || (c =? chr_hash) || (c =? chr_semicolon) || (c =? chr_backslash)).
Definition quoted_char (c : Z) : bool := negb ((c =? chr_newline) || (c =? chr_return) || (c =? chr_quote) || (c =? chr_backslash)).

Definition shown_ok (w : shown) : Prop :=
  w_bytes w <> [] /\ Z.of_nat (length (w_bytes w)) <= CONF_MAX_OPTION_S + 1 /\ Forall (fun c => (if w_quoted w then quoted_char c else plain_char c) = true) (w_bytes w).

(** The words behind the first. *)
Definition show_more (ws : list shown) : list Z := ws ≫= fun w => chr_space :: repeat chr_space (w_spaces w) ++ show_word w.

Record statement := { st_gaps : list gap; st_first : shown; st_more : list shown }.

Definition st_words (t : statement) : list shown := st_first t :: st_more t.

Definition show_statement (t : statement) : list Z := show_gaps (st_gaps t) ++ show_word (st_first t) ++ show_more (st_more t) ++ [chr_semicolon].

Definition statement_ok (t : statement) : Prop :=
  Forall gap_ok (st_gaps t) /\ Forall shown_ok (st_words t) /\ (1 <= length (st_more t))%nat /\ Z.of_nat (length (st_more t)) < 2 ^ 32 - 1.

(** The end of a file: nothing, or the newline right behind the last semicolon, or a comment. *)
Inductive ending := NoNewline | OneNewline | LastComment (c : list Z).

Definition show_ending (e : ending) : list Z :=
  match e with NoNewline => [] | OneNewline => [chr_newline] | LastComment c => chr_hash :: c ++ [chr_newline] end.
Definition ending_ok (e : ending) : Prop := match e with LastComment c => chr_newline ∉ c | _ => True end.

Definition show_text (ts : list statement) (e : ending) : list Z := (ts ≫= show_statement) ++ show_ending e.

(** The statements that are there to be found: their words and their lines. *)
Fixpoint placed (ln : Z) (ts : list statement) : list (list (list Z) * Z) :=
  match ts with
  | [] => []
  | t :: ts => let ln := ln + newlines (st_gaps t) in (w_bytes <$> st_words t, ln) :: placed ln ts
  end.

(** A word as it is stored. *)
Definition text_word (w : list Z) : string_t := {| len := Z.of_nat (length w); data := Some (w ++ [0]) |}.

Definition stored (t : list (list Z) * Z) : list string_t * Z := (text_word <$> t.1, t.2).

(** What was found. *)
Definition view (t : conf_args_t) : list string_t * Z := (elems (a_words t), a_line t).

(** ** What a list of statements does *)

(** The reader a text is compared with. It is given words and lines, not characters: it stores
    every word among the arguments, files the arguments where [end_statement] puts a statement,
    and stops where the storage refuses. *)
Section Reader.

Context {St : Type} `{Storage St}.

Definition on (r : option flow) (k : lexer (St := St) -> option flow) : option flow := r ← r; match r with Go x => k x | r => Some r end.

Fixpoint save_words (ws : list (list Z)) (x : lexer (St := St)) : option flow :=
  match ws with
  | [] => Some (Go x)
  | [w] => on (save_word true (with_option (Some w) x)) (fun x => end_statement (with_option (Some []) x))
  | w :: ws => on (save_word false (with_option (Some w) x)) (fun x => save_words ws (with_option (Some []) x))
  end.

Fixpoint save_statements (ts : list (list (list Z) * Z)) (x : lexer (St := St)) : option flow :=
  match ts with
  | [] => Some (Go x)
  | (ws, ln) :: ts => on (save_words ws (with_line ln x)) (save_statements ts)
  end.

(** How [conf_parse_buf] ends. *)
Definition conclude (ctx : conf_context_t) (r : option flow) : option (Z * conf_context_t * St) :=
  r ← r;
  match r with
  | Return_ x => Some (NGX_ERROR, at_line (Some (line x)) ctx, store x)
  | Error_ x => destroy_with NGX_ERROR (tmp_pool x) (at_line (Some (line x)) ctx) (store x)
  | Go x => conf_parse_statements ctx x
  end.

Definition read_statements (page_size : Z) (ctx : conf_context_t) (ts : list (list (list Z) * Z)) (s : St) : option (Z * conf_context_t * St) :=
  '(x, s) ← lex_start page_size s;
  match x with
  | None => Some (NGX_ERROR, ctx, s)
  | Some x => _ ← option_ x; conclude ctx (save_statements ts x)
  end.

End Reader.

Section Lexing.

Context {St : Type} `{Sto : Storage St}.

Abbreviation state := (Build_lexer (St := St)).

(** What is left of the lexer when an error has been met. *)
Definition settle (x : lexer (St := St)) : lexer := with_quotes false false (with_option None x).
Definition core (r : flow (St := St)) : flow := match r with Go x => Go x | Return_ x => Return_ (settle x) | Error_ x => Error_ (settle x) end.

Lemma on_go (x : lexer (St := St)) k : on (Some (Go x)) k = k x.
Proof using. done. Qed.

Lemma with_option_state o' ln q1 q2 o a t p pool s : with_option o' (state false ln q1 q2 o a t p pool s) = state false ln q1 q2 o' a t p pool s.
Proof using. done. Qed.

Lemma core_on r k k' : (forall x, r = Some (Go x) -> core <$> k x = core <$> k' x) -> core <$> on r k = core <$> on r k'.
Proof using. intros Hk. destruct r as [[x | x | x]|]; cbn [on mbind option_bind]; try done. by apply Hk. Qed.

Lemma core_on_same r r' k : core <$> r = core <$> r' -> core <$> on r k = core <$> on r' k.
Proof using.
  destruct r as [[x | x | x]|], r' as [[y | y | y]|]; cbn; try done; intros E; apply (inj Some) in E; try discriminate E; [by injection E as -> | by f_equal..].
Qed.

Lemma core_conclude ctx r r' : core <$> r = core <$> r' -> conclude ctx r = conclude ctx r'.
Proof using.
  destruct r as [[x | x | x]|], r' as [[y | y | y]|]; cbn; try done; intros E; apply (inj Some) in E; try discriminate E.
  - by injection E as ->.
  - injection E. unfold settle. destruct x, y; cbn. by intros; simplify_eq.
  - injection E. unfold settle. destruct x, y; cbn. by intros; simplify_eq.
Qed.

(** A byte that is nothing but itself. *)
Lemma lex_normal prev c l ln q1 q2 o a t p pool s :
  (if q1 && negb q2 then quoted_char c else plain_char c) = true -> Z.of_nat (length o) <= CONF_MAX_OPTION_S ->
  lex prev (c :: l) (state false ln q1 q2 (Some o) a t p pool s) = lex (Some c) l (state false ln q1 q2 (Some (o ++ [c])) a t p pool s).
Proof using.
  intros Hc Ho.
  assert (normal_char c (state false ln q1 q2 (Some o) a t p pool s) = Some (Go (state false ln q1 q2 (Some (o ++ [c])) a t p pool s))) as Hn.
  { unfold normal_char, put_char. cbn [option_ mbind option_bind]. rewrite (proj2 (Z.leb_le _ _) Ho). done. }
  cbn [lex comment andb]. unfold lex_space, lex_hash, lex_semicolon, in_quotes. cbn [first_quote last_quote].
  destruct (q1 && negb q2).
  - unfold quoted_char in Hc. apply negb_true_iff in Hc. rewrite !orb_false_iff in Hc. destruct Hc as [[[-> ->] ->] ->].
    destruct (Z.eqb_spec c chr_space) as [->|]; [by rewrite Hn |]. destruct (Z.eqb_spec c chr_hash) as [->|]; [by rewrite Hn |].
    destruct (Z.eqb_spec c chr_semicolon) as [->|]; by rewrite Hn.
  - unfold plain_char in Hc. apply negb_true_iff in Hc. rewrite !orb_false_iff in Hc. destruct Hc as [[[[[[-> ->] ->] ->] ->] ->] ->]. by rewrite Hn.
Qed.

Lemma lex_bytes l ln q1 q2 a t p pool s w : forall prev o,
  Forall (fun c => (if q1 && negb q2 then quoted_char c else plain_char c) = true) w -> Z.of_nat (length o + length w) <= CONF_MAX_OPTION_S + 1 ->
  exists prev', lex prev (w ++ l) (state false ln q1 q2 (Some o) a t p pool s) = lex prev' l (state false ln q1 q2 (Some (o ++ w)) a t p pool s).
Proof using.
  induction w as [|c w IH]; intros prev o Hw Ho; [exists prev; by rewrite app_nil_r |]. apply Forall_cons in Hw as [Hc Hw]. cbn [app length] in *.
  rewrite lex_normal by (done || lia). destruct (IH (Some c) (o ++ [c]) Hw) as [prev' Hp]; [rewrite length_app; cbn; lia |].
  exists prev'. rewrite Hp, <- app_assoc. done.
Qed.

(** A word, after which comes a space or a semicolon. *)
Lemma lex_word w c l ln a t p pool s prev :
  shown_ok w -> c = chr_space \/ c = chr_semicolon ->
  exists prev' q, lex prev (show_word w ++ c :: l) (state false ln false false (Some []) a t p pool s) =
    lex prev' (c :: l) (state false ln q q (Some (w_bytes w)) a t p pool s).
Proof using.
  intros (Hne & Hlen & Hw) Hc. unfold show_word. destruct (w_quoted w).
  - cbn [app]. rewrite <- app_assoc. cbn [app].
    assert (forall r, lex prev (chr_quote :: r) (state false ln false false (Some []) a t p pool s) = lex (Some chr_quote) r (state false ln true false (Some []) a t p pool s)) as -> by done.
    destruct (lex_bytes (chr_quote :: c :: l) ln true false a t p pool s (w_bytes w) (Some chr_quote) []) as [prev' ->]; [done | cbn [length]; lia |].
    exists (Some chr_quote), true. cbn [app]. destruct Hc as [-> | ->]; done.
  - destruct (lex_bytes (c :: l) ln false false a t p pool s (w_bytes w) prev []) as [prev' ->]; [done | cbn [length]; lia |]. by exists prev', false.
Qed.

(** Spaces with nothing to save. *)
Lemma lex_spaces l ln a t p pool s n : forall prev,
  exists prev', lex prev (repeat chr_space n ++ l) (state false ln false false (Some []) a t p pool s) = lex prev' l (state false ln false false (Some []) a t p pool s).
Proof using.
  induction n as [|n IH]; intros prev; [by exists prev |]. cbn [repeat app].
  assert (forall r, lex prev (chr_space :: r) (state false ln false false (Some []) a t p pool s) = lex (Some chr_space) r (state false ln false false (Some []) a t p pool s)) as -> by done.
  apply IH.
Qed.

Ltac lexer_cbn :=
  cbn [on mbind option_bind fmap option_fmap option_map core with_option with_types with_opts with_args with_quotes with_line with_comment comment line first_quote
    last_quote option_ args arr_type arr_opts tmp_pool store].

(** A word is saved whatever the quotes around it were. *)
Lemma save_word_state fault o pool a s :
  (exists a' s', forall ln q1 q2 t p, save_word fault (state false ln q1 q2 (Some o) a t p pool s) = Some (Go (state false ln q1 q2 (Some o) a' t p pool s'))) \/
  (exists a' s', forall ln q1 q2 t p, save_word fault (state false ln q1 q2 (Some o) a t p pool s) = Some (Return_ (state false ln q1 q2 (Some o) a' t p pool s'))) \/
  (forall ln q1 q2 t p, save_word fault (state false ln q1 q2 (Some o) a t p pool s) = None).
Proof using.
  unfold save_word. lexer_cbn. destruct (push a _ s) as [[[l|] s1]|]; lexer_cbn.
  - destruct (st_pool_alloc pool _ s1) as [[d s2]|]; lexer_cbn; [|do 2 right; done]. case_bool_decide; [right; left | left]; by exists l, s2.
  - destruct fault; [do 2 right; done | right; left; by exists a, s1].
  - do 2 right; done.
Qed.

Lemma lex_word_end ln q o a t p pool s prev l : o <> [] ->
  core <$> lex prev (chr_space :: l) (state false ln q q (Some o) a t p pool s) =
  core <$> on (save_word false (state false ln false false (Some o) a t p pool s)) (fun x => lex (Some chr_space) l (with_option (Some []) x)).
Proof using.
  intros Ho. cbn [lex comment andb Z.eqb chr_space chr_return Pos.eqb]. unfold lex_space, in_quotes. cbn [first_quote last_quote]. rewrite andb_negb_r.
  cbn [option_ mbind option_bind]. destruct o as [|c o]; [done |].
  destruct (save_word_state false (c :: o) pool a s) as [(a' & s' & E) | [(a' & s' & E) | E]]; [rewrite !E | rewrite !E | rewrite !E]; done.
Qed.

Lemma save_words_one o x0 ln q1 q2 a t p pool s :
  save_words [o] (state false ln q1 q2 x0 a t p pool s) =
  on (save_word true (state false ln q1 q2 (Some o) a t p pool s)) (fun x => end_statement (with_option (Some []) x)).
Proof using. done. Qed.

Lemma save_words_more o o' ws x0 ln q1 q2 a t p pool s :
  save_words (o :: o' :: ws) (state false ln q1 q2 x0 a t p pool s) =
  on (save_word false (state false ln q1 q2 (Some o) a t p pool s)) (fun x => save_words (o' :: ws) (with_option (Some []) x)).
Proof using. done. Qed.

(** The quotes are forgotten at the end of a statement. *)
Lemma end_statement_quotes q1 q2 x : core <$> end_statement (with_quotes q1 q2 x) = core <$> end_statement x.
Proof using.
  unfold end_statement. lexer_cbn. destruct (arr (args x)) as [b|]; lexer_cbn; [|done]. destruct (3 <=? nelts b); [|destruct (nelts b =? 2)]; lexer_cbn; [| |done].
  - destruct (push (arr_opts x) _ (store x)) as [[[l|] s]|]; lexer_cbn; [|done..]. by destruct (st_array_create _ _ _ _) as [[? ?]|].
  - destruct (push (arr_type x) _ (store x)) as [[[l|] s]|]; lexer_cbn; [|done..]. by destruct (st_array_create _ _ _ _) as [[? ?]|].
Qed.

Lemma lex_statement_end ln q o a t p pool s prev l : o <> [] ->
  core <$> lex prev (chr_semicolon :: l) (state false ln q q (Some o) a t p pool s) =
  core <$> on (save_words [o] (state false ln false false (Some []) a t p pool s)) (fun x => lex (Some chr_semicolon) l x).
Proof using.
  intros Ho. cbn [lex comment andb Z.eqb chr_semicolon chr_return chr_space chr_backslash chr_quote chr_hash chr_newline Pos.eqb]. unfold lex_semicolon, in_quotes.
  cbn [first_quote last_quote]. rewrite andb_negb_r. cbn [option_ mbind option_bind]. rewrite save_words_one.
  destruct o as [|c o]; [done |].
  destruct (save_word_state true (c :: o) pool a s) as [(a' & s' & E) | [(a' & s' & E) | E]]; [rewrite !E | by rewrite !E | by rewrite !E].
  lexer_cbn. exact (core_on_same _ _ _ (end_statement_quotes q q (state false ln false false (Some []) a' t p pool s'))).
Qed.

(** The words behind the first are saved one by one, the last one at the semicolon. *)
Lemma lex_more l ln t p pool ws : forall prev q o a s, Forall shown_ok ws -> o <> [] ->
  core <$> lex prev (show_more ws ++ chr_semicolon :: l) (state false ln q q (Some o) a t p pool s) =
  core <$> on (save_words (o :: (w_bytes <$> ws)) (state false ln false false (Some []) a t p pool s)) (fun x => lex (Some chr_semicolon) l x).
Proof using.
  induction ws as [|w ws IH]; intros prev q o a s Hws Ho; [by apply lex_statement_end |].
  apply Forall_cons in Hws as [Hw Hws]. unfold show_more. cbn [mbind list_bind app]. fold (show_more ws). rewrite <- !app_assoc. rewrite fmap_cons, save_words_more.
  rewrite lex_word_end by done.
  destruct (save_word_state false o pool a s) as [(a' & s' & E) | [(a' & s' & E) | E]]; rewrite !E; [|done..]. rewrite !on_go, !with_option_state.
  destruct (lex_spaces (show_word w ++ show_more ws ++ chr_semicolon :: l) ln a' t p pool s' (w_spaces w) (Some chr_space)) as [prev1 ->].
  assert (exists c r, show_more ws ++ chr_semicolon :: l = c :: r /\ (c = chr_space \/ c = chr_semicolon)) as (c & r & Er & Hc).
  { destruct ws as [|w' ws']; [exists chr_semicolon, l; split; [done | by right] |]. unfold show_more. cbn [mbind list_bind app]. eexists _, _. split; [reflexivity | by left]. }
  rewrite Er. destruct (lex_word w c r ln a' t p pool s' prev1 Hw Hc) as (prev2 & q2 & ->). rewrite <- Er.
  apply IH; [done |]. by destruct Hw as (? & _).
Qed.

(** Between statements nothing is saved: comments and blank lines only count lines. *)
Lemma lex_comment c r ln a t p pool s : forall y, (chr_newline ∉ c) ->
  lex (Some y) (c ++ chr_newline :: r) (state true ln false false (Some []) a t p pool s) =
  lex (Some chr_newline) r (state false (ln + 1) false false (Some []) a t p pool s).
Proof using.
  induction c as [|b c IH]; intros y Hc.
  - cbn [app lex comment andb Z.eqb chr_newline chr_return chr_space chr_backslash chr_quote chr_hash Pos.eqb negb]. unfold lex_newline, in_quotes.
    cbn [first_quote last_quote andb negb]. lexer_cbn. destruct r; lexer_cbn; [|done]. rewrite andb_false_r. done.
  - apply not_elem_of_cons in Hc as [Hb Hc]. cbn [app lex comment andb]. destruct (Z.eqb_spec b chr_newline); [congruence |]. cbn [negb]. by apply IH.
Qed.

Lemma lex_gap g r ln a t p pool s prev : gap_ok g -> r <> [] ->
  exists prev', lex prev (show_gap g ++ r) (state false ln false false (Some []) a t p pool s) =
    lex prev' r (state false (ln + newlines [g]) false false (Some []) a t p pool s).
Proof using.
  intros Hg Hr. destruct g as [| | |c]; cbn [show_gap app newlines foldr] in *; rewrite ?Z.add_0_r.
  - exists (Some chr_newline). destruct r as [|b r]; [done |]. by rewrite Z.add_0_l.
  - by exists (Some chr_return).
  - by exists (Some chr_space).
  - exists (Some chr_newline). rewrite <- app_assoc. cbn [app]. rewrite Z.add_0_l.
    assert (forall l, lex prev (chr_hash :: l) (state false ln false false (Some []) a t p pool s) = lex (Some chr_hash) l (state true ln false false (Some []) a t p pool s)) as -> by done.
    by apply lex_comment.
Qed.

Lemma newlines_cons g gs : newlines (g :: gs) = newlines [g] + newlines gs.
Proof using. unfold newlines. cbn [foldr]. destruct g; lia. Qed.

Lemma lex_gaps r a t p pool s gs : forall prev ln, Forall gap_ok gs -> r <> [] ->
  exists prev', lex prev (show_gaps gs ++ r) (state false ln false false (Some []) a t p pool s) =
    lex prev' r (state false (ln + newlines gs) false false (Some []) a t p pool s).
Proof using.
  induction gs as [|g gs IH]; intros prev ln Hg Hr; [exists prev; cbn [show_gaps mbind list_bind newlines foldr app]; by rewrite Z.add_0_r |].
  apply Forall_cons in Hg as [Hg Hgs]. unfold show_gaps. cbn [mbind list_bind]. fold (show_gaps gs). rewrite <- app_assoc.
  destruct (lex_gap g (show_gaps gs ++ r) ln a t p pool s prev Hg) as [prev1 ->]; [by intros [_ ?]%app_eq_nil |].
  destruct (IH prev1 (ln + newlines [g]) Hgs Hr) as [prev2 ->]. exists prev2. rewrite (newlines_cons g gs), Z.add_assoc. done.
Qed.

(** A lexer between statements. *)
Definition ready (x : lexer (St := St)) : Prop := comment x = false /\ first_quote x = false /\ last_quote x = false /\ option_ x = Some [].

Lemma end_statement_ready x y : comment x = false -> option_ x = Some [] -> end_statement x = Some (Go y) -> ready y /\ line y = line x.
Proof using.
  intros Hc Ho. unfold end_statement. destruct (arr (args x)) as [b|]; lexer_cbn; [|done]. destruct (3 <=? nelts b); [|destruct (nelts b =? 2)]; lexer_cbn; [| |done].
  - destruct (push (arr_opts x) _ (store x)) as [[[l|] s]|]; lexer_cbn; [|done..]. destruct (st_array_create _ _ _ _) as [[? ?]|]; lexer_cbn; [|done]. by intros [= <-].
  - destruct (push (arr_type x) _ (store x)) as [[[l|] s]|]; lexer_cbn; [|done..]. destruct (st_array_create _ _ _ _) as [[? ?]|]; lexer_cbn; [|done]. by intros [= <-].
Qed.

Lemma save_words_ready ws : forall x y, ready x -> save_words ws x = Some (Go y) -> ready y /\ line y = line x.
Proof using.
  induction ws as [|w ws IH]; intros [cm ln q1 q2 o a t p pool s] y (Hc & H1 & H2 & Ho); cbn in Hc, H1, H2, Ho; subst; [by intros [= <-] |].
  destruct ws as [|w' ws]; rewrite ?save_words_one, ?save_words_more.
  - destruct (save_word_state true w pool a s) as [(a' & s' & E) | [(a' & s' & E) | E]]; rewrite E; [|done..]. lexer_cbn. intros Hy. by apply end_statement_ready in Hy.
  - destruct (save_word_state false w pool a s) as [(a' & s' & E) | [(a' & s' & E) | E]]; rewrite E; [|done..]. lexer_cbn. intros Hy. by apply IH in Hy.
Qed.

(** One statement, and all of them. *)
Lemma lex_one_statement st l ln a t p pool s prev : statement_ok st ->
  core <$> lex prev (show_statement st ++ l) (state false ln false false (Some []) a t p pool s) =
  core <$> on (save_words (w_bytes <$> st_words st) (state false (ln + newlines (st_gaps st)) false false (Some []) a t p pool s)) (fun x => lex (Some chr_semicolon) l x).
Proof using.
  intros (Hgaps & Hws & H1 & Hn). apply Forall_cons in Hws as [Hw Hws]. unfold show_statement. rewrite <- !app_assoc. cbn [app]. set (k := ln + newlines (st_gaps st)).
  destruct (lex_gaps (show_word (st_first st) ++ show_more (st_more st) ++ chr_semicolon :: l) a t p pool s (st_gaps st) prev ln Hgaps) as [prev1 ->].
  { intros [_ [_ ?]%app_eq_nil]%app_eq_nil. done. }
  fold k.
  assert (exists c r, show_more (st_more st) ++ chr_semicolon :: l = c :: r /\ (c = chr_space \/ c = chr_semicolon)) as (c & r & Er & Hc).
  { destruct (st_more st) as [|w ws]; [cbn in H1; lia |]. unfold show_more. cbn [mbind list_bind app]. eexists _, _. split; [reflexivity | by left]. }
  rewrite Er. destruct (lex_word (st_first st) c r k a t p pool s prev1 Hw Hc) as (prev2 & q & ->). rewrite <- Er.
  unfold st_words. rewrite fmap_cons. apply lex_more; [done |]. by destruct Hw as (? & _).
Qed.

Lemma lex_statements l ts : forall prev x, Forall statement_ok ts -> ready x ->
  core <$> lex prev ((ts ≫= show_statement) ++ l) x =
  core <$> on (save_statements (placed (line x) ts) x) (fun y => lex (match ts with [] => prev | _ => Some chr_semicolon end) l y).
Proof using.
  induction ts as [|st ts IH]; intros prev x Hts Hx; [done |]. apply Forall_cons in Hts as [Hst Hts]. cbn [mbind list_bind placed save_statements]. rewrite <- app_assoc.
  destruct x as [cm ln q1 q2 o a t p pool s], Hx as (Hc & H1 & H2 & Ho). cbn in Hc, H1, H2, Ho. subst. rewrite lex_one_statement by done. cbn [line with_line].
  set (x1 := state false (ln + newlines (st_gaps st)) false false (Some []) a t p pool s).
  change (with_line (ln + newlines (st_gaps st)) (state false ln false false (Some []) a t p pool s)) with x1.
  assert (forall y, save_words (w_bytes <$> st_words st) x1 = Some (Go y) -> ready y /\ line y = line x1) as Hy by (intros y; by apply save_words_ready).
  destruct (save_words (w_bytes <$> st_words st) x1) as [[y | y | y]|]; try done. destruct (Hy y eq_refl) as [Hr Hl]. rewrite !on_go. change (list_bind _ _ show_statement ts) with (ts ≫= show_statement). rewrite IH by done.
  rewrite Hl. unfold x1. cbn [line]. by destruct ts.
Qed.

Lemma save_statements_ready ts : forall x y, ready x -> save_statements ts x = Some (Go y) -> ready y.
Proof using.
  induction ts as [|[ws ln] ts IH]; intros x y Hx; [by intros [= <-] |]. cbn [save_statements].
  destruct (save_words ws (with_line ln x)) as [[z | z | z]|] eqn:E; try done. cbn [on mbind option_bind]. apply IH. by apply save_words_ready in E as [? _].
Qed.

(** The ending only counts a line. *)
Lemma lex_ending e x : ending_ok e -> ready x -> exists n, lex (Some chr_semicolon) (show_ending e) x = Some (Go (with_line n x)).
Proof using.
  intros He. destruct x as [cm ln q1 q2 o a t p pool s]. intros (Hc & H1 & H2 & Ho). cbn in Hc, H1, H2, Ho. subst.
  destruct e as [| |c]; cbn [show_ending ending_ok] in *.
  - by exists ln.
  - by exists (ln + 1).
  - exists (ln + 1).
    assert (forall l, lex (Some chr_semicolon) (chr_hash :: l) (state false ln false false (Some []) a t p pool s) =
      lex (Some chr_hash) l (state true ln false false (Some []) a t p pool s)) as -> by done.
    by rewrite lex_comment.
Qed.

(** Without an option buffer the first word is the end. *)
Lemma lex_gaps_unbuffered r a t p pool s gs : (forall prev ln, lex prev r (state false ln false false None a t p pool s) = None) -> r <> [] ->
  forall prev ln, lex prev (show_gaps gs ++ r) (state false ln false false None a t p pool s) = None.
Proof using.
  intros Hr Hne. induction gs as [|g gs IH]; intros prev ln; [apply Hr |]. unfold show_gaps. cbn [mbind list_bind]. fold (show_gaps gs). rewrite <- app_assoc.
  destruct g as [| | |c]; cbn [show_gap app]; [| |done|done].
  - assert (show_gaps gs ++ r <> []) as Hn by (by intros [_ ?]%app_eq_nil). revert IH Hn. generalize (show_gaps gs ++ r). intros [|b l] IH Hn; [done |].
    assert (lex prev (chr_newline :: b :: l) (state false ln false false None a t p pool s) = lex (Some chr_newline) (b :: l) (state false (ln + 1) false false None a t p pool s)) as -> by done. apply IH.
  - assert (forall l, lex prev (chr_return :: l) (state false ln false false None a t p pool s) = lex (Some chr_return) l (state false ln false false None a t p pool s)) as -> by done. apply IH.
Qed.

Lemma plain_unbuffered c l prev ln q1 q2 a t p pool s : (if q1 && negb q2 then quoted_char c else plain_char c) = true ->
  lex prev (c :: l) (state false ln q1 q2 None a t p pool s) = None.
Proof using.
  intros Hc. cbn [lex comment andb]. unfold lex_space, lex_hash, lex_semicolon, in_quotes, normal_char, put_char. cbn [first_quote last_quote option_ mbind option_bind].
  destruct (q1 && negb q2).
  - unfold quoted_char in Hc. apply negb_true_iff in Hc. rewrite !orb_false_iff in Hc. destruct Hc as [[[-> ->] ->] ->]. repeat case_match; done.
  - unfold plain_char in Hc. apply negb_true_iff in Hc. rewrite !orb_false_iff in Hc. destruct Hc as [[[[[[-> ->] ->] ->] ->] ->] ->]. done.
Qed.

Lemma text_unbuffered ts e a t p pool s ln : Forall statement_ok ts -> ts <> [] ->
  lex None (show_text ts e) (state false ln false false None a t p pool s) = None.
Proof using.
  intros Hts Hne. destruct ts as [|st ts]; [done |]. apply Forall_cons in Hts as [(Hgaps & [Hw _]%Forall_cons & _) _]. unfold show_text. cbn [mbind list_bind]. unfold show_statement.
  rewrite <- !app_assoc. apply lex_gaps_unbuffered; [|by intros [_ [_ ?]%app_eq_nil]%app_eq_nil]. intros prev ln'.
  destruct Hw as (Hb & _ & Hch). unfold show_word. destruct (w_bytes (st_first st)) as [|c w]; [done |]. destruct (w_quoted (st_first st)); apply Forall_cons in Hch as [Hch _]; cbn [app].
  - match goal with |- lex _ (chr_quote :: ?l) _ = _ => assert (lex prev (chr_quote :: l) (state false ln' false false None a t p pool s) = lex (Some chr_quote) l (state false ln' true false None a t p pool s)) as -> by done end.
    by apply plain_unbuffered.
  - by apply plain_unbuffered.
Qed.

Lemma text_not_empty ts e : ts <> [] -> show_text ts e <> [].
Proof using.
  intros Hne Etext. destruct ts as [|st ts]; [done |]. unfold show_text in Etext. cbn in Etext. unfold show_statement in Etext.
  apply (f_equal length) in Etext. rewrite !length_app in Etext. cbn in Etext. lia.
Qed.


Lemma lex_start_ready page_size s x s' : lex_start page_size s = Some (Some x, s') ->
  comment x = false /\ line x = 1 /\ first_quote x = false /\ last_quote x = false /\ (option_ x = None \/ option_ x = Some []) /\ store x = s'.
Proof using.
  unfold lex_start. destruct (st_pool_create _ _ s) as [pool s1]. case_bool_decide; [done |].
  destruct (st_array_create pool _ _ s1) as [[t s2]|]; lexer_cbn; [|done]. destruct (st_array_create pool _ _ s2) as [[p s3]|]; lexer_cbn; [|done].
  destruct (st_array_create pool _ _ s3) as [[a s4]|]; lexer_cbn; [|done]. destruct (st_pool_alloc pool _ s4) as [[o s5]|]; lexer_cbn; [|done].
  intros [= <- <-]. cbn. repeat split. case_bool_decide; auto.
Qed.

(** The character loop and the reader do the same. *)
Lemma parse_buf_reads ts e page_size ctx s : Forall statement_ok ts -> ts <> [] -> ending_ok e ->
  conf_parse_buf page_size ctx (show_text ts e) s = read_statements page_size ctx (placed 1 ts) s.
Proof using.
  intros Hts Hne He. unfold conf_parse_buf, read_statements. pose proof (text_not_empty ts e Hne) as Htext. destruct (show_text ts e) as [|c l] eqn:El; [done |]. rewrite <- El. clear Htext c l El.
  destruct (lex_start page_size s) as [[[x|] s0]|] eqn:Ex; lexer_cbn; [|done..]. apply lex_start_ready in Ex as (Hc & Hl & H1 & H2 & Ho & _).
  change (conclude ctx (lex None (show_text ts e) x) = (_ ← option_ x; conclude ctx (save_statements (placed 1 ts) x))).
  destruct Ho as [Ho | Ho].
  - destruct x as [cm ln q1 q2 o a t p pool s1]. cbn in Hc, Hl, H1, H2, Ho. subst. by rewrite text_unbuffered.
  - rewrite Ho. cbn [mbind option_bind]. assert (ready x) as Hr by done. rewrite <- Hl. unfold show_text.
    rewrite (core_conclude ctx _ _ (lex_statements (show_ending e) ts None x Hts Hr)).
    destruct (save_statements (placed (line x) ts) x) as [[y | y | y]|] eqn:Ey; try done. apply save_statements_ready in Ey as Hy; [|done]. lexer_cbn.
    destruct ts as [|st ts]; [done |]. destruct (lex_ending e y He Hy) as [n ->]. destruct Hy as (_ & Hy1 & Hy2 & _). cbn [conclude mbind option_bind].
    unfold conf_parse_statements, in_quotes. cbn [first_quote last_quote with_line]. by rewrite Hy1.
Qed.

End Lexing.

(** ** What the reader finds *)

(** The counter of an array is the number of its elements. *)
Definition counted {A} (l : items A) : Prop := match arr l with Some a => nelts a = Z.of_nat (length (elems l)) | None => True end.

(** Statements of two words are objects, the longer ones options. *)
Definition is_type (t : list string_t * Z) : Prop := length t.1 = 2%nat.

#[global] Instance is_type_dec t : Decision (is_type t).
Proof. unfold is_type. apply _. Defined.

Section Found.

Context {St : Type} `{Cnt : Counting St}.

Lemma push_found {A} (l l' : items A) (x : A) s s' : push l x s = Some (Some l', s') -> counted l -> Z.of_nat (length (elems l)) < 2 ^ 32 - 1 ->
  elems l' = elems l ++ [x] /\ counted l' /\ exists b, arr l' = Some b.
Proof using Cnt.
  unfold push, counted. destruct (st_array_push (arr l) s) as [[[p b] s1]|] eqn:E; cbn [mbind option_bind]; [|done]. case_bool_decide as Hp; [done |]. intros [= <- <-] Hl Hn.
  destruct (arr l) as [a|]; [|by apply push_to_none in E]. apply push_counts in E as (b' & -> & Hb); [|done]. cbn [arr elems]. split; [done |]. split; [|by exists b'].
  rewrite Hb, Hl, length_app, u32_small by (unfold is_u32; lia). cbn. lia.
Qed.

Lemma save_word_found fault x y w : save_word (St := St) fault (with_option (Some w) x) = Some (Go y) -> counted (args x) -> Z.of_nat (length (elems (args x))) < 2 ^ 32 - 1 ->
  (elems (args y) = elems (args x) ++ [text_word w] /\ counted (args y) /\ exists b, arr (args y) = Some b) /\ arr_type y = arr_type x /\ arr_opts y = arr_opts x /\ line y = line x.
Proof using Cnt.
  unfold save_word. cbn [option_ with_option mbind option_bind args store tmp_pool]. fold (text_word w). intros E Hc Hl.
  destruct (push (args x) (text_word w) (store x)) as [[[l|] s]|] eqn:Ep; cbn [mbind option_bind] in E; [|by destruct fault|done].
  destruct (st_pool_alloc _ _ s) as [[d s1]|]; cbn [mbind option_bind] in E; [|done]. case_bool_decide; [done |]. injection E as <-. cbn.
  split; [by eapply push_found | done].
Qed.

(** What a statement of the words [ws] adds. *)
Definition files (x y : lexer (St := St)) (ws : list string_t) (ln : Z) : Prop :=
  elems (args y) = [] /\ counted (args y) /\ counted (arr_type y) /\ counted (arr_opts y) /\
  view <$> elems (arr_type y) = (view <$> elems (arr_type x)) ++ filter is_type [(ws, ln)] /\
  view <$> elems (arr_opts y) = (view <$> elems (arr_opts x)) ++ filter (fun t => ~ is_type t) [(ws, ln)].

Lemma end_statement_found x y b : end_statement (St := St) x = Some (Go y) -> arr (args x) = Some b -> counted (args x) -> counted (arr_type x) -> counted (arr_opts x) ->
  Z.of_nat (length (elems (arr_type x)) + length (elems (arr_opts x))) < 2 ^ 32 - 1 -> files x y (elems (args x)) (line x).
Proof using Cnt.
  unfold end_statement, files. intros E Hb Ha Ht Ho Hn. unfold counted in Ha. rewrite Hb in E, Ha. cbn [mbind option_bind] in E. set (st := {| a_words := args x; a_line := line x |}) in E.
  assert (view st = (elems (args x), line x)) as Ev by done.
  assert (forall a s s', st_array_create (tmp_pool x) CONF_MAX_OPTION_N sizeof_string s = Some (a, s') -> counted (A := string_t) {| arr := a; elems := [] |}) as Hnew.
  { intros [a|] s s' Ec; [|done]. unfold counted. cbn. by apply create_counts in Ec. }
  destruct (Z.leb_spec 3 (nelts b)) as [H3 | H3]; [|destruct (Z.eqb_spec (nelts b) 2) as [H2 | H2]; [|done]].
  - rewrite filter_cons_False, filter_cons_True by (unfold is_type; cbn; lia). cbn [filter list_filter]. rewrite !app_nil_r.
    destruct (push (arr_opts x) st (store x)) as [[[l|] s]|] eqn:Ep; cbn [mbind option_bind] in E; [|done..]. destruct (st_array_create _ _ _ _) as [[a s1]|] eqn:Ec; cbn [mbind option_bind] in E; [|done].
    injection E as <-. cbn. apply push_found in Ep as (El & Hl & _); [|done | lia]. split; [done |]. split; [by eapply Hnew |]. split; [done |]. split; [done |]. split; [done |].
    by rewrite El, fmap_app.
  - rewrite filter_cons_True, filter_cons_False by (unfold is_type; cbn; lia). cbn [filter list_filter]. rewrite !app_nil_r.
    destruct (push (arr_type x) st (store x)) as [[[l|] s]|] eqn:Ep; cbn [mbind option_bind] in E; [|done..]. destruct (st_array_create _ _ _ _) as [[a s1]|] eqn:Ec; cbn [mbind option_bind] in E; [|done].
    injection E as <-. cbn. apply push_found in Ep as (El & Hl & _); [|done | lia]. split; [done |]. split; [by eapply Hnew |]. split; [done |]. split; [done |]. split; [|done].
    by rewrite El, fmap_app.
Qed.

Lemma save_words_found ws : forall x y, ws <> [] -> save_words (St := St) ws x = Some (Go y) -> counted (args x) -> counted (arr_type x) -> counted (arr_opts x) ->
  Z.of_nat (length (elems (args x)) + length ws) <= 2 ^ 32 - 1 -> Z.of_nat (length (elems (arr_type x)) + length (elems (arr_opts x))) < 2 ^ 32 - 1 ->
  files x y (elems (args x) ++ (text_word <$> ws)) (line x).
Proof using Cnt.
  induction ws as [|w ws IH]; intros x y Hne E Ha Ht Ho Hn Hm; [done |]. destruct ws as [|w' ws]; cbn [save_words] in E; cbn [length] in Hn.
  - destruct (save_word true (with_option (Some w) x)) as [[z | z | z]|] eqn:Ez; cbn [on mbind option_bind] in E; [|done..].
    apply save_word_found in Ez as ((Ew & Hz & b & Hb) & Et & Eo & El); [|done | lia].
    apply (end_statement_found _ _ b) in E; try (cbn; congruence).
    unfold files in *. cbn in E |- *. by rewrite Et, Eo, El, Ew in E.
  - destruct (save_word false (with_option (Some w) x)) as [[z | z | z]|] eqn:Ez; cbn [on mbind option_bind] in E; [|done..].
    apply save_word_found in Ez as ((Ew & Hz & b & Hb) & Et & Eo & El); [|done | lia].
    apply IH in E; try (cbn [with_option args arr_type arr_opts]; congruence).
    + unfold files in *. cbn [with_option args arr_type arr_opts line] in E. rewrite Et, Eo, El, Ew, <- app_assoc in E. exact E.
    + cbn [with_option args length]. rewrite Ew, length_app. cbn [length] in *. lia.
Qed.

Lemma save_statements_found ts : forall x y, Forall (fun t : list (list Z) * Z => t.1 <> [] /\ Z.of_nat (length t.1) <= 2 ^ 32 - 1) ts ->
  save_statements (St := St) ts x = Some (Go y) -> elems (args x) = [] -> counted (args x) -> counted (arr_type x) -> counted (arr_opts x) ->
  Z.of_nat (length (elems (arr_type x)) + length (elems (arr_opts x)) + length ts) < 2 ^ 32 - 1 ->
  view <$> elems (arr_type y) = (view <$> elems (arr_type x)) ++ filter is_type (stored <$> ts) /\
  view <$> elems (arr_opts y) = (view <$> elems (arr_opts x)) ++ filter (fun t => ~ is_type t) (stored <$> ts).
Proof using Cnt.
  induction ts as [|[ws ln] ts IH]; intros x y Hts E Ea Ha Ht Ho Hn; [injection E as <-; cbn; by rewrite !app_nil_r |].
  apply Forall_cons in Hts as [[Hne Hlen] Hts]. cbn [save_statements fst length] in *.
  destruct (save_words ws (with_line ln x)) as [[z | z | z]|] eqn:Ez; cbn [on mbind option_bind] in E; [|done..].
  apply save_words_found in Ez as (E1 & E2 & E3 & E4 & E5 & E6); try done; cbn [with_line args arr_type arr_opts line] in *; [|rewrite Ea; cbn; lia | lia].
  rewrite Ea in E5, E6. cbn [app] in E5, E6.
  assert (length (elems (arr_type z)) + length (elems (arr_opts z)) = S (length (elems (arr_type x)) + length (elems (arr_opts x))))%nat as El.
  { apply (f_equal length) in E5, E6. rewrite !length_app, !length_fmap in E5, E6. destruct (decide (is_type (text_word <$> ws, ln))) as [Hty | Hty].
    - rewrite filter_cons_True in E5 by done. rewrite filter_cons_False in E6 by naive_solver. cbn in E5, E6. lia.
    - rewrite filter_cons_False in E5 by done. rewrite filter_cons_True in E6 by naive_solver. cbn in E5, E6. lia. }
  destruct (IH z y Hts E E1 E2 E3 E4) as [F1 F2]; [lia |]. rewrite F1, F2, E5, E6, fmap_cons. change (stored (ws, ln) :: (stored <$> ts)) with ([(text_word <$> ws, ln)] ++ (stored <$> ts)).
  by rewrite !filter_app, !app_assoc.
Qed.

Lemma lex_start_counted page_size s x s' : lex_start (St := St) page_size s = Some (Some x, s') ->
  (elems (args x) = [] /\ counted (args x)) /\ (elems (arr_type x) = [] /\ counted (arr_type x)) /\ elems (arr_opts x) = [] /\ counted (arr_opts x).
Proof using Cnt.
  unfold lex_start. destruct (st_pool_create _ _ s) as [pool s1]. case_bool_decide; [done |].
  destruct (st_array_create pool _ _ s1) as [[t s2]|] eqn:Et; cbn [mbind option_bind]; [|done]. destruct (st_array_create pool _ _ s2) as [[p s3]|] eqn:Ep; cbn [mbind option_bind]; [|done].
  destruct (st_array_create pool _ _ s3) as [[a s4]|] eqn:Ea; cbn [mbind option_bind]; [|done]. destruct (st_pool_alloc pool _ s4) as [[o s5]|]; cbn [mbind option_bind]; [|done].
  intros [= <- <-]. unfold counted. cbn. split; [|split]; (split; [done |]); [destruct a | destruct t | destruct p]; try done; by eapply create_counts.
Qed.

Lemma placed_found ln ts : Forall statement_ok ts -> Forall (fun t : list (list Z) * Z => t.1 <> [] /\ Z.of_nat (length t.1) <= 2 ^ 32 - 1) (placed ln ts).
Proof using.
  intros Hok. revert ln. induction Hok as [|t ts (_ & _ & H1 & H2) _ IH]; intros ln; [constructor |]. cbn [placed]. constructor; [|apply IH]. cbn [fst]. unfold st_words. rewrite fmap_cons.
  split; [done |]. cbn [length]. rewrite length_fmap. lia.
Qed.

Lemma length_placed ts : forall ln, length (placed ln ts) = length ts.
Proof using. induction ts as [|t ts IH]; intros ln; [done |]. cbn. by rewrite IH. Qed.

End Found.

(** C17. What is written is what is parsed, over any storage. The text is one of statements with
    at least two words each, fewer than 2^32 - 1 of both, in any layout: words plain or in
    quotes, any number of spaces between them, comments, blank lines and carriage returns before
    a statement, and any of the three endings. A plain word has no space, quote, semicolon,
    hash, backslash or end of line in it, a quoted one no quote, backslash or end of line, and no word is longer than the option buffer, 1025 bytes (a longer one is written
    behind it: [long_word_overflows]). The parser does exactly what the reader of the bare words
    does: it stores every word of every statement in order, files the statements, fails where
    the storage refuses, and ends as [conf_parse_buf] does. And when the array headers count
    what was pushed, as those of [dfs_array.cpp] do, and no request was refused, the statements
    found are exactly those of the text, in order, each with all its words and its line: those
    of two words are the objects, the longer ones the options. *)
Theorem conf_text_roundtrip {St : Type} `{Cnt : Counting St} ts e page_size (ctx : conf_context_t (St := St)) s :
  Forall statement_ok ts -> ts <> [] -> Z.of_nat (length ts) < 2 ^ 32 - 1 -> ending_ok e ->
  conf_parse_buf page_size ctx (show_text ts e) s = read_statements page_size ctx (placed 1 ts) s /\
  (forall x0 s0 x, lex_start page_size s = Some (Some x0, s0) -> is_Some (option_ x0) -> save_statements (placed 1 ts) x0 = Some (Go x) ->
    conf_parse_buf page_size ctx (show_text ts e) s = conf_parse_statements ctx x /\ in_quotes x = false /\
    view <$> elems (arr_type x) = filter is_type (stored <$> placed 1 ts) /\
    view <$> elems (arr_opts x) = filter (fun t => ~ is_type t) (stored <$> placed 1 ts)).
Proof.
  intros Hts Hne Hlen He. rewrite (parse_buf_reads ts e page_size ctx s Hts Hne He). split; [done |]. intros x0 s0 x Hs [o Ho] Hx.
  unfold read_statements. rewrite Hs. cbn [mbind option_bind]. rewrite Ho. cbn [mbind option_bind]. rewrite Hx. split; [done |].
  apply lex_start_counted in Hs as Hc. apply lex_start_ready in Hs as (R1 & _ & R2 & R3 & R4 & _). destruct Hc as ((A1 & A2) & (T1 & T2) & O1 & O2).
  assert (ready x0) as Hr by (destruct R4 as [R4 | R4]; [congruence | done]). split.
  - apply save_statements_ready in Hx as (_ & H1 & _); [|done]. unfold in_quotes. by rewrite H1.
  - apply save_statements_found in Hx as [F1 F2]; [by rewrite T1 in F1; rewrite O1 in F2 | by apply placed_found | done..|].
    rewrite T1, O1, length_placed. done.
Qed.

(** ** Lines are for messages only *)

Section Lines.

Context {St : Type} `{Sto : Storage St}.

Definition result : Type := Z * conf_context_t (St := St) * St.
Definition relined (n : option Z) (r : result) : result := (r.1.1, at_line n r.1.2, r.2).
Definition lineless : result -> result := relined None.

Lemma relined_twice n m (r : option result) : relined n <$> (relined m <$> r) = relined n <$> r.
Proof using. by destruct r as [[[rc c] s]|]. Qed.

Ltac split_run :=
  repeat match goal with
  | |- context [?x ≫= _] => destruct x as [?|] eqn:?; cbn [mbind option_bind]
  | |- context [let '(_, _) := ?x in _] => destruct x
  | |- context [match ?x with _ => _ end] => destruct x eqn:?
  end; try done.

Lemma parse_object_line n ctx var o s : conf_parse_object (at_line n ctx) var o s = relined n <$> conf_parse_object ctx var o s.
Proof using. unfold conf_parse_object. cbn [vars at_line pool with_vars]. split_run. Qed.

Lemma parse_type_line n ctx t s : conf_parse_type (at_line n ctx) t s = relined n <$> conf_parse_type ctx t s.
Proof using.
  unfold conf_parse_type. cbn [conf_objects at_line]. destruct (elems (a_words t) !! 0%nat) as [w0|]; cbn [mbind option_bind]; [|done].
  destruct (find_object (conf_objects ctx) w0) as [[o|]|]; cbn [mbind option_bind]; [|done|done].
  destruct (elems (a_words t) !! 1%nat) as [w1|]; cbn [mbind option_bind]; [|done]. apply parse_object_line.
Qed.

Lemma parse_option_line n ctx t s : conf_parse_option (at_line n ctx) t s = relined n <$> conf_parse_option ctx t s.
Proof using.
  unfold conf_parse_option. destruct (arr (a_words t)) as [a|]; cbn [mbind option_bind]; [|done]. destruct (_ || _); [done |].
  destruct (elems (a_words t) !! 0%nat) as [w0|]; cbn [mbind option_bind]; [|done]. destruct (nelts a =? CONF_TAKE2).
  - cbn [conf_objects at_line]. destruct (find_object (conf_objects ctx) w0) as [[o|]|]; cbn [mbind option_bind]; [|done|done].
    destruct (elems (a_words t) !! 1%nat) as [w1|]; cbn [mbind option_bind]; [|done]. apply parse_object_line.
  - destruct (split_name w0) as [[[var att]|]|]; cbn [mbind option_bind]; [|done|done]. unfold conf_get_vobject. cbn [vars at_line].
    destruct (find_variable (elems (vars ctx)) var 0) as [[i|]|]; cbn [mbind option_bind]; [|done|done].
    destruct (elems (vars ctx) !! i) as [v|]; cbn [mbind option_bind]; [|done].
    destruct (conf_parse_object_att v att (elems (a_words t)) (nelts a) s) as [[[rc v'] s']|]; done.
Qed.

Lemma parse_types_lines l1 : forall l2 ctx1 ctx2 s, a_words <$> l1 = a_words <$> l2 -> at_line None ctx1 = at_line None ctx2 ->
  lineless <$> parse_types ctx1 l1 s = lineless <$> parse_types ctx2 l2 s.
Proof using.
  induction l1 as [|t1 l1 IH]; intros [|t2 l2] ctx1 ctx2 s Hl Hc; try done; [cbn [parse_types parse_options fmap option_fmap option_map lineless relined fst snd]; unfold lineless, relined; cbn [fst snd]; by rewrite Hc |].
  rewrite !fmap_cons in Hl. injection Hl as Ht Hl. cbn [parse_types].
  change (at_line (Some (a_line t1)) ctx1) with (at_line (Some (a_line t1)) (at_line None ctx1)).
  change (at_line (Some (a_line t2)) ctx2) with (at_line (Some (a_line t2)) (at_line None ctx2)). rewrite (parse_type_line (Some (a_line t1)) (at_line None ctx1)), (parse_type_line (Some (a_line t2)) (at_line None ctx2)), Hc.
  assert (conf_parse_type (at_line None ctx2) t1 s = conf_parse_type (at_line None ctx2) t2 s) as -> by (unfold conf_parse_type; by rewrite Ht).
  destruct (conf_parse_type (at_line None ctx2) t2 s) as [[[rc c] s']|]; cbn [fmap option_fmap option_map relined mbind option_bind fst snd]; [|done].
  destruct (rc =? NGX_OK); [by apply IH | done].
Qed.

Lemma parse_options_lines l1 : forall l2 types1 types2 i ctx1 ctx2 s, a_words <$> l1 = a_words <$> l2 -> at_line None ctx1 = at_line None ctx2 ->
  arr types1 = arr types2 -> length (elems types1) = length (elems types2) ->
  lineless <$> parse_options ctx1 types1 i l1 s = lineless <$> parse_options ctx2 types2 i l2 s.
Proof using.
  induction l1 as [|t1 l1 IH]; intros [|t2 l2] types1 types2 i ctx1 ctx2 s Hl Hc Ha Hn; try done; [cbn [parse_types parse_options fmap option_fmap option_map lineless relined fst snd]; unfold lineless, relined; cbn [fst snd]; by rewrite Hc |].
  rewrite !fmap_cons in Hl. injection Hl as Ht Hl. cbn [parse_options].
  assert (line_of_type types1 i = None /\ line_of_type types2 i = None \/ exists n1 n2, line_of_type types1 i = Some n1 /\ line_of_type types2 i = Some n2) as Hline.
  { unfold line_of_type. rewrite Ha. destruct (arr types2) as [a|]; cbn [mbind option_bind]; [|by left].
    destruct (decide (i < length (elems types2))%nat) as [Hi | Hi].
    - destruct (lookup_lt_is_Some_2 (elems types2) i Hi) as [x ->]. rewrite <- Hn in Hi. destruct (lookup_lt_is_Some_2 (elems types1) i Hi) as [y ->]. right. by eexists _, _.
    - rewrite !lookup_ge_None_2 by lia. destruct (_ <? _); [right; by eexists _, _ | by left]. }
  destruct Hline as [[-> ->] | (n1 & n2 & -> & ->)]; [done |]. cbn [mbind option_bind].
  change (at_line n1 ctx1) with (at_line n1 (at_line None ctx1)). change (at_line n2 ctx2) with (at_line n2 (at_line None ctx2)). rewrite (parse_option_line n1 (at_line None ctx1)), (parse_option_line n2 (at_line None ctx2)), Hc.
  assert (conf_parse_option (at_line None ctx2) t1 s = conf_parse_option (at_line None ctx2) t2 s) as -> by (unfold conf_parse_option; by rewrite Ht).
  destruct (conf_parse_option (at_line None ctx2) t2 s) as [[[rc c] s']|]; cbn [fmap option_fmap option_map relined mbind option_bind fst snd]; [|done].
  destruct (rc =? NGX_OK); [by apply IH | done].
Qed.

Lemma destroy_lines rc p ctx1 ctx2 s : at_line None ctx1 = at_line None ctx2 -> lineless <$> destroy_with rc p ctx1 s = lineless <$> destroy_with rc p ctx2 s.
Proof using. intros Hc. unfold destroy_with. destruct (st_pool_destroy p s); cbn [mbind option_bind]; [|done]. unfold lineless, relined. cbn [fmap option_fmap option_map fst snd]. by rewrite Hc. Qed.

Lemma lineless_eq rc1 rc2 c1 c2 (s1 s2 : St) : lineless <$> Some (rc1, c1, s1) = lineless <$> Some (rc2, c2, s2) ->
  rc1 = rc2 /\ at_line None c1 = at_line None c2 /\ s1 = s2.
Proof using.
  intros E. apply (inj Some) in E. unfold lineless, relined in E. cbn [fst snd] in E. apply pair_eq in E as [E ->]. by apply pair_eq in E as [-> ->].
Qed.

(** Statements with the same words give the same objects. *)
Lemma statements_lines ctx (x y : lexer) : in_quotes x = false -> in_quotes y = false -> tmp_pool x = tmp_pool y -> store x = store y ->
  arr (arr_type x) = arr (arr_type y) -> arr (arr_opts x) = arr (arr_opts y) ->
  a_words <$> elems (arr_type x) = a_words <$> elems (arr_type y) -> a_words <$> elems (arr_opts x) = a_words <$> elems (arr_opts y) ->
  lineless <$> conf_parse_statements ctx x = lineless <$> conf_parse_statements ctx y.
Proof using.
  intros Q1 Q2 Ep Es Et Eo Wt Wo. unfold conf_parse_statements. rewrite Q1, Q2, Ep, Et. destruct (arr (arr_type y)) as [at_|] eqn:Ea; cbn [mbind option_bind]; [|done].
  pose proof (parse_types_lines _ _ ctx ctx (store x) Wt eq_refl) as Ht. rewrite Es in Ht |- *.
  destruct (parse_types ctx (elems (arr_type x)) (store y)) as [[[rc1 c1] s1]|], (parse_types ctx (elems (arr_type y)) (store y)) as [[[rc2 c2] s2]|]; try done.
  apply lineless_eq in Ht as (-> & Hc12 & ->). cbn [mbind option_bind].
  destruct (negb (rc2 =? NGX_OK)); [by apply destroy_lines |]. rewrite Eo. destruct (arr (arr_opts y)) as [ao|]; cbn [mbind option_bind]; [|done].
  pose proof (parse_options_lines _ _ (arr_type x) (arr_type y) 0 c1 c2 s2 Wo Hc12) as Ho.
  rewrite Et, Ea in Ho. specialize (Ho eq_refl). apply (f_equal length) in Wt. rewrite !length_fmap in Wt. specialize (Ho Wt).
  destruct (parse_options c1 (arr_type x) 0 (elems (arr_opts x)) s2) as [[[rc3 c3] s3]|], (parse_options c2 (arr_type y) 0 (elems (arr_opts y)) s2) as [[[rc4 c4] s4]|]; try done.
  apply lineless_eq in Ho as (-> & Hc34 & ->). cbn [mbind option_bind]. by apply destroy_lines.
Qed.

End Lines.

(** ** Layout *)

Section Layout.

Context {St : Type} `{Sto : Storage St}.

(** Lexers that differ in lines only. *)
Record alike (x y : lexer (St := St)) : Prop := {
  al_quotes : first_quote x = first_quote y /\ last_quote x = last_quote y;
  al_args : args x = args y;
  al_types : arr (arr_type x) = arr (arr_type y) /\ a_words <$> elems (arr_type x) = a_words <$> elems (arr_type y);
  al_opts : arr (arr_opts x) = arr (arr_opts y) /\ a_words <$> elems (arr_opts x) = a_words <$> elems (arr_opts y);
  al_store : tmp_pool x = tmp_pool y /\ store x = store y
}.

Definition alike_flow (r r' : option (flow (St := St))) : Prop :=
  match r, r' with
  | Some (Go x), Some (Go y) | Some (Return_ x), Some (Return_ y) | Some (Error_ x), Some (Error_ y) => alike x y
  | None, None => True
  | _, _ => False
  end.

Lemma alike_on r r' k k' : alike_flow r r' -> (forall x y, alike x y -> alike_flow (k x) (k' y)) -> alike_flow (on r k) (on r' k').
Proof using. intros H1 H2. destruct r as [[x | x | x]|], r' as [[y | y | y]|]; cbn in *; try done. by apply H2. Qed.

Lemma alike_line x y n m : alike x y -> alike (with_line n x) (with_line m y).
Proof using. by intros []. Qed.

Lemma alike_option x y o : alike x y -> alike (with_option o x) (with_option o y).
Proof using. by intros []. Qed.

Lemma alike_save fault x y o : alike x y -> alike_flow (save_word fault (with_option (Some o) x)) (save_word fault (with_option (Some o) y)).
Proof using.
  intros [[Q1 Q2] A [T1 T2] [O1 O2] [P S]]. unfold save_word. cbn [option_ with_option mbind option_bind args store tmp_pool]. rewrite A, P, S.
  destruct (push (args y) _ (store y)) as [[[l|] s]|]; cbn [mbind option_bind]; [|by destruct fault|done]. destruct (st_pool_alloc _ _ s) as [[d s']|]; cbn [mbind option_bind]; [|done].
  by case_bool_decide.
Qed.

(** What is pushed does not matter for the room it takes. *)
Lemma push_alike (l l' : items conf_args_t) a a' s : arr l = arr l' -> a_words <$> elems l = a_words <$> elems l' -> a_words a = a_words a' ->
  match push l a s, push l' a' s with
  | Some (Some m, s1), Some (Some m', s1') => arr m = arr m' /\ a_words <$> elems m = a_words <$> elems m' /\ s1 = s1'
  | Some (None, s1), Some (None, s1') => s1 = s1'
  | None, None => True
  | _, _ => False
  end.
Proof using.
  intros E1 E2 E3. unfold push. rewrite E1. destruct (st_array_push (arr l') s) as [[[p b] s1]|]; cbn [mbind option_bind]; [|done]. case_bool_decide; [done |].
  cbn. rewrite !fmap_app, E2. cbn. by rewrite E3.
Qed.

Lemma alike_end x y : alike x y -> alike_flow (end_statement x) (end_statement y).
Proof using.
  intros [[Q1 Q2] A [T1 T2] [O1 O2] [P S]]. unfold end_statement. rewrite A, S. destruct (arr (args y)) as [a|]; cbn [mbind option_bind]; [|done].
  destruct (3 <=? nelts a); [|destruct (nelts a =? 2); [|done]].
  - pose proof (push_alike (arr_opts x) (arr_opts y) {| a_words := args y; a_line := line x |} {| a_words := args y; a_line := line y |} (store y) O1 O2 eq_refl) as Hp.
    destruct (push (arr_opts x) _ _) as [[[m|] s1]|], (push (arr_opts y) _ _) as [[[m'|] s1']|]; try done. destruct Hp as (M1 & M2 & <-). cbn [mbind option_bind with_opts tmp_pool store]. rewrite P.
    by destruct (st_array_create _ _ _ s1) as [[b s2]|].
  - pose proof (push_alike (arr_type x) (arr_type y) {| a_words := args y; a_line := line x |} {| a_words := args y; a_line := line y |} (store y) T1 T2 eq_refl) as Hp.
    destruct (push (arr_type x) _ _) as [[[m|] s1]|], (push (arr_type y) _ _) as [[[m'|] s1']|]; try done. destruct Hp as (M1 & M2 & <-). cbn [mbind option_bind with_types tmp_pool store]. rewrite P.
    by destruct (st_array_create _ _ _ s1) as [[b s2]|].
Qed.

Lemma alike_words ws : forall x y, alike x y -> alike_flow (save_words ws x) (save_words ws y).
Proof using.
  induction ws as [|w ws IH]; intros x y Hxy; [done |]. destruct ws as [|w' ws]; cbn [save_words]; (apply alike_on; [by apply alike_save |]); intros x' y' Hx'.
  - by apply alike_end, alike_option.
  - by apply IH, alike_option.
Qed.

Lemma alike_statements ts1 : forall ts2 x y, ts1.*1 = ts2.*1 -> alike x y -> alike_flow (save_statements ts1 x) (save_statements ts2 y).
Proof using.
  induction ts1 as [|[ws n] ts1 IH]; intros [|[ws' m] ts2] x y E Hxy; try done. rewrite !fmap_cons in E. cbn [fst] in E. injection E as <- E. cbn [save_statements].
  apply alike_on; [by apply alike_words, alike_line |]. intros x' y' Hx'. by apply IH.
Qed.

Lemma alike_conclude ctx r r' : alike_flow r r' -> (forall x, r = Some (Go x) -> in_quotes x = false) -> lineless <$> conclude ctx r = lineless <$> conclude ctx r'.
Proof using.
  intros Hr Hq. destruct r as [[x | x | x]|], r' as [[y | y | y]|]; try done; destruct Hr as [[Q1 Q2] A [T1 T2] [O1 O2] [P S]]; cbn [conclude mbind option_bind].
  - specialize (Hq x eq_refl). apply statements_lines; try done. unfold in_quotes in *. by rewrite <- Q1, <- Q2.
  - unfold lineless, relined. cbn. by rewrite S.
  - rewrite P, S. by apply destroy_lines.
Qed.

Lemma placed_words ts : forall ln, (placed ln ts).*1 = (fun t => w_bytes <$> st_words t) <$> ts.
Proof using. induction ts as [|t ts IH]; intros ln; [done |]. cbn [placed]. rewrite !fmap_cons, IH. done. Qed.

(** C18. Layout is for the reader: over any storage, two texts with the same statements of words
    that fit the option buffer (1025 bytes), whatever their spaces, quotes, comments, blank
    lines and endings, are parsed to the same result: the same answer, the same objects with
    the same options and the same storage, refusals included; only the line in the context,
    which is for messages, differs. *)
Theorem conf_layout_irrelevant ts1 e1 ts2 e2 page_size (ctx : conf_context_t (St := St)) s :
  Forall statement_ok ts1 -> Forall statement_ok ts2 -> ts1 <> [] -> ending_ok e1 -> ending_ok e2 ->
  (fun t => w_bytes <$> st_words t) <$> ts1 = (fun t => w_bytes <$> st_words t) <$> ts2 ->
  lineless <$> conf_parse_buf page_size ctx (show_text ts1 e1) s = lineless <$> conf_parse_buf page_size ctx (show_text ts2 e2) s.
Proof using.
  intros Hok1 Hok2 Hne1 He1 He2 Hw. assert (ts2 <> []) as Hne2 by (intros ->; by destruct ts1).
  rewrite !parse_buf_reads by done. unfold read_statements. destruct (lex_start page_size s) as [[[x|] s0]|] eqn:Ex; cbn [mbind option_bind]; [|done..].
  apply lex_start_ready in Ex as (R1 & _ & R2 & R3 & R4 & _). destruct R4 as [R4 | R4]; rewrite R4; [done |]. cbn [mbind option_bind]. apply alike_conclude.
  - apply alike_statements; [by rewrite !placed_words |]. by split.
  - intros y Hy. apply save_statements_ready in Hy as (_ & H1 & _); [|done]. unfold in_quotes. by rewrite H1.
Qed.

End Layout.

(** ** Witnesses and examples *)

#[local] Existing Instance test_storage.

Definition plain (s : string) : shown := {| w_bytes := ascii_bytes s; w_quoted := false; w_spaces := 0 |}.
Definition quoted (n : nat) (s : string) : shown := {| w_bytes := ascii_bytes s; w_quoted := true; w_spaces := n |}.

Definition neat : list statement :=
  [{| st_gaps := []; st_first := plain "Server"; st_more := [plain "server"] |};
   {| st_gaps := [Newline]; st_first := plain "server.workers"; st_more := [plain "="; plain "4"] |}].

Definition untidy : list statement :=
  [{| st_gaps := [Comment (ascii_bytes " the server"); Blank]; st_first := quoted 0 "Server"; st_more := [plain "server"] |};
   {| st_gaps := [Blank; Comment (ascii_bytes "; more"); Carriage; Newline; Newline]; st_first := plain "server.workers"; st_more := [plain "="; quoted 3 "4"] |}].

Lemma gaps_checked gs : forallb (fun g => match g with Comment c => negb (existsb (Z.eqb chr_newline) c) | _ => true end) gs = true -> Forall gap_ok gs.
Proof.
  rewrite forallb_forall, Forall_forall. intros H g Hg. specialize (H g). rewrite <- list_elem_of_In in H. specialize (H Hg). destruct g as [| | |c]; try done. cbn.
  intros Hin. apply negb_true_iff in H. assert (existsb (Z.eqb chr_newline) c = true) as E; [|congruence]. apply existsb_exists. exists chr_newline. rewrite <- list_elem_of_In. done.
Qed.

Lemma shown_checked ws : forallb (fun w => match w_bytes w with [] => false | _ => true end && (Z.of_nat (length (w_bytes w)) <=? CONF_MAX_OPTION_S + 1) &&
    forallb (fun c => if w_quoted w then quoted_char c else plain_char c) (w_bytes w)) ws = true -> Forall shown_ok ws.
Proof.
  rewrite forallb_forall, Forall_forall. intros H w Hw. specialize (H w). rewrite <- list_elem_of_In in H. specialize (H Hw).
  apply andb_true_iff in H as [[H1 H2%Z.leb_le]%andb_true_iff H3]. split; [by destruct (w_bytes w) |]. split; [done |].
  rewrite forallb_forall in H3. apply Forall_forall. intros c Hc. apply H3. by apply list_elem_of_In.
Qed.

Lemma neat_ok : Forall statement_ok neat.
Proof.
  constructor; [|constructor; [|constructor]]; (split; [apply gaps_checked; reflexivity | split; [apply shown_checked; reflexivity | split; cbn; lia]]).
Qed.

Lemma untidy_ok : Forall statement_ok untidy.
Proof.
  constructor; [|constructor; [|constructor]]; (split; [apply gaps_checked; reflexivity | split; [apply shown_checked; reflexivity | split; cbn; lia]]).
Qed.

Definition empty_context : conf_context_t (St := heap) :=
  {| pool := test_pool; vars := {| arr := None; elems := [] |}; conf_line := None; conf_objects := []; file_name := string_null |}.

(** The lexer when it starts and when the statements of [untidy] are stored. *)
Definition untidy_start : option (option lexer * heap) := lex_start (St := heap) 4096 test_heap.
Definition untidy_read : option lexer :=
  '(x, _) ← untidy_start; x ← x; _ ← option_ x; r ← save_statements (placed 1 untidy) x; match r with Go x => Some x | _ => None end.

Lemma conf_text_roundtrip_witness :
  exists x, untidy_read = Some x /\ conf_parse_buf 4096 empty_context (show_text untidy OneNewline) test_heap = conf_parse_statements empty_context x /\
    in_quotes x = false /\ view <$> elems (arr_type x) = [([string_make "Server"; string_make "server"], 2)] /\
    view <$> elems (arr_opts x) = [([string_make "server.workers"; string_make "="; string_make "4"], 5)].
Proof.
  destruct (conf_text_roundtrip untidy OneNewline 4096 empty_context test_heap untidy_ok) as [_ Hr]; [discriminate | cbn; lia | exact I |].
  destruct untidy_read as [x|] eqn:E; [|vm_compute in E; discriminate E]. exists x. split; [reflexivity |]. unfold untidy_read, untidy_start in E.
  destruct (lex_start 4096 test_heap) as [[[x0|] s0]|] eqn:Es; cbn [mbind option_bind] in E; try discriminate E.
  destruct (option_ x0) as [o|] eqn:Eo; cbn [mbind option_bind] in E; [|discriminate E].
  destruct (save_statements (placed 1 untidy) x0) as [[y | y | y]|] eqn:Ey; cbn [mbind option_bind] in E; try discriminate E. injection E as ->.
  exact (Hr x0 s0 x eq_refl (ex_intro _ o Eo) Ey).
Defined.

Lemma conf_layout_irrelevant_witness :
  lineless <$> conf_parse_buf 4096 empty_context (show_text neat NoNewline) test_heap = lineless <$> conf_parse_buf 4096 empty_context (show_text untidy OneNewline) test_heap.
Proof.
  apply (conf_layout_irrelevant neat NoNewline untidy OneNewline 4096 empty_context test_heap).
  - exact neat_ok.
  - exact untidy_ok.
  - discriminate.
  - exact I.
  - exact I.
  - reflexivity.
Defined.

(** The statements of a text, and the result of the character loop. *)
Definition lexed (l : list Z) : option (bool * list (list string_t * Z)) :=
  '(x, _) ← lex_start 4096 test_heap; x ← x; r ← lex None l x;
  Some match r with
       | Go x => (true, (view <$> elems (arr_type x)) ++ (view <$> elems (arr_opts x)))
       | Return_ _ | Error_ _ => (false, [])
       end.

Definition newline : list Z := [chr_newline].

(** A file that ends in a blank line, or has carriage returns, is refused. *)
Example blank_end_refused : lexed (ascii_bytes "Server server;" ++ newline ++ newline) = Some (false, []).
Proof. vm_compute. reflexivity. Qed.

Example crlf_refused : lexed (ascii_bytes "Server server;" ++ [chr_return] ++ newline) = Some (false, []).
Proof. vm_compute. reflexivity. Qed.

(** A last statement without a semicolon is dropped when no newline follows it. *)
Example unterminated_dropped :
  lexed (ascii_bytes "Server server; server.workers = 4") = Some (true, [([string_make "Server"; string_make "server"], 1)]).
Proof. vm_compute. reflexivity. Qed.

(** A newline does not end a word, and one that is escaped is not counted. *)
Example newline_joins :
  lexed (ascii_bytes "Server ser" ++ newline ++ ascii_bytes "ver;") = Some (true, [([string_make "Server"; string_make "server"], 2)]) /\
  lexed (ascii_bytes "Server ser\" ++ newline ++ ascii_bytes "ver;") = Some (true, [([string_make "Server"; string_make "server"], 1)]).
Proof. vm_compute. done. Qed.

(** A word of 1026 characters runs over the option buffer. *)
Example long_word_overflows : lexed (repeat 97 1025) <> None /\ lexed (repeat 97 1026) = None.
Proof. vm_compute. done. Qed.

(** A backslash at the end of the file makes the parser read behind it. *)
Example last_backslash : lexed (ascii_bytes "Server server;\") = None.
Proof. vm_compute. reflexivity. Qed.
