(* ===== verification/ServerConf.v ===== *)
(** * The server's configuration ([src/dn_conf.cpp])

    The one class of the program, [Server]: the layout of its object, the table of its options
    with their handlers and offsets, and what its defaults do. [Example sample_parses] runs the
    parser over the configuration file of the repository. *)

From Stdlib Require Import String Ascii.
From S2P Require Import Prelude Memory Strings MemoryPool Array ConfBase Conf.
#[local] Open Scope string_scope.
#[local] Open Scope list_scope.
#[local] Open Scope Z_scope.

(** ** Layout *)

(** The offsets of the fields of [conf_server_t]. *)
(* src/src/dn_conf.h:11-31 (conf_server_s) *)
Inductive server_field :=
  | daemon | worker_n | bind_for_cli | ns_srv | listen_for_other_dn | my_paxos | ot_paxos | connection_n | error_log | coredump_dir
  | pid_file | log_level | recv_buff_len | send_buff_len | max_tqueue_len | data_dir | heartbeat_interval | block_report_interval.

Definition offsetof (f : server_field) : Z :=
  match f with
  | daemon => 0 | worker_n => 4 | bind_for_cli => 8 | ns_srv => 48 | listen_for_other_dn => 64 | my_paxos => 80 | ot_paxos => 96
  | connection_n => 112 | error_log => 120 | coredump_dir => 136 | pid_file => 152 | log_level => 168 | recv_buff_len => 172
  | send_buff_len => 176 | max_tqueue_len => 180 | data_dir => 184 | heartbeat_interval => 200 | block_report_interval => 204
  end.

Definition sizeof_conf_server : Z := 208.
Definition CONF_SIZE_NOT_SET : Z := 0.
Definition DEF_RBUFF_LEN : Z := 64 * 1024.
Definition DEF_SBUFF_LEN : Z := 64 * 1024.
Definition DEF_MMAX_TQUEUE_LEN : Z := 1000.
Definition sizeof_server_bind : Z := 24.
Definition CONF_SERVER_BIND_N : Z := 1.

Definition string_fields : list server_field := [ns_srv; listen_for_other_dn; my_paxos; ot_paxos; error_log; coredump_dir; pid_file; data_dir].

Definition empty_strings : gmap Z string_t := list_to_map ((fun f => (offsetof f, string_null)) <$> string_fields).

Section Server.

Context {St : Type} `{Storage St}.

(** The object is zeros but for the array of addresses. *)
(* src/src/dn_conf.cpp:118-135 (conf_server_init) *)
Definition conf_server_init (p : ptr) (s : St) : option (option block * St) :=
  '(sconf, s) ← st_pool_alloc p sizeof_conf_server s;
  if bool_decide (sconf = nullptr) then Some (None, s)
  else
    '(rc, a, s) ← st_array_init p CONF_SERVER_BIND_N sizeof_server_bind s;
    if negb (rc =? NGX_OK) then Some (None, s)
    else
      a ← a;
      Some (Some {| raw := repeat 0 (Z.to_nat sizeof_conf_server); strings := empty_strings; binds := {[ offsetof bind_for_cli := (a, []) ]};
        ints := ∅; percents := ∅ |}, s).

(** [set_def_int]: four bytes that are zero get the default. *)
(* src/src/dn_conf.h:46-50 (set_def_int) *)
Definition set_def_int (key : nat) (value : Z) (mem : list Z) : option (list Z) :=
  if (key + 4 <=? length mem)%nat then
    Some (if unle (take 4 (drop key mem)) =? CONF_SIZE_NOT_SET then take key mem ++ le 4 value ++ drop (key + 4) mem else mem)
  else None.

(** The three defaults, at the offsets of the fields of an object from wherever [var] points to. *)
(* src/src/dn_conf.cpp:137-146 (conf_server_make_default) *)
Definition conf_server_make_default : default_fn := fun mem var =>
  let key (f : server_field) := (var + Z.to_nat (offsetof f))%nat in
  mem ← set_def_int (key recv_buff_len) DEF_RBUFF_LEN mem;
  mem ← set_def_int (key send_buff_len) DEF_SBUFF_LEN mem;
  mem ← set_def_int (key max_tqueue_len) DEF_MMAX_TQUEUE_LEN mem;
  Some (NGX_OK, mem).

(* src/src/dn_conf.cpp:86-111 (conf_macro) *)
Definition conf_macro : list conf_macro_t :=
  let m (n : string) (v : Z) := {| m_name := string_make n; m_value := v |} in
  [m "ALLOW" 1; m "DENY" 2; m "ON" 1; m "OFF" 0; m "LOG_FATAL" 1; m "LOG_ERROR" 2; m "LOG_ALERT" 3; m "LOG_WARN" 4; m "LOG_NOTICE" 5;
   m "LOG_INFO" 6; m "LOG_DEBUG" 9; {| m_name := string_null; m_value := 0 |}].

(** A value is one macro; a list of them is refused. *)
(* src/src/dn_conf.cpp:148-197 (conf_parse_nn_macro) *)
Definition conf_parse_nn_macro : handler (St := St) := fun b offset type args args_n s =>
  if negb (type =? OPE_EQUAL) then fail b s
  else if negb (args_n =? CONF_TAKE3) then fail b s
  else
    w ← word args (args_n - 1);
    match data w with
    | None => fail b s
    | Some d =>
        if len w =? 0 then fail b s
        else
          bar ← strchr d 124;
          match bar with
          | None =>
              v ← find_macro conf_macro d (len w);
              match v with
              | Some v => b ← poke 4 offset v b; done_ b s
              | None => fail b s
              end
          | Some _ => fail b s
          end
    end.

(* src/src/dn_conf.cpp:23-77 (conf_server_option) *)
Definition conf_server_option : list (conf_option_t (St := St)) :=
  let o (n : string) (h : handler (St := St)) (f : server_field) :=
    {| opt_name := string_make n; opt_handler := h; opt_type := OPE_EQUAL; opt_offset := offsetof f |} in
  [o "daemon" conf_parse_nn_macro daemon; o "workers" conf_parse_int worker_n; o "bind_for_cli" conf_parse_bind bind_for_cli;
   o "ns_srv" conf_parse_string ns_srv; o "listen_for_other_dn" conf_parse_string listen_for_other_dn; o "my_paxos" conf_parse_string my_paxos;
   o "connections" conf_parse_int connection_n; o "error_log" conf_parse_string error_log; o "coredump_dir" conf_parse_string coredump_dir;
   o "pid_file" conf_parse_string pid_file; o "log_level" conf_parse_nn_macro log_level; o "recv_buff_len" conf_parse_bytes_size recv_buff_len;
   o "send_buff_len" conf_parse_bytes_size send_buff_len; o "max_tqueue_len" conf_parse_int max_tqueue_len; o "data_dir" conf_parse_string data_dir;
   o "heartbeat_interval" conf_parse_int heartbeat_interval; o "block_report_interval" conf_parse_int block_report_interval;
   {| opt_name := string_null; opt_handler := conf_parse_int; opt_type := OPE_EQUAL; opt_offset := 0 |}].

(* src/src/dn_conf.cpp:79-84 (dn_conf_objects) *)
Definition dn_conf_objects : list (conf_object_t (St := St)) :=
  [{| o_name := string_make "Server"; o_init := conf_server_init; o_make_default := Some conf_server_make_default; o_option := conf_server_option |};
   {| o_name := string_null; o_init := conf_server_init; o_make_default := None; o_option := [] |}].

(* src/src/dn_conf.cpp:113-116 (get_dn_conf_object) *)
Definition get_dn_conf_object : list (conf_object_t (St := St)) := dn_conf_objects.

(** From the text of the file to the server's object: what [cycle_init] does of it. *)
(* src/src/dn_cycle.cpp:66-92 (cycle_init) *)
Definition configure (image : items conf_variable_t -> list Z) (page_size : Z) (p : ptr) (file : string_t) (io : file_io) (s : St) : option (option block * conf_context_t (St := St) * St) :=
  '(ctx, s) ← conf_context_create p s;
  ctx ← ctx;
  '(rc, ctx, s) ← conf_context_init ctx file get_dn_conf_object s;
  if negb (rc =? NGX_OK) then Some (None, ctx, s)
  else
    '(rc, ctx, s) ← conf_context_parse image page_size io ctx s;
    if negb (rc =? NGX_OK) then Some (None, ctx, s)
    else b ← conf_get_parsed_obj ctx (string_make "Server"); Some (b, ctx, s).

End Server.

(** ** The defaults *)

(** The four bytes at [key]. *)
Definition word_at (key : nat) (mem : list Z) : Z := unle (take 4 (drop key mem)).

(** Nothing changed outside the places that satisfy [P]. *)
Definition outside (P : nat -> Prop) (mem mem' : list Z) : Prop := length mem' = length mem /\ forall j, ~ P j -> mem' !! j = mem !! j.

Lemma outside_part P mem mem' from n : outside P mem mem' -> (forall j, (from <= j < from + n)%nat -> ~ P j) -> take n (drop from mem') = take n (drop from mem).
Proof.
  intros [_ H] Hp. apply list_eq. intros k. destruct (decide (k < n)%nat) as [Hk | Hk]; [|by rewrite !lookup_take_ge by lia].
  rewrite !lookup_take_lt, !lookup_drop by done. apply H, Hp. lia.
Qed.

Lemma outside_trans P Q mem mem' mem'' : outside P mem mem' -> outside Q mem' mem'' -> outside (fun j => P j \/ Q j) mem mem''.
Proof. intros [L1 H1] [L2 H2]. split; [congruence |]. intros j Hj. rewrite H2, H1 by tauto. done. Qed.

Lemma outside_weaken (P Q : nat -> Prop) mem mem' : outside P mem mem' -> (forall j, P j -> Q j) -> outside Q mem mem'.
Proof. intros [L1 H1] H. split; [done |]. intros j Hj. apply H1. by intros ?%H. Qed.

(** A default goes where it is sent, if nothing is there. *)
Lemma set_def_int_spec key value mem : (key + 4 <= length mem)%nat -> 0 <= value < 2 ^ 32 ->
  exists mem', set_def_int key value mem = Some mem' /\ outside (fun j => key <= j < key + 4)%nat mem mem' /\
    word_at key mem' = if word_at key mem =? CONF_SIZE_NOT_SET then value else word_at key mem.
Proof.
  intros Hk Hv. unfold set_def_int, word_at. rewrite (proj2 (Nat.leb_le _ _) Hk). eexists. split; [reflexivity |].
  destruct (_ =? _); [|done]. assert (length (take key mem) = key) as Ht by (rewrite length_take; lia). split; [split|].
  - rewrite !length_app, length_le, length_drop, Ht. lia.
  - intros j Hj. destruct (decide (j < key)%nat); [rewrite lookup_app_l, lookup_take_lt by lia; done |].
    rewrite app_assoc, lookup_app_r by (rewrite length_app, length_le; lia). rewrite length_app, length_le, Ht, lookup_drop. f_equal. lia.
  - rewrite drop_app_length' by done. rewrite take_app_length' by (by rewrite length_le). rewrite unle_le, Z.mod_small; [done |]. change (256 ^ Z.of_nat 4) with (2 ^ 32). lia.
Qed.

Lemma set_def_int_behind key value mem : (length mem < key + 4)%nat -> set_def_int key value mem = None.
Proof. intros Hl. unfold set_def_int. by rewrite (proj2 (Nat.leb_gt _ _) Hl). Qed.

(** Where the defaults of the variable at [var] go: twelve bytes of the name of the third
    variable behind it. *)
Definition stray (var j : nat) : Prop := (var + 172 <= j < var + 184)%nat.

Lemma make_default_spec mem var :
  if (var + 184 <=? length mem)%nat then
    exists mem', conf_server_make_default mem var = Some (NGX_OK, mem') /\ outside (stray var) mem mem' /\
      word_at (var + 172) mem' = if word_at (var + 172) mem =? 0 then 65536 else word_at (var + 172) mem
  else conf_server_make_default mem var = None.
Proof.
  unfold conf_server_make_default. change (Z.to_nat (offsetof recv_buff_len)) with 172%nat. change (Z.to_nat (offsetof send_buff_len)) with 176%nat.
  change (Z.to_nat (offsetof max_tqueue_len)) with 180%nat. cbv zeta. destruct (Nat.leb_spec (var + 184) (length mem)) as [Hl | Hl].
  - destruct (set_def_int_spec (var + 172) DEF_RBUFF_LEN mem) as (m1 & -> & O1 & W1); [lia | done |]. cbn [mbind option_bind]. pose proof O1 as [L1 _].
    destruct (set_def_int_spec (var + 176) DEF_SBUFF_LEN m1) as (m2 & -> & O2 & _); [lia | done |]. cbn [mbind option_bind]. pose proof O2 as [L2 _].
    destruct (set_def_int_spec (var + 180) DEF_MMAX_TQUEUE_LEN m2) as (m3 & -> & O3 & _); [lia | done |]. cbn [mbind option_bind]. exists m3. split; [done |]. split.
    + eapply outside_weaken; [exact (outside_trans _ _ _ _ _ (outside_trans _ _ _ _ _ O1 O2) O3) |]. unfold stray. intros j. lia.
    + refine (eq_trans _ W1). unfold word_at. rewrite (outside_part _ _ _ _ 4 O3) by (intros; lia). by rewrite (outside_part _ _ _ _ 4 O2) by (intros; lia).
  - destruct (decide (var + 176 <= length mem)%nat); [|by rewrite set_def_int_behind by lia].
    destruct (set_def_int_spec (var + 172) DEF_RBUFF_LEN mem) as (m1 & -> & [L1 _] & _); [lia | done |]. cbn [mbind option_bind].
    destruct (decide (var + 180 <= length mem)%nat); [|by rewrite set_def_int_behind by lia].
    destruct (set_def_int_spec (var + 176) DEF_SBUFF_LEN m1) as (m2 & -> & [L2 _] & _); [lia | done |]. cbn [mbind option_bind].
    by rewrite set_def_int_behind by lia.
Qed.

(** The slots of the array keep all but the names of the slots behind the third. *)
Lemma slot_part_slot i from n mem : slot_part i from n mem = take n (drop (56 * i + from) mem).
Proof. done. Qed.

Lemma kept_outside n P mem mem' : outside P mem mem' -> (forall i j, (56 * i + 16 <= j < 56 * i + 56)%nat -> ~ P j) -> parts_kept n mem mem' = true.
Proof.
  intros Ho Hp. unfold parts_kept. apply forallb_forall. intros i _. apply bool_decide_eq_true. rewrite !slot_part_slot. apply (outside_part _ _ _ _ _ Ho).
  intros j Hj. apply (Hp i). lia.
Qed.

(** Those of [make_default] of the [k] variables from [i] on. *)
Definition strays (i k j : nat) : Prop := exists v, (i <= v < i + k)%nat /\ stray (56 * v) j.

Lemma make_defaults_spec n fns : forall i mem, Forall (fun f => f = Some conf_server_make_default) fns ->
  if (56 * (i + length fns) + 128 <=? length mem)%nat then
    exists mem', make_defaults n fns i mem = Some (NGX_OK, mem') /\ outside (strays i (length fns)) mem mem' /\
      forall v, (i <= v < i + length fns)%nat -> word_at (56 * v + 172) mem' = if word_at (56 * v + 172) mem =? 0 then 65536 else word_at (56 * v + 172) mem
  else fns <> [] -> make_defaults n fns i mem = None.
Proof.
  induction fns as [|f fns IH]; intros i mem Hf.
  - destruct (_ <=? _)%nat; [|done]. exists mem. split; [done |]. split; [done | cbn; lia].
  - apply Forall_cons in Hf as [-> Hf]. cbn [make_defaults length]. change (Z.to_nat sizeof_conf_variable * i)%nat with (56 * i)%nat. pose proof (make_default_spec mem (56 * i)) as Hd.
    destruct (Nat.leb_spec (56 * i + 184) (length mem)) as [Hl | Hl].
    + destruct Hd as (m1 & -> & O1 & W1). cbn [mbind option_bind]. pose proof O1 as [L1 _].
      assert (parts_kept n mem m1 = true) as -> by (apply (kept_outside _ _ _ _ O1); unfold stray; intros; lia). cbn [negb Z.eqb NGX_OK].
      specialize (IH (S i) m1 Hf). rewrite L1 in IH. replace (56 * (S i + length fns) + 128)%nat with (56 * (i + S (length fns)) + 128)%nat in IH by lia.
      destruct (Nat.leb_spec (56 * (i + S (length fns)) + 128) (length mem)) as [Hn | Hn].
      * destruct IH as (m2 & -> & O2 & W2). exists m2. split; [done |]. split.
        -- eapply outside_weaken; [exact (outside_trans _ _ _ _ _ O1 O2) |]. intros j [Hj | (v & Hv & Hj)]; [exists i | exists v]; (split; [lia | done]).
        -- intros v Hv. destruct (decide (v = i)) as [-> | Hne].
           ++ refine (eq_trans _ W1). unfold word_at. f_equal. apply (outside_part _ _ _ _ _ O2). intros j Hj (v & Hv' & Hs). unfold stray in Hs. lia.
           ++ rewrite W2 by lia. assert (word_at (56 * v + 172) m1 = word_at (56 * v + 172) mem) as ->; [|done].
              unfold word_at. f_equal. apply (outside_part _ _ _ _ _ O1). unfold stray. intros j Hj. lia.
      * intros _. destruct fns as [|f fns]; [cbn in Hn; lia |]. by apply IH.
    + rewrite Hd. destruct (Nat.leb_spec (56 * (i + S (length fns)) + 128) (length mem)); [lia | done].
Qed.

Section Defaults.

Context {St : Type} `{Storage St}.

Lemma rename_objects mem mem' (vs : list (conf_variable_t (St := St))) : forall f,
  (fun v => conf (v_slot v)) <$> imap (fun i => rename mem mem' (f + i)%nat) vs = (fun v => conf (v_slot v)) <$> vs /\
  forall w, find_parsed (imap (fun i => rename mem mem' (f + i)%nat) vs) w = find_parsed vs w.
Proof using.
  induction vs as [|v vs IH]; intros f; [done |]. rewrite imap_cons. destruct (IH (S f)) as [IH1 IH2].
  assert (imap ((fun i => rename mem mem' (f + i)%nat) ∘ S) vs = imap (fun i => rename mem mem' (S f + i)%nat) vs) as ->.
  { apply imap_ext. intros i x _. cbn. f_equal. lia. }
  rewrite !fmap_cons, IH1. split; [done |]. intros w. cbn [find_parsed rename v_slot obj_name conf]. by rewrite IH2.
Qed.

(** C19. The defaults never reach an object. [conf_make_objects_default] gives [make_default] the
    address of a variable in the array, where an object is expected. Whatever the array of
    variables, all of the class [Server], holds - the pointers in it, and the slots not in use -, the defaults end up
    in the name of the third slot behind each variable: the upper half of its length gets the
    64 KB meant for [recv_buff_len] of the object if it is zero. No variable loses its class,
    its object, its options or its [make_default], every object is found as before and is as its options have
    set it, and the first three variables keep their names. That is so as long as the array has
    three more slots than variables; when it has not, the last defaults are written behind the
    array. *)
Theorem defaults_never_reach mem (ctx : conf_context_t (St := St)) a :
  let vs := elems (vars ctx) in
  arr (vars ctx) = Some a -> vs <> [] -> Forall (fun v => v_make_default v = Some conf_server_make_default) vs ->
  Z.of_nat (length mem) = sizeof_conf_variable * nalloc a ->
  if Z.of_nat (length vs) + 3 <=? nalloc a then
    exists ctx' mem', conf_make_objects_default mem ctx = Some (NGX_OK, ctx', mem') /\
      (fun v => conf (v_slot v)) <$> elems (vars ctx') = (fun v => conf (v_slot v)) <$> vs /\
      (forall w, conf_get_parsed_obj ctx' w = conf_get_parsed_obj ctx w) /\
      (forall i, (i < 3)%nat -> (fun v => name (v_slot v)) <$> elems (vars ctx') !! i = (fun v => name (v_slot v)) <$> vs !! i) /\
      (forall i, (i < length vs)%nat -> slot_part i 16 40 mem' = slot_part i 16 40 mem /\
        word_at (56 * (i + 3) + 4) mem' = if word_at (56 * (i + 3) + 4) mem =? 0 then 65536 else word_at (56 * (i + 3) + 4) mem)
  else conf_make_objects_default mem ctx = None.
Proof using.
  intros vs Ha Hne Hv Hm. unfold sizeof_conf_variable in Hm. pose proof (make_defaults_spec (length vs) (v_make_default <$> vs) 0 mem) as Hd.
  rewrite length_fmap in Hd. cbn [Nat.add] in Hd. specialize (Hd (proj2 (Forall_fmap _ _ _) (Forall_impl _ _ _ Hv (fun _ E => E)))).
  unfold conf_make_objects_default. rewrite Ha. cbn [mbind option_bind]. fold vs.
  destruct (Nat.leb_spec (56 * length vs + 128) (length mem)) as [Hl | Hl]; destruct (Z.leb_spec (Z.of_nat (length vs) + 3) (nalloc a)) as [Hn | Hn]; try lia.
  - destruct Hd as (mem' & -> & O & W). cbn [mbind option_bind]. eexists _, mem'. split; [reflexivity |]. cbn [with_vars vars elems].
    destruct (rename_objects mem mem' vs 0) as [R1 R2]. split; [exact R1 |]. split; [exact R2 |]. split.
    + intros i Hi. rewrite list_lookup_imap. destruct (vs !! i) as [v|]; [|done]. cbn. f_equal. rewrite bool_decide_true; [done |].
      rewrite !slot_part_slot. apply (outside_part _ _ _ _ _ O). intros j Hj (k & Hk & Hs). unfold stray in Hs. lia.
    + intros i Hi. split.
      * rewrite !slot_part_slot. apply (outside_part _ _ _ _ _ O). intros j Hj (k & Hk & Hs). unfold stray in Hs. lia.
      * replace (56 * (i + 3) + 4)%nat with (56 * i + 172)%nat by lia. apply W. lia.
  - rewrite Hd; [done |]. by destruct vs.
Qed.

End Defaults.

(** ** The repository's file *)

(** The double quotes of the text are written as carets. *)
Definition text (s : string) : list Z := (fun c => if c =? 94 then 34 else c) <$> ascii_bytes s.

Definition sample : list Z := text "Server server;
server.daemon = ALLOW;
server.workers = 1;
server.connections = 65536;
server.bind_for_cli = ^0.0.0.0:8500^; #datanode own ips
server.ns_srv = ^0.0.0.0:8001^; # ns0_ip:ns0_port,ns1_ip:ns1_port,ns2_ip:ns2_port,...
server.listen_for_other_dn = ^0.0.0.0:8501^; # this port used for conn dn
server.my_paxos = ^0.0.0.0:8005^; # dn's paxos ip port

server.data_dir = ^/home/ginux/opendfs/data/datanode/block^; # /data01/block,/data02/block,/data03/block,...
server.error_log = ^/home/ginux/opendfs/data/datanode/logs/error.log^;
server.pid_file = ^/home/ginux/opendfs/data/datanode/pid/datanode.pid^;
server.coredump_dir = ^/home/ginux/opendfs/data/datanode/coredump/^;
server.log_level = LOG_INFO;
server.recv_buff_len = 64KB;
server.send_buff_len = 64KB;
server.max_tqueue_len = 1000;
server.heartbeat_interval = 3; # second
server.block_report_interval = 3600; # second
".

#[local] Existing Instance test_storage.

(** The array in memory: the length of each name, pointers that are not null, and zeros in the
    slots that are not in use. *)
Definition test_image (l : items (conf_variable_t (St := heap))) : list Z :=
  let used := elems l ≫= fun v => le 8 (default 0 (len <$> name (v_slot v))) ++ repeat 1 48 in
  used ++ repeat 0 (match arr l with Some a => Z.to_nat (sizeof_conf_variable * nalloc a) | None => 0%nat end - length used).

Definition run_conf (t : list Z) : option (option block * conf_context_t (St := heap) * heap) :=
  let '(p, h) := pool_create (fun _ => bump 16) 65536 4096 empty_heap in configure test_image 4096 p (string_make "config.conf") (Mapped t) h.

Definition field (f : server_field) (t : list Z) : option Z := '(b, _, _) ← run_conf t; b ← b; peek 4 (offsetof f) b.
Definition string_field (f : server_field) (t : list Z) : option (list Z) := '(b, _, _) ← run_conf t; b ← b; x ← strings b !! offsetof f; data x.

Example sample_parses :
  (fun f => field f sample) <$> [daemon; worker_n; connection_n; log_level; recv_buff_len; send_buff_len; max_tqueue_len; heartbeat_interval; block_report_interval] =
    Some <$> [1; 1; 65536; 6; 65536; 65536; 1000; 3; 3600] /\
  string_field ns_srv sample = Some (ascii_bytes "0.0.0.0:8001" ++ [0]) /\ string_field pid_file sample = Some (ascii_bytes "/home/ginux/opendfs/data/datanode/pid/datanode.pid" ++ [0]).
Proof. vm_compute. done. Qed.

(** What the file does not set is zero, whatever the defaults say. *)
Example default_lost : field recv_buff_len (text "Server server; server.workers = 2;") = Some 0.
Proof. vm_compute. reflexivity. Qed.

(** A size that is set after the field behind it clears that field. *)
Example size_clears_next :
  field max_tqueue_len (text "Server server; server.max_tqueue_len = 1000; server.send_buff_len = 64KB;") = Some 0 /\
  field max_tqueue_len (text "Server server; server.send_buff_len = 64KB; server.max_tqueue_len = 1000;") = Some 1000.
Proof. vm_compute. done. Qed.

(** How many blocks the configuration has left behind. *)
Definition blocks_left (t : list Z) : option nat := '(_, _, h) ← run_conf t; Some (size (live h)).

(** An error in the character loop leaves the temporary pool, an error later does not. *)
Example temporary_pool_leaks : blocks_left (text "Server#") = Some 2%nat /\ blocks_left (text "Server;") = Some 1%nat.
Proof. vm_compute. done. Qed.

Definition one_server : conf_context_t (St := heap) := {|
  pool := 1%N; conf_line := None; conf_objects := dn_conf_objects; file_name := string_null;
  vars := {|
    arr := Some {| elts := 1%N; nelts := 1; a_size := 56; nalloc := 32; a_pool := 1%N |};
    elems := [{| v_slot := {| name := Some (string_make "server"); obj_name := string_make "Server";
                              conf := {| raw := repeat 0 208; strings := empty_strings; binds := ∅; ints := ∅; percents := ∅ |} |};
                 v_option := conf_server_option; v_make_default := Some conf_server_make_default |}] |}
|}.

(** Given an object, [make_default] does what it is for. *)
Example defaults_of_an_object :
  (fun r => (word_at 172 r.2, word_at 176 r.2, word_at 180 r.2)) <$> conf_server_make_default (repeat 0 208) 0%nat = Some (65536, 65536, 1000) /\
  (fun r => (word_at 172 r.2, word_at 176 r.2, word_at 180 r.2)) <$> conf_server_make_default (repeat 7 208) 0%nat = Some (117901063, 117901063, 117901063).
Proof. vm_compute. done. Qed.

Lemma defaults_never_reach_witness :
  exists ctx' mem', conf_make_objects_default (test_image (vars one_server)) one_server = Some (NGX_OK, ctx', mem') /\
    conf_get_parsed_obj ctx' (string_make "Server") = conf_get_parsed_obj one_server (string_make "Server") /\ word_at (56 * 3 + 4) mem' = 65536.
Proof.
  destruct (defaults_never_reach (test_image (vars one_server)) one_server {| elts := 1%N; nelts := 1; a_size := 56; nalloc := 32; a_pool := 1%N |})
    as (ctx' & mem' & H1 & _ & H2 & _ & H3).
  - reflexivity.
  - discriminate.
  - constructor; [reflexivity | constructor].
  - vm_compute. reflexivity.
  - exists ctx', mem'. split; [exact H1 |]. split; [apply H2 |]. destruct (H3 0%nat) as [_ Hw]; [cbn; lia |]. exact Hw.
Defined.
