(* ===== verification/Lock.v ===== *)
(** * Locks ([src/core/dfs_lock.cpp])

    The lock functions report through a [dfs_lock_errno_t], [None] for a null pointer. The
    atomic lock is a word in shared memory: its operations are programs of single accesses
    to that word, so that those of several threads can be interleaved. The process locks
    block signals and call the pthread functions, which are parameters: the classes
    [Signals], [Mutexes] and [Rwlocks]. *)

From stdpp Require Import strings.
From S2P Require Import Prelude Memory MemoryPool Allocator.

Definition DFS_LOCK_ERROR : Z := -1.
Definition DFS_LOCK_OK : Z := 0.
Definition DFS_LOCK_OFF : Z := 1.
Definition DFS_LOCK_ON : Z := 2.

(** ** Errors *)

(** [err_allocator] is an address; the only allocator is the one whose table is the instance
    of [Allocator]. *)
(* src/src/core/dfs_lock.h:80-86 (dfs_lock_errno_t) *)
Record lock_error := { syscall_errno : Z; lock_errno : Z; allocator_errno : Z; err_allocator : ptr }.

Definition DFS_LOCK_ERR_NONE : Z := 0.
Definition DFS_LOCK_ERR_START : Z := 100.
Definition DFS_LOCK_ERR_PARAM : Z := 101.
Definition DFS_LOCK_ERR_ALLOCATOR_ERROR : Z := 102.
Definition DFS_LOCK_ERR_SYSCALL_MUTEXATTR_INIT : Z := 103.
Definition DFS_LOCK_ERR_SYSCALL_MUTEXATTR_SETPSHARED : Z := 104.
Definition DFS_LOCK_ERR_SYSCALL_MUTEX_INIT : Z := 105.
Definition DFS_LOCK_ERR_SYSCALL_MUTEXATTR_DESTROY : Z := 106.
Definition DFS_LOCK_ERR_SYSCALL_MUTEX_DESTROY : Z := 107.
Definition DFS_LOCK_ERR_SYSCALL_MUTEX_LOCK : Z := 108.
Definition DFS_LOCK_ERR_SYSCALL_MUTEX_TRYLOCK : Z := 109.
Definition DFS_LOCK_ERR_SYSCALL_MUTEX_UNLOCK : Z := 110.
Definition DFS_LOCK_ERR_SYSCALL_SIGPROCMASK : Z := 111.
Definition DFS_LOCK_ERR_SYSCALL_RWLOCKATTR_INIT : Z := 112.
Definition DFS_LOCK_ERR_SYSCALL_RWLOCKATTR_SETPSHARED : Z := 113.
Definition DFS_LOCK_ERR_SYSCALL_RWLOCK_INIT : Z := 114.
Definition DFS_LOCK_ERR_SYSCALL_RWLOCKATTR_DESTROY : Z := 115.
Definition DFS_LOCK_ERR_SYSCALL_RWLOCK_DESTROY : Z := 116.
Definition DFS_LOCK_ERR_SYSCALL_RWLOCK_RDLOCK : Z := 117.
Definition DFS_LOCK_ERR_SYSCALL_RWLOCK_UNLOCK : Z := 118.
Definition DFS_LOCK_ERR_SYSCALL_RWLOCK_WRLOCK : Z := 119.
Definition DFS_LOCK_ERR_SYSCALL_RWLOCK_TRYWRLOCK : Z := 120.
Definition DFS_LOCK_ERR_END : Z := 121.

(** The macros [DFS_LOCK_ERRNO_CLEAN] and [DFS_LOCK_ERRNO_ALLOCATOR]. *)
(* src/src/core/dfs_lock.cpp:6-10 (DFS_LOCK_ERRNO_CLEAN) *)
Definition clean : lock_error :=
  {| syscall_errno := 0; lock_errno := DFS_LOCK_ERR_NONE; allocator_errno := DFS_LOCK_ERR_NONE; err_allocator := nullptr |}.

(* src/src/core/dfs_lock.cpp:12-13 (DFS_LOCK_ERRNO_ALLOCATOR) *)
Definition with_err_allocator (a : ptr) (e : lock_error) : lock_error :=
  {| syscall_errno := syscall_errno e; lock_errno := lock_errno e; allocator_errno := allocator_errno e; err_allocator := a |}.

Definition with_lock_errno (c : Z) (e : lock_error) : lock_error :=
  {| syscall_errno := syscall_errno e; lock_errno := c; allocator_errno := allocator_errno e; err_allocator := err_allocator e |}.

Definition with_syscall_errno (c : Z) (e : lock_error) : lock_error :=
  {| syscall_errno := c; lock_errno := lock_errno e; allocator_errno := allocator_errno e; err_allocator := err_allocator e |}.

Definition with_allocator_errno (c : Z) (e : lock_error) : lock_error :=
  {| syscall_errno := syscall_errno e; lock_errno := lock_errno e; allocator_errno := c; err_allocator := err_allocator e |}.

(* src/src/core/dfs_lock.cpp:20-44 (dfs_lock_err_string) *)
Definition dfs_lock_err_string : list (option string) :=
  [ Some "dfs_lock: unknown error number"; Some "dfs_lock: parameter error"; Some "dfs_lock: allocator error";
    Some "dfs_lock: mutex attribute init error"; Some "dfs_lock: mutex attribute setpshared error";
    Some "dfs_lock: mutex init error"; Some "dfs_lock: mutex attribute destroy error";
    Some "dfs_lock: mutex destroy error"; Some "dfs_lock: mutex lock error"; Some "dfs_lock: mutex try lock error";
    Some "dfs_lock: mutex unlock error"; Some "dfs_lock: sigprocmask error"; Some "dfs_lock: rwlock attribute init error";
    Some "dfs_lock: rwlock attribute setpshared error"; Some "dfs_lock: rwlock init error";
    Some "dfs_lock: rwlock attribute destroy error"; Some "dfs_lock: rwlock destroy error";
    Some "dfs_lock: rwlock reading lock error"; Some "dfs_lock: rwlock unlock error";
    Some "dfs_lock: rwlock writing lock error"; Some "dfs_lock: rwlock writing try lock error"; None ]%string.

(** [strerror] is the C function, [allocator_strerror] the field of the allocator's table,
    which may be null. The result [None] is a read outside the table or a null string. *)
(* src/src/core/dfs_lock.cpp:819-847 (dfs_lock_strerror) *)
Definition dfs_lock_strerror (strerror : Z -> string) (allocator_strerror : option (Z -> option string)) (error : option lock_error) : option string :=
  let str i := mjoin (dfs_lock_err_string !! Z.to_nat i) in
  match error with
  | None => str 0
  | Some e =>
      if (lock_errno e <=? DFS_LOCK_ERR_START) || (DFS_LOCK_ERR_END <=? lock_errno e) then str 0
      else
        match allocator_strerror with
        | Some f => if (lock_errno e =? DFS_LOCK_ERR_ALLOCATOR_ERROR) && negb (bool_decide (err_allocator e = nullptr)) then f (allocator_errno e)
                    else if (DFS_LOCK_ERR_SYSCALL_MUTEXATTR_INIT <=? lock_errno e) && (lock_errno e <=? DFS_LOCK_ERR_SYSCALL_RWLOCK_TRYWRLOCK) then Some (strerror (syscall_errno e))
                    else str (lock_errno e - DFS_LOCK_ERR_START)
        | None => if (DFS_LOCK_ERR_SYSCALL_MUTEXATTR_INIT <=? lock_errno e) && (lock_errno e <=? DFS_LOCK_ERR_SYSCALL_RWLOCK_TRYWRLOCK) then Some (strerror (syscall_errno e))
                  else str (lock_errno e - DFS_LOCK_ERR_START)
        end
  end.

(** ** The atomic lock *)

(** What a thread does to the word of a lock, one access at a time. [Spin old set p] is
    [while (!CAS(&lock, old, set));] before [p]. *)
Inductive access (R : Type) : Type :=
  | Return (r : R)
  | Load (k : Z -> access R)
  | Store (v : Z) (p : access R)
  | Cas (old set : Z) (k : bool -> access R)
  | Spin (old set : Z) (p : access R).
Arguments Return {R} _.
Arguments Load {R} _.
Arguments Store {R} _ _.
Arguments Cas {R} _ _ _.
Arguments Spin {R} _ _ _.

(* src/src/core/dfs_lock.cpp:46-57 (cmp_and_swap) *)
Definition CAS (word old set : Z) : bool * Z := if word =? old then (true, set) else (false, word).

(** One access; a program that has returned makes none. *)
Definition access_step {R} (p : access R) (word : Z) : option (access R * Z) :=
  match p with
  | Return _ => None
  | Load k => Some (k word, word)
  | Store v p => Some (p, v)
  | Cas old set k => let '(ok, word) := CAS word old set in Some (k ok, word)
  | Spin old set q => let '(ok, word) := CAS word old set in Some (if ok then q else p, word)
  end.

(** A thread alone with the lock, for at most [n] accesses. *)
Fixpoint alone {R} (n : nat) (p : access R) (word : Z) : option (R * Z) :=
  match p with
  | Return r => Some (r, word)
  | _ => match n with O => None | S n => '(p, word) ← access_step p word; alone n p word end
  end.

(* src/src/core/dfs_lock.h:74-78 (dfs_atomic_lock_t) *)
Record atomic_lock := { word : Z; allocator : ptr }.

(** The prologue of the operations on a lock: its argument is [None] for a null pointer,
    else the allocator of the lock, which only creation writes. *)
Definition checked (error : option lock_error) (lk : option ptr) (body : lock_error -> access (Z * lock_error)) : access (Z * option lock_error) :=
  match error with
  | None => Return (DFS_LOCK_ERROR, None)
  | Some _ =>
      match lk with
      | None => Return (DFS_LOCK_ERROR, Some (with_lock_errno DFS_LOCK_ERR_PARAM clean))
      | Some a =>
          (fix run p := match p with
            | Return (r, e) => Return (r, Some e)
            | Load k => Load (fun w => run (k w))
            | Store v p => Store v (run p)
            | Cas old set k => Cas old set (fun b => run (k b))
            | Spin old set p => Spin old set (run p)
            end) (body (with_err_allocator a clean))
      end
  end.

(* src/src/core/dfs_lock.cpp:366-371 (dfs_atomic_lock_init) *)
Definition dfs_atomic_lock_init : access Z := Store DFS_LOCK_OFF (Return DFS_LOCK_OK).

(* src/src/core/dfs_lock.cpp:406-427 (dfs_atomic_lock_reset) *)
Definition dfs_atomic_lock_reset (lk : option ptr) (error : option lock_error) : access (Z * option lock_error) :=
  checked error lk (fun e => Store DFS_LOCK_OFF (Return (DFS_LOCK_OK, e))).

(* src/src/core/dfs_lock.cpp:429-451 (dfs_atomic_lock_try_on) *)
Definition dfs_atomic_lock_try_on (lk : option ptr) (error : option lock_error) : access (Z * option lock_error) :=
  checked error lk (fun e =>
    Load (fun w =>
      if w =? DFS_LOCK_OFF then Cas DFS_LOCK_OFF DFS_LOCK_ON (fun ok => Return (if ok : bool then DFS_LOCK_ON else DFS_LOCK_OFF, e))
      else Return (DFS_LOCK_OFF, e))).

(* src/src/core/dfs_lock.cpp:453-475 (dfs_atomic_lock_on) *)
Definition dfs_atomic_lock_on (lk : option ptr) (error : option lock_error) : access (Z * option lock_error) :=
  checked error lk (fun e => Spin DFS_LOCK_OFF DFS_LOCK_ON (Return (DFS_LOCK_ON, e))).

(* src/src/core/dfs_lock.cpp:477-504 (dfs_atomic_lock_off) *)
Definition dfs_atomic_lock_off (lk : option ptr) (error : option lock_error) : access (Z * option lock_error) :=
  checked error lk (fun e =>
    Load (fun w =>
      if w =? DFS_LOCK_OFF then Return (DFS_LOCK_OFF, e)
      else Spin DFS_LOCK_ON DFS_LOCK_OFF (Return (DFS_LOCK_OFF, e)))).

(* src/src/core/dfs_lock.cpp:849-852 (dfs_atomic_lock_off_force) *)
Definition dfs_atomic_lock_off_force : access unit := Store DFS_LOCK_OFF (Return tt).

(** ** Creation and release of atomic locks *)

Section Owned.

Context {A : Type} {table_of : Allocator A}.

Definition sizeof_atomic_lock : Z := 16.

(** The allocator is [nullptr] or the address of the table; the lock is given with its
    address. *)
(* src/src/core/dfs_lock.cpp:331-364 (dfs_atomic_lock_create) *)
Definition dfs_atomic_lock_create (alloc_at : ptr) (error : option lock_error) (a : A) : option (option (ptr * atomic_lock) * option lock_error * A) :=
  match error with
  | None => Some (None, None, a)
  | Some _ =>
      let e := with_err_allocator alloc_at clean in
      if bool_decide (alloc_at = nullptr) then Some (None, Some (with_lock_errno DFS_LOCK_ERR_PARAM e), a)
      else
        '(p, ae, a) ← a_alloc sizeof_atomic_lock (allocator_errno e) a;
        let e := with_allocator_errno ae e in
        if bool_decide (p = nullptr) then Some (None, Some (with_lock_errno DFS_LOCK_ERR_ALLOCATOR_ERROR e), a)
        else Some (Some (p, {| word := DFS_LOCK_OFF; allocator := alloc_at |}), Some e, a)
  end.

(* src/src/core/dfs_lock.cpp:373-404 (dfs_atomic_lock_release) *)
Definition dfs_atomic_lock_release (lk : option (ptr * atomic_lock)) (error : option lock_error) (a : A) : option (Z * option lock_error * A) :=
  match error with
  | None => Some (DFS_LOCK_ERROR, None, a)
  | Some _ =>
      match lk with
      | None => Some (DFS_LOCK_ERROR, Some (with_lock_errno DFS_LOCK_ERR_PARAM clean), a)
      | Some (p, l) =>
          if bool_decide (allocator l = nullptr) then Some (DFS_LOCK_ERROR, Some (with_lock_errno DFS_LOCK_ERR_PARAM clean), a)
          else
            let e := with_err_allocator (allocator l) clean in
            f ← a_free;
            '(rc, ae, a) ← f p (allocator_errno e) a;
            let e := with_allocator_errno ae e in
            if rc =? DFS_MEM_ALLOCATOR_ERROR then Some (DFS_LOCK_ERROR, Some (with_lock_errno DFS_LOCK_ERR_ALLOCATOR_ERROR e), a)
            else Some (DFS_LOCK_OK, Some e, a)
      end
  end.

(** ** Process locks *)

Abbreviation sigset := (gset Z).

Definition SIG_BLOCK : Z := 0.
Definition SIG_SETMASK : Z := 2.
Definition PTHREAD_PROCESS_SHARED : Z := 1.

(** [sigprocmask how set mask] with the current [mask]: the result, [errno], the new mask. *)
Class Signals := {
  sigfillset : sigset;
  sigprocmask : Z -> sigset -> sigset -> Z * Z * sigset
}.

(** The pthread functions on an object and its attributes; a result other than zero is an
    error number. Locking gives the state in which it returns. *)
Class Mutexes (M At : Type) := {
  pthread_mutexattr_init : At -> Z * At;
  pthread_mutexattr_setpshared : Z -> At -> Z * At;
  pthread_mutexattr_destroy : At -> Z * At;
  pthread_mutex_init : At -> M -> Z * M;
  pthread_mutex_destroy : M -> Z * M;
  pthread_mutex_lock : M -> Z * M;
  pthread_mutex_trylock : M -> Z * M;
  pthread_mutex_unlock : M -> Z * M
}.

Class Rwlocks (M At : Type) := {
  pthread_rwlockattr_init : At -> Z * At;
  pthread_rwlockattr_setpshared : Z -> At -> Z * At;
  pthread_rwlockattr_destroy : At -> Z * At;
  pthread_rwlock_init : At -> M -> Z * M;
  pthread_rwlock_destroy : M -> Z * M;
  pthread_rwlock_rdlock : M -> Z * M;
  pthread_rwlock_wrlock : M -> Z * M;
  pthread_rwlock_trywrlock : M -> Z * M;
  pthread_rwlock_unlock : M -> Z * M
}.

Context {M At : Type} {signals : Signals}.

(** Both structures: they differ in the types of their first two fields. *)
(* src/src/core/dfs_lock.h:56-72 (dfs_process_lock_t, dfs_process_rwlock_t) *)
Record process_lock := {
  lock : M; attr : At; sig_block_mask : sigset; sig_prev_mask : sigset; lock_allocator : ptr
}.

Definition with_lock (x : M) (l : process_lock) : process_lock :=
  {| lock := x; attr := attr l; sig_block_mask := sig_block_mask l; sig_prev_mask := sig_prev_mask l; lock_allocator := lock_allocator l |}.
Definition with_attr (x : At) (l : process_lock) : process_lock :=
  {| lock := lock l; attr := x; sig_block_mask := sig_block_mask l; sig_prev_mask := sig_prev_mask l; lock_allocator := lock_allocator l |}.
Definition with_block_mask (x : sigset) (l : process_lock) : process_lock :=
  {| lock := lock l; attr := attr l; sig_block_mask := x; sig_prev_mask := sig_prev_mask l; lock_allocator := lock_allocator l |}.
Definition with_prev_mask (x : sigset) (l : process_lock) : process_lock :=
  {| lock := lock l; attr := attr l; sig_block_mask := sig_block_mask l; sig_prev_mask := x; lock_allocator := lock_allocator l |}.
Definition with_lock_allocator (x : ptr) (l : process_lock) : process_lock :=
  {| lock := lock l; attr := attr l; sig_block_mask := sig_block_mask l; sig_prev_mask := sig_prev_mask l; lock_allocator := x |}.

(** The state of a call: the lock, shared, and the signal mask of the calling process. *)
Record lock_state := { the : process_lock; mask : sigset }.

Definition on_lock (f : process_lock -> process_lock) (s : lock_state) : lock_state := {| the := f (the s); mask := mask s |}.

(** The body of a lock function: an early [return] is [inr], the state changed so far stays. *)
Definition locking (X : Type) : Type := lock_error -> lock_state -> (X + Z) * lock_error * lock_state.

#[export] Instance locking_ret : MRet locking := fun X x e s => (inl x, e, s).
#[export] Instance locking_bind : MBind locking := fun X Y k m e s =>
  match m e s with (inl x, e, s) => k x e s | (inr r, e, s) => (inr r, e, s) end.

(** [if ((error->syscall_errno = f(...))) { error->lock_errno = code; return failed; }] *)
Definition pthread_call (code failed : Z) (f : lock_state -> Z * lock_state) : locking unit := fun e s =>
  let '(rc, s) := f s in
  let e := with_syscall_errno rc e in
  if rc =? 0 then (inl tt, e, s) else (inr failed, with_lock_errno code e, s).

Definition on_obj (f : M -> Z * M) (s : lock_state) : Z * lock_state := let '(rc, x) := f (lock (the s)) in (rc, on_lock (with_lock x) s).
Definition on_attr (f : At -> Z * At) (s : lock_state) : Z * lock_state := let '(rc, x) := f (attr (the s)) in (rc, on_lock (with_attr x) s).
Definition init_obj (f : At -> M -> Z * M) (s : lock_state) : Z * lock_state := on_obj (f (attr (the s))) s.

(** [sigprocmask(SIG_BLOCK, &sig_block_mask, &sig_prev_mask)] with its error path: the mask of
    before is stored in the lock. *)
(* src/src/core/dfs_lock.cpp:233-240 (dfs_process_lock_on: sigprocmask) *)
Definition block_signals : locking unit := fun e s =>
  let '(rc, en, m) := sigprocmask SIG_BLOCK (sig_block_mask (the s)) (mask s) in
  if rc =? 0 then (inl tt, e, {| the := with_prev_mask (mask s) (the s); mask := m |})
  else (inr DFS_LOCK_ERROR, with_syscall_errno en (with_lock_errno DFS_LOCK_ERR_SYSCALL_SIGPROCMASK e), s).

(** [sigprocmask(SIG_SETMASK, &sig_prev_mask, NULL)] with its error path. *)
(* src/src/core/dfs_lock.cpp:320-326 (dfs_process_lock_off: sigprocmask) *)
Definition restore_signals : locking unit := fun e s =>
  let '(rc, en, m) := sigprocmask SIG_SETMASK (sig_prev_mask (the s)) (mask s) in
  if rc =? 0 then (inl tt, e, {| the := the s; mask := m |})
  else (inr DFS_LOCK_ERROR, with_syscall_errno en (with_lock_errno DFS_LOCK_ERR_SYSCALL_SIGPROCMASK e), s).

Definition SIGHUP : Z := 1.
Definition SIGINT : Z := 2.
Definition SIGQUIT : Z := 3.
Definition SIGUSR1 : Z := 10.
Definition SIGSEGV : Z := 11.
Definition SIGPIPE : Z := 13.
Definition SIGALRM : Z := 14.
Definition SIGTERM : Z := 15.
Definition SIGCHLD : Z := 17.
Definition SIGIO : Z := 29.

(* src/src/core/dfs_lock.cpp:114-124 (dfs_process_lock_create: sigfillset, sigdelset) *)
Definition block_mask : sigset :=
  sigfillset ∖ {[SIGALRM]} ∖ {[SIGINT]} ∖ {[SIGCHLD]} ∖ {[SIGPIPE]} ∖ {[SIGSEGV]} ∖ {[SIGHUP]} ∖ {[SIGQUIT]} ∖ {[SIGTERM]} ∖ {[SIGIO]} ∖ {[SIGUSR1]}.

Definition set_block_mask : locking unit := fun e s => (inl tt, e, on_lock (with_block_mask block_mask) s).
Definition set_lock_allocator (p : ptr) : locking unit := fun e s => (inl tt, e, on_lock (with_lock_allocator p) s).

(** A call on a lock, [None] for a null pointer; [guard] is the rest of the test of the
    argument. *)
Definition lock_call (guard : process_lock -> bool) (body : locking Z) (lk : option process_lock) (m : sigset) (error : option lock_error)
    : Z * option lock_error * option process_lock * sigset :=
  match error with
  | None => (DFS_LOCK_ERROR, None, lk, m)
  | Some _ =>
      match lk with
      | None => (DFS_LOCK_ERROR, Some (with_lock_errno DFS_LOCK_ERR_PARAM clean), None, m)
      | Some l =>
          if guard l then
            match body (with_err_allocator (lock_allocator l) clean) {| the := l; mask := m |} with
            | (inl r, e, s) | (inr r, e, s) => (r, Some e, Some (the s), mask s)
            end
          else (DFS_LOCK_ERROR, Some (with_lock_errno DFS_LOCK_ERR_PARAM clean), Some l, m)
      end
  end.

Definition any (l : process_lock) : bool := true.

(** ** Process mutexes *)

Context {mutexes : Mutexes M At} {rwlocks : Rwlocks M At}.
Context (sizeof_process_lock sizeof_process_rwlock : Z).

(* src/src/core/dfs_lock.cpp:90-125 (dfs_process_lock_create: after the allocation) *)
Definition mutex_setup : locking Z :=
  _ ← pthread_call DFS_LOCK_ERR_SYSCALL_MUTEXATTR_INIT 0 (on_attr pthread_mutexattr_init);
  _ ← pthread_call DFS_LOCK_ERR_SYSCALL_MUTEXATTR_SETPSHARED 0 (on_attr (pthread_mutexattr_setpshared PTHREAD_PROCESS_SHARED));
  _ ← pthread_call DFS_LOCK_ERR_SYSCALL_MUTEX_INIT 0 (init_obj pthread_mutex_init);
  _ ← set_block_mask; mret 0.

(** A created lock is given with its address. [junk] is what the block holds before it is
    written; nothing is given back to the allocator when a pthread function fails. *)
(* src/src/core/dfs_lock.cpp:59-127 (dfs_process_lock_create) *)
Definition dfs_process_lock_create (junk : process_lock) (alloc_at : ptr) (error : option lock_error) (a : A)
    : option (option (ptr * process_lock) * option lock_error * A) :=
  match error with
  | None => Some (None, None, a)
  | Some _ =>
      if bool_decide (alloc_at = nullptr) then Some (None, Some (with_lock_errno DFS_LOCK_ERR_PARAM clean), a)
      else
        '(p, ae, a) ← a_alloc sizeof_process_lock (allocator_errno clean) a;
        let e := with_allocator_errno ae clean in
        if bool_decide (p = nullptr) then Some (None, Some (with_lock_errno DFS_LOCK_ERR_ALLOCATOR_ERROR e), a)
        else
          match mutex_setup e {| the := with_lock_allocator alloc_at junk; mask := ∅ |} with
          | (inl _, e, s) => Some (Some (p, the s), Some e, a)
          | (inr _, e, s) => Some (None, Some e, a)
          end
  end.

(** The block is given back to the allocator; [failed] is the result when that fails. *)
Definition give_lock_back (failed : Z) (p : ptr) (e : lock_error) (a : A) : option (Z * lock_error * A) :=
  f ← a_free;
  '(rc, ae, a) ← f p (allocator_errno e) a;
  let e := with_allocator_errno ae e in
  Some (if rc =? DFS_MEM_ALLOCATOR_ERROR then (failed, with_lock_errno DFS_LOCK_ERR_ALLOCATOR_ERROR e, a) else (DFS_LOCK_OK, e, a)).

(** Both release functions: after [body] the block is given back. *)
Definition release_call (body : locking Z) (failed : Z) (p : ptr) (lk : option process_lock) (m : sigset) (error : option lock_error) (a : A)
    : option (Z * option lock_error * sigset * A) :=
  let '(r, err, _, m) := lock_call (fun l => negb (bool_decide (lock_allocator l = nullptr))) body lk m error in
  match err with
  | Some e => if r =? DFS_LOCK_OK then '(r, e, a) ← give_lock_back failed p e a; Some (r, Some e, m, a) else Some (r, err, m, a)
  | None => Some (r, err, m, a)
  end.

(** An allocator that fails is reported by the error number only. *)
(* src/src/core/dfs_lock.cpp:129-182 (dfs_process_lock_release) *)
Definition dfs_process_lock_release : ptr -> option process_lock -> sigset -> option lock_error -> A -> option (Z * option lock_error * sigset * A) :=
  release_call
    (_ ← restore_signals;
     _ ← pthread_call DFS_LOCK_ERR_SYSCALL_MUTEXATTR_DESTROY DFS_LOCK_ERROR (on_attr pthread_mutexattr_destroy);
     _ ← pthread_call DFS_LOCK_ERR_SYSCALL_MUTEX_DESTROY DFS_LOCK_ERROR (on_obj pthread_mutex_destroy);
     mret DFS_LOCK_OK) DFS_LOCK_OK.

(* src/src/core/dfs_lock.cpp:184-212 (dfs_process_lock_reset) *)
Definition dfs_process_lock_reset : option process_lock -> sigset -> option lock_error -> Z * option lock_error * option process_lock * sigset :=
  lock_call any
    (_ ← pthread_call DFS_LOCK_ERR_SYSCALL_MUTEX_INIT DFS_LOCK_ERROR (init_obj pthread_mutex_init);
     mret DFS_LOCK_OK).

(* src/src/core/dfs_lock.cpp:214-251 (dfs_process_lock_on) *)
Definition dfs_process_lock_on : option process_lock -> sigset -> option lock_error -> Z * option lock_error * option process_lock * sigset :=
  lock_call any
    (_ ← block_signals;
     _ ← pthread_call DFS_LOCK_ERR_SYSCALL_MUTEX_LOCK DFS_LOCK_ERROR (on_obj pthread_mutex_lock);
     mret DFS_LOCK_ON).

(* src/src/core/dfs_lock.cpp:253-291 (dfs_process_lock_try_on) *)
Definition dfs_process_lock_try_on : option process_lock -> sigset -> option lock_error -> Z * option lock_error * option process_lock * sigset :=
  lock_call any
    (_ ← block_signals;
     _ ← pthread_call DFS_LOCK_ERR_SYSCALL_MUTEX_TRYLOCK DFS_LOCK_OFF (on_obj pthread_mutex_trylock);
     mret DFS_LOCK_ON).

(* src/src/core/dfs_lock.cpp:293-329 (dfs_process_lock_off) *)
Definition dfs_process_lock_off : option process_lock -> sigset -> option lock_error -> Z * option lock_error * option process_lock * sigset :=
  lock_call any
    (_ ← pthread_call DFS_LOCK_ERR_SYSCALL_MUTEX_UNLOCK DFS_LOCK_ERROR (on_obj pthread_mutex_unlock);
     _ ← restore_signals;
     mret DFS_LOCK_OFF).

(** ** Process read-write locks *)

(* src/src/core/dfs_lock.cpp:534-556 (dfs_process_rwlock_create: after the allocation) *)
Definition rwlock_setup (failed : Z) : locking unit :=
  _ ← pthread_call DFS_LOCK_ERR_SYSCALL_RWLOCKATTR_INIT failed (on_attr pthread_rwlockattr_init);
  _ ← pthread_call DFS_LOCK_ERR_SYSCALL_RWLOCKATTR_SETPSHARED failed (on_attr (pthread_rwlockattr_setpshared PTHREAD_PROCESS_SHARED));
  pthread_call DFS_LOCK_ERR_SYSCALL_RWLOCK_INIT failed (init_obj pthread_rwlock_init).

(* src/src/core/dfs_lock.cpp:506-575 (dfs_process_rwlock_create) *)
Definition dfs_process_rwlock_create (junk : process_lock) (alloc_at : ptr) (error : option lock_error) (a : A)
    : option (option (ptr * process_lock) * option lock_error * A) :=
  match error with
  | None => Some (None, None, a)
  | Some _ =>
      let e := with_err_allocator alloc_at clean in
      if bool_decide (alloc_at = nullptr) then Some (None, Some (with_lock_errno DFS_LOCK_ERR_PARAM e), a)
      else
        '(p, ae, a) ← a_alloc sizeof_process_rwlock (allocator_errno e) a;
        let e := with_allocator_errno ae e in
        if bool_decide (p = nullptr) then Some (None, Some (with_lock_errno DFS_LOCK_ERR_ALLOCATOR_ERROR e), a)
        else
          match (_ ← rwlock_setup 0; _ ← set_lock_allocator alloc_at; set_block_mask) e {| the := junk; mask := ∅ |} with
          | (inl _, e, s) => Some (Some (p, the s), Some e, a)
          | (inr _, e, s) => Some (None, Some e, a)
          end
  end.

(* src/src/core/dfs_lock.cpp:577-632 (dfs_process_rwlock_release) *)
Definition dfs_process_rwlock_release : ptr -> option process_lock -> sigset -> option lock_error -> A -> option (Z * option lock_error * sigset * A) :=
  release_call
    (_ ← restore_signals;
     _ ← pthread_call DFS_LOCK_ERR_SYSCALL_RWLOCKATTR_DESTROY DFS_LOCK_ERROR (on_attr pthread_rwlockattr_destroy);
     _ ← pthread_call DFS_LOCK_ERR_SYSCALL_RWLOCK_DESTROY DFS_LOCK_ERROR (on_obj pthread_rwlock_destroy);
     mret DFS_LOCK_OK) DFS_LOCK_ERROR.

(* src/src/core/dfs_lock.cpp:634-662 (dfs_process_rwlock_reset) *)
Definition dfs_process_rwlock_reset : option process_lock -> sigset -> option lock_error -> Z * option lock_error * option process_lock * sigset :=
  lock_call any
    (_ ← pthread_call DFS_LOCK_ERR_SYSCALL_RWLOCK_INIT DFS_LOCK_ERROR (init_obj pthread_rwlock_init);
     mret DFS_LOCK_OK).

(* src/src/core/dfs_lock.cpp:664-701 (dfs_process_rwlock_read_on) *)
Definition dfs_process_rwlock_read_on : option process_lock -> sigset -> option lock_error -> Z * option lock_error * option process_lock * sigset :=
  lock_call any
    (_ ← block_signals;
     _ ← pthread_call DFS_LOCK_ERR_SYSCALL_RWLOCK_RDLOCK DFS_LOCK_ERROR (on_obj pthread_rwlock_rdlock);
     mret DFS_LOCK_ON).

(* src/src/core/dfs_lock.cpp:703-738 (dfs_process_rwlock_off) *)
Definition dfs_process_rwlock_off : option process_lock -> sigset -> option lock_error -> Z * option lock_error * option process_lock * sigset :=
  lock_call any
    (_ ← pthread_call DFS_LOCK_ERR_SYSCALL_RWLOCK_UNLOCK DFS_LOCK_ERROR (on_obj pthread_rwlock_unlock);
     _ ← restore_signals;
     mret DFS_LOCK_OFF).

(* src/src/core/dfs_lock.cpp:740-778 (dfs_process_rwlock_write_on) *)
Definition dfs_process_rwlock_write_on : option process_lock -> sigset -> option lock_error -> Z * option lock_error * option process_lock * sigset :=
  lock_call any
    (_ ← block_signals;
     _ ← pthread_call DFS_LOCK_ERR_SYSCALL_RWLOCK_WRLOCK DFS_LOCK_ERROR (on_obj pthread_rwlock_wrlock);
     mret DFS_LOCK_ON).

(* src/src/core/dfs_lock.cpp:780-817 (dfs_process_rwlock_write_try_on) *)
Definition dfs_process_rwlock_write_try_on : option process_lock -> sigset -> option lock_error -> Z * option lock_error * option process_lock * sigset :=
  lock_call any
    (_ ← block_signals;
     _ ← pthread_call DFS_LOCK_ERR_SYSCALL_RWLOCK_TRYWRLOCK DFS_LOCK_ERROR (on_obj pthread_rwlock_trywrlock);
     mret DFS_LOCK_ON).

(** The error record is not cleaned, the lock's allocator not set, its null pointer not
    tested. *)
(* src/src/core/dfs_lock.cpp:874-920 (dfs_process_rwlock_init) *)
Definition dfs_process_rwlock_init (l : process_lock) (error : option lock_error) : Z * option lock_error * process_lock :=
  match error with
  | None => (DFS_LOCK_ERROR, None, l)
  | Some e =>
      match (_ ← rwlock_setup DFS_LOCK_ERROR; _ ← set_block_mask; mret DFS_LOCK_OK) e {| the := l; mask := ∅ |} with
      | (inl r, e, s) | (inr r, e, s) => (r, Some e, the s)
      end
  end.

(** Nothing tests the pointers: the error record must be there, because the result of the
    pthread functions is stored in it. *)
(* src/src/core/dfs_lock.cpp:922-950 (dfs_process_rwlock_destroy) *)
Definition dfs_process_rwlock_destroy (l : process_lock) (m : sigset) (e : lock_error) : Z * lock_error * process_lock * sigset :=
  match (_ ← restore_signals;
         _ ← pthread_call DFS_LOCK_ERR_SYSCALL_RWLOCKATTR_DESTROY DFS_LOCK_ERROR (on_attr pthread_rwlockattr_destroy);
         _ ← pthread_call DFS_LOCK_ERR_SYSCALL_RWLOCK_DESTROY DFS_LOCK_ERROR (on_obj pthread_rwlock_destroy);
         mret DFS_LOCK_OK) e {| the := l; mask := m |} with
  | (inl r, e, s) | (inr r, e, s) => (r, e, the s, mask s)
  end.

(** ** Signal masks *)

(** POSIX: a successful [sigprocmask] adds the set to the mask, or makes it the mask. *)
Class SignalsOk := {
  sigprocmask_block : forall set m en m', sigprocmask SIG_BLOCK set m = (0, en, m') -> m' = m ∪ set;
  sigprocmask_set : forall set m en m', sigprocmask SIG_SETMASK set m = (0, en, m') -> m' = set
}.

(** What a body does to the mask of the caller and to the mask kept in the lock, whatever the
    pthread functions answer. *)
Definition keeps_masks {X} (b : locking X) : Prop := forall e s r e' s', b e s = (r, e', s') ->
  mask s' = mask s /\ sig_prev_mask (the s') = sig_prev_mask (the s) /\ sig_block_mask (the s') = sig_block_mask (the s).

Lemma keeps_ret {X} (x : X) : keeps_masks (mret x).
Proof. intros e s r e' s' [=]. by subst. Qed.

Lemma keeps_call c f g : keeps_masks (pthread_call c f (on_obj g)).
Proof. intros e [l m] r e' s'. unfold pthread_call, on_obj. cbn. destruct (g (lock l)) as [rc x]. by destruct (rc =? 0); intros [= <- <- <-]. Qed.

Lemma bind_inv {X Y} (b : locking X) (k : X -> locking Y) e s r e' s' : (x ← b; k x) e s = (r, e', s') ->
  (exists x e1 s1, b e s = (inl x, e1, s1) /\ k x e1 s1 = (r, e', s')) \/ (exists z, b e s = (inr z, e', s') /\ r = inr z).
Proof. unfold mbind, locking_bind. destruct (b e s) as [[[x | z] e1] s1]; [eauto 6 | intros [= <- <- <-]; eauto]. Qed.

Section Masks.

Context {signals_ok : SignalsOk}.

Lemma block_signals_spec e s r e' s' : block_signals e s = (r, e', s') ->
  match r with
  | inl _ => mask s' = mask s ∪ sig_block_mask (the s) /\ sig_prev_mask (the s') = mask s
  | inr z => z = DFS_LOCK_ERROR /\ s' = s
  end.
Proof.
  unfold block_signals. destruct (sigprocmask _ _ _) as [[rc en] m] eqn:E. destruct (Z.eqb_spec rc 0) as [-> | H]; intros [= <- <- <-]; [| done].
  split; [| done]. by eapply sigprocmask_block.
Qed.

Lemma restore_signals_spec e s r e' s' : restore_signals e s = (r, e', s') ->
  match r with inl _ => mask s' = sig_prev_mask (the s) /\ the s' = the s | inr z => z = DFS_LOCK_ERROR /\ s' = s end.
Proof.
  unfold restore_signals. destruct (sigprocmask _ _ _) as [[rc en] m] eqn:E. destruct (Z.eqb_spec rc 0) as [-> | H]; intros [= <- <- <-]; [| done].
  split; [| done]. by eapply sigprocmask_set.
Qed.

(** A body that blocks the signals and then calls a pthread function. *)
Lemma blocking_spec c failed f e s r e' s' : (_ ← block_signals; _ ← pthread_call c failed (on_obj f); mret DFS_LOCK_ON) e s = (r, e', s') ->
  r = inr DFS_LOCK_ERROR /\ s' = s \/
  mask s' = mask s ∪ sig_block_mask (the s) /\ sig_prev_mask (the s') = mask s /\ (r = inl DFS_LOCK_ON \/ r = inr failed).
Proof using signals_ok.
  intros [([] & e1 & s1 & H1 & H) | (z & H1 & ->)] % bind_inv; [| left; apply block_signals_spec in H1 as [-> ->]; done].
  apply block_signals_spec in H1 as [H1 H1']. right.
  apply bind_inv in H as [([] & e2 & s2 & H2 & [= <- <- <-]) | (z & H2 & ->)].
  - apply keeps_call in H2 as (-> & -> & _). eauto.
  - pose proof H2 as (-> & -> & _) % keeps_call. split; [done |]. split; [done |]. right. revert H2. unfold pthread_call. destruct (on_obj f s1) as [rc s2].
    destruct (rc =? 0); intros [= -> _ _]. done.
Qed.

Lemma lock_call_spec body l m e r e' lk m' : lock_call any body (Some l) m (Some e) = (r, e', lk, m') ->
  exists q e1 s, body (with_err_allocator (lock_allocator l) clean) {| the := l; mask := m |} = (q, e1, s) /\
    (q = inl r \/ q = inr r) /\ e' = Some e1 /\ lk = Some (the s) /\ m' = mask s.
Proof. unfold lock_call, any. destruct (body _ _) as [[[q | q] e1] s]; intros [= <- <- <- <-]; eauto 9. Qed.

(** Locking and unlocking restores the signals of the caller, whatever the pthread functions
    do, as long as nobody else uses the lock in between: the mask of before is kept in the
    lock. *)
Lemma process_lock_balanced l m e0 e1 e2 l' m' l'' m'' e :
  dfs_process_lock_on (Some l) m (Some e0) = (DFS_LOCK_ON, e, Some l', m') ->
  dfs_process_lock_off (Some l') m' (Some e1) = (DFS_LOCK_OFF, e2, l'', m'') ->
  m' = m ∪ sig_block_mask l /\ m'' = m.
Proof using signals_ok.
  intros (q & e3 & s & H & Hq & _ & [= ->] & ->) % lock_call_spec (q' & e4 & s' & H' & Hq' & _ & _ & ->) % lock_call_spec.
  apply blocking_spec in H as [[-> _] | (Hm & Hp & _)]; [by destruct Hq |]. split; [done |].
  apply bind_inv in H' as [([] & e5 & s5 & H5 & H') | (z & H5 & ->)].
  - apply keeps_call in H5 as (_ & Hp' & _). apply bind_inv in H' as [([] & e6 & s6 & H6 & [= <- <- <-]) | (z & H6 & ->)].
    + apply restore_signals_spec in H6 as [-> _]. rewrite Hp'. apply Hp.
    + apply restore_signals_spec in H6 as [Hz _]. destruct Hq' as [Hq' | Hq']; [done |]. rewrite Hz in Hq'. done.
  - revert H5. unfold pthread_call. destruct (on_obj _ _) as [rc x]. destruct (rc =? 0); intros [= <- _ _]; by destruct Hq'.
Qed.

(** A try that fails leaves the signals blocked. *)
Lemma process_lock_busy_blocks l m e0 e l' m' :
  dfs_process_lock_try_on (Some l) m (Some e0) = (DFS_LOCK_OFF, e, l', m') -> m' = m ∪ sig_block_mask l.
Proof using signals_ok.
  intros (q & e3 & s & H & Hq & _ & _ & ->) % lock_call_spec. apply blocking_spec in H as [[-> _] | (-> & _)]; [by destruct Hq | done].
Qed.

End Masks.

End Owned.

(** The lock is created in the pool; its allocator field keeps what the pool's memory
    holds. *)
(* src/src/core/dfs_lock.cpp:854-872 (dfs_atomic_lock_pool_create) *)
Definition dfs_atomic_lock_pool_create (malloc : nat -> gmap ptr Z -> Z -> ptr) (depth : nat) (pool : ptr) (h : heap) : option (ptr * heap) :=
  if bool_decide (pool = nullptr) then Some (nullptr, h)
  else
    '(p, h) ← pool_alloc malloc depth pool sizeof_atomic_lock h;
    if bool_decide (p = nullptr) then Some (nullptr, h)
    else Some (p, write p (le 8 DFS_LOCK_OFF) h).

(** ** One thread and the word *)

Lemma lock_on_free a e : alone 1 (dfs_atomic_lock_on (Some a) (Some e)) DFS_LOCK_OFF = Some ((DFS_LOCK_ON, Some (with_err_allocator a clean)), DFS_LOCK_ON).
Proof. done. Qed.

(** Without others, waiting for a lock that is held has no end. *)
Lemma lock_on_held a e n : alone n (dfs_atomic_lock_on (Some a) (Some e)) DFS_LOCK_ON = None.
Proof. by induction n. Qed.

(** [off] does not ask who holds the lock: it frees it. *)
Lemma lock_off_frees a e w : w = DFS_LOCK_OFF \/ w = DFS_LOCK_ON ->
  alone 2 (dfs_atomic_lock_off (Some a) (Some e)) w = Some ((DFS_LOCK_OFF, Some (with_err_allocator a clean)), DFS_LOCK_OFF).
Proof. by intros [-> | ->]. Qed.

Lemma lock_try_on_spec a e w : w = DFS_LOCK_OFF \/ w = DFS_LOCK_ON ->
  alone 2 (dfs_atomic_lock_try_on (Some a) (Some e)) w =
  Some ((if w =? DFS_LOCK_OFF then DFS_LOCK_ON else DFS_LOCK_OFF, Some (with_err_allocator a clean)), DFS_LOCK_ON).
Proof. by intros [-> | ->]. Qed.

(** Every error has a text, if those of the allocator have. *)
Lemma lock_strerror_total strerror astr e : (forall f c, astr = Some f -> is_Some (f c)) -> is_Some (dfs_lock_strerror strerror astr e).
Proof.
  intros Hf. destruct e as [e |]; [| done]. unfold dfs_lock_strerror. destruct (_ || _) eqn:E; [done |].
  apply orb_false_iff in E as [E1 E2]. rewrite Z.leb_gt in E1, E2.
  assert (forall i, DFS_LOCK_ERR_START < i < DFS_LOCK_ERR_END -> is_Some (mjoin (dfs_lock_err_string !! Z.to_nat (i - DFS_LOCK_ERR_START)))) as Ht.
  { intros i Hi. unfold DFS_LOCK_ERR_START, DFS_LOCK_ERR_END in *.
    assert (forallb (fun i => bool_decide (is_Some (mjoin (dfs_lock_err_string !! i)))) (seq 0 21) = true) as Hall by reflexivity.
    rewrite forallb_forall in Hall. eapply bool_decide_eq_true, Hall, in_seq. lia. }
  specialize (Ht _ (conj E1 E2)). destruct astr as [f |]; repeat case_match; eauto.
Qed.

(** ** Two processes with one lock *)

Module Shared.

(** Signals as POSIX has them, a mutex that is held or not. *)
Definition posix : Signals :=
  {| sigfillset := list_to_set (seqZ 1 31); sigprocmask how set m := (0, 0, if how =? SIG_BLOCK then m ∪ set else set) |}.
#[local] Existing Instance posix.

Instance posix_ok : SignalsOk.
Proof. split; intros set m en m'; cbn; intros [=]; by subst. Qed.

Definition plain_mutex : Mutexes bool unit :=
  {| pthread_mutexattr_init a := (0, a); pthread_mutexattr_setpshared _ a := (0, a); pthread_mutexattr_destroy a := (0, a);
     pthread_mutex_init _ _ := (0, false); pthread_mutex_destroy m := (0, m); pthread_mutex_lock _ := (0, true);
     pthread_mutex_trylock m := (if m : bool then 16 else 0, true); pthread_mutex_unlock _ := (0, false) |}.
#[local] Existing Instance plain_mutex.

Definition created : @process_lock bool unit :=
  {| lock := false; attr := tt; sig_block_mask := block_mask; sig_prev_mask := ∅; lock_allocator := 1%N |}.

(** The first process locks; the second, which blocks signal 12, tries and fails; the first
    unlocks. *)
Definition scenario : gset Z * gset Z :=
  let '(_, _, l, m1) := dfs_process_lock_on (Some created) ∅ (Some clean) in
  let '(_, _, l, m2) := dfs_process_lock_try_on l {[12]} (Some clean) in
  let '(_, _, _, m1) := dfs_process_lock_off l m1 (Some clean) in
  (m1, m2).

(** The mask of the second is what the first gets back, and the second is left with its
    signals blocked. *)
Lemma process_lock_mask_lost : fst scenario = {[12]} /\ 5 ∈ snd scenario.
Proof. split; vm_compute; [reflexivity | by eapply bool_decide_unpack]. Qed.

End Shared.
