(* ===== verification/Critical.v ===== *)
(** * Critical sections of an atomic lock

    Threads that share data under one atomic lock of [Lock.v], as the memory blocks and the
    common connection pool do ([LOCK] and [UNLOCK] of [src/core/dfs_mblks.h]). The machine
    interleaves single accesses, those of [dfs_atomic_lock_on] and [dfs_atomic_lock_off]
    included; the atomic machine performs every critical section in one step. If the atomic
    machine has no data race and no undefined access, the two agree. *)

From S2P Require Import Prelude Allocator Lock.

Section Machine.

Context {D : Type}.

(** ** Programs *)

(** A critical section: accesses to the shared data, then [UNLOCK] and the result. An access
    that is [None] is undefined. *)
Inductive section (R : Type) : Type :=
  | Unlock (r : R)
  | Do (B : Type) (f : D -> option (B * D)) (k : B -> section R).

(** What a thread does: accesses outside any section, [LOCK] followed by a section. *)
Inductive op (R : Type) : Type :=
  | Ret (r : R)
  | Own (B : Type) (f : D -> option (B * D)) (k : B -> op R)
  | Locked (B : Type) (b : section B) (k : B -> op R).

#[local] Arguments Unlock {R} _.
#[local] Arguments Do {R B} _ _.
#[local] Arguments Ret {R} _.
#[local] Arguments Own {R B} _ _.
#[local] Arguments Locked {R B} _ _.

Fixpoint op_bind {R S} (o : op R) (k : R -> op S) : op S :=
  match o with
  | Ret r => k r
  | Own f g => Own f (fun x => op_bind (g x) k)
  | Locked b g => Locked b (fun x => op_bind (g x) k)
  end.

(** ** The machine *)

(** The lock's allocator field, and what the uninitialised error record of the macros holds. *)
Context (alloc_at : ptr) (stale : lock_error).

(* src/src/core/dfs_mblks.h:20-23 (LOCK) *)
Definition LOCK : access (Z * option lock_error) := dfs_atomic_lock_on (Some alloc_at) (Some stale).

(* src/src/core/dfs_mblks.h:26-29 (UNLOCK) *)
Definition UNLOCK : access (Z * option lock_error) := dfs_atomic_lock_off (Some alloc_at) (Some stale).

(** Where a thread is: outside, in [LOCK], in a section, in [UNLOCK]. *)
Inductive thread : Type :=
  | Out (o : op unit)
  | Taking (B : Type) (p : access (Z * option lock_error)) (b : section B) (k : B -> op unit)
  | Inside (B : Type) (b : section B) (k : B -> op unit)
  | Leaving (B : Type) (p : access (Z * option lock_error)) (r : B) (k : B -> op unit).

#[local] Arguments Taking {B} _ _ _.
#[local] Arguments Inside {B} _ _.
#[local] Arguments Leaving {B} _ _ _.

(** The results of the lock functions are not looked at. *)
Definition taking {B} (p : access (Z * option lock_error)) (b : section B) (k : B -> op unit) : thread :=
  match p with Return _ => Inside b k | _ => Taking p b k end.

Definition leaving {B} (p : access (Z * option lock_error)) (r : B) (k : B -> op unit) : thread :=
  match p with Return _ => Out (k r) | _ => Leaving p r k end.

Definition thread_step (t : thread) (w : Z) (d : D) : option (thread * Z * D) :=
  match t with
  | Out (Ret _) => None
  | Out (Own f k) => '(x, d) ← f d; Some (Out (k x), w, d)
  | Out (Locked b k) => '(p, w) ← access_step LOCK w; Some (taking p b k, w, d)
  | Taking p b k => '(p, w) ← access_step p w; Some (taking p b k, w, d)
  | Inside (Do f g) k => '(x, d) ← f d; Some (Inside (g x) k, w, d)
  | Inside (Unlock r) k => '(p, w) ← access_step UNLOCK w; Some (leaving p r k, w, d)
  | Leaving p r k => '(p, w) ← access_step p w; Some (leaving p r k, w, d)
  end.

Record machine := { lock_word : Z; data : D; threads : list thread }.

Definition step (i : nat) (c : machine) : option machine :=
  t ← threads c !! i;
  '(t, w, d) ← thread_step t (lock_word c) (data c);
  Some {| lock_word := w; data := d; threads := <[i := t]> (threads c) |}.

Fixpoint run (s : list nat) (c : machine) : option machine :=
  match s with [] => Some c | i :: s => c ← step i c; run s c end.

Definition finished (t : thread) : bool := match t with Out (Ret _) => true | _ => false end.
Definition inside (t : thread) : bool := match t with Inside _ _ | Leaving _ _ _ => true | _ => false end.

(** ** The atomic machine *)

Definition section_step {R} (b : section R) (d : D) : option (section R * D) :=
  match b with Unlock _ => None | Do f k => '(x, d) ← f d; Some (k x, d) end.

Fixpoint perform {R} (b : section R) (d : D) : option (R * D) :=
  match b with Unlock r => Some (r, d) | Do f k => '(x, d) ← f d; perform (k x) d end.

Definition op_step (o : op unit) (d : D) : option (op unit * D) :=
  match o with
  | Ret _ => None
  | Own f k => '(x, d) ← f d; Some (k x, d)
  | Locked b k => '(r, d) ← perform b d; Some (k r, d)
  end.

Record atomic := { shared : D; ops : list (op unit) }.

Definition atomic_step (i : nat) (a : atomic) : option atomic :=
  o ← ops a !! i; '(o, d) ← op_step o (shared a); Some {| shared := d; ops := <[i := o]> (ops a) |}.

Fixpoint atomic_run (s : list nat) (a : atomic) : option atomic :=
  match s with [] => Some a | i :: s => a ← atomic_step i a; atomic_run s a end.

(** The machine in which nobody has started. *)
Definition start (a : atomic) : machine := {| lock_word := DFS_LOCK_OFF; data := shared a; threads := map Out (ops a) |}.

(** ** Races *)

(** An access and a section do not interfere: the access commutes with each of the section's
    from the state [d] on. *)
Fixpoint commutes {B R} (f : D -> option (B * D)) (b : section R) (d : D) : Prop :=
  match b with
  | Unlock _ => True
  | Do g k => forall x d1 y e, g d = Some (x, d1) -> f d = Some (y, e) ->
      exists e1, g e = Some (x, e1) /\ f d1 = Some (y, e1) /\ commutes f (k x) d1
  end.

Definition no_race (o o' : op unit) (d : D) : Prop :=
  match o, o' with Own f _, Locked b _ => commutes f b d | _, _ => True end.

(** Every next step is defined, and no access outside a section races with a section. *)
Definition quiet (a : atomic) : Prop :=
  (forall i o, ops a !! i = Some o -> o = Ret tt \/ is_Some (op_step o (shared a))) /\
  (forall i j o o', i <> j -> ops a !! i = Some o -> ops a !! j = Some o' -> no_race o o' (shared a)).

(** Of the atomic machine only: in every state it can reach. *)
Definition race_free (a : atomic) : Prop := forall s a', atomic_run s a = Some a' -> quiet a'.

(** ** The two machines agree *)

(** [partway b0 d0 b d]: the section [b0], begun in [d0], has come to [b] in [d]. *)
Inductive partway {R} : section R -> D -> section R -> D -> Prop :=
  | partway_refl b d : partway b d b d
  | partway_step b0 d0 b1 d1 b d : section_step b0 d0 = Some (b1, d1) -> partway b1 d1 b d -> partway b0 d0 b d.
#[local] Hint Constructors partway : core.

Lemma partway_snoc {R} (b0 b b' : section R) d0 d d' : partway b0 d0 b d -> section_step b d = Some (b', d') -> partway b0 d0 b' d'.
Proof. induction 1; eauto. Qed.

Lemma perform_step {R} (b : section R) d b' d' : section_step b d = Some (b', d') -> perform b d = perform b' d'.
Proof. destruct b as [r | B f k]; [done |]. cbn. by destruct (f d) as [[x e] |]; intros [= <- <-]. Qed.

Lemma partway_perform {R} (b0 b : section R) d0 d : partway b0 d0 b d -> perform b0 d0 = perform b d.
Proof. induction 1 as [| ???????? IH]; [done |]. rewrite <- IH. by apply perform_step. Qed.

Lemma commutes_step {B R} (f : D -> option (B * D)) (b0 b : section R) d0 d y e0 :
  section_step b0 d0 = Some (b, d) -> commutes f b0 d0 -> f d0 = Some (y, e0) ->
  exists e, section_step b0 e0 = Some (b, e) /\ f d = Some (y, e) /\ commutes f b d.
Proof.
  destruct b0 as [r | C g k]; [done |]. cbn. destruct (g d0) as [[x d1] |] eqn:Eg; intros [= <- <-] Hc Hf.
  destruct (Hc x d1 y e0 eq_refl Hf) as (e1 & He & Hd & Hk). exists e1. by rewrite He.
Qed.

(** What another thread does meanwhile may as well come before the section. *)
Lemma partway_commutes {B R} (f : D -> option (B * D)) (b0 b : section R) d0 d y e0 :
  partway b0 d0 b d -> commutes f b0 d0 -> f d0 = Some (y, e0) -> exists e, f d = Some (y, e) /\ partway b0 e0 b e.
Proof.
  intros H. revert e0. induction H as [b d | b0 d0 b1 d1 b d H1 H2 IH]; intros e0 Hc Hf; [eauto |].
  destruct (commutes_step _ _ _ _ _ _ _ H1 Hc Hf) as (e1 & He & Hf1 & Hc1).
  destruct (IH e1 Hc1 Hf1) as (e & Hd & He'). eauto.
Qed.

Inductive at_rest : thread -> op unit -> Prop :=
  | rest_out o : at_rest (Out o) o
  | rest_taking B (b : section B) k : at_rest (Taking LOCK b k) (Locked b k).

(** [off] after its test of the word. *)
Definition UNLOCKING : access (Z * option lock_error) := Spin DFS_LOCK_ON DFS_LOCK_OFF (Return (DFS_LOCK_OFF, Some (with_err_allocator alloc_at clean))).

(** A thread in its section, where the atomic machine stands before it. *)
Inductive has_lock : thread -> op unit -> D -> D -> Prop :=
  | has_lock_inside B (b0 b : section B) k d0 d : partway b0 d0 b d -> has_lock (Inside b k) (Locked b0 k) d0 d
  | has_lock_leaving B (b0 : section B) r k d0 d : partway b0 d0 (Unlock r) d -> has_lock (Leaving UNLOCKING r k) (Locked b0 k) d0 d.
#[local] Hint Constructors at_rest has_lock : core.

Definition same_rest (ts : list thread) (os : list (op unit)) (except : nat -> Prop) : Prop :=
  length ts = length os /\ forall i t o, ~ except i -> ts !! i = Some t -> os !! i = Some o -> at_rest t o.

Inductive agree (c : machine) (a : atomic) : Prop :=
  | agree_free : lock_word c = DFS_LOCK_OFF -> data c = shared a -> same_rest (threads c) (ops a) (fun _ => False) -> agree c a
  | agree_held j t o : lock_word c = DFS_LOCK_ON -> threads c !! j = Some t -> ops a !! j = Some o -> has_lock t o (shared a) (data c) ->
      same_rest (threads c) (ops a) (fun i => i = j) -> agree c a.

Lemma same_rest_insert ts os P Q i t o : same_rest ts os P -> (forall n, n <> i -> P n -> Q n) -> (Q i \/ at_rest t o) ->
  same_rest (<[i := t]> ts) (<[i := o]> os) Q.
Proof.
  intros [Hl H] HPQ Hi. split; [by rewrite !length_insert |]. intros n t' o' Hn Ht Ho. destruct (decide (n = i)) as [-> | Hne].
  - apply list_lookup_insert_Some in Ht as [(_ & <- & _) | [? _]]; [| done]. apply list_lookup_insert_Some in Ho as [(_ & <- & _) | [? _]]; [| done]. by destruct Hi.
  - rewrite list_lookup_insert_ne in Ht by done. rewrite list_lookup_insert_ne in Ho by done. eapply H; eauto.
Qed.

Lemma same_rest_left ts os P i t o : same_rest ts os P -> os !! i = Some o -> (P i \/ at_rest t o) -> same_rest (<[i := t]> ts) os P.
Proof. intros H Ho Hi. rewrite <- (list_insert_id os i o) by done. eapply same_rest_insert; eauto. Qed.

Lemma same_rest_lookup ts os P i t : same_rest ts os P -> ts !! i = Some t -> exists o, os !! i = Some o.
Proof. intros [Hl _] Ht. apply lookup_lt_Some in Ht. apply lookup_lt_is_Some. lia. Qed.

Lemma agree_start a : agree (start a) a.
Proof.
  apply agree_free; [done | done |]. split; [cbn; by rewrite length_map |]. intros i t o _ Ht Ho. cbn in Ht.
  rewrite list_lookup_fmap, Ho in Ht. injection Ht as <-. done.
Qed.

(** A step of the machine is none of the atomic machine, or one of the same thread. *)
Definition simulated (i : nat) (c : machine) (a : atomic) : Prop := agree c a \/ exists a', atomic_step i a = Some a' /\ agree c a'.

Lemma atomic_step_own i a B (f : D -> option (B * D)) k x d : ops a !! i = Some (Own f k) -> f (shared a) = Some (x, d) ->
  atomic_step i a = Some {| shared := d; ops := <[i := k x]> (ops a) |}.
Proof. unfold atomic_step. intros -> Hf. cbn. by rewrite Hf. Qed.

(** An access outside the section while a thread [t] is inside. *)
Lemma step_race {B} (f : D -> option (B * D)) k t o d0 d x e : has_lock t o d0 d -> no_race (Own f k) o d0 -> is_Some (f d0) -> f d = Some (x, e) ->
  exists e0, f d0 = Some (x, e0) /\ has_lock t o e0 e.
Proof.
  intros Hh Hr [[y e0] Hy] Hf. destruct Hh as [C b0 b k' d0 d Hp | C b0 r k' d0 d Hp].
  all: destruct (partway_commutes _ _ _ _ _ _ _ Hp Hr Hy) as (e' & He & Hp'); rewrite Hf in He; injection He as -> ->; eauto.
Qed.

Lemma own_defined a i B (f : D -> option (B * D)) k : (forall i o, ops a !! i = Some o -> o = Ret tt \/ is_Some (op_step o (shared a))) ->
  ops a !! i = Some (Own f k) -> is_Some (f (shared a)).
Proof. intros H Ho. destruct (H _ _ Ho) as [? | [z Hz]]; [done |]. cbn in Hz. destruct (f (shared a)); [eauto | done]. Qed.

(** A step of a thread at rest. *)
Lemma step_rest i c c' a t o : agree c a -> quiet a -> step i c = Some c' -> threads c !! i = Some t -> ops a !! i = Some o -> at_rest t o -> simulated i c' a.
Proof.
  intros Ha [Hdef Hq] Hs Ht Ho Hr. unfold step in Hs. rewrite Ht in Hs. cbn in Hs.
  assert (forall B (b : section B) k, o = Locked b k -> t = Out o \/ t = Taking LOCK b k -> simulated i c' a) as Hlock.
  { intros B b k -> Hto. assert (thread_step t (lock_word c) (data c) =
        let '(p, w) := (if lock_word c =? DFS_LOCK_OFF then (Inside b k, DFS_LOCK_ON) else (Taking LOCK b k, lock_word c)) in Some (p, w, data c)) as E.
    { destruct Hto as [-> | ->]; cbn; unfold CAS; by destruct (lock_word c =? DFS_LOCK_OFF). }
    rewrite E in Hs. destruct Ha as [Hw Hd Hsr | j t' o' Hw Hj Hoj Hh Hsr]; rewrite Hw in Hs; injection Hs as <-; left.
    - eapply (agree_held _ _ i (Inside b k) (Locked b k)); cbn; [done | apply list_lookup_insert_eq; by eapply lookup_lt_Some | done | rewrite Hd; eauto |].
      eapply same_rest_left; [| done | by left]. destruct Hsr as [Hl Hsr]. split; [done |]. intros n t' o' _. exact (Hsr n t' o' id).
    - assert (i <> j) as Hij. { intros ->. simplify_eq. by destruct Hto as [-> | ->]; inversion Hh. }
      eapply (agree_held _ _ j t' o'); cbn; [done | by rewrite list_lookup_insert_ne | done | done |]. eapply same_rest_left; eauto. }
  destruct Hr as [o | B b k]; [| by eauto]. destruct o as [r | B f k | B b k]; [done | | by eauto]. cbn in Hs.
  destruct (f (data c)) as [[x d] |] eqn:Ef; [| done]. injection Hs as <-. right.
  destruct Ha as [Hw Hd Hsr | j t' o' Hw Hj Hoj Hh Hsr].
  - rewrite Hd in Ef. eexists. split; [by eapply atomic_step_own |]. apply agree_free; [done | done |]. eapply same_rest_insert; eauto.
  - assert (i <> j) as Hij. { intros ->. simplify_eq. inversion Hh. }
    pose proof (Hq i j _ _ Hij Ho Hoj) as Hr. destruct (step_race _ _ _ _ _ _ _ _ Hh Hr (own_defined _ _ _ _ _ Hdef Ho) Ef) as (e0 & He & Hh').
    eexists. split; [by eapply atomic_step_own |]. eapply (agree_held _ _ j t' o'); cbn;
      [done | by rewrite list_lookup_insert_ne | by rewrite list_lookup_insert_ne | done |]. eapply same_rest_insert; eauto.
Qed.

(** A step of the thread in its section: the section takes effect when the lock is freed. *)
Lemma step_holder j c c' a t o : lock_word c = DFS_LOCK_ON -> step j c = Some c' -> threads c !! j = Some t -> ops a !! j = Some o ->
  has_lock t o (shared a) (data c) -> same_rest (threads c) (ops a) (fun i => i = j) -> simulated j c' a.
Proof.
  intros Hw Hs Ht Ho Hh Hsr. unfold step in Hs. rewrite Ht in Hs. cbn in Hs. rewrite Hw in Hs.
  pose proof (lookup_lt_Some _ _ _ Ht) as Hl.
  remember (shared a) as d0 eqn:E0. remember (data c) as d eqn:E. destruct Hh as [B b0 b k d0 d Hp | B b0 r k d0 d Hp].
  - left. destruct b as [r | C f g]; cbn in Hs.
    + injection Hs as <-. eapply (agree_held _ _ j (Leaving UNLOCKING r k)); cbn; [done | by apply list_lookup_insert_eq | done | rewrite <- E0; eauto |].
      eapply same_rest_left; eauto.
    + destruct (f d) as [[x e] |] eqn:Ef; [| done]. injection Hs as <-.
      eapply (agree_held _ _ j (Inside (g x) k)); cbn; [done | by apply list_lookup_insert_eq | done | |].
      * rewrite <- E0. apply has_lock_inside. eapply partway_snoc; [done |]. cbn. by rewrite Ef.
      * eapply same_rest_left; eauto.
  - right. injection Hs as <-. apply partway_perform in Hp. cbn in Hp. eexists. split.
    + unfold atomic_step. rewrite Ho. cbn. by rewrite <- E0, Hp.
    + apply agree_free; [done | done |]. cbn. eapply same_rest_insert; eauto.
Qed.

Lemma step_simulated i c c' a : agree c a -> quiet a -> step i c = Some c' -> simulated i c' a.
Proof.
  intros Ha Hq Hs. destruct (threads c !! i) as [t |] eqn:Ht; [| unfold step in Hs; by rewrite Ht in Hs].
  destruct Ha as [Hw Hd Hsr | j t' o' Hw Hj Hoj Hh Hsr].
  - destruct (same_rest_lookup _ _ _ _ _ Hsr Ht) as [o Ho]. eapply step_rest; eauto using agree_free. exact (proj2 Hsr i t o id Ht Ho).
  - destruct (decide (i = j)) as [-> | Hij]; [by eapply (step_holder j c c' a t' o') |].
    destruct (same_rest_lookup _ _ _ _ _ Hsr Ht) as [o Ho]. eapply step_rest; eauto using agree_held. exact (proj2 Hsr i t o Hij Ht Ho).
Qed.

Lemma race_free_quiet a : race_free a -> quiet a.
Proof. intros H. by apply (H []). Qed.

Lemma race_free_step i a a' : race_free a -> atomic_step i a = Some a' -> race_free a'.
Proof. intros H Hs s a'' Hr. apply (H (i :: s)). cbn. by rewrite Hs. Qed.

Lemma run_simulated s c c' a : agree c a -> race_free a -> run s c = Some c' ->
  exists s' a', s' `sublist_of` s /\ atomic_run s' a = Some a' /\ agree c' a' /\ race_free a'.
Proof.
  revert c a. induction s as [| i s IH]; intros c a Ha Hf Hr; cbn in Hr.
  { injection Hr as <-. exists [], a. done. }
  destruct (step i c) as [c1 |] eqn:Hs; [| done]. cbn in Hr.
  destruct (step_simulated _ _ _ _ Ha (race_free_quiet _ Hf) Hs) as [Ha' | (a1 & Hs1 & Ha')].
  - destruct (IH _ _ Ha' Hf Hr) as (s' & a' & Hsub & H). exists s', a'. split; [by constructor | done].
  - destruct (IH _ _ Ha' (race_free_step _ _ _ Hf Hs1) Hr) as (s' & a' & Hsub & Hr' & H).
    exists (i :: s'), a'. split; [by constructor |]. cbn. by rewrite Hs1.
Qed.

(** ** Progress *)

Lemma perform_partway {R} (b0 b : section R) d0 d : partway b0 d0 b d -> is_Some (perform b0 d0) -> match b with Unlock _ => True | Do f _ => is_Some (f d) end.
Proof.
  intros Hp [z H]. rewrite (partway_perform _ _ _ _ Hp) in H. destruct b as [r | B f k]; [done |]. cbn in H. destruct (f d); [eauto | done].
Qed.

Lemma locked_defined a i B (b : section B) k : quiet a -> ops a !! i = Some (Locked b k) -> is_Some (perform b (shared a)).
Proof. intros [H _] Ho. destruct (H _ _ Ho) as [? | [z Hz]]; [done |]. cbn in Hz. destruct (perform b (shared a)); [eauto | done]. Qed.

(** A thread that has not finished can always make its next access: none is undefined. *)
Lemma step_defined i c a t : agree c a -> quiet a -> threads c !! i = Some t -> finished t = false -> is_Some (step i c).
Proof.
  intros Ha Hq Ht Hfin. unfold step. rewrite Ht. cbn.
  enough (is_Some (thread_step t (lock_word c) (data c))) as [[[t' w] d] E] by (rewrite E; cbn; eauto).
  assert (forall o, ops a !! i = Some o -> at_rest t o -> is_Some (thread_step t (lock_word c) (data c))) as Hrest.
  { intros o Ho Hr. destruct Hr as [[r | B f k | B b k] | B b k]; cbn.
    - by destruct r.
    - pose proof (own_defined _ _ _ _ _ (proj1 Hq) Ho) as Hf. destruct Ha as [_ Hd _ | j t' o' _ _ Hj Hh _].
      + rewrite Hd. destruct Hf as [[x e] ->]. eauto.
      + destruct Hf as [[x e] Hf].
        assert (i <> j) as Hij. { intros ->. rewrite Ho in Hj. injection Hj as <-. inversion Hh. }
        pose proof (proj2 Hq _ _ _ _ Hij Ho Hj) as Hr.
        remember (shared a) as d0 eqn:E0. remember (data c) as d eqn:E. destruct Hh as [C b0 b k' d0 d Hp | C b0 r k' d0 d Hp];
          destruct (partway_commutes _ _ _ _ _ _ _ Hp Hr Hf) as (e' & He & _); rewrite He; cbn; eauto.
    - unfold CAS. destruct (lock_word c =? DFS_LOCK_OFF); cbn; eauto.
    - unfold CAS. destruct (lock_word c =? DFS_LOCK_OFF); cbn; eauto. }
  destruct Ha as [Hw Hd Hsr | j t' o' Hw Hj Hoj Hh Hsr].
  - destruct (same_rest_lookup _ _ _ _ _ Hsr Ht) as [o Ho]. exact (Hrest o Ho (proj2 Hsr i t o id Ht Ho)).
  - destruct (same_rest_lookup _ _ _ _ _ Hsr Ht) as [o Ho]. destruct (decide (i = j)) as [-> | Hij]; [| exact (Hrest o Ho (proj2 Hsr i t o Hij Ht Ho))].
    rewrite Ht in Hj. injection Hj as <-. rewrite Ho in Hoj. injection Hoj as <-. pose proof (fun B b k => locked_defined a j B b k Hq) as Hl. remember (shared a) as d0 eqn:E0. remember (data c) as d eqn:E.
    destruct Hh as [B b0 b k d0 d Hp | B b0 r k d0 d Hp].
    + pose proof (perform_partway _ _ _ _ Hp (Hl _ _ _ Ho)) as H. destruct b as [r | C f g]; cbn; [eauto |]. destruct H as [[x e] ->]. cbn. eauto.
    + cbn. unfold CAS. destruct (lock_word c =? DFS_LOCK_ON); cbn; eauto.
Qed.

Lemma run_app s1 s2 c c1 : run s1 c = Some c1 -> run (s1 ++ s2) c = run s2 c1.
Proof. revert c. induction s1 as [| i s1 IH]; intros c; cbn; [by intros [= ->] |]. destruct (step i c); [apply IH | done]. Qed.

(** A machine that agrees with some race-free atomic machine. *)
Definition good (c : machine) : Prop := exists a, agree c a /\ race_free a.

Lemma good_start a : race_free a -> good (start a).
Proof. exists a. split; [apply agree_start | done]. Qed.

Lemma good_step i c c' : good c -> step i c = Some c' -> good c'.
Proof.
  intros (a & Ha & Hf) Hs. destruct (step_simulated _ _ _ _ Ha (race_free_quiet _ Hf) Hs) as [Ha' | (a' & Hs' & Ha')]; [by exists a |].
  exists a'. split; [done |]. by eapply race_free_step.
Qed.

Lemma good_run s c c' : good c -> run s c = Some c' -> good c'.
Proof.
  revert c. induction s as [| i s IH]; intros c Hg; cbn; [by intros [= <-] |].
  destruct (step i c) as [c1 |] eqn:Hs; [| done]. by apply IH, (good_step i c).
Qed.

Lemma good_defined i c t : good c -> threads c !! i = Some t -> finished t = false -> is_Some (step i c).
Proof. intros (a & Ha & Hf). by apply (step_defined i c a), race_free_quiet. Qed.

Lemma rest_outside t o : at_rest t o -> inside t = false.
Proof. by destruct 1. Qed.

Lemma good_inside c i t : good c -> threads c !! i = Some t -> inside t = true ->
  lock_word c = DFS_LOCK_ON /\ forall j t', threads c !! j = Some t' -> inside t' = true -> j = i.
Proof.
  intros (a & Ha & _) Ht Hin. destruct Ha as [_ _ Hsr | j t' o' Hw Hj Hoj Hh Hsr].
  - destruct (same_rest_lookup _ _ _ _ _ Hsr Ht) as [o Ho]. by rewrite (rest_outside _ _ (proj2 Hsr i t o id Ht Ho)) in Hin.
  - split; [done |]. assert (forall n u, threads c !! n = Some u -> inside u = true -> n = j) as H.
    { intros n u Hn Hu. destruct (decide (n = j)) as [| Hne]; [done |]. destruct (same_rest_lookup _ _ _ _ _ Hsr Hn) as [o Ho].
      by rewrite (rest_outside _ _ (proj2 Hsr n u o Hne Hn Ho)) in Hu. }
    intros n u Hn Hu. by rewrite (H _ _ Hn Hu), (H _ _ Ht Hin).
Qed.

(** The lock is free when nobody is inside, and a thread that leaves has tested the word. *)
Lemma good_leaving c i B p (r : B) k : good c -> threads c !! i = Some (Leaving p r k) -> p = UNLOCKING.
Proof.
  intros (a & Ha & _) Ht. assert (forall o, at_rest (Leaving p r k) o -> False) as H by (intros o H; inversion H).
  destruct Ha as [_ _ Hsr | j t' o' Hw Hj Hoj Hh Hsr].
  - destruct (same_rest_lookup _ _ _ _ _ Hsr Ht) as [o Ho]. by destruct (H _ (proj2 Hsr i _ o id Ht Ho)).
  - destruct (same_rest_lookup _ _ _ _ _ Hsr Ht) as [o Ho]. destruct (decide (i = j)) as [-> | Hne]; [| by destruct (H _ (proj2 Hsr i _ o Hne Ht Ho))].
    rewrite Ht in Hj. injection Hj as <-. by inversion Hh.
Qed.

Lemma good_free c : good c -> (forall i t, threads c !! i = Some t -> inside t = false) -> lock_word c = DFS_LOCK_OFF.
Proof.
  intros (a & Ha & _) H. destruct Ha as [| j t o Hw Hj Hoj Hh Hsr]; [done |]. pose proof (H _ _ Hj) as Hin. by destruct Hh.
Qed.

Lemma step_inside_do i c C (f : D -> option (C * D)) B (g : C -> section B) k c' : threads c !! i = Some (Inside (Do f g) k) -> step i c = Some c' ->
  exists x, threads c' = <[i := Inside (g x) k]> (threads c).
Proof.
  unfold step. intros ->. cbn. destruct (f (data c)) as [[x d] |]; [| done]. intros [= <-]. by exists x.
Qed.

Lemma leaving_out i c B (r : B) k : lock_word c = DFS_LOCK_ON -> threads c !! i = Some (Leaving UNLOCKING r k) ->
  step i c = Some {| lock_word := DFS_LOCK_OFF; data := data c; threads := <[i := Out (k r)]> (threads c) |}.
Proof. unfold step. intros Hw ->. cbn. by rewrite Hw. Qed.

(** The thread in its section leaves it when it runs alone. *)
Lemma inside_out B (b : section B) k i c : good c -> threads c !! i = Some (Inside b k) ->
  exists s c' r, run s c = Some c' /\ lock_word c' = DFS_LOCK_OFF /\ threads c' = <[i := Out (k r)]> (threads c).
Proof.
  revert c. induction b as [r | C f g IH]; intros c Hg Ht; pose proof (lookup_lt_Some _ _ _ Ht) as Hl.
  - destruct (good_inside _ _ _ Hg Ht eq_refl) as [Hw _].
    set (c1 := {| lock_word := DFS_LOCK_ON; data := data c; threads := <[i := Leaving UNLOCKING r k]> (threads c) |}).
    assert (step i c = Some c1) as E1 by (unfold step; rewrite Ht; cbn; by rewrite Hw).
    eexists [i; i], _, r. cbn. rewrite E1. cbn [mbind option_bind]. rewrite (leaving_out i c1 _ r k); [| done | by apply list_lookup_insert_eq].
    split; [done |]. split; [done |]. cbn. by rewrite list_insert_insert_eq.
  - destruct (good_defined _ _ _ Hg Ht eq_refl) as [c1 E1]. destruct (step_inside_do _ _ _ _ _ _ _ _ Ht E1) as [x Hx].
    destruct (IH x c1) as (s & c' & r & Hr & Hw & Hts); [by eapply good_step | rewrite Hx; by apply list_lookup_insert_eq |].
    exists (i :: s), c', r. cbn. rewrite E1. split; [done |]. split; [done |]. rewrite Hts, Hx. by rewrite list_insert_insert_eq.
Qed.

Lemma get_free c : good c -> exists s c', run s c = Some c' /\ good c' /\ lock_word c' = DFS_LOCK_OFF.
Proof.
  intros Hg. destruct (decide (Exists (fun t => inside t = true) (threads c))) as [(t & [i Ht] % list_elem_of_lookup & Hin) % Exists_exists | Hno].
  - destruct t as [| | B b k | B p r k]; try done.
    + destruct (inside_out _ _ _ _ _ Hg Ht) as (s & c' & r & Hr & Hw & _). exists s, c'. eauto using good_run.
    + pose proof (good_leaving _ _ _ _ _ _ Hg Ht) as ->. destruct (good_inside _ _ _ Hg Ht eq_refl) as [Hw _]. pose proof (leaving_out _ _ _ _ _ Hw Ht) as E.
      eexists [i], _. cbn. rewrite E. split; [done |]. split; [by eapply good_step | done].
  - exists [], c. split; [done |]. split; [done |]. apply good_free; [done |]. intros i t Ht. destruct (inside t) eqn:E; [| done]. destruct Hno. apply Exists_exists. exists t. by eauto using list_elem_of_lookup_2.
Qed.

(** When the lock is free, a thread that wants it goes through its section when it runs
    alone. *)
Lemma locked_out i t B (b : section B) k c : good c -> lock_word c = DFS_LOCK_OFF -> threads c !! i = Some t -> t = Out (Locked b k) \/ t = Taking LOCK b k ->
  exists s c' r, run s c = Some c' /\ good c' /\ lock_word c' = DFS_LOCK_OFF /\ threads c' = <[i := Out (k r)]> (threads c).
Proof.
  intros Hg Hw Ht Hto. pose proof (lookup_lt_Some _ _ _ Ht) as Hl.
  set (c1 := {| lock_word := DFS_LOCK_ON; data := data c; threads := <[i := Inside b k]> (threads c) |}).
  assert (step i c = Some c1) as E1 by (unfold step; rewrite Ht; destruct Hto as [-> | ->]; cbn; by rewrite Hw).
  destruct (inside_out _ b k i c1) as (s & c' & r & Hr & Hw' & Hts); [by eapply good_step | by apply list_lookup_insert_eq |].
  exists (i :: s), c', r. cbn. rewrite E1. cbn [mbind option_bind]. split; [done |].
  split; [by eapply (good_run s c1); [eapply good_step |] |]. split; [done |]. rewrite Hts. cbn. apply list_insert_insert_eq.
Qed.

(** From rest with the lock free, a thread finishes when it runs alone. *)
Lemma finish i o c : good c -> lock_word c = DFS_LOCK_OFF -> threads c !! i = Some (Out o) ->
  exists s c', run s c = Some c' /\ good c' /\ lock_word c' = DFS_LOCK_OFF /\ threads c' = <[i := Out (Ret tt)]> (threads c).
Proof.
  revert c. induction o as [[] | B f k IH | B b k IH]; intros c Hg Hw Ht; pose proof (lookup_lt_Some _ _ _ Ht) as Hl.
  - exists [], c. split; [done |]. split; [done |]. split; [done |]. by rewrite list_insert_id.
  - destruct (good_defined _ _ _ Hg Ht eq_refl) as [c1 E1]. pose proof E1 as E. unfold step in E. rewrite Ht in E. cbn in E.
    destruct (f (data c)) as [[x d] |]; [| done]. injection E as E.
    destruct (IH x c1) as (s & c' & Hr & Hg' & Hw' & Hts); [by eapply good_step | by subst | subst; by apply list_lookup_insert_eq |].
    exists (i :: s), c'. cbn. rewrite E1. split; [done |]. split; [done |]. split; [done |]. rewrite Hts. subst. apply list_insert_insert_eq.
  - destruct (locked_out i (Out (Locked b k)) _ b k c) as (s & c1 & r & Hr & Hg1 & Hw1 & Hts1); [done | done | done | by left |].
    destruct (IH r c1) as (s' & c' & Hr' & Hg' & Hw' & Hts); [done | done | rewrite Hts1; by apply list_lookup_insert_eq |].
    exists (s ++ s'), c'. rewrite (run_app _ _ _ _ Hr). split; [done |]. split; [done |]. split; [done |]. rewrite Hts, Hts1. apply list_insert_insert_eq.
Qed.

(** A thread that spins goes on like one that has not begun. *)
Lemma finish_rest i t c : good c -> lock_word c = DFS_LOCK_OFF -> threads c !! i = Some t ->
  exists s c', run s c = Some c' /\ good c' /\ lock_word c' = DFS_LOCK_OFF /\ threads c' = <[i := Out (Ret tt)]> (threads c).
Proof.
  intros Hg Hw Ht. assert (exists o, at_rest t o) as [o Hr].
  { destruct Hg as (a & Ha & _). destruct Ha as [_ _ Hsr | ? ? ? Hw' _ _ _ _]; [| by rewrite Hw in Hw'].
    destruct (same_rest_lookup _ _ _ _ _ Hsr Ht) as [o Ho]. exists o. exact (proj2 Hsr i t o id Ht Ho). }
  destruct Hr as [o | B b k]; [by apply (finish i o) |].
  destruct (locked_out i (Taking LOCK b k) _ b k c) as (s & c1 & r & Hr & Hg1 & Hw1 & Hts1); [done | done | done | by right |].
  destruct (finish i (k r) c1) as (s' & c' & Hr' & Hg' & Hw' & Hts); [done | done | rewrite Hts1; apply list_lookup_insert_eq; by eapply lookup_lt_Some |].
  exists (s ++ s'), c'. rewrite (run_app _ _ _ _ Hr). split; [done |]. split; [done |]. split; [done |]. rewrite Hts, Hts1. apply list_insert_insert_eq.
Qed.

Lemma finish_first n c : good c -> lock_word c = DFS_LOCK_OFF -> (n <= length (threads c))%nat ->
  exists s c', run s c = Some c' /\ good c' /\ lock_word c' = DFS_LOCK_OFF /\ length (threads c') = length (threads c) /\
    forall i t, (i < n)%nat -> threads c' !! i = Some t -> finished t = true.
Proof.
  intros Hg Hw. induction n as [| n IH]; intros Hn.
  { exists [], c. split; [done |]. split; [done |]. split; [done |]. split; [done |]. lia. }
  destruct IH as (s & c1 & Hr & Hg1 & Hw1 & Hl & Hf); [lia |]. destruct (lookup_lt_is_Some_2 (threads c1) n) as [t Ht]; [lia |].
  destruct (finish_rest _ _ _ Hg1 Hw1 Ht) as (s' & c2 & Hr' & Hg2 & Hw2 & Hts). exists (s ++ s'), c2. rewrite (run_app _ _ _ _ Hr).
  split; [done |]. split; [done |]. split; [done |]. rewrite Hts, length_insert. split; [done |]. intros i u Hi Hu.
  apply list_lookup_insert_Some in Hu as [(_ & <- & _) | [Hne Hu]]; [done |]. apply (Hf i u); [lia | done].
Qed.

Lemma all_finish c : good c -> exists s' c', run s' c = Some c' /\ lock_word c' = DFS_LOCK_OFF /\ forall t, t ∈ threads c' -> finished t = true.
Proof.
  intros Hg. destruct (get_free _ Hg) as (s1 & c1 & Hr1 & Hg1 & Hw1).
  destruct (finish_first (length (threads c1)) c1 Hg1 Hw1 (le_n _)) as (s2 & c2 & Hr2 & Hg2 & Hw2 & Hl & Hfin).
  exists (s1 ++ s2), c2. rewrite (run_app _ _ _ _ Hr1). split; [done |]. split; [done |].
  intros t [i Ht] % list_elem_of_lookup. apply (Hfin i); [| done]. apply lookup_lt_Some in Ht. lia.
Qed.

Lemma agree_finished c a : agree c a -> lock_word c = DFS_LOCK_OFF -> data c = shared a /\
  ((forall t, t ∈ threads c -> finished t = true) -> forall o, o ∈ ops a -> o = Ret tt).
Proof.
  intros [Hw Hd [Hl Hsr] | j t o Hw _ _ _ _] Hoff; [| by rewrite Hoff in Hw]. split; [done |]. intros Hfin o [i Ho] % list_elem_of_lookup.
  destruct (lookup_lt_is_Some_2 (threads c) i) as [t Ht]; [apply lookup_lt_Some in Ho; lia |].
  pose proof (Hfin t (list_elem_of_lookup_2 _ _ _ Ht)) as E. destruct (Hsr i t o id Ht Ho) as [[[] | |] | ]; done.
Qed.

(** ** Threads under the lock *)

(** C10. Critical sections are atomic: whatever the threads do in their sections, one access
    at a time, and however the scheduler interleaves them with the accesses of the others
    and with their tries for the lock - if the atomic machine has no data race, then a
    subsequence of the schedule, run by the atomic machine, gives the same data whenever the
    lock is free and every thread the same rest of its program; never are two threads
    inside; no thread ever makes an undefined access; and nobody is locked out for ever: there
    is a schedule with which all finish, and then the data is that of a complete run of the
    atomic machine. *)
Theorem critical_sections_atomic (a : atomic) s c : race_free a -> run s (start a) = Some c ->
  (exists s' a', s' `sublist_of` s /\ atomic_run s' a = Some a' /\ (lock_word c = DFS_LOCK_OFF -> data c = shared a') /\
    length (threads c) = length (ops a') /\
    forall i t o, threads c !! i = Some t -> ops a' !! i = Some o -> inside t = false -> at_rest t o) /\
  (forall i j t u, threads c !! i = Some t -> threads c !! j = Some u -> inside t = true -> inside u = true -> i = j) /\
  (forall i t, threads c !! i = Some t -> finished t = false -> is_Some (step i c)) /\
  (exists s' c' r a', run s' c = Some c' /\ (forall t, t ∈ threads c' -> finished t = true) /\
    atomic_run r a = Some a' /\ (forall o, o ∈ ops a' -> o = Ret tt) /\ data c' = shared a').
Proof.
  intros Hf Hr. pose proof (good_run _ _ _ (good_start _ Hf) Hr) as Hg. split; [| split; [| split]].
  - destruct (run_simulated _ _ _ _ (agree_start a) Hf Hr) as (s' & a' & Hsub & Hr' & Ha & _). exists s', a'. split; [done |]. split; [done |].
    destruct Ha as [Hw Hd [Hl H] | j t o Hw Hj Hoj Hh [Hl H]].
    + split; [done |]. split; [done |]. intros i t o Ht Ho _. by apply (H i t o id).
    + split; [by rewrite Hw |]. split; [done |]. intros i t' o' Ht Ho Hin. destruct (decide (i = j)) as [-> | Hne]; [| by apply (H i t' o' Hne)].
      rewrite Hj in Ht. injection Ht as <-. by destruct Hh.
  - intros i j t u Ht Hu Hit Hju. destruct (good_inside _ _ _ Hg Hu Hju) as [_ H]. by eapply H.
  - intros i t. by apply good_defined.
  - destruct (all_finish c Hg) as (s' & c' & Hr' & Hw & Hfin).
    assert (run (s ++ s') (start a) = Some c') as Hall by (by rewrite (run_app _ _ _ _ Hr)).
    destruct (run_simulated _ _ _ _ (agree_start a) Hf Hall) as (r & a' & _ & Hra & Ha & _).
    destruct (agree_finished _ _ Ha Hw) as [Hd Ho]. exists s', c', r, a'. auto 6.
Qed.

End Machine.

Arguments Unlock {D R} _.
Arguments Do {D R B} _ _.
Arguments Ret {D R} _.
Arguments Own {D R B} _ _.
Arguments Locked {D R B} _ _.
Arguments section : clear implicits.
Arguments op : clear implicits.

(** ** An example *)

Module Counter.

(** Two counters: the first is increased under the lock, read and written in two accesses,
    the second in one access without it. *)
Definition incr : section (Z * Z) unit :=
  Do (fun d => Some (fst d, d)) (fun n => Do (fun d => Some (tt, (n + 1, snd d))) (fun _ => Unlock tt)).

Definition count : op (Z * Z) unit := Own (fun d => Some (tt, (fst d, snd d + 1))) (fun _ => Ret tt).

Definition worker : op (Z * Z) unit := Locked incr (fun _ => count).

Definition workers (n : nat) : atomic := {| shared := (0, 0); ops := replicate n worker |}.

Lemma workers_race_free n : race_free (workers n).
Proof.
  intros s a Hr.
  assert (forall o, o ∈ ops a -> o = worker \/ o = count \/ o = Ret tt) as H.
  { assert (forall o, o ∈ ops (workers n) -> o = worker \/ o = count \/ o = Ret tt) as H0 by (intros o H % elem_of_replicate_inv; by left).
    revert H0 Hr. generalize (workers n). induction s as [| i s IH]; intros b Hb; cbn; [by intros [= <-] |].
    destruct (atomic_step i b) as [b1 |] eqn:E; [| done]. apply IH. unfold atomic_step in E.
    destruct (ops b !! i) as [o |] eqn:Ho; [| done]. cbn in E. pose proof (Hb o (list_elem_of_lookup_2 _ _ _ Ho)) as Hc.
    destruct (op_step o (shared b)) as [[o' d] |] eqn:Es; [| done]. injection E as <-. intros o1 [i1 H1] % list_elem_of_lookup.
    apply list_lookup_insert_Some in H1 as [(_ & <- & _) | [_ H1]]; [| by eapply Hb, list_elem_of_lookup_2].
    destruct Hc as [-> | [-> | ->]]; cbn in Es; [| | done]; injection Es as <- _; auto. }
  split.
  - intros i o Ho. destruct (H o (list_elem_of_lookup_2 _ _ _ Ho)) as [-> | [-> | ->]]; [right; cbn; eauto.. | by left].
  - intros i j o o' _ Ho Ho'. destruct (H o (list_elem_of_lookup_2 _ _ _ Ho)) as [-> | [-> | ->]]; [done | | done].
    destruct (H o' (list_elem_of_lookup_2 _ _ _ Ho')) as [-> | [-> | ->]]; [| done | done]. cbn.
    intros x d1 y e [= <- <-] [= <- <-]. eexists. split; [done |]. split; [done |]. intros x d1 y e [= <- <-] [= <- <-]. eexists. done.
Qed.

(** The second thread spins while the first is inside, and counts after it. *)
Definition schedule : list nat := [0; 1; 0; 1; 0; 0; 0; 1; 0; 1; 1; 1; 1; 1]%nat.

Definition at_end : option (Z * (Z * Z) * list bool) :=
  c ← run 1%N clean schedule (start (workers 2)); Some (lock_word c, data c, map finished (threads c)).

End Counter.

Import Counter.

Lemma critical_sections_atomic_witness :
  race_free (workers 2) /\ at_end = Some (DFS_LOCK_OFF, (2, 2), [true; true]) /\
  (forall c, run 1%N clean schedule (start (workers 2)) = Some c ->
    exists s' a', s' `sublist_of` schedule /\ atomic_run s' (workers 2) = Some a' /\ (lock_word c = DFS_LOCK_OFF -> data c = shared a')).
Proof.
  split; [apply workers_race_free |]. split; [vm_compute; reflexivity |]. intros c Hc.
  destruct (critical_sections_atomic 1%N clean (workers 2) schedule c (workers_race_free 2) Hc) as [(s' & a' & H1 & H2 & H3 & _) _]. exists s', a'. auto.
Defined.
