(* ===== verification/MemBlks.v ===== *)
(** * Memory blocks ([src/core/dfs_mblks.cpp])

    A free list of blocks of one size, taken and put back by any number of threads under an
    atomic lock: a client of [Critical.v]. Each block is a header word, the link of the free
    list or, while the block is held, the address of the manager, and the data behind it.
    The header words and the bytes of the data are separate maps. *)

From S2P Require Import Prelude Memory Allocator Lock Critical.

Definition MEM_BLOCK_HEAD : Z := 8.
Definition sizeof_mem_mblks : Z := 88.

(* src/src/core/dfs_mblks.h:9-9 (SIZEOF_PER_MEM_BLOCK) *)
Definition SIZEOF_PER_MEM_BLOCK (x : Z) : Z := u64 (x + MEM_BLOCK_HEAD).

(** The fields that are used; the lock is the word of the machine. *)
(* src/src/core/dfs_mblks.h:47-58 (mem_mblks) *)
Record mem_mblks := { hot_count : Z; cold_count : Z; padded_sizeof_type : Z; real_sizeof_type : Z; free_blks : ptr }.

(** What the threads share: the manager, the header words by the address of the block, the
    bytes. *)
Record blocks := { mblks : mem_mblks; next : gmap ptr ptr; bytes : memory }.

Definition with_mblks (f : mem_mblks -> mem_mblks) (b : blocks) : blocks := {| mblks := f (mblks b); next := next b; bytes := bytes b |}.
Definition with_next (n : gmap ptr ptr) (b : blocks) : blocks := {| mblks := mblks b; next := n; bytes := bytes b |}.
Definition with_bytes (m : memory) (b : blocks) : blocks := {| mblks := mblks b; next := next b; bytes := m |}.

Definition with_hot (n : Z) (m : mem_mblks) : mem_mblks :=
  {| hot_count := n; cold_count := cold_count m; padded_sizeof_type := padded_sizeof_type m; real_sizeof_type := real_sizeof_type m; free_blks := free_blks m |}.
Definition with_cold (n : Z) (m : mem_mblks) : mem_mblks :=
  {| hot_count := hot_count m; cold_count := n; padded_sizeof_type := padded_sizeof_type m; real_sizeof_type := real_sizeof_type m; free_blks := free_blks m |}.
Definition with_free_blks (p : ptr) (m : mem_mblks) : mem_mblks :=
  {| hot_count := hot_count m; cold_count := cold_count m; padded_sizeof_type := padded_sizeof_type m; real_sizeof_type := real_sizeof_type m; free_blks := p |}.

(** ** Creation *)

Definition plus (p : ptr) (n : Z) : ptr := (p + Z.to_N n)%N.

(** The bytes of a new block of memory, all zero. *)
Definition zeros (p : ptr) (n : nat) : memory := foldr (fun i => <[at_ p i := 0]>) ∅ (seq 0 n).

(** [for (ptr = mblks->free_blks, idx = 0; idx < count; idx++)], with [n] blocks to come in
    the memory below [limit]. *)
Fixpoint link_blocks (n : nat) (p limit : ptr) (padded : Z) (m : gmap ptr ptr) : option (gmap ptr ptr) :=
  match n with
  | O => Some m
  | S n =>
      if bool_decide (plus p MEM_BLOCK_HEAD <= limit)%N then link_blocks n (plus p padded) limit padded (<[p := plus p padded]> m)
      else None
  end.

(** [mem_alloc] gives the address of [size] bytes; [count] beyond the range of [idx] is
    undefined. The parameter and its allocation function are not null. *)
(* src/src/core/dfs_mblks.cpp:6-48 (mem_mblks_new_fn) *)
Definition mem_mblks_new_fn (mem_alloc : Z -> ptr) (sizeof_type count : Z) : option (ptr * option blocks) :=
  let padded := SIZEOF_PER_MEM_BLOCK sizeof_type in
  let sizeof_mblks := u64 (u64 (padded * u64 count) + sizeof_mem_mblks) in
  let self := mem_alloc sizeof_mblks in
  if bool_decide (self = nullptr) then Some (nullptr, None)
  else if sizeof_mblks <? sizeof_mem_mblks then None
  else if 2 ^ 31 <=? count then None
  else
    let free := plus self sizeof_mem_mblks in
    nx ← link_blocks (Z.to_nat count) free (plus self sizeof_mblks) padded ∅;
    Some (self, Some
      {| mblks := {| hot_count := 0; cold_count := s32 count; padded_sizeof_type := padded; real_sizeof_type := sizeof_type; free_blks := free |};
         next := nx; bytes := zeros self (Z.to_nat sizeof_mblks) |}).

(** ** Taking and putting back *)

(** Single accesses to the shared data. *)
Definition rd {A} (f : blocks -> A) (b : blocks) : option (A * blocks) := Some (f b, b).
Definition wr (f : mem_mblks -> mem_mblks) (b : blocks) : option (unit * blocks) := Some (tt, with_mblks f b).
Definition get_next (p : ptr) (b : blocks) : option (ptr * blocks) := n ← next b !! p; Some (n, b).
Definition set_next (p n : ptr) (b : blocks) : option (unit * blocks) := _ ← next b !! p; Some (tt, with_next (<[p := n]> (next b)) b).

Section Manager.

(** The manager's address. *)
Context (self : ptr).

(** Between [LOCK] and [UNLOCK]. *)
(* src/src/core/dfs_mblks.cpp:59-79 (mem_get: the locked part) *)
Definition mem_get_locked : section blocks ptr :=
  Do (rd (fun b => cold_count (mblks b))) (fun cold =>
  if negb (cold =? 0) then
    Do (rd (fun b => free_blks (mblks b))) (fun pdata =>
    Do (get_next pdata) (fun n =>
    Do (wr (with_free_blks n)) (fun _ =>
    Do (set_next pdata self) (fun _ =>
    Do (rd (fun b => hot_count (mblks b))) (fun hot =>
    Do (wr (with_hot (s32 (hot + 1)))) (fun _ =>
    Do (rd (fun b => cold_count (mblks b))) (fun cold =>
    Do (wr (with_cold (s32 (cold - 1)))) (fun _ =>
    Unlock (plus pdata MEM_BLOCK_HEAD)))))))))
  else Unlock nullptr).

(* src/src/core/dfs_mblks.cpp:50-82 (mem_get) *)
Definition mem_get (m : ptr) : op blocks ptr :=
  if bool_decide (m = nullptr) then Ret nullptr else Locked mem_get_locked (fun p => Ret p).

(** [memset(ptr, 0, mblks->real_sizeof_type)] *)
Definition clear (p : ptr) (b : blocks) : option (unit * blocks) :=
  m ← store (bytes b) p (replicate (Z.to_nat (real_sizeof_type (mblks b))) 0); Some (tt, with_bytes m b).

(* src/src/core/dfs_mblks.cpp:85-103 (mem_get0) *)
Definition mem_get0 (m : ptr) : op blocks ptr :=
  if bool_decide (m = nullptr) then Ret nullptr
  else op_bind (mem_get m) (fun p => if bool_decide (p = nullptr) then Ret nullptr else Own (clear p) (fun _ => Ret p)).

(* src/src/core/dfs_mblks.cpp:128-136 (mem_put: the locked part) *)
Definition mem_put_locked (pdata : ptr) : section blocks unit :=
  Do (rd (fun b => hot_count (mblks b))) (fun hot =>
  Do (wr (with_hot (s32 (hot - 1)))) (fun _ =>
  Do (rd (fun b => cold_count (mblks b))) (fun cold =>
  Do (wr (with_cold (s32 (cold + 1)))) (fun _ =>
  Do (rd (fun b => free_blks (mblks b))) (fun free =>
  Do (set_next pdata free) (fun _ =>
  Do (wr (with_free_blks pdata)) (fun _ =>
  Unlock tt))))))).

(** The header is read before the lock is taken; a header that names another manager is
    outside the model. *)
(* src/src/core/dfs_mblks.cpp:106-137 (mem_put) *)
Definition mem_put (p : ptr) : op blocks unit :=
  if bool_decide (p = nullptr) then Ret tt
  else
    let pdata := (p - Z.to_N MEM_BLOCK_HEAD)%N in
    if bool_decide (pdata = nullptr) then Ret tt
    else
      Own (get_next pdata) (fun m =>
      if bool_decide (m = nullptr) then Ret tt
      else if bool_decide (m = self) then Locked (mem_put_locked pdata) (fun _ => Ret tt)
      else Own (fun _ => None) (fun _ : unit => Ret tt)).

End Manager.

(** [mem_free] is the field of the manager's parameter; [T] is its state. *)
(* src/src/core/dfs_mblks.cpp:139-154 (mem_mblks_destroy) *)
Definition mem_mblks_destroy {T} (mem_free : ptr -> T -> T) (self : ptr) (t : T) : T := mem_free self t.

(** ** Clients

    What a thread does with blocks: it takes them, puts them back, and reads and writes
    bytes of those it holds. *)

Inductive client : Type :=
  | Done
  | Get (k : ptr -> client)
  | Get0 (k : ptr -> client)
  | Put (p : ptr) (c : client)
  | Write (p : ptr) (i : nat) (v : Z) (c : client)
  | Read (p : ptr) (i : nat) (k : Z -> client).

Definition write_byte (p : ptr) (v : Z) (b : blocks) : option (unit * blocks) := m ← store (bytes b) p [v]; Some (tt, with_bytes m b).
Definition read_byte (p : ptr) (b : blocks) : option (Z * blocks) := v ← bytes b !! p; Some (v, b).

Fixpoint code (self : ptr) (c : client) : op blocks unit :=
  match c with
  | Done => Ret tt
  | Get k => op_bind (mem_get self self) (fun p => code self (k p))
  | Get0 k => op_bind (mem_get0 self self) (fun p => code self (k p))
  | Put p c => op_bind (mem_put self p) (fun _ => code self c)
  | Write p i v c => Own (write_byte (at_ p i) v) (fun _ => code self c)
  | Read p i k => Own (read_byte (at_ p i)) (fun v => code self (k v))
  end.

(** The blocks a thread holds, with the bytes it knows to be in them. *)
Abbreviation holding := (gmap ptr (list Z)).

(** [polite width h c]: holding [h], the client uses only what it holds and ends with nothing.
    What it goes on with may depend on a byte it reads being the one it has written, or the
    zero of [Get0]. *)
Inductive polite (width : nat) : holding -> client -> Prop :=
  | polite_done : polite width ∅ Done
  | polite_get h k : polite width h (k nullptr) ->
      (forall p l, p <> nullptr -> h !! p = None -> length l = width -> polite width (<[p := l]> h) (k p)) -> polite width h (Get k)
  | polite_get0 h k : polite width h (k nullptr) ->
      (forall p, p <> nullptr -> h !! p = None -> polite width (<[p := replicate width 0]> h) (k p)) -> polite width h (Get0 k)
  | polite_put h p c : is_Some (h !! p) -> polite width (delete p h) c -> polite width h (Put p c)
  | polite_write h p l i v c : h !! p = Some l -> (i < width)%nat -> polite width (<[p := <[i := v]> l]> h) c -> polite width h (Write p i v c)
  | polite_read h p l i v k : h !! p = Some l -> l !! i = Some v -> polite width h (k v) -> polite width h (Read p i k).

(** ** The free list *)

(** [links m b xs e]: the links lead from [b] through [xs] to [e]. *)
Fixpoint links (m : gmap ptr ptr) (b : ptr) (xs : list ptr) (e : ptr) : Prop :=
  match xs with
  | [] => b = e
  | x :: xs => b = x /\ exists n, m !! x = Some n /\ links m n xs e
  end.

Lemma links_frame m m' b xs e : (forall x, x ∈ xs -> m' !! x = m !! x) -> links m b xs e -> links m' b xs e.
Proof.
  revert b. induction xs as [| y xs IH]; intros b Hx; [done |]. intros [-> (n & Hn & Hc)]. split; [done |].
  exists n. rewrite Hx by by left. split; [done |]. apply IH; [| done]. intros x Hin. apply Hx. by right.
Qed.

Lemma links_insert m x n b xs e : x ∉ xs -> links m b xs e -> links (<[x := n]> m) b xs e.
Proof. intros Hx. apply links_frame. intros y Hy. apply lookup_insert_ne. by intros ->. Qed.

(** ** The invariant *)

(** The number of blocks held. *)
Fixpoint total (hs : list holding) : nat := match hs with [] => 0 | h :: hs => size h + total hs end.

Lemma total_insert hs i h g : hs !! i = Some h -> (total (<[i := g]> hs) + size h = total hs + size g)%nat.
Proof. revert i. induction hs as [| h0 hs IH]; intros [| i] Hi; [done | done | injection Hi as ->; cbn; lia |]. specialize (IH i Hi). change (<[S i := g]> (h0 :: hs)) with (h0 :: <[i := g]> hs). cbn [total]. lia. Qed.

Definition header (q : ptr) : ptr := (q - 8)%N.

Lemma total_lookup hs i h : hs !! i = Some h -> (size h <= total hs)%nat.
Proof. revert i. induction hs as [| h0 hs IH]; intros [| i] Hi; [done | done | injection Hi as ->; cbn; lia |]. specialize (IH i Hi). cbn. lia. Qed.

Section Invariant.

Context (self : ptr) (width : nat) (count : Z) (all : list ptr) (last : ptr).

(** The blocks lie apart. *)
Definition apart_blocks : Prop :=
  (forall p, p ∈ all -> p <> nullptr) /\
  (forall p q, p ∈ all -> q ∈ all -> p <> q -> (p + 8 + N.of_nat width <= q)%N \/ (q + 8 + N.of_nat width <= p)%N).

(** A held block: its header names the manager, its data is what the holder knows. *)
Definition held (b : blocks) (q : ptr) (l : list Z) : Prop :=
  exists p, q = plus p MEM_BLOCK_HEAD /\ p ∈ all /\ next b !! p = Some self /\ length l = width /\ holds (bytes b) q l.

Record wf (F : list ptr) (hs : list holding) (b : blocks) : Prop := {
  wf_links : links (next b) (free_blks (mblks b)) F last;
  wf_nodup : NoDup F;
  wf_all : forall p, p ∈ F -> p ∈ all;
  wf_cold : cold_count (mblks b) = Z.of_nat (length F);
  wf_hot : hot_count (mblks b) = Z.of_nat (total hs);
  wf_count : hot_count (mblks b) + cold_count (mblks b) = count;
  wf_size : real_sizeof_type (mblks b) = Z.of_nat width;
  wf_valid : forall p, p ∈ all -> is_Some (next b !! p) /\ valid (bytes b) (plus p MEM_BLOCK_HEAD) width;
  wf_held : forall i h q l, hs !! i = Some h -> h !! q = Some l -> held b q l /\ header q ∉ F;
  wf_apart : forall i j h g q, i <> j -> hs !! i = Some h -> hs !! j = Some g -> is_Some (h !! q) -> g !! q = None
}.

End Invariant.

(** ** Sections and accesses *)

Section Steps.

Context (self : ptr) (width : nat) (count : Z) (all : list ptr) (last : ptr).
Context (Hself : self <> nullptr) (Hapart : apart_blocks width all) (Hcount : count < 2 ^ 31).

Abbreviation wf := (wf self width count all last).
Abbreviation held := (held self width all).

Lemma header_plus p : header (plus p MEM_BLOCK_HEAD) = p.
Proof. unfold header, plus, MEM_BLOCK_HEAD. lia. Qed.

Lemma plus_header_inj p q : plus p MEM_BLOCK_HEAD = plus q MEM_BLOCK_HEAD -> p = q.
Proof. unfold plus. lia. Qed.

(** The state of the other threads does not change with the counts and the free list. *)
Lemma held_frame b b' q l : held b q l -> next b' !! header q = next b !! header q -> bytes b' = bytes b -> held b' q l.
Proof. intros (p & -> & Hp & Hn & Hl & Hh) Hnx Hb. rewrite header_plus in Hnx. exists p. rewrite Hb, Hnx. auto. Qed.

Lemma mem_get_empty hs b : wf [] hs b -> perform (mem_get_locked self) b = Some (nullptr, b).
Proof. intros H. cbn. rewrite (wf_cold _ _ _ _ _ _ _ _ H). done. Qed.

Lemma hot_s32 F hs b d : wf F hs b -> -1 <= d <= 1 -> 0 <= hot_count (mblks b) + d -> 0 <= cold_count (mblks b) - d ->
  s32 (hot_count (mblks b) + d) = hot_count (mblks b) + d /\ s32 (cold_count (mblks b) - d) = cold_count (mblks b) - d.
Proof. intros H Hd H1 H2. pose proof (wf_count _ _ _ _ _ _ _ _ H). split; apply s32_small; unfold is_s32; lia. Qed.

(** The first free block is granted, its bytes are what they are. *)
Lemma mem_get_first p F hs b i h : wf (p :: F) hs b -> hs !! i = Some h ->
  let q := plus p MEM_BLOCK_HEAD in
  exists b' l, perform (mem_get_locked self) b = Some (q, b') /\ q <> nullptr /\ h !! q = None /\ length l = width /\
    wf F (<[i := <[q := l]> h]> hs) b'.
Proof. 
  intros H Hi q. pose proof H as [Hl Hn Ha Hc Hh Hs Hw Hv Hheld Hap]. destruct Hl as [Hf (n & Hpn & Hl)]. rewrite length_cons in Hc.
  destruct (hot_s32 _ _ _ 1 H) as [E1 E2]; [lia.. |]. apply NoDup_cons in Hn as [Hp Hn].
  assert (p ∈ all) as Hpa by (apply Ha; by left). destruct (Hv _ Hpa) as [_ Hval]. destruct (valid_holds _ _ _ Hval) as (l & Hlen & Hhl).
  assert (forall j g, hs !! j = Some g -> g !! q = None) as Hnew.
  { intros j g Hj. destruct (g !! q) as [l' |] eqn:E; [| done]. destruct (Hheld _ _ _ _ Hj E) as [_ Hnot]. unfold q in Hnot. rewrite header_plus in Hnot. destruct Hnot. by left. }
  eexists _, l. split; [| split; [| split; [by eapply Hnew | split; [done |]]]].
  - cbn. rewrite Hc. replace (Z.of_nat (S (length F)) =? 0) with false by (symmetry; apply Z.eqb_neq; lia). cbn. rewrite Hf. unfold get_next, set_next. cbn. rewrite Hpn. cbn. rewrite ?Hpn. cbn. reflexivity.
  - unfold q, plus, nullptr. unfold MEM_BLOCK_HEAD. lia.
  - split; cbn; try done.
    + by apply links_insert.
    + intros p' Hp'. apply Ha. by right.
    + lia.
    + rewrite E1, Hh. pose proof (total_insert hs i h (<[q := l]> h) Hi) as Hsum. rewrite map_size_insert_None in Hsum by (by eapply Hnew). lia.
    + lia.
    + intros p' Hp'. destruct (Hv _ Hp') as [Hnx Hvl]. split; [| done]. apply lookup_insert_is_Some'. by right.
    + intros j g q' l' Hj Hq'. apply list_lookup_insert_Some in Hj as [(-> & <- & _) | [Hne Hj]].
      * apply lookup_insert_Some in Hq' as [[<- <-] | [Hne Hq']].
        -- split; [| unfold q; by rewrite header_plus]. exists p. cbn. rewrite lookup_insert_eq. auto.
        -- destruct (Hheld _ _ _ _ Hi Hq') as [Hhd Hnot]. apply not_elem_of_cons in Hnot as [Hnp Hnot]. split; [| done].
           eapply held_frame; [done | | done]. cbn. by rewrite lookup_insert_ne by done.
      * destruct (Hheld _ _ _ _ Hj Hq') as [Hhd Hnot]. apply not_elem_of_cons in Hnot as [Hnp Hnot]. split; [| done].
        eapply held_frame; [done | | done]. cbn. by rewrite lookup_insert_ne by done.
    + intros j j' g g' q' Hne Hj Hj' Hq'. apply list_lookup_insert_Some in Hj as [(-> & <- & _) | [Hnj Hj]];
        apply list_lookup_insert_Some in Hj' as [(-> & <- & _) | [Hnj' Hj']]; [done | | |].
      * apply lookup_insert_is_Some in Hq' as [<- | [_ Hq']]; [by eapply Hnew | by eapply Hap].
      * destruct (decide (q' = q)) as [-> | Hqq]; [by rewrite (Hnew _ _ Hj) in Hq'; destruct Hq' |]. rewrite lookup_insert_ne by done. by eapply (Hap j j').
      * by eapply (Hap j j').
Qed.

(** The block of [q] goes to the front of the free list. *)
Lemma mem_put_held F hs b i h q l : wf F hs b -> hs !! i = Some h -> h !! q = Some l ->
  exists b', perform (mem_put_locked (header q)) b = Some (tt, b') /\ wf (header q :: F) (<[i := delete q h]> hs) b'.
Proof.
  intros H Hi Hq. pose proof H as [Hl Hn Ha Hc Hh Hs Hw Hv Hheld Hap].
  destruct (Hheld _ _ _ _ Hi Hq) as [(p & -> & Hp & Hnx & Hlen & Hb) Hnot]. rewrite header_plus in *.
  pose proof (total_insert hs i h (delete (plus p MEM_BLOCK_HEAD) h) Hi) as Hsum. rewrite map_size_delete, Hq in Hsum. cbn in Hsum.
  assert (size h <> 0)%nat by (apply map_size_non_empty_iff; by intros ->).
  assert (0 < hot_count (mblks b)) as Hpos by (rewrite Hh; pose proof (total_lookup _ _ _ Hi); lia).
  destruct (hot_s32 _ _ _ (-1) H) as [E1 E2]; [lia.. |]. replace (hot_count (mblks b) + -1) with (hot_count (mblks b) - 1) in E1 by lia.
  replace (cold_count (mblks b) - -1) with (cold_count (mblks b) + 1) in E2 by lia.
  assert (forall q' l' b', held b q' l' -> q' <> plus p MEM_BLOCK_HEAD -> next b' = <[p := free_blks (mblks b)]> (next b) -> bytes b' = bytes b ->
    held b' q' l' /\ (header q' ∉ F -> header q' ∉ p :: F)) as Hother.
  { intros q' l' b' (p' & -> & Hp' & Hnx' & Hl' & Hb') Hne En Eb.
    assert (p' <> p) by congruence. rewrite header_plus. split; [exists p'; rewrite En, Eb, lookup_insert_ne by done; auto |]. rewrite not_elem_of_cons. auto. }
  eexists. split.
  - cbn. unfold set_next. cbn. rewrite Hnx. cbn. rewrite E1, E2. reflexivity.
  - split; cbn; try done.
    + split; [done |]. exists (free_blks (mblks b)). rewrite lookup_insert_eq. split; [done |]. by apply links_insert.
    + by constructor.
    + intros p' [-> | Hp'] % elem_of_cons; [done | by apply Ha].
    + lia.
    + lia.
    + lia.
    + intros p' Hp'. destruct (Hv _ Hp') as [Hnp Hvl]. split; [| done]. apply lookup_insert_is_Some'. by right.
    + intros j g q' l' Hj Hq'. apply list_lookup_insert_Some in Hj as [(-> & <- & _) | [Hne Hj]].
      * apply lookup_delete_Some in Hq' as [Hne Hq']. destruct (Hheld _ _ _ _ Hi Hq') as [Hhd Hno].
        destruct (Hother _ _ {| mblks := with_free_blks p (with_cold (cold_count (mblks b) + 1) (with_hot (hot_count (mblks b) - 1) (mblks b))); next := <[p := free_blks (mblks b)]> (next b); bytes := bytes b |} Hhd) as [H1 H2]; auto.
      * destruct (Hheld _ _ _ _ Hj Hq') as [Hhd Hno].
        assert (q' <> plus p MEM_BLOCK_HEAD) as Hqp. { intros ->. pose proof (Hap i j h g _ Hne Hi Hj (mk_is_Some _ _ Hq)). congruence. }
        destruct (Hother _ _ {| mblks := with_free_blks p (with_cold (cold_count (mblks b) + 1) (with_hot (hot_count (mblks b) - 1) (mblks b))); next := <[p := free_blks (mblks b)]> (next b); bytes := bytes b |} Hhd Hqp) as [H1 H2]; auto.
    + intros j j' g g' q' Hne Hj Hj' Hq'. apply list_lookup_insert_Some in Hj as [(-> & <- & _) | [Hnj Hj]];
        apply list_lookup_insert_Some in Hj' as [(-> & <- & _) | [Hnj' Hj']]; [done | | | by eapply (Hap j j')].
      * eapply (Hap j j'); eauto. destruct Hq' as [l' [_ Hq'] % lookup_delete_Some]. eauto.
      * apply lookup_delete_None. right. by eapply (Hap j j').
Qed.

(** The holder of [q] writes its bytes. *)
Lemma write_held F hs b i h q l l' m : wf F hs b -> hs !! i = Some h -> h !! q = Some l -> length l' = width -> holds m q l' -> only_changes q width (bytes b) m ->
  wf F (<[i := <[q := l']> h]> hs) (with_bytes m b).
Proof.
  intros H Hi Hq Hl' Hm Hch. pose proof H as [Hl Hn Ha Hc Hh Hs Hw Hv Hheld Hap].
  destruct (Hheld _ _ _ _ Hi Hq) as [(p & -> & Hp & Hnx & Hlen & Hb) Hnot]. rewrite header_plus in *.
  assert (forall q2 l2, held b q2 l2 -> q2 <> plus p MEM_BLOCK_HEAD -> held (with_bytes m b) q2 l2) as Hother.
  { intros q2 l2 (p2 & -> & Hp2 & Hn2 & Hl2 & Hb2) Hne. exists p2. split; [done |]. split; [done |]. split; [done |]. split; [done |]. cbn.
    eapply only_changes_holds; [done | | done]. destruct (proj2 Hapart p2 p Hp2 Hp) as [? | ?]; [congruence | |]; unfold at_, plus, MEM_BLOCK_HEAD; lia. }
  split; cbn; try done.
  - pose proof (total_insert hs i h (<[plus p MEM_BLOCK_HEAD := l']> h) Hi) as Hsum. rewrite map_size_insert_Some in Hsum by eauto. lia.
  - intros p2 Hp2. destruct (Hv _ Hp2) as [H1 H2]. split; [done |]. by eapply only_changes_valid.
  - intros j g q2 l2 Hj Hq2. apply list_lookup_insert_Some in Hj as [(-> & <- & _) | [Hne Hj]].
    + apply lookup_insert_Some in Hq2 as [[<- <-] | [Hne Hq2]]; [split; [exists p; auto | by rewrite header_plus] |].
      destruct (Hheld _ _ _ _ Hi Hq2) as [Hhd Hno]. auto.
    + destruct (Hheld _ _ _ _ Hj Hq2) as [Hhd Hno]. split; [| done]. apply Hother; [done |]. intros ->.
      pose proof (Hap i j h g _ Hne Hi Hj (mk_is_Some _ _ Hq)). congruence.
  - assert (forall z, is_Some (<[plus p MEM_BLOCK_HEAD := l']> h !! z) <-> is_Some (h !! z)) as Hdom.
    { intros z. rewrite lookup_insert_is_Some'. split; [intros [<- | ?]; eauto | auto]. }
    intros j j' g g' q2 Hne Hj Hj' Hq2. apply list_lookup_insert_Some in Hj as [(-> & <- & _) | [Hnj Hj]];
      apply list_lookup_insert_Some in Hj' as [(-> & <- & _) | [Hnj' Hj']]; [done | | | by eapply (Hap j j')].
    + rewrite Hdom in Hq2. by eapply (Hap j j').
    + apply eq_None_not_Some. rewrite Hdom. apply eq_None_not_Some. by eapply (Hap j j').
Qed.

(** Where a thread is in its client, holding [h]. *)
Inductive doing (h : holding) : op blocks unit -> Prop :=
  | doing_client c : polite width h c -> doing h (code self c)
  | doing_clear p l k : h !! p = Some l -> p <> nullptr -> polite width (<[p := replicate width 0]> h) (k p) -> doing h (Own (clear p) (fun _ => code self (k p)))
  | doing_put p c : is_Some (h !! p) -> polite width (delete p h) c -> doing h (Locked (mem_put_locked (header p)) (fun _ => code self c)).

(** A block that is held is not null, nor is its header. *)
Lemma held_not_null F hs b i h q l : wf F hs b -> hs !! i = Some h -> h !! q = Some l -> q <> nullptr /\ header q <> nullptr /\ next b !! header q = Some self.
Proof.
  intros H Hi Hq. destruct (wf_held _ _ _ _ _ _ _ _ H _ _ _ _ Hi Hq) as [(p & -> & Hp & Hnx & _) _]. rewrite header_plus.
  split; [unfold plus, nullptr, MEM_BLOCK_HEAD; lia |]. split; [by apply Hapart | done].
Qed.

(** The programs of the client's calls. *)
Lemma code_get k : code self (Get k) = Locked (mem_get_locked self) (fun p => code self (k p)).
Proof. cbn. unfold mem_get. by rewrite bool_decide_eq_false_2. Qed.

Lemma code_get0 k : code self (Get0 k) =
  Locked (mem_get_locked self) (fun p => op_bind (if bool_decide (p = nullptr) then Ret nullptr else Own (clear p) (fun _ => Ret p)) (fun p => code self (k p))).
Proof. cbn. unfold mem_get0, mem_get. by rewrite !bool_decide_eq_false_2. Qed.

Lemma code_put p c : p <> nullptr -> header p <> nullptr ->
  code self (Put p c) = Own (get_next (header p)) (fun m => op_bind (if bool_decide (m = nullptr) then Ret tt else if bool_decide (m = self) then Locked (mem_put_locked (header p)) (fun _ => Ret tt) else Own (fun _ => None) (fun _ : unit => Ret tt)) (fun _ => code self c)).
Proof. intros H1 H2. cbn. unfold mem_put, header in *. change (Z.to_N MEM_BLOCK_HEAD) with 8%N. by rewrite !bool_decide_eq_false_2. Qed.

(** The next step of a thread is defined, and the thread goes on as a client does. *)
Definition goes_on (F : list ptr) (hs : list holding) (b : blocks) (i : nat) (o : op blocks unit) : Prop :=
  exists o' b' F' h', op_step o b = Some (o', b') /\ doing h' o' /\ wf F' (<[i := h']> hs) b'.

Lemma goes_get F hs b i h k : wf F hs b -> hs !! i = Some h -> doing h (k nullptr) ->
  (forall p l, p <> nullptr -> h !! p = None -> length l = width -> doing (<[p := l]> h) (k p)) ->
  goes_on F hs b i (Locked (mem_get_locked self) k).
Proof.
  intros H Hi H0 Hk. destruct F as [| p F].
  - exists (k nullptr), b, [], h. cbn [op_step]. rewrite (mem_get_empty _ _ H). split; [done |]. split; [done |]. by rewrite list_insert_id.
  - destruct (mem_get_first _ _ _ _ _ _ H Hi) as (b' & l & Hp & Hnn & Hnew & Hlen & Hwf). eexists _, b', F, _. cbn [op_step]. rewrite Hp.
    split; [reflexivity |]. split; [by apply Hk | done].
Qed.

Lemma goes_write F hs b i h q l l' m o f : wf F hs b -> hs !! i = Some h -> h !! q = Some l -> length l' = width -> holds m q l' -> only_changes q width (bytes b) m ->
  f b = Some (tt, with_bytes m b) -> doing (<[q := l']> h) (o tt) -> goes_on F hs b i (Own f o).
Proof.
  intros H Hi Hq Hl Hm Hch Hf Hd. eexists _, _, F, _. cbn [op_step]. rewrite Hf. split; [reflexivity |]. split; [done |]. by eapply write_held.
Qed.

(** A byte of a held block. *)
Lemma write_byte_held m q l j v : holds m q l -> (j < length l)%nat ->
  exists m', store m (at_ q j) [v] = Some m' /\ holds m' q (<[j := v]> l) /\ only_changes q (length l) m m'.
Proof.
  intros Hh Hj. destruct (lookup_lt_is_Some_2 l j Hj) as [v0 Hv0]. cbn. rewrite (Hh _ _ Hv0). cbn. eexists. split; [done |]. split; [| split].
  - intros n w Hn. apply list_lookup_insert_Some in Hn as [(-> & <- & _) | [Hne Hn]]; [by rewrite lookup_insert_eq |].
    rewrite lookup_insert_ne by (unfold at_; lia). by apply Hh.
  - rewrite dom_insert_lookup_L; [done |]. by rewrite (Hh _ _ Hv0).
  - intros a Ha. rewrite lookup_insert_ne by (unfold at_ in *; lia). done.
Qed.

Lemma doing_goes F hs b i h o : wf F hs b -> hs !! i = Some h -> doing h o -> o = Ret tt /\ h = ∅ \/ goes_on F hs b i o.
Proof.
  intros H Hi Hd. destruct Hd as [c Hc | p l k Hp Hnn Hk | p c [l Hp] Hc].
  - destruct Hc as [| h k H0 Hk | h k H0 Hk | h p c [l Hp] Hc | h p l j v c Hp Hj Hc | h p l j v k Hp Hj Hc].
    + by left.
    + right. rewrite code_get. apply (goes_get F hs b i h); [done | done | by apply doing_client |]. intros p l Hp Hnew Hl. apply doing_client. auto.
    + right. rewrite code_get0. apply (goes_get F hs b i h); [done | done | by apply doing_client |]. intros p l Hp Hnew Hl.
      rewrite bool_decide_eq_false_2 by done. eapply doing_clear; [by rewrite lookup_insert_eq | done |]. rewrite insert_insert_eq. auto.
    + right. destruct (held_not_null _ _ _ _ _ _ _ H Hi Hp) as (Hnn & Hhn & Hnx). rewrite (code_put _ _ Hnn Hhn).
      eexists _, b, F, h. cbn [op_step]. unfold get_next. rewrite Hnx. cbn [mbind option_bind]. split; [reflexivity |].
      rewrite bool_decide_eq_false_2, bool_decide_eq_true_2 by done. split; [by apply doing_put; [exists l |] | by rewrite list_insert_id].
    + right. destruct (wf_held _ _ _ _ _ _ _ _ H _ _ _ _ Hi Hp) as [(_ & _ & _ & _ & Hl & Hb) _].
      destruct (write_byte_held _ _ _ j v Hb) as (m & Hm & Hm' & Hch); [lia |]. rewrite Hl in Hch.
      eapply (goes_write F hs b i h p l (<[j := v]> l) m); [done | done | done | by rewrite length_insert | done | done | unfold write_byte; by rewrite Hm | by apply doing_client].
    + right. destruct (wf_held _ _ _ _ _ _ _ _ H _ _ _ _ Hi Hp) as [(_ & _ & _ & _ & Hl & Hb) _].
      eexists _, b, F, h. cbn. unfold read_byte. rewrite (Hb _ _ Hj). cbn. split; [reflexivity |]. split; [by apply doing_client | by rewrite list_insert_id].
  - right. destruct (wf_held _ _ _ _ _ _ _ _ H _ _ _ _ Hi Hp) as [(_ & _ & _ & _ & Hl & Hb) _].
    destruct (store_spec (bytes b) p (replicate width 0)) as (m & Hm & Hm' & Hch); [rewrite length_replicate, <- Hl; by eapply holds_valid |].
    rewrite length_replicate in Hch. eapply (goes_write F hs b i h p l (replicate width 0) m); [done | done | done | by rewrite length_replicate | done | done | | by apply doing_client].
    unfold clear. rewrite (wf_size _ _ _ _ _ _ _ _ H), Nat2Z.id, Hm. done.
  - right. destruct (mem_put_held _ _ _ _ _ _ _ H Hi Hp) as (b' & Hb' & Hwf). eexists _, b', _, _. cbn [op_step]. rewrite Hb'.
    split; [reflexivity |]. split; [by apply doing_client | done].
Qed.

(** ** No races *)

(** An access to the bytes: what it does depends on them and on their number only. *)
Definition data_access {B} (f : blocks -> option (B * blocks)) : Prop := forall b x e, f b = Some (x, e) ->
  exists m, e = with_bytes m b /\ forall b2, bytes b2 = bytes b -> real_sizeof_type (mblks b2) = real_sizeof_type (mblks b) -> f b2 = Some (x, with_bytes m b2).

(** An access under the lock: it does not touch the bytes. *)
Definition list_access {B} (g : blocks -> option (B * blocks)) : Prop := forall b x d, g b = Some (x, d) ->
  bytes d = bytes b /\ real_sizeof_type (mblks d) = real_sizeof_type (mblks b) /\ forall m, g (with_bytes m b) = Some (x, with_bytes m d).

Fixpoint list_section {R} (s : section blocks R) : Prop :=
  match s with Unlock _ => True | Do g k => list_access g /\ forall x, list_section (k x) end.

Lemma data_list_commute {B R} (f : blocks -> option (B * blocks)) (s : section blocks R) b : data_access f -> list_section s -> commutes f s b.
Proof.
  intros Hf. revert b. induction s as [r | C g k IH]; intros b; [done |]. intros [Hg Hk] x d1 y e Hgd Hfd.
  destruct (Hg _ _ _ Hgd) as (Eb & Er & Hgm). destruct (Hf _ _ _ Hfd) as (m & -> & Hfm). exists (with_bytes m d1). auto.
Qed.

Lemma list_rd {A} (f : mem_mblks -> A) : list_access (rd (fun b => f (mblks b))).
Proof. intros b x d [= <- <-]. done. Qed.
Lemma list_wr f : (forall m, real_sizeof_type (f m) = real_sizeof_type m) -> list_access (wr f).
Proof. intros Hf b x d [= <- <-]. cbn. by rewrite Hf. Qed.
Lemma list_get_next p : list_access (get_next p).
Proof. intros b x d. unfold get_next. cbn. destruct (next b !! p); [| done]. intros [= <- <-]. done. Qed.
Lemma list_set_next p n : list_access (set_next p n).
Proof. intros b x d. unfold set_next. cbn. destruct (next b !! p); [| done]. intros [= <- <-]. done. Qed.

Lemma mem_get_list : list_section (mem_get_locked self).
Proof. split; [apply list_rd |]. intros cold. destruct (negb _); [| done]. repeat (split; [first [apply list_rd | apply list_get_next | apply list_set_next | by apply list_wr] | intros ?]). done. Qed.
Lemma mem_put_list p : list_section (mem_put_locked p).
Proof. repeat (split; [first [apply list_rd | apply list_get_next | apply list_set_next | by apply list_wr] | intros ?]). done. Qed.

Lemma clear_data p : data_access (clear p).
Proof.
  intros b x e. unfold clear. destruct (store _ _ _) as [m |] eqn:E; [| done]. intros [= <- <-]. exists m. split; [done |].
  intros b2 Eb Er. by rewrite Eb, Er, E.
Qed.
Lemma write_byte_data p v : data_access (write_byte p v).
Proof. intros b x e. unfold write_byte. destruct (store _ _ _) as [m |] eqn:E; [| done]. intros [= <- <-]. exists m. split; [done |]. intros b2 Eb Er. by rewrite Eb, E. Qed.
Lemma read_byte_data p : data_access (read_byte p).
Proof.
  intros b x e. unfold read_byte. destruct (bytes b !! p) as [v |] eqn:E; [| done]. intros [= <- <-]. exists (bytes b). split; [by destruct b |].
  intros b2 Eb Er. rewrite Eb, E. rewrite <- Eb. by destruct b2.
Qed.

(** Reading a header commutes with an access that leaves it. *)
Lemma header_commute {R B} p (g : blocks -> option (B * blocks)) (k : B -> section blocks R) b :
  (forall x d, g b = Some (x, d) -> next d !! p = next b !! p /\ commutes (get_next p) (k x) d) -> commutes (get_next p) (Do g k) b.
Proof.
  intros H x d1 y e Hg. unfold get_next. destruct (next b !! p) as [n |] eqn:E; [| done]. intros [= <- <-].
  destruct (H _ _ Hg) as [Hn Hk]. exists d1. rewrite Hn. auto.
Qed.

Lemma header_mem_get F hs b i h q : wf F hs b -> hs !! i = Some h -> is_Some (h !! q) -> commutes (get_next (header q)) (mem_get_locked self) b.
Proof.
  intros H Hi [l Hq]. destruct (wf_held _ _ _ _ _ _ _ _ H _ _ _ _ Hi Hq) as [_ Hnot]. pose proof (wf_links _ _ _ _ _ _ _ _ H) as Hl.
  pose proof (wf_cold _ _ _ _ _ _ _ _ H) as Hc.
  apply header_commute. intros cold d [= <- <-]. split; [done |]. rewrite Hc. destruct F as [| p F]; [done |].
  rewrite length_cons. destruct (negb _); [| done]. destruct Hl as [Hf _].
  apply header_commute. intros pdata d [= <- <-]. split; [done |]. rewrite Hf. apply not_elem_of_cons in Hnot as [Hne _].
  apply header_commute. intros n d Hn. unfold get_next in Hn. cbn in Hn. destruct (next b !! p) eqn:E; [| done]. injection Hn as <- <-. split; [done |].
  apply header_commute. intros [] d [= <-]. split; [done |].
  apply header_commute. intros [] d Hd. unfold set_next in Hd. cbn in Hd. rewrite E in Hd. injection Hd as <-. split; [cbn; by rewrite lookup_insert_ne |].
  repeat (apply header_commute; intros ? ? [= <- <-]; split; [done |]). done.
Qed.

Lemma header_mem_put p q b : p <> q -> commutes (get_next p) (mem_put_locked q) b.
Proof.
  intros Hne. do 5 (apply header_commute; intros ? ? [= <- <-]; split; [done |]).
  apply header_commute. intros [] d Hd. unfold set_next in Hd. cbn in Hd. destruct (next b !! q); [| done]. injection Hd as <-. split; [cbn; by rewrite lookup_insert_ne |].
  repeat (apply header_commute; intros ? ? [= <- <-]; split; [done |]). done.
Qed.

(** Two sections never have the same block in hand. *)
Lemma headers_differ F hs b i j h g p q : wf F hs b -> i <> j -> hs !! i = Some h -> hs !! j = Some g -> is_Some (h !! p) -> is_Some (g !! q) -> header p <> header q.
Proof.
  intros H Hij Hi Hj [l Hp] [l' Hq] E. pose proof (wf_apart _ _ _ _ _ _ _ _ H i j h g p Hij Hi Hj (mk_is_Some _ _ Hp)) as Hno.
  destruct (wf_held _ _ _ _ _ _ _ _ H _ _ _ _ Hi Hp) as [(p1 & -> & _) _]. destruct (wf_held _ _ _ _ _ _ _ _ H _ _ _ _ Hj Hq) as [(q1 & -> & _) _].
  rewrite !header_plus in E. subst. congruence.
Qed.

Lemma no_race_data {B} (f : blocks -> option (B * blocks)) k F hs j g o b : wf F hs b -> hs !! j = Some g -> data_access f -> doing g o -> no_race (Own f k) o b.
Proof.
  intros H Hj Hf Hd. destruct Hd as [c Hc | p l k' Hp Hnn Hk | p c Hp Hc]; [| done | by apply data_list_commute, mem_put_list].
  destruct Hc as [| g k' H0 Hk | g k' H0 Hk | g p c [l Hp] Hc | g p l j' v c Hp Hj' Hc | g p l j' v k' Hp Hj' Hc]; try done.
  - rewrite code_get. by apply data_list_commute, mem_get_list.
  - rewrite code_get0. by apply data_list_commute, mem_get_list.
  - destruct (held_not_null _ _ _ _ _ _ _ H Hj Hp) as (Hnn & Hhn & _). by rewrite (code_put _ _ Hnn Hhn).
Qed.

Lemma no_race_header F hs b i j h g q k o : wf F hs b -> i <> j -> hs !! i = Some h -> hs !! j = Some g -> is_Some (h !! q) -> doing g o ->
  no_race (Own (get_next (header q)) k) o b.
Proof.
  intros H Hij Hi Hj Hq Hd. destruct Hd as [c Hc | p l k' Hp Hnn Hk | p c Hp Hc]; [| done | apply header_mem_put; by eapply (headers_differ F hs b i j)].
  destruct Hc as [| g k' H0 Hk | g k' H0 Hk | g p c [l Hp] Hc | g p l j' v c Hp Hj' Hc | g p l j' v k' Hp Hj' Hc]; try done.
  - rewrite code_get. by apply (header_mem_get F hs b i h).
  - rewrite code_get0. by apply (header_mem_get F hs b i h).
  - destruct (held_not_null _ _ _ _ _ _ _ H Hj Hp) as (Hnn & Hhn & _). by rewrite (code_put _ _ Hnn Hhn).
Qed.

Lemma doing_no_race F hs b i j h g o o' : wf F hs b -> i <> j -> hs !! i = Some h -> hs !! j = Some g -> doing h o -> doing g o' -> no_race o o' b.
Proof.
  intros H Hij Hi Hj Hd Hd'. destruct Hd as [c Hc | p l k' Hp Hnn Hk | p c Hp Hc]; [| eapply no_race_data; [done | done | apply clear_data | done] | done].
  destruct Hc as [| h k' H0 Hk | h k' H0 Hk | h p c [l Hp] Hc | h p l j' v c Hp Hj' Hc | h p l j' v k' Hp Hj' Hc].
  - done.
  - by rewrite code_get.
  - by rewrite code_get0.
  - destruct (held_not_null _ _ _ _ _ _ _ H Hi Hp) as (Hnn & Hhn & _). rewrite (code_put _ _ Hnn Hhn). eapply no_race_header; eauto.
  - eapply no_race_data; [done | done | apply write_byte_data | done].
  - eapply no_race_data; [done | done | apply read_byte_data | done].
Qed.

(** ** The atomic machine *)

Definition inv (a : @atomic blocks) : Prop := exists F hs, wf F hs (shared a) /\ length hs = length (ops a) /\
  forall i h o, hs !! i = Some h -> ops a !! i = Some o -> doing h o.

Lemma inv_lookup (hs : list holding) (a : @atomic blocks) i o : length hs = length (ops a) -> ops a !! i = Some o -> exists h, hs !! i = Some h.
Proof. intros Hl Ho. apply lookup_lt_is_Some. rewrite Hl. by eapply lookup_lt_Some. Qed.

Lemma inv_quiet a : inv a -> quiet a.
Proof.
  intros (F & hs & H & Hl & Hd). split.
  - intros i o Ho. destruct (inv_lookup _ _ _ _ Hl Ho) as [h Hi].
    destruct (doing_goes _ _ _ _ _ _ H Hi (Hd _ _ _ Hi Ho)) as [[-> _] | (o' & b' & F' & h' & Hs & _)]; [by left | right; eauto].
  - intros i j o o' Hij Ho Ho'. destruct (inv_lookup _ _ _ _ Hl Ho) as [h Hi]. destruct (inv_lookup _ _ _ _ Hl Ho') as [g Hj].
    eapply (doing_no_race F hs _ i j); eauto.
Qed.

Lemma inv_step a i a' : inv a -> atomic_step i a = Some a' -> inv a'.
Proof.
  intros (F & hs & H & Hl & Hd) Hs. unfold atomic_step in Hs. destruct (ops a !! i) as [o |] eqn:Ho; [| done].
  destruct (inv_lookup _ _ _ _ Hl Ho) as [h Hi]. cbn in Hs.
  destruct (doing_goes _ _ _ _ _ _ H Hi (Hd _ _ _ Hi Ho)) as [[-> _] | (o' & b' & F' & h' & E & Hd' & Hw)]; [done |].
  rewrite E in Hs. injection Hs as <-. exists F', (<[i := h']> hs). split; [done |]. cbn. split; [by rewrite !length_insert |].
  intros j g u Hg Hu. apply list_lookup_insert_Some in Hg as [(-> & <- & _) | [Hne Hg]].
  - rewrite list_lookup_insert_eq in Hu by (by eapply lookup_lt_Some). by injection Hu as <-.
  - rewrite list_lookup_insert_ne in Hu by done. by eapply Hd.
Qed.

Lemma inv_run s a a' : inv a -> atomic_run s a = Some a' -> inv a'.
Proof.
  revert a. induction s as [| i s IH]; intros a Ha; cbn; [by intros [= <-] |].
  destruct (atomic_step i a) as [a1 |] eqn:E; [| done]. by apply IH, (inv_step a i).
Qed.

Lemma inv_race_free a : inv a -> race_free a.
Proof. intros Ha s a' Hr. by eapply inv_quiet, inv_run. Qed.

(** With nothing under way, all is back. *)
Lemma inv_done a : inv a -> hot_count (mblks (shared a)) + cold_count (mblks (shared a)) = count /\ 0 <= hot_count (mblks (shared a)) /\ 0 <= cold_count (mblks (shared a)) /\ ((forall o, o ∈ ops a -> o = Ret tt) -> cold_count (mblks (shared a)) = count).
Proof.
  intros (F & hs & H & Hl & Hd). pose proof (wf_hot _ _ _ _ _ _ _ _ H) as Hh. pose proof (wf_cold _ _ _ _ _ _ _ _ H) as Hc. pose proof (wf_count _ _ _ _ _ _ _ _ H) as Hn.
  split; [done |]. split; [lia |]. split; [lia |]. intros Hall.
  enough (total hs = 0%nat) by lia. assert (forall h, h ∈ hs -> h = ∅) as He.
  { intros h [i Hi] % list_elem_of_lookup. destruct (lookup_lt_is_Some_2 (ops a) i) as [o Ho]; [rewrite <- Hl; by eapply lookup_lt_Some |].
    pose proof (Hall o (list_elem_of_lookup_2 _ _ _ Ho)) as ->.
    destruct (doing_goes _ _ _ _ _ _ H Hi (Hd _ _ _ Hi Ho)) as [[_ Hh'] | (o' & b' & F' & h' & E & _)]; done. }
  clear -He. induction hs as [| h hs IH]; [done |]. cbn. rewrite (He h) by by left. rewrite map_size_empty. apply IH. intros g Hg. apply He. by right.
Qed.

End Steps.

(** ** Creation *)

Section Creation.

Context (sizeof_type count : Z) (self : ptr).
Context (Hsize : 0 <= sizeof_type < 2 ^ 63) (Hcount : 0 <= count < 2 ^ 31) (Hfit : (sizeof_type + 8) * count + 88 < 2 ^ 64) (Hself : self <> nullptr).

Abbreviation padded := (sizeof_type + 8).
Abbreviation width := (Z.to_nat sizeof_type).
Abbreviation first := (plus self sizeof_mem_mblks).
Abbreviation room := (padded * count + 88).

(** The address of block [i]. *)
Definition block_at (i : nat) : ptr := plus first (Z.of_nat i * padded).
Definition area : list ptr := map block_at (seq 0 (Z.to_nat count)).

Lemma block_at_eq i : Z.of_N (block_at i) = Z.of_N self + 88 + Z.of_nat i * padded.
Proof. unfold block_at, plus, sizeof_mem_mblks. nia. Qed.

Lemma block_at_S i : plus (block_at i) padded = block_at (S i).
Proof. apply N2Z.inj. rewrite block_at_eq. unfold plus. rewrite N2Z.inj_add, block_at_eq. lia. Qed.

Lemma in_area p : p ∈ area <-> exists i, p = block_at i /\ (i < Z.to_nat count)%nat.
Proof. unfold area. rewrite list_elem_of_fmap. setoid_rewrite elem_of_seq. split; intros (i & -> & Hi); exists i; (split; [done | lia]). Qed.

Lemma area_nodup : NoDup area.
Proof. apply NoDup_fmap_2_strong; [| apply NoDup_seq]. intros i j _ _ E. apply (f_equal Z.of_N) in E. rewrite !block_at_eq in E. nia. Qed.

Lemma area_apart : apart_blocks width area.
Proof.
  split.
  - intros p (i & -> & _) % in_area E. apply (f_equal Z.of_N) in E. rewrite block_at_eq in E. change (Z.of_N nullptr) with 0 in E. nia.
  - intros p q (i & -> & _) % in_area (j & -> & _) % in_area Hne. assert (i <> j) by congruence. pose proof (block_at_eq i). pose proof (block_at_eq j).
    destruct (decide (i < j)%nat); [left | right]; nia.
Qed.

Lemma link_blocks_spec n i m : (i + n <= Z.to_nat count)%nat ->
  exists m', link_blocks n (block_at i) (plus self room) padded m = Some m' /\ links m' (block_at i) (map block_at (seq i n)) (block_at (i + n)) /\
    (forall q, (q < block_at i)%N -> m' !! q = m !! q).
Proof.
  revert i m. induction n as [| n IH]; intros i m Hn; cbn [link_blocks seq map links].
  - exists m. rewrite Nat.add_0_r. done.
  - pose proof (block_at_eq i). pose proof (block_at_eq (S i)). rewrite bool_decide_eq_true_2 by (unfold plus, MEM_BLOCK_HEAD; nia). rewrite block_at_S.
    destruct (IH (S i) (<[block_at i := block_at (S i)]> m)) as (m' & Hm & Hl & Hf); [lia |]. exists m'. split; [done |]. split; [split; [done |] |].
    + exists (block_at (S i)). rewrite Hf, lookup_insert_eq by lia. split; [done |]. by replace (i + S n)%nat with (S i + n)%nat by lia.
    + intros q Hq. rewrite Hf by lia. apply lookup_insert_ne. lia.
Qed.

Lemma zeros_lookup p n i : (i < n)%nat -> zeros p n !! at_ p i = Some 0.
Proof.
  intros Hi. unfold zeros. assert (i ∈ seq 0 n) as H by (apply elem_of_seq; lia). revert H. generalize (seq 0 n). induction l as [| j l IH]; [by intros ? % elem_of_nil |].
  intros [<- | H] % elem_of_cons; cbn; [by rewrite lookup_insert_eq |]. destruct (decide (at_ p j = at_ p i)) as [-> | Hne]; [by rewrite lookup_insert_eq |].
  rewrite lookup_insert_ne by done. auto.
Qed.

Lemma links_lookup m b xs e x : links m b xs e -> x ∈ xs -> is_Some (m !! x).
Proof. revert b. induction xs as [| y xs IH]; intros b; [by intros _ ? % elem_of_nil |]. intros [-> (n & Hn & Hl)] [-> | Hx] % elem_of_cons; [by exists n | by eapply IH]. Qed.

(** A manager that could be created has all its blocks on the free list, with room for the
    type, and nobody holds any. *)
Lemma mem_mblks_new_wf (mem_alloc : Z -> ptr) (threads : nat) : mem_alloc room = self ->
  exists b, mem_mblks_new_fn mem_alloc sizeof_type count = Some (self, Some b) /\
    wf self width count area (block_at (Z.to_nat count)) area (replicate threads ∅) b.
Proof.
  intros Ha. unfold mem_mblks_new_fn, SIZEOF_PER_MEM_BLOCK, sizeof_mem_mblks, MEM_BLOCK_HEAD. rewrite (u64_small (sizeof_type + 8)) by (unfold is_u64; nia).
  rewrite (u64_small count), (u64_small (padded * count)), u64_small by (unfold is_u64; nia). rewrite Ha, bool_decide_eq_false_2 by done.
  replace (room <? 88) with false by (symmetry; apply Z.ltb_ge; nia). replace (2 ^ 31 <=? count) with false by (symmetry; apply Z.leb_gt; lia).
  destruct (link_blocks_spec (Z.to_nat count) 0 ∅) as (m & Hm & Hl & _); [lia |].
  assert (block_at 0 = plus self 88) as E0 by (unfold block_at, plus, sizeof_mem_mblks; lia). rewrite E0 in Hm, Hl. rewrite Hm. cbn [mbind option_bind].
  eexists. split; [reflexivity |]. rewrite s32_small by (unfold is_s32; lia).
  assert (forall i h, replicate threads (∅ : holding) !! i = Some h -> h = ∅) as Hno by (intros i h H % lookup_replicate_1; apply H).
  split; cbn; try done.
  - apply area_nodup.
  - unfold area. rewrite length_map, length_seq. lia.
  - induction threads as [| t IH]; [done |]. cbn. rewrite map_size_empty. apply IH. intros i h Hi. by apply (Hno (S i)).
  - lia.
  - intros p Hp. split; [by eapply links_lookup |]. apply in_area in Hp as (i & -> & Hi). intros j Hj.
    pose proof (block_at_eq i) as E. assert (0 <= Z.of_nat i * padded) by nia. assert (at_ (plus (block_at i) MEM_BLOCK_HEAD) j = at_ self (N.to_nat (block_at i) - N.to_nat self + 8 + j)) as -> by (unfold at_, plus, MEM_BLOCK_HEAD; lia).
    rewrite zeros_lookup; [eauto | nia].
  - intros i h q l Hi Hq. by rewrite (Hno _ _ Hi) in Hq.
  - intros i j h g q _ Hi _ [x Hq]. by rewrite (Hno _ _ Hi) in Hq.
Qed.

End Creation.

(** ** Threads sharing blocks *)

(** C11. Blocks can be shared: when the memory can be had, [mem_mblks_new_fn] gives a manager
    with which any number of threads can take and put back blocks, clear, write and read
    them, in any interleaving of their single accesses. No access is ever undefined; a
    thread that goes on with what it has written, or with the zeros of [mem_get0], is never
    deceived, so nobody else has its block; while the lock is free, the counts add up to the
    number of blocks; and there is always a way on to the end of all threads, where every
    block is back. *)
Theorem mem_blocks_shared (mem_alloc : Z -> ptr) sizeof_type count alloc_at stale (cs : list client) :
  0 <= sizeof_type < 2 ^ 63 -> 0 <= count < 2 ^ 31 -> (sizeof_type + 8) * count + 88 < 2 ^ 64 ->
  let self := mem_alloc ((sizeof_type + 8) * count + 88) in
  self <> nullptr -> Forall (polite (Z.to_nat sizeof_type) ∅) cs ->
  exists b, mem_mblks_new_fn mem_alloc sizeof_type count = Some (self, Some b) /\
  forall s c, run alloc_at stale s (start {| shared := b; ops := map (code self) cs |}) = Some c ->
    (forall i t, threads c !! i = Some t -> finished t = false -> is_Some (step alloc_at stale i c)) /\
    (lock_word c = DFS_LOCK_OFF -> hot_count (mblks (data c)) + cold_count (mblks (data c)) = count /\
      0 <= hot_count (mblks (data c)) /\ 0 <= cold_count (mblks (data c))) /\
    (exists s' c', run alloc_at stale s' c = Some c' /\ (forall t, t ∈ threads c' -> finished t = true) /\ cold_count (mblks (data c')) = count).
Proof.
  intros Hs Hc Hfit self Hself Hcs. destruct (mem_mblks_new_wf sizeof_type count self Hs Hc Hfit Hself mem_alloc (length cs) eq_refl) as (b & Hb & Hwf).
  exists b. split; [done |]. intros s c Hr. pose proof (area_apart sizeof_type count self Hs Hself) as Hap.
  set (a := {| shared := b; ops := map (code self) cs |}) in *. set (all := area sizeof_type count self) in *. set (last := block_at sizeof_type self (Z.to_nat count)) in *.
  assert (inv self (Z.to_nat sizeof_type) count all last a) as Hinv.
  { exists all, (replicate (length cs) ∅). split; [done |]. split; [cbn; by rewrite length_replicate, length_map |].
    intros i h o [-> _] % lookup_replicate_1 Ho. cbn in Ho. rewrite list_lookup_fmap in Ho. destruct (cs !! i) as [k |] eqn:Hk; [| done]. injection Ho as <-.
    apply doing_client. rewrite Forall_lookup in Hcs. by eapply Hcs. }
  assert (race_free a) as Hf by (eapply inv_race_free; [done | done | apply Hc | done]).
  assert (forall s c, run alloc_at stale s (start a) = Some c -> lock_word c = DFS_LOCK_OFF -> exists a', agree alloc_at stale c a' /\ inv self (Z.to_nat sizeof_type) count all last a') as Hsim.
  { intros s1 c1 Hr1 _. destruct (run_simulated _ _ _ _ _ _ (agree_start alloc_at stale a) Hf Hr1) as (s2 & a' & _ & Hr2 & Ha & _).
    exists a'. split; [done |]. eapply inv_run; [done | done | apply Hc | done | done]. }
  pose proof (good_run _ _ _ _ _ (good_start _ _ _ Hf) Hr) as Hg. split; [| split].
  - intros i t. by apply good_defined.
  - intros Hw. destruct (Hsim _ _ Hr Hw) as (a' & Ha & Hi). destruct (agree_finished _ _ _ _ Ha Hw) as [-> _]. by destruct (inv_done _ _ _ _ _ Hself Hap (proj2 Hc) _ Hi) as (? & ? & ? & _).
  - destruct (all_finish _ _ _ Hg) as (s' & c' & Hr' & Hw & Hfin). exists s', c'. split; [done |]. split; [done |].
    destruct (Hsim (s ++ s') c') as (a' & Ha & Hi); [by rewrite (run_app _ _ _ _ _ _ Hr) | done |]. destruct (agree_finished _ _ _ _ Ha Hw) as [-> Ho].
    apply (inv_done _ _ _ _ _ Hself Hap (proj2 Hc) _ Hi). auto.
Qed.

Module OneBlock.

(** Two threads and a block of one byte: each relies on what it should find there. *)
Definition keeper : client :=
  Get (fun p => if bool_decide (p = nullptr) then Done else Write p 0 7 (Read p 0 (fun v => if v =? 7 then Put p Done else Put nullptr Done))).

Definition cleaner : client :=
  Get0 (fun p => if bool_decide (p = nullptr) then keeper else Read p 0 (fun v => if v =? 0 then Put p Done else Put nullptr Done)).

Lemma keeper_polite : polite 1 ∅ keeper.
Proof.
  apply polite_get; [rewrite bool_decide_eq_true_2 by done; constructor |]. intros p l Hp _ Hl. rewrite bool_decide_eq_false_2 by done.
  destruct l as [| v0 [| ? ?]]; [done | | done]. eapply polite_write; [by rewrite lookup_insert_eq | lia |]. cbn. rewrite insert_insert_eq.
  eapply (polite_read _ _ _ [7] 0 7); [by rewrite lookup_insert_eq | done |]. cbn.
  apply polite_put; [rewrite lookup_insert_eq; eauto |]. rewrite delete_insert_id by done. constructor.
Qed.

Lemma cleaner_polite : polite 1 ∅ cleaner.
Proof.
  apply polite_get0; [rewrite bool_decide_eq_true_2 by done; apply keeper_polite |]. intros p Hp _. rewrite bool_decide_eq_false_2 by done.
  eapply (polite_read _ _ _ [0] 0 0); [by rewrite lookup_insert_eq | done |]. cbn.
  apply polite_put; [rewrite lookup_insert_eq; eauto |]. rewrite delete_insert_id by done. constructor.
Qed.

Definition machine_of (cs : list client) : option (@machine blocks) :=
  '(self, b) ← mem_mblks_new_fn (fun _ => 4096%N) 1 1; b ← b; Some (start {| shared := b; ops := map (code self) cs |}).

(** The second thread spins while the first takes the block, finds none, and begins again as
    a keeper. *)
Definition schedule : list nat :=
  (replicate 9 0 ++ [1] ++ replicate 4 0 ++ replicate 4 1 ++ replicate 20 0 ++ replicate 30 1)%nat.

Fixpoint run_while (s : list nat) (c : @machine blocks) : @machine blocks :=
  match s with [] => c | i :: s => run_while s (default c (step 0%N clean i c)) end.

(** However it goes, the block is back in the end. *)
Lemma one_block_run : (c ← machine_of [keeper; cleaner];
    let c := run_while schedule c in Some (map finished (threads c), cold_count (mblks (data c)), lock_word c)) = Some ([true; true], 1, DFS_LOCK_OFF).
Proof. vm_compute. reflexivity. Qed.

End OneBlock.

Import OneBlock.

Lemma mem_blocks_shared_witness : Forall (polite 1 ∅) [keeper; cleaner] /\
  exists b, mem_mblks_new_fn (fun _ => 4096%N) 1 1 = Some (4096%N, Some b) /\
  forall s c, run 0%N clean s (start {| shared := b; ops := map (code 4096%N) [keeper; cleaner] |}) = Some c ->
    (exists s' c', run 0%N clean s' c = Some c' /\ (forall t, t ∈ threads c' -> finished t = true) /\ cold_count (mblks (data c')) = 1).
Proof.
  assert (Forall (polite 1 ∅) [keeper; cleaner]) as Hcs by (constructor; [apply keeper_polite | constructor; [apply cleaner_polite | constructor]]).
  split; [exact Hcs |]. destruct (mem_blocks_shared (fun _ => 4096%N) 1 1 0%N clean [keeper; cleaner]) as (b & Hb & H); [lia | lia | lia | done | exact Hcs |].
  exists b. split; [exact Hb |]. intros s c Hr. apply (H s c Hr).
Defined.
