(* ===== verification/Event.v ===== *)
(** * Events and connections ([src/core/dfs_epoll.cpp], [dfs_event.cpp], parts of [dfs_conn.cpp]
      and [dfs_conn_listen.cpp])

    A connection has a read and a write event; [active] says that the kernel has been asked
    to report it. The kernel's side of epoll is the class [Epoll]: what it watches, by
    descriptor, as events and a pointer - the address of the connection with the instance
    bit of its event in the lowest place, by which reports that come too late are known.

    Events, connections and links are addresses; the link [post_queue] of an event has its
    address. Handlers are parameters: functions of the event on the whole world. *)

From S2P Require Import Prelude Queue.

Definition NGX_OK : Z := 0.
Definition NGX_ERROR : Z := -1.
Definition NGX_AGAIN : Z := -2.
Definition NGX_BUSY : Z := -3.
Definition NGX_INVALID_FILE : Z := -1.

Definition EPOLLIN : Z := 0x001.
Definition EPOLLOUT : Z := 0x004.
Definition EPOLLERR : Z := 0x008.
Definition EPOLLHUP : Z := 0x010.
Definition EPOLLET : Z := Z.shiftl 1 31.
Definition EPOLL_CTL_ADD : Z := 1.
Definition EPOLL_CTL_DEL : Z := 2.
Definition EPOLL_CTL_MOD : Z := 3.

Definition EVENT_CLOSE_EVENT : Z := 1.
Definition EVENT_READ_EVENT : Z := EPOLLIN.
Definition EVENT_WRITE_EVENT : Z := EPOLLOUT.
Definition EVENT_CLEAR_EVENT : Z := 0.
Definition EVENT_UPDATE_TIME : Z := 0x01.
Definition EVENT_POST_EVENTS : Z := 0x02.
Definition EVENT_USE_CLEAR_EVENT : Z := 0x00000004.
Definition EVENT_USE_GREEDY_EVENT : Z := 0x00000020.
Definition EVENT_USE_EPOLL_EVENT : Z := 0x00000040.
Definition EVENT_TIMER_INFINITE : Z := -1.

(** ** State *)

(** [handler] is a function's address; the bits are booleans. The timer's node and the
    logs are elsewhere. *)
(* src/src/core/dfs_event.h:18-36 (event_s) *)
Record event := {
  data : ptr; write : bool; accepted : bool; instance : bool; last_instance : bool; active : bool; ready : bool;
  timedout : bool; timer_set : bool; handler : ptr; available : Z
}.

(* src/src/core/dfs_conn.h:41-68 (conn_s) *)
Record conn := { fd : Z; c_read : ptr; c_write : ptr; listening_of : ptr; ev_timer : ptr; ev_base : ptr }.

(* src/src/core/dfs_epoll.h:17-27 (event_base_s) *)
Record event_base := { ep : Z; event_flags : Z; event_list : ptr; nevents : Z; posted_accept_events : ptr; posted_events : ptr }.

Definition with_active (b : bool) (e : event) : event :=
  {| data := data e; write := write e; accepted := accepted e; instance := instance e; last_instance := last_instance e; active := b; ready := ready e;
     timedout := timedout e; timer_set := timer_set e; handler := handler e; available := available e |}.
Definition with_ready (b : bool) (e : event) : event :=
  {| data := data e; write := write e; accepted := accepted e; instance := instance e; last_instance := last_instance e; active := active e; ready := b;
     timedout := timedout e; timer_set := timer_set e; handler := handler e; available := available e |}.
Definition with_last_instance (b : bool) (e : event) : event :=
  {| data := data e; write := write e; accepted := accepted e; instance := instance e; last_instance := b; active := active e; ready := ready e;
     timedout := timedout e; timer_set := timer_set e; handler := handler e; available := available e |}.
Definition with_timer_set (b : bool) (e : event) : event :=
  {| data := data e; write := write e; accepted := accepted e; instance := instance e; last_instance := last_instance e; active := active e; ready := ready e;
     timedout := timedout e; timer_set := b; handler := handler e; available := available e |}.
Definition with_handler (a : bool) (h : ptr) (e : event) : event :=
  {| data := data e; write := write e; accepted := a; instance := instance e; last_instance := last_instance e; active := active e; ready := ready e;
     timedout := timedout e; timer_set := timer_set e; handler := h; available := available e |}.

(** What [memory_zero] leaves of an event. *)
Definition zero_event : event :=
  {| data := nullptr; write := false; accepted := false; instance := false; last_instance := false; active := false; ready := false;
     timedout := false; timer_set := false; handler := nullptr; available := 0 |}.

Definition with_fd (n : Z) (c : conn) : conn :=
  {| fd := n; c_read := c_read c; c_write := c_write c; listening_of := listening_of c; ev_timer := ev_timer c; ev_base := ev_base c |}.
Definition with_listening (l : ptr) (c : conn) : conn :=
  {| fd := fd c; c_read := c_read c; c_write := c_write c; listening_of := l; ev_timer := ev_timer c; ev_base := ev_base c |}.

(** The kernel: [epoll_ctl op fd event], the result [0] or [-1]; [close]; what is watched. *)
Class Epoll (K : Type) := {
  epoll_ctl : Z -> Z -> Z * ptr -> K -> Z * K;
  sys_close : Z -> K -> Z * K;
  watched : K -> Z -> option (Z * ptr)
}.

(** [(uintptr_t) c | instance]; connections lie at even addresses. *)
Definition tag (c : ptr) (i : bool) : ptr := N.lor c (if i then 1 else 0)%N.
Definition untag (p : ptr) : ptr := N.ldiff p 1.
Definition tag_bit (p : ptr) : bool := N.testbit p 0.

Section Loop.

Context {K : Type} {epoll : Epoll K}.

(** [U] is what the model does not look into: the clock, the timers, the handlers' own data. *)
Context {U : Type}.

Record world := { conns : gmap ptr conn; events : gmap ptr event; links_of : links; kernel : K; rest : U }.

Definition with_conns (x : gmap ptr conn) (w : world) : world := {| conns := x; events := events w; links_of := links_of w; kernel := kernel w; rest := rest w |}.
Definition with_events (x : gmap ptr event) (w : world) : world := {| conns := conns w; events := x; links_of := links_of w; kernel := kernel w; rest := rest w |}.
Definition with_links (x : links) (w : world) : world := {| conns := conns w; events := events w; links_of := x; kernel := kernel w; rest := rest w |}.
Definition with_kernel (x : K) (w : world) : world := {| conns := conns w; events := events w; links_of := links_of w; kernel := x; rest := rest w |}.
Definition with_rest (x : U) (w : world) : world := {| conns := conns w; events := events w; links_of := links_of w; kernel := kernel w; rest := x |}.

(** [e->field = ...], [c->field = ...]. *)
Definition upd_event (e : ptr) (f : event -> event) (w : world) : option world := x ← events w !! e; Some (with_events (<[e := f x]> (events w)) w).
Definition upd_conn (c : ptr) (f : conn -> conn) (w : world) : option world := x ← conns w !! c; Some (with_conns (<[c := f x]> (conns w)) w).

Definition ctl (op n : Z) (ee : Z * ptr) (w : world) : Z * world := let '(rc, k) := epoll_ctl op n ee (kernel w) in (rc, with_kernel k w).

(** ** Asking the kernel *)

(** The other event of the connection is not forgotten. *)
(* src/src/core/dfs_epoll.cpp:65-134 (epoll_add_event) *)
Definition epoll_add_event (ev : ptr) (event flags : Z) (w : world) : option (Z * world) :=
  e ← events w !! ev;
  c ← conns w !! data e;
  let '(aevent, aevents) := if event =? EVENT_READ_EVENT then (c_write c, EPOLLOUT) else (c_read c, EPOLLIN) in
  a ← events w !! aevent;
  let '(op, evs) := if active a then (EPOLL_CTL_MOD, Z.lor event aevents) else (EPOLL_CTL_ADD, event) in
  w ← upd_event ev (with_active true) w;
  let '(rc, w) := ctl op (fd c) (Z.lor evs flags, tag (data e) (instance e)) w in
  if rc =? -1 then w ← upd_event ev (with_active false) w; Some (NGX_ERROR, w)
  else w ← upd_event ev (with_active true) w; Some (NGX_OK, w).

(* src/src/core/dfs_epoll.cpp:136-197 (epoll_del_event) *)
Definition epoll_del_event (ev : ptr) (event flags : Z) (w : world) : option (Z * world) :=
  e ← events w !! ev;
  if negb (Z.land flags EVENT_CLOSE_EVENT =? 0) then w ← upd_event ev (with_active false) w; Some (NGX_OK, w)
  else
    c ← conns w !! data e;
    let '(other, prev) := if event =? EVENT_READ_EVENT then (c_write c, EPOLLOUT) else (c_read c, EPOLLIN) in
    a ← events w !! other;
    let '(rc, w) := if active a then ctl EPOLL_CTL_MOD (fd c) (Z.lor prev flags, tag (data e) (instance e)) w
                    else ctl EPOLL_CTL_DEL (fd c) (event, nullptr) w in
    if rc =? -1 then Some (NGX_ERROR, w) else w ← upd_event ev (with_active false) w; Some (NGX_OK, w).

(* src/src/core/dfs_epoll.cpp:199-224 (epoll_add_connection) *)
Definition epoll_add_connection (cp : ptr) (w : world) : option (Z * world) :=
  if bool_decide (cp = nullptr) then Some (NGX_ERROR, w)
  else
    c ← conns w !! cp;
    r ← events w !! c_read c;
    let '(rc, w) := ctl EPOLL_CTL_ADD (fd c) (Z.lor (Z.lor EPOLLIN EPOLLOUT) EPOLLET, tag cp (instance r)) w in
    if rc =? -1 then Some (NGX_ERROR, w)
    else w ← upd_event (c_read c) (with_active true) w; w ← upd_event (c_write c) (with_active true) w; Some (NGX_OK, w).

(* src/src/core/dfs_epoll.cpp:226-265 (epoll_del_connection) *)
Definition epoll_del_connection (base : option event_base) (cp : ptr) (flags : Z) (w : world) : option (Z * world) :=
  match base with
  | None => Some (NGX_OK, w)
  | Some _ =>
      c ← conns w !! cp;
      let inactive w := w ← upd_event (c_read c) (with_active false) w; w ← upd_event (c_write c) (with_active false) w; Some (NGX_OK, w) in
      if negb (Z.land flags EVENT_CLOSE_EVENT =? 0) then inactive w
      else
        let '(rc, w) := ctl EPOLL_CTL_DEL (fd c) (0, nullptr) w in
        if rc =? -1 then Some (NGX_ERROR, w) else inactive w
  end.

(* src/src/core/dfs_event.cpp:58-71 (event_handle_read) *)
Definition event_handle_read (rev : ptr) (w : world) : option (Z * world) :=
  e ← events w !! rev;
  if negb (active e) && negb (ready e) then
    '(rc, w) ← epoll_add_event rev EVENT_READ_EVENT EVENT_CLEAR_EVENT w;
    Some (if rc =? NGX_ERROR then NGX_ERROR else NGX_OK, w)
  else Some (NGX_OK, w).

(* src/src/core/dfs_event.cpp:73-78 (event_del_read) *)
Definition event_del_read (rev : ptr) (w : world) : option (Z * world) :=
  w ← upd_event rev (with_ready false) w; epoll_del_event rev EVENT_READ_EVENT EVENT_CLEAR_EVENT w.

(* src/src/core/dfs_event.cpp:80-97 (event_handle_write) *)
Definition event_handle_write (wev : ptr) (w : world) : option (Z * world) :=
  e ← events w !! wev;
  if negb (active e) && negb (ready e) then
    '(rc, w) ← epoll_add_event wev EVENT_WRITE_EVENT EVENT_CLEAR_EVENT w;
    Some (if rc =? NGX_ERROR then NGX_ERROR else NGX_OK, w)
  else Some (NGX_OK, w).

(* src/src/core/dfs_event.cpp:99-104 (event_del_write) *)
Definition event_del_write (wev : ptr) (w : world) : option (Z * world) :=
  w ← upd_event wev (with_ready false) w; epoll_del_event wev EVENT_WRITE_EVENT EVENT_CLEAR_EVENT w.

(** ** Connections *)

(** [memory_zero] of an event clears the link it has in a queue of posted events, too. *)
Definition zero_links (e : ptr) (m : links) : links := upd_next e nullptr (upd_prev e nullptr m).

(* src/src/core/dfs_conn.cpp:137-172 (conn_set_default) *)
Definition conn_set_default (cp : ptr) (s : Z) (w : world) : option world :=
  w ← upd_conn cp (fun c => with_listening nullptr (with_fd s c)) w;
  c ← conns w !! cp;
  rev ← events w !! c_read c;
  wev ← events w !! c_write c;
  let w := with_links (zero_links (c_write c) (zero_links (c_read c) (links_of w))) w in
  let i := negb (instance rev) in
  w ← upd_event (c_read c) (fun _ => zero_event) w;
  w ← upd_event (c_write c) (fun _ => zero_event) w;
  w ← upd_event (c_read c) (fun e => {| data := cp; write := write e; accepted := accepted e; instance := i; last_instance := last_instance rev; active := active e;
                                        ready := ready e; timedout := timedout e; timer_set := timer_set e; handler := handler e; available := available e |}) w;
  upd_event (c_write c) (fun e => {| data := cp; write := true; accepted := accepted e; instance := i; last_instance := last_instance e; active := active e;
                                     ready := ready e; timedout := timedout e; timer_set := timer_set e; handler := handler e; available := available e |}) w.

(** [cp], [rp] and [wp] are what [memory_calloc] answers; nothing is given back when one of
    them is null. *)
(* src/src/core/dfs_conn.cpp:113-134 (conn_get_from_mem) *)
Definition conn_get_from_mem (cp rp wp : ptr) (s : Z) (w : world) : option (ptr * world) :=
  let put_conn p v w := if bool_decide (p = nullptr) then w else with_conns (<[p := v]> (conns w)) w in
  let put_event p w := if bool_decide (p = nullptr) then w else with_links (zero_links p (links_of w)) (with_events (<[p := zero_event]> (events w)) w) in
  let w := put_event wp (put_event rp (put_conn cp {| fd := 0; c_read := nullptr; c_write := nullptr; listening_of := nullptr; ev_timer := nullptr; ev_base := nullptr |} w)) in
  if bool_decide (cp = nullptr \/ rp = nullptr \/ wp = nullptr) then Some (nullptr, w)
  else
    w ← upd_conn cp (fun c => {| fd := fd c; c_read := rp; c_write := wp; listening_of := listening_of c; ev_timer := ev_timer c; ev_base := ev_base c |}) w;
    w ← conn_set_default cp s w;
    Some (cp, w).

(* src/src/core/dfs_conn.cpp:216-226 (conn_free_mem) *)
Definition conn_free_mem (cp : ptr) (w : world) : option world :=
  c ← conns w !! cp;
  Some (with_conns (delete cp (conns w)) (with_events (delete (c_write c) (delete (c_read c) (events w))) w)).

(** [timer_del] takes the event's node out of the tree of timers. *)
Context (timer_del : ptr -> U -> option U).

(** [if (ev->timer_set && c->ev_timer) event_timer_del(c->ev_timer, ev)] *)
Definition close_timer (c : conn) (e : ptr) (w : world) : option world :=
  x ← events w !! e;
  if timer_set x && negb (bool_decide (ev_timer c = nullptr)) then u ← timer_del e (rest w); upd_event e (with_timer_set false) (with_rest u w)
  else Some w.

(* src/src/core/dfs_conn.cpp:174-202 (conn_close) *)
Definition conn_close (base : event_base) (cp : ptr) (w : world) : option world :=
  if bool_decide (cp = nullptr) then Some w
  else
    c ← conns w !! cp;
    if 0 <? fd c then
      let w := with_kernel (sys_close (fd c) (kernel w)).2 w in
      w ← upd_conn cp (with_fd NGX_INVALID_FILE) w;
      w ← close_timer c (c_read c) w;
      w ← close_timer c (c_write c) w;
      if bool_decide (ev_base c = nullptr) then Some w
      else '(_, w) ← epoll_del_connection (Some base) cp EVENT_CLOSE_EVENT w; Some w
    else Some w.

(** ** The loop *)

(** The functions at the addresses of the handlers. *)
Context (call : ptr -> ptr -> world -> option world).

Section Base.

Context (base : event_base) (flags : Z).

Definition posting : bool := negb (Z.land flags EVENT_POST_EVENTS =? 0).

(** The flags of a report; errors alone wake both sides. *)
(* src/src/core/dfs_epoll.cpp:362-371 (epoll_process_events: EPOLLERR, EPOLLHUP) *)
Definition report_events (evs : Z) : Z :=
  if negb (Z.land evs (Z.lor EPOLLERR EPOLLHUP) =? 0) && (Z.land evs (Z.lor EPOLLIN EPOLLOUT) =? 0)
  then Z.lor evs (Z.lor EPOLLIN EPOLLOUT) else evs.

(** [inr] is [continue]. *)
(* src/src/core/dfs_epoll.cpp:373-409 (epoll_process_events: read event) *)
Definition process_read (c : conn) (inst : bool) (evs : Z) (w : world) : option (world + world) :=
  rev ← events w !! c_read c;
  if negb (Z.land evs EPOLLIN =? 0) && active rev then
    w ← upd_event (c_read c) (with_ready true) w;
    if bool_decide (handler rev = nullptr) then Some (inr w)
    else if posting then
      w ← upd_event (c_read c) (with_last_instance inst) w;
      l ← queue_insert_tail (if accepted rev then posted_accept_events base else posted_events base) (c_read c) (links_of w);
      Some (inl (with_links l w))
    else w ← call (handler rev) (c_read c) w; Some (inl w)
  else Some (inl w).

(** [rp] is the read event the report was checked against; the connection is read again. *)
(* src/src/core/dfs_epoll.cpp:411-443 (epoll_process_events: write event) *)
Definition process_write (cp rp : ptr) (inst : bool) (evs : Z) (w : world) : option world :=
  c ← conns w !! cp;
  wev ← events w !! c_write c;
  if negb (Z.land evs EPOLLOUT =? 0) && active wev then
    w ← upd_event (c_write c) (with_ready true) w;
    if bool_decide (handler wev = nullptr) then Some w
    else if posting then
      w ← upd_event rp (with_last_instance inst) w;
      l ← queue_insert_tail (posted_events base) (c_write c) (links_of w);
      Some (with_links l w)
    else call (handler wev) (c_write c) w
  else Some w.

(* src/src/core/dfs_epoll.cpp:320-444 (epoll_process_events: one report) *)
Definition process_report (r : Z * ptr) (w : world) : option world :=
  let '(evs, p) := r in
  let cp := untag p in
  c ← conns w !! cp;
  rev ← events w !! c_read c;
  if (fd c =? NGX_INVALID_FILE) || negb (eqb (instance rev) (tag_bit p)) then Some w
  else
    let evs := report_events evs in
    r ← process_read c (tag_bit p) evs w;
    match r with inr w => Some w | inl w => process_write cp (c_read c) (tag_bit p) evs w end.

Fixpoint process_reports (rs : list (Z * ptr)) (w : world) : option world :=
  match rs with [] => Some w | r :: rs => w ← process_report r w; process_reports rs w end.

(** What [epoll_wait] answers: its result, [errno], the reports. [time_update] may be null. *)
(* src/src/core/dfs_epoll.cpp:272-447 (epoll_process_events) *)
Definition epoll_process_events (wait : Z * bool * list (Z * ptr)) (time_update : option (U -> U)) (timer : Z) (w : world) : option (Z * world) :=
  let '(events_num, eintr, rs) := wait in
  let w := match time_update with Some f => if negb (Z.land flags EVENT_UPDATE_TIME =? 0) then with_rest (f (rest w)) w else w | None => w end in
  if events_num =? -1 then Some (if eintr then NGX_OK else NGX_ERROR, w)
  else if events_num =? 0 then Some (if negb (timer =? EVENT_TIMER_INFINITE) then NGX_OK else NGX_ERROR, w)
  else w ← process_reports (take (Z.to_nat events_num) rs) w; Some (NGX_OK, w).

(** The events of a queue, the first first; a closed connection's is dropped. [fuel] bounds
    the turns of the loop. *)
(* src/src/core/dfs_event.cpp:6-56 (event_process_posted) *)
Fixpoint event_process_posted (fuel : nat) (posted : ptr) (w : world) : option world :=
  match fuel with
  | O => None
  | S fuel =>
      empty ← queue_empty posted (links_of w);
      if empty : bool then Some w
      else
        q ← queue_head posted (links_of w);
        l ← queue_remove q (links_of w);
        let w := with_links l w in
        if bool_decide (q = nullptr) then Some w
        else
          ev ← events w !! q;
          c ← conns w !! data ev;
          w ← (if negb (fd c =? NGX_INVALID_FILE) then call (handler ev) q w else Some w);
          event_process_posted fuel posted w
  end.

End Base.

(** ** A thread's turn *)

Section Turn.

(** The timers and the clock are in [rest]: [find_timer] is [event_find_timer], [expire] is
    [event_timers_expire], [msec] is [dfs_current_msec]. [wait] is what [epoll_wait] answers,
    given the timeout; [cli_test] is whether the thread's type is [THREAD_CLI_TEST]. *)
Context (find_timer : U -> option Z) (msec : U -> Z) (expire : world -> option world).

Definition turn_flags (cli_test : bool) : Z := if cli_test then Z.lor EVENT_POST_EVENTS EVENT_UPDATE_TIME else EVENT_UPDATE_TIME.
Definition turn_timer (timer : Z) : Z := if (timer >? 10) || (timer =? EVENT_TIMER_INFINITE) then 10 else timer.

Definition turn_posted (cli_test : bool) (fuel : nat) (posted : ptr) (w : world) : option world :=
  if cli_test then
    empty ← queue_empty posted (links_of w);
    if negb empty then event_process_posted fuel posted w else Some w
  else Some w.

(* src/src/dn_thread.cpp:111-209 (thread_event_process) *)
Definition thread_event_process (base : event_base) (cli_test : bool) (wait : Z -> Z * bool * list (Z * ptr)) (time_update : option (U -> U)) (fuel : nat) (w : world) : option world :=
  timer ← find_timer (rest w);
  let timer := turn_timer timer in
  let before := msec (rest w) in
  '(_, w) ← epoll_process_events base (turn_flags cli_test) (wait timer) time_update timer w;
  w ← turn_posted cli_test fuel (posted_accept_events base) w;
  w ← turn_posted cli_test fuel (posted_events base) w;
  if negb ((msec (rest w) - before) mod 2 ^ 64 =? 0) then expire w else Some w.

End Turn.

(** ** Listening *)

(* src/src/core/dfs_conn_listen.h:15-37 (listening_s: fd, handler, connection) *)
Record listening := { ls_fd : Z; ls_handler : ptr; ls_connection : ptr }.

Definition with_connection (c : ptr) (l : listening) : listening := {| ls_fd := ls_fd l; ls_handler := ls_handler l; ls_connection := c |}.

(** From element [i] on; [first] is the element that [ls->fd] and [ls->handler] name. [at_ls]
    gives the elements' addresses, [memory] what [memory_calloc] answers for element [i]. *)
Fixpoint listening_add_loop (at_ls : nat -> ptr) (memory : nat -> ptr * ptr * ptr) (first : listening) (i : nat) (ls : list listening) (w : world)
    : option (Z * list listening * world) :=
  match ls with
  | [] => Some (NGX_OK, [], w)
  | l :: rest =>
      '(c, l, w) ← (if bool_decide (ls_connection l = nullptr) then
                      let '(cp, rp, wp) := memory i in
                      '(cp, w) ← conn_get_from_mem cp rp wp (ls_fd first) w;
                      if bool_decide (cp = nullptr) then Some (nullptr, l, w)
                      else
                        w ← upd_conn cp (with_listening (at_ls i)) w;
                        c ← conns w !! cp;
                        w ← upd_event (c_read c) (with_handler true (ls_handler first)) w;
                        Some (cp, with_connection cp l, w)
                    else Some (ls_connection l, l, w));
      if bool_decide (c = nullptr) then Some (NGX_ERROR, l :: rest, w)
      else
        x ← conns w !! c;
        '(rc, w) ← epoll_add_event (c_read x) EVENT_READ_EVENT 0 w;
        if rc =? NGX_ERROR then Some (NGX_ERROR, l :: rest, w)
        else '(rc, rest, w) ← listening_add_loop at_ls memory first (S i) rest w; Some (rc, l :: rest, w)
  end.

(* src/src/core/dfs_conn_listen.cpp:265-314 (conn_listening_add_event) *)
Definition conn_listening_add_event (at_ls : nat -> ptr) (memory : nat -> ptr * ptr * ptr) (ls : list listening) (w : world) : option (Z * list listening * world) :=
  match ls with [] => Some (NGX_OK, [], w) | first :: _ => listening_add_loop at_ls memory first 0 ls w end.

(* src/src/core/dfs_conn_listen.cpp:316-335 (conn_listening_del_event) *)
Fixpoint conn_listening_del_event (ls : list listening) (w : world) : option (Z * world) :=
  match ls with
  | [] => Some (NGX_OK, w)
  | l :: ls =>
      c ← conns w !! ls_connection l;
      '(rc, w) ← epoll_del_event (c_read c) EVENT_READ_EVENT 0 w;
      if rc =? NGX_ERROR then Some (NGX_ERROR, w) else conn_listening_del_event ls w
  end.

(** The array is never looked at: [ls] stays null, and its first element is read. *)
(* src/src/core/dfs_conn_listen.cpp:247-261 (conn_listening_close) *)
Definition conn_listening_close (listening : list listening) (w : world) : option (Z * world) :=
  match listening with [] => Some (NGX_OK, w) | _ :: _ => None end.

(** ** Beginning and end *)

(** [create] is what [epoll_create] answers, [calloc] what [memory_calloc] does. *)
(* src/src/core/dfs_epoll.cpp:6-40 (epoll_init) *)
Definition epoll_init (create : Z) (calloc : ptr) (base : event_base) (w : world) : option (Z * event_base * world) :=
  let with_ep n := {| ep := n; event_flags := event_flags base; event_list := event_list base; nevents := nevents base; posted_accept_events := posted_accept_events base; posted_events := posted_events base |} in
  let with_list n l := {| ep := n; event_flags := event_flags base; event_list := l; nevents := nevents base; posted_accept_events := posted_accept_events base; posted_events := posted_events base |} in
  if create =? NGX_INVALID_FILE then Some (NGX_ERROR, with_ep create, w)
  else if bool_decide (calloc = nullptr) then Some (NGX_ERROR, with_list create calloc, w)
  else
    l ← queue_init (posted_accept_events base) (links_of w);
    l ← queue_init (posted_events base) l;
    Some (NGX_OK, {| ep := create; event_flags := Z.lor (Z.lor EVENT_USE_CLEAR_EVENT EVENT_USE_GREEDY_EVENT) EVENT_USE_EPOLL_EVENT; event_list := calloc;
                     nevents := nevents base; posted_accept_events := posted_accept_events base; posted_events := posted_events base |}, with_links l w).

(** The list of reports is freed. *)
(* src/src/core/dfs_epoll.cpp:42-59 (epoll_done) *)
Definition epoll_done (base : event_base) (w : world) : event_base * world :=
  ({| ep := NGX_INVALID_FILE; event_flags := 0; event_list := nullptr; nevents := 0; posted_accept_events := posted_accept_events base; posted_events := posted_events base |},
   with_kernel (sys_close (ep base) (kernel w)).2 w).

(** ** Connecting *)

(** The peer is not null. The answers of the system: the socket, the epoll registration is [epoll_ctl]'s, and
    [connect] with [errno = EINPROGRESS]. [wev] is null when the descriptor was there
    before. *)
(* src/src/core/dfs_conn.cpp:7-78 (conn_connect_peer) *)
Definition conn_connect_peer (cp : ptr) (sock : Z) (connect : Z * bool) (w : world) : option (Z * world) :=
  if bool_decide (cp = nullptr) then Some (NGX_BUSY, w)
  else
    c ← conns w !! cp;
    '(wev, w, fail) ← (if negb (fd c =? NGX_INVALID_FILE) then Some (nullptr, w, false)
                       else w ← upd_conn cp (with_fd sock) w; Some (c_write c, w, sock =? NGX_ERROR));
    if fail : bool then Some (NGX_ERROR, w)
    else
      '(rc, w) ← epoll_add_connection cp w;
      if rc =? NGX_ERROR then Some (NGX_ERROR, w)
      else
        let '(rc, in_progress) := connect in
        if rc =? NGX_ERROR then Some (if in_progress : bool then NGX_AGAIN else NGX_ERROR, w)
        else w ← upd_event wev (with_ready true) w; Some (NGX_OK, w).

(** ** What the kernel watches *)

(** epoll, as documented: a call that fails changes nothing; adding is for descriptors that
    are not watched, changing and deleting for those that are; closing ends the watch. *)
Class EpollOk := {
  ctl_result : forall op n ee k rc k', epoll_ctl op n ee k = (rc, k') -> rc = 0 \/ rc = -1;
  ctl_failed : forall op n ee k k', epoll_ctl op n ee k = (-1, k') -> forall f, watched k' f = watched k f;
  ctl_add : forall n ee k k', epoll_ctl EPOLL_CTL_ADD n ee k = (0, k') -> 0 <= n /\ watched k n = None /\ forall f, watched k' f = if f =? n then Some ee else watched k f;
  ctl_mod : forall n ee k k', epoll_ctl EPOLL_CTL_MOD n ee k = (0, k') -> 0 <= n /\ watched k n <> None /\ forall f, watched k' f = if f =? n then Some ee else watched k f;
  ctl_del : forall n ee k k', epoll_ctl EPOLL_CTL_DEL n ee k = (0, k') -> 0 <= n /\ watched k n <> None /\ forall f, watched k' f = if f =? n then None else watched k f;
  close_unwatches : forall n k f, watched (sys_close n k).2 f = if f =? n then None else watched k f
}.

(** The kernel's side of an open connection is what its events say. *)
Definition agrees (w : world) (cp : ptr) (c : conn) (r v : event) : Prop :=
  data r = cp /\ data v = cp /\ instance r = instance v /\
  match watched (kernel w) (fd c) with
  | None => active r = false /\ active v = false
  | Some (m, p) => p = tag cp (instance r) /\ Z.testbit m 0 = active r /\ Z.testbit m 2 = active v /\ active r || active v = true
  end.

Record consistent (w : world) : Prop := {
  k_events : forall cp c, conns w !! cp = Some c -> cp <> nullptr /\ N.testbit cp 0 = false /\ c_read c <> c_write c /\ is_Some (events w !! c_read c) /\ is_Some (events w !! c_write c);
  k_apart : forall cp cp' c c', conns w !! cp = Some c -> conns w !! cp' = Some c' -> cp <> cp' ->
    c_read c <> c_read c' /\ c_read c <> c_write c' /\ c_write c <> c_write c' /\ (fd c = NGX_INVALID_FILE \/ fd c <> fd c');
  k_open : forall cp c r v, conns w !! cp = Some c -> events w !! c_read c = Some r -> events w !! c_write c = Some v ->
    fd c = NGX_INVALID_FILE \/ 0 < fd c /\ agrees w cp c r v;
  k_watched : forall f x, watched (kernel w) f = Some x -> 0 <= f /\ exists cp c, conns w !! cp = Some c /\ fd c = f
}.

(** A change of the events of one connection and of the kernel's side of it. *)
Definition changes_only (cp : ptr) (c : conn) (w w' : world) : Prop :=
  conns w' = conns w /\
  (forall e, e <> c_read c -> e <> c_write c -> events w' !! e = events w !! e) /\
  is_Some (events w' !! c_read c) /\ is_Some (events w' !! c_write c) /\
  (forall f, f <> fd c -> watched (kernel w') f = watched (kernel w) f) /\
  (fd c = NGX_INVALID_FILE -> watched (kernel w') (fd c) = watched (kernel w) (fd c)).

Lemma consistent_change cp c w w' : consistent w -> conns w !! cp = Some c -> changes_only cp c w w' ->
  (0 < fd c -> forall r v, events w' !! c_read c = Some r -> events w' !! c_write c = Some v -> agrees w' cp c r v) ->
  consistent w'.
Proof.
  intros [He Ha Ho Hw] Hc (Ec & Ee & Hr & Hv & Hk & Hkc) Hag.
  destruct (He _ _ Hc) as (Hn & Hev & Hrw & [r0 Hr0] & [v0 Hv0]).
  assert (fd c = NGX_INVALID_FILE \/ 0 < fd c) as Hfd by (destruct (Ho _ _ _ _ Hc Hr0 Hv0) as [| [? _]]; auto).
  split.
  - intros cp' c' Hc'. rewrite Ec in Hc'. destruct (He _ _ Hc') as (? & ? & ? & Hr' & Hv'). split; [done |]. split; [done |]. split; [done |].
    destruct (decide (cp' = cp)) as [-> | Hne]; [rewrite Hc in Hc'; injection Hc' as <-; done |].
    destruct (Ha _ _ _ _ Hc' Hc Hne) as (Q1 & Q2 & Q3 & _). destruct (Ha _ _ _ _ Hc Hc' (not_eq_sym Hne)) as (_ & Q4 & _ & _). rewrite !Ee by congruence. done.
  - intros cp1 cp2 c1 c2. rewrite Ec. apply Ha.
  - intros cp' c' r v Hc' Hr' Hv'. rewrite Ec in Hc'. destruct (decide (cp' = cp)) as [-> | Hne].
    + rewrite Hc in Hc'. injection Hc' as <-. destruct Hfd as [| Hfd]; [by left |]. right. split; [done | by apply Hag].
    + destruct (Ha _ _ _ _ Hc' Hc Hne) as (Q1 & Q2 & Q3 & Q4). destruct (Ha _ _ _ _ Hc Hc' (not_eq_sym Hne)) as (_ & Q5 & _ & _).
      rewrite Ee in Hr', Hv' by congruence. destruct (Ho _ _ _ _ Hc' Hr' Hv') as [? | [Hpos Hg]]; [by left | right]. split; [done |].
      unfold agrees. rewrite Hk; [done |]. destruct Q4 as [Q4 | Q4]; [unfold NGX_INVALID_FILE in Q4; lia | done].
  - intros f x Hf. rewrite Ec. destruct (decide (f = fd c)) as [-> | Hne].
    + destruct Hfd as [Hfd | Hfd]; [rewrite Hkc in Hf by done; by eapply Hw | split; [lia | by exists cp, c]].
    + rewrite Hk in Hf by done. by eapply Hw.
Qed.

Lemma upd_event_some e f w x : events w !! e = Some x -> upd_event e f w = Some (with_events (<[e := f x]> (events w)) w).
Proof. unfold upd_event. by intros ->. Qed.

(** What [epoll_ctl] makes of the watches, with the result it has. *)
Lemma ctl_add_or_mod {ok : EpollOk} op n ee k rc k' : epoll_ctl op n ee k = (rc, k') -> op = EPOLL_CTL_ADD \/ op = EPOLL_CTL_MOD ->
  rc = -1 /\ (forall f, watched k' f = watched k f) \/ rc = 0 /\ 0 <= n /\ forall f, watched k' f = if f =? n then Some ee else watched k f.
Proof.
  intros E Hop. destruct (ctl_result _ _ _ _ _ _ E) as [-> | ->]; [right | left; split; [done |]; by eapply ctl_failed].
  destruct Hop as [-> | ->]; [apply ctl_add in E | apply ctl_mod in E]; tauto.
Qed.

Lemma ctl_delete {ok : EpollOk} n ee k rc k' : epoll_ctl EPOLL_CTL_DEL n ee k = (rc, k') ->
  rc = -1 /\ (forall f, watched k' f = watched k f) \/ rc = 0 /\ 0 <= n /\ watched k n <> None /\ forall f, watched k' f = if f =? n then None else watched k f.
Proof.
  intros E. destruct (ctl_result _ _ _ _ _ _ E) as [-> | ->]; [right | left; split; [done |]; by eapply ctl_failed]. split; [done | by eapply ctl_del].
Qed.

Section Consistent.

#[local] Arguments Z.testbit : simpl never.
#[local] Arguments Z.lor : simpl never.

Context {ok : EpollOk}.

(** An open connection, with its events. *)
Lemma open_conn w cp c : consistent w -> conns w !! cp = Some c -> fd c <> NGX_INVALID_FILE ->
  exists r v, events w !! c_read c = Some r /\ events w !! c_write c = Some v /\ 0 < fd c /\ agrees w cp c r v /\ cp <> nullptr /\ c_read c <> c_write c.
Proof.
  intros H Hc Hfd. destruct (k_events _ H _ _ Hc) as (Hn & _ & Hrw & [r Hr] & [v Hv]). exists r, v. destruct (k_open _ H _ _ _ _ Hc Hr Hv) as [? | [? ?]]; [done |]. auto 9.
Qed.

(** The events of the connection are [r] and [v] now, the kernel is [k]. *)
Lemma consistent_set w cp c r v r' v' k l u : consistent w -> conns w !! cp = Some c -> events w !! c_read c = Some r -> events w !! c_write c = Some v ->
  0 < fd c -> (forall f, f <> fd c -> watched k f = watched (kernel w) f) ->
  let w' := {| conns := conns w; events := <[c_write c := v']> (<[c_read c := r']> (events w)); links_of := l; kernel := k; rest := u |} in
  agrees w' cp c r' v' -> consistent w'.
Proof.
  intros H Hc Hr Hv Hfd Hk w' Hag. destruct (k_events _ H _ _ Hc) as (_ & _ & Hrw & _).
  apply (consistent_change cp c w); [done | done | | ].
  - split; [done |]. split; [intros e Hne1 Hne2; cbn; by rewrite !lookup_insert_ne |]. cbn. rewrite lookup_insert_eq, lookup_insert_ne, lookup_insert_eq by done.
    split; [eauto |]. split; [eauto |]. split; [done |]. unfold NGX_INVALID_FILE. lia.
  - intros _ r1 v1. cbn. rewrite lookup_insert_eq, lookup_insert_ne, lookup_insert_eq by done. by intros [= <-] [= <-].
Qed.

Lemma set_read (w : world) c r v r' : c_read c <> c_write c -> events w !! c_read c = Some r -> events w !! c_write c = Some v ->
  <[c_read c := r']> (events w) = <[c_write c := v]> (<[c_read c := r']> (events w)).
Proof. intros Hne Hr Hv. rewrite (insert_id (<[_ := r']> _)); [done |]. by rewrite lookup_insert_ne. Qed.

Lemma set_write (w : world) c r v' : c_read c <> c_write c -> events w !! c_read c = Some r ->
  <[c_write c := v']> (events w) = <[c_write c := v']> (<[c_read c := r]> (events w)).
Proof. intros Hne Hr. by rewrite (insert_id (events w) _ r). Qed.

Lemma active_same e b : active e = b -> with_active b e = e.
Proof. intros <-. by destruct e. Qed.

(** One side of a connection. *)
Definition side (rd : bool) (c : conn) : ptr := if rd then c_read c else c_write c.
Definition side_event (rd : bool) : Z := if rd then EVENT_READ_EVENT else EVENT_WRITE_EVENT.
Definition of_side {A} (rd : bool) (r v : A) : A := if rd then r else v.

Lemma set_side (w : world) c r v rd e : c_read c <> c_write c -> events w !! c_read c = Some r -> events w !! c_write c = Some v ->
  <[side rd c := e]> (events w) = <[c_write c := of_side rd v e]> (<[c_read c := of_side rd e r]> (events w)).
Proof. intros. destruct rd; [by eapply set_read | by apply set_write]. Qed.

(** The goals of [agrees] after a call of the kernel. *)
Ltac agree_now Hk :=
  unfold agrees; cbn; rewrite ?Hk, ?Z.eqb_refl; repeat (split; [congruence |]);
  repeat case_match; simplify_eq; destruct_and?; try done; repeat split;
  repeat match goal with H : active ?x = _ |- context [active ?x] => rewrite H end; first [reflexivity | congruence |
    exfalso; repeat match goal with H : active _ = false, H' : _ || _ = true |- _ => rewrite H in H' end; done].

(** Registration of a side that is not active. *)
Lemma add_spec rd w cp c r v : consistent w -> conns w !! cp = Some c -> events w !! c_read c = Some r -> events w !! c_write c = Some v -> 0 < fd c -> agrees w cp c r v ->
  active (of_side rd r v) = false -> exists rc w', epoll_add_event (side rd c) (side_event rd) EVENT_CLEAR_EVENT w = Some (rc, w') /\ consistent w' /\ conns w' = conns w /\ (rc = NGX_OK \/ rc = NGX_ERROR) /\
    exists e, events w' !! side rd c = Some e /\ active e = bool_decide (rc = NGX_OK).
Proof.
  intros H Hc Hr Hv Hfd Hag Hact. pose proof Hag as (Hdr & Hdv & Hin & Hwt). destruct (k_events _ H _ _ Hc) as (Hn & _ & Hrw & _).
  assert (events w !! side rd c = Some (of_side rd r v)) as He by (by destruct rd). assert (data (of_side rd r v) = cp) as Hd by (by destruct rd).
  unfold epoll_add_event. rewrite He. cbn [mbind option_bind]. rewrite Hd, Hc. cbn [mbind option_bind].
  replace (if side_event rd =? EVENT_READ_EVENT then (c_write c, EPOLLOUT) else (c_read c, EPOLLIN)) with (side (negb rd) c, side_event (negb rd)) by (by destruct rd).
  assert (events w !! side (negb rd) c = Some (of_side rd v r)) as Ho by (by destruct rd). rewrite Ho. cbn [mbind option_bind].
  destruct (active (of_side rd v r)) eqn:Hav.
  all: rewrite (upd_event_some _ _ _ _ He); cbn [mbind option_bind]; unfold ctl; cbn [kernel with_events].
  all: destruct (epoll_ctl _ _ _ _) as [rc k'] eqn:E; apply ctl_add_or_mod in E; [| by auto]; destruct E as [(-> & Hk) | (-> & _ & Hk)]; cbn.
  all: unfold upd_event; cbn; rewrite lookup_insert_eq; cbn.
  all: eexists _, _; split; [reflexivity |].
  all: cbn [with_events with_kernel conns events links_of kernel rest]; rewrite insert_insert_eq.
  all: split; [rewrite (set_side w c r v) by done; eapply (consistent_set w cp c r v); [done | done | done | done | done | |] |].
  all: try (intros f Hf; rewrite Hk; rewrite ?(proj2 (Z.eqb_neq f (fd c)) Hf); done).
  all: try (split; [done |]; split; [auto |]; eexists; split; [apply lookup_insert_eq | done]).
  all: destruct rd; cbn in *; agree_now Hk.
Qed.

Lemma consistent_kernel w k' : consistent w -> (forall f, watched k' f = watched (kernel w) f) -> consistent (with_kernel k' w).
Proof.
  intros [He Ha Ho Hw] Hk. split; cbn; [done | done | |].
  - intros cp c r v Hc Hr Hv. destruct (Ho _ _ _ _ Hc Hr Hv) as [? | [? Hag]]; [by left | right]. split; [done |]. unfold agrees in *. cbn. by rewrite Hk.
  - intros f x. rewrite Hk. apply Hw.
Qed.

(** Taking a side back, whether it is active or not. *)
Lemma take_back_spec rd w cp c r v : consistent w -> conns w !! cp = Some c -> events w !! c_read c = Some r -> events w !! c_write c = Some v -> 0 < fd c -> agrees w cp c r v ->
  exists rc w', epoll_del_event (side rd c) (side_event rd) EVENT_CLEAR_EVENT w = Some (rc, w') /\ consistent w' /\ conns w' = conns w.
Proof.
  intros H Hc Hr Hv Hfd Hag. pose proof Hag as (Hdr & Hdv & Hin & Hwt). destruct (k_events _ H _ _ Hc) as (Hn & _ & Hrw & _).
  assert (events w !! side rd c = Some (of_side rd r v)) as He by (by destruct rd). assert (data (of_side rd r v) = cp) as Hd by (by destruct rd).
  unfold epoll_del_event. rewrite He. cbn [mbind option_bind]. change (negb (Z.land EVENT_CLEAR_EVENT EVENT_CLOSE_EVENT =? 0)) with false. cbv iota. rewrite Hd, Hc. cbn [mbind option_bind].
  replace (if side_event rd =? EVENT_READ_EVENT then (c_write c, EPOLLOUT) else (c_read c, EPOLLIN)) with (side (negb rd) c, side_event (negb rd)) by (by destruct rd).
  assert (events w !! side (negb rd) c = Some (of_side rd v r)) as Ho by (by destruct rd). rewrite Ho. cbn [mbind option_bind].
  destruct (active (of_side rd v r)) eqn:Hav; unfold ctl; destruct (epoll_ctl _ _ _ _) as [rc k'] eqn:E; [apply ctl_add_or_mod in E; [| by auto] | apply ctl_delete in E].
  all: destruct E as [(-> & Hk) | (-> & Hk)]; cbn; [eexists _, _; split; [reflexivity |]; split; [by apply consistent_kernel | done] |].
  all: rewrite (upd_event_some _ _ _ (of_side rd r v)) by done; cbn; eexists _, _; split; [reflexivity |]; split; [| done].
  1: destruct Hk as (_ & Hk). 2: destruct Hk as (_ & Hwn & Hk).
  all: cbn [with_events with_kernel conns events links_of kernel rest]; rewrite (set_side w c r v) by done; eapply (consistent_set w cp c r v); [done | done | done | done | done | |].
  all: try (intros f Hf; rewrite Hk; rewrite ?(proj2 (Z.eqb_neq f (fd c)) Hf); done).
  all: destruct rd; cbn in *; agree_now Hk.
Qed.

(** A change of a side that the kernel has no part in. *)
Lemma mark_spec rd f w cp c r v : consistent w -> conns w !! cp = Some c -> events w !! c_read c = Some r -> events w !! c_write c = Some v -> 0 < fd c -> agrees w cp c r v ->
  (forall e, data (f e) = data e /\ instance (f e) = instance e /\ active (f e) = active e) ->
  exists w', upd_event (side rd c) f w = Some w' /\ consistent w' /\ conns w' = conns w /\ events w' !! c_read c = Some (of_side rd (f r) r) /\ events w' !! c_write c = Some (of_side rd v (f v)) /\
    agrees w' cp c (of_side rd (f r) r) (of_side rd v (f v)).
Proof.
  intros H Hc Hr Hv Hfd Hag Hf. destruct (k_events _ H _ _ Hc) as (Hn & _ & Hrw & _).
  assert (agrees w cp c (of_side rd (f r) r) (of_side rd v (f v))) as Hag'.
  { unfold agrees in *. destruct rd; cbn; [destruct (Hf r) as (-> & -> & ->) | destruct (Hf v) as (-> & -> & ->)]; done. }
  destruct rd; cbn in *.
  - rewrite (upd_event_some _ _ _ _ Hr). eexists. split; [reflexivity |]. split; [| split; [done | split; [cbn; by apply lookup_insert_eq | split; [cbn; by rewrite lookup_insert_ne | done]]]].
    rewrite (set_read w c r v) by done. by eapply (consistent_set w cp c r v (f r) v).
  - rewrite (upd_event_some _ _ _ _ Hv). eexists. split; [reflexivity |]. split; [| split; [done | split; [cbn; by rewrite lookup_insert_ne | split; [cbn; by apply lookup_insert_eq | done]]]].
    rewrite (set_write w c r) by done. by eapply (consistent_set w cp c r v r (f v)).
Qed.

Lemma handle_spec (rd : bool) w cp c : consistent w -> conns w !! cp = Some c -> fd c <> NGX_INVALID_FILE ->
  exists rc w', (if rd then event_handle_read (c_read c) w else event_handle_write (c_write c) w) = Some (rc, w') /\ consistent w' /\ conns w' = conns w /\
    exists e, events w' !! side rd c = Some e /\ (rc = NGX_OK -> active e || ready e = true).
Proof.
  intros H Hc Hfd. destruct (open_conn _ _ _ H Hc Hfd) as (r & v & Hr & Hv & Hpos & Hag & Hn & Hrw).
  pose proof (add_spec rd w cp c r v H Hc Hr Hv Hpos Hag) as Hadd.
  assert (events w !! side rd c = Some (of_side rd r v)) as He by (by destruct rd).
  unfold event_handle_read, event_handle_write. destruct rd; cbn in *; rewrite He; cbn [mbind option_bind].
  all: match goal with |- context [negb (active ?e) && negb (ready ?e)] => destruct (active e) eqn:Ea; [| destruct (ready e) eqn:Eb] end; cbn.
  all: try (eexists _, _; split; [reflexivity |]; split; [done |]; split; [done |]; eexists; split; [done |]; intros _; rewrite Ea, ?Eb; done).
  all: destruct (Hadd eq_refl) as (rc & w' & E & Hw' & Hcs & Hrc & e & He' & Hact); rewrite E; cbn; eexists _, _; split; [reflexivity |].
  all: split; [done |]; split; [done |]; exists e; split; [done |]; intros Hok; rewrite Hact.
  all: destruct Hrc as [-> | ->]; done.
Qed.

Lemma del_side_spec (rd : bool) w cp c : consistent w -> conns w !! cp = Some c -> fd c <> NGX_INVALID_FILE ->
  exists rc w', (if rd then event_del_read (c_read c) w else event_del_write (c_write c) w) = Some (rc, w') /\ consistent w' /\ conns w' = conns w.
Proof.
  intros H Hc Hfd. destruct (open_conn _ _ _ H Hc Hfd) as (r & v & Hr & Hv & Hpos & Hag & Hn & Hrw).
  destruct (mark_spec rd (with_ready false) w cp c r v) as (w1 & E1 & H1 & Hc1 & Hr1 & Hv1 & Hag1); [done.. | by intros [] |].
  destruct (take_back_spec rd w1 cp c _ _ H1 ltac:(by rewrite Hc1) Hr1 Hv1 Hpos Hag1) as (rc & w2 & E2 & H2 & Hc2).
  exists rc, w2. unfold event_del_read, event_del_write. destruct rd; cbn in *; rewrite E1; cbn; rewrite E2, Hc2, Hc1; done.
Qed.

(** Both sides at once. *)
Lemma set_both (w : world) c r v b : c_read c <> c_write c -> events w !! c_read c = Some r -> events w !! c_write c = Some v ->
  (w1 ← upd_event (c_read c) (with_active b) w; w1 ← upd_event (c_write c) (with_active b) w1; Some (NGX_OK, w1)) =
  Some (NGX_OK, {| conns := conns w; events := <[c_write c := with_active b v]> (<[c_read c := with_active b r]> (events w)); links_of := links_of w; kernel := kernel w; rest := rest w |}).
Proof.
  intros Hne Hr Hv. rewrite (upd_event_some _ _ _ _ Hr). cbn. rewrite (upd_event_some _ _ _ v) by (cbn; by rewrite lookup_insert_ne). done.
Qed.

Lemma add_connection_spec w cp c : consistent w -> conns w !! cp = Some c -> fd c <> NGX_INVALID_FILE ->
  exists rc w', epoll_add_connection cp w = Some (rc, w') /\ consistent w' /\ conns w' = conns w.
Proof.
  intros H Hc Hfd. destruct (open_conn _ _ _ H Hc Hfd) as (r & v & Hr & Hv & Hpos & Hag & Hn & Hrw). pose proof Hag as (Hdr & Hdv & Hin & Hwt).
  unfold epoll_add_connection. rewrite bool_decide_eq_false_2 by done. rewrite Hc. cbn [mbind option_bind]. rewrite Hr. cbn [mbind option_bind]. unfold ctl.
  destruct (epoll_ctl _ _ _ _) as [rc k'] eqn:E. apply ctl_add_or_mod in E as [(-> & Hk) | (-> & _ & Hk)]; [| | by left]; cbn [Z.eqb].
  - eexists _, _. split; [reflexivity |]. split; [by apply consistent_kernel | done].
  - rewrite (set_both (with_kernel k' w) c r v) by done. eexists _, _. split; [reflexivity |]. split; [| done]. cbn.
    eapply (consistent_set w cp c r v); [done | done | done | done | done | |].
    + intros f Hf. rewrite Hk. by rewrite (proj2 (Z.eqb_neq f (fd c)) Hf).
    + agree_now Hk.
Qed.

Lemma del_connection_spec base w cp c : consistent w -> conns w !! cp = Some c -> fd c <> NGX_INVALID_FILE ->
  exists rc w', epoll_del_connection base cp 0 w = Some (rc, w') /\ consistent w' /\ conns w' = conns w.
Proof.
  intros H Hc Hfd. destruct (open_conn _ _ _ H Hc Hfd) as (r & v & Hr & Hv & Hpos & Hag & Hn & Hrw). pose proof Hag as (Hdr & Hdv & Hin & Hwt).
  unfold epoll_del_connection. destruct base as [base |]; [| by exists NGX_OK, w]. rewrite Hc. cbn [mbind option_bind]. change (negb (Z.land 0 EVENT_CLOSE_EVENT =? 0)) with false. cbv iota.
  unfold ctl. destruct (epoll_ctl _ _ _ _) as [rc k'] eqn:E. apply ctl_delete in E as [(-> & Hk) | (-> & _ & Hwn & Hk)]; cbn [Z.eqb].
  - eexists _, _. split; [reflexivity |]. split; [by apply consistent_kernel | done].
  - rewrite (set_both (with_kernel k' w) c r v) by done. eexists _, _. split; [reflexivity |]. split; [| done]. cbn.
    eapply (consistent_set w cp c r v); [done | done | done | done | done | |].
    + intros f Hf. rewrite Hk. by rewrite (proj2 (Z.eqb_neq f (fd c)) Hf).
    + agree_now Hk.
Qed.

(** The descriptor of a connection changes hands. *)
Lemma consistent_refd cp c c' w w' : consistent w -> conns w !! cp = Some c -> c_read c' = c_read c -> c_write c' = c_write c ->
  conns w' = <[cp := c']> (conns w) ->
  (forall e, e <> c_read c -> e <> c_write c -> events w' !! e = events w !! e) -> is_Some (events w' !! c_read c) -> is_Some (events w' !! c_write c) ->
  (forall f, watched (kernel w') f = if f =? fd c then None else watched (kernel w) f) ->
  (fd c' = NGX_INVALID_FILE \/ 0 < fd c' /\ (forall p x, conns w !! p = Some x -> p <> cp -> fd x <> fd c') /\
    forall r v, events w' !! c_read c = Some r -> events w' !! c_write c = Some v -> agrees w' cp c' r v) ->
  consistent w'.
Proof.
  intros [He Ha Ho Hw] Hc Er Ev Ec Ee Hr Hv Hk Hfd. destruct (He _ _ Hc) as (Hn & Hev & Hrw & _ & _).
  assert (forall p x, conns w' !! p = Some x -> p = cp /\ x = c' \/ p <> cp /\ conns w !! p = Some x) as Hcs.
  { intros p x. rewrite Ec. intros [[<- <-] | [Hne Hp]] % lookup_insert_Some; auto. }
  assert (forall p x, conns w !! p = Some x -> p <> cp -> c_read x <> c_read c /\ c_read x <> c_write c /\ c_write x <> c_read c /\ c_write x <> c_write c) as Hoff.
  { intros p x Hp Hne. destruct (Ha _ _ _ _ Hp Hc Hne) as (Q1 & Q2 & Q3 & _). destruct (Ha _ _ _ _ Hc Hp (not_eq_sym Hne)) as (_ & Q4 & _ & _). auto. }
  split.
  - intros p x [[-> ->] | [Hne Hp]] % Hcs; [rewrite Er, Ev; auto |]. destruct (He _ _ Hp) as (P1 & P2 & P3 & P4 & P5). destruct (Hoff _ _ Hp Hne) as (? & ? & ? & ?). by rewrite !Ee.
  - intros p p' x x' [[-> ->] | [Hne Hp]] % Hcs [[-> ->] | [Hne' Hp']] % Hcs Hpp; [done | | | by eapply Ha].
    + rewrite Er, Ev. destruct (Hoff _ _ Hp' Hne') as (? & ? & ? & ?). split; [congruence |]. split; [congruence |]. split; [congruence |].
      destruct Hfd as [| (_ & Hfd & _)]; [by left | right]. intros E. by apply (Hfd _ _ Hp' Hne').
    + rewrite Er, Ev. destruct (Hoff _ _ Hp Hne) as (? & ? & ? & ?). split; [done |]. split; [done |]. split; [done |].
      destruct Hfd as [-> | (_ & Hfd & _)]; [| right; by apply (Hfd _ _ Hp Hne)]. destruct (decide (fd x = NGX_INVALID_FILE)); auto.
  - intros p x r v [[-> ->] | [Hne Hp]] % Hcs.
    + rewrite Er, Ev. intros Y1 Y2. destruct Hfd as [| (Hpos & _ & Hag)]; [by left | right; auto].
    + destruct (Hoff _ _ Hp Hne) as (? & ? & ? & ?). rewrite !Ee by done. intros Y1 Y2. destruct (Ho _ _ _ _ Hp Y1 Y2) as [? | [Hpos Hag]]; [by left | right].
      split; [done |]. unfold agrees in *. rewrite Hk. destruct (Z.eqb_spec (fd x) (fd c)) as [E | _]; [| done].
      destruct (Ha _ _ _ _ Hp Hc Hne) as (_ & _ & _ & [? | ?]); unfold NGX_INVALID_FILE in *; [lia | done].
  - intros f x. rewrite Hk. destruct (Z.eqb_spec f (fd c)) as [-> | Hf]; [done |]. intros Hx. destruct (Hw _ _ Hx) as (Hpos & p & y & Hp & <-). split; [done |].
    exists p, y. split; [| done]. rewrite Ec, lookup_insert_ne; [done |]. intros ->. congruence.
Qed.

(** A new connection in the place of a closed one. *)
Lemma set_default_spec w cp c s : consistent w -> conns w !! cp = Some c -> fd c = NGX_INVALID_FILE -> 0 < s -> (forall p x, conns w !! p = Some x -> fd x <> s) ->
  exists w', conn_set_default cp s w = Some w' /\ consistent w' /\ conns w' = <[cp := with_listening nullptr (with_fd s c)]> (conns w).
Proof.
  intros H Hc Hfd Hs Hnew. destruct (k_events _ H _ _ Hc) as (Hn & Hev & Hrw & [r Hr] & [v Hv]).
  unfold conn_set_default, upd_conn. rewrite Hc. cbn. rewrite lookup_insert_eq. cbn. rewrite Hr. cbn. rewrite Hv. cbn.
  unfold upd_event. cbn. rewrite Hr. cbn. rewrite lookup_insert_ne, Hv by done. cbn. rewrite lookup_insert_ne, lookup_insert_eq by done. cbn.
  rewrite lookup_insert_ne, lookup_insert_eq by done. cbn. eexists. split; [reflexivity |]. split; [| done].
  assert (forall f, watched (kernel w) f = if f =? fd c then None else watched (kernel w) f) as Hk.
  { intros f. destruct (Z.eqb_spec f (fd c)) as [-> | _]; [| done]. destruct (watched _ _) eqn:E; [| done]. apply (k_watched _ H) in E as [E _]. rewrite Hfd in E. by unfold NGX_INVALID_FILE in E. }
  apply (consistent_refd cp c (with_listening nullptr (with_fd s c)) w); cbn [conns events with_conns with_events with_links kernel]; try done.
  - intros e H1 H2. by rewrite !lookup_insert_ne.
  - rewrite lookup_insert_ne, lookup_insert_eq by done. eauto.
  - rewrite lookup_insert_eq. eauto.
  - right. split; [done |]. split; [intros p x Hp _; by apply (Hnew p) |]. intros r' v'. rewrite lookup_insert_ne, !lookup_insert_eq by done. intros [= <-] [= <-].
    unfold agrees. cbn. repeat (split; [done |]). destruct (watched (kernel w) s) as [[m p] |] eqn:E; [| done].
    apply (k_watched _ H) in E as (_ & q & x & Hq & E). by destruct (Hnew _ _ Hq).
Qed.

(** Closing, with timers that can be taken out. *)
Lemma close_timer_spec (timers : forall e u, is_Some (timer_del e u)) c e w : is_Some (events w !! e) ->
  exists w', close_timer c e w = Some w' /\ conns w' = conns w /\ kernel w' = kernel w /\ (forall x, is_Some (events w !! x) -> is_Some (events w' !! x)) /\ forall x, x <> e -> events w' !! x = events w !! x.
Proof.
  intros [x Hx]. unfold close_timer. rewrite Hx. cbn. destruct (_ && _); [| by exists w]. destruct (timers e (rest w)) as [u ->]. cbn.
  rewrite (upd_event_some _ _ _ x) by done. eexists. split; [reflexivity |]. split; [done |]. split; [done |]. cbn. split.
  - intros y Hy. apply lookup_insert_is_Some'. by right.
  - intros y Hy. by rewrite lookup_insert_ne.
Qed.

Lemma close_spec (timers : forall e u, is_Some (timer_del e u)) base w cp c : consistent w -> conns w !! cp = Some c ->
  exists w', conn_close base cp w = Some w' /\ consistent w'.
Proof.
  intros H Hc. destruct (k_events _ H _ _ Hc) as (Hn & Hev & Hrw & Hr & Hv). unfold conn_close. rewrite bool_decide_eq_false_2 by done. rewrite Hc. cbn [mbind option_bind].
  destruct (Z.ltb_spec 0 (fd c)) as [Hfd |]; [| by exists w].
  unfold upd_conn. cbn [conns with_kernel]. rewrite Hc. cbn [mbind option_bind].
  set (w1 := with_conns _ _).
  destruct (close_timer_spec timers c (c_read c) w1) as (w2 & E2 & Ec2 & Ek2 & Es2 & Ee2); [done |]. rewrite E2. cbn [mbind option_bind].
  destruct (close_timer_spec timers c (c_write c) w2) as (w3 & E3 & Ec3 & Ek3 & Es3 & Ee3); [by apply Es2 |]. rewrite E3. cbn [mbind option_bind].
  assert (consistent w3) as H3.
  { apply (consistent_refd cp c (with_fd NGX_INVALID_FILE c) w); try done.
    - by rewrite Ec3, Ec2.
    - intros e H1 H2. by rewrite Ee3, Ee2.
    - by apply Es3, Es2.
    - by apply Es3, Es2.
    - intros f. rewrite Ek3, Ek2. cbn. apply close_unwatches.
    - by left. }
  destruct (bool_decide _); [by exists w3 |].
  unfold epoll_del_connection. rewrite Ec3, Ec2. cbn [w1 conns with_conns with_kernel]. rewrite lookup_insert_eq. cbn [mbind option_bind].
  change (negb (Z.land EVENT_CLOSE_EVENT EVENT_CLOSE_EVENT =? 0)) with true. cbv iota. cbn [c_read c_write with_fd].
  destruct (Es3 _ (Es2 _ Hr)) as [r3 Hr3]. destruct (Es3 _ (Es2 _ Hv)) as [v3 Hv3]. rewrite (set_both w3 c r3 v3) by done. cbn. eexists. split; [reflexivity |].
  assert (conns w3 !! cp = Some (with_fd NGX_INVALID_FILE c)) as Hc3 by (rewrite Ec3, Ec2; cbn; apply lookup_insert_eq).
  apply (consistent_change cp (with_fd NGX_INVALID_FILE c) w3); [done | done | |].
  - split; [done |]. cbn. split; [intros e H1 H2; by rewrite !lookup_insert_ne |]. rewrite lookup_insert_ne, !lookup_insert_eq by done. eauto.
  - cbn. unfold NGX_INVALID_FILE. lia.
Qed.

End Consistent.

(** ** Histories of connections *)

Inductive conn_op :=
  | Open (cp : ptr) (s : Z)
  | HandleRead (cp : ptr) | HandleWrite (cp : ptr) | DelRead (cp : ptr) | DelWrite (cp : ptr)
  | AddConn (cp : ptr) | DelConn (cp : ptr)
  | Close (cp : ptr).

Definition run_op (base : event_base) (o : conn_op) (w : world) : option world :=
  let on cp (f : conn -> option (Z * world)) := c ← conns w !! cp; '(_, w) ← f c; Some w in
  match o with
  | Open cp s => conn_set_default cp s w
  | HandleRead cp => on cp (fun c => event_handle_read (c_read c) w)
  | HandleWrite cp => on cp (fun c => event_handle_write (c_write c) w)
  | DelRead cp => on cp (fun c => event_del_read (c_read c) w)
  | DelWrite cp => on cp (fun c => event_del_write (c_write c) w)
  | AddConn cp => epoll_add_connection cp w ≫= fun x => Some x.2
  | DelConn cp => epoll_del_connection (Some base) cp 0 w ≫= fun x => Some x.2
  | Close cp => conn_close base cp w
  end.

(** A connection is opened with a descriptor the system has just given, which no other has;
    registration is for open ones. *)
Definition allowed (o : conn_op) (w : world) : Prop :=
  match o with
  | Open cp s => (exists c, conns w !! cp = Some c /\ fd c = NGX_INVALID_FILE) /\ 0 < s /\ forall p x, conns w !! p = Some x -> fd x <> s
  | HandleRead cp | HandleWrite cp | DelRead cp | DelWrite cp | AddConn cp | DelConn cp => exists c, conns w !! cp = Some c /\ fd c <> NGX_INVALID_FILE
  | Close cp => is_Some (conns w !! cp)
  end.

Inductive reachable (base : event_base) (w0 : world) : world -> Prop :=
  | reachable_start : reachable base w0 w0
  | reachable_step w o w' : reachable base w0 w -> allowed o w -> run_op base o w = Some w' -> reachable base w0 w'.

(** As the pool makes them: all closed, each with two events of its own. *)
Definition idle (w : world) : Prop :=
  (forall cp c, conns w !! cp = Some c -> fd c = NGX_INVALID_FILE /\ cp <> nullptr /\ N.testbit cp 0 = false /\ c_read c <> c_write c /\
    is_Some (events w !! c_read c) /\ is_Some (events w !! c_write c)) /\
  (forall cp cp' c c', conns w !! cp = Some c -> conns w !! cp' = Some c' -> cp <> cp' ->
    c_read c <> c_read c' /\ c_read c <> c_write c' /\ c_write c <> c_write c') /\
  (forall f, watched (kernel w) f = None).

Lemma idle_consistent w : idle w -> consistent w.
Proof.
  intros (H & Ha & Hw). split.
  - intros cp c Hc. destruct (H _ _ Hc) as (_ & ? & ? & ? & ? & ?). auto.
  - intros cp cp' c c' Hc Hc' Hne. destruct (Ha _ _ _ _ Hc Hc' Hne) as (? & ? & ?). destruct (H _ _ Hc) as [? _]. auto.
  - intros cp c r v Hc _ _. destruct (H _ _ Hc) as [? _]. auto.
  - intros f x. by rewrite Hw.
Qed.

Lemma run_op_spec {ok : EpollOk} (timers : forall e u, is_Some (timer_del e u)) base o w : consistent w -> allowed o w -> exists w', run_op base o w = Some w' /\ consistent w'.
Proof.
  intros H Hal. destruct o as [cp s | cp | cp | cp | cp | cp | cp | cp]; cbn [run_op allowed] in *.
  - destruct Hal as ((c & Hc & Hfd) & Hs & Hnew). destruct (set_default_spec w cp c s H Hc Hfd Hs Hnew) as (w' & E & Hw & _). eauto.
  - destruct Hal as (c & Hc & Hfd). destruct (handle_spec true w cp c H Hc Hfd) as (rc & w' & E & Hw & _). rewrite Hc. cbn. rewrite E. eauto.
  - destruct Hal as (c & Hc & Hfd). destruct (handle_spec false w cp c H Hc Hfd) as (rc & w' & E & Hw & _). rewrite Hc. cbn. rewrite E. eauto.
  - destruct Hal as (c & Hc & Hfd). destruct (del_side_spec true w cp c H Hc Hfd) as (rc & w' & E & Hw & _). rewrite Hc. cbn. rewrite E. eauto.
  - destruct Hal as (c & Hc & Hfd). destruct (del_side_spec false w cp c H Hc Hfd) as (rc & w' & E & Hw & _). rewrite Hc. cbn. rewrite E. eauto.
  - destruct Hal as (c & Hc & Hfd). destruct (add_connection_spec w cp c H Hc Hfd) as (rc & w' & E & Hw & _). rewrite E. cbn. eauto.
  - destruct Hal as (c & Hc & Hfd). destruct (del_connection_spec (Some base) w cp c H Hc Hfd) as (rc & w' & E & Hw & _). rewrite E. cbn. eauto.
  - destruct Hal as (c & Hc). by eapply close_spec.
Qed.

Lemma reachable_consistent {ok : EpollOk} (timers : forall e u, is_Some (timer_del e u)) base w0 w : idle w0 -> reachable base w0 w -> consistent w.
Proof.
  intros H0 Hr. induction Hr as [| w o w' Hr IH Hal Ho]; [by apply idle_consistent |].
  destruct (run_op_spec timers base o w IH Hal) as (w1 & E & Hw). rewrite Ho in E. by injection E as <-.
Qed.

Lemma untag_tag cp i : N.testbit cp 0 = false -> untag (tag cp i) = cp /\ tag_bit (tag cp i) = i.
Proof.
  intros H. unfold untag, tag, tag_bit. split.
  - apply N.bits_inj. intros n. rewrite N.ldiff_spec, N.lor_spec. destruct (N.eq_dec n 0) as [-> | Hn].
    + by rewrite H; destruct i.
    + replace (N.testbit 1 n) with false by (destruct n as [| p]; [done | by destruct p]). rewrite andb_true_r.
      replace (N.testbit (if i then 1 else 0) n) with false by (destruct i, n as [| p]; [done | by destruct p | done..]). apply orb_false_r.
  - rewrite N.lor_spec, H. by destruct i.
Qed.

(** C8. The kernel watches what the events say: from a pool of closed connections, however
    connections are opened, registered for reading and writing, taken back and closed, and
    whichever calls of [epoll_ctl] fail, every operation is defined; what is watched of an
    open connection are exactly the sides that are active; and every report the kernel could
    give names an open connection, in its present use, so that it is not taken for stale. *)
Theorem epoll_watches_the_active {ok : EpollOk} (timers : forall e u, is_Some (timer_del e u)) base w0 w : idle w0 -> reachable base w0 w ->
  (forall o, allowed o w -> is_Some (run_op base o w)) /\
  (forall cp c r v, conns w !! cp = Some c -> events w !! c_read c = Some r -> events w !! c_write c = Some v -> fd c <> NGX_INVALID_FILE ->
    match watched (kernel w) (fd c) with
    | None => active r = false /\ active v = false
    | Some (m, _) => Z.testbit m 0 = active r /\ Z.testbit m 2 = active v /\ active r || active v = true
    end) /\
  (forall f m p, watched (kernel w) f = Some (m, p) -> exists c r, conns w !! untag p = Some c /\ fd c = f /\ fd c <> NGX_INVALID_FILE /\
    events w !! c_read c = Some r /\ instance r = tag_bit p).
Proof.
  intros H0 Hr. pose proof (reachable_consistent timers _ _ _ H0 Hr) as H. split; [| split].
  - intros o Hal. destruct (run_op_spec timers base o w H Hal) as (w' & E & _). eauto.
  - intros cp c r v Hc Er Ev Hfd. destruct (k_open _ H _ _ _ _ Hc Er Ev) as [? | (_ & _ & _ & _ & Hw)]; [done |].
    destruct (watched _ _) as [[m p] |]; [by destruct Hw | done].
  - intros f m p Hf. destruct (k_watched _ H _ _ Hf) as (Hpos & cp & c & Hc & <-). assert (fd c <> NGX_INVALID_FILE) as Hfd by (unfold NGX_INVALID_FILE; lia).
    destruct (open_conn _ _ _ H Hc Hfd) as (r & v & Er & Ev & _ & (_ & _ & _ & Hw) & _). rewrite Hf in Hw. destruct Hw as (-> & _).
    destruct (k_events _ H _ _ Hc) as (_ & Heven & _). destruct (untag_tag cp (instance r) Heven) as [-> ->]. exists c, r. auto.
Qed.

(** ** Posted events *)

Section Posted.

Context (base : event_base) (flags : Z) (Hpost : posting flags = true).

Record queues (w : world) (xs ys : list ptr) : Prop := {
  q_accept : is_queue (links_of w) (posted_accept_events base) xs;
  q_posted : is_queue (links_of w) (posted_events base) ys;
  q_apart : forall x, x ∈ posted_accept_events base :: xs -> x ∉ posted_events base :: ys
}.

Definition not_posted (e : ptr) (xs ys : list ptr) : Prop := (e ∉ posted_accept_events base :: xs) /\ (e ∉ posted_events base :: ys).

Lemma post_one (acc : bool) e w xs ys : queues w xs ys -> not_posted e xs ys -> allocated (links_of w) e ->
  exists l, queue_insert_tail (if acc then posted_accept_events base else posted_events base) e (links_of w) = Some l /\
    queues (with_links l w) (xs ++ (if acc then [e] else [])) (ys ++ (if acc then [] else [e])) /\ forall x, allocated (links_of w) x -> allocated l x.
Proof.
  intros [Ha Hp Hd] [He1 He2] Hal. destruct acc.
  - destruct (insert_tail_spec _ _ _ _ Ha He1 Hal) as (l & E & Hq & Hoff). exists l. split; [done |]. split; [split |].
    + done.
    + rewrite app_nil_r. eapply is_queue_frame; [exact Hoff | | exact Hp]. intros x Hx Hin. apply elem_of_cons in Hin as [-> | Hin]; [done | by apply (Hd x)].
    + rewrite app_nil_r. intros x Hx. rewrite app_comm_cons, elem_of_app, list_elem_of_singleton in Hx. destruct Hx as [Hx | ->]; [by apply Hd | done].
    + intros x. eapply (Queue.run_op_allocated _ (OpInsertTail e)). exact E.
  - destruct (insert_tail_spec _ _ _ _ Hp He2 Hal) as (l & E & Hq & Hoff). exists l. split; [done |]. split; [split |].
    + rewrite app_nil_r. eapply is_queue_frame; [exact Hoff | | exact Ha]. intros x Hx Hin. apply elem_of_cons in Hin as [-> | Hin]; [done | by apply (Hd x)].
    + done.
    + rewrite app_nil_r. intros x Hx Hin. rewrite app_comm_cons, elem_of_app, list_elem_of_singleton in Hin. destruct Hin as [Hin | ->]; [by apply (Hd x) | done].
    + intros x. eapply (Queue.run_op_allocated _ (OpInsertTail e)). exact E.
Qed.

(** Posting changes no more of an event than its marks. *)
Definition same_event (e e' : event) : Prop :=
  data e' = data e /\ accepted e' = accepted e /\ instance e' = instance e /\ active e' = active e /\ handler e' = handler e.

Record marked (w w' : world) : Prop := {
  m_conns : conns w' = conns w;
  m_kernel : kernel w' = kernel w;
  m_rest : rest w' = rest w;
  m_events : forall e, match events w !! e, events w' !! e with Some x, Some x' => same_event x x' | None, None => True | _, _ => False end;
  m_links : forall x, allocated (links_of w) x -> allocated (links_of w') x
}.

Lemma marked_refl w : marked w w.
Proof. split; try done. intros e. by destruct (events w !! e). Qed.

Lemma marked_trans w w1 w2 : marked w w1 -> marked w1 w2 -> marked w w2.
Proof.
  intros [C K1 R E L] [C' K' R' E' L']. split; [congruence | congruence | congruence | | auto].
  intros e. specialize (E e). specialize (E' e). destruct (events w !! e), (events w1 !! e), (events w2 !! e); try done.
  destruct E as (? & ? & ? & ? & ?), E' as (? & ? & ? & ? & ?). repeat split; congruence.
Qed.

Lemma marked_upd e f w x : events w !! e = Some x -> same_event x (f x) -> marked w (with_events (<[e := f x]> (events w)) w).
Proof.
  intros Hx Hf. split; try done. intros a. cbn. destruct (decide (a = e)) as [-> | Hne]; [by rewrite Hx, lookup_insert_eq |].
  rewrite lookup_insert_ne by done. by destruct (events w !! a).
Qed.

Lemma marked_links l w : (forall x, allocated (links_of w) x -> allocated l x) -> marked w (with_links l w).
Proof. intros H. split; try done. intros e. cbn. by destruct (events w !! e). Qed.

Lemma marked_event w w' e x : marked w w' -> events w !! e = Some x -> exists x', events w' !! e = Some x' /\ same_event x x'.
Proof. intros H Hx. pose proof (m_events _ _ H e) as He. rewrite Hx in He. destruct (events w' !! e) as [x' |]; [eauto | done]. Qed.

(** What a report posts: whether to the queue of accept events, and the event. *)
Definition posts (w : world) (r : Z * ptr) : list (bool * ptr) :=
  match conns w !! untag r.2 with
  | None => []
  | Some c =>
      match events w !! c_read c, events w !! c_write c with
      | Some rev, Some wev =>
          let evs := report_events r.1 in
          let reads := negb (Z.land evs EPOLLIN =? 0) && active rev in
          let writes := negb (Z.land evs EPOLLOUT =? 0) && active wev in
          if (fd c =? NGX_INVALID_FILE) || negb (eqb (instance rev) (tag_bit r.2)) then []
          else if reads && bool_decide (handler rev = nullptr) then []
          else (if reads then [(accepted rev, c_read c)] else []) ++ (if writes && negb (bool_decide (handler wev = nullptr)) then [(false, c_write c)] else [])
      | _, _ => []
      end
  end.

Lemma posts_marked w w' r : marked w w' -> posts w' r = posts w r.
Proof.
  intros H. unfold posts. rewrite (m_conns _ _ H). destruct (conns w !! untag r.2) as [c |]; [| done].
  pose proof (m_events _ _ H (c_read c)) as Hr. pose proof (m_events _ _ H (c_write c)) as Hv.
  destruct (events w !! c_read c), (events w' !! c_read c); try done. destruct (events w !! c_write c), (events w' !! c_write c); try done.
  destruct Hr as (_ & -> & -> & -> & ->), Hv as (_ & _ & _ & -> & ->). done.
Qed.

Definition accepts (ps : list (bool * ptr)) : list ptr := (filter (fun x => x.1 = true) ps).*2.
Definition others (ps : list (bool * ptr)) : list ptr := (filter (fun x => x.1 = false) ps).*2.

Lemma accepts_app ps qs : accepts (ps ++ qs) = accepts ps ++ accepts qs.
Proof. unfold accepts. by rewrite filter_app, fmap_app. Qed.
Lemma others_app ps qs : others (ps ++ qs) = others ps ++ others qs.
Proof. unfold others. by rewrite filter_app, fmap_app. Qed.
Lemma accepts_one b e : accepts [(b, e)] = if b then [e] else [].
Proof. by destruct b. Qed.
Lemma others_one b e : others [(b, e)] = if b then [] else [e].
Proof. by destruct b. Qed.

(** A report of a connection whose events are in no queue. *)
Definition can_post (w : world) (xs ys : list ptr) (r : Z * ptr) : Prop :=
  exists c, conns w !! untag r.2 = Some c /\ is_Some (events w !! c_read c) /\ is_Some (events w !! c_write c) /\ c_read c <> c_write c /\
    allocated (links_of w) (c_read c) /\ allocated (links_of w) (c_write c) /\ not_posted (c_read c) xs ys /\ not_posted (c_write c) xs ys.

(** The read side. *)
Lemma process_read_posts c inst evs w xs ys rev : events w !! c_read c = Some rev -> queues w xs ys -> allocated (links_of w) (c_read c) -> not_posted (c_read c) xs ys ->
  let reads := negb (Z.land evs EPOLLIN =? 0) && active rev in
  exists w', process_read base flags c inst evs w = Some (if reads && bool_decide (handler rev = nullptr) then inr w' else inl w') /\ marked w w' /\
    let ps := if reads && negb (bool_decide (handler rev = nullptr)) then [(accepted rev, c_read c)] else [] in
    queues w' (xs ++ accepts ps) (ys ++ others ps).
Proof.
  intros Hr Hq Hal Hn reads. unfold process_read. rewrite Hr. cbn [mbind option_bind]. fold reads.
  destruct reads; cbn [andb]; [| exists w; rewrite !app_nil_r; auto using marked_refl].
  rewrite (upd_event_some _ _ _ _ Hr). cbn [mbind option_bind]. set (w1 := with_events _ w).
  assert (marked w w1) as M1 by (by apply marked_upd). assert (events w1 !! c_read c = Some (with_ready true rev)) as Hr1 by apply lookup_insert_eq.
  destruct (bool_decide (handler rev = nullptr)); cbn [negb]; [exists w1; cbn; rewrite !app_nil_r; split; [done |]; split; [done | by destruct Hq] |].
  rewrite Hpost, (upd_event_some _ _ _ _ Hr1). cbn [mbind option_bind]. set (w2 := with_events _ w1).
  assert (marked w1 w2) as M2 by (by apply marked_upd).
  destruct (post_one (accepted rev) (c_read c) w2 xs ys) as (l & E & Hq' & Hl); [by destruct Hq | done | done |]. rewrite E. cbn [mbind option_bind].
  eexists. split; [done |]. split; [eapply marked_trans, marked_trans; [exact M1 | exact M2 | by apply marked_links] |]. rewrite accepts_one, others_one. exact Hq'.
Qed.

Lemma process_write_posts cp c inst evs w xs ys rev wev : conns w !! cp = Some c -> events w !! c_read c = Some rev -> events w !! c_write c = Some wev ->
  queues w xs ys -> allocated (links_of w) (c_write c) -> not_posted (c_write c) xs ys ->
  let writes := negb (Z.land evs EPOLLOUT =? 0) && active wev in
  exists w', process_write base flags cp (c_read c) inst evs w = Some w' /\ marked w w' /\
    let ps := if writes && negb (bool_decide (handler wev = nullptr)) then [(false, c_write c)] else [] in
    queues w' (xs ++ accepts ps) (ys ++ others ps).
Proof.
  intros Hc Hr Hv Hq Hal Hn writes. unfold process_write. rewrite Hc. cbn [mbind option_bind]. rewrite Hv. cbn [mbind option_bind]. fold writes.
  destruct writes; cbn [andb]; [| exists w; rewrite !app_nil_r; auto using marked_refl].
  rewrite (upd_event_some _ _ _ _ Hv). cbn [mbind option_bind]. set (w1 := with_events _ w).
  assert (marked w w1) as M1 by (by apply marked_upd).
  destruct (bool_decide (handler wev = nullptr)); cbn [negb]; [exists w1; cbn; rewrite !app_nil_r; split; [done |]; split; [done | by destruct Hq] |].
  destruct (marked_event _ _ _ _ M1 Hr) as (rev1 & Hr1 & _). rewrite Hpost, (upd_event_some _ _ _ _ Hr1). cbn [mbind option_bind]. set (w2 := with_events _ w1).
  assert (marked w1 w2) as M2 by (by apply marked_upd).
  destruct (post_one false (c_write c) w2 xs ys) as (l & E & Hq' & Hl); [by destruct Hq | done | done |]. cbn [links_of w2 with_events] in *. rewrite E. cbn [mbind option_bind].
  eexists. split; [done |]. split; [eapply marked_trans, marked_trans; [exact M1 | exact M2 | by apply marked_links] |]. exact Hq'.
Qed.

Lemma process_report_posts r w xs ys : can_post w xs ys r -> queues w xs ys ->
  exists w', process_report base flags r w = Some w' /\ marked w w' /\ queues w' (xs ++ accepts (posts w r)) (ys ++ others (posts w r)).
Proof.
  intros (c & Hc & [rev Hr] & [wev Hv] & Hne & Har & Hav & Hnr & Hnv) Hq. destruct r as [evs p]. cbn in Hc. unfold process_report, posts. cbn [fst snd].
  rewrite Hc. cbn [mbind option_bind]. rewrite Hr, Hv. cbn [mbind option_bind].
  destruct (_ || _); [exists w; cbn; rewrite !app_nil_r; auto using marked_refl |].
  destruct (process_read_posts c (tag_bit p) (report_events evs) w xs ys rev Hr Hq Har Hnr) as (w1 & E1 & M1 & Q1). rewrite E1. cbn [mbind option_bind].
  set (reads := negb (Z.land (report_events evs) EPOLLIN =? 0) && active rev) in *.
  destruct reads eqn:Ereads, (bool_decide (handler rev = nullptr)) eqn:Eh; cbn [andb negb] in *.
  1: exists w1; cbn in *; auto.
  all: destruct (marked_event _ _ _ _ M1 Hr) as (rev1 & Hr1 & _); destruct (marked_event _ _ _ _ M1 Hv) as (wev1 & Hv1 & (_ & _ & _ & Sa & Sh)).
  all: match type of Q1 with queues _ (_ ++ accepts ?ps) (_ ++ others ?ps) =>
    destruct (process_write_posts (untag p) c (tag_bit p) (report_events evs) w1 (xs ++ accepts ps) (ys ++ others ps) rev1 wev1) as (w2 & E2 & M2 & Q2);
      [by rewrite (m_conns _ _ M1) | done | done | done | by apply (m_links _ _ M1) | | exists w2; rewrite E2; split; [done |]; split; [by eapply marked_trans |];
        rewrite Sa, Sh in Q2; rewrite accepts_app, others_app, !app_assoc; exact Q2] end.
  - destruct Hnv as [N1 N2]. split; rewrite ?accepts_one, ?others_one; destruct (accepted rev); rewrite ?app_nil_r; try done; rewrite app_comm_cons, elem_of_app, list_elem_of_singleton; (intros [? | ?]; [done | congruence]).
  - cbn. rewrite !app_nil_r. exact Hnv.
  - cbn. rewrite !app_nil_r. exact Hnv.
Qed.

(** Different connections, as the kernel reports a descriptor once. *)
Lemma can_post_later w w' xs ys r r' : consistent w -> marked w w' -> untag r.2 <> untag r'.2 -> can_post w xs ys r -> can_post w xs ys r' ->
  can_post w' (xs ++ accepts (posts w r)) (ys ++ others (posts w r)) r'.
Proof.
  clear timer_del call. intros H M Hne (c & Hc & Hr & Hv & Hrw & _ & _ & _ & _) (c' & Hc' & [r1 Hr'] & [v1 Hv'] & Hrw' & Har & Hav & Hnr & Hnv). exists c'. rewrite (m_conns _ _ M).
  split; [done |]. destruct (marked_event _ _ _ _ M Hr') as (r2 & -> & _). destruct (marked_event _ _ _ _ M Hv') as (v2 & -> & _).
  split; [eauto |]. split; [eauto |]. split; [done |]. split; [by apply (m_links _ _ M) |]. split; [by apply (m_links _ _ M) |].
  destruct (k_apart _ H _ _ _ _ Hc Hc' Hne) as (A1 & A2 & A3 & _). destruct (k_apart _ H _ _ _ _ Hc' Hc (not_eq_sym Hne)) as (_ & A4 & _).
  assert (forall b e, (b, e) ∈ posts w r -> e = c_read c \/ e = c_write c) as Hp.
  { intros b e. unfold posts. rewrite Hc. destruct Hr as [r3 ->], Hv as [v3 ->]. repeat case_match; rewrite ?elem_of_app, ?list_elem_of_singleton, ?elem_of_nil; naive_solver. }
  assert (forall e, e ∈ accepts (posts w r) \/ e ∈ others (posts w r) -> e = c_read c \/ e = c_write c) as Hpe.
  { intros e [He | He]; apply list_elem_of_fmap in He as ([b x] & -> & He); apply list_elem_of_filter in He as [_ He]; by eapply Hp. }
  assert (forall e, e <> c_read c -> e <> c_write c -> not_posted e xs ys -> not_posted e (xs ++ accepts (posts w r)) (ys ++ others (posts w r))) as Hnp.
  { intros e N1 N2 [N3 N4]. split; rewrite app_comm_cons, elem_of_app; intros [He | He]; try done; [destruct (Hpe e) | destruct (Hpe e)]; auto. }
  split; apply Hnp; auto.
Qed.

Lemma consistent_marked w w' : consistent w -> marked w w' -> consistent w'.
Proof.
  intros [He Ha Ho Hw] M. pose proof (m_conns _ _ M) as Ec. pose proof (m_kernel _ _ M) as Ek.
  assert (forall e, is_Some (events w !! e) -> is_Some (events w' !! e)) as Hs by (intros e [x Hx]; destruct (marked_event _ _ _ _ M Hx) as (x' & -> & _); eauto).
  split; [| rewrite Ec; exact Ha | | rewrite Ec, Ek; exact Hw].
  - intros cp c Hc. rewrite Ec in Hc. destruct (He _ _ Hc) as (? & ? & ? & ? & ?). auto 9.
  - intros cp c r v Hc Hr Hv. rewrite Ec in Hc. destruct (He _ _ Hc) as (_ & _ & _ & [r0 Hr0] & [v0 Hv0]).
    destruct (marked_event _ _ _ _ M Hr0) as (r1 & E1 & (D1 & _ & I1 & A1 & _)). destruct (marked_event _ _ _ _ M Hv0) as (v1 & E2 & (D2 & _ & I2 & A2 & _)).
    rewrite E1 in Hr. rewrite E2 in Hv. injection Hr as <-. injection Hv as <-. destruct (Ho _ _ _ _ Hc Hr0 Hv0) as [? | [? Hag]]; [by left | right]. split; [done |].
    unfold agrees in *. rewrite Ek. destruct (watched (kernel w) (fd c)) as [[m p] |]; rewrite D1, D2, I1, I2, A1, A2; exact Hag.
Qed.

Lemma process_reports_post rs w xs ys : consistent w -> queues w xs ys -> (forall r, r ∈ rs -> can_post w xs ys r) -> NoDup (map (fun r => untag r.2) rs) ->
  exists w', process_reports base flags rs w = Some w' /\ marked w w' /\
    queues w' (xs ++ accepts (concat (map (posts w) rs))) (ys ++ others (concat (map (posts w) rs))).
Proof.
  revert w xs ys. induction rs as [| r rs IH]; intros w xs ys H Hq Hcan Hnd.
  { exists w. cbn. rewrite !app_nil_r. auto using marked_refl. }
  cbn [process_reports map concat]. cbn [map] in Hnd. apply NoDup_cons in Hnd as [Hr Hnd].
  destruct (process_report_posts r w xs ys) as (w1 & E1 & M1 & Q1); [apply Hcan; by left | done |]. rewrite E1. cbn [mbind option_bind].
  destruct (IH w1 _ _ (consistent_marked _ _ H M1) Q1) as (w2 & E2 & M2 & Q2).
  - intros r' Hr'. apply can_post_later; [done | done | | apply Hcan; by left | apply Hcan; by right].
    intros E. apply Hr. rewrite E. by apply (list_elem_of_fmap_2 (fun r : Z * ptr => untag r.2)).
  - done.
  - exists w2. split; [done |]. split; [by eapply marked_trans |]. rewrite accepts_app, others_app, !app_assoc.
    replace (map (posts w) rs) with (map (posts w1) rs); [done |]. apply map_ext. intros r'. by apply posts_marked.
Qed.

(** Events in the queues, with their connections. *)
Definition waiting (xs ys : list ptr) (w : world) : Prop :=
  queues w xs ys /\ forall e, e ∈ xs ++ ys -> e <> nullptr /\ exists x c, events w !! e = Some x /\ conns w !! data x = Some c.

(** [l] in the one queue, [o] in the other. *)
Definition waiting_in (acc : bool) (l o : list ptr) (w : world) : Prop := if acc then waiting l o w else waiting o l w.
Definition queue_of (acc : bool) : ptr := if acc then posted_accept_events base else posted_events base.

(** What the handlers have been called with, in their own data. *)
Context (log : U -> list ptr).

(** Handlers that leave the events alone that still wait. *)
Definition leaves_waiting : Prop := forall h e w xs ys, waiting xs ys w -> not_posted e xs ys ->
  exists w', call h e w = Some w' /\ waiting xs ys w' /\ log (rest w') = log (rest w) ++ [e].

Definition all_open (l : list ptr) (w : world) : Prop := forall e, e ∈ l -> exists x c, events w !! e = Some x /\ conns w !! data x = Some c /\ fd c <> NGX_INVALID_FILE.

Definition never_close : Prop := forall h e w w' l, call h e w = Some w' -> all_open l w -> all_open l w'.

Lemma take_first acc x l o w : waiting_in acc (x :: l) o w ->
  queue_empty (queue_of acc) (links_of w) = Some false /\ queue_head (queue_of acc) (links_of w) = Some x /\
  exists m, queue_remove x (links_of w) = Some m /\ waiting_in acc l o (with_links m w) /\ (if acc then not_posted x l o else not_posted x o l) /\
    x <> nullptr /\ exists e c, events w !! x = Some e /\ conns w !! data e = Some c.
Proof.
  clear timer_del call Hpost flags log. intros H. assert (exists q, is_queue (links_of w) (queue_of acc) (x :: l) /\ is_queue (links_of w) q o /\ q = queue_of (negb acc) /\
    (forall a, a ∈ queue_of acc :: x :: l -> a ∉ q :: o) /\ x <> nullptr /\ exists e c, events w !! x = Some e /\ conns w !! data e = Some c) as (q & Hq & Ho & Eq & Hd & Hx).
  { destruct acc; destruct H as [[Ha Hp Hd] He]; eexists; (split; [eassumption |]); (split; [eassumption |]); (split; [done |]); split.
    - exact Hd.
    - apply He. by left.
    - intros a Ha1 Ha2. by apply (Hd a).
    - apply He. apply elem_of_app. right. by left. }
  split; [rewrite (empty_spec _ _ _ Hq); done |]. split; [unfold queue_head; by rewrite (is_queue_head _ _ _ Hq) |].
  destruct (remove_spec (links_of w) (queue_of acc) [] x l Hq) as (m & Em & Hm & Hoff & _). cbn in Hm, Hoff. exists m. split; [done |].
  assert (is_queue m q o) as Ho' by (eapply is_queue_frame; [exact Hoff | | exact Ho]; intros a Ha1 Ha2; by apply (Hd a)).
  pose proof (proj1 Hq) as Hnd. rewrite !NoDup_cons in Hnd. destruct Hnd as (Hh & Hx' & _).
  assert (forall a, a ∈ queue_of acc :: l -> a ∉ q :: o) as Hd' by (intros a Ha; apply Hd; set_solver).
  assert (x ∉ queue_of acc :: l) as N1 by set_solver. assert (x ∉ q :: o) as N2 by (apply Hd; set_solver).
  split; [| split; [| exact Hx]].
  - destruct acc; destruct H as [_ He]; subst q; (split; [split; [done | done |] |]).
    + exact Hd'.
    + intros e Hin. apply He. set_solver.
    + intros a Ha1 Ha2. by apply (Hd' a).
    + intros e Hin. apply He. set_solver.
  - subst q. destruct acc; split; done.
Qed.

Lemma drain (Hcall : leaves_waiting) acc l o w fuel : (length l < fuel)%nat -> waiting_in acc l o w ->
  exists w' L, event_process_posted fuel (queue_of acc) w = Some w' /\ waiting_in acc [] o w' /\ log (rest w') = log (rest w) ++ L /\ L `sublist_of` l /\
    (never_close -> all_open (l ++ o) w -> L = l /\ all_open o w').
Proof.
  clear timer_del Hpost flags. revert fuel w. induction l as [| x l IH]; intros [| fuel] w Hf H; [cbn in Hf; lia | | cbn in Hf; lia |].
  - exists w, []. cbn [event_process_posted]. assert (queue_empty (queue_of acc) (links_of w) = Some true) as ->.
    { destruct acc; destruct H as [[Ha Hp _] _]; [apply (empty_spec _ _ _ Ha) | apply (empty_spec _ _ _ Hp)]. }
    cbn. rewrite app_nil_r. split; [done |]. split; [done |]. split; [done |]. split; [constructor | auto].
  - destruct (take_first _ _ _ _ _ H) as (He & Hh & m & Hm & Hw & Hn & Hx & e & c & Hev & Hc). cbn [event_process_posted]. rewrite He. cbn [mbind option_bind].
    rewrite Hh. cbn [mbind option_bind]. rewrite Hm. cbn [mbind option_bind]. rewrite bool_decide_eq_false_2 by done. cbn [events with_links conns]. rewrite Hev. cbn [mbind option_bind]. rewrite Hc. cbn [mbind option_bind].
    destruct (Z.eqb_spec (fd c) NGX_INVALID_FILE) as [Hfd | Hfd]; cbn [negb].
    + destruct (IH fuel (with_links m w)) as (w' & L & E & Hw' & Hlog & Hsub & Hop); [cbn in Hf; lia | done |]. exists w', L. split; [done |]. split; [done |]. split; [done |].
      split; [by constructor |]. intros _ Hall. destruct (Hall x ltac:(by left)) as (e' & c' & E1 & E2 & Hno). rewrite Hev in E1. injection E1 as <-. rewrite Hc in E2. injection E2 as <-. done.
    + assert (exists w1, call (handler e) x (with_links m w) = Some w1 /\ waiting_in acc l o w1 /\ log (rest w1) = log (rest w) ++ [x]) as (w1 & E1 & Hw1 & Hlog1).
      { destruct acc; [destruct (Hcall (handler e) x _ _ _ Hw Hn) as (w1 & ? & ? & ?) | destruct (Hcall (handler e) x _ _ _ Hw Hn) as (w1 & ? & ? & ?)]; by exists w1. }
      rewrite E1. cbn [mbind option_bind]. destruct (IH fuel w1) as (w' & L & E & Hw' & Hlog & Hsub & Hop); [cbn in Hf; lia | done |].
      exists w', (x :: L). split; [done |]. split; [done |]. split; [by rewrite Hlog, Hlog1, <- app_assoc |]. split; [by constructor |].
      intros Hnc Hall. destruct (Hop Hnc) as [-> ?]; [| done]. eapply Hnc; [exact E1 |]. intros a Ha. apply Hall. by right.
Qed.

(** What a round posts can be called for. *)
Lemma posts_waiting w rs : consistent w -> (forall p, (exists c, conns w !! p = Some c /\ (c_read c = nullptr \/ c_write c = nullptr)) -> False) ->
  forall e, e ∈ accepts (concat (map (posts w) rs)) ++ others (concat (map (posts w) rs)) ->
  e <> nullptr /\ exists x c, events w !! e = Some x /\ conns w !! data x = Some c /\ fd c <> NGX_INVALID_FILE.
Proof.
  clear timer_del call. intros H Hnn e He. assert (exists b, (b, e) ∈ concat (map (posts w) rs)) as [b Hb].
  { rewrite elem_of_app in He. destruct He as [He | He]; apply list_elem_of_fmap in He as ([b x] & -> & He); apply list_elem_of_filter in He as [_ He]; eauto. }
  apply list_elem_of_In, in_concat in Hb as (ps & Hps & Hin). apply in_map_iff in Hps as (r & <- & _). apply list_elem_of_In in Hin. unfold posts in Hin.
  destruct (conns w !! untag r.2) as [c |] eqn:Hc; [| by apply elem_of_nil in Hin]. destruct (events w !! c_read c) as [rev |] eqn:Hr; [| by apply elem_of_nil in Hin].
  destruct (events w !! c_write c) as [wev |] eqn:Hv; [| by apply elem_of_nil in Hin]. destruct (Z.eqb_spec (fd c) NGX_INVALID_FILE) as [| Hfd]; [by apply elem_of_nil in Hin |].
  destruct (k_open _ H _ _ _ _ Hc Hr Hv) as [? | (_ & Hdr & Hdv & _)]; [done |].
  assert (e = c_read c \/ e = c_write c) as [-> | ->].
  { revert Hin. cbn. repeat case_match; rewrite ?elem_of_app, ?list_elem_of_singleton, ?elem_of_nil; intros; naive_solver. }
  - split; [intros E; apply (Hnn (untag r.2)); exists c; auto |]. exists rev, c. split; [done |]. split; [by rewrite Hdr | done].
  - split; [intros E; apply (Hnn (untag r.2)); exists c; auto |]. exists wev, c. split; [done |]. split; [by rewrite Hdv | done].
Qed.

Lemma with_rest_same u w : consistent w -> consistent (with_rest u w).
Proof. intros [He Ha Ho Hw]. by split. Qed.

(** The test for an empty queue is made twice. *)
Lemma turn_posted_some fuel posted w w' : event_process_posted fuel posted w = Some w' -> turn_posted true fuel posted w = Some w'.
Proof.
  intros H. unfold turn_posted. destruct fuel as [| fuel]; [done |]. destruct (queue_empty posted (links_of w)) as [[] |] eqn:E; cbn [mbind option_bind negb].
  - cbn [event_process_posted] in H. by rewrite E in H.
  - done.
  - cbn [event_process_posted] in H. by rewrite E in H.
Qed.

(** The steps of a turn: the reports, the accept events, the others. *)
Lemma posted_steps (time_update : option (U -> U)) timer rs fuel w :
  consistent w -> queues w [] [] -> (forall r, r ∈ rs -> can_post w [] [] r) -> NoDup (map (fun r => untag r.2) rs) ->
  (forall p c, conns w !! p = Some c -> c_read c <> nullptr /\ c_write c <> nullptr) -> leaves_waiting ->
  (forall f u, time_update = Some f -> log (f u) = log u) ->
  let A := accepts (concat (map (posts w) rs)) in let B := others (concat (map (posts w) rs)) in (length A < fuel)%nat -> (length B < fuel)%nat ->
  exists rc w1 w2 w3 L, epoll_process_events base flags (Z.of_nat (length rs), false, rs) time_update timer w = Some (rc, w1) /\
    event_process_posted fuel (posted_accept_events base) w1 = Some w2 /\
    event_process_posted fuel (posted_events base) w2 = Some w3 /\
    queues w3 [] [] /\ log (rest w3) = log (rest w) ++ L /\ L `sublist_of` A ++ B /\ (never_close -> L = A ++ B).
Proof.
  clear timer_del. intros Hcon Hq Hcan Hnd Hnn Hcall Hupd A B HfA HfB. unfold epoll_process_events.
  set (w0 := match time_update with Some f => if negb (Z.land flags EVENT_UPDATE_TIME =? 0) then with_rest (f (rest w)) w else w | None => w end).
  assert (log (rest w0) = log (rest w) /\ exists u, w0 = with_rest u w) as [Hlog0 [u E0]].
  { unfold w0. destruct time_update as [f |]; [destruct (negb _) |]; [split; [by apply Hupd | eauto] | |]; (split; [done |]); exists (rest w); by destruct w. }
  rewrite E0 in *. clear w0 E0.
  destruct (process_reports_post rs (with_rest u w) [] []) as (w1 & E1 & M1 & Q1); [by apply with_rest_same | by destruct Hq | exact Hcan | done |].
  change (map (posts (with_rest u w)) rs) with (map (posts w) rs) in Q1. fold A B in Q1. cbn [app] in Q1.
  assert (forall e, e ∈ A ++ B -> e <> nullptr /\ exists x c, events w1 !! e = Some x /\ conns w1 !! data x = Some c /\ fd c <> NGX_INVALID_FILE) as Hw.
  { intros e He. destruct (posts_waiting w rs Hcon) with (e := e) as (Hne & x & c & Hx & Hc & Hfd); [intros p (c & Hc & [? | ?]); by destruct (Hnn _ _ Hc) | done |].
    split; [done |]. destruct (marked_event _ _ e x M1 Hx) as (x' & Hx' & (Hd & _)). exists x', c. split; [done |]. rewrite Hd, (m_conns _ _ M1). done. }
  replace (Z.of_nat (length rs) =? -1) with false by (symmetry; apply Z.eqb_neq; lia).
  assert (exists rc, (if Z.of_nat (length rs) =? 0 then Some (if negb (timer =? EVENT_TIMER_INFINITE) then NGX_OK else NGX_ERROR, with_rest u w)
    else w1 ← process_reports base flags (take (Z.to_nat (Z.of_nat (length rs))) rs) (with_rest u w); Some (NGX_OK, w1)) = Some (rc, w1)) as [rc ->].
  { rewrite Nat2Z.id, firstn_all, E1. cbn [mbind option_bind]. destruct rs; [| by eexists]. injection E1 as <-. by eexists. }
  destruct (drain Hcall true A B w1 fuel) as (w2 & L1 & E2 & W2 & G2 & S2 & C2); [exact HfA | split; [exact Q1 |]; intros e He; destruct (Hw e He) as (? & x & c & ? & ? & ?); eauto |].
  destruct (drain Hcall false B [] w2 fuel) as (w3 & L2 & E3 & W3 & G3 & S3 & C3); [exact HfB | exact W2 |].
  exists rc, w1, w2, w3, (L1 ++ L2). split; [done |]. split; [exact E2 |]. split; [exact E3 |]. split; [apply W3 |].
  split; [by rewrite G3, G2, (m_rest _ _ M1), Hlog0, <- app_assoc |]. split; [by apply sublist_app |].
  intros Hnc. destruct (C2 Hnc) as [-> Ho]; [intros e He; destruct (Hw e He) as (_ & ?); done |]. destruct (C3 Hnc) as [-> _]; [| done]. by rewrite app_nil_r.
Qed.

End Posted.

(** C9. A turn of a thread that posts its events: the reports of the kernel, one for each
    connection, are sorted into accept events and others; then the two queues are worked off,
    and the timers if time has passed. No step before that is undefined, if the handlers leave
    alone the events that still wait; both queues are empty then; and the handlers have been
    called for posted events only, each at most once, all accept events before all others, and
    in the order of the reports, which are those of active sides of open connections in their
    present use. If no handler closes a connection, all of them have been called. *)
Theorem posted_round (base : event_base) (log : U -> list ptr) find_timer msec expire wait time_update timer rs fuel w :
  find_timer (rest w) = Some timer -> wait (turn_timer timer) = (Z.of_nat (length rs), false, rs) ->
  consistent w -> queues base w [] [] -> (forall r, r ∈ rs -> can_post base w [] [] r) -> NoDup (map (fun r => untag r.2) rs) ->
  (forall p c, conns w !! p = Some c -> c_read c <> nullptr /\ c_write c <> nullptr) -> leaves_waiting base log ->
  (forall f u, time_update = Some f -> log (f u) = log u) ->
  let A := accepts (concat (map (posts w) rs)) in let B := others (concat (map (posts w) rs)) in (length A < fuel)%nat -> (length B < fuel)%nat ->
  exists w' L, thread_event_process find_timer msec expire base true wait time_update fuel w =
      (if negb ((msec (rest w') - msec (rest w)) mod 2 ^ 64 =? 0) then expire w' else Some w') /\
    queues base w' [] [] /\ log (rest w') = log (rest w) ++ L /\ L `sublist_of` A ++ B /\ (never_close -> L = A ++ B).
Proof.
  clear timer_del. intros Ht Hwait Hcon Hq Hcan Hnd Hnn Hcall Hupd A B HfA HfB.
  destruct (posted_steps base (turn_flags true) eq_refl log time_update (turn_timer timer) rs fuel w Hcon Hq Hcan Hnd Hnn Hcall Hupd HfA HfB)
    as (rc & w1 & w2 & w3 & L & E1 & E2 & E3 & Hq3 & Hlog & Hsub & Hall).
  exists w3, L. split; [| auto]. unfold thread_event_process. rewrite Ht. cbn [mbind option_bind]. rewrite Hwait, E1. cbn [mbind option_bind].
  rewrite (turn_posted_some fuel _ _ _ E2). cbn [mbind option_bind]. rewrite (turn_posted_some fuel _ _ _ E3). done.
Qed.

End Loop.

(** ** A kernel, and small worlds *)

Module Small.

Abbreviation kernel_table := (gmap Z (Z * ptr)).
Abbreviation small_world := (world (K := gmap Z (Z * ptr)) (U := list ptr)).

Definition kernel_ctl (op n : Z) (ee : Z * ptr) (k : gmap Z (Z * ptr)) : Z * gmap Z (Z * ptr) :=
  if n <? 0 then (-1, k)
  else
    match k !! n with
    | None => if op =? EPOLL_CTL_ADD then (0, <[n := ee]> k) else (-1, k)
    | Some _ => if op =? EPOLL_CTL_MOD then (0, <[n := ee]> k) else if op =? EPOLL_CTL_DEL then (0, delete n k) else (-1, k)
    end.

Instance kernel_map : Epoll (gmap Z (Z * ptr)) := {| epoll_ctl := kernel_ctl; sys_close n k := (0, delete n k); watched k n := k !! n |}.

Instance kernel_map_ok : EpollOk (K := gmap Z (Z * ptr)).
Proof.
  split; cbn; unfold kernel_ctl.
  - intros op n ee k rc k'. repeat case_match; intros [= <- <-]; auto.
  - intros op n ee k k'. repeat case_match; intros [= <-]; done.
  - intros n ee k k'. destruct (Z.ltb_spec n 0); [done |]. destruct (k !! n) eqn:E; [done |]. cbn. intros [= <-]. split; [done |]. split; [done |].
    intros f. destruct (Z.eqb_spec f n) as [-> |]; [apply lookup_insert_eq | by apply lookup_insert_ne].
  - intros n ee k k'. destruct (Z.ltb_spec n 0); [done |]. destruct (k !! n) eqn:E; [| done]. cbn. intros [= <-]. split; [done |]. split; [done |].
    intros f. destruct (Z.eqb_spec f n) as [-> |]; [apply lookup_insert_eq | by apply lookup_insert_ne].
  - intros n ee k k'. destruct (Z.ltb_spec n 0); [done |]. destruct (k !! n) eqn:E; [| done]. cbn. intros [= <-]. split; [done |]. split; [done |].
    intros f. destruct (Z.eqb_spec f n) as [-> |]; [apply lookup_delete_eq | by apply lookup_delete_ne].
  - intros n k f. destruct (Z.eqb_spec f n) as [-> |]; [apply lookup_delete_eq | by apply lookup_delete_ne].
Qed.

Definition base : event_base := {| ep := 3; event_flags := 0; event_list := 1%N; nevents := 64; posted_accept_events := 50%N; posted_events := 51%N |}.

Definition closed_conn (r v : ptr) : conn := {| fd := -1; c_read := r; c_write := v; listening_of := nullptr; ev_timer := nullptr; ev_base := 1%N |}.

(** Two connections of a pool; the data of the handlers is what they were called with. *)
Definition pool_world : small_world :=
  {| conns := <[16%N := closed_conn 100 101]> (<[32%N := closed_conn 102 103]> ∅);
     events := <[100%N := zero_event]> (<[101%N := zero_event]> (<[102%N := zero_event]> (<[103%N := zero_event]> ∅)));
     links_of := mk_queue 50 [] [51; 100; 101; 102; 103]%N; kernel := ∅; rest := [] |}.

Definition no_timer (e : ptr) (u : list ptr) : option (list ptr) := Some u.
Definition note (h e : ptr) (w : small_world) : option small_world := Some (with_rest (rest w ++ [e]) w).

(** [None] also when an operation is not allowed. *)
Definition allowedb (o : conn_op) (w : small_world) : bool :=
  match o with
  | Open cp s => match conns w !! cp with Some c => fd c =? NGX_INVALID_FILE | None => false end && (0 <? s) && bool_decide (map_Forall (fun _ x => fd x <> s) (conns w))
  | HandleRead cp | HandleWrite cp | DelRead cp | DelWrite cp | AddConn cp | DelConn cp => match conns w !! cp with Some c => negb (fd c =? NGX_INVALID_FILE) | None => false end
  | Close cp => match conns w !! cp with Some _ => true | None => false end
  end.

Lemma allowedb_allowed o w : allowedb o w = true -> allowed o w.
Proof.
  destruct o; cbn [allowedb allowed]; destruct (conns w !! cp) as [c |] eqn:Ec; try done; rewrite ?andb_true_iff, ?Z.eqb_eq, ?Z.ltb_lt, ?negb_true_iff, ?Z.eqb_neq, ?bool_decide_eq_true; eauto.
  intros [[? ?] Hf]. split; [eauto |]. split; [done |]. exact Hf.
Qed.

Fixpoint run_history (os : list conn_op) (w : small_world) : option small_world :=
  match os with [] => Some w | o :: os => if allowedb o w then w ← run_op no_timer base o w; run_history os w else None end.

Lemma run_history_reachable os w0 w w' : reachable no_timer base w0 w -> run_history os w = Some w' -> reachable no_timer base w0 w'.
Proof.
  revert w. induction os as [| o os IH]; intros w Hr; cbn; [by intros [= <-] |].
  destruct (allowedb o w) eqn:Ea; [| done]. destruct (run_op no_timer base o w) as [w1 |] eqn:E; [| done]. cbn. apply IH.
  eapply reachable_step; [exact Hr | by apply allowedb_allowed | exact E].
Qed.

Lemma pool_idle : idle pool_world.
Proof.
  split; [| split].
  - change (map_Forall (fun cp c => fd c = NGX_INVALID_FILE /\ cp <> nullptr /\ N.testbit cp 0 = false /\ c_read c <> c_write c /\
      is_Some (events pool_world !! c_read c) /\ is_Some (events pool_world !! c_write c)) (conns pool_world)).
    eapply bool_decide_unpack. vm_compute. exact I.
  - intros cp cp' c c' Hc. revert cp' c'. revert cp c Hc.
    change (map_Forall (fun cp c => map_Forall (fun cp' c' => cp <> cp' -> c_read c <> c_read c' /\ c_read c <> c_write c' /\ c_write c <> c_write c') (conns pool_world)) (conns pool_world)).
    eapply bool_decide_unpack. vm_compute. exact I.
  - done.
Qed.

(** The descriptor 5 is used by one connection, then by the other. *)
Definition history : list conn_op :=
  [Open 16 5; HandleRead 16; HandleWrite 16; DelRead 16; Close 16; Open 32 5; HandleRead 32; HandleWrite 32; Open 16 6; HandleRead 16].

(** The last turn of the history. *)
Definition after : small_world := default pool_world (run_history history pool_world).

Lemma after_runs : run_history history pool_world = Some after.
Proof. vm_compute. reflexivity. Qed.

(** With handlers: the second connection's read event is that of a listening socket. *)
Definition set_handler (e : event) : event :=
  with_handler (bool_decide (data e = 32%N) && negb (write e)) 7 e.
Definition armed : small_world := with_events (set_handler <$> events after) after.

Lemma consistent_fmap f (w : small_world) : (forall e, data (f e) = data e /\ instance (f e) = instance e /\ active (f e) = active e) ->
  consistent w -> consistent (with_events (f <$> events w) w).
Proof.
  intros Hf [He Ha Ho Hw]. split; cbn [conns with_events events kernel]; [| exact Ha | | exact Hw].
  - intros cp c Hc. rewrite !lookup_fmap, !fmap_is_Some. by apply He.
  - intros cp c r v Hc. rewrite !lookup_fmap, !fmap_Some. intros (r0 & Hr & ->) (v0 & Hv & ->).
    destruct (Ho _ _ _ _ Hc Hr Hv) as [? | [? Hag]]; [by left | right]. split; [done |].
    unfold agrees in *. cbn [kernel with_events]. destruct (Hf r0) as (-> & -> & ->), (Hf v0) as (-> & -> & ->). exact Hag.
Qed.

Lemma armed_consistent : consistent armed.
Proof.
  apply consistent_fmap; [by intros [] |]. refine (reachable_consistent no_timer _ base pool_world _ pool_idle _); [by eexists |].
  apply (run_history_reachable history pool_world pool_world); [constructor | exact after_runs].
Qed.

(** Both sides of the one connection, and the accept event of the other. *)
Definition reports : list (Z * ptr) := [(5, 33%N); (1, 16%N)].

Lemma armed_posts : accepts (concat (map (posts armed) reports)) = [102]%N /\ others (concat (map (posts armed) reports)) = [103; 100]%N.
Proof. vm_compute. split; reflexivity. Qed.

Lemma armed_events (P : conn -> Prop) `{!forall c, Decision (P c)} :
  bool_decide (map_Forall (fun _ c => P c) (conns armed)) = true -> forall p c, conns armed !! p = Some c -> P c.
Proof. intros Hb % bool_decide_eq_true p c. apply Hb. Qed.

Lemma armed_can_post r : r ∈ reports -> can_post base armed [] [] r.
Proof.
  unfold reports. rewrite !elem_of_cons, elem_of_nil. intros [-> | [-> | []]].
  all: eexists; split; [vm_compute; reflexivity |]; cbn [c_read c_write]; repeat (split; [first [done | eexists; vm_compute; reflexivity | solve_allocated] |]).
  all: split; split; by apply (bool_decide_unpack _); vm_compute.
Qed.

Lemma armed_queues : queues base armed [] [].
Proof. split; [| | by intros x; rewrite !elem_of_cons, elem_of_nil; cbn; intros [-> | []] [? | []]]; solve_is_queue. Qed.

Lemma note_leaves : leaves_waiting note base (fun u => u).
Proof. intros h e w xs ys [Hq Hw] _. eexists. split; [reflexivity |]. split; [| done]. split; [by destruct Hq | done]. Qed.

Lemma note_never_closes : never_close note.
Proof. intros h e w w' l [= <-] Ha. exact Ha. Qed.

(** *** What the code does not mean *)

(** Two listening sockets: the connection of the second is made for the first one's
    descriptor, which is watched already; the second is never watched. *)
Lemma second_listening_fails :
  match conn_listening_add_event (fun i => N.of_nat (200 + i)) (fun i => match i with O => (64, 110, 111) | _ => (66, 112, 113) end)%N
    [{| ls_fd := 8; ls_handler := 7; ls_connection := nullptr |}; {| ls_fd := 9; ls_handler := 7; ls_connection := nullptr |}] pool_world with
  | Some (rc, _, w) => rc = NGX_ERROR /\ watched (kernel w) 8 = Some (1, 65%N) /\ watched (kernel w) 9 = None
  | None => False
  end.
Proof. vm_compute. auto. Qed.

(** A connection that is closed and used again while its event is posted: the event's links
    are null, and the queue cannot be worked off. *)
Lemma reopened_while_posted :
  (w ← process_reports note base EVENT_POST_EVENTS reports armed;
   w ← run_history [Close 32; Open 32 9] w;
   Some (event_process_posted note 9 51 w)) = Some None.
Proof. vm_compute. reflexivity. Qed.

(** A peer whose descriptor is open already: connecting at once writes through a null
    pointer. *)
Lemma connect_again : (w ← run_history [Open 16 5] pool_world; conn_connect_peer 16 9 (0, false) w) = None.
Proof. vm_compute. reflexivity. Qed.

(** Reports handled at once: a read handler that frees its connection, as [channel_handler]
    does when the channel is closed, and the connection is read again for its write event. *)
Lemma freed_by_its_handler :
  process_report (fun h e w => w ← conn_close no_timer base 16 w; conn_free_mem 16 w) base EVENT_UPDATE_TIME (1, 16%N) armed = None.
Proof. vm_compute. reflexivity. Qed.

End Small.

Import Small.

(** ** The properties on them *)

Lemma epoll_watches_the_active_witness :
  (forall o, allowed o after -> is_Some (run_op no_timer base o after)) /\ watched (kernel after) 5 = Some (5, 33%N) /\ watched (kernel after) 6 = Some (1, 16%N).
Proof.
  destruct (epoll_watches_the_active no_timer (ltac:(by eexists)) base pool_world after pool_idle
    (run_history_reachable history pool_world pool_world after (reachable_start _ _ _) after_runs)) as (H & _ & _).
  split; [exact H |]. vm_compute. split; reflexivity.
Defined.

Lemma posted_round_witness :
  exists w', thread_event_process note (fun _ => Some 25) (fun u => Z.of_nat (length u)) Some base true (fun timer => (if timer =? 10 then 2 else 0, false, reports)) None 3 armed = Some w' /\
    rest w' = [102; 103; 100]%N.
Proof.
  destruct armed_posts as [Ha Hb].
  destruct (posted_round note base (fun u => u) (fun _ => Some 25) (fun u => Z.of_nat (length u)) Some (fun timer => (if timer =? 10 then 2 else 0, false, reports)) None 25 reports 3 armed)
    as (w' & L & H & _ & Hlog & _ & Hall).
  - done.
  - done.
  - exact armed_consistent.
  - exact armed_queues.
  - exact armed_can_post.
  - by apply (bool_decide_unpack _); vm_compute.
  - intros p c Hc. by apply (armed_events (fun c => c_read c <> nullptr /\ c_write c <> nullptr)) in Hc.
  - exact note_leaves.
  - done.
  - rewrite Ha. cbn. lia.
  - rewrite Hb. cbn. lia.
  - exists w'. split; [rewrite H; by destruct (negb _) |]. rewrite Hlog, (Hall note_never_closes), Ha, Hb. vm_compute. reflexivity.
Defined.
